(* ===== verification/_CoqProject ===== *)
-Q . S2P
Prelude.v
Text.v
ErrorCodes.v
Duration.v
RetryPolicy.v
Scheduler.v
Fairness.v
Kernel.v
Runner.v
Wake.v
Sql.v
AlarmStore.v
QueueDb.v
QueueInv.v
QueueStore.v
QueueEnqueue.v
QueueConsumer.v
QueueStmt.v
QueueWf.v
QueueDelivery.v
QueueReach.v
QueueProducer.v
QueueRetention.v
QueueClaim.v
QueueComplete.v
QueueFindings.v
CronSlots.v
CronStore.v
CronInv.v
CronClaim.v
CronComplete.v
CronProject.v
CronReach.v
CronService.v
Recovery.v
QueueService.v
AlarmService.v
Claims.v
Service.v
WorkflowTypes.v
WorkflowDb.v
WorkflowRuns.v
WorkflowSteps.v
WorkflowBatch.v
WorkflowHistory.v
WorkflowLifecycle.v
WorkflowOperations.v
WorkflowSpec.v
WorkflowVerify.v
WorkflowStmt.v
WorkflowEvolve.v
WorkflowMoves.v
WorkflowReach.v
WorkflowProps.v
WorkflowTheorems.v
WorkflowAccept.v
WorkflowLiveness.v
WorkflowControl.v
WorkflowCatalog.v
WorkflowBindings.v
WorkflowReservations.v
WorkflowIntents.v
WorkflowIntegrity.v
WorkflowControlInv.v
WorkflowControlMoves.v
WorkflowControlOps.v
WorkflowControlInstances.v
WorkflowControlWorkers.v
WorkflowControlReach.v
WorkflowControlTheorems.v
WorkflowController.v
WorkflowFrame.v
WorkflowWorld.v
WorkflowWorldMoves.v
WorkflowWorldBatch.v
WorkflowWorldOps.v
WorkflowWorldCalls.v
WorkflowWorldLive.v
WorkflowWorldTheorems.v
