(* ===== verification/Prelude.v ===== *)
(** * open-compute: a verification development

    open-compute is a self-hosted service that runs JavaScript workers and the products
    around them.  This library models the part of it that must not lose work: the
    scheduler, its SQLite stores and the policies they share, the catalog of workflow
    definitions in the control database and the controller that keeps both databases in
    step.  All paths are under [src/crates/].

    ** The program

    One process owns one scheduler database.  Four pools take work from it: alarms of
    durable objects, batches of queue messages, cron runs and workflow runs.  The run
    loop ([service/src/scheduler/runner.rs]) repeats: it refreshes the state of the pools,
    asks the fair selector which pools may take how many permits, claims work from their
    stores, reserves the permits and spawns one task for each claimed job.  A task calls
    the runtime and settles its job in the store.  Between cycles the loop sleeps until
    the earliest deadline or a notification.  After a restart the claims of the stopped
    process are taken back.

    A workflow lives in two databases.  The control database has its definition, the
    versions, the bindings of callers, a reservation for each instance, which pins the
    artifacts of its version, and the intents of restarts and purges.  The scheduler
    database has its run, steps and events.  No transaction spans both: the controller
    ([workers/src/workflows.rs], [workflow_lifecycle.rs]) commits one of them at a time,
    and its reconciliation settles what a stopped process left open.

    ** Files

    Foundations
    - [Prelude]: results, machine integers, loops, generic lemmas.
    - [Text]: strings as lists of code points, decimal numbers, splitting, JSON texts.
    - [Sql]: the state-and-error monad of the stores, transactions, [SELECT], [UPDATE] and
      [DELETE] over lists of rows, the hint database of failure atomicity, and the errors and
      tokens of the scheduler database ([storage/src/scheduler/helpers.rs]).

    Values and policies ([core/src/])
    - [ErrorCodes]: [error.rs] and [error/code.rs], every code with its spelling.
    - [Duration], [RetryPolicy]: [workflow/duration.rs] and [workflow/policy.rs].
    - [CronSlots]: [cron.rs], the parsing of expressions and the search for slots.

    Run loop ([service/src/scheduler/] and [core/src/scheduler.rs])
    - [Scheduler]: kinds, pool states, configuration.
    - [Fairness]: the deficit round robin selector ([fairness.rs]).
    - [Kernel]: permits, backoff and circuits ([kernel.rs]).
    - [Runner]: cycles, completions, deadlines and draining ([runner.rs]).
    - [Wake]: the wake coordinator under every interleaving ([wake.rs]); a poll is two steps, its
      check without the lock and the one under it.

    Stores ([storage/src/scheduler/])
    - [AlarmStore]: alarms of durable objects ([storage/src/scheduler.rs]), with their state
      machine.
    - [QueueDb], [QueueInv], [QueueStore], [QueueEnqueue], [QueueConsumer]: tables,
      triggers and operations of the queue store; [QueueStmt], [QueueWf],
      [QueueDelivery] and [QueueReach] keep its invariant and have a concrete database;
      [QueueProducer], [QueueRetention], [QueueClaim] and [QueueComplete] prove the
      operations; [QueueFindings] has two defects.
    - [CronStore], [CronInv], [CronClaim], [CronComplete], [CronProject], [CronReach]: the
      same for the cron store ([cron.rs], [cron/delivery.rs], [cron/inspection.rs]).
    - [Recovery]: the restart ([recovery.rs], [reset_claims.sql]).

    Durable workflows ([core/src/workflow/], [storage/src/scheduler/workflow/])
    - [WorkflowTypes]: descriptors, durable values, events, identities and limits.
    - [WorkflowDb]: the tables with the constraints and triggers of migrations V21 and V24.
    - [WorkflowRuns], [WorkflowSteps], [WorkflowBatch], [WorkflowLifecycle],
      [WorkflowOperations]: the operations of [durable_runs.rs], [durable_settlement.rs],
      [durable_waits.rs], [durable_steps.rs], [durable_lifecycle.rs], [durable_due.rs],
      [durable_operations.rs], [durable_progress.rs] and [durable_gc.rs].
    - [WorkflowHistory]: the verification of a history ([durable_history.rs]).
    - [WorkflowSpec], [WorkflowVerify]: what a valid history is, and that the scan decides it.
    - [WorkflowStmt], [WorkflowEvolve], [WorkflowMoves], [WorkflowReach]: every operation is
      a sequence of statements that keep a history valid.
    - [WorkflowProps], [WorkflowTheorems]: finality, fencing, settlement, events, replay,
      with a concrete run and four defects.
    - [WorkflowAccept], [WorkflowLiveness]: which reports are accepted, and that expired runs
      are recovered.

    Workflow catalog ([storage/src/workflows/], [storage/src/worker_repository/], migrations
    V1, V7, V9 and V10 of the control database)
    - [WorkflowControl]: tables, constraints and triggers.
    - [WorkflowCatalog], [WorkflowBindings], [WorkflowReservations], [WorkflowIntents],
      [WorkflowIntegrity]: definitions and versions, bindings and the Worker versions they
      pin, instance reservations, prepared operations, the check at start-up.
    - [WorkflowControlInv], [WorkflowControlMoves], [WorkflowControlOps],
      [WorkflowControlInstances], [WorkflowControlWorkers], [WorkflowControlReach]: the
      invariant of the catalog and what calls never undo.
    - [WorkflowControlTheorems]: the properties.

    Workflow controller ([workers/src/workflows.rs], [workers/src/workflow_lifecycle.rs])
    - [WorkflowController]: every call as a saga, a tree of transactions of one database each.
    - [WorkflowFrame]: what executors and catalog calls leave alone.
    - [WorkflowWorld]: when the two databases agree, and the rules by which a saga keeps the
      agreement wherever it stops, beside any executor and catalog calls.
    - [WorkflowWorldMoves], [WorkflowWorldBatch]: each transaction of a saga; [WorkflowWorldOps],
      [WorkflowWorldCalls]: each call, and the reachable worlds.
    - [WorkflowWorldLive], [WorkflowWorldTheorems]: what the reconciliation settles, the
      properties, and the executions that break them.

    Deliveries and composition ([service/src/scheduler/])
    - [AlarmService], [QueueService], [CronService]: [alarm.rs], [queue.rs], [cron.rs] and
      the validation of answers in [runtime_bridge/transport.rs].
    - [Claims]: the interface between a store and the loop, a type class with one instance
      for each store.
    - [Service]: the loop and the stores as one state machine.

    ** Correspondence

    A table is a finite map or a list of rows with the columns of its schema; its
    constraints and triggers are guards of the statements.  A store call is a function of
    the monad [M]: it threads the tables, returns a value or the error of the code, and
    an error inside a transaction restores the tables.  Integers are unbounded, with the
    checks, saturations and wraps of the code written out at their width.  Identifiers are
    natural numbers.  Definitions keep the names of the source.

    What the program reads from outside is an input of the definitions: clocks, generated
    identifiers, the answers of the runtime, the verdict of the storage admission, what
    Worker transactions do to other products, SHA-256, the regular expression and the
    parser of cron expressions, and the calendar.  Theorems that need something of them
    say so in a hypothesis.

    The controller has no lock across its transactions.  Its theorems are about calls of
    the controller one after another, each stopped anywhere, with executors and catalog
    calls between any two transactions, and with identities for new instances that the
    scheduler has not seen.  A creation may be repeated while the purge of its instance is
    prepared: the row it inserts again is a case of the agreement of the databases
    ([revived]), and [revived_blocks_reconciliation] shows what it does to the reconciliation.
    [overlapping_calls_disable] has two executions with overlapping calls.

    ** Theorems

    - Invariants: every reachable state of each store is well formed, whatever calls are
      made and whether or not they succeed.  Counters are exact, claims are backed by
      live batches, runs satisfy the constraints of their table.
    - Operations: claims take exactly the due work, in order and within their limits;
      completions settle exactly their job; sweeps and history passes delete exactly what
      is due; enqueues are exact, idempotent and refuse conflicts.
    - Safety: a batch is completed at most once, a claim is exclusive, an overwritten
      alarm fences its claim, deliveries of a run are bounded.
    - Refinement: the cron store implements an abstract life cycle of a run.
    - Workflows: every reachable history verifies and its projections are exact; settled
      steps, attempts and terminal instances never change; a lost run is refused for good;
      reports settle exactly their attempt, once; operations are replayed.
    - Catalog: every clause of the start-up check but two holds of every reachable catalog;
      pinned artifacts stay, superseded uploads are fenced, history never runs backwards.
    - Two databases: catalog and scheduler agree in every reachable world; a claimed run is
      of a published instance; stopped creations are settled as a whole and decided
      operations are finished, save purges whose instance was created again, which end every
      reconciliation; a rollback request disables the definition of its instance.
    - Liveness: a dispatch of an alarm or a cron run releases it whatever is answered, and one
      of a queue batch settles it or, when a dead letter is refused, leaves the tables as they
      were; a restart takes every delivery back unless a dead-letter queue was replaced; purges
      drain a queue; notifications are not lost; timers do not oversleep; an admissible report
      of the executor that holds a workflow run is committed, and expired runs without
      cancelled steps are taken back.
    - Fairness and bounds: selection is work conserving, and proportional
      among the pools that stay ready whatever the others do; delays stay
      within their caps; durations and retry delays are exact.
    - Composition: the whole service keeps its permits and its tables, and a cycle never
      ends the loop.

    ** Bounds and fuel

    Loops over rows are structural.  The slot search of cron runs a loop with a bound that
    is one more than the number of minutes the code allows, and [slots_exact] shows that
    it ends within it.  No other definition uses fuel.

    ** Not modelled

    The workflow controller is not composed with [Service], where workflow claims are a
    parameter; the service makes one controller for each request and each tick.  The rows of
    [workflow_step_dependencies] are part of their step, so that the checks of the
    verification for rows without a step or beside its count have no counterpart.  Of the invariants that
    opening the control database checks only those of the workflow catalog are.  Listings,
    inspection pages and samples only read the modelled tables.  The catalogs of queues,
    cron triggers and durable objects, the admission of storage and the configuration are
    left out.  D1, KV, R2, caches and search execute SQL, HTTP and vector code of libraries
    that are not part of the repository, and their remaining logic is left out with them.
    Failures of SQLite and of the file system, metrics, logging and tokio itself are left
    out, as are the HTTP surface and the JavaScript packages. *)

From stdpp Require Import base numbers list option strings sorting.

(** ** Results: Rust's [Result<A, E>] *)

Inductive result (E A : Type) : Type :=
| Ok (a : A)
| Err (e : E).
Arguments Ok {E A} a.
Arguments Err {E A} e.

#[export] Instance result_ret {E} : MRet (result E) := λ A a, Ok a.
#[export] Instance result_bind {E} : MBind (result E) := λ A B k m,
  match m with Ok a => k a | Err e => Err e end.
#[export] Instance result_fmap {E} : FMap (result E) := λ A B f m,
  match m with Ok a => Ok (f a) | Err e => Err e end.
#[export] Instance result_eq_dec {E A} `{EqDecision E, EqDecision A} :
  EqDecision (result E A).
Proof. solve_decision. Defined.

(** [o.ok_or_else(|| e)] *)
Definition ok_or_else {E A} (o : option A) (e : E) : result E A :=
  match o with Some a => Ok a | None => Err e end.

(** [r.ok()] *)
Definition result_ok {E A} (r : result E A) : option A :=
  match r with Ok a => Some a | Err _ => None end.

Definition is_ok {E A} (r : result E A) : bool :=
  match r with Ok _ => true | Err _ => false end.

(** An [if guard { return Err(e) }] statement. *)
Definition bail_if {E} (P : Prop) `{!Decision P} (e : E) : result E unit :=
  if decide P then Err e else Ok ().

Lemma bail_if_Ok {E} (P : Prop) `{!Decision P} (e : E) u : bail_if P e = Ok u → ¬ P.
Proof. unfold bail_if. by case_decide. Qed.

(** [o.is_some_and(|a| P a)] *)
Definition is_some_and {A} (P : A → Prop) (o : option A) : Prop :=
  match o with Some a => P a | None => False end.
#[export] Instance is_some_and_dec {A} (P : A → Prop) `{!∀ a, Decision (P a)} o :
  Decision (is_some_and P o) := match o with Some a => _ : Decision (P a) | None => _ : Decision False end.

(** [o.is_none_or(|a| P a)] *)
Definition is_none_or {A} (P : A → Prop) (o : option A) : Prop :=
  match o with Some a => P a | None => True end.
#[export] Instance is_none_or_dec {A} (P : A → Prop) `{!∀ a, Decision (P a)} o :
  Decision (is_none_or P o) := match o with Some a => _ : Decision (P a) | None => _ : Decision True end.

(** Opens a successful chain of [?] steps. *)
Ltac destruct_result :=
  repeat match goal with
  | H : mbind _ ?m = Ok _ |- _ =>
      let Hm := fresh "Hm" in destruct m as [?|?] eqn:Hm; [cbn [mbind result_bind] in H|done]
  | H : ok_or_else ?o _ = Ok _ |- _ =>
      let Ho := fresh "Ho" in destruct o as [?|] eqn:Ho; [cbn in H; injection H as H|done]
  end.

(** ** Machine integers

    A machine integer is a [Z]; the width appears in the operation that can
    leave the range. *)

Abbreviation i64_min := (-9223372036854775808)%Z (only parsing).
Abbreviation i64_max := 9223372036854775807%Z (only parsing).
Abbreviation u64_max := 18446744073709551615%Z (only parsing).
Abbreviation u32_max := 4294967295%Z (only parsing).
Abbreviation u16_max := 65535%Z (only parsing).

Definition in_i64 (z : Z) : Prop := (i64_min ≤ z ≤ i64_max)%Z.
Definition in_u64 (z : Z) : Prop := (0 ≤ z ≤ u64_max)%Z.
Definition in_u32 (z : Z) : Prop := (0 ≤ z ≤ u32_max)%Z.
Definition in_u16 (z : Z) : Prop := (0 ≤ z ≤ u16_max)%Z.
#[export] Instance in_i64_dec z : Decision (in_i64 z).
Proof. unfold in_i64. apply _. Defined.
#[export] Instance in_u64_dec z : Decision (in_u64 z).
Proof. unfold in_u64. apply _. Defined.
#[export] Instance in_u32_dec z : Decision (in_u32 z).
Proof. unfold in_u32. apply _. Defined.
#[export] Instance in_u16_dec z : Decision (in_u16 z).
Proof. unfold in_u16. apply _. Defined.

(** The value of a checked operation of exact result [z]:
    [checked_add], [checked_mul], [try_from] and the like. *)
Definition i64_checked (z : Z) : option Z := if decide (in_i64 z) then Some z else None.
Definition u64_checked (z : Z) : option Z := if decide (in_u64 z) then Some z else None.
Definition u32_checked (z : Z) : option Z := if decide (in_u32 z) then Some z else None.
Definition u16_checked (z : Z) : option Z := if decide (in_u16 z) then Some z else None.

(** The value of a saturating operation of exact result [z]. *)
Definition i64_saturate (z : Z) : Z := Z.max i64_min (Z.min i64_max z).
Definition u64_saturate (z : Z) : Z := Z.max 0 (Z.min u64_max z).
Definition u32_saturate (z : Z) : Z := Z.max 0 (Z.min u32_max z).
Definition u16_saturate (z : Z) : Z := Z.max 0 (Z.min u16_max z).

(** The value of a wrapping operation of exact result [z]. *)
Definition u64_wrap (z : Z) : Z := (z mod 2 ^ 64)%Z.

Lemma i64_checked_Some z z' : i64_checked z = Some z' ↔ z' = z ∧ in_i64 z.
Proof. unfold i64_checked. case_decide; split; intros; destruct_and?; simplify_eq; done. Qed.
Lemma u64_checked_Some z z' : u64_checked z = Some z' ↔ z' = z ∧ in_u64 z.
Proof. unfold u64_checked. case_decide; split; intros; destruct_and?; simplify_eq; done. Qed.
Lemma i64_checked_in z : in_i64 z → i64_checked z = Some z.
Proof. intros. by apply i64_checked_Some. Qed.
Lemma u64_checked_in z : in_u64 z → u64_checked z = Some z.
Proof. intros. by apply u64_checked_Some. Qed.
Lemma u64_saturate_id z : in_u64 z → u64_saturate z = z.
Proof. unfold u64_saturate, in_u64. lia. Qed.
Lemma u64_saturate_range z : in_u64 (u64_saturate z).
Proof. unfold u64_saturate, in_u64. lia. Qed.

(** ** Bounded loops

    [loop_upto f n a] runs the body [f] of a loop at most [n] times from [a]: [inl] is
    the state to go on with and [inr] a result.  The count is binary, so that a loop
    with a large bound that ends early still evaluates. *)

Section loops.
Context {A B : Type} (f : A → A + B).

Fixpoint loop_upto (n : positive) (a : A) : A + B :=
  match n with
  | xH => f a
  | xO n => match loop_upto n a with inl a => loop_upto n a | inr b => inr b end
  | xI n =>
      match f a with
      | inl a => match loop_upto n a with inl a => loop_upto n a | inr b => inr b end
      | inr b => inr b
      end
  end.

Fixpoint loop_times (n : nat) (a : A) : A + B :=
  match n with
  | O => inl a
  | S n => match f a with inl a => loop_times n a | inr b => inr b end
  end.

Lemma loop_times_add n m a :
  loop_times (n + m) a = match loop_times n a with inl a => loop_times m a | inr b => inr b end.
Proof. revert a. induction n as [|n IH]; intros a; cbn; [done|]. by destruct (f a). Qed.

Lemma loop_upto_times n a : loop_upto n a = loop_times (Pos.to_nat n) a.
Proof.
  revert a. induction n as [n IH|n IH|]; intros a.
  - rewrite Pos2Nat.inj_xI, <-Nat.add_1_r, Nat.add_comm. cbn [loop_upto Nat.add loop_times].
    destruct (f a) as [a'|]; [|done]. replace (2 * Pos.to_nat n)%nat with (Pos.to_nat n + Pos.to_nat n)%nat by lia.
    rewrite loop_times_add, IH. by destruct (loop_times _ a').
  - rewrite Pos2Nat.inj_xO. replace (2 * Pos.to_nat n)%nat with (Pos.to_nat n + Pos.to_nat n)%nat by lia.
    rewrite loop_times_add. cbn [loop_upto]. rewrite IH. by destruct (loop_times _ a).
  - rewrite Pos2Nat.inj_1. cbn. by destruct (f a).
Qed.

(** A loop whose measure falls below its bound ends, and what holds of its states
    holds where it ends. *)
Lemma loop_upto_inv (I : A → Prop) (Q : B → Prop) (measure : A → Z) n a :
  (∀ a a', I a → f a = inl a' → I a' ∧ (measure a' < measure a)%Z) →
  (∀ a b, I a → f a = inr b → Q b) → (∀ a, I a → (0 ≤ measure a)%Z) →
  I a → (measure a < Zpos n)%Z → ∃ b, loop_upto n a = inr b ∧ Q b.
Proof.
  intros Hstep Hend Hpos Ha Hn. rewrite loop_upto_times.
  assert (H : (measure a < Z.of_nat (Pos.to_nat n))%Z) by lia. clear Hn. revert a Ha H.
  generalize (Pos.to_nat n) as k. intros k. induction k as [|k IH]; intros a Ha Hk.
  { specialize (Hpos a Ha). lia. }
  cbn. destruct (f a) as [a'|b] eqn:Hf.
  - destruct (Hstep _ _ Ha Hf). apply IH; [done|lia].
  - exists b. split; [done|]. by eapply Hend.
Qed.

(** What holds of the states of a loop holds where it ends, if it ends. *)
Lemma loop_upto_partial (I : A → Prop) (Q : B → Prop) n a b :
  (∀ a a', I a → f a = inl a' → I a') → (∀ a b, I a → f a = inr b → Q b) →
  I a → loop_upto n a = inr b → Q b.
Proof.
  intros Hstep Hend Ha. rewrite loop_upto_times. revert a Ha.
  generalize (Pos.to_nat n) as k. intros k. induction k as [|k IH]; intros a Ha; [done|]. cbn.
  destruct (f a) as [a'|b'] eqn:Hf; [by eauto|]. intros [= ->]. by eapply Hend.
Qed.
End loops.
