(* ===== verification/Text.v ===== *)
(** * Text

    The part of Rust's [str] the sources use.  A string slice is the list of its
    Unicode scalar values; its byte length is that of the UTF-8 encoding. *)

From stdpp Require Import base numbers list strings.
From Stdlib Require Import Ascii.
From S2P Require Import Prelude.

Local Open Scope Z_scope.

(** A Rust string slice, as its scalar values. *)
Definition ustr : Type := list Z.

(** A string literal of the source. *)
Fixpoint lit (s : string) : ustr :=
  match s with
  | EmptyString => []
  | String c s => Z.of_N (N_of_ascii c) :: lit s
  end.

(** [char::len_utf8] *)
Definition len_utf8 (c : Z) : Z :=
  if decide (c < 128) then 1 else if decide (c < 2048) then 2
  else if decide (c < 65536) then 3 else 4.

(** [str::len]: UTF-8 bytes *)
Definition str_len (s : ustr) : Z := foldr (λ c n, len_utf8 c + n) 0 s.

(** [u8::is_ascii_digit] on the bytes of a scalar value: only a one-byte scalar
    can be a digit. *)
Definition is_digit (c : Z) : Prop := 48 ≤ c ≤ 57.
#[export] Instance is_digit_dec c : Decision (is_digit c).
Proof. unfold is_digit. apply _. Defined.

(** [str::to_ascii_lowercase] *)
Definition lowercase (c : Z) : Z := if decide (65 ≤ c ≤ 90) then c + 32 else c.
Definition to_ascii_lowercase (s : ustr) : ustr := lowercase <$> s.

(** [str::trim_start_matches], [str::trim_matches], [str::find] and [str::split_once] *)
Fixpoint trim_start (P : Z → bool) (s : ustr) : ustr :=
  match s with
  | c :: s' => if P c then trim_start P s' else s
  | [] => []
  end.
Definition trim_matches (P : Z → bool) (s : ustr) : ustr :=
  reverse (trim_start P (reverse (trim_start P s))).
Fixpoint split_at_first (P : Z → bool) (s : ustr) : option (ustr * ustr) :=
  match s with
  | [] => None
  | c :: s' =>
      if P c then Some ([], s)
      else '(l, r) ← split_at_first P s'; Some (c :: l, r)
  end.
Definition split_once (sep : Z) (s : ustr) : option (ustr * ustr) :=
  '(l, r) ← split_at_first (Z.eqb sep) s; Some (l, tail r).

(** [u8::is_ascii_control] and [u8::is_ascii_whitespace]: no byte of a multi-byte
    scalar is either. *)
Definition is_ascii_control (c : Z) : Prop := 0 ≤ c ≤ 31 ∨ c = 127.
Definition is_ascii_whitespace (c : Z) : Prop := c = 32 ∨ c = 9 ∨ c = 10 ∨ c = 12 ∨ c = 13.
#[export] Instance is_ascii_control_dec c : Decision (is_ascii_control c).
Proof. unfold is_ascii_control. apply _. Defined.
#[export] Instance is_ascii_whitespace_dec c : Decision (is_ascii_whitespace c).
Proof. unfold is_ascii_whitespace. apply _. Defined.

(** [str::to_ascii_uppercase] *)
Definition uppercase (c : Z) : Z := if decide (97 ≤ c ≤ 122) then c - 32 else c.
Definition to_ascii_uppercase (s : ustr) : ustr := uppercase <$> s.

(** [char::is_whitespace], the Unicode property, and [str::trim] *)
Definition is_whitespace (c : Z) : Prop :=
  9 ≤ c ≤ 13 ∨ c = 32 ∨ c = 133 ∨ c = 160 ∨ c = 5760 ∨ 8192 ≤ c ≤ 8202 ∨ c = 8232 ∨ c = 8233 ∨
  c = 8239 ∨ c = 8287 ∨ c = 12288.
#[export] Instance is_whitespace_dec c : Decision (is_whitespace c).
Proof. unfold is_whitespace. apply _. Defined.
Definition ws_char (c : Z) : bool := bool_decide (is_whitespace c).
Definition trim (s : ustr) : ustr := trim_matches ws_char s.

(** [str::split] on a character, [str::split_ascii_whitespace] and [join] *)
Fixpoint split_where (P : Z → bool) (s : ustr) : list ustr :=
  match s with
  | [] => [[]]
  | c :: s =>
      if P c then [] :: split_where P s
      else match split_where P s with w :: ws => (c :: w) :: ws | [] => [[c]] end
  end.
Definition split (sep : Z) (s : ustr) : list ustr := split_where (Z.eqb sep) s.
Definition split_ascii_whitespace (s : ustr) : list ustr :=
  filter (λ w, w ≠ []) (split_where (λ c, bool_decide (is_ascii_whitespace c)) s).
Fixpoint join (sep : Z) (ws : list ustr) : ustr :=
  match ws with
  | [] => []
  | [w] => w
  | w :: ws => w ++ sep :: join sep ws
  end.

(** [str::parse::<u8>]: an optional sign and decimal digits *)
Definition decimal (s : ustr) : Z := foldl (λ n c, n * 10 + (c - 48)) 0 s.
Definition parse_u8 (s : ustr) : option Z :=
  let digits := match s with 43 :: s => s | _ => s end in
  if decide (digits ≠ [] ∧ Forall is_digit digits ∧ decimal digits ≤ 255) then Some (decimal digits)
  else None.

Lemma str_len_app s t : str_len (s ++ t) = str_len s + str_len t.
Proof. unfold str_len. induction s as [|c s IH]; cbn; [done|]. rewrite IH. lia. Qed.

Lemma len_utf8_range c : 1 ≤ len_utf8 c ≤ 4.
Proof. unfold len_utf8. repeat case_decide; lia. Qed.

Lemma str_len_length s : Z.of_nat (length s) ≤ str_len s.
Proof.
  induction s as [|c s IH]; [done|]. cbn [length].
  change (str_len (c :: s)) with (len_utf8 c + str_len s).
  pose proof (len_utf8_range c). lia.
Qed.

Lemma split_where_length P s : split_where P s ≠ [].
Proof. destruct s as [|c s]; cbn; [done|]. by destruct (P c), (split_where P s). Qed.

Lemma split_where_app P w s :
  Forall (λ c, P c = false) w →
  split_where P (w ++ s) =
    match split_where P s with x :: xs => (w ++ x) :: xs | [] => [w] end.
Proof.
  induction 1 as [|c w Hc Hw IH]; cbn.
  - pose proof (split_where_length P s). by destruct (split_where P s).
  - rewrite Hc, IH. by destruct (split_where P s).
Qed.

(** Splitting undoes joining. *)
Lemma split_where_join P sep ws :
  P sep = true → ws ≠ [] → Forall (Forall (λ c, P c = false)) ws → split_where P (join sep ws) = ws.
Proof.
  intros Hsep Hne Hws. induction Hws as [|w ws Hw Hws IH]; [done|]. destruct ws as [|w' ws].
  - cbn. rewrite <-(app_nil_r w) at 1. rewrite split_where_app by done. cbn. by rewrite app_nil_r.
  - change (join sep (w :: w' :: ws)) with (w ++ sep :: join sep (w' :: ws)).
    rewrite split_where_app by done. cbn [split_where]. rewrite Hsep, IH by done. by rewrite app_nil_r.
Qed.

(** The words of a split contain no separator. *)
Lemma split_where_words P s : Forall (Forall (λ c, P c = false)) (split_where P s).
Proof.
  induction s as [|c s IH]; cbn; [by constructor|]. destruct (P c) eqn:Hc; [by constructor|].
  pose proof (split_where_length P s). destruct (split_where P s) as [|w ws]; [done|].
  apply Forall_cons in IH as [??]. by repeat constructor.
Qed.

Lemma uppercase_idemp c : uppercase (uppercase c) = uppercase c.
Proof. unfold uppercase. repeat case_decide; lia. Qed.
Lemma to_ascii_uppercase_idemp s : to_ascii_uppercase (to_ascii_uppercase s) = to_ascii_uppercase s.
Proof. unfold to_ascii_uppercase. induction s as [|c s IH]; [done|]. by rewrite !fmap_cons, uppercase_idemp, IH. Qed.

Lemma trim_start_fixed P c s : P c = false → trim_start P (c :: s) = c :: s.
Proof. intros Hc. cbn. by rewrite Hc. Qed.

(** A text that neither starts nor ends with what is trimmed is not changed. *)
Lemma trim_matches_fixed P c s d :
  P c = false → P d = false → head (c :: s) = Some c → last (c :: s) = Some d →
  trim_matches P (c :: s) = c :: s.
Proof.
  intros Hc Hd _ Hl. unfold trim_matches. rewrite trim_start_fixed by done.
  apply last_Some in Hl as [s' Hs]. rewrite Hs, reverse_snoc, trim_start_fixed by done.
  by rewrite reverse_cons, reverse_involutive.
Qed.
