(* ===== verification/ErrorCodes.v ===== *)
(** * Stable error codes

    [ErrorCode] with every variant of [crates/core/src/error.rs], its
    operator-visible spelling ([as_str] of [error/code.rs]) and the decoder of
    persisted codes ([from_stable_str]), which goes through serde's
    [rename_all = "SCREAMING_SNAKE_CASE"] rule on the variant identifiers. *)

From stdpp Require Import base list strings.
From Stdlib Require Import Ascii.
From S2P Require Import Prelude.

(** ** The enumeration *)

Inductive ErrorCode : Type :=
| ConfigPathInvalid | ConfigParseFailed | ConfigInvalid | RuntimeInvalid | ConfigCompileFailed |
  MigrationFailed | SchemaTooNew | MasterKeyMismatch | ObjectStorageUnavailable |
  ObjectStorageIntegrityError | ObjectStorageAuthorityMismatch | ObjectStorageCapacity |
  CacheEntryCorrupt | RuntimeExitedBeforeReady | RuntimeExitedInFlight | ProcessKilled |
  DiskHardLimit | QuotaExceeded | AdmissionBusy | StoragePressure | PlatformUnavailable |
  SnapshotInvalid | RestoreInvalid | SchemaUnsupported | ReleaseUnsupported |
  SupportBundleInvalid | DataDirInUse | AdminAuthRequired | SecretRefInvalid | PathInvalid |
  ObjectStoragePrefixInvalid | CacheBoundsInvalid | LimitInvalid | ArtifactIntegrityError |
  WorkerNotFound | WorkerNameConflict | WorkerDeleted | VersionNotFound | VersionNotReady |
  VersionActive | VersionReferenced | ServiceBindingDenied | ServiceTargetNotReady |
  ServiceUnavailable | ServiceEntrypointNotFound | ServiceLimitExceeded | ServiceTimeout |
  ServiceTargetReferenced | VersionInvariantViolation | BundleInvalid | BundleTooLarge |
  BundleRuntimeInvalid | CompatibilityUnsupported | ArtifactUnavailable | RouteNotFound |
  RouteConflict | EntrypointNotFound | SecretInvalid | IdempotencyConflict | RuntimeUnavailable |
  RuntimeResultUnknown | ResourceLimitExceeded | AssetManifestInvalid | AssetPathInvalid |
  AssetLimitExceeded | AssetUploadIncomplete | AssetUploadConflict | AssetIntegrityError |
  AssetStorageUnavailable | AssetConfigUnsupported | ResourceNotFound | ResourceNameConflict |
  ResourceNotReady | ResourceReferenced | ResourceUnavailable | ResourceInvariantViolation |
  BindingNotFound | BindingTypeMismatch | BindingPermissionDenied |
  BindingCapabilityUnsupported | BindingProtocolError | BindingLimitExceeded | KvKeyInvalid |
  KvKeyTooLarge | KvValueTooLarge | KvMetadataInvalid | KvMetadataTooLarge | KvInvalidOptions |
  KvTooManyKeys | KvResponseTooLarge | KvCursorInvalid | KvBusy | KvStorageFull | KvUnavailable |
  KvCorrupt | KvResultUnknown | KvInternalProtocolError | R2KeyTooLarge | R2InvalidOptions |
  R2ChecksumMismatch | R2SsecInvalid | R2MultipartInvalid | R2ObjectTooLarge |
  R2MetadataTooLarge | R2CursorInvalid | R2BucketNotEmpty | R2PreconditionFailed | R2Overloaded |
  R2ProviderUnavailable | R2ResultUnknown | R2ObjectMetadataInvalid | R2PrefixCollision |
  D1TypeError | D1SqlInvalid | D1ParameterMismatch | D1AuthorizerDenied | D1LimitError |
  D1Timeout | D1ColumnNotFound | D1InvalidBatch | D1SessionError | D1DumpError |
  D1MigrationDrift | D1DatabaseFull | D1Overloaded | D1ResultUnknown | D1DatabaseCorrupt |
  D1IdentityMismatch | D1InternalProtocolError | DoNamespaceNotFound | DoIdInvalid |
  DoObjectDeleting | DoVersionStale | DoClassNotFound | DoStorageUnavailable | DoStorageLimit |
  DoDispatchTimeout | DoRpcUnsupported | DoRuntimeException | DoNamespaceNotEmpty |
  DoInternalProtocolError | SchedulerUnavailable | SchedulerCorrupt | SchedulerBusy |
  SchedulerInternalProtocolError | SchedulerKindNotEnabled | DoAlarmIndexUnavailable |
  QueueNotFound | QueueNameConflict | QueueNotReady | QueueConfigPending | QueueReferenced |
  QueueNotEmpty | QueueContentTypeUnsupported | QueueInvalidMessage | QueueMessageTooLarge |
  QueueBatchLimitExceeded | QueueDelayInvalid | QueueBacklogLimitExceeded |
  QueueStorageUnavailable | QueueSendResultUnknown | QueueConsumerConflict |
  QueueConsumerNotReady | QueueConsumerProjectionPending | QueueConsumerGenerationStale |
  QueueDispositionInvalid | QueueRetryDelayInvalid | QueueDlqInvalid | QueueDlqBackpressured |
  QueueCustomEventUnsupported | CronExpressionInvalid | CronExpressionUnsupported |
  CronProjectionPending | CronActivationStale | CronCustomEventUnsupported |
  QueueInvariantViolation | WorkflowNotFound | WorkflowNotReady | WorkflowVersionNotReady |
  WorkflowBindingStale | WorkflowCapabilityMismatch | WorkflowInstanceStateConflict |
  WorkflowInstanceBusy | WorkflowInstanceCleanupPending | WorkflowEventTypeInvalid |
  WorkflowEventQueueFull | WorkflowStepTimeout | WorkflowStepRetriesExhausted |
  WorkflowNonRetryable | WorkflowEventTimeout | WorkflowInstanceIdInvalid |
  WorkflowInstanceAlreadyExists | WorkflowInstanceNotFound | WorkflowPayloadTooLarge |
  WorkflowResultTooLarge | WorkflowSerializationUnsupported | WorkflowStateQuotaExceeded |
  WorkflowStepLimitExceeded | WorkflowStepConfigUnsupported | WorkflowDurationInvalid |
  WorkflowMethodUnsupported | WorkflowNonDeterministic | WorkflowRunStale | WorkflowStepStale |
  WorkflowRuntimeUnavailable | WorkflowExecutionFailed | WorkflowReferenced |
  WorkflowInvariantViolation | WorkflowNameConflict | CacheKeyInvalid | CachePutRejected |
  CacheLimitExceeded | CacheUnavailable | CacheCorrupt | CacheProtocolError |
  CacheResultUnknown | ImageInputInvalid | ImageFormatUnsupported | ImageOptionUnsupported |
  ImageLimitExceeded | ImageTimeout | ImageUnavailable | ImageProtocolError |
  DocumentInputInvalid | DocumentFormatUnsupported | DocumentOcrUnavailable |
  DocumentVisionInputTooLarge | DocumentEncrypted | DocumentEmpty | DocumentLimitExceeded |
  DocumentOptionUnsupported | DocumentTimeout | DocumentUnavailable | DocumentProcessFailed |
  DocumentProtocolError | DocumentParseFailed | DocumentNoExtractableText | Internal |
  InstanceIdInvalid | InstanceNotFound | InstanceAmbiguous | InstanceRegistryInvalid |
  TargetInvalid | TargetNotFound | TargetRegistryInvalid | CfInvalid | BrowserUnavailable |
  BrowserUnsupported | BrowserInputInvalid | BrowserLimitExceeded | BrowserTimeout |
  BrowserSessionNotFound | WranglerProjectUnsupported.

(** Every variant, in declaration order. *)
Definition all_codes : list ErrorCode :=
  [ConfigPathInvalid; ConfigParseFailed; ConfigInvalid; RuntimeInvalid; ConfigCompileFailed;
   MigrationFailed; SchemaTooNew; MasterKeyMismatch; ObjectStorageUnavailable;
   ObjectStorageIntegrityError; ObjectStorageAuthorityMismatch; ObjectStorageCapacity;
   CacheEntryCorrupt; RuntimeExitedBeforeReady; RuntimeExitedInFlight; ProcessKilled;
   DiskHardLimit; QuotaExceeded; AdmissionBusy; StoragePressure; PlatformUnavailable;
   SnapshotInvalid; RestoreInvalid; SchemaUnsupported; ReleaseUnsupported;
   SupportBundleInvalid; DataDirInUse; AdminAuthRequired; SecretRefInvalid; PathInvalid;
   ObjectStoragePrefixInvalid; CacheBoundsInvalid; LimitInvalid; ArtifactIntegrityError;
   WorkerNotFound; WorkerNameConflict; WorkerDeleted; VersionNotFound; VersionNotReady;
   VersionActive; VersionReferenced; ServiceBindingDenied; ServiceTargetNotReady;
   ServiceUnavailable; ServiceEntrypointNotFound; ServiceLimitExceeded; ServiceTimeout;
   ServiceTargetReferenced; VersionInvariantViolation; BundleInvalid; BundleTooLarge;
   BundleRuntimeInvalid; CompatibilityUnsupported; ArtifactUnavailable; RouteNotFound;
   RouteConflict; EntrypointNotFound; SecretInvalid; IdempotencyConflict; RuntimeUnavailable;
   RuntimeResultUnknown; ResourceLimitExceeded; AssetManifestInvalid; AssetPathInvalid;
   AssetLimitExceeded; AssetUploadIncomplete; AssetUploadConflict; AssetIntegrityError;
   AssetStorageUnavailable; AssetConfigUnsupported; ResourceNotFound; ResourceNameConflict;
   ResourceNotReady; ResourceReferenced; ResourceUnavailable; ResourceInvariantViolation;
   BindingNotFound; BindingTypeMismatch; BindingPermissionDenied; BindingCapabilityUnsupported;
   BindingProtocolError; BindingLimitExceeded; KvKeyInvalid; KvKeyTooLarge; KvValueTooLarge;
   KvMetadataInvalid; KvMetadataTooLarge; KvInvalidOptions; KvTooManyKeys; KvResponseTooLarge;
   KvCursorInvalid; KvBusy; KvStorageFull; KvUnavailable; KvCorrupt; KvResultUnknown;
   KvInternalProtocolError; R2KeyTooLarge; R2InvalidOptions; R2ChecksumMismatch; R2SsecInvalid;
   R2MultipartInvalid; R2ObjectTooLarge; R2MetadataTooLarge; R2CursorInvalid; R2BucketNotEmpty;
   R2PreconditionFailed; R2Overloaded; R2ProviderUnavailable; R2ResultUnknown;
   R2ObjectMetadataInvalid; R2PrefixCollision; D1TypeError; D1SqlInvalid; D1ParameterMismatch;
   D1AuthorizerDenied; D1LimitError; D1Timeout; D1ColumnNotFound; D1InvalidBatch;
   D1SessionError; D1DumpError; D1MigrationDrift; D1DatabaseFull; D1Overloaded;
   D1ResultUnknown; D1DatabaseCorrupt; D1IdentityMismatch; D1InternalProtocolError;
   DoNamespaceNotFound; DoIdInvalid; DoObjectDeleting; DoVersionStale; DoClassNotFound;
   DoStorageUnavailable; DoStorageLimit; DoDispatchTimeout; DoRpcUnsupported;
   DoRuntimeException; DoNamespaceNotEmpty; DoInternalProtocolError; SchedulerUnavailable;
   SchedulerCorrupt; SchedulerBusy; SchedulerInternalProtocolError; SchedulerKindNotEnabled;
   DoAlarmIndexUnavailable; QueueNotFound; QueueNameConflict; QueueNotReady;
   QueueConfigPending; QueueReferenced; QueueNotEmpty; QueueContentTypeUnsupported;
   QueueInvalidMessage; QueueMessageTooLarge; QueueBatchLimitExceeded; QueueDelayInvalid;
   QueueBacklogLimitExceeded; QueueStorageUnavailable; QueueSendResultUnknown;
   QueueConsumerConflict; QueueConsumerNotReady; QueueConsumerProjectionPending;
   QueueConsumerGenerationStale; QueueDispositionInvalid; QueueRetryDelayInvalid;
   QueueDlqInvalid; QueueDlqBackpressured; QueueCustomEventUnsupported; CronExpressionInvalid;
   CronExpressionUnsupported; CronProjectionPending; CronActivationStale;
   CronCustomEventUnsupported; QueueInvariantViolation; WorkflowNotFound; WorkflowNotReady;
   WorkflowVersionNotReady; WorkflowBindingStale; WorkflowCapabilityMismatch;
   WorkflowInstanceStateConflict; WorkflowInstanceBusy; WorkflowInstanceCleanupPending;
   WorkflowEventTypeInvalid; WorkflowEventQueueFull; WorkflowStepTimeout;
   WorkflowStepRetriesExhausted; WorkflowNonRetryable; WorkflowEventTimeout;
   WorkflowInstanceIdInvalid; WorkflowInstanceAlreadyExists; WorkflowInstanceNotFound;
   WorkflowPayloadTooLarge; WorkflowResultTooLarge; WorkflowSerializationUnsupported;
   WorkflowStateQuotaExceeded; WorkflowStepLimitExceeded; WorkflowStepConfigUnsupported;
   WorkflowDurationInvalid; WorkflowMethodUnsupported; WorkflowNonDeterministic;
   WorkflowRunStale; WorkflowStepStale; WorkflowRuntimeUnavailable; WorkflowExecutionFailed;
   WorkflowReferenced; WorkflowInvariantViolation; WorkflowNameConflict; CacheKeyInvalid;
   CachePutRejected; CacheLimitExceeded; CacheUnavailable; CacheCorrupt; CacheProtocolError;
   CacheResultUnknown; ImageInputInvalid; ImageFormatUnsupported; ImageOptionUnsupported;
   ImageLimitExceeded; ImageTimeout; ImageUnavailable; ImageProtocolError;
   DocumentInputInvalid; DocumentFormatUnsupported; DocumentOcrUnavailable;
   DocumentVisionInputTooLarge; DocumentEncrypted; DocumentEmpty; DocumentLimitExceeded;
   DocumentOptionUnsupported; DocumentTimeout; DocumentUnavailable; DocumentProcessFailed;
   DocumentProtocolError; DocumentParseFailed; DocumentNoExtractableText; Internal;
   InstanceIdInvalid; InstanceNotFound; InstanceAmbiguous; InstanceRegistryInvalid;
   TargetInvalid; TargetNotFound; TargetRegistryInvalid; CfInvalid; BrowserUnavailable;
   BrowserUnsupported; BrowserInputInvalid; BrowserLimitExceeded; BrowserTimeout;
   BrowserSessionNotFound; WranglerProjectUnsupported].

(** The identifier serde derives a variant's wire name from. *)
Definition variant_ident (c : ErrorCode) : string :=
  match c with
  | ConfigPathInvalid => "ConfigPathInvalid"
  | ConfigParseFailed => "ConfigParseFailed"
  | ConfigInvalid => "ConfigInvalid"
  | RuntimeInvalid => "RuntimeInvalid"
  | ConfigCompileFailed => "ConfigCompileFailed"
  | MigrationFailed => "MigrationFailed"
  | SchemaTooNew => "SchemaTooNew"
  | MasterKeyMismatch => "MasterKeyMismatch"
  | ObjectStorageUnavailable => "ObjectStorageUnavailable"
  | ObjectStorageIntegrityError => "ObjectStorageIntegrityError"
  | ObjectStorageAuthorityMismatch => "ObjectStorageAuthorityMismatch"
  | ObjectStorageCapacity => "ObjectStorageCapacity"
  | CacheEntryCorrupt => "CacheEntryCorrupt"
  | RuntimeExitedBeforeReady => "RuntimeExitedBeforeReady"
  | RuntimeExitedInFlight => "RuntimeExitedInFlight"
  | ProcessKilled => "ProcessKilled"
  | DiskHardLimit => "DiskHardLimit"
  | QuotaExceeded => "QuotaExceeded"
  | AdmissionBusy => "AdmissionBusy"
  | StoragePressure => "StoragePressure"
  | PlatformUnavailable => "PlatformUnavailable"
  | SnapshotInvalid => "SnapshotInvalid"
  | RestoreInvalid => "RestoreInvalid"
  | SchemaUnsupported => "SchemaUnsupported"
  | ReleaseUnsupported => "ReleaseUnsupported"
  | SupportBundleInvalid => "SupportBundleInvalid"
  | DataDirInUse => "DataDirInUse"
  | AdminAuthRequired => "AdminAuthRequired"
  | SecretRefInvalid => "SecretRefInvalid"
  | PathInvalid => "PathInvalid"
  | ObjectStoragePrefixInvalid => "ObjectStoragePrefixInvalid"
  | CacheBoundsInvalid => "CacheBoundsInvalid"
  | LimitInvalid => "LimitInvalid"
  | ArtifactIntegrityError => "ArtifactIntegrityError"
  | WorkerNotFound => "WorkerNotFound"
  | WorkerNameConflict => "WorkerNameConflict"
  | WorkerDeleted => "WorkerDeleted"
  | VersionNotFound => "VersionNotFound"
  | VersionNotReady => "VersionNotReady"
  | VersionActive => "VersionActive"
  | VersionReferenced => "VersionReferenced"
  | ServiceBindingDenied => "ServiceBindingDenied"
  | ServiceTargetNotReady => "ServiceTargetNotReady"
  | ServiceUnavailable => "ServiceUnavailable"
  | ServiceEntrypointNotFound => "ServiceEntrypointNotFound"
  | ServiceLimitExceeded => "ServiceLimitExceeded"
  | ServiceTimeout => "ServiceTimeout"
  | ServiceTargetReferenced => "ServiceTargetReferenced"
  | VersionInvariantViolation => "VersionInvariantViolation"
  | BundleInvalid => "BundleInvalid"
  | BundleTooLarge => "BundleTooLarge"
  | BundleRuntimeInvalid => "BundleRuntimeInvalid"
  | CompatibilityUnsupported => "CompatibilityUnsupported"
  | ArtifactUnavailable => "ArtifactUnavailable"
  | RouteNotFound => "RouteNotFound"
  | RouteConflict => "RouteConflict"
  | EntrypointNotFound => "EntrypointNotFound"
  | SecretInvalid => "SecretInvalid"
  | IdempotencyConflict => "IdempotencyConflict"
  | RuntimeUnavailable => "RuntimeUnavailable"
  | RuntimeResultUnknown => "RuntimeResultUnknown"
  | ResourceLimitExceeded => "ResourceLimitExceeded"
  | AssetManifestInvalid => "AssetManifestInvalid"
  | AssetPathInvalid => "AssetPathInvalid"
  | AssetLimitExceeded => "AssetLimitExceeded"
  | AssetUploadIncomplete => "AssetUploadIncomplete"
  | AssetUploadConflict => "AssetUploadConflict"
  | AssetIntegrityError => "AssetIntegrityError"
  | AssetStorageUnavailable => "AssetStorageUnavailable"
  | AssetConfigUnsupported => "AssetConfigUnsupported"
  | ResourceNotFound => "ResourceNotFound"
  | ResourceNameConflict => "ResourceNameConflict"
  | ResourceNotReady => "ResourceNotReady"
  | ResourceReferenced => "ResourceReferenced"
  | ResourceUnavailable => "ResourceUnavailable"
  | ResourceInvariantViolation => "ResourceInvariantViolation"
  | BindingNotFound => "BindingNotFound"
  | BindingTypeMismatch => "BindingTypeMismatch"
  | BindingPermissionDenied => "BindingPermissionDenied"
  | BindingCapabilityUnsupported => "BindingCapabilityUnsupported"
  | BindingProtocolError => "BindingProtocolError"
  | BindingLimitExceeded => "BindingLimitExceeded"
  | KvKeyInvalid => "KvKeyInvalid"
  | KvKeyTooLarge => "KvKeyTooLarge"
  | KvValueTooLarge => "KvValueTooLarge"
  | KvMetadataInvalid => "KvMetadataInvalid"
  | KvMetadataTooLarge => "KvMetadataTooLarge"
  | KvInvalidOptions => "KvInvalidOptions"
  | KvTooManyKeys => "KvTooManyKeys"
  | KvResponseTooLarge => "KvResponseTooLarge"
  | KvCursorInvalid => "KvCursorInvalid"
  | KvBusy => "KvBusy"
  | KvStorageFull => "KvStorageFull"
  | KvUnavailable => "KvUnavailable"
  | KvCorrupt => "KvCorrupt"
  | KvResultUnknown => "KvResultUnknown"
  | KvInternalProtocolError => "KvInternalProtocolError"
  | R2KeyTooLarge => "R2KeyTooLarge"
  | R2InvalidOptions => "R2InvalidOptions"
  | R2ChecksumMismatch => "R2ChecksumMismatch"
  | R2SsecInvalid => "R2SsecInvalid"
  | R2MultipartInvalid => "R2MultipartInvalid"
  | R2ObjectTooLarge => "R2ObjectTooLarge"
  | R2MetadataTooLarge => "R2MetadataTooLarge"
  | R2CursorInvalid => "R2CursorInvalid"
  | R2BucketNotEmpty => "R2BucketNotEmpty"
  | R2PreconditionFailed => "R2PreconditionFailed"
  | R2Overloaded => "R2Overloaded"
  | R2ProviderUnavailable => "R2ProviderUnavailable"
  | R2ResultUnknown => "R2ResultUnknown"
  | R2ObjectMetadataInvalid => "R2ObjectMetadataInvalid"
  | R2PrefixCollision => "R2PrefixCollision"
  | D1TypeError => "D1TypeError"
  | D1SqlInvalid => "D1SqlInvalid"
  | D1ParameterMismatch => "D1ParameterMismatch"
  | D1AuthorizerDenied => "D1AuthorizerDenied"
  | D1LimitError => "D1LimitError"
  | D1Timeout => "D1Timeout"
  | D1ColumnNotFound => "D1ColumnNotFound"
  | D1InvalidBatch => "D1InvalidBatch"
  | D1SessionError => "D1SessionError"
  | D1DumpError => "D1DumpError"
  | D1MigrationDrift => "D1MigrationDrift"
  | D1DatabaseFull => "D1DatabaseFull"
  | D1Overloaded => "D1Overloaded"
  | D1ResultUnknown => "D1ResultUnknown"
  | D1DatabaseCorrupt => "D1DatabaseCorrupt"
  | D1IdentityMismatch => "D1IdentityMismatch"
  | D1InternalProtocolError => "D1InternalProtocolError"
  | DoNamespaceNotFound => "DoNamespaceNotFound"
  | DoIdInvalid => "DoIdInvalid"
  | DoObjectDeleting => "DoObjectDeleting"
  | DoVersionStale => "DoVersionStale"
  | DoClassNotFound => "DoClassNotFound"
  | DoStorageUnavailable => "DoStorageUnavailable"
  | DoStorageLimit => "DoStorageLimit"
  | DoDispatchTimeout => "DoDispatchTimeout"
  | DoRpcUnsupported => "DoRpcUnsupported"
  | DoRuntimeException => "DoRuntimeException"
  | DoNamespaceNotEmpty => "DoNamespaceNotEmpty"
  | DoInternalProtocolError => "DoInternalProtocolError"
  | SchedulerUnavailable => "SchedulerUnavailable"
  | SchedulerCorrupt => "SchedulerCorrupt"
  | SchedulerBusy => "SchedulerBusy"
  | SchedulerInternalProtocolError => "SchedulerInternalProtocolError"
  | SchedulerKindNotEnabled => "SchedulerKindNotEnabled"
  | DoAlarmIndexUnavailable => "DoAlarmIndexUnavailable"
  | QueueNotFound => "QueueNotFound"
  | QueueNameConflict => "QueueNameConflict"
  | QueueNotReady => "QueueNotReady"
  | QueueConfigPending => "QueueConfigPending"
  | QueueReferenced => "QueueReferenced"
  | QueueNotEmpty => "QueueNotEmpty"
  | QueueContentTypeUnsupported => "QueueContentTypeUnsupported"
  | QueueInvalidMessage => "QueueInvalidMessage"
  | QueueMessageTooLarge => "QueueMessageTooLarge"
  | QueueBatchLimitExceeded => "QueueBatchLimitExceeded"
  | QueueDelayInvalid => "QueueDelayInvalid"
  | QueueBacklogLimitExceeded => "QueueBacklogLimitExceeded"
  | QueueStorageUnavailable => "QueueStorageUnavailable"
  | QueueSendResultUnknown => "QueueSendResultUnknown"
  | QueueConsumerConflict => "QueueConsumerConflict"
  | QueueConsumerNotReady => "QueueConsumerNotReady"
  | QueueConsumerProjectionPending => "QueueConsumerProjectionPending"
  | QueueConsumerGenerationStale => "QueueConsumerGenerationStale"
  | QueueDispositionInvalid => "QueueDispositionInvalid"
  | QueueRetryDelayInvalid => "QueueRetryDelayInvalid"
  | QueueDlqInvalid => "QueueDlqInvalid"
  | QueueDlqBackpressured => "QueueDlqBackpressured"
  | QueueCustomEventUnsupported => "QueueCustomEventUnsupported"
  | CronExpressionInvalid => "CronExpressionInvalid"
  | CronExpressionUnsupported => "CronExpressionUnsupported"
  | CronProjectionPending => "CronProjectionPending"
  | CronActivationStale => "CronActivationStale"
  | CronCustomEventUnsupported => "CronCustomEventUnsupported"
  | QueueInvariantViolation => "QueueInvariantViolation"
  | WorkflowNotFound => "WorkflowNotFound"
  | WorkflowNotReady => "WorkflowNotReady"
  | WorkflowVersionNotReady => "WorkflowVersionNotReady"
  | WorkflowBindingStale => "WorkflowBindingStale"
  | WorkflowCapabilityMismatch => "WorkflowCapabilityMismatch"
  | WorkflowInstanceStateConflict => "WorkflowInstanceStateConflict"
  | WorkflowInstanceBusy => "WorkflowInstanceBusy"
  | WorkflowInstanceCleanupPending => "WorkflowInstanceCleanupPending"
  | WorkflowEventTypeInvalid => "WorkflowEventTypeInvalid"
  | WorkflowEventQueueFull => "WorkflowEventQueueFull"
  | WorkflowStepTimeout => "WorkflowStepTimeout"
  | WorkflowStepRetriesExhausted => "WorkflowStepRetriesExhausted"
  | WorkflowNonRetryable => "WorkflowNonRetryable"
  | WorkflowEventTimeout => "WorkflowEventTimeout"
  | WorkflowInstanceIdInvalid => "WorkflowInstanceIdInvalid"
  | WorkflowInstanceAlreadyExists => "WorkflowInstanceAlreadyExists"
  | WorkflowInstanceNotFound => "WorkflowInstanceNotFound"
  | WorkflowPayloadTooLarge => "WorkflowPayloadTooLarge"
  | WorkflowResultTooLarge => "WorkflowResultTooLarge"
  | WorkflowSerializationUnsupported => "WorkflowSerializationUnsupported"
  | WorkflowStateQuotaExceeded => "WorkflowStateQuotaExceeded"
  | WorkflowStepLimitExceeded => "WorkflowStepLimitExceeded"
  | WorkflowStepConfigUnsupported => "WorkflowStepConfigUnsupported"
  | WorkflowDurationInvalid => "WorkflowDurationInvalid"
  | WorkflowMethodUnsupported => "WorkflowMethodUnsupported"
  | WorkflowNonDeterministic => "WorkflowNonDeterministic"
  | WorkflowRunStale => "WorkflowRunStale"
  | WorkflowStepStale => "WorkflowStepStale"
  | WorkflowRuntimeUnavailable => "WorkflowRuntimeUnavailable"
  | WorkflowExecutionFailed => "WorkflowExecutionFailed"
  | WorkflowReferenced => "WorkflowReferenced"
  | WorkflowInvariantViolation => "WorkflowInvariantViolation"
  | WorkflowNameConflict => "WorkflowNameConflict"
  | CacheKeyInvalid => "CacheKeyInvalid"
  | CachePutRejected => "CachePutRejected"
  | CacheLimitExceeded => "CacheLimitExceeded"
  | CacheUnavailable => "CacheUnavailable"
  | CacheCorrupt => "CacheCorrupt"
  | CacheProtocolError => "CacheProtocolError"
  | CacheResultUnknown => "CacheResultUnknown"
  | ImageInputInvalid => "ImageInputInvalid"
  | ImageFormatUnsupported => "ImageFormatUnsupported"
  | ImageOptionUnsupported => "ImageOptionUnsupported"
  | ImageLimitExceeded => "ImageLimitExceeded"
  | ImageTimeout => "ImageTimeout"
  | ImageUnavailable => "ImageUnavailable"
  | ImageProtocolError => "ImageProtocolError"
  | DocumentInputInvalid => "DocumentInputInvalid"
  | DocumentFormatUnsupported => "DocumentFormatUnsupported"
  | DocumentOcrUnavailable => "DocumentOcrUnavailable"
  | DocumentVisionInputTooLarge => "DocumentVisionInputTooLarge"
  | DocumentEncrypted => "DocumentEncrypted"
  | DocumentEmpty => "DocumentEmpty"
  | DocumentLimitExceeded => "DocumentLimitExceeded"
  | DocumentOptionUnsupported => "DocumentOptionUnsupported"
  | DocumentTimeout => "DocumentTimeout"
  | DocumentUnavailable => "DocumentUnavailable"
  | DocumentProcessFailed => "DocumentProcessFailed"
  | DocumentProtocolError => "DocumentProtocolError"
  | DocumentParseFailed => "DocumentParseFailed"
  | DocumentNoExtractableText => "DocumentNoExtractableText"
  | Internal => "Internal"
  | InstanceIdInvalid => "InstanceIdInvalid"
  | InstanceNotFound => "InstanceNotFound"
  | InstanceAmbiguous => "InstanceAmbiguous"
  | InstanceRegistryInvalid => "InstanceRegistryInvalid"
  | TargetInvalid => "TargetInvalid"
  | TargetNotFound => "TargetNotFound"
  | TargetRegistryInvalid => "TargetRegistryInvalid"
  | CfInvalid => "CfInvalid"
  | BrowserUnavailable => "BrowserUnavailable"
  | BrowserUnsupported => "BrowserUnsupported"
  | BrowserInputInvalid => "BrowserInputInvalid"
  | BrowserLimitExceeded => "BrowserLimitExceeded"
  | BrowserTimeout => "BrowserTimeout"
  | BrowserSessionNotFound => "BrowserSessionNotFound"
  | WranglerProjectUnsupported => "WranglerProjectUnsupported"
  end.

(** Canonical uppercase snake-case token. *)
Definition as_str (c : ErrorCode) : string :=
  match c with
  | ConfigPathInvalid => "CONFIG_PATH_INVALID"
  | ConfigParseFailed => "CONFIG_PARSE_FAILED"
  | ConfigInvalid => "CONFIG_INVALID"
  | RuntimeInvalid => "RUNTIME_INVALID"
  | ConfigCompileFailed => "CONFIG_COMPILE_FAILED"
  | MigrationFailed => "MIGRATION_FAILED"
  | SchemaTooNew => "SCHEMA_TOO_NEW"
  | MasterKeyMismatch => "MASTER_KEY_MISMATCH"
  | ObjectStorageUnavailable => "OBJECT_STORAGE_UNAVAILABLE"
  | ObjectStorageIntegrityError => "OBJECT_STORAGE_INTEGRITY_ERROR"
  | ObjectStorageAuthorityMismatch => "OBJECT_STORAGE_AUTHORITY_MISMATCH"
  | ObjectStorageCapacity => "OBJECT_STORAGE_CAPACITY"
  | CacheEntryCorrupt => "CACHE_ENTRY_CORRUPT"
  | RuntimeExitedBeforeReady => "RUNTIME_EXITED_BEFORE_READY"
  | RuntimeExitedInFlight => "RUNTIME_EXITED_IN_FLIGHT"
  | ProcessKilled => "PROCESS_KILLED"
  | DiskHardLimit => "DISK_HARD_LIMIT"
  | QuotaExceeded => "QUOTA_EXCEEDED"
  | AdmissionBusy => "ADMISSION_BUSY"
  | StoragePressure => "STORAGE_PRESSURE"
  | PlatformUnavailable => "PLATFORM_UNAVAILABLE"
  | SnapshotInvalid => "SNAPSHOT_INVALID"
  | RestoreInvalid => "RESTORE_INVALID"
  | SchemaUnsupported => "SCHEMA_UNSUPPORTED"
  | ReleaseUnsupported => "RELEASE_UNSUPPORTED"
  | SupportBundleInvalid => "SUPPORT_BUNDLE_INVALID"
  | DataDirInUse => "DATA_DIR_IN_USE"
  | AdminAuthRequired => "ADMIN_AUTH_REQUIRED"
  | SecretRefInvalid => "SECRET_REF_INVALID"
  | PathInvalid => "PATH_INVALID"
  | ObjectStoragePrefixInvalid => "OBJECT_STORAGE_PREFIX_INVALID"
  | CacheBoundsInvalid => "CACHE_BOUNDS_INVALID"
  | LimitInvalid => "LIMIT_INVALID"
  | ArtifactIntegrityError => "ARTIFACT_INTEGRITY_ERROR"
  | WorkerNotFound => "WORKER_NOT_FOUND"
  | WorkerNameConflict => "WORKER_NAME_CONFLICT"
  | WorkerDeleted => "WORKER_DELETED"
  | VersionNotFound => "VERSION_NOT_FOUND"
  | VersionNotReady => "VERSION_NOT_READY"
  | VersionActive => "VERSION_ACTIVE"
  | VersionReferenced => "VERSION_REFERENCED"
  | ServiceBindingDenied => "SERVICE_BINDING_DENIED"
  | ServiceTargetNotReady => "SERVICE_TARGET_NOT_READY"
  | ServiceUnavailable => "SERVICE_UNAVAILABLE"
  | ServiceEntrypointNotFound => "SERVICE_ENTRYPOINT_NOT_FOUND"
  | ServiceLimitExceeded => "SERVICE_LIMIT_EXCEEDED"
  | ServiceTimeout => "SERVICE_TIMEOUT"
  | ServiceTargetReferenced => "SERVICE_TARGET_REFERENCED"
  | VersionInvariantViolation => "VERSION_INVARIANT_VIOLATION"
  | BundleInvalid => "BUNDLE_INVALID"
  | BundleTooLarge => "BUNDLE_TOO_LARGE"
  | BundleRuntimeInvalid => "BUNDLE_RUNTIME_INVALID"
  | CompatibilityUnsupported => "COMPATIBILITY_UNSUPPORTED"
  | ArtifactUnavailable => "ARTIFACT_UNAVAILABLE"
  | RouteNotFound => "ROUTE_NOT_FOUND"
  | RouteConflict => "ROUTE_CONFLICT"
  | EntrypointNotFound => "ENTRYPOINT_NOT_FOUND"
  | SecretInvalid => "SECRET_INVALID"
  | IdempotencyConflict => "IDEMPOTENCY_CONFLICT"
  | RuntimeUnavailable => "RUNTIME_UNAVAILABLE"
  | RuntimeResultUnknown => "RUNTIME_RESULT_UNKNOWN"
  | ResourceLimitExceeded => "RESOURCE_LIMIT_EXCEEDED"
  | AssetManifestInvalid => "ASSET_MANIFEST_INVALID"
  | AssetPathInvalid => "ASSET_PATH_INVALID"
  | AssetLimitExceeded => "ASSET_LIMIT_EXCEEDED"
  | AssetUploadIncomplete => "ASSET_UPLOAD_INCOMPLETE"
  | AssetUploadConflict => "ASSET_UPLOAD_CONFLICT"
  | AssetIntegrityError => "ASSET_INTEGRITY_ERROR"
  | AssetStorageUnavailable => "ASSET_STORAGE_UNAVAILABLE"
  | AssetConfigUnsupported => "ASSET_CONFIG_UNSUPPORTED"
  | ResourceNotFound => "RESOURCE_NOT_FOUND"
  | ResourceNameConflict => "RESOURCE_NAME_CONFLICT"
  | ResourceNotReady => "RESOURCE_NOT_READY"
  | ResourceReferenced => "RESOURCE_REFERENCED"
  | ResourceUnavailable => "RESOURCE_UNAVAILABLE"
  | ResourceInvariantViolation => "RESOURCE_INVARIANT_VIOLATION"
  | BindingNotFound => "BINDING_NOT_FOUND"
  | BindingTypeMismatch => "BINDING_TYPE_MISMATCH"
  | BindingPermissionDenied => "BINDING_PERMISSION_DENIED"
  | BindingCapabilityUnsupported => "BINDING_CAPABILITY_UNSUPPORTED"
  | BindingProtocolError => "BINDING_PROTOCOL_ERROR"
  | BindingLimitExceeded => "BINDING_LIMIT_EXCEEDED"
  | KvKeyInvalid => "KV_KEY_INVALID"
  | KvKeyTooLarge => "KV_KEY_TOO_LARGE"
  | KvValueTooLarge => "KV_VALUE_TOO_LARGE"
  | KvMetadataInvalid => "KV_METADATA_INVALID"
  | KvMetadataTooLarge => "KV_METADATA_TOO_LARGE"
  | KvInvalidOptions => "KV_INVALID_OPTIONS"
  | KvTooManyKeys => "KV_TOO_MANY_KEYS"
  | KvResponseTooLarge => "KV_RESPONSE_TOO_LARGE"
  | KvCursorInvalid => "KV_CURSOR_INVALID"
  | KvBusy => "KV_BUSY"
  | KvStorageFull => "KV_STORAGE_FULL"
  | KvUnavailable => "KV_UNAVAILABLE"
  | KvCorrupt => "KV_CORRUPT"
  | KvResultUnknown => "KV_RESULT_UNKNOWN"
  | KvInternalProtocolError => "KV_INTERNAL_PROTOCOL_ERROR"
  | R2KeyTooLarge => "R2_KEY_TOO_LARGE"
  | R2InvalidOptions => "R2_INVALID_OPTIONS"
  | R2ChecksumMismatch => "R2_CHECKSUM_MISMATCH"
  | R2SsecInvalid => "R2_SSEC_INVALID"
  | R2MultipartInvalid => "R2_MULTIPART_INVALID"
  | R2ObjectTooLarge => "R2_OBJECT_TOO_LARGE"
  | R2MetadataTooLarge => "R2_METADATA_TOO_LARGE"
  | R2CursorInvalid => "R2_CURSOR_INVALID"
  | R2BucketNotEmpty => "R2_BUCKET_NOT_EMPTY"
  | R2PreconditionFailed => "R2_PRECONDITION_FAILED"
  | R2Overloaded => "R2_OVERLOADED"
  | R2ProviderUnavailable => "R2_PROVIDER_UNAVAILABLE"
  | R2ResultUnknown => "R2_RESULT_UNKNOWN"
  | R2ObjectMetadataInvalid => "R2_OBJECT_METADATA_INVALID"
  | R2PrefixCollision => "R2_PREFIX_COLLISION"
  | D1TypeError => "D1_TYPE_ERROR"
  | D1SqlInvalid => "D1_SQL_INVALID"
  | D1ParameterMismatch => "D1_PARAMETER_MISMATCH"
  | D1AuthorizerDenied => "D1_AUTHORIZER_DENIED"
  | D1LimitError => "D1_LIMIT_ERROR"
  | D1Timeout => "D1_TIMEOUT"
  | D1ColumnNotFound => "D1_COLUMN_NOTFOUND"
  | D1InvalidBatch => "D1_INVALID_BATCH"
  | D1SessionError => "D1_SESSION_ERROR"
  | D1DumpError => "D1_DUMP_ERROR"
  | D1MigrationDrift => "D1_MIGRATION_DRIFT"
  | D1DatabaseFull => "D1_DATABASE_FULL"
  | D1Overloaded => "D1_OVERLOADED"
  | D1ResultUnknown => "D1_RESULT_UNKNOWN"
  | D1DatabaseCorrupt => "D1_DATABASE_CORRUPT"
  | D1IdentityMismatch => "D1_IDENTITY_MISMATCH"
  | D1InternalProtocolError => "D1_INTERNAL_PROTOCOL_ERROR"
  | DoNamespaceNotFound => "DO_NAMESPACE_NOT_FOUND"
  | DoIdInvalid => "DO_ID_INVALID"
  | DoObjectDeleting => "DO_OBJECT_DELETING"
  | DoVersionStale => "DO_VERSION_STALE"
  | DoClassNotFound => "DO_CLASS_NOT_FOUND"
  | DoStorageUnavailable => "DO_STORAGE_UNAVAILABLE"
  | DoStorageLimit => "DO_STORAGE_LIMIT"
  | DoDispatchTimeout => "DO_DISPATCH_TIMEOUT"
  | DoRpcUnsupported => "DO_RPC_UNSUPPORTED"
  | DoRuntimeException => "DO_RUNTIME_EXCEPTION"
  | DoNamespaceNotEmpty => "DO_NAMESPACE_NOT_EMPTY"
  | DoInternalProtocolError => "DO_INTERNAL_PROTOCOL_ERROR"
  | SchedulerUnavailable => "SCHEDULER_UNAVAILABLE"
  | SchedulerCorrupt => "SCHEDULER_CORRUPT"
  | SchedulerBusy => "SCHEDULER_BUSY"
  | SchedulerInternalProtocolError => "SCHEDULER_INTERNAL_PROTOCOL_ERROR"
  | SchedulerKindNotEnabled => "SCHEDULER_KIND_NOT_ENABLED"
  | DoAlarmIndexUnavailable => "DO_ALARM_INDEX_UNAVAILABLE"
  | QueueNotFound => "QUEUE_NOT_FOUND"
  | QueueNameConflict => "QUEUE_NAME_CONFLICT"
  | QueueNotReady => "QUEUE_NOT_READY"
  | QueueConfigPending => "QUEUE_CONFIG_PENDING"
  | QueueReferenced => "QUEUE_REFERENCED"
  | QueueNotEmpty => "QUEUE_NOT_EMPTY"
  | QueueContentTypeUnsupported => "QUEUE_CONTENT_TYPE_UNSUPPORTED"
  | QueueInvalidMessage => "QUEUE_INVALID_MESSAGE"
  | QueueMessageTooLarge => "QUEUE_MESSAGE_TOO_LARGE"
  | QueueBatchLimitExceeded => "QUEUE_BATCH_LIMIT_EXCEEDED"
  | QueueDelayInvalid => "QUEUE_DELAY_INVALID"
  | QueueBacklogLimitExceeded => "QUEUE_BACKLOG_LIMIT_EXCEEDED"
  | QueueStorageUnavailable => "QUEUE_STORAGE_UNAVAILABLE"
  | QueueSendResultUnknown => "QUEUE_SEND_RESULT_UNKNOWN"
  | QueueConsumerConflict => "QUEUE_CONSUMER_CONFLICT"
  | QueueConsumerNotReady => "QUEUE_CONSUMER_NOT_READY"
  | QueueConsumerProjectionPending => "QUEUE_CONSUMER_PROJECTION_PENDING"
  | QueueConsumerGenerationStale => "QUEUE_CONSUMER_GENERATION_STALE"
  | QueueDispositionInvalid => "QUEUE_DISPOSITION_INVALID"
  | QueueRetryDelayInvalid => "QUEUE_RETRY_DELAY_INVALID"
  | QueueDlqInvalid => "QUEUE_DLQ_INVALID"
  | QueueDlqBackpressured => "QUEUE_DLQ_BACKPRESSURED"
  | QueueCustomEventUnsupported => "QUEUE_CUSTOM_EVENT_UNSUPPORTED"
  | CronExpressionInvalid => "CRON_EXPRESSION_INVALID"
  | CronExpressionUnsupported => "CRON_EXPRESSION_UNSUPPORTED"
  | CronProjectionPending => "CRON_PROJECTION_PENDING"
  | CronActivationStale => "CRON_ACTIVATION_STALE"
  | CronCustomEventUnsupported => "CRON_CUSTOM_EVENT_UNSUPPORTED"
  | QueueInvariantViolation => "QUEUE_INVARIANT_VIOLATION"
  | WorkflowNotFound => "WORKFLOW_NOT_FOUND"
  | WorkflowNotReady => "WORKFLOW_NOT_READY"
  | WorkflowVersionNotReady => "WORKFLOW_VERSION_NOT_READY"
  | WorkflowBindingStale => "WORKFLOW_BINDING_STALE"
  | WorkflowCapabilityMismatch => "WORKFLOW_CAPABILITY_MISMATCH"
  | WorkflowInstanceStateConflict => "WORKFLOW_INSTANCE_STATE_CONFLICT"
  | WorkflowInstanceBusy => "WORKFLOW_INSTANCE_BUSY"
  | WorkflowInstanceCleanupPending => "WORKFLOW_INSTANCE_CLEANUP_PENDING"
  | WorkflowEventTypeInvalid => "WORKFLOW_EVENT_TYPE_INVALID"
  | WorkflowEventQueueFull => "WORKFLOW_EVENT_QUEUE_FULL"
  | WorkflowStepTimeout => "WORKFLOW_STEP_TIMEOUT"
  | WorkflowStepRetriesExhausted => "WORKFLOW_STEP_RETRIES_EXHAUSTED"
  | WorkflowNonRetryable => "WORKFLOW_NON_RETRYABLE"
  | WorkflowEventTimeout => "WORKFLOW_EVENT_TIMEOUT"
  | WorkflowInstanceIdInvalid => "WORKFLOW_INSTANCE_ID_INVALID"
  | WorkflowInstanceAlreadyExists => "WORKFLOW_INSTANCE_ALREADY_EXISTS"
  | WorkflowInstanceNotFound => "WORKFLOW_INSTANCE_NOT_FOUND"
  | WorkflowPayloadTooLarge => "WORKFLOW_PAYLOAD_TOO_LARGE"
  | WorkflowResultTooLarge => "WORKFLOW_RESULT_TOO_LARGE"
  | WorkflowSerializationUnsupported => "WORKFLOW_SERIALIZATION_UNSUPPORTED"
  | WorkflowStateQuotaExceeded => "WORKFLOW_STATE_QUOTA_EXCEEDED"
  | WorkflowStepLimitExceeded => "WORKFLOW_STEP_LIMIT_EXCEEDED"
  | WorkflowStepConfigUnsupported => "WORKFLOW_STEP_CONFIG_UNSUPPORTED"
  | WorkflowDurationInvalid => "WORKFLOW_DURATION_INVALID"
  | WorkflowMethodUnsupported => "WORKFLOW_METHOD_UNSUPPORTED"
  | WorkflowNonDeterministic => "WORKFLOW_NON_DETERMINISTIC"
  | WorkflowRunStale => "WORKFLOW_RUN_STALE"
  | WorkflowStepStale => "WORKFLOW_STEP_STALE"
  | WorkflowRuntimeUnavailable => "WORKFLOW_RUNTIME_UNAVAILABLE"
  | WorkflowExecutionFailed => "WORKFLOW_EXECUTION_FAILED"
  | WorkflowReferenced => "WORKFLOW_REFERENCED"
  | WorkflowInvariantViolation => "WORKFLOW_INVARIANT_VIOLATION"
  | WorkflowNameConflict => "WORKFLOW_NAME_CONFLICT"
  | CacheKeyInvalid => "CACHE_KEY_INVALID"
  | CachePutRejected => "CACHE_PUT_REJECTED"
  | CacheLimitExceeded => "CACHE_LIMIT_EXCEEDED"
  | CacheUnavailable => "CACHE_UNAVAILABLE"
  | CacheCorrupt => "CACHE_CORRUPT"
  | CacheProtocolError => "CACHE_PROTOCOL_ERROR"
  | CacheResultUnknown => "CACHE_RESULT_UNKNOWN"
  | ImageInputInvalid => "IMAGE_INPUT_INVALID"
  | ImageFormatUnsupported => "IMAGE_FORMAT_UNSUPPORTED"
  | ImageOptionUnsupported => "IMAGE_OPTION_UNSUPPORTED"
  | ImageLimitExceeded => "IMAGE_LIMIT_EXCEEDED"
  | ImageTimeout => "IMAGE_TIMEOUT"
  | ImageUnavailable => "IMAGE_UNAVAILABLE"
  | ImageProtocolError => "IMAGE_PROTOCOL_ERROR"
  | DocumentInputInvalid => "DOCUMENT_INPUT_INVALID"
  | DocumentFormatUnsupported => "UNSUPPORTED_CONTENT_TYPE"
  | DocumentOcrUnavailable => "DOCUMENT_OCR_UNAVAILABLE"
  | DocumentVisionInputTooLarge => "DOCUMENT_VISION_INPUT_TOO_LARGE"
  | DocumentEncrypted => "DOCUMENT_ENCRYPTED"
  | DocumentEmpty => "DOCUMENT_EMPTY"
  | DocumentLimitExceeded => "DOCUMENT_LIMIT_EXCEEDED"
  | DocumentOptionUnsupported => "DOCUMENT_OPTION_UNSUPPORTED"
  | DocumentTimeout => "DOCUMENT_TIMEOUT"
  | DocumentUnavailable => "DOCUMENT_UNAVAILABLE"
  | DocumentProcessFailed => "DOCUMENT_PROCESS_FAILED"
  | DocumentProtocolError => "DOCUMENT_PROTOCOL_ERROR"
  | DocumentParseFailed => "DOCUMENT_PARSE_FAILED"
  | DocumentNoExtractableText => "DOCUMENT_NO_EXTRACTABLE_TEXT"
  | Internal => "INTERNAL"
  | InstanceIdInvalid => "INSTANCE_ID_INVALID"
  | InstanceNotFound => "INSTANCE_NOT_FOUND"
  | InstanceAmbiguous => "INSTANCE_AMBIGUOUS"
  | InstanceRegistryInvalid => "INSTANCE_REGISTRY_INVALID"
  | TargetInvalid => "TARGET_INVALID"
  | TargetNotFound => "TARGET_NOT_FOUND"
  | TargetRegistryInvalid => "TARGET_REGISTRY_INVALID"
  | CfInvalid => "CF_INVALID"
  | BrowserUnavailable => "BROWSER_UNAVAILABLE"
  | BrowserUnsupported => "BROWSER_UNSUPPORTED"
  | BrowserInputInvalid => "BROWSER_INPUT_INVALID"
  | BrowserLimitExceeded => "BROWSER_LIMIT_EXCEEDED"
  | BrowserTimeout => "BROWSER_TIMEOUT"
  | BrowserSessionNotFound => "BROWSER_SESSION_NOT_FOUND"
  | WranglerProjectUnsupported => "WRANGLER_PROJECT_UNSUPPORTED"
  end.

(** Position of a variant in the declaration. *)
Definition discriminant (c : ErrorCode) : nat :=
  match c with
  | ConfigPathInvalid => 0
  | ConfigParseFailed => 1
  | ConfigInvalid => 2
  | RuntimeInvalid => 3
  | ConfigCompileFailed => 4
  | MigrationFailed => 5
  | SchemaTooNew => 6
  | MasterKeyMismatch => 7
  | ObjectStorageUnavailable => 8
  | ObjectStorageIntegrityError => 9
  | ObjectStorageAuthorityMismatch => 10
  | ObjectStorageCapacity => 11
  | CacheEntryCorrupt => 12
  | RuntimeExitedBeforeReady => 13
  | RuntimeExitedInFlight => 14
  | ProcessKilled => 15
  | DiskHardLimit => 16
  | QuotaExceeded => 17
  | AdmissionBusy => 18
  | StoragePressure => 19
  | PlatformUnavailable => 20
  | SnapshotInvalid => 21
  | RestoreInvalid => 22
  | SchemaUnsupported => 23
  | ReleaseUnsupported => 24
  | SupportBundleInvalid => 25
  | DataDirInUse => 26
  | AdminAuthRequired => 27
  | SecretRefInvalid => 28
  | PathInvalid => 29
  | ObjectStoragePrefixInvalid => 30
  | CacheBoundsInvalid => 31
  | LimitInvalid => 32
  | ArtifactIntegrityError => 33
  | WorkerNotFound => 34
  | WorkerNameConflict => 35
  | WorkerDeleted => 36
  | VersionNotFound => 37
  | VersionNotReady => 38
  | VersionActive => 39
  | VersionReferenced => 40
  | ServiceBindingDenied => 41
  | ServiceTargetNotReady => 42
  | ServiceUnavailable => 43
  | ServiceEntrypointNotFound => 44
  | ServiceLimitExceeded => 45
  | ServiceTimeout => 46
  | ServiceTargetReferenced => 47
  | VersionInvariantViolation => 48
  | BundleInvalid => 49
  | BundleTooLarge => 50
  | BundleRuntimeInvalid => 51
  | CompatibilityUnsupported => 52
  | ArtifactUnavailable => 53
  | RouteNotFound => 54
  | RouteConflict => 55
  | EntrypointNotFound => 56
  | SecretInvalid => 57
  | IdempotencyConflict => 58
  | RuntimeUnavailable => 59
  | RuntimeResultUnknown => 60
  | ResourceLimitExceeded => 61
  | AssetManifestInvalid => 62
  | AssetPathInvalid => 63
  | AssetLimitExceeded => 64
  | AssetUploadIncomplete => 65
  | AssetUploadConflict => 66
  | AssetIntegrityError => 67
  | AssetStorageUnavailable => 68
  | AssetConfigUnsupported => 69
  | ResourceNotFound => 70
  | ResourceNameConflict => 71
  | ResourceNotReady => 72
  | ResourceReferenced => 73
  | ResourceUnavailable => 74
  | ResourceInvariantViolation => 75
  | BindingNotFound => 76
  | BindingTypeMismatch => 77
  | BindingPermissionDenied => 78
  | BindingCapabilityUnsupported => 79
  | BindingProtocolError => 80
  | BindingLimitExceeded => 81
  | KvKeyInvalid => 82
  | KvKeyTooLarge => 83
  | KvValueTooLarge => 84
  | KvMetadataInvalid => 85
  | KvMetadataTooLarge => 86
  | KvInvalidOptions => 87
  | KvTooManyKeys => 88
  | KvResponseTooLarge => 89
  | KvCursorInvalid => 90
  | KvBusy => 91
  | KvStorageFull => 92
  | KvUnavailable => 93
  | KvCorrupt => 94
  | KvResultUnknown => 95
  | KvInternalProtocolError => 96
  | R2KeyTooLarge => 97
  | R2InvalidOptions => 98
  | R2ChecksumMismatch => 99
  | R2SsecInvalid => 100
  | R2MultipartInvalid => 101
  | R2ObjectTooLarge => 102
  | R2MetadataTooLarge => 103
  | R2CursorInvalid => 104
  | R2BucketNotEmpty => 105
  | R2PreconditionFailed => 106
  | R2Overloaded => 107
  | R2ProviderUnavailable => 108
  | R2ResultUnknown => 109
  | R2ObjectMetadataInvalid => 110
  | R2PrefixCollision => 111
  | D1TypeError => 112
  | D1SqlInvalid => 113
  | D1ParameterMismatch => 114
  | D1AuthorizerDenied => 115
  | D1LimitError => 116
  | D1Timeout => 117
  | D1ColumnNotFound => 118
  | D1InvalidBatch => 119
  | D1SessionError => 120
  | D1DumpError => 121
  | D1MigrationDrift => 122
  | D1DatabaseFull => 123
  | D1Overloaded => 124
  | D1ResultUnknown => 125
  | D1DatabaseCorrupt => 126
  | D1IdentityMismatch => 127
  | D1InternalProtocolError => 128
  | DoNamespaceNotFound => 129
  | DoIdInvalid => 130
  | DoObjectDeleting => 131
  | DoVersionStale => 132
  | DoClassNotFound => 133
  | DoStorageUnavailable => 134
  | DoStorageLimit => 135
  | DoDispatchTimeout => 136
  | DoRpcUnsupported => 137
  | DoRuntimeException => 138
  | DoNamespaceNotEmpty => 139
  | DoInternalProtocolError => 140
  | SchedulerUnavailable => 141
  | SchedulerCorrupt => 142
  | SchedulerBusy => 143
  | SchedulerInternalProtocolError => 144
  | SchedulerKindNotEnabled => 145
  | DoAlarmIndexUnavailable => 146
  | QueueNotFound => 147
  | QueueNameConflict => 148
  | QueueNotReady => 149
  | QueueConfigPending => 150
  | QueueReferenced => 151
  | QueueNotEmpty => 152
  | QueueContentTypeUnsupported => 153
  | QueueInvalidMessage => 154
  | QueueMessageTooLarge => 155
  | QueueBatchLimitExceeded => 156
  | QueueDelayInvalid => 157
  | QueueBacklogLimitExceeded => 158
  | QueueStorageUnavailable => 159
  | QueueSendResultUnknown => 160
  | QueueConsumerConflict => 161
  | QueueConsumerNotReady => 162
  | QueueConsumerProjectionPending => 163
  | QueueConsumerGenerationStale => 164
  | QueueDispositionInvalid => 165
  | QueueRetryDelayInvalid => 166
  | QueueDlqInvalid => 167
  | QueueDlqBackpressured => 168
  | QueueCustomEventUnsupported => 169
  | CronExpressionInvalid => 170
  | CronExpressionUnsupported => 171
  | CronProjectionPending => 172
  | CronActivationStale => 173
  | CronCustomEventUnsupported => 174
  | QueueInvariantViolation => 175
  | WorkflowNotFound => 176
  | WorkflowNotReady => 177
  | WorkflowVersionNotReady => 178
  | WorkflowBindingStale => 179
  | WorkflowCapabilityMismatch => 180
  | WorkflowInstanceStateConflict => 181
  | WorkflowInstanceBusy => 182
  | WorkflowInstanceCleanupPending => 183
  | WorkflowEventTypeInvalid => 184
  | WorkflowEventQueueFull => 185
  | WorkflowStepTimeout => 186
  | WorkflowStepRetriesExhausted => 187
  | WorkflowNonRetryable => 188
  | WorkflowEventTimeout => 189
  | WorkflowInstanceIdInvalid => 190
  | WorkflowInstanceAlreadyExists => 191
  | WorkflowInstanceNotFound => 192
  | WorkflowPayloadTooLarge => 193
  | WorkflowResultTooLarge => 194
  | WorkflowSerializationUnsupported => 195
  | WorkflowStateQuotaExceeded => 196
  | WorkflowStepLimitExceeded => 197
  | WorkflowStepConfigUnsupported => 198
  | WorkflowDurationInvalid => 199
  | WorkflowMethodUnsupported => 200
  | WorkflowNonDeterministic => 201
  | WorkflowRunStale => 202
  | WorkflowStepStale => 203
  | WorkflowRuntimeUnavailable => 204
  | WorkflowExecutionFailed => 205
  | WorkflowReferenced => 206
  | WorkflowInvariantViolation => 207
  | WorkflowNameConflict => 208
  | CacheKeyInvalid => 209
  | CachePutRejected => 210
  | CacheLimitExceeded => 211
  | CacheUnavailable => 212
  | CacheCorrupt => 213
  | CacheProtocolError => 214
  | CacheResultUnknown => 215
  | ImageInputInvalid => 216
  | ImageFormatUnsupported => 217
  | ImageOptionUnsupported => 218
  | ImageLimitExceeded => 219
  | ImageTimeout => 220
  | ImageUnavailable => 221
  | ImageProtocolError => 222
  | DocumentInputInvalid => 223
  | DocumentFormatUnsupported => 224
  | DocumentOcrUnavailable => 225
  | DocumentVisionInputTooLarge => 226
  | DocumentEncrypted => 227
  | DocumentEmpty => 228
  | DocumentLimitExceeded => 229
  | DocumentOptionUnsupported => 230
  | DocumentTimeout => 231
  | DocumentUnavailable => 232
  | DocumentProcessFailed => 233
  | DocumentProtocolError => 234
  | DocumentParseFailed => 235
  | DocumentNoExtractableText => 236
  | Internal => 237
  | InstanceIdInvalid => 238
  | InstanceNotFound => 239
  | InstanceAmbiguous => 240
  | InstanceRegistryInvalid => 241
  | TargetInvalid => 242
  | TargetNotFound => 243
  | TargetRegistryInvalid => 244
  | CfInvalid => 245
  | BrowserUnavailable => 246
  | BrowserUnsupported => 247
  | BrowserInputInvalid => 248
  | BrowserLimitExceeded => 249
  | BrowserTimeout => 250
  | BrowserSessionNotFound => 251
  | WranglerProjectUnsupported => 252
  end.

Lemma all_codes_discriminant c : all_codes !! discriminant c = Some c.
Proof. destruct c; reflexivity. Qed.

#[export] Instance discriminant_inj : Inj (=) (=) discriminant.
Proof.
  intros c d Heq. pose proof (all_codes_discriminant c) as Hc.
  rewrite Heq, all_codes_discriminant in Hc. by simplify_eq.
Qed.

#[export] Instance ErrorCode_eq_dec : EqDecision ErrorCode :=
  λ c d, match decide (discriminant c = discriminant d) with
         | left H => left (inj discriminant c d H)
         | right H => right (λ e, H (f_equal discriminant e))
         end.

Lemma elem_of_all_codes c : c ∈ all_codes.
Proof. eapply list_elem_of_lookup_2, all_codes_discriminant. Qed.

(** A decidable property of every code, checked by evaluation. *)
Lemma all_codes_check (P : ErrorCode → bool) :
  forallb P all_codes = true → ∀ c, P c = true.
Proof.
  intros Hall c. rewrite forallb_forall in Hall.
  apply Hall, list_elem_of_In, elem_of_all_codes.
Qed.

(** [PlatformError::new(code, message)] *)
Record PlatformError := platform_error { code : ErrorCode; message : string }.
#[export] Instance PlatformError_eq_dec : EqDecision PlatformError.
Proof. solve_decision. Defined.

(** ** Decoding a persisted code *)

(** serde's documented [SCREAMING_SNAKE_CASE] spelling of a PascalCase variant:
    an underscore before every uppercase letter but the first, in upper case. *)
Definition is_upper (c : ascii) : bool :=
  let n := N_of_ascii c in ((65 <=? n) && (n <=? 90))%N.
Definition to_ascii_uppercase (c : ascii) : ascii :=
  let n := N_of_ascii c in
  if ((97 <=? n) && (n <=? 122))%N then ascii_of_N (n - 32) else c.
Fixpoint screaming_tail (s : string) : string :=
  match s with
  | EmptyString => EmptyString
  | String c s =>
      if is_upper c then String "_" (String (to_ascii_uppercase c) (screaming_tail s))
      else String (to_ascii_uppercase c) (screaming_tail s)
  end.
Definition screaming_snake (s : string) : string :=
  match s with
  | EmptyString => EmptyString
  | String c s => String (to_ascii_uppercase c) (screaming_tail s)
  end.

Section serde.
(** The wire name serde derives for a variant identifier. *)
Variable rename_all : string → string.

(** Decode one canonical persisted error code: serde accepts exactly the wire
    names of the variants. *)
Definition from_stable_str (value : string) : option ErrorCode :=
  snd <$> list_find (λ c, rename_all (variant_ident c) = value) all_codes.
End serde.

(** The codes whose operator spelling is not the serde wire name. *)
Definition renamed_code (c : ErrorCode) : bool :=
  match c with D1ColumnNotFound | DocumentFormatUnsupported => true | _ => false end.

Lemma from_stable_str_ext (f g : string → string) value :
  (∀ s, f s = g s) → from_stable_str f value = from_stable_str g value.
Proof.
  intros Hfg. unfold from_stable_str. f_equal.
  induction all_codes as [|c l IH]; [done|]. cbn.
  rewrite (decide_ext (f (variant_ident c) = value) (g (variant_ident c) = value))
    by (by rewrite Hfg).
  destruct (decide _); [done|]. by rewrite IH.
Qed.

(** [as_str] is injective: distinct codes have distinct operator spellings. *)
Lemma as_str_inj c d : as_str c = as_str d → c = d.
Proof.
  pose (find s := snd <$> list_find (λ c, as_str c = s) all_codes).
  assert (Hfind : ∀ c, find (as_str c) = Some c).
  { intros c'. apply (bool_decide_unpack _), Is_true_true_2.
    revert c'. apply (all_codes_check (λ c, bool_decide (find (as_str c) = Some c))).
    vm_compute. reflexivity. }
  intros Heq. pose proof (Hfind c) as Hc. rewrite Heq, Hfind in Hc. by simplify_eq.
Qed.

(** C34. A code persisted through [as_str] is decoded back by [from_stable_str]
    exactly when it is neither [D1ColumnNotFound] nor
    [DocumentFormatUnsupported]: those two spell a name that serde's rename rule
    does not produce, so the decoder rejects them. *)
Theorem from_stable_str_as_str (rename_all : string → string)
    (Hrename : ∀ s, rename_all s = screaming_snake s) (c : ErrorCode) :
  from_stable_str rename_all (as_str c) = if renamed_code c then None else Some c.
Proof.
  rewrite (from_stable_str_ext _ screaming_snake) by done.
  apply (bool_decide_unpack _), Is_true_true_2. revert c.
  apply (all_codes_check (λ c, bool_decide
    (from_stable_str screaming_snake (as_str c) = if renamed_code c then None else Some c))).
  vm_compute. reflexivity.
Qed.

Lemma from_stable_str_as_str_witness :
  from_stable_str screaming_snake (as_str QueueNotFound) = Some QueueNotFound ∧
  from_stable_str screaming_snake (as_str D1ColumnNotFound) = None.
Proof.
  split.
  - exact (from_stable_str_as_str screaming_snake (λ _, eq_refl) QueueNotFound).
  - exact (from_stable_str_as_str screaming_snake (λ _, eq_refl) D1ColumnNotFound).
Defined.
