(* ===== verification/Duration.v ===== *)
(** * Workflow durations

    [crates/core/src/workflow/duration.rs]: the exact, bounded duration parser
    shared by sleeps, retry delays, timeouts and retention.  A JSON
    number is the IEEE double that [as_f64] returns. *)

From stdpp Require Import base numbers list strings.
From Stdlib Require Import Ascii SpecFloat.
From S2P Require Import Prelude Text ErrorCodes.

Local Open Scope Z_scope.

(** ** JSON values *)

#[warnings="-register-all"]
Inductive Value : Type :=
| Null
| Bool (b : bool)
| Number (f : spec_float)
| JString (s : ustr)
| Array (l : list Value)
| Object (fields : list (ustr * Value)).

(** ** The parser *)

(** Maximum integer that can cross the JavaScript/SQLite protocol without loss. *)
Definition WORKFLOW_MAX_SAFE_INTEGER : Z := 9007199254740991.
(** Maximum one-shot durable sleep or event timeout: 365 days. *)
Definition WORKFLOW_MAX_DURATION_MS : Z := 365 * 24 * 60 * 60 * 1000.

Definition workflow_error (c : ErrorCode) : PlatformError :=
  platform_error c "Workflow validation failed".

Definition duration_invalid : PlatformError := workflow_error WorkflowDurationInvalid.

(** ECMAScript WhiteSpace + LineTerminator. *)
Definition whitespace (c : Z) : bool :=
  ((9 <=? c) && (c <=? 13)) || (c =? 32) || (c =? 160) || (c =? 5760)
  || ((8192 <=? c) && (c <=? 8202)) || (c =? 8232) || (c =? 8233) || (c =? 8239)
  || (c =? 8287) || (c =? 12288) || (c =? 65279).

(** The [match unit.as_str()] table. *)
Definition unit_multiplier (unit : ustr) : option Z :=
  if decide (unit ∈ [lit "ms"; lit "millisecond"; lit "milliseconds"]) then Some 1
  else if decide (unit ∈ [lit "s"; lit "second"; lit "seconds"]) then Some 1000
  else if decide (unit ∈ [lit "m"; lit "minute"; lit "minutes"]) then Some 60000
  else if decide (unit ∈ [lit "h"; lit "hour"; lit "hours"]) then Some 3600000
  else if decide (unit ∈ [lit "d"; lit "day"; lit "days"]) then Some 86400000
  else if decide (unit ∈ [lit "w"; lit "week"; lit "weeks"]) then Some 604800000
  else None.

(** The [for digit in whole.bytes()] loop. *)
Fixpoint whole_loop (integer : Z) (whole : ustr) : option Z :=
  match whole with
  | [] => Some integer
  | digit :: whole =>
      value ← u64_checked (integer * 10);
      value ← u64_checked (value + (digit - 48));
      if decide (value ≤ WORKFLOW_MAX_SAFE_INTEGER) then whole_loop value whole else None
  end.

(** The [for digit in fraction.bytes().rev()] loop, most significant digit
    first in the list: the accumulator is [(carry, remainder)]. *)
Fixpoint fraction_loop (multiplier : Z) (fraction : ustr) : Z * bool :=
  match fraction with
  | [] => (0, false)
  | digit :: fraction =>
      let '(carry, remainder) := fraction_loop multiplier fraction in
      let product := (digit - 48) * multiplier + carry in
      (product / 10, remainder || negb (product mod 10 =? 0))
  end.

Definition string_duration (value : ustr) : result PlatformError Z :=
  _ ← bail_if (str_len value > 4096) duration_invalid;
  let value := trim_matches whitespace value in
  '(decimal, rest) ← ok_or_else (split_at_first whitespace value) duration_invalid;
  let unit := to_ascii_lowercase (trim_start whitespace rest) in
  multiplier ← ok_or_else (unit_multiplier unit) duration_invalid;
  let '(whole, fraction) := default (decimal, []) (split_once 46 decimal) in
  _ ← bail_if ((whole = [] ∧ fraction = []) ∨ ¬ Forall is_digit (whole ++ fraction))
        duration_invalid;
  integer ← ok_or_else (whole_loop 0 whole) duration_invalid;
  let '(carry, remainder) := fraction_loop multiplier fraction in
  ok_or_else
    (value ← u64_checked (integer * multiplier);
     value ← u64_checked (value + carry);
     value ← u64_checked (value + (if (remainder : bool) then 1 else 0));
     if decide (value ≤ WORKFLOW_MAX_SAFE_INTEGER) then Some value else None)
    duration_invalid.

(** [f64::ceil] of a finite double, as the integer it denotes. *)
Definition f64_ceil (s : bool) (m : positive) (e : Z) : Z :=
  let v := if s then Z.neg m else Z.pos m in
  if decide (0 ≤ e) then v * 2 ^ e else - ((- v) / 2 ^ (- e)).

Definition duration_ms (value : Value) (maximum : Z) : result PlatformError Z :=
  parsed ← match value with
    | Number number =>
        match number with
        | S754_zero _ => Ok 0
        | S754_finite s m e =>
            if decide (s = true ∨ f64_ceil s m e > WORKFLOW_MAX_SAFE_INTEGER)
            then Err duration_invalid else Ok (f64_ceil s m e)
        | S754_infinity _ | S754_nan => Err duration_invalid
        end
    | JString value => string_duration value
    | _ => Err duration_invalid
    end;
  if decide (parsed > Z.min maximum WORKFLOW_MAX_SAFE_INTEGER)
  then Err duration_invalid else Ok parsed.

(** [f64::fract() != 0.0] of a finite double *)
Definition f64_is_integer (m : positive) (e : Z) : Prop :=
  0 ≤ e ∨ Z.pos m mod 2 ^ (- e) = 0.
#[export] Instance f64_is_integer_dec m e : Decision (f64_is_integer m e).
Proof. unfold f64_is_integer. apply _. Defined.

(** The integer value of a finite double with no fractional part. *)
Definition f64_to_Z (s : bool) (m : positive) (e : Z) : Z :=
  let v := if s then Z.neg m else Z.pos m in
  if decide (0 ≤ e) then v * 2 ^ e else v / 2 ^ (- e).

Definition timestamp_ms (value : Value) : result PlatformError Z :=
  match value with
  | Number (S754_zero _) => Ok 0
  | Number (S754_finite s m e) =>
      if decide (¬ f64_is_integer m e ∨ Z.abs (f64_to_Z s m e) > WORKFLOW_MAX_SAFE_INTEGER)
      then Err duration_invalid else Ok (f64_to_Z s m e)
  | _ => Err duration_invalid
  end.

(** ** Properties *)

(** The number a digit string denotes, read from the left with a start value. *)
Definition digits_from (n : Z) (s : ustr) : Z := foldl (λ n c, n * 10 + (c - 48)) n s.
Definition digits (s : ustr) : Z := digits_from 0 s.

(** The smallest integer not below [n / d]. *)
Definition div_ceil (n d : Z) : Z := (n + (d - 1)) / d.

Lemma digits_from_ge n s : 0 ≤ n → Forall is_digit s → n ≤ digits_from n s.
Proof.
  intros Hn Hs. revert n Hn. induction Hs as [|c s Hc _ IH]; intros n Hn; cbn; [lia|].
  unfold is_digit in Hc. etransitivity; [|apply IH]; lia.
Qed.

Lemma digits_from_app n s t : digits_from n (s ++ t) = digits_from (digits_from n s) t.
Proof. apply foldl_app. Qed.

Lemma digits_from_shift n s :
  digits_from n s = n * 10 ^ Z.of_nat (length s) + digits s.
Proof.
  unfold digits. revert n. induction s as [|c s IH]; intros n; cbn -[Z.pow Z.mul Z.of_nat].
  - rewrite Z.pow_0_r. lia.
  - unfold digits_from in IH. rewrite IH. rewrite (IH (0 * 10 + _)).
    replace (Z.of_nat (S (length s))) with (Z.of_nat (length s) + 1) by lia.
    rewrite Z.pow_add_r by lia. lia.
Qed.

Lemma digits_app s t : digits (s ++ t) = digits s * 10 ^ Z.of_nat (length t) + digits t.
Proof. unfold digits. by rewrite digits_from_app, digits_from_shift. Qed.

Lemma digits_cons c s :
  digits (c :: s) = (c - 48) * 10 ^ Z.of_nat (length s) + digits s.
Proof.
  change (digits (c :: s)) with (digits_from (0 * 10 + (c - 48)) s).
  rewrite digits_from_shift. lia.
Qed.

Lemma digits_nonneg s : Forall is_digit s → 0 ≤ digits s.
Proof. intros. by apply digits_from_ge. Qed.

Lemma digits_lt s : Forall is_digit s → digits s < 10 ^ Z.of_nat (length s).
Proof.
  induction 1 as [|c s Hc _ IH]; [cbn; lia|].
  rewrite digits_cons. cbn [length]. unfold is_digit in Hc.
  replace (Z.of_nat (S (length s))) with (Z.of_nat (length s) + 1) by lia.
  rewrite Z.pow_add_r by lia. nia.
Qed.

Lemma whole_loop_spec n s :
  0 ≤ n → Forall is_digit s →
  whole_loop n s =
    if decide (s = [] ∨ digits_from n s ≤ WORKFLOW_MAX_SAFE_INTEGER)
    then Some (digits_from n s) else None.
Proof.
  intros Hn Hs. revert n Hn.
  induction Hs as [|c s Hc Hs IH]; intros n Hn; cbn [whole_loop].
  { by rewrite decide_True by auto. }
  pose proof (digits_from_ge (n * 10 + (c - 48)) s) as Hge.
  change (digits_from n (c :: s)) with (digits_from (n * 10 + (c - 48)) s).
  unfold is_digit, WORKFLOW_MAX_SAFE_INTEGER in *.
  destruct (decide (n * 10 + (c - 48) ≤ 9007199254740991)) as [Hle|Hgt].
  - rewrite u64_checked_in by (unfold in_u64; lia). cbn [mbind option_bind].
    rewrite u64_checked_in by (unfold in_u64; lia). cbn [mbind option_bind].
    rewrite (decide_True (P := _ ≤ _)) by lia. rewrite IH by lia.
    apply decide_ext. split; intros [Hnil|?]; [subst s; right; cbn; lia|by right|done|by right].
  - rewrite (decide_False (P := _ ∨ _)) by (intros [?|?]; [done|specialize (Hge ltac:(lia) Hs); lia]).
    destruct (u64_checked (n * 10)) as [v|] eqn:Hv; [|done].
    apply u64_checked_Some in Hv as [-> _]. cbn [mbind option_bind].
    destruct (u64_checked _) as [w|] eqn:Hw; [|done].
    apply u64_checked_Some in Hw as [-> _]. cbn [mbind option_bind]. by rewrite decide_False by lia.
Qed.

(** Long multiplication of the fraction keeps the exact quotient and whether
    anything was discarded. *)
Lemma fraction_loop_spec m s :
  0 ≤ m → Forall is_digit s →
  fraction_loop m s =
    let d := 10 ^ Z.of_nat (length s) in
    (digits s * m / d, negb ((digits s * m) mod d =? 0)).
Proof.
  intros Hm. induction 1 as [|c s Hc Hs IH]; [reflexivity|].
  cbn [fraction_loop length]. rewrite IH, digits_cons.
  set (k := Z.of_nat (length s)). set (n := digits s).
  replace (Z.of_nat (S (length s))) with (k + 1) by lia.
  assert (0 < 10 ^ k) by (apply Z.pow_pos_nonneg; lia).
  pose proof (Z.div_mod (n * m) (10 ^ k) ltac:(lia)) as Hdm.
  pose proof (Z.mod_pos_bound (n * m) (10 ^ k) ltac:(lia)) as Hb.
  set (q := n * m / 10 ^ k) in *. set (r := (n * m) mod 10 ^ k) in *.
  pose proof (Z.div_mod ((c - 48) * m + q) 10 ltac:(lia)) as Hdm'.
  pose proof (Z.mod_pos_bound ((c - 48) * m + q) 10 ltac:(lia)) as Hb'.
  set (q' := ((c - 48) * m + q) / 10) in *. set (r' := ((c - 48) * m + q) mod 10) in *.
  assert (Hsplit : ((c - 48) * 10 ^ k + n) * m = q' * 10 ^ (k + 1) + (r' * 10 ^ k + r)).
  { rewrite Z.pow_add_r by lia. nia. }
  assert (Hr : 0 ≤ r' * 10 ^ k + r < 10 ^ (k + 1)).
  { rewrite Z.pow_add_r by lia. nia. }
  rewrite Hsplit. cbv zeta. fold q. fold q' r'. f_equal.
  - rewrite Z.div_add_l, (Z.div_small (r' * 10 ^ k + r)) by lia. lia.
  - fold r. rewrite (Z.add_comm (q' * _)), Z_mod_plus_full, (Z.mod_small (r' * 10 ^ k + r)) by exact Hr.
    destruct (Z.eqb_spec r 0), (Z.eqb_spec r' 0), (Z.eqb_spec (r' * 10 ^ k + r) 0);
      cbn; try reflexivity; nia.
Qed.

Lemma trim_start_spec P s :
  ∃ pre, s = pre ++ trim_start P s ∧ Forall (λ c, P c = true) pre.
Proof.
  induction s as [|c s (pre & Hs & Hpre)]; [by exists []|]. cbn.
  destruct (P c) eqn:Hc; [|by exists []].
  exists (c :: pre). split; [by rewrite Hs at 1|by constructor].
Qed.

Lemma trim_start_app P pre c s :
  Forall (λ c, P c = true) pre → P c = false → trim_start P (pre ++ c :: s) = c :: s.
Proof. induction 1 as [|d pre Hd _ IH]; cbn; intros Hc; [by rewrite Hc|by rewrite Hd, IH]. Qed.

Lemma trim_matches_spec P s :
  ∃ pre post, s = pre ++ trim_matches P s ++ post ∧
    Forall (λ c, P c = true) pre ∧ Forall (λ c, P c = true) post.
Proof.
  unfold trim_matches.
  destruct (trim_start_spec P s) as (pre & Hs & Hpre).
  destruct (trim_start_spec P (reverse (trim_start P s))) as (post & Hr & Hpost).
  exists pre, (reverse post). split_and!; [|done|by apply Forall_reverse].
  rewrite Hs at 1. f_equal. by rewrite <-reverse_app, <-Hr, reverse_involutive.
Qed.

Lemma trim_matches_app P pre a core b post :
  Forall (λ c, P c = true) pre → Forall (λ c, P c = true) post →
  P a = false → P b = false →
  trim_matches P (pre ++ (a :: core ++ [b]) ++ post) = a :: core ++ [b].
Proof.
  intros Hpre Hpost Ha Hb. unfold trim_matches. cbn.
  rewrite trim_start_app by done.
  rewrite app_comm_cons, reverse_app, app_comm_cons, reverse_snoc.
  rewrite trim_start_app; [|by apply Forall_reverse|done].
  by rewrite reverse_cons, reverse_involutive.
Qed.

Lemma split_at_first_Some P s l r :
  split_at_first P s = Some (l, r) ↔
  s = l ++ r ∧ Forall (λ c, P c = false) l ∧ ∃ c r', r = c :: r' ∧ P c = true.
Proof.
  split.
  - revert l r. induction s as [|c s IH]; intros l r; cbn; [done|].
    destruct (P c) eqn:Hc; [intros; simplify_eq/=; eauto 10|].
    destruct (split_at_first P s) as [[l' r']|] eqn:Hs; [|done].
    intros; simplify_eq/=. destruct (IH _ _ eq_refl) as (-> & Hl & Hr).
    split_and!; [done|by constructor|done].
  - intros (-> & Hl & c & r' & -> & Hc). induction Hl as [|d l Hd _ IH]; cbn.
    + by rewrite Hc.
    + by rewrite Hd, IH.
Qed.

Lemma split_once_Some sep s l r :
  split_once sep s = Some (l, r) ↔ s = l ++ sep :: r ∧ sep ∉ l.
Proof.
  assert (Hnot : sep ∉ l ↔ Forall (λ c, (sep =? c) = false) l).
  { rewrite Forall_forall. split.
    - intros Hin c Hc. apply Z.eqb_neq. by intros ->.
    - intros Hall Hin. specialize (Hall _ Hin). by rewrite Z.eqb_refl in Hall. }
  unfold split_once. rewrite Hnot. split.
  - destruct (split_at_first _ s) as [[l' r']|] eqn:Hs; [|done].
    apply split_at_first_Some in Hs as (-> & Hl & c & r'' & -> & Hc%Z.eqb_eq).
    cbn. intros. by simplify_eq.
  - intros (-> & Hl).
    rewrite (proj2 (split_at_first_Some (Z.eqb sep) (l ++ sep :: r) l (sep :: r))); [done|].
    split_and!; [done|done|]. eexists _, _. by rewrite Z.eqb_refl.
Qed.

Lemma split_once_None sep s : sep ∉ s → split_once sep s = None.
Proof.
  destruct (split_once sep s) as [[l r]|] eqn:Hs; [|done].
  apply split_once_Some in Hs as [-> ?].
  intros []. rewrite elem_of_app, elem_of_cons. auto.
Qed.

(** A character outside [A-Za-z] is never part of a unit. *)
Lemma unit_multiplier_letters unit m :
  unit_multiplier unit = Some m →
  0 < m ≤ 604800000 ∧ unit ≠ [] ∧ Forall (λ c, 97 ≤ c ≤ 122) unit.
Proof.
  unfold unit_multiplier. intros Hm.
  do 6 (destruct (decide _) as [Hin|_];
    [injection Hm as <-; split; [lia|];
     repeat (apply elem_of_cons in Hin as [->|Hin];
             [split; [done|cbn; repeat (constructor; [lia|]); constructor]|]);
     by apply elem_of_nil in Hin|]).
  done.
Qed.

Lemma lowercase_letter c : 97 ≤ lowercase c ≤ 122 → 65 ≤ c ≤ 122.
Proof. unfold lowercase. case_decide; lia. Qed.

Lemma whitespace_letter c : 33 ≤ c ≤ 122 → whitespace c = false.
Proof. unfold whitespace. lia. Qed.

Lemma unit_not_whitespace unit m :
  unit_multiplier (to_ascii_lowercase unit) = Some m →
  unit ≠ [] ∧ Forall (λ c, whitespace c = false) unit.
Proof.
  intros (_ & Hne & Hall)%unit_multiplier_letters. unfold to_ascii_lowercase in *.
  split; [by intros ->|]. apply Forall_fmap in Hall.
  eapply Forall_impl; [exact Hall|]. intros c Hc%lowercase_letter.
  apply whitespace_letter. lia.
Qed.

Lemma digit_not_whitespace c : is_digit c → whitespace c = false.
Proof. unfold is_digit. intros. apply whitespace_letter. lia. Qed.

(** The decimal number written [whole] or [whole.fraction]. *)
Definition decimal_text (whole : ustr) (fraction : option ustr) : ustr :=
  match fraction with None => whole | Some f => whole ++ 46 :: f end.

(** [text] spells the decimal [whole.fraction] and a unit of [m] milliseconds,
    with optional surrounding whitespace. *)
Definition spells (text whole : ustr) (fraction : option ustr) (m : Z) : Prop :=
  ∃ pre sep unit post,
    text = pre ++ (decimal_text whole fraction ++ sep ++ unit) ++ post ∧
    Forall (λ c, whitespace c = true) (pre ++ sep ++ post) ∧ sep ≠ [] ∧
    unit_multiplier (to_ascii_lowercase unit) = Some m ∧
    whole ++ default [] fraction ≠ [] ∧ Forall is_digit (whole ++ default [] fraction).

(** The arithmetic of [string_duration] once the text is split. *)
Definition combine (m : Z) (whole fraction : ustr) : option Z :=
  integer ← whole_loop 0 whole;
  let '(carry, remainder) := fraction_loop m fraction in
  value ← u64_checked (integer * m);
  value ← u64_checked (value + carry);
  value ← u64_checked (value + (if (remainder : bool) then 1 else 0));
  if decide (value ≤ WORKFLOW_MAX_SAFE_INTEGER) then Some value else None.

Lemma div_ceil_split n d r m :
  0 < d → 0 ≤ r →
  div_ceil ((n * d + r) * m) d =
    n * m + r * m / d + (if negb ((r * m) mod d =? 0) then 1 else 0).
Proof.
  intros Hd Hr. unfold div_ceil.
  replace ((n * d + r) * m + (d - 1)) with (n * m * d + (r * m + (d - 1))) by lia.
  rewrite Z.div_add_l by lia.
  pose proof (Z.div_mod (r * m) d ltac:(lia)) as Hdm.
  pose proof (Z.mod_pos_bound (r * m) d Hd) as Hb.
  set (q := r * m / d) in *. set (p := (r * m) mod d) in *.
  replace (r * m + (d - 1)) with (q * d + (p + (d - 1))) by lia.
  rewrite Z.div_add_l by lia.
  destruct (Z.eqb_spec p 0) as [->|]; cbn [negb].
  - rewrite (Z.div_small (0 + _)) by lia. lia.
  - replace (p + (d - 1)) with (1 * d + (p - 1)) by lia.
    rewrite Z.div_add_l, (Z.div_small (p - 1)) by lia. lia.
Qed.

(** The accepted value is the exact product rounded up, or nothing when that
    exceeds the safe-integer range. *)
Lemma combine_spec m whole fraction :
  0 < m ≤ 604800000 → Forall is_digit (whole ++ fraction) →
  combine m whole fraction =
    let c := div_ceil (digits (whole ++ fraction) * m) (10 ^ Z.of_nat (length fraction)) in
    if decide (c ≤ WORKFLOW_MAX_SAFE_INTEGER) then Some c else None.
Proof.
  intros Hm [Hw Hf]%Forall_app. cbv zeta. unfold combine.
  rewrite digits_app. set (d := 10 ^ _). set (n := digits whole). set (r := digits fraction).
  assert (0 < d) by (apply Z.pow_pos_nonneg; lia).
  pose proof (digits_nonneg whole Hw) as Hn. fold n in Hn.
  pose proof (digits_nonneg fraction Hf) as Hr. pose proof (digits_lt fraction Hf) as Hlt.
  fold r in Hr, Hlt. fold d in Hlt.
  rewrite div_ceil_split by lia.
  rewrite whole_loop_spec by done. fold (digits whole). fold n.
  rewrite fraction_loop_spec by (done || lia). cbv zeta. fold r d.
  assert (Hq : 0 ≤ r * m / d ≤ 604800000).
  { split; [apply Z.div_pos; nia|]. apply Z.div_le_upper_bound; nia. }
  set (q := r * m / d) in *. set (b := negb _).
  assert (Hb : 0 ≤ (if b then 1 else 0) ≤ 1) by (destruct b; lia).
  set (x := if b then 1 else 0) in *. unfold WORKFLOW_MAX_SAFE_INTEGER in *.
  case_decide as Hn'; cbn [mbind option_bind].
  2:{ by rewrite decide_False by (intros ?; apply Hn'; right; nia). }
  destruct (decide (n * m + q + x ≤ 9007199254740991)) as [Hle|Hgt].
  - rewrite u64_checked_in by (unfold in_u64; nia). cbn [mbind option_bind].
    rewrite u64_checked_in by (unfold in_u64; nia). cbn [mbind option_bind].
    rewrite u64_checked_in by (unfold in_u64; nia). cbn [mbind option_bind].
    by rewrite decide_True.
  - destruct (u64_checked (n * m)) as [v|] eqn:Hv; [|done].
    apply u64_checked_Some in Hv as [-> _]. cbn [mbind option_bind].
    destruct (u64_checked _) as [v|] eqn:Hv; [|done].
    apply u64_checked_Some in Hv as [-> _]. cbn [mbind option_bind].
    destruct (u64_checked _) as [v|] eqn:Hv; [|done].
    apply u64_checked_Some in Hv as [-> _]. cbn [mbind option_bind].
    by rewrite decide_False.
Qed.

Lemma string_duration_split text :
  string_duration text =
    if decide (str_len text > 4096) then Err duration_invalid else
    match split_at_first whitespace (trim_matches whitespace text) with
    | None => Err duration_invalid
    | Some (decimal, rest) =>
        match unit_multiplier (to_ascii_lowercase (trim_start whitespace rest)) with
        | None => Err duration_invalid
        | Some m =>
            let '(whole, fraction) := default (decimal, []) (split_once 46 decimal) in
            if decide ((whole = [] ∧ fraction = []) ∨ ¬ Forall is_digit (whole ++ fraction))
            then Err duration_invalid
            else ok_or_else (combine m whole fraction) duration_invalid
        end
    end.
Proof.
  unfold string_duration, combine, bail_if. case_decide; [done|]. cbn -[Z.mul].
  destruct (split_at_first _ _) as [[decimal rest]|]; [|done]. cbn -[Z.mul].
  destruct (unit_multiplier _) as [m|]; [|done]. cbn -[Z.mul].
  destruct (default _ _) as [whole fraction].
  destruct (decide (_ ∨ _)); [done|]. cbn -[Z.mul].
  destruct (whole_loop 0 whole); [|done]. cbn -[Z.mul].
  by destruct (fraction_loop m fraction).
Qed.

(** Splitting a spelled duration recovers its parts. *)
Lemma spells_split text whole fraction m :
  spells text whole fraction m →
  ∃ rest,
    split_at_first whitespace (trim_matches whitespace text) =
      Some (decimal_text whole fraction, rest) ∧
    unit_multiplier (to_ascii_lowercase (trim_start whitespace rest)) = Some m ∧
    default (decimal_text whole fraction, []) (split_once 46 (decimal_text whole fraction)) =
      (whole, default [] fraction).
Proof.
  intros (pre & sep & unit & post & -> & Hws & Hsep & Hunit & Hne & Hdig).
  apply Forall_app in Hws as [Hpre [Hsepw Hpost]%Forall_app].
  apply Forall_app in Hdig as [Hw Hf].
  destruct (unit_not_whitespace _ _ Hunit) as [Hune Hunw].
  assert (Hdot : Forall (λ c, whitespace c = false) (decimal_text whole fraction)).
  { pose proof (Forall_impl _ _ _ Hw digit_not_whitespace).
    pose proof (Forall_impl _ _ _ Hf digit_not_whitespace).
    destruct fraction; cbn in *; [|done]. apply Forall_app. by repeat constructor. }
  assert (∃ a dec', decimal_text whole fraction = a :: dec') as (a & dec' & Hdec).
  { destruct whole, fraction as [[]|]; cbn in *; try done; eauto. }
  destruct (exists_last Hune) as (unit' & b & ->).
  assert (Hdecn := Hdot). rewrite Hdec in Hdecn. apply Forall_cons in Hdecn as [Ha _].
  apply Forall_app in Hunw as [Hunw [Hb _]%Forall_cons].
  destruct sep as [|s0 sep']; [done|]. apply Forall_cons in Hsepw as [Hs0 Hsep'].
  assert (Htrim : trim_matches whitespace
     (pre ++ (decimal_text whole fraction ++ (s0 :: sep') ++ unit' ++ [b]) ++ post) =
     decimal_text whole fraction ++ (s0 :: sep') ++ unit' ++ [b]).
  { rewrite Hdec. pose proof (trim_matches_app whitespace pre a (dec' ++ (s0 :: sep') ++ unit') b post
      Hpre Hpost Ha Hb) as H. rewrite <-!app_assoc in H. cbn in H |- *. by rewrite <-!app_assoc in *. }
  rewrite Htrim. exists ((s0 :: sep') ++ unit' ++ [b]). split_and!.
  - apply split_at_first_Some. split_and!; [done|done|]. cbn. eauto.
  - rewrite <-Hunit. f_equal. f_equal.
    destruct unit' as [|u unit'']; cbn [app].
    + apply (trim_start_app whitespace (s0 :: sep')); [by constructor|done].
    + apply Forall_cons in Hunw as [Hu _].
      apply (trim_start_app whitespace (s0 :: sep')); [by constructor|done].
  - assert (46 ∉ whole).
    { intros Hin. rewrite Forall_forall in Hw. specialize (Hw _ Hin). unfold is_digit in Hw. lia. }
    destruct fraction as [f|]; unfold decimal_text.
    + by rewrite (proj2 (split_once_Some 46 (whole ++ 46 :: f) whole f)).
    + by rewrite split_once_None.
Qed.

Lemma split_spells text decimal rest m whole fraction :
  split_at_first whitespace (trim_matches whitespace text) = Some (decimal, rest) →
  unit_multiplier (to_ascii_lowercase (trim_start whitespace rest)) = Some m →
  default (decimal, []) (split_once 46 decimal) = (whole, fraction) →
  ¬ ((whole = [] ∧ fraction = []) ∨ ¬ Forall is_digit (whole ++ fraction)) →
  ∃ f, spells text whole f m ∧ default [] f = fraction.
Proof.
  intros Hsplit Hunit Honce Hok.
  apply split_at_first_Some in Hsplit as (Htrim & Hdec & s0 & rest' & -> & Hs0).
  destruct (trim_matches_spec whitespace text) as (pre & post & Htext & Hpre & Hpost).
  destruct (trim_start_spec whitespace (s0 :: rest')) as (sep & Hsep & Hsepw).
  set (unit := trim_start whitespace (s0 :: rest')) in *. clearbody unit.
  assert (Hd : ∃ f, decimal = decimal_text whole f ∧ default [] f = fraction).
  { destruct (split_once 46 decimal) as [[l r]|] eqn:Ho; cbn in Honce; simplify_eq.
    - apply split_once_Some in Ho as [-> _]. by exists (Some fraction).
    - by exists None. }
  destruct Hd as (f & -> & Hf). exists f. split; [|done].
  exists pre, sep, unit, post.
  destruct (decide (whole ++ fraction = [])) as [[-> ->]%app_nil|Hne]; [tauto|].
  destruct (decide (Forall is_digit (whole ++ fraction))); [|tauto].
  rewrite Hf. split_and!; try done.
  - rewrite Htext, Htrim, Hsep. done.
  - by rewrite !Forall_app.
  - intros ->. cbn in Hsep. destruct (unit_not_whitespace _ _ Hunit) as [_ Hu].
    rewrite <-Hsep in Hu. apply Forall_cons in Hu as [Hu _]. by rewrite Hs0 in Hu.
Qed.

Lemma string_duration_nonneg text c : string_duration text = Ok c → 0 ≤ c.
Proof.
  rewrite string_duration_split. case_decide; [done|].
  destruct (split_at_first _ _) as [[decimal rest]|]; [|done].
  destruct (unit_multiplier _) as [m|] eqn:Hunit; [|done].
  destruct (default _ _) as [whole fraction]. case_decide as Hok; [done|].
  destruct (unit_multiplier_letters _ _ Hunit) as (Hm & _).
  assert (Hd : Forall is_digit (whole ++ fraction)) by (apply dec_stable; tauto).
  rewrite combine_spec by done. cbv zeta. case_decide; [|done]. cbn. intros; simplify_eq.
  pose proof (digits_nonneg _ Hd). apply Z.div_pos; [|apply Z.pow_pos_nonneg; lia].
  assert (0 < 10 ^ Z.of_nat (length fraction)) by (apply Z.pow_pos_nonneg; lia). nia.
Qed.

(** An accepted duration is a non-negative integer within the caller's cap. *)
Lemma duration_ms_range value maximum d :
  duration_ms value maximum = Ok d → 0 ≤ d ≤ Z.min maximum WORKFLOW_MAX_SAFE_INTEGER.
Proof.
  unfold duration_ms. intros Hd.
  destruct (match value with Number _ => _ | _ => _ end) as [p|] eqn:Hp; [|done].
  cbn in Hd. case_decide; simplify_eq. split; [|lia].
  destruct value as [| |[| | |s m e]|text| |]; simplify_eq/=; try lia.
  - case_decide as Hs; [done|]. simplify_eq.
    destruct s; [naive_solver|]. unfold f64_ceil. cbn.
    case_decide; [apply Z.mul_nonneg_nonneg; lia|].
    assert (0 < 2 ^ (- e)) by (apply Z.pow_pos_nonneg; lia).
    pose proof (Z.div_le_upper_bound (Z.neg m) (2 ^ (- e)) 0). lia.
  - by eapply string_duration_nonneg.
Qed.

(** C33. The duration parser accepts exactly the texts
    [whitespace* decimal whitespace+ unit whitespace*] of at most 4096 bytes, and
    returns the exact product of the decimal and the unit, rounded up to a whole
    millisecond, when that does not exceed the largest safe integer; no
    floating-point or 64-bit overflow error is possible on the way. *)
Theorem string_duration_exact (text : ustr) (c : Z) :
  string_duration text = Ok c ↔
  str_len text ≤ 4096 ∧
  ∃ whole fraction m,
    spells text whole fraction m ∧
    c = div_ceil (digits (whole ++ default [] fraction) * m)
          (10 ^ Z.of_nat (length (default [] fraction))) ∧
    c ≤ WORKFLOW_MAX_SAFE_INTEGER.
Proof.
  rewrite string_duration_split. case_decide as Hlen.
  { split; [done|]. lia. }
  split.
  - destruct (split_at_first _ _) as [[decimal rest]|] eqn:Hsplit; [|done].
    destruct (unit_multiplier _) as [m|] eqn:Hunit; [|done].
    destruct (default _ _) as [whole fraction] eqn:Honce.
    case_decide as Hok; [done|].
    destruct (unit_multiplier_letters _ _ Hunit) as (Hm & _).
    rewrite combine_spec by (done || (apply dec_stable; tauto)).
    cbv zeta. case_decide as Hc; [|done]. cbn. intros; simplify_eq.
    destruct (split_spells _ _ _ _ _ _ Hsplit Hunit Honce Hok) as (f & Hsp & <-).
    split; [lia|]. exists whole, f, m. done.
  - intros (_ & whole & fraction & m & Hsp & -> & Hc).
    destruct (spells_split _ _ _ _ Hsp) as (rest & -> & Hunit & Honce).
    rewrite Hunit, Honce.
    destruct (unit_multiplier_letters _ _ Hunit) as (Hm & _).
    destruct Hsp as (_ & _ & _ & _ & _ & _ & _ & _ & Hne & Hdig).
    rewrite decide_False.
    2:{ intros [[-> E]|?]; [|done]. by rewrite E in Hne. }
    rewrite combine_spec by done. cbv zeta. by rewrite decide_True.
Qed.

Example string_duration_examples :
  string_duration (lit " 1.5 Minutes ") = Ok 90000 ∧
  string_duration (lit ".0001 s") = Ok 1 ∧
  string_duration (lit "5s") = Err duration_invalid ∧
  string_duration (lit "9007199254740992 ms") = Err duration_invalid.
Proof. vm_compute. repeat split. Qed.
