(* ===== verification/RetryPolicy.v ===== *)
(** * Frozen retry, timeout and retention policy

    [crates/core/src/workflow/policy.rs]: the retry backoff of a durable step,
    the strict normalisation of a public step configuration, the canonical key
    order of its descriptor, and the absolute expiry of a terminal instance. *)

From stdpp Require Import base numbers list strings sorting.
From Stdlib Require Import SpecFloat.
From S2P Require Import Prelude Text ErrorCodes Duration.

Local Open Scope Z_scope.

(** ** Data *)

Definition WORKFLOW_DRAIN_MARGIN_MS : Z := 30000.
Definition WORKFLOW_MAX_ATTEMPT_MS : Z := 240000.
Definition WORKFLOW_MAX_RETRY_DELAY_MS : Z := 86400000.

Inductive WorkflowBackoff : Type := Constant | Linear | Exponential.

Record WorkflowRetryPolicy := {
  limit : Z;
  delay : option Z;
  backoff : WorkflowBackoff;
}.

Definition WorkflowRetryPolicy_default : WorkflowRetryPolicy :=
  {| limit := 5; delay := Some 10000; backoff := Exponential |}.

Inductive WorkflowStepSensitivity : Type := Output.

Record WorkflowStepConfig := {
  retries : WorkflowRetryPolicy;
  timeout : Z;
  sensitive : option WorkflowStepSensitivity;
}.

Definition WorkflowStepConfig_default : WorkflowStepConfig :=
  {| retries := WorkflowRetryPolicy_default; timeout := 60000; sensitive := None |}.

Definition policy_unsupported : PlatformError :=
  workflow_error WorkflowStepConfigUnsupported.

(** ** Retry delays *)

Definition WorkflowRetryPolicy_validate (p : WorkflowRetryPolicy) : result PlatformError unit :=
  bail_if (p.(limit) > 100 ∨ WORKFLOW_MAX_DURATION_MS < default 0 p.(delay)) policy_unsupported.

(** The factor of a one-based attempt: [1_u64.checked_shl(attempt - 1)] is [None]
    from a shift of 64 on, and within 63 it does not lose the bit. *)
Definition backoff_factor (b : WorkflowBackoff) (attempt : Z) : Z :=
  match b with
  | Constant => 1
  | Linear => attempt
  | Exponential => if decide (attempt - 1 < 64) then Z.shiftl 1 (attempt - 1) else u64_max
  end.

Definition delay_after_resolved (p : WorkflowRetryPolicy) (attempt : Z)
    (resolved_dynamic_delay : option Z) : result PlatformError Z :=
  _ ← WorkflowRetryPolicy_validate p;
  _ ← bail_if (¬ (1 ≤ attempt ≤ 101)) policy_unsupported;
  delay ← match p.(delay), resolved_dynamic_delay with
    | Some delay, None | None, Some delay =>
        if decide (delay ≤ WORKFLOW_MAX_DURATION_MS) then Ok delay else Err policy_unsupported
    | _, _ => Err policy_unsupported
    end;
  let factor := backoff_factor p.(backoff) attempt in
  Ok (Z.min (u64_saturate (delay * factor)) WORKFLOW_MAX_RETRY_DELAY_MS).

Definition delay_after (p : WorkflowRetryPolicy) (attempt : Z) : result PlatformError Z :=
  delay_after_resolved p attempt None.

(** ** Step configuration *)

Definition WorkflowStepConfig_validate (c : WorkflowStepConfig) : result PlatformError unit :=
  _ ← WorkflowRetryPolicy_validate c.(retries);
  bail_if (¬ (1 ≤ c.(timeout) ≤ WORKFLOW_MAX_ATTEMPT_MS)) policy_unsupported.

Definition field (fields : list (ustr * Value)) (key : string) : option Value :=
  snd <$> (snd <$> list_find (λ kv, kv.1 = lit key) fields).

(** The strict [object] helper: an object with no key outside the allowed ones. *)
Definition object (value : Value) (allowed : list string) :
    result PlatformError (list (ustr * Value)) :=
  match value with
  | Object fields =>
      _ ← bail_if (¬ Forall (λ kv, kv.1 ∈ lit <$> allowed) fields) policy_unsupported;
      Ok fields
  | _ => Err policy_unsupported
  end.

(** [Value::as_f64] filtered to an integral value in [0..=100], as a [u32]. *)
Definition retry_limit (value : Value) : option Z :=
  match value with
  | Number (S754_zero _) => Some 0
  | Number (S754_finite s m e) =>
      if decide (f64_is_integer m e ∧ s = false ∧ f64_to_Z s m e ≤ 100)
      then Some (f64_to_Z s m e) else None
  | _ => None
  end.

(** The [{ "dynamic": true }] marker. *)
Definition dynamic_delay (value : Value) : bool :=
  match value with
  | Object fields =>
      (length fields =? 1)%nat &&
      match field fields "dynamic" with Some (Bool b) => b | _ => false end
  | _ => false
  end.

Section resolve.
(** The derived serde decoders of the two string enumerations. *)
Variable backoff_from_value : Value → option WorkflowBackoff.
Variable sensitivity_from_value : Value → option WorkflowStepSensitivity.

Definition resolve_retries (value : Value) : result PlatformError WorkflowRetryPolicy :=
  retries ← object value ["limit"; "delay"; "backoff"];
  limit ← ok_or_else (field retries "limit" ≫= retry_limit) policy_unsupported;
  delay ← ok_or_else (field retries "delay") policy_unsupported;
  delay ← (if dynamic_delay delay then Ok None
           else Some <$> duration_ms delay WORKFLOW_MAX_DURATION_MS);
  backoff ← match field retries "backoff" with
    | Some b => ok_or_else (backoff_from_value b) policy_unsupported
    | None => Ok Exponential
    end;
  Ok {| limit := limit; delay := delay; backoff := backoff |}.

Definition WorkflowStepConfig_resolve (value : Value) :
    result PlatformError WorkflowStepConfig :=
  fields ← object value ["retries"; "timeout"; "sensitive"];
  timeout ← match field fields "timeout" with
    | Some t => duration_ms t WORKFLOW_MAX_ATTEMPT_MS
    | None => Ok WorkflowStepConfig_default.(timeout)
    end;
  retries ← match field fields "retries" with
    | Some r => resolve_retries r
    | None => Ok WorkflowStepConfig_default.(retries)
    end;
  sensitive ← match field fields "sensitive" with
    | Some v => Some <$> ok_or_else (sensitivity_from_value v) policy_unsupported
    | None => Ok None
    end;
  let resolved := {| retries := retries; timeout := timeout; sensitive := sensitive |} in
  _ ← WorkflowStepConfig_validate resolved;
  Ok resolved.
End resolve.

(** Whether an activation has enough remaining budget to start an attempt. *)
Definition fits_activation (c : WorkflowStepConfig) (remaining_ms : Z) : bool :=
  match u64_checked (c.(timeout) + WORKFLOW_DRAIN_MARGIN_MS) with
  | Some required => bool_decide (required ≤ remaining_ms)
  | None => false
  end.

(** ** Canonical key order *)

(** Byte-wise order of keys, which for UTF-8 is the order of scalar values. *)
Fixpoint ustr_le (s t : ustr) : bool :=
  match s, t with
  | [], _ => true
  | _ :: _, [] => false
  | c :: s, d :: t => (c <? d) || ((c =? d) && ustr_le s t)
  end.
Definition key_le {A} (x y : ustr * A) : Prop := ustr_le x.1 y.1 = true.
#[export] Instance key_le_dec {A} : RelDecision (@key_le A).
Proof. intros x y. unfold key_le. apply _. Defined.

Fixpoint sort_json_value (value : Value) : Value :=
  match value with
  | Array values => Array (map sort_json_value values)
  | Object fields =>
      Object (merge_sort key_le (map (λ kv, (kv.1, sort_json_value kv.2)) fields))
  | other => other
  end.

(** ** Retention *)

Record WorkflowRetention := {
  success_retention_ms : Z;
  error_retention_ms : Z;
}.

Definition WorkflowRetention_default : WorkflowRetention :=
  {| success_retention_ms := 7 * 86400000; error_retention_ms := 30 * 86400000 |}.

Definition WorkflowRetention_validate (r : WorkflowRetention) : result PlatformError unit :=
  bail_if (r.(success_retention_ms) > WORKFLOW_MAX_DURATION_MS ∨
           r.(error_retention_ms) > WORKFLOW_MAX_DURATION_MS) duration_invalid.

Definition WorkflowRetention_resolve (value : Value) (defaults : WorkflowRetention) :
    result PlatformError WorkflowRetention :=
  _ ← WorkflowRetention_validate defaults;
  fields ← object value ["successRetention"; "errorRetention"];
  success ← match field fields "successRetention" with
    | Some v => duration_ms v WORKFLOW_MAX_DURATION_MS
    | None => Ok defaults.(success_retention_ms)
    end;
  failure ← match field fields "errorRetention" with
    | Some v => duration_ms v WORKFLOW_MAX_DURATION_MS
    | None => Ok defaults.(error_retention_ms)
    end;
  let retention := {| success_retention_ms := success; error_retention_ms := failure |} in
  _ ← WorkflowRetention_validate retention;
  Ok retention.

Definition expires_at (r : WorkflowRetention) (terminal_at_ms : Z) (success : bool) :
    result PlatformError Z :=
  _ ← WorkflowRetention_validate r;
  _ ← bail_if (Z.abs terminal_at_ms > WORKFLOW_MAX_SAFE_INTEGER) duration_invalid;
  let duration := if success then r.(success_retention_ms) else r.(error_retention_ms) in
  duration ← ok_or_else (i64_checked duration) duration_invalid;
  ok_or_else
    (expiry ← i64_checked (terminal_at_ms + duration);
     if decide (Z.abs expiry ≤ WORKFLOW_MAX_SAFE_INTEGER) then Some expiry else None)
    duration_invalid.

(** ** Properties *)

(** The factor without machine width. *)
Definition ideal_factor (b : WorkflowBackoff) (attempt : Z) : Z :=
  match b with Constant => 1 | Linear => attempt | Exponential => 2 ^ (attempt - 1) end.

Lemma backoff_product_capped b d attempt :
  0 ≤ d → 1 ≤ attempt →
  Z.min (u64_saturate (d * backoff_factor b attempt)) WORKFLOW_MAX_RETRY_DELAY_MS =
  Z.min (d * ideal_factor b attempt) WORKFLOW_MAX_RETRY_DELAY_MS.
Proof.
  intros Hd Ha. unfold WORKFLOW_MAX_RETRY_DELAY_MS, u64_saturate.
  destruct b; cbn [backoff_factor ideal_factor]; [lia|nia|].
  case_decide as Hlt.
  - rewrite Z.shiftl_1_l. assert (0 < 2 ^ (attempt - 1)) by (apply Z.pow_pos_nonneg; lia). nia.
  - assert (2 ^ 64 ≤ 2 ^ (attempt - 1)) by (apply Z.pow_le_mono_r; lia).
    change (2 ^ 64) with 18446744073709551616 in *.
    destruct (decide (d = 0)) as [->|]; [lia|]. nia.
Qed.

Lemma ideal_factor_mono b a a' :
  1 ≤ a → a ≤ a' → 0 ≤ ideal_factor b a ≤ ideal_factor b a'.
Proof.
  intros. destruct b; cbn; [lia|lia|]. split; [apply Z.pow_nonneg; lia|].
  apply Z.pow_le_mono_r; lia.
Qed.

(** The base delay a policy uses after a failed attempt: its own, or the one its
    dynamic callback returned, never both. *)
Definition base_delay (p : WorkflowRetryPolicy) (dynamic : option Z) : option Z :=
  match p.(delay), dynamic with
  | Some d, None | None, Some d => Some d
  | _, _ => None
  end.

Section delay.
Context (p : WorkflowRetryPolicy) (attempt : Z) (dynamic : option Z).
Hypothesis Hlimit : p.(limit) ≤ 100.
Hypothesis Hattempt : 1 ≤ attempt ≤ 101.
Hypothesis Hdelay :
  ∀ d, p.(delay) = Some d ∨ dynamic = Some d → 0 ≤ d ≤ WORKFLOW_MAX_DURATION_MS.

Lemma policy_validate_ok : WorkflowRetryPolicy_validate p = Ok ().
Proof.
  unfold WorkflowRetryPolicy_validate, bail_if. apply decide_False.
  intros [?|Hd]; [lia|]. destruct (delay p) as [d|] eqn:Hp; cbn in Hd.
  - destruct (Hdelay d); [by left|lia].
  - unfold WORKFLOW_MAX_DURATION_MS in Hd. lia.
Qed.

Lemma delay_after_resolved_total d :
  base_delay p dynamic = Some d →
  delay_after_resolved p attempt dynamic =
    Ok (Z.min (d * ideal_factor p.(backoff) attempt) WORKFLOW_MAX_RETRY_DELAY_MS).
Proof.
  unfold delay_after_resolved. rewrite policy_validate_ok. cbn [mbind result_bind].
  unfold bail_if. rewrite decide_False by tauto. cbn [mbind result_bind].
  intros Hb. assert (Hd : 0 ≤ d ≤ WORKFLOW_MAX_DURATION_MS).
  { unfold base_delay in Hb. apply Hdelay.
    destruct (delay p), dynamic; simplify_eq; auto. }
  rewrite <-backoff_product_capped by lia.
  unfold base_delay in Hb. destruct (delay p), dynamic; simplify_eq;
    by rewrite decide_True by lia.
Qed.

(** For every valid policy and every one-based attempt up to 101 the durable
    retry delay is [min (base * factor) 24h] with the mathematical factor 1,
    [attempt] or [2^(attempt-1)]: neither the 64-bit shift nor the saturating
    product changes it.  A missing or doubly supplied base delay is rejected. *)
Theorem delay_after_resolved_exact :
  delay_after_resolved p attempt dynamic =
    match base_delay p dynamic with
    | Some d => Ok (Z.min (d * ideal_factor p.(backoff) attempt) WORKFLOW_MAX_RETRY_DELAY_MS)
    | None => Err policy_unsupported
    end.
Proof.
  destruct (base_delay p dynamic) as [d|] eqn:Hb; [by apply delay_after_resolved_total|].
  unfold delay_after_resolved. rewrite policy_validate_ok. cbn [mbind result_bind].
  unfold bail_if. rewrite decide_False by tauto. cbn [mbind result_bind].
  unfold base_delay in Hb. by destruct (delay p), dynamic.
Qed.
End delay.

Lemma delay_after_resolved_exact_witness :
  delay_after_resolved WorkflowRetryPolicy_default 4 None = Ok 80000 ∧
  delay_after_resolved WorkflowRetryPolicy_default 101 None = Ok 86400000.
Proof.
  split.
  - rewrite (delay_after_resolved_exact WorkflowRetryPolicy_default 4 None);
      [reflexivity|cbn; lia|lia|].
    intros d [[= <-]|[=]]. unfold WORKFLOW_MAX_DURATION_MS. lia.
  - rewrite (delay_after_resolved_exact WorkflowRetryPolicy_default 101 None);
      [reflexivity|cbn; lia|lia|].
    intros d [[= <-]|[=]]. unfold WORKFLOW_MAX_DURATION_MS. lia.
Defined.

(** The bounds every accepted step configuration satisfies. *)
Definition step_config_wf (c : WorkflowStepConfig) : Prop :=
  0 ≤ c.(retries).(limit) ≤ 100 ∧
  (∀ d, c.(retries).(delay) = Some d → 0 ≤ d ≤ WORKFLOW_MAX_DURATION_MS) ∧
  1 ≤ c.(timeout) ≤ WORKFLOW_MAX_ATTEMPT_MS.

Lemma retry_limit_range v n : retry_limit v = Some n → 0 ≤ n ≤ 100.
Proof.
  destruct v as [| |[| | |s m e]| | |]; cbn; try done; [intros; simplify_eq; lia|].
  case_decide as Hc; [|done]. destruct Hc as (_ & -> & Hle). intros; simplify_eq.
  split; [|done]. unfold f64_to_Z. cbn. case_decide.
  - apply Z.mul_nonneg_nonneg; [lia|]. apply Z.pow_nonneg; lia.
  - apply Z.div_pos; [lia|]. apply Z.pow_pos_nonneg; lia.
Qed.

Lemma resolve_retries_wf f v p :
  resolve_retries f v = Ok p →
  0 ≤ p.(limit) ≤ 100 ∧
  (∀ d, p.(delay) = Some d → 0 ≤ d ≤ WORKFLOW_MAX_DURATION_MS).
Proof.
  unfold resolve_retries. intros H. destruct_result. injection H as <-. cbn.
  match goal with Ho : _ ≫= retry_limit = Some _ |- _ =>
    apply bind_Some in Ho as (w & _ & Hl) end.
  apply retry_limit_range in Hl. subst.
  split; [done|]. intros d ->. destruct (dynamic_delay _); [done|].
  destruct (duration_ms _ _) as [d'|] eqn:Hd; simplify_eq/=.
  apply duration_ms_range in Hd. lia.
Qed.

Lemma step_config_validate_ok c u :
  WorkflowStepConfig_validate c = Ok u → 1 ≤ c.(timeout) ≤ WORKFLOW_MAX_ATTEMPT_MS.
Proof.
  unfold WorkflowStepConfig_validate. intros H. destruct_result.
  apply bail_if_Ok in H. lia.
Qed.

(** Whatever the public object says, an accepted step configuration is within
    the frozen bounds, and every failed attempt it allows has a retry delay: the
    static policy always yields one of at most a day, and a dynamic policy does
    for every callback value of at most 365 days. *)
Theorem resolved_config_can_retry
    (f : Value → option WorkflowBackoff) (g : Value → option WorkflowStepSensitivity)
    (value : Value) (c : WorkflowStepConfig)
    (Hresolve : WorkflowStepConfig_resolve f g value = Ok c) :
  step_config_wf c ∧
  ∀ attempt d, 1 ≤ attempt ≤ c.(retries).(limit) + 1 → 0 ≤ d ≤ WORKFLOW_MAX_DURATION_MS →
    ∃ ms, delay_after_resolved c.(retries) attempt
            (match c.(retries).(delay) with Some _ => None | None => Some d end) = Ok ms ∧
          0 ≤ ms ≤ WORKFLOW_MAX_RETRY_DELAY_MS.
Proof.
  unfold WorkflowStepConfig_resolve in Hresolve. destruct_result.
  injection Hresolve as <-.
  match goal with H : WorkflowStepConfig_validate _ = Ok _ |- _ =>
    apply step_config_validate_ok in H as Ht end.
  assert (Hr : 0 ≤ a1.(limit) ≤ 100 ∧
    (∀ d, a1.(delay) = Some d → 0 ≤ d ≤ WORKFLOW_MAX_DURATION_MS)).
  { destruct (field a "retries") as [r|].
    - by eapply resolve_retries_wf.
    - simplify_eq. split; [cbn; lia|]. intros d [= <-]. unfold WORKFLOW_MAX_DURATION_MS. lia. }
  destruct Hr as [Hl Hd]. split; [done|]. cbn [retries]. intros attempt d Ha Hdyn.
  assert (a1.(limit) ≤ 100 ∧ 1 ≤ attempt ≤ 101) as [Hl' Ha'] by (cbn [retries limit] in Ha; lia).
  rewrite (delay_after_resolved_total _ _ _ Hl' Ha') with (d := default d a1.(delay)).
  - eexists; split; [done|].
    assert (0 ≤ default d a1.(delay)).
    { destruct (delay a1) as [d'|]; cbn; [|lia]. by apply Hd. }
    pose proof (ideal_factor_mono a1.(backoff) 1 attempt). unfold WORKFLOW_MAX_RETRY_DELAY_MS. nia.
  - intros d' [Hd'|Hd']; [by apply Hd|]. by destruct (delay a1); simplify_eq.
  - unfold base_delay. by destruct (delay a1).
Qed.

Definition witness_config : Value :=
  Object [(lit "retries", Object [(lit "limit", Number (S754_finite false 3 0));
                                    (lit "delay", JString (lit "5 minutes"))])].

Lemma resolved_config_can_retry_witness :
  ∃ c, WorkflowStepConfig_resolve (λ _, None) (λ _, None) witness_config = Ok c ∧
       c.(retries).(delay) = Some 300000 ∧ step_config_wf c.
Proof.
  eexists. split; [vm_compute; reflexivity|]. split; [reflexivity|].
  apply (resolved_config_can_retry (λ _, None) (λ _, None) witness_config).
  vm_compute. reflexivity.
Defined.

(** ** Canonical descriptors *)

Lemma ustr_le_refl s : ustr_le s s = true.
Proof. induction s as [|c s IH]; cbn; [done|]. by rewrite Z.eqb_refl, IH, orb_true_r. Qed.

Lemma ustr_le_cons c d s t :
  ustr_le (c :: s) (d :: t) = true ↔ c < d ∨ c = d ∧ ustr_le s t = true.
Proof. cbn. rewrite orb_true_iff, andb_true_iff, Z.ltb_lt, Z.eqb_eq. done. Qed.

Lemma ustr_le_trans s t u : ustr_le s t = true → ustr_le t u = true → ustr_le s u = true.
Proof.
  revert t u. induction s as [|c s IH]; [done|]. intros [|d t] [|e u]; try done.
  rewrite !ustr_le_cons. intros [?|[-> ?]] [?|[-> ?]]; [left; lia..|]. right. eauto.
Qed.

Lemma ustr_le_total s t : ustr_le s t = true ∨ ustr_le t s = true.
Proof.
  revert t. induction s as [|c s IH]; [by left|]. intros [|d t]; [by right|].
  rewrite !ustr_le_cons. destruct (IH t), (Z.lt_trichotomy c d) as [?|[?|?]]; auto.
Qed.

Lemma ustr_le_antisym s t : ustr_le s t = true → ustr_le t s = true → s = t.
Proof.
  revert t. induction s as [|c s IH]; intros [|d t]; try done.
  rewrite !ustr_le_cons. intros [?|[-> ?]] [?|[? ?]]; try lia. f_equal. eauto.
Qed.

#[export] Instance key_le_trans {A} : Transitive (@key_le A).
Proof. intros x y z. apply ustr_le_trans. Qed.
#[export] Instance key_le_total {A} : Total (@key_le A).
Proof. intros x y. apply ustr_le_total. Qed.

(** Two sorted permutations of an association list with distinct keys are equal. *)
Lemma sorted_assoc_unique {A} (l k : list (ustr * A)) :
  NoDup l.*1 → l ≡ₚ k → StronglySorted key_le l → StronglySorted key_le k → l = k.
Proof.
  revert k. induction l as [|x l IH]; intros k Hnd Hp Hl Hk.
  - by apply Permutation_nil_l in Hp.
  - destruct k as [|y k]; [by apply Permutation_nil_r in Hp|].
    apply StronglySorted_inv in Hl as [Hl Hxl]. apply StronglySorted_inv in Hk as [Hk Hyk].
    assert (Hxy : x = y).
    { assert (Hy : y ∈ x :: l) by (rewrite Hp; left).
      assert (Hx : x ∈ y :: k) by (rewrite <-Hp; left).
      apply elem_of_cons in Hy as [->|Hy]; [done|].
      apply elem_of_cons in Hx as [->|Hx]; [done|].
      rewrite Forall_forall in Hxl, Hyk.
      assert (x.1 = y.1) as Heq by (apply ustr_le_antisym; [by apply Hxl|by apply Hyk]).
      rewrite fmap_cons in Hnd. apply NoDup_cons in Hnd as [Hnd _]. destruct Hnd.
      rewrite Heq. by apply list_elem_of_fmap_2. }
    subst y. rewrite fmap_cons in Hnd. apply NoDup_cons in Hnd as [_ Hnd].
    f_equal. apply IH; [done|by apply Permutation_cons_inv in Hp|done|done].
Qed.

(** Equality of JSON values up to the order in which objects list their keys. *)
#[warnings="-register-all"]
Inductive json_equiv : Value → Value → Prop :=
| equiv_refl v : json_equiv v v
| equiv_array l k : Forall2 json_equiv l k → json_equiv (Array l) (Array k)
| equiv_object l l' k :
    Forall2 (λ x y, x.1 = y.1 ∧ json_equiv x.2 y.2) l l' →
    NoDup l.*1 → l' ≡ₚ k → json_equiv (Object l) (Object k).

Section json_equiv_ind'.
Variable P : Value → Value → Prop.
Hypothesis Hrefl : ∀ v, P v v.
Hypothesis Harray : ∀ l k, Forall2 P l k → P (Array l) (Array k).
Hypothesis Hobject : ∀ l l' k, Forall2 (λ x y, x.1 = y.1 ∧ P x.2 y.2) l l' →
  NoDup l.*1 → l' ≡ₚ k → P (Object l) (Object k).

Fixpoint json_equiv_ind' v w (H : json_equiv v w) {struct H} : P v w :=
  match H with
  | equiv_refl v => Hrefl v
  | equiv_array l k Hf => Harray l k
      ((fix go l k (Hf : Forall2 json_equiv l k) : Forall2 P l k :=
        match Hf with
        | List.Forall2_nil _ => List.Forall2_nil _
        | @List.Forall2_cons _ _ _ x y l k Hx Hf => @List.Forall2_cons _ _ _ x y l k (json_equiv_ind' _ _ Hx) (go _ _ Hf)
        end) l k Hf)
  | equiv_object l l' k Hf Hn Hp => Hobject l l' k
      ((fix go l k (Hf : Forall2 (λ x y, x.1 = y.1 ∧ json_equiv x.2 y.2) l k) :
          Forall2 (λ x y, x.1 = y.1 ∧ P x.2 y.2) l k :=
        match Hf with
        | List.Forall2_nil _ => List.Forall2_nil _
        | @List.Forall2_cons _ _ _ x y l k (conj Hk Hx) Hf =>
            @List.Forall2_cons _ _ _ x y l k (conj Hk (json_equiv_ind' _ _ Hx)) (go _ _ Hf)
        end) l l' Hf) Hn Hp
  end.
End json_equiv_ind'.

(** The descriptor written for a configuration does not depend on the order in
    which the client listed the keys: values that differ only in key order, at any
    depth, have the same sorted form. *)
Theorem sort_json_value_canonical (v w : Value) (Hequiv : json_equiv v w) :
  sort_json_value v = sort_json_value w.
Proof.
  induction Hequiv as [v|l k Hf|l l' k Hf Hn Hp] using json_equiv_ind'; [done| |]; cbn; f_equal.
  - induction Hf; cbn; congruence.
  - assert (map (λ kv, (kv.1, sort_json_value kv.2)) l =
            map (λ kv, (kv.1, sort_json_value kv.2)) l') as ->.
    { clear Hn Hp. induction Hf as [|x y ?? [Hk Hv]]; cbn; congruence. }
    assert (Hn' : l.*1 = l'.*1).
    { clear Hn Hp. induction Hf as [|x y ?? [Hk Hv]]; cbn; congruence. }
    rewrite Hn' in Hn.
    apply sorted_assoc_unique; [| |apply (StronglySorted_merge_sort key_le)..]; [| |apply key_le_trans..].
    + rewrite merge_sort_Permutation. rewrite <-list_fmap_compose. done.
    + rewrite !merge_sort_Permutation. by apply fmap_Permutation.
Qed.

Lemma sort_json_value_canonical_witness :
  sort_json_value (Object [(lit "timeout", Null); (lit "retries", Object [])]) =
  sort_json_value (Object [(lit "retries", Object []); (lit "timeout", Null)]).
Proof.
  apply sort_json_value_canonical.
  eapply equiv_object; [|vm_compute|apply Permutation_swap].
  - repeat constructor.
  - apply NoDup_cons; split; [|apply NoDup_singleton]. rewrite list_elem_of_singleton. discriminate.
Defined.

(** ** Absolute expiry *)

(** A terminal instance expires exactly its retention after the moment it
    became terminal, never earlier than that moment, and the call fails exactly
    when the inputs or the sum leave the frozen bounds. *)
Theorem expires_at_exact (r : WorkflowRetention) (at_ms : Z) (success : bool)
    (Hs : 0 ≤ r.(success_retention_ms)) (He : 0 ≤ r.(error_retention_ms)) (z : Z) :
  let d := if success then r.(success_retention_ms) else r.(error_retention_ms) in
  expires_at r at_ms success = Ok z ↔
    z = at_ms + d ∧ at_ms ≤ z ∧ Z.abs at_ms ≤ WORKFLOW_MAX_SAFE_INTEGER ∧
    Z.abs z ≤ WORKFLOW_MAX_SAFE_INTEGER ∧
    r.(success_retention_ms) ≤ WORKFLOW_MAX_DURATION_MS ∧
    r.(error_retention_ms) ≤ WORKFLOW_MAX_DURATION_MS.
Proof.
  intros d. unfold expires_at, WorkflowRetention_validate, bail_if.
  fold d. assert (0 ≤ d ∧ (d = r.(success_retention_ms) ∨ d = r.(error_retention_ms)))
    as [Hd Hd'] by (destruct success; subst d; auto).
  clearbody d. unfold WORKFLOW_MAX_DURATION_MS, WORKFLOW_MAX_SAFE_INTEGER.
  destruct (decide (_ ∨ _)) as [H1|H1]; cbn [mbind result_bind]; [split; [done|lia]|].
  destruct (decide (_ > _)) as [H2|H2]; cbn [mbind result_bind]; [split; [done|lia]|].
  rewrite i64_checked_in by (unfold in_i64; lia). cbn [ok_or_else mbind result_bind].
  rewrite i64_checked_in by (unfold in_i64; lia). cbn [mbind option_bind].
  case_decide as H3; cbn [ok_or_else]; (split; [intros; simplify_eq; lia|]).
  - intros (-> & _). done.
  - lia.
Qed.

Lemma expires_at_exact_witness :
  expires_at WorkflowRetention_default 1000 true = Ok 604801000.
Proof.
  apply (expires_at_exact WorkflowRetention_default 1000 true); [cbn; lia|cbn; lia|].
  unfold WORKFLOW_MAX_DURATION_MS, WORKFLOW_MAX_SAFE_INTEGER. cbn. lia.
Defined.
