(* ===== verification/Scheduler.v ===== *)
(** * Scheduler vocabulary

    [crates/core/src/scheduler.rs]: the four workload kinds with their fixed
    array index and operator spelling, the pool states and the workload summary
    shared by the scheduler kernel and the stores.  A Rust array indexed by
    [kind.index()] is a function of the kind. *)

From stdpp Require Import base numbers list option strings finite functions.
From S2P Require Import Prelude ErrorCodes.

Local Open Scope Z_scope.

Inductive SchedulerKind : Type := Alarm | Queue | Cron | Workflow.
#[export] Instance SchedulerKind_eq_dec : EqDecision SchedulerKind.
Proof. solve_decision. Defined.

(** All kinds in the deterministic fairness order. *)
Definition ALL : list SchedulerKind := [Alarm; Queue; Cron; Workflow].
Definition POOL_COUNT : nat := length ALL.

Definition kind_as_str (k : SchedulerKind) : string :=
  match k with
  | Alarm => "do_alarm" | Queue => "queue" | Cron => "cron" | Workflow => "workflow"
  end.

Definition index (k : SchedulerKind) : nat :=
  match k with Alarm => 0 | Queue => 1 | Cron => 2 | Workflow => 3 end.

(** [Self::ALL.into_iter().find(...)] *)
Definition kind_parse (value : string) : option SchedulerKind :=
  snd <$> list_find (λ k, kind_as_str k = value) ALL.

Inductive SchedulerPoolState : Type := Ready | Paused | Backoff | CircuitOpen | Disabled.
#[export] Instance SchedulerPoolState_eq_dec : EqDecision SchedulerPoolState.
Proof. solve_decision. Defined.

Record WorkloadSummary := workload_summary {
  ready : Z;
  claimed : Z;
  expired : Z;
  oldest_due_at_ms : option Z;
  next_due_at_ms : option Z;
}.

(** The sum of an array over the four pools. *)
Definition pool_sum (f : SchedulerKind → Z) : Z := foldr (λ k n, f k + n) 0 ALL.

Lemma elem_of_ALL k : k ∈ ALL.
Proof. apply (list_elem_of_lookup_2 _ (index k)). by destruct k. Qed.

Lemma NoDup_ALL : NoDup ALL.
Proof. apply (bool_decide_unpack _). by vm_compute. Qed.

Lemma ALL_index k : ALL !! index k = Some k.
Proof. by destruct k. Qed.

Lemma index_lt k : (index k < POOL_COUNT)%nat.
Proof. destruct k; cbn; lia. Qed.

Lemma kind_parse_as_str k : kind_parse (kind_as_str k) = Some k.
Proof. by destruct k. Qed.

Lemma pool_sum_insert f k v : pool_sum (<[k:=v]> f) = pool_sum f - f k + v.
Proof. unfold pool_sum, ALL. cbn [foldr]. unfold insert, fn_insert. destruct k; repeat case_decide; simplify_eq; lia. Qed.

Lemma pool_sum_mono f g : (∀ k, f k ≤ g k) → pool_sum f ≤ pool_sum g.
Proof.
  intros H. pose proof (H Alarm). pose proof (H Queue).
  pose proof (H Cron). pose proof (H Workflow). unfold pool_sum. cbn [foldr ALL]. lia.
Qed.

Lemma pool_sum_ext f g : (∀ k, f k = g k) → pool_sum f = pool_sum g.
Proof. intros H. apply Z.le_antisymm; apply pool_sum_mono; intros k; by rewrite H. Qed.

Lemma pool_sum_add f g : pool_sum (λ k, f k + g k) = pool_sum f + pool_sum g.
Proof. unfold pool_sum. cbn [foldr ALL]. lia. Qed.

Lemma pool_sum_mul c f : pool_sum (λ k, c * f k) = c * pool_sum f.
Proof. unfold pool_sum. cbn [foldr ALL]. lia. Qed.

Lemma pool_sum_ge f k : (∀ k, 0 ≤ f k) → f k ≤ pool_sum f.
Proof.
  intros H. pose proof (H Alarm). pose proof (H Queue).
  pose proof (H Cron). pose proof (H Workflow). unfold pool_sum. cbn [foldr ALL]. destruct k; lia.
Qed.

Lemma pool_sum_zero f k : (∀ k, 0 ≤ f k) → pool_sum f = 0 → f k = 0.
Proof. intros H H0. pose proof (pool_sum_ge f k H). specialize (H k). lia. Qed.

(** Number of occurrences of a kind, as [iter().filter(..).count()] *)
Definition count (k : SchedulerKind) (l : list SchedulerKind) : Z :=
  Z.of_nat (length (filter (λ x, x = k) l)).

Lemma count_nil k : count k [] = 0.
Proof. done. Qed.
Lemma count_cons k x l : count k (x :: l) = (if decide (x = k) then 1 else 0) + count k l.
Proof. unfold count. rewrite filter_cons. case_decide; cbn [length]; lia. Qed.
Lemma count_app k l l' : count k (l ++ l') = count k l + count k l'.
Proof. induction l as [|x l IH]; [done|]. cbn [app]. rewrite !count_cons, IH. lia. Qed.
Lemma count_nonneg k l : 0 ≤ count k l.
Proof. unfold count. lia. Qed.
Lemma pool_sum_count l : pool_sum (λ k, count k l) = Z.of_nat (length l).
Proof.
  induction l as [|x l IH]; [done|]. cbn [length].
  rewrite (pool_sum_ext _ (λ k, (if decide (x = k) then 1 else 0) + count k l))
    by (intros; apply count_cons).
  rewrite pool_sum_add, IH.
  assert (pool_sum (λ k, if decide (x = k) then 1 else 0) = 1) as -> by (by destruct x). lia.
Qed.
