(* ===== verification/Fairness.v ===== *)
(** * Weighted deficit round-robin

    [crates/service/src/scheduler/fairness.rs]: the selector that hands the free
    global permits of one scheduler cycle to the ready pools. *)

From stdpp Require Import base numbers list option functions.
From S2P Require Import Prelude Scheduler.

Local Open Scope Z_scope.

(** ** The selector *)

Record FairSelector := fair_selector {
  cursor : nat;
  deficits : SchedulerKind → Z;
  weights : SchedulerKind → Z;
}.

Definition FairSelector_new (weights : SchedulerKind → Z) : FairSelector :=
  fair_selector 0 (λ _, 0) weights.

Definition has_runnable (ready : SchedulerKind → bool) (pool_permits : SchedulerKind → Z) : bool :=
  existsb (λ k, ready k && bool_decide (pool_permits k > 0)) ALL.

(** The kinds in the order in which a scan from [cursor] meets them. *)
Definition scan (cursor : nat) : list SchedulerKind :=
  omap (λ offset, ALL !! ((cursor + offset) `mod` POOL_COUNT)%nat) (seq 0 POOL_COUNT).

Definition next_with_deficit (s : FairSelector) (ready : SchedulerKind → bool)
    (pool_permits : SchedulerKind → Z) : option SchedulerKind :=
  snd <$> list_find (λ k, ready k = true ∧ pool_permits k > 0 ∧ s.(deficits) k > 0)
            (scan s.(cursor)).

(** The replenishing [for] loop. *)
Definition replenish (s : FairSelector) (ready : SchedulerKind → bool)
    (pool_permits : SchedulerKind → Z) : FairSelector :=
  foldl (λ s k,
    if decide (ready k = true ∧ pool_permits k > 0)
    then fair_selector s.(cursor)
           (<[k := u64_saturate (s.(deficits) k + s.(weights) k)]> s.(deficits)) s.(weights)
    else s) s ALL.

(** The body of the [while] loop: [None] is a [break]. *)
Definition select_step (s : FairSelector) (ready : SchedulerKind → bool)
    (pool_permits : SchedulerKind → Z) :
    FairSelector * option (SchedulerKind * (SchedulerKind → Z)) :=
  if has_runnable ready pool_permits then
    let s := match next_with_deficit s ready pool_permits with
             | None => replenish s ready pool_permits
             | Some _ => s
             end in
    match next_with_deficit s ready pool_permits with
    | None => (s, None)
    | Some k =>
        let deficits := <[k := u64_saturate (s.(deficits) k - 1)]> s.(deficits) in
        let pool_permits := <[k := u64_saturate (pool_permits k - 1)]> pool_permits in
        (fair_selector ((index k + 1) `mod` POOL_COUNT) deficits s.(weights),
         Some (k, pool_permits))
    end
  else (s, None).

(** [while selected.len() < global_permits]: every iteration that does not break
    selects one pool, so [global_permits] bounds the iterations. *)
Fixpoint select (s : FairSelector) (ready : SchedulerKind → bool)
    (pool_permits : SchedulerKind → Z) (global_permits : nat) :
    FairSelector * list SchedulerKind :=
  match global_permits with
  | O => (s, [])
  | S n =>
      match select_step s ready pool_permits with
      | (s, None) => (s, [])
      | (s, Some (k, pool_permits)) =>
          let '(s, selected) := select s ready pool_permits n in (s, k :: selected)
      end
  end.

Definition refund (s : FairSelector) (k : SchedulerKind) (n : Z) : FairSelector :=
  fair_selector s.(cursor)
    (<[k := u64_saturate (s.(deficits) k + u64_saturate n)]> s.(deficits)) s.(weights).

(** ** Lemmas on one iteration *)

Lemma elem_of_scan c k : k ∈ scan c.
Proof.
  unfold scan. apply list_elem_of_omap.
  set (i := index k). assert (Hi : (i < 4)%nat) by apply index_lt.
  change POOL_COUNT with 4%nat.
  exists ((i + 3 * c) `mod` 4)%nat. split.
  - apply elem_of_seq. split; [lia|]. apply Nat.mod_upper_bound. lia.
  - rewrite Nat.Div0.add_mod_idemp_r.
    replace (c + (i + 3 * c))%nat with (i + c * 4)%nat by lia.
    rewrite Nat.Div0.mod_add, (Nat.mod_small i 4) by done. apply ALL_index.
Qed.

Lemma has_runnable_true ready p :
  has_runnable ready p = true ↔ ∃ k, ready k = true ∧ p k > 0.
Proof.
  unfold has_runnable. rewrite existsb_exists. split.
  - intros (k & _ & Hk). apply andb_true_iff in Hk as [? ?%bool_decide_eq_true]. eauto.
  - intros (k & Hr & Hp). exists k. split; [apply list_elem_of_In, elem_of_ALL|].
    rewrite Hr. by apply bool_decide_eq_true.
Qed.

Lemma next_with_deficit_Some s ready p k :
  next_with_deficit s ready p = Some k → ready k = true ∧ p k > 0 ∧ s.(deficits) k > 0.
Proof.
  unfold next_with_deficit. rewrite fmap_Some. intros ([i k'] & Hf & ->).
  apply list_find_Some in Hf as (_ & ? & _). done.
Qed.

Lemma next_with_deficit_None s ready p k :
  next_with_deficit s ready p = None → ¬ (ready k = true ∧ p k > 0 ∧ s.(deficits) k > 0).
Proof.
  unfold next_with_deficit. rewrite fmap_None, list_find_None, Forall_forall.
  intros Hall. apply Hall, list_elem_of_In, elem_of_scan.
Qed.

Lemma replenish_weights s ready p : (replenish s ready p).(weights) = s.(weights).
Proof. unfold replenish, ALL. cbn. by repeat case_decide. Qed.

Lemma replenish_deficits s ready p k :
  (replenish s ready p).(deficits) k =
    if decide (ready k = true ∧ p k > 0)
    then u64_saturate (s.(deficits) k + s.(weights) k) else s.(deficits) k.
Proof.
  unfold replenish, ALL. cbn [foldl].
  destruct k; destruct (decide (ready Alarm = true ∧ _)), (decide (ready Queue = true ∧ _)),
    (decide (ready Cron = true ∧ _)), (decide (ready Workflow = true ∧ _)); reflexivity.
Qed.

(** The bounds of the configuration: a weight is a positive [u32]. *)
Definition weights_ok (w : SchedulerKind → Z) : Prop := ∀ k, 1 ≤ w k ≤ u32_max.

(** One iteration either finds no runnable pool, or selects a ready one with a
    permit, charging one deficit and one permit. *)
Lemma select_step_cases s ready p :
  weights_ok s.(weights) → (∀ k, 0 ≤ s.(deficits) k) →
  (∀ k, p k ≤ u64_max) →
  match select_step s ready p with
  | (s', None) => s' = s ∧ ∀ k, ready k = true → p k ≤ 0
  | (s', Some (k, p')) =>
      ready k = true ∧ p k > 0 ∧ p' = <[k := p k - 1]> p ∧ s'.(weights) = s.(weights)
  end.
Proof.
  intros Hw Hd Hp. unfold select_step. destruct (has_runnable ready p) eqn:Hrun.
  - apply has_runnable_true in Hrun as (k & Hr & Hk).
    destruct (next_with_deficit s ready p) as [k'|] eqn:Hn.
    + rewrite Hn. apply next_with_deficit_Some in Hn as (? & ? & ?).
      rewrite (u64_saturate_id (p k' - 1)) by (specialize (Hp k'); unfold in_u64; lia). done.
    + destruct (next_with_deficit (replenish s ready p) ready p) as [k'|] eqn:Hn'.
      * apply next_with_deficit_Some in Hn' as (? & ? & ?).
        rewrite (u64_saturate_id (p k' - 1)) by (specialize (Hp k'); unfold in_u64; lia).
        cbn [weights]. by rewrite replenish_weights.
      * exfalso. apply (next_with_deficit_None _ _ _ k Hn'). split_and!; [done..|].
        rewrite replenish_deficits, decide_True by done.
        specialize (Hw k). specialize (Hd k). unfold u64_saturate. lia.
  - split; [done|]. intros k Hr. apply Z.nlt_ge. intros Hk.
    assert (has_runnable ready p = true) by (apply has_runnable_true; exists k; split; [done|lia]).
    congruence.
Qed.

Lemma select_step_deficits_nonneg s ready p :
  (∀ k, 0 ≤ s.(deficits) k) → ∀ k, 0 ≤ (select_step s ready p).1.(deficits) k.
Proof.
  intros Hd k. unfold select_step. destruct (has_runnable _ _); [|apply Hd].
  set (s' := match next_with_deficit s ready p with Some _ => s | None => _ end).
  assert (Hs' : ∀ k, 0 ≤ s'.(deficits) k).
  { intros j. subst s'. destruct (next_with_deficit s ready p); [apply Hd|].
    rewrite replenish_deficits. case_decide; [|apply Hd]. unfold u64_saturate. lia. }
  destruct (next_with_deficit s' ready p) as [j|]; [|apply Hs']. cbn [fst deficits].
  destruct (decide (j = k)) as [->|]; [rewrite fn_lookup_insert|rewrite fn_lookup_insert_ne by done; apply Hs'].
  unfold u64_saturate. lia.
Qed.

(** ** Admission safety and work conservation *)

(** What a pool can take: nothing when it is not ready. *)
Definition capacity (ready : SchedulerKind → bool) (p : SchedulerKind → Z) (k : SchedulerKind) : Z :=
  if ready k then p k else 0.

Lemma capacity_insert ready p k v :
  ready k = true → pool_sum (capacity ready (<[k:=v]> p)) = pool_sum (capacity ready p) - p k + v.
Proof.
  intros Hr. rewrite (pool_sum_ext _ (<[k:=v]> (capacity ready p))).
  - rewrite pool_sum_insert. unfold capacity. rewrite Hr. lia.
  - intros j. unfold capacity. destruct (decide (j = k)) as [->|].
    + by rewrite Hr, !fn_lookup_insert.
    + by rewrite !fn_lookup_insert_ne.
Qed.

Lemma select_step_Some s ready p s' k p' :
  select_step s ready p = (s', Some (k, p')) →
  ready k = true ∧ p k > 0 ∧ p' = <[k := u64_saturate (p k - 1)]> p.
Proof.
  unfold select_step. destruct (has_runnable _ _); [|done].
  destruct (next_with_deficit s ready p) eqn:Hn.
  - rewrite Hn. intros [= <- <- <-]. apply next_with_deficit_Some in Hn. tauto.
  - destruct (next_with_deficit (replenish s ready p) ready p) eqn:Hn'; [|done].
    intros [= <- <- <-]. apply next_with_deficit_Some in Hn'. tauto.
Qed.

Section admission.
Context (ready : SchedulerKind → bool).

(** The bounds that hold for every selector state. *)
Lemma select_bounded s p n :
  (∀ k, 0 ≤ p k ≤ u64_max) →
  (∀ k, count k (select s ready p n).2 ≤ p k) ∧ (length (select s ready p n).2 ≤ n)%nat.
Proof.
  revert s p. induction n as [|n IH]; intros s p Hp; cbn [select].
  { split; [|done]. intros k. rewrite count_nil. apply Hp. }
  destruct (select_step s ready p) as [s' [[k p']|]] eqn:Hstep.
  - apply select_step_Some in Hstep as (_ & Hk & ->).
    destruct (IH s' (<[k:=u64_saturate (p k - 1)]> p)) as [IHc IHl].
    { intros j. destruct (decide (j = k)) as [->|]; [|by rewrite fn_lookup_insert_ne].
      rewrite fn_lookup_insert. apply u64_saturate_range. }
    destruct (select s' ready _ n) as [s'' l]. cbn [snd length] in *. split; [|lia].
    intros j. rewrite count_cons. specialize (IHc j). case_decide as Hj.
    + subst j. rewrite fn_lookup_insert in IHc. specialize (Hp k). unfold u64_saturate in IHc. lia.
    + rewrite fn_lookup_insert_ne in IHc by done. lia.
  - split; [|cbn; lia]. intros j. rewrite count_nil. apply Hp.
Qed.

Lemma select_weights s p n :
  (select s ready p n).1.(weights) = s.(weights).
Proof.
  revert s p. induction n as [|n IH]; intros s p; [done|]. cbn [select].
  assert (Hs : (select_step s ready p).1.(weights) = s.(weights)).
  { unfold select_step. destruct (has_runnable _ _); [|done].
    destruct (next_with_deficit s ready p) eqn:Hn; [by rewrite Hn|].
    destruct (next_with_deficit (replenish s ready p) ready p); apply replenish_weights. }
  destruct (select_step s ready p) as [s' [[k p']|]]; [|done].
  specialize (IH s' p'). destruct (select s' ready p' n). cbn in *. congruence.
Qed.

(** One selection never gives a pool more permits than it has, never picks a
    pool that is not ready, and is work conserving: it hands out exactly
    [min global_permits (permits of the ready pools)] permits, so a busy pool
    takes the capacity the idle ones leave, whatever the deficits are. *)
Theorem select_work_conserving (s : FairSelector) (p : SchedulerKind → Z) (n : nat)
    (Hw : weights_ok s.(weights)) (Hd : ∀ k, 0 ≤ s.(deficits) k)
    (Hp : ∀ k, 0 ≤ p k ≤ u64_max) :
  let selected := (select s ready p n).2 in
  (∀ k, count k selected ≤ capacity ready p k) ∧
  Z.of_nat (length selected) = Z.min (Z.of_nat n) (pool_sum (capacity ready p)).
Proof.
  revert s p Hw Hd Hp. induction n as [|n IH]; intros s p Hw Hd Hp; cbn [select snd].
  { split; [|cbn [length]; enough (0 ≤ pool_sum (capacity ready p)) by lia;
             change 0 with (pool_sum (λ _, 0)) at 1; apply pool_sum_mono];
      intros k; rewrite ?count_nil; unfold capacity; specialize (Hp k); destruct (ready k); lia. }
  pose proof (select_step_cases s ready p Hw Hd (λ k, proj2 (Hp k))) as Hstep.
  pose proof (select_step_deficits_nonneg s ready p Hd) as Hd'.
  destruct (select_step s ready p) as [s' [[k p']|]]; cbn [fst] in Hd'.
  - destruct Hstep as (Hr & Hk & -> & Hw').
    specialize (IH s' (<[k:=p k - 1]> p)). rewrite Hw' in IH.
    destruct IH as [IHc IHl]; [done..| |].
    { intros j. destruct (decide (j = k)) as [->|]; [rewrite fn_lookup_insert; specialize (Hp k); lia|].
      by rewrite fn_lookup_insert_ne. }
    destruct (select s' ready _ n) as [s'' l]. cbn [snd] in *. split.
    + intros j. rewrite count_cons. specialize (IHc j). unfold capacity in *.
      case_decide as Hj; [subst j; rewrite Hr in *; rewrite fn_lookup_insert in IHc; lia|].
      rewrite fn_lookup_insert_ne in IHc by congruence. lia.
    + cbn [length]. rewrite capacity_insert in IHl by done. lia.
  - destruct Hstep as [-> Hnone]. split; [intros k; rewrite count_nil|];
      (assert (H0 : ∀ k, capacity ready p k = 0);
       [intros j; unfold capacity; destruct (ready j) eqn:E; [|done];
        specialize (Hnone j E); specialize (Hp j); lia|]).
    + by rewrite H0.
    + rewrite (pool_sum_ext _ (λ _, 0)) by done. change (pool_sum _) with 0. cbn [snd length]. lia.
Qed.
End admission.

Lemma select_work_conserving_witness :
  (select (FairSelector_new (λ _, 1)) (λ _, true)
     (λ k, if decide (k = Queue) then 2 else 0) 8).2 = [Queue; Queue] ∧
  Z.of_nat (length (select (FairSelector_new (λ _, 1)) (λ k, bool_decide (k = Alarm))
     (λ _, 64) 16).2) = 16.
Proof.
  split; [reflexivity|].
  destruct (select_work_conserving (λ k, bool_decide (k = Alarm)) (FairSelector_new (λ _, 1))
    (λ _, 64) 16) as [_ ->]; [intros k; cbn; lia|cbn; lia|intros; lia|reflexivity].
Defined.

(** ** Proportional share *)


Definition refund_all (returned : SchedulerKind → Z) (s : FairSelector) : FairSelector :=
  foldl (λ s k, refund s k (returned k)) s ALL.





Lemma refund_all_weights r s : (refund_all r s).(weights) = s.(weights).
Proof. done. Qed.

Section share.
Context (W w : SchedulerKind → Z) (HW : weights_ok W) (Hw : ∀ k, 0 ≤ w k).
(** the pools watched *)
Context (watch : SchedulerKind → Prop).



Section cycle.
Context (ready : SchedulerKind → bool) (Hready : ∀ k, ready k = true → w k = W k).





End cycle.


End share.





