(* ===== verification/Kernel.v ===== *)
(** * Scheduler kernel

    [crates/service/src/scheduler/kernel.rs]: permit accounting, deterministic
    infrastructure backoff and the state of one pool.  A [Duration] and an
    [Instant] are nanoseconds; [usize] is 64 bits wide. *)

From stdpp Require Import base numbers list option functions.
From S2P Require Import Prelude ErrorCodes Scheduler.

Local Open Scope Z_scope.

(** ** Admission *)

Record AdmissionTracker := admission_tracker {
  global_cap : Z;
  pool_caps : SchedulerKind → Z;
  global_in_flight : Z;
  pool_in_flight : SchedulerKind → Z;
}.

Definition AdmissionTracker_new (global_cap : Z) (pool_caps : SchedulerKind → Z) :
    AdmissionTracker :=
  admission_tracker global_cap pool_caps 0 (λ _, 0).

Definition available_global (t : AdmissionTracker) : Z :=
  u64_saturate (t.(global_cap) - t.(global_in_flight)).

Definition available_pools (t : AdmissionTracker) (k : SchedulerKind) : Z :=
  u64_saturate (t.(pool_caps) k - t.(pool_in_flight) k).

Definition reserve (t : AdmissionTracker) (k : SchedulerKind) (count : Z) :
    AdmissionTracker * bool :=
  if decide (count > available_global t ∨
             count > u64_saturate (t.(pool_caps) k - t.(pool_in_flight) k))
  then (t, false)
  else (admission_tracker t.(global_cap) t.(pool_caps)
          (u64_saturate (t.(global_in_flight) + count))
          (<[k := u64_saturate (t.(pool_in_flight) k + count)]> t.(pool_in_flight)),
        true).

Definition release (t : AdmissionTracker) (k : SchedulerKind) (count : Z) : AdmissionTracker :=
  admission_tracker t.(global_cap) t.(pool_caps)
    (u64_saturate (t.(global_in_flight) - count))
    (<[k := u64_saturate (t.(pool_in_flight) k - count)]> t.(pool_in_flight)).

(** ** Infrastructure backoff *)

Definition NS_PER_MS : Z := 1000000.
(** [Duration::MAX]: [u64::MAX] seconds and 999,999,999 nanoseconds *)
Definition DURATION_MAX : Z := u64_max * 1000000000 + 999999999.
Definition duration_saturate (d : Z) : Z := Z.min d DURATION_MAX.

Definition stable_mix (value : Z) : Z :=
  let value := Z.lxor value (Z.shiftr value 30) in
  let value := u64_wrap (value * 13787848793156543929) in
  let value := Z.lxor value (Z.shiftr value 27) in
  let value := u64_wrap (value * 10723151780598845931) in
  Z.lxor value (Z.shiftr value 31).

Record InfrastructureBackoff := infrastructure_backoff {
  boot_seed : Z;
  attempts : SchedulerKind → Z;
  base : Z;
  cap : Z;
}.

Definition InfrastructureBackoff_new (boot_seed base cap : Z) : InfrastructureBackoff :=
  infrastructure_backoff boot_seed (λ _, 0) base cap.

(** [1_u32.checked_shl(exponent).unwrap_or(u32::MAX)] *)
Definition shl_u32 (exponent : Z) : Z :=
  if decide (exponent < 32) then Z.shiftl 1 exponent else u32_max.

(** The delay of [fail], from the attempt number before it. *)
Definition backoff_delay (b : InfrastructureBackoff) (k : SchedulerKind)
    (attempt error_class : Z) : Z :=
  let exponent := Z.min attempt 31 in
  let factor := shl_u32 exponent in
  let exponential := Z.min (duration_saturate (b.(base) * factor)) b.(cap) in
  let jitter_bound := Z.max (exponential / 4) NS_PER_MS in
  let jitter_ms :=
    stable_mix (Z.lxor (Z.lxor (Z.lxor b.(boot_seed)
                  (u64_wrap (Z.shiftl (Z.of_nat (index k)) 48)))
                  (u64_wrap (Z.shiftl error_class 16))) attempt)
    `mod` Z.max (default u64_max (u64_checked (jitter_bound / NS_PER_MS))) 1 in
  Z.min (duration_saturate (exponential + jitter_ms * NS_PER_MS)) b.(cap).

Definition fail (b : InfrastructureBackoff) (k : SchedulerKind) (error_class : Z) :
    InfrastructureBackoff * Z :=
  let attempt := b.(attempts) k in
  (infrastructure_backoff b.(boot_seed)
     (<[k := u32_saturate (attempt + 1)]> b.(attempts)) b.(base) b.(cap),
   backoff_delay b k attempt error_class).

Definition backoff_reset (b : InfrastructureBackoff) (k : SchedulerKind) : InfrastructureBackoff :=
  infrastructure_backoff b.(boot_seed) (<[k := 0]> b.(attempts)) b.(base) b.(cap).

(** ** The state of one pool *)

Record PoolRuntime := pool_runtime {
  state : SchedulerPoolState;
  retry_at : option Z;
}.

Definition PoolRuntime_ready : PoolRuntime := pool_runtime Ready None.
Definition transient_failure (p : PoolRuntime) (retry_at : Z) : PoolRuntime :=
  pool_runtime Backoff (Some retry_at).
Definition permanent_failure (p : PoolRuntime) : PoolRuntime := pool_runtime CircuitOpen None.
Definition probe_succeeded (p : PoolRuntime) : PoolRuntime := pool_runtime Ready None.

Definition refresh_deadline (p : PoolRuntime) (now : Z) : PoolRuntime :=
  if decide (p.(state) = Backoff ∧ is_some_and (λ deadline, deadline ≤ now) p.(retry_at))
  then probe_succeeded p else p.

Definition permanent_pool_error (c : ErrorCode) : bool :=
  match c with SchedulerInternalProtocolError => true | _ => false end.

Definition infrastructure_error_class (c : ErrorCode) : Z :=
  match c with
  | SchedulerBusy => 1
  | SchedulerUnavailable => 2
  | SchedulerInternalProtocolError => 3
  | _ => 4
  end.

(** ** Permit accounting *)

(** The tracker is exact when the global count is the sum of the pool counts and
    no count exceeds its cap. *)
Definition tracker_wf (t : AdmissionTracker) : Prop :=
  t.(global_cap) ≤ u64_max ∧ (∀ k, t.(pool_caps) k ≤ u64_max) ∧
  t.(global_in_flight) = pool_sum t.(pool_in_flight) ∧
  t.(global_in_flight) ≤ t.(global_cap) ∧
  ∀ k, 0 ≤ t.(pool_in_flight) k ≤ t.(pool_caps) k.

Lemma tracker_wf_global_nonneg t : tracker_wf t → 0 ≤ t.(global_in_flight).
Proof.
  intros (_ & _ & -> & _ & Hp). change 0 with (pool_sum (λ _, 0)).
  apply pool_sum_mono. intros k. apply Hp.
Qed.

Lemma tracker_wf_new g p :
  0 ≤ g ≤ u64_max → (∀ k, 0 ≤ p k ≤ u64_max) → tracker_wf (AdmissionTracker_new g p).
Proof. intros Hg Hp. split_and!; cbn; try lia; intros k; specialize (Hp k); lia. Qed.

(** A reservation succeeds exactly when both permits are free, and then moves
    exactly [n] permits. *)
Lemma reserve_spec t k n :
  tracker_wf t → 0 ≤ n →
  reserve t k n =
    if decide (t.(global_in_flight) + n ≤ t.(global_cap) ∧
               t.(pool_in_flight) k + n ≤ t.(pool_caps) k)
    then (admission_tracker t.(global_cap) t.(pool_caps) (t.(global_in_flight) + n)
            (<[k := t.(pool_in_flight) k + n]> t.(pool_in_flight)), true)
    else (t, false).
Proof.
  intros Hwf Hn. pose proof (tracker_wf_global_nonneg t Hwf) as Hg.
  destruct Hwf as (? & Hc & Hs & ? & Hp). specialize (Hp k). specialize (Hc k).
  unfold reserve, available_global, u64_saturate. case_decide.
  - rewrite decide_False by lia. done.
  - rewrite decide_True by lia. repeat f_equal; lia.
Qed.

Lemma reserve_wf t k n :
  tracker_wf t → 0 ≤ n → tracker_wf (reserve t k n).1.
Proof.
  intros Hwf Hn. rewrite reserve_spec by done. case_decide as Hc; [|done].
  destruct Hwf as (? & ? & Hs & ? & Hp). split_and!; cbn [global_in_flight pool_in_flight global_cap pool_caps fst]; [done..| |lia|].
  - rewrite pool_sum_insert. lia.
  - intros j. destruct (decide (j = k)) as [->|].
    + rewrite fn_lookup_insert. specialize (Hp k). lia.
    + by rewrite fn_lookup_insert_ne.
Qed.

Lemma release_spec t k n :
  tracker_wf t → 0 ≤ n ≤ t.(pool_in_flight) k →
  release t k n = admission_tracker t.(global_cap) t.(pool_caps) (t.(global_in_flight) - n)
                    (<[k := t.(pool_in_flight) k - n]> t.(pool_in_flight)).
Proof.
  intros (Hcap & Hc & Hs & Hle & Hp) Hn. unfold release, u64_saturate.
  assert (t.(pool_in_flight) k ≤ t.(global_in_flight)).
  { rewrite Hs. apply pool_sum_ge. intros j. apply Hp. }
  specialize (Hp k). specialize (Hc k). repeat f_equal; lia.
Qed.

Lemma release_wf t k n :
  tracker_wf t → 0 ≤ n ≤ t.(pool_in_flight) k → tracker_wf (release t k n).
Proof.
  intros Hwf Hn. rewrite release_spec by done.
  destruct Hwf as (? & ? & Hs & ? & Hp). split_and!; cbn [global_in_flight pool_in_flight global_cap pool_caps fst]; [done..| |lia|].
  - rewrite pool_sum_insert. lia.
  - intros j. destruct (decide (j = k)) as [->|].
    + rewrite fn_lookup_insert. specialize (Hp k). lia.
    + by rewrite fn_lookup_insert_ne.
Qed.

(** ** Backoff bounds *)

Section backoff.
Context (b : InfrastructureBackoff) (k : SchedulerKind).
Hypothesis Hbase : 0 ≤ b.(base).
Hypothesis Hcap : 0 ≤ b.(cap) ≤ DURATION_MAX.

(** The exponential part, without machine width. *)
Definition exponential (attempt : Z) : Z := Z.min (b.(base) * 2 ^ Z.min attempt 31) b.(cap).

Lemma shl_u32_pow e : 0 ≤ e ≤ 31 → shl_u32 e = 2 ^ e.
Proof. intros. unfold shl_u32. rewrite decide_True by lia. apply Z.shiftl_1_l. Qed.

Lemma jitter_bound e m :
  0 ≤ e → 0 ≤ m →
  0 ≤ m `mod` Z.max (default u64_max (u64_checked (Z.max (e / 4) NS_PER_MS / NS_PER_MS))) 1
      * NS_PER_MS ≤ e / 4.
Proof.
  intros He Hm. set (q := Z.max (e / 4) NS_PER_MS / NS_PER_MS).
  assert (Hq : 1 ≤ q ∧ q * NS_PER_MS ≤ Z.max (e / 4) NS_PER_MS) 
    by (subst q; unfold NS_PER_MS; split;
        [apply Z.div_le_lower_bound; lia|rewrite Z.mul_comm; apply Z.mul_div_le; lia]).
  set (d := Z.max (default u64_max (u64_checked q)) 1).
  assert (Hd : 1 ≤ d ≤ q).
  { subst d. unfold u64_checked. case_decide as Hc; cbn; [lia|]. unfold in_u64 in Hc. lia. }
  pose proof (Z.mod_pos_bound m d ltac:(lia)). unfold NS_PER_MS in *.
  assert (0 ≤ e / 4) by (apply Z.div_pos; lia). nia.
Qed.

Lemma stable_mix_nonneg v : 0 ≤ v → 0 ≤ stable_mix v.
Proof.
  intros Hv. unfold stable_mix, u64_wrap.
  set (m := _ `mod` 2 ^ 64). assert (0 ≤ m) by (apply Z.mod_pos_bound; lia).
  clearbody m. apply Z.lxor_nonneg. rewrite Z.shiftr_nonneg. lia.
Qed.

Lemma backoff_delay_range attempt c :
  0 ≤ attempt → 0 ≤ b.(boot_seed) →
  exponential attempt ≤ backoff_delay b k attempt c ≤
    Z.min (exponential attempt + exponential attempt / 4) b.(cap).
Proof.
  intros Ha Hseed. unfold backoff_delay. rewrite shl_u32_pow by lia.
  assert (0 ≤ 2 ^ Z.min attempt 31) by (apply Z.pow_nonneg; lia).
  assert (Hexp : Z.min (duration_saturate (b.(base) * 2 ^ Z.min attempt 31)) b.(cap) =
                 exponential attempt) by (unfold duration_saturate, exponential; lia).
  rewrite Hexp. assert (He : 0 ≤ exponential attempt ≤ b.(cap)) by (unfold exponential; nia).
  set (m := stable_mix _). assert (Hm : 0 ≤ m).
  { apply stable_mix_nonneg. rewrite !Z.lxor_nonneg. unfold u64_wrap.
    pose proof (Z.mod_pos_bound (Z.shiftl (Z.of_nat (index k)) 48) (2 ^ 64)).
    pose proof (Z.mod_pos_bound (Z.shiftl c 16) (2 ^ 64)). lia. }
  pose proof (jitter_bound (exponential attempt) m ltac:(lia) Hm) as Hj.
  clearbody m. unfold duration_saturate. lia.
Qed.
End backoff.

(** Repeated infrastructure failures of a pool back off monotonically: whatever
    the error classes and the boot seed, the delay is at least the exponential one,
    the next delay is never shorter, none exceeds the cap, and no other pool's
    attempt count moves. *)
Theorem fail_monotone (b : InfrastructureBackoff) (k : SchedulerKind) (c1 c2 : Z)
    (Hbase : 0 ≤ b.(base)) (Hcap : 0 ≤ b.(cap) ≤ DURATION_MAX)
    (Hreach : b.(cap) ≤ b.(base) * 2 ^ 31)
    (Hattempt : in_u32 (b.(attempts) k)) (Hseed : 0 ≤ b.(boot_seed)) :
  let '(b1, d1) := fail b k c1 in
  let '(b2, d2) := fail b1 k c2 in
  exponential b (b.(attempts) k) ≤ d1 ∧ d1 ≤ d2 ∧ d2 ≤ b.(cap) ∧
  ∀ j, j ≠ k → b2.(attempts) j = b.(attempts) j.
Proof.
  cbn. unfold in_u32 in Hattempt. rewrite fn_lookup_insert.
  set (a := b.(attempts) k) in *. set (b1 := infrastructure_backoff _ _ _ _).
  pose proof (backoff_delay_range b k Hbase Hcap a c1 ltac:(lia) Hseed) as H1.
  assert (Ha' : 0 ≤ u32_saturate (a + 1)) by (unfold u32_saturate; lia).
  pose proof (backoff_delay_range b1 k Hbase Hcap _ c2 Ha' Hseed) as H2.
  change (exponential b1) with (exponential b) in H2. change (cap b1) with (cap b) in H2.
  split_and!; [lia| |lia|].
  - destruct (decide (a < 31)) as [Hlt|].
    + replace (u32_saturate (a + 1)) with (a + 1) in * by (unfold u32_saturate; lia).
      unfold exponential in H1, H2. rewrite (Z.min_l a 31) in H1 by lia. rewrite (Z.min_l (a + 1) 31) in H2 by lia.
      rewrite Z.pow_add_r in H2 by lia.
      assert (0 ≤ b.(base) * 2 ^ a) by (apply Z.mul_nonneg_nonneg; [lia|apply Z.pow_nonneg; lia]).
      replace (b.(base) * (2 ^ a * 2 ^ 1)) with (2 * (b.(base) * 2 ^ a)) in H2 by ring.
      set (x := b.(base) * 2 ^ a) in *. clearbody x.
      pose proof (Z.mul_div_le (Z.min x b.(cap)) 4). lia.
    + unfold exponential in H1, H2. rewrite !(Z.min_r a 31) in * by lia.
      rewrite (Z.min_r (u32_saturate _) 31) in H2 by (unfold u32_saturate; lia). lia.
  - intros j Hj. by rewrite !fn_lookup_insert_ne by done.
Qed.

Lemma fail_monotone_witness :
  let b := InfrastructureBackoff_new 7 25000000 5000000000 in
  let '(b1, d1) := fail b Queue 3 in
  let '(_, d2) := fail b1 Queue 2 in
  25000000 ≤ d1 ∧ d1 ≤ d2 ∧ d2 ≤ 5000000000.
Proof.
  pose proof (fail_monotone (InfrastructureBackoff_new 7 25000000 5000000000) Queue 3 2) as H.
  destruct H as (H1 & H2 & H3 & _).
  - cbn; lia.
  - unfold DURATION_MAX. cbn. lia.
  - cbn. lia.
  - unfold in_u32. cbn. lia.
  - cbn. lia.
  - split_and!; [exact H1|exact H2|exact H3].
Defined.
