(* ===== verification/Runner.v ===== *)
(** * The scheduler run loop

    [crates/service/src/scheduler/runner.rs] and [wake.rs]: one cycle selects
    pools with the fair selector, claims work for each, reserves permits for what
    was claimed and spawns one task per claim; a finished task releases its
    permit; between cycles the loop sleeps until the earliest deadline.  The
    claims of the four stores are a parameter of a cycle. *)

From stdpp Require Import base numbers list option strings functions gmap.
From S2P Require Import Prelude ErrorCodes Scheduler Fairness Kernel.

Local Open Scope Z_scope.

(** ** State *)

Record SchedulerRun := scheduler_run {
  admission : AdmissionTracker;
  selector : FairSelector;
  backoff : InfrastructureBackoff;
  pools : SchedulerKind → PoolRuntime;
  (** the pool states the service publishes: [set_alarm_pool_state] and the like *)
  published : SchedulerKind → SchedulerPoolState;
  (** the live tasks of the [JoinSet], by task id *)
  dispatches : gset N;
  dispatch_kinds : gmap N SchedulerKind;
}.

Definition SchedulerRun_new (max_in_flight : Z) (pool_caps weights : SchedulerKind → Z)
    (boot_wall_ms : Z) : SchedulerRun :=
  scheduler_run (AdmissionTracker_new max_in_flight pool_caps) (FairSelector_new weights)
    (InfrastructureBackoff_new (Z.abs boot_wall_ms) (25 * NS_PER_MS) (5000 * NS_PER_MS))
    (λ _, PoolRuntime_ready) (λ _, Ready) ∅ ∅.

Definition scheduler_task_failed : PlatformError :=
  platform_error SchedulerUnavailable "scheduler blocking task failed".

(** [Instant] is a signed 64-bit count of seconds and the nanoseconds within one. *)
Definition INSTANT_MAX : Z := i64_max * 1000000000 + 999999999.
Definition monotonic_deadline (now delay : Z) : Z :=
  if decide (now + delay ≤ INSTANT_MAX) then now + delay else now.

(** ** Dispatch of one cycle *)

(** Spawning the task of a claimed job and recording its kind. *)
Definition spawn (k : SchedulerKind) (st : SchedulerRun) (id : N) : SchedulerRun :=
  scheduler_run st.(admission) st.(selector) st.(backoff) st.(pools) st.(published)
    ({[id]} ∪ st.(dispatches)) (<[id := k]> st.(dispatch_kinds)).

(** Records the failure of a pool: its circuit opens for a permanent error, and it
    backs off for any other. *)
Definition pool_failed (now : Z) (permanent : ErrorCode → bool) (k : SchedulerKind)
    (e : PlatformError) (st : SchedulerRun) : SchedulerRun :=
  if permanent e.(code) then
    scheduler_run st.(admission) st.(selector) st.(backoff)
      (<[k := permanent_failure (st.(pools) k)]> st.(pools))
      (<[k := CircuitOpen]> st.(published)) st.(dispatches) st.(dispatch_kinds)
  else
    let '(backoff, delay) := fail st.(backoff) k (infrastructure_error_class e.(code)) in
    scheduler_run st.(admission) st.(selector) backoff
      (<[k := transient_failure (st.(pools) k) (monotonic_deadline now delay)]> st.(pools))
      (<[k := Backoff]> st.(published)) st.(dispatches) st.(dispatch_kinds).

Section dispatch.
Context (now : Z) (claim_batches : SchedulerKind → Z).
(** [claim], [claim_queue_consumers], [claim_cron] and [claim_workflows]: a job is
    named by the id of the task that runs it. *)
Context (claim : SchedulerKind → Z → result PlatformError (list N)).

(** Is the error permanent for the pool? *)
Definition permanent_for (k : SchedulerKind) (c : ErrorCode) : bool :=
  permanent_pool_error c ||
  bool_decide (k = Workflow ∧ c = WorkflowInvariantViolation).

Definition dispatch_kind (selected : list SchedulerKind) (st : SchedulerRun) (k : SchedulerKind) :
    result PlatformError SchedulerRun :=
  let n := Z.min (count k selected) (claim_batches k) in
  if decide (n > 0) then
    match claim k (u32_saturate n) with
    | Ok jobs =>
        let jobs_len := Z.of_nat (length jobs) in
        let backoff := backoff_reset st.(backoff) k in
        let pools := if decide (k = Alarm) then st.(pools)
                     else <[k := probe_succeeded (st.(pools) k)]> st.(pools) in
        let selector := refund st.(selector) k (u64_saturate (n - jobs_len)) in
        if decide (jobs = []) then
          Ok (scheduler_run st.(admission) selector backoff pools st.(published)
                st.(dispatches) st.(dispatch_kinds))
        else
          match reserve st.(admission) k jobs_len with
          | (_, false) => Err scheduler_task_failed
          | (admission, true) =>
              let published := if decide (k = Alarm) then st.(published)
                               else <[k := (pools k).(state)]> st.(published) in
              Ok (foldl (spawn k)
                    (scheduler_run admission selector backoff pools published
                       st.(dispatches) st.(dispatch_kinds)) jobs)
          end
    | Err e =>
        if decide (e.(code) = SchedulerCorrupt) then Err e
        else Ok (pool_failed now (permanent_for k) k e st)
    end
  else Ok st.

Fixpoint dispatch_kinds_in (selected : list SchedulerKind) (kinds : list SchedulerKind)
    (st : SchedulerRun) : result PlatformError SchedulerRun :=
  match kinds with
  | [] => Ok st
  | k :: kinds => st ← dispatch_kind selected st k; dispatch_kinds_in selected kinds st
  end.

Definition dispatch_selected (selected : list SchedulerKind) (st : SchedulerRun) :
    result PlatformError SchedulerRun :=
  dispatch_kinds_in selected ALL st.

(** The [if admission.available_global() > 0] block of the run loop. *)
Definition cycle (ready : SchedulerKind → bool) (st : SchedulerRun) :
    result PlatformError SchedulerRun :=
  if decide (available_global st.(admission) > 0) then
    let '(selector, selected) :=
      select st.(selector) ready (available_pools st.(admission))
        (Z.to_nat (available_global st.(admission))) in
    dispatch_selected selected
      (scheduler_run st.(admission) selector st.(backoff) st.(pools) st.(published)
         st.(dispatches) st.(dispatch_kinds))
  else Ok st.
End dispatch.

(** ** Completion of a task *)

(** [join_next_with_id] yields a finished task: [completed_kind] looks its kind up
    and [release_completed] returns its permit. *)
Definition complete (id : N) (st : SchedulerRun) : result PlatformError SchedulerRun :=
  k ← ok_or_else (st.(dispatch_kinds) !! id) scheduler_task_failed;
  Ok (scheduler_run (release st.(admission) k 1) st.(selector) st.(backoff) st.(pools)
        st.(published) (st.(dispatches) ∖ {[id]}) (delete id st.(dispatch_kinds))).

(** ** Pool states at the head of an iteration *)

Section refresh.
Context (now : Z) (enabled : SchedulerKind → bool) (paused : SchedulerKind → bool).

(** Reconciles the process-local pool with the published state, which an operator
    probe may have set to [Ready], and republishes it. *)
Definition refresh_kind (st : SchedulerRun) (k : SchedulerKind) : SchedulerRun :=
  let pool := refresh_deadline (st.(pools) k) now in
  let pool :=
    if decide (k = Workflow ∧ st.(published) k = CircuitOpen) then permanent_failure pool
    else if decide (pool.(state) = CircuitOpen ∧ st.(published) k = Ready)
    then probe_succeeded pool else pool in
  let pool_state := if negb (enabled k) then Disabled
                    else if paused k then Paused else pool.(state) in
  scheduler_run st.(admission) st.(selector) st.(backoff) (<[k := pool]> st.(pools))
    (<[k := pool_state]> st.(published)) st.(dispatches) st.(dispatch_kinds).

Definition refresh (st : SchedulerRun) : SchedulerRun := foldl refresh_kind st ALL.
End refresh.

(** The published state after an authenticated repair probe found the alarm store
    healthy ([repair_and_probe]). *)
Definition alarm_probe (enabled alarm_paused : bool) (st : SchedulerRun) : SchedulerRun :=
  if enabled && negb alarm_paused then
    scheduler_run st.(admission) st.(selector) st.(backoff) st.(pools)
      (<[Alarm := Ready]> st.(published)) st.(dispatches) st.(dispatch_kinds)
  else st.

(** ** Maintenance *)

Definition permanent_maintenance_error (c : ErrorCode) : bool :=
  permanent_pool_error c ||
  bool_decide (c = QueueInvariantViolation ∨ c = SchedulerCorrupt).

(** The loop's reaction to the outcome of [run_queue_maintenance]. *)
Definition queue_maintenance (now : Z) (outcome : result PlatformError unit) (st : SchedulerRun) :
    SchedulerRun :=
  match outcome with
  | Ok _ =>
      scheduler_run st.(admission) st.(selector) (backoff_reset st.(backoff) Queue)
        (<[Queue := probe_succeeded (st.(pools) Queue)]> st.(pools)) st.(published)
        st.(dispatches) st.(dispatch_kinds)
  | Err e => pool_failed now permanent_maintenance_error Queue e st
  end.

(** The loop's reaction to the outcome of [repair_workflows]. *)
Definition workflow_repair (outcome : result PlatformError unit) (st : SchedulerRun) : SchedulerRun :=
  match outcome with
  | Err e =>
      if decide (e.(code) = WorkflowInvariantViolation) then
        scheduler_run st.(admission) st.(selector) st.(backoff)
          (<[Workflow := permanent_failure (st.(pools) Workflow)]> st.(pools))
          (<[Workflow := CircuitOpen]> st.(published)) st.(dispatches) st.(dispatch_kinds)
      else st
  | Ok _ => st
  end.

(** The permits [drain] returns once the tasks have finished or are aborted. *)
Definition drain (st : SchedulerRun) : AdmissionTracker :=
  foldl (λ t k, release t k (t.(pool_in_flight) k)) st.(admission) ALL.

(** ** The steps of the loop *)

(** What a store promises of a claim: no more jobs than asked for, each with its
    own task. *)
Definition claims_ok (claim : SchedulerKind → Z → result PlatformError (list N))
    (used : gset N) : Prop :=
  ∀ k n jobs, claim k n = Ok jobs →
    Z.of_nat (length jobs) ≤ Z.max 0 n ∧ NoDup jobs ∧ (∀ id, id ∈ jobs → id ∉ used) ∧
    ∀ k' n' jobs', k' ≠ k → claim k' n' = Ok jobs' → ∀ id, id ∈ jobs → id ∉ jobs'.

Section steps.
Context (claim_batches : SchedulerKind → Z).

Inductive sched_step (st : SchedulerRun) : SchedulerRun → Prop :=
| step_cycle now ready claim st' :
    claims_ok claim st.(dispatches) →
    cycle now claim_batches claim ready st = Ok st' →
    sched_step st st'
| step_complete id st' :
    id ∈ st.(dispatches) → complete id st = Ok st' → sched_step st st'
| step_refresh now enabled paused : sched_step st (refresh now enabled paused st)
| step_maintenance now outcome : sched_step st (queue_maintenance now outcome st)
| step_repair outcome : sched_step st (workflow_repair outcome st)
| step_probe enabled alarm_paused : sched_step st (alarm_probe enabled alarm_paused st).

Inductive reachable (init : SchedulerRun) : SchedulerRun → Prop :=
| reach_init : reachable init init
| reach_step st st' : reachable init st → sched_step st st' → reachable init st'.
End steps.

(** ** Deadlines *)

Inductive WakeReason : Type := Notification | Due | Repair | BackoffWake | Safety.

Record WakeDeadline := wake_deadline { at_ : Z; reason : WakeReason }.

(** [WakeCoordinator::wall_deadline], from the monotonic and the wall clock. *)
Definition wall_deadline (now effective_wall_now_ms due_at_ms : Z) : Z :=
  let delay_ms := Z.max (i64_saturate (due_at_ms - effective_wall_now_ms)) 0 in
  monotonic_deadline now (delay_ms * NS_PER_MS).

Record DeadlineInputs := deadline_inputs {
  repair_deadline : Z;
  now_ms : Z;
  (** alarm, queue delivery, queue retention, cron, workflow *)
  next_due : list (option Z);
  runnable : SchedulerKind → bool;
  retry_ats : SchedulerKind → option Z;
}.

Definition due_kinds : list SchedulerKind := [Alarm; Queue; Queue; Cron; Workflow].

Definition due_deadline (now : Z) (input : DeadlineInputs) (t : AdmissionTracker)
    (i : nat) (k : SchedulerKind) : list WakeDeadline :=
  match input.(next_due) !! i with
  | Some (Some due) =>
      let can_dispatch := bool_decide (available_global t > 0 ∧ available_pools t k > 0) in
      if input.(runnable) k && ((i =? 2)%nat || can_dispatch || bool_decide (due > input.(now_ms)))
      then [wake_deadline (wall_deadline now input.(now_ms) due) Due] else []
  | _ => []
  end.

Definition retry_deadline (input : DeadlineInputs) (k : SchedulerKind) : list WakeDeadline :=
  match input.(retry_ats) k with Some r => [wake_deadline r BackoffWake] | None => [] end.

Definition deadlines (now : Z) (input : DeadlineInputs) (t : AdmissionTracker) :
    list WakeDeadline :=
  [wake_deadline input.(repair_deadline) Repair] ++
  concat (imap (due_deadline now input t) due_kinds) ++
  concat (retry_deadline input <$> [Workflow; Alarm; Queue; Cron]).

(** [min_by_key(|deadline| deadline.at)]: the first of the least. *)
Fixpoint min_by_at (d : WakeDeadline) (l : list WakeDeadline) : WakeDeadline :=
  match l with
  | [] => d
  | x :: l => min_by_at (if decide (x.(at_) < d.(at_)) then x else d) l
  end.

(** The timer [wait] arms: the earliest of the deadlines and the safety interval. *)
Definition earliest_deadline (now safety_interval : Z) (ds : list WakeDeadline) : WakeDeadline :=
  let safety := wake_deadline (monotonic_deadline now safety_interval) Safety in
  match ds ++ [safety] with
  | d :: ds => min_by_at d ds
  | [] => safety
  end.

(** ** The permits in flight are the tasks in flight *)

Definition running (k : SchedulerKind) (m : gmap N SchedulerKind) : Z :=
  count k (map_to_list m).*2.

Lemma count_Permutation k l l' : l ≡ₚ l' → count k l = count k l'.
Proof. induction 1; rewrite ?count_cons; lia. Qed.

Lemma running_empty k : running k ∅ = 0.
Proof. unfold running. by rewrite map_to_list_empty. Qed.

Lemma running_insert k m id x :
  m !! id = None → running k (<[id := x]> m) = (if decide (x = k) then 1 else 0) + running k m.
Proof.
  intros Hid. unfold running.
  rewrite (count_Permutation k _ (x :: (map_to_list m).*2)); [apply count_cons|].
  by rewrite map_to_list_insert.
Qed.

Lemma running_delete k m id x :
  m !! id = Some x → running k (delete id m) = running k m - (if decide (x = k) then 1 else 0).
Proof.
  intros Hid. rewrite <-(insert_delete_id m id x Hid) at 2.
  rewrite running_insert by apply lookup_delete_eq. lia.
Qed.

Definition sched_inv (st : SchedulerRun) : Prop :=
  tracker_wf st.(admission) ∧
  weights_ok st.(selector).(weights) ∧
  (∀ k, 0 ≤ st.(selector).(deficits) k) ∧
  dom st.(dispatch_kinds) = st.(dispatches) ∧
  ∀ k, st.(admission).(pool_in_flight) k = running k st.(dispatch_kinds).

Lemma spawn_all k st jobs :
  NoDup jobs → (∀ id, id ∈ jobs → id ∉ st.(dispatches)) →
  dom st.(dispatch_kinds) = st.(dispatches) →
  let st' := foldl (spawn k) st jobs in
  st'.(admission) = st.(admission) ∧ st'.(selector) = st.(selector) ∧
  dom st'.(dispatch_kinds) = st'.(dispatches) ∧
  (∀ id, id ∈ st'.(dispatches) ↔ id ∈ jobs ∨ id ∈ st.(dispatches)) ∧
  ∀ j, running j st'.(dispatch_kinds) =
       running j st.(dispatch_kinds) + (if decide (k = j) then Z.of_nat (length jobs) else 0).
Proof.
  revert st. induction jobs as [|id jobs IH]; intros st Hnd Hfresh Hdom st'.
  { subst st'. cbn. split_and!; [done..|set_solver|]. intros j. case_decide; lia. }
  apply NoDup_cons in Hnd as [Hid Hnd]. subst st'. cbn [foldl].
  assert (Hnone : st.(dispatch_kinds) !! id = None).
  { apply not_elem_of_dom. rewrite Hdom. apply Hfresh. left. }
  destruct (IH (spawn k st id) Hnd) as (Ha & Hs & Hd & Hi & Hr).
  - intros id' Hid'. cbn. assert (id' ≠ id) by (by intros ->).
    specialize (Hfresh id'). set_solver.
  - cbn. rewrite dom_insert_L. set_solver.
  - rewrite Ha, Hs. split_and!; [done..| |].
    + intros id'. rewrite Hi. cbn. set_solver.
    + intros j. rewrite Hr. cbn [dispatch_kinds spawn length]. rewrite running_insert by done.
      case_decide; lia.
Qed.

Lemma refund_deficits s k n :
  (∀ j, 0 ≤ s.(deficits) j) → ∀ j, 0 ≤ (refund s k n).(deficits) j.
Proof.
  intros Hd j. cbn. destruct (decide (j = k)) as [->|].
  - rewrite fn_lookup_insert. apply u64_saturate_range.
  - by rewrite fn_lookup_insert_ne.
Qed.

(** Permits still promised to the kinds of a list. *)
Definition promised (selected kinds : list SchedulerKind) : Z :=
  foldr (λ k n, count k selected + n) 0 kinds.

Lemma promised_cons selected k kinds :
  promised selected (k :: kinds) = count k selected + promised selected kinds.
Proof. done. Qed.

Lemma promised_nonneg selected kinds : 0 ≤ promised selected kinds.
Proof.
  induction kinds as [|k kinds IH]; [done|]. rewrite promised_cons.
  pose proof (count_nonneg k selected). lia.
Qed.

Section safety.
Context (now : Z) (claim_batches : SchedulerKind → Z).
Context (claim : SchedulerKind → Z → result PlatformError (list N)) (used : gset N).
Hypothesis Hclaim : claims_ok claim used.
Context (selected : list SchedulerKind).

(** What holds before the kinds [kinds] are dispatched: the permits promised to
    them are free, and the tasks spawned so far belong to the other kinds. *)
Definition dispatch_inv (kinds : list SchedulerKind) (st : SchedulerRun) : Prop :=
  sched_inv st ∧
  st.(admission).(global_in_flight) + promised selected kinds ≤ st.(admission).(global_cap) ∧
  (∀ k, k ∈ kinds →
     st.(admission).(pool_in_flight) k + count k selected ≤ st.(admission).(pool_caps) k) ∧
  (∀ id, id ∈ st.(dispatches) →
     id ∈ used ∨ ∃ k n jobs, (k ∉ kinds) ∧ claim k n = Ok jobs ∧ id ∈ jobs).

Lemma dispatch_inv_same kinds k st st' :
  k ∉ kinds → dispatch_inv (k :: kinds) st → st'.(admission) = st.(admission) →
  st'.(dispatches) = st.(dispatches) → st'.(dispatch_kinds) = st.(dispatch_kinds) →
  st'.(selector).(weights) = st.(selector).(weights) →
  (∀ j, 0 ≤ st'.(selector).(deficits) j) →
  dispatch_inv kinds st'.
Proof.
  intros Hk ((Hwf & Hw & Hd & Hdom & Hrun) & Hg & Hp & Hids) Ea Ed Ek Ew Hd'.
  unfold dispatch_inv, sched_inv. rewrite Ea, Ed, Ek, Ew. split_and!; try done.
  - rewrite promised_cons in Hg. pose proof (count_nonneg k selected). lia.
  - intros j Hj. apply Hp. by right.
  - intros id Hid. destruct (Hids id Hid) as [?|(j & n & jobs & Hj & ? & ?)]; [by left|].
    right. exists j, n, jobs. split_and!; [|done..]. intros ?. apply Hj. by right.
Qed.

Lemma dispatch_kind_ok kinds k st :
  k ∉ kinds → dispatch_inv (k :: kinds) st →
  match dispatch_kind now claim_batches claim selected st k with
  | Ok st' => dispatch_inv kinds st'
  | Err e => e.(code) = SchedulerCorrupt
  end.
Proof.
  intros Hk Hinv. unfold dispatch_kind. set (n := Z.min _ _).
  destruct (decide (n > 0)) as [Hn|]; [|eapply dispatch_inv_same; [done|apply Hinv|done..|apply Hinv]].
  destruct (claim k (u32_saturate n)) as [jobs|e] eqn:Hc.
  - destruct (Hclaim _ _ _ Hc) as (Hlen & Hnd & Hfresh & Hdisj).
    assert (Hlen' : Z.of_nat (length jobs) ≤ count k selected).
    { unfold u32_saturate in Hlen. subst n. lia. }
    destruct (decide (jobs = [])) as [->|Hne].
    { eapply dispatch_inv_same; [done|apply Hinv|done..|].
      apply refund_deficits, Hinv. }
    destruct Hinv as ((Hwf & Hw & Hd & Hdom & Hrun) & Hg & Hp & Hids).
    rewrite reserve_spec by (done || lia).
    assert (Hpk := Hp k ltac:(left)). rewrite promised_cons in Hg.
    pose proof (promised_nonneg selected kinds).
    rewrite decide_True by lia.
    set (st0 := scheduler_run _ _ _ _ _ _ _).
    destruct (spawn_all k st0 jobs) as (Ha & Hs & Hd' & Hi & Hr); [done| |done|].
    { intros id Hid Hin. destruct (Hids id Hin) as [Hu|(j & m & js & Hj & Hjs & Hidj)].
      - by eapply Hfresh.
      - apply (Hdisj j m js) in Hid; [done| |done]. intros ->. apply Hj. left. }
    set (st' := foldl _ _ _) in *. clearbody st'.
    assert (Hfly : ∀ j, st'.(admission).(pool_in_flight) j = running j st'.(dispatch_kinds)).
    { intros j. rewrite Hr, Ha. cbn. rewrite <-Hrun. case_decide as Hjk.
      - subst j. by rewrite fn_lookup_insert.
      - rewrite fn_lookup_insert_ne by congruence. lia. }
    split_and!.
    + split_and!; [|by rewrite Hs|by rewrite Hs; apply refund_deficits|done|done].
      rewrite Ha. subst st0. cbn [admission].
      pose proof (reserve_wf st.(admission) k (Z.of_nat (length jobs)) Hwf ltac:(lia)) as Hwf'.
      rewrite reserve_spec, decide_True in Hwf' by (done || lia). exact Hwf'.
    + rewrite Ha. cbn. lia.
    + intros j Hj. rewrite Ha. cbn. rewrite fn_lookup_insert_ne by (by intros ->).
      apply Hp. by right.
    + intros id. rewrite Hi. intros [Hid|Hid].
      * right. by exists k, (u32_saturate n), jobs.
      * destruct (Hids id Hid) as [?|(j & m & js & Hj & ? & ?)]; [by left|].
        right. exists j, m, js. split_and!; [|done..]. intros ?. apply Hj. by right.
  - destruct (decide (e.(code) = SchedulerCorrupt)); [done|].
    unfold pool_failed. destruct (permanent_for k e.(code)); [|destruct (fail _ _ _)];
      (eapply dispatch_inv_same; [done|apply Hinv|done..|apply Hinv]).
Qed.

Lemma dispatch_kinds_in_ok kinds st :
  NoDup kinds → dispatch_inv kinds st →
  match dispatch_kinds_in now claim_batches claim selected kinds st with
  | Ok st' => dispatch_inv [] st'
  | Err e => e.(code) = SchedulerCorrupt
  end.
Proof.
  revert st. induction kinds as [|k kinds IH]; intros st Hnd Hinv; [done|].
  apply NoDup_cons in Hnd as [Hk Hnd]. cbn [dispatch_kinds_in].
  pose proof (dispatch_kind_ok kinds k st Hk Hinv) as Hstep.
  destruct (dispatch_kind _ _ _ _ _ _) as [st'|e]; [by apply IH|done].
Qed.
End safety.

Lemma select_deficits_nonneg s ready p n :
  (∀ k, 0 ≤ s.(deficits) k) → ∀ k, 0 ≤ (select s ready p n).1.(deficits) k.
Proof.
  revert s p. induction n as [|n IH]; intros s p Hd; [done|]. cbn [select].
  pose proof (select_step_deficits_nonneg s ready p Hd) as Hd'.
  destruct (select_step s ready p) as [s' [[k p']|]]; [|done].
  specialize (IH s' p' Hd'). by destruct (select s' ready p' n).
Qed.

(** A selection leaves what it promises free. *)
Lemma select_dispatch_inv claim ready st sel selected :
  sched_inv st → available_global st.(admission) > 0 →
  select st.(selector) ready (available_pools st.(admission))
    (Z.to_nat (available_global st.(admission))) = (sel, selected) →
  dispatch_inv claim st.(dispatches) selected ALL
    (scheduler_run st.(admission) sel st.(backoff) st.(pools) st.(published)
       st.(dispatches) st.(dispatch_kinds)).
Proof.
  intros Hinv Hpos Hsel. pose proof Hinv as (Hwf & Hw & Hd & Hdom & Hrun).
  pose proof (select_weights ready st.(selector) (available_pools st.(admission))
    (Z.to_nat (available_global st.(admission)))) as Hw'.
  pose proof (select_deficits_nonneg st.(selector) ready (available_pools st.(admission))
    (Z.to_nat (available_global st.(admission))) Hd) as Hd'.
  destruct (select_bounded ready st.(selector) (available_pools st.(admission))
    (Z.to_nat (available_global st.(admission)))) as [Hc Hl].
  { intros k. apply u64_saturate_range. }
  rewrite Hsel in *. cbn [fst snd] in *.
  split_and!; [split_and!; cbn; [done|by rewrite Hw'|done..]| | |by left].
  - cbn [admission]. change (promised selected ALL) with (pool_sum (λ k, count k selected)).
    rewrite pool_sum_count. destruct Hwf as (? & _ & _ & ? & _).
    unfold available_global, u64_saturate in *. cbn. lia.
  - intros k _. specialize (Hc k). destruct Hwf as (_ & Hcap & _ & _ & Hfly).
    specialize (Hfly k). unfold available_pools, u64_saturate in Hc. cbn. lia.
Qed.

Lemma cycle_ok now claim_batches claim ready st :
  sched_inv st → claims_ok claim st.(dispatches) →
  match cycle now claim_batches claim ready st with
  | Ok st' => sched_inv st'
  | Err e => e.(code) = SchedulerCorrupt
  end.
Proof.
  intros Hinv Hclaim. unfold cycle. case_decide as Hpos; [|done].
  destruct (select _ _ _ _) as [sel selected] eqn:Hsel.
  pose proof (dispatch_kinds_in_ok now claim_batches claim st.(dispatches) Hclaim selected ALL _
    NoDup_ALL (select_dispatch_inv claim ready st sel selected Hinv Hpos Hsel)) as Hdisp.
  unfold dispatch_selected. destruct (dispatch_kinds_in _ _ _ _ _ _) as [st'|e]; [apply Hdisp|done].
Qed.

(** What the invariant says of the permits. *)
Lemma sched_inv_permits st :
  sched_inv st →
  (∀ k, st.(admission).(pool_in_flight) k = running k st.(dispatch_kinds) ∧
        running k st.(dispatch_kinds) ≤ st.(admission).(pool_caps) k) ∧
  Z.of_nat (size st.(dispatch_kinds)) = st.(admission).(global_in_flight) ∧
  st.(admission).(global_in_flight) ≤ st.(admission).(global_cap).
Proof.
  intros ((_ & _ & Hsum & Hle & Hp) & _ & _ & Hdom & Hrun). split_and!; [|clear Hle|done].
  - intros k. rewrite <-Hrun. split; [done|apply Hp].
  - rewrite Hsum, (pool_sum_ext _ (λ k, count k (map_to_list st.(dispatch_kinds)).*2)) by apply Hrun.
    by rewrite pool_sum_count, length_fmap, length_map_to_list.
Qed.

Lemma complete_ok id st :
  sched_inv st → id ∈ st.(dispatches) → ∃ st', complete id st = Ok st' ∧ sched_inv st'.
Proof.
  intros (Hwf & Hw & Hd & Hdom & Hrun) Hid.
  rewrite <-Hdom in Hid. apply elem_of_dom in Hid as [k Hk].
  unfold complete. rewrite Hk. eexists; split; [done|].
  assert (Hone : 0 ≤ 1 ≤ st.(admission).(pool_in_flight) k).
  { rewrite Hrun. rewrite <-(insert_delete_id _ _ _ Hk), running_insert, decide_True by
      (done || apply lookup_delete_eq).
    pose proof (count_nonneg k (map_to_list (delete id st.(dispatch_kinds))).*2).
    unfold running. lia. }
  split_and!; cbn [admission selector dispatches dispatch_kinds].
  - by apply release_wf.
  - done.
  - done.
  - by rewrite dom_delete_L, Hdom.
  - intros j. rewrite release_spec by done. cbn [pool_in_flight].
    rewrite (running_delete j _ _ _ Hk), <-Hrun. destruct (decide (k = j)) as [->|].
    + by rewrite fn_lookup_insert.
    + rewrite fn_lookup_insert_ne by done. lia.
Qed.

Lemma refresh_inv now enabled paused st : sched_inv st → sched_inv (refresh now enabled paused st).
Proof.
  unfold refresh. generalize ALL as kinds. intros kinds. revert st.
  induction kinds as [|k kinds IH]; intros st Hinv; [done|]. cbn [foldl]. by apply IH.
Qed.

Lemma pool_failed_inv now permanent k e st : sched_inv st → sched_inv (pool_failed now permanent k e st).
Proof. intros Hinv. unfold pool_failed. destruct (permanent _); [done|]. by destruct (fail _ _ _). Qed.

Lemma drain_spec st :
  sched_inv st → (drain st).(global_in_flight) = 0 ∧ ∀ k, (drain st).(pool_in_flight) k = 0.
Proof.
  intros (Hwf & _).
  assert (H : ∀ ks t, tracker_wf t →
    let t' := foldl (λ t k, release t k (t.(pool_in_flight) k)) t ks in
    tracker_wf t' ∧ ∀ k, t'.(pool_in_flight) k = 0 ∨ (k ∉ ks ∧ t'.(pool_in_flight) k = t.(pool_in_flight) k)).
  { intros ks. induction ks as [|k ks IH]; intros t Ht; [split; [done|]; set_solver|]. cbn [foldl].
    assert (Hr : 0 ≤ t.(pool_in_flight) k ≤ t.(pool_in_flight) k) by (destruct Ht as (_&_&_&_&H); specialize (H k); lia).
    destruct (IH (release t k (t.(pool_in_flight) k))) as [Hwf' H']; [by apply release_wf|].
    split; [done|]. intros j. destruct (H' j) as [?|[Hj ->]]; [by left|].
    rewrite release_spec by done. cbn. destruct (decide (j = k)) as [->|].
    - rewrite fn_lookup_insert. left. lia.
    - rewrite fn_lookup_insert_ne by done. right. set_solver. }
  destruct (H ALL _ Hwf) as [Hwf' H'].
  assert (Hz : ∀ k, (drain st).(pool_in_flight) k = 0).
  { intros k. destruct (H' k) as [?|[[] _]]; [done|]. destruct k; unfold ALL; set_solver. }
  split; [|done]. unfold drain. destruct Hwf' as (_ & _ & -> & _).
  rewrite (pool_sum_ext _ (λ _, 0)); [done|]. apply Hz.
Qed.

Lemma sched_step_inv batches st st' : sched_inv st → sched_step batches st st' → sched_inv st'.
Proof.
  intros Hinv [now ready claim st1 Hclaim Hc|id st1 Hid Hc|now en pa|now o|o|en pa].
  - pose proof (cycle_ok now batches claim ready st Hinv Hclaim) as H. by rewrite Hc in H.
  - destruct (complete_ok id st Hinv Hid) as (st2 & Hc2 & ?). rewrite Hc in Hc2. by simplify_eq.
  - by apply refresh_inv.
  - destruct o; [done|]. by apply pool_failed_inv.
  - destruct o; cbn; [done|]. by case_decide.
  - unfold alarm_probe. by destruct (en && negb pa).
Qed.

Lemma sched_inv_new g caps w boot :
  0 ≤ g ≤ u64_max → (∀ k, 0 ≤ caps k ≤ u64_max) → weights_ok w →
  sched_inv (SchedulerRun_new g caps w boot).
Proof.
  intros Hg Hc Hw. split_and!; cbn; [by apply tracker_wf_new|done|done|by rewrite dom_empty_L|].
  intros k. by rewrite running_empty.
Qed.

Lemma reachable_inv batches init st : sched_inv init → reachable batches init st → sched_inv st.
Proof. intros Hinit. induction 1; [done|]. by eapply sched_step_inv. Qed.

(** The scheduler never over-commits and never loses a permit.  In every state
    the run loop can reach from its start, by any interleaving of cycles, task
    completions, state refreshes, maintenance and probes, the permits held are exactly the
    live tasks of each kind and stay within the pool and global caps; the next
    cycle aborts the loop only when a store reports corruption (its reservation
    cannot fail), the completion of a live task always finds its kind, and draining
    at shutdown returns every permit. *)
Theorem run_loop_permits (g : Z) (caps w batches : SchedulerKind → Z) (boot : Z)
    (st : SchedulerRun)
    (Hg : 0 ≤ g ≤ u64_max) (Hcaps : ∀ k, 0 ≤ caps k ≤ u64_max) (Hw : weights_ok w)
    (Hreach : reachable batches (SchedulerRun_new g caps w boot) st) :
  (∀ k, st.(admission).(pool_in_flight) k = running k st.(dispatch_kinds) ∧
        running k st.(dispatch_kinds) ≤ st.(admission).(pool_caps) k) ∧
  Z.of_nat (size st.(dispatch_kinds)) = st.(admission).(global_in_flight) ∧
  st.(admission).(global_in_flight) ≤ st.(admission).(global_cap) ∧
  (∀ now claim ready e, claims_ok claim st.(dispatches) →
     cycle now batches claim ready st = Err e → e.(code) = SchedulerCorrupt) ∧
  (∀ id, id ∈ st.(dispatches) → is_ok (complete id st) = true) ∧
  (drain st).(global_in_flight) = 0 ∧ (∀ k, (drain st).(pool_in_flight) k = 0).
Proof.
  assert (Hinv : sched_inv st) by (eapply reachable_inv, Hreach; by apply sched_inv_new).
  destruct (sched_inv_permits st Hinv) as (Hpools & Hsize & Hcap). split_and!; [done..| | | |].
  - intros now claim ready e Hclaim Hc.
    pose proof (cycle_ok now batches claim ready st Hinv Hclaim) as H. by rewrite Hc in H.
  - intros id Hid. by destruct (complete_ok id st Hinv Hid) as (? & -> & _).
  - by apply drain_spec.
  - by apply drain_spec.
Qed.

Definition witness_claim (k : SchedulerKind) (n : Z) : result PlatformError (list N) :=
  if decide (k = Alarm ∧ 2 ≤ n) then Ok [7%N; 8%N] else Ok [].

Lemma run_loop_permits_witness :
  ∃ st, reachable (λ _, 16) (SchedulerRun_new 3 (λ _, 2) (λ _, 1) 1000) st ∧
        Z.of_nat (size st.(dispatch_kinds)) = 2 ∧
        running Alarm st.(dispatch_kinds) ≤ st.(admission).(pool_caps) Alarm.
Proof.
  set (init := SchedulerRun_new 3 (λ _, 2) (λ _, 1) 1000).
  destruct (cycle 0 (λ _, 16) witness_claim (λ k, bool_decide (k = Alarm)) init) as [st|e] eqn:Hc;
    [|exfalso; vm_compute in Hc; congruence].
  assert (Hr : reachable (λ _, 16) init st).
  { eapply reach_step; [apply reach_init|]. eapply step_cycle, Hc.
    intros k n jobs. unfold witness_claim. case_decide as Hd; intros [= <-].
    - destruct Hd as [-> ?]. split_and!; [cbn; lia|apply (bool_decide_unpack _); by vm_compute| |].
      + intros id _. apply not_elem_of_empty.
      + intros k' n' jobs' Hk. case_decide as Hd'; [tauto|]. intros [= <-] id _. apply not_elem_of_nil.
    - split_and!; [cbn; lia|constructor|set_solver..]. }
  exists st. split; [done|].
  destruct (run_loop_permits 3 (λ _, 2) (λ _, 1) (λ _, 16) 1000 st) as (Hp & Hs & _);
    [lia|intros; lia|intros k; lia|done|].
  rewrite Hs. split; [|apply Hp].
  assert (result_ok (global_in_flight ∘ admission <$> cycle 0 (λ _, 16) witness_claim
            (λ k, bool_decide (k = Alarm)) init) = Some 2) as H2 by (vm_compute; reflexivity).
  rewrite Hc in H2. cbn in H2. congruence.
Defined.

(** ** The loop never oversleeps *)

Lemma min_by_at_le d l : (min_by_at d l).(at_) ≤ d.(at_) ∧
  (∀ x, x ∈ l → (min_by_at d l).(at_) ≤ x.(at_)) ∧ (min_by_at d l = d ∨ min_by_at d l ∈ l).
Proof.
  revert d. induction l as [|y l IH]; intros d; cbn [min_by_at]; [set_solver by lia|].
  destruct (IH (if decide (y.(at_) < d.(at_)) then y else d)) as (H1 & H2 & H3).
  split_and!.
  - case_decide; lia.
  - intros x [->|Hx]%elem_of_cons; [case_decide; lia|by apply H2].
  - case_decide; destruct H3 as [->|H3]; set_solver.
Qed.

Lemma earliest_deadline_le now safety ds :
  let d := earliest_deadline now safety ds in
  let all := ds ++ [wake_deadline (monotonic_deadline now safety) Safety] in
  d ∈ all ∧ ∀ x, x ∈ all → d.(at_) ≤ x.(at_).
Proof.
  cbv zeta. unfold earliest_deadline.
  destruct (ds ++ [wake_deadline (monotonic_deadline now safety) Safety]) as [|y l] eqn:E.
  { by destruct ds. }
  destruct (min_by_at_le y l) as (H1 & H2 & H3). split.
  - destruct H3 as [->|H3]; [left|by right].
  - intros x [->|Hx]%elem_of_cons; [done|by apply H2].
Qed.

Lemma elem_of_due_deadlines now input t i k x :
  due_kinds !! i = Some k → x ∈ due_deadline now input t i k → x ∈ deadlines now input t.
Proof.
  intros Hi Hx. unfold deadlines. rewrite !elem_of_app. right. left.
  apply list_elem_of_In, in_concat. eexists. split; [|by apply list_elem_of_In].
  apply list_elem_of_In, list_elem_of_lookup. exists i. rewrite list_lookup_imap, Hi. done.
Qed.

Lemma elem_of_retry_deadlines now input t k x :
  x ∈ retry_deadline input k → x ∈ deadlines now input t.
Proof.
  intros Hx. unfold deadlines. rewrite !elem_of_app. right. right. cbn.
  rewrite !elem_of_app. destruct k; auto.
Qed.

(** The timer armed between cycles never oversleeps: it fires no later than the
    safety interval, the repair deadline, every pool's retry deadline, and the due
    time of every runnable pool that has a free permit or is due in the future, and
    of queue retention even when no permit is free; and it is always one of those
    deadlines. *)
Theorem deadlines_complete (now safety : Z) (input : DeadlineInputs) (t : AdmissionTracker) :
  let d := earliest_deadline now safety (deadlines now input t) in
  d.(at_) ≤ monotonic_deadline now safety ∧
  d.(at_) ≤ input.(repair_deadline) ∧
  (∀ k r, input.(retry_ats) k = Some r → d.(at_) ≤ r) ∧
  (∀ i k due, due_kinds !! i = Some k → input.(next_due) !! i = Some (Some due) →
     input.(runnable) k = true →
     i = 2%nat ∨ (available_global t > 0 ∧ available_pools t k > 0) ∨ due > input.(now_ms) →
     d.(at_) ≤ wall_deadline now input.(now_ms) due) ∧
  d ∈ wake_deadline (monotonic_deadline now safety) Safety :: deadlines now input t.
Proof.
  destruct (earliest_deadline_le now safety (deadlines now input t)) as [Hin Hle].
  cbv zeta. set (d := earliest_deadline _ _ _) in *. clearbody d. split_and!.
  - apply (Hle (wake_deadline (monotonic_deadline now safety) Safety)). set_solver.
  - apply (Hle (wake_deadline input.(repair_deadline) Repair)). unfold deadlines. set_solver.
  - intros k r Hr. apply (Hle (wake_deadline r BackoffWake)). apply elem_of_app. left.
    apply (elem_of_retry_deadlines _ _ _ k). unfold retry_deadline. rewrite Hr. left.
  - intros i k due Hi Hdue Hrun Hcond.
    apply (Hle (wake_deadline (wall_deadline now input.(now_ms) due) Due)). apply elem_of_app. left.
    apply (elem_of_due_deadlines _ _ _ i k _ Hi). unfold due_deadline. rewrite Hdue, Hrun.
    destruct Hcond as [->|[Hc|Hc]]; cbn [andb].
    + left.
    + rewrite (bool_decide_eq_true_2 (_ ∧ _)) by done. rewrite orb_true_r. left.
    + rewrite (bool_decide_eq_true_2 (due > _)) by done. rewrite orb_true_r. left.
  - set_solver.
Qed.
