(* ===== verification/Wake.v ===== *)
(** * The wake signal

    [crates/storage/src/scheduler/wake.rs]: writers publish a generation after a
    commit and wake the registered waiters; a waiter polls a future that completes
    once the generation differs from the one it observed.  The model interleaves
    the atomic actions of any number of notifiers and futures: the increment of the
    counter, the critical sections of the waiters mutex, and the call of a waker.  A poll
    is two actions: the check of the generation without the lock, and the critical section
    that removes or registers the waiter. *)

From stdpp Require Import base numbers list option gmap.
From S2P Require Import Prelude.

Local Open Scope Z_scope.

(** ** State *)

(** A [SchedulerWakeFuture]: what it observed and its place among the waiters. *)
Record WakeFuture := wake_future { observed : Z; waiter_id : option Z }.

(** Where a poll is after its first check of the generation: the generation had moved, to
    the value the poll will return, or it is about to take the lock. *)
Inductive PollStage := Leaving (current : Z) | Locking.

Record WakeState := wake_state {
  generation : Z;
  next_id : Z;
  (** the registered wakers, each named by its future *)
  values : gmap Z N;
  futures : gmap N WakeFuture;
  (** notifiers between [fetch_add] and the lock of [waiters] *)
  taking : nat;
  (** wakers taken out of [values] that are yet to be called *)
  waking : list N;
  (** futures whose waker was called since their last poll began *)
  woken : gset N;
  (** futures between the two checks of a poll *)
  polling : gmap N PollStage;
}.

Definition WakeState_default : WakeState := wake_state 0 0 ∅ ∅ 0 [] ∅ ∅.

(** ** Atomic actions *)

(** [notify]: [generation.fetch_add(1)], which wraps *)
Definition notify_add (w : WakeState) : WakeState :=
  wake_state (u64_wrap (w.(generation) + 1)) w.(next_id) w.(values) w.(futures)
    (S w.(taking)) w.(waking) w.(woken) w.(polling).

(** [notify]: [mem::take(&mut waiters.values)] under the lock *)
Definition notify_take (w : WakeState) : WakeState :=
  wake_state w.(generation) w.(next_id) ∅ w.(futures) (pred w.(taking))
    (w.(waking) ++ (map_to_list w.(values)).*2) w.(woken) w.(polling).

(** [notify]: [waker.wake()] *)
Definition wake_one (f : N) (w : WakeState) : WakeState :=
  wake_state w.(generation) w.(next_id) w.(values) w.(futures) w.(taking)
    (filter (λ g, g ≠ f) w.(waking)) ({[f]} ∪ w.(woken)) w.(polling).

(** [notified_since] *)
Definition notified_since (f : N) (observed : Z) (w : WakeState) : WakeState :=
  wake_state w.(generation) w.(next_id) w.(values)
    (<[f := wake_future observed None]> w.(futures)) w.(taking) w.(waking) (w.(woken) ∖ {[f]}) w.(polling).

(** [remove_waiter], and the future is gone once it is ready or dropped *)
Definition remove_waiter (f : N) (fut : WakeFuture) (w : WakeState) : WakeState :=
  wake_state w.(generation) w.(next_id)
    (match fut.(waiter_id) with Some id => delete id w.(values) | None => w.(values) end)
    (delete f w.(futures)) w.(taking) w.(waking) (w.(woken) ∖ {[f]}) (delete f w.(polling)).

(** [poll]: the generation is checked without the lock.  The executor forgets earlier
    wakes of the task when it polls it. *)
Definition poll_begin (f : N) (fut : WakeFuture) (w : WakeState) : WakeState :=
  let stage := if decide (w.(generation) ≠ fut.(observed)) then Leaving w.(generation) else Locking in
  wake_state w.(generation) w.(next_id) w.(values) w.(futures) w.(taking) w.(waking) (w.(woken) ∖ {[f]})
    (<[f := stage]> w.(polling)).

(** [poll]: under the lock, [remove_waiter] on the way out, or the second check of the
    generation and the registration.  [None] is [Poll::Pending]. *)
Definition poll_end (f : N) (fut : WakeFuture) (stage : PollStage) (w : WakeState) : WakeState * option Z :=
  match stage with
  | Leaving current => (remove_waiter f fut w, Some current)
  | Locking =>
      if decide (w.(generation) ≠ fut.(observed)) then (remove_waiter f fut w, Some w.(generation))
      else
        let '(id, next_id) := match fut.(waiter_id) with
          | Some id => (id, w.(next_id))
          | None => (w.(next_id), u64_saturate (w.(next_id) + 1))
          end in
        (wake_state w.(generation) next_id (<[id := f]> w.(values))
           (<[f := wake_future fut.(observed) (Some id)]> w.(futures)) w.(taking) w.(waking)
           w.(woken) (delete f w.(polling)), None)
  end.

Inductive wake_step (w : WakeState) : WakeState → Prop :=
| do_add : wake_step w (notify_add w)
| do_take : w.(taking) ≠ 0%nat → wake_step w (notify_take w)
| do_wake f : f ∈ w.(waking) → wake_step w (wake_one f w)
| do_new f g : w.(futures) !! f = None → wake_step w (notified_since f g w)
| do_poll_begin f fut :
    w.(futures) !! f = Some fut → w.(polling) !! f = None → wake_step w (poll_begin f fut w)
| do_poll_end f fut stage :
    w.(futures) !! f = Some fut → w.(polling) !! f = Some stage →
    (** fewer than [u64::MAX] registrations *)
    w.(next_id) < u64_max →
    wake_step w (poll_end f fut stage w).1
| do_drop f fut :
    w.(futures) !! f = Some fut → w.(polling) !! f = None → wake_step w (remove_waiter f fut w).

Inductive wake_reachable : WakeState → Prop :=
| wake_init : wake_reachable WakeState_default
| wake_next w w' : wake_reachable w → wake_step w w' → wake_reachable w'.

(** ** No lost wake-up *)

Record wake_inv (w : WakeState) : Prop := {
  (** a registered waker belongs to a live future that knows its place *)
  inv_values : ∀ id f, w.(values) !! id = Some f →
    ∃ fut, w.(futures) !! f = Some fut ∧ fut.(waiter_id) = Some id ∧
           (fut.(observed) = w.(generation) ∨ w.(taking) ≠ 0%nat);
  inv_ids : ∀ f fut id, w.(futures) !! f = Some fut → fut.(waiter_id) = Some id →
    0 ≤ id < w.(next_id);
  inv_inj : ∀ f fut f' fut' id, w.(futures) !! f = Some fut → w.(futures) !! f' = Some fut' →
    fut.(waiter_id) = Some id → fut'.(waiter_id) = Some id → f = f';
  (** a future that returned [Pending] and is not being polled is registered or its waker
      was taken *)
  inv_pending : ∀ f fut id, w.(futures) !! f = Some fut → fut.(waiter_id) = Some id →
    w.(polling) !! f = None → w.(values) !! id = Some f ∨ f ∈ w.(waking) ∨ f ∈ w.(woken);
  inv_next : 0 ≤ w.(next_id);
  (** a poll on its way out saw another generation *)
  inv_leaving : ∀ f g, w.(polling) !! f = Some (Leaving g) →
    ∃ fut, w.(futures) !! f = Some fut ∧ g ≠ fut.(observed);
  inv_polling : ∀ f, is_Some (w.(polling) !! f) → is_Some (w.(futures) !! f);
}.

Lemma wake_inv_default : wake_inv WakeState_default.
Proof. split; cbn; try (intros *; rewrite lookup_empty; done); lia. Qed.

Lemma notify_add_inv w : wake_inv w → wake_inv (notify_add w).
Proof.
  intros [Hv Hi Hj Hp Hn Hl Hq]. split; cbn; try done.
  intros id f Hid. destruct (Hv id f Hid) as (fut & ? & ? & _). eauto.
Qed.

Lemma notify_take_inv w : wake_inv w → wake_inv (notify_take w).
Proof.
  intros [Hv Hi Hj Hp Hn Hl Hq]. split; cbn; try done.
  intros f fut id Hf Hid Hno. destruct (Hp f fut id Hf Hid Hno) as [H|[H|H]]; [|set_solver..].
  right. left. apply elem_of_app. right. apply list_elem_of_fmap. exists (id, f).
  split; [done|]. by apply elem_of_map_to_list.
Qed.

Lemma wake_one_inv f w : wake_inv w → wake_inv (wake_one f w).
Proof.
  intros [Hv Hi Hj Hp Hn Hl Hq]. split; cbn; try done.
  intros g fut id Hg Hid Hno. destruct (decide (g = f)) as [->|Hne]; [set_solver|].
  destruct (Hp g fut id Hg Hid Hno) as [H|[H|H]]; [by left| |set_solver].
  right. left. apply list_elem_of_filter. done.
Qed.

Lemma notified_since_inv f g w :
  w.(futures) !! f = None → wake_inv w → wake_inv (notified_since f g w).
Proof.
  intros Hf [Hv Hi Hj Hp Hn Hl Hq]. split; cbn; [| | | |done| |].
  - intros id h Hid. destruct (Hv id h Hid) as (fut & Hh & ?). exists fut.
    rewrite lookup_insert_ne by congruence. done.
  - intros h fut id [[<- <-]|[Hne Hh]]%lookup_insert_Some; [done|eauto].
  - intros h fut h' fut' id [[<- <-]|[? Hh]]%lookup_insert_Some
      [[<- <-]|[? Hh']]%lookup_insert_Some; try done. eauto.
  - intros h fut id [[<- <-]|[Hne Hh]]%lookup_insert_Some Hid Hno; [done|].
    destruct (Hp h fut id Hh Hid Hno) as [H|[H|H]]; [by left|set_solver..].
  - intros h c Hh. destruct (Hl h c Hh) as (fut & Hfut & ?). exists fut. by rewrite lookup_insert_ne by congruence.
  - intros h Hh. destruct (Hq h Hh) as [fut Hfut]. rewrite lookup_insert_ne by congruence. by exists fut.
Qed.

Lemma remove_waiter_inv f fut w :
  w.(futures) !! f = Some fut → wake_inv w → wake_inv (remove_waiter f fut w).
Proof.
  intros Hf [Hv Hi Hj Hp Hn Hl Hq].
  assert (Hsub : ∀ id h, match fut.(waiter_id) with Some id => delete id w.(values)
      | None => w.(values) end !! id = Some h → w.(values) !! id = Some h ∧ h ≠ f).
  { intros id h Hid. assert (Hw : w.(values) !! id = Some h).
    { destruct (waiter_id fut); [by apply lookup_delete_Some in Hid as [_ ?]|done]. }
    split; [done|]. intros ->. destruct (Hv id f Hw) as (fut' & Hf' & Hid' & _).
    rewrite Hf in Hf'. simplify_eq. rewrite Hid' in Hid. by rewrite lookup_delete_eq in Hid. }
  split; cbn; [| | | |done| |].
  - intros id h Hid. destruct (Hsub id h Hid) as [Hw Hne].
    destruct (Hv id h Hw) as (fut' & ? & ? & ?). exists fut'. by rewrite lookup_delete_ne.
  - intros h fut' id [_ Hh]%lookup_delete_Some. eauto.
  - intros h fut1 h' fut2 id [_ Hh]%lookup_delete_Some [_ Hh']%lookup_delete_Some. eauto.
  - intros h fut' id [Hne Hh]%lookup_delete_Some Hid Hno. rewrite lookup_delete_ne in Hno by done.
    destruct (Hp h fut' id Hh Hid Hno) as [H|[H|H]]; [left|set_solver..].
    destruct (waiter_id fut) as [id'|] eqn:Hid'; [|done].
    rewrite lookup_delete_ne; [done|]. intros ->. by rewrite (Hj _ _ _ _ id Hf Hh) in Hne.
  - intros h c [Hne Hh]%lookup_delete_Some. destruct (Hl h c Hh) as (fut' & ? & ?). exists fut'. by rewrite lookup_delete_ne.
  - intros h [st [Hne Hh]%lookup_delete_Some]. rewrite lookup_delete_ne by done. eauto.
Qed.

(** The first check of a poll. *)
Lemma poll_begin_inv f fut w :
  w.(futures) !! f = Some fut → wake_inv w → wake_inv (poll_begin f fut w).
Proof.
  intros Hf [Hv Hi Hj Hp Hn Hl Hq]. split; cbn; try done.
  - intros h fut' id Hh Hid [Hno Hne]%lookup_insert_None.
    destruct (Hp h fut' id Hh Hid Hno) as [H|[H|H]]; [by left|set_solver..].
  - intros h g [[<- Hg]|[Hne Hh]]%lookup_insert_Some; [|by apply Hl].
    exists fut. split; [done|]. case_decide; [|done]. by injection Hg as <-.
  - intros h [st [[<- _]|[_ Hh]]%lookup_insert_Some]; [by exists fut|eauto].
Qed.

(** Registration under an id that no other future holds. *)
Lemma register_inv f fut w id next :
  w.(futures) !! f = Some fut → w.(generation) = fut.(observed) →
  0 ≤ id < next → w.(next_id) ≤ next →
  (∀ id', fut.(waiter_id) = Some id' → id' = id) →
  (∀ h fut', w.(futures) !! h = Some fut' → fut'.(waiter_id) = Some id → h = f) →
  wake_inv w →
  wake_inv (wake_state w.(generation) next (<[id := f]> w.(values))
    (<[f := wake_future fut.(observed) (Some id)]> w.(futures)) w.(taking) w.(waking)
    w.(woken) (delete f w.(polling))).
Proof.
  intros Hf Hg Hid Hnext Hown Huniq [Hv Hi Hj Hp Hn Hl Hq]. split; cbn; [| | | |lia| |].
  - intros id' h [[<- <-]|[Hne Hh]]%lookup_insert_Some.
    + exists (wake_future fut.(observed) (Some id)). rewrite lookup_insert_eq. eauto.
    + destruct (Hv id' h Hh) as (fut' & Hh' & Hid' & Hgen). exists fut'.
      rewrite lookup_insert_ne; [done|]. intros <-. rewrite Hf in Hh'. simplify_eq. by apply Hne, eq_sym, Hown.
  - intros h fut' id' [[<- <-]|[Hne Hh]]%lookup_insert_Some Hid'; [naive_solver|].
    pose proof (Hi h fut' id' Hh Hid'). lia.
  - intros h fut1 h' fut2 id' [[<- <-]|[? Hh]]%lookup_insert_Some
      [[<- <-]|[? Hh']]%lookup_insert_Some H1 H2; simplify_eq/=; [done| | |by eauto].
    + symmetry. by eapply Huniq.
    + by eapply Huniq.
  - intros h fut' id' [[<- <-]|[Hne Hh]]%lookup_insert_Some Hid' Hno.
    + simplify_eq/=. left. by rewrite lookup_insert_eq.
    + rewrite lookup_delete_ne in Hno by done. destruct (Hp h fut' id' Hh Hid' Hno) as [H|[H|H]]; [left|by auto..].
      rewrite lookup_insert_ne; [done|]. intros <-. by rewrite (Huniq h fut' Hh Hid') in Hne.
  - intros h c [Hne Hh]%lookup_delete_Some. destruct (Hl h c Hh) as (fut' & ? & ?). exists fut'. by rewrite lookup_insert_ne.
  - intros h [st [Hne Hh]%lookup_delete_Some]. rewrite lookup_insert_ne by done. eauto.
Qed.

Lemma poll_end_inv f fut stage w :
  w.(futures) !! f = Some fut → w.(next_id) < u64_max → wake_inv w → wake_inv (poll_end f fut stage w).1.
Proof.
  intros Hf Hlt Hinv. unfold poll_end. destruct stage as [g|]; [by apply remove_waiter_inv|].
  destruct (decide _) as [Hg|Hg]; [by apply remove_waiter_inv|].
  apply dec_stable in Hg. pose proof (inv_ids _ Hinv) as Hi. pose proof (inv_inj _ Hinv) as Hj.
  pose proof (inv_next _ Hinv) as Hn.
  destruct (waiter_id fut) as [id|] eqn:Hid; cbn [fst].
  - pose proof (Hi _ _ _ Hf Hid). apply register_inv; try done; try lia; [congruence|].
    intros h fut' Hh Hid'. by apply (Hj _ _ _ _ id Hh Hf).
  - rewrite u64_saturate_id by (unfold in_u64; lia).
    apply register_inv; try done; try lia; [congruence|].
    intros h fut' Hh Hid'. pose proof (Hi _ _ _ Hh Hid'). lia.
Qed.

Lemma wake_reachable_inv w : wake_reachable w → wake_inv w.
Proof.
  induction 1 as [|w w' _ IH Hstep]; [apply wake_inv_default|].
  destruct Hstep; [by apply notify_add_inv|by apply notify_take_inv|by apply wake_one_inv
    |by apply notified_since_inv|by apply poll_begin_inv|by apply poll_end_inv|by apply remove_waiter_inv].
Qed.

(** C31. No wake-up is lost, under any interleaving of notifiers and pollers.  Take a
    future whose generation has moved.  If it returned [Pending] and is not being polled, it
    is either still registered while a notifier is on its way to the waiters, or about to
    be woken, or already woken: once the notifiers are done it has been woken.  A poll that
    begins now sees the current generation and returns it; and a poll that is between its
    two checks is ready too, with a generation other than the one observed: the current
    one, if its first check saw nothing. *)
Theorem no_lost_wakeup (w : WakeState) (f : N) (fut : WakeFuture)
    (Hreach : wake_reachable w) (Hf : w.(futures) !! f = Some fut)
    (Hmoved : fut.(observed) ≠ w.(generation)) :
  match w.(polling) !! f with
  | None =>
      (∀ id, fut.(waiter_id) = Some id →
         (w.(taking) = 0%nat → w.(waking) = [] → f ∈ w.(woken)) ∧
         (w.(values) !! id = Some f → w.(taking) ≠ 0%nat)) ∧
      (poll_begin f fut w).(polling) !! f = Some (Leaving w.(generation)) ∧
      ∀ w', (poll_end f fut (Leaving w.(generation)) w').2 = Some w.(generation)
  | Some stage => ∃ g, (poll_end f fut stage w).2 = Some g ∧ g ≠ fut.(observed) ∧
      (stage = Locking → g = w.(generation))
  end.
Proof.
  destruct (wake_reachable_inv w Hreach) as [Hv Hi Hj Hp Hn Hl Hq].
  destruct (w.(polling) !! f) as [[g|]|] eqn:Hpoll.
  - destruct (Hl f g Hpoll) as (fut' & Hf' & Hg). exists g. split_and!; [done| |done]. congruence.
  - exists w.(generation). cbn. by rewrite decide_True.
  - split_and!; [|cbn; by rewrite lookup_insert_eq, decide_True|done]. intros id Hid.
    assert (Htake : w.(values) !! id = Some f → w.(taking) ≠ 0%nat).
    { intros Hin. destruct (Hv id f Hin) as (fut' & Hf' & _ & [|]); [congruence|done]. }
    split; [|done]. intros Ht Hw. destruct (Hp f fut id Hf Hid Hpoll) as [H|[H|H]]; [by apply Htake in H| |done].
    by rewrite Hw in H; set_solver.
Qed.

(** A waiter registers, then a notifier increments, takes and wakes. *)
Lemma no_lost_wakeup_witness :
  ∃ w, wake_reachable w ∧ w.(futures) !! 1%N = Some (wake_future 0 (Some 0)) ∧ 1%N ∈ w.(woken).
Proof.
  set (w0 := poll_begin 1 (wake_future 0 None) (notified_since 1 0 WakeState_default)).
  set (w1 := (poll_end 1 (wake_future 0 None) Locking w0).1).
  set (w2 := notify_take (notify_add w1)). set (w3 := wake_one 1 w2).
  assert (Hr : wake_reachable w3).
  { eapply wake_next; [|apply do_wake; apply list_elem_of_In; vm_compute; auto].
    eapply wake_next; [|by apply do_take].
    eapply wake_next; [|apply do_add].
    eapply wake_next; [|apply (do_poll_end _ 1%N (wake_future 0 None) Locking); [done|done|cbn; lia]].
    eapply wake_next; [|by apply do_poll_begin].
    eapply wake_next; [apply wake_init|by apply do_new]. }
  exists w3. split; [done|]. split; [vm_compute; reflexivity|].
  pose proof (no_lost_wakeup w3 1 (wake_future 0 (Some 0)) Hr) as H.
  assert (E : w3.(polling) !! 1%N = None) by (vm_compute; reflexivity). rewrite E in H.
  apply (proj1 (H eq_refl (ltac:(vm_compute; done))) 0 eq_refl); vm_compute; reflexivity.
Defined.
