(* ===== verification/Sql.v ===== *)
(** * Transactions over tables

    The state-and-error monad in which the stores are written, and the SQL
    statements they run.  A table is the list of its rows, a statement acts on
    every row that satisfies its [WHERE] clause, and a transaction that fails
    leaves the state it started from. *)

From stdpp Require Import base numbers list option sorting sets strings.
From S2P Require Import Prelude Text ErrorCodes.

Local Open Scope Z_scope.

(** ** The transaction monad *)

Definition M (S E A : Type) : Type := S → S * result E A.

#[export] Instance M_ret {S E} : MRet (M S E) := λ A a s, (s, Ok a).
#[export] Instance M_bind {S E} : MBind (M S E) := λ A B k m s,
  match m s with
  | (s', Ok a) => k a s'
  | (s', Err e) => (s', Err e)
  end.

Definition lift {S E A} (r : result E A) : M S E A := λ s, (s, r).
Definition throw {S E A} (e : E) : M S E A := λ s, (s, Err e).
Definition gets {S E A} (f : S → A) : M S E A := λ s, (s, Ok (f s)).
Definition modify {S E} (f : S → S) : M S E unit := λ s, (f s, Ok ()).

(** [if guard { return Err(e) }] *)
Definition throw_if {S E} (P : Prop) `{!Decision P} (e : E) : M S E unit := lift (bail_if P e).

(** [o.ok_or_else(|| e)?] *)
Definition some_or {S E A} (o : option A) (e : E) : M S E A := lift (ok_or_else o e).

(** A transaction: an early return before [commit] rolls the state back. *)
Definition transaction {S E A} (m : M S E A) : M S E A := λ s,
  match m s with
  | (s', Ok a) => (s', Ok a)
  | (_, Err e) => (s, Err e)
  end.

(** A [for] loop that collects one result per element. *)
Fixpoint for_each {S E A B} (f : A → M S E B) (l : list A) : M S E (list B) :=
  match l with
  | [] => mret []
  | x :: l => y ← f x; ys ← for_each f l; mret (y :: ys)
  end.

(** ** Successful runs *)

Section runs.
Context {S E : Type}.

Lemma bind_run {A B} (m : M S E A) (k : A → M S E B) s s' b :
  (m ≫= k) s = (s', Ok b) ↔ ∃ s1 a, m s = (s1, Ok a) ∧ k a s1 = (s', Ok b).
Proof.
  unfold mbind, M_bind. destruct (m s) as [s1 [a|e]]; split.
  - eauto.
  - intros (? & ? & [= -> ->] & ?). done.
  - done.
  - by intros (? & ? & ? & ?).
Qed.

Lemma lift_run {A} (r : result E A) (s s' : S) a : lift r s = (s', Ok a) ↔ s' = s ∧ r = Ok a.
Proof. unfold lift. split; [by intros [= -> ->]|by intros [-> ->]]. Qed.

Lemma gets_run {A} (f : S → A) (s s' : S) a :
  gets (E := E) f s = (s', Ok a) ↔ s' = s ∧ a = f s.
Proof. unfold gets. split; [by intros [= -> ->]|by intros [-> ->]]. Qed.

Lemma modify_run (f : S → S) s s' u : modify (E := E) f s = (s', Ok u) ↔ s' = f s.
Proof. unfold modify. destruct u. split; [by intros [= ->]|by intros ->]. Qed.

Lemma ret_run {A} (x : A) (s s' : S) a : mret (M := M S E) x s = (s', Ok a) ↔ s' = s ∧ a = x.
Proof. unfold mret, M_ret. split; [by intros [= -> ->]|by intros [-> ->]]. Qed.

Lemma throw_if_run (P : Prop) `{!Decision P} (e : E) (s s' : S) u :
  throw_if P e s = (s', Ok u) ↔ s' = s ∧ ¬ P.
Proof. unfold throw_if, lift, bail_if. destruct u. case_decide; naive_solver. Qed.

Lemma some_or_run {A} (o : option A) (e : E) (s s' : S) a :
  some_or o e s = (s', Ok a) ↔ s' = s ∧ o = Some a.
Proof. unfold some_or, lift, ok_or_else. destruct o; naive_solver. Qed.

Lemma throw_run {A} (e : E) (s s' : S) (a : A) : ¬ throw e s = (s', Ok a).
Proof. done. Qed.

Lemma transaction_run {A} (m : M S E A) s s' a :
  transaction m s = (s', Ok a) ↔ m s = (s', Ok a).
Proof. unfold transaction. destruct (m s) as [? [?|?]]; done. Qed.

(** A failed transaction changes nothing. *)
Lemma transaction_rollback {A} (m : M S E A) s s' e :
  transaction m s = (s', Err e) → s' = s.
Proof. unfold transaction. destruct (m s) as [? [?|?]]; naive_solver. Qed.

Lemma transaction_inv {A} (m : M S E A) (I : S → Prop) s :
  I s → (∀ s' a, m s = (s', Ok a) → I s') → I (transaction m s).1.
Proof. intros Hs Hm. unfold transaction. destruct (m s) as [s' [a|e]]; [by eapply Hm|done]. Qed.

Lemma for_each_cons_run {A B} (f : A → M S E B) x l s s' ys :
  for_each f (x :: l) s = (s', Ok ys) ↔
  ∃ s1 y ys', f x s = (s1, Ok y) ∧ for_each f l s1 = (s', Ok ys') ∧ ys = y :: ys'.
Proof.
  cbn [for_each]. rewrite bind_run. split.
  - intros (s1 & y & Hf & Hk). apply bind_run in Hk as (s2 & ys' & Hl & Hr).
    apply ret_run in Hr as [-> ->]. eauto 10.
  - intros (s1 & y & ys' & Hf & Hl & ->). exists s1, y. split; [done|].
    apply bind_run. exists s', ys'. split; [done|]. by apply ret_run.
Qed.

(** A loop keeps what its body keeps. *)
Lemma for_each_inv {A B} (I : S → Prop) (f : A → M S E B) l s s' ys :
  (∀ x s1 s2 y, x ∈ l → I s1 → f x s1 = (s2, Ok y) → I s2) →
  I s → for_each f l s = (s', Ok ys) → I s'.
Proof.
  revert s ys. induction l as [|x l IH]; intros s ys Hf Hs Hrun.
  - apply ret_run in Hrun as [-> _]. done.
  - apply for_each_cons_run in Hrun as (s1 & y & ys' & Hx & Hl & ->).
    eapply (IH s1); [|by eapply Hf; [left|..]|done]. intros z s2 s3 y' Hz. apply Hf. by right.
Qed.

Lemma for_each_length {A B} (f : A → M S E B) l s s' ys :
  for_each f l s = (s', Ok ys) → length ys = length l.
Proof.
  revert s ys. induction l as [|x l IH]; intros s ys Hrun.
  - by apply ret_run in Hrun as [_ ->].
  - apply for_each_cons_run in Hrun as (s1 & y & ys' & _ & Hl & ->). cbn. f_equal. by eapply IH.
Qed.
End runs.

(** Opens a successful run into its steps. *)
Ltac run_inv :=
  repeat match goal with
  | H : mbind _ _ _ = (_, Ok _) |- _ =>
      apply bind_run in H; let s := fresh "s" in let a := fresh "a" in let Hm := fresh "Hm" in
      destruct H as (s & a & Hm & H)
  | H : (let '_ := ?p in _) _ = (_, Ok _) |- _ => match type of p with prod _ _ =>
        first [is_var p; destruct p | let E := fresh "Hpair" in destruct p eqn:E] end
  | H : (if decide ?P then _ else _) _ = (_, Ok _) |- _ =>
      let Hd := fresh "Hd" in destruct (decide P) as [Hd|Hd]
  | H : transaction _ _ = (_, Ok _) |- _ => apply (proj1 (transaction_run _ _ _ _)) in H
  | H : lift _ _ = (_, Ok _) |- _ =>
      apply lift_run in H; let Hr := fresh "Hr" in destruct H as [-> Hr]
  | H : throw_if _ _ _ = (_, Ok _) |- _ =>
      apply throw_if_run in H; let Hg := fresh "Hg" in destruct H as [-> Hg]
  | H : some_or _ _ _ = (_, Ok _) |- _ =>
      apply some_or_run in H; let Hr := fresh "Hr" in destruct H as [-> Hr]
  | H : gets _ _ = (_, Ok ?a) |- _ =>
      apply gets_run in H; let Ha := fresh "Hgets" in destruct H as [-> Ha]
  | H : modify _ _ = (_, Ok _) |- _ => apply modify_run in H
  | H : mret _ _ = (_, Ok _) |- _ =>
      apply ret_run in H; let Ha := fresh "Hret" in destruct H as [-> Ha]
  | H : throw _ _ = (_, Ok _) |- _ => by apply throw_run in H
  end.

(** Computes the monadic structure of a run, leaving the statements alone. *)
Ltac run_simpl :=
  cbv beta iota zeta delta [mbind M_bind mret M_ret lift throw throw_if some_or gets modify
    bail_if ok_or_else transaction].

(** ** Failure atomicity

    [pure] runs never change the state, [total] runs never fail, and an [atomic] run
    that fails leaves the state it started from: a sequence of checks, then a
    transaction or one statement, then total steps. *)

Section atomicity.
Context {S E : Type}.

Definition pure {A} (m : M S E A) : Prop := ∀ s, (m s).1 = s.
Definition total {A} (m : M S E A) : Prop := ∀ s, ∃ s' a, m s = (s', Ok a).
Definition atomic {A} (m : M S E A) : Prop := ∀ s s' e, m s = (s', Err e) → s' = s.

Lemma pure_ret {A} (a : A) : pure (mret a).
Proof. done. Qed.
Lemma pure_lift {A} (r : result E A) : pure (lift r).
Proof. done. Qed.
Lemma pure_throw {A} (e : E) : pure (throw (A := A) e).
Proof. done. Qed.
Lemma pure_throw_if (P : Prop) `{!Decision P} (e : E) : pure (throw_if P e).
Proof. done. Qed.
Lemma pure_some_or {A} (o : option A) (e : E) : pure (some_or o e).
Proof. done. Qed.
Lemma pure_gets {A} (f : S → A) : pure (gets f).
Proof. done. Qed.
Lemma pure_bind {A B} (m : M S E A) (k : A → M S E B) :
  pure m → (∀ a, pure (k a)) → pure (m ≫= k).
Proof.
  intros Hm Hk s. unfold mbind, M_bind. specialize (Hm s).
  destruct (m s) as [s' [a|e]]; cbn in *; subst; [apply Hk|done].
Qed.
Lemma pure_if (P : Prop) `{!Decision P} {A} (m n : M S E A) :
  pure m → pure n → pure (if decide P then m else n).
Proof. by case_decide. Qed.

Lemma total_ret {A} (a : A) : total (mret a).
Proof. intros s. by eexists _, _. Qed.
Lemma total_gets {A} (f : S → A) : total (gets f).
Proof. intros s. by eexists _, _. Qed.
Lemma total_modify (f : S → S) : total (modify f).
Proof. intros s. by eexists _, _. Qed.
Lemma total_bind {A B} (m : M S E A) (k : A → M S E B) :
  total m → (∀ a, total (k a)) → total (m ≫= k).
Proof. intros Hm Hk s. unfold mbind, M_bind. destruct (Hm s) as (s' & a & ->). apply Hk. Qed.
Lemma total_if (P : Prop) `{!Decision P} {A} (m n : M S E A) :
  total m → total n → total (if decide P then m else n).
Proof. by case_decide. Qed.

Lemma atomic_pure {A} (m : M S E A) : pure m → atomic m.
Proof. intros Hm s s' e H. specialize (Hm s). by rewrite H in Hm. Qed.
Lemma atomic_total {A} (m : M S E A) : total m → atomic m.
Proof. intros Hm s s' e H. destruct (Hm s) as (? & ? & H'). congruence. Qed.
Lemma atomic_transaction {A} (m : M S E A) : atomic (transaction m).
Proof. intros s s' e. apply transaction_rollback. Qed.
Lemma atomic_bind_pure {A B} (m : M S E A) (k : A → M S E B) :
  pure m → (∀ a, atomic (k a)) → atomic (m ≫= k).
Proof.
  intros Hm Hk s s' e. unfold mbind, M_bind. specialize (Hm s).
  destruct (m s) as [s1 [a|e1]]; cbn in *; subst; [apply Hk|by intros [= -> _]].
Qed.
Lemma atomic_bind_total {A B} (m : M S E A) (k : A → M S E B) :
  atomic m → (∀ a, total (k a)) → atomic (m ≫= k).
Proof.
  intros Hm Hk s s' e. unfold mbind, M_bind. destruct (m s) as [s1 [a|e1]] eqn:Hs.
  - destruct (Hk a s1) as (? & ? & ->). done.
  - intros [= -> ->]. by eapply Hm.
Qed.
Lemma atomic_if (P : Prop) `{!Decision P} {A} (m n : M S E A) :
  atomic m → atomic n → atomic (if decide P then m else n).
Proof. by case_decide. Qed.
End atomicity.

Create HintDb tx discriminated.
#[export] Hint Resolve pure_ret pure_lift pure_throw pure_throw_if pure_some_or pure_gets
  pure_bind pure_if total_ret total_gets total_modify total_bind total_if atomic_transaction
  atomic_if : tx.
#[export] Hint Resolve atomic_pure | 5 : tx.
#[export] Hint Resolve atomic_total | 6 : tx.
#[export] Hint Resolve atomic_bind_pure | 3 : tx.
#[export] Hint Resolve atomic_bind_total | 4 : tx.

(** ** Statements *)

Section statements.
Context {A : Type}.

Definition sql_where (P : A → Prop) `{!∀ x, Decision (P x)} (rows : list A) : list A :=
  filter P rows.
Definition sql_update (P : A → Prop) `{!∀ x, Decision (P x)} (f : A → A) (rows : list A) : list A :=
  (λ x, if decide (P x) then f x else x) <$> rows.
Definition sql_delete (P : A → Prop) `{!∀ x, Decision (P x)} (rows : list A) : list A :=
  filter (λ x, ¬ P x) rows.

(** The number of rows a [WHERE] clause selects: what [COUNT] returns and how many
    rows an [UPDATE] or [DELETE] affects. *)
Definition affected (P : A → Prop) `{!∀ x, Decision (P x)} (rows : list A) : Z :=
  Z.of_nat (length (filter P rows)).

(** [MIN], [MAX] and [SUM] of a column. *)
Definition sql_min (f : A → Z) (rows : list A) : option Z :=
  match rows with
  | [] => None
  | x :: rows => Some (foldr (λ y m, Z.min (f y) m) (f x) rows)
  end.
Definition sql_sum (f : A → Z) (rows : list A) : Z := foldr (λ x n, f x + n) 0 rows.

(** [query_row(..).optional()] on a unique key *)
Definition sql_find (P : A → Prop) `{!∀ x, Decision (P x)} (rows : list A) : option A :=
  snd <$> list_find P rows.
End statements.

(** Lexicographic order on the columns of an [ORDER BY]. *)
Fixpoint lex_le (a b : list Z) : Prop :=
  match a, b with
  | [], _ => True
  | _ :: _, [] => False
  | x :: a, y :: b => x < y ∨ (x = y ∧ lex_le a b)
  end.
#[export] Instance lex_le_dec : RelDecision lex_le.
Proof.
  refine (fix go a b := match a, b return Decision (lex_le a b) with
    | [], _ => left I
    | _ :: _, [] => right (λ H : False, H)
    | x :: a, y :: b =>
        @or_dec _ (Z.lt_dec x y) _ (@and_dec _ (Z.eq_dec x y) _ (go a b)) end).
Defined.

Definition by_columns {A} (f : A → list Z) (x y : A) : Prop := lex_le (f x) (f y).
#[export] Instance by_columns_dec {A} (f : A → list Z) : RelDecision (by_columns f).
Proof. intros x y. unfold by_columns. apply _. Defined.

Definition order_by {A} (f : A → list Z) (rows : list A) : list A := merge_sort (by_columns f) rows.

(** ** Lemmas on statements *)

Lemma sql_sum_app {A} (f : A → Z) l l' : sql_sum f (l ++ l') = sql_sum f l + sql_sum f l'.
Proof. unfold sql_sum. induction l as [|x l IH]; cbn; [done|]. rewrite IH. lia. Qed.

Lemma lex_le_refl a : lex_le a a.
Proof. induction a; cbn; auto. Qed.

Lemma lex_le_trans a b c : lex_le a b → lex_le b c → lex_le a c.
Proof.
  revert b c. induction a as [|x a IH]; intros [|y b] [|z c]; cbn; try tauto.
  intros [?|[-> ?]] [?|[-> ?]]; [left; lia..|]. right. eauto.
Qed.

Lemma lex_le_total a b : lex_le a b ∨ lex_le b a.
Proof.
  revert b. induction a as [|x a IH]; intros [|y b]; cbn; auto.
  destruct (IH b), (Z.lt_trichotomy x y) as [?|[?|?]]; auto.
Qed.

#[export] Instance by_columns_trans {A} (f : A → list Z) : Transitive (by_columns f).
Proof. intros x y z. apply lex_le_trans. Qed.
#[export] Instance by_columns_total {A} (f : A → list Z) : Total (by_columns f).
Proof. intros x y. apply lex_le_total. Qed.

Lemma order_by_Permutation {A} (f : A → list Z) rows : order_by f rows ≡ₚ rows.
Proof. apply merge_sort_Permutation. Qed.

Lemma order_by_sorted {A} (f : A → list Z) rows : StronglySorted (by_columns f) (order_by f rows).
Proof. apply StronglySorted_merge_sort; apply _. Qed.

Lemma elem_of_order_by {A} (f : A → list Z) rows x : x ∈ order_by f rows ↔ x ∈ rows.
Proof. by rewrite order_by_Permutation. Qed.

Lemma lex_le_antisymm a b : lex_le a b → lex_le b a → a = b.
Proof.
  revert b. induction a as [|x a IH]; intros [|y b]; cbn; try tauto.
  intros [?|[-> ?]] [?|[? ?]]; [lia..|]. f_equal. auto.
Qed.

(** Columns that tell the rows apart determine the order of the result. *)
Lemma order_by_unique {A} (f : A → list Z) rows rows' :
  rows ≡ₚ rows' → (∀ x y, x ∈ rows → y ∈ rows → f x = f y → x = y) → order_by f rows = order_by f rows'.
Proof.
  intros Hp Hf. apply (StronglySorted_unique_strong (by_columns f)); [|apply order_by_sorted..|].
  - intros x y. rewrite !elem_of_order_by, <-Hp. intros Hx Hy Hxy Hyx. apply Hf; [done..|]. by apply lex_le_antisymm.
  - by rewrite !order_by_Permutation.
Qed.

(** What [LIMIT] keeps of a sorted result comes before what it cuts. *)
Lemma sorted_take_drop {A} (R : A → A → Prop) n l x y :
  StronglySorted R l → x ∈ take n l → y ∈ drop n l → R x y.
Proof.
  intros Hs. revert n. induction Hs as [|z l Hs IH Hz]; intros n.
  { rewrite take_nil. set_solver. }
  destruct n as [|n]; [cbn; set_solver|]. cbn [take drop].
  intros [->|Hx]%elem_of_cons Hy; [|by eapply IH].
  rewrite Forall_forall in Hz. apply Hz. rewrite <-(take_drop n l). apply elem_of_app. by right.
Qed.

Lemma elem_of_take {A} (n : nat) (l : list A) x : x ∈ take n l → x ∈ l.
Proof. intros Hx. rewrite <-(take_drop n l). apply elem_of_app. by left. Qed.

Section statement_lemmas.
Context {A : Type} (P : A → Prop) {Pdec : ∀ x, Decision (P x)}.

Lemma elem_of_sql_update f rows x :
  x ∈ sql_update P f rows ↔ ∃ y, y ∈ rows ∧ x = if decide (P y) then f y else y.
Proof. unfold sql_update. rewrite list_elem_of_fmap. naive_solver. Qed.

Lemma elem_of_sql_delete rows x : x ∈ sql_delete P rows ↔ x ∈ rows ∧ ¬ P x.
Proof. unfold sql_delete. rewrite list_elem_of_filter. tauto. Qed.

Lemma sql_update_nil f : sql_update P f [] = [].
Proof. done. Qed.
Lemma sql_update_cons f x rows :
  sql_update P f (x :: rows) = (if decide (P x) then f x else x) :: sql_update P f rows.
Proof. done. Qed.

Lemma sql_update_column {B} (g : A → B) f rows :
  (∀ x, P x → g (f x) = g x) → g <$> sql_update P f rows = g <$> rows.
Proof.
  intros Hg. unfold sql_update. rewrite <-list_fmap_compose. apply list_fmap_ext.
  intros i x _. cbn. case_decide; auto.
Qed.

Lemma Forall_sql_update (Q : A → Prop) f rows :
  (∀ x, Q x → P x → Q (f x)) → Forall Q rows → Forall Q (sql_update P f rows).
Proof. intros Hf. induction 1; cbn; constructor; [|done]. case_decide; auto. Qed.

Lemma Forall_sql_delete (Q : A → Prop) rows : Forall Q rows → Forall Q (sql_delete P rows).
Proof. intros H. apply Forall_forall. intros x [Hx _]%elem_of_sql_delete. by eapply Forall_forall in H. Qed.

Lemma affected_nonneg rows : 0 ≤ affected P rows.
Proof. unfold affected. lia. Qed.

Lemma affected_nil : affected P [] = 0.
Proof. done. Qed.
Lemma affected_cons x rows : affected P (x :: rows) = (if decide (P x) then 1 else 0) + affected P rows.
Proof. unfold affected. rewrite filter_cons. case_decide; cbn [length]; lia. Qed.
Lemma affected_app rows rows' : affected P (rows ++ rows') = affected P rows + affected P rows'.
Proof. induction rows as [|x rows IH]; [done|]. cbn [app]. rewrite !affected_cons, IH. lia. Qed.
Lemma affected_Permutation rows rows' : rows ≡ₚ rows' → affected P rows = affected P rows'.
Proof. induction 1; rewrite ?affected_cons; lia. Qed.
Lemma affected_0 rows : affected P rows = 0 ↔ ∀ x, x ∈ rows → ¬ P x.
Proof.
  induction rows as [|x rows IH]; [by split; [set_solver|]|].
  rewrite affected_cons. pose proof (affected_nonneg rows) as Hnn. split.
  - intros H y [->|Hy]%elem_of_cons; case_decide; try lia; [done|..]; apply IH; (lia || done).
  - intros H. rewrite decide_False by (apply H; left). apply IH. intros y Hy. apply H. by right.
Qed.

(** On a unique column, a row that matches is the only one. *)
Lemma affected_unique {B} (g : A → B) rows x :
  NoDup (g <$> rows) → x ∈ rows → P x → (∀ y, y ∈ rows → P y → g y = g x) → affected P rows = 1.
Proof.
  intros Hnd Hx HP Huniq. induction rows as [|y rows IH]; [set_solver|].
  rewrite fmap_cons in Hnd. apply NoDup_cons in Hnd as [Hy Hnd]. rewrite affected_cons.
  apply elem_of_cons in Hx as [->|Hx].
  - rewrite decide_True by done.
    enough (affected P rows = 0) by lia. apply affected_0. intros z Hz HPz. apply Hy.
    rewrite <-(Huniq z) by (by right || done). by apply list_elem_of_fmap_2.
  - rewrite decide_False.
    + rewrite IH; [done|done|done|]. intros z Hz. apply Huniq. by right.
    + intros HPy. apply Hy. rewrite (Huniq y) by (by left || done). by apply list_elem_of_fmap_2.
Qed.

Lemma sql_find_Some rows x : sql_find P rows = Some x → x ∈ rows ∧ P x.
Proof.
  unfold sql_find. rewrite fmap_Some. intros ([i y] & Hf & ->).
  apply list_find_Some in Hf as (Hl & HP & _). split; [by eapply list_elem_of_lookup_2|done].
Qed.

Lemma sql_find_None rows : sql_find P rows = None ↔ ∀ x, x ∈ rows → ¬ P x.
Proof. unfold sql_find. rewrite fmap_None, list_find_None, Forall_forall. done. Qed.

Lemma sql_find_unique {B} (g : A → B) rows x :
  NoDup (g <$> rows) → x ∈ rows → P x → (∀ y, y ∈ rows → P y → g y = g x) →
  sql_find P rows = Some x.
Proof.
  intros Hnd Hx HP Huniq. destruct (sql_find P rows) as [y|] eqn:Hf.
  - apply sql_find_Some in Hf as [Hy HPy]. f_equal.
    specialize (Huniq y Hy HPy).
    apply list_elem_of_lookup in Hx as [i Hi]. apply list_elem_of_lookup in Hy as [j Hj].
    assert (i = j) as ->.
    { eapply NoDup_lookup; [done| |].
      - rewrite list_lookup_fmap, Hi. done.
      - rewrite list_lookup_fmap, Hj. cbn. by rewrite Huniq. }
    congruence.
  - rewrite sql_find_None in Hf. by destruct (Hf x).
Qed.
End statement_lemmas.

Lemma sql_where_ext {A} (P Q : A → Prop) `{!∀ x, Decision (P x)} `{!∀ x, Decision (Q x)} rows :
  (∀ x, x ∈ rows → (P x ↔ Q x)) → sql_where P rows = sql_where Q rows.
Proof.
  intros HPQ. unfold sql_where. induction rows as [|x rows IH]; [done|]. rewrite !filter_cons.
  rewrite IH by (intros y Hy; apply HPQ; by right). specialize (HPQ x (list_elem_of_here _ _)).
  destruct (decide (P x)), (decide (Q x)); tauto.
Qed.

Lemma NoDup_sql_delete {A B} (P : A → Prop) `{!∀ x, Decision (P x)} (g : A → B) rows :
  NoDup (g <$> rows) → NoDup (g <$> sql_delete P rows).
Proof.
  intros Hnd. eapply sublist_NoDup; [done|]. apply fmap_sublist, sublist_filter.
Qed.

(** A unique column identifies its row. *)
Lemma NoDup_fmap_inj_elem {A B} (g : A → B) rows x y :
  NoDup (g <$> rows) → x ∈ rows → y ∈ rows → g x = g y → x = y.
Proof.
  intros Hnd Hx Hy Heq.
  apply list_elem_of_lookup in Hx as [i Hi]. apply list_elem_of_lookup in Hy as [j Hj].
  assert (i = j) as ->; [|congruence].
  eapply NoDup_lookup; [done| |]; rewrite list_lookup_fmap.
  - by rewrite Hi.
  - rewrite Hj. cbn. by rewrite Heq.
Qed.

(** ** Store errors and tokens

    [crates/storage/src/scheduler/helpers.rs]: the stable errors of the scheduler
    database and the validation of an authority token.  Every statement that
    SQLite refuses for a constraint or a trigger becomes [unavailable]. *)

Definition invalid : PlatformError :=
  platform_error SchedulerInternalProtocolError "scheduler projection input is invalid".
Definition corrupt : PlatformError :=
  platform_error SchedulerCorrupt "scheduler database integrity validation failed".
Definition unavailable : PlatformError :=
  platform_error SchedulerUnavailable "scheduler database operation failed".

Definition validate_token (token : ustr) : result PlatformError unit :=
  bail_if (¬ (16 ≤ str_len token ≤ 128) ∨
           Exists (λ c, is_ascii_control c ∨ is_ascii_whitespace c) token) invalid.

(** The [length(row_token) BETWEEN 16 AND 128] constraint counts characters. *)
Definition token_fits (token : ustr) : Prop := 16 ≤ Z.of_nat (length token) ≤ 128.
#[export] Instance token_fits_dec token : Decision (token_fits token).
Proof. unfold token_fits. apply _. Defined.

(** Runs a statement that a constraint or a trigger may abort, which [map_sql_error]
    reports. *)
Definition statement {S A} (f : S → option (S * A)) : M S PlatformError A := λ s,
  match f s with
  | Some (s', a) => (s', Ok a)
  | None => (s, Err unavailable)
  end.

Lemma statement_run {S A} (f : S → option (S * A)) s s' a :
  statement f s = (s', Ok a) ↔ f s = Some (s', a).
Proof. unfold statement. destruct (f s) as [[??]|]; naive_solver. Qed.

Lemma atomic_statement {S A} (f : S → option (S * A)) : atomic (statement f).
Proof. intros s s' e. unfold statement. destruct (f s) as [[??]|]; naive_solver. Qed.
#[export] Hint Resolve atomic_statement : tx.
