(* ===== verification/AlarmStore.v ===== *)
(** * The alarm projection store

    [crates/storage/src/scheduler.rs] and [scheduler/summary.rs]: the
    [scheduled_jobs] table, one row per object generation with an alarm, claimed
    by the scheduler and fenced by the authority's row token.  Identifiers are
    numbers (a version-7 UUID orders as its 128-bit value); the UUID of a new row
    is an argument.  Mutex poisoning and I/O failures are not modelled. *)

From stdpp Require Import base numbers list option strings sorting sets.
From S2P Require Import Prelude Text ErrorCodes Scheduler Sql.

Local Open Scope Z_scope.

(** ** Data *)

Record AlarmProjection := alarm_projection {
  p_namespace : N;
  p_object : N;
  p_object_generation : Z;
  p_row_token : ustr;
  p_due_at_ms : Z;
  p_target_version : N;
  p_execution_generation : Z;
  p_retry_count : Z;
}.

Inductive JobState : Type := Scheduled | Claimed | Discarding.
#[export] Instance JobState_eq_dec : EqDecision JobState.
Proof. solve_decision. Defined.

(** A row of [scheduled_jobs]. *)
Record Job := job {
  job_id : N;
  namespace_resource_id : N;
  object_id : N;
  object_generation : Z;
  row_token : ustr;
  due_at_ms : Z;
  target_version_id : N;
  execution_generation : Z;
  job_state : JobState;
  retry_count : Z;
  last_error_code : option string;
  created_at_ms : Z;
  updated_at_ms : Z;
}.

Record ClaimedJob := claimed_job {
  c_id : N;
  c_namespace : N;
  c_object : N;
  c_object_generation : Z;
  c_row_token : ustr;
  c_due_at_ms : Z;
  c_target_version : N;
  c_execution_generation : Z;
  c_retry_count : Z;
}.

Inductive ClaimResult : Type :=
| Delete
| Reschedule (due_at_ms retry_count : Z) (last_error_code : option string)
| MarkDiscarding (last_error_code : string).

(** The table and the wake generation its writers publish. *)
Record AlarmStore := alarm_store { jobs : list Job; wake : Z }.

(** [SchedulerWakeSignal::notify] *)
Definition notify (s : AlarmStore) : AlarmStore := alarm_store s.(jobs) (u64_wrap (s.(wake) + 1)).
Definition set_jobs (rows : list Job) (s : AlarmStore) : AlarmStore := alarm_store rows s.(wake).
Definition with_state (st : JobState) (now : Z) (j : Job) : Job :=
  job j.(job_id) j.(namespace_resource_id) j.(object_id) j.(object_generation) j.(row_token)
    j.(due_at_ms) j.(target_version_id) j.(execution_generation) st j.(retry_count)
    j.(last_error_code) j.(created_at_ms) now.

(** ** Operations *)

Definition validate_projection (p : AlarmProjection) : result PlatformError unit :=
  _ ← validate_token p.(p_row_token);
  bail_if (p.(p_object_generation) = 0 ∨ p.(p_due_at_ms) ≤ 0 ∨ p.(p_retry_count) > 6) invalid.

Definition same_object (ns obj : N) (gen : Z) (j : Job) : Prop :=
  j.(namespace_resource_id) = ns ∧ j.(object_id) = obj ∧ j.(object_generation) = gen.
#[export] Instance same_object_dec ns obj gen j : Decision (same_object ns obj gen j).
Proof. unfold same_object. apply _. Defined.

(** [INSERT .. ON CONFLICT(namespace_resource_id, object_id, object_generation) DO
    UPDATE], with the table's [CHECK]s. *)
Definition upsert_alarm (uuid : N) (p : AlarmProjection) (now_ms : Z) :
    M AlarmStore PlatformError unit :=
  _ ← lift (validate_projection p);
  gen ← some_or (i64_checked p.(p_object_generation)) invalid;
  exec_gen ← some_or (i64_checked p.(p_execution_generation)) invalid;
  _ ← throw_if (¬ token_fits p.(p_row_token)) unavailable;
  rows ← gets jobs;
  let same := same_object p.(p_namespace) p.(p_object) gen in
  _ ← (if decide (Exists same rows) then
         modify (set_jobs (sql_update same (λ j,
           job j.(job_id) j.(namespace_resource_id) j.(object_id) j.(object_generation)
             p.(p_row_token) p.(p_due_at_ms) p.(p_target_version) exec_gen Scheduled
             p.(p_retry_count) None j.(created_at_ms) now_ms) rows))
       else
         _ ← throw_if (uuid ∈ job_id <$> rows) unavailable;
         modify (set_jobs (rows ++
           [job uuid p.(p_namespace) p.(p_object) gen p.(p_row_token) p.(p_due_at_ms)
              p.(p_target_version) exec_gen Scheduled p.(p_retry_count) None now_ms now_ms])));
  modify notify.

Definition delete_alarm_exact (ns obj : N) (gen : Z) (token : ustr) :
    M AlarmStore PlatformError bool :=
  _ ← lift (validate_token token);
  gen ← some_or (i64_checked gen) invalid;
  rows ← gets jobs;
  let hit := λ j, same_object ns obj gen j ∧ j.(row_token) = token in
  let n := affected hit rows in
  _ ← modify (set_jobs (sql_delete hit rows));
  _ ← (if decide (n > 0) then modify notify else mret ());
  mret (bool_decide (n = 1)).

Definition delete_object (ns obj : N) (gen : Z) : M AlarmStore PlatformError Z :=
  gen ← some_or (i64_checked gen) invalid;
  rows ← gets jobs;
  let n := affected (same_object ns obj gen) rows in
  _ ← modify (set_jobs (sql_delete (same_object ns obj gen) rows));
  _ ← (if decide (n > 0) then modify notify else mret ());
  mret n.

(** [read_claimed]: a negative column does not convert to its unsigned type. *)
Definition read_claimed (id : N) : M AlarmStore PlatformError ClaimedJob :=
  rows ← gets jobs;
  j ← some_or (sql_find (λ j, j.(job_id) = id ∧ j.(job_state) = Claimed) rows) unavailable;
  _ ← throw_if (j.(object_generation) < 0 ∨ j.(execution_generation) < 0 ∨
                ¬ (0 ≤ j.(retry_count) ≤ 255)) unavailable;
  mret (claimed_job j.(job_id) j.(namespace_resource_id) j.(object_id) j.(object_generation)
          j.(row_token) j.(due_at_ms) j.(target_version_id) j.(execution_generation)
          j.(retry_count)).

Definition due (now_ms : Z) (j : Job) : Prop := j.(job_state) = Scheduled ∧ j.(due_at_ms) ≤ now_ms.
#[export] Instance due_dec now_ms j : Decision (due now_ms j).
Proof. unfold due. apply _. Defined.

(** [SELECT id .. ORDER BY due_at_ms, id LIMIT batch] *)
Definition due_candidates (now_ms batch : Z) (rows : list Job) : list Job :=
  take (Z.to_nat batch)
    (order_by (λ j, [j.(due_at_ms); Z.of_N j.(job_id)]) (sql_where (due now_ms) rows)).

Definition claim_one (now_ms : Z) (id : N) : M AlarmStore PlatformError ClaimedJob :=
  rows ← gets jobs;
  let hit := λ j, j.(job_id) = id ∧ due now_ms j in
  let n := affected hit rows in
  _ ← modify (set_jobs (sql_update hit (with_state Claimed now_ms) rows));
  _ ← throw_if (n ≠ 1) corrupt;
  read_claimed id.

Definition claim_due (now_ms batch : Z) : M AlarmStore PlatformError (list ClaimedJob) :=
  _ ← throw_if (batch = 0) invalid;
  transaction (
    rows ← gets jobs;
    for_each (claim_one now_ms) (job_id <$> due_candidates now_ms batch rows)).

(** The live claim of a job: [id = ?, state = .., row_token = ?] *)
Definition held (st : JobState) (c : ClaimedJob) (j : Job) : Prop :=
  j.(job_id) = c.(c_id) ∧ j.(job_state) = st ∧ j.(row_token) = c.(c_row_token).
#[export] Instance held_dec st c j : Decision (held st c j).
Proof. unfold held. apply _. Defined.

(** One conditional statement on the live claim, a notification when it matched. *)
Definition on_held (st : JobState) (c : ClaimedJob) (f : list Job → list Job) :
    M AlarmStore PlatformError bool :=
  rows ← gets jobs;
  let n := affected (held st c) rows in
  _ ← modify (set_jobs (f rows));
  _ ← (if decide (n > 0) then modify notify else mret ());
  mret (bool_decide (n = 1)).

Definition finish_claim (c : ClaimedJob) (result : ClaimResult) (now_ms : Z) :
    M AlarmStore PlatformError bool :=
  match result with
  | Delete => on_held Claimed c (sql_delete (held Claimed c))
  | Reschedule due retry error =>
      _ ← throw_if (due ≤ 0 ∨ retry > 6) invalid;
      on_held Claimed c (sql_update (held Claimed c) (λ j,
        job j.(job_id) j.(namespace_resource_id) j.(object_id) j.(object_generation)
          j.(row_token) due j.(target_version_id) j.(execution_generation) Scheduled
          retry error j.(created_at_ms) now_ms))
  | MarkDiscarding error =>
      on_held Claimed c (sql_update (held Claimed c) (λ j,
        job j.(job_id) j.(namespace_resource_id) j.(object_id) j.(object_generation)
          j.(row_token) j.(due_at_ms) j.(target_version_id) j.(execution_generation) Discarding
          j.(retry_count) (Some error) j.(created_at_ms) now_ms))
  end.

Definition retarget_claim (c : ClaimedJob) (version : N) (exec_gen now_ms : Z) :
    M AlarmStore PlatformError bool :=
  exec_gen ← some_or (i64_checked exec_gen) invalid;
  on_held Claimed c (sql_update (held Claimed c) (λ j,
    job j.(job_id) j.(namespace_resource_id) j.(object_id) j.(object_generation)
      j.(row_token) j.(due_at_ms) version exec_gen j.(job_state)
      j.(retry_count) j.(last_error_code) j.(created_at_ms) now_ms)).

Definition finish_discarding (c : ClaimedJob) : M AlarmStore PlatformError bool :=
  on_held Discarding c (sql_delete (held Discarding c)).

(** The first statement of [reset_claims.sql]. *)
Definition reset_job_claims (now_ms : Z) (rows : list Job) : list Job :=
  sql_update (λ j, j.(job_state) = Claimed) (with_state Scheduled now_ms) rows.

Definition workload_summary_connection (now_ms : Z) (rows : list Job) : WorkloadSummary :=
  let oldest := sql_min due_at_ms (sql_where (λ j, j.(job_state) = Scheduled) rows) in
  workload_summary (affected (due now_ms) rows)
    (affected (λ j, j.(job_state) = Claimed) rows) 0 oldest oldest.

Record SchedulerSummary := scheduler_summary {
  scheduled : Z;
  s_claimed : Z;
  discarding : Z;
  s_oldest_due_at_ms : option Z;
}.

Definition summary_connection (rows : list Job) : SchedulerSummary :=
  scheduler_summary (affected (λ j, j.(job_state) = Scheduled) rows)
    (affected (λ j, j.(job_state) = Claimed) rows)
    (affected (λ j, j.(job_state) = Discarding) rows)
    (sql_min due_at_ms (sql_where (λ j, j.(job_state) = Scheduled) rows)).

(** ** The table invariant *)

Definition object_key (j : Job) : N * N * Z :=
  (j.(namespace_resource_id), j.(object_id), j.(object_generation)).

(** What the [CHECK]s promise of a row. *)
Definition job_ok (j : Job) : Prop :=
  1 ≤ j.(object_generation) ∧ 0 < j.(due_at_ms) ∧ 0 ≤ j.(execution_generation) ∧
  0 ≤ j.(retry_count) ≤ 6 ∧ token_fits j.(row_token).

Definition alarm_wf (rows : list Job) : Prop :=
  NoDup (job_id <$> rows) ∧ NoDup (object_key <$> rows) ∧ Forall job_ok rows.

(** The range of the unsigned fields of a projection. *)
Definition projection_typed (p : AlarmProjection) : Prop :=
  0 ≤ p.(p_object_generation) ∧ 0 ≤ p.(p_execution_generation) ∧ 0 ≤ p.(p_retry_count).

Lemma alarm_wf_update P `{!∀ j, Decision (P j)} f rows :
  (∀ j, P j → (f j).(job_id) = j.(job_id) ∧ object_key (f j) = object_key j) →
  (∀ j, job_ok j → P j → job_ok (f j)) → alarm_wf rows → alarm_wf (sql_update P f rows).
Proof.
  intros Hid Hok (Hnd & Hkey & Hall). split_and!.
  - rewrite sql_update_column; [done|]. intros j Hj. by apply Hid.
  - rewrite sql_update_column; [done|]. intros j Hj. by apply Hid.
  - by apply Forall_sql_update.
Qed.

Lemma alarm_wf_delete P `{!∀ j, Decision (P j)} rows : alarm_wf rows → alarm_wf (sql_delete P rows).
Proof.
  intros (Hnd & Hkey & Hall). split_and!;
    [by apply NoDup_sql_delete..|by apply Forall_sql_delete].
Qed.

(** A row with the key of [j] is [j]. *)
Lemma alarm_wf_id_unique rows j j' :
  alarm_wf rows → j ∈ rows → j' ∈ rows → j.(job_id) = j'.(job_id) → j = j'.
Proof.
  intros (Hnd & _). by apply NoDup_fmap_inj_elem.
Qed.

(** ** Claims *)

Definition to_claimed (j : Job) : ClaimedJob :=
  claimed_job j.(job_id) j.(namespace_resource_id) j.(object_id) j.(object_generation)
    j.(row_token) j.(due_at_ms) j.(target_version_id) j.(execution_generation) j.(retry_count).

Lemma with_state_wf P `{!∀ j, Decision (P j)} st now rows :
  alarm_wf rows → alarm_wf (sql_update P (with_state st now) rows).
Proof. by apply alarm_wf_update. Qed.

Lemma claim_one_run now j s :
  alarm_wf s.(jobs) → j ∈ s.(jobs) → due now j →
  claim_one now j.(job_id) s =
    (set_jobs (sql_update (λ x, x.(job_id) = j.(job_id) ∧ due now x) (with_state Claimed now)
                 s.(jobs)) s, Ok (to_claimed j)).
Proof.
  intros Hwf Hj Hdue. unfold claim_one, gets, mbind, M_bind, modify, throw_if, lift, bail_if.
  cbn beta iota.
  set (hit := λ x, x.(job_id) = j.(job_id) ∧ due now x).
  assert (Hone : affected hit s.(jobs) = 1).
  { apply (affected_unique _ job_id _ j); [by destruct Hwf|done|done|]. by intros y _ [? _]. }
  rewrite Hone. cbn beta iota. rewrite decide_False by lia.
  unfold read_claimed, gets, mbind, M_bind. cbn beta iota.
  set (rows := sql_update hit (with_state Claimed now) s.(jobs)).
  assert (Hin : with_state Claimed now j ∈ rows).
  { apply elem_of_sql_update. exists j. split; [done|]. by rewrite decide_True. }
  assert (Hwf' : alarm_wf rows) by (by apply with_state_wf).
  cbn [jobs set_jobs].
  rewrite (sql_find_unique _ job_id rows (with_state Claimed now j));
    [|by destruct Hwf'|done|done|by intros y _ [? _]].
  unfold some_or, lift, ok_or_else, throw_if, bail_if. rewrite decide_False; [done|].
  destruct Hwf' as (_ & _ & Hall). rewrite Forall_forall in Hall.
  destruct (Hall _ Hin) as (? & ? & ? & ? & _). lia.
Qed.

Lemma claim_update_compose now j js rows :
  j.(job_id) ∉ job_id <$> js →
  sql_update (λ x, x.(job_id) ∈ job_id <$> js ∧ due now x) (with_state Claimed now)
    (sql_update (λ x, x.(job_id) = j.(job_id) ∧ due now x) (with_state Claimed now) rows) =
  sql_update (λ x, x.(job_id) ∈ job_id <$> (j :: js) ∧ due now x) (with_state Claimed now) rows.
Proof.
  intros Hj. unfold sql_update. rewrite <-list_fmap_compose. apply list_fmap_ext.
  intros _ x _. cbn [compose fmap list_fmap].
  destruct (decide (x.(job_id) = j.(job_id) ∧ due now x)) as [[Hx Hd]|Hn].
  - rewrite decide_False by (intros [_ [H _]]; done).
    rewrite decide_True; [done|]. split; [rewrite Hx; left|done].
  - destruct (decide (x.(job_id) ∈ job_id <$> js ∧ due now x)) as [[Hx Hd]|Hn'].
    + rewrite decide_True; [done|]. split; [by right|done].
    + rewrite decide_False; [done|]. intros [[Hx|Hx]%elem_of_cons Hd]; tauto.
Qed.

Lemma claim_loop_run now js s :
  alarm_wf s.(jobs) → NoDup (job_id <$> js) → (∀ j, j ∈ js → j ∈ s.(jobs) ∧ due now j) →
  for_each (claim_one now) (job_id <$> js) s =
    (set_jobs (sql_update (λ x, x.(job_id) ∈ job_id <$> js ∧ due now x) (with_state Claimed now)
                 s.(jobs)) s, Ok (to_claimed <$> js)).
Proof.
  revert s. induction js as [|j js IH]; intros s Hwf Hnd Hin.
  { cbn. unfold mret, M_ret. f_equal. destruct s as [rows w]. unfold set_jobs. cbn. f_equal.
    unfold sql_update. rewrite <-(list_fmap_id rows) at 1. apply list_fmap_ext.
    intros _ x _. rewrite decide_False; [done|]. intros [Hx _]. by apply not_elem_of_nil in Hx. }
  rewrite fmap_cons in Hnd. apply NoDup_cons in Hnd as [Hj Hnd].
  rewrite fmap_cons. cbn [for_each]. unfold mbind, M_bind.
  destruct (Hin j) as [Hjin Hdue]; [left|]. rewrite claim_one_run by done.
  rewrite IH; [|by apply with_state_wf|done|].
  - unfold mret, M_ret. cbn [jobs set_jobs]. rewrite claim_update_compose by done. done.
  - intros x Hx. destruct (Hin x) as [Hxin Hxd]; [by right|]. split; [|done].
    cbn [jobs set_jobs]. apply elem_of_sql_update. exists x. split; [done|].
    rewrite decide_False; [done|]. intros [Heq _]. apply Hj. rewrite <-Heq.
    by apply list_elem_of_fmap_2.
Qed.

Lemma due_candidates_spec now batch rows j :
  j ∈ due_candidates now batch rows → j ∈ rows ∧ due now j.
Proof.
  intros Hj%elem_of_take. apply elem_of_order_by in Hj. unfold sql_where in Hj.
  apply list_elem_of_filter in Hj. tauto.
Qed.

Lemma due_candidates_NoDup now batch rows :
  NoDup (job_id <$> rows) → NoDup (job_id <$> due_candidates now batch rows).
Proof.
  intros Hnd. eapply sublist_NoDup; [|apply fmap_sublist, sublist_take].
  rewrite order_by_Permutation. eapply sublist_NoDup; [done|]. apply fmap_sublist, sublist_filter.
Qed.

Lemma claim_due_run now batch s :
  alarm_wf s.(jobs) → batch ≠ 0 →
  let js := due_candidates now batch s.(jobs) in
  claim_due now batch s =
    (set_jobs (sql_update (λ x, x.(job_id) ∈ job_id <$> js ∧ due now x) (with_state Claimed now)
                 s.(jobs)) s, Ok (to_claimed <$> js)).
Proof.
  intros Hwf Hb js. unfold claim_due, mbind, M_bind, throw_if, lift, bail_if.
  rewrite decide_False by done. unfold transaction, gets. cbn beta iota.
  rewrite claim_loop_run; [done|done|apply due_candidates_NoDup; by destruct Hwf|].
  intros j. apply due_candidates_spec.
Qed.

Definition due_order : Job → Job → Prop := by_columns (λ j, [j.(due_at_ms); Z.of_N j.(job_id)]).

Lemma due_candidates_length now batch rows :
  0 ≤ batch →
  Z.of_nat (length (due_candidates now batch rows)) = Z.min batch (affected (due now) rows).
Proof.
  intros Hb. unfold due_candidates. rewrite length_take, order_by_Permutation.
  unfold affected, sql_where. lia.
Qed.

Lemma due_candidates_earliest now batch rows j j' :
  j ∈ due_candidates now batch rows → j' ∈ rows → due now j' →
  j' ∉ due_candidates now batch rows → due_order j j'.
Proof.
  intros Hj Hj' Hdue Hnot. eapply sorted_take_drop; [apply order_by_sorted|done|].
  assert (Hin : j' ∈ order_by (λ j, [j.(due_at_ms); Z.of_N j.(job_id)]) (sql_where (due now) rows)).
  { apply elem_of_order_by, list_elem_of_filter. done. }
  rewrite <-(take_drop (Z.to_nat batch)) in Hin. apply elem_of_app in Hin as [Hin|Hin]; done.
Qed.

(** Claiming is total, bounded, earliest-deadline-first and exclusive.  On every
    well-formed table [claim_due] succeeds and returns exactly
    [min batch (number of due rows)] jobs; each was scheduled and due and is now
    claimed; no due row left behind orders before a claimed one; every other row is
    untouched; and no later claim, at any time, returns a job of this one while the
    claim stands. *)
Theorem claim_due_exact (now batch : Z) (s : AlarmStore)
    (Hwf : alarm_wf s.(jobs)) (Hbatch : 1 ≤ batch) :
  ∃ js s', claim_due now batch s = (s', Ok (to_claimed <$> js)) ∧
    Z.of_nat (length js) = Z.min batch (affected (due now) s.(jobs)) ∧
    (∀ j, j ∈ js → j ∈ s.(jobs) ∧ due now j ∧ with_state Claimed now j ∈ s'.(jobs)) ∧
    (∀ j j', j ∈ js → j' ∈ s.(jobs) → due now j' → j' ∉ js → due_order j j') ∧
    (∀ j, j ∈ s.(jobs) → j ∉ js → j ∈ s'.(jobs)) ∧
    job_id <$> s'.(jobs) = job_id <$> s.(jobs) ∧
    ∀ now' batch' s'' cs', claim_due now' batch' s' = (s'', Ok cs') →
      ∀ j, j ∈ js → j.(job_id) ∉ c_id <$> cs'.
Proof.
  set (js := due_candidates now batch s.(jobs)). exists js.
  eexists. split; [apply claim_due_run; [done|lia]|]. fold js. cbn [jobs set_jobs].
  set (rows := sql_update _ _ _).
  assert (Hin : ∀ j, j ∈ js → j ∈ s.(jobs) ∧ due now j) by (intros j; apply due_candidates_spec).
  assert (Hclaimed : ∀ j, j ∈ js → with_state Claimed now j ∈ rows).
  { intros j Hj. apply elem_of_sql_update. destruct (Hin j Hj). exists j. split; [done|].
    rewrite decide_True; [done|]. split; [by apply list_elem_of_fmap_2|done]. }
  assert (Hwf' : alarm_wf rows) by (by apply with_state_wf).
  split_and!.
  - apply due_candidates_length. lia.
  - intros j Hj. destruct (Hin j Hj). split_and!; [done..|by apply Hclaimed].
  - intros j j'. apply due_candidates_earliest.
  - intros j Hj Hnot. apply elem_of_sql_update. exists j. split; [done|].
    rewrite decide_False; [done|]. intros [(j' & Heq & Hj')%list_elem_of_fmap _].
    apply Hnot. by rewrite (alarm_wf_id_unique _ j j' Hwf Hj (proj1 (Hin j' Hj')) Heq).
  - by apply sql_update_column.
  - intros now' batch' s'' cs' Hc j Hj.
    assert (batch' ≠ 0). { intros ->. by unfold claim_due in Hc. }
    rewrite claim_due_run in Hc by done. injection Hc as _ <-. cbn [jobs].
    rewrite <-list_fmap_compose. intros (j' & Heq & Hj')%list_elem_of_fmap.
    apply due_candidates_spec in Hj' as [Hj' [Hst _]].
    rewrite (alarm_wf_id_unique rows j' (with_state Claimed now j)) in Hst; [done|done|done| |].
    + by apply Hclaimed.
    + symmetry. exact Heq.
Qed.

(** ** Completion is fenced *)

(** A conditional statement acts on at most the live claim: without one, nothing
    changes and no waiter is woken. *)
Lemma on_held_spec st c f s :
  alarm_wf s.(jobs) → (Forall (λ j, ¬ held st c j) s.(jobs) → f s.(jobs) = s.(jobs)) →
  on_held st c f s =
    if decide (Exists (held st c) s.(jobs)) then (notify (set_jobs (f s.(jobs)) s), Ok true)
    else (s, Ok false).
Proof.
  intros Hwf Hf. unfold on_held, gets, mbind, M_bind, modify. cbn beta iota.
  destruct (decide (Exists (held st c) s.(jobs))) as [He|Hn].
  - apply Exists_exists in He as (j & Hj & Hheld).
    rewrite (affected_unique (held st c) job_id s.(jobs) j); [done|by destruct Hwf|done|done|].
    intros y _ [Hy _]. by rewrite Hy, (proj1 Hheld).
  - assert (Hall : Forall (λ j, ¬ held st c j) s.(jobs)).
    { apply Forall_forall. intros j Hj Hh. apply Hn, Exists_exists. eauto. }
    assert (affected (held st c) s.(jobs) = 0) as ->.
    { apply affected_0. by apply Forall_forall. }
    cbn. rewrite Hf by done. by destruct s.
Qed.

Lemma sql_update_none P `{!∀ j, Decision (P j)} (f : Job → Job) rows :
  Forall (λ j, ¬ P j) rows → sql_update P f rows = rows.
Proof. induction 1; [done|]. rewrite sql_update_cons, decide_False by done. by f_equal. Qed.

Lemma sql_delete_none P `{!∀ j, Decision (P j)} (rows : list Job) :
  Forall (λ j, ¬ P j) rows → sql_delete P rows = rows.
Proof.
  unfold sql_delete. induction 1 as [|x l Hx _ IH]; [done|]. rewrite filter_cons_True by done. by f_equal.
Qed.

(** An outcome the caller may report. *)
Definition claim_result_ok (r : ClaimResult) : Prop :=
  match r with Reschedule due retry _ => 0 < due ∧ retry ≤ 6 | _ => True end.

Lemma finish_claim_spec c r now s :
  alarm_wf s.(jobs) → claim_result_ok r →
  (¬ Exists (held Claimed c) s.(jobs) → finish_claim c r now s = (s, Ok false)) ∧
  (Exists (held Claimed c) s.(jobs) → (finish_claim c r now s).2 = Ok true).
Proof.
  intros Hwf Hr.
  assert (H : ∀ f, (Forall (λ j, ¬ held Claimed c j) s.(jobs) → f s.(jobs) = s.(jobs)) →
    (¬ Exists (held Claimed c) s.(jobs) → on_held Claimed c f s = (s, Ok false)) ∧
    (Exists (held Claimed c) s.(jobs) → (on_held Claimed c f s).2 = Ok true)).
  { intros f Hf. rewrite on_held_spec by done. split; intros He.
    - by rewrite decide_False.
    - by rewrite decide_True. }
  destruct r as [|due retry err|err]; cbn [finish_claim].
  - apply H, sql_delete_none.
  - unfold mbind, M_bind, throw_if, lift, bail_if. rewrite decide_False by (cbn in Hr; lia).
    apply H. apply (sql_update_none (held Claimed c)).
  - apply H. apply (sql_update_none (held Claimed c)).
Qed.

Lemma upsert_alarm_run uuid p now s s' u :
  upsert_alarm uuid p now s = (s', Ok u) →
  let same := same_object p.(p_namespace) p.(p_object) p.(p_object_generation) in
  validate_projection p = Ok () ∧ token_fits p.(p_row_token) ∧
  s'.(jobs) = (
    if decide (Exists same s.(jobs)) then
      sql_update same (λ j,
        job j.(job_id) j.(namespace_resource_id) j.(object_id) j.(object_generation)
          p.(p_row_token) p.(p_due_at_ms) p.(p_target_version) p.(p_execution_generation) Scheduled
          p.(p_retry_count) None j.(created_at_ms) now) s.(jobs)
    else s.(jobs) ++
      [job uuid p.(p_namespace) p.(p_object) p.(p_object_generation) p.(p_row_token)
         p.(p_due_at_ms) p.(p_target_version) p.(p_execution_generation) Scheduled
         p.(p_retry_count) None now now]) ∧
  (¬ Exists same s.(jobs) → uuid ∉ job_id <$> s.(jobs)).
Proof.
  intros H same. unfold upsert_alarm in H. run_inv; subst;
    repeat match goal with Hi : i64_checked _ = Some _ |- _ =>
      apply i64_checked_Some in Hi as [-> _] end;
    (split; [by destruct a|]; split; [by apply dec_stable|]; cbn [jobs notify set_jobs]).
  - by rewrite decide_True.
  - by rewrite decide_False.
Qed.

Lemma upsert_wf uuid p now s s' u :
  alarm_wf s.(jobs) → projection_typed p →
  upsert_alarm uuid p now s = (s', Ok u) → alarm_wf s'.(jobs).
Proof.
  intros Hwf (Hg & He & Hr) Hrun.
  destruct (upsert_alarm_run _ _ _ _ _ _ Hrun) as (Hval & Htok & -> & Hfresh).
  unfold validate_projection in Hval. destruct_result. apply bail_if_Ok in Hval.
  case_decide as Hex.
  - apply alarm_wf_update; [done| |done].
    intros j (? & ? & ? & ? & ?) _. split_and!; cbn; (lia || done).
  - destruct Hwf as (Hnd & Hkey & Hall). split_and!.
    + rewrite fmap_app. apply NoDup_app. split_and!; [done| |apply NoDup_singleton].
      intros x Hx ->%list_elem_of_singleton. by apply Hfresh in Hex.
    + rewrite fmap_app. apply NoDup_app. split_and!; [done| |apply NoDup_singleton].
      intros x (j & -> & Hj)%list_elem_of_fmap Heq%list_elem_of_singleton.
      apply Hex, Exists_exists. exists j. split; [done|].
      unfold object_key in Heq. cbn in Heq. unfold same_object. by simplify_eq.
    + apply Forall_app. split; [done|]. apply Forall_singleton.
      split_and!; cbn; (lia || done).
Qed.

Lemma on_held_jobs st c f s s' r :
  on_held st c f s = (s', r) → s'.(jobs) = f s.(jobs).
Proof.
  unfold on_held, gets, mbind, M_bind, modify. cbn beta iota.
  destruct (decide _); cbn; by intros [= <- _].
Qed.

(** Every operation of the store, with arguments in the range of their types. *)
Inductive alarm_step (s : AlarmStore) : AlarmStore → Prop :=
| step_upsert uuid p now : projection_typed p → alarm_step s (upsert_alarm uuid p now s).1
| step_delete_exact ns obj gen token : alarm_step s (delete_alarm_exact ns obj gen token s).1
| step_delete_object ns obj gen : alarm_step s (delete_object ns obj gen s).1
| step_claim now batch : alarm_step s (claim_due now batch s).1
| step_finish c r now :
    match r with Reschedule _ retry _ => 0 ≤ retry | _ => True end →
    alarm_step s (finish_claim c r now s).1
| step_retarget c v g now : 0 ≤ g → alarm_step s (retarget_claim c v g now s).1
| step_discard c : alarm_step s (finish_discarding c s).1
| step_reset now : alarm_step s (set_jobs (reset_job_claims now s.(jobs)) s).

Inductive alarm_reachable : AlarmStore → Prop :=
| alarm_init w : alarm_reachable (alarm_store [] w)
| alarm_next s s' : alarm_reachable s → alarm_step s s' → alarm_reachable s'.

Lemma claim_due_wf now batch s : alarm_wf s.(jobs) → alarm_wf (claim_due now batch s).1.(jobs).
Proof.
  intros Hwf. destruct (decide (batch = 0)) as [->|]; [done|].
  rewrite claim_due_run by done. by apply with_state_wf.
Qed.

Lemma finish_claim_wf c r now s :
  match r with Reschedule _ retry _ => 0 ≤ retry | _ => True end →
  alarm_wf s.(jobs) → alarm_wf (finish_claim c r now s).1.(jobs).
Proof.
  intros Hr Hwf. destruct r as [|due retry err|err]; cbn [finish_claim].
  - destruct (on_held _ _ _ s) as [s' r'] eqn:H. apply on_held_jobs in H. cbn. rewrite H.
    by apply alarm_wf_delete.
  - unfold mbind, M_bind, throw_if, lift, bail_if. case_decide; [done|].
    destruct (on_held _ _ _ s) as [s' r'] eqn:H'. apply on_held_jobs in H'. cbn. rewrite H'.
    apply alarm_wf_update; [done| |done].
    intros j (? & ? & ? & ? & ?) _. split_and!; cbn; (lia || done).
  - destruct (on_held _ _ _ s) as [s' r'] eqn:H. apply on_held_jobs in H. cbn. rewrite H.
    by apply alarm_wf_update.
Qed.

Lemma alarm_step_wf s s' : alarm_wf s.(jobs) → alarm_step s s' → alarm_wf s'.(jobs).
Proof.
  intros Hwf Hstep. destruct Hstep as [uuid p now Hp|ns obj gen token|ns obj gen|now batch|c r now Hr
    |c v g now Hg|c|now].
  - destruct (upsert_alarm uuid p now s) as [s' [u|e]] eqn:H; [by eapply upsert_wf|].
    replace (s', Err e).1 with s; [done|]. revert H.
    unfold upsert_alarm. run_simpl.
    destruct (validate_projection p), (i64_checked (p_object_generation p)),
      (i64_checked (p_execution_generation p)); try (by intros [= -> _]).
    repeat (case_decide; try done); by intros [= -> _].
  - unfold delete_alarm_exact. run_simpl.
    destruct (validate_token token); [|done]. destruct (i64_checked gen); [|done].
    case_decide; by apply alarm_wf_delete.
  - unfold delete_object. run_simpl.
    destruct (i64_checked gen); [|done]. case_decide; by apply alarm_wf_delete.
  - by apply claim_due_wf.
  - by apply finish_claim_wf.
  - unfold retarget_claim, mbind, M_bind, some_or, lift, ok_or_else.
    destruct (i64_checked g) as [g'|] eqn:Hg'; [|done]. apply i64_checked_Some in Hg' as [-> _].
    destruct (on_held _ _ _ s) as [s' r'] eqn:H'. apply on_held_jobs in H'. cbn. rewrite H'.
    apply alarm_wf_update; [done| |done].
    intros j (? & ? & ? & ? & ?) _. split_and!; cbn; (lia || done).
  - unfold finish_discarding. destruct (on_held _ _ _ s) as [s' r'] eqn:H'.
    apply on_held_jobs in H'. cbn. rewrite H'. by apply alarm_wf_delete.
  - by apply with_state_wf.
Qed.

Lemma alarm_reachable_inv s : alarm_reachable s → alarm_wf s.(jobs).
Proof.
  induction 1 as [w|s s' _ IH Hstep]; [|by eapply alarm_step_wf].
  split_and!; cbn; [constructor..|done].
Qed.

(** Every state the alarm store can reach, by any sequence of operations and
    restarts, is well formed: ids and object generations are unique, and every row
    satisfies the bounds of its columns.  Its work is therefore never lost to a
    failing claim: [claim_due] succeeds in each of them. *)
Theorem alarm_reachable_wf (s : AlarmStore) (Hreach : alarm_reachable s) :
  alarm_wf s.(jobs) ∧
  ∀ now batch, batch ≠ 0 → is_ok (claim_due now batch s).2 = true.
Proof.
  pose proof (alarm_reachable_inv s Hreach) as Hwf.
  split; [done|]. intros now batch Hb. by rewrite claim_due_run.
Qed.

(** A stale completion never touches a newer alarm.  After the object's
    authority overwrites its alarm, whatever the tokens, the outcome, the retarget
    and the discard of an earlier claim all report [false] and change nothing, not
    even the wake generation. *)
Theorem overwrite_fences_claim (uuid : N) (p : AlarmProjection) (now now' : Z)
    (s s1 : AlarmStore) (j : Job) (r : ClaimResult) (v : N) (g : Z)
    (Hwf : alarm_wf s.(jobs)) (Hp : projection_typed p)
    (Hj : j ∈ s.(jobs)) (Hclaimed : j.(job_state) = Claimed)
    (Hsame : object_key j = (p.(p_namespace), p.(p_object), p.(p_object_generation)))
    (Hupsert : upsert_alarm uuid p now s = (s1, Ok ()))
    (Hr : claim_result_ok r) (Hg : in_i64 g) :
  let c := to_claimed j in
  finish_claim c r now' s1 = (s1, Ok false) ∧
  retarget_claim c v g now' s1 = (s1, Ok false) ∧
  finish_discarding c s1 = (s1, Ok false).
Proof.
  intros c. pose proof (upsert_wf _ _ _ _ _ _ Hwf Hp Hupsert) as Hwf1.
  destruct (upsert_alarm_run _ _ _ _ _ _ Hupsert) as (_ & _ & Hjobs & _).
  assert (Hsj : same_object p.(p_namespace) p.(p_object) p.(p_object_generation) j).
  { unfold object_key in Hsame. unfold same_object. by simplify_eq. }
  rewrite decide_True in Hjobs by (apply Exists_exists; eauto).
  assert (Hno : ∀ st, st ≠ Scheduled → ¬ Exists (held st c) s1.(jobs)).
  { intros st Hst (x & Hx & Hid & Hxs & _)%Exists_exists. rewrite Hjobs in Hx.
    apply elem_of_sql_update in Hx as (y & Hy & ->).
    case_decide as Hd; cbn in *; [by subst|]. apply Hd.
    by rewrite (alarm_wf_id_unique _ y j Hwf Hy Hj). }
  split_and!.
  - by apply finish_claim_spec; [..|apply Hno].
  - unfold retarget_claim. rewrite i64_checked_in by done.
    unfold mbind, M_bind, some_or, lift, ok_or_else. rewrite on_held_spec; [|done|].
    + by rewrite decide_False by (by apply Hno).
    + apply (sql_update_none (held Claimed c)).
  - unfold finish_discarding. rewrite on_held_spec; [|done|apply sql_delete_none].
    by rewrite decide_False by (by apply Hno).
Qed.

(** ** Concrete runs *)

Definition sample_projection (obj : N) (due : Z) : AlarmProjection :=
  alarm_projection 1 obj 1 (lit "0123456789abcdef") due 9 3 0.

(** Two alarms, then a claim of the due one. *)
Definition sample_store : AlarmStore :=
  (upsert_alarm 11 (sample_projection 5 200) 1
    (upsert_alarm 10 (sample_projection 4 100) 1 (alarm_store [] 0)).1).1.

Lemma sample_reachable : alarm_reachable sample_store.
Proof.
  unfold sample_store. eapply alarm_next; [eapply alarm_next; [apply alarm_init|]|];
    apply step_upsert; split_and!; cbn; lia.
Qed.

Lemma sample_wf : alarm_wf sample_store.(jobs).
Proof. apply alarm_reachable_inv, sample_reachable. Qed.

Lemma claim_due_exact_witness :
  ∃ js s', claim_due 150 8 sample_store = (s', Ok (to_claimed <$> js)) ∧ job_id <$> js = [10%N].
Proof.
  destruct (claim_due_exact 150 8 sample_store sample_wf) as (js & s' & Hc & _); [lia|].
  exists js, s'. split; [exact Hc|].
  assert (Hids : match (claim_due 150 8 sample_store).2 with
                 | Ok cs => c_id <$> cs = [10%N] | Err _ => False end)
    by (vm_compute; reflexivity).
  rewrite Hc in Hids. cbn [snd] in Hids. by rewrite <-list_fmap_compose in Hids.
Defined.

Lemma alarm_reachable_wf_witness :
  alarm_wf sample_store.(jobs) ∧ is_ok (claim_due 150 8 sample_store).2 = true.
Proof.
  destruct (alarm_reachable_wf sample_store sample_reachable) as [Hwf Hc].
  split; [exact Hwf|]. apply Hc. lia.
Defined.

Lemma overwrite_fences_claim_witness :
  let s := (claim_due 150 8 sample_store).1 in
  let s1 := (upsert_alarm 12 (sample_projection 4 300) 160 s).1 in
  ∃ j, head s.(jobs) = Some j ∧ finish_claim (to_claimed j) Delete 170 s1 = (s1, Ok false).
Proof.
  intros s s1. destruct (head s.(jobs)) as [j|] eqn:Hj; [|by vm_compute in Hj].
  exists j. split; [done|].
  assert (Hin : j ∈ s.(jobs)) by (by destruct s.(jobs); simplify_eq/=; left).
  assert (Hst : j.(job_state) = Claimed ∧ object_key j = (1%N, 4%N, 1)).
  { revert Hj. vm_compute. by intros [= <-]. }
  apply (overwrite_fences_claim 12 (sample_projection 4 300) 160 170 s s1 j Delete 0 0).
  - apply claim_due_wf, sample_wf.
  - split_and!; cbn; lia.
  - done.
  - apply Hst.
  - apply Hst.
  - vm_compute. reflexivity.
  - done.
  - unfold in_i64. lia.
Defined.
