(* ===== verification/QueueDb.v ===== *)
(** * The queue tables

    The tables of the queue store with the constraints and triggers of their
    effective schema ([refinery-migrations/control/V21..V23]): queue states with
    cached counters, messages, delivery batches, consumers, pending dead letters
    and enqueue operations.  A statement that a [CHECK], a [UNIQUE] or foreign key,
    or a trigger refuses aborts, and leaves the caller to map the error. *)

From stdpp Require Import base numbers list option strings sorting gmap.
From S2P Require Import Prelude ErrorCodes Sql.

Local Open Scope Z_scope.

(** ** Rows *)

Inductive QueueContentType : Type := Json | Text | Bytes | V8.
#[export] Instance QueueContentType_eq_dec : EqDecision QueueContentType.
Proof. solve_decision. Defined.

Record QueueConfig := queue_config {
  delivery_delay_seconds : Z;
  retention_seconds : Z;
  max_message_bytes : Z;
  max_batch_messages : Z;
  max_batch_bytes : Z;
  max_backlog_bytes : Z;
}.
#[export] Instance QueueConfig_eq_dec : EqDecision QueueConfig.
Proof. solve_decision. Defined.

Inductive SchedulerQueueState : Type := Accepting | Configuring | Deleting.
#[export] Instance SchedulerQueueState_eq_dec : EqDecision SchedulerQueueState.
Proof. solve_decision. Defined.

(** A row of [queue_state]. *)
Record QueueRow := queue_row {
  lifecycle_generation : Z;
  config_generation : Z;
  q_state : SchedulerQueueState;
  config : QueueConfig;
  message_count : Z;
  message_bytes : Z;
  q_created_at_ms : Z;
  q_updated_at_ms : Z;
}.

(** The claim columns of [queue_messages]: the [CHECK] makes them all null when the
    message is ready and all present when it is claimed. *)
Inductive MessageState : Type :=
| MReady
| MClaimed (claim_batch_id consumer_id : N) (consumer_generation : Z).
#[export] Instance MessageState_eq_dec : EqDecision MessageState.
Proof. solve_decision. Defined.

(** A row of [queue_messages]; [body_bytes = length(body)] is a [CHECK]. *)
Record Message := message_row {
  seq : Z;
  msg_id : N;
  msg_queue : N;
  queue_generation : Z;
  enqueued_at_ms : Z;
  available_at_ms : Z;
  msg_expires_at_ms : Z;
  content_type : QueueContentType;
  body : list Z;
  msg_state : MessageState;
  attempts : Z;
}.
#[export] Instance Message_eq_dec : EqDecision Message.
Proof. solve_decision. Defined.
Definition body_bytes (m : Message) : Z := Z.of_nat (length m.(body)).

(** A row of [queue_consumer_state]. *)
Record Consumer := consumer_row {
  consumer_queue : N;
  consumer_generation : Z;
  version_id : N;
  worker_id : N;
  execution_generation : Z;
  entrypoint : option string;
  active : bool;
  max_batch_size : Z;
  max_batch_timeout_ms : Z;
  max_retries : Z;
  retry_delay_seconds : Z;
  max_concurrency : Z;
  dlq : option (N * Z);
}.

(** A row of [queue_delivery_batches]. *)
Record Batch := batch_row {
  batch_queue : N;
  batch_consumer : N;
  batch_generation : Z;
  batch_version : N;
  batch_execution_generation : Z;
  batch_entrypoint : option string;
  batch_message_count : Z;
  batch_created_at_ms : Z;
}.

(** A row of [queue_dlq_pending], by message id. *)
Record Pending := pending_row {
  source_queue : N;
  target_queue : N;
  target_generation : Z;
  terminal_attempts : Z;
  next_attempt_at_ms : Z;
  pending_created_at_ms : Z;
  pending_error : option string;
}.

Record QueueMetrics := queue_metrics_row {
  backlog_count : Z;
  backlog_bytes : Z;
  oldest_message_timestamp_ms : option Z;
}.

(** A row of [queue_enqueue_operations], by request id; the stored response is the
    decoded one. *)
Record Operation := operation_row {
  op_queue : N;
  op_generation : Z;
  fingerprint : list Z;
  op_message_ids : list N;
  op_metrics : QueueMetrics;
  output_gate : bool;
  op_retention_seconds : Z;
  op_created_at_ms : Z;
  finalized_at_ms : option Z;
  op_expires_at_ms : option Z;
}.

Record QueueDb := queue_db {
  queues : gmap N QueueRow;
  messages : list Message;
  (** the next value of the [AUTOINCREMENT] column *)
  next_seq : Z;
  operations : gmap N Operation;
  consumers : gmap N Consumer;
  batches : gmap N Batch;
  dlq_pending : gmap N Pending;
  (** the wake generation published after a commit *)
  wake : Z;
}.

Definition set_queues (x : gmap N QueueRow) (db : QueueDb) : QueueDb :=
  queue_db x db.(messages) db.(next_seq) db.(operations) db.(consumers) db.(batches)
    db.(dlq_pending) db.(wake).
Definition set_messages (x : list Message) (db : QueueDb) : QueueDb :=
  queue_db db.(queues) x db.(next_seq) db.(operations) db.(consumers) db.(batches)
    db.(dlq_pending) db.(wake).
Definition set_operations (x : gmap N Operation) (db : QueueDb) : QueueDb :=
  queue_db db.(queues) db.(messages) db.(next_seq) x db.(consumers) db.(batches)
    db.(dlq_pending) db.(wake).
Definition set_consumers (x : gmap N Consumer) (db : QueueDb) : QueueDb :=
  queue_db db.(queues) db.(messages) db.(next_seq) db.(operations) x db.(batches)
    db.(dlq_pending) db.(wake).
Definition set_batches (x : gmap N Batch) (db : QueueDb) : QueueDb :=
  queue_db db.(queues) db.(messages) db.(next_seq) db.(operations) db.(consumers) x
    db.(dlq_pending) db.(wake).
Definition set_dlq_pending (x : gmap N Pending) (db : QueueDb) : QueueDb :=
  queue_db db.(queues) db.(messages) db.(next_seq) db.(operations) db.(consumers) db.(batches)
    x db.(wake).

(** [self.wake.notify()] *)
Definition notify (db : QueueDb) : QueueDb :=
  queue_db db.(queues) db.(messages) db.(next_seq) db.(operations) db.(consumers) db.(batches)
    db.(dlq_pending) (u64_wrap (db.(wake) + 1)).

Definition with_counters (count bytes : Z) (q : QueueRow) : QueueRow :=
  queue_row q.(lifecycle_generation) q.(config_generation) q.(q_state) q.(config) count bytes
    q.(q_created_at_ms) q.(q_updated_at_ms).
Definition with_state (st : SchedulerQueueState) (now : Z) (q : QueueRow) : QueueRow :=
  queue_row q.(lifecycle_generation) q.(config_generation) st q.(config) q.(message_count)
    q.(message_bytes) q.(q_created_at_ms) now.

(** ** Guarded statements *)

(** How a statement aborts: the trigger the producer reports by name, or another
    constraint. *)
Inductive SqlAbort : Type := MessageAuthority | OtherConstraint.

Abbreviation QM := (M QueueDb PlatformError).

(** Runs a statement, mapping its abort to the caller's error. *)
Definition execute (map_err : SqlAbort → PlatformError)
    (f : QueueDb → result SqlAbort QueueDb) : QM unit := λ db,
  match f db with
  | Ok db' => (db', Ok ())
  | Err e => (db, Err (map_err e))
  end.

(** [map_sql_error] *)
Definition map_sql_error (_ : SqlAbort) : PlatformError := unavailable.

(** Does a row of [queue_delivery_batches] authorise the claim of a message? *)
Definition batch_authorises (db : QueueDb) (queue batch consumer : N) (gen : Z) : Prop :=
  is_some_and (λ b, b.(batch_queue) = queue ∧ b.(batch_consumer) = consumer ∧
                    b.(batch_generation) = gen) (db.(batches) !! batch).
#[export] Instance batch_authorises_dec db queue batch consumer gen :
  Decision (batch_authorises db queue batch consumer gen).
Proof. unfold batch_authorises. apply _. Defined.

(** [queue_messages_claim_shape_delete_guard]: a claimed message has its batch. *)
Definition claim_authorised (db : QueueDb) (m : Message) : Prop :=
  match m.(msg_state) with
  | MReady => True
  | MClaimed b c g =>
      is_some_and (λ r, r.(batch_consumer) = c ∧ r.(batch_generation) = g) (db.(batches) !! b)
  end.
#[export] Instance claim_authorised_dec db m : Decision (claim_authorised db m).
Proof. unfold claim_authorised. destruct (msg_state m); apply _. Defined.

(** The [claim_batch_id] column *)
Definition claim_batch_id (m : Message) : option N :=
  match m.(msg_state) with MReady => None | MClaimed b _ _ => Some b end.

(** [INSERT INTO queue_messages] of a ready message with no attempts:
    [queue_messages_insert_guard], the unique id, the [CHECK]s, the end of the
    [AUTOINCREMENT] keys, and [queue_messages_counter_insert]. *)
Definition insert_message (id queue : N) (gen enqueued available expires : Z)
    (ct : QueueContentType) (b : list Z) (db : QueueDb) : result SqlAbort QueueDb :=
  let bytes := Z.of_nat (length b) in
  match db.(queues) !! queue with
  | Some q =>
      _ ← bail_if (¬ (q.(q_state) = Accepting ∧ q.(lifecycle_generation) = gen ∧
                      bytes ≤ q.(config).(max_message_bytes) ∧
                      expires = enqueued + q.(config).(retention_seconds) * 1000 ∧
                      q.(message_bytes) + bytes ≤ q.(config).(max_backlog_bytes)))
            MessageAuthority;
      _ ← bail_if (id ∈ msg_id <$> db.(messages) ∨ gen < 1 ∨ available < enqueued ∨
                   expires ≤ enqueued ∨ i64_max < db.(next_seq)) OtherConstraint;
      Ok (queue_db
            (<[queue := queue_row q.(lifecycle_generation) q.(config_generation) q.(q_state)
                          q.(config) (q.(message_count) + 1) (q.(message_bytes) + bytes)
                          q.(q_created_at_ms) enqueued]> db.(queues))
            (db.(messages) ++
               [message_row db.(next_seq) id queue gen enqueued available expires ct b MReady 0])
            (db.(next_seq) + 1) db.(operations) db.(consumers) db.(batches) db.(dlq_pending)
            db.(wake))
  | None => Err MessageAuthority
  end.

(** Messages and bytes of one queue among some rows. *)
Definition count_of (q : N) (ms : list Message) : Z := affected (λ m, m.(msg_queue) = q) ms.
Definition bytes_of (q : N) (ms : list Message) : Z :=
  sql_sum body_bytes (sql_where (λ m, m.(msg_queue) = q) ms).

(** [DELETE FROM queue_messages WHERE P]: [queue_messages_claim_shape_delete_guard]
    on every row, then [queue_messages_counter_delete], whose counters stay
    non-negative by a [CHECK]. *)
Definition delete_messages (P : Message → Prop) `{!∀ m, Decision (P m)} (db : QueueDb) :
    result SqlAbort QueueDb :=
  let gone := sql_where P db.(messages) in
  let counters := λ q r, with_counters (r.(message_count) - count_of q gone)
                           (r.(message_bytes) - bytes_of q gone) r in
  let queues := map_imap (λ q r, Some (counters q r)) db.(queues) in
  _ ← bail_if (¬ Forall (claim_authorised db) gone) OtherConstraint;
  _ ← bail_if (¬ map_Forall (λ _ r, 0 ≤ r.(message_count) ∧ 0 ≤ r.(message_bytes)) queues)
        OtherConstraint;
  Ok (set_queues queues (set_messages (sql_delete P db.(messages)) db)).

(** A change of the mutable columns of a message: its state, attempts and
    availability ([queue_messages_immutable_guard] refuses any other). *)
Definition move_message (st : MessageState) (att available : Z) (m : Message) : Message :=
  message_row m.(seq) m.(msg_id) m.(msg_queue) m.(queue_generation) m.(enqueued_at_ms)
    available m.(msg_expires_at_ms) m.(content_type) m.(body) st att.

(** [queue_messages_transition_guard] and the [CHECK] on availability *)
Definition transition_ok (db : QueueDb) (m m' : Message) : Prop :=
  match m.(msg_state), m'.(msg_state) with
  | MReady, MClaimed b c g =>
      m'.(attempts) = m.(attempts) ∧ batch_authorises db m.(msg_queue) b c g
  | MClaimed b c g, MReady =>
      m.(attempts) ≤ m'.(attempts) ≤ m.(attempts) + 1 ∧ batch_authorises db m.(msg_queue) b c g
  | _, _ => False
  end ∧ m'.(enqueued_at_ms) ≤ m'.(available_at_ms).
#[export] Instance transition_ok_dec db m m' : Decision (transition_ok db m m').
Proof. unfold transition_ok. destruct (msg_state m), (msg_state m'); apply _. Defined.

(** [UPDATE queue_messages SET .. WHERE P] *)
Definition update_messages (P : Message → Prop) `{!∀ m, Decision (P m)} (f : Message → Message)
    (db : QueueDb) : result SqlAbort QueueDb :=
  _ ← bail_if (¬ Forall (λ m, transition_ok db m (f m)) (sql_where P db.(messages)))
        OtherConstraint;
  Ok (set_messages (sql_update P f db.(messages)) db).

(** [INSERT INTO queue_delivery_batches]: [queue_delivery_batches_insert_guard], then the
    constraints of the row *)
Definition insert_batch (id : N) (b : Batch) (db : QueueDb) : result SqlAbort QueueDb :=
  _ ← bail_if (¬ is_some_and (λ c,
        c.(consumer_queue) = b.(batch_queue) ∧
        c.(consumer_generation) = b.(batch_generation) ∧
        c.(version_id) = b.(batch_version) ∧
        c.(execution_generation) = b.(batch_execution_generation) ∧
        c.(entrypoint) = b.(batch_entrypoint) ∧ c.(active) = true ∧
        b.(batch_message_count) ≤ c.(max_batch_size)) (db.(consumers) !! b.(batch_consumer)))
        OtherConstraint;
  _ ← bail_if (is_Some (db.(batches) !! id) ∨ ¬ (1 ≤ b.(batch_message_count) ≤ 100) ∨
               db.(queues) !! b.(batch_queue) = None) OtherConstraint;
  Ok (set_batches (<[id := b]> db.(batches)) db).

(** [DELETE FROM queue_delivery_batches] of one row: [queue_delivery_batches_delete_guard] *)
Definition delete_batch (id : N) (db : QueueDb) : result SqlAbort QueueDb :=
  _ ← bail_if (Exists (λ m, claim_batch_id m = Some id) db.(messages)) OtherConstraint;
  Ok (set_batches (delete id db.(batches)) db).

(** Does a ready message and a target queue authorise a pending dead letter
    ([queue_dlq_pending_insert_guard]), with the constraints of the row? *)
Definition pending_authorised (id : N) (p : Pending) (db : QueueDb) : Prop :=
  Exists (λ m, m.(msg_id) = id ∧ m.(msg_queue) = p.(source_queue) ∧ m.(msg_state) = MReady ∧
               m.(attempts) = p.(terminal_attempts)) db.(messages) ∧
  is_some_and (λ q, q.(lifecycle_generation) = p.(target_generation))
    (db.(queues) !! p.(target_queue)) ∧
  0 < p.(terminal_attempts) ∧ p.(source_queue) ≠ p.(target_queue) ∧
  is_Some (db.(queues) !! p.(source_queue)).
#[export] Instance pending_authorised_dec id p db : Decision (pending_authorised id p db).
Proof. unfold pending_authorised. apply _. Defined.

(** [INSERT INTO queue_dlq_pending] *)
Definition insert_pending (id : N) (p : Pending) (db : QueueDb) : result SqlAbort QueueDb :=
  _ ← bail_if (¬ pending_authorised id p db) OtherConstraint;
  _ ← bail_if (is_Some (db.(dlq_pending) !! id)) OtherConstraint;
  Ok (set_dlq_pending (<[id := p]> db.(dlq_pending)) db).

(** [DELETE FROM queue_state] of one row: [queue_state_delete_guard] and the foreign
    keys of the tables that reference it *)
Definition delete_queue_row (id : N) (db : QueueDb) : result SqlAbort QueueDb :=
  let referenced :=
    is_some_and (λ q, q.(message_count) ≠ 0 ∨ q.(message_bytes) ≠ 0) (db.(queues) !! id) ∨
    Exists (λ m, m.(msg_queue) = id) db.(messages) ∨
    ¬ map_Forall (λ _ o, o.(op_queue) ≠ id) db.(operations) ∨
    ¬ map_Forall (λ _ c, c.(consumer_queue) ≠ id ∧ (fst <$> c.(dlq)) ≠ Some id) db.(consumers) ∨
    ¬ map_Forall (λ _ b, b.(batch_queue) ≠ id) db.(batches) ∨
    ¬ map_Forall (λ _ p, p.(source_queue) ≠ id ∧ p.(target_queue) ≠ id) db.(dlq_pending) in
  _ ← bail_if referenced OtherConstraint;
  Ok (set_queues (delete id db.(queues)) db).
