(* ===== verification/QueueInv.v ===== *)
(** * Invariants of the queue tables

    The core invariant (unique messages, exact counters, referential integrity,
    authorised claims) and how each guarded statement keeps it; the exactness of
    delivery batches on top of it. *)

From stdpp Require Import base numbers list option strings sorting gmap.
From S2P Require Import Prelude ErrorCodes Sql QueueDb.

Local Open Scope Z_scope.

(** ** Sums over messages *)

Section sums.
Context (P : Message → Prop) {Pdec : ∀ m, Decision (P m)}.

Lemma sql_sum_split (f : Message → Z) ms :
  sql_sum f ms = sql_sum f (sql_where P ms) + sql_sum f (sql_delete P ms).
Proof.
  unfold sql_where, sql_delete. induction ms as [|m ms IH]; [done|]. cbn [sql_sum foldr].
  fold (sql_sum f ms). rewrite IH. rewrite !filter_cons.
  destruct (decide (P m)), (decide (¬ P m)); try tauto; cbn [sql_sum foldr];
    fold (sql_sum f (filter P ms)); fold (sql_sum f (filter (λ x, ¬ P x) ms)); lia.
Qed.
End sums.

Lemma affected_sum P `{!∀ m, Decision (P m)} (ms : list Message) :
  affected P ms = sql_sum (λ m, if decide (P m) then 1 else 0) ms.
Proof. induction ms as [|m ms IH]; [done|]. rewrite affected_cons, IH. done. Qed.

Lemma where_sum P `{!∀ m, Decision (P m)} (f : Message → Z) ms :
  sql_sum f (sql_where P ms) = sql_sum (λ m, if decide (P m) then f m else 0) ms.
Proof.
  unfold sql_where. induction ms as [|m ms IH]; [done|]. rewrite filter_cons. cbn [sql_sum foldr].
  fold (sql_sum (λ m, if decide (P m) then f m else 0) ms).
  case_decide; cbn [sql_sum foldr]; fold (sql_sum f (filter P ms)); lia.
Qed.

Lemma count_of_sum q ms : count_of q ms = sql_sum (λ m, if decide (m.(msg_queue) = q) then 1 else 0) ms.
Proof. apply affected_sum. Qed.
Lemma bytes_of_sum q ms :
  bytes_of q ms = sql_sum (λ m, if decide (m.(msg_queue) = q) then body_bytes m else 0) ms.
Proof. apply where_sum. Qed.

Lemma sql_sum_nonneg {A} (f : A → Z) l : (∀ x, 0 ≤ f x) → 0 ≤ sql_sum f l.
Proof. intros Hf. induction l as [|x l IH]; cbn; [done|]. specialize (Hf x). unfold sql_sum in IH. lia. Qed.

Lemma sql_sum_update {A} (P : A → Prop) `{!∀ m, Decision (P m)} (f : A → Z) g ms :
  (∀ m, P m → f (g m) = f m) → sql_sum f (sql_update P g ms) = sql_sum f ms.
Proof.
  intros Hf. unfold sql_sum. induction ms as [|m ms IH]; [done|].
  rewrite sql_update_cons. cbn [foldr]. rewrite IH. case_decide; [by rewrite Hf|done].
Qed.

Lemma count_of_nonneg q ms : 0 ≤ count_of q ms.
Proof. apply affected_nonneg. Qed.
Lemma body_bytes_nonneg m : 0 ≤ body_bytes m.
Proof. unfold body_bytes. lia. Qed.
Lemma bytes_of_nonneg q ms : 0 ≤ bytes_of q ms.
Proof. apply sql_sum_nonneg, body_bytes_nonneg. Qed.

(** A queue without messages has no bytes. *)
Lemma bytes_of_none q ms : (∀ m, m ∈ ms → m.(msg_queue) ≠ q) → bytes_of q ms = 0.
Proof.
  intros Hno. rewrite bytes_of_sum. unfold sql_sum. induction ms as [|m ms IH]; [done|]. cbn [foldr].
  rewrite IH by (intros x Hx; apply Hno; by right). rewrite decide_False; [done|]. apply Hno. by left.
Qed.

Lemma count_of_split P `{!∀ m, Decision (P m)} q ms :
  count_of q ms - count_of q (sql_where P ms) = count_of q (sql_delete P ms).
Proof. rewrite !count_of_sum, (sql_sum_split P _ ms). lia. Qed.
Lemma bytes_of_split P `{!∀ m, Decision (P m)} q ms :
  bytes_of q ms - bytes_of q (sql_where P ms) = bytes_of q (sql_delete P ms).
Proof. rewrite !bytes_of_sum, (sql_sum_split P _ ms). lia. Qed.

(** ** The core invariant *)

(** The [CHECK]s of a message. *)
Definition message_ok (m : Message) : Prop :=
  0 ≤ m.(attempts) ∧ m.(enqueued_at_ms) ≤ m.(available_at_ms) ∧
  m.(enqueued_at_ms) < m.(msg_expires_at_ms).

Definition claim_ok (bs : gmap N Batch) (m : Message) : Prop :=
  match m.(msg_state) with
  | MReady => True
  | MClaimed b c g => ∃ r, bs !! b = Some r ∧ r.(batch_queue) = m.(msg_queue) ∧
                           r.(batch_consumer) = c ∧ r.(batch_generation) = g
  end.

(** The cached counters of a queue are its messages and their bytes. *)
Definition counters_exact (qs : gmap N QueueRow) (ms : list Message) : Prop :=
  ∀ q r, qs !! q = Some r → r.(message_count) = count_of q ms ∧ r.(message_bytes) = bytes_of q ms.

(** The bounds of a queue's configuration and of its other columns. *)
Definition config_ok (c : QueueConfig) : Prop :=
  0 ≤ c.(delivery_delay_seconds) ≤ 86400 ∧ 60 ≤ c.(retention_seconds) ≤ 1209600 ∧
  1 ≤ c.(max_message_bytes) ≤ 128000 ∧ 1 ≤ c.(max_batch_messages) ≤ 100 ∧
  1 ≤ c.(max_batch_bytes) ≤ 256000 ∧ 1 ≤ c.(max_backlog_bytes) ≤ i64_max.
Definition queue_row_ok (r : QueueRow) : Prop :=
  1 ≤ r.(lifecycle_generation) ≤ i64_max ∧ 1 ≤ r.(config_generation) ≤ i64_max ∧
  config_ok r.(config) ∧ r.(message_bytes) ≤ i64_max.

Record queue_core (db : QueueDb) : Prop := {
  core_seq : NoDup (seq <$> db.(messages));
  core_next : Forall (λ m, m.(seq) < db.(next_seq)) db.(messages);
  core_id : NoDup (msg_id <$> db.(messages));
  core_msg : Forall message_ok db.(messages);
  core_fk : Forall (λ m, is_Some (db.(queues) !! m.(msg_queue))) db.(messages);
  core_counters : counters_exact db.(queues) db.(messages);
  core_claim : Forall (claim_ok db.(batches)) db.(messages);
  core_len : Z.of_nat (length db.(messages)) < db.(next_seq) ≤ i64_max + 1;
  core_rows : map_Forall (λ _, queue_row_ok) db.(queues);
}.

Lemma claim_ok_authorises db m b c g :
  claim_ok db.(batches) m → m.(msg_state) = MClaimed b c g →
  batch_authorises db m.(msg_queue) b c g.
Proof.
  unfold claim_ok, batch_authorises. intros Hm Hs. rewrite Hs in Hm.
  destruct Hm as (r & -> & ? & ? & ?). cbn. done.
Qed.

Lemma authorises_claim_ok db m b c g :
  m.(msg_state) = MClaimed b c g → batch_authorises db m.(msg_queue) b c g →
  claim_ok db.(batches) m.
Proof.
  unfold claim_ok, batch_authorises. intros ->. destruct (batches db !! b) as [r|]; cbn; [|done].
  intros (? & ? & ?). eauto.
Qed.

(** ** Messages by key *)

Lemma message_seq_unique db m m' :
  queue_core db → m ∈ db.(messages) → m' ∈ db.(messages) → m.(seq) = m'.(seq) → m = m'.
Proof. intros Hc. apply NoDup_fmap_inj_elem, Hc. Qed.
Lemma message_id_unique db m m' :
  queue_core db → m ∈ db.(messages) → m' ∈ db.(messages) → m.(msg_id) = m'.(msg_id) → m = m'.
Proof. intros Hc. apply NoDup_fmap_inj_elem, Hc. Qed.

(** A statement keyed by the sequence number of a stored message affects one row. *)
Lemma affected_seq db m (P : Message → Prop) `{!∀ m, Decision (P m)} :
  queue_core db → m ∈ db.(messages) → P m →
  affected (λ x, x.(seq) = m.(seq) ∧ P x) db.(messages) = 1.
Proof.
  intros Hc Hm HP. apply (affected_unique _ seq _ m); [apply Hc|done|done|]. by intros y _ [? _].
Qed.

(** The body of a stored message is within the signed range. *)
Lemma body_bytes_bound db m : queue_core db → m ∈ db.(messages) → body_bytes m ≤ i64_max.
Proof.
  intros Hc Hm. pose proof (core_fk _ Hc) as Hf. rewrite Forall_forall in Hf.
  destruct (Hf m Hm) as [r Hr]. destruct (core_counters _ Hc _ _ Hr) as [_ Hb].
  destruct (core_rows _ Hc _ _ Hr) as (_ & _ & _ & Hmax).
  enough (body_bytes m ≤ bytes_of m.(msg_queue) db.(messages)) by lia. clear -Hm.
  rewrite bytes_of_sum. induction (messages db) as [|x l IH]; [by apply not_elem_of_nil in Hm|].
  cbn [sql_sum foldr]. fold (sql_sum (λ y, if decide (msg_queue y = msg_queue m) then body_bytes y else 0) l).
  pose proof (body_bytes_nonneg x).
  assert (0 ≤ sql_sum (λ y, if decide (msg_queue y = msg_queue m) then body_bytes y else 0) l).
  { apply sql_sum_nonneg. intros y. pose proof (body_bytes_nonneg y). case_decide; lia. }
  apply elem_of_cons in Hm as [->|Hm].
  - rewrite decide_True by done. lia.
  - specialize (IH Hm). case_decide; lia.
Qed.

(** ** Guarded statements *)

(** A delete never aborts and keeps the counters exact. *)
Lemma delete_messages_ok db P `{!∀ m, Decision (P m)} :
  queue_core db →
  ∃ qs, delete_messages P db = Ok (set_queues qs (set_messages (sql_delete P db.(messages)) db)) ∧
    queue_core (set_queues qs (set_messages (sql_delete P db.(messages)) db)) ∧
    (∀ q, (λ r, (r.(lifecycle_generation), r.(config_generation), r.(q_state), r.(config)))
            <$> qs !! q =
          (λ r, (r.(lifecycle_generation), r.(config_generation), r.(q_state), r.(config)))
            <$> db.(queues) !! q).
Proof.
  intros [Hs Hn Hi Hm Hf Hc Ha Hl Hrow]. unfold delete_messages.
  set (gone := sql_where P db.(messages)). set (qs := map_imap _ db.(queues)).
  assert (Hq : ∀ q, qs !! q = (λ r, with_counters (count_of q (sql_delete P db.(messages)))
                                  (bytes_of q (sql_delete P db.(messages))) r) <$> db.(queues) !! q).
  { intros q. unfold qs. rewrite map_lookup_imap. destruct (db.(queues) !! q) as [r|] eqn:E; [|done].
    cbn. destruct (Hc q r E) as [-> ->]. unfold gone. by rewrite count_of_split, bytes_of_split. }
  exists qs. unfold bail_if. rewrite (decide_False (P := ¬ Forall _ _)).
  2: { intros Hno. apply Hno. apply Forall_forall. intros m Hgone.
       apply list_elem_of_filter in Hgone as [_ Hgone]. rewrite Forall_forall in Ha.
       specialize (Ha m Hgone). unfold claim_authorised, claim_ok in *.
       destruct (msg_state m); [done|]. destruct Ha as (r & -> & _ & ? & ?). done. }
  cbn [mbind result_bind]. rewrite decide_False.
  2: { intros Hno. apply Hno. intros q r Hr'. rewrite Hq in Hr'.
       apply fmap_Some in Hr' as (r0 & _ & ->). cbn. split; [apply count_of_nonneg|apply bytes_of_nonneg]. }
  split_and!; [done| |].
  - split; cbn; [by apply NoDup_sql_delete|by apply Forall_sql_delete|by apply NoDup_sql_delete
      |by apply Forall_sql_delete| | |by apply Forall_sql_delete|..].
    + apply Forall_sql_delete. eapply Forall_impl; [exact Hf|]. cbn.
      intros m [r Hr]. rewrite Hq, Hr. done.
    + intros q r Hr'. rewrite Hq in Hr'. by apply fmap_Some in Hr' as (r0 & _ & ->).
    + pose proof (length_filter (λ m, ¬ P m) db.(messages)). unfold sql_delete. lia.
    + intros q r Hr'. rewrite Hq in Hr'. apply fmap_Some in Hr' as (r0 & Hr0 & ->).
      destruct (Hrow q r0 Hr0) as (H1 & H2 & H3 & Hb). refine (conj H1 (conj H2 (conj H3 _))).
      change (bytes_of q (sql_delete P db.(messages)) ≤ i64_max).
      destruct (Hc q r0 Hr0) as [_ Hbytes]. rewrite <-bytes_of_split, <-Hbytes.
      pose proof (bytes_of_nonneg q (sql_where P db.(messages))). lia.
  - intros q. rewrite Hq. by destruct (db.(queues) !! q).
Qed.

(** An update that the guard admits keeps the core: it moves only the state, the
    attempts and the availability. *)
Lemma update_messages_ok db P `{!∀ m, Decision (P m)} f :
  queue_core db → (∀ m, ∃ st att av, f m = move_message st att av m) →
  (∀ m, m ∈ db.(messages) → P m → transition_ok db m (f m)) →
  update_messages P f db = Ok (set_messages (sql_update P f db.(messages)) db) ∧
  queue_core (set_messages (sql_update P f db.(messages)) db).
Proof.
  intros [Hs Hn Hi Hm Hf Hc Ha Hl Hr] Hmove Hok. split.
  { unfold update_messages, bail_if. rewrite decide_False; [done|].
    intros Hno. apply Hno. apply Forall_forall. intros m [HP Hin]%list_elem_of_filter. by apply Hok. }
  assert (Hcol : ∀ {B} (g : Message → B), (∀ st att av m, g (move_message st att av m) = g m) →
    g <$> sql_update P f db.(messages) = g <$> db.(messages)).
  { intros B g Hg. apply sql_update_column. intros m _. destruct (Hmove m) as (?&?&?&->). apply Hg. }
  assert (Hall : ∀ Q : Message → Prop, (∀ m, m ∈ db.(messages) → Q m → P m → Q (f m)) →
    Forall Q db.(messages) → Forall Q (sql_update P f db.(messages))).
  { intros Q HQ HF. rewrite Forall_forall in HF. apply Forall_forall.
    intros m (x & Hx & ->)%elem_of_sql_update. case_decide; auto. }
  split; cbn.
  - by rewrite Hcol.
  - apply Hall; [|done]. intros m _ ? _. by destruct (Hmove m) as (?&?&?&->).
  - by rewrite Hcol.
  - apply Hall; [|done]. intros m Hin (H1 & H2 & H3) HP. destruct (Hok m Hin HP) as [Htr Hav].
    destruct (Hmove m) as (st & att & av & E). rewrite E in *. cbn in *.
    split_and!; cbn; [|done|done]. destruct (msg_state m), st; naive_solver lia.
  - apply Hall; [|done]. intros m _ ? _. by destruct (Hmove m) as (?&?&?&->).
  - intros q r Hr'. destruct (Hc q r Hr') as [-> ->]. rewrite !count_of_sum, !bytes_of_sum.
    rewrite !sql_sum_update; [done|..]; intros m _; by destruct (Hmove m) as (?&?&?&->).
  - apply Hall; [|done]. intros m Hin _ HP. destruct (Hok m Hin HP) as [Htr _].
    destruct (Hmove m) as (st & att & av & E). rewrite E in *. cbn in *.
    destruct st as [|b c g]; [done|]. destruct (msg_state m); [|done].
    eapply (authorises_claim_ok db); [done|]. by apply Htr.
  - unfold sql_update. by rewrite length_fmap.
  - done.
Qed.

(** What an insert does when the guards admit it. *)
Lemma insert_message_inv id queue gen enq av ex ct b db db' :
  insert_message id queue gen enq av ex ct b db = Ok db' →
  ∃ q, db.(queues) !! queue = Some q ∧ q.(q_state) = Accepting ∧ q.(lifecycle_generation) = gen ∧
    Z.of_nat (length b) ≤ q.(config).(max_message_bytes) ∧
    ex = enq + q.(config).(retention_seconds) * 1000 ∧
    q.(message_bytes) + Z.of_nat (length b) ≤ q.(config).(max_backlog_bytes) ∧
    (id ∉ msg_id <$> db.(messages)) ∧ enq ≤ av ∧ enq < ex ∧ 1 ≤ gen ∧ db.(next_seq) ≤ i64_max ∧
    db' = queue_db
      (<[queue := queue_row q.(lifecycle_generation) q.(config_generation) q.(q_state) q.(config)
                    (q.(message_count) + 1) (q.(message_bytes) + Z.of_nat (length b))
                    q.(q_created_at_ms) enq]> db.(queues))
      (db.(messages) ++ [message_row db.(next_seq) id queue gen enq av ex ct b MReady 0])
      (db.(next_seq) + 1) db.(operations) db.(consumers) db.(batches) db.(dlq_pending) db.(wake).
Proof.
  unfold insert_message. destruct (db.(queues) !! queue) as [q|]; [|done]. intros H.
  destruct_result. apply bail_if_Ok in Hm, Hm0. apply dec_stable in Hm.
  injection H as <-. exists q. destruct Hm as (? & ? & ? & ? & ?).
  split_and!; try done; try lia. intros Hin. apply Hm0. by left.
Qed.

Lemma insert_message_ok id queue gen enq av ex ct b db db' :
  queue_core db → insert_message id queue gen enq av ex ct b db = Ok db' → queue_core db'.
Proof.
  intros [Hs Hn Hi Hm Hf Hc Ha Hl Hr] Hins.
  destruct (insert_message_inv _ _ _ _ _ _ _ _ _ _ Hins)
    as (q & Hq & Hst & Hg & Hmax & Hex & Hback & Hid & Hav & Hexp & Hgen & Hseq & ->).
  split; cbn.
  - rewrite fmap_app. apply NoDup_app. split_and!; [done| |apply NoDup_singleton].
    intros x (m & -> & Hx)%list_elem_of_fmap Hy%list_elem_of_singleton.
    rewrite Forall_forall in Hn. specialize (Hn m Hx). cbn in Hy. lia.
  - apply Forall_app. split; [|by apply Forall_singleton; cbn; lia].
    eapply Forall_impl; [exact Hn|]. cbn. lia.
  - rewrite fmap_app. apply NoDup_app. split_and!; [done| |apply NoDup_singleton].
    intros x Hx ->%list_elem_of_singleton. done.
  - apply Forall_app. split; [done|]. apply Forall_singleton. split_and!; cbn; lia.
  - apply Forall_app. split.
    + eapply Forall_impl; [exact Hf|]. cbn. intros m Hm'. by apply lookup_insert_is_Some'; right.
    + apply Forall_singleton. cbn. rewrite lookup_insert_eq. done.
  - intros q' r Hr'. rewrite !count_of_sum, !bytes_of_sum, !sql_sum_app, <-count_of_sum, <-bytes_of_sum.
    cbn. destruct (decide (queue = q')) as [<-|Hne].
    + rewrite lookup_insert_eq in Hr'. injection Hr' as <-. cbn.
      destruct (Hc queue q Hq) as [-> ->]. unfold body_bytes. cbn. lia.
    + rewrite lookup_insert_ne in Hr' by done. destruct (Hc q' r Hr') as [-> ->]. lia.
  - apply Forall_app. split; [done|]. by apply Forall_singleton.
  - rewrite length_app. cbn. lia.
  - apply map_Forall_insert_2; [|done]. destruct (Hr queue q Hq) as (H1 & H2 & H3 & ?).
    refine (conj H1 (conj H2 (conj H3 _))). cbn. destruct H3 as (_ & _ & _ & _ & _ & ?). lia.
Qed.

(** ** Delivery batches and references *)

(** The messages a batch holds. *)
Definition claimed_in (b : N) (m : Message) : Prop := claim_batch_id m = Some b.
#[export] Instance claimed_in_dec b m : Decision (claimed_in b m).
Proof. unfold claimed_in. apply _. Defined.

Definition batch_exact (db : QueueDb) (b : N) (r : Batch) : Prop :=
  r.(batch_message_count) = affected (claimed_in b) db.(messages) ∧ 1 ≤ r.(batch_message_count).

Definition batches_exact (db : QueueDb) : Prop :=
  ∀ b r, db.(batches) !! b = Some r → batch_exact db b r.

(** The bounds of a consumer's columns. *)
Definition consumer_ok (c : Consumer) : Prop :=
  1 ≤ c.(consumer_generation) ≤ i64_max ∧ 1 ≤ c.(execution_generation) ≤ i64_max ∧
  1 ≤ c.(max_batch_size) ≤ 100 ∧ 0 ≤ c.(max_batch_timeout_ms) ≤ 60000 ∧
  0 ≤ c.(max_retries) ≤ 100 ∧ 0 ≤ c.(retry_delay_seconds) ≤ 86400 ∧
  1 ≤ c.(max_concurrency) ≤ 4096 ∧
  (∀ q g, c.(dlq) = Some (q, g) → 1 ≤ g ≤ i64_max ∧ q ≠ c.(consumer_queue)).

Definition consumers_ok (cs : gmap N Consumer) : Prop :=
  (∀ i c, cs !! i = Some c → consumer_ok c) ∧
  (∀ i j c d, cs !! i = Some c → cs !! j = Some d → c.(consumer_queue) = d.(consumer_queue) → i = j).

(** Foreign keys into [queue_state]. *)
Record refs_ok (db : QueueDb) : Prop := {
  ref_batches : ∀ b r, db.(batches) !! b = Some r → is_Some (db.(queues) !! r.(batch_queue));
  ref_operations : ∀ i o, db.(operations) !! i = Some o → is_Some (db.(queues) !! o.(op_queue));
  ref_consumers : ∀ i c, db.(consumers) !! i = Some c →
    is_Some (db.(queues) !! c.(consumer_queue)) ∧
    ∀ q g, c.(dlq) = Some (q, g) → is_Some (db.(queues) !! q);
  ref_pending : ∀ i p, db.(dlq_pending) !! i = Some p →
    is_Some (db.(queues) !! p.(source_queue)) ∧ is_Some (db.(queues) !! p.(target_queue));
}.

(** A claimed message is not waiting for its dead-letter queue. *)
Definition claimed_free (ps : gmap N Pending) (ms : list Message) : Prop :=
  Forall (λ m, m.(msg_state) = MReady ∨ ps !! m.(msg_id) = None) ms.

Record queue_wf (db : QueueDb) : Prop := {
  wf_core : queue_core db;
  wf_batches : batches_exact db;
  wf_refs : refs_ok db;
  wf_consumers : consumers_ok db.(consumers);
  wf_free : claimed_free db.(dlq_pending) db.(messages);
}.

(** Every pending dead letter has its ready message. *)
Definition pending_live (db : QueueDb) : Prop :=
  ∀ i p, db.(dlq_pending) !! i = Some p →
    Exists (λ m, m.(msg_id) = i ∧ m.(msg_state) = MReady) db.(messages).

(** Same keys: what references need of the queue table. *)
Definition same_queues (qs qs' : gmap N QueueRow) : Prop := ∀ q, is_Some (qs !! q) ↔ is_Some (qs' !! q).

Lemma refs_ok_queues db qs : same_queues db.(queues) qs → refs_ok db → refs_ok (set_queues qs db).
Proof.
  intros Hq [Hb Ho Hc Hp]. split; cbn.
  - intros b r Hx. apply Hq. by eapply Hb.
  - intros i o Hx. apply Hq. by eapply Ho.
  - intros i c Hx. destruct (Hc i c Hx) as [H1 H2]. split; [by apply Hq|].
    intros q g Hd. apply Hq. by eapply H2.
  - intros i p Hx. destruct (Hp i p Hx). split; by apply Hq.
Qed.

Lemma refs_ok_messages db ms : refs_ok db → refs_ok (set_messages ms db).
Proof. intros [Hb Ho Hc Hp]. by split. Qed.

Lemma same_queues_fmap {A} (f : QueueRow → A) qs qs' :
  (∀ q, f <$> qs !! q = f <$> qs' !! q) → same_queues qs' qs.
Proof.
  intros H q. specialize (H q). destruct (qs !! q), (qs' !! q); cbn in *; (done || split; intros; eauto).
Qed.
