(* ===== verification/QueueStore.v ===== *)
(** * Queue projection lifecycle and retention

    [crates/storage/src/scheduler/queue.rs] and [queue/helpers.rs]: creation,
    configuration, fencing and deletion of a queue, bounded retention sweeps and
    purges, metrics and counter repair. *)

From stdpp Require Import base numbers list option strings sorting gmap.
From S2P Require Import Prelude ErrorCodes Scheduler Sql QueueDb.

Local Open Scope Z_scope.

(** ** Errors and validation *)

Definition queue_invariant : PlatformError :=
  platform_error QueueInvariantViolation "Queue scheduler invariant failed".
Definition queue_limit : PlatformError :=
  platform_error QueueBatchLimitExceeded "Queue batch limit exceeded".

(** [queue_sql_error] *)
Definition queue_sql_error (e : SqlAbort) : PlatformError :=
  match e with
  | MessageAuthority =>
      platform_error QueueInvariantViolation "Queue message authority rejected the write"
  | OtherConstraint => platform_error QueueStorageUnavailable "Queue storage operation failed"
  end.

Definition QUEUE_MAX_MESSAGE_BYTES : Z := 128000.
Definition QUEUE_MAX_BATCH_MESSAGES : Z := 100.
Definition QUEUE_MAX_BATCH_BYTES : Z := 256000.
Definition QUEUE_MAX_DELAY_SECONDS : Z := 86400.
Definition QUEUE_MIN_RETENTION_SECONDS : Z := 60.
Definition QUEUE_MAX_RETENTION_SECONDS : Z := 1209600.

Definition QueueConfig_validate (c : QueueConfig) : result PlatformError QueueConfig :=
  _ ← bail_if (c.(delivery_delay_seconds) > QUEUE_MAX_DELAY_SECONDS ∨
               ¬ (QUEUE_MIN_RETENTION_SECONDS ≤ c.(retention_seconds) ≤ QUEUE_MAX_RETENTION_SECONDS) ∨
               c.(max_message_bytes) = 0 ∨ c.(max_message_bytes) > QUEUE_MAX_MESSAGE_BYTES ∨
               c.(max_batch_messages) = 0 ∨ c.(max_batch_messages) > QUEUE_MAX_BATCH_MESSAGES ∨
               c.(max_batch_bytes) = 0 ∨ c.(max_batch_bytes) > QUEUE_MAX_BATCH_BYTES ∨
               c.(max_backlog_bytes) = 0)
        (platform_error LimitInvalid "Queue configuration is outside the supported bounds");
  Ok c.

Record QueueProjection := queue_projection {
  p_queue_id : N;
  p_instance_id : N;
  p_lifecycle_generation : Z;
  p_config_generation : Z;
  p_config : QueueConfig;
  p_created_at_ms : Z;
  p_updated_at_ms : Z;
}.

(** [as_i64] *)
Definition as_i64 (value : Z) : QM Z := some_or (i64_checked value) queue_invariant.

(** The parameters of a projection, each converted as the statement binds it. *)
Definition bind_config (c : QueueConfig) : QM unit :=
  _ ← as_i64 c.(max_message_bytes);
  _ ← as_i64 c.(max_batch_bytes);
  _ ← as_i64 c.(max_backlog_bytes);
  mret ().

(** ** Lifecycle *)

Section lifecycle.
(** The instance that owns this scheduler state. *)
Context (instance_id : N).

Definition require_instance (id : N) : QM unit := throw_if (id ≠ instance_id) invalid.

Definition new_queue_row (p : QueueProjection) : QueueRow :=
  queue_row p.(p_lifecycle_generation) p.(p_config_generation) Accepting p.(p_config) 0 0
    p.(p_created_at_ms) p.(p_updated_at_ms).

Definition bind_projection (p : QueueProjection) : QM unit :=
  _ ← as_i64 p.(p_lifecycle_generation);
  _ ← as_i64 p.(p_config_generation);
  bind_config p.(p_config).

Definition create_queue_projection (p : QueueProjection) : QM unit :=
  _ ← lift (QueueConfig_validate p.(p_config));
  _ ← require_instance p.(p_instance_id);
  _ ← throw_if (p.(p_lifecycle_generation) = 0 ∨ p.(p_config_generation) = 0) queue_invariant;
  _ ← bind_projection p;
  qs ← gets queues;
  _ ← throw_if (is_Some (qs !! p.(p_queue_id))) queue_invariant;
  _ ← modify (set_queues (<[p.(p_queue_id) := new_queue_row p]> qs));
  modify notify.

Definition exact_projection (p : QueueProjection) (q : QueueRow) : Prop :=
  q.(lifecycle_generation) = p.(p_lifecycle_generation) ∧
  q.(config_generation) = p.(p_config_generation) ∧
  q.(q_state) = Accepting ∧ q.(config) = p.(p_config).
#[export] Instance exact_projection_dec p q : Decision (exact_projection p q).
Proof. unfold exact_projection. apply _. Defined.

Definition verify_queue_projection (p : QueueProjection) : QM unit :=
  _ ← require_instance p.(p_instance_id);
  _ ← bind_projection p;
  qs ← gets queues;
  throw_if (¬ is_some_and (exact_projection p) (qs !! p.(p_queue_id))) queue_invariant.

(** [INSERT OR IGNORE] also skips a row that fails a [CHECK]. *)
Definition ensure_queue_projection (p : QueueProjection) : QM unit :=
  _ ← lift (QueueConfig_validate p.(p_config));
  _ ← require_instance p.(p_instance_id);
  _ ← bind_projection p;
  qs ← gets queues;
  _ ← (if decide (qs !! p.(p_queue_id) = None ∧ 1 ≤ p.(p_lifecycle_generation) ∧
                  1 ≤ p.(p_config_generation))
       then modify (set_queues (<[p.(p_queue_id) := new_queue_row p]> qs)) else mret ());
  verify_queue_projection p.

(** An [UPDATE queue_state] of one row under a condition: [changed != 1] is the
    caller's error. *)
Definition update_queue_row (id : N) (P : QueueRow → Prop) `{!∀ q, Decision (P q)}
    (f : QueueRow → QueueRow) (e : PlatformError) : QM unit :=
  qs ← gets queues;
  q ← some_or (qs !! id) e;
  _ ← throw_if (¬ P q) e;
  modify (set_queues (<[id := f q]> qs)).

Definition begin_queue_config (id : N) (lifecycle config_gen now_ms : Z) : QM unit :=
  lifecycle ← as_i64 lifecycle;
  config_gen ← as_i64 config_gen;
  _ ← update_queue_row id (λ q, q.(lifecycle_generation) = lifecycle ∧
        q.(config_generation) = config_gen ∧ (q.(q_state) = Accepting ∨ q.(q_state) = Configuring))
        (with_state Configuring now_ms)
        (platform_error QueueConfigPending "Queue config fence could not be installed");
  modify notify.

(** The columns a config projection replaces. *)
Definition with_config (p : QueueProjection) (st : SchedulerQueueState) (q : QueueRow) : QueueRow :=
  queue_row q.(lifecycle_generation) p.(p_config_generation) st p.(p_config) q.(message_count)
    q.(message_bytes) q.(q_created_at_ms) p.(p_updated_at_ms).

Definition project_queue_config (p : QueueProjection) : QM unit :=
  _ ← lift (QueueConfig_validate p.(p_config));
  _ ← require_instance p.(p_instance_id);
  prior ← some_or (u64_checked (p.(p_config_generation) - 1)) queue_invariant;
  _ ← bind_projection p;
  prior ← as_i64 prior;
  update_queue_row p.(p_queue_id) (λ q, q.(lifecycle_generation) = p.(p_lifecycle_generation) ∧
    q.(config_generation) = prior ∧ q.(q_state) = Configuring)
    (with_config p Configuring) queue_invariant.

Definition reconcile_queue_config (p : QueueProjection) : QM unit :=
  _ ← lift (QueueConfig_validate p.(p_config));
  _ ← require_instance p.(p_instance_id);
  prior ← some_or (u64_checked (p.(p_config_generation) - 1)) queue_invariant;
  transaction (
    lifecycle ← as_i64 p.(p_lifecycle_generation);
    qs ← gets queues;
    q ← some_or (qs !! p.(p_queue_id)) queue_invariant;
    _ ← throw_if (q.(lifecycle_generation) ≠ lifecycle) queue_invariant;
    generation ← some_or (u64_checked q.(config_generation)) queue_invariant;
    if decide (generation = prior ∧ (q.(q_state) = Accepting ∨ q.(q_state) = Configuring)) then
      _ ← bind_projection p;
      _ ← as_i64 prior;
      modify (set_queues (<[p.(p_queue_id) := with_config p Configuring q]> qs))
    else if decide (generation = p.(p_config_generation) ∧
                    (q.(q_state) = Configuring ∨ q.(q_state) = Accepting)) then
      _ ← bind_config p.(p_config);
      throw_if (q.(config) ≠ p.(p_config)) queue_invariant
    else throw queue_invariant).

Definition finish_queue_config (id : N) (lifecycle config_gen now_ms : Z) : QM unit :=
  lifecycle ← as_i64 lifecycle;
  config_gen ← as_i64 config_gen;
  _ ← update_queue_row id (λ q, q.(lifecycle_generation) = lifecycle ∧
        q.(config_generation) = config_gen ∧ (q.(q_state) = Configuring ∨ q.(q_state) = Accepting))
        (with_state Accepting now_ms) queue_invariant;
  modify notify.

(** ** Metrics *)

Definition queue_metrics_values (count bytes : Z) (oldest : option Z) :
    result PlatformError QueueMetrics :=
  _ ← ok_or_else (u64_checked count) queue_invariant;
  _ ← ok_or_else (u64_checked bytes) queue_invariant;
  _ ← bail_if (bool_decide (count = 0) ≠ bool_decide (oldest = None)) queue_invariant;
  Ok (queue_metrics_row count bytes oldest).

(** [metrics_tx] and [metrics_connection]: no row is [QueryReturnedNoRows]. *)
Definition metrics_tx (id : N) : QM QueueMetrics :=
  qs ← gets queues;
  q ← some_or (qs !! id) unavailable;
  ms ← gets messages;
  let oldest := enqueued_at_ms <$>
    head (order_by (λ m, [m.(enqueued_at_ms); m.(seq)]) (sql_where (λ m, m.(msg_queue) = id) ms)) in
  lift (queue_metrics_values q.(message_count) q.(message_bytes) oldest).

Definition queue_metrics (id : N) (lifecycle config_gen : Z) : QM QueueMetrics :=
  lifecycle ← as_i64 lifecycle;
  config_gen ← as_i64 config_gen;
  qs ← gets queues;
  _ ← throw_if (¬ is_some_and (λ q, q.(lifecycle_generation) = lifecycle ∧
        q.(config_generation) = config_gen ∧ q.(q_state) = Accepting) (qs !! id))
        (platform_error QueueConfigPending "Queue projection does not admit metrics");
  metrics_tx id.

Definition queue_backlog_totals : QM (Z * Z) :=
  qs ← gets queues;
  let rows := (map_to_list qs).*2 in
  messages ← some_or (u64_checked (sql_sum message_count rows)) queue_invariant;
  bytes ← some_or (u64_checked (sql_sum message_bytes rows)) queue_invariant;
  mret (messages, bytes).

(** ** Deletion *)

Definition fence_queue_delete (id : N) (lifecycle now_ms : Z) : QM QueueMetrics :=
  metrics ← transaction (
    lifecycle ← as_i64 lifecycle;
    _ ← update_queue_row id (λ q, q.(lifecycle_generation) = lifecycle)
          (with_state Deleting now_ms) queue_invariant;
    metrics_tx id);
  _ ← modify notify;
  mret metrics.

Definition delete_queue_projection (id : N) (lifecycle : Z) : QM unit :=
  ops ← gets operations;
  _ ← modify (set_operations
        (filter (λ '(_, o), ¬ (o.(op_queue) = id ∧ o.(finalized_at_ms) ≠ None)) ops));
  lifecycle ← as_i64 lifecycle;
  qs ← gets queues;
  _ ← (if decide (is_some_and (λ q, q.(lifecycle_generation) = lifecycle ∧
                     q.(q_state) = Deleting ∧ q.(message_count) = 0 ∧ q.(message_bytes) = 0)
                    (qs !! id))
       then execute map_sql_error (delete_queue_row id)
       else throw_if (is_Some (qs !! id)) queue_invariant);
  modify notify.
End lifecycle.

(** ** Retention sweep and purge *)

Record QueueDeleteBatch := queue_delete_batch {
  del_messages : Z;
  del_bytes : Z;
  next_expiry_at_ms : option Z;
  expired_remaining : bool;
}.

(** The byte budget loop: the first candidate is always taken. *)
Fixpoint take_budget (max_bytes bytes : Z) (first : bool) (ms : list Message) :
    result PlatformError (list Message) :=
  match ms with
  | [] => Ok []
  | m :: ms =>
      size ← ok_or_else (u64_checked (body_bytes m)) queue_invariant;
      if decide (first = false ∧ u64_saturate (bytes + size) > max_bytes) then Ok []
      else
        bytes ← ok_or_else (u64_checked (bytes + size)) queue_invariant;
        rest ← take_budget max_bytes bytes false ms;
        Ok (m :: rest)
  end.

Definition select_delete_candidates (queue_id : option N) (expires_before : option Z)
    (max_rows max_bytes : Z) : QM (list Message) :=
  ms ← gets messages;
  lift (take_budget max_bytes 0 true
    (take (Z.to_nat max_rows)
      (order_by (λ m, [m.(msg_expires_at_ms); Z.of_N m.(msg_queue); m.(seq)])
        (sql_where (λ m, m.(msg_state) = MReady ∧
           is_none_or (λ q, m.(msg_queue) = q) queue_id ∧
           is_none_or (λ t, m.(msg_expires_at_ms) ≤ t) expires_before) ms)))).

(** One iteration of the deletion loops: the pending dead letter of the message,
    then the message, under the condition of the statement. *)
Definition delete_candidate (P : Message → Prop) `{!∀ m, Decision (P m)} (c : Message) : QM Z :=
  ms ← gets messages;
  _ ← modify (λ db, set_dlq_pending (filter (λ '(id, _),
        ¬ Exists (λ m, m.(seq) = c.(seq) ∧ m.(msg_id) = id) ms) db.(dlq_pending)) db);
  let hit := λ m, m.(seq) = c.(seq) ∧ P m in
  _ ← execute queue_sql_error (delete_messages hit);
  _ ← throw_if (affected hit ms ≠ 1) queue_invariant;
  mret (body_bytes c).

Fixpoint checked_total (total : Z) (sizes : list Z) : QM Z :=
  match sizes with
  | [] => mret total
  | size :: sizes =>
      total ← some_or (u64_checked (total + size)) queue_invariant;
      checked_total total sizes
  end.

Definition delete_expired_operations (now_ms max_rows : Z) : QM unit :=
  ops ← gets operations;
  let expired := filter (λ '(_, o), is_some_and (λ t, t ≤ now_ms) o.(op_expires_at_ms))
                   (map_to_list ops) in
  let doomed := take (Z.to_nat max_rows)
    (order_by (λ '(id, o), [default 0 o.(op_expires_at_ms); Z.of_N id]) expired) in
  modify (set_operations (filter (λ '(id, _), id ∉ doomed.*1) ops)).

Definition delete_queue_operations (id : N) : QM unit :=
  ops ← gets operations;
  modify (set_operations
    (filter (λ '(_, o), ¬ (o.(op_queue) = id ∧ o.(finalized_at_ms) ≠ None)) ops)).

(** [SELECT MIN(expiry) FROM (.. UNION ALL ..)] *)
Definition next_expiry : QM (option Z) :=
  ms ← gets messages;
  ops ← gets operations;
  mret (sql_min id (omap id
    [sql_min msg_expires_at_ms (sql_where (λ m, m.(msg_state) = MReady) ms);
     sql_min id (omap (λ '(_, o), o.(op_expires_at_ms)) (map_to_list ops))])).

Definition sweep_queue_retention (now_ms max_rows max_bytes : Z) : QM QueueDeleteBatch :=
  _ ← throw_if (max_rows = 0 ∨ max_bytes = 0)
        (platform_error LimitInvalid "Queue sweep budget is invalid");
  '(candidates, summary) ← transaction (
    candidates ← select_delete_candidates None (Some now_ms) max_rows max_bytes;
    sizes ← for_each (delete_candidate (λ m, m.(msg_state) = MReady ∧
                        m.(msg_expires_at_ms) ≤ now_ms)) candidates;
    bytes ← checked_total 0 sizes;
    _ ← delete_expired_operations now_ms max_rows;
    ms ← gets messages;
    ops ← gets operations;
    let remaining := bool_decide
      (Exists (λ m, m.(msg_state) = MReady ∧ m.(msg_expires_at_ms) ≤ now_ms) ms ∨
       ¬ map_Forall (λ _ o, ¬ is_some_and (λ t, t ≤ now_ms) o.(op_expires_at_ms)) ops) in
    next ← next_expiry;
    mret (candidates,
          queue_delete_batch (Z.of_nat (length candidates)) bytes next remaining));
  _ ← (if decide (Z.of_nat (length candidates) > 0) then modify notify else mret ());
  mret summary.

Definition purge_queue (queue_id : N) (max_rows max_bytes : Z) : QM QueueDeleteBatch :=
  _ ← throw_if (max_rows = 0 ∨ max_bytes = 0)
        (platform_error LimitInvalid "Queue purge budget is invalid");
  '(candidates, summary) ← transaction (
    qs ← gets queues;
    _ ← throw_if (¬ is_some_and (λ q, q.(q_state) = Deleting) (qs !! queue_id)) queue_invariant;
    candidates ← select_delete_candidates (Some queue_id) None max_rows max_bytes;
    sizes ← for_each (delete_candidate (λ m, m.(msg_queue) = queue_id ∧ m.(msg_state) = MReady))
              candidates;
    bytes ← checked_total 0 sizes;
    _ ← delete_queue_operations queue_id;
    ms ← gets messages;
    ops ← gets operations;
    let remaining := bool_decide
      (Exists (λ m, m.(msg_queue) = queue_id) ms ∨
       ¬ map_Forall (λ _ o, o.(op_queue) ≠ queue_id) ops) in
    next ← next_expiry;
    mret (candidates,
          queue_delete_batch (Z.of_nat (length candidates)) bytes next remaining));
  _ ← (if decide (Z.of_nat (length candidates) > 0) then modify notify else mret ());
  mret summary.

Definition queue_workload_summary_connection (now_ms : Z) (db : QueueDb) : WorkloadSummary :=
  let due := sql_where (λ m, m.(msg_state) = MReady ∧ m.(msg_expires_at_ms) ≤ now_ms) db.(messages) in
  workload_summary (Z.of_nat (length due)) 0 0 (sql_min msg_expires_at_ms due)
    (sql_min msg_expires_at_ms (sql_where (λ m, m.(msg_state) = MReady) db.(messages))).

(** ** Counter repair *)

Record QueueCounterMismatch := queue_counter_mismatch {
  mm_queue : N;
  stored_count : Z;
  actual_count : Z;
  stored_bytes : Z;
  actual_bytes : Z;
}.

Definition counter_mismatches_connection (db : QueueDb) : list QueueCounterMismatch :=
  omap (λ '(id, q),
    let count := count_of id db.(messages) in
    let bytes := bytes_of id db.(messages) in
    if decide (q.(message_count) ≠ count ∨ q.(message_bytes) ≠ bytes)
    then Some (queue_counter_mismatch id q.(message_count) count q.(message_bytes) bytes)
    else None) (map_to_list db.(queues)).

Definition repair_queue_counter (mm : QueueCounterMismatch) : QM bool :=
  _ ← as_i64 mm.(actual_count);
  _ ← as_i64 mm.(actual_bytes);
  _ ← as_i64 mm.(stored_count);
  _ ← as_i64 mm.(stored_bytes);
  qs ← gets queues;
  ms ← gets messages;
  match qs !! mm.(mm_queue) with
  | Some q =>
      if decide (q.(message_count) = mm.(stored_count) ∧ q.(message_bytes) = mm.(stored_bytes) ∧
                 count_of mm.(mm_queue) ms = mm.(actual_count) ∧
                 bytes_of mm.(mm_queue) ms = mm.(actual_bytes))
      then
        _ ← modify (set_queues (<[mm.(mm_queue) :=
               with_counters mm.(actual_count) mm.(actual_bytes) q]> qs));
        mret true
      else mret false
  | None => mret false
  end.
