(* ===== verification/QueueEnqueue.v ===== *)
(** * Idempotent enqueue

    [crates/storage/src/scheduler/queue/operations.rs] and the request validation
    of [queue/helpers.rs]: a producer's batch is inserted atomically, the outcome is
    stored under the request id, and a retry returns the stored outcome.  The SHA-256
    digest, the text of an identifier and the generated message ids are parameters. *)

From stdpp Require Import base numbers list option strings sorting gmap.
From S2P Require Import Prelude Text ErrorCodes Sql QueueDb QueueStore.

Local Open Scope Z_scope.

(** ** Requests *)

Record QueueMessageInput := queue_message_input {
  in_content_type : QueueContentType;
  in_body : list Z;
  in_delay_seconds : option Z;
}.

Record QueueEnqueueRequest := queue_enqueue_request {
  r_queue_id : N;
  r_request_id : N;
  r_output_gate : bool;
  r_lifecycle_generation : Z;
  r_config_generation : Z;
  r_batch_delay_seconds : option Z;
  r_messages : list QueueMessageInput;
}.

Record QueueEnqueueResult := queue_enqueue_result {
  message_ids : list N;
  metrics : QueueMetrics;
}.

Definition in_len (m : QueueMessageInput) : Z := Z.of_nat (length m.(in_body)).

Definition validate_delay (delay : option Z) : result PlatformError unit :=
  bail_if (is_some_and (λ d, d > QUEUE_MAX_DELAY_SECONDS) delay)
    (platform_error QueueDelayInvalid "Queue delay is outside 0..86400").

(** The loop of [validate_request] *)
Fixpoint validate_messages (total : Z) (ms : list QueueMessageInput) : result PlatformError unit :=
  match ms with
  | [] => Ok ()
  | m :: ms =>
      _ ← validate_delay m.(in_delay_seconds);
      len ← ok_or_else (u64_checked (in_len m)) queue_limit;
      _ ← bail_if (len > QUEUE_MAX_MESSAGE_BYTES)
            (platform_error QueueMessageTooLarge "Queue message exceeds 128000 bytes");
      total ← ok_or_else (u64_checked (total + len)) queue_limit;
      _ ← bail_if (total > QUEUE_MAX_BATCH_BYTES) queue_limit;
      validate_messages total ms
  end.

Definition validate_request (r : QueueEnqueueRequest) : result PlatformError unit :=
  _ ← bail_if (r.(r_lifecycle_generation) = 0 ∨ r.(r_config_generation) = 0 ∨ r.(r_messages) = [])
        (platform_error QueueInvalidMessage "Queue batch is empty or invalid");
  count ← ok_or_else (u32_checked (Z.of_nat (length r.(r_messages)))) queue_limit;
  _ ← bail_if (count > QUEUE_MAX_BATCH_MESSAGES) queue_limit;
  _ ← validate_delay r.(r_batch_delay_seconds);
  validate_messages 0 r.(r_messages).

(** The loop of [validate_dynamic_limits], and its total *)
Fixpoint dynamic_total (max_message_bytes total : Z) (ms : list QueueMessageInput) :
    result PlatformError Z :=
  match ms with
  | [] => Ok total
  | m :: ms =>
      len ← ok_or_else (u64_checked (in_len m)) queue_limit;
      _ ← bail_if (len > max_message_bytes)
            (platform_error QueueMessageTooLarge "Queue message exceeds its configured limit");
      total ← ok_or_else (u64_checked (total + len)) queue_limit;
      dynamic_total max_message_bytes total ms
  end.

Definition validate_dynamic_limits (r : QueueEnqueueRequest) (c : QueueConfig) :
    result PlatformError unit :=
  count ← ok_or_else (u32_checked (Z.of_nat (length r.(r_messages)))) queue_limit;
  _ ← bail_if (count > c.(max_batch_messages)) queue_limit;
  total ← dynamic_total c.(max_message_bytes) 0 r.(r_messages);
  bail_if (total > c.(max_batch_bytes)) queue_limit.

(** The [try_fold] of the enqueue *)
Fixpoint body_total (sum : Z) (ms : list QueueMessageInput) : result PlatformError Z :=
  match ms with
  | [] => Ok sum
  | m :: ms =>
      len ← ok_or_else (u64_checked (in_len m)) queue_limit;
      sum ← ok_or_else (u64_checked (sum + len)) queue_limit;
      body_total sum ms
  end.

Definition checked_timestamp (now_ms seconds : Z) : result PlatformError Z :=
  delta ← ok_or_else (i64_checked (seconds * 1000)) queue_invariant;
  ok_or_else (i64_checked (now_ms + delta))
    (platform_error QueueDelayInvalid "Queue timestamp overflow").

(** [read_state_tx]: a column outside its unsigned type does not convert. *)
Definition read_state_tx (id : N) : QM QueueRow :=
  qs ← gets queues;
  q ← some_or (qs !! id) (platform_error QueueNotFound "Queue projection was not found");
  _ ← throw_if (¬ (in_u64 q.(lifecycle_generation) ∧ in_u64 q.(config_generation) ∧
                   in_u32 q.(config).(delivery_delay_seconds) ∧
                   in_u32 q.(config).(retention_seconds) ∧
                   in_u64 q.(config).(max_message_bytes) ∧
                   in_u32 q.(config).(max_batch_messages) ∧
                   in_u64 q.(config).(max_batch_bytes) ∧
                   in_u64 q.(config).(max_backlog_bytes) ∧
                   in_u64 q.(message_bytes))) unavailable;
  mret q.

(** ** The request fingerprint *)

(** [to_be_bytes] of an [n]-byte integer *)
Fixpoint be_bytes (n : nat) (z : Z) : list Z :=
  match n with
  | O => []
  | S n => be_bytes n (z / 256) ++ [z `mod` 256]
  end.

Definition content_type_str (c : QueueContentType) : ustr :=
  match c with Json => lit "json" | Text => lit "text" | Bytes => lit "bytes" | V8 => lit "v8" end.

Definition message_preimage (m : QueueMessageInput) : list Z :=
  content_type_str m.(in_content_type) ++ [255] ++
  be_bytes 8 (default u64_max (u64_checked (in_len m))) ++ m.(in_body) ++
  match m.(in_delay_seconds) with
  | Some delay => [1] ++ be_bytes 4 delay
  | None => [0]
  end.

Section enqueue.
Context (sha256 : list Z → list Z) (id_text : N → list Z).

(** The bytes fed to the hasher. *)
Definition enqueue_preimage (r : QueueEnqueueRequest) : list Z :=
  id_text r.(r_queue_id) ++
  be_bytes 8 r.(r_lifecycle_generation) ++
  be_bytes 8 r.(r_config_generation) ++
  [if r.(r_output_gate) then 1 else 0] ++
  be_bytes 8 (default u64_max (u64_checked (Z.of_nat (length r.(r_messages))))) ++
  be_bytes 4 (match r.(r_batch_delay_seconds) with Some _ => 1 | None => 0 end) ++
  match r.(r_batch_delay_seconds) with Some delay => be_bytes 4 delay | None => [] end ++
  concat (message_preimage <$> r.(r_messages)).

Definition enqueue_fingerprint (r : QueueEnqueueRequest) : list Z := sha256 (enqueue_preimage r).

(** ** The transaction *)

Definition replay_enqueue (r : QueueEnqueueRequest) (fp : list Z) : QM (option QueueEnqueueResult) :=
  ops ← gets operations;
  match ops !! r.(r_request_id) with
  | None => mret None
  | Some o =>
      generation ← some_or (u64_checked o.(op_generation)) queue_invariant;
      _ ← throw_if (o.(op_queue) ≠ r.(r_queue_id) ∨ generation ≠ r.(r_lifecycle_generation) ∨
                    o.(fingerprint) ≠ fp)
            (platform_error IdempotencyConflict
               "Queue enqueue operation identity was reused with a different request");
      mret (Some (queue_enqueue_result o.(op_message_ids) o.(op_metrics)))
  end.

(** The [for message in &request.messages] loop: [gen] generates the message ids. *)
Fixpoint insert_loop (gen : nat → N) (r : QueueEnqueueRequest) (q : QueueRow)
    (now_ms expires_at_ms : Z) (i : nat) (ms : list QueueMessageInput) : QM (list N) :=
  match ms with
  | [] => mret []
  | m :: ms =>
      let delay := match m.(in_delay_seconds) with
                   | Some d => d
                   | None => default q.(config).(delivery_delay_seconds) r.(r_batch_delay_seconds)
                   end in
      available_at_ms ← lift (checked_timestamp now_ms delay);
      lifecycle ← as_i64 r.(r_lifecycle_generation);
      _ ← execute queue_sql_error (insert_message (gen i) r.(r_queue_id) lifecycle now_ms
            available_at_ms expires_at_ms m.(in_content_type) m.(in_body));
      ids ← insert_loop gen r q now_ms expires_at_ms (S i) ms;
      mret (gen i :: ids)
  end.

(** [insert_enqueue_operation] with the constraints of the row *)
Definition insert_enqueue_operation (r : QueueEnqueueRequest) (fp : list Z) (ids : list N)
    (mt : QueueMetrics) (created retention expires : Z) : QM unit :=
  lifecycle ← as_i64 r.(r_lifecycle_generation);
  ops ← gets operations;
  qs ← gets queues;
  _ ← throw_if (is_Some (ops !! r.(r_request_id)) ∨ qs !! r.(r_queue_id) = None ∨ lifecycle < 1 ∨
                ¬ (60 ≤ retention ≤ 1209600) ∨ (r.(r_output_gate) = false ∧ expires ≤ created))
        (queue_sql_error OtherConstraint);
  modify (set_operations (<[r.(r_request_id) := operation_row r.(r_queue_id) lifecycle fp ids mt
    r.(r_output_gate) retention created
    (if r.(r_output_gate) then None else Some created)
    (if r.(r_output_gate) then None else Some expires)]> ops)).

Definition enqueue_new (gen : nat → N) (r : QueueEnqueueRequest) (fp : list Z) (now_ms : Z) :
    QM QueueEnqueueResult :=
  q ← read_state_tx r.(r_queue_id);
  _ ← throw_if (q.(lifecycle_generation) ≠ r.(r_lifecycle_generation) ∨
                q.(config_generation) ≠ r.(r_config_generation)) queue_invariant;
  _ ← match q.(q_state) with
      | Accepting => mret ()
      | Configuring => throw (platform_error QueueConfigPending "Queue config projection is pending")
      | Deleting => throw (platform_error QueueNotReady "Queue does not accept producer messages")
      end;
  _ ← lift (validate_dynamic_limits r q.(config));
  total ← lift (body_total 0 r.(r_messages));
  _ ← throw_if (u64_saturate (q.(message_bytes) + total) > q.(config).(max_backlog_bytes))
        (platform_error QueueBacklogLimitExceeded "Queue backlog byte limit would be exceeded");
  expires ← lift (checked_timestamp now_ms q.(config).(retention_seconds));
  ids ← insert_loop gen r q now_ms expires 0 r.(r_messages);
  mt ← metrics_tx r.(r_queue_id);
  _ ← insert_enqueue_operation r fp ids mt now_ms q.(config).(retention_seconds) expires;
  mret (queue_enqueue_result ids mt).

Definition enqueue_queue (gen : nat → N) (r : QueueEnqueueRequest) (now_ms : Z) :
    QM QueueEnqueueResult :=
  _ ← lift (validate_request r);
  let fp := enqueue_fingerprint r in
  '(fresh, result) ← transaction (
    replay ← replay_enqueue r fp;
    match replay with
    | Some result => mret (false, result)
    | None => result ← enqueue_new gen r fp now_ms; mret (true, result)
    end);
  _ ← (if decide (fresh = true) then modify notify else mret ());
  mret result.

Definition finalize_queue_enqueue (request_id queue_id : N) (lifecycle now_ms : Z) : QM unit :=
  transaction (
    ops ← gets operations;
    match ops !! request_id with
    | None => mret ()
    | Some o =>
        generation ← some_or (u64_checked o.(op_generation)) queue_invariant;
        _ ← throw_if (o.(op_queue) ≠ queue_id ∨ generation ≠ lifecycle ∨ o.(output_gate) = false)
              (platform_error IdempotencyConflict
                 "Queue finalize operation identity does not match its enqueue");
        match o.(finalized_at_ms) with
        | Some _ => mret ()
        | None =>
            retention ← some_or (u32_checked o.(op_retention_seconds)) queue_invariant;
            expires ← lift (checked_timestamp now_ms retention);
            _ ← throw_if (expires ≤ now_ms) (queue_sql_error OtherConstraint);
            modify (set_operations (<[request_id :=
              operation_row o.(op_queue) o.(op_generation) o.(fingerprint) o.(op_message_ids)
                o.(op_metrics) o.(output_gate) o.(op_retention_seconds) o.(op_created_at_ms)
                (Some now_ms) (Some expires)]> ops))
        end
    end).
End enqueue.
