(* ===== verification/QueueConsumer.v ===== *)
(** * Queue delivery

    [crates/storage/src/scheduler/queue_consumer.rs] and its helpers: claiming
    batches for eligible consumers, applying a complete disposition, forwarding
    pending dead letters, and resetting interrupted claims at start-up. *)

From stdpp Require Import base numbers list option strings sorting gmap.
From S2P Require Import Prelude ErrorCodes Scheduler Sql QueueDb.

Local Open Scope Z_scope.

(** ** Data *)

Record ClaimedQueueMessage := claimed_queue_message {
  cm_id : N;
  cm_enqueued_at_ms : Z;
  delivery_attempt : Z;
  cm_content_type : QueueContentType;
  cm_body : list Z;
}.

Record ClaimedQueueBatch := claimed_queue_batch {
  b_id : N;
  b_instance_id : N;
  b_queue : N;
  b_consumer : N;
  b_generation : Z;
  b_version : N;
  b_worker : N;
  b_execution_generation : Z;
  b_entrypoint : option string;
  b_max_retries : Z;
  b_dead_letter_queue : option (N * Z);
  b_retry_delay_seconds : Z;
  b_messages : list ClaimedQueueMessage;
}.

Inductive QueueCompletionAction : Type := Ack | Retry (delay_seconds : Z).

Record QueueCompletionSummary := queue_completion_summary {
  acknowledged : Z;
  retried : Z;
  dead_lettered : Z;
  dlq_pending_count : Z;
  discarded : Z;
  stale : bool;
}.

Record QueueDlqForwardSummary := queue_dlq_forward_summary {
  moved : Z;
  fw_expired : Z;
  deferred : Z;
}.

Definition consumer_invariant : PlatformError :=
  platform_error QueueInvariantViolation "Queue consumer scheduler invariant failed".
Definition disposition_invalid : PlatformError :=
  platform_error QueueDispositionInvalid "Queue disposition does not exactly match the claimed batch".

Definition QUEUE_CONSUMER_MAX_BATCH_SIZE : Z := 100.

Definition add_ms (now_ms delta_ms : Z) : QM Z :=
  delta ← some_or (i64_checked delta_ms) consumer_invariant;
  some_or (i64_checked (now_ms + delta)) consumer_invariant.

Definition consumer_i64 (value : Z) : QM Z := some_or (i64_checked value) consumer_invariant.

(** ** Claims *)

(** A message a consumer of [queue] may be given now. *)
Definition deliverable (db : QueueDb) (now_ms : Z) (queue : N) (m : Message) : Prop :=
  m.(msg_queue) = queue ∧ m.(msg_state) = MReady ∧ m.(available_at_ms) ≤ now_ms ∧
  m.(msg_expires_at_ms) > now_ms ∧ db.(dlq_pending) !! m.(msg_id) = None.
#[export] Instance deliverable_dec db now_ms queue m : Decision (deliverable db now_ms queue m).
Proof. unfold deliverable. apply _. Defined.

Definition deliverables (db : QueueDb) (now_ms : Z) (queue : N) : list Message :=
  order_by (λ m, [m.(available_at_ms); m.(seq)])
    (sql_where (deliverable db now_ms queue) db.(messages)).

(** [SELECT COUNT] of the batches of a queue *)
Definition in_flight (db : QueueDb) (queue : N) : Z :=
  affected (λ ib, ib.2.(batch_queue) = queue) (map_to_list db.(batches)).

(** The [WHERE] clause of [eligible_consumers_tx]; the sum with a null is null. *)
Definition eligible (db : QueueDb) (now_ms : Z) (c : Consumer) : Prop :=
  let due := deliverables db now_ms c.(consumer_queue) in
  is_Some (db.(queues) !! c.(consumer_queue)) ∧ c.(active) = true ∧
  in_flight db c.(consumer_queue) < c.(max_concurrency) ∧
  (is_some_and (λ m : Message, m.(available_at_ms) + c.(max_batch_timeout_ms) ≤ now_ms) (head due) ∨
   c.(max_batch_size) ≤ Z.min (Z.of_nat (length due)) QUEUE_CONSUMER_MAX_BATCH_SIZE).
#[export] Instance eligible_dec db now_ms c : Decision (eligible db now_ms c).
Proof. unfold eligible. cbv zeta. apply _. Defined.

(** The wraparound cursor orders the queues after [after] first. *)
Definition cursor_column (after : option N) (queue : N) : Z :=
  if decide (is_none_or (λ a, (a < queue)%N) after) then 0 else 1.

(** [map_consumer]: a column outside its unsigned type does not convert. *)
Definition consumer_converts (c : Consumer) : Prop :=
  in_u64 c.(consumer_generation) ∧ in_u64 c.(execution_generation) ∧ in_u32 c.(max_batch_size) ∧
  in_u32 (c.(max_batch_timeout_ms) `quot` 1000) ∧ in_u32 c.(max_retries) ∧
  in_u32 c.(retry_delay_seconds) ∧ in_u32 c.(max_concurrency) ∧
  is_none_or (λ d, in_u64 d.2) c.(dlq).
#[export] Instance consumer_converts_dec c : Decision (consumer_converts c).
Proof. unfold consumer_converts. apply _. Defined.

Definition eligible_consumers_tx (now_ms limit : Z) (after : option N) : QM (list (N * Consumer)) :=
  db ← gets id;
  let rows := take (Z.to_nat limit)
    (order_by (λ ic, [cursor_column after ic.2.(consumer_queue); Z.of_N ic.2.(consumer_queue);
                      Z.of_N ic.1])
      (sql_where (λ ic, eligible db now_ms ic.2) (map_to_list db.(consumers)))) in
  _ ← throw_if (¬ Forall (λ ic, consumer_converts ic.2) rows) consumer_invariant;
  mret rows.

(** [map_message]: the attempts are a [u16]. *)
Definition messages_convert (ms : list Message) : Prop := Forall (λ m, in_u16 m.(attempts)) ms.

Definition due_messages_tx (c : Consumer) (now_ms : Z) : QM (list Message) :=
  db ← gets id;
  let rows := take (Z.to_nat c.(max_batch_size)) (deliverables db now_ms c.(consumer_queue)) in
  _ ← throw_if (¬ messages_convert rows) consumer_invariant;
  mret rows.

Section claim.
Context (instance_id : N).
(** [QueueBatchId::generate], one id per batch of a claim *)
Context (gen : nat → N).

(** One iteration of [for message in &messages]: the claim of one message. *)
Definition claim_message (now_ms : Z) (batch consumer : N) (generation : Z) (m : Message) : QM unit :=
  db ← gets id;
  let hit := λ x, x.(seq) = m.(seq) ∧
    (x.(msg_state) = MReady ∧ x.(available_at_ms) ≤ now_ms ∧ x.(msg_expires_at_ms) > now_ms ∧
     db.(dlq_pending) !! x.(msg_id) = None) in
  _ ← execute map_sql_error (update_messages hit (λ x,
        move_message (MClaimed batch consumer generation) x.(attempts) x.(available_at_ms) x));
  throw_if (affected hit db.(messages) ≠ 1) consumer_invariant.

Definition to_claimed (m : Message) : ClaimedQueueMessage :=
  claimed_queue_message m.(msg_id) m.(enqueued_at_ms) (u16_saturate (m.(attempts) + 1))
    m.(content_type) m.(body).

Definition claim_batch (now_ms : Z) (batch consumer_id : N) (c : Consumer) (ms : list Message) :
    QM ClaimedQueueBatch :=
  generation ← consumer_i64 c.(consumer_generation);
  execution ← consumer_i64 c.(execution_generation);
  _ ← execute map_sql_error (insert_batch batch
        (batch_row c.(consumer_queue) consumer_id generation c.(version_id) execution
           c.(entrypoint) (Z.of_nat (length ms)) now_ms));
  _ ← for_each (claim_message now_ms batch consumer_id generation) ms;
  mret (claimed_queue_batch batch instance_id c.(consumer_queue) consumer_id
          c.(consumer_generation) c.(version_id) c.(worker_id) c.(execution_generation)
          c.(entrypoint) c.(max_retries) c.(dlq) c.(retry_delay_seconds) (to_claimed <$> ms)).

(** The [for consumer in consumers] loop; [i] counts the generated ids. *)
Fixpoint claim_loop (now_ms : Z) (i : nat) (cs : list (N * Consumer)) : QM (list ClaimedQueueBatch) :=
  match cs with
  | [] => mret []
  | (consumer_id, c) :: cs =>
      ms ← due_messages_tx c now_ms;
      if decide (ms = []) then claim_loop now_ms i cs
      else
        b ← claim_batch now_ms (gen i) consumer_id c ms;
        bs ← claim_loop now_ms (S i) cs;
        mret (b :: bs)
  end.

Definition claim_queue_batches (now_ms max_batches : Z) (after : option N) :
    QM (list ClaimedQueueBatch) :=
  _ ← throw_if (max_batches = 0) consumer_invariant;
  transaction (
    cs ← eligible_consumers_tx now_ms max_batches after;
    claim_loop now_ms 0 cs).
End claim.

(** ** Completion *)

(** The claim columns of a message held by a batch. *)
Definition held_by (b : ClaimedQueueBatch) (generation : Z) : MessageState :=
  MClaimed b.(b_id) b.(b_consumer) generation.

Definition claimed_messages_tx (b : ClaimedQueueBatch) : QM (list Message) :=
  generation ← consumer_i64 b.(b_generation);
  ms ← gets messages;
  let rows := order_by (λ m, [m.(seq)])
    (sql_where (λ m, m.(msg_state) = held_by b generation) ms) in
  _ ← throw_if (¬ messages_convert rows) consumer_invariant;
  mret rows.

Definition delete_claimed_message_tx (m : Message) (b : ClaimedQueueBatch) : QM unit :=
  generation ← consumer_i64 b.(b_generation);
  ms ← gets messages;
  let hit := λ x, x.(seq) = m.(seq) ∧ x.(msg_state) = held_by b generation in
  _ ← execute map_sql_error (delete_messages hit);
  throw_if (affected hit ms ≠ 1) consumer_invariant.

Definition retry_message_tx (m : Message) (b : ClaimedQueueBatch) (att now_ms delay_seconds : Z) :
    QM unit :=
  available ← some_or (i64_checked (now_ms + delay_seconds * 1000)) consumer_invariant;
  generation ← consumer_i64 b.(b_generation);
  ms ← gets messages;
  let hit := λ x, x.(seq) = m.(seq) ∧ x.(msg_state) = held_by b generation in
  _ ← execute map_sql_error (update_messages hit (move_message MReady att available));
  throw_if (affected hit ms ≠ 1) consumer_invariant.

Definition dlq_accepts_tx (target : N * Z) (body_len : Z) : QM bool :=
  generation ← consumer_i64 target.2;
  qs ← gets queues;
  mret (bool_decide (is_some_and (λ q,
    q.(lifecycle_generation) = generation ∧ q.(q_state) = Accepting ∧
    is_some_and (λ v, v ≤ q.(config).(max_backlog_bytes))
      (i64_checked (q.(message_bytes) + default i64_max (i64_checked body_len))))
    (qs !! target.1))).

Definition insert_dlq_message_tx (m : Message) (target : N * Z) (now_ms : Z) : QM unit :=
  generation ← consumer_i64 target.2;
  qs ← gets queues;
  q ← some_or (qs !! target.1) unavailable;
  _ ← throw_if (q.(lifecycle_generation) ≠ generation ∨ q.(q_state) ≠ Accepting) unavailable;
  delta ← some_or (i64_checked (q.(config).(retention_seconds) * 1000)) consumer_invariant;
  expires ← some_or (i64_checked (now_ms + delta)) consumer_invariant;
  execute map_sql_error (insert_message m.(msg_id) target.1 generation now_ms now_ms expires
    m.(content_type) m.(body)).

Definition move_to_dlq_tx (m : Message) (b : ClaimedQueueBatch) (target : N * Z) (now_ms : Z) :
    QM bool :=
  accepts ← dlq_accepts_tx target (body_bytes m);
  if decide (accepts = true) then
    _ ← delete_claimed_message_tx m b;
    _ ← insert_dlq_message_tx m target now_ms;
    mret true
  else mret false.

(** What became of one message of the batch: the counter it increments. *)
Inductive Outcome : Type := Acknowledged | Retried | DeadLettered | DlqPending | Discarded.
#[export] Instance Outcome_eq_dec : EqDecision Outcome.
Proof. solve_decision. Defined.

Definition complete_message (b : ClaimedQueueBatch) (decisions : gmap N QueueCompletionAction)
    (now_ms : Z) (m : Message) : QM Outcome :=
  action ← some_or (decisions !! m.(msg_id)) disposition_invalid;
  match action with
  | Ack => _ ← delete_claimed_message_tx m b; mret Acknowledged
  | Retry delay_seconds =>
      let delivery := u16_saturate (m.(attempts) + 1) in
      if decide (m.(msg_expires_at_ms) ≤ now_ms) then
        _ ← delete_claimed_message_tx m b; mret Discarded
      else if decide (delivery ≤ b.(b_max_retries)) then
        _ ← retry_message_tx m b delivery now_ms delay_seconds; mret Retried
      else
        match b.(b_dead_letter_queue) with
        | Some target =>
            moved ← move_to_dlq_tx m b target now_ms;
            if decide (moved = true) then mret DeadLettered
            else
              _ ← retry_message_tx m b delivery now_ms 0;
              generation ← consumer_i64 target.2;
              next ← add_ms now_ms 1000;
              _ ← execute map_sql_error (insert_pending m.(msg_id)
                    (pending_row b.(b_queue) target.1 generation delivery next now_ms
                       (Some "QUEUE_DLQ_BACKPRESSURED")));
              mret DlqPending
        | None => _ ← delete_claimed_message_tx m b; mret Discarded
        end
  end.

Definition outcomes (o : Outcome) (l : list Outcome) : Z := affected (λ x, x = o) l.
Definition summarise (l : list Outcome) : QueueCompletionSummary :=
  queue_completion_summary (outcomes Acknowledged l) (outcomes Retried l) (outcomes DeadLettered l)
    (outcomes DlqPending l) (outcomes Discarded l) false.
Definition stale_summary : QueueCompletionSummary := queue_completion_summary 0 0 0 0 0 true.

(** The exact-set check of the supplied decisions. *)
Definition decisions_match (b : ClaimedQueueBatch) (ds : list (N * QueueCompletionAction)) :
    result PlatformError unit :=
  _ ← bail_if (length ds ≠ length b.(b_messages)) disposition_invalid;
  let expected : gset N := list_to_set (cm_id <$> b.(b_messages)) in
  let supplied : gset N := list_to_set ds.*1 in
  _ ← bail_if (size supplied ≠ length ds ∨ supplied ≠ expected) disposition_invalid;
  bail_if (Exists (λ d, match d.2 with Retry s => bool_decide (s > 86400) | Ack => false end = true) ds)
    (platform_error QueueRetryDelayInvalid "Queue retry delay is outside 0..86400").

(** The live row of the batch, or a stale completion. *)
Definition batch_live (db : QueueDb) (b : ClaimedQueueBatch) : Prop :=
  is_some_and (λ r, r.(batch_consumer) = b.(b_consumer) ∧
                    u64_checked r.(batch_generation) = Some b.(b_generation))
    (db.(batches) !! b.(b_id)).
#[export] Instance batch_live_dec db b : Decision (batch_live db b).
Proof. unfold batch_live. apply _. Defined.

Definition complete_live (b : ClaimedQueueBatch) (ds : list (N * QueueCompletionAction))
    (now_ms : Z) : QM QueueCompletionSummary :=
  ms ← claimed_messages_tx b;
  _ ← throw_if (length ms ≠ length ds) consumer_invariant;
  os ← for_each (complete_message b (list_to_map ds) now_ms) ms;
  generation ← consumer_i64 b.(b_generation);
  bs ← gets batches;
  let hit := is_some_and (λ r, r.(batch_consumer) = b.(b_consumer) ∧
               r.(batch_generation) = generation) (bs !! b.(b_id)) in
  _ ← throw_if (¬ hit) consumer_invariant;
  _ ← execute map_sql_error (delete_batch b.(b_id));
  mret (summarise os).

Definition complete_queue_batch (b : ClaimedQueueBatch) (ds : list (N * QueueCompletionAction))
    (now_ms : Z) : QM QueueCompletionSummary :=
  _ ← lift (decisions_match b ds);
  db ← gets id;
  if decide (batch_live db b) then
    summary ← transaction (complete_live b ds now_ms);
    _ ← modify notify;
    mret summary
  else mret stale_summary.

(** ** Pending dead letters *)

Definition ready_message_by_id_tx (id : N) : QM Message :=
  ms ← gets messages;
  m ← some_or (sql_find (λ m, m.(msg_id) = id ∧ m.(msg_state) = MReady) ms) unavailable;
  _ ← throw_if (¬ in_u16 m.(attempts)) unavailable;
  mret m.

Definition move_ready_to_dlq_tx (m : Message) (target : N * Z) (now_ms : Z) : QM bool :=
  accepts ← dlq_accepts_tx target (body_bytes m);
  if decide (accepts = true) then
    ms ← gets messages;
    let hit := λ x, x.(seq) = m.(seq) ∧ x.(msg_state) = MReady in
    _ ← execute map_sql_error (delete_messages hit);
    _ ← throw_if (affected hit ms ≠ 1) consumer_invariant;
    _ ← insert_dlq_message_tx m target now_ms;
    mret true
  else mret false.

Inductive ForwardOutcome : Type := Moved | FwExpired | Deferred.
#[export] Instance ForwardOutcome_eq_dec : EqDecision ForwardOutcome.
Proof. solve_decision. Defined.

Definition delete_pending (id : N) : QM unit :=
  modify (λ db, set_dlq_pending (delete id db.(dlq_pending)) db).

Definition forward_one (now_ms retry_backoff_ms : Z) (id : N) : QM ForwardOutcome :=
  pending ← gets dlq_pending;
  p ← some_or (pending !! id) unavailable;
  m ← ready_message_by_id_tx id;
  if decide (m.(msg_expires_at_ms) ≤ now_ms) then
    _ ← delete_pending id;
    _ ← execute map_sql_error (delete_messages (λ x, x.(seq) = m.(seq) ∧ x.(msg_state) = MReady));
    mret FwExpired
  else
    generation ← some_or (u64_checked p.(target_generation)) consumer_invariant;
    moved ← move_ready_to_dlq_tx m (p.(target_queue), generation) now_ms;
    if decide (moved = true) then _ ← delete_pending id; mret Moved
    else
      next ← add_ms now_ms retry_backoff_ms;
      _ ← modify (λ db, set_dlq_pending (<[id :=
            pending_row p.(source_queue) p.(target_queue) p.(target_generation)
              p.(terminal_attempts) next p.(pending_created_at_ms)
              (Some "QUEUE_DLQ_BACKPRESSURED")]> db.(dlq_pending)) db);
      mret Deferred.

Definition due_pending (now_ms limit : Z) (pending : gmap N Pending) : list N :=
  (take (Z.to_nat limit)
    (order_by (λ ip, [ip.2.(next_attempt_at_ms); Z.of_N ip.1])
      (sql_where (λ ip, ip.2.(next_attempt_at_ms) ≤ now_ms) (map_to_list pending)))).*1.

Definition forward_outcomes (o : ForwardOutcome) (l : list ForwardOutcome) : Z :=
  affected (λ x, x = o) l.

Definition forward_queue_dlq_pending (now_ms retry_backoff_ms limit : Z) : QM QueueDlqForwardSummary :=
  _ ← throw_if (limit = 0) consumer_invariant;
  os ← transaction (
    pending ← gets dlq_pending;
    for_each (forward_one now_ms retry_backoff_ms) (due_pending now_ms limit pending));
  let summary := queue_dlq_forward_summary (forward_outcomes Moved os)
                   (forward_outcomes FwExpired os) (forward_outcomes Deferred os) in
  _ ← (if decide (summary.(moved) > 0 ∨ summary.(fw_expired) > 0) then modify notify else mret ());
  mret summary.

(** ** Start-up recovery: the queue statements of [reset_claims.sql] *)

(** [UPDATE queue_messages SET state='ready', attempts=attempts+1, ..] *)
Definition reset_messages (now_ms : Z) : QueueDb → result SqlAbort QueueDb :=
  update_messages (λ m, claim_batch_id m ≠ None)
    (λ m, move_message MReady (m.(attempts) + 1) (Z.max m.(enqueued_at_ms) (now_ms + 250)) m).

(** [DELETE FROM queue_delivery_batches]: the guard runs on every row. *)
Definition delete_batches (db : QueueDb) : result SqlAbort QueueDb :=
  _ ← bail_if (Exists (λ m, is_some_and (λ b, is_Some (db.(batches) !! b)) (claim_batch_id m))
                 db.(messages)) OtherConstraint;
  Ok (set_batches ∅ db).

(** The consumer of a queue, if its retries are exhausted for the message. *)
Definition exhausted (cs : gmap N Consumer) (m : Message) : option Consumer :=
  snd <$> sql_find (λ ic, ic.2.(consumer_queue) = m.(msg_queue) ∧ m.(attempts) > ic.2.(max_retries))
            (map_to_list cs).

(** One row of [INSERT OR IGNORE INTO queue_dlq_pending .. SELECT]: the guard
    aborts, a present row is ignored. *)
Definition reset_pending_one (now_ms : Z) (m : Message) (db : QueueDb) : result SqlAbort QueueDb :=
  match m.(msg_state), exhausted db.(consumers) m ≫= dlq with
  | MReady, Some (target, generation) =>
      let p := pending_row m.(msg_queue) target generation m.(attempts) (now_ms + 250) now_ms
                 (Some "QUEUE_DLQ_BACKPRESSURED") in
      _ ← bail_if (¬ pending_authorised m.(msg_id) p db) OtherConstraint;
      Ok (match db.(dlq_pending) !! m.(msg_id) with
          | Some _ => db
          | None => set_dlq_pending (<[m.(msg_id) := p]> db.(dlq_pending)) db
          end)
  | _, _ => Ok db
  end.

Fixpoint reset_pending (now_ms : Z) (ms : list Message) (db : QueueDb) : result SqlAbort QueueDb :=
  match ms with
  | [] => Ok db
  | m :: ms => db ← reset_pending_one now_ms m db; reset_pending now_ms ms db
  end.

(** The rows of the last statement: exhausted messages without a dead-letter queue. *)
Definition discardable (cs : gmap N Consumer) (m : Message) : Prop :=
  m.(msg_state) = MReady ∧ is_some_and (λ c, c.(dlq) = None) (exhausted cs m).
#[export] Instance discardable_dec cs m : Decision (discardable cs m).
Proof. unfold discardable. apply _. Defined.

Definition reset_queue_claims (now_ms : Z) : QM unit :=
  _ ← throw_if (i64_checked (now_ms + 250) = None) invalid;
  transaction (
    _ ← execute map_sql_error (reset_messages now_ms);
    _ ← execute map_sql_error delete_batches;
    _ ← execute map_sql_error (λ db, reset_pending now_ms db.(messages) db);
    execute map_sql_error (λ db, delete_messages (discardable db.(consumers)) db)).

(** ** Workload summary *)

(** The columns of the [due] subquery for one active consumer. *)
Definition oldest_available (db : QueueDb) (now_ms : Z) (c : Consumer) : option Z :=
  available_at_ms <$> head (deliverables db now_ms c.(consumer_queue)).
Definition next_available (db : QueueDb) (now_ms : Z) (c : Consumer) : option Z :=
  sql_min available_at_ms (sql_where (λ m, m.(msg_queue) = c.(consumer_queue) ∧
    m.(msg_state) = MReady ∧ m.(available_at_ms) > now_ms ∧ m.(msg_expires_at_ms) > now_ms ∧
    db.(dlq_pending) !! m.(msg_id) = None) db.(messages)).
Definition due_count (db : QueueDb) (now_ms : Z) (c : Consumer) : Z :=
  Z.min (Z.of_nat (length (deliverables db now_ms c.(consumer_queue)))) QUEUE_CONSUMER_MAX_BATCH_SIZE.

Definition queue_consumer_workload_summary (now_ms : Z) (db : QueueDb) : WorkloadSummary :=
  let due := sql_where (λ c, c.(active) = true) (map_to_list db.(consumers)).*2 in
  let free := sql_where (λ c, in_flight db c.(consumer_queue) < c.(max_concurrency)) due in
  let ready := affected (λ c,
    in_flight db c.(consumer_queue) < c.(max_concurrency) ∧
    (c.(max_batch_size) ≤ due_count db now_ms c ∨
     is_some_and (λ o, o + c.(max_batch_timeout_ms) ≤ now_ms) (oldest_available db now_ms c))) due in
  let next := sql_min id (omap id
    [sql_min id (omap (λ c, (λ o, o + c.(max_batch_timeout_ms)) <$> oldest_available db now_ms c) free);
     sql_min id (omap (next_available db now_ms) free);
     sql_min (next_attempt_at_ms ∘ snd) (map_to_list db.(dlq_pending))]) in
  workload_summary ready (Z.of_nat (size db.(batches))) 0
    (sql_min id (omap (oldest_available db now_ms) due)) next.

(** [queue_dlq_pending_due] and [queue_dlq_pending_count] *)
Definition queue_dlq_pending_due (now_ms : Z) (db : QueueDb) : Z :=
  affected (λ ip, ip.2.(next_attempt_at_ms) ≤ now_ms) (map_to_list db.(dlq_pending)).
Definition queue_dlq_pending_count (db : QueueDb) : Z := Z.of_nat (size db.(dlq_pending)).

(** ** Operator inspection *)

Record QueueConsumerRuntimeInspection := queue_consumer_runtime_inspection {
  projection_exists : bool;
  ins_backlog_messages : Z;
  ins_backlog_bytes : Z;
  ins_ready_messages : Z;
  ins_claimed_batches : Z;
  ins_claimed_messages : Z;
  ins_dlq_pending : Z;
}.

Definition inspect_queue_consumer_runtime (queue consumer : N) (generation : Z) :
    QM QueueConsumerRuntimeInspection :=
  g ← consumer_i64 generation;
  db ← gets id;
  mret (queue_consumer_runtime_inspection
    (bool_decide (is_some_and (λ c, c.(consumer_queue) = queue ∧ c.(consumer_generation) = g)
                    (db.(consumers) !! consumer)))
    (count_of queue db.(messages))
    (bytes_of queue db.(messages))
    (affected (λ m, m.(msg_queue) = queue ∧ m.(msg_state) = MReady ∧
                    db.(dlq_pending) !! m.(msg_id) = None) db.(messages))
    (affected (λ ib, ib.2.(batch_consumer) = consumer ∧ ib.2.(batch_generation) = g)
       (map_to_list db.(batches)))
    (affected (λ m, match m.(msg_state) with
                    | MReady => false
                    | MClaimed _ c n => bool_decide (c = consumer ∧ n = g)
                    end = true) db.(messages))
    (affected (λ ip, ip.2.(source_queue) = queue) (map_to_list db.(dlq_pending)))).
