(* ===== verification/QueueStmt.v ===== *)
(** * What the guarded statements keep

    The invariant of the queue tables between two statements of a transaction
    ([stmt_inv]): every table constraint holds, and the batches of a given set hold
    exactly the messages they count.  Each guarded statement keeps it. *)

From stdpp Require Import base numbers list option strings sorting gmap.
From S2P Require Import Prelude ErrorCodes Sql QueueDb QueueInv.

Local Open Scope Z_scope.

Create HintDb queue discriminated.

(** ** The invariant between statements *)

Record tables_ok (db : QueueDb) : Prop := {
  tab_core : queue_core db;
  tab_refs : refs_ok db;
  tab_consumers : consumers_ok db.(consumers);
  tab_free : claimed_free db.(dlq_pending) db.(messages);
}.

(** The messages a batch holds. *)
Definition rows_of (b : N) (db : QueueDb) : list Message := sql_where (claimed_in b) db.(messages).

(** What is known of the batches between two statements: which of them hold exactly
    the messages they count, and the row and the messages of those that are tracked. *)
Record view := View {
  exact :> N → Prop;
  tracked : N → option (Batch * list Message);
}.

Definition batches_ok (X : view) (db : QueueDb) : Prop :=
  (∀ b r, X b → db.(batches) !! b = Some r → batch_exact db b r) ∧
  (∀ b t, X.(tracked) b = Some t → X b ∧ db.(batches) !! b = Some t.1 ∧ rows_of b db = t.2).

Definition stmt_inv (X : view) (db : QueueDb) : Prop := tables_ok db ∧ batches_ok X db.

(** Every batch is exact. *)
Definition all_exact : view := View (λ _, True) (λ _, None).
(** Every batch is exact, and one is tracked. *)
Definition tracking (b : N) (t : Batch * list Message) : view :=
  View (λ _, True) (λ b', if decide (b' = b) then Some t else None).
(** A view without one batch, which must not be tracked. *)
Definition except (X : view) (b : N) : view := View (λ b', X b' ∧ b' ≠ b) X.(tracked).

Lemma queue_wf_stmt db : queue_wf db ↔ stmt_inv all_exact db.
Proof.
  split.
  - intros [Hc Hb Hr Hk Hfr]. split; [by split|]. split; [|done]. intros b r _. apply Hb.
  - intros [[Hc Hr Hk Hfr] [Hb _]]. split; try done. intros b r. by apply Hb.
Qed.

Lemma tracking_stmt b t db :
  stmt_inv (tracking b t) db ↔ queue_wf db ∧ db.(batches) !! b = Some t.1 ∧ rows_of b db = t.2.
Proof.
  rewrite queue_wf_stmt. split.
  - intros (Ht & Hb & Hr). split; [by split|]. destruct (Hr b t) as [_ H]; [|done]. cbn. by rewrite decide_True.
  - intros [[Ht [Hb _]] H]. split; [done|]. split; [done|]. intros b' t' Hbt. cbn in Hbt.
    case_decide; [|done]. subst. by injection Hbt as <-.
Qed.

Lemma stmt_inv_except X b db : X.(tracked) b = None → stmt_inv X db → stmt_inv (except X b) db.
Proof.
  intros Hno [Ht [Hb Hr]]. split; [done|]. split.
  - intros b' r [Hx _]. by apply Hb.
  - intros b' t Hbt. destruct (Hr b' t Hbt) as (? & ? & ?). cbn in *. split_and!; try done. congruence.
Qed.

Lemma stmt_inv_core X db : stmt_inv X db → queue_core db.
Proof. intros [[] _]. done. Qed.

(** A step that keeps the rows of the known batches keeps what is known of them. *)
Lemma batches_ok_step (X : view) db db' :
  (∀ b, X b → db'.(batches) !! b = db.(batches) !! b) → (∀ b, X b → rows_of b db' = rows_of b db) →
  batches_ok X db → batches_ok X db'.
Proof.
  intros Hbs Hrows [Hb Hr]. split.
  - intros b r HX Hbr. rewrite Hbs in Hbr by done. destruct (Hb b r HX Hbr) as [Hn H1]. split; [|done].
    rewrite Hn. symmetry. exact (f_equal (λ l, Z.of_nat (length l)) (Hrows b HX)).
  - intros b t Hbt. destruct (Hr b t Hbt) as (HX & E1 & E2). rewrite Hbs, Hrows by done. done.
Qed.

(** A statement that aborts leaves the tables alone. *)
Lemma atomic_execute e f : atomic (execute e f).
Proof. intros db db' err. unfold execute. destruct (f db); naive_solver. Qed.
#[export] Hint Resolve atomic_execute : tx.

Lemma execute_run e f db db' u : execute e f db = (db', Ok u) ↔ f db = Ok db'.
Proof. unfold execute. destruct u, (f db); naive_solver. Qed.

(** Opens a successful run over the queue tables, statements included. *)
Ltac queue_run :=
  repeat (progress run_inv || match goal with
  | H : execute _ _ _ = (_, Ok _) |- _ => apply execute_run in H
  | H : Prelude.Ok _ = Prelude.Ok _ |- _ => injection H as H
  end).

(** ** Queue rows *)

Lemma same_queues_insert qs q r r' : qs !! q = Some r → same_queues qs (<[q := r']> qs).
Proof.
  intros Hq x. destruct (decide (q = x)) as [<-|Hne].
  - rewrite lookup_insert_eq, Hq. split; eauto.
  - by rewrite lookup_insert_ne.
Qed.

Lemma tables_ok_row db q r r' :
  db.(queues) !! q = Some r → queue_row_ok r' → r'.(message_count) = r.(message_count) →
  r'.(message_bytes) = r.(message_bytes) → tables_ok db →
  tables_ok (set_queues (<[q := r']> db.(queues)) db).
Proof.
  intros Hq Hok Hn Hb [[Hs Hnx Hi Hm Hf Hc Ha Hl Hr] Hrefs Hk Hfr].
  assert (Hsame := same_queues_insert _ _ _ r' Hq).
  split; [|by apply refs_ok_queues|done|done]. split; cbn; try done.
  - eapply Forall_impl; [exact Hf|]. intros m. apply Hsame.
  - intros q' r0 Hr0. destruct (decide (q = q')) as [<-|Hne].
    + rewrite lookup_insert_eq in Hr0. injection Hr0 as <-. rewrite Hn, Hb. by apply Hc.
    + rewrite lookup_insert_ne in Hr0 by done. by apply Hc.
  - by apply map_Forall_insert_2.
Qed.

Lemma stmt_inv_row X db q r r' :
  db.(queues) !! q = Some r → queue_row_ok r' → r'.(message_count) = r.(message_count) →
  r'.(message_bytes) = r.(message_bytes) → stmt_inv X db →
  stmt_inv X (set_queues (<[q := r']> db.(queues)) db).
Proof. intros Hq Hok Hn Hb [Ht Hx]. split; [by eapply tables_ok_row|done]. Qed.

(** A new queue has no messages. *)
Lemma stmt_inv_new X db q r :
  db.(queues) !! q = None → queue_row_ok r → r.(message_count) = 0 → r.(message_bytes) = 0 →
  stmt_inv X db → stmt_inv X (set_queues (<[q := r]> db.(queues)) db).
Proof.
  intros Hq Hok Hn Hb [[[Hs Hnx Hi Hm Hf Hc Ha Hl Hr] [Rb Ro Rc Rp] Hk Hfr] Hx].
  assert (Hmono : ∀ x, is_Some (db.(queues) !! x) → is_Some (<[q := r]> db.(queues) !! x)).
  { intros x Hx'. by apply lookup_insert_is_Some'; right. }
  assert (Hnone : ∀ m, m ∈ db.(messages) → m.(msg_queue) ≠ q).
  { intros m Hin Heq. rewrite Forall_forall in Hf. destruct (Hf m Hin) as [? H]. congruence. }
  split; [split|done]; [|split|done|done].
  - split; cbn; try done.
    + eapply Forall_impl; [exact Hf|]. intros m. apply Hmono.
    + intros q' r0 Hr0. destruct (decide (q = q')) as [<-|Hne].
      * rewrite lookup_insert_eq in Hr0. injection Hr0 as <-. rewrite Hn, Hb. split.
        -- symmetry. by apply affected_0.
        -- symmetry. by apply bytes_of_none.
      * rewrite lookup_insert_ne in Hr0 by done. by apply Hc.
    + by apply map_Forall_insert_2.
  - intros b x H. apply Hmono. by eapply Rb.
  - intros b x H. apply Hmono. by eapply Ro.
  - intros b x H. destruct (Rc b x H) as [H1 H2]. split; [by apply Hmono|]. intros. eapply Hmono, H2; done.
  - intros b x H. destruct (Rp b x H) as [H1 H2]. split; by apply Hmono.
Qed.

(** ** Messages *)

Lemma stmt_inv_insert X id queue gen enq av ex ct b db db' :
  stmt_inv X db → insert_message id queue gen enq av ex ct b db = Ok db' → stmt_inv X db'.
Proof.
  intros [[Hc Hr Hk Hfr] Hx] Hins. assert (Hc' := insert_message_ok _ _ _ _ _ _ _ _ _ _ Hc Hins).
  destruct (insert_message_inv _ _ _ _ _ _ _ _ _ _ Hins)
    as (q & Hq & _ & _ & _ & _ & _ & _ & _ & _ & _ & _ & ->).
  split; [split; [done| |done|]|].
  - eapply refs_ok_queues in Hr; [|by eapply same_queues_insert].
    destruct Hr as [R1 R2 R3 R4]. split; [exact R1|exact R2|exact R3|exact R4].
  - apply Forall_app. split; [done|]. apply Forall_singleton. by left.
  - apply (batches_ok_step X db); [done| |exact Hx]. intros b' _. unfold rows_of, sql_where. cbn [messages].
    rewrite filter_app, filter_cons, decide_False by done. apply app_nil_r.
Qed.

(** Rows that a statement does not touch. *)
Lemma where_delete {A} (P Q : A → Prop) `{!∀ m, Decision (P m)} `{!∀ m, Decision (Q m)} ms :
  (∀ m, m ∈ ms → P m → ¬ Q m) → sql_where Q (sql_delete P ms) = sql_where Q ms.
Proof.
  intros HPQ. unfold sql_where, sql_delete. induction ms as [|m ms IH]; [done|]. rewrite !filter_cons.
  assert (Hm := HPQ m (list_elem_of_here _ _)). rewrite <-IH by (intros x Hx; apply HPQ; by right).
  destruct (decide (¬ P m)) as [Hp|Hp].
  - rewrite filter_cons. by destruct (decide (Q m)).
  - apply dec_stable in Hp. rewrite decide_False by auto. done.
Qed.

Lemma where_update {A} (P Q : A → Prop) `{!∀ m, Decision (P m)} `{!∀ m, Decision (Q m)} f ms :
  (∀ m, m ∈ ms → P m → ¬ Q m ∧ ¬ Q (f m)) → sql_where Q (sql_update P f ms) = sql_where Q ms.
Proof.
  intros HPQ. unfold sql_where. induction ms as [|m ms IH]; [done|]. rewrite sql_update_cons, !filter_cons.
  assert (Hm := HPQ m (list_elem_of_here _ _)). rewrite IH by (intros x Hx; apply HPQ; by right).
  destruct (decide (P m)) as [Hp|Hp]; [|done]. destruct (Hm Hp). by rewrite !decide_False.
Qed.

(** Deleting messages that no batch of [X] holds. *)
Lemma stmt_inv_delete (X : view) P `{!∀ m, Decision (P m)} db db' :
  stmt_inv X db → (∀ m b, m ∈ db.(messages) → P m → claim_batch_id m = Some b → ¬ X b) →
  delete_messages P db = Ok db' → stmt_inv X db'.
Proof.
  intros [[Hc Hr Hk Hfr] Hx] HP Hdel.
  destruct (delete_messages_ok db P Hc) as (qs & Hdel' & Hc' & Hsame).
  rewrite Hdel in Hdel'. injection Hdel' as ->. split; [split; [done| |done|by apply Forall_sql_delete]|].
  - apply refs_ok_queues, refs_ok_messages, Hr. by eapply same_queues_fmap.
  - apply (batches_ok_step X db); [done| |exact Hx]. intros b HX. apply where_delete.
    intros m Hin HPm Hcl. by eapply HP.
Qed.

(** The release of messages that no batch of [X] holds. *)
Lemma stmt_inv_release (X : view) P `{!∀ m, Decision (P m)} f db db' :
  stmt_inv X db → (∀ m, ∃ att av, f m = move_message MReady att av m) →
  (∀ m b, m ∈ db.(messages) → P m → claim_batch_id m = Some b → ¬ X b) →
  update_messages P f db = Ok db' →
  db' = set_messages (sql_update P f db.(messages)) db ∧ stmt_inv X db'.
Proof.
  intros [[Hc Hr Hk Hfr] Hx] Hmove HP Hup.
  assert (Hok : ∀ m, m ∈ db.(messages) → P m → transition_ok db m (f m)).
  { unfold update_messages in Hup. destruct_result. apply bail_if_Ok, dec_stable in Hm.
    rewrite Forall_forall in Hm. intros m Hin HPm. apply Hm. by apply list_elem_of_filter. }
  destruct (update_messages_ok db P f Hc) as [Hup' Hc']; [|done|].
  { intros m. destruct (Hmove m) as (att & av & ->). eauto. }
  rewrite Hup in Hup'. injection Hup' as ->. split; [done|]. split; [split; [done| |done|]|].
  - by apply refs_ok_messages.
  - apply Forall_sql_update; [|done]. intros m _ _. left. by destruct (Hmove m) as (? & ? & ->).
  - apply (batches_ok_step X db); [done| |exact Hx]. intros b HX. apply where_update.
    intros m Hin HPm. destruct (Hmove m) as (? & ? & ->). split; [|done].
    intros Hcl. by destruct (HP m b Hin HPm Hcl).
Qed.

(** ** Batches *)

Lemma claim_ok_mono bs bs' m : (∀ b r, bs !! b = Some r → bs' !! b = Some r) →
  claim_ok bs m → claim_ok bs' m.
Proof. intros Hm. unfold claim_ok. destruct (msg_state m); [done|]. intros (r & Hr & ?). eauto. Qed.

Lemma insert_batch_inv id r db db' :
  insert_batch id r db = Ok db' →
  db' = set_batches (<[id := r]> db.(batches)) db ∧ db.(batches) !! id = None ∧
  is_Some (db.(queues) !! r.(batch_queue)) ∧ 1 ≤ r.(batch_message_count) ≤ 100 ∧
  is_some_and (λ c, c.(consumer_queue) = r.(batch_queue) ∧
    c.(consumer_generation) = r.(batch_generation) ∧ c.(active) = true ∧
    r.(batch_message_count) ≤ c.(max_batch_size)) (db.(consumers) !! r.(batch_consumer)).
Proof.
  unfold insert_batch. intros H. destruct_result. apply bail_if_Ok in Hm, Hm0. injection H as <-.
  apply dec_stable in Hm. split; [done|]. split_and!.
  - destruct (db.(batches) !! id); [|done]. exfalso. apply Hm0. by left.
  - destruct (db.(queues) !! batch_queue r) eqn:E; [done|]. exfalso. apply Hm0. by do 2 right.
  - destruct (decide (1 ≤ batch_message_count r ≤ 100)); [lia|]. exfalso. apply Hm0. right. by left.
  - destruct (decide (1 ≤ batch_message_count r ≤ 100)); [lia|]. exfalso. apply Hm0. right. by left.
  - destruct (consumers db !! batch_consumer r); cbn in *; naive_solver.
Qed.

Lemma stmt_inv_insert_batch (X : view) id r db db' :
  stmt_inv X db → ¬ X id → insert_batch id r db = Ok db' → stmt_inv X db'.
Proof.
  intros [[Hc [Rb Ro Rc Rp] Hk Hfr] Hx] HX Hins.
  apply insert_batch_inv in Hins as (-> & Hnew & Hq & _ & _).
  destruct Hc as [Hs Hn Hi Hm Hf Hcn Ha Hl Hrow]. split; [split; [split|split|done|done]|]; cbn; try done.
  - eapply Forall_impl; [exact Ha|]. intros m. apply claim_ok_mono. intros b r' Hb.
    rewrite lookup_insert_ne; [done|]. congruence.
  - intros b r' Hb. apply lookup_insert_Some in Hb as [[<- <-]|[_ Hb]]; [done|by eapply Rb].
  - apply (batches_ok_step X db); [|done|exact Hx]. intros b HXb. cbn. apply lookup_insert_ne. congruence.
Qed.

(** A new batch holds no message yet. *)
Lemma fresh_batch_empty db b :
  queue_core db → db.(batches) !! b = None → affected (claimed_in b) db.(messages) = 0.
Proof.
  intros Hc Hb. apply affected_0. intros m Hm Hcl. pose proof (core_claim _ Hc) as Ha.
  rewrite Forall_forall in Ha. specialize (Ha m Hm). unfold claimed_in, claim_batch_id, claim_ok in *.
  destruct (msg_state m); [done|]. destruct Ha as (r & Hr & _). congruence.
Qed.

Lemma delete_batch_inv id db db' :
  delete_batch id db = Ok db' →
  db' = set_batches (delete id db.(batches)) db ∧ Forall (λ m, claim_batch_id m ≠ Some id) db.(messages).
Proof.
  unfold delete_batch. intros H. destruct_result. apply bail_if_Ok in Hm. injection H as <-.
  split; [done|]. apply Forall_forall. intros m Hin Hcl. apply Hm, Exists_exists. eauto.
Qed.

Lemma stmt_inv_delete_batch (X : view) id db db' :
  X.(tracked) id = None → stmt_inv (except X id) db → delete_batch id db = Ok db' → stmt_inv X db'.
Proof.
  intros Hid [[Hc [Rb Ro Rc Rp] Hk Hfr] [Hb Htr]] Hdel. apply delete_batch_inv in Hdel as [-> Hno].
  destruct Hc as [Hs Hn Hi Hm Hf Hcn Ha Hl Hrow]. split; [split; [split|split|done|done]|]; cbn; try done.
  - rewrite Forall_forall in *. intros m Hin. specialize (Ha m Hin). specialize (Hno m Hin).
    unfold claim_ok, claim_batch_id in *. destruct (msg_state m) as [|b c g]; [done|].
    destruct Ha as (r & Hr & ?). exists r. split; [|done]. rewrite lookup_delete_ne; congruence.
  - intros b r Hbr. apply lookup_delete_Some in Hbr as [_ Hbr]. by eapply Rb.
  - split; cbn.
    + intros b r HXb Hbr. apply lookup_delete_Some in Hbr as [Hne Hbr]. by apply Hb.
    + intros b t Hbt. destruct (Htr b t Hbt) as ([? ?] & ? & ?). split_and!; try done.
      by rewrite lookup_delete_ne.
Qed.

(** ** Pending dead letters, operations, rows *)

Definition pending_refs (db : QueueDb) (p : Pending) : Prop :=
  is_Some (db.(queues) !! p.(source_queue)) ∧ is_Some (db.(queues) !! p.(target_queue)).

Lemma stmt_inv_pending X ps db :
  (∀ i p, ps !! i = Some p → pending_refs db p) → claimed_free ps db.(messages) →
  stmt_inv X db → stmt_inv X (set_dlq_pending ps db).
Proof.
  intros Hps Hfr' [[[Hs Hn Hi Hm Hf Hcn Ha Hl Hrow] [Rb Ro Rc Rp] Hk Hfr] Hx].
  by split; [split; [split|split| |]|].
Qed.

Lemma stmt_inv_pending_refs X db i p :
  stmt_inv X db → db.(dlq_pending) !! i = Some p → pending_refs db p.
Proof. intros [[_ [_ _ _ Rp] _ _] _]. apply Rp. Qed.

Lemma insert_pending_inv id p db db' :
  insert_pending id p db = Ok db' →
  db' = set_dlq_pending (<[id := p]> db.(dlq_pending)) db ∧ pending_authorised id p db ∧
  db.(dlq_pending) !! id = None.
Proof.
  unfold insert_pending. intros H. destruct_result. apply bail_if_Ok in Hm, Hm0.
  apply dec_stable in Hm. injection H as <-. split_and!; try done.
  destruct (db.(dlq_pending) !! id); [|done]. exfalso. by apply Hm0.
Qed.

Lemma pending_authorised_refs id p db : pending_authorised id p db → pending_refs db p.
Proof.
  intros (_ & Hq & _ & _ & Hs). split; [done|]. by destruct (db.(queues) !! target_queue p).
Qed.

(** A message that may wait for its dead-letter queue is not claimed. *)
Lemma stmt_inv_add_pending X id p db :
  stmt_inv X db → pending_authorised id p db →
  stmt_inv X (set_dlq_pending (<[id := p]> db.(dlq_pending)) db).
Proof.
  intros Hinv Ha. apply stmt_inv_pending; [| |done].
  - intros i p' Hi. apply lookup_insert_Some in Hi as [[_ <-]|[_ Hi]].
    + by eapply pending_authorised_refs.
    + by eapply stmt_inv_pending_refs.
  - destruct Ha as [Hm _]. apply Exists_exists in Hm as (m & Hm & Hid & _ & Hst & _).
    assert (Hfr := tab_free _ (proj1 Hinv)). unfold claimed_free in *. rewrite Forall_forall in *.
    intros x Hx. destruct (decide (x.(msg_id) = id)) as [Hxi|Hne].
    + left. rewrite (message_id_unique db x m); [done|by eapply stmt_inv_core|done|done|congruence].
    + rewrite lookup_insert_ne by done. auto.
Qed.

Lemma stmt_inv_insert_pending X id p db db' :
  stmt_inv X db → insert_pending id p db = Ok db' → stmt_inv X db'.
Proof.
  intros Hinv Hins. apply insert_pending_inv in Hins as (-> & Ha & _). by apply stmt_inv_add_pending.
Qed.

(** Rows that replace or drop pending rows. *)
Lemma stmt_inv_fewer_pending X ps db :
  (∀ i p, ps !! i = Some p → ∃ p', db.(dlq_pending) !! i = Some p' ∧
    p.(source_queue) = p'.(source_queue) ∧ p.(target_queue) = p'.(target_queue)) →
  stmt_inv X db → stmt_inv X (set_dlq_pending ps db).
Proof.
  intros Hps Hinv. apply stmt_inv_pending; [| |done].
  - intros i p Hp. destruct (Hps i p Hp) as (p' & Hp' & E1 & E2).
    unfold pending_refs. rewrite E1, E2. by eapply stmt_inv_pending_refs.
  - assert (Hfr := tab_free _ (proj1 Hinv)). unfold claimed_free in *. rewrite Forall_forall in *.
    intros x Hx. destruct (Hfr x Hx) as [|Hn]; [by left|]. right.
    destruct (ps !! msg_id x) as [p|] eqn:E; [|done]. destruct (Hps _ _ E) as (? & ? & _). congruence.
Qed.

Lemma stmt_inv_operations X ops db :
  (∀ i o, ops !! i = Some o → is_Some (db.(queues) !! o.(op_queue))) →
  stmt_inv X db → stmt_inv X (set_operations ops db).
Proof.
  intros Hops [[[Hs Hn Hi Hm Hf Hcn Ha Hl Hrow] [Rb Ro Rc Rp] Hk Hfr] Hx]. by split; [split; [split|split| |]|].
Qed.

Lemma stmt_inv_operation_refs X db i o :
  stmt_inv X db → db.(operations) !! i = Some o → is_Some (db.(queues) !! o.(op_queue)).
Proof. intros [[_ [_ Ro _ _] _ _] _]. apply Ro. Qed.

Lemma stmt_inv_notify X db : stmt_inv X (notify db) ↔ stmt_inv X db.
Proof.
  split; intros [[[Hs Hn Hi Hm Hf Hcn Ha Hl Hrow] [Rb Ro Rc Rp] Hk Hfr] Hx];
    by split; [split; [split|split| |]|].
Qed.

(** Consumers change only when a product is promoted: the new rows satisfy the
    constraints of their table. *)
Definition consumer_refs (qs : gmap N QueueRow) (cs : gmap N Consumer) : Prop :=
  ∀ i c, cs !! i = Some c → is_Some (qs !! c.(consumer_queue)) ∧
    ∀ q g, c.(dlq) = Some (q, g) → is_Some (qs !! q).

Lemma stmt_inv_consumers X cs db :
  consumers_ok cs → consumer_refs db.(queues) cs → stmt_inv X db → stmt_inv X (set_consumers cs db).
Proof.
  intros Hok Hrefs [[[Hs Hn Hi Hm Hf Hcn Ha Hl Hrow] [Rb Ro Rc Rp] Hk Hfr] Hx].
  by split; [split; [split|split| |]|].
Qed.

(** The row of a queue goes only when nothing references it. *)
Lemma stmt_inv_delete_queue X id db db' :
  stmt_inv X db → delete_queue_row id db = Ok db' → stmt_inv X db'.
Proof.
  intros [[[Hs Hn Hi Hm Hf Hcn Ha Hl Hrow] [Rb Ro Rc Rp] Hk Hfr] Hx] Hdel.
  unfold delete_queue_row in Hdel. destruct_result. apply bail_if_Ok, Decidable.not_or in Hm0 as [_ Hm0]. injection Hdel as <-.
  assert (Hms : Forall (λ m, m.(msg_queue) ≠ id) db.(messages)).
  { apply Forall_forall. intros m Hin Heq. apply Hm0. left. apply Exists_exists. eauto. }
  assert (Hops : map_Forall (λ _ o, o.(op_queue) ≠ id) db.(operations)).
  { apply dec_stable. intros Hno. apply Hm0. right. by left. }
  assert (Hcs : map_Forall (λ _ c, c.(consumer_queue) ≠ id ∧ (fst <$> c.(dlq)) ≠ Some id)
                  db.(consumers)).
  { apply dec_stable. intros Hno. apply Hm0. do 2 right. by left. }
  assert (Hbs : map_Forall (λ _ b, b.(batch_queue) ≠ id) db.(batches)).
  { apply dec_stable. intros Hno. apply Hm0. do 3 right. by left. }
  assert (Hps : map_Forall (λ _ p, p.(source_queue) ≠ id ∧ p.(target_queue) ≠ id) db.(dlq_pending)).
  { apply dec_stable. intros Hno. apply Hm0. by do 4 right. }
  assert (Hdel : ∀ q, q ≠ id → is_Some (db.(queues) !! q) → is_Some (delete id db.(queues) !! q)).
  { intros q Hne. by rewrite lookup_delete_ne. }
  split; [split; [split|split|done|done]|]; cbn; try done.
  - rewrite Forall_forall in *. intros m Hin. apply Hdel; auto.
  - intros q r Hr. apply lookup_delete_Some in Hr as [_ Hr]. by apply Hcn.
  - by apply map_Forall_delete.
  - intros b r Hb. apply Hdel; [by eapply Hbs|by eapply Rb].
  - intros b r Hb. apply Hdel; [by eapply Hops|by eapply Ro].
  - intros b c Hc. destruct (Hcs b c Hc) as [H1 H2], (Rc b c Hc) as [H3 H4].
    split; [by apply Hdel|]. intros q g Hd. apply Hdel; [|by eapply H4].
    intros ->. apply H2. by rewrite Hd.
  - intros b p Hp. destruct (Hps b p Hp), (Rp b p Hp). split; by apply Hdel.
Qed.

#[export] Hint Resolve stmt_inv_core stmt_inv_insert stmt_inv_insert_pending
  stmt_inv_delete_queue : queue.
