(* ===== verification/QueueWf.v ===== *)
(** * Every queue operation keeps the tables well formed

    Each operation of the queue store, of the producer and of the consumer keeps
    [queue_wf], whether it succeeds or fails; all but one change nothing when they
    fail. *)

From stdpp Require Import base numbers list option strings sorting gmap.
From S2P Require Import Prelude ErrorCodes Sql QueueDb QueueInv QueueStore.
From S2P Require Import QueueEnqueue QueueConsumer QueueStmt.

Local Open Scope Z_scope.

(** An operation keeps an invariant whatever its result. *)
Definition keeps {A} (I : QueueDb → Prop) (m : QM A) : Prop := ∀ db, I db → I (m db).1.

(** An atomic operation keeps what its successes keep. *)
Lemma keeps_atomic {A} I (m : QM A) :
  atomic m → (∀ db db' a, I db → m db = (db', Ok a) → I db') → keeps I m.
Proof.
  intros Hat Hok db Hdb. destruct (m db) as [db' [a|e]] eqn:Hm; cbn; [by eapply Hok|].
  by rewrite (Hat _ _ _ Hm).
Qed.

Lemma keeps_pure {A} I (m : QM A) : pure m → keeps I m.
Proof. intros Hm db Hdb. by rewrite (Hm db). Qed.

#[export] Hint Extern 2 (atomic (match ?x with _ => _ end)) => destruct x : tx.
#[export] Hint Extern 2 (pure (match ?x with _ => _ end)) => destruct x : tx.
#[export] Hint Extern 2 (total (match ?x with _ => _ end)) => destruct x : tx.

(** ** Failures change nothing *)

Section failures.
Context (instance_id : N) (sha256 : list Z → list Z) (id_text : N → list Z) (gen : nat → N).

Lemma atomic_update_queue_row id P `{!∀ q, Decision (P q)} f e : atomic (update_queue_row id P f e).
Proof. unfold update_queue_row. eauto 10 with tx. Qed.
Lemma pure_bind_projection p : pure (bind_projection p).
Proof. unfold bind_projection, bind_config, as_i64. eauto 20 with tx. Qed.
Lemma pure_as_i64 z : pure (as_i64 z).
Proof. unfold as_i64. eauto with tx. Qed.
Lemma pure_require_instance id : pure (require_instance instance_id id).
Proof. unfold require_instance. eauto with tx. Qed.
Local Hint Resolve atomic_update_queue_row pure_bind_projection pure_as_i64 pure_require_instance : tx.

Lemma atomic_create p : atomic (create_queue_projection instance_id p).
Proof. unfold create_queue_projection. eauto 20 with tx. Qed.
Lemma atomic_begin id l c now : atomic (begin_queue_config id l c now).
Proof. unfold begin_queue_config. eauto 20 with tx. Qed.
Lemma atomic_project p : atomic (project_queue_config instance_id p).
Proof. unfold project_queue_config. eauto 20 with tx. Qed.
Lemma atomic_reconcile p : atomic (reconcile_queue_config instance_id p).
Proof. unfold reconcile_queue_config. eauto 20 with tx. Qed.
Lemma atomic_finish id l c now : atomic (finish_queue_config id l c now).
Proof. unfold finish_queue_config. eauto 20 with tx. Qed.
Lemma atomic_fence id l now : atomic (fence_queue_delete id l now).
Proof. unfold fence_queue_delete. eauto 20 with tx. Qed.
Lemma atomic_sweep now rows bytes : atomic (sweep_queue_retention now rows bytes).
Proof. unfold sweep_queue_retention. eauto 20 with tx. Qed.
Lemma atomic_purge q rows bytes : atomic (purge_queue q rows bytes).
Proof. unfold purge_queue. eauto 20 with tx. Qed.
Lemma atomic_enqueue r now : atomic (enqueue_queue sha256 id_text gen r now).
Proof. unfold enqueue_queue. eauto 20 with tx. Qed.
Lemma atomic_finalize i q l now : atomic (finalize_queue_enqueue i q l now).
Proof. unfold finalize_queue_enqueue. eauto 20 with tx. Qed.
Lemma atomic_claim now n after : atomic (claim_queue_batches instance_id gen now n after).
Proof. unfold claim_queue_batches. eauto 20 with tx. Qed.
Lemma atomic_complete b ds now : atomic (complete_queue_batch b ds now).
Proof. unfold complete_queue_batch. eauto 20 with tx. Qed.
Lemma atomic_forward now backoff n : atomic (forward_queue_dlq_pending now backoff n).
Proof. unfold forward_queue_dlq_pending. eauto 20 with tx. Qed.
Lemma atomic_reset now : atomic (reset_queue_claims now).
Proof. unfold reset_queue_claims. eauto 20 with tx. Qed.
Lemma atomic_repair mm : atomic (repair_queue_counter mm).
Proof.
  unfold repair_queue_counter. repeat (apply atomic_bind_pure; [eauto with tx|intros ?]).
  eauto 20 with tx.
Qed.
End failures.

(** ** Lifecycle *)

(** The unsigned fields of a projection. *)
Definition projection_typed (p : QueueProjection) : Prop :=
  0 ≤ p.(p_lifecycle_generation) ∧ 0 ≤ p.(p_config_generation) ∧
  0 ≤ p.(p_config).(delivery_delay_seconds) ∧ 0 ≤ p.(p_config).(max_message_bytes) ∧
  0 ≤ p.(p_config).(max_batch_messages) ∧ 0 ≤ p.(p_config).(max_batch_bytes) ∧
  0 ≤ p.(p_config).(max_backlog_bytes).

Lemma validate_config_inv p c : QueueConfig_validate p.(p_config) = Ok c → projection_typed p →
  p.(p_config).(max_backlog_bytes) ≤ i64_max → config_ok p.(p_config).
Proof.
  unfold QueueConfig_validate, projection_typed, config_ok, QUEUE_MAX_DELAY_SECONDS,
    QUEUE_MIN_RETENTION_SECONDS, QUEUE_MAX_RETENTION_SECONDS, QUEUE_MAX_MESSAGE_BYTES,
    QUEUE_MAX_BATCH_MESSAGES, QUEUE_MAX_BATCH_BYTES.
  intros H Ht Hb. destruct_result. apply bail_if_Ok in Hm. injection H as <-.
  destruct (p_config p); cbn in *. lia.
Qed.

Lemma bind_projection_run p db db' u : bind_projection p db = (db', Ok u) →
  db' = db ∧ p.(p_lifecycle_generation) ≤ i64_max ∧ p.(p_config_generation) ≤ i64_max ∧
  p.(p_config).(max_backlog_bytes) ≤ i64_max.
Proof.
  unfold bind_projection, bind_config, as_i64. intros H. run_inv.
  repeat match goal with H : i64_checked _ = Some _ |- _ => apply i64_checked_Some in H as [_ ?] end.
  unfold in_i64 in *. split_and!; (done || lia).
Qed.

Lemma as_i64_run z db db' z' : as_i64 z db = (db', Ok z') → db' = db ∧ z' = z ∧ in_i64 z.
Proof. unfold as_i64. intros H. run_inv. apply i64_checked_Some in Hr as [-> ?]. done. Qed.

Ltac open_binds :=
  repeat match goal with
  | H : as_i64 _ _ = _ |- _ => apply as_i64_run in H as (-> & -> & ?)
  | H : bind_projection _ _ = _ |- _ => apply bind_projection_run in H as (-> & ? & ? & ?)
  end.

Lemma update_queue_row_run id P `{!∀ q, Decision (P q)} f e db db' u :
  update_queue_row id P f e db = (db', Ok u) →
  ∃ q, db.(queues) !! id = Some q ∧ P q ∧ db' = set_queues (<[id := f q]> db.(queues)) db.
Proof.
  unfold update_queue_row. intros Hu. run_inv. subst. apply dec_stable in Hg. eauto.
Qed.

Lemma with_state_ok st now q : queue_row_ok q → queue_row_ok (with_state st now q).
Proof. done. Qed.

Lemma with_config_ok p st q c :
  QueueConfig_validate p.(p_config) = Ok c → projection_typed p →
  p.(p_config).(max_backlog_bytes) ≤ i64_max → 1 ≤ p.(p_config_generation) ≤ i64_max →
  queue_row_ok q → queue_row_ok (with_config p st q).
Proof.
  intros Hv Ht Hb Hg (H1 & H2 & H3 & H4). refine (conj H1 (conj Hg (conj _ H4))).
  by eapply validate_config_inv.
Qed.

Lemma stmt_inv_row_ok X db q r : stmt_inv X db → db.(queues) !! q = Some r → queue_row_ok r.
Proof. intros [[[_ _ _ _ _ _ _ _ Hr] _ _ _] _]. apply Hr. Qed.

Section lifecycle_wf.
Context (instance_id : N) (X : view).

Lemma keeps_create p :
  projection_typed p → keeps (stmt_inv X) (create_queue_projection instance_id p).
Proof.
  intros Ht. apply keeps_atomic; [apply atomic_create|]. intros db db' [] Hdb H.
  unfold create_queue_projection, require_instance in H. run_inv.
  open_binds. subst. apply stmt_inv_notify, stmt_inv_new; [by apply eq_None_not_Some| |done|done|done].
  assert (config_ok p.(p_config)) by (by eapply validate_config_inv). destruct Ht as (? & ? & _).
  split; [cbn; lia|]. split; [cbn; lia|]. split; [done|cbn; lia].
Qed.

Lemma keeps_verify p : keeps (stmt_inv X) (verify_queue_projection instance_id p).
Proof.
  apply keeps_pure. unfold verify_queue_projection. apply pure_bind; [apply pure_require_instance|intros _].
  apply pure_bind; [apply pure_bind_projection|intros _]. by eauto with tx.
Qed.

Lemma keeps_ensure p :
  projection_typed p → keeps (stmt_inv X) (ensure_queue_projection instance_id p).
Proof.
  intros Ht db Hdb. unfold ensure_queue_projection, require_instance. run_simpl.
  destruct (QueueConfig_validate (p_config p)) as [c|e] eqn:Hv; [|done].
  case_decide; [done|]. destruct (bind_projection p db) as [db1 [u|e]] eqn:Hb.
  2: { pose proof (pure_bind_projection p db) as Hp. rewrite Hb in Hp. cbn in *. by subst. }
  apply bind_projection_run in Hb as (-> & ? & ? & Hb). destruct (decide (_ ∧ _)) as [(Hn & ? & ?)|Hn].
  - apply keeps_verify, stmt_inv_new; try done.
    split; [cbn; lia|]. split; [cbn; lia|]. split; [by eapply validate_config_inv|cbn; lia].
  - by apply keeps_verify.
Qed.

Lemma keeps_begin id l c now : keeps (stmt_inv X) (begin_queue_config id l c now).
Proof.
  apply keeps_atomic; [apply atomic_begin|]. intros db db' [] Hdb H. unfold begin_queue_config in H.
  run_inv. open_binds.
  subst. apply update_queue_row_run in Hm1 as (q & Hq & _ & ->).
  apply stmt_inv_notify. eapply stmt_inv_row; try done. by eapply with_state_ok, stmt_inv_row_ok.
Qed.

Lemma keeps_finish id l c now : keeps (stmt_inv X) (finish_queue_config id l c now).
Proof.
  apply keeps_atomic; [apply atomic_finish|]. intros db db' [] Hdb H. unfold finish_queue_config in H.
  run_inv. open_binds.
  subst. apply update_queue_row_run in Hm1 as (q & Hq & _ & ->).
  apply stmt_inv_notify. eapply stmt_inv_row; try done. by eapply with_state_ok, stmt_inv_row_ok.
Qed.

Lemma keeps_project p :
  projection_typed p → keeps (stmt_inv X) (project_queue_config instance_id p).
Proof.
  intros Ht. apply keeps_atomic; [apply atomic_project|]. intros db db' [] Hdb H.
  unfold project_queue_config, require_instance in H. run_inv.
  apply u64_checked_Some in Hr0 as [-> Hprior].
  open_binds.
  apply update_queue_row_run in H as (q & Hq & _ & ->).
  eapply stmt_inv_row; try done. unfold in_u64 in *.
  eapply with_config_ok; try done; [lia|]. by eapply stmt_inv_row_ok.
Qed.

Lemma keeps_reconcile p :
  projection_typed p → keeps (stmt_inv X) (reconcile_queue_config instance_id p).
Proof.
  intros Ht. apply keeps_atomic; [apply atomic_reconcile|]. intros db db' [] Hdb H.
  unfold reconcile_queue_config, require_instance in H.
  apply bind_run in H as (s & c & Hv & H). apply lift_run in Hv as [-> Hv].
  run_inv; subst.
  all: open_binds.
  - match goal with H : u64_checked (_ - 1) = Some _ |- _ => apply u64_checked_Some in H as [-> Hp] end.
    unfold in_u64 in *. eapply stmt_inv_row; try done. eapply with_config_ok; try done; [lia|]. by eapply stmt_inv_row_ok.
  - match goal with H : bind_config _ ?db = (?db', _) |- _ =>
      assert (db' = db) as ->; [|done];
      unfold bind_config, as_i64 in H; by run_inv end.
Qed.

Lemma pure_metrics id : pure (metrics_tx id).
Proof. unfold metrics_tx. eauto with tx. Qed.

Lemma metrics_tx_state id db db' r : metrics_tx id db = (db', r) → db' = db.
Proof. intros H. pose proof (pure_metrics id db) as Hp. by rewrite H in Hp. Qed.

Lemma keeps_fence id l now : keeps (stmt_inv X) (fence_queue_delete id l now).
Proof.
  apply keeps_atomic; [apply atomic_fence|]. intros db db' mt Hdb H. unfold fence_queue_delete in H.
  run_inv. subst. apply metrics_tx_state in Hm as ->. open_binds.
  apply update_queue_row_run in Hm2 as (q & Hq & _ & ->).
  apply stmt_inv_notify. eapply stmt_inv_row; try done. by eapply with_state_ok, stmt_inv_row_ok.
Qed.

Lemma stmt_inv_filter_operations (P : N * Operation → Prop) `{!∀ x, Decision (P x)} db :
  stmt_inv X db → stmt_inv X (set_operations (filter P db.(operations)) db).
Proof.
  intros Hdb. apply stmt_inv_operations; [|done].
  intros i o [Hi _]%map_lookup_filter_Some. by eapply stmt_inv_operation_refs.
Qed.

Lemma keeps_delete_projection id l : keeps (stmt_inv X) (delete_queue_projection id l).
Proof.
  intros db Hdb. unfold delete_queue_projection, as_i64.
  eapply (stmt_inv_filter_operations (λ '(_, o), ¬ (o.(op_queue) = id ∧ o.(finalized_at_ms) ≠ None)))
    in Hdb. revert Hdb. set (db1 := set_operations _ db). intros Hdb. run_simpl.
  fold db1. destruct (i64_checked l) as [l'|]; [|done]. destruct (decide (is_some_and _ _)).
  - unfold execute. destruct (delete_queue_row id db1) as [db2|e] eqn:Hd; [|done].
    apply stmt_inv_notify. by eapply stmt_inv_delete_queue.
  - case_decide; [done|]. by apply stmt_inv_notify.
Qed.

Lemma keeps_repair mm : keeps (stmt_inv X) (repair_queue_counter mm).
Proof.
  apply keeps_atomic; [apply atomic_repair|]. intros db db' r Hdb H. unfold repair_queue_counter in H.
  run_inv. open_binds.
  subst. destruct (queues db !! mm_queue mm) as [q|] eqn:Hq; run_inv; subst; try done.
  destruct Hd as (Es & Eb & Ec & Ea). assert (Hc := stmt_inv_core _ _ Hdb).
  destruct (core_counters _ Hc _ _ Hq) as [E1 E2].
  eapply stmt_inv_row; try done; cbn; [|congruence|congruence].
  destruct (core_rows _ Hc _ _ Hq) as (Ha & Hb & Hcf & Hbytes).
  refine (conj Ha (conj Hb (conj Hcf _))). cbn. by rewrite <-Ea, <-E2.
Qed.
End lifecycle_wf.

(** ** Retention *)

Section retention_wf.
Context (X : view).

Lemma stmt_inv_filter_pending (P : N * Pending → Prop) `{!∀ x, Decision (P x)} db :
  stmt_inv X db → stmt_inv X (set_dlq_pending (filter P db.(dlq_pending)) db).
Proof.
  intros Hdb. apply stmt_inv_fewer_pending; [|done].
  intros i o [Hi _]%map_lookup_filter_Some. eauto.
Qed.

Lemma delete_candidate_inv P `{!∀ m, Decision (P m)} c db db' n :
  (∀ m, P m → m.(msg_state) = MReady) → stmt_inv X db →
  delete_candidate P c db = (db', Ok n) → stmt_inv X db'.
Proof.
  intros HP Hdb Hrun. unfold delete_candidate in Hrun. queue_run. subst.
  eapply (stmt_inv_delete X (λ m, m.(seq) = c.(seq) ∧ P m)); [by eapply stmt_inv_filter_pending| |done].
  intros m b _ [_ Hm%HP]. unfold claim_batch_id. by rewrite Hm.
Qed.

Lemma checked_total_state total sizes db db' n :
  checked_total total sizes db = (db', Ok n) → db' = db.
Proof.
  revert total. induction sizes as [|x l IH]; intros total H; cbn in H; run_inv; [done|by eapply IH].
Qed.

Lemma keeps_sweep now rows bytes : keeps (stmt_inv X) (sweep_queue_retention now rows bytes).
Proof.
  apply keeps_atomic; [apply atomic_sweep|]. intros db db' r Hdb Hrun.
  unfold sweep_queue_retention, select_delete_candidates, delete_expired_operations, next_expiry in Hrun.
  run_inv. subst. simplify_eq.
  all: match goal with H : checked_total _ _ _ = _ |- _ => apply checked_total_state in H; subst end.
  all: match goal with H : for_each _ _ _ = _ |- _ => eapply (for_each_inv (stmt_inv X)) in H; [|by intros;
    eapply (delete_candidate_inv (λ m, m.(msg_state) = MReady ∧ m.(msg_expires_at_ms) ≤ now)); [by intros ? [? _]|..]|done] end.
  all: rewrite ?stmt_inv_notify; by apply stmt_inv_filter_operations.
Qed.

Lemma keeps_purge q rows bytes : keeps (stmt_inv X) (purge_queue q rows bytes).
Proof.
  apply keeps_atomic; [apply atomic_purge|]. intros db db' r Hdb Hrun.
  unfold purge_queue, select_delete_candidates, delete_queue_operations, next_expiry in Hrun.
  run_inv. subst. simplify_eq.
  all: match goal with H : checked_total _ _ _ = _ |- _ => apply checked_total_state in H; subst end.
  all: match goal with H : for_each _ _ _ = _ |- _ => eapply (for_each_inv (stmt_inv X)) in H; [|by intros;
    eapply (delete_candidate_inv (λ m, m.(msg_queue) = q ∧ m.(msg_state) = MReady)); [by intros ? [_ ?]|..]|done] end.
  all: rewrite ?stmt_inv_notify; by apply stmt_inv_filter_operations.
Qed.
End retention_wf.

(** ** Producers *)

Section producer_wf.
Context (sha256 : list Z → list Z) (id_text : N → list Z) (gen : nat → N) (X : view).

Lemma insert_loop_inv r q now ex i ms db db' ids :
  stmt_inv X db → insert_loop gen r q now ex i ms db = (db', Ok ids) → stmt_inv X db'.
Proof.
  revert i db ids. induction ms as [|m ms IH]; intros i db ids Hdb H; cbn [insert_loop] in H; queue_run.
  - done.
  - open_binds. eauto with queue.
Qed.

Lemma insert_operation_inv r fp ids mt created ret ex db db' u :
  stmt_inv X db → insert_enqueue_operation r fp ids mt created ret ex db = (db', Ok u) → stmt_inv X db'.
Proof.
  intros Hdb H. unfold insert_enqueue_operation in H. run_inv. open_binds. subst.
  apply stmt_inv_operations; [|done]. intros i o Hi.
  apply lookup_insert_Some in Hi as [[_ <-]|[_ Hi]]; [|by eapply stmt_inv_operation_refs].
  cbn. apply not_eq_None_Some. intros Hn. apply Hg. right. by left.
Qed.

Lemma enqueue_new_inv r fp now db db' res :
  stmt_inv X db → enqueue_new gen r fp now db = (db', Ok res) → stmt_inv X db'.
Proof.
  intros Hdb H. unfold enqueue_new, read_state_tx in H. run_inv.
  destruct (q_state _); run_inv. subst.
  match goal with H : metrics_tx _ _ = _ |- _ => apply metrics_tx_state in H as -> end.
  eapply insert_operation_inv; [|done]. by eapply insert_loop_inv.
Qed.

Lemma replay_state r fp db db' o : replay_enqueue r fp db = (db', Ok o) → db' = db.
Proof.
  unfold replay_enqueue. intros H. run_inv. subst. destruct (operations db !! _); by run_inv.
Qed.

Lemma keeps_enqueue r now : keeps (stmt_inv X) (enqueue_queue sha256 id_text gen r now).
Proof.
  apply keeps_atomic; [apply atomic_enqueue|]. intros db db' res Hdb H. unfold enqueue_queue in H.
  run_inv; subst.
  all: match goal with H : replay_enqueue _ _ _ = _ |- _ => apply replay_state in H as -> end.
  all: destruct a1; run_inv; simplify_eq; try done.
  apply stmt_inv_notify. by eapply enqueue_new_inv.
Qed.

Lemma keeps_finalize i q l now : keeps (stmt_inv X) (finalize_queue_enqueue i q l now).
Proof.
  apply keeps_atomic; [apply atomic_finalize|]. intros db db' [] Hdb H. unfold finalize_queue_enqueue in H.
  run_inv. subst. destruct (operations db !! i) as [o|] eqn:Ho; run_inv; [|done].
  destruct (finalized_at_ms o); run_inv; subst; [done|].
  apply stmt_inv_operations; [|done]. intros j o' Hj.
  apply lookup_insert_Some in Hj as [[_ <-]|[_ Hj]].
  - exact (stmt_inv_operation_refs X db i o Hdb Ho).
  - by eapply stmt_inv_operation_refs.
Qed.
End producer_wf.
