(* ===== verification/QueueDelivery.v ===== *)
(** * Delivery keeps the tables well formed

    Claims, completions, dead-letter forwarding and start-up recovery keep
    [queue_wf]: inside a transaction the batch that is being claimed or completed is
    the only one whose count may differ from the messages it holds. *)

From stdpp Require Import base numbers list option strings sorting gmap.
From S2P Require Import Prelude ErrorCodes Sql QueueDb QueueInv QueueStore.
From S2P Require Import QueueEnqueue QueueConsumer QueueStmt QueueWf.

Local Open Scope Z_scope.

Lemma consumer_i64_run z db db' z' : consumer_i64 z db = (db', Ok z') → db' = db ∧ z' = z ∧ in_i64 z.
Proof. unfold consumer_i64. intros H. run_inv. apply i64_checked_Some in Hr as [-> ?]. done. Qed.

(** Opens a run of the consumer, conversions included. *)
Ltac consumer_run :=
  repeat (progress queue_run || match goal with
  | H : consumer_i64 _ _ = (_, Ok _) |- _ => apply consumer_i64_run in H as (-> & -> & ?)
  end); subst.

(** ** Completion *)

Section completion_wf.
Context (b : ClaimedQueueBatch) (X : view) (HX : ¬ X b.(b_id)).

Lemma held_by_batch g m : m.(msg_state) = held_by b g → claim_batch_id m = Some b.(b_id).
Proof. unfold claim_batch_id. by intros ->. Qed.

Lemma delete_claimed_inv m db db' u :
  stmt_inv X db → delete_claimed_message_tx m b db = (db', Ok u) → stmt_inv X db'.
Proof.
  intros Hdb H. unfold delete_claimed_message_tx in H. consumer_run.
  eapply (stmt_inv_delete X (λ x, x.(seq) = m.(seq) ∧ x.(msg_state) = held_by b (b_generation b)));
    [done| |done].
  intros x b' _ [_ Hs] Hb. rewrite (held_by_batch _ _ Hs) in Hb. by injection Hb as <-.
Qed.

Lemma retry_message_inv m att now delay db db' u :
  stmt_inv X db → retry_message_tx m b att now delay db = (db', Ok u) → stmt_inv X db'.
Proof.
  intros Hdb H. unfold retry_message_tx in H. consumer_run.
  match goal with H : update_messages _ _ _ = _ |- _ =>
    refine (proj2 (stmt_inv_release X _ _ _ _ Hdb _ _ H)) end.
  { intros x. by eexists _, _. }
  intros x b' _ [_ Hs]. rewrite (held_by_batch _ _ Hs). by intros [= <-].
Qed.

Lemma insert_dlq_inv m target now db db' u :
  stmt_inv X db → insert_dlq_message_tx m target now db = (db', Ok u) → stmt_inv X db'.
Proof. intros Hdb H. unfold insert_dlq_message_tx in H. consumer_run. eauto with queue. Qed.

Lemma dlq_accepts_state target len db db' r : dlq_accepts_tx target len db = (db', Ok r) → db' = db.
Proof. unfold dlq_accepts_tx. intros H. by consumer_run. Qed.

Lemma move_to_dlq_inv m target now db db' r :
  stmt_inv X db → move_to_dlq_tx m b target now db = (db', Ok r) → stmt_inv X db'.
Proof.
  intros Hdb H. unfold move_to_dlq_tx in H. consumer_run;
    match goal with H : dlq_accepts_tx _ _ _ = _ |- _ => apply dlq_accepts_state in H as -> end; [|done].
  eapply insert_dlq_inv; [|done]. by eapply delete_claimed_inv.
Qed.

(** Follows the statements of a run backwards. *)
Ltac chain :=
  repeat match goal with
  | H : delete_claimed_message_tx _ _ _ = (?s, _) |- stmt_inv _ ?s => eapply delete_claimed_inv; [|exact H]
  | H : retry_message_tx _ _ _ _ _ _ = (?s, _) |- stmt_inv _ ?s => eapply retry_message_inv; [|exact H]
  | H : move_to_dlq_tx _ _ _ _ _ = (?s, _) |- stmt_inv _ ?s => eapply move_to_dlq_inv; [|exact H]
  | H : insert_pending _ _ _ = Ok ?s |- stmt_inv _ ?s => eapply stmt_inv_insert_pending; [|exact H]
  end; try done.

Lemma complete_message_inv decisions now m db db' o :
  stmt_inv X db → complete_message b decisions now m db = (db', Ok o) → stmt_inv X db'.
Proof.
  intros Hdb H. unfold complete_message, add_ms in H. consumer_run.
  destruct a; consumer_run; chain.
  destruct (b_dead_letter_queue b); consumer_run; chain.
Qed.
End completion_wf.

Lemma claimed_messages_state b db db' ms : claimed_messages_tx b db = (db', Ok ms) → db' = db.
Proof. unfold claimed_messages_tx. intros H. by consumer_run. Qed.

Lemma complete_live_inv (X : view) b ds now db db' s :
  X.(tracked) b.(b_id) = None →
  stmt_inv X db → complete_live b ds now db = (db', Ok s) → stmt_inv X db'.
Proof.
  intros Hno Hdb H. unfold complete_live in H. consumer_run.
  match goal with H : claimed_messages_tx _ _ = _ |- _ => apply claimed_messages_state in H as -> end.
  match goal with H : for_each _ _ _ = _ |- _ =>
    eapply (for_each_inv (stmt_inv (except X b.(b_id)))) in H;
      [|by intros; eapply complete_message_inv; [|done..]; intros [_ []]|] end.
  - by eapply stmt_inv_delete_batch.
  - by apply stmt_inv_except.
Qed.

Lemma keeps_complete (X : view) b ds now :
  X.(tracked) b.(b_id) = None → keeps (stmt_inv X) (complete_queue_batch b ds now).
Proof.
  intros Hno. apply keeps_atomic; [apply atomic_complete|]. intros db db' s Hdb H.
  unfold complete_queue_batch in H.
  consumer_run; [|done]. apply stmt_inv_notify. by eapply complete_live_inv.
Qed.

(** ** Claims *)

(** The claim of one message row. *)
Definition claim_row (batch consumer : N) (generation : Z) (m : Message) : Message :=
  move_message (MClaimed batch consumer generation) m.(attempts) m.(available_at_ms) m.

(** The rows whose sequence numbers are among those of [ms]. *)
Definition among (ms : list Message) (m : Message) : Prop := m.(seq) ∈ seq <$> ms.
#[export] Instance among_dec ms m : Decision (among ms m).
Proof. unfold among. apply _. Defined.

Definition claim_rows (batch consumer : N) (generation : Z) (ms : list Message) (db : QueueDb) : QueueDb :=
  set_messages (sql_update (among ms) (claim_row batch consumer generation) db.(messages)) db.

(** What a message needs to be claimed under a batch. *)
Record claimable (db : QueueDb) (now : Z) (batch consumer : N) (generation : Z) (m : Message) : Prop := {
  cl_in : m ∈ db.(messages);
  cl_ready : m.(msg_state) = MReady;
  cl_due : m.(available_at_ms) ≤ now;
  cl_live : m.(msg_expires_at_ms) > now;
  cl_free : db.(dlq_pending) !! m.(msg_id) = None;
  cl_auth : batch_authorises db m.(msg_queue) batch consumer generation;
}.

Lemma affected_update_gain P `{!∀ m, Decision (P m)} Q `{!∀ m, Decision (Q m)} f (ms : list Message) :
  (∀ m, m ∈ ms → P m → ¬ Q m ∧ Q (f m)) →
  affected Q (sql_update P f ms) = affected Q ms + affected P ms.
Proof.
  intros HQ. induction ms as [|m ms IH]; [done|]. rewrite sql_update_cons, !affected_cons.
  rewrite IH by (intros x Hx; apply HQ; by right).
  destruct (decide (P m)) as [HP|].
  - destruct (HQ m (list_elem_of_here _ _) HP). rewrite (decide_True (P := Q (f m))), decide_False by done. lia.
  - lia.
Qed.

Lemma sql_update_ext {A} (P Q : A → Prop) `{!∀ m, Decision (P m)} `{!∀ m, Decision (Q m)} f l :
  (∀ x, x ∈ l → (P x ↔ Q x)) → sql_update P f l = sql_update Q f l.
Proof.
  intros HPQ. induction l as [|x l IH]; [done|]. rewrite !sql_update_cons, IH by (intros; apply HPQ; by right).
  f_equal. specialize (HPQ x (list_elem_of_here _ _)). destruct (decide (P x)), (decide (Q x)); tauto.
Qed.

Lemma claim_rows_cons batch consumer g m ms (l : list Message) :
  sql_update (among ms) (claim_row batch consumer g)
    (sql_update (among [m]) (claim_row batch consumer g) l) =
  sql_update (among (m :: ms)) (claim_row batch consumer g) l.
Proof.
  induction l as [|x l IH]; [done|]. rewrite !sql_update_cons, IH. f_equal.
  assert (Hcons : among (m :: ms) x ↔ x.(seq) = m.(seq) ∨ among ms x).
  { unfold among. cbn. by rewrite elem_of_cons. }
  assert (Hone : among [m] x ↔ x.(seq) = m.(seq)).
  { unfold among. cbn. by rewrite list_elem_of_singleton. }
  assert (Hsame : among ms (claim_row batch consumer g x) ↔ among ms x) by done.
  destruct (decide (among [m] x)), (decide (among (m :: ms) x)); try tauto.
  - by case_decide.
  - rewrite decide_True by tauto. done.
  - rewrite decide_False by tauto. done.
Qed.

Section claim_wf.
Context (now : Z) (batch consumer : N) (generation : Z).
Notation claim_one := (claim_message now batch consumer generation).

(** Claiming one message succeeds and moves that row only. *)
Lemma claim_message_ok db m :
  queue_core db → claimable db now batch consumer generation m →
  claim_one m db = (claim_rows batch consumer generation [m] db, Ok ()) ∧
  queue_core (claim_rows batch consumer generation [m] db).
Proof.
  intros Hc [Hin Hready Hdue Hlive Hfree Hauth].
  set (hit := λ x, x.(seq) = m.(seq) ∧
    (x.(msg_state) = MReady ∧ x.(available_at_ms) ≤ now ∧ x.(msg_expires_at_ms) > now ∧
     db.(dlq_pending) !! x.(msg_id) = None)).
  assert (Hhit : ∀ x, x ∈ db.(messages) → hit x ↔ among [m] x).
  { intros x Hx. unfold hit, among. cbn. rewrite list_elem_of_singleton. split; [by intros [? _]|].
    intros Hs. assert (x = m) as -> by by eapply message_seq_unique. done. }
  destruct (update_messages_ok db hit (claim_row batch consumer generation) Hc) as [Hup Hc'].
  { intros x. by eexists _, _, _. }
  { intros x Hx Hh. assert (x = m) as -> by (eapply message_seq_unique; [done..|apply Hh]).
    split.
    - cbn. by rewrite Hready.
    - pose proof (core_msg _ Hc) as Hok. rewrite Forall_forall in Hok. apply (Hok m Hin). }
  assert (Haff : affected hit db.(messages) = 1).
  { by apply affected_seq. }
  rewrite (sql_update_ext hit (among [m])) in Hup, Hc' by done. split; [|done].
  unfold claim_message. run_simpl. cbn [id]. fold hit. unfold execute.
  change (λ x, move_message (MClaimed batch consumer generation) (attempts x) (available_at_ms x) x)
    with (claim_row batch consumer generation).
  rewrite Hup. rewrite decide_False by lia. done.
Qed.

Lemma claim_rows_nil db : claim_rows batch consumer generation [] db = db.
Proof.
  unfold claim_rows. replace (sql_update _ _ _) with db.(messages); [by destruct db|].
  induction (messages db) as [|x l IH]; [done|]. rewrite sql_update_cons, <-IH.
  rewrite decide_False; [done|]. unfold among. cbn. set_solver.
Qed.

(** Claiming a row leaves the other claimable rows claimable. *)
Lemma claimable_step db m x :
  queue_core db → m ∈ db.(messages) → x.(seq) ≠ m.(seq) →
  claimable db now batch consumer generation x →
  claimable (claim_rows batch consumer generation [m] db) now batch consumer generation x.
Proof.
  intros Hc Hm Hne [Hin ? ? ? ? ?]. split; try done. cbn. apply elem_of_sql_update.
  exists x. split; [done|]. rewrite decide_False; [done|]. unfold among. cbn.
  by rewrite list_elem_of_singleton.
Qed.

(** The rows of the batches after a claim. *)
Lemma claim_rows_count db m :
  queue_core db → m ∈ db.(messages) → m.(msg_state) = MReady →
  affected (claimed_in batch) (claim_rows batch consumer generation [m] db).(messages) =
  affected (claimed_in batch) db.(messages) + 1.
Proof.
  intros Hc Hm Hready. cbn [claim_rows set_messages messages].
  assert (Huniq : ∀ x, x ∈ db.(messages) → among [m] x → x = m).
  { intros x Hx Hs. eapply message_seq_unique; [done..|]. unfold among in Hs. cbn in Hs.
    by apply list_elem_of_singleton in Hs. }
  rewrite affected_update_gain.
  - f_equal. apply (affected_unique _ seq _ m); [apply Hc|done| |].
    + unfold among. cbn. by apply list_elem_of_singleton.
    + intros y Hy Hs. by rewrite (Huniq y Hy Hs).
  - intros x Hx Hs. rewrite (Huniq x Hx Hs). unfold claimed_in, claim_batch_id. by rewrite Hready.
Qed.

Lemma claim_rows_other db ms b' :
  queue_core db → Forall (claimable db now batch consumer generation) ms → b' ≠ batch →
  rows_of b' (claim_rows batch consumer generation ms db) = rows_of b' db.
Proof.
  intros Hc Hall Hne. apply where_update. intros x Hx (m & Hs & Hm)%list_elem_of_fmap.
  rewrite Forall_forall in Hall. destruct (Hall m Hm) as [Hin Hready _ _ _ _].
  rewrite (message_seq_unique db x m) by done. unfold claimed_in, claim_batch_id. rewrite Hready.
  split; [done|]. cbn. congruence.
Qed.

Lemma claim_messages_ok ms db :
  queue_core db → NoDup (seq <$> ms) → Forall (claimable db now batch consumer generation) ms →
  for_each claim_one ms db =
    (claim_rows batch consumer generation ms db, Ok (replicate (length ms) ())) ∧
  queue_core (claim_rows batch consumer generation ms db) ∧
  affected (claimed_in batch) (claim_rows batch consumer generation ms db).(messages) =
    affected (claimed_in batch) db.(messages) + Z.of_nat (length ms).
Proof.
  revert db. induction ms as [|m ms IH]; intros db Hc Hnd Hall.
  { rewrite claim_rows_nil. split_and!; [done|done|]. cbn [length]. lia. }
  rewrite fmap_cons in Hnd. apply NoDup_cons in Hnd as [Hm Hnd].
  apply Forall_cons in Hall as [Hcl Hall].
  destruct (claim_message_ok db m Hc Hcl) as [Hone Hc1].
  assert (Hall1 : Forall (claimable (claim_rows batch consumer generation [m] db) now batch consumer
                    generation) ms).
  { rewrite Forall_forall in *. intros x Hx. apply claimable_step; [done|apply Hcl| |by apply Hall].
    intros Heq. apply Hm. rewrite <-Heq. by apply list_elem_of_fmap_2. }
  destruct (IH _ Hc1 Hnd Hall1) as (Hrest & Hc2 & Hcount).
  assert (Heq : claim_rows batch consumer generation ms (claim_rows batch consumer generation [m] db) =
    claim_rows batch consumer generation (m :: ms) db).
  { unfold claim_rows. cbn [set_messages messages]. by rewrite (claim_rows_cons _ _ _ m ms). }
  rewrite Heq in *. split_and!; [|done|].
  - apply for_each_cons_run. do 3 eexists. split_and!; [exact Hone|exact Hrest|done].
  - rewrite Hcount, claim_rows_count; [|done|apply Hcl|apply Hcl]. cbn [length]. lia.
Qed.
End claim_wf.

(** The messages a claim gives a consumer, and the batch it creates. *)
Definition due (db : QueueDb) (now : Z) (c : Consumer) : list Message :=
  take (Z.to_nat c.(max_batch_size)) (deliverables db now c.(consumer_queue)).

Definition new_batch (now : Z) (consumer_id : N) (c : Consumer) (n : nat) : Batch :=
  batch_row c.(consumer_queue) consumer_id c.(consumer_generation) c.(version_id)
    c.(execution_generation) c.(entrypoint) (Z.of_nat n) now.

Definition claimed_batch (instance_id batch consumer_id : N) (c : Consumer) (ms : list Message) :
    ClaimedQueueBatch :=
  claimed_queue_batch batch instance_id c.(consumer_queue) consumer_id c.(consumer_generation)
    c.(version_id) c.(worker_id) c.(execution_generation) c.(entrypoint) c.(max_retries) c.(dlq)
    c.(retry_delay_seconds) (to_claimed <$> ms).

(** The tables after a batch has been claimed. *)
Definition claim_db (now : Z) (batch consumer_id : N) (c : Consumer) (db : QueueDb) : QueueDb :=
  let ms := due db now c in
  claim_rows batch consumer_id c.(consumer_generation) ms
    (set_batches (<[batch := new_batch now consumer_id c (length ms)]> db.(batches)) db).

Lemma elem_of_deliverables db now q m :
  m ∈ deliverables db now q ↔ m ∈ db.(messages) ∧ deliverable db now q m.
Proof. unfold deliverables, sql_where. rewrite elem_of_order_by, list_elem_of_filter. tauto. Qed.

Lemma elem_of_due db now c m : m ∈ due db now c → m ∈ db.(messages) ∧ deliverable db now c.(consumer_queue) m.
Proof. intros H%elem_of_take. by apply elem_of_deliverables. Qed.

Lemma due_NoDup db now c : queue_core db → NoDup (seq <$> due db now c).
Proof.
  intros Hc. unfold due. rewrite <-firstn_map. eapply sublist_NoDup; [|apply sublist_take].
  unfold deliverables. rewrite order_by_Permutation.
  eapply sublist_NoDup; [apply Hc|]. apply fmap_sublist, sublist_filter.
Qed.

Section claim_batch_wf.
Context (X : view) (HX : ∀ b, X b).
Context (instance_id : N) (now : Z) (batch consumer_id : N) (c : Consumer).

(** A batch that the guard admits is claimed with exactly the due messages. *)
Lemma claim_batch_ok db db1 :
  stmt_inv X db →
  insert_batch batch (new_batch now consumer_id c (length (due db now c))) db = Ok db1 →
  for_each (claim_message now batch consumer_id c.(consumer_generation)) (due db now c) db1 =
    (claim_db now batch consumer_id c db, Ok (replicate (length (due db now c)) ())) ∧
  stmt_inv X (claim_db now batch consumer_id c db).
Proof.
  intros Hdb Hins. assert (Hinv := insert_batch_inv _ _ _ _ Hins).
  destruct Hinv as (Hdb1 & Hfresh & Hq & Hn & _). cbn [batch_queue batch_message_count new_batch] in Hq, Hn.
  assert (Hno : X.(tracked) batch = None).
  { destruct (tracked X batch) as [t|] eqn:Et; [|done].
    destruct Hdb as [_ [_ Htr]]. destruct (Htr _ _ Et) as (_ & ? & _). congruence. }
  assert (Hx : stmt_inv (except X batch) db1).
  { eapply stmt_inv_insert_batch; [by apply stmt_inv_except| |exact Hins]. by intros [_ []]. }
  assert (Hall : Forall (claimable db1 now batch consumer_id c.(consumer_generation)) (due db now c)).
  { apply Forall_forall. intros m (Hin & Hqm & ? & ? & ? & ?)%elem_of_due. subst db1. split; try done.
    unfold batch_authorises. cbn. rewrite lookup_insert_eq. done. }
  destruct (claim_messages_ok now batch consumer_id c.(consumer_generation) (due db now c) db1)
    as (Hrun & Hc' & Hcount).
  - by eapply stmt_inv_core.
  - apply due_NoDup. by eapply stmt_inv_core.
  - done.
  - unfold claim_db. rewrite <-Hdb1. split; [done|].
    destruct Hx as [[Hc1 [Rb Ro Rc Rp] Hk1 Hfr1] Hex].
    split; [split; [done|by split|done|]|].
    { unfold claimed_free in *. rewrite Forall_forall in *. intros x (y & Hy & ->)%elem_of_sql_update.
      destruct (decide (among _ y)) as [Hay|]; [|by apply Hfr1]. right.
      apply list_elem_of_fmap in Hay as (m & Hs & Hm).
      destruct (elem_of_due _ _ _ _ Hm) as [Hin (_ & _ & _ & _ & Hnone)]. subst db1. cbn in Hy.
      by rewrite (message_seq_unique db y m) by (done || by eapply stmt_inv_core). }
    assert (Hrows : ∀ b', b' ≠ batch → rows_of b' (claim_rows batch consumer_id
      c.(consumer_generation) (due db now c) db1) = rows_of b' db1).
    { intros b' Hne. by apply (claim_rows_other now). }
    assert (Hex' : batches_ok (except X batch) (claim_rows batch consumer_id
      c.(consumer_generation) (due db now c) db1)).
    { apply (batches_ok_step _ db1); [done| |done]. intros b' [_ Hne]. by apply Hrows. }
    destruct Hex' as [He Htr]. split; [|intros b' t Hbt; destruct (Htr b' t Hbt) as ([? ?] & ? & ?); done].
    intros b' r _ Hb'. destruct (decide (b' = batch)) as [->|Hne]; [|by apply He].
    subst db1. cbn in Hb'. rewrite lookup_insert_eq in Hb'. injection Hb' as <-.
    split; [|cbn; lia]. rewrite Hcount. cbn [messages set_batches].
    rewrite fresh_batch_empty; [cbn; lia| |done]. by eapply stmt_inv_core.
Qed.

Lemma claim_batch_run db db' b :
  stmt_inv X db → claim_batch instance_id now batch consumer_id c (due db now c) db = (db', Ok b) →
  db' = claim_db now batch consumer_id c db ∧
  b = claimed_batch instance_id batch consumer_id c (due db now c) ∧ stmt_inv X db'.
Proof.
  intros Hdb H. unfold claim_batch in H. consumer_run.
  match goal with H : insert_batch _ _ _ = Ok _ |- _ => destruct (claim_batch_ok _ _ Hdb H) as [Hrun Hinv] end.
  match goal with H : for_each _ _ _ = _ |- _ => rewrite Hrun in H; injection H as <- _ end. done.
Qed.
End claim_batch_wf.

Section claims_wf.
Context (X : view) (HX : ∀ b, X b) (instance_id : N) (gen : nat → N).

Lemma due_messages_run c now db db' ms :
  due_messages_tx c now db = (db', Ok ms) → db' = db ∧ ms = due db now c.
Proof. unfold due_messages_tx. intros H. by consumer_run. Qed.

Lemma claim_loop_inv now i cs db db' bs :
  stmt_inv X db → claim_loop instance_id gen now i cs db = (db', Ok bs) →
  stmt_inv X db'.
Proof.
  revert i db bs. induction cs as [|[id c] cs IH]; intros i db bs Hdb H; cbn [claim_loop] in H; consumer_run.
  - done.
  - apply due_messages_run in Hm as [-> _]. by eapply IH.
  - apply due_messages_run in Hm as [-> ->].
    match goal with H : claim_batch _ _ _ _ _ _ _ = _ |- _ =>
      apply (claim_batch_run X HX _ _ _ _ _ _ _ _ Hdb) in H as (_ & _ & Hdb1) end.
    by eapply IH.
Qed.

Lemma eligible_state now n after db db' cs :
  eligible_consumers_tx now n after db = (db', Ok cs) → db' = db.
Proof. unfold eligible_consumers_tx. intros H. by consumer_run. Qed.

Lemma keeps_claim now n after :
  keeps (stmt_inv X) (claim_queue_batches instance_id gen now n after).
Proof.
  apply keeps_atomic; [apply atomic_claim|]. intros db db' bs Hdb H. unfold claim_queue_batches in H.
  consumer_run. match goal with H : eligible_consumers_tx _ _ _ _ = _ |- _ => apply eligible_state in H as -> end.
  by eapply claim_loop_inv.
Qed.
End claims_wf.

(** ** Pending dead letters *)

Section forward_wf.
Context (X : view).

Lemma delete_ready_inv m db db' :
  stmt_inv X db → delete_messages (λ x, x.(seq) = m.(seq) ∧ x.(msg_state) = MReady) db = Ok db' →
  stmt_inv X db'.
Proof.
  intros Hdb H. eapply (stmt_inv_delete X (λ x, x.(seq) = m.(seq) ∧ x.(msg_state) = MReady)); [done| |done].
  intros x b _ [_ Hx]. unfold claim_batch_id. by rewrite Hx.
Qed.

Lemma delete_pending_inv id db : stmt_inv X db → stmt_inv X (set_dlq_pending (delete id db.(dlq_pending)) db).
Proof.
  intros Hdb. apply stmt_inv_fewer_pending; [|done]. intros i p [_ Hi]%lookup_delete_Some. eauto.
Qed.

Lemma move_ready_inv m target now db db' r :
  stmt_inv X db → move_ready_to_dlq_tx m target now db = (db', Ok r) → stmt_inv X db'.
Proof.
  intros Hdb H. unfold move_ready_to_dlq_tx in H. consumer_run;
    match goal with H : dlq_accepts_tx _ _ _ = _ |- _ => apply dlq_accepts_state in H as -> end; [|done].
  eapply insert_dlq_inv; [|done]. by eapply delete_ready_inv.
Qed.

Lemma ready_message_state id db db' m : ready_message_by_id_tx id db = (db', Ok m) → db' = db.
Proof. unfold ready_message_by_id_tx. intros H. by consumer_run. Qed.

Lemma move_ready_pending m target now db db' r :
  move_ready_to_dlq_tx m target now db = (db', Ok r) →
  db'.(dlq_pending) = db.(dlq_pending) ∧ (r = false → db' = db).
Proof.
  unfold move_ready_to_dlq_tx, insert_dlq_message_tx. intros H. consumer_run;
    match goal with H : dlq_accepts_tx _ _ _ = _ |- _ => apply dlq_accepts_state in H as -> end; [|done].
  match goal with H : insert_message _ _ _ _ _ _ _ _ _ = _ |- _ =>
    apply insert_message_inv in H as (? & _ & _ & _ & _ & _ & _ & _ & _ & _ & _ & _ & ->) end.
  match goal with H : delete_messages _ _ = _ |- _ => unfold delete_messages in H; destruct_result;
    injection H as <- end. done.
Qed.

Lemma forward_one_inv now backoff id db db' o :
  stmt_inv X db → forward_one now backoff id db = (db', Ok o) → stmt_inv X db'.
Proof.
  intros Hdb H. unfold forward_one, delete_pending, add_ms in H. consumer_run.
  all: match goal with H : ready_message_by_id_tx _ _ = _ |- _ => apply ready_message_state in H; subst end.
  - eapply delete_ready_inv; [|done]. by apply delete_pending_inv.
  - apply delete_pending_inv. by eapply move_ready_inv.
  - match goal with H : move_ready_to_dlq_tx _ _ _ _ = _ |- _ =>
      destruct (move_ready_pending _ _ _ _ _ _ H) as [_ Hsame] end.
    rewrite Hsame by (by apply not_true_is_false). apply stmt_inv_fewer_pending; [|done]. intros i p Hi.
    apply lookup_insert_Some in Hi as [[<- <-]|[_ Hi]]; eauto.
Qed.

Lemma keeps_forward now backoff n : keeps (stmt_inv X) (forward_queue_dlq_pending now backoff n).
Proof.
  apply keeps_atomic; [apply atomic_forward|]. intros db db' s Hdb H.
  unfold forward_queue_dlq_pending in H. consumer_run; rewrite ?stmt_inv_notify;
    (eapply (for_each_inv (stmt_inv X)); [by intros; eapply forward_one_inv|exact Hdb|done]).
Qed.
End forward_wf.

(** ** Recovery *)

Lemma stmt_inv_delete_batches X db db' :
  stmt_inv X db → delete_batches db = Ok db' →
  stmt_inv all_exact db' ∧ db' = set_batches ∅ db ∧ Forall (λ m, m.(msg_state) = MReady) db.(messages).
Proof.
  intros [[[Hs Hn Hi Hm Hf Hc Ha Hl Hr] [Rb Ro Rc Rp] Hk Hfr] Hx] Hdel. unfold delete_batches in Hdel.
  destruct_result. apply bail_if_Ok in Hm0. injection Hdel as <-.
  assert (Hready : Forall (λ m, m.(msg_state) = MReady) db.(messages)).
  { rewrite Forall_forall in *. intros m Hin. specialize (Ha m Hin). unfold claim_ok in Ha.
    destruct (msg_state m) as [|b c g] eqn:Hst; [done|]. exfalso. apply Hm0, Exists_exists.
    exists m. split; [done|]. unfold claim_batch_id. rewrite Hst. cbn. destruct Ha as (r & -> & _). done. }
  split_and!; [|done|done]. split; [split; [split|split|done|done]|done]; cbn; try done.
  rewrite Forall_forall in *. intros m Hin. unfold claim_ok. by rewrite Hready.
Qed.

Lemma reset_pending_inv X now ms db db' :
  stmt_inv X db → reset_pending now ms db = Ok db' → stmt_inv X db'.
Proof.
  revert db. induction ms as [|m ms IH]; intros db Hdb H; cbn [reset_pending] in H; [by injection H as <-|].
  destruct_result. apply (IH a); [|done]. unfold reset_pending_one in Hm.
  destruct (msg_state m); [|by injection Hm as <-].
  destruct (exhausted _ m ≫= dlq) as [[target g]|]; [|by injection Hm as <-].
  destruct_result. apply bail_if_Ok, dec_stable in Hm0. injection Hm as <-.
  destruct (dlq_pending db !! msg_id m); [done|]. by apply stmt_inv_add_pending.
Qed.

(** Nothing is known of the batches. *)
Definition no_exact : view := View (λ _, False) (λ _, None).

Lemma keeps_reset now : keeps (stmt_inv all_exact) (reset_queue_claims now).
Proof.
  apply keeps_atomic; [apply atomic_reset|]. intros db db' [] Hdb H.
  unfold reset_queue_claims in H. consumer_run.
  assert (H0 : stmt_inv no_exact db) by (destruct Hdb as [? _]; done).
  match goal with H : reset_messages _ _ = _ |- _ =>
    eapply (stmt_inv_release no_exact) in H as [_ H1]; [|done|by intros m; eexists _, _|by intros ? ? _ _ _ []] end.
  match goal with H : delete_batches _ = _ |- _ =>
    destruct (stmt_inv_delete_batches _ _ _ H1 H) as (H2 & _ & _) end.
  match goal with H : reset_pending _ _ _ = _ |- _ => eapply reset_pending_inv in H; [|exact H2] end.
  eapply (stmt_inv_delete _ (discardable _)); [done| |done].
  intros m b _ [Hm _]. unfold claim_batch_id. by rewrite Hm.
Qed.
