(* ===== verification/QueueReach.v ===== *)
(** * The queue store as a state machine

    Every call of the queue store, of the producer and of the consumer is a step, as
    is a product promotion that replaces the consumers.  All reachable tables are
    well formed. *)

From stdpp Require Import base numbers list option strings sorting gmap.
From S2P Require Import Prelude Text ErrorCodes Sql QueueDb QueueInv QueueStore QueueEnqueue QueueConsumer QueueStmt QueueWf QueueDelivery.

Local Open Scope Z_scope.

Definition empty_db : QueueDb := queue_db ∅ [] 1 ∅ ∅ ∅ ∅ 0.

Section machine.
Context (instance_id : N) (sha256 : list Z → list Z) (id_text : N → list Z).

(** The calls of the store.  The generators of message and batch ids are arbitrary. *)
Inductive queue_call : Type :=
| CallCreate (p : QueueProjection)
| CallEnsure (p : QueueProjection)
| CallBegin (id : N) (lifecycle config now_ms : Z)
| CallProject (p : QueueProjection)
| CallReconcile (p : QueueProjection)
| CallFinish (id : N) (lifecycle config now_ms : Z)
| CallFence (id : N) (lifecycle now_ms : Z)
| CallDelete (id : N) (lifecycle : Z)
| CallRepair (mm : QueueCounterMismatch)
| CallSweep (now_ms rows bytes : Z)
| CallPurge (id : N) (rows bytes : Z)
| CallEnqueue (gen : nat → N) (r : QueueEnqueueRequest) (now_ms : Z)
| CallFinalize (request queue : N) (lifecycle now_ms : Z)
| CallClaim (gen : nat → N) (now_ms limit : Z) (after : option N)
| CallComplete (b : ClaimedQueueBatch) (ds : list (N * QueueCompletionAction)) (now_ms : Z)
| CallForward (now_ms backoff limit : Z)
| CallReset (now_ms : Z)
| CallPromote (cs : gmap N Consumer).

(** The tables a call leaves, whether it succeeds or fails. *)
Definition run_call (c : queue_call) (db : QueueDb) : QueueDb :=
  match c with
  | CallCreate p => (create_queue_projection instance_id p db).1
  | CallEnsure p => (ensure_queue_projection instance_id p db).1
  | CallBegin id l g now => (begin_queue_config id l g now db).1
  | CallProject p => (project_queue_config instance_id p db).1
  | CallReconcile p => (reconcile_queue_config instance_id p db).1
  | CallFinish id l g now => (finish_queue_config id l g now db).1
  | CallFence id l now => (fence_queue_delete id l now db).1
  | CallDelete id l => (delete_queue_projection id l db).1
  | CallRepair mm => (repair_queue_counter mm db).1
  | CallSweep now rows bytes => (sweep_queue_retention now rows bytes db).1
  | CallPurge id rows bytes => (purge_queue id rows bytes db).1
  | CallEnqueue gen r now => (enqueue_queue sha256 id_text gen r now db).1
  | CallFinalize i q l now => (finalize_queue_enqueue i q l now db).1
  | CallClaim gen now n after => (claim_queue_batches instance_id gen now n after db).1
  | CallComplete b ds now => (complete_queue_batch b ds now db).1
  | CallForward now backoff n => (forward_queue_dlq_pending now backoff n db).1
  | CallReset now => (reset_queue_claims now db).1
  | CallPromote cs => set_consumers cs db
  end.

(** The arguments a call can have: unsigned projections, and consumers that satisfy
    the constraints of their table. *)
Definition call_ok (c : queue_call) (db : QueueDb) : Prop :=
  match c with
  | CallCreate p | CallEnsure p | CallProject p | CallReconcile p => projection_typed p
  | CallPromote cs => consumers_ok cs ∧ consumer_refs db.(queues) cs
  | _ => True
  end.

Inductive queue_reachable : QueueDb → Prop :=
| reach_empty : queue_reachable empty_db
| reach_call c db : queue_reachable db → call_ok c db → queue_reachable (run_call c db).

(** The calls that settle a batch: its completion, and a restart. *)
Definition settles_batch (b : N) (c : queue_call) : Prop :=
  match c with
  | CallComplete b' _ _ => b'.(b_id) = b
  | CallReset _ => True
  | _ => False
  end.

(** Any call that settles no tracked batch keeps what is known of the tables. *)
Lemma run_call_stmt (X : view) c db :
  (∀ b, X b) → (∀ b, settles_batch b c → X.(tracked) b = None) → call_ok c db →
  stmt_inv X db → stmt_inv X (run_call c db).
Proof.
  intros HX Hsettle Hok Hdb. destruct c; cbn in Hok |- *.
  - by apply keeps_create.
  - by apply keeps_ensure.
  - by apply keeps_begin.
  - by apply keeps_project.
  - by apply keeps_reconcile.
  - by apply keeps_finish.
  - by apply keeps_fence.
  - by apply keeps_delete_projection.
  - by apply keeps_repair.
  - by apply keeps_sweep.
  - by apply keeps_purge.
  - by apply keeps_enqueue.
  - by apply keeps_finalize.
  - by apply keeps_claim.
  - apply keeps_complete; [|done]. by apply Hsettle.
  - by apply keeps_forward.
  - assert (H := keeps_reset now_ms db). destruct Hdb as [Ht [He Htr]].
    destruct H as [Ht' [He' _]]; [split; [done|]; split; [|done]; intros b r _; by apply He|].
    split; [done|]. split; [by intros b r _; apply He'|].
    intros b t Hbt. by rewrite Hsettle in Hbt.
  - destruct Hok. by apply stmt_inv_consumers.
Qed.

Lemma empty_wf : queue_wf empty_db.
Proof.
  split; [|done| |done|by apply Forall_nil_2].
  - split; cbn; try apply NoDup_nil_2; try apply Forall_nil_2; [done|lia|done].
  - by split.
Qed.

Lemma queue_reachable_inv db : queue_reachable db → queue_wf db.
Proof.
  induction 1; [apply empty_wf|]. apply queue_wf_stmt, run_call_stmt; try done. by apply queue_wf_stmt.
Qed.

(** C1. In every state that the queue store can reach, from an empty database and
    through any sequence of creations, configurations, fences, deletions, enqueues,
    claims, completions, dead-letter forwards, sweeps, purges, restarts and
    promotions, successful or not: message ids and sequence numbers are unique, the
    cached counters of each queue are its messages and bytes, every claimed message
    belongs to a live batch of its queue, every batch holds as many messages as it
    counts and at least one, and all references resolve. *)
Theorem queue_reachable_wf db : queue_reachable db → queue_wf db.
Proof.
  induction 1; [apply empty_wf|]. apply queue_wf_stmt, run_call_stmt; try done. by apply queue_wf_stmt.
Qed.

(** In every reachable state the counter audit finds nothing to repair. *)
Theorem counters_never_drift db : queue_reachable db → counter_mismatches_connection db = [].
Proof.
  intros Hr%queue_reachable_inv. unfold counter_mismatches_connection.
  apply elem_of_nil_inv. intros mm ([id q] & Hq%elem_of_map_to_list & Hmm)%list_elem_of_omap.
  destruct (core_counters _ (wf_core _ Hr) _ _ Hq) as [E1 E2].
  rewrite decide_False in Hmm; [done|]. intros [?|?]; congruence.
Qed.
End machine.

(** ** A concrete queue

    Two queues, a consumer of the first with the second as its dead-letter queue, and
    a batch of three messages: a reachable state at which the theorems about queues
    are evaluated. *)

Definition ex_config : QueueConfig := queue_config 0 60 1000 10 5000 10000.
Definition ex_projection (id : N) : QueueProjection := queue_projection id 7 1 1 ex_config 0 0.

Definition ex_consumer : Consumer := consumer_row 1 1 20 21 1 None true 2 0 1 5 3 (Some (2%N, 1)).
Definition ex_consumers : gmap N Consumer := {[ 50%N := ex_consumer ]}.

Definition ex_message (b : list Z) : QueueMessageInput := queue_message_input Text b None.
Definition ex_request : QueueEnqueueRequest :=
  queue_enqueue_request 1 90 false 1 1 None [ex_message [1]; ex_message [2; 2]; ex_message [3; 3; 3]].

(** An injective digest and text of ids, for evaluation. *)
Definition ex_sha256 (l : list Z) : list Z := l.
Definition ex_id_text (id : N) : list Z := be_bytes 36 (Z.of_N id).
Definition ex_gen (i : nat) : N := (100 + N.of_nat i)%N.
Definition ex_batch_gen (i : nat) : N := (200 + N.of_nat i)%N.

Definition ex_enqueue : QM QueueEnqueueResult := enqueue_queue ex_sha256 ex_id_text ex_gen ex_request 1000.

Definition ex_queues : QueueDb :=
  (create_queue_projection 7 (ex_projection 2)
     (create_queue_projection 7 (ex_projection 1) empty_db).1).1.
Definition ex_ready : QueueDb := set_consumers ex_consumers ex_queues.
Definition ex_db : QueueDb := (ex_enqueue ex_ready).1.

Lemma ex_consumers_ok : consumers_ok ex_consumers.
Proof.
  unfold ex_consumers. split.
  - intros i c Hc. apply lookup_singleton_Some in Hc as [<- <-]. split_and!; try (cbn; lia).
    intros q g [= <- <-]. cbn. split; [lia|done].
  - intros i j c d Hc Hd _. apply lookup_singleton_Some in Hc as [<- _].
    by apply lookup_singleton_Some in Hd as [<- _].
Qed.

Lemma ex_ready_reachable : queue_reachable 7 ex_sha256 ex_id_text ex_ready.
Proof.
  assert (Ht : ∀ id, projection_typed (ex_projection id)) by (intros id; repeat split; cbn; lia).
  apply (reach_call 7 ex_sha256 ex_id_text (CallPromote ex_consumers) ex_queues).
  - apply (reach_call 7 ex_sha256 ex_id_text (CallCreate (ex_projection 2))); [|apply Ht].
    apply (reach_call 7 ex_sha256 ex_id_text (CallCreate (ex_projection 1))); [|apply Ht].
    apply reach_empty.
  - split; [apply ex_consumers_ok|].
    unfold ex_consumers. intros i c Hc. apply lookup_singleton_Some in Hc as [<- <-]. split; [vm_compute; eauto|].
    intros q g [= <- <-]. vm_compute. eauto.
Qed.

Lemma ex_db_reachable : queue_reachable 7 ex_sha256 ex_id_text ex_db.
Proof.
  apply (reach_call 7 ex_sha256 ex_id_text (CallEnqueue ex_gen ex_request 1000)); [|done].
  apply ex_ready_reachable.
Qed.

Lemma ex_db_wf : queue_wf ex_db.
Proof. eapply queue_reachable_inv, ex_db_reachable. Qed.

Lemma ex_batch_gen_inj i j : ex_batch_gen i = ex_batch_gen j → i = j.
Proof. unfold ex_batch_gen. lia. Qed.

Lemma queue_reachable_wf_witness : queue_wf ex_db.
Proof. apply (queue_reachable_wf 7 ex_sha256 ex_id_text), ex_db_reachable. Defined.

Lemma counters_never_drift_witness : counter_mismatches_connection ex_db = [].
Proof. apply (counters_never_drift 7 ex_sha256 ex_id_text), ex_db_reachable. Defined.
