(* ===== verification/QueueProducer.v ===== *)
(** * What an enqueue does

    A valid request that fits the queue is stored in full and its outcome is recorded;
    the same request again returns the recorded outcome and stores nothing; a different
    request under the same id is a conflict. *)

From stdpp Require Import base numbers list option strings sorting gmap.
From S2P Require Import Prelude Text ErrorCodes Sql QueueDb QueueInv.
From S2P Require Import QueueStore QueueEnqueue QueueConsumer QueueStmt QueueWf QueueReach.

Local Open Scope Z_scope.

(** ** Metrics *)

Lemma count_of_le_length q ms : count_of q ms ≤ Z.of_nat (length ms).
Proof. unfold count_of, affected. pose proof (length_filter (λ m, msg_queue m = q) ms). lia. Qed.

(** The oldest message of a queue. *)
Definition oldest_of (q : N) (ms : list Message) : option Z :=
  enqueued_at_ms <$>
    head (order_by (λ m, [m.(enqueued_at_ms); m.(seq)]) (sql_where (λ m, m.(msg_queue) = q) ms)).

Lemma oldest_of_None q ms : oldest_of q ms = None ↔ count_of q ms = 0.
Proof.
  unfold oldest_of, count_of, affected, sql_where.
  pose proof (order_by_Permutation (λ m, [m.(enqueued_at_ms); m.(seq)])
    (filter (λ m, m.(msg_queue) = q) ms)) as Hp. apply Permutation_length in Hp.
  destruct (order_by _ _) as [|m l]; cbn in Hp |- *; split; (done || lia).
Qed.

(** The metrics of a queue are always available. *)
Lemma metrics_tx_ok q r db :
  queue_core db → db.(queues) !! q = Some r →
  metrics_tx q db =
    (db, Ok (queue_metrics_row r.(message_count) r.(message_bytes) (oldest_of q db.(messages)))).
Proof.
  intros Hc Hq. destruct (core_counters _ Hc _ _ Hq) as [Hn Hb].
  destruct (core_rows _ Hc _ _ Hq) as (_ & _ & _ & Hmax). destruct (core_len _ Hc) as [Hlen Hseq].
  pose proof (count_of_le_length q db.(messages)). pose proof (count_of_nonneg q db.(messages)).
  pose proof (bytes_of_nonneg q db.(messages)).
  unfold metrics_tx. run_simpl. rewrite Hq. fold (oldest_of q db.(messages)).
  unfold queue_metrics_values, ok_or_else. rewrite !u64_checked_in by (unfold in_u64; lia).
  cbn [mbind result_bind]. unfold bail_if. rewrite decide_False; [done|]. intros Hno. apply Hno.
  apply bool_decide_ext. rewrite oldest_of_None. lia.
Qed.

(** ** Request limits *)

Definition total_bytes (ms : list QueueMessageInput) : Z := sql_sum in_len ms.

Lemma in_len_nonneg m : 0 ≤ in_len m.
Proof. unfold in_len. lia. Qed.

Lemma total_bytes_nonneg ms : 0 ≤ total_bytes ms.
Proof. apply sql_sum_nonneg, in_len_nonneg. Qed.

Lemma total_bytes_cons m ms : total_bytes (m :: ms) = in_len m + total_bytes ms.
Proof. done. Qed.

(** The two totals of a request that fits in a [u64]. *)
Lemma body_total_ok sum ms :
  0 ≤ sum → sum + total_bytes ms ≤ u64_max → body_total sum ms = Ok (sum + total_bytes ms).
Proof.
  revert sum. induction ms as [|m ms IH]; intros sum Hs Hmax; [cbn; f_equal; lia|].
  rewrite total_bytes_cons in *. pose proof (in_len_nonneg m). pose proof (total_bytes_nonneg ms).
  cbn [body_total]. unfold ok_or_else.
  do 2 (rewrite u64_checked_in by (unfold in_u64; lia); cbn [mbind result_bind]).
  rewrite IH by lia. f_equal. lia.
Qed.

Lemma dynamic_total_ok limit sum ms :
  0 ≤ sum → sum + total_bytes ms ≤ u64_max → Forall (λ m, in_len m ≤ limit) ms →
  dynamic_total limit sum ms = Ok (sum + total_bytes ms).
Proof.
  revert sum. induction ms as [|m ms IH]; intros sum Hs Hmax Hall; [cbn; f_equal; lia|].
  apply Forall_cons in Hall as [Hm Hall].
  rewrite total_bytes_cons in *. pose proof (in_len_nonneg m). pose proof (total_bytes_nonneg ms).
  cbn [dynamic_total]. unfold ok_or_else, bail_if.
  rewrite u64_checked_in by (unfold in_u64; lia). cbn [mbind result_bind].
  rewrite decide_False by lia. cbn [mbind result_bind].
  rewrite u64_checked_in by (unfold in_u64; lia). cbn [mbind result_bind].
  rewrite IH by (done || lia). f_equal. lia.
Qed.

(** A request within the static limits of the protocol. *)
Lemma validate_messages_inv sum ms u :
  0 ≤ sum → validate_messages sum ms = Ok u →
  Forall (λ m, is_none_or (λ d, d ≤ 86400) m.(in_delay_seconds)) ms ∧
  (ms ≠ [] → sum + total_bytes ms ≤ 256000).
Proof.
  revert sum u. induction ms as [|m ms IH]; intros sum u Hs H; [done|].
  cbn [validate_messages] in H. destruct_result. subst.
  apply u64_checked_Some in Ho0 as [-> _], Ho as [-> _].
  apply bail_if_Ok in Hm, Hm1, Hm3. unfold QUEUE_MAX_DELAY_SECONDS, QUEUE_MAX_BATCH_BYTES in *.
  pose proof (in_len_nonneg m). destruct (IH (sum + in_len m) u) as [Hall Hsum]; [lia|done|]. split.
  - constructor; [|done]. destruct (in_delay_seconds m); cbn in *; [lia|done].
  - intros _. rewrite total_bytes_cons. destruct ms as [|m' ms]; [cbn; lia|].
    specialize (Hsum (ltac:(done))). lia.
Qed.

(** ** Insertion *)

Definition delay_of (r : QueueEnqueueRequest) (q : QueueRow) (m : QueueMessageInput) : Z :=
  match m.(in_delay_seconds) with
  | Some d => d
  | None => default q.(config).(delivery_delay_seconds) r.(r_batch_delay_seconds)
  end.

(** The rows of a request, from the id [gen i] and the key [s] on. *)
Fixpoint enqueued_rows (gen : nat → N) (r : QueueEnqueueRequest) (q : QueueRow) (now : Z) (i : nat)
    (s : Z) (ms : list QueueMessageInput) : list Message :=
  match ms with
  | [] => []
  | m :: ms =>
      message_row s (gen i) r.(r_queue_id) r.(r_lifecycle_generation) now (now + delay_of r q m * 1000)
        (now + q.(config).(retention_seconds) * 1000) m.(in_content_type) m.(in_body) MReady 0
      :: enqueued_rows gen r q now (S i) (s + 1) ms
  end.

(** The tables after [n] messages of [total] bytes have been added to a queue. *)
Record enqueued (r : QueueEnqueueRequest) (q : QueueRow) (n total : Z) (rows : list Message)
    (db db' : QueueDb) : Prop := {
  en_messages : db'.(messages) = db.(messages) ++ rows;
  en_seq : db'.(next_seq) = db.(next_seq) + n;
  en_operations : db'.(operations) = db.(operations);
  en_others : db'.(consumers) = db.(consumers) ∧ db'.(batches) = db.(batches) ∧
    db'.(dlq_pending) = db.(dlq_pending);
  en_queue : ∃ q', db'.(queues) !! r.(r_queue_id) = Some q' ∧
    q'.(lifecycle_generation) = q.(lifecycle_generation) ∧
    q'.(config_generation) = q.(config_generation) ∧ q'.(q_state) = q.(q_state) ∧
    q'.(config) = q.(config) ∧ q'.(message_count) = q.(message_count) + n ∧
    q'.(message_bytes) = q.(message_bytes) + total;
  en_queues : ∀ x, x ≠ r.(r_queue_id) → db'.(queues) !! x = db.(queues) !! x;
}.

Section insertion.
Context (gen : nat → N) (gen_inj : ∀ i j, gen i = gen j → i = j) (r : QueueEnqueueRequest) (now : Z).
Context (Hnow : i64_min ≤ now ∧ now + 1209600000 ≤ i64_max).
Context (Hlife : 1 ≤ r.(r_lifecycle_generation) ≤ i64_max).

Lemma insert_loop_ok q q0 i ms db :
  queue_core db → db.(queues) !! r.(r_queue_id) = Some q →
  q.(config) = q0.(config) → q.(q_state) = Accepting →
  q.(lifecycle_generation) = r.(r_lifecycle_generation) →
  Forall (λ m, 0 ≤ delay_of r q0 m ≤ 86400 ∧ in_len m ≤ q.(config).(max_message_bytes)) ms →
  q.(message_bytes) + total_bytes ms ≤ q.(config).(max_backlog_bytes) →
  db.(next_seq) + Z.of_nat (length ms) ≤ i64_max + 1 →
  (∀ j, (i ≤ j)%nat → gen j ∉ msg_id <$> db.(messages)) →
  ∃ db', insert_loop gen r q0 now (now + q0.(config).(retention_seconds) * 1000) i ms db =
      (db', Ok (imap (λ k _, gen (i + k)%nat) ms)) ∧
    enqueued r q (Z.of_nat (length ms)) (total_bytes ms) (enqueued_rows gen r q0 now i db.(next_seq) ms)
      db db'.
Proof.
  revert q i db. induction ms as [|m ms IH]; intros q i db Hc Hq Hcfg Hst Hl Hall Hback Hseq Hfresh.
  { exists db. split; [done|]. split; try done; cbn; rewrite ?app_nil_r; try lia; [done|].
    exists q. split_and!; (done || lia). }
  apply Forall_cons in Hall as [[Hdelay Hlen] Hall]. rewrite total_bytes_cons in Hback. cbn [length] in Hseq.
  pose proof (in_len_nonneg m). pose proof (total_bytes_nonneg ms).
  destruct (core_rows _ Hc _ _ Hq) as (_ & _ & (_ & Hret & _) & _). rewrite Hcfg in Hret.
  set (ex := now + q0.(config).(retention_seconds) * 1000) in *.
  set (row := message_row db.(next_seq) (gen i) r.(r_queue_id) r.(r_lifecycle_generation) now
    (now + delay_of r q0 m * 1000) ex m.(in_content_type) m.(in_body) MReady 0).
  set (q1 := queue_row q.(lifecycle_generation) q.(config_generation) q.(q_state) q.(config)
    (q.(message_count) + 1) (q.(message_bytes) + in_len m) q.(q_created_at_ms) now).
  set (db1 := queue_db (<[r.(r_queue_id) := q1]> db.(queues)) (db.(messages) ++ [row]) (db.(next_seq) + 1)
    db.(operations) db.(consumers) db.(batches) db.(dlq_pending) db.(wake)).
  assert (Hins : insert_message (gen i) r.(r_queue_id) r.(r_lifecycle_generation) now
      (now + delay_of r q0 m * 1000) ex m.(in_content_type) m.(in_body) db = Ok db1).
  { unfold insert_message, bail_if. rewrite Hq. fold (in_len m).
    rewrite (decide_False (P := ¬ (_ ∧ _))).
    2: { intros Hno. apply Hno. rewrite Hcfg. fold ex. rewrite <-Hcfg. split_and!; (done || lia). }
    cbn [mbind result_bind]. rewrite decide_False; [done|]. unfold ex.
    intros [Hin|?]; [by eapply (Hfresh i)|lia]. }
  assert (Hc1 := insert_message_ok _ _ _ _ _ _ _ _ _ _ Hc Hins).
  destruct (IH q1 (S i) db1) as (db2 & Hrun & [E1 E2 E3 E4 E5 E6]); try done; cbn; try lia.
  { by rewrite lookup_insert_eq. }
  { intros j Hj. rewrite fmap_app, elem_of_app. cbn. rewrite list_elem_of_singleton.
    intros [Hin|Hin%gen_inj]; [apply (Hfresh j); [lia|done]|lia]. }
  exists db2. split.
  - cbn [insert_loop imap]. apply bind_run. exists db, (now + delay_of r q0 m * 1000). split.
    { fold (delay_of r q0 m). unfold checked_timestamp, lift, ok_or_else.
      rewrite i64_checked_in by (unfold in_i64; lia). cbn [mbind result_bind].
      by rewrite i64_checked_in by (unfold in_i64; lia). }
    apply bind_run. exists db, r.(r_lifecycle_generation). split.
    { unfold as_i64. run_simpl. by rewrite i64_checked_in by (unfold in_i64; lia). }
    apply bind_run. exists db1, (). split; [by apply execute_run|].
    apply bind_run. eexists _, _. split; [exact Hrun|]. apply ret_run. split; [done|].
    rewrite Nat.add_0_r. f_equal. apply imap_ext. intros k x _. cbn. by rewrite Nat.add_succ_r.
  - split; cbn [length enqueued_rows] in *.
    + rewrite E1. cbn. rewrite <-app_assoc. done.
    + rewrite E2. cbn. lia.
    + done.
    + done.
    + destruct E5 as (q' & ? & ? & ? & ? & ? & Hn & Hb). exists q'.
      fold (sql_sum in_len ms). fold (total_bytes ms). fold (sql_sum in_len ms) in Hb. fold (total_bytes ms) in Hb.
      unfold q1 in Hn, Hb. cbn [message_count message_bytes] in Hn, Hb. split_and!; (done || lia).
    + intros x Hx. rewrite E6 by done. cbn. by rewrite lookup_insert_ne.
Qed.
End insertion.

(** ** Acceptance *)

(** The unsigned delays of a request. *)
Definition delays_typed (r : QueueEnqueueRequest) : Prop :=
  is_none_or (λ d, 0 ≤ d) r.(r_batch_delay_seconds) ∧
  Forall (λ m, is_none_or (λ d, 0 ≤ d) m.(in_delay_seconds)) r.(r_messages).

(** A request that a queue accepts: it is valid, addresses the current generations of
    an accepting queue, and fits the limits of the queue and its backlog. *)
Record acceptable (r : QueueEnqueueRequest) (q : QueueRow) : Prop := {
  ac_valid : validate_request r = Ok ();
  ac_delays : delays_typed r;
  ac_lifecycle : q.(lifecycle_generation) = r.(r_lifecycle_generation);
  ac_config : q.(config_generation) = r.(r_config_generation);
  ac_state : q.(q_state) = Accepting;
  ac_count : Z.of_nat (length r.(r_messages)) ≤ q.(config).(max_batch_messages);
  ac_sizes : Forall (λ m, in_len m ≤ q.(config).(max_message_bytes)) r.(r_messages);
  ac_total : total_bytes r.(r_messages) ≤ q.(config).(max_batch_bytes);
  ac_backlog : q.(message_bytes) + total_bytes r.(r_messages) ≤ q.(config).(max_backlog_bytes);
}.

(** The resources an insertion takes: fresh ids, keys and a clock in range. *)
Record resources (gen : nat → N) (n : nat) (now : Z) (db : QueueDb) : Prop := {
  re_inj : ∀ i j, gen i = gen j → i = j;
  re_fresh : ∀ i, gen i ∉ msg_id <$> db.(messages);
  re_clock : i64_min ≤ now ∧ now + 1209600000 ≤ i64_max;
  re_keys : db.(next_seq) + Z.of_nat n ≤ i64_max + 1;
}.

Lemma validate_request_inv r u :
  validate_request r = Ok u →
  r.(r_messages) ≠ [] ∧ Z.of_nat (length r.(r_messages)) ≤ 100 ∧
  is_none_or (λ d, d ≤ 86400) r.(r_batch_delay_seconds) ∧
  Forall (λ m, is_none_or (λ d, d ≤ 86400) m.(in_delay_seconds)) r.(r_messages) ∧
  total_bytes r.(r_messages) ≤ 256000.
Proof.
  unfold validate_request. intros H. destruct_result. subst.
  apply bail_if_Ok in Hm. match goal with H : u32_checked _ = Some _ |- _ =>
    unfold u32_checked in H; case_decide; [injection H as <-|done] end.
  match goal with H : bail_if (_ > _) _ = _ |- _ => apply bail_if_Ok in H end.
  match goal with H : validate_delay _ = _ |- _ => unfold validate_delay in H; apply bail_if_Ok in H end.
  unfold QUEUE_MAX_BATCH_MESSAGES, QUEUE_MAX_DELAY_SECONDS in *.
  destruct (validate_messages_inv 0 (r_messages r) u) as [Hd Ht]; [lia|done|].
  assert (Hne : r.(r_messages) ≠ []) by tauto. specialize (Ht Hne).
  split_and!; try done; try lia. destruct (r_batch_delay_seconds r); cbn in *; [lia|done].
Qed.

(** The delays of an acceptable request are in range. *)
Lemma delay_of_range r q m :
  config_ok q.(config) → delays_typed r → validate_request r = Ok () → m ∈ r.(r_messages) →
  0 ≤ delay_of r q m ≤ 86400.
Proof.
  intros (Hd & _) [Hb Hms] (_ & _ & Hb' & Hms' & _)%validate_request_inv Hm. unfold delay_of.
  rewrite Forall_forall in Hms, Hms'. specialize (Hms m Hm). specialize (Hms' m Hm).
  destruct (in_delay_seconds m); cbn in *; [lia|]. destruct (r_batch_delay_seconds r); cbn in *; lia.
Qed.

(** The columns of a configuration fit the types they are read into. *)
Lemma config_ok_ranges c :
  config_ok c →
  in_u32 c.(delivery_delay_seconds) ∧ in_u32 c.(retention_seconds) ∧ in_u64 c.(max_message_bytes) ∧
  in_u32 c.(max_batch_messages) ∧ in_u64 c.(max_batch_bytes) ∧ in_u64 c.(max_backlog_bytes).
Proof. unfold config_ok, in_u32, in_u64. lia. Qed.

Section enqueue_spec.
Context (sha256 : list Z → list Z) (id_text : N → list Z).

(** The recorded outcome of a request. *)
Definition enqueue_outcome (gen : nat → N) (r : QueueEnqueueRequest) (q : QueueRow) (db' : QueueDb) :
    QueueEnqueueResult :=
  queue_enqueue_result (imap (λ k _, gen k) r.(r_messages))
    (queue_metrics_row (q.(message_count) + Z.of_nat (length r.(r_messages)))
       (q.(message_bytes) + total_bytes r.(r_messages)) (oldest_of r.(r_queue_id) db'.(messages))).

(** The operation row that records an outcome. *)
Definition recorded (r : QueueEnqueueRequest) (res : QueueEnqueueResult) (o : Operation) : Prop :=
  o.(op_queue) = r.(r_queue_id) ∧ o.(op_generation) = r.(r_lifecycle_generation) ∧
  o.(fingerprint) = enqueue_fingerprint sha256 id_text r ∧
  o.(op_message_ids) = res.(message_ids) ∧ o.(op_metrics) = res.(metrics).

Lemma enqueue_new_ok gen r q now db :
  stmt_inv all_exact db → db.(queues) !! r.(r_queue_id) = Some q → acceptable r q →
  resources gen (length r.(r_messages)) now db → db.(operations) !! r.(r_request_id) = None →
  ∃ db1 db' o, enqueue_new gen r (enqueue_fingerprint sha256 id_text r) now db =
      (db', Ok (enqueue_outcome gen r q db1)) ∧
    enqueued r q (Z.of_nat (length r.(r_messages))) (total_bytes r.(r_messages))
      (enqueued_rows gen r q now 0 db.(next_seq) r.(r_messages)) db db1 ∧
    db' = set_operations (<[r.(r_request_id) := o]> db1.(operations)) db1 ∧
    recorded r (enqueue_outcome gen r q db1) o.
Proof.
  intros Hdb Hq [Hv Hdt Hl Hcg Hst Hcnt Hsz Htot Hback] [Hinj Hfresh Hclock Hkeys] Hop.
  assert (Hc := stmt_inv_core _ _ Hdb).
  destruct (core_rows _ Hc _ _ Hq) as (Hlr & Hcr & Hcfg & Hbytes).
  destruct (core_counters _ Hc _ _ Hq) as [_ Hb]. pose proof (bytes_of_nonneg r.(r_queue_id) db.(messages)).
  pose proof (total_bytes_nonneg r.(r_messages)).
  destruct (validate_request_inv _ _ Hv) as (Hne & Hlen & _ & _ & Htb).
  destruct (insert_loop_ok gen Hinj r now Hclock ltac:(lia) q q 0 r.(r_messages) db)
    as (db1 & Hrun & Hen); try done.
  { apply Forall_forall. intros m Hm. rewrite Forall_forall in Hsz. split; [by apply delay_of_range|by apply Hsz]. }
  assert (Hc1 : queue_core db1) by by eapply stmt_inv_core, insert_loop_inv.
  pose proof Hen as [E1 _ E3 _ (q' & Hq' & El & Ecg & Est & Ecf & En & Eb) _].
  pose proof Hcfg as (_ & Hret & _ & _ & _ & Hmaxb). destruct (config_ok_ranges _ Hcfg) as (R1 & R2 & R3 & R4 & R5 & R6).
  set (res := enqueue_outcome gen r q db1).
  set (o := operation_row r.(r_queue_id) r.(r_lifecycle_generation) (enqueue_fingerprint sha256 id_text r)
    res.(message_ids) res.(metrics) r.(r_output_gate) q.(config).(retention_seconds) now
    (if r.(r_output_gate) then None else Some now)
    (if r.(r_output_gate) then None else Some (now + q.(config).(retention_seconds) * 1000))).
  exists db1, (set_operations (<[r.(r_request_id) := o]> db1.(operations)) db1), o.
  split; [|done]. unfold enqueue_new. apply bind_run. exists db, q. split.
  { unfold read_state_tx. run_simpl. rewrite Hq. rewrite decide_False; [done|]. intros Hno. apply Hno.
    unfold in_u64, in_u32 in *. split_and!; lia. }
  apply bind_run. exists db, (). split; [run_simpl; rewrite decide_False; [done|]; intros [?|?]; done|].
  rewrite Hst. apply bind_run. exists db, (). split; [done|].
  apply bind_run. exists db, (). split.
  { unfold lift, validate_dynamic_limits, ok_or_else, u32_checked. rewrite decide_True by (unfold in_u32; lia).
    cbn [mbind result_bind]. unfold bail_if. rewrite decide_False by lia. cbn [mbind result_bind].
    rewrite dynamic_total_ok by (done || lia). cbn [mbind result_bind]. by rewrite decide_False by lia. }
  apply bind_run. exists db, (total_bytes r.(r_messages)). split.
  { unfold lift. by rewrite body_total_ok by lia. }
  apply bind_run. exists db, (). split.
  { run_simpl. rewrite u64_saturate_id by (unfold in_u64; lia). by rewrite decide_False by lia. }
  apply bind_run. exists db, (now + q.(config).(retention_seconds) * 1000). split.
  { unfold checked_timestamp, lift, ok_or_else. rewrite i64_checked_in by (unfold in_i64; lia).
    cbn [mbind result_bind]. by rewrite i64_checked_in by (unfold in_i64; lia). }
  apply bind_run. eexists _, _. split; [exact Hrun|].
  apply bind_run. eexists _, _. split; [by apply metrics_tx_ok|]. rewrite En, Eb.
  apply bind_run. eexists _, (). split; [|done].
  unfold insert_enqueue_operation. apply bind_run. exists db1, r.(r_lifecycle_generation). split.
  { unfold as_i64. run_simpl. by rewrite i64_checked_in by (unfold in_i64; lia). }
  run_simpl. rewrite decide_False; [done|]. rewrite E3, Hop, Hq'.
  intros [[? ?]|[?|[?|[?|[_ ?]]]]]; (done || lia).
Qed.

Lemma replay_enqueue_ok r res o db :
  db.(operations) !! r.(r_request_id) = Some o → recorded r res o →
  in_u64 r.(r_lifecycle_generation) →
  replay_enqueue r (enqueue_fingerprint sha256 id_text r) db = (db, Ok (Some res)).
Proof.
  intros Ho (E1 & E2 & E3 & E4 & E5) Hr. unfold replay_enqueue. run_simpl. rewrite Ho, E2.
  rewrite u64_checked_in by done. rewrite decide_False by (intros [?|[?|?]]; done).
  rewrite E4, E5. by destruct res.
Qed.

(** A request whose outcome is recorded. *)
Lemma enqueue_replays gen r now res o db :
  validate_request r = Ok () → db.(operations) !! r.(r_request_id) = Some o → recorded r res o →
  in_u64 r.(r_lifecycle_generation) →
  enqueue_queue sha256 id_text gen r now db = (db, Ok res).
Proof.
  intros Hv Ho Hrec Hr. unfold enqueue_queue. rewrite Hv.
  apply (bind_run (lift (Ok ()))). exists db, (). split; [done|]. apply bind_run.
  exists db, (false, res). split.
  - apply transaction_run, bind_run. exists db, (Some res). split; [by eapply replay_enqueue_ok|done].
  - done.
Qed.

(** A request that succeeds is valid and leaves its outcome recorded. *)
Lemma enqueue_recorded gen r now db db' res :
  enqueue_queue sha256 id_text gen r now db = (db', Ok res) →
  validate_request r = Ok () ∧ ∃ o, db'.(operations) !! r.(r_request_id) = Some o ∧ recorded r res o.
Proof.
  intros H. unfold enqueue_queue in H. apply bind_run in H as (s & [] & Hv & H).
  apply lift_run in Hv as [-> Hv]. split; [done|].
  apply bind_run in H as (s1 & [fresh res'] & Htx & H). cbv beta iota in H.
  apply (proj1 (transaction_run _ _ _ _)), bind_run in Htx as (s2 & [res2|] & Hrep & Htx).
  - apply ret_run in Htx as [-> Heq]. injection Heq as -> ->. run_inv; [done|]. subst.
    unfold replay_enqueue in Hrep. run_inv. subst. destruct (operations db !! _) as [o|] eqn:Ho; run_inv; [|done].
    exists o. match goal with H : u64_checked _ = Some _ |- _ => apply u64_checked_Some in H as [-> _] end.
    split; [done|]. simplify_eq. unfold recorded.
    destruct (decide (op_queue o = r_queue_id r)), (decide (op_generation o = r_lifecycle_generation r)),
      (decide (fingerprint o = enqueue_fingerprint sha256 id_text r)); naive_solver.
  - assert (s2 = db) as -> by by eapply replay_state.
    apply bind_run in Htx as (s3 & res3 & Hnew & Hret). apply ret_run in Hret as [-> Heq].
    injection Heq as -> ->. rewrite decide_True in H by done. run_inv. subst.
    unfold enqueue_new in Hnew. run_inv. destruct (q_state _); run_inv. subst.
    match goal with H : insert_enqueue_operation _ _ _ _ _ _ _ _ = _ |- _ =>
      unfold insert_enqueue_operation in H; run_inv; open_binds; subst end.
    eexists. split; [cbn; by rewrite lookup_insert_eq|]. done.
Qed.

(** C30. A request that an accepting queue has room for, under a request id that has not
    been used, is accepted: all its messages are appended, in order, with their ids,
    delays and expiry; the counters of the queue grow by their number and bytes; the
    metrics returned are those after the insertion; and the outcome is recorded under
    the request id.  Nothing else changes. *)
Theorem enqueue_accepts gen r q now db :
  queue_wf db → db.(queues) !! r.(r_queue_id) = Some q → acceptable r q →
  resources gen (length r.(r_messages)) now db → db.(operations) !! r.(r_request_id) = None →
  ∃ db' o, enqueue_queue sha256 id_text gen r now db = (db', Ok (enqueue_outcome gen r q db')) ∧
    db'.(messages) = db.(messages) ++ enqueued_rows gen r q now 0 db.(next_seq) r.(r_messages) ∧
    (∃ q', db'.(queues) !! r.(r_queue_id) = Some q' ∧ q'.(config) = q.(config) ∧
       q'.(message_count) = q.(message_count) + Z.of_nat (length r.(r_messages)) ∧
       q'.(message_bytes) = q.(message_bytes) + total_bytes r.(r_messages)) ∧
    (∀ x, x ≠ r.(r_queue_id) → db'.(queues) !! x = db.(queues) !! x) ∧
    db'.(operations) = <[r.(r_request_id) := o]> db.(operations) ∧
    recorded r (enqueue_outcome gen r q db') o ∧
    db'.(batches) = db.(batches) ∧ db'.(dlq_pending) = db.(dlq_pending).
Proof.
  intros Hwf Hq Ha Hres Hop. assert (Hdb := proj1 (queue_wf_stmt _) Hwf).
  destruct (enqueue_new_ok gen r q now db Hdb Hq Ha Hres Hop) as (db1 & db' & o & Hrun & Hen & -> & Hrec).
  destruct Hen as [E1 E2 E3 (E4 & E5 & E6) (q' & Hq' & _ & _ & _ & Hcf & Hn & Hb) E8].
  exists (notify (set_operations (<[r.(r_request_id) := o]> db1.(operations)) db1)), o.
  split; [|rewrite <-E3; split_and!; try done; by exists q'].
  unfold enqueue_queue. rewrite (ac_valid _ _ Ha).
  apply (bind_run (lift (Ok ()))). exists db, (). split; [done|]. apply bind_run.
  eexists _, (true, enqueue_outcome gen r q db1). split.
  - apply transaction_run, bind_run. exists db, None. split.
    + unfold replay_enqueue. run_simpl. by rewrite Hop.
    + apply bind_run. eexists _, _. split; [exact Hrun|]. done.
  - cbv beta iota. rewrite decide_True by done. apply bind_run. eexists _, (). done.
Qed.

(** C26. Enqueues are idempotent.  Once a request has returned an outcome, the same
    request returns the same outcome and changes nothing, at any later time and
    whatever ids would be generated, in every state that still has the outcome
    recorded. *)
Theorem enqueue_idempotent gen gen' r now now' db db1 db2 res :
  in_u64 r.(r_lifecycle_generation) →
  enqueue_queue sha256 id_text gen r now db = (db1, Ok res) →
  (∀ o, db1.(operations) !! r.(r_request_id) = Some o →
    ∃ o', db2.(operations) !! r.(r_request_id) = Some o' ∧
      (o'.(op_queue), o'.(op_generation), o'.(fingerprint), o'.(op_message_ids), o'.(op_metrics)) =
      (o.(op_queue), o.(op_generation), o.(fingerprint), o.(op_message_ids), o.(op_metrics))) →
  enqueue_queue sha256 id_text gen' r now' db2 = (db2, Ok res).
Proof.
  intros Hr Hrun Hkept. destruct (enqueue_recorded gen r now db db1 res Hrun) as (Hv & o & Ho & Hrec).
  destruct (Hkept o Ho) as (o' & Ho' & Heq). injection Heq as E1 E2 E3 E4 E5.
  destruct Hrec as (R1 & R2 & R3 & R4 & R5).
  apply enqueue_replays with o'; try done. repeat split; congruence.
Qed.
End enqueue_spec.

(** ** The fingerprint identifies the request *)

Lemma be_bytes_length n z : length (be_bytes n z) = n.
Proof. revert z. induction n as [|n IH]; intros z; [done|]. cbn. rewrite length_app, IH. cbn. lia. Qed.

Lemma be_bytes_inj n a b :
  0 ≤ a < 256 ^ Z.of_nat n → 0 ≤ b < 256 ^ Z.of_nat n → be_bytes n a = be_bytes n b → a = b.
Proof.
  revert a b. induction n as [|n IH]; intros a b Ha Hb Heq; [cbn in *; lia|].
  rewrite Nat2Z.inj_succ, Z.pow_succ_r in Ha, Hb by lia. cbn [be_bytes] in Heq.
  apply app_inj_tail in Heq as [Hdiv Hmod].
  assert (a / 256 = b / 256).
  { apply IH; [| |done]; split; try (apply Z.div_pos; lia); apply Z.div_lt_upper_bound; lia. }
  rewrite (Z.div_mod a 256), (Z.div_mod b 256) by lia. lia.
Qed.

Lemma pow256_4 : 256 ^ Z.of_nat 4 = 4294967296.
Proof. done. Qed.
Lemma pow256_8 : 256 ^ Z.of_nat 8 = 18446744073709551616.
Proof. done. Qed.
Ltac byte_range := rewrite ?pow256_4, ?pow256_8; try lia.

(** Opens an equality of two concatenations whose heads have the same length. *)
Lemma app_inj_len {A} (a b x y : list A) : length a = length b → a ++ x = b ++ y → a = b ∧ x = y.
Proof. intros Hl H. by apply app_inj_1. Qed.

Lemma be_bytes_prefix n a b x y :
  0 ≤ a < 256 ^ Z.of_nat n → 0 ≤ b < 256 ^ Z.of_nat n → be_bytes n a ++ x = be_bytes n b ++ y →
  a = b ∧ x = y.
Proof.
  intros Ha Hb H. apply app_inj_len in H as [H ->]; [|by rewrite !be_bytes_length].
  split; [by eapply be_bytes_inj|done].
Qed.

(** A separator that does not occur in the two heads. *)
Lemma separator_prefix {A} (s : A) a b x y : s ∉ a → s ∉ b → a ++ [s] ++ x = b ++ [s] ++ y → a = b ∧ x = y.
Proof.
  revert b. induction a as [|c a IH]; intros [|d b] Ha Hb H; cbn in H; simplify_eq; [done| | |].
  - exfalso. apply Hb. by left.
  - exfalso. apply Ha. by left.
  - rewrite not_elem_of_cons in Ha, Hb. destruct (IH b) as [-> ->]; tauto.
Qed.

Lemma content_type_str_plain c : 255 ∉ content_type_str c.
Proof. apply (bool_decide_unpack (255 ∉ content_type_str c)). by destruct c. Qed.
Lemma content_type_str_inj c d : content_type_str c = content_type_str d → c = d.
Proof. by destruct c, d. Qed.

(** The machine integers of a message and of a request. *)
Definition input_typed (m : QueueMessageInput) : Prop :=
  in_len m ≤ u64_max ∧ is_none_or in_u32 m.(in_delay_seconds).
Definition request_typed (r : QueueEnqueueRequest) : Prop :=
  in_u64 r.(r_lifecycle_generation) ∧ in_u64 r.(r_config_generation) ∧
  Z.of_nat (length r.(r_messages)) ≤ u64_max ∧ is_none_or in_u32 r.(r_batch_delay_seconds) ∧
  Forall input_typed r.(r_messages).

Lemma delay_prefix d e x y :
  is_none_or in_u32 d → is_none_or in_u32 e →
  match d with Some delay => [1] ++ be_bytes 4 delay | None => [0] end ++ x =
  match e with Some delay => [1] ++ be_bytes 4 delay | None => [0] end ++ y →
  d = e ∧ x = y.
Proof.
  unfold in_u32. destruct d as [d|], e as [e|]; cbn [is_none_or]; intros Hd He H; try done.
  - rewrite <-!app_assoc in H. apply app_inj_len in H as [_ H]; [|done].
    apply be_bytes_prefix in H as [-> ->]; [done|byte_range..].
  - by apply app_inj_len in H as [_ ->].
Qed.

(** The encoding of a message is a prefix code. *)
Lemma message_preimage_prefix m n x y :
  input_typed m → input_typed n → message_preimage m ++ x = message_preimage n ++ y → m = n ∧ x = y.
Proof.
  intros [Hm Hmd] [Hn Hnd] H. unfold message_preimage in H.
  pose proof (in_len_nonneg m). pose proof (in_len_nonneg n).
  rewrite !u64_checked_in in H by (unfold in_u64; lia). cbn [default from_option id] in H.
  rewrite <-!app_assoc in H.
  apply separator_prefix in H as [Hct H]; [|apply content_type_str_plain..].
  apply content_type_str_inj in Hct. apply be_bytes_prefix in H as [Hlen H]; [|byte_range..].
  apply app_inj_len in H as [Hbody H]; [|unfold in_len in Hlen; lia].
  apply delay_prefix in H as [Hdelay ->]; [|done..]. destruct m, n; cbn in *; by subst.
Qed.

Lemma messages_preimage_inj ms ns :
  Forall input_typed ms → Forall input_typed ns → length ms = length ns →
  concat (message_preimage <$> ms) = concat (message_preimage <$> ns) → ms = ns.
Proof.
  intros Hms. revert ns. induction Hms as [|m ms Hm Hms IH]; intros [|n ns] Hns Hlen H; try done.
  apply Forall_cons in Hns as [Hn Hns]. cbn in H. apply message_preimage_prefix in H as [-> H]; [|done..].
  f_equal. apply IH; [done|by injection Hlen|done].
Qed.

Section fingerprint.
Context (id_text : N → list Z).
(** The text of an id is its 36 characters. *)
Context (id_text_length : ∀ i, length (id_text i) = 36%nat).
Context (id_text_inj : ∀ i j, (i < 2 ^ 128)%N → (j < 2 ^ 128)%N → id_text i = id_text j → i = j).

(** What a request asks for, apart from the id it is tracked under. *)
Definition request_content (r : QueueEnqueueRequest) :=
  (r.(r_queue_id), r.(r_output_gate), r.(r_lifecycle_generation), r.(r_config_generation),
   r.(r_batch_delay_seconds), r.(r_messages)).

Lemma enqueue_preimage_inj r s :
  request_typed r → request_typed s → (r.(r_queue_id) < 2 ^ 128)%N → (s.(r_queue_id) < 2 ^ 128)%N →
  enqueue_preimage id_text r = enqueue_preimage id_text s → request_content r = request_content s.
Proof.
  unfold request_typed, in_u64. intros (Hl & Hc & Hn & Hd & Hms) (Hl' & Hc' & Hn' & Hd' & Hms') Hq Hq' H.
  unfold enqueue_preimage in H.
  rewrite !u64_checked_in in H by (unfold in_u64; lia). cbn [default from_option id] in H.
  apply app_inj_len in H as [Hid H]; [|by rewrite !id_text_length]. apply id_text_inj in Hid; [|done..].
  apply be_bytes_prefix in H as [E1 H]; [|byte_range..].
  apply be_bytes_prefix in H as [E2 H]; [|byte_range..].
  apply app_inj_len in H as [Hgate H]; [|done].
  apply be_bytes_prefix in H as [Hcount H]; [|byte_range..].
  apply be_bytes_prefix in H as [Hflag H].
  2: { byte_range. destruct (r_batch_delay_seconds r); lia. }
  2: { byte_range. destruct (r_batch_delay_seconds s); lia. }
  assert (Hdelay : r.(r_batch_delay_seconds) = s.(r_batch_delay_seconds) ∧
    concat (message_preimage <$> r.(r_messages)) = concat (message_preimage <$> s.(r_messages))).
  { unfold in_u32 in *. destruct (r_batch_delay_seconds r), (r_batch_delay_seconds s); cbn in Hd, Hd'; try done.
    apply be_bytes_prefix in H as [-> H]; [done|byte_range..]. }
  destruct Hdelay as [Hdelay Hconcat].
  assert (r.(r_output_gate) = s.(r_output_gate)) by (by destruct (r_output_gate r), (r_output_gate s)).
  assert (r.(r_messages) = s.(r_messages)) by (apply messages_preimage_inj; [done|done|lia|done]).
  unfold request_content. congruence.
Qed.

(** Reusing the id of a recorded request for one that asks for anything else, another
    queue, generation, delay, gate or any difference in the messages, fails with an
    idempotency conflict and changes nothing, provided the digests of the two encodings
    do not collide. *)
Theorem enqueue_conflict sha256 gen gen' r s now now' db db1 db2 res :
  request_typed r → request_typed s → (r.(r_queue_id) < 2 ^ 128)%N → (s.(r_queue_id) < 2 ^ 128)%N →
  (sha256 (enqueue_preimage id_text r) = sha256 (enqueue_preimage id_text s) →
     enqueue_preimage id_text r = enqueue_preimage id_text s) →
  enqueue_queue sha256 id_text gen r now db = (db1, Ok res) →
  db2.(operations) !! r.(r_request_id) = db1.(operations) !! r.(r_request_id) →
  s.(r_request_id) = r.(r_request_id) → request_content s ≠ request_content r →
  validate_request s = Ok () →
  enqueue_queue sha256 id_text gen' s now' db2 =
    (db2, Err (platform_error IdempotencyConflict
             "Queue enqueue operation identity was reused with a different request")).
Proof.
  intros Hr Hs Hq Hq' Hcol Hrun Hops Hid Hne Hv.
  destruct (enqueue_recorded _ _ _ _ _ _ _ _ Hrun) as (_ & o & Ho & E1 & E2 & E3 & _).
  assert (Hfp : o.(fingerprint) ≠ enqueue_fingerprint sha256 id_text s).
  { rewrite E3. intros Heq. apply Hne. symmetry. apply enqueue_preimage_inj; auto. }
  unfold enqueue_queue. rewrite Hv. unfold replay_enqueue. run_simpl.
  rewrite Hid, Hops, Ho, E2. rewrite u64_checked_in by apply Hr.
  rewrite decide_True by (right; by right). done.
Qed.
End fingerprint.

(** ** The example *)

Definition ex_row : QueueRow := new_queue_row (ex_projection 1).

Lemma ex_ready_wf : queue_wf ex_ready.
Proof. eapply queue_reachable_inv, ex_ready_reachable. Qed.

Lemma ex_acceptable : acceptable ex_request ex_row.
Proof.
  split; try (vm_compute; (reflexivity || discriminate)).
  - split; [done|].
    apply (bool_decide_unpack (Forall (λ m, is_none_or (λ d, 0 ≤ d) m.(in_delay_seconds)) _)). by vm_compute.
  - apply (bool_decide_unpack (Forall (λ m, in_len m ≤ 1000) _)). by vm_compute.
Qed.

Lemma ex_resources : resources ex_gen 3 1000 ex_ready.
Proof.
  split.
  - intros i j. unfold ex_gen. lia.
  - intros i. vm_compute. by intros ?%not_elem_of_nil.
  - lia.
  - by vm_compute.
Qed.

Lemma enqueue_accepts_witness :
  ∃ db', ex_enqueue ex_ready = (db', Ok (enqueue_outcome ex_gen ex_request ex_row db')) ∧
    db'.(messages) = enqueued_rows ex_gen ex_request ex_row 1000 0 1 ex_request.(r_messages).
Proof.
  destruct (enqueue_accepts ex_sha256 ex_id_text ex_gen ex_request ex_row 1000 ex_ready)
    as (db' & o & Hrun & Hms & _).
  - apply ex_ready_wf.
  - by vm_compute.
  - apply ex_acceptable.
  - apply ex_resources.
  - by vm_compute.
  - exists db'. split; [exact Hrun|]. rewrite Hms. by vm_compute.
Defined.

Definition ex_outcome : QueueEnqueueResult := enqueue_outcome ex_gen ex_request ex_row ex_db.

Lemma ex_enqueue_run : ex_enqueue ex_ready = (ex_db, Ok ex_outcome).
Proof. by vm_compute. Qed.

Lemma enqueue_idempotent_witness :
  enqueue_queue ex_sha256 ex_id_text (λ i, (500 + N.of_nat i)%N) ex_request 9000 ex_db = (ex_db, Ok ex_outcome).
Proof.
  apply (enqueue_idempotent ex_sha256 ex_id_text ex_gen _ ex_request 1000 9000 ex_ready ex_db ex_db).
  - by vm_compute.
  - exact ex_enqueue_run.
  - intros o Ho. by exists o.
Defined.

(** The same request id with another body. *)
Definition ex_request' : QueueEnqueueRequest :=
  queue_enqueue_request 1 90 false 1 1 None [ex_message [9]].

Lemma ex_typed : request_typed ex_request ∧ request_typed ex_request'.
Proof.
  split; (split; [done|]; split; [done|]; split; [by vm_compute|]; split; [done|]);
    repeat constructor; by vm_compute.
Qed.

Lemma enqueue_conflict_witness :
  enqueue_queue ex_sha256 ex_id_text ex_gen ex_request' 9000 ex_db =
    (ex_db, Err (platform_error IdempotencyConflict
             "Queue enqueue operation identity was reused with a different request")).
Proof.
  apply (enqueue_conflict ex_id_text) with ex_gen ex_request 1000 ex_ready ex_db ex_outcome; try done.
  - intros i j Hi Hj Heq. unfold ex_id_text in Heq. apply be_bytes_inj in Heq; [lia|..]; (split; [lia|]);
      (eapply Z.lt_trans; [apply N2Z.inj_lt; eassumption|by vm_compute]).
  - apply ex_typed.
  - apply ex_typed.
Defined.
