(* ===== verification/QueueRetention.v ===== *)
(** * Retention and deletion

    A sweep deletes a bounded prefix of the expired messages and always makes
    progress; purging a queue that is being deleted empties it, after which its row can
    go; nothing is added to such a queue. *)

From stdpp Require Import base numbers list option strings sorting gmap.
From S2P Require Import Prelude ErrorCodes Sql QueueDb QueueInv QueueStore.
From S2P Require Import QueueEnqueue QueueConsumer QueueStmt QueueWf QueueDelivery QueueReach.

Local Open Scope Z_scope.

(** ** The byte budget *)

Definition bytes_total (ms : list Message) : Z := sql_sum body_bytes ms.

Lemma bytes_total_cons m ms : bytes_total (m :: ms) = body_bytes m + bytes_total ms.
Proof. done. Qed.
Lemma bytes_total_nonneg ms : 0 ≤ bytes_total ms.
Proof. apply sql_sum_nonneg, body_bytes_nonneg. Qed.

(** The budget takes a prefix within the budget, but always a first message. *)
Lemma take_budget_ok max bytes first ms :
  0 ≤ bytes ≤ max → max < u64_max → Forall (λ m, body_bytes m ≤ i64_max) ms → (first = true → bytes = 0) →
  ∃ pre post, ms = pre ++ post ∧ take_budget max bytes first ms = Ok pre ∧
    (first = true → ms ≠ [] → pre ≠ []) ∧
    (bytes + bytes_total pre ≤ max ∨ (first = true ∧ length pre = 1%nat)).
Proof.
  intros Hb Hmax. revert bytes first Hb.
  induction ms as [|m ms IH]; intros bytes first Hb Hall Hfirst.
  { exists [], []. split_and!; try done. left. cbn. lia. }
  apply Forall_cons in Hall as [Hm Hall]. pose proof (body_bytes_nonneg m). cbn [take_budget].
  unfold ok_or_else. rewrite u64_checked_in by (unfold in_u64; lia). cbn [mbind result_bind].
  destruct (decide (first = false ∧ _)) as [[-> _]|Hgo].
  { exists [], (m :: ms). split_and!; try done. left. cbn. lia. }
  assert (Hsum : bytes + body_bytes m ≤ max ∨ (first = true ∧ bytes = 0)).
  { destruct first; [right; auto|]. left. destruct (decide (bytes + body_bytes m ≤ max)); [done|].
    exfalso. apply Hgo. split; [done|]. unfold u64_saturate. lia. }
  rewrite u64_checked_in by (unfold in_u64; lia). cbn [mbind result_bind].
  destruct (decide (bytes + body_bytes m ≤ max)) as [Hle|Hgt].
  - destruct (IH (bytes + body_bytes m) false) as (pre & post & -> & -> & _ & Hpre); [lia|done|done|].
    exists (m :: pre), post. cbn [mbind result_bind]. split_and!; try done. left.
    rewrite bytes_total_cons. destruct Hpre as [?|[? ?]]; [lia|done].
  - exists [m], ms. destruct Hsum as [?|[-> Hz]]; [lia|].
    assert (take_budget max (bytes + body_bytes m) false ms = Ok []) as ->.
    { destruct ms as [|m' ms]; [done|]. cbn [take_budget]. apply Forall_cons in Hall as [Hm' _].
      pose proof (body_bytes_nonneg m'). unfold ok_or_else. rewrite u64_checked_in by (unfold in_u64; lia).
      cbn [mbind result_bind]. rewrite decide_True; [done|]. split; [done|]. unfold u64_saturate. lia. }
    cbn [mbind result_bind]. split_and!; try done. by right.
Qed.

Definition sum (l : list Z) : Z := sql_sum (λ s, s) l.

Lemma sum_bytes ms : sum (body_bytes <$> ms) = bytes_total ms.
Proof. induction ms as [|m ms IH]; [done|]. rewrite bytes_total_cons, <-IH. done. Qed.

Lemma checked_total_ok total sizes db :
  0 ≤ total → Forall (λ s, 0 ≤ s) sizes → total + sum sizes ≤ u64_max →
  checked_total total sizes db = (db, Ok (total + sum sizes)).
Proof.
  intros Ht Hall. revert total Ht. induction Hall as [|s sizes Hs Hall IH]; intros total Ht Hmax.
  { cbn. unfold mret, M_ret. do 2 f_equal. lia. }
  change (sum (s :: sizes)) with (s + sum sizes) in *.
  assert (0 ≤ sum sizes).
  { clear -Hall. induction Hall; [done|]. change (sum (x :: l)) with (x + sum l). lia. }
  cbn [checked_total]. apply bind_run. exists db, (total + s). split.
  - run_simpl. by rewrite u64_checked_in by (unfold in_u64; lia).
  - rewrite IH by lia. do 2 f_equal. lia.
Qed.

(** ** The deletion loop *)

Section deletion.
Context (P : Message → Prop) {Pdec : ∀ m, Decision (P m)} (HP : ∀ m, P m → m.(msg_state) = MReady).

Lemma delete_candidate_ok c db :
  stmt_inv all_exact db → c ∈ db.(messages) → P c →
  ∃ db', delete_candidate P c db = (db', Ok (body_bytes c)) ∧ stmt_inv all_exact db' ∧
    db'.(messages) = sql_delete (among [c]) db.(messages) ∧ db'.(operations) = db.(operations) ∧
    (∀ q, q_state <$> db'.(queues) !! q = q_state <$> db.(queues) !! q).
Proof.
  intros Hdb Hc HPc. 
  set (ps := filter (λ '(id, _), ¬ Exists (λ m, m.(seq) = c.(seq) ∧ m.(msg_id) = id) db.(messages))
    db.(dlq_pending)).
  assert (Hdb1 : stmt_inv all_exact (set_dlq_pending ps db)) by by apply stmt_inv_filter_pending.
  set (hit := λ m, m.(seq) = c.(seq) ∧ P m).
  destruct (delete_messages_ok (set_dlq_pending ps db) hit (stmt_inv_core _ _ Hdb1)) as (qs & Hdel & _ & Hqs).
  set (db' := set_queues qs _) in Hdel.
  assert (Hcore := stmt_inv_core _ _ Hdb).
  assert (Haff : affected hit db.(messages) = 1) by by apply affected_seq.
  assert (Hrun : delete_candidate P c db = (db', Ok (body_bytes c))).
  { unfold delete_candidate. run_simpl. fold ps. fold hit. unfold execute. rewrite Hdel.
    rewrite decide_False; [done|]. intros Hno. by apply Hno. }
  exists db'. split_and!; [done|exact (delete_candidate_inv all_exact P c db db' _ HP Hdb Hrun)| |done|].
  - cbn. apply (sql_where_ext (λ x, ¬ hit x) (λ x, ¬ among [c] x)). intros x Hx. unfold hit, among. cbn.
    rewrite list_elem_of_singleton. split; [|tauto]. intros Hno Hs. apply Hno.
    split; [done|]. by rewrite (message_seq_unique db x c).
  - intros q. specialize (Hqs q). cbn in *. destruct (qs !! q), (queues db !! q); simplify_eq/=; congruence.
Qed.

Lemma delete_among_nil (ms : list Message) : sql_delete (among []) ms = ms.
Proof.
  unfold sql_delete. induction ms as [|x l IH]; [done|]. rewrite filter_cons, IH, decide_True; [done|].
  unfold among. cbn. apply not_elem_of_nil.
Qed.

Lemma delete_among_cons c cs (ms : list Message) :
  sql_delete (among cs) (sql_delete (among [c]) ms) = sql_delete (among (c :: cs)) ms.
Proof.
  unfold sql_delete. rewrite list_filter_filter. apply list_filter_iff. intros x.
  unfold among. cbn. rewrite !elem_of_cons, elem_of_nil. tauto.
Qed.

Lemma delete_loop_ok cs db :
  stmt_inv all_exact db → NoDup (seq <$> cs) → Forall (λ c, c ∈ db.(messages) ∧ P c) cs →
  ∃ db', for_each (delete_candidate P) cs db = (db', Ok (body_bytes <$> cs)) ∧ stmt_inv all_exact db' ∧
    db'.(messages) = sql_delete (among cs) db.(messages) ∧ db'.(operations) = db.(operations) ∧
    (∀ q, q_state <$> db'.(queues) !! q = q_state <$> db.(queues) !! q).
Proof.
  revert db. induction cs as [|c cs IH]; intros db Hdb Hnd Hall.
  { exists db. split_and!; try done. by rewrite delete_among_nil. }
  rewrite fmap_cons in Hnd. apply NoDup_cons in Hnd as [Hc Hnd]. apply Forall_cons in Hall as [[Hin HPc] Hall].
  destruct (delete_candidate_ok c db Hdb Hin HPc) as (db1 & Hrun & Hdb1 & Hms & Hops & Hqs).
  destruct (IH db1 Hdb1 Hnd) as (db2 & Hrun2 & Hdb2 & Hms2 & Hops2 & Hqs2).
  { rewrite Forall_forall in *. intros x Hx. destruct (Hall x Hx) as [Hxin HPx]. split; [|done].
    rewrite Hms. apply elem_of_sql_delete. split; [done|]. unfold among. cbn.
    rewrite list_elem_of_singleton. intros Heq. apply Hc. rewrite <-Heq. by apply list_elem_of_fmap_2. }
  exists db2. split_and!; [|done| |congruence|by intros q; rewrite Hqs2].
  - apply for_each_cons_run. by eexists _, _, _.
  - by rewrite Hms2, Hms, delete_among_cons.
Qed.
End deletion.

(** ** Candidates *)

(** The ready messages of a queue, or of all, that expire by a time, or at any. *)
Definition candidate (queue : option N) (before : option Z) (m : Message) : Prop :=
  m.(msg_state) = MReady ∧ is_none_or (λ q, m.(msg_queue) = q) queue ∧
  is_none_or (λ t, m.(msg_expires_at_ms) ≤ t) before.
#[export] Instance candidate_dec queue before m : Decision (candidate queue before m).
Proof. unfold candidate. apply _. Defined.

(** A bounded prefix of the candidates, the first to expire first. *)
Record bounded_prefix (queue : option N) (before : option Z) (rows bytes : Z) (ms cs : list Message) : Prop := {
  bp_candidates : Forall (λ c, c ∈ ms ∧ candidate queue before c) cs;
  bp_unique : NoDup (seq <$> cs);
  bp_rows : Z.of_nat (length cs) ≤ rows;
  bp_bytes : bytes_total cs ≤ bytes ∨ length cs = 1%nat;
  bp_progress : Exists (candidate queue before) ms → cs ≠ [];
  bp_order : ∀ c m, c ∈ cs → m ∈ ms → m ∉ cs → candidate queue before m →
    c.(msg_expires_at_ms) ≤ m.(msg_expires_at_ms);
}.

Lemma bytes_total_bound rows bytes queue before ms cs :
  bounded_prefix queue before rows bytes ms cs → 0 ≤ bytes < u64_max →
  Forall (λ m, body_bytes m ≤ i64_max) cs → 0 ≤ bytes_total cs ≤ u64_max.
Proof.
  intros [_ _ _ Hb _ _] Hbytes Hall. pose proof (bytes_total_nonneg cs). split; [done|].
  destruct Hb as [?|H1]; [lia|]. destruct cs as [|c [|? ?]]; try done.
  apply Forall_cons in Hall as [Hc _]. rewrite bytes_total_cons. cbn. lia.
Qed.

Lemma select_ok queue before rows bytes db :
  queue_core db → 1 ≤ rows → 0 ≤ bytes < u64_max → Forall (λ m, body_bytes m ≤ i64_max) db.(messages) →
  ∃ cs, select_delete_candidates queue before rows bytes db = (db, Ok cs) ∧
    bounded_prefix queue before rows bytes db.(messages) cs.
Proof.
  intros Hc Hrows Hbytes Hsize.
  set (key := λ m, [m.(msg_expires_at_ms); Z.of_N m.(msg_queue); m.(seq)]).
  set (l := order_by key (sql_where (candidate queue before) db.(messages))).
  assert (Hl : ∀ m, m ∈ l ↔ m ∈ db.(messages) ∧ candidate queue before m).
  { intros m. unfold l, sql_where. rewrite elem_of_order_by, list_elem_of_filter. tauto. }
  assert (Hnd : NoDup (seq <$> l)).
  { unfold l. rewrite order_by_Permutation. eapply sublist_NoDup; [apply Hc|].
    apply fmap_sublist, sublist_filter. }
  destruct (take_budget_ok bytes 0 true (take (Z.to_nat rows) l)) as (cs & post & Hsplit & Hrun & Hne & Hb);
    [lia|lia| |done|].
  { apply Forall_forall. intros m Hm%elem_of_take. apply Hl in Hm as [Hm _].
    rewrite Forall_forall in Hsize. by apply Hsize. }
  assert (Hcs : l = cs ++ (post ++ drop (Z.to_nat rows) l)).
  { by rewrite app_assoc, <-Hsplit, take_drop. }
  exists cs. split.
  { unfold select_delete_candidates. run_simpl.
    match goal with |- context [take_budget _ _ _ (take _ ?x)] => change x with l end. by rewrite Hrun. }
  split.
  - apply Forall_forall. intros m Hm. apply Hl. rewrite Hcs. apply elem_of_app. by left.
  - rewrite Hcs, fmap_app in Hnd. by apply NoDup_app in Hnd as [? _].
  - assert (length cs ≤ length (take (Z.to_nat rows) l))%nat by (rewrite Hsplit, length_app; lia).
    rewrite length_take in *. lia.
  - destruct Hb as [Hb|[_ Hb]]; [left; lia|by right].
  - intros (m & Hm & Hcand)%Exists_exists. apply Hne; [done|].
    assert (Hin : m ∈ l) by by apply Hl. destruct l as [|x l']; [by apply not_elem_of_nil in Hin|].
    destruct (Z.to_nat rows) eqn:E; [lia|done].
  - intros c m Hin Hm Hni Hcand. assert (Hml : m ∈ l) by by apply Hl.
    rewrite Hcs in Hml. apply elem_of_app in Hml as [?|Hpost]; [done|].
    assert (Hs : StronglySorted (by_columns key) l) by apply order_by_sorted.
    assert (Hle : by_columns key c m).
    { rewrite <-(take_drop (length cs) l) in Hs. eapply (sorted_take_drop _ (length cs) l).
      - apply order_by_sorted.
      - rewrite Hcs, take_app_length. done.
      - rewrite Hcs, drop_app_length. done. }
    cbn in Hle. lia.
Qed.

(** Every stored body is within the signed range. *)
Lemma bodies_bound db : queue_core db → Forall (λ m, body_bytes m ≤ i64_max) db.(messages).
Proof. intros Hc. apply Forall_forall. intros m Hm. by eapply body_bytes_bound. Qed.

(** The candidates a pass selects are deleted. *)
Lemma delete_selected P `{!∀ m, Decision (P m)} queue before rows bytes db cs :
  (∀ m, P m ↔ candidate queue before m) → queue_wf db → 0 ≤ bytes < u64_max →
  bounded_prefix queue before rows bytes db.(messages) cs →
  ∃ db', for_each (delete_candidate P) cs db = (db', Ok (body_bytes <$> cs)) ∧ stmt_inv all_exact db' ∧
    db'.(messages) = sql_delete (among cs) db.(messages) ∧ db'.(operations) = db.(operations) ∧
    (∀ q, q_state <$> db'.(queues) !! q = q_state <$> db.(queues) !! q) ∧
    ∀ db1, checked_total 0 (body_bytes <$> cs) db1 = (db1, Ok (bytes_total cs)).
Proof.
  intros HP Hwf Hbytes Hcs. assert (Hdb := proj1 (queue_wf_stmt _) Hwf).
  destruct (delete_loop_ok P ltac:(intros m Hm; apply HP in Hm; apply Hm) cs db Hdb) as (db' & Hrun & Hdb' & Hms & Hops & Hqs).
  - apply Hcs.
  - eapply Forall_impl; [apply Hcs|]. intros c [? ?]. split; [done|by apply HP].
  - exists db'. split_and!; try done. intros db1.
    assert (Hall : Forall (λ m, body_bytes m ≤ i64_max) cs).
    { pose proof (bodies_bound db (wf_core _ Hwf)) as Hb. rewrite Forall_forall in *. intros c Hc.
      apply Hb. pose proof (bp_candidates _ _ _ _ _ _ Hcs) as Hin. rewrite Forall_forall in Hin. by apply Hin. }
    destruct (bytes_total_bound _ _ _ _ _ _ Hcs Hbytes Hall).
    rewrite checked_total_ok; rewrite ?sum_bytes; [done|lia| |lia].
    apply Forall_fmap, Forall_true. intros m. apply body_bytes_nonneg.
Qed.

(** A retention sweep always succeeds and is exact and bounded: it deletes only
    ready messages that have expired, the first to expire first, at most the row budget
    and within the byte budget or a single message; it deletes at least one if any has
    expired; and it reports that nothing expired remains only when that is so. *)
Theorem sweep_queue_retention_exact now rows bytes db :
  queue_wf db → 1 ≤ rows → 1 ≤ bytes < u64_max →
  ∃ db' cs s, sweep_queue_retention now rows bytes db = (db', Ok s) ∧
    bounded_prefix None (Some now) rows bytes db.(messages) cs ∧
    s.(del_messages) = Z.of_nat (length cs) ∧ s.(del_bytes) = bytes_total cs ∧
    db'.(messages) = sql_delete (among cs) db.(messages) ∧
    (s.(expired_remaining) = false →
       ∀ m, m ∈ db'.(messages) → m.(msg_state) = MReady → now < m.(msg_expires_at_ms)).
Proof.
  intros Hwf Hrows Hbytes. assert (Hc := wf_core _ Hwf).
  destruct (select_ok None (Some now) rows bytes db Hc Hrows) as (cs & Hsel & Hcs); [lia|by apply bodies_bound|].
  destruct (delete_selected (λ m, m.(msg_state) = MReady ∧ m.(msg_expires_at_ms) ≤ now) None (Some now)
    rows bytes db cs) as (db1 & Hrun & Hdb1 & Hms & _ & _ & Htot); [|done|lia|done|].
  { intros m. unfold candidate. cbn. tauto. }
  assert (Htx : ∃ db2 s, db2.(messages) = db1.(messages) ∧ s.(del_messages) = Z.of_nat (length cs) ∧
    s.(del_bytes) = bytes_total cs ∧
    (s.(expired_remaining) = false → ∀ m, m ∈ db1.(messages) → m.(msg_state) = MReady → now < m.(msg_expires_at_ms)) ∧
    sweep_queue_retention now rows bytes db =
      ((if decide (Z.of_nat (length cs) > 0) then notify db2 else db2), Ok s)).
  { unfold sweep_queue_retention, delete_expired_operations, next_expiry. run_simpl.
    rewrite decide_False by lia. rewrite Hsel, Hrun, Htot. eexists _, _.
    split_and!; [..|by case_decide]; try done. cbn. intros Hrem%bool_decide_eq_false m Hm Hst.
    destruct (decide (msg_expires_at_ms m ≤ now)); [|lia]. exfalso. apply Hrem. left.
    apply Exists_exists. eauto. }
  destruct Htx as (db2 & s & Hms2 & Hn & Hb & Hrem & Hsweep). rewrite Hsweep. eexists _, cs, s.
  split; [done|]. assert (Hm2 : (if decide (Z.of_nat (length cs) > 0) then notify db2 else db2).(messages) =
    sql_delete (among cs) db.(messages)) by (case_decide; cbn; congruence).
  split_and!; try done. rewrite Hm2, <-Hms. done.
Qed.

(** Purging a queue that is being deleted. *)
Lemma purge_queue_ok q rows bytes db :
  queue_wf db → 1 ≤ rows → 1 ≤ bytes < u64_max → q_state <$> db.(queues) !! q = Some Deleting →
  ∃ db' cs s, purge_queue q rows bytes db = (db', Ok s) ∧
    bounded_prefix (Some q) None rows bytes db.(messages) cs ∧
    db'.(messages) = sql_delete (among cs) db.(messages) ∧
    q_state <$> db'.(queues) !! q = Some Deleting.
Proof.
  intros Hwf Hrows Hbytes Hst. assert (Hc := wf_core _ Hwf).
  destruct (select_ok (Some q) None rows bytes db Hc Hrows) as (cs & Hsel & Hcs); [lia|by apply bodies_bound|].
  destruct (delete_selected (λ m, m.(msg_queue) = q ∧ m.(msg_state) = MReady) (Some q) None
    rows bytes db cs) as (db1 & Hrun & Hdb1 & Hms & _ & Hqs & Htot); [|done|lia|done|].
  { intros m. unfold candidate. cbn. tauto. }
  assert (Htx : ∃ db2 s, db2.(messages) = db1.(messages) ∧ db2.(queues) = db1.(queues) ∧
    purge_queue q rows bytes db = ((if decide (Z.of_nat (length cs) > 0) then notify db2 else db2), Ok s)).
  { unfold purge_queue, delete_queue_operations, next_expiry. run_simpl.
    rewrite decide_False by lia. rewrite decide_False.
    2: { intros Hno. apply Hno. destruct (queues db !! q); [|done]. by injection Hst. }
    rewrite Hsel, Hrun, Htot. eexists _, _. split_and!; [..|by case_decide]; done. }
  destruct Htx as (db2 & s & Hms2 & Hqs2 & Hpurge). rewrite Hpurge. eexists _, cs, s.
  split_and!; [done|done|case_decide; cbn; congruence|].
  rewrite <-Hst, <-Hqs, <-Hqs2. by case_decide.
Qed.

Lemma sql_delete_count P `{!∀ m, Decision (P m)} Q `{!∀ m, Decision (Q m)} (ms : list Message) :
  affected Q (sql_delete P ms) = affected Q ms - affected (λ m, P m ∧ Q m) ms.
Proof.
  unfold sql_delete. induction ms as [|m ms IH]; [done|]. rewrite filter_cons, !affected_cons.
  destruct (decide (¬ P m)), (decide (P m ∧ Q m)); rewrite ?affected_cons, ?IH; try (case_decide; tauto || lia).
Qed.

(** One pass over a queue none of whose messages is in flight. *)
Lemma purge_step q rows bytes db :
  queue_wf db → 1 ≤ rows → 1 ≤ bytes < u64_max → q_state <$> db.(queues) !! q = Some Deleting →
  Forall (λ m, m.(msg_queue) = q → m.(msg_state) = MReady) db.(messages) →
  let db' := (purge_queue q rows bytes db).1 in
  queue_wf db' ∧ q_state <$> db'.(queues) !! q = Some Deleting ∧
  Forall (λ m, m.(msg_queue) = q → m.(msg_state) = MReady) db'.(messages) ∧
  (0 < count_of q db.(messages) → count_of q db'.(messages) < count_of q db.(messages)) ∧
  count_of q db'.(messages) ≤ count_of q db.(messages).
Proof.
  intros Hwf Hrows Hbytes Hst Hready db'.
  destruct (purge_queue_ok q rows bytes db Hwf Hrows Hbytes Hst) as (db1 & cs & s & Hrun & Hcs & Hms & Hst1).
  assert (Hdb' : db' = db1) by (unfold db'; by rewrite Hrun).
  assert (Hcount : count_of q db1.(messages) =
    count_of q db.(messages) - affected (λ m, among cs m ∧ m.(msg_queue) = q) db.(messages)).
  { unfold count_of. rewrite Hms. apply sql_delete_count. }
  pose proof (affected_nonneg (λ m, among cs m ∧ m.(msg_queue) = q) db.(messages)).
  rewrite Hdb'. split_and!; [|done| | |lia].
  - rewrite <-Hdb'. apply queue_wf_stmt, keeps_purge. by apply queue_wf_stmt.
  - rewrite Hms. by apply Forall_sql_delete.
  - intros Hpos. rewrite Hcount.
    assert (affected (λ m, among cs m ∧ m.(msg_queue) = q) db.(messages) ≠ 0); [|lia].
    intros Hzero. rewrite affected_0 in Hzero.
    assert (Hsome : Exists (candidate (Some q) None) db.(messages)).
    { apply dec_stable. intros Hno. apply (Z.lt_irrefl 0). rewrite <-(proj2 (affected_0 (λ m, msg_queue m = q) db.(messages))) at 2; [done|].
      intros m Hm Hq. apply Hno, Exists_exists. exists m. split; [done|].
      rewrite Forall_forall in Hready. split; [by apply Hready|done]. }
    destruct cs as [|c cs]; [by apply (bp_progress _ _ _ _ _ _ Hcs)|].
    pose proof (bp_candidates _ _ _ _ _ _ Hcs) as Hall. apply Forall_cons in Hall as [[Hc (_ & Hq & _)] _].
    apply (Hzero c Hc). split; [unfold among; cbn; left|done].
Qed.

Fixpoint purges (n : nat) (q : N) (rows bytes : Z) (db : QueueDb) : QueueDb :=
  match n with
  | O => db
  | S n => purges n q rows bytes (purge_queue q rows bytes db).1
  end.

(** Purging terminates: whatever the budgets, as many passes as the queue has
    messages empty a queue that is being deleted and has no message in flight. *)
Theorem purge_drains n q rows bytes db :
  queue_wf db → 1 ≤ rows → 1 ≤ bytes < u64_max → q_state <$> db.(queues) !! q = Some Deleting →
  Forall (λ m, m.(msg_queue) = q → m.(msg_state) = MReady) db.(messages) →
  count_of q db.(messages) ≤ Z.of_nat n →
  count_of q (purges n q rows bytes db).(messages) = 0 ∧
  q_state <$> (purges n q rows bytes db).(queues) !! q = Some Deleting.
Proof.
  intros Hwf Hrows Hbytes. revert db Hwf. induction n as [|n IH]; intros db Hwf Hst Hready Hcount.
  { pose proof (count_of_nonneg q db.(messages)). cbn. split; [lia|done]. }
  destruct (purge_step q rows bytes db Hwf Hrows Hbytes Hst Hready) as (Hwf' & Hst' & Hready' & Hlt & Hle).
  cbn [purges]. apply IH; try done. pose proof (count_of_nonneg q db.(messages)).
  destruct (decide (0 < count_of q db.(messages))) as [Hpos|]; [specialize (Hlt Hpos)|]; lia.
Qed.

(** The queue of the example, fenced for deletion. *)
Definition ex_fenced : QueueDb := (fence_queue_delete 1 1 5000 ex_db).1.

Lemma sweep_queue_retention_exact_witness :
  ∃ db' cs s, sweep_queue_retention 61000 2 100 ex_db = (db', Ok s) ∧
    bounded_prefix None (Some 61000) 2 100 ex_db.(messages) cs ∧ s.(del_messages) = Z.of_nat (length cs).
Proof.
  destruct (sweep_queue_retention_exact 61000 2 100 ex_db) as (db' & cs & s & Hrun & Hcs & Hn & _).
  - apply ex_db_wf.
  - lia.
  - lia.
  - exact (ex_intro _ db' (ex_intro _ cs (ex_intro _ s (conj Hrun (conj Hcs Hn))))).
Defined.

Lemma purge_drains_witness : count_of 1 (purges 3 1 1 1 ex_fenced).(messages) = 0.
Proof.
  apply (purge_drains 3 1 1 1 ex_fenced).
  - apply queue_wf_stmt, keeps_fence, queue_wf_stmt, ex_db_wf.
  - lia.
  - lia.
  - by vm_compute.
  - apply (bool_decide_unpack (Forall (λ m, m.(msg_queue) = 1%N → m.(msg_state) = MReady) _)). by vm_compute.
  - by vm_compute.
Defined.
