(* ===== verification/QueueClaim.v ===== *)
(** * What a claim does

    [claim_queue_batches] gives each of the first eligible consumers, in cursor order,
    one batch with its oldest due messages, and leaves every other message alone. *)

From stdpp Require Import base numbers list option strings sorting gmap.
From S2P Require Import Prelude ErrorCodes Sql QueueDb QueueInv QueueStore.
From S2P Require Import QueueEnqueue QueueConsumer QueueStmt QueueWf QueueDelivery QueueReach.

Local Open Scope Z_scope.

(** The consumers a claim serves. *)
Definition served (db : QueueDb) (now limit : Z) (after : option N) : list (N * Consumer) :=
  take (Z.to_nat limit)
    (order_by (λ ic, [cursor_column after ic.2.(consumer_queue); Z.of_N ic.2.(consumer_queue);
                      Z.of_N ic.1])
      (sql_where (λ ic, eligible db now ic.2) (map_to_list db.(consumers)))).

Lemma elem_of_served db now limit after id c :
  (id, c) ∈ served db now limit after → db.(consumers) !! id = Some c ∧ eligible db now c.
Proof.
  intros H%elem_of_take. rewrite elem_of_order_by in H.
  apply list_elem_of_filter in H as [He Hin]. split; [by apply elem_of_map_to_list|done].
Qed.

Lemma served_queues_NoDup db now limit after :
  consumers_ok db.(consumers) →
  NoDup ((λ ic : N * Consumer, ic.2.(consumer_queue)) <$> served db now limit after).
Proof.
  intros [_ Huniq]. unfold served. rewrite <-firstn_map. eapply sublist_NoDup; [|apply sublist_take].
  rewrite order_by_Permutation. eapply sublist_NoDup; [|apply fmap_sublist, sublist_filter].
  apply NoDup_fmap_2_strong; [|apply NoDup_map_to_list].
  intros [i c] [j d] Hi%elem_of_map_to_list Hj%elem_of_map_to_list Hq. cbn in Hq.
  assert (i = j) as <- by by eapply Huniq. congruence.
Qed.

Lemma eligible_due db now c : consumer_ok c → eligible db now c → due db now c ≠ [].
Proof.
  intros (_ & _ & Hsize & _) (_ & _ & _ & He). unfold due. destruct (deliverables db now _) as [|m ms].
  - cbn in He. unfold QUEUE_CONSUMER_MAX_BATCH_SIZE in He. lia.
  - by destruct (Z.to_nat (max_batch_size c)) eqn:E; [lia|].
Qed.

Lemma consumer_ok_converts c : consumer_ok c → consumer_converts c.
Proof.
  unfold consumer_ok, consumer_converts, in_u64, in_u32. intros (? & ? & ? & ? & ? & ? & ? & Hd).
  assert (0 ≤ max_batch_timeout_ms c `quot` 1000 ≤ max_batch_timeout_ms c).
  { rewrite Z.quot_div_nonneg by lia. split; [apply Z.div_pos; lia|]. apply Z.div_le_upper_bound; lia. }
  split_and!; try lia. destruct (dlq c) as [[q g]|]; [|done]. cbn. destruct (Hd q g eq_refl). lia.
Qed.

(** A claim for one queue does not touch what another queue's consumer is due. *)
Lemma due_other db now batch id c d :
  queue_core db → c.(consumer_queue) ≠ d.(consumer_queue) →
  due (claim_db now batch id c db) now d = due db now d.
Proof.
  intros Hc Hne. unfold due. f_equal. unfold deliverables. f_equal. unfold claim_db, claim_rows, sql_where.
  cbn [messages set_messages set_batches]. set (db' := set_messages _ _).
  assert (Hms : ∀ x, x ∈ db.(messages) → among (due db now c) x → x.(msg_queue) = c.(consumer_queue)).
  { intros x Hx (m & Hs & Hm)%list_elem_of_fmap. destruct (elem_of_due _ _ _ _ Hm) as [Hin (Hq & _)].
    by rewrite (message_seq_unique db x m). }
  assert (Hdel : ∀ x, deliverable db' now d.(consumer_queue) x ↔ deliverable db now d.(consumer_queue) x)
    by done.
  clearbody db'. revert Hms. generalize (among (due db now c)) (among_dec (due db now c)).
  intros P Pdec. induction (messages db) as [|x l IH]; intros Hms; [done|].
  rewrite sql_update_cons, !filter_cons.
  rewrite (IH (λ y Hy, Hms y (list_elem_of_further _ _ _ Hy))).
  destruct (decide (P x)) as [Hp|Hp].
  - assert (msg_queue x = consumer_queue c) as Hq by (apply Hms; [left|done]).
    rewrite !decide_False; [done|intros [? _]; congruence|]. intros [Hq' _]. cbn in Hq'. congruence.
  - destruct (decide (deliverable db' now (consumer_queue d) x)) as [H1|H1],
      (decide (deliverable db now (consumer_queue d) x)) as [H2|H2]; rewrite Hdel in H1; try done.
Qed.

(** The row of a message after a claim for [cs] with the batch ids from [gen i] on: it is
    claimed for the consumer it was due to, if there is one. *)
Fixpoint assign (gen : nat → N) (now : Z) (db : QueueDb) (i : nat) (cs : list (N * Consumer)) (m : Message) : Message :=
  match cs with
  | [] => m
  | (id, c) :: cs =>
      if decide (m ∈ due db now c) then claim_row (gen i) id c.(consumer_generation) m
      else assign gen now db (S i) cs m
  end.

(** The batches of the claim. *)
Fixpoint claimed_batches (gen : nat → N) (now : Z) (db : QueueDb) (i : nat) (cs : list (N * Consumer)) : gmap N Batch :=
  match cs with
  | [] => ∅
  | (id, c) :: cs =>
      <[gen i := new_batch now id c (length (due db now c))]> (claimed_batches gen now db (S i) cs)
  end.

Section claims.
Context (instance_id : N) (gen : nat → N) (gen_inj : ∀ i j, gen i = gen j → i = j) (now : Z).

(** The tables after the batches of [cs] have been claimed one after the other. *)
Fixpoint claims_db (i : nat) (cs : list (N * Consumer)) (db : QueueDb) : QueueDb :=
  match cs with
  | [] => db
  | (id, c) :: cs => claims_db (S i) cs (claim_db now (gen i) id c db)
  end.

(** What a list of consumers needs to be served from the batch id [gen i] on. *)
Record servable (i : nat) (cs : list (N * Consumer)) (db : QueueDb) : Prop := {
  sv_inv : stmt_inv all_exact db;
  sv_rows : Forall (λ ic, db.(consumers) !! ic.1 = Some ic.2 ∧ ic.2.(active) = true ∧
                          due db now ic.2 ≠ []) cs;
  sv_queues : NoDup ((λ ic : N * Consumer, ic.2.(consumer_queue)) <$> cs);
  sv_fresh : ∀ j, (i ≤ j)%nat → db.(batches) !! gen j = None;
  sv_attempts : messages_convert db.(messages);
}.

Lemma due_convert db c : messages_convert db.(messages) → messages_convert (due db now c).
Proof.
  unfold messages_convert. rewrite !Forall_forall. intros H m [Hin _]%elem_of_due. auto.
Qed.

Lemma due_length db c : 0 ≤ c.(max_batch_size) → Z.of_nat (length (due db now c)) ≤ c.(max_batch_size).
Proof. intros H. unfold due. rewrite length_take. lia. Qed.

(** The guard of the batch table admits the batch of a consumer that is due. *)
Lemma insert_batch_ok i id c db :
  stmt_inv all_exact db → db.(consumers) !! id = Some c → c.(active) = true →
  due db now c ≠ [] → db.(batches) !! gen i = None →
  insert_batch (gen i) (new_batch now id c (length (due db now c))) db =
    Ok (set_batches (<[gen i := new_batch now id c (length (due db now c))]> db.(batches)) db).
Proof.
  intros [[_ [_ _ Rc _] [Hok _] _] _] Hc Hact Hdue Hfresh. destruct (Rc _ _ Hc) as [Hq _].
  destruct (Hok _ _ Hc) as (_ & _ & Hsize & _).
  assert (Hlen : (0 < length (due db now c))%nat) by (destruct (due db now c); [done|cbn; lia]).
  pose proof (due_length db c) as Hmax. unfold insert_batch, bail_if. cbn [new_batch batch_consumer].
  rewrite (decide_False (P := ¬ is_some_and _ _)).
  2: { intros Hno. apply Hno. rewrite Hc. cbn. split_and!; (done || lia). }
  cbn [mbind result_bind]. rewrite decide_False; [done|]. rewrite Hfresh. cbn.
  intros [[? ?]|[Hn|Hn]]; [done|lia|]. rewrite Hn in Hq. by destruct Hq.
Qed.

Lemma among_due db c x : queue_core db → x ∈ db.(messages) → among (due db now c) x ↔ x ∈ due db now c.
Proof.
  intros Hc Hx. unfold among. split; [|by apply list_elem_of_fmap_2].
  intros (m & Hs & Hm)%list_elem_of_fmap. destruct (elem_of_due _ _ _ _ Hm) as [Hin _].
  by rewrite (message_seq_unique db x m).
Qed.

Lemma elem_of_claim_db batch id c db x :
  queue_core db → x ∈ db.(messages) →
  (if decide (x ∈ due db now c) then claim_row batch id c.(consumer_generation) x else x)
    ∈ (claim_db now batch id c db).(messages).
Proof.
  intros Hc Hx. cbn. apply elem_of_sql_update. exists x. split; [done|].
  pose proof (among_due db c x Hc Hx).
  destruct (decide (x ∈ due db now c)), (decide (among (due db now c) x)); tauto.
Qed.

Lemma servable_step i id c cs db :
  servable i ((id, c) :: cs) db → servable (S i) cs (claim_db now (gen i) id c db) ∧
    Forall (λ ic, due (claim_db now (gen i) id c db) now ic.2 = due db now ic.2) cs.
Proof.
  intros [Hinv Hrows Hq Hfresh Hatt]. apply Forall_cons in Hrows as [(Hc & Hact & Hdue) Hrows].
  rewrite fmap_cons in Hq. apply NoDup_cons in Hq as [Hnq Hq]. cbn in Hc, Hact, Hdue, Hnq.
  assert (Hcore := stmt_inv_core _ _ Hinv).
  assert (Hother : Forall (λ ic, due (claim_db now (gen i) id c db) now ic.2 = due db now ic.2) cs).
  { apply Forall_forall. intros [j d] Hj. apply due_other; [done|]. cbn. intros Heq. apply Hnq.
    rewrite Heq. by apply (list_elem_of_fmap_2 (λ ic : N * Consumer, ic.2.(consumer_queue)) cs (j, d)). }
  split; [|done]. split; [|..|done| |].
  - eapply claim_batch_ok; [done|done|]. by apply insert_batch_ok; try apply Hfresh.
  - rewrite Forall_forall in *. intros [j d] Hj. destruct (Hrows _ Hj) as (? & ? & ?).
    by rewrite (Hother _ Hj).
  - intros j Hj. cbn. rewrite lookup_insert_ne; [apply Hfresh; lia|]. intros ?%gen_inj. lia.
  - unfold messages_convert in *. cbn. by apply Forall_sql_update.
Qed.

(** The loop serves every consumer of the list, each with what it was due before. *)
Lemma claim_loop_ok i cs db :
  servable i cs db →
  claim_loop instance_id gen now i cs db =
    (claims_db i cs db,
     Ok (imap (λ k ic, claimed_batch instance_id (gen (i + k)) ic.1 ic.2 (due db now ic.2)) cs)).
Proof.
  revert i db. induction cs as [|[cid c] cs IH]; intros i db Hs; [done|].
  destruct (servable_step _ _ _ _ _ Hs) as [Hs1 Hother]. destruct Hs as [Hinv Hrows _ Hfresh Hatt].
  apply Forall_cons in Hrows as [(Hc & Hact & Hdue) _]. cbn in Hc, Hact, Hdue.
  cbn [claim_loop claims_db imap]. apply bind_run. exists db, (due db now c). split.
  { unfold due_messages_tx. run_simpl. cbn [id]. rewrite decide_False; [done|].
    intros Hno. apply Hno. by apply due_convert. }
  rewrite decide_False by done. apply bind_run.
  exists (claim_db now (gen i) cid c db), (claimed_batch instance_id (gen i) cid c (due db now c)). split.
  - unfold claim_batch, consumer_i64. destruct (tab_consumers _ (proj1 Hinv)) as [Hok _].
    destruct (Hok _ _ Hc) as (? & ? & _). run_simpl.
    rewrite !i64_checked_in by (unfold in_i64; lia). unfold execute.
    assert (Hins := insert_batch_ok i cid c db Hinv Hc Hact Hdue (Hfresh i (le_n i))).
    fold (new_batch now cid c (length (due db now c))). rewrite Hins.
    destruct (claim_batch_ok all_exact (λ _, I) now (gen i) cid c db _ Hinv Hins) as [Hrun _]. by rewrite Hrun.
  - apply bind_run. eexists _, _. split; [by apply IH|]. apply ret_run. split; [done|].
    cbn. rewrite Nat.add_0_r. f_equal. apply imap_ext. intros k [j d] Hj. cbn.
    rewrite Forall_forall in Hother. assert (Hd := Hother (j, d) (list_elem_of_lookup_2 _ _ _ Hj)).
    cbn in Hd. by rewrite Hd, Nat.add_succ_r.
Qed.

(** A message that no served consumer is due stays as it is. *)
Lemma claims_db_other i cs db x :
  servable i cs db → x ∈ db.(messages) → Forall (λ ic, x ∉ due db now ic.2) cs →
  x ∈ (claims_db i cs db).(messages).
Proof.
  revert i db. induction cs as [|[cid c] cs IH]; intros i db Hs Hx Hnot; [done|].
  destruct (servable_step _ _ _ _ _ Hs) as [Hs1 Hother]. apply Forall_cons in Hnot as [Hn Hnot].
  cbn [claims_db]. apply IH; [done| |].
  - pose proof (elem_of_claim_db (gen i) cid c db x) as He. rewrite decide_False in He by done.
    apply He; [|done]. eapply stmt_inv_core, Hs.
  - rewrite Forall_forall in *. intros ic Hic. rewrite Hother by done. auto.
Qed.

(** A message that a served consumer is due belongs to its batch. *)
Lemma claims_db_claimed i cs db k cid c m :
  servable i cs db → cs !! k = Some (cid, c) → m ∈ due db now c →
  claim_row (gen (i + k)) cid c.(consumer_generation) m ∈ (claims_db i cs db).(messages).
Proof.
  revert i db k. induction cs as [|[cid' c'] cs IH]; intros i db k Hs Hk Hm; [done|].
  destruct (servable_step _ _ _ _ _ Hs) as [Hs1 Hother]. cbn [claims_db].
  assert (Hcore := stmt_inv_core _ _ (sv_inv _ _ _ Hs)).
  destruct k as [|k]; cbn in Hk.
  - injection Hk as -> ->. rewrite Nat.add_0_r. apply claims_db_other; [done| |].
    + pose proof (elem_of_claim_db (gen i) cid c db m) as He. rewrite decide_True in He by done.
      apply He; [done|]. by apply elem_of_due in Hm as [? _].
    + apply Forall_forall. intros ic _ (_ & _ & Hst & _)%elem_of_due. done.
  - rewrite Nat.add_succ_r. apply (IH (S i)); [done|done|].
    rewrite Forall_forall in Hother. assert (Hd := Hother (cid, c) (list_elem_of_lookup_2 _ _ _ Hk)).
    cbn in Hd. by rewrite Hd.
Qed.

(** The batch of the [k]-th served consumer. *)
Lemma claims_db_batch i cs db k cid c :
  servable i cs db → cs !! k = Some (cid, c) →
  (claims_db i cs db).(batches) !! gen (i + k) = Some (new_batch now cid c (length (due db now c))).
Proof.
  assert (Hkeep : ∀ cs i db b, (∀ j, (i ≤ j)%nat → b ≠ gen j) →
    (claims_db i cs db).(batches) !! b = db.(batches) !! b).
  { clear. induction cs as [|[cid c] cs IH]; intros i db b Hb; [done|]. cbn [claims_db].
    rewrite IH by (intros; apply Hb; lia). cbn. rewrite lookup_insert_ne; [done|].
    intros Heq. by apply (Hb i (le_n i)). }
  revert i db k. induction cs as [|[cid' c'] cs IH]; intros i db k Hs Hk; [done|].
  destruct (servable_step _ _ _ _ _ Hs) as [Hs1 Hother]. cbn [claims_db].
  destruct k as [|k]; cbn in Hk.
  - injection Hk as -> ->. rewrite Nat.add_0_r, Hkeep.
    + cbn. by rewrite lookup_insert_eq.
    + intros j Hj ?%gen_inj. lia.
  - rewrite Nat.add_succ_r. change (S (i + k)) with (S i + k)%nat.
    rewrite (IH (S i) _ k Hs1 Hk). rewrite Forall_forall in Hother.
    assert (Hd := Hother (cid, c) (list_elem_of_lookup_2 _ _ _ Hk)). cbn in Hd. by rewrite Hd.
Qed.

(** The tables differ from those before exactly in the claimed rows and the new batches. *)
Lemma claim_db_messages batch id c db :
  queue_core db →
  (claim_db now batch id c db).(messages) =
    (λ x, if decide (x ∈ due db now c) then claim_row batch id c.(consumer_generation) x else x) <$> db.(messages).
Proof.
  intros Hc. cbn. unfold sql_update. apply list_fmap_ext. intros k x Hx%list_elem_of_lookup_2.
  assert (Hiff : among (due db now c) x ↔ x ∈ due db now c) by by apply among_due.
  destruct (decide (x ∈ due db now c)), (decide (among (due db now c) x)); tauto.
Qed.

Lemma assign_claimed db i cs m : m.(msg_state) ≠ MReady → assign gen now db i cs m = m.
Proof.
  intros Hm. revert i. induction cs as [|[id c] cs IH]; intros i; cbn; [done|].
  rewrite decide_False; [apply IH|]. by intros (_ & _ & ? & _)%elem_of_due.
Qed.

Lemma assign_ext db db' i cs m :
  Forall (λ ic, due db' now ic.2 = due db now ic.2) cs → assign gen now db' i cs m = assign gen now db i cs m.
Proof.
  intros Hcs. revert i. induction Hcs as [|[id c] cs Hc _ IH]; intros i; cbn; [done|]. cbn in Hc. by rewrite Hc, IH.
Qed.
Lemma claimed_batches_ext db db' i cs :
  Forall (λ ic, due db' now ic.2 = due db now ic.2) cs → claimed_batches gen now db' i cs = claimed_batches gen now db i cs.
Proof.
  intros Hcs. revert i. induction Hcs as [|[id c] cs Hc _ IH]; intros i; cbn; [done|]. cbn in Hc. by rewrite Hc, IH.
Qed.
Lemma claimed_batches_before db i j cs : (j < i)%nat → claimed_batches gen now db i cs !! gen j = None.
Proof.
  revert i. induction cs as [|[id c] cs IH]; intros i Hj; cbn; [done|].
  rewrite lookup_insert_ne by (intros ?%gen_inj; lia). apply IH. lia.
Qed.

Lemma claims_db_exact i cs db :
  servable i cs db →
  claims_db i cs db =
    set_batches (claimed_batches gen now db i cs ∪ db.(batches)) (set_messages (assign gen now db i cs <$> db.(messages)) db).
Proof.
  revert i db. induction cs as [|[cid c] cs IH]; intros i db Hs; cbn [claims_db].
  { cbn. rewrite list_fmap_id, (left_id_L ∅ (∪)). by destruct db. }
  destruct (servable_step _ _ _ _ _ Hs) as [Hs1 Hother]. rewrite (IH _ _ Hs1).
  assert (Hcore := stmt_inv_core _ _ (sv_inv _ _ _ Hs)).
  rewrite (claimed_batches_ext db) by done. rewrite claim_db_messages by done.
  unfold set_batches, set_messages, claim_db, claim_rows. cbn. f_equal.
  - rewrite <-list_fmap_compose. apply list_fmap_ext. intros k x Hx. cbn. rewrite (assign_ext db) by done.
    case_decide; [by apply assign_claimed|done].
  - by rewrite <-insert_union_l, insert_union_r by (apply claimed_batches_before; lia).
Qed.

(** Each served consumer has one more batch in flight. *)
Lemma claims_db_in_flight i cs db q :
  servable i cs db →
  in_flight (claims_db i cs db) q =
    in_flight db q + affected (λ ic : N * Consumer, ic.2.(consumer_queue) = q) cs.
Proof.
  revert i db. induction cs as [|[cid c] cs IH]; intros i db Hs; cbn [claims_db].
  { rewrite affected_nil. lia. }
  destruct (servable_step _ _ _ _ _ Hs) as [Hs1 Hother]. rewrite (IH (S i)), affected_cons by done.
  assert (in_flight (claim_db now (gen i) cid c db) q =
    in_flight db q + (if decide (consumer_queue c = q) then 1 else 0)) as ->; [|cbn; lia].
  unfold in_flight. cbn [claim_db claim_rows set_messages set_batches batches].
  rewrite (affected_Permutation _ _ _ (map_to_list_insert _ _ _ (sv_fresh _ _ _ Hs i (le_n i)))).
  rewrite affected_cons. cbn [new_batch batch_queue snd]. lia.
Qed.
End claims.

(** The consumers that a claim serves can be served. *)
Lemma served_servable gen now limit after db :
  queue_wf db → (∀ i, db.(batches) !! gen i = None) → messages_convert db.(messages) →
  servable gen now 0 (served db now limit after) db.
Proof.
  intros Hwf Hfresh Hatt. assert (Hdb := proj1 (queue_wf_stmt _) Hwf). split; [done| | |done|done].
  - apply Forall_forall. intros [id c] [Hc He]%elem_of_served. split; [done|]. split; [apply He|].
    apply eligible_due; [|done]. eapply (wf_consumers _ Hwf), Hc.
  - by apply served_queues_NoDup, Hwf.
Qed.

Lemma claim_queue_batches_run instance_id gen now limit after db :
  queue_wf db → 1 ≤ limit → (∀ i j, gen i = gen j → i = j) →
  (∀ i, db.(batches) !! gen i = None) → messages_convert db.(messages) →
  claim_queue_batches instance_id gen now limit after db =
    (claims_db gen now 0 (served db now limit after) db,
     Ok (imap (λ k ic, claimed_batch instance_id (gen k) ic.1 ic.2 (due db now ic.2))
           (served db now limit after))).
Proof.
  intros Hwf Hlimit Hinj Hfresh Hatt. set (cs := served db now limit after).
  assert (Hs := served_servable gen now limit after db Hwf Hfresh Hatt). fold cs in Hs.
  unfold claim_queue_batches. run_simpl. rewrite decide_False by lia.
  unfold eligible_consumers_tx. run_simpl. cbn [id]. fold (served db now limit after). fold cs.
  rewrite decide_False.
  - by rewrite (claim_loop_ok instance_id gen Hinj now 0 cs db Hs).
  - intros Hno. apply Hno, Forall_forall. intros [id c] [Hc _]%elem_of_served.
    apply consumer_ok_converts. eapply (wf_consumers _ Hwf), Hc.
Qed.

(** C2. [claim_queue_batches] on well-formed tables, with fresh batch ids, always
    succeeds.  It serves the first eligible consumers in cursor order, as many as the
    limit allows; each gets one batch that holds exactly its oldest due messages, up
    to its batch size, and counts as one more batch in flight, still within its
    concurrency.  The tables after the claim are the tables before it with exactly these
    messages marked as claimed, in place, and exactly these batches added: every other
    row of every table is what it was. *)
Theorem claim_queue_batches_exact instance_id gen now limit after db :
  queue_wf db → 1 ≤ limit → (∀ i j, gen i = gen j → i = j) →
  (∀ i, db.(batches) !! gen i = None) → messages_convert db.(messages) →
  let cs := served db now limit after in
  let db' := set_batches (claimed_batches gen now db 0 cs ∪ db.(batches))
               (set_messages (assign gen now db 0 cs <$> db.(messages)) db) in
  claim_queue_batches instance_id gen now limit after db =
    (db', Ok (imap (λ k ic, claimed_batch instance_id (gen k) ic.1 ic.2 (due db now ic.2)) cs)) ∧
  ∀ k id c, cs !! k = Some (id, c) →
    due db now c ≠ [] ∧
    db'.(batches) !! gen k = Some (new_batch now id c (length (due db now c))) ∧
    in_flight db' c.(consumer_queue) = in_flight db c.(consumer_queue) + 1 ∧
    in_flight db' c.(consumer_queue) ≤ c.(max_concurrency) ∧
    ∀ m, m ∈ due db now c → claim_row (gen k) id c.(consumer_generation) m ∈ db'.(messages).
Proof.
  intros Hwf Hlimit Hinj Hfresh Hatt cs db'.
  assert (Hs := served_servable gen now limit after db Hwf Hfresh Hatt). fold cs in Hs.
  assert (Edb : claims_db gen now 0 cs db = db') by by apply claims_db_exact. clearbody db'. subst db'. split.
  { by apply claim_queue_batches_run. }
  intros k id c Hk. destruct (elem_of_served db now limit after id c) as [Hc He].
  { by eapply list_elem_of_lookup_2. }
  assert (Hflight : in_flight (claims_db gen now 0 cs db) c.(consumer_queue) =
            in_flight db c.(consumer_queue) + 1).
  { rewrite (claims_db_in_flight gen Hinj now 0 cs db) by done. f_equal.
    apply (affected_unique _ (λ ic : N * Consumer, ic.2.(consumer_queue)) _ (id, c)); [apply Hs| |done|done].
    by eapply list_elem_of_lookup_2. }
  split_and!.
  - apply eligible_due; [|done]. eapply (wf_consumers _ Hwf), Hc.
  - by apply (claims_db_batch gen Hinj now 0 cs db k).
  - exact Hflight.
  - rewrite Hflight. destruct He as (_ & _ & Hf & _). lia.
  - intros m Hm. by apply (claims_db_claimed gen Hinj now 0 cs db k).
Qed.

Lemma claim_queue_batches_exact_witness :
  ∃ db', claim_queue_batches 7 ex_batch_gen 1000 5 None ex_db =
    (db', Ok [claimed_batch 7 200 50 ex_consumer (take 2 ex_db.(messages))]).
Proof.
  destruct (claim_queue_batches_exact 7 ex_batch_gen 1000 5 None ex_db) as [Hrun _].
  - apply ex_db_wf.
  - done.
  - apply ex_batch_gen_inj.
  - intros i. vm_compute. done.
  - apply (bool_decide_unpack (messages_convert ex_db.(messages))). vm_compute. done.
  - eexists. rewrite Hrun. by f_equal.
Defined.
