(* ===== verification/QueueComplete.v ===== *)
(** * What a completion does

    [complete_queue_batch] settles every message of a live batch by its decision:
    acknowledged and discarded messages go, retried messages are ready again after
    their delay, exhausted messages move to the dead-letter queue or wait for it. *)

From stdpp Require Import base numbers list option strings sorting gmap.
From S2P Require Import Prelude ErrorCodes Sql QueueDb QueueInv QueueStore.
From S2P Require Import QueueEnqueue QueueConsumer QueueStmt QueueWf QueueDelivery QueueReach QueueClaim.

Local Open Scope Z_scope.

(** ** Batches in flight *)

(** The tables hold a claimed batch as it was handed out. *)
Definition holds (db : QueueDb) (b : ClaimedQueueBatch) : Prop :=
  ∃ r, db.(batches) !! b.(b_id) = Some r ∧ r.(batch_queue) = b.(b_queue) ∧
    r.(batch_consumer) = b.(b_consumer) ∧ r.(batch_generation) = b.(b_generation) ∧
    1 ≤ b.(b_generation) ≤ i64_max ∧
    (msg_id <$> rows_of b.(b_id) db) ≡ₚ (cm_id <$> b.(b_messages)).

(** The rows of a held batch carry its claim columns. *)
Lemma holds_state db b m :
  queue_core db → holds db b → m ∈ db.(messages) →
  claimed_in b.(b_id) m ↔ m.(msg_state) = held_by b b.(b_generation).
Proof.
  intros Hc (r & Hr & _ & Hcon & Hgen & _ & _) Hm. unfold claimed_in, claim_batch_id, held_by.
  pose proof (core_claim _ Hc) as Ha. rewrite Forall_forall in Ha. specialize (Ha m Hm).
  unfold claim_ok in Ha. destruct (msg_state m) as [|b' c g]; [done|]. split; [|by intros [= -> _ _]].
  intros [= ->]. destruct Ha as (r' & Hr' & _ & <- & <-). congruence.
Qed.

Lemma holds_rows db b :
  queue_core db → holds db b →
  sql_where (λ m, m.(msg_state) = held_by b b.(b_generation)) db.(messages) = rows_of b.(b_id) db.
Proof.
  intros Hc Hh. unfold rows_of. apply sql_where_ext. intros m Hm.
  symmetry. by apply (holds_state db).
Qed.

(** Where the rows come from after the batches of [cs] have been claimed. *)
Lemma claims_db_origin gen (gen_inj : ∀ i j, gen i = gen j → i = j) now i cs db x :
  servable gen now i cs db → x ∈ (claims_db gen now i cs db).(messages) →
  x ∈ db.(messages) ∨
  ∃ k cid c m, cs !! k = Some (cid, c) ∧ m ∈ due db now c ∧
    x = claim_row (gen (i + k)%nat) cid c.(consumer_generation) m.
Proof.
  revert i db. induction cs as [|[cid c] cs IH]; intros i db Hs Hx; [by left|].
  destruct (servable_step gen gen_inj _ _ _ _ _ _ Hs) as [Hs1 Hother]. cbn [claims_db] in Hx.
  destruct (IH (S i) _ Hs1 Hx) as [Hx1|(k & cid' & c' & m & Hk & Hm & ->)].
  - cbn in Hx1. apply elem_of_sql_update in Hx1 as (y & Hy & ->).
    destruct (decide (among (due db now c) y)) as [Ha|]; [|by left]. right.
    apply list_elem_of_fmap in Ha as (m & Hseq & Hm). exists 0%nat, cid, c, m.
    rewrite Nat.add_0_r. split_and!; [done|done|]. f_equal.
    apply (message_seq_unique db); [by eapply stmt_inv_core, Hs|done| |done].
    by apply elem_of_due in Hm as [? _].
  - right. exists (S k), cid', c', m. rewrite Nat.add_succ_r. split_and!; [done| |done].
    rewrite Forall_forall in Hother. assert (Hd := Hother (cid', c') (list_elem_of_lookup_2 _ _ _ Hk)).
    cbn in Hd. by rewrite <-Hd.
Qed.

Lemma due_ids_NoDup db now c : queue_core db → NoDup (msg_id <$> due db now c).
Proof.
  intros Hc. unfold due. rewrite <-firstn_map. eapply sublist_NoDup; [|apply sublist_take].
  unfold deliverables. rewrite order_by_Permutation.
  eapply sublist_NoDup; [apply Hc|]. apply fmap_sublist, sublist_filter.
Qed.

Lemma rows_ids_NoDup db b : queue_core db → NoDup (msg_id <$> rows_of b db).
Proof. intros Hc. eapply sublist_NoDup; [apply Hc|]. apply fmap_sublist, sublist_filter. Qed.

(** A batch that a claim hands out is held. *)
Lemma claims_db_holds instance_id gen (gen_inj : ∀ i j, gen i = gen j → i = j) now cs db k cid c :
  servable gen now 0 cs db → queue_core (claims_db gen now 0 cs db) → cs !! k = Some (cid, c) →
  holds (claims_db gen now 0 cs db) (claimed_batch instance_id (gen k) cid c (due db now c)).
Proof.
  intros Hs Hc' Hk. assert (Hc := stmt_inv_core _ _ (sv_inv _ _ _ _ _ Hs)).
  exists (new_batch now cid c (length (due db now c))).
  split; [by apply (claims_db_batch gen gen_inj now 0 cs db k)|].
  split; [done|]. split; [done|]. split; [done|]. split.
  { destruct (tab_consumers _ (proj1 (sv_inv _ _ _ _ _ Hs))) as [Hok _].
    pose proof (sv_rows _ _ _ _ _ Hs) as Hrows. rewrite Forall_forall in Hrows.
    destruct (Hrows (cid, c)) as [Hrow _]; [by eapply list_elem_of_lookup_2|]. by apply (Hok cid). }
  cbn. rewrite <-list_fmap_compose. cbn.
  apply NoDup_Permutation; [by apply rows_ids_NoDup|by apply due_ids_NoDup|]. intros i.
  rewrite !list_elem_of_fmap. split.
  - intros (x & -> & [Hcl Hx]%list_elem_of_filter).
    destruct (claims_db_origin gen gen_inj now 0 cs db x Hs Hx) as [Hx0|(k' & cid' & c' & m & Hk' & Hm & ->)].
    + exfalso. assert (He := fresh_batch_empty db (gen k) Hc (sv_fresh _ _ _ _ _ Hs k (Nat.le_0_l k))).
      by apply (proj1 (affected_0 _ _) He x).
    + injection Hcl as ->%gen_inj. rewrite Hk in Hk'. injection Hk' as -> ->. by exists m.
  - intros (m & -> & Hm). exists (claim_row (gen k) cid c.(consumer_generation) m). split; [done|].
    apply list_elem_of_filter. split; [done|]. by apply (claims_db_claimed gen gen_inj now 0 cs db k).
Qed.

(** A held batch stays held as it is under every call that does not settle it. *)
Lemma holds_call instance_id sha256 id_text c db b :
  queue_wf db → holds db b → call_ok c db → ¬ settles_batch b.(b_id) c →
  holds (run_call instance_id sha256 id_text c db) b.
Proof.
  intros Hwf (r & Hr & Hq & Hcon & Hgen & Hbound & Hperm) Hok Hns.
  assert (Hinv : stmt_inv (tracking b.(b_id) (r, rows_of b.(b_id) db)) db).
  { by apply tracking_stmt. }
  eapply (run_call_stmt instance_id sha256 id_text) in Hinv; [|done| |done].
  - apply tracking_stmt in Hinv as (_ & Hr' & Hrows). exists r. by rewrite Hr', Hrows.
  - intros b' Hb'. cbn. rewrite decide_False; [done|]. by intros ->.
Qed.

(** One call that does not settle the batch [b]. *)
Definition call_besides instance_id sha256 id_text (b : N) (db db' : QueueDb) : Prop :=
  ∃ c, call_ok c db ∧ ¬ settles_batch b c ∧ db' = run_call instance_id sha256 id_text c db.

(** A claimed batch is exclusive.  From the claim that hands it out until it is
    completed or the process restarts, any sequence of calls, including claims,
    completions of other batches, sweeps, purges and promotions, leaves its row and
    exactly its messages claimed under it. *)
Theorem claimed_batch_exclusive instance_id sha256 id_text gen now limit after db db1 db2 bs b :
  queue_wf db → 1 ≤ limit → (∀ i j, gen i = gen j → i = j) →
  (∀ i, db.(batches) !! gen i = None) → messages_convert db.(messages) →
  claim_queue_batches instance_id gen now limit after db = (db1, Ok bs) → b ∈ bs →
  rtc (call_besides instance_id sha256 id_text b.(b_id)) db1 db2 → holds db2 b.
Proof.
  intros Hwf Hlimit Hinj Hfresh Hatt Hrun Hb Hcalls.
  assert (Hwf1 : queue_wf db1).
  { apply queue_wf_stmt. replace db1 with (claim_queue_batches instance_id gen now limit after db).1
      by by rewrite Hrun. apply keeps_claim; [done|]. by apply queue_wf_stmt. }
  assert (Hh : holds db1 b).
  { rewrite claim_queue_batches_run in Hrun by done. injection Hrun as <- <-.
    apply elem_of_lookup_imap in Hb as (k & [cid c] & -> & Hk).
    apply claims_db_holds; [done|by apply served_servable|apply Hwf1|done]. }
  revert Hwf1 Hh. clear -Hcalls.
  induction Hcalls as [|db1 db2 db3 (c & Hok & Hns & ->) _ IH]; intros Hwf Hh; [done|].
  apply IH; [|by apply holds_call]. apply queue_wf_stmt, run_call_stmt; try done. by apply queue_wf_stmt.
Qed.

Definition ex_claim : QueueDb * result PlatformError (list ClaimedQueueBatch) :=
  claim_queue_batches 7 ex_batch_gen 1000 5 None ex_db.
Definition ex_batch : ClaimedQueueBatch := claimed_batch 7 200 50 ex_consumer (take 2 ex_db.(messages)).
Definition ex_swept : QueueDb := (sweep_queue_retention 70000 10 1000 ex_claim.1).1.

Lemma claimed_batch_exclusive_witness : holds ex_swept ex_batch.
Proof.
  apply (claimed_batch_exclusive 7 ex_sha256 ex_id_text ex_batch_gen 1000 5 None ex_db ex_claim.1
           ex_swept [ex_batch] ex_batch).
  - apply ex_db_wf.
  - done.
  - apply ex_batch_gen_inj.
  - intros i. vm_compute. done.
  - apply (bool_decide_unpack (messages_convert ex_db.(messages))). vm_compute. done.
  - vm_compute. done.
  - left.
  - apply rtc_once. exists (CallSweep 70000 10 1000). split_and!; [done|intros []|done].
Defined.

(** ** The settlement of one message *)

Definition static_columns (r : QueueRow) : Z * Z * SchedulerQueueState * QueueConfig :=
  (r.(lifecycle_generation), r.(config_generation), r.(q_state), r.(config)).

(** What the settlement of [m] leaves alone. *)
Record frame (m : Message) (db db' : QueueDb) : Prop := {
  fr_rows : ∀ x, x ∈ db.(messages) → x.(seq) ≠ m.(seq) → x ∈ db'.(messages);
  fr_ids : ∀ x, x ∈ db'.(messages) → x ∈ db.(messages) ∨ x.(msg_id) = m.(msg_id);
  fr_pending : ∀ i, i ≠ m.(msg_id) → db'.(dlq_pending) !! i = db.(dlq_pending) !! i;
  fr_batches : db'.(batches) = db.(batches);
  fr_operations : db'.(operations) = db.(operations);
  fr_consumers : db'.(consumers) = db.(consumers);
  fr_queues : ∀ q, static_columns <$> db'.(queues) !! q = static_columns <$> db.(queues) !! q;
}.

Definition gone (db : QueueDb) (m : Message) : Prop := m.(msg_id) ∉ msg_id <$> db.(messages).

(** The attempt that a delivery of [m] counts as. *)
Definition next_attempt (m : Message) : Z := u16_saturate (m.(attempts) + 1).

(** The dead letter of [m] in the queue [q]. *)
Definition dead_letter (now : Z) (q : N) (m x : Message) : Prop :=
  x.(msg_id) = m.(msg_id) ∧ x.(msg_queue) = q ∧ x.(body) = m.(body) ∧ x.(content_type) = m.(content_type) ∧
  x.(msg_state) = MReady ∧ x.(attempts) = 0 ∧ x.(enqueued_at_ms) = now ∧ x.(available_at_ms) = now.

(** How the decision on [m] was carried out, in the tables [db]. *)
Inductive settled (b : ClaimedQueueBatch) (ds : gmap N QueueCompletionAction) (now : Z) (db : QueueDb)
    (m : Message) : Outcome → Prop :=
| settled_ack : ds !! m.(msg_id) = Some Ack → gone db m → settled b ds now db m Acknowledged
| settled_expired d :
    ds !! m.(msg_id) = Some (Retry d) → m.(msg_expires_at_ms) ≤ now → gone db m →
    settled b ds now db m Discarded
| settled_retry d :
    ds !! m.(msg_id) = Some (Retry d) → now < m.(msg_expires_at_ms) →
    next_attempt m ≤ b.(b_max_retries) →
    move_message MReady (next_attempt m) (now + d * 1000) m ∈ db.(messages) →
    settled b ds now db m Retried
| settled_dead_letter d q g x :
    ds !! m.(msg_id) = Some (Retry d) → now < m.(msg_expires_at_ms) →
    b.(b_max_retries) < next_attempt m → b.(b_dead_letter_queue) = Some (q, g) →
    x ∈ db.(messages) → dead_letter now q m x → settled b ds now db m DeadLettered
| settled_pending d q g p :
    ds !! m.(msg_id) = Some (Retry d) → now < m.(msg_expires_at_ms) →
    b.(b_max_retries) < next_attempt m → b.(b_dead_letter_queue) = Some (q, g) →
    move_message MReady (next_attempt m) now m ∈ db.(messages) →
    db.(dlq_pending) !! m.(msg_id) = Some p → p.(target_queue) = q → p.(target_generation) = g →
    p.(next_attempt_at_ms) = now + 1000 → settled b ds now db m DlqPending
| settled_discard d :
    ds !! m.(msg_id) = Some (Retry d) → now < m.(msg_expires_at_ms) →
    b.(b_max_retries) < next_attempt m → b.(b_dead_letter_queue) = None → gone db m →
    settled b ds now db m Discarded.

Section settle.
Context (b : ClaimedQueueBatch) (now : Z).
Context (Hgen : in_i64 b.(b_generation)).
Notation X := (except all_exact b.(b_id)).
Notation held m := (m.(msg_state) = held_by b b.(b_generation)).

Lemma consumer_i64_ok z db : in_i64 z → consumer_i64 z db = (db, Ok z).
Proof. intros Hz. unfold consumer_i64. run_simpl. by rewrite i64_checked_in. Qed.

(** Deleting a held message. *)
Lemma delete_claimed_ok db m :
  stmt_inv X db → m ∈ db.(messages) → held m →
  ∃ db', delete_claimed_message_tx m b db = (db', Ok ()) ∧ stmt_inv X db' ∧ frame m db db' ∧
    gone db' m ∧ db'.(next_seq) = db.(next_seq) ∧
    ∀ q r, db.(queues) !! q = Some r → ∃ r', db'.(queues) !! q = Some r' ∧
      static_columns r' = static_columns r ∧ r'.(message_bytes) ≤ r.(message_bytes).
Proof.
  intros Hdb Hm Hheld. assert (Hc := stmt_inv_core _ _ Hdb).
  set (hit := λ x, x.(seq) = m.(seq) ∧ held x).
  assert (Haff : affected hit db.(messages) = 1) by by apply affected_seq.
  destruct (delete_messages_ok db hit Hc) as (qs & Hdel & Hc' & Hqs).
  set (db' := set_queues qs (set_messages (sql_delete hit db.(messages)) db)) in *.
  assert (Hrun : delete_claimed_message_tx m b db = (db', Ok ())).
  { unfold delete_claimed_message_tx. apply bind_run. exists db, b.(b_generation).
    split; [by apply consumer_i64_ok|]. run_simpl. unfold execute. fold hit. rewrite Hdel.
    rewrite decide_False; [done|]. intros Hno. by apply Hno. }
  exists db'. split_and!; [done|by eapply delete_claimed_inv; [|done..]; intros [_ []]| | |done|].
  - split; [| |done..|exact Hqs].
    + intros x Hx Hne. apply elem_of_sql_delete. split; [done|]. by intros [? _].
    + intros x [Hx _]%elem_of_sql_delete. by left.
  - intros (x & Hid & [Hx Hno]%elem_of_sql_delete)%list_elem_of_fmap. apply Hno.
    rewrite (message_id_unique db x m) by done. done.
  - intros q r Hr. specialize (Hqs q). rewrite Hr in Hqs. destruct (qs !! q) as [r'|] eqn:Hr'; [|done].
    exists r'. injection Hqs as H1 H2 H3 H4. split; [done|]. split; [unfold static_columns; congruence|].
    destruct (core_counters _ Hc q r Hr) as [_ ->]. destruct (core_counters _ Hc' q r' Hr') as [_ ->].
    change (bytes_of q (sql_delete hit db.(messages)) ≤ bytes_of q db.(messages)).
    rewrite <-bytes_of_split. pose proof (bytes_of_nonneg q (sql_where hit db.(messages))). lia.
Qed.

(** Releasing a held message, if the tables let it. *)
Lemma retry_message_post db m att delay db' u :
  stmt_inv X db → m ∈ db.(messages) → held m → retry_message_tx m b att now delay db = (db', Ok u) →
  stmt_inv X db' ∧ frame m db db' ∧ move_message MReady att (now + delay * 1000) m ∈ db'.(messages) ∧
  db'.(next_seq) = db.(next_seq) ∧ db'.(queues) = db.(queues) ∧ db'.(dlq_pending) = db.(dlq_pending).
Proof.
  intros Hdb Hm Hheld Hrun. assert (Hc := stmt_inv_core _ _ Hdb).
  split; [by eapply retry_message_inv; [|done..]; intros [_ []]|].
  unfold retry_message_tx in Hrun. consumer_run.
  match goal with Hx : i64_checked _ = Some _ |- _ => apply i64_checked_Some in Hx as [-> _] end.
  match goal with Hx : update_messages _ _ _ = _ |- _ => unfold update_messages in Hx; destruct_result; injection Hx as <- end.
  set (hit := λ x, x.(seq) = m.(seq) ∧ held x).
  assert (Hhit : ∀ x, x ∈ db.(messages) → hit x → x = m).
  { intros x Hx [Hs _]. by eapply message_seq_unique. }
  split_and!; try done.
  - split; try done.
    + intros x Hx Hne. apply elem_of_sql_update. exists x. split; [done|].
      rewrite decide_False; [done|]. by intros [? _].
    + intros x (y & Hy & ->)%elem_of_sql_update. destruct (decide (hit y)) as [Hh|]; [|by left].
      right. cbn. by rewrite (Hhit y Hy Hh).
  - apply elem_of_sql_update. exists m. split; [done|]. by rewrite decide_True.
Qed.

Lemma retry_message_ok db m att delay :
  stmt_inv X db → m ∈ db.(messages) → held m → in_i64 (now + delay * 1000) →
  m.(attempts) ≤ att ≤ m.(attempts) + 1 → m.(enqueued_at_ms) ≤ now + delay * 1000 →
  ∃ db', retry_message_tx m b att now delay db = (db', Ok ()).
Proof.
  intros Hdb Hm Hheld Hrange Hatt Hav. assert (Hc := stmt_inv_core _ _ Hdb).
  set (hit := λ x, x.(seq) = m.(seq) ∧ held x).
  assert (Haff : affected hit db.(messages) = 1) by by apply affected_seq.
  destruct (update_messages_ok db hit (move_message MReady att (now + delay * 1000)) Hc) as [Hup _].
  { intros x. by eexists _, _, _. }
  { intros x Hx [Hs _]. rewrite (message_seq_unique db x m) by done. split; [|done]. cbn. rewrite Hheld. split; [done|].
    eapply claim_ok_authorises; [|done]. pose proof (core_claim _ Hc) as Ha. rewrite Forall_forall in Ha.
    by apply Ha. }
  eexists. unfold retry_message_tx. apply bind_run. exists db, (now + delay * 1000).
  split; [run_simpl; by rewrite i64_checked_in|]. apply bind_run. exists db, b.(b_generation).
  split; [by apply consumer_i64_ok|]. run_simpl. unfold execute. fold hit. rewrite Hup.
  rewrite decide_False; [done|]. intros Hno. by apply Hno.
Qed.

(** The dead-letter queue of the batch, when it has one: its row has the frozen
    generation and takes messages of the size of [m]. *)
Definition dlq_ready (db : QueueDb) (m : Message) : Prop :=
  ∀ q g, b.(b_dead_letter_queue) = Some (q, g) →
    1 ≤ g ≤ i64_max ∧ q ≠ b.(b_queue) ∧
    ∃ r, db.(queues) !! q = Some r ∧ r.(lifecycle_generation) = g ∧
      body_bytes m ≤ r.(config).(max_message_bytes).

Lemma frame_trans m db1 db2 db3 : frame m db1 db2 → frame m db2 db3 → frame m db1 db3.
Proof.
  intros [A1 A2 A3 A4 A5 A6 A7] [B1 B2 B3 B4 B5 B6 B7]. split; [| | |congruence..|by intros q; rewrite B7].
  - auto.
  - intros x Hx. destruct (B2 x Hx) as [?|?]; auto.
  - intros i Hi. by rewrite B3, A3.
Qed.

Lemma insert_dlq_post db m q g db' u :
  stmt_inv X db → insert_dlq_message_tx m (q, g) now db = (db', Ok u) →
  stmt_inv X db' ∧ frame m db db' ∧ db'.(next_seq) = db.(next_seq) + 1 ∧
  ∃ x, x ∈ db'.(messages) ∧ dead_letter now q m x.
Proof.
  intros Hdb Hrun. split; [by eapply insert_dlq_inv|].
  unfold insert_dlq_message_tx in Hrun. consumer_run.
  apply insert_message_inv in Hrun as (r & Hq & _ & _ & _ & _ & _ & _ & _ & _ & _ & _ & ->). cbn [fst] in Hq.
  split_and!; [|done|].
  - split; try done; cbn.
    + intros y Hy _. apply elem_of_app. by left.
    + intros y [Hy| ->%list_elem_of_singleton]%elem_of_app; [by left|by right].
    + intros q'. destruct (decide (q = q')) as [<-|Hne]; [by rewrite lookup_insert_eq, Hq|by rewrite lookup_insert_ne].
  - eexists. split; [apply elem_of_app; right; by apply list_elem_of_singleton|]. done.
Qed.

(** Inserting the dead letter of a message that is gone. *)
Lemma insert_dlq_ok db m q g r :
  stmt_inv X db → gone db m → db.(next_seq) ≤ i64_max → 1 ≤ g ≤ i64_max →
  db.(queues) !! q = Some r → r.(lifecycle_generation) = g → r.(q_state) = Accepting →
  body_bytes m ≤ r.(config).(max_message_bytes) →
  r.(message_bytes) + body_bytes m ≤ r.(config).(max_backlog_bytes) →
  i64_min ≤ now → now + 1209600000 ≤ i64_max →
  ∃ db', insert_dlq_message_tx m (q, g) now db = (db', Ok ()).
Proof.
  intros Hdb Hgone Hseq Hg Hq Hl Hst Hmax Hback Hlo Hhi.
  destruct (stmt_inv_row_ok _ _ _ _ Hdb Hq) as (_ & _ & (_ & Hret & _) & _).
  assert (∃ db', insert_message m.(msg_id) q g now now (now + r.(config).(retention_seconds) * 1000)
      m.(content_type) m.(body) db = Ok db') as [db' Hins].
  { eexists. unfold insert_message, bail_if. rewrite Hq. fold (body_bytes m).
    rewrite (decide_False (P := ¬ (_ ∧ _))); [|intros Hno; apply Hno; done].
    cbn [mbind result_bind]. rewrite decide_False; [done|]. intros [?|?]; [done|lia]. }
  exists db'. unfold insert_dlq_message_tx. apply bind_run. exists db, g.
  split; [apply consumer_i64_ok; unfold in_i64; cbn; lia|].
  run_simpl. cbn [fst]. rewrite Hq. rewrite decide_False by (intros [?|?]; done).
  rewrite !i64_checked_in by (unfold in_i64; lia). unfold execute. by rewrite Hins.
Qed.

(** Whether the dead-letter queue takes a message now. *)
Lemma dlq_accepts_ok db q g r len :
  1 ≤ g ≤ i64_max → 0 ≤ len ≤ i64_max → db.(queues) !! q = Some r → r.(lifecycle_generation) = g →
  ∃ a, dlq_accepts_tx (q, g) len db = (db, Ok a) ∧
    (a = true → r.(q_state) = Accepting ∧ r.(message_bytes) + len ≤ r.(config).(max_backlog_bytes)).
Proof.
  intros Hg Hlen Hq Hl. unfold dlq_accepts_tx. eexists. split.
  - apply bind_run. exists db, g. split; [apply consumer_i64_ok; unfold in_i64; cbn; lia|]. run_simpl. done.
  - intros Ha%bool_decide_eq_true. cbn [fst] in Ha. rewrite Hq in Ha. cbn in Ha.
    destruct Ha as (_ & Hst & Hsum). split; [done|].
    rewrite (i64_checked_in len) in Hsum by (unfold in_i64; lia). cbn in Hsum.
    destruct (i64_checked _) as [v|] eqn:E; [|done]. apply i64_checked_Some in E as [-> _]. done.
Qed.

(** *** What a successful settlement did *)

Lemma delete_claimed_post db m db' u :
  stmt_inv X db → m ∈ db.(messages) → held m → delete_claimed_message_tx m b db = (db', Ok u) →
  stmt_inv X db' ∧ frame m db db' ∧ gone db' m ∧ db'.(next_seq) = db.(next_seq).
Proof.
  intros Hdb Hm Hheld Hrun. destruct (delete_claimed_ok db m Hdb Hm Hheld) as (db1 & Hrun1 & ? & ? & ? & ? & _).
  rewrite Hrun1 in Hrun. by injection Hrun as <- _.
Qed.

Lemma move_to_dlq_post db m q g db' a :
  stmt_inv X db → m ∈ db.(messages) → held m → move_to_dlq_tx m b (q, g) now db = (db', Ok a) →
  if (a : bool) then stmt_inv X db' ∧ frame m db db' ∧ db'.(next_seq) = db.(next_seq) + 1 ∧
    ∃ x, x ∈ db'.(messages) ∧ dead_letter now q m x
  else db' = db.
Proof.
  intros Hdb Hm Hheld Hrun. unfold move_to_dlq_tx in Hrun. apply bind_run in Hrun as (db1 & a1 & Ha & Hrun).
  apply dlq_accepts_state in Ha as ->. case_decide; [|by apply ret_run in Hrun as [-> ->]].
  apply bind_run in Hrun as (db1 & u1 & H1 & Hrun). apply bind_run in Hrun as (db2 & u2 & H2 & Hrun).
  apply ret_run in Hrun as [-> ->]. destruct (delete_claimed_post _ _ _ _ Hdb Hm Hheld H1) as (Hdb1 & Hf1 & _ & E).
  destruct (insert_dlq_post _ _ _ _ _ _ Hdb1 H2) as (Hdb2 & Hf2 & E2 & Hx).
  split_and!; [done|by eapply frame_trans|congruence|done].
Qed.

Lemma pending_post db m q g at' next db' :
  stmt_inv X db → insert_pending m.(msg_id)
    (pending_row b.(b_queue) q g at' next now (Some "QUEUE_DLQ_BACKPRESSURED")) db = Ok db' →
  stmt_inv X db' ∧ frame m db db' ∧ db'.(messages) = db.(messages) ∧ db'.(next_seq) = db.(next_seq) ∧
  ∃ p, db'.(dlq_pending) !! m.(msg_id) = Some p ∧ p.(target_queue) = q ∧ p.(target_generation) = g ∧ p.(next_attempt_at_ms) = next.
Proof.
  intros Hdb Hins. split; [by eapply stmt_inv_insert_pending|]. apply insert_pending_inv in Hins as (-> & _ & Hno).
  split_and!; [|done|done|eexists; split; [by apply lookup_insert_eq|done]].
  split; [done|by left| |done..]. intros i Hi. cbn. by rewrite lookup_insert_ne.
Qed.

Lemma complete_message_post ds db m db' o :
  stmt_inv X db → m ∈ db.(messages) → held m → complete_message b ds now m db = (db', Ok o) →
  stmt_inv X db' ∧ frame m db db' ∧ settled b ds now db' m o ∧ db'.(next_seq) ≤ db.(next_seq) + 1.
Proof.
  intros Hdb Hm Hheld Hrun. unfold complete_message in Hrun. fold (next_attempt m) in Hrun.
  apply bind_run in Hrun as (db0 & a & Ha & Hrun). apply some_or_run in Ha as [-> Ha].
  assert (Hdel : ∀ o', (∀ d, gone d m → settled b ds now d m o') → (_ ← delete_claimed_message_tx m b; mret o') db = (db', Ok o) →
    stmt_inv X db' ∧ frame m db db' ∧ settled b ds now db' m o ∧ db'.(next_seq) ≤ db.(next_seq) + 1).
  { intros o' Hset Hr. apply bind_run in Hr as (db1 & u & H1 & Hr). apply ret_run in Hr as [-> ->].
    destruct (delete_claimed_post _ _ _ _ Hdb Hm Hheld H1) as (? & ? & ? & ?). split_and!; [done|done|auto|lia]. }
  destruct a as [|d]; [apply (Hdel Acknowledged); [by intros; constructor|done]|].
  case_decide as Hexp; [apply (Hdel Discarded); [by intros; eapply settled_expired|done]|].
  case_decide as Hmax.
  { apply bind_run in Hrun as (db1 & u & H1 & Hr). apply ret_run in Hr as [-> ->].
    destruct (retry_message_post _ _ _ _ _ _ Hdb Hm Hheld H1) as (? & ? & ? & ? & _).
    split_and!; [done|done|by eapply settled_retry; [|lia|..]|lia]. }
  destruct (b_dead_letter_queue b) as [[q g]|] eqn:Hdl;
    [|apply (Hdel Discarded); [intros; eapply settled_discard; (done || lia)|done]].
  apply bind_run in Hrun as (db1 & moved & H1 & Hrun). pose proof (move_to_dlq_post _ _ _ _ _ _ Hdb Hm Hheld H1) as Hmove.
  case_decide as Em; destruct moved; try done.
  { apply ret_run in Hrun as [-> ->]. destruct Hmove as (? & ? & ? & x & Hx & Hl).
    split_and!; [done|done|eapply settled_dead_letter; try done; lia|lia]. }
  subst db1. apply bind_run in Hrun as (db1 & u & H2 & Hrun).
  destruct (retry_message_post _ _ _ _ _ _ Hdb Hm Hheld H2) as (Hdb1 & Hf1 & Hrow & E & _).
  replace (now + 0 * 1000) with now in Hrow by lia. unfold add_ms in Hrun. consumer_run.
  repeat match goal with Hx : i64_checked _ = Some _ |- _ => apply i64_checked_Some in Hx as [-> _] end.
  match goal with Hx : insert_pending _ _ _ = _ |- _ =>
    apply pending_post in Hx as (Hdb2 & Hf2 & Em2 & E2 & p & Hp & Hq & Hg & Hn); [|done] end.
  split_and!; [done|by eapply frame_trans| |lia].
  apply (settled_pending _ _ _ _ _ d q g p); try done; [lia|lia|by rewrite Em2].
Qed.

(** *** What a settlement needs *)

(** What settling [m] needs. *)
Record settleable (db : QueueDb) (m : Message) : Prop := {
  st_inv : stmt_inv X db;
  st_in : m ∈ db.(messages);
  st_held : held m;
  st_queue : m.(msg_queue) = b.(b_queue);
  st_attempts : 0 ≤ m.(attempts) < u16_max;
  st_time : m.(enqueued_at_ms) ≤ now;
  st_size : body_bytes m ≤ i64_max;
  st_seq : db.(next_seq) ≤ i64_max;
  st_dlq : dlq_ready db m;
}.
Context (Hnow : i64_min ≤ now ∧ now + 1209600000 ≤ i64_max).

Lemma settleable_next db m : settleable db m → next_attempt m = m.(attempts) + 1.
Proof. intros [_ _ _ _ Hatt _ _ _ _]. unfold next_attempt, u16_saturate. lia. Qed.

(** Waiting for the dead-letter queue. *)
Lemma pending_ok db m q g db1 :
  settleable db m → b.(b_dead_letter_queue) = Some (q, g) →
  stmt_inv X db1 → frame m db db1 → move_message MReady (m.(attempts) + 1) now m ∈ db1.(messages) →
  db1.(queues) = db.(queues) → db1.(dlq_pending) = db.(dlq_pending) →
  let p := pending_row b.(b_queue) q g (m.(attempts) + 1) (now + 1000) now (Some "QUEUE_DLQ_BACKPRESSURED") in
  insert_pending m.(msg_id) p db1 = Ok (set_dlq_pending (<[m.(msg_id) := p]> db1.(dlq_pending)) db1).
Proof.
  intros [Hdb Hin Hheld Hqm Hatt Htime _ Hseq Hdlq] Hd Hdb1 Hfr Hrow Hqs Hps p.
  destruct (Hdlq q g Hd) as (Hg & Hne & r & Hr & Hl & _).
  assert (Hfree : db.(dlq_pending) !! m.(msg_id) = None).
  { pose proof (tab_free _ (proj1 Hdb)) as Hf. unfold claimed_free in Hf. rewrite Forall_forall in Hf.
    destruct (Hf m Hin) as [Hs|]; [|done]. by rewrite Hheld in Hs. }
  assert (Hauth : pending_authorised m.(msg_id) p db1).
  { split_and!; cbn.
    - apply Exists_exists. eexists. split; [exact Hrow|]. cbn. done.
    - by rewrite Hqs, Hr.
    - lia.
    - done.
    - rewrite Hqs. pose proof (core_fk _ (stmt_inv_core _ _ Hdb)) as Hf. rewrite Forall_forall in Hf.
      rewrite <-Hqm. by apply Hf. }
  unfold insert_pending, bail_if. rewrite (decide_False (P := ¬ pending_authorised _ _ _)) by tauto.
  cbn [mbind result_bind]. rewrite decide_False; [done|]. rewrite Hps, Hfree. by intros [].
Qed.

Lemma move_to_dlq_ok db m q g :
  settleable db m → b.(b_dead_letter_queue) = Some (q, g) →
  ∃ db' a, move_to_dlq_tx m b (q, g) now db = (db', Ok a).
Proof.
  intros [Hdb Hin Hheld Hqm Hatt Htime Hsize Hseq Hdlq] Hd.
  destruct (Hdlq q g Hd) as (Hg & Hne & r & Hr & Hl & Hmax).
  destruct (dlq_accepts_ok db q g r (body_bytes m)) as (a & Hacc & Ha); try done.
  { pose proof (body_bytes_nonneg m). lia. }
  unfold move_to_dlq_tx. destruct a; cycle 1.
  { exists db, false. apply bind_run. exists db, false. split; [done|]. by rewrite decide_False. }
  destruct (Ha eq_refl) as [Hst Hback].
  destruct (delete_claimed_ok db m Hdb Hin Hheld) as (db1 & Hrun1 & Hdb1 & Hfr1 & Hgone & Hseq1 & Hqs).
  destruct (Hqs q r Hr) as (r' & Hr' & Hcols & Hbytes). injection Hcols as E1 E2 E3 E4.
  destruct (insert_dlq_ok db1 m q g r') as (db2 & Hrun2); rewrite ?E1, ?E3, ?E4; try done; try lia.
  exists db2, true. apply bind_run. exists db, true. split; [done|]. rewrite decide_True by done.
  apply bind_run. exists db1, (). split; [done|]. apply bind_run. exists db2, (). done.
Qed.

(** An exhausted message whose dead-letter queue does not accept now. *)
Lemma settle_waiting db m q g :
  settleable db m → b.(b_dead_letter_queue) = Some (q, g) →
  ∃ db', (_ ← retry_message_tx m b (next_attempt m) now 0;
       generation ← consumer_i64 (q, g).2;
       next ← add_ms now 1000;
       _ ← execute map_sql_error (insert_pending m.(msg_id)
             (pending_row b.(b_queue) (q, g).1 generation (next_attempt m) next now
                (Some "QUEUE_DLQ_BACKPRESSURED")));
       mret DlqPending) db = (db', Ok DlqPending).
Proof.
  intros Hs Hd. rewrite (settleable_next _ _ Hs).
  destruct (retry_message_ok db m (m.(attempts) + 1) 0) as (db1 & Hrun); try apply Hs; try (unfold in_i64; lia).
  { destruct Hs. lia. }
  pose proof Hs as [Hdb Hin Hheld _ _ _ _ _ Hdlq].
  destruct (retry_message_post _ _ _ _ _ _ Hdb Hin Hheld Hrun) as (Hdb1 & Hfr & Hrow & Hseq & Hqs & Hps).
  replace (now + 0 * 1000) with now in Hrow by lia.
  assert (Hins := pending_ok db m q g db1 Hs Hd Hdb1 Hfr Hrow Hqs Hps). cbv zeta in Hins.
  destruct (Hdlq q g Hd) as (Hg & _ & r & Hr & Hl & _).
  eexists. apply bind_run. exists db1, (). split; [done|]. apply bind_run. exists db1, g.
  split; [apply consumer_i64_ok; unfold in_i64; cbn; lia|]. apply bind_run. exists db1, (now + 1000).
  split; [unfold add_ms; run_simpl; by rewrite !i64_checked_in by (unfold in_i64; lia)|].
  apply bind_run. eexists _, (). split; [|done]. apply execute_run. exact Hins.
Qed.

Lemma complete_message_ok ds db m a :
  settleable db m → ds !! m.(msg_id) = Some a → (∀ d, a = Retry d → 0 ≤ d ≤ 86400) →
  ∃ db' o, complete_message b ds now m db = (db', Ok o).
Proof.
  intros Hs Ha Hd. unfold complete_message. fold (next_attempt m). pose proof Hs as [Hdb Hin Hheld _ Hatt Htime _ _ _].
  destruct (delete_claimed_ok db m Hdb Hin Hheld) as (dbd & Hdel & _).
  assert (Hgone : ∀ o : Outcome, ∃ db' o', (_ ← delete_claimed_message_tx m b; mret o) db = (db', Ok o')).
  { intros o. exists dbd, o. apply bind_run. by exists dbd, (). }
  rewrite Ha. change (some_or (Some a) disposition_invalid) with (mret (M := M QueueDb PlatformError) a).
  destruct a as [|d]; cbn [mbind M_bind mret M_ret]; [apply Hgone|]. specialize (Hd d eq_refl).
  case_decide; [apply Hgone|]. case_decide.
  { rewrite (settleable_next _ _ Hs). destruct (retry_message_ok db m (m.(attempts) + 1) d) as (db1 & Hrun); try done; try (unfold in_i64; lia).
    exists db1, Retried. apply (bind_run (retry_message_tx m b (m.(attempts) + 1) now d) (λ _, mret Retried)). by exists db1, (). }
  destruct (b_dead_letter_queue b) as [[q g]|] eqn:Hdl; [|apply Hgone].
  destruct (move_to_dlq_ok db m q g Hs Hdl) as (db1 & moved & Hmove).
  pose proof (move_to_dlq_post _ _ _ _ _ _ Hdb Hin Hheld Hmove) as Hpost. destruct moved.
  - exists db1, DeadLettered. apply bind_run. exists db, (Retry d). split; [done|]. apply bind_run. exists db1, true.
    by rewrite decide_True.
  - subst db1. destruct (settle_waiting db m q g Hs Hdl) as [db1 Hrun]. exists db1, DlqPending.
    apply bind_run. exists db, (Retry d). split; [done|]. apply bind_run. exists db, false. by rewrite decide_False.
Qed.

(** A settlement survives the settlement of another message. *)
Lemma settled_frame ds db1 db2 m m' o :
  queue_core db1 → m' ∈ db1.(messages) → m.(msg_id) ≠ m'.(msg_id) → frame m' db1 db2 →
  settled b ds now db1 m o → settled b ds now db2 m o.
Proof using Type.
  intros Hc Hin Hne [Hrows Hids Hps _ _ _ _] Hset.
  assert (Hgone : gone db1 m → gone db2 m).
  { intros Hg (x & Hx & Hin2)%list_elem_of_fmap. destruct (Hids x Hin2) as [?|?]; [|congruence].
    apply Hg. rewrite Hx. by apply list_elem_of_fmap_2. }
  assert (Hrow : ∀ x, x.(msg_id) = m.(msg_id) → x ∈ db1.(messages) → x ∈ db2.(messages)).
  { intros x Hid Hx. apply Hrows; [done|]. intros Hs. apply Hne.
    by rewrite <-Hid, (message_seq_unique db1 x m'). }
  destruct Hset.
  - by apply settled_ack; auto.
  - by eapply settled_expired; eauto.
  - by eapply settled_retry; eauto.
  - eapply settled_dead_letter; try done. apply Hrow; [|done].
    match goal with Hl : dead_letter _ _ _ _ |- _ => apply Hl end.
  - eapply settled_pending; try done; [by apply Hrow|]. by rewrite Hps.
  - by eapply settled_discard; eauto.
Qed.

Lemma settleable_frame db1 db2 m m' :
  settleable db1 m → m.(seq) ≠ m'.(seq) → frame m' db1 db2 → stmt_inv X db2 →
  db2.(next_seq) ≤ i64_max → settleable db2 m.
Proof.
  intros [Hdb Hin Hheld Hq Hatt Htime Hsize Hseq Hdlq] Hne [Hrows _ _ _ _ _ Hqs] Hdb2 Hseq2.
  split; auto. intros q g Hd. destruct (Hdlq q g Hd) as (Hg & Hqne & r & Hr & Hl & Hmax).
  split_and!; try done; try lia. specialize (Hqs q). rewrite Hr in Hqs. destruct (queues db2 !! q) as [r'|]; [|done].
  cbn in Hqs. injection Hqs as E1 E2 E3 E4. exists r'. rewrite E1, E4. done.
Qed.

(** The tables the settlement of the messages [ids] has no business with. *)
Record same_besides (ids : list N) (db db' : QueueDb) : Prop := {
  sb_batches : db'.(batches) = db.(batches);
  sb_operations : db'.(operations) = db.(operations);
  sb_consumers : db'.(consumers) = db.(consumers);
  sb_pending : ∀ i, i ∉ ids → db'.(dlq_pending) !! i = db.(dlq_pending) !! i;
  sb_queues : ∀ q, static_columns <$> db'.(queues) !! q = static_columns <$> db.(queues) !! q;
}.
Lemma frame_besides m ids db1 db2 db3 :
  frame m db1 db2 → same_besides ids db2 db3 → same_besides (m.(msg_id) :: ids) db1 db3.
Proof.
  intros [_ _ A1 A2 A3 A4 A5] [B1 B2 B3 B4 B5]. split; [congruence..| |by intros q; rewrite B5].
  intros i [Hi Hni]%not_elem_of_cons. by rewrite B4, A1.
Qed.

(** The loop settles every message of the batch, if it ends well. *)
Lemma complete_loop_post ds ms db db' os :
  stmt_inv X db → Forall (λ m, m ∈ db.(messages) ∧ held m) ms → NoDup (msg_id <$> ms) →
  for_each (complete_message b ds now) ms db = (db', Ok os) →
  stmt_inv X db' ∧ Forall2 (settled b ds now db') ms os ∧ same_besides (msg_id <$> ms) db db' ∧
  (∀ x, x ∈ db.(messages) → x.(msg_id) ∉ msg_id <$> ms → x ∈ db'.(messages)) ∧
  (∀ x, x ∈ db'.(messages) → x ∈ db.(messages) ∨ x.(msg_id) ∈ msg_id <$> ms) ∧
  (∀ x o, x.(msg_id) ∉ msg_id <$> ms → settled b ds now db x o → settled b ds now db' x o).
Proof using Hgen.
  clear Hnow. revert db os. induction ms as [|m ms IH]; intros db os Hdb Hall Hnd Hrun.
  { cbn in Hrun. injection Hrun as <- <-. split_and!; [done|by constructor|by split|done|by left|done]. }
  assert (Hc := stmt_inv_core _ _ Hdb). apply Forall_cons in Hall as [[Hm Hh] Hall].
  rewrite fmap_cons in Hnd. apply NoDup_cons in Hnd as [Hnm Hnd].
  apply for_each_cons_run in Hrun as (db1 & o & os1 & Hone & Hrest & ->).
  destruct (complete_message_post ds db m db1 o Hdb Hm Hh Hone) as (Hdb1 & Hfr & Hset & _).
  assert (Hne : ∀ x, x ∈ db.(messages) → x.(msg_id) ≠ m.(msg_id) → x.(seq) ≠ m.(seq)).
  { intros x Hx Hid Hs. apply Hid. f_equal. by apply (message_seq_unique db). }
  assert (Hall1 : Forall (λ m, m ∈ db1.(messages) ∧ held m) ms).
  { rewrite Forall_forall in *. intros x Hx. destruct (Hall x Hx) as [Hxin Hxh]. split; [|done].
    apply (fr_rows _ _ _ Hfr); [done|]. apply Hne; [done|]. intros E. apply Hnm. rewrite <-E. by apply list_elem_of_fmap_2. }
  destruct (IH db1 os1 Hdb1 Hall1 Hnd Hrest) as (Hdb2 & Hsets & Hbs & Hkeep & Horig & Hpers).
  split_and!; [done| |by rewrite fmap_cons; eapply frame_besides| | |].
  - constructor; [|done]. by apply Hpers.
  - intros x Hx Hni. rewrite fmap_cons, not_elem_of_cons in Hni. destruct Hni as [Hid Hni].
    apply Hkeep; [|done]. apply (fr_rows _ _ _ Hfr); [done|auto].
  - intros x Hx. rewrite fmap_cons, elem_of_cons. destruct (Horig x Hx) as [Hx1|?]; [|tauto].
    destruct (fr_ids _ _ _ Hfr x Hx1); tauto.
  - intros x o' Hni Hx. rewrite fmap_cons, not_elem_of_cons in Hni. destruct Hni as [Hid Hni].
    apply Hpers; [done|]. by eapply (settled_frame ds db db1 x m).
Qed.

(** It ends well when every message can be settled. *)
Lemma complete_loop_ok ds ms db :
  Forall (settleable db) ms → NoDup (msg_id <$> ms) →
  Forall (λ m, ∃ a, ds !! m.(msg_id) = Some a ∧ ∀ d, a = Retry d → 0 ≤ d ≤ 86400) ms →
  db.(next_seq) + Z.of_nat (length ms) ≤ i64_max + 1 →
  ∃ db' os, for_each (complete_message b ds now) ms db = (db', Ok os).
Proof.
  revert db. induction ms as [|m ms IH]; intros db Hall Hnd Hds Hseq; [by exists db, []|].
  apply Forall_cons in Hall as [Hm Hall]. apply Forall_cons in Hds as [(a & Ha & Hd) Hds].
  rewrite fmap_cons in Hnd. apply NoDup_cons in Hnd as [Hnm Hnd]. cbn [length] in Hseq.
  destruct (complete_message_ok ds db m a Hm Ha Hd) as (db1 & o & Hrun).
  destruct (complete_message_post ds db m db1 o) as (Hdb1 & Hfr & _ & Hseq1); try apply Hm; [done|].
  assert (Hall1 : Forall (settleable db1) ms).
  { rewrite Forall_forall in *. intros x Hx. apply (settleable_frame db db1 x m); auto.
    - intros Heq. apply Hnm. rewrite <-(message_seq_unique db x m); [by apply list_elem_of_fmap_2|..|done];
        [eapply stmt_inv_core, Hm|by apply Hall|apply Hm].
    - destruct ms; [by apply not_elem_of_nil in Hx|]. cbn [length] in Hseq. lia. }
  destruct (IH db1 Hall1 Hnd Hds) as (db2 & os & Hrest); [lia|].
  exists db2, (o :: os). apply for_each_cons_run. eexists _, _, _. done.
Qed.
End settle.

(** ** The completion of a batch *)

(** The decisions on a batch cover its messages, with delays in range. *)
Lemma decisions_match_inv b ds u :
  decisions_match b ds = Ok u →
  length ds = length b.(b_messages) ∧ (∀ i, i ∈ cm_id <$> b.(b_messages) → i ∈ ds.*1) ∧
  (∀ i d, (i, Retry d) ∈ ds → d ≤ 86400).
Proof.
  unfold decisions_match. intros H. destruct_result. apply bail_if_Ok in Hm, Hm0, H. split_and!.
  - lia.
  - intros i Hi. destruct (decide (list_to_set ds.*1 = (list_to_set (cm_id <$> b_messages b) : gset N))) as [E|E].
    + apply (elem_of_list_to_set (C := gset N)). rewrite E. by apply elem_of_list_to_set.
    + exfalso. apply Hm0. by right.
  - intros i d Hid. destruct (decide (d ≤ 86400)); [done|]. exfalso. apply H, Exists_exists.
    exists (i, Retry d). split; [done|]. cbn. apply bool_decide_eq_true. lia.
Qed.

Lemma decision_found b ds u i :
  decisions_match b ds = Ok u → (∀ j d, (j, Retry d) ∈ ds → 0 ≤ d) → i ∈ cm_id <$> b.(b_messages) →
  ∃ a, (list_to_map ds : gmap N QueueCompletionAction) !! i = Some a ∧ ∀ d, a = Retry d → 0 ≤ d ≤ 86400.
Proof.
  intros H Hpos Hi. destruct (decisions_match_inv _ _ _ H) as (_ & Hin & Hmax). apply Hin in Hi.
  destruct ((list_to_map ds : gmap N QueueCompletionAction) !! i) as [a|] eqn:E.
  - exists a. split; [done|]. intros d ->. apply elem_of_list_to_map_2 in E. eauto.
  - by apply not_elem_of_list_to_map in E.
Qed.

(** What a completion needs besides the batch: the clock is not behind the messages,
    attempts and keys are not exhausted, and the frozen dead-letter queue, if any, is
    still there and takes messages of these sizes. *)
Record completable (db : QueueDb) (b : ClaimedQueueBatch) (now : Z) : Prop := {
  co_rows : Forall (λ m, m.(attempts) < u16_max ∧ m.(enqueued_at_ms) ≤ now) (rows_of b.(b_id) db);
  co_clock : i64_min ≤ now ∧ now + 1209600000 ≤ i64_max;
  co_keys : db.(next_seq) + Z.of_nat (length b.(b_messages)) ≤ i64_max + 1;
  co_dlq : ∀ q g, b.(b_dead_letter_queue) = Some (q, g) →
    1 ≤ g ≤ i64_max ∧ q ≠ b.(b_queue) ∧ ∃ r, db.(queues) !! q = Some r ∧ r.(lifecycle_generation) = g ∧
      Forall (λ m, body_bytes m ≤ r.(config).(max_message_bytes)) (rows_of b.(b_id) db);
}.

Lemma holds_live db b : holds db b → batch_live db b.
Proof.
  intros (r & Hr & _ & Hcon & Hgen & Hb & _). unfold batch_live. rewrite Hr. cbn. split; [done|].
  rewrite Hgen. apply u64_checked_in. unfold in_u64. lia.
Qed.

Lemma elem_of_rows b db m : m ∈ rows_of b db ↔ m ∈ db.(messages) ∧ claimed_in b m.
Proof. unfold rows_of, sql_where. rewrite list_elem_of_filter. tauto. Qed.

(** The messages of a held batch can be settled. *)
Lemma rows_settleable db b now :
  queue_wf db → holds db b → completable db b now →
  Forall (settleable b now db) (rows_of b.(b_id) db).
Proof.
  intros Hwf Hh [Hrows Hclock Hkeys Hdlq]. assert (Hc := wf_core _ Hwf).
  assert (Hlen : length (rows_of b.(b_id) db) = length b.(b_messages)).
  { destruct Hh as (r & _ & _ & _ & _ & _ & Hperm). apply Permutation_length in Hperm.
    by rewrite !length_fmap in Hperm. }
  rewrite Forall_forall in *. intros m Hm. destruct (Hrows m Hm) as [Hatt Htime].
  apply elem_of_rows in Hm as Hm'. destruct Hm' as [Hin Hcl].
  assert (Hst := proj1 (holds_state db b m Hc Hh Hin) Hcl).
  pose proof (core_msg _ Hc) as Hok. rewrite Forall_forall in Hok. destruct (Hok m Hin) as [Hpos _].
  split; try done; try lia.
  - apply stmt_inv_except; [done|]. by apply queue_wf_stmt.
  - destruct Hh as (r & Hr & Hq & _). pose proof (core_claim _ Hc) as Ha. rewrite Forall_forall in Ha.
    specialize (Ha m Hin). unfold claim_ok in Ha. rewrite Hst in Ha.
    destruct Ha as (r' & Hr' & Hq' & _). congruence.
  - by apply (body_bytes_bound db).
  - destruct (rows_of b.(b_id) db) as [|x l]; [by apply not_elem_of_nil in Hm|]. cbn [length] in Hlen. lia.
  - intros q g Hd. destruct (Hdlq q g Hd) as (Hg & Hne & r & Hr & Hl & Hmax).
    rewrite Forall_forall in Hmax. split_and!; try lia; try done. eauto.
Qed.

(** Once every message is settled, no message is left under the batch. *)
Lemma settled_unclaimed b ds now db db' ms os :
  queue_core db → queue_core db' → ms ≡ₚ rows_of b.(b_id) db → Forall2 (settled b ds now db') ms os →
  (∀ x, x ∈ db'.(messages) → x ∈ db.(messages) ∨ x.(msg_id) ∈ msg_id <$> ms) →
  Forall (λ x, claim_batch_id x ≠ Some b.(b_id)) db'.(messages).
Proof.
  intros Hc Hc' Hperm Hsets Horig. apply Forall_forall. intros x Hx Hcl.
  assert (Hid : ∃ m, m ∈ ms ∧ x.(msg_id) = m.(msg_id)).
  { destruct (Horig x Hx) as [Hx0|(m & Heq & Hm)%list_elem_of_fmap]; [|eauto]. exists x. split; [|done].
    rewrite Hperm. by apply elem_of_rows. }
  destruct Hid as (m & Hm & Hid). apply list_elem_of_lookup in Hm as [i Hi].
  destruct (Forall2_lookup_l _ _ _ _ _ Hsets Hi) as (o & _ & Hset).
  assert (Hready : ∀ y, y ∈ db'.(messages) → y.(msg_id) = m.(msg_id) → y.(msg_state) = MReady → False).
  { intros y Hy Hyid Hst. rewrite (message_id_unique db' x y) in Hcl by (done || congruence).
    unfold claim_batch_id in Hcl. by rewrite Hst in Hcl. }
  assert (Hgone : gone db' m → False).
  { intros Hg. apply Hg. rewrite <-Hid. by apply list_elem_of_fmap_2. }
  destruct Hset; eauto. match goal with Hl : dead_letter _ _ _ _ |- _ => destruct Hl as (? & _ & _ & _ & ? & _) end. eauto.
Qed.

(** The control flow of a completion whose loop succeeds. *)
Lemma complete_run b ds now db db1 os :
  queue_core db → holds db b → decisions_match b ds = Ok () →
  Forall (λ m, m.(attempts) < u16_max) (rows_of b.(b_id) db) →
  for_each (complete_message b (list_to_map ds) now) (order_by (λ m, [m.(seq)]) (rows_of b.(b_id) db)) db
    = (db1, Ok os) →
  db1.(batches) = db.(batches) →
  delete_batch b.(b_id) db1 = Ok (set_batches (delete b.(b_id) db1.(batches)) db1) →
  complete_queue_batch b ds now db =
    (notify (set_batches (delete b.(b_id) db1.(batches)) db1), Ok (summarise os)).
Proof.
  intros Hc Hh Hds Hatt Hrun Hbs Hdel. unfold complete_queue_batch. rewrite Hds. run_simpl. cbn [id].
  rewrite decide_True by by apply holds_live.
  assert (Hlive : complete_live b ds now db =
    (set_batches (delete b.(b_id) db1.(batches)) db1, Ok (summarise os))); [|by rewrite Hlive].
  pose proof Hh as (r & Hr & _ & Hcon & Hg & Hb & Hperm).
  assert (Hgen : ∀ d, consumer_i64 b.(b_generation) d = (d, Ok b.(b_generation))).
  { intros d. apply consumer_i64_ok. unfold in_i64. lia. }
  unfold complete_live. apply bind_run. exists db, (order_by (λ m, [m.(seq)]) (rows_of b.(b_id) db)). split.
  { unfold claimed_messages_tx. apply bind_run. exists db, b.(b_generation). split; [done|].
    run_simpl. rewrite holds_rows by done. rewrite decide_False; [done|]. intros Hno. apply Hno.
    unfold messages_convert. rewrite order_by_Permutation. rewrite Forall_forall in *. intros m Hm.
    specialize (Hatt m Hm). apply elem_of_rows in Hm as [Hin _].
    pose proof (core_msg _ Hc) as Hok. rewrite Forall_forall in Hok. destruct (Hok m Hin) as [? _].
    unfold in_u16. lia. }
  apply bind_run. exists db, (). split.
  { run_simpl. rewrite decide_False; [done|]. intros Hno. apply Hno.
    destruct (decisions_match_inv _ _ _ Hds) as (-> & _ & _). rewrite order_by_Permutation.
    apply Permutation_length in Hperm. by rewrite !length_fmap in Hperm. }
  apply bind_run. exists db1, os. split; [done|]. apply bind_run. exists db1, b.(b_generation).
  split; [done|]. run_simpl. rewrite decide_False.
  - unfold execute. by rewrite Hdel.
  - intros Hno. apply Hno. rewrite Hbs, Hr. done.
Qed.

(** The messages of a held batch, in the order of their keys. *)
Definition batch_rows (db : QueueDb) (b : ClaimedQueueBatch) : list Message :=
  order_by (λ m, [m.(seq)]) (rows_of b.(b_id) db).

Lemma batch_rows_perm db b : batch_rows db b ≡ₚ rows_of b.(b_id) db.
Proof. apply order_by_Permutation. Qed.

Lemma batch_rows_held db b : queue_core db → holds db b →
  Forall (λ m, m ∈ db.(messages) ∧ m.(msg_state) = held_by b b.(b_generation)) (batch_rows db b) ∧
  NoDup (msg_id <$> batch_rows db b) ∧ length (batch_rows db b) = length b.(b_messages) ∧ in_i64 b.(b_generation) ∧
  (msg_id <$> batch_rows db b) ≡ₚ (cm_id <$> b.(b_messages)).
Proof.
  intros Hc Hh. pose proof (batch_rows_perm db b) as Hp. set (ms := batch_rows db b) in *. clearbody ms.
  pose proof Hh as (r & _ & _ & _ & _ & Hb & Hperm). rewrite <-Hp in Hperm. split_and!.
  - apply Forall_forall. intros m. rewrite Hp. intros [Hm Hcl]%elem_of_rows. split; [done|]. by apply (holds_state db).
  - rewrite Hp. by apply rows_ids_NoDup.
  - apply Permutation_length in Hperm. by rewrite !length_fmap in Hperm.
  - unfold in_i64. lia.
  - done.
Qed.

(** What a completion did, when it succeeded. *)
Definition completed (b : ClaimedQueueBatch) (ds : list (N * QueueCompletionAction)) (now : Z) (db db' : QueueDb)
    (s : QueueCompletionSummary) : Prop :=
  ∃ os, s = summarise os ∧ Forall2 (settled b (list_to_map ds) now db') (batch_rows db b) os ∧
    db'.(batches) = delete b.(b_id) db.(batches) ∧ db'.(operations) = db.(operations) ∧ db'.(consumers) = db.(consumers) ∧
    (∀ q, static_columns <$> db'.(queues) !! q = static_columns <$> db.(queues) !! q) ∧
    (∀ i, i ∉ msg_id <$> rows_of b.(b_id) db → db'.(dlq_pending) !! i = db.(dlq_pending) !! i) ∧
    (∀ x, x ∈ db.(messages) → x ∉ rows_of b.(b_id) db → x ∈ db'.(messages)) ∧
    (∀ x, x ∈ db'.(messages) → x ∈ db.(messages) ∨ x.(msg_id) ∈ msg_id <$> rows_of b.(b_id) db).

Lemma complete_queue_batch_post b ds now db db' s :
  queue_wf db → holds db b → complete_queue_batch b ds now db = (db', Ok s) → completed b ds now db db' s.
Proof.
  intros Hwf Hh Hrun. assert (Hc := wf_core _ Hwf).
  destruct (batch_rows_held db b Hc Hh) as (Hrows & Hnd & _ & Hgen & _).
  unfold complete_queue_batch in Hrun. apply bind_run in Hrun as (db0 & u & Hm & Hrun). apply lift_run in Hm as [-> _].
  apply bind_run in Hrun as (db0 & x & Hx & Hrun). apply gets_run in Hx as [-> ->]. cbn [id] in Hrun.
  rewrite decide_True in Hrun by by apply holds_live.
  apply bind_run in Hrun as (db2 & s' & Hlive & Hrun). consumer_run. unfold complete_live in Hlive.
  apply bind_run in Hlive as (db0 & ms & Hms & Hlive).
  assert (db0 = db ∧ ms = batch_rows db b) as [-> ->].
  { unfold claimed_messages_tx in Hms. consumer_run. by rewrite holds_rows. }
  consumer_run. match goal with Hx : for_each _ _ _ = _ |- _ => rename Hx into Hloop end.
  match goal with Hx : delete_batch _ _ = _ |- _ => apply delete_batch_inv in Hx as [-> _] end.
  apply (complete_loop_post b now Hgen) in Hloop as (_ & Hsets & Hbs & Hkeep & Horig & _);
    [|apply stmt_inv_except; [done|]; by apply queue_wf_stmt|done|done].
  destruct Hbs as [Hbs Hop Hcs Hps Hqs].
  eexists. split; [done|]. split_and!; [|by cbn; rewrite Hbs|done|done|done| | |].
  - eapply Forall2_impl; [exact Hsets|]. intros m o Hs. destruct Hs; by econstructor.
  - intros i Hi. apply Hps. by rewrite batch_rows_perm.
  - intros x Hx Hni. apply Hkeep; [done|]. intros (m & Hid & Hm)%list_elem_of_fmap. apply Hni.
    rewrite batch_rows_perm in Hm. apply elem_of_rows in Hm as Hm'. destruct Hm' as [Hin _].
    by rewrite (message_id_unique db x m).
  - intros x Hx. destruct (Horig x Hx) as [?|Hin]; [by left|right]. by rewrite batch_rows_perm in Hin.
Qed.

Lemma complete_queue_batch_ok b ds now db :
  queue_wf db → holds db b → completable db b now → decisions_match b ds = Ok () →
  (∀ i d, (i, Retry d) ∈ ds → 0 ≤ d) →
  ∃ db' s, complete_queue_batch b ds now db = (db', Ok s).
Proof.
  intros Hwf Hh Hco Hds Hpos. assert (Hc := wf_core _ Hwf).
  destruct (batch_rows_held db b Hc Hh) as (Hrows & Hnd & Hlen & Hgen & Hids).
  assert (Hset : Forall (settleable b now db) (batch_rows db b)).
  { rewrite batch_rows_perm. by apply rows_settleable. }
  assert (Hx : stmt_inv (except all_exact b.(b_id)) db) by (apply stmt_inv_except; [done|by apply queue_wf_stmt]).
  destruct (complete_loop_ok b now Hgen (co_clock _ _ _ Hco) (list_to_map ds) (batch_rows db b) db Hset Hnd) as (db1 & os & Hrun).
  - apply Forall_forall. intros m Hm. eapply (decision_found b ds ()); [done|done|].
    rewrite <-Hids. by apply list_elem_of_fmap_2.
  - rewrite Hlen. apply Hco.
  - destruct (complete_loop_post b now Hgen _ _ _ _ _ Hx Hrows Hnd Hrun) as (Hdb1 & Hsets & [Hbs _ _ _ _] & _ & Horig & _).
    assert (Hno := settled_unclaimed _ _ _ _ _ _ _ Hc (stmt_inv_core _ _ Hdb1) (batch_rows_perm db b) Hsets Horig).
    eexists _, _. apply complete_run; try done.
    + eapply Forall_impl; [apply Hco|]. by intros m [? _].
    + unfold delete_batch, bail_if. rewrite decide_False; [done|]. rewrite Forall_forall in Hno.
      intros (x & Hx' & Hcl)%Exists_exists. by eapply Hno.
Qed.

Lemma complete_queue_batch_atomic b ds now : atomic (complete_queue_batch b ds now).
Proof.
  intros db db' e. unfold complete_queue_batch, mbind, M_bind, lift. destruct (decisions_match b ds); [|by intros [= <- _]].
  cbn. case_decide; [|done]. destruct (transaction (complete_live b ds now) db) as [db1 [s|e']] eqn:E; [done|].
  intros [= <- _]. by apply atomic_transaction in E.
Qed.

(** C3. Completing a held batch with decisions on exactly its messages settles all of them or
    changes nothing.  When it succeeds, every message is settled by its decision: an
    acknowledged message and an expired one go; a retried one is ready again after its
    delay with one more attempt; one whose retries are exhausted moves to the dead-letter
    queue, waits for it if it does not accept now, or goes if there is none; the counts of
    the summary are those of the outcomes, the batch is gone, no message appears but dead
    letters of the batch, and all other messages, batches, consumers, producer operations,
    pending dead letters and queue settings are what they were.  When it fails, no table changes.  It does
    not fail when the clock is not behind the messages, neither their attempts nor the keys
    are used up, and the dead-letter queue the batch names, if any, is still in that
    generation and takes messages of these sizes. *)
Theorem complete_queue_batch_settles b ds now db :
  queue_wf db → holds db b → decisions_match b ds = Ok () →
  let '(db', r) := complete_queue_batch b ds now db in
  match r with Ok s => completed b ds now db db' s | Err _ => db' = db end ∧
  (completable db b now → (∀ i d, (i, Retry d) ∈ ds → 0 ≤ d) → is_ok r = true).
Proof.
  intros Hwf Hh Hds. destruct (complete_queue_batch b ds now db) as [db' [s|e]] eqn:E.
  - split; [by apply complete_queue_batch_post|done].
  - split; [by eapply complete_queue_batch_atomic|]. intros Hco Hpos.
    destruct (complete_queue_batch_ok b ds now db Hwf Hh Hco Hds Hpos) as (db1 & s & Hrun). congruence.
Qed.

Definition ex_decisions : list (N * QueueCompletionAction) := [(100%N, Ack); (101%N, Retry 5)].

Lemma ex_claim_wf : queue_wf ex_claim.1.
Proof.
  eapply (queue_reachable_inv 7 ex_sha256 ex_id_text),
    (reach_call 7 ex_sha256 ex_id_text (CallClaim ex_batch_gen 1000 5 None)), I. apply ex_db_reachable.
Qed.

Lemma ex_claim_holds : holds ex_claim.1 ex_batch.
Proof. eexists. split; [vm_compute; reflexivity|]. by vm_compute. Qed.

Lemma ex_claim_completable : completable ex_claim.1 ex_batch 2000.
Proof.
  split.
  - apply (bool_decide_unpack (Forall (λ m, m.(attempts) < u16_max ∧ m.(enqueued_at_ms) ≤ 2000) _)).
    by vm_compute.
  - by vm_compute.
  - by vm_compute.
  - intros q g [= <- <-]. split; [lia|]. split; [done|]. eexists. split; [vm_compute; reflexivity|].
    split; [done|]. apply (bool_decide_unpack (Forall (λ m, body_bytes m ≤ 1000) _)). by vm_compute.
Qed.

Lemma ex_decisions_delays i d : (i, Retry d) ∈ ex_decisions → 0 ≤ d.
Proof.
  intros Hin. unfold ex_decisions in Hin.
  apply elem_of_cons in Hin as [Heq|Hin]; [done|]. apply list_elem_of_singleton in Hin. injection Hin as _ ->. lia.
Qed.

Lemma complete_queue_batch_settles_witness :
  ∃ db' s, complete_queue_batch ex_batch ex_decisions 2000 ex_claim.1 = (db', Ok s) ∧
    completed ex_batch ex_decisions 2000 ex_claim.1 db' s.
Proof.
  pose proof (complete_queue_batch_settles ex_batch ex_decisions 2000 ex_claim.1 ex_claim_wf ex_claim_holds) as Hs.
  destruct (complete_queue_batch ex_batch ex_decisions 2000 ex_claim.1) as [db' r].
  destruct Hs as [Hr Hok]; [by vm_compute|]. specialize (Hok ex_claim_completable ex_decisions_delays).
  destruct r as [s|e]; [|done]. by exists db', s.
Defined.

(** ** Stale completions *)

(** A completion of a batch that is not live changes nothing. *)
Lemma complete_stale b ds now db :
  decisions_match b ds = Ok () → ¬ batch_live db b →
  complete_queue_batch b ds now db = (db, Ok stale_summary).
Proof. intros Hds Hno. unfold complete_queue_batch. rewrite Hds. run_simpl. cbn [id]. by rewrite decide_False. Qed.

Lemma delete_messages_batches P `{!∀ m, Decision (P m)} db db' :
  delete_messages P db = Ok db' → db'.(batches) = db.(batches).
Proof. unfold delete_messages. intros Hd. destruct_result. by injection Hd as <-. Qed.

Lemma reset_pending_batches now ms db db' :
  reset_pending now ms db = Ok db' → db'.(batches) = db.(batches).
Proof.
  revert db. induction ms as [|m ms IH]; intros db H; cbn [reset_pending] in H; [by injection H as <-|].
  destruct_result. rewrite (IH _ H). unfold reset_pending_one in Hm.
  destruct (msg_state m); [|by injection Hm as <-].
  destruct (exhausted _ m ≫= dlq) as [[target g]|]; [|by injection Hm as <-].
  destruct_result. injection Hm as <-. by destruct (dlq_pending db !! msg_id m).
Qed.

Lemma reset_batches now db db' : reset_queue_claims now db = (db', Ok ()) → db'.(batches) = ∅.
Proof.
  unfold reset_queue_claims. intros H. consumer_run.
  match goal with H : delete_messages _ _ = _ |- _ => rewrite (delete_messages_batches _ _ _ H) end.
  match goal with H : reset_pending _ _ _ = _ |- _ => rewrite (reset_pending_batches _ _ _ _ H) end.
  match goal with H : delete_batches _ = _ |- _ => unfold delete_batches in H; destruct_result; injection H as <- end.
  done.
Qed.

Lemma complete_not_live b ds now db db' s :
  complete_queue_batch b ds now db = (db', Ok s) → ¬ batch_live db' b.
Proof.
  intros H. unfold complete_queue_batch in H. consumer_run; [|done].
  match goal with H : complete_live _ _ _ _ = _ |- _ => unfold complete_live in H end. consumer_run.
  match goal with H : delete_batch _ _ = _ |- _ => apply delete_batch_inv in H as [-> _] end.
  unfold batch_live. cbn [notify set_batches batches]. rewrite lookup_delete_eq. by intros [].
Qed.

(** A batch is settled at most once: after a completion, or after the restart that
    released its messages, a late or repeated completion reports that it is stale and
    changes nothing. *)
Theorem completion_at_most_once b ds now db db' :
  decisions_match b ds = Ok () →
  (∃ ds' now' s, complete_queue_batch b ds' now' db = (db', Ok s)) ∨
  (∃ now', reset_queue_claims now' db = (db', Ok ())) →
  complete_queue_batch b ds now db' = (db', Ok stale_summary).
Proof.
  intros Hds Hsettled. apply complete_stale; [done|].
  destruct Hsettled as [(ds' & now' & s & H)|(now' & H)].
  - by eapply complete_not_live.
  - unfold batch_live. rewrite (reset_batches _ _ _ H), lookup_empty. by intros [].
Qed.

Lemma completion_at_most_once_witness :
  let db := (complete_queue_batch ex_batch ex_decisions 2000 ex_claim.1).1 in
  complete_queue_batch ex_batch ex_decisions 3000 db = (db, Ok stale_summary).
Proof.
  apply (completion_at_most_once ex_batch ex_decisions 3000 ex_claim.1).
  - by vm_compute.
  - left. exists ex_decisions, 2000. eexists. vm_compute. reflexivity.
Defined.
