(* ===== verification/QueueFindings.v ===== *)
(** * Two dead-letter corner cases

    Reachable states in which dead letters get stuck: a message larger than the
    dead-letter queue takes, and a pending dead letter whose message a restart has
    deleted. *)

From stdpp Require Import base numbers list option strings sorting gmap.
From S2P Require Import Prelude Text ErrorCodes Sql QueueDb QueueInv.
From S2P Require Import QueueStore QueueEnqueue QueueConsumer QueueStmt QueueWf QueueDelivery QueueReach QueueClaim.

Local Open Scope Z_scope.

(** The tables after a sequence of calls, and that each call is one the store can see. *)
Fixpoint trace (cs : list queue_call) (db : QueueDb) : QueueDb :=
  match cs with [] => db | c :: cs => trace cs (run_call 7 ex_sha256 ex_id_text c db) end.
Fixpoint trace_ok (cs : list queue_call) (db : QueueDb) : Prop :=
  match cs with
  | [] => True
  | c :: cs => call_ok c db ∧ trace_ok cs (run_call 7 ex_sha256 ex_id_text c db)
  end.

Lemma trace_ok_app cs cs' db : trace_ok cs db → trace_ok cs' (trace cs db) → trace_ok (cs ++ cs') db.
Proof. revert db. induction cs; [done|]. intros db [??] ?. by split; [|apply IHcs]. Qed.

Lemma trace_reachable cs db :
  queue_reachable 7 ex_sha256 ex_id_text db → trace_ok cs db →
  queue_reachable 7 ex_sha256 ex_id_text (trace cs db).
Proof. revert db. induction cs; [done|]. intros db Hdb [??]. apply IHcs; [by apply reach_call|done]. Qed.

(** A queue whose dead-letter queue takes only two bytes per message. *)
Definition small_config : QueueConfig := queue_config 0 60 2 10 5000 10000.
Definition fi_consumer (dlq : option (N * Z)) : Consumer :=
  consumer_row 1 1 20 21 1 None true 2 0 0 5 3 dlq.
Definition fi_request : QueueEnqueueRequest :=
  queue_enqueue_request 1 90 false 1 1 None [ex_message [3; 3; 3]].
Definition fi_batch : ClaimedQueueBatch :=
  claimed_queue_batch 200 7 1 50 1 20 21 1 None 0 (Some (2%N, 1)) 5
    [claimed_queue_message 100 1000 1 Text [3; 3; 3]].

Definition fi_setup (dlq_config : QueueConfig) : list queue_call :=
  [CallCreate (ex_projection 1); CallCreate (queue_projection 2 7 1 1 dlq_config 0 0);
   CallPromote {[ 50%N := fi_consumer (Some (2%N, 1)) ]}; CallEnqueue ex_gen fi_request 1000;
   CallClaim ex_batch_gen 1000 5 None].

Definition fi_orphan : list queue_call :=
  fi_setup ex_config ++
  [CallBegin 2 1 1 1500; CallComplete fi_batch [(100%N, Retry 0)] 2000; CallFinish 2 1 1 2500;
   CallPromote {[ 50%N := fi_consumer None ]}; CallReset 3000].

Lemma fi_promote_ok dlq db :
  dlq ∈ [None; Some (2%N, 1)] → is_Some (db.(queues) !! 1%N) → is_Some (db.(queues) !! 2%N) →
  call_ok (CallPromote {[ 50%N := fi_consumer dlq ]}) db.
Proof.
  intros Hd H1 H2. split.
  - split.
    + intros i c [<- <-]%lookup_singleton_Some. split_and!; try (cbn; lia).
      intros q g Hq. cbn in Hq. subst dlq. set_unfold in Hd. destruct Hd as [?|[[= -> ->]|[]]]; [done|].
      cbn. split; [lia|done].
    + intros i j c d [<- _]%lookup_singleton_Some [<- _]%lookup_singleton_Some. done.
  - intros i c [<- <-]%lookup_singleton_Some. split; [done|].
    intros q g Hq. cbn in Hq. subst dlq. set_unfold in Hd. by destruct Hd as [?|[[= -> ->]|[]]].
Qed.

Lemma fi_setup_ok cfg :
  cfg = small_config ∨ cfg = ex_config → trace_ok (fi_setup cfg) empty_db.
Proof.
  intros Hcfg. split; [repeat split; cbn; lia|]. split; [destruct Hcfg as [-> | ->]; repeat split; cbn; lia|].
  split; [apply fi_promote_ok; [set_solver|destruct Hcfg as [-> | ->]; vm_compute; by eexists..]|].
  do 2 (split; [exact I|]). exact I.
Qed.

(** A message whose retries are exhausted and whose body is larger than the
    dead-letter queue takes cannot be completed: the dead-letter queue accepts it by
    its backlog, the insertion is refused by its size, and the whole completion fails
    and leaves the batch claimed, until the message expires. *)
Theorem oversized_dead_letter_fails :
  let db := trace (fi_setup small_config) empty_db in
  queue_reachable 7 ex_sha256 ex_id_text db ∧
  (dlq_accepts_tx (2%N, 1) 3 db).2 = Ok true ∧
  complete_queue_batch fi_batch [(100%N, Retry 0)] 2000 db = (db, Err unavailable) ∧
  complete_queue_batch fi_batch [(100%N, Retry 0)] 60000 db = (db, Err unavailable).
Proof.
  split; [apply trace_reachable; [apply reach_empty|apply fi_setup_ok; by left]|].
  vm_compute. done.
Qed.

(** A restart can leave a pending dead letter without its message: the dead letter
    waited while its target was reconfigured, then its consumer dropped the
    dead-letter queue.  The restart discards the message and keeps the pending row,
    and every later forwarding pass fails on it. *)
Theorem orphaned_dead_letter_fails :
  let db := trace fi_orphan empty_db in
  queue_reachable 7 ex_sha256 ex_id_text db ∧
  db.(messages) = [] ∧ queue_dlq_pending_count db = 1 ∧
  forward_queue_dlq_pending 10000 1000 16 db = (db, Err unavailable) ∧
  forward_queue_dlq_pending 900000 1000 16 db = (db, Err unavailable).
Proof.
  split; [apply trace_reachable; [apply reach_empty|]|vm_compute; done].
  apply trace_ok_app; [apply fi_setup_ok; by right|].
  do 3 (split; [exact I|]). split; [|split; exact I].
  apply fi_promote_ok; [set_solver|vm_compute; by eexists..].
Qed.
