(* ===== verification/CronSlots.v ===== *)
(** * Cron expressions and their slots

    The UTC cron parser and slot calculator of [crates/core/src/cron.rs].  The syntax
    guard is a regular expression and the fields are matched by the [croner] and [jiff]
    crates: the guard, the field patterns and the calendar are parameters. *)

From stdpp Require Import base numbers list option strings.
From S2P Require Import Prelude ErrorCodes Text.

Local Open Scope Z_scope.

Definition MINUTE_MS : Z := 60000.
Definition SEARCH_YEARS : Z := 12.
(** The minutes of the search window. *)
Definition SEARCH_MINUTES : Z := SEARCH_YEARS * 366 * 24 * 60.
(** The 400 years after which Gregorian dates and weekdays repeat. *)
Definition GREGORIAN_MS : Z := 146097 * 24 * 60 * MINUTE_MS.

Definition cron_invalid : PlatformError :=
  platform_error CronExpressionInvalid "Cron expression is invalid".
Definition cron_unsupported : PlatformError :=
  platform_error CronExpressionUnsupported "Cron expression uses unsupported syntax".
Definition no_slot : PlatformError :=
  platform_error CronExpressionInvalid "Cron expression has no bounded future UTC slot".

(** The UTC fields of a time ([jiff::Zoned]). *)
Record Zoned := zoned { year : Z; month : Z; day : Z; hour : Z; minute : Z; weekday : Z }.

(** The field patterns of [croner]: [None] is a [CronError]. *)
Record CronPattern := cron_pattern {
  minute_match : Z → option bool;
  hour_match : Z → option bool;
  month_match : Z → option bool;
  day_match : Z → Z → Z → Z → option bool;
}.

Record CronSchedule := cron_schedule { normalized : ustr; cron : CronPattern }.

(** ** Parsing *)

Section parse.
(** [cloudflare_syntax] and [CronParser::parse] *)
Context (cloudflare_syntax : ustr → bool) (croner_parse : ustr → option CronPattern).

(** A list item whose step is not a [u8]. *)
Definition bad_step (item : ustr) : bool :=
  match split_once 47 item with Some (_, step) => negb (bool_decide (is_Some (parse_u8 step))) | None => false end.

Definition field_range (index : nat) : ustr :=
  nth index [lit "0-59"; lit "0-23"; lit "1-31"; lit "1-12"; lit "1-7"] [].

(** The explicit range that the weekday mode of the parser needs for wildcards. *)
Definition rewrite_item (index : nat) (field item : ustr) : ustr :=
  if decide (item = lit "*" ∧ field ≠ lit "*") then field_range index
  else match item with
       | 42 :: 47 :: step => if decide (index = 4%nat) then lit "1-7/" ++ step else item
       | _ => item
       end.
Definition rewrite_field (index : nat) (field : ustr) : ustr :=
  join 44 (rewrite_item index field <$> split 44 field).
Definition parser_expression (normalized : ustr) : ustr :=
  join 32 (imap rewrite_field (split 32 normalized)).

Definition normalize (fields : list ustr) : ustr := join 32 (to_ascii_uppercase <$> fields).

Definition parse (expression : ustr) : result PlatformError CronSchedule :=
  _ ← bail_if (expression = [] ∨ str_len expression > 256 ∨ trim expression ≠ expression) cron_invalid;
  let fields := split_ascii_whitespace expression in
  _ ← bail_if (length fields ≠ 5%nat)
        (if decide (length fields = 6%nat ∨ length fields = 7%nat) then cron_unsupported else cron_invalid);
  _ ← bail_if (Exists (λ field, 63 ∈ field) fields) cron_unsupported;
  let normalized := normalize fields in
  _ ← bail_if (cloudflare_syntax normalized = false ∨
               Exists (λ item, bad_step item = true) (fields ≫= split 44)) cron_invalid;
  cron ← ok_or_else (croner_parse (parser_expression normalized)) cron_invalid;
  Ok (cron_schedule normalized cron).
End parse.

(** ** Slots *)

Section slots.
(** [Timestamp::from_millisecond] in UTC and [croner::time::days_in_month] *)
Context (to_zoned : Z → option Zoned) (days_in_month : Z → Z → Z).
Context (s : CronSchedule).

Definition includes_last_day : bool :=
  match split 32 s.(normalized) !! 2%nat with
  | Some field => existsb (λ item, bool_decide (item = lit "L")) (split 44 field)
  | None => false
  end.

(** [&&] and [?] on the fallible field matches *)
Definition and_then (x : option bool) (y : option bool) : option bool :=
  match x with Some true => y | _ => x end.

Definition time_matches (t : Zoned) : option bool :=
  let last_day_matches := includes_last_day && (t.(day) =? days_in_month t.(year) t.(month)) in
  and_then (s.(cron).(minute_match) t.(minute))
    (and_then (s.(cron).(hour_match) t.(hour))
      (and_then (s.(cron).(month_match) t.(month))
        (d ← s.(cron).(day_match) t.(year) t.(month) t.(day) t.(weekday);
         Some (d || last_day_matches)))).

(** Does the schedule match the minute that starts at a timestamp? *)
Definition timestamp_matches (timestamp : Z) : result PlatformError bool :=
  t ← ok_or_else (to_zoned (Z.rem timestamp GREGORIAN_MS)) cron_invalid;
  ok_or_else (time_matches t) cron_invalid.

(** One iteration of the search over candidate minutes. *)
Definition search_step (limit candidate : Z) : Z + result PlatformError Z :=
  if decide (candidate ≤ limit) then
    match i64_checked (candidate * MINUTE_MS) with
    | None => inr (Err cron_invalid)
    | Some timestamp =>
        match timestamp_matches timestamp with
        | Err e => inr (Err e)
        | Ok true => inr (Ok timestamp)
        | Ok false =>
            match i64_checked (candidate + 1) with
            | Some candidate => inl candidate
            | None => inr (Err cron_invalid)
            end
        end
    end
  else inr (Err no_slot).

Definition next_from_minute (candidate : Z) : result PlatformError Z :=
  limit ← ok_or_else (i64_checked (candidate + SEARCH_MINUTES)) cron_invalid;
  match loop_upto (search_step limit) (Z.to_pos (SEARCH_MINUTES + 2)) candidate with
  | inr r => r
  | inl _ => Err no_slot
  end.

Definition next_after_ms (after_ms : Z) : result PlatformError Z :=
  _ ← bail_if (after_ms < 0) cron_invalid;
  next_from_minute (after_ms / MINUTE_MS + 1).

(** One iteration over the slots of an interval. *)
Definition latest_step (not_before_ms at_or_before_ms : Z) (st : Z * option Z) :
    Z * option Z + result PlatformError (option Z) :=
  let '(next, latest) := st in
  if decide (next ≤ at_or_before_ms) then
    let latest := if decide (not_before_ms ≤ next) then Some next else latest in
    match next_after_ms next with
    | Ok next => inl (next, latest)
    | Err e => inr (Err e)
    end
  else inr (Ok latest).

Definition latest_at_or_before_ms (not_before_ms at_or_before_ms : Z) :
    result PlatformError (option Z) :=
  _ ← bail_if (not_before_ms < 0 ∨ at_or_before_ms < not_before_ms) cron_invalid;
  next ← next_from_minute (not_before_ms / MINUTE_MS);
  match loop_upto (latest_step not_before_ms at_or_before_ms)
          (Z.to_pos ((at_or_before_ms - not_before_ms) / MINUTE_MS + 3)) (next, None) with
  | inr r => r
  | inl _ => Err no_slot
  end.

(** ** Bounds of the slots *)

Lemma next_from_minute_ge c t : next_from_minute c = Ok t → c * MINUTE_MS ≤ t.
Proof.
  unfold next_from_minute. intros H. destruct_result.
  destruct (loop_upto _ _ _) as [|r] eqn:Hl; [done|]. subst r.
  eapply (loop_upto_partial _ (λ x, c ≤ x)
    (λ r, match r with Ok t => c * MINUTE_MS ≤ t | Err _ => True end)) in Hl; [done|..|lia].
  - intros x x' Hx. unfold search_step. case_decide; [|done].
    destruct (i64_checked (x * _)); [|done]. destruct (timestamp_matches _) as [[]|]; [done| |done].
    destruct (i64_checked (x + 1)) as [x''|] eqn:E; [|done]. intros [= <-].
    apply i64_checked_Some in E as [-> _]. lia.
  - intros x r Hx. unfold search_step. case_decide; [|by intros [= <-]].
    destruct (i64_checked (x * _)) as [y|] eqn:E; [|by intros [= <-]].
    apply i64_checked_Some in E as [-> _]. destruct (timestamp_matches _) as [[]|].
    + intros [= <-]. assert (MINUTE_MS = 60000) by done. nia.
    + destruct (i64_checked (x + 1)); [done|by intros [= <-]].
    + by intros [= <-].
Qed.

Lemma next_after_ms_gt after t : next_after_ms after = Ok t → after < t.
Proof.
  unfold next_after_ms. intros H. destruct_result. apply next_from_minute_ge in H.
  pose proof (Z.div_mod after MINUTE_MS ltac:(done)). pose proof (Z.mod_pos_bound after MINUTE_MS ltac:(done)).
  lia.
Qed.

Lemma latest_at_or_before_ms_in lo hi t :
  latest_at_or_before_ms lo hi = Ok (Some t) → lo ≤ t ≤ hi.
Proof.
  unfold latest_at_or_before_ms. intros H. destruct_result.
  destruct (loop_upto _ _ _) as [|r] eqn:Hl; [done|]. subst r.
  eapply (loop_upto_partial _ (λ st, is_none_or (λ x, lo ≤ x ≤ hi) st.2)
    (λ r, match r with Ok (Some x) => lo ≤ x ≤ hi | _ => True end)) in Hl; [done|..|done].
  - intros [x l] st' Hx. unfold latest_step. destruct (decide (x ≤ hi)); [|done].
    destruct (next_after_ms x); [|done]. intros [= <-]. cbn [snd]. destruct (decide (lo ≤ x)); [by split|exact Hx].
  - intros [x l] r Hx. unfold latest_step. destruct (decide (x ≤ hi)).
    + destruct (next_after_ms x); [done|]. by intros [= <-].
    + intros [= <-]. cbn in Hx. by destruct l.
Qed.

(** ** The slots are exact *)

(** The times at which the schedule fires. *)
Definition fires (t : Z) : Prop := t mod MINUTE_MS = 0 ∧ timestamp_matches t = Ok true.

(** The calendar and the field patterns decide every minute: no field of a valid time
    is outside the range of its pattern. *)
Context (decides : ∀ t, is_ok (timestamp_matches t) = true).

(** A schedule is silent on a stretch of minutes when it fires on none of them. *)
Definition silent (from to : Z) : Prop := ∀ m, from ≤ m ≤ to → timestamp_matches (m * MINUTE_MS) = Ok false.

Lemma fires_minute m : fires (m * MINUTE_MS) ↔ timestamp_matches (m * MINUTE_MS) = Ok true.
Proof. unfold fires. rewrite Z.mod_mul by done. naive_solver. Qed.

Lemma fires_inv t : fires t → ∃ m, t = m * MINUTE_MS ∧ timestamp_matches (m * MINUTE_MS) = Ok true.
Proof.
  intros [Hmod Ht]. exists (t / MINUTE_MS).
  assert (Heq : t = t / MINUTE_MS * MINUTE_MS) by (pose proof (Z.div_mod t MINUTE_MS ltac:(done)); lia).
  by rewrite <-Heq.
Qed.

(** The minutes whose timestamps a signed 64-bit integer holds. *)
Definition in_range (m : Z) : Prop := 0 ≤ m ∧ (m + SEARCH_MINUTES + 1) * MINUTE_MS ≤ i64_max.

Lemma next_from_minute_exact c :
  in_range c →
  match next_from_minute c with
  | Ok t => ∃ m, t = m * MINUTE_MS ∧ c ≤ m ≤ c + SEARCH_MINUTES ∧ fires t ∧ silent c (m - 1)
  | Err e => e = no_slot ∧ silent c (c + SEARCH_MINUTES)
  end.
Proof.
  intros [Hc Hlim]. unfold next_from_minute.
  assert (HS : SEARCH_MINUTES = 6324480) by done. assert (HM : MINUTE_MS = 60000) by done.
  rewrite i64_checked_in by (unfold in_i64; lia). cbn [mbind result_bind ok_or_else].
  edestruct (loop_upto_inv (search_step (c + SEARCH_MINUTES))
    (λ x, c ≤ x ≤ c + SEARCH_MINUTES + 1 ∧ silent c (x - 1))
    (λ r, match r with
          | Ok t => ∃ m, t = m * MINUTE_MS ∧ c ≤ m ≤ c + SEARCH_MINUTES ∧ fires t ∧ silent c (m - 1)
          | Err e => e = no_slot ∧ silent c (c + SEARCH_MINUTES) end)
    (λ x, c + SEARCH_MINUTES + 1 - x)) as (r & -> & Hr); [..|exact Hr].
  - intros x x' [Hx Hs]. unfold search_step. case_decide; [|done].
    rewrite i64_checked_in by (unfold in_i64; lia).
    destruct (timestamp_matches (x * MINUTE_MS)) as [[]|] eqn:Hm; [done| |done].
    rewrite i64_checked_in by (unfold in_i64; lia). intros [= <-]. split; [|lia]. split; [lia|].
    intros m Hrange. destruct (decide (m = x)) as [->|]; [done|]. apply Hs. lia.
  - intros x r [Hx Hs]. unfold search_step. case_decide.
    + rewrite i64_checked_in by (unfold in_i64; lia).
      destruct (timestamp_matches (x * MINUTE_MS)) as [[]|e] eqn:Hm.
      * intros [= <-]. exists x. split_and!; [done|lia|lia|by apply fires_minute|done].
      * by rewrite i64_checked_in by (unfold in_i64; lia).
      * specialize (decides (x * MINUTE_MS)). by rewrite Hm in decides.
    + intros [= <-]. split; [done|]. intros m Hrange. apply Hs. lia.
  - intros x [Hx _]. lia.
  - split; [lia|]. intros m Hrange. lia.
  - rewrite Z2Pos.id; lia.
Qed.

Lemma minute_le t u : t mod MINUTE_MS = 0 → t ≤ u ↔ t / MINUTE_MS ≤ u / MINUTE_MS.
Proof.
  intros Ht. assert (HM : MINUTE_MS = 60000) by done.
  pose proof (Z.div_mod t MINUTE_MS ltac:(done)). pose proof (Z.div_mod u MINUTE_MS ltac:(done)).
  pose proof (Z.mod_pos_bound u MINUTE_MS ltac:(done)). rewrite HM in *. lia.
Qed.

(** A slot on a silent stretch would contradict it. *)
Lemma silent_fires from to u : silent from to → fires u → ¬ (from ≤ u / MINUTE_MS ≤ to).
Proof.
  intros Hs (m & -> & Hm)%fires_inv. rewrite Z.div_mul by done.
  intros Hr. specialize (Hs m Hr). congruence.
Qed.

Lemma next_after_ms_exact after :
  0 ≤ after → in_range (after / MINUTE_MS + 1) →
  match next_after_ms after with
  | Ok t => fires t ∧ after < t ∧ ∀ u, fires u → after < u → t ≤ u
  | Err e => e = no_slot ∧
      silent (after / MINUTE_MS + 1) (after / MINUTE_MS + 1 + SEARCH_MINUTES)
  end.
Proof.
  intros Hafter Hr. unfold next_after_ms, bail_if. rewrite decide_False by lia. cbn.
  pose proof (next_from_minute_exact _ Hr) as H. destruct (next_from_minute _) as [t|e]; [|done].
  destruct H as (m & -> & Hm & Hf & Hs).
  assert (Hlt : ∀ v, fires v → after < v ↔ after / MINUTE_MS + 1 ≤ v / MINUTE_MS).
  { intros v [Hv _]. pose proof (minute_le v after Hv). lia. }
  split_and!; [done| |].
  - apply Hlt; [done|]. rewrite Z.div_mul by done. lia.
  - intros u Hu Hau%Hlt; [|done]. apply minute_le; [apply Hf|].
    rewrite Z.div_mul by done. pose proof (silent_fires _ _ u Hs Hu). lia.
Qed.

(** What the loop over the slots of an interval knows. *)
Definition latest_inv (lo hi : Z) (st : Z * option Z) : Prop :=
  fires st.1 ∧ lo / MINUTE_MS ≤ st.1 / MINUTE_MS ∧
  match st.2 with
  | Some t => fires t ∧ lo ≤ t ≤ hi ∧ (∀ u, fires u → lo ≤ u < st.1 → u ≤ t)
  | None => ∀ u, fires u → ¬ (lo ≤ u < st.1)
  end.

Lemma latest_inv_step lo hi next latest next' :
  latest_inv lo hi (next, latest) → next ≤ hi → fires next' → next < next' →
  (∀ u, fires u → next < u → next' ≤ u) →
  latest_inv lo hi (next', if decide (lo ≤ next) then Some next else latest).
Proof.
  intros (Hf & Hlo & Hl) Hhi Hf' Hlt Hmin. cbn in *. split_and!; cbn; [done| |].
  - pose proof (proj1 (minute_le next next' (proj1 Hf)) ltac:(lia)). lia.
  - assert (Hgap : ∀ u, fires u → u < next' → u ≤ next).
    { intros u Hu ?. destruct (decide (u ≤ next)); [done|]. specialize (Hmin u Hu ltac:(lia)). lia. }
    case_decide.
    + split_and!; [done|lia|lia|]. intros u Hu ?. apply Hgap; [done|lia].
    + destruct latest as [t|].
      * destruct Hl as (? & ? & Hl). split_and!; [done|lia|lia|].
        intros u Hu ?. apply Hl; [done|]. specialize (Hgap u Hu ltac:(lia)). lia.
      * intros u Hu ?. specialize (Hgap u Hu ltac:(lia)). lia.
Qed.

(** What the calculator returns for an interval. *)
Definition latest_spec (lo hi : Z) (r : result PlatformError (option Z)) : Prop :=
  match r with
  | Ok (Some t) => fires t ∧ lo ≤ t ≤ hi ∧ ∀ u, fires u → lo ≤ u ≤ hi → u ≤ t
  | Ok None => ∀ u, fires u → ¬ (lo ≤ u ≤ hi)
  | Err e => e = no_slot ∧ ∃ m, lo / MINUTE_MS ≤ m ≤ hi / MINUTE_MS + 1 ∧ silent m (m + SEARCH_MINUTES)
  end.

Section interval.
Context (lo hi : Z) (Hlo : 0 ≤ lo) (Hhi : lo ≤ hi) (Hrange : in_range (hi / MINUTE_MS + 1)).

Lemma interval_in_range x : 0 ≤ x ≤ hi / MINUTE_MS + 1 → in_range x.
Proof.
  unfold in_range in *. assert (HM : MINUTE_MS = 60000) by done. rewrite HM in *. intros Hx. lia.
Qed.

Lemma lo_minute : 0 ≤ lo / MINUTE_MS ≤ hi / MINUTE_MS.
Proof. split; [by apply Z.div_pos|by apply Z.div_le_mono]. Qed.

(** The next slot after a slot of the loop. *)
Lemma latest_next st :
  latest_inv lo hi st → st.1 ≤ hi →
  match next_after_ms st.1 with
  | Ok t => fires t ∧ st.1 < t ∧ ∀ u, fires u → st.1 < u → t ≤ u
  | Err e => e = no_slot ∧ ∃ m, lo / MINUTE_MS ≤ m ≤ hi / MINUTE_MS + 1 ∧ silent m (m + SEARCH_MINUTES)
  end.
Proof.
  intros (Hf & Hge & _) Hle. pose proof lo_minute. pose proof (Z.div_le_mono _ _ MINUTE_MS ltac:(done) Hle).
  assert (0 ≤ st.1).
  { destruct (decide (0 ≤ st.1)); [done|].
    pose proof (Z.div_lt_upper_bound st.1 MINUTE_MS 0 ltac:(done) ltac:(lia)). lia. }
  pose proof (next_after_ms_exact st.1 ltac:(done) (interval_in_range (st.1 / MINUTE_MS + 1) ltac:(lia))) as Hn.
  destruct (next_after_ms st.1); [done|]. destruct Hn as [-> Hs]. split; [done|].
  exists (st.1 / MINUTE_MS + 1). split; [lia|done].
Qed.

Lemma latest_continue st st' :
  latest_inv lo hi st → latest_step lo hi st = inl st' →
  latest_inv lo hi st' ∧ Z.max 0 (hi / MINUTE_MS + 1 - st'.1 / MINUTE_MS) <
                         Z.max 0 (hi / MINUTE_MS + 1 - st.1 / MINUTE_MS).
Proof.
  destruct st as [next latest]. intros Hinv. unfold latest_step. case_decide as Hle; [|done].
  pose proof (latest_next _ Hinv Hle) as Hn. cbn [fst] in *.
  destruct (next_after_ms next) as [next'|]; [|done]. destruct Hn as (Hf' & Hlt & Hmin).
  intros [= <-]. split; [by apply latest_inv_step|]. cbn [fst].
  pose proof (minute_le next' next (proj1 Hf')). pose proof (Z.div_le_mono _ _ MINUTE_MS ltac:(done) Hle).
  lia.
Qed.

Lemma latest_stop st r :
  latest_inv lo hi st → latest_step lo hi st = inr r → latest_spec lo hi r.
Proof.
  destruct st as [next latest]. intros Hinv. unfold latest_step. case_decide as Hle.
  - pose proof (latest_next _ Hinv Hle) as Hn. cbn [fst] in *.
    destruct (next_after_ms next); [done|]. by intros [= <-].
  - intros [= <-]. destruct Hinv as (Hf & _ & Hl). cbn in Hf, Hl. destruct latest as [t|]; cbn.
    + destruct Hl as (? & ? & Hl). split_and!; [done|lia|lia|]. intros u Hu ?. apply Hl; [done|lia].
    + intros u Hu ?. apply (Hl u Hu). lia.
Qed.

Lemma latest_start m :
  fires (m * MINUTE_MS) → lo / MINUTE_MS ≤ m → silent (lo / MINUTE_MS) (m - 1) →
  latest_inv lo hi (m * MINUTE_MS, None).
Proof.
  intros Hf Hm Hs. split_and!; cbn [fst snd]; [done|by rewrite Z.div_mul|]. intros u Hu [Hlu Hlt].
  pose proof (minute_le (m * MINUTE_MS) u (proj1 Hf)) as Hle. rewrite Z.div_mul in Hle by done.
  pose proof (silent_fires _ _ u Hs Hu). pose proof (Z.div_le_mono _ _ MINUTE_MS ltac:(done) Hlu). lia.
Qed.

(** The bound of the loop is the number of minutes of the interval. *)
Lemma latest_bound m :
  lo / MINUTE_MS ≤ m →
  Z.max 0 (hi / MINUTE_MS + 1 - m) < Z.pos (Z.to_pos ((hi - lo) / MINUTE_MS + 3)).
Proof.
  intros Hm. assert (HM : MINUTE_MS = 60000) by done. rewrite HM in *.
  assert (0 ≤ (hi - lo) / 60000) by (apply Z.div_pos; lia). rewrite Z2Pos.id by lia.
  pose proof (Z.div_mod hi 60000 ltac:(done)). pose proof (Z.div_mod lo 60000 ltac:(done)).
  pose proof (Z.div_mod (hi - lo) 60000 ltac:(done)). pose proof (Z.mod_pos_bound hi 60000 ltac:(done)).
  pose proof (Z.mod_pos_bound lo 60000 ltac:(done)). pose proof (Z.mod_pos_bound (hi - lo) 60000 ltac:(done)).
  lia.
Qed.

Lemma latest_exact : latest_spec lo hi (latest_at_or_before_ms lo hi).
Proof.
  pose proof lo_minute. unfold latest_at_or_before_ms, bail_if. rewrite decide_False by lia. cbn [mbind result_bind].
  pose proof (next_from_minute_exact (lo / MINUTE_MS) (interval_in_range (lo / MINUTE_MS) ltac:(lia))) as Hn.
  destruct (next_from_minute _) as [t0|e]; cbn [mbind result_bind];
    [|destruct Hn as [-> Hn]; split; [done|]; exists (lo / MINUTE_MS); split; [lia|done]].
  destruct Hn as (m0 & -> & Hm0 & Hf0 & Hs0).
  edestruct (loop_upto_inv (latest_step lo hi) (latest_inv lo hi) (latest_spec lo hi)
    (λ st, Z.max 0 (hi / MINUTE_MS + 1 - st.1 / MINUTE_MS))) as (r & -> & Hr); [..|exact Hr].
  - intros st st'. apply latest_continue.
  - intros st r. apply latest_stop.
  - intros st _. lia.
  - apply latest_start; [done|lia|done].
  - cbn [fst]. rewrite Z.div_mul by done. apply latest_bound. lia.
Qed.
End interval.

(** C40. The slot calculator is exact.  The next slot after a time is the first minute
    after it at which the schedule fires, and the search fails only if the schedule is
    silent for the twelve years that follow.  The latest slot of an interval is the last
    minute of it at which the schedule fires, and there is none only if it fires at no
    minute of it; the loops over minutes and slots always end. *)
Theorem slots_exact (lo hi : Z) (Hlo : 0 ≤ lo) (Hhi : lo ≤ hi) (Hrange : in_range (hi / MINUTE_MS + 1)) :
  match next_after_ms hi with
  | Ok t => fires t ∧ hi < t ∧ ∀ u, fires u → hi < u → t ≤ u
  | Err e => e = no_slot ∧ silent (hi / MINUTE_MS + 1) (hi / MINUTE_MS + 1 + SEARCH_MINUTES)
  end ∧
  match latest_at_or_before_ms lo hi with
  | Ok (Some t) => fires t ∧ lo ≤ t ≤ hi ∧ ∀ u, fires u → lo ≤ u ≤ hi → u ≤ t
  | Ok None => ∀ u, fires u → ¬ (lo ≤ u ≤ hi)
  | Err e => e = no_slot ∧ ∃ m, lo / MINUTE_MS ≤ m ≤ hi / MINUTE_MS + 1 ∧ silent m (m + SEARCH_MINUTES)
  end.
Proof. split; [apply next_after_ms_exact; [lia|done]|]. by apply latest_exact. Qed.
End slots.

(** ** Normalisation *)

Lemma uppercase_ws c : is_whitespace (uppercase c) ↔ is_whitespace c.
Proof. unfold uppercase, is_whitespace. case_decide; lia. Qed.
Lemma uppercase_ascii_ws c : is_ascii_whitespace (uppercase c) ↔ is_ascii_whitespace c.
Proof. unfold uppercase, is_ascii_whitespace. case_decide; lia. Qed.
Lemma uppercase_eq c d : ¬ 65 ≤ d ≤ 90 → ¬ 97 ≤ d ≤ 122 → uppercase c = d ↔ c = d.
Proof. unfold uppercase. case_decide; lia. Qed.
Lemma ascii_ws_ws c : is_ascii_whitespace c → is_whitespace c.
Proof. unfold is_ascii_whitespace, is_whitespace. lia. Qed.

Lemma str_len_upper w : str_len (to_ascii_uppercase w) = str_len w.
Proof.
  induction w as [|c w IH]; [done|]. change (len_utf8 (uppercase c) + str_len (to_ascii_uppercase w) = len_utf8 c + str_len w).
  rewrite IH. f_equal. unfold uppercase, len_utf8. repeat case_decide; lia.
Qed.

Lemma split_where_upper (P : Z → bool) w :
  (∀ c, P (uppercase c) = P c) → split_where P (to_ascii_uppercase w) = to_ascii_uppercase <$> split_where P w.
Proof.
  intros HP. induction w as [|c w IH]; [done|]. cbn [split_where].
  change (to_ascii_uppercase (c :: w)) with (uppercase c :: to_ascii_uppercase w).
  cbn [split_where]. rewrite HP, IH. by destruct (P c), (split_where P w).
Qed.

Lemma split_upper sep w :
  ¬ 65 ≤ sep ≤ 90 → ¬ 97 ≤ sep ≤ 122 → split sep (to_ascii_uppercase w) = to_ascii_uppercase <$> split sep w.
Proof.
  intros H1 H2. apply split_where_upper. intros c. apply Bool.eq_iff_eq_true. rewrite !Z.eqb_eq.
  pose proof (uppercase_eq c sep H1 H2). naive_solver.
Qed.

Lemma split_once_upper sep w :
  ¬ 65 ≤ sep ≤ 90 → ¬ 97 ≤ sep ≤ 122 →
  split_once sep (to_ascii_uppercase w) =
    '(l, r) ← split_once sep w; Some (to_ascii_uppercase l, to_ascii_uppercase r).
Proof.
  intros H1 H2. unfold split_once.
  assert (H : split_at_first (Z.eqb sep) (to_ascii_uppercase w) =
    '(l, r) ← split_at_first (Z.eqb sep) w; Some (to_ascii_uppercase l, to_ascii_uppercase r)).
  { induction w as [|c w IH]; [done|].
    change (to_ascii_uppercase (c :: w)) with (uppercase c :: to_ascii_uppercase w). cbn [split_at_first].
    assert (E : (sep =? uppercase c) = (sep =? c)).
    { apply Bool.eq_iff_eq_true. rewrite !Z.eqb_eq. pose proof (uppercase_eq c sep H1 H2). naive_solver. }
    rewrite E. destruct (sep =? c); [done|]. rewrite IH. by destruct (split_at_first _ w) as [[]|]. }
  rewrite H. destruct (split_at_first _ w) as [[l r]|]; cbn; [|done]. by destruct r.
Qed.

Lemma parse_u8_upper w : parse_u8 (to_ascii_uppercase w) = parse_u8 w.
Proof.
  assert (Hd : ∀ ds, Forall is_digit (to_ascii_uppercase ds) ↔ Forall is_digit ds).
  { intros ds. unfold to_ascii_uppercase. rewrite Forall_fmap. apply Forall_iff. intros c.
    unfold is_digit, uppercase. cbn. case_decide; lia. }
  assert (Hid : ∀ ds, Forall is_digit ds → to_ascii_uppercase ds = ds).
  { intros ds. induction 1 as [|c ds Hc _ IH]; [done|]. unfold to_ascii_uppercase in *. rewrite fmap_cons, IH.
    f_equal. unfold is_digit, uppercase in *. case_decide; lia. }
  assert (H : ∀ ds, (if decide (to_ascii_uppercase ds ≠ [] ∧ Forall is_digit (to_ascii_uppercase ds) ∧ decimal (to_ascii_uppercase ds) ≤ 255)
              then Some (decimal (to_ascii_uppercase ds)) else None) =
             (if decide (ds ≠ [] ∧ Forall is_digit ds ∧ decimal ds ≤ 255) then Some (decimal ds) else None)).
  { intros ds. destruct (decide (Forall is_digit ds)) as [Hds|Hds]; [by rewrite Hid|].
    rewrite !decide_False; [done|tauto|]. rewrite Hd. tauto. }
  unfold parse_u8. destruct w as [|c w]; [done|].
  change (to_ascii_uppercase (c :: w)) with (uppercase c :: to_ascii_uppercase w).
  destruct (decide (c = 43)) as [->|Hc]; [apply H|].
  assert (uppercase c ≠ 43) by (rewrite uppercase_eq; lia).
  assert (Hm : ∀ (x : Z) (y : ustr), x ≠ 43 → match x :: y with 43 :: s => s | _ => x :: y end = x :: y).
  { intros x y Hx. repeat first [done|match goal with |- context [match ?p with _ => _ end] => is_var p; destruct p end]. }
  rewrite !Hm by done. apply (H (c :: w)).
Qed.

Lemma bad_step_upper item : bad_step (to_ascii_uppercase item) = bad_step item.
Proof.
  unfold bad_step. rewrite split_once_upper by lia. destruct (split_once 47 item) as [[l r]|]; [|done].
  cbn. by rewrite parse_u8_upper.
Qed.

(** A trimmed text neither starts nor ends with whitespace. *)
Lemma trim_start_length P s : (length (trim_start P s) ≤ length s)%nat.
Proof. induction s as [|c s IH]; cbn; [done|]. destruct (P c); cbn; lia. Qed.

Lemma trim_matches_head P s c : trim_matches P s = s → head s = Some c → P c = false.
Proof.
  intros Ht Hc. destruct s as [|c' s]; [done|]. injection Hc as ->. destruct (P c) eqn:HP; [|done].
  apply (f_equal length) in Ht. unfold trim_matches in Ht. rewrite length_reverse in Ht.
  pose proof (trim_start_length P (reverse (trim_start P (c :: s)))) as Hl.
  rewrite length_reverse in Hl. cbn in Hl, Ht. rewrite HP in Hl, Ht. pose proof (trim_start_length P s). lia.
Qed.

Lemma trim_matches_last P s d : trim_matches P s = s → last s = Some d → P d = false.
Proof.
  intros Ht Hd. destruct (P d) eqn:HP; [|done]. exfalso.
  assert (Hh : trim_start P s = s).
  { destruct s as [|c s]; [done|]. apply trim_start_fixed. by eapply trim_matches_head. }
  unfold trim_matches in Ht. rewrite Hh in Ht. apply last_Some in Hd as [s' ->].
  rewrite reverse_snoc in Ht. cbn [trim_start] in Ht. rewrite HP in Ht. apply (f_equal length) in Ht.
  rewrite length_reverse, length_app in Ht. pose proof (trim_start_length P (reverse s')) as Hl.
  rewrite length_reverse in Hl. cbn in Ht. lia.
Qed.

(** The first and the last word of a text that neither starts nor ends with a separator. *)
Lemma split_where_head P c s :
  P c = false → ∃ w ws, split_where P (c :: s) = (c :: w) :: ws.
Proof.
  intros Hc. cbn. rewrite Hc. pose proof (split_where_length P s).
  destruct (split_where P s) as [|w ws]; [done|]. eauto.
Qed.

Lemma split_where_last P d s :
  P d = false → last s = Some d → ∃ w ws, split_where P s = ws ++ [w] ∧ last w = Some d.
Proof.
  intros Hd. induction s as [|c s IH]; [done|]. destruct s as [|c' s].
  - intros [= ->]. cbn. rewrite Hd. by exists [d], [].
  - intros Hl. destruct (IH Hl) as (w & ws & Hsp & Hw). cbn [split_where] in Hsp |- *.
    rewrite Hsp. destruct (P c).
    + exists w, ([] :: ws). by rewrite app_comm_cons.
    + destruct ws as [|w' ws]; cbn.
      * exists (c :: w), []. split; [done|]. by rewrite last_cons, Hw.
      * exists w, ((c :: w') :: ws). done.
Qed.

Definition words_len (ws : list ustr) : Z := foldr (λ w n, str_len w + 1 + n) 0 ws.

Lemma words_len_cons w ws : words_len (w :: ws) = str_len w + 1 + words_len ws.
Proof. done. Qed.
Lemma str_len_cons c s : str_len (c :: s) = len_utf8 c + str_len s.
Proof. done. Qed.

Lemma str_len_join sep ws :
  len_utf8 sep = 1 → ws ≠ [] → str_len (join sep ws) = words_len ws - 1.
Proof.
  intros Hsep Hne. induction ws as [|w ws IH]; [done|].
  destruct ws as [|w' ws]; [rewrite words_len_cons; change (words_len []) with 0; cbn [join]; lia|].
  change (join sep (w :: w' :: ws)) with (w ++ sep :: join sep (w' :: ws)).
  rewrite str_len_app, str_len_cons, IH, Hsep, (words_len_cons w) by done. lia.
Qed.

Lemma str_len_split P s : words_len (split_where P s) ≤ str_len s + 1.
Proof.
  induction s as [|c s IH]; [done|]. rewrite str_len_cons.
  pose proof (len_utf8_range c). pose proof (split_where_length P s). cbn [split_where].
  destruct (P c); [rewrite words_len_cons; change (str_len []) with 0; lia|].
  destruct (split_where P s) as [|w ws]; [done|]. rewrite words_len_cons, ?str_len_cons in *. lia.
Qed.

Lemma words_len_filter ws : words_len (filter (λ w, w ≠ []) ws) ≤ words_len ws.
Proof.
  induction ws as [|w ws IH]; [done|]. rewrite filter_cons. pose proof (str_len_length w).
  case_decide; rewrite ?words_len_cons.
  - apply Z.add_le_mono_l. exact IH.
  - etrans; [exact IH|]. lia.
Qed.

Lemma words_len_upper ws : words_len (to_ascii_uppercase <$> ws) = words_len ws.
Proof. induction ws as [|w ws IH]; [done|]. rewrite fmap_cons, !words_len_cons, IH. by rewrite str_len_upper. Qed.

Lemma head_join sep c w ws : head (join sep ((c :: w) :: ws)) = Some c.
Proof. by destruct ws. Qed.

Lemma last_join sep ws w d : last w = Some d → last (join sep (ws ++ [w])) = Some d.
Proof.
  intros Hw. induction ws as [|w' ws IH]; [done|].
  assert (Hne : join sep (ws ++ [w]) ≠ []) by (intros E; by rewrite E in IH).
  change ((w' :: ws) ++ [w]) with (w' :: (ws ++ [w])).
  assert (Hj : join sep (w' :: ws ++ [w]) = w' ++ sep :: join sep (ws ++ [w])) by (by destruct ws).
  rewrite Hj, last_app, last_cons, IH. done.
Qed.

Lemma filter_all {A} (P : A → Prop) `{!∀ x, Decision (P x)} l : Forall P l → filter P l = l.
Proof. induction 1 as [|x l Hx _ IH]; [done|]. by rewrite filter_cons_True, IH. Qed.

Section normalisation.
Context (cloudflare_syntax : ustr → bool) (croner_parse : ustr → option CronPattern).

Definition ascii_ws (c : Z) : bool := bool_decide (is_ascii_whitespace c).

Lemma ascii_ws_upper c : ascii_ws (uppercase c) = ascii_ws c.
Proof. apply bool_decide_ext, uppercase_ascii_ws. Qed.

Section expression.
Context (e : ustr) (Hne : e ≠ []) (Htrim : trim e = e).
Local Notation fields := (split_ascii_whitespace e).

(** The fields of a trimmed expression start and end where it does. *)
Lemma fields_ends :
  ∃ c d w ws w' ws', head e = Some c ∧ last e = Some d ∧ ¬ is_whitespace c ∧ ¬ is_whitespace d ∧
    fields = (c :: w) :: ws ∧ fields = ws' ++ [w'] ∧ last w' = Some d.
Proof.
  destruct e as [|c s] eqn:He; [done|]. destruct (last (c :: s)) as [d|] eqn:Hl; [|by apply last_None in Hl].
  assert (Hc : ¬ is_whitespace c).
  { apply (bool_decide_eq_false (is_whitespace c)). by apply (trim_matches_head ws_char (c :: s)). }
  assert (Hd : ¬ is_whitespace d).
  { apply (bool_decide_eq_false (is_whitespace d)). by apply (trim_matches_last ws_char (c :: s)). }
  assert (Hna : ∀ x, ¬ is_whitespace x → ascii_ws x = false).
  { intros x Hx. apply bool_decide_eq_false. intros ?. by apply Hx, ascii_ws_ws. }
  destruct (split_where_head ascii_ws c s (Hna c Hc)) as (w & ws & Hw).
  destruct (split_where_last ascii_ws d (c :: s) (Hna d Hd) Hl) as (w' & ws' & Hw' & Hlw).
  exists c, d, w, (filter (λ w, w ≠ []) ws), w', (filter (λ w, w ≠ []) ws').
  split_and!; try done; unfold split_ascii_whitespace.
  - change (λ c, bool_decide (is_ascii_whitespace c)) with ascii_ws. by rewrite Hw, filter_cons_True.
  - change (λ c, bool_decide (is_ascii_whitespace c)) with ascii_ws. rewrite Hw', filter_app.
    f_equal. rewrite filter_cons_True; [done|]. by intros ->.
Qed.

Lemma fields_words : Forall (λ w, w ≠ [] ∧ Forall (λ c, ascii_ws c = false) w) fields.
Proof.
  apply Forall_forall. intros w [Hw Hin]%list_elem_of_filter. split; [done|].
  pose proof (split_where_words ascii_ws e) as H. rewrite Forall_forall in H. by apply H.
Qed.

(** The fields of the normalised expression are those of the expression. *)
Lemma normalize_fields : split_ascii_whitespace (normalize fields) = to_ascii_uppercase <$> fields.
Proof.
  unfold split_ascii_whitespace at 1, normalize.
  change (λ c, bool_decide (is_ascii_whitespace c)) with ascii_ws.
  pose proof fields_words as Hf. destruct fields_ends as (c & d & w & ws & w' & ws' & _ & _ & _ & _ & Hfs & _).
  rewrite split_where_join; [|done|by rewrite Hfs|].
  - apply filter_all. rewrite Forall_fmap. eapply Forall_impl; [done|].
    intros x [Hx _]. cbn. by destruct x.
  - rewrite Forall_fmap. eapply Forall_impl; [done|]. intros x [_ Hx]. cbn. unfold to_ascii_uppercase.
    rewrite Forall_fmap. eapply Forall_impl; [done|]. intros y Hy. cbn. by rewrite ascii_ws_upper.
Qed.

Lemma normalize_trimmed : normalize fields ≠ [] ∧ trim (normalize fields) = normalize fields.
Proof.
  destruct fields_ends as (c & d & w & ws & w' & ws' & _ & _ & Hc & Hd & Hfs & Hfs' & Hl).
  assert (Hh : head (normalize fields) = Some (uppercase c)).
  { unfold normalize. rewrite Hfs, fmap_cons. apply head_join. }
  assert (Hlast : last (normalize fields) = Some (uppercase d)).
  { unfold normalize. rewrite Hfs', fmap_app. apply last_join. unfold to_ascii_uppercase.
    by rewrite fmap_last, Hl. }
  destruct (normalize fields) as [|x s]; [done|]. injection Hh as ->. split; [done|].
  apply (trim_matches_fixed _ _ _ (uppercase d)); try done; apply bool_decide_eq_false; by rewrite uppercase_ws.
Qed.

Lemma normalize_short : str_len (normalize fields) ≤ str_len e.
Proof.
  destruct fields_ends as (c & d & w & ws & w' & ws' & _ & _ & _ & _ & Hfs & _).
  unfold normalize. rewrite str_len_join; [|done|by rewrite Hfs]. rewrite words_len_upper.
  unfold split_ascii_whitespace. pose proof (words_len_filter (split_where ascii_ws e)).
  pose proof (str_len_split ascii_ws e).
  change (λ c, bool_decide (is_ascii_whitespace c)) with ascii_ws. lia.
Qed.
End expression.

Lemma normalize_upper fields : normalize (to_ascii_uppercase <$> fields) = normalize fields.
Proof.
  unfold normalize. f_equal. rewrite <-list_fmap_compose. apply list_fmap_ext. intros ? x _.
  apply to_ascii_uppercase_idemp.
Qed.

Lemma question_mark_upper fields :
  Exists (λ field, 63 ∈ field) (to_ascii_uppercase <$> fields) ↔ Exists (λ field, 63 ∈ field) fields.
Proof.
  rewrite !Exists_exists. setoid_rewrite list_elem_of_fmap. split.
  - intros (x & (f & -> & Hf) & Hx). exists f. split; [done|].
    apply list_elem_of_fmap in Hx as (y & Hy & ?). symmetry in Hy. apply (uppercase_eq y 63) in Hy; [by rewrite Hy in *|lia..].
  - intros (f & Hf & Hx). exists (to_ascii_uppercase f). split; [eauto|].
    apply list_elem_of_fmap. by exists 63.
Qed.

Lemma bad_steps_upper fields :
  Exists (λ item, bad_step item = true) ((to_ascii_uppercase <$> fields) ≫= split 44) ↔
  Exists (λ item, bad_step item = true) (fields ≫= split 44).
Proof.
  induction fields as [|f fields IH]; [done|]. rewrite fmap_cons. cbn [mbind list_bind].
  rewrite !Exists_app, IH, split_upper by lia. apply or_iff_compat_r.
  rewrite !Exists_exists. setoid_rewrite list_elem_of_fmap. split.
  - intros (x & (y & -> & ?) & Hx). exists y. by rewrite <-bad_step_upper.
  - intros (y & ? & Hy). exists (to_ascii_uppercase y). rewrite bad_step_upper. eauto.
Qed.

(** The normalised spelling of an expression is canonical: it parses to the same
    schedule, with itself as its normalised spelling. *)
Theorem parse_normalized (e : ustr) (s : CronSchedule)
    (Hparse : parse cloudflare_syntax croner_parse e = Ok s) :
  parse cloudflare_syntax croner_parse s.(normalized) = Ok s.
Proof.
  unfold parse in Hparse. cbv zeta in Hparse. destruct_result.
  repeat match goal with H : bail_if _ _ = Ok _ |- _ => apply bail_if_Ok in H end.
  injection Hparse as <-. cbn [normalized].
  assert (Htrim : trim e = e) by (apply dec_stable; tauto). assert (Hne : e ≠ []) by tauto.
  destruct (normalize_trimmed e Hne Htrim) as [Hne' Htrim']. pose proof (normalize_short e Hne Htrim).
  unfold parse, bail_if. rewrite (decide_False (P := _ ∨ _ ∨ _)) by (rewrite Htrim'; intros [?|[?|?]]; [done|lia|done]).
  cbn [mbind result_bind]. rewrite (normalize_fields e Hne Htrim), length_fmap.
  rewrite (decide_False (P := length _ ≠ _)) by tauto. cbn [mbind result_bind].
  rewrite (decide_False (P := Exists _ (_ <$> _))) by (by rewrite question_mark_upper). cbn [mbind result_bind].
  rewrite normalize_upper, (decide_False (P := _ ∨ _)) by (by rewrite bad_steps_upper). cbn [mbind result_bind].
  match goal with H : croner_parse _ = Some ?c, H' : ?c = _ |- _ => by rewrite H, H' end.
Qed.
End normalisation.

(** ** A concrete schedule *)

(** A pattern that matches the tenth minute of every hour, and a calendar of days of 24
    hours. *)
Definition ex_pattern : CronPattern :=
  cron_pattern (λ m, Some (m =? 10)) (λ _, Some true) (λ _, Some true) (λ _ _ _ _, Some true).
Definition ex_to_zoned (ms : Z) : option Zoned :=
  Some (zoned 1970 1 (1 + ms / 86400000) (ms / 3600000 mod 24) (ms / MINUTE_MS mod 60) 4).
Definition ex_days_in_month (_ _ : Z) : Z := 30.
Definition ex_syntax (_ : ustr) : bool := true.
Definition ex_croner (_ : ustr) : option CronPattern := Some ex_pattern.
Definition ex_schedule : CronSchedule := cron_schedule (lit "10 * * * MON") ex_pattern.

Lemma ex_decides t : is_ok (timestamp_matches ex_to_zoned ex_days_in_month ex_schedule t) = true.
Proof. unfold timestamp_matches, ex_to_zoned. cbn. by destruct (_ =? 10). Qed.

Lemma slots_exact_witness :
  next_after_ms ex_to_zoned ex_days_in_month ex_schedule 9000000 = Ok 11400000 ∧
  latest_at_or_before_ms ex_to_zoned ex_days_in_month ex_schedule 1000000 9000000 = Ok (Some 7800000) ∧
  ∀ u, fires ex_to_zoned ex_days_in_month ex_schedule u → 9000000 < u → 11400000 ≤ u.
Proof.
  split; [vm_compute; reflexivity|]. split; [vm_compute; reflexivity|].
  destruct (slots_exact ex_to_zoned ex_days_in_month ex_schedule ex_decides 1000000 9000000) as [H _];
    [lia|lia|split; vm_compute; congruence|].
  assert (E : next_after_ms ex_to_zoned ex_days_in_month ex_schedule 9000000 = Ok 11400000)
    by (vm_compute; reflexivity).
  rewrite E in H. apply H.
Defined.

Lemma parse_normalized_witness :
  parse ex_syntax ex_croner (lit "10 *  * * mon") = Ok ex_schedule ∧
  parse ex_syntax ex_croner (lit "10 * * * MON") = Ok ex_schedule.
Proof.
  assert (H : parse ex_syntax ex_croner (lit "10 *  * * mon") = Ok ex_schedule) by (vm_compute; reflexivity).
  split; [exact H|]. apply (parse_normalized ex_syntax ex_croner _ _ H).
Defined.
