(* ===== verification/CronStore.v ===== *)
(** * Cron runs

    The durable cron state machine of [crates/storage/src/scheduler/cron.rs] and its
    [cron/] files: schedules that project logical slots into runs, and runs that are
    claimed, completed, retried and retained.  The tables carry their constraints and
    triggers; ids are numbers with the order of their text. *)

From stdpp Require Import base numbers list option strings sorting gmap.
From S2P Require Import Prelude ErrorCodes Text Scheduler Sql CronSlots.

Local Open Scope Z_scope.

(** ** Tables *)

(** A row of [cron_schedules], by its [activation_id]. *)
Record Schedule := schedule_row {
  s_worker : N;
  s_version : N;
  s_generation : Z;
  s_expression : ustr;
  s_sha256 : list Z;
  s_parser_version : Z;
  next_fire_at_ms : Z;
  s_updated_at_ms : Z;
}.

Inductive CronRunState : Type := RReady | RClaimed | RComplete | RFailed | RSkipped.
#[export] Instance CronRunState_eq_dec : EqDecision CronRunState.
Proof. solve_decision. Defined.

Inductive CronUnknownReason : Type :=
| TransportTimeout | ConnectionLoss | MalformedResponse | RuntimeGenerationLost.
#[export] Instance CronUnknownReason_eq_dec : EqDecision CronUnknownReason.
Proof. solve_decision. Defined.

(** A row of [cron_runs], by its [id]. *)
Record Run := run_row {
  activation : N;
  run_worker : N;
  scheduled_at_ms : Z;
  run_version : N;
  run_generation : Z;
  expression : ustr;
  run_state : CronRunState;
  attempt : Z;
  no_retry : bool;
  next_attempt_at_ms : option Z;
  claimed_at_ms : option Z;
  first_dispatched_at_ms : option Z;
  dispatch_deadline_at_ms : option Z;
  last_unknown_reason : option CronUnknownReason;
  error_code : option string;
  created_at_ms : Z;
  completed_at_ms : option Z;
}.

Record CronDb := cron_db { schedules : gmap N Schedule; runs : gmap N Run; cron_wake : Z }.

Definition set_schedules (x : gmap N Schedule) (db : CronDb) : CronDb :=
  cron_db x db.(runs) db.(cron_wake).
Definition set_runs (x : gmap N Run) (db : CronDb) : CronDb :=
  cron_db db.(schedules) x db.(cron_wake).
Definition cron_notify (db : CronDb) : CronDb :=
  cron_db db.(schedules) db.(runs) (u64_wrap (db.(cron_wake) + 1)).

Abbreviation CM := (M CronDb PlatformError).

(** ** Constraints *)

Definition terminal (r : Run) : Prop :=
  r.(run_state) = RComplete ∨ r.(run_state) = RFailed ∨ r.(run_state) = RSkipped.
#[export] Instance terminal_dec r : Decision (terminal r).
Proof. unfold terminal. apply _. Defined.

Definition text_ok (s : ustr) : Prop := 1 ≤ Z.of_nat (length s) ≤ 256.
Definition code_ok (s : string) : Prop := 1 ≤ Z.of_nat (String.length s) ≤ 128.

(** An [INTEGER] is a signed 64-bit integer. *)
Definition schedule_check (s : Schedule) : Prop :=
  1 ≤ s.(s_generation) ≤ i64_max ∧ text_ok s.(s_expression) ∧ length s.(s_sha256) = 32%nat ∧
  1 ≤ s.(s_parser_version) ∧ 0 ≤ s.(next_fire_at_ms).

(** The deadline is fixed by the first dispatch. *)
Definition dispatch_check (r : Run) : Prop :=
  match r.(first_dispatched_at_ms), r.(dispatch_deadline_at_ms) with
  | None, None => r.(attempt) = 0
  | Some f, Some d => d = f + 900000
  | _, _ => False
  end.

(** The columns of each state. *)
Definition shape_check (r : Run) : Prop :=
  match r.(run_state) with
  | RReady => is_Some r.(next_attempt_at_ms) ∧ r.(claimed_at_ms) = None ∧ r.(completed_at_ms) = None
  | RClaimed => r.(next_attempt_at_ms) = None ∧ is_Some r.(claimed_at_ms) ∧ r.(completed_at_ms) = None
  | _ => r.(next_attempt_at_ms) = None ∧ r.(claimed_at_ms) = None ∧ is_Some r.(completed_at_ms)
  end.

Definition run_check (r : Run) : Prop :=
  0 ≤ r.(scheduled_at_ms) ∧ 1 ≤ r.(run_generation) ≤ i64_max ∧ text_ok r.(expression) ∧ 0 ≤ r.(attempt) ≤ 4 ∧
  is_none_or code_ok r.(error_code) ∧ is_none_or in_i64 r.(next_attempt_at_ms) ∧
  dispatch_check r ∧ shape_check r.

#[export] Instance text_ok_dec s : Decision (text_ok s).
Proof. unfold text_ok. apply _. Defined.
#[export] Instance code_ok_dec s : Decision (code_ok s).
Proof. unfold code_ok. apply _. Defined.
#[export] Instance schedule_check_dec s : Decision (schedule_check s).
Proof. unfold schedule_check. apply _. Defined.
#[export] Instance dispatch_check_dec r : Decision (dispatch_check r).
Proof. unfold dispatch_check. destruct (first_dispatched_at_ms r), (dispatch_deadline_at_ms r); apply _. Defined.
#[export] Instance shape_check_dec r : Decision (shape_check r).
Proof. unfold shape_check. destruct (run_state r); apply _. Defined.
#[export] Instance run_check_dec r : Decision (run_check r).
Proof. unfold run_check. apply _. Defined.

(** [cron_runs_insert_guard]: a run starts ready, under a live schedule. *)
Definition insert_guard (db : CronDb) (r : Run) : Prop :=
  r.(run_state) = RReady ∧ r.(attempt) = 0 ∧ r.(no_retry) = false ∧
  r.(first_dispatched_at_ms) = None ∧ r.(dispatch_deadline_at_ms) = None ∧
  r.(last_unknown_reason) = None ∧
  is_some_and (λ s, s.(s_version) = r.(run_version) ∧ s.(s_generation) = r.(run_generation) ∧
                    s.(s_expression) = r.(expression)) (db.(schedules) !! r.(activation)).
#[export] Instance insert_guard_dec db r : Decision (insert_guard db r).
Proof. unfold insert_guard. apply _. Defined.

(** [cron_runs_identity_guard] *)
Definition identity_ok (r r' : Run) : Prop :=
  (r.(activation), r.(scheduled_at_ms), r.(run_version), r.(run_generation), r.(expression), r.(created_at_ms)) =
  (r'.(activation), r'.(scheduled_at_ms), r'.(run_version), r'.(run_generation), r'.(expression), r'.(created_at_ms)) ∧
  (is_Some r.(first_dispatched_at_ms) →
     r.(first_dispatched_at_ms) = r'.(first_dispatched_at_ms) ∧
     r.(dispatch_deadline_at_ms) = r'.(dispatch_deadline_at_ms)).
#[export] Instance identity_ok_dec r r' : Decision (identity_ok r r').
Proof. unfold identity_ok. apply _. Defined.

(** [cron_runs_transition_guard] *)
Definition transition_guard (r r' : Run) : Prop :=
  match r.(run_state), r'.(run_state) with
  | RReady, RClaimed =>
      r'.(attempt) = r.(attempt) + 1 ∧ r'.(no_retry) = r.(no_retry) ∧ is_Some r'.(first_dispatched_at_ms)
  | RClaimed, RReady => r'.(attempt) = r.(attempt) ∧ r'.(no_retry) = r.(no_retry)
  | RClaimed, _ | RReady, RFailed | RReady, RSkipped => r'.(attempt) = r.(attempt)
  | RComplete, RComplete | RFailed, RFailed | RSkipped, RSkipped => True
  | _, _ => False
  end.
#[export] Instance transition_guard_dec r r' : Decision (transition_guard r r').
Proof. unfold transition_guard. destruct (run_state r), (run_state r'); apply _. Defined.

(** ** Statements *)

(** [INSERT OR IGNORE INTO cron_runs]: an existing id or slot, or a failed [CHECK], skips
    the row. *)
Definition insert_run (id : N) (r : Run) (db : CronDb) : option (CronDb * Z) :=
  if decide (insert_guard db r) then
    if decide (db.(runs) !! id = None ∧ run_check r ∧
               map_Forall (λ _ r', ¬ (r'.(activation) = r.(activation) ∧
                                      r'.(scheduled_at_ms) = r.(scheduled_at_ms))) db.(runs))
    then Some (set_runs (<[id := r]> db.(runs)) db, 1)
    else Some (db, 0)
  else None.

(** [UPDATE cron_runs SET .. WHERE P] *)
Definition update_runs (P : N → Run → Prop) `{!∀ i r, Decision (P i r)} (f : Run → Run) (db : CronDb) :
    option (CronDb * Z) :=
  let hit := filter (λ ir, P ir.1 ir.2) db.(runs) in
  if decide (map_Forall (λ _ r, identity_ok r (f r) ∧ transition_guard r (f r) ∧ run_check (f r)) hit)
  then Some (set_runs (map_imap (λ i r, Some (if decide (P i r) then f r else r)) db.(runs)) db,
             Z.of_nat (size hit))
  else None.

(** [UPDATE cron_schedules SET next_fire_at_ms, updated_at_ms WHERE activation_id AND
    next_fire_at_ms <= now] *)
Definition advance_schedule (id : N) (next now_ms : Z) (db : CronDb) : option (CronDb * Z) :=
  match db.(schedules) !! id with
  | Some s =>
      if decide (s.(next_fire_at_ms) ≤ now_ms) then
        if decide (0 ≤ next) then
          Some (set_schedules (<[id := schedule_row s.(s_worker) s.(s_version) s.(s_generation)
                  s.(s_expression) s.(s_sha256) s.(s_parser_version) next now_ms]> db.(schedules)) db, 1)
        else None
      else Some (db, 0)
  | None => Some (db, 0)
  end.

(** ** Requests and results *)

Record ClaimedCronRun := claimed_cron_run {
  cr_id : N;
  cr_activation : N;
  cr_instance : N;
  cr_worker : N;
  cr_version : N;
  cr_generation : Z;
  cr_expression : ustr;
  cr_scheduled_at_ms : Z;
  cr_attempt : Z;
  cr_deadline : Z;
}.

Inductive CronCompletion : Type :=
| Success
| Failure (no_retry : bool) (error_code : string).
#[export] Instance CronCompletion_eq_dec : EqDecision CronCompletion.
Proof. solve_decision. Defined.

Inductive CronCompletionResult : Type := Terminal | CronRetried | Stale.

Record CronSlotSummary := cron_slot_summary { projected : Z; skipped : Z }.

Definition cron_invariant : PlatformError :=
  platform_error SchedulerInternalProtocolError "Cron scheduler invariant failed".

Definition cron_i64 (value : Z) : CM Z := some_or (i64_checked value) cron_invariant.
Definition cron_add_ms (now_ms delta_ms : Z) : CM Z :=
  delta ← cron_i64 delta_ms; some_or (i64_checked (now_ms + delta)) cron_invariant.

(** ** Projection of slots *)

Section project.
Context (parse : ustr → result PlatformError CronSchedule).
Context (to_zoned : Z → option Zoned) (days_in_month : Z → Z → Z).
(** [CronRunId::generate], one id per schedule of a pass *)
Context (gen : nat → N).

Definition due_schedules_tx (now_ms limit : Z) : CM (list (N * Schedule)) :=
  db ← gets id;
  let rows := take (Z.to_nat limit)
    (order_by (λ s, [s.2.(next_fire_at_ms); Z.of_N s.1])
      (sql_where (λ s, s.2.(next_fire_at_ms) ≤ now_ms) (map_to_list db.(schedules)))) in
  _ ← throw_if (¬ Forall (λ s, in_u64 s.2.(s_generation)) rows) unavailable;
  mret rows.

Definition new_run (now_ms slot : Z) (id : N) (s : Schedule) (generation : Z) : Run :=
  run_row id s.(s_worker) slot s.(s_version) generation s.(s_expression) RReady 0 false (Some slot)
    None None None None None now_ms None.

(** One schedule: its newest slot of the grace window, then its next slot. *)
Definition project_schedule (now_ms grace_floor : Z) (i : nat) (s : N * Schedule) :
    CM CronSlotSummary :=
  parsed ← lift (parse s.2.(s_expression));
  slot ← lift (latest_at_or_before_ms to_zoned days_in_month parsed
                 (Z.max grace_floor s.2.(next_fire_at_ms)) now_ms);
  summary ← match slot with
            | Some slot =>
                generation ← cron_i64 s.2.(s_generation);
                inserted ← statement (insert_run (gen i) (new_run now_ms slot s.1 s.2 generation));
                mret (cron_slot_summary inserted 0)
            | None => mret (cron_slot_summary 0 1)
            end;
  next ← lift (next_after_ms to_zoned days_in_month parsed now_ms);
  changed ← statement (advance_schedule s.1 next now_ms);
  _ ← throw_if (changed ≠ 1) cron_invariant;
  mret summary.

Fixpoint project_loop (now_ms grace_floor : Z) (i : nat) (ss : list (N * Schedule)) :
    CM CronSlotSummary :=
  match ss with
  | [] => mret (cron_slot_summary 0 0)
  | s :: ss =>
      x ← project_schedule now_ms grace_floor i s;
      y ← project_loop now_ms grace_floor (S i) ss;
      mret (cron_slot_summary (x.(projected) + y.(projected)) (x.(skipped) + y.(skipped)))
  end.

Definition project_due_cron_slots (now_ms misfire_grace_ms limit : Z) : CM CronSlotSummary :=
  _ ← throw_if (now_ms < 0 ∨ limit = 0) cron_invariant;
  grace ← cron_i64 misfire_grace_ms;
  let grace_floor := Z.max (i64_saturate (now_ms - grace)) 0 in
  summary ← transaction (ss ← due_schedules_tx now_ms limit; project_loop now_ms grace_floor 0 ss);
  if decide (summary.(projected) > 0 ∨ summary.(skipped) > 0) then
    _ ← modify cron_notify; mret summary
  else mret summary.

(** The cron part of [replace_products]: the schedules of a worker are replaced by those
    of the declarations of its new version, under new activations. *)
Definition version_invariant : PlatformError :=
  platform_error VersionInvariantViolation "Queue/Cron deployment replacement failed".

Definition install_schedule (worker version : N) (generation now_ms : Z) (i : nat)
    (d : ustr * list Z * Z) : CM unit :=
  let '(e, digest, parser) := d in
  parsed ← lift (parse e);
  next ← lift (next_after_ms to_zoned days_in_month parsed now_ms);
  db ← gets id;
  let s := schedule_row worker version generation e digest parser next now_ms in
  _ ← throw_if (is_Some (db.(schedules) !! gen i) ∨ ¬ schedule_check s) version_invariant;
  modify (set_schedules (<[gen i := s]> db.(schedules))).

Fixpoint install_loop (worker version : N) (generation now_ms : Z) (i : nat)
    (ds : list (ustr * list Z * Z)) : CM unit :=
  match ds with
  | [] => mret ()
  | d :: ds =>
      _ ← install_schedule worker version generation now_ms i d;
      install_loop worker version generation now_ms (S i) ds
  end.

Definition replace_cron_schedules (worker version : N) (generation now_ms : Z)
    (declarations : list (ustr * list Z * Z)) : CM unit :=
  transaction (
    _ ← modify (λ db, set_schedules (filter (λ s, s.2.(s_worker) ≠ worker) db.(schedules)) db);
    install_loop worker version generation now_ms 0 declarations).
End project.

(** ** Claims *)

Section delivery.
(** the owner in [scheduler_identity] *)
Context (instance_id : N).

(** Changes the columns a transition may change. *)
Definition move_run (st : CronRunState) (att : Z) (nr : bool) (next claimed first deadline : option Z)
    (reason : option CronUnknownReason) (error : option string) (completed : option Z) (r : Run) : Run :=
  run_row r.(activation) r.(run_worker) r.(scheduled_at_ms) r.(run_version) r.(run_generation)
    r.(expression) st att nr next claimed first deadline reason error r.(created_at_ms) completed.

(** Ready runs that were dispatched and have no delivery left. *)
Definition undeliverable (now_ms max_retries : Z) (r : Run) : Prop :=
  r.(run_state) = RReady ∧ is_Some r.(first_dispatched_at_ms) ∧
  (is_some_and (λ d, d ≤ now_ms) r.(dispatch_deadline_at_ms) ∨ max_retries + 1 ≤ r.(attempt)).
#[export] Instance undeliverable_dec now_ms max_retries r : Decision (undeliverable now_ms max_retries r).
Proof. unfold undeliverable. apply _. Defined.

Definition expire_run (now_ms : Z) (r : Run) : Run :=
  move_run RFailed r.(attempt) r.(no_retry) None r.(claimed_at_ms) r.(first_dispatched_at_ms)
    r.(dispatch_deadline_at_ms) r.(last_unknown_reason)
    (Some (if decide (is_some_and (λ d, d ≤ now_ms) r.(dispatch_deadline_at_ms))
           then "CRON_DISPATCH_DEADLINE"%string else "CRON_RETRY_EXHAUSTED"%string))
    (Some now_ms) r.

Definition due_run (now_ms max_retries : Z) (r : Run) : Prop :=
  r.(run_state) = RReady ∧ is_some_and (λ t, t ≤ now_ms) r.(next_attempt_at_ms) ∧
  r.(attempt) < max_retries + 1 ∧ is_none_or (λ d, now_ms < d) r.(dispatch_deadline_at_ms).
#[export] Instance due_run_dec now_ms max_retries r : Decision (due_run now_ms max_retries r).
Proof. unfold due_run. apply _. Defined.

Definition due_rows (now_ms max_retries limit : Z) (rs : gmap N Run) : list (N * Run) :=
  take (Z.to_nat limit)
    (order_by (λ ir, [default 0 ir.2.(next_attempt_at_ms); ir.2.(scheduled_at_ms); Z.of_N ir.1])
      (sql_where (λ ir, due_run now_ms max_retries ir.2) (map_to_list rs))).
Definition due_runs (now_ms max_retries limit : Z) (rs : gmap N Run) : list N :=
  (due_rows now_ms max_retries limit rs).*1.

Definition claim_row (now_ms deadline : Z) (r : Run) : Run :=
  move_run RClaimed (r.(attempt) + 1) r.(no_retry) None (Some now_ms)
    (Some (default now_ms r.(first_dispatched_at_ms)))
    (Some (default deadline r.(dispatch_deadline_at_ms))) r.(last_unknown_reason) r.(error_code)
    r.(completed_at_ms) r.

Definition to_claimed_run (id : N) (r : Run) (deadline : Z) : ClaimedCronRun :=
  claimed_cron_run id r.(activation) instance_id r.(run_worker) r.(run_version) r.(run_generation)
    r.(expression) r.(scheduled_at_ms) r.(attempt) deadline.

Definition read_claimed_run_tx (id : N) : CM ClaimedCronRun :=
  rs ← gets runs;
  r ← some_or (rs !! id) unavailable;
  _ ← throw_if (r.(run_state) ≠ RClaimed ∨ ¬ in_u64 r.(run_generation) ∨ ¬ (0 ≤ r.(attempt) ≤ 255)) unavailable;
  deadline ← some_or r.(dispatch_deadline_at_ms) unavailable;
  mret (to_claimed_run id r deadline).

Definition claimable (now_ms : Z) (id i : N) (r : Run) : Prop :=
  i = id ∧ r.(run_state) = RReady ∧ is_some_and (λ t, t ≤ now_ms) r.(next_attempt_at_ms).
#[export] Instance claimable_dec now_ms id i r : Decision (claimable now_ms id i r).
Proof. unfold claimable. apply _. Defined.

Definition claim_run (now_ms first_deadline_ms : Z) (id : N) : CM ClaimedCronRun :=
  rs ← gets runs;
  r ← some_or (rs !! id) unavailable;
  let deadline := default first_deadline_ms r.(dispatch_deadline_at_ms) in
  changed ← statement (update_runs (claimable now_ms id) (claim_row now_ms deadline));
  _ ← throw_if (changed ≠ 1) cron_invariant;
  read_claimed_run_tx id.

Definition claim_cron_runs (now_ms max_retries limit : Z) : CM (list ClaimedCronRun) :=
  _ ← throw_if (max_retries > 3 ∨ limit = 0) cron_invariant;
  first_deadline_ms ← cron_add_ms now_ms (15 * 60 * 1000);
  transaction (
    _ ← statement (update_runs (λ _ r, undeliverable now_ms max_retries r) (expire_run now_ms));
    rs ← gets runs;
    for_each (claim_run now_ms first_deadline_ms) (due_runs now_ms max_retries limit rs)).

(** ** Completion *)

(** [cron_retry_at]: the jitter is the low 16 bits of the id of the run. *)
Definition cron_retry_at (id : N) (att now_ms : Z) : result PlatformError Z :=
  let exponent := Z.max 0 (att - 1) in
  _ ← bail_if (64 ≤ exponent) cron_invariant;
  let seconds := u64_wrap (Z.shiftl 2 exponent) in
  let jitter_ms := Z.of_N id mod 65536 mod 1000 in
  ms ← ok_or_else (u64_checked (seconds * 1000)) cron_invariant;
  ms ← ok_or_else (u64_checked (ms + jitter_ms)) cron_invariant;
  delta ← ok_or_else (i64_checked ms) cron_invariant;
  ok_or_else (i64_checked (now_ms + delta)) cron_invariant.

Definition claimed_by (run : ClaimedCronRun) (i : N) (r : Run) : Prop :=
  i = run.(cr_id) ∧ r.(activation) = run.(cr_activation) ∧ r.(run_state) = RClaimed.
#[export] Instance claimed_by_dec run i r : Decision (claimed_by run i r).
Proof. unfold claimed_by. apply _. Defined.

(** The retry of a failed delivery, if any is left before the deadline. *)
Definition retry_time (run : ClaimedCronRun) (completion : CronCompletion) (now_ms max_retries : Z) :
    result PlatformError (option Z) :=
  match completion with
  | Failure false _ =>
      if decide (run.(cr_attempt) < max_retries + 1) then
        t ← cron_retry_at run.(cr_id) run.(cr_attempt) now_ms;
        Ok (if decide (t < run.(cr_deadline)) then Some t else None)
      else Ok None
  | _ => Ok None
  end.

(** The state, the fence, the error and the result of a completion. *)
Definition completed_row (run : ClaimedCronRun) (completion : CronCompletion) (max_retries : Z)
    (retry_at : option Z) : CronRunState * bool * option string * CronCompletionResult :=
  match completion with
  | Success => (RComplete, false, None, Terminal)
  | Failure nr code =>
      match retry_at with
      | Some _ => (RReady, false, Some code, CronRetried)
      | None =>
          (RFailed, nr,
           Some (if decide (nr = false ∧ run.(cr_attempt) < max_retries + 1)
                 then "CRON_DISPATCH_DEADLINE"%string else code), Terminal)
      end
  end.

Definition complete_cron_run (run : ClaimedCronRun) (completion : CronCompletion)
    (now_ms max_retries : Z) : CM CronCompletionResult :=
  _ ← throw_if (max_retries > 3) cron_invariant;
  rs ← gets runs;
  if decide (is_some_and (claimed_by run run.(cr_id)) (rs !! run.(cr_id))) then
    retry_at ← lift (retry_time run completion now_ms max_retries);
    let '(st, nr, code, result) := completed_row run completion max_retries retry_at in
    let completed := if decide (st = RReady) then None else Some now_ms in
    changed ← statement (update_runs (claimed_by run)
      (λ r, move_run st run.(cr_attempt) nr retry_at None r.(first_dispatched_at_ms)
              r.(dispatch_deadline_at_ms) r.(last_unknown_reason) code completed r));
    if decide (changed ≠ 1) then mret Stale
    else _ ← modify cron_notify; mret result
  else mret Stale.

(** The row of a delivery whose result is unknown: another attempt at [next], if the
    retries and the deadline leave one. *)
Definition unknown_row (reason : CronUnknownReason) (now_ms next max_attempts : Z) (r : Run) : Run :=
  let late := is_some_and (λ d, d ≤ next) r.(dispatch_deadline_at_ms) in
  let again := decide (r.(attempt) < max_attempts ∧ is_some_and (λ d, next < d) r.(dispatch_deadline_at_ms)) in
  move_run (if again then RReady else RFailed) r.(attempt) r.(no_retry)
    (if again then Some next else None) None r.(first_dispatched_at_ms) r.(dispatch_deadline_at_ms)
    (Some reason)
    (if decide late then Some "CRON_DISPATCH_DEADLINE"%string
     else if decide (max_attempts ≤ r.(attempt)) then Some "CRON_RETRY_EXHAUSTED"%string
     else r.(error_code))
    (if again then None else Some now_ms) r.

Definition mark_cron_unknown (run : ClaimedCronRun) (reason : CronUnknownReason)
    (now_ms max_retries : Z) : CM bool :=
  _ ← throw_if (max_retries > 3) cron_invariant;
  next ← cron_add_ms now_ms 250;
  changed ← statement (update_runs (claimed_by run)
              (unknown_row reason now_ms next (max_retries + 1)));
  if decide (changed > 0) then _ ← modify cron_notify; mret (bool_decide (changed = 1))
  else mret false.

Definition in_delivery (r : Run) : Prop := r.(run_state) = RClaimed.
#[export] Instance in_delivery_dec r : Decision (in_delivery r).
Proof. unfold in_delivery. apply _. Defined.

(** The cron statement of [reset_claims.sql]: the deliveries of a process that stopped
    are unknown. *)
Definition reset_cron_claims (now_ms max_retries : Z) : CM unit :=
  _ ← statement (update_runs (λ _ r, in_delivery r)
        (λ r, unknown_row (default TransportTimeout r.(last_unknown_reason)) now_ms (now_ms + 250)
                (max_retries + 1) r));
  mret ().
End delivery.

(** ** History *)

(** Later in the history of an activation: by completion time, then by id. *)
Definition later (a b : N * Run) : Prop :=
  lex_le [default 0 b.2.(completed_at_ms); Z.of_N b.1] [default 0 a.2.(completed_at_ms); Z.of_N a.1] ∧ a.1 ≠ b.1.
#[export] Instance later_dec a b : Decision (later a b).
Proof. unfold later. apply _. Defined.

(** [ROW_NUMBER()] in the history of the activation, newest first *)
Definition ordinal (rs : gmap N Run) (x : N * Run) : Z :=
  1 + affected (λ y, terminal y.2 ∧ y.2.(activation) = x.2.(activation) ∧ later y x) (map_to_list rs).

Definition collectable (rs : gmap N Run) (cutoff limit : Z) (x : N * Run) : Prop :=
  terminal x.2 ∧ (is_some_and (λ t, t < cutoff) x.2.(completed_at_ms) ∨ limit < ordinal rs x).
#[export] Instance collectable_dec rs cutoff limit x : Decision (collectable rs cutoff limit x).
Proof. unfold collectable. apply _. Defined.

Definition gc_cron_history (now_ms retention_ms per_activation_limit : Z) : CM Z :=
  _ ← throw_if (retention_ms = 0 ∨ per_activation_limit = 0) cron_invariant;
  retention ← cron_i64 retention_ms;
  let cutoff := i64_saturate (now_ms - retention) in
  rs ← gets runs;
  let gone := filter (collectable rs cutoff per_activation_limit) rs in
  _ ← modify (set_runs (filter (λ x, ¬ collectable rs cutoff per_activation_limit x) rs));
  mret (Z.of_nat (size gone)).

(** ** Summaries *)

Definition cron_workload_summary (now_ms : Z) (db : CronDb) : WorkloadSummary :=
  let rs := map_to_list db.(runs) in
  let ss := map_to_list db.(schedules) in
  let attempts := λ ir : N * Run, default 0 ir.2.(next_attempt_at_ms) in
  let fire := λ s : N * Schedule, s.2.(next_fire_at_ms) in
  let ready := sql_where (λ ir, ir.2.(run_state) = RReady) rs in
  let due := sql_where (λ ir, attempts ir ≤ now_ms) ready in
  let firing := sql_where (λ s, fire s ≤ now_ms) ss in
  let least := λ a b, sql_min (λ x : Z, x) (option_list a ++ option_list b) in
  workload_summary (Z.of_nat (length due) + Z.of_nat (length firing))
    (affected (λ ir, ir.2.(run_state) = RClaimed) rs) 0
    (least (sql_min attempts due) (sql_min fire firing))
    (least (sql_min fire ss) (sql_min attempts ready)).

(** ** Inspection *)

Record CronRuntimeInspection := cron_runtime_inspection {
  projection_exists : bool;
  inspected_next_fire_at_ms : option Z;
  ready_runs : Z;
  claimed_runs : Z;
  last_outcome : option CronRunState;
  last_error_code : option string;
  inspected_unknown_reason : option CronUnknownReason;
  oldest_dispatch_deadline_at_ms : option Z;
  lag_ms : Z;
}.

(** The first row of an [ORDER BY .. DESC, id DESC LIMIT 1]. *)
Definition newest (f : Run → Z) (rows : list (N * Run)) : option Run :=
  snd <$> last (order_by (λ ir, [f ir.2; Z.of_N ir.1]) rows).

Definition cron_execution_generation (id : N) (db : CronDb) : option Z :=
  s_generation <$> db.(schedules) !! id.

Definition inspect_cron_runtime (activation_id : N) (now_ms : Z) (db : CronDb) : CronRuntimeInspection :=
  let schedule := next_fire_at_ms <$> db.(schedules) !! activation_id in
  let rows := sql_where (λ ir, ir.2.(activation) = activation_id) (map_to_list db.(runs)) in
  let ready := sql_where (λ ir, ir.2.(run_state) = RReady) rows in
  let ended := newest (λ r, default 0 r.(completed_at_ms)) (sql_where (λ ir, terminal ir.2) rows) in
  let unknown := newest
    (λ r, default (default r.(created_at_ms) r.(claimed_at_ms)) r.(completed_at_ms))
    (sql_where (λ ir, is_Some ir.2.(last_unknown_reason)) rows) in
  let deadlines := omap (λ ir, if decide (terminal ir.2) then None else ir.2.(dispatch_deadline_at_ms)) rows in
  let oldest_due := sql_min (λ x : Z, x) (omap (λ ir, ir.2.(next_attempt_at_ms)) ready) in
  cron_runtime_inspection (bool_decide (is_Some schedule)) schedule (Z.of_nat (length ready))
    (affected (λ ir, ir.2.(run_state) = RClaimed) rows)
    (run_state <$> ended) (ended ≫= error_code) (unknown ≫= last_unknown_reason)
    (sql_min (λ x : Z, x) deadlines)
    (match oldest_due with Some due => Z.max (i64_saturate (now_ms - due)) 0 | None => 0 end).
