(* ===== verification/CronInv.v ===== *)
(** * The cron tables stay well formed

    What the statements do to the rows, the invariant of the tables, and that every
    operation of the store keeps it. *)

From stdpp Require Import base numbers list option strings sorting gmap.
From S2P Require Import Prelude ErrorCodes Text Scheduler Sql CronSlots CronStore.

Local Open Scope Z_scope.

Create HintDb cron discriminated.

(** ** Statements *)

Lemma update_runs_Some P `{!∀ i r, Decision (P i r)} f db db' n :
  update_runs P f db = Some (db', n) →
  (∀ i, db'.(runs) !! i = (λ r, if decide (P i r) then f r else r) <$> db.(runs) !! i) ∧
  n = Z.of_nat (size (filter (λ ir, P ir.1 ir.2) db.(runs))) ∧
  db'.(schedules) = db.(schedules) ∧ db'.(cron_wake) = db.(cron_wake) ∧
  (∀ i r, db.(runs) !! i = Some r → P i r →
     identity_ok r (f r) ∧ transition_guard r (f r) ∧ run_check (f r)).
Proof.
  unfold update_runs. case_decide as Hg; [|done]. intros [= <- <-]. split_and!; [|done..|].
  - intros i. cbn. rewrite map_lookup_imap. by destruct (db.(runs) !! i).
  - intros i r Hi HP. apply (Hg i). by apply map_lookup_filter_Some.
Qed.

Lemma update_runs_ok P `{!∀ i r, Decision (P i r)} f db :
  (∀ i r, db.(runs) !! i = Some r → P i r →
     identity_ok r (f r) ∧ transition_guard r (f r) ∧ run_check (f r)) →
  ∃ db', update_runs P f db =
           Some (db', Z.of_nat (size (filter (λ ir, P ir.1 ir.2) db.(runs)))).
Proof.
  intros Hg. unfold update_runs. rewrite decide_True; [eauto|].
  intros i r Hi. apply map_lookup_filter_Some in Hi as [Hi HP]. by apply (Hg i).
Qed.

(** The number of rows with a given key: none or one. *)
Lemma size_filter_key (P : N → Run → Prop) `{!∀ i r, Decision (P i r)} (m : gmap N Run) id :
  (∀ i r, P i r → i = id) →
  Z.of_nat (size (filter (λ ir, P ir.1 ir.2) m)) =
    match m !! id with Some r => if decide (P id r) then 1 else 0 | None => 0 end.
Proof.
  intros Hid. destruct (m !! id) as [r|] eqn:Hm; [case_decide as HP|].
  - assert (filter (λ ir, P ir.1 ir.2) m = {[ id := r ]}) as ->; [|by rewrite map_size_singleton].
    apply map_eq. intros i. destruct (decide (i = id)) as [->|Hne].
    + rewrite lookup_singleton_eq. by apply map_lookup_filter_Some.
    + rewrite lookup_singleton_ne by done. apply map_lookup_filter_None. right. intros x _ HPx.
      by apply Hid in HPx.
  - assert (filter (λ ir, P ir.1 ir.2) m = ∅) as ->; [|by rewrite map_size_empty].
    apply map_empty. intros i. apply map_lookup_filter_None. right. intros x Hx HPx. cbn in HPx.
    pose proof (Hid i x HPx) as ->. congruence.
  - assert (filter (λ ir, P ir.1 ir.2) m = ∅) as ->; [|by rewrite map_size_empty].
    apply map_empty. intros i. apply map_lookup_filter_None. right. intros x Hx HPx. cbn in HPx.
    pose proof (Hid i x HPx) as ->. congruence.
Qed.

(** ** The invariant *)

Record cron_wf (db : CronDb) : Prop := {
  wf_runs : map_Forall (λ _ r, run_check r) db.(runs);
  wf_slots : ∀ i j r r', db.(runs) !! i = Some r → db.(runs) !! j = Some r' →
    r.(activation) = r'.(activation) → r.(scheduled_at_ms) = r'.(scheduled_at_ms) → i = j;
  wf_schedules : map_Forall (λ _ s, schedule_check s) db.(schedules);
  (** only a run that ended refuses retries *)
  wf_no_retry : map_Forall (λ _ r, r.(no_retry) = true → terminal r) db.(runs);
  (** the slots of a live schedule come before its next one *)
  wf_before : ∀ i r s, db.(runs) !! i = Some r → db.(schedules) !! r.(activation) = Some s →
    r.(scheduled_at_ms) < s.(next_fire_at_ms);
}.

Lemma transition_no_retry r r' :
  transition_guard r r' → (r'.(run_state) = RClaimed → r'.(no_retry) = r.(no_retry)) →
  (r.(no_retry) = true → terminal r) → r'.(no_retry) = true → terminal r'.
Proof.
  unfold transition_guard, terminal. intros Hg Hc Hr Hr'. destruct (run_state r), (run_state r'); auto;
    destruct_and? Hg; try done; exfalso; destruct Hr as [?|[?|?]]; try done;
    by rewrite <-Hr'; (symmetry; (done || auto)).
Qed.

Lemma update_runs_wf P `{!∀ i r, Decision (P i r)} f db db' n :
  cron_wf db → update_runs P f db = Some (db', n) →
  (∀ r, (f r).(run_state) = RClaimed → (f r).(no_retry) = r.(no_retry)) → cron_wf db'.
Proof.
  intros [Hr Hs Hsch Hnr Hb] (Hl & _ & Hsc & _ & Hg)%update_runs_Some Hkeep.
  assert (Hinv : ∀ i r', db'.(runs) !! i = Some r' → ∃ r, db.(runs) !! i = Some r ∧
            r'.(activation) = r.(activation) ∧ r'.(scheduled_at_ms) = r.(scheduled_at_ms) ∧ run_check r' ∧
            (r'.(no_retry) = true → terminal r')).
  { intros i r'. rewrite Hl. destruct (db.(runs) !! i) as [r|] eqn:Hi; [|done]. cbn. intros [= <-].
    exists r. split; [done|]. case_decide as HP; [|split_and!; [done..|by apply (Hr i)|by apply (Hnr i)]].
    destruct (Hg i r Hi HP) as (Hid & Ht & Hc). unfold identity_ok in Hid. destruct Hid as [[= <- <-] _].
    split_and!; [done..|]. apply (transition_no_retry r); [done|auto|by apply (Hnr i)]. }
  split; [| |by rewrite Hsc| |].
  - intros i r Hi. by apply Hinv in Hi as (? & _ & _ & _ & ? & _).
  - intros i j r r' Hi Hj Ha Ht. apply Hinv in Hi as (? & Hi & Ha1 & Ht1 & _).
    apply Hinv in Hj as (? & Hj & Ha2 & Ht2 & _). eapply Hs; [done..|congruence|congruence].
  - intros i r Hi. by apply Hinv in Hi as (? & _ & _ & _ & _ & ?).
  - rewrite Hsc. intros i r s Hi Hsch'. apply Hinv in Hi as (? & Hi & Ha & -> & _).
    rewrite Ha in Hsch'. by eapply Hb.
Qed.

Lemma notify_wf db : cron_wf db → cron_wf (cron_notify db).
Proof. by intros []. Qed.

(** ** Operations *)

Definition cron_keeps {A} (m : CM A) : Prop := ∀ db, cron_wf db → cron_wf (m db).1.

(** An operation whose successful runs keep the invariant and whose failures change
    nothing. *)
Lemma cron_keeps_atomic {A} (m : CM A) :
  atomic m → (∀ db db' a, cron_wf db → m db = (db', Ok a) → cron_wf db') → cron_keeps m.
Proof.
  intros Ha Hm db Hdb. destruct (m db) as [db' [a|e]] eqn:E; cbn; [by eapply Hm|].
  apply Ha in E. by subst.
Qed.

(** Opens the steps of a successful run of the store. *)
Ltac cron_run :=
  repeat (run_inv || match goal with
  | H : statement _ _ = (_, Ok _) |- _ => apply statement_run in H
  | H : cron_i64 _ _ = (_, Ok _) |- _ => unfold cron_i64 in H
  | H : cron_add_ms _ _ _ = (_, Ok _) |- _ => unfold cron_add_ms in H
  | H : Some _ = Some _ |- _ => injection H as H
  end; subst; cbn beta in * ).

(** *** Failures change nothing *)

Lemma claim_cron_runs_atomic inst now m limit : atomic (claim_cron_runs inst now m limit).
Proof. unfold claim_cron_runs, cron_add_ms, cron_i64; eauto 10 with tx. Qed.

Lemma complete_cron_run_atomic run c now m : atomic (complete_cron_run run c now m).
Proof.
  unfold complete_cron_run. apply atomic_bind_pure; [eauto with tx|]. intros _.
  apply atomic_bind_pure; [eauto with tx|]. intros rs. apply atomic_if; [|eauto with tx].
  apply atomic_bind_pure; [eauto with tx|]. intros retry_at.
  destruct (completed_row _ _ _ _) as [[[st nr] code] res].
  apply atomic_bind_total; [eauto with tx|]. eauto with tx.
Qed.

Lemma mark_cron_unknown_atomic run reason now m : atomic (mark_cron_unknown run reason now m).
Proof. unfold mark_cron_unknown, cron_add_ms, cron_i64; eauto 10 with tx. Qed.

Lemma reset_cron_claims_atomic now m : atomic (reset_cron_claims now m).
Proof. unfold reset_cron_claims; eauto 10 with tx. Qed.

Lemma gc_cron_history_atomic now retention limit : atomic (gc_cron_history now retention limit).
Proof. unfold gc_cron_history, cron_i64; eauto 10 with tx. Qed.

Lemma project_due_cron_slots_atomic parse to_zoned days gen now grace limit :
  atomic (project_due_cron_slots parse to_zoned days gen now grace limit).
Proof. unfold project_due_cron_slots, cron_i64; eauto 10 with tx. Qed.

Lemma replace_cron_schedules_atomic parse to_zoned days gen w v g now ds :
  atomic (replace_cron_schedules parse to_zoned days gen w v g now ds).
Proof. unfold replace_cron_schedules; eauto with tx. Qed.

#[export] Hint Resolve claim_cron_runs_atomic complete_cron_run_atomic mark_cron_unknown_atomic
  reset_cron_claims_atomic gc_cron_history_atomic project_due_cron_slots_atomic
  replace_cron_schedules_atomic : cron.

(** *** The invariant is kept *)

Lemma claim_cron_runs_keeps inst now m limit : cron_keeps (claim_cron_runs inst now m limit).
Proof.
  apply cron_keeps_atomic; [auto with cron|].
  intros db db' a Hwf H. unfold claim_cron_runs in H. cron_run.
  eapply for_each_inv; [|by eapply update_runs_wf|done].
  intros id d1 d2 y _ Hd1 Hc. unfold claim_run, read_claimed_run_tx in Hc. cron_run.
  by eapply update_runs_wf.
Qed.

(** A completion ends the delivery. *)
Lemma completed_row_unclaimed run c m retry_at st nr code res :
  completed_row run c m retry_at = (st, nr, code, res) → st ≠ RClaimed.
Proof. unfold completed_row. destruct c, retry_at; intros [= <- _ _ _]; done. Qed.

Lemma complete_cron_run_keeps run c now m : cron_keeps (complete_cron_run run c now m).
Proof.
  apply cron_keeps_atomic; [auto with cron|].
  intros db db' a Hwf H. unfold complete_cron_run in H. cron_run;
      try done; [|apply notify_wf]; (eapply update_runs_wf; [done..|]); intros r Hst;
      by apply completed_row_unclaimed in Hpair.
Qed.

Lemma mark_cron_unknown_keeps run reason now m : cron_keeps (mark_cron_unknown run reason now m).
Proof.
  apply cron_keeps_atomic; [auto with cron|].
  intros db db' a Hwf H. unfold mark_cron_unknown in H. cron_run;
    first [by eapply update_runs_wf|by eapply notify_wf, update_runs_wf].
Qed.

Lemma reset_cron_claims_keeps now m : cron_keeps (reset_cron_claims now m).
Proof.
  apply cron_keeps_atomic; [auto with cron|].
  intros db db' a Hwf H. unfold reset_cron_claims in H. cron_run. by eapply update_runs_wf.
Qed.

Lemma filter_runs_wf (P : N * Run → Prop) `{!∀ x, Decision (P x)} db :
  cron_wf db → cron_wf (set_runs (filter P db.(runs)) db).
Proof.
  intros [Hr Hs Hsch Hnr Hb]. split; cbn.
  - intros i r [Hi _]%map_lookup_filter_Some. by apply (Hr i).
  - intros i j r r' [Hi _]%map_lookup_filter_Some [Hj _]%map_lookup_filter_Some. by eapply Hs.
  - done.
  - intros i r [Hi _]%map_lookup_filter_Some. by apply (Hnr i).
  - intros i r s [Hi _]%map_lookup_filter_Some. by eapply Hb.
Qed.

Lemma gc_cron_history_keeps now retention limit : cron_keeps (gc_cron_history now retention limit).
Proof.
  apply cron_keeps_atomic; [auto with cron|].
  intros db db' a Hwf H. unfold gc_cron_history in H. cron_run. by apply filter_runs_wf.
Qed.

Lemma insert_run_Some id r db db' n :
  insert_run id r db = Some (db', n) →
  insert_guard db r ∧
  ((n = 1 ∧ db' = set_runs (<[id := r]> db.(runs)) db ∧ db.(runs) !! id = None ∧ run_check r ∧
    ∀ i r', db.(runs) !! i = Some r' →
      ¬ (r'.(activation) = r.(activation) ∧ r'.(scheduled_at_ms) = r.(scheduled_at_ms))) ∨
   (n = 0 ∧ db' = db)).
Proof.
  unfold insert_run. destruct (decide (insert_guard db r)) as [Hg|]; [|done].
  destruct (decide _) as [(Hid & Hc & Hf)|]; intros Heq; injection Heq as <- <-; split; [done| |done|by right].
  left. split_and!; try done.
Qed.

Lemma advance_schedule_Some id next now db db' :
  advance_schedule id next now db = Some (db', 1) →
  ∃ s, db.(schedules) !! id = Some s ∧ s.(next_fire_at_ms) ≤ now ∧ 0 ≤ next ∧
    db' = set_schedules (<[id := schedule_row s.(s_worker) s.(s_version) s.(s_generation)
            s.(s_expression) s.(s_sha256) s.(s_parser_version) next now]> db.(schedules)) db.
Proof.
  unfold advance_schedule. destruct (db.(schedules) !! id) as [s|]; [|done].
  case_decide; [|done]. case_decide; [|done]. intros [= <-]. eauto.
Qed.

Section projection.
Context (parse : ustr → result PlatformError CronSchedule).
Context (to_zoned : Z → option Zoned) (days_in_month : Z → Z → Z).
Context (gen : nat → N).

Lemma project_schedule_run now floor i s db db' x :
  project_schedule parse to_zoned days_in_month gen now floor i s db = (db', Ok x) →
  ∃ parsed slot next db1,
    parse s.2.(s_expression) = Ok parsed ∧
    latest_at_or_before_ms to_zoned days_in_month parsed (Z.max floor s.2.(next_fire_at_ms)) now = Ok slot ∧
    next_after_ms to_zoned days_in_month parsed now = Ok next ∧
    match slot with
    | Some t => insert_run (gen i) (new_run now t s.1 s.2 s.2.(s_generation)) db = Some (db1, x.(projected)) ∧
                x.(skipped) = 0
    | None => db1 = db ∧ x = cron_slot_summary 0 1
    end ∧
    advance_schedule s.1 next now db1 = Some (db', 1).
Proof.
  unfold project_schedule. intros H. cron_run.
  assert (E : ∀ z, ¬ z ≠ 1 → z = 1) by lia. apply E in Hg as ->. clear E.
  exists a, a0, a2, s2. split_and!; [done..| |done].
  destruct a0 as [t|]; cron_run; [|done].
  match goal with H : i64_checked _ = Some _ |- _ => apply i64_checked_Some in H as [-> _] end. done.
Qed.

(** The new run of a schedule and its advance, together. *)
Lemma project_schedule_wf now floor i s db db' x :
  cron_wf db → project_schedule parse to_zoned days_in_month gen now floor i s db = (db', Ok x) →
  cron_wf db'.
Proof.
  intros [Hr Hs Hsch Hnr Hb] (parsed & slot & next & db1 & _ & Hlatest & Hnext & Hins & Hadv)%project_schedule_run.
  apply next_after_ms_gt in Hnext. apply advance_schedule_Some in Hadv as (sch & Hsch1 & Hfire & Hpos & ->).
  assert (Hold : db1.(schedules) = db.(schedules) ∧ map_Forall (λ _ r, run_check r) db1.(runs) ∧
    (∀ i j r r', db1.(runs) !! i = Some r → db1.(runs) !! j = Some r' →
       r.(activation) = r'.(activation) → r.(scheduled_at_ms) = r'.(scheduled_at_ms) → i = j) ∧
    map_Forall (λ _ r, r.(no_retry) = true → terminal r) db1.(runs) ∧
    ∀ j r, db1.(runs) !! j = Some r → db.(runs) !! j = Some r ∨ (r.(activation) = s.1 ∧ r.(scheduled_at_ms) ≤ now)).
  { destruct slot as [t|]; [|destruct Hins as [-> _]; by eauto 10].
    destruct Hins as [Hins _]. apply insert_run_Some in Hins as [_ [(_ & -> & Hid & Hc & Hfresh)|[_ ->]]]; [|by eauto 10].
    apply latest_at_or_before_ms_in in Hlatest. split_and!; [done| | | |]; cbn.
    - by apply map_Forall_insert_2.
    - intros j k r r' Hj Hk Ha Ht.
      apply lookup_insert_Some in Hj as [[<- <-]|[Hnj Hj]]; apply lookup_insert_Some in Hk as [[<- <-]|[Hnk Hk]];
        [done| | |by eapply Hs].
      + by destruct (Hfresh k r' Hk).
      + by destruct (Hfresh j r Hj).
    - by apply map_Forall_insert_2.
    - intros j r [[<- <-]|[_ ?]]%lookup_insert_Some; [|by left]. right. cbn. lia. }
  destruct Hold as (Hsame & Hc & Huniq & Hnr1 & Hrun). rewrite Hsame in Hsch1.
  pose proof (Hsch _ _ Hsch1) as Hcheck.
  split; cbn; [done|done| |done|].
  - rewrite Hsame. apply map_Forall_insert_2; [|done]. by destruct Hcheck as (? & ? & ? & ? & _).
  - rewrite Hsame. intros j r s' Hj [[Hact <-]|[Hne Hs']]%lookup_insert_Some; cbn.
    + destruct (Hrun j r Hj) as [Hj'|[_ ?]]; [|lia]. rewrite Hact in Hsch1.
      pose proof (Hb j r sch Hj' Hsch1). lia.
    + destruct (Hrun j r Hj) as [Hj'|[Ha _]]; [by eapply Hb|congruence].
Qed.

Lemma project_loop_wf now floor i ss db db' x :
  cron_wf db → project_loop parse to_zoned days_in_month gen now floor i ss db = (db', Ok x) → cron_wf db'.
Proof.
  revert i db x. induction ss as [|s ss IH]; intros i db x Hwf H; cbn [project_loop] in H; cron_run; [done|].
  eapply IH; [|done]. by eapply project_schedule_wf.
Qed.

Lemma project_due_cron_slots_keeps now grace limit :
  cron_keeps (project_due_cron_slots parse to_zoned days_in_month gen now grace limit).
Proof.
  apply cron_keeps_atomic; [auto with cron|].
  intros db db' a Hwf H. unfold project_due_cron_slots, due_schedules_tx in H.
  cron_run; [apply notify_wf|]; by eapply project_loop_wf.
Qed.

(** New activations are not those of recorded runs. *)
Lemma install_schedule_wf worker version generation now i d db db' u :
  cron_wf db → (∀ j r, db.(runs) !! j = Some r → r.(activation) ≠ gen i) →
  install_schedule parse to_zoned days_in_month gen worker version generation now i d db = (db', Ok u) →
  cron_wf db' ∧ db'.(runs) = db.(runs).
Proof.
  intros [Hr Hs Hsch Hnr Hb] Hfresh H. unfold install_schedule in H. destruct d as [[e digest] parser]. cron_run.
  split; [|done]. split; cbn; [done|done| |done|].
  - apply map_Forall_insert_2; [|done]. apply dec_stable. tauto.
  - intros j r s' Hj [[Heq _]|[_ Hs']]%lookup_insert_Some; [by destruct (Hfresh j r Hj)|by eapply Hb].
Qed.

Lemma install_loop_wf worker version generation now i ds db db' u :
  cron_wf db → (∀ k j r, db.(runs) !! j = Some r → r.(activation) ≠ gen k) →
  install_loop parse to_zoned days_in_month gen worker version generation now i ds db = (db', Ok u) →
  cron_wf db'.
Proof.
  revert i db. induction ds as [|d ds IH]; intros i db Hwf Hfresh H; cbn [install_loop] in H; cron_run; [done|].
  match goal with H : install_schedule _ _ _ _ _ _ _ _ _ _ _ = _ |- _ =>
    apply install_schedule_wf in H as [? Heq]; [|done|apply Hfresh] end.
  eapply IH; [done| |done]. rewrite Heq. done.
Qed.

Lemma replace_cron_schedules_wf worker version generation now ds db :
  cron_wf db → (∀ k j r, db.(runs) !! j = Some r → r.(activation) ≠ gen k) →
  cron_wf (replace_cron_schedules parse to_zoned days_in_month gen worker version generation now ds db).1.
Proof.
  intros Hwf Hfresh. unfold replace_cron_schedules. apply transaction_inv; [done|]. intros db' u H. cron_run.
  eapply install_loop_wf; [| |eassumption]; [|exact Hfresh]. destruct Hwf as [Hr Hs Hsch Hnr Hb]. split; cbn; [done|done| |done|].
  - intros j s [Hj _]%map_lookup_filter_Some. by apply (Hsch j).
  - intros j r s Hj [Hs' _]%map_lookup_filter_Some. by eapply Hb.
Qed.
End projection.
