(* ===== verification/CronClaim.v ===== *)
(** * What a cron claim does

    A claim of a well-formed store never fails: it expires the runs with no delivery
    left and hands out the due ones, in order. *)

From stdpp Require Import base numbers list option strings sorting gmap.
From S2P Require Import Prelude ErrorCodes Text Scheduler Sql CronSlots CronStore CronInv.

Local Open Scope Z_scope.

(** ** Due runs *)

Lemma due_rows_elem now m n rs id r :
  (id, r) ∈ due_rows now m n rs → rs !! id = Some r ∧ due_run now m r.
Proof.
  unfold due_rows. intros Hin%elem_of_take. rewrite elem_of_order_by in Hin.
  apply list_elem_of_filter in Hin as [Hd Hin%elem_of_map_to_list]. done.
Qed.

Lemma due_runs_elem now m n rs id : id ∈ due_runs now m n rs → ∃ r, rs !! id = Some r ∧ due_run now m r.
Proof. intros ([? r] & -> & Hin%due_rows_elem)%list_elem_of_fmap. eauto. Qed.

Lemma due_runs_NoDup now m n rs : NoDup (due_runs now m n rs).
Proof.
  unfold due_runs, due_rows. rewrite <-firstn_map. eapply sublist_NoDup; [|apply sublist_take].
  rewrite order_by_Permutation. eapply sublist_NoDup; [|apply fmap_sublist, sublist_filter].
  apply NoDup_fst_map_to_list.
Qed.

(** What a claim leaves is due no earlier than what it serves. *)
Lemma due_rows_cut now m n rs i r :
  0 ≤ n → rs !! i = Some r → due_run now m r → i ∉ due_runs now m n rs →
  Z.of_nat (length (due_rows now m n rs)) = n ∧
  ∀ j x, (j, x) ∈ due_rows now m n rs → default 0 x.(next_attempt_at_ms) ≤ default 0 r.(next_attempt_at_ms).
Proof.
  unfold due_runs, due_rows. set (l := order_by _ _). intros Hn Hr Hd Hni.
  assert (Hin : (i, r) ∈ drop (Z.to_nat n) l).
  { assert (Hl : (i, r) ∈ l) by (apply elem_of_order_by, list_elem_of_filter; by rewrite elem_of_map_to_list).
    rewrite <-(take_drop (Z.to_nat n) l) in Hl. apply elem_of_app in Hl as [Hl|]; [|done].
    destruct Hni. apply list_elem_of_fmap. by exists (i, r). }
  split.
  - apply list_elem_of_lookup in Hin as [k Hk%lookup_lt_Some]. rewrite length_drop in Hk. rewrite length_take. lia.
  - intros j x Hj. pose proof (sorted_take_drop _ _ l _ _ (order_by_sorted _ _) Hj Hin) as Hle.
    unfold by_columns in Hle. cbn in Hle. lia.
Qed.

(** The due runs depend on the due rows only. *)
Lemma due_rows_ext now m n rs rs' :
  (∀ i r, due_run now m r → rs !! i = Some r ↔ rs' !! i = Some r) →
  due_rows now m n rs = due_rows now m n rs'.
Proof.
  intros Hext. unfold due_rows. f_equal. apply order_by_unique.
  - apply NoDup_Permutation; [apply NoDup_filter, NoDup_map_to_list..|].
    intros [i r]. unfold sql_where. rewrite !list_elem_of_filter, !elem_of_map_to_list. cbn.
    split; intros [? ?]; (split; [done|]); by apply Hext.
  - intros [i r] [j r'] [_ Hi%elem_of_map_to_list]%list_elem_of_filter [_ Hj%elem_of_map_to_list]%list_elem_of_filter.
    intros Heq. assert (i = j) as -> by (injection Heq; lia). congruence.
Qed.

(** ** Expiry *)

Lemma expire_check now m r :
  run_check r → undeliverable now m r →
  identity_ok r (expire_run now r) ∧ transition_guard r (expire_run now r) ∧ run_check (expire_run now r).
Proof.
  intros (H1 & H2 & H3 & H4 & H5 & H6 & H7 & H8) (Hst & _ & _). unfold shape_check in H8. rewrite Hst in H8.
  destruct H8 as (_ & Hc & _). split_and!.
  - done.
  - unfold transition_guard. by rewrite Hst.
  - unfold run_check. split_and!; try done; cbn; [lia..|by case_decide].
Qed.

(** ** One claim *)

Section claim.
Context (instance_id : N).

(** An update of the row with a given key. *)
Lemma update_run_key P `{!∀ i r, Decision (P i r)} f db id r :
  (∀ i x, P i x → i = id) → db.(runs) !! id = Some r → P id r →
  identity_ok r (f r) ∧ transition_guard r (f r) ∧ run_check (f r) →
  update_runs P f db = Some (set_runs (<[id := f r]> db.(runs)) db, 1).
Proof.
  intros Hkey Hr HP Hok. destruct (update_runs_ok P f db) as [db' Hup].
  { intros i x Hx HPx. pose proof (Hkey i x HPx) as ->. rewrite Hr in Hx. by injection Hx as <-. }
  rewrite Hup. apply update_runs_Some in Hup as (Hl & _ & Hs & Hw & _).
  rewrite (size_filter_key P _ id) by done. rewrite Hr, decide_True by done. do 2 f_equal.
  destruct db as [ss rs w], db' as [ss' rs' w']; cbn in *. subst. unfold set_runs; cbn. f_equal.
  apply map_eq. intros i. rewrite Hl. destruct (decide (i = id)) as [->|Hne].
  - by rewrite Hr, lookup_insert_eq; cbn; rewrite decide_True.
  - rewrite lookup_insert_ne by done. destruct (rs !! i) as [x|] eqn:Hx; [|done]. cbn.
    rewrite decide_False; [done|]. intros HPi. by apply Hkey in HPi.
Qed.

(** The row of a claimed run and what the caller gets. *)
Definition claim_of (now : Z) (r : Run) : Run :=
  claim_row now (default (now + 900000) r.(dispatch_deadline_at_ms)) r.

Definition claimed (now : Z) (id : N) (r : Run) : ClaimedCronRun :=
  to_claimed_run instance_id id (claim_of now r) (default (now + 900000) r.(dispatch_deadline_at_ms)).

Lemma claim_check now m r :
  run_check r → due_run now m r → m ≤ 3 →
  identity_ok r (claim_of now r) ∧ transition_guard r (claim_of now r) ∧ run_check (claim_of now r).
Proof.
  intros (H1 & H2 & H3 & H4 & H5 & H6 & H7 & H8) (Hst & _ & Hatt & _) Hm. unfold shape_check in H8. rewrite Hst in H8.
  destruct H8 as (_ & _ & Hcomp). unfold dispatch_check in H7.
  destruct (first_dispatched_at_ms r) as [f|] eqn:Hf, (dispatch_deadline_at_ms r) as [d|] eqn:Hd; try done;
    (split_and!; [|unfold transition_guard; rewrite Hst; cbn; by rewrite Hf|]).
  - unfold identity_ok; cbn. rewrite Hf, Hd. done.
  - unfold run_check, claim_of. split_and!; try done; cbn; [lia..| ].
    unfold dispatch_check. cbn. by rewrite Hf, Hd.
  - unfold identity_ok; cbn. rewrite Hf. split; [done|]. by intros [].
  - unfold run_check, claim_of. split_and!; try done; cbn; [lia..| ].
    unfold dispatch_check. cbn. by rewrite Hf, Hd.
Qed.

Lemma claim_run_ok now m id r db :
  db.(runs) !! id = Some r → run_check r → due_run now m r → m ≤ 3 →
  claim_run instance_id now (now + 900000) id db =
    (set_runs (<[id := claim_of now r]> db.(runs)) db, Ok (claimed now id r)).
Proof.
  intros Hr Hc Hd Hm. pose proof (claim_check now m r Hc Hd Hm) as (Hi & Ht & Hc').
  unfold claim_run. run_simpl. rewrite Hr. cbn [ok_or_else]. run_simpl.
  unfold statement. rewrite (update_run_key (claimable now id) _ _ id r); [|by intros i x []|done| |done].
  2: { destruct Hd as (? & ? & _). done. }
  run_simpl. rewrite (decide_False (P := 1 ≠ 1)) by tauto. unfold read_claimed_run_tx. run_simpl. cbn [runs set_runs].
  rewrite lookup_insert_eq. destruct Hc' as (_ & Hgen & _ & Hatt & _). rewrite decide_False.
  { unfold claimed, claim_of. cbn [dispatch_deadline_at_ms claim_row move_run]. do 3 f_equal.
    by destruct (dispatch_deadline_at_ms r). }
  cbn in Hgen, Hatt |- *. unfold in_u64. intros [[]|[Hno|Hno]]; [done|apply Hno; lia..].
Qed.

(** The due runs of a store are ready and well formed. *)
Definition claim_all (now : Z) (ids : list N) (rs : gmap N Run) : gmap N Run :=
  map_imap (λ i r, Some (if decide (i ∈ ids) then claim_of now r else r)) rs.

Lemma claim_all_lookup now ids rs i :
  claim_all now ids rs !! i = (λ r, if decide (i ∈ ids) then claim_of now r else r) <$> rs !! i.
Proof. unfold claim_all. rewrite map_lookup_imap. by destruct (rs !! i). Qed.

Lemma claim_all_cons now id r ids rs :
  rs !! id = Some r → id ∉ ids →
  claim_all now ids (<[id := claim_of now r]> rs) = claim_all now (id :: ids) rs.
Proof.
  intros Hr Hnid. apply map_eq. intros i. rewrite !claim_all_lookup. destruct (decide (i = id)) as [->|Hne].
  - rewrite lookup_insert_eq, Hr. cbn. by rewrite decide_False, decide_True by (done || left).
  - rewrite lookup_insert_ne by done. destruct (rs !! i); [|done]. cbn. f_equal.
    apply decide_ext. rewrite elem_of_cons. tauto.
Qed.

Lemma claim_all_nil now rs : claim_all now [] rs = rs.
Proof. apply map_eq. intros i. rewrite claim_all_lookup. by destruct (rs !! i). Qed.

(** The rows of a claim that are left once the first is claimed. *)
Lemma claim_rows_tail now (Q : Run → Prop) (id : N) r rows (rs : gmap N Run) :
  id ∉ rows.*1 → (∀ i x, (i, x) ∈ (id, r) :: rows → rs !! i = Some x ∧ Q x) →
  ∀ i x, (i, x) ∈ rows → <[id := claim_of now r]> rs !! i = Some x ∧ Q x.
Proof.
  intros Hnid Hok i x Hin. destruct (Hok i x) as [Hi HQ]; [by right|]. split; [|done].
  rewrite lookup_insert_ne; [done|]. intros <-. apply Hnid. apply list_elem_of_fmap. by exists (id, x).
Qed.

Lemma claim_runs_ok now m rows db :
  NoDup rows.*1 → (∀ id r, (id, r) ∈ rows → db.(runs) !! id = Some r ∧ run_check r ∧ due_run now m r) → m ≤ 3 →
  for_each (claim_run instance_id now (now + 900000)) rows.*1 db =
    (set_runs (claim_all now rows.*1 db.(runs)) db, Ok ((λ ir, claimed now ir.1 ir.2) <$> rows)).
Proof.
  revert db. induction rows as [|[id r] rows IH]; intros db Hnd Hok Hm; cbn [fmap list_fmap fst snd].
  - cbn. run_simpl. rewrite claim_all_nil. by destruct db.
  - cbn in Hnd. apply NoDup_cons in Hnd as [Hnid Hnd]. destruct (Hok id r) as (Hr & Hc & Hd); [by left|].
    cbn [for_each]. unfold mbind, M_bind at 1. rewrite (claim_run_ok now m id r) by done.
    unfold M_bind at 1. rewrite IH; [|done|by apply (claim_rows_tail _ (λ x, run_check x ∧ due_run now m x))|done].
    unfold mret, M_ret. by rewrite (claim_all_cons now id r _ db.(runs)).
Qed.

(** The row a claim leaves for a run. *)
Definition after_claim (now m : Z) (ids : list N) (i : N) (r : Run) : Run :=
  if decide (i ∈ ids) then claim_of now r
  else if decide (undeliverable now m r) then expire_run now r else r.

Lemma claim_cron_runs_ok now m n db :
  cron_wf db → m ≤ 3 → n ≠ 0 → in_i64 (now + 900000) →
  let rows := due_rows now m n db.(runs) in
  ∃ db', claim_cron_runs instance_id now m n db = (db', Ok ((λ ir, claimed now ir.1 ir.2) <$> rows)) ∧
    db'.(schedules) = db.(schedules) ∧
    ∀ i, db'.(runs) !! i = after_claim now m rows.*1 i <$> db.(runs) !! i.
Proof.
  intros Hwf Hm Hn Hi64 rows. pose proof (wf_runs _ Hwf) as Hchk.
  destruct (update_runs_ok (λ _ r, undeliverable now m r) (expire_run now) db) as [db1 Hup].
  { intros i r Hr Hu. eapply expire_check; [by apply (Hchk i)|done]. }
  pose proof Hup as (Hl & _ & Hsch & _)%update_runs_Some.
  assert (Hdisj : ∀ r, due_run now m r → ¬ undeliverable now m r).
  { intros r (_ & _ & ? & Hd) (_ & _ & [Hu|?]); [|lia]. destruct (dispatch_deadline_at_ms r); cbn in *; lia || done. }
  assert (Hrows : due_rows now m n db1.(runs) = rows).
  { apply due_rows_ext. intros i r Hd. rewrite Hl. destruct (db.(runs) !! i) as [r0|]; [|done]. cbn.
    case_decide as Hu; [|done]. split; intros [= <-]; [by destruct Hd|by destruct (Hdisj r0)]. }
  exists (set_runs (claim_all now rows.*1 db1.(runs)) db1). split_and!; [|done|].
  - unfold claim_cron_runs, cron_add_ms, cron_i64. change (15 * 60 * 1000) with 900000. run_simpl.
    rewrite decide_False by lia.
    unfold i64_checked. rewrite (decide_True (P := in_i64 900000)) by (unfold in_i64; lia).
    rewrite (decide_True (P := in_i64 _)) by exact Hi64. unfold statement at 1. rewrite Hup. cbn [runs].
    unfold due_runs. rewrite Hrows. rewrite (claim_runs_ok now m rows db1); [done|apply due_runs_NoDup| |lia].
    intros id r Hin. rewrite <-Hrows in Hin. apply due_rows_elem in Hin as [Hr Hd]. split_and!; [done| |done].
    assert (Hwf1 : cron_wf db1) by (by eapply update_runs_wf). by apply (wf_runs _ Hwf1 id).
  - intros i. cbn. rewrite claim_all_lookup, Hl. destruct (db.(runs) !! i) as [r|] eqn:Hr; [|done]. cbn. f_equal.
    unfold after_claim. destruct (decide (i ∈ rows.*1)) as [Hin|]; [|done]. rewrite decide_False; [done|].
    apply due_runs_elem in Hin as (r' & Hr' & Hd). assert (r' = r) as -> by congruence. by apply Hdisj.
Qed.

(** C37. A cron claim of a well-formed store always succeeds.  It hands out at most
    [limit] runs, exactly the due ones with a delivery left, oldest attempt first, one
    attempt each, and a deadline fixed by their first delivery; dispatched runs with no
    delivery left fail, and all other runs and all schedules stay as they are. *)
Theorem claim_cron_runs_exact now m n db
    (Hwf : cron_wf db) (Hm : m ≤ 3) (Hn : 0 < n) (Hnow : in_i64 (now + 900000)) :
  ∃ db' served, claim_cron_runs instance_id now m n db = (db', Ok ((λ ir, claimed now ir.1 ir.2) <$> served)) ∧
    db'.(schedules) = db.(schedules) ∧
    (∀ i, db'.(runs) !! i = after_claim now m served.*1 i <$> db.(runs) !! i) ∧
    NoDup served.*1 ∧ Z.of_nat (length served) ≤ n ∧
    (∀ i r, (i, r) ∈ served → db.(runs) !! i = Some r ∧ due_run now m r) ∧
    (∀ i r, db.(runs) !! i = Some r → due_run now m r → i ∉ served.*1 →
       Z.of_nat (length served) = n ∧
       ∀ j x, (j, x) ∈ served → default 0 x.(next_attempt_at_ms) ≤ default 0 r.(next_attempt_at_ms)).
Proof.
  destruct (claim_cron_runs_ok now m n db Hwf Hm ltac:(lia) Hnow) as (db' & Hrun & Hs & Hl).
  exists db', (due_rows now m n db.(runs)). split_and!; [done..|apply due_runs_NoDup| | |].
  - unfold due_rows. rewrite length_take. lia.
  - apply due_rows_elem.
  - intros i r Hr Hd Hni. apply (due_rows_cut now m n db.(runs) i r); [lia|done..].
Qed.
End claim.

Definition ex_sched : Schedule :=
  schedule_row 1 2 1 (lit "10 * * * MON") (replicate 32 0) 1 11400000 7850000.
Definition ex_run : Run :=
  run_row 7 1 7800000 2 1 (lit "10 * * * MON") RReady 1 false (Some 8000000) None
    (Some 7900000) (Some 8800000) (Some ConnectionLoss) None 7850000 None.
Definition ex_runs : CronDb :=
  cron_db ∅ (<[4%N := ex_run]> {[ 5%N := expire_run 1 (new_run 7860000 9000000 7 ex_sched 1) ]}) 0.

Lemma ex_runs_wf : cron_wf ex_runs.
Proof.
  split; cbn [ex_runs runs schedules].
  - apply map_Forall_insert_2; [|apply map_Forall_singleton]; (apply (bool_decide_unpack _); vm_compute; exact I).
  - intros i j r r' [[<- <-]|[_ [<- <-]%lookup_singleton_Some]]%lookup_insert_Some
      [[<- <-]|[_ [<- <-]%lookup_singleton_Some]]%lookup_insert_Some; try done.
  - done.
  - apply map_Forall_insert_2; [done|by apply map_Forall_singleton].
  - intros i r s _. by rewrite lookup_empty.
Qed.

Lemma claim_cron_runs_exact_witness :
  (claim_cron_runs 9 8100000 3 1 ex_runs).2 = Ok [claimed 9 8100000 4 ex_run] ∧
  ∃ db' served, claim_cron_runs 9 8100000 3 1 ex_runs =
    (db', Ok ((λ ir, claimed 9 8100000 ir.1 ir.2) <$> served)) ∧ Z.of_nat (length served) ≤ 1.
Proof.
  split; [vm_compute; reflexivity|].
  destruct (claim_cron_runs_exact 9 8100000 3 1 ex_runs) as (db' & served & H & _ & _ & _ & Hlen & _);
    [apply ex_runs_wf|lia|lia|split; lia|].
  by exists db', served.
Defined.
