(* ===== verification/CronComplete.v ===== *)
(** * How a cron delivery ends

    The result of a delivery, on every branch: success, a retry with its backoff, a
    terminal failure, and a late result that changes nothing.  Then the history the
    store keeps. *)

From stdpp Require Import base numbers list option strings sorting gmap.
From S2P Require Import Prelude ErrorCodes Text Scheduler Sql CronSlots CronStore CronInv CronClaim.

Local Open Scope Z_scope.

(** ** Completion *)

(** A handle of the delivery a row is in. *)
Definition holds_claim (run : ClaimedCronRun) (r : Run) : Prop :=
  r.(run_state) = RClaimed ∧ r.(activation) = run.(cr_activation) ∧ r.(attempt) = run.(cr_attempt) ∧
  r.(dispatch_deadline_at_ms) = Some run.(cr_deadline).

(** When a failed delivery is tried again: two seconds, then four, eight and sixteen,
    and up to a second of jitter. *)
Definition backoff (id : N) (att now : Z) : Z := now + 2 ^ att * 1000 + Z.of_N id mod 65536 mod 1000.

Lemma cron_retry_at_backoff id att now :
  1 ≤ att ≤ 4 → in_i64 now → now ≤ 9000000000000000000 → cron_retry_at id att now = Ok (backoff id att now).
Proof.
  intros Hatt Hnow Hmax. unfold cron_retry_at, backoff, bail_if. rewrite decide_False by lia.
  pose proof (Z.mod_pos_bound (Z.of_N id mod 65536) 1000 ltac:(lia)).
  assert (Hp : u64_wrap (Z.shiftl 2 (Z.max 0 (att - 1))) = 2 ^ att ∧ 2 ≤ 2 ^ att ≤ 16).
  { assert (att = 1 ∨ att = 2 ∨ att = 3 ∨ att = 4) as [->|[->|[->| ->]]] by lia; vm_compute; intuition congruence. }
  destruct Hp as [-> Hp]. unfold in_i64 in Hnow.
  unfold u64_checked, i64_checked.
  rewrite (decide_True (P := in_u64 (2 ^ att * 1000))) by (unfold in_u64; lia). cbn.
  rewrite decide_True by (unfold in_u64; lia). cbn.
  rewrite decide_True by (unfold in_i64; lia). cbn.
  rewrite decide_True by (unfold in_i64; lia). cbn. f_equal. lia.
Qed.

(** The row a completion leaves and what the caller is told. *)
Definition completion_spec (run : ClaimedCronRun) (c : CronCompletion) (now m : Z) (r : Run) :
    Run * CronCompletionResult :=
  let keep st nr next error completed :=
    move_run st r.(attempt) nr next None r.(first_dispatched_at_ms) r.(dispatch_deadline_at_ms)
      r.(last_unknown_reason) error completed r in
  match c with
  | Success => (keep RComplete false None None (Some now), Terminal)
  | Failure true code => (keep RFailed true None (Some code) (Some now), Terminal)
  | Failure false code =>
      let t := backoff run.(cr_id) r.(attempt) now in
      if decide (m < r.(attempt)) then (keep RFailed false None (Some code) (Some now), Terminal)
      else if decide (t < run.(cr_deadline)) then (keep RReady false (Some t) (Some code) None, CronRetried)
      else (keep RFailed false None (Some "CRON_DISPATCH_DEADLINE"%string) (Some now), Terminal)
  end.

Definition failure_code_ok (c : CronCompletion) : Prop :=
  match c with Success => True | Failure _ code => code_ok code end.

(** A handle whose delivery is over: the run is gone, was claimed again, or is in no
    delivery. *)
Definition late (run : ClaimedCronRun) (db : CronDb) : Prop :=
  ∀ r, db.(runs) !! run.(cr_id) = Some r →
    ¬ (r.(run_state) = RClaimed ∧ r.(activation) = run.(cr_activation) ∧ r.(attempt) = run.(cr_attempt)).

Lemma late_completion run c now m db db' res :
  late run db → complete_cron_run run c now m db = (db', Ok res) → db' = db ∧ res = Stale.
Proof.
  intros Hlate H. unfold complete_cron_run in H. cron_run; try done.
  all: exfalso; apply update_runs_Some in Hm2 as (_ & _ & _ & _ & Hok).
  all: destruct (db.(runs) !! run.(cr_id)) as [r|] eqn:Hr'; [|done].
  all: destruct (Hok _ _ Hr' Hd) as (_ & Ht & _); destruct Hd as (_ & Hact & Hst).
  all: apply (Hlate r Hr'); split_and!; [done..|].
  all: unfold transition_guard in Ht; rewrite Hst in Ht; cbn in Ht; destruct c1; lia.
Qed.

(** The rows a completion writes satisfy the constraints of the table. *)
Lemma completion_check run c now m r :
  run_check r → r.(no_retry) = false → holds_claim run r → failure_code_ok c → in_i64 (backoff run.(cr_id) r.(attempt) now) →
  let r' := (completion_spec run c now m r).1 in identity_ok r r' ∧ transition_guard r r' ∧ run_check r'.
Proof.
  intros (H1 & H2 & H3 & H4 & H5 & H6 & H7 & H8) Hnr (Hst & Hact & Hatt & Hdead) Hcode Hback r'.
  assert (Hr' : r' = move_run (run_state r') (attempt r) (no_retry r') (next_attempt_at_ms r') None
    (first_dispatched_at_ms r) (dispatch_deadline_at_ms r) (last_unknown_reason r) (error_code r') (completed_at_ms r') r ∧
    shape_check r' ∧ (run_state r' = RReady → no_retry r' = false) ∧ is_none_or code_ok (error_code r') ∧ is_none_or in_i64 (next_attempt_at_ms r')).
  { unfold r', completion_spec. destruct c as [|[] code]; cbn in Hcode; repeat case_decide;
      (split_and!; [done|by split_and!; cbn; eauto|cbn; done..]). }
  destruct Hr' as (Heq & Hshape & Hret & Herr & Hnext). clearbody r'. rewrite Heq in Hshape, Herr, Hnext |- *. split_and!.
  - done.
  - unfold transition_guard. rewrite Hst. cbn. rewrite Hnr. destruct (run_state r'); auto.
  - unfold run_check. cbn. split_and!; done || lia.
Qed.

Lemma completed_row_spec run c now m r :
  holds_claim run r → 1 ≤ r.(attempt) ≤ 4 → in_i64 now → now ≤ 9000000000000000000 →
  ∃ retry_at, retry_time run c now m = Ok retry_at ∧
    let '(st, nr, code, res) := completed_row run c m retry_at in
    completion_spec run c now m r =
      (move_run st run.(cr_attempt) nr retry_at None r.(first_dispatched_at_ms) r.(dispatch_deadline_at_ms)
         r.(last_unknown_reason) code (if decide (st = RReady) then None else Some now) r, res).
Proof.
  intros (Hst & Hact & Hatt & Hdead) Ha Hnow Hmax. unfold retry_time, completion_spec.
  destruct c as [|[] code]; [by eexists; split; [done|]; cbn; rewrite Hatt..|].
  rewrite <-!Hatt. destruct (decide (m < attempt r)) as [Hm|Hm].
  - rewrite decide_False by lia. exists None. split; [done|]. cbn. rewrite Hatt, decide_False by lia. done.
  - rewrite decide_True by lia. rewrite cron_retry_at_backoff by (done || lia). cbn.
    destruct (decide (backoff _ _ _ < _)); eexists; (split; [done|]); cbn; rewrite Hatt; [done|].
    by rewrite decide_True by (split; [done|lia]).
Qed.

Lemma complete_cron_run_ok run c now m db r :
  cron_wf db → m ≤ 3 → failure_code_ok c → in_i64 now → now ≤ 9000000000000000000 →
  db.(runs) !! run.(cr_id) = Some r → holds_claim run r → 1 ≤ r.(attempt) →
  complete_cron_run run c now m db =
    (cron_notify (set_runs (<[run.(cr_id) := (completion_spec run c now m r).1]> db.(runs)) db),
     Ok (completion_spec run c now m r).2).
Proof.
  intros Hwf Hm Hcode Hnow Hmax Hr Hh Ha. pose proof (wf_runs _ Hwf _ _ Hr) as Hc. pose proof Hh as (Hst & Hact & Hatt & Hdead).
  assert (Ha4 : attempt r ≤ 4) by (destruct Hc as (_ & _ & _ & ? & _); lia).
  assert (Hnr : no_retry r = false).
  { destruct (no_retry r) eqn:E; [|done]. destruct (wf_no_retry _ Hwf _ _ Hr E) as [?|[?|?]]; congruence. }
  assert (Hback : in_i64 (backoff (cr_id run) (attempt r) now)).
  { pose proof (Z.mod_pos_bound (Z.of_N (cr_id run) mod 65536) 1000 ltac:(lia)).
    assert (0 ≤ 2 ^ attempt r ≤ 2 ^ 4) by (split; [lia|apply Z.pow_le_mono_r; lia]).
    unfold backoff, in_i64 in *. lia. }
  destruct (completed_row_spec run c now m r) as (retry_at & Hretry & Hspec); [done|lia|done..|].
  pose proof (completion_check run c now m r Hc Hnr Hh Hcode Hback) as Hok.
  unfold complete_cron_run. destruct (completed_row run c m retry_at) as [[[st nr] code] res] eqn:Hrow.
  rewrite Hspec in Hok |- *. run_simpl. rewrite decide_False by lia. rewrite Hr. cbn [is_some_and].
  rewrite decide_True by done. rewrite Hretry, Hrow. unfold statement.
  rewrite (update_run_key (claimed_by run) _ _ (cr_id run) r); [|by intros i x []|done|done|done].
  by rewrite (decide_False (P := 1 ≠ 1)) by tauto.
Qed.

(** The completion of the delivery a run is in.  A success ends the run; a failure
    that allows retries is tried again after its backoff, if an attempt and the
    deadline leave room for it, and otherwise ends the run with the reason; the run is
    the only row that changes.  The result of a delivery that is over - its run gone,
    ended, back in line or claimed again - changes nothing. *)
Theorem complete_cron_run_exact run c now m db r
    (Hwf : cron_wf db) (Hm : m ≤ 3) (Hcode : failure_code_ok c) (Hnow : in_i64 now)
    (Hmax : now ≤ 9000000000000000000) :
  (db.(runs) !! run.(cr_id) = Some r → holds_claim run r → 1 ≤ r.(attempt) →
   let '(r', res) := completion_spec run c now m r in
   complete_cron_run run c now m db =
     (cron_notify (set_runs (<[run.(cr_id) := r']> db.(runs)) db), Ok res)) ∧
  (late run db → (complete_cron_run run c now m db).1 = db ∧
     ∀ res, (complete_cron_run run c now m db).2 = Ok res → res = Stale).
Proof.
  split.
  - intros Hr Hh Ha. pose proof (complete_cron_run_ok run c now m db r Hwf Hm Hcode Hnow Hmax Hr Hh Ha) as H.
    by destruct (completion_spec run c now m r).
  - intros Hlate. destruct (complete_cron_run run c now m db) as [db' [res|e]] eqn:E; cbn.
    + apply late_completion in E as [-> ->]; [|done]. split; [done|]. by intros ? [= <-].
    + apply complete_cron_run_atomic in E as ->. done.
Qed.

(** ** History *)

Lemma later_total x y : x.1 ≠ y.1 → by_columns (λ y : N * Run, [default 0 y.2.(completed_at_ms); Z.of_N y.1]) x y → later y x.
Proof. intros Hne Hle. split; [exact Hle|]. by intros ?. Qed.

(** The oldest of some ended runs of an activation is preceded by the others. *)
Lemma ordinal_length rs a K x :
  NoDup K.*1 → (∀ y, y ∈ K → rs !! y.1 = Some y.2 ∧ terminal y.2 ∧ y.2.(activation) = a) →
  head (order_by (λ y, [default 0 y.2.(completed_at_ms); Z.of_N y.1]) K) = Some x →
  x ∈ K ∧ Z.of_nat (length K) ≤ ordinal rs x.
Proof.
  set (f := λ y : N * Run, [default 0 y.2.(completed_at_ms); Z.of_N y.1]). intros Hnd HK Hx.
  pose proof (order_by_sorted f K) as Hsort. pose proof (order_by_Permutation f K) as Hp.
  destruct (order_by f K) as [|z l]; [done|]. cbn in Hx. injection Hx as ->.
  assert (HxK : x ∈ K) by (rewrite <-Hp; left). split; [done|].
  rewrite <-(Permutation_length Hp). cbn [length]. unfold ordinal, affected, sql_where.
  apply StronglySorted_inv in Hsort as [_ Hle]. rewrite Forall_forall in Hle.
  assert (Hnd' : NoDup (x :: l).*1) by (by rewrite Hp). cbn in Hnd'. apply NoDup_cons in Hnd' as [Hnx Hnl].
  enough (length l ≤ length (filter (λ y, terminal y.2 ∧ activation y.2 = activation x.2 ∧ later y x) (map_to_list rs)))%nat by lia.
  apply submseteq_length, NoDup_submseteq; [by eapply NoDup_fmap_1|].
  intros y Hy. destruct (HK y) as (Hr & Ht & Ha); [rewrite <-Hp; by right|].
  destruct (HK x HxK) as (_ & _ & Hax). apply list_elem_of_filter. split; [|by apply elem_of_map_to_list'].
  split_and!; [done|congruence|]. apply later_total; [|by apply Hle].
  intros Heq. apply Hnx. rewrite Heq. by apply list_elem_of_fmap_2.
Qed.

(** The history pass removes exactly the ended runs that are older than the
    retention or not among the newest of their activation, and counts them.  No run that
    has not ended goes, and an activation keeps [limit] ended runs at most. *)
Theorem gc_cron_history_exact now retention limit db
    (Hret : 0 < retention ≤ i64_max) (Hlimit : 0 < limit) :
  ∃ db', gc_cron_history now retention limit db =
      (db', Ok (Z.of_nat (size db.(runs)) - Z.of_nat (size db'.(runs)))) ∧
    db'.(schedules) = db.(schedules) ∧
    (∀ i r, db'.(runs) !! i = Some r ↔ db.(runs) !! i = Some r ∧
       ¬ collectable db.(runs) (i64_saturate (now - retention)) limit (i, r)) ∧
    (∀ i r, db.(runs) !! i = Some r → ¬ terminal r → db'.(runs) !! i = Some r) ∧
    (∀ a, affected (λ x : N * Run, terminal x.2 ∧ x.2.(activation) = a) (map_to_list db'.(runs)) ≤ limit).
Proof.
  set (C := collectable db.(runs) (i64_saturate (now - retention)) limit).
  exists (set_runs (filter (λ x, ¬ C x) db.(runs)) db).
  assert (Hin : ∀ i r, filter (λ x, ¬ C x) db.(runs) !! i = Some r ↔ db.(runs) !! i = Some r ∧ ¬ C (i, r))
    by (intros; apply map_lookup_filter_Some).
  split_and!; [|done|exact Hin| |].
  - unfold gc_cron_history, cron_i64. run_simpl. rewrite decide_False by lia. unfold i64_checked.
    rewrite decide_True by (unfold in_i64; lia). do 2 f_equal. cbn [runs set_runs]. fold C.
    pose proof (map_size_disj_union _ _ (map_disjoint_filter_complement C db.(runs))) as Hsize.
    rewrite map_filter_union_complement in Hsize. lia.
  - intros i r Hr Hnt. apply Hin. split; [done|]. by intros [? _].
  - intros a. unfold affected, sql_where. set (K := filter _ _).
    assert (HK : ∀ y, y ∈ K → filter (λ x, ¬ C x) db.(runs) !! y.1 = Some y.2 ∧ terminal y.2 ∧ activation y.2 = a).
    { intros [i r] [[? ?] ?%elem_of_map_to_list]%list_elem_of_filter. done. }
    destruct (head (order_by (λ y : N * Run, [default 0 y.2.(completed_at_ms); Z.of_N y.1]) K)) as [x|] eqn:Hx.
    + apply (ordinal_length db.(runs) a) in Hx as [HxK Hord].
      * destruct (HK x HxK) as (Hr & Ht & _).
        apply Hin in Hr as [_ HnC]. apply Z.nlt_ge. intros Hlt. apply HnC. split; [done|]. right. rewrite <-surjective_pairing. lia.
      * eapply sublist_NoDup; [|apply fmap_sublist, sublist_filter]. apply NoDup_fst_map_to_list.
      * intros y Hy. destruct (HK y Hy) as (Hr & ? & ?). by apply Hin in Hr as [? _].
    + pose proof (order_by_Permutation (λ y : N * Run, [default 0 y.2.(completed_at_ms); Z.of_N y.1]) K) as Hp.
      destruct (order_by _ K); [|done]. apply Permutation_length in Hp. cbn in Hp. lia.
Qed.

(** ** Examples *)

Definition ex_claimed : ClaimedCronRun := claimed 9 8100000 4 ex_run.
Definition ex_delivery : CronDb := (claim_cron_runs 9 8100000 3 1 ex_runs).1.

Lemma ex_delivery_wf : cron_wf ex_delivery.
Proof. apply claim_cron_runs_keeps, ex_runs_wf. Qed.

Lemma complete_cron_run_exact_witness :
  complete_cron_run ex_claimed (Failure false "WORKER_ERROR") 8200000 3 ex_delivery =
    (cron_notify (set_runs (<[4%N := (completion_spec ex_claimed (Failure false "WORKER_ERROR") 8200000 3
      (claim_of 8100000 ex_run)).1]> ex_delivery.(runs)) ex_delivery), Ok CronRetried) ∧
  (complete_cron_run ex_claimed (Failure false "WORKER_ERROR") 8200000 3 ex_runs).1 = ex_runs.
Proof.
  split.
  - destruct (complete_cron_run_exact ex_claimed (Failure false "WORKER_ERROR") 8200000 3 ex_delivery
      (claim_of 8100000 ex_run)) as [H _];
      [apply ex_delivery_wf|lia|by vm_compute|split; lia|lia|].
    apply H; [by vm_compute|by vm_compute|by vm_compute].
  - apply (complete_cron_run_exact ex_claimed (Failure false "WORKER_ERROR") 8200000 3 ex_runs
      (claim_of 8100000 ex_run)); [apply ex_runs_wf|lia|by vm_compute|split; lia|lia|].
    intros r. vm_compute. intros [= <-] [? _]. done.
Defined.

Lemma gc_cron_history_exact_witness :
  (gc_cron_history 9000000 100000 5 ex_runs).2 = Ok 1 ∧
  ∃ db', gc_cron_history 9000000 100000 5 ex_runs =
      (db', Ok (Z.of_nat (size ex_runs.(runs)) - Z.of_nat (size db'.(runs)))) ∧ db'.(runs) !! 4%N = Some ex_run.
Proof.
  split; [vm_compute; reflexivity|].
  destruct (gc_cron_history_exact 9000000 100000 5 ex_runs) as (db' & H & _ & _ & Hkeep & _); [lia|lia|].
  exists db'. split; [exact H|]. apply Hkeep; [reflexivity|]. by intros [?|[?|?]].
Defined.
