(* ===== verification/CronProject.v ===== *)
(** * How slots become runs

    A projection pass over the due schedules: each contributes the newest slot of its
    grace window, once, and moves on to its first slot in the future. *)

From stdpp Require Import base numbers list option strings sorting gmap.
From S2P Require Import Prelude ErrorCodes Text Scheduler Sql CronSlots CronStore CronInv.

Local Open Scope Z_scope.

Section pass.
Context (parse : ustr → result PlatformError CronSchedule).
Context (to_zoned : Z → option Zoned) (days_in_month : Z → Z → Z).
Context (gen : nat → N) (now floor : Z).
(** the slot and the next slot of each schedule, as the slot calculator finds them *)
Context (slot : Schedule → option Z) (next : Schedule → Z).

Definition planned (s : Schedule) : Prop := ∃ parsed,
  parse s.(s_expression) = Ok parsed ∧
  latest_at_or_before_ms to_zoned days_in_month parsed (Z.max floor s.(next_fire_at_ms)) now = Ok (slot s) ∧
  next_after_ms to_zoned days_in_month parsed now = Ok (next s).

Definition advanced (s : Schedule) : Schedule :=
  schedule_row s.(s_worker) s.(s_version) s.(s_generation) s.(s_expression) s.(s_sha256)
    s.(s_parser_version) (next s) now.

(** The run of a slot. *)
Definition slot_run (id : N) (s : Schedule) (t : Z) : Run := new_run now t id s s.(s_generation).

Definition with_slot (s : Schedule) (id : N) (i : nat) (rs : gmap N Run) : gmap N Run :=
  match slot s with Some t => <[gen i := slot_run id s t]> rs | None => rs end.

Lemma slot_run_check id s t :
  schedule_check s → 0 ≤ t → in_i64 t → run_check (slot_run id s t).
Proof.
  intros (H1 & H2 & _) Ht Hi. unfold run_check. split_and!; done || (cbn; lia).
Qed.

(** One schedule. *)
Lemma project_schedule_ok i id s db :
  cron_wf db → db.(schedules) !! id = Some s → planned s → s.(next_fire_at_ms) ≤ now → 0 ≤ now → in_i64 now →
  0 ≤ floor → db.(runs) !! gen i = None →
  project_schedule parse to_zoned days_in_month gen now floor i (id, s) db =
    (cron_db (<[id := advanced s]> db.(schedules)) (with_slot s id i db.(runs)) db.(cron_wake),
     Ok (match slot s with Some _ => cron_slot_summary 1 0 | None => cron_slot_summary 0 1 end)).
Proof.
  intros Hwf Hs (parsed & Hp & Hlatest & Hnext) Hfire Hnow Hi64 Hfloor Hid.
  pose proof (wf_schedules _ Hwf _ _ Hs) as Hcheck. pose proof Hcheck as ((? & ?) & _ & _ & _ & _).
  apply next_after_ms_gt in Hnext as Hgt.
  unfold project_schedule. cbn [snd fst]. run_simpl. rewrite Hp, Hlatest.
  destruct (slot s) as [t|] eqn:Hslot.
  - apply latest_at_or_before_ms_in in Hlatest as Hin.
    unfold cron_i64. run_simpl. unfold i64_checked. rewrite decide_True by (unfold in_i64; lia).
    unfold statement at 1, insert_run. fold (slot_run id s t).
    rewrite decide_True.
    2: { unfold insert_guard. cbn. rewrite Hs. done. }
    rewrite decide_True.
    2: { split_and!; [done|apply slot_run_check; [done|lia|unfold in_i64 in *; lia]|].
         intros j r Hr [Ha Ht]. cbn in Ha, Ht. rewrite <-Ha in Hs. pose proof (wf_before _ Hwf j r s Hr Hs). lia. }
    run_simpl. rewrite Hnext. unfold statement, advance_schedule. cbn [schedules set_runs]. rewrite Hs.
    rewrite !decide_True by lia. rewrite decide_False by lia. unfold with_slot. by rewrite Hslot.
  - rewrite Hnext. unfold statement, advance_schedule. rewrite Hs.
    rewrite !decide_True by lia. rewrite decide_False by lia. unfold with_slot. by rewrite Hslot.
Qed.

(** What a pass leaves of the schedules [ss], numbered from [i]. *)
Record projected_to (i : nat) (ss : list (N * Schedule)) (db db' : CronDb) : Prop := {
  pj_runs : ∀ k id s t, ss !! k = Some (id, s) → slot s = Some t → db'.(runs) !! gen (i + k) = Some (slot_run id s t);
  pj_silent : ∀ k id s, ss !! k = Some (id, s) → slot s = None → db'.(runs) !! gen (i + k) = None;
  pj_old : ∀ j, (∀ k, (i ≤ k < i + length ss)%nat → j ≠ gen k) → db'.(runs) !! j = db.(runs) !! j;
  pj_schedules : ∀ id s, db.(schedules) !! id = Some s →
    db'.(schedules) !! id = Some (if decide (id ∈ ss.*1) then advanced s else s);
  pj_none : ∀ id, db.(schedules) !! id = None → db'.(schedules) !! id = None;
}.

Context (gen_inj : ∀ j k, gen j = gen k → j = k).
Context (Hnow : 0 ≤ now) (Hi64 : in_i64 now) (Hfloor : 0 ≤ floor).

Lemma projected_to_cons i id s ss db db1 db' :
  db.(schedules) !! id = Some s → db.(runs) !! gen i = None → id ∉ ss.*1 →
  db1.(schedules) = <[id := advanced s]> db.(schedules) → db1.(runs) = with_slot s id i db.(runs) →
  projected_to (S i) ss db1 db' → projected_to i ((id, s) :: ss) db db'.
Proof.
  intros Hs Hid Hnin Hsch Hruns [Hr Hsil Hold Hss Hn].
  assert (Hi : db'.(runs) !! gen i = match slot s with Some t => Some (slot_run id s t) | None => None end).
  { rewrite Hold, Hruns; [|intros k Hk Heq%gen_inj; lia]. unfold with_slot.
    destruct (slot s); [by rewrite lookup_insert_eq|done]. }
  split.
  - intros [|k] id' s' t Hk Ht.
    + cbn in Hk. injection Hk as <- <-. by rewrite Nat.add_0_r, Hi, Ht.
    + rewrite <-Nat.add_succ_comm. by apply Hr.
  - intros [|k] id' s' Hk Ht.
    + cbn in Hk. injection Hk as <- <-. by rewrite Nat.add_0_r, Hi, Ht.
    + rewrite <-Nat.add_succ_comm. by eapply Hsil.
  - intros j Hj. rewrite Hold by (intros k Hk; apply Hj; cbn; lia). rewrite Hruns. unfold with_slot.
    destruct (slot s); [|done]. rewrite lookup_insert_ne; [done|]. intros <-. apply (Hj i); [cbn; lia|done].
  - intros id' s' Hs'. destruct (decide (id' = id)) as [->|Hne].
    + assert (s' = s) as -> by congruence. rewrite (Hss id (advanced s)) by (by rewrite Hsch, lookup_insert_eq).
      rewrite decide_False by done. by rewrite decide_True by (cbn; left).
    + rewrite (Hss id' s') by (by rewrite Hsch, lookup_insert_ne). f_equal. apply decide_ext. cbn.
      rewrite elem_of_cons. tauto.
  - intros id' Hn'. apply Hn. rewrite Hsch, lookup_insert_ne; [done|]. congruence.
Qed.

Lemma project_loop_ok i ss db :
  cron_wf db → NoDup ss.*1 →
  (∀ id s, (id, s) ∈ ss → db.(schedules) !! id = Some s ∧ planned s ∧ s.(next_fire_at_ms) ≤ now) →
  (∀ k, (i ≤ k)%nat → db.(runs) !! gen k = None) →
  ∃ db', project_loop parse to_zoned days_in_month gen now floor i ss db =
      (db', Ok (cron_slot_summary (affected (λ s, is_Some (slot s.2)) ss) (affected (λ s, slot s.2 = None) ss))) ∧
    projected_to i ss db db'.
Proof.
  revert i db. induction ss as [|[id s] ss IH]; intros i db Hwf Hnd Hss Hgen.
  - exists db. split; [done|]. by split.
  - cbn in Hnd. apply NoDup_cons in Hnd as [Hnin Hnd]. destruct (Hss id s) as (Hs & Hplan & Hfire); [by left|].
    pose proof (project_schedule_ok i id s db Hwf Hs Hplan Hfire Hnow Hi64 Hfloor (Hgen i ltac:(lia))) as Hone.
    set (db1 := cron_db _ _ _) in Hone.
    destruct (IH (S i) db1) as (db' & Hrun & Hpj); [by eapply project_schedule_wf|done| | |].
    + intros id' s' Hin. destruct (Hss id' s') as (? & ? & ?); [by right|]. split; [|done]. cbn.
      rewrite lookup_insert_ne; [done|]. intros <-. apply Hnin. apply list_elem_of_fmap. by exists (id, s').
    + intros k Hk. cbn. unfold with_slot. destruct (slot s); [|apply Hgen; lia].
      rewrite lookup_insert_ne; [apply Hgen; lia|]. intros ?%gen_inj. lia.
    + exists db'. split; [|apply (projected_to_cons i id s ss db db1 db'); [done|by apply Hgen|done..]].
      cbn [project_loop]. unfold mbind, M_bind at 1. rewrite Hone. unfold M_bind. rewrite Hrun. unfold mret, M_ret.
      rewrite !affected_cons. cbn [snd]. do 2 f_equal. destruct (slot s) as [t|].
      * rewrite (decide_True (P := is_Some _)) by done. by rewrite decide_False.
      * rewrite (decide_False (P := is_Some _)) by (by intros []). by rewrite decide_True.
Qed.
End pass.

(** ** A pass *)

(** The due schedules of a pass, longest due first. *)
Definition due_schedules (now limit : Z) (db : CronDb) : list (N * Schedule) :=
  take (Z.to_nat limit)
    (order_by (λ s, [s.2.(next_fire_at_ms); Z.of_N s.1])
      (sql_where (λ s, s.2.(next_fire_at_ms) ≤ now) (map_to_list db.(schedules)))).

Lemma due_schedules_elem now limit db id s :
  (id, s) ∈ due_schedules now limit db → db.(schedules) !! id = Some s ∧ s.(next_fire_at_ms) ≤ now.
Proof.
  intros Hin%elem_of_take. rewrite elem_of_order_by in Hin.
  by apply list_elem_of_filter in Hin as [? ?%elem_of_map_to_list].
Qed.

Lemma due_schedules_NoDup now limit db : NoDup (due_schedules now limit db).*1.
Proof.
  unfold due_schedules. rewrite <-firstn_map. eapply sublist_NoDup; [|apply sublist_take].
  rewrite order_by_Permutation. eapply sublist_NoDup; [|apply fmap_sublist, sublist_filter].
  apply NoDup_fst_map_to_list.
Qed.

Lemma due_schedules_run now limit db :
  cron_wf db → due_schedules_tx now limit db = (db, Ok (due_schedules now limit db)).
Proof.
  intros Hwf. unfold due_schedules_tx, id. run_simpl. rewrite decide_False; [done|]. intros Hno. apply Hno.
  apply Forall_forall. intros [i s] [Hs _]%due_schedules_elem. pose proof (wf_schedules _ Hwf _ _ Hs) as (? & _).
  cbn. unfold in_u64. lia.
Qed.

(** C39. A projection pass of a well-formed store, over schedules whose slots can be
    found, always succeeds.  Each due schedule contributes its newest slot of the grace
    window as one new ready run, or counts as skipped if the window holds none, and
    moves to its first slot after now; no recorded run and no other schedule changes. *)
Theorem project_due_cron_slots_exact parse to_zoned days_in_month gen now grace limit slot next db
    (Hwf : cron_wf db) (Hnow : 0 ≤ now ≤ i64_max) (Hgrace : 0 ≤ grace ≤ i64_max) (Hlimit : 0 < limit)
    (Hinj : ∀ j k, gen j = gen k → j = k) (Hfresh : ∀ k, db.(runs) !! gen k = None)
    (Hplan : ∀ id s, (id, s) ∈ due_schedules now limit db →
       planned parse to_zoned days_in_month now (Z.max (now - grace) 0) slot next s) :
  let ss := due_schedules now limit db in
  ∃ db', project_due_cron_slots parse to_zoned days_in_month gen now grace limit db =
      (db', Ok (cron_slot_summary (affected (λ s, is_Some (slot s.2)) ss) (affected (λ s, slot s.2 = None) ss))) ∧
    projected_to gen now slot next 0 ss db db'.
Proof.
  intros ss. destruct (project_loop_ok parse to_zoned days_in_month gen now (Z.max (now - grace) 0) slot next
    Hinj ltac:(lia) ltac:(unfold in_i64; lia) ltac:(lia) 0 ss db) as (db' & Hrun & Hpj).
  - done.
  - apply due_schedules_NoDup.
  - intros id s Hin. pose proof (due_schedules_elem _ _ _ _ _ Hin) as [? ?]. split_and!; [done|by eapply Hplan|done].
  - intros k _. apply Hfresh.
  - unfold project_due_cron_slots, cron_i64. run_simpl. rewrite decide_False by lia. unfold i64_checked.
    rewrite decide_True by (unfold in_i64; lia). rewrite (due_schedules_run now limit db Hwf).
    replace (i64_saturate (now - grace)) with (now - grace) by (unfold i64_saturate; lia). fold ss. rewrite Hrun. cbn [projected skipped].
    destruct (decide (_ ∨ _)); [|by eauto]. exists (cron_notify db'). split; [done|]. by destruct Hpj; split.
Qed.

(** ** Example *)

Definition ex_gen (k : nat) : N := N.of_nat k + 100.
Definition ex_parse (_ : ustr) : result PlatformError CronSchedule := Ok ex_schedule.
Definition ex_hourly : Schedule :=
  schedule_row 1 2 1 (lit "10 * * * MON") (replicate 32 0) 1 4200000 3700000.
Definition ex_schedules : CronDb := cron_db {[ 7%N := ex_hourly ]} ∅ 0.

Lemma project_due_cron_slots_exact_witness :
  ∃ db', project_due_cron_slots ex_parse ex_to_zoned ex_days_in_month ex_gen 9000000 3600000 10 ex_schedules =
      (db', Ok (cron_slot_summary 1 0)) ∧
    db'.(runs) !! 100%N = Some (slot_run 9000000 7 ex_hourly 7800000) ∧
    db'.(schedules) !! 7%N = Some (advanced 9000000 (λ _, 11400000) ex_hourly).
Proof.
  destruct (project_due_cron_slots_exact ex_parse ex_to_zoned ex_days_in_month ex_gen 9000000 3600000 10
    (λ _, Some 7800000) (λ _, 11400000) ex_schedules) as (db' & Hrun & Hpj).
  - split; cbn; try done. apply map_Forall_singleton. apply (bool_decide_unpack _). vm_compute. exact I.
  - lia.
  - lia.
  - lia.
  - unfold ex_gen. lia.
  - done.
  - intros id s [Hs _]%due_schedules_elem. cbn in Hs. apply lookup_singleton_Some in Hs as [<- <-].
    exists ex_schedule. split_and!; vm_compute; reflexivity.
  - exists db'. split_and!.
    + exact Hrun.
    + apply (pj_runs _ _ _ _ _ _ _ _ Hpj 0%nat 7%N ex_hourly 7800000); vm_compute; reflexivity.
    + apply (pj_schedules _ _ _ _ _ _ _ _ Hpj 7%N ex_hourly); vm_compute; reflexivity.
Defined.
