(* ===== verification/CronReach.v ===== *)
(** * The cron store as a state machine

    Every operation of the cron store is a step.  Along with the tables, a log records
    each delivery a claim hands out: all reachable tables are well formed, and a run is
    delivered a bounded number of times, within the deadline its first delivery set. *)

From stdpp Require Import base numbers list option strings sorting gmap.
From S2P Require Import Prelude ErrorCodes Text Scheduler Sql CronSlots CronStore CronInv CronClaim CronProject.

Local Open Scope Z_scope.

(** ** Steps *)

Section machine.
Context (instance_id : N) (parse : ustr → result PlatformError CronSchedule).
Context (to_zoned : Z → option Zoned) (days_in_month : Z → Z → Z).

(** The calls of the store.  The generators of ids are arbitrary. *)
Inductive cron_call : Type :=
| CronPromote (gen : nat → N) (worker version : N) (generation now_ms : Z) (ds : list (ustr * list Z * Z))
| CronProject (gen : nat → N) (now_ms grace_ms limit : Z)
| CronClaim (now_ms max_retries limit : Z)
| CronComplete (run : ClaimedCronRun) (c : CronCompletion) (now_ms max_retries : Z)
| CronUnknown (run : ClaimedCronRun) (reason : CronUnknownReason) (now_ms max_retries : Z)
| CronReset (now_ms max_retries : Z)
| CronGc (now_ms retention_ms limit : Z).

(** The tables a call leaves, whether it succeeds or fails. *)
Definition run_cron (c : cron_call) (db : CronDb) : CronDb :=
  match c with
  | CronPromote gen w v g now ds =>
      (replace_cron_schedules parse to_zoned days_in_month gen w v g now ds db).1
  | CronProject gen now grace n =>
      (project_due_cron_slots parse to_zoned days_in_month gen now grace n db).1
  | CronClaim now m n => (claim_cron_runs instance_id now m n db).1
  | CronComplete run c now m => (complete_cron_run run c now m db).1
  | CronUnknown run reason now m => (mark_cron_unknown run reason now m db).1
  | CronReset now m => (reset_cron_claims now m db).1
  | CronGc now retention n => (gc_cron_history now retention n db).1
  end.

(** The deliveries a call hands out: the run and the time. *)
Definition deliveries (c : cron_call) (db : CronDb) : list (N * Z) :=
  match c with
  | CronClaim now m n =>
      match (claim_cron_runs instance_id now m n db).2 with
      | Ok ys => (λ y, (y.(cr_id), now)) <$> ys
      | Err _ => []
      end
  | _ => []
  end.

(** Generated ids are new: an activation is not that of a recorded run, and a run is
    not one that was delivered.  Claims allow [m] retries at most. *)
Definition cron_call_ok (m : Z) (c : cron_call) (db : CronDb) (log : list (N * Z)) : Prop :=
  match c with
  | CronPromote gen _ _ _ _ _ => ∀ k j r, db.(runs) !! j = Some r → r.(activation) ≠ gen k
  | CronProject gen _ _ _ => ∀ k, gen k ∉ log.*1
  | CronClaim _ m' _ => m' ≤ m
  | _ => True
  end.

Inductive cron_exec (m : Z) : CronDb → list (N * Z) → Prop :=
| exec_empty : cron_exec m (cron_db ∅ ∅ 0) []
| exec_call c db log :
    cron_exec m db log → cron_call_ok m c db log → cron_exec m (run_cron c db) (log ++ deliveries c db).

Lemma run_cron_wf m c db log : cron_call_ok m c db log → cron_wf db → cron_wf (run_cron c db).
Proof.
  intros Hok Hwf. destruct c; cbn in Hok |- *.
  - by apply replace_cron_schedules_wf.
  - by apply project_due_cron_slots_keeps.
  - by apply claim_cron_runs_keeps.
  - by apply complete_cron_run_keeps.
  - by apply mark_cron_unknown_keeps.
  - by apply reset_cron_claims_keeps.
  - by apply gc_cron_history_keeps.
Qed.

Lemma cron_exec_wf m db log : cron_exec m db log → cron_wf db.
Proof.
  induction 1; [|by eapply run_cron_wf]. split; cbn; try done; intros *; rewrite lookup_empty; done.
Qed.

(** ** Deliveries *)

Definition times (id : N) (log : list (N * Z)) : list Z := (filter (λ d, d.1 = id) log).*2.

Lemma times_app id log log' : times id (log ++ log') = times id log ++ times id log'.
Proof. unfold times. by rewrite filter_app, fmap_app. Qed.

(** The log bounds the deliveries of each run, and the row of a run counts them and
    remembers the first. *)
Definition log_ok (m : Z) (rs : gmap N Run) (log : list (N * Z)) : Prop := ∀ id,
  Z.of_nat (length (times id log)) ≤ m + 1 ∧
  (∀ t t0, head (times id log) = Some t0 → t ∈ times id log → t < t0 + 900000) ∧
  ∀ r, rs !! id = Some r →
    Z.of_nat (length (times id log)) = r.(attempt) ∧ head (times id log) = r.(first_dispatched_at_ms).

(** Tables with fewer or the same runs keep the log. *)
Lemma log_ok_sub m rs rs' log :
  log_ok m rs log →
  (∀ id r', rs' !! id = Some r' → ∃ r, rs !! id = Some r ∧ r'.(attempt) = r.(attempt) ∧
     r'.(first_dispatched_at_ms) = r.(first_dispatched_at_ms)) → log_ok m rs' log.
Proof.
  intros Hlog Hsub id. destruct (Hlog id) as (H1 & H2 & H3). split_and!; [done..|].
  intros r' (r & Hr & -> & ->)%Hsub. by apply H3.
Qed.

Lemma update_runs_log m P `{!∀ i r, Decision (P i r)} f db db' n log :
  log_ok m db.(runs) log → update_runs P f db = Some (db', n) →
  (∀ i r, P i r → transition_guard r (f r) →
     (f r).(attempt) = r.(attempt) ∧ (f r).(first_dispatched_at_ms) = r.(first_dispatched_at_ms)) →
  log_ok m db'.(runs) log.
Proof.
  intros Hlog (Hl & _ & _ & _ & Hg)%update_runs_Some Hf. eapply log_ok_sub; [done|].
  intros id r'. rewrite Hl. destruct (db.(runs) !! id) as [r|] eqn:Hr; [|done]. cbn. intros [= <-].
  exists r. split; [done|]. case_decide as HP; [|done]. destruct (Hg id r Hr HP) as (_ & Ht & _). by apply (Hf id).
Qed.

(** A claim of a run that has a delivery left adds it to the log. *)
Lemma claim_log m rs log id r now :
  log_ok m rs log → rs !! id = Some r → dispatch_check r → r.(attempt) < m + 1 →
  is_none_or (λ d, now < d) r.(dispatch_deadline_at_ms) →
  log_ok m (<[id := claim_of now r]> rs) (log ++ [(id, now)]).
Proof.
  intros Hlog Hr Hd Hatt Hdead id'. destruct (Hlog id') as (H1 & H2 & H3). rewrite times_app.
  unfold times at 2 4 6 8 10. destruct (decide (id' = id)) as [->|Hne].
  - rewrite filter_cons_True by done. cbn. destruct (H3 r Hr) as [Hlen Hhead].
    rewrite length_app. cbn. clear H3. unfold dispatch_check in Hd.
    destruct (times id log) as [|x ts]; cbn in *; rewrite <-Hhead in Hd.
    + split_and!; [lia| |].
      * intros t t0 [= <-] ->%list_elem_of_singleton. lia.
      * intros r'. rewrite lookup_insert_eq. intros [= <-]. cbn. rewrite <-Hhead. split; [lia|done].
    + destruct (dispatch_deadline_at_ms r) as [d|]; [|done]. cbn in Hdead. split_and!; [lia| |].
      * intros t t0 [= <-] Ht. change (x :: ts ++ [now]) with ((x :: ts) ++ [now]) in Ht.
        apply elem_of_app in Ht as [Ht|Ht%list_elem_of_singleton]; [by apply H2|lia].
      * intros r'. rewrite lookup_insert_eq. intros [= <-]. cbn. rewrite <-Hhead. split; [lia|done].
  - rewrite filter_cons_False by done. cbn. rewrite app_nil_r. split_and!; [done..|].
    intros r'. rewrite lookup_insert_ne by done. apply H3.
Qed.

Lemma claim_rows_log m m' now rows rs log :
  log_ok m rs log → m' ≤ m → NoDup rows.*1 →
  (∀ id r, (id, r) ∈ rows → rs !! id = Some r ∧ run_check r ∧ due_run now m' r) →
  log_ok m (claim_all now rows.*1 rs) (log ++ ((λ ir, (ir.1, now)) <$> rows)).
Proof.
  intros Hlog Hm. revert rs log Hlog. induction rows as [|[id r] rows IH]; intros rs log Hlog Hnd Hrows.
  - rewrite app_nil_r, claim_all_nil. done.
  - cbn in Hnd. apply NoDup_cons in Hnd as [Hnid Hnd]. destruct (Hrows id r) as (Hr & Hc & Hd); [by left|].
    destruct Hc as (_ & _ & _ & _ & _ & _ & Hdc & _). destruct Hd as (_ & _ & Hatt & Hdead).
    apply (claim_log m rs log id r now) in Hlog; [|done|done|lia|done].
    apply IH in Hlog; [|done|by apply (claim_rows_tail _ (λ x, run_check x ∧ due_run now m' x))].
    rewrite claim_all_cons in Hlog by done. rewrite <-(assoc_L (++)) in Hlog. done.
Qed.

Lemma claim_cron_runs_args now m n db db' ys :
  claim_cron_runs instance_id now m n db = (db', Ok ys) → m ≤ 3 ∧ n ≠ 0 ∧ in_i64 (now + 900000).
Proof.
  unfold claim_cron_runs. intros E. cron_run. change (15 * 60 * 1000) with 900000 in *.
  repeat match goal with H : i64_checked _ = Some _ |- _ => apply i64_checked_Some in H as [? ?] end.
  subst. split_and!; [lia..|done].
Qed.

Lemma claim_call_log m now m' n db log :
  cron_wf db → log_ok m db.(runs) log → m' ≤ m →
  log_ok m (run_cron (CronClaim now m' n) db).(runs) (log ++ deliveries (CronClaim now m' n) db).
Proof.
  intros Hwf Hlog Hm. cbn [run_cron deliveries]. destruct (claim_cron_runs instance_id now m' n db) as [db' [ys|e]] eqn:E.
  - apply claim_cron_runs_args in E as Hargs.
    destruct Hargs as (Hm3 & Hn & Hi64).
    destruct (claim_cron_runs_ok instance_id now m' n db Hwf Hm3 Hn Hi64) as (d & Hd & _ & Hl). rewrite Hd in E.
    injection E as <- <-. cbn [fst snd]. rewrite <-list_fmap_compose.
    apply (claim_rows_log m m' now (due_rows now m' n db.(runs))) in Hlog; [|done|apply due_runs_NoDup|].
    + eapply log_ok_sub; [done|]. intros i r'. rewrite Hl, claim_all_lookup.
      destruct (db.(runs) !! i) as [r|]; [|done]. cbn. unfold after_claim. intros [= <-]. case_decide; [by eauto|].
      case_decide; by eauto.
    + intros id r [Hr Hdue]%due_rows_elem. split_and!; [done|by apply (wf_runs _ Hwf id)|done].
  - apply claim_cron_runs_atomic in E as ->. cbn. by rewrite app_nil_r.
Qed.

(** A call that hands out nothing: its failures change nothing and its successful runs
    keep the log. *)
Lemma atomic_log {A} m (op : CM A) db log :
  atomic op → log_ok m db.(runs) log →
  (∀ db' a, op db = (db', Ok a) → log_ok m db'.(runs) log) → log_ok m (op db).1.(runs) log.
Proof.
  intros Ha Hlog Hop. destruct (op db) as [db' [a|e]] eqn:E; cbn; [by eapply Hop|]. apply Ha in E as ->. done.
Qed.

(** A run that was never delivered has no entry. *)
Lemma new_run_log m rs id r log :
  log_ok m rs log → id ∉ log.*1 → r.(attempt) = 0 → r.(first_dispatched_at_ms) = None →
  log_ok m (<[id := r]> rs) log.
Proof.
  intros Hlog Hid Ha Hf i. destruct (Hlog i) as (H1 & H2 & H3). split_and!; [done..|].
  intros r' [[<- <-]|[_ Hr]]%lookup_insert_Some; [|by apply H3].
  assert (times id log = []) as ->; [|by rewrite Ha, Hf]. unfold times.
  rewrite (elem_of_nil_inv (filter _ log)); [done|]. intros [j t] [Hj Hin]%list_elem_of_filter. cbn in Hj. subst j.
  apply Hid. apply list_elem_of_fmap. by exists (id, t).
Qed.

Lemma project_loop_log m gen now floor i ss db db' x log :
  log_ok m db.(runs) log → (∀ k, gen k ∉ log.*1) →
  project_loop parse to_zoned days_in_month gen now floor i ss db = (db', Ok x) → log_ok m db'.(runs) log.
Proof.
  intros Hlog Hgen. revert i db x Hlog. induction ss as [|s ss IH]; intros i db x Hlog H; cbn [project_loop] in H; cron_run; [done|].
  eapply IH; [|done].
  match goal with H : project_schedule _ _ _ _ _ _ _ _ _ = _ |- _ =>
    apply project_schedule_run in H as (p & slot & next & d & _ & _ & _ & Hins & Hadv) end.
  apply advance_schedule_Some in Hadv as (? & _ & _ & _ & ->). cbn.
  destruct slot as [t|]; [|by destruct Hins as [-> _]]. destruct Hins as [Hins _].
  apply insert_run_Some in Hins as [_ [(_ & -> & _ & _ & _)|[_ ->]]]; [|done]. by apply new_run_log.
Qed.

Lemma install_loop_runs gen w v g now i ds db db' u :
  install_loop parse to_zoned days_in_month gen w v g now i ds db = (db', Ok u) → db'.(runs) = db.(runs).
Proof.
  revert i db. induction ds as [|[[e dg] p] ds IH]; intros i db H; cbn [install_loop] in H; unfold install_schedule in H;
    cron_run; [done|]. by match goal with H : install_loop _ _ _ _ _ _ _ _ _ _ _ = _ |- _ => apply IH in H as -> end.
Qed.

Lemma run_cron_log m c db log :
  cron_wf db → cron_call_ok m c db log → log_ok m db.(runs) log →
  log_ok m (run_cron c db).(runs) (log ++ deliveries c db).
Proof.
  intros Hwf Hok Hlog. destruct c; [| |by apply claim_call_log|..]; cbn [deliveries run_cron] in *;
    rewrite app_nil_r; apply atomic_log; auto with cron; intros db' a H.
  - unfold replace_cron_schedules in H. cron_run.
    match goal with H : install_loop _ _ _ _ _ _ _ _ _ _ _ = _ |- _ => apply install_loop_runs in H as -> end. done.
  - unfold project_due_cron_slots, due_schedules_tx in H. cron_run; cbn; by eapply project_loop_log.
  - unfold complete_cron_run in H. cron_run; cbn; try done; (eapply update_runs_log; [done..|]).
    all: intros i r (_ & _ & Hst) Ht; unfold transition_guard in Ht; rewrite Hst in Ht.
    all: cbn in Ht |- *. all: split; [|done]. all: by match goal with H : context [match ?st with _ => _ end] |- _ => destruct st, H end.
  - unfold mark_cron_unknown in H. cron_run; cbn; by eapply update_runs_log.
  - unfold reset_cron_claims in H. cron_run. by eapply update_runs_log.
  - unfold gc_cron_history in H. cron_run. eapply log_ok_sub; [done|]. cbn.
    intros i r [? _]%map_lookup_filter_Some. eauto.
Qed.

Lemma cron_exec_log m db log : 0 ≤ m + 1 → cron_exec m db log → log_ok m db.(runs) log.
Proof.
  intros Hm. induction 1 as [|c db log He IH Hok]; [|by apply run_cron_log; [eapply cron_exec_wf|..]].
  intros id. split_and!; cbn; [lia|done|]. intros r. by rewrite lookup_empty.
Qed.


(** C36. No execution of the store, whatever the calls, their order and their results,
    delivers a run more than once more than its retries, or later than fifteen minutes
    after its first delivery; the row of a run counts its deliveries and remembers the
    first, a slot of an activation has one run, and all rows satisfy the constraints of
    their tables. *)
Theorem cron_deliveries_bounded m db log (Hm : 0 ≤ m) (He : cron_exec m db log) :
  cron_wf db ∧ ∀ id,
    Z.of_nat (length (times id log)) ≤ m + 1 ∧
    (∀ t t0, head (times id log) = Some t0 → t ∈ times id log → t < t0 + 900000) ∧
    ∀ r, db.(runs) !! id = Some r →
      Z.of_nat (length (times id log)) = r.(attempt) ∧ head (times id log) = r.(first_dispatched_at_ms).
Proof. split; [by eapply cron_exec_wf|]. apply cron_exec_log; [lia|done]. Qed.

(** ** The lifecycle of a run

    What the store promises of one run: it is created waiting, each delivery is counted
    as it starts, a delivery ends in another wait or for good, and only a run that ended
    is forgotten. *)

Inductive phase : Type :=
| Waiting (delivered : Z)
| Delivering (delivered : Z)
| Ended.

Definition phase_of (r : Run) : phase :=
  match r.(run_state) with
  | RReady => Waiting r.(attempt)
  | RClaimed => Delivering r.(attempt)
  | _ => Ended
  end.

(** A delivery that is over. *)
Inductive released (k : Z) : phase → Prop :=
| released_waiting : released k (Waiting k)
| released_ended : released k Ended.

(** What a call may do to the run [id]; [out] says that the call hands it out. *)
Inductive life (id : N) (out : Prop) : cron_call → option phase → option phase → Prop :=
| life_stay c p : ¬ out → life id out c p p
| life_create gen now grace n : ¬ out → life id out (CronProject gen now grace n) None (Some (Waiting 0))
| life_deliver now m n k : out → k ≤ m → life id out (CronClaim now m n) (Some (Waiting k)) (Some (Delivering (k + 1)))
| life_expire now m n k : ¬ out → 0 < k → life id out (CronClaim now m n) (Some (Waiting k)) (Some Ended)
| life_complete run c now m p :
    ¬ out → id = run.(cr_id) → released run.(cr_attempt) p →
    life id out (CronComplete run c now m) (Some (Delivering run.(cr_attempt))) (Some p)
| life_unknown run reason now m k p :
    ¬ out → id = run.(cr_id) → released k p →
    life id out (CronUnknown run reason now m) (Some (Delivering k)) (Some p)
| life_reset now m k p :
    ¬ out → released k p → life id out (CronReset now m) (Some (Delivering k)) (Some p)
| life_forget now retention n : ¬ out → life id out (CronGc now retention n) (Some Ended) None.

Definition phase_at (db : CronDb) (id : N) : option phase := phase_of <$> db.(runs) !! id.

(** An update of runs in delivery releases them. *)
Lemma update_released id P `{!∀ i r, Decision (P i r)} f db db' n :
  update_runs P f db = Some (db', n) → (∀ i r, P i r → r.(run_state) = RClaimed) →
  (∀ r, (f r).(run_state) ≠ RClaimed) →
  phase_at db' id = phase_at db id ∨
  ∃ r p, db.(runs) !! id = Some r ∧ P id r ∧ (f r).(attempt) = r.(attempt) ∧
    phase_at db id = Some (Delivering r.(attempt)) ∧ phase_at db' id = Some p ∧ released r.(attempt) p.
Proof.
  intros (Hl & _ & _ & _ & Hg)%update_runs_Some HP Hf. unfold phase_at. rewrite Hl.
  destruct (db.(runs) !! id) as [r|] eqn:Hr; [|by left]. cbn. case_decide as HPr; [|by left]. right.
  destruct (Hg id r Hr HPr) as (_ & Ht & _). pose proof (HP id r HPr) as Hst. pose proof (Hf r) as Hne.
  unfold transition_guard in Ht. rewrite Hst in Ht.
  assert (Hatt : attempt (f r) = attempt r) by (destruct (run_state (f r)); [by destruct Ht|done..]).
  exists r, (phase_of (f r)). split_and!; try done; unfold phase_of; [by rewrite Hst|].
  rewrite Hatt. destruct (run_state (f r)); done || constructor.
Qed.

Lemma phase_of_terminal r : terminal r → phase_of r = Ended.
Proof. unfold phase_of. by intros [->|[->| ->]]. Qed.

(** A call that hands out nothing and whose failures change nothing. *)
Lemma life_atomic {A} (op : CM A) c db id :
  atomic op →
  (∀ out db' a, ¬ out → op db = (db', Ok a) → life id out c (phase_at db id) (phase_at db' id)) →
  life id (id ∈ ([] : list (N * Z)).*1) c (phase_at db id) (phase_at (op db).1 id).
Proof.
  intros Ha Hop. destruct (op db) as [db' [a|e]] eqn:E; cbn; [eapply Hop; [|done]; apply not_elem_of_nil|].
  apply Ha in E as ->. apply life_stay, not_elem_of_nil.
Qed.

(** A new run under a new id. *)
Lemma project_loop_life gen now floor i ss db db' x id :
  project_loop parse to_zoned days_in_month gen now floor i ss db = (db', Ok x) →
  phase_at db' id = phase_at db id ∨ (phase_at db id = None ∧ phase_at db' id = Some (Waiting 0)).
Proof.
  revert i db x. induction ss as [|s ss IH]; intros i db x H; cbn [project_loop] in H; cron_run; [by left|].
  match goal with H : project_schedule _ _ _ _ _ _ _ _ _ = _ |- _ =>
    apply project_schedule_run in H as (p & slot & next & d & _ & _ & _ & Hins & Hadv) end.
  apply advance_schedule_Some in Hadv as (? & _ & _ & _ & ->).
  match goal with H : project_loop _ _ _ _ _ _ _ _ _ = _ |- _ => apply IH in H end.
  assert (Hd : phase_at d id = phase_at db id ∨ (phase_at db id = None ∧ phase_at d id = Some (Waiting 0))).
  { destruct slot as [t|]; [|left; by destruct Hins as [-> _]]. destruct Hins as [Hins _].
    apply insert_run_Some in Hins as [_ [(_ & -> & Hid & _)|[_ ->]]]; [|by left]. unfold phase_at. cbn.
    destruct (decide (id = gen i)) as [->|Hne]; [right; by rewrite lookup_insert_eq, Hid|left].
    by rewrite lookup_insert_ne. }
  unfold phase_at in *. cbn in *. destruct Hd as [Hd|[Hd1 Hd2]]; rewrite ?Hd, ?Hd1, ?Hd2 in *; naive_solver.
Qed.

(** Splits the effect of an update that releases runs in delivery. *)
Ltac released_step id :=
  match goal with H : @update_runs _ _ _ _ = Some _ |- _ =>
    let Hrel := fresh "Hrel" in
    apply (update_released id) in H as Hrel;
    [unfold phase_at in *; cbn [runs cron_notify] in *;
     destruct Hrel as [->|(row & next & _ & HP & Hatt & -> & -> & Hrel)]|..] end;
  cycle 2.

Lemma life_claim m db log now m' n id :
  0 ≤ m → cron_exec m db log →
  life id (id ∈ (deliveries (CronClaim now m' n) db).*1) (CronClaim now m' n)
    (phase_at db id) (phase_at (run_cron (CronClaim now m' n) db) id).
Proof.
  intros Hm He. cbn [run_cron deliveries]. destruct (claim_cron_runs instance_id now m' n db) as [db' [ys|e]] eqn:E.
  2: { apply claim_cron_runs_atomic in E as ->. apply life_stay. apply not_elem_of_nil. }
  pose proof (cron_exec_wf _ _ _ He) as Hwf. apply claim_cron_runs_args in E as Hargs. destruct Hargs as (Hm3 & Hn & Hi64).
  destruct (claim_cron_runs_ok instance_id now m' n db Hwf Hm3 Hn Hi64) as (d & Hd & _ & Hl). rewrite Hd in E.
  injection E as <- <-. cbn [fst snd]. rewrite <-!list_fmap_compose.
  change ((_ ∘ _) <$> ?l) with (fst <$> l). unfold phase_at. rewrite Hl.
  destruct (db.(runs) !! id) as [r|] eqn:Hr.
  - cbn. unfold after_claim. destruct (decide (id ∈ _)) as [Hin|Hin].
    + apply due_runs_elem in Hin as Hdue. destruct Hdue as (r' & Hr' & (Hst & _ & Hatt & _)).
      assert (r' = r) as -> by congruence. unfold phase_of. rewrite Hst. cbn. by apply life_deliver; [|lia].
    + case_decide as Hu; [|by apply life_stay]. destruct Hu as (Hst & [t Ht] & _). unfold phase_of at 1. rewrite Hst.
      apply life_expire; [done|]. destruct (cron_exec_log m db log ltac:(lia) He id) as (_ & _ & Hlog).
      destruct (Hlog r Hr) as [Hlen Hhead]. rewrite Ht in Hhead. destruct (times id log); [done|]. cbn in Hlen. lia.
  - apply life_stay. intros (? & Hr' & _)%due_runs_elem. congruence.
Qed.

(** C35. The store refines the lifecycle of a run.  Along every execution each call,
    whether it succeeds or fails, takes each run through at most one step of its
    lifecycle, a step that call may take; and the runs a claim hands out are exactly
    those that start a delivery. *)
Theorem cron_refines_lifecycle m db log c id
    (Hm : 0 ≤ m) (He : cron_exec m db log) (Hok : cron_call_ok m c db log) :
  life id (id ∈ (deliveries c db).*1) c (phase_at db id) (phase_at (run_cron c db) id).
Proof.
  destruct c as [| |now m' n|run c now m'|run reason now m'|now m'|now retention n];
    [| |by eapply life_claim|..]; cbn [deliveries run_cron]; apply life_atomic; auto with cron; intros out db' a Hout H.
  - unfold replace_cron_schedules in H. cron_run.
    match goal with H : install_loop _ _ _ _ _ _ _ _ _ _ _ = _ |- _ => apply install_loop_runs in H as Hruns end.
    unfold phase_at. rewrite Hruns. by apply life_stay.
  - unfold project_due_cron_slots, due_schedules_tx in H. cron_run;
      match goal with H : project_loop _ _ _ _ _ _ _ _ _ = _ |- _ => apply (project_loop_life _ _ _ _ _ _ _ _ id) in H as Hl end;
      unfold phase_at in *; cbn; destruct Hl as [->|[-> ->]]; by constructor.
  - unfold complete_cron_run in H. cron_run; [| |by apply life_stay].
    all: apply completed_row_unclaimed in Hpair; released_step id;
      [by intros i r (_ & _ & ?)|done|by apply life_stay|].
    all: destruct HP as [? _]; cbn in Hatt; rewrite <-Hatt in *; by apply life_complete.
  - unfold mark_cron_unknown in H. cron_run; released_step id;
      [by intros i r (_ & _ & ?)|intros r; cbn; by case_decide|by apply life_stay|..|
       by intros i r (_ & _ & ?)|intros r; cbn; by case_decide|by apply life_stay|];
      destruct HP as [? _]; by apply life_unknown.
  - unfold reset_cron_claims in H. cron_run. released_step id;
      [done|intros r; cbn; by case_decide|by apply life_stay|by apply life_reset].
  - unfold gc_cron_history in H. cron_run. unfold phase_at. cbn [runs set_runs].
    match goal with H : i64_checked _ = Some _ |- _ => apply i64_checked_Some in H as [-> _] end.
    destruct (db.(runs) !! id) as [r|] eqn:Hid.
    + destruct (decide (collectable db.(runs) (i64_saturate (now - retention)) n (id, r))) as [Hc|Hc].
      * rewrite (map_lookup_filter_None_2 _ _ id) by (right; intros x Hx; rewrite Hid in Hx; injection Hx as <-; auto).
        destruct Hc as [Ht _]. change (phase_of <$> Some r) with (Some (phase_of r)). rewrite (phase_of_terminal r Ht). by apply life_forget.
      * rewrite (map_lookup_filter_Some_2 _ _ id r) by done. by apply life_stay.
    + rewrite map_lookup_filter_None_2 by (by left). by apply life_stay.
Qed.
End machine.

(** ** Example: a schedule is installed, its slot projected and delivered *)

Definition ex_step := run_cron 9 ex_parse ex_to_zoned ex_days_in_month.
Definition ex_promote : cron_call :=
  CronPromote (λ k, (N.of_nat k + 7)%N) 1 2 1 3700000 [(lit "10 * * * MON", replicate 32 0, 1)].
Definition ex_project : cron_call := CronProject ex_gen 9000000 3600000 10.
Definition ex_claim : cron_call := CronClaim 9000000 3 5.

Definition ex_db0 : CronDb := cron_db ∅ ∅ 0.
Definition ex_db1 : CronDb := ex_step ex_promote ex_db0.
Definition ex_db2 : CronDb := ex_step ex_project ex_db1.
Definition ex_db3 : CronDb := ex_step ex_claim ex_db2.
Definition ex_log : list (N * Z) :=
  (([] ++ deliveries 9 ex_promote ex_db0) ++ deliveries 9 ex_project ex_db1) ++ deliveries 9 ex_claim ex_db2.

Lemma ex_exec : cron_exec 9 ex_parse ex_to_zoned ex_days_in_month 3 ex_db3 ex_log.
Proof.
  apply exec_call; [apply exec_call; [apply exec_call; [apply exec_empty|]|]|].
  - intros k j r H. exfalso. cbn in H. by rewrite lookup_empty in H.
  - intros k. apply not_elem_of_nil.
  - done.
Qed.

Lemma cron_deliveries_bounded_witness :
  ex_log = [(100%N, 9000000)] ∧ Z.of_nat (length (times 100 ex_log)) ≤ 4.
Proof.
  split; [vm_compute; reflexivity|].
  apply (cron_deliveries_bounded 9 ex_parse ex_to_zoned ex_days_in_month 3 ex_db3 ex_log ltac:(lia) ex_exec).
Defined.

Lemma cron_refines_lifecycle_witness :
  let c := CronReset 9100000 3 in
  phase_at ex_db3 100 = Some (Delivering 1) ∧ phase_at (ex_step c ex_db3) 100 = Some (Waiting 1) ∧
  life 100 (100%N ∈ (deliveries 9 c ex_db3).*1) c (phase_at ex_db3 100) (phase_at (ex_step c ex_db3) 100).
Proof.
  intros c. split; [vm_compute; reflexivity|]. split; [vm_compute; reflexivity|].
  apply (cron_refines_lifecycle 9 ex_parse ex_to_zoned ex_days_in_month 3 ex_db3 ex_log c 100 ltac:(lia) ex_exec I).
Defined.
