(* ===== verification/CronService.v ===== *)
(** * Cron deliveries

    [crates/service/src/scheduler/cron.rs]: a claim projects due slots, trims the history
    and claims runs; a dispatch runs one attempt within its time and records the result.
    What the control database, the runtime and the clock answer are inputs. *)

From stdpp Require Import base numbers list option strings sorting gmap.
From S2P Require Import Prelude ErrorCodes Text Scheduler Sql CronSlots CronStore CronInv CronClaim CronComplete.

Local Open Scope Z_scope.

Section service.
Context (instance_id : N) (parse : ustr → result PlatformError CronSchedule).
Context (to_zoned : Z → option Zoned) (days_in_month : Z → Z → Z).

(** [SchedulerConfig], the part cron uses *)
Record CronConfig := cron_config {
  cron_misfire_grace_ms : Z;
  cron_history_limit : Z;
  cron_history_retention_ms : Z;
  cron_max_retries : Z;
  claim_lease_ms : Z;
}.
Context (config : CronConfig).

(** Three store calls in a row: one that fails keeps what those before it did. *)
Definition claim_cron (gen : nat → N) (now_ms batch : Z) : CM (list ClaimedCronRun) :=
  _ ← project_due_cron_slots parse to_zoned days_in_month gen now_ms config.(cron_misfire_grace_ms) batch;
  _ ← gc_cron_history now_ms config.(cron_history_retention_ms) config.(cron_history_limit);
  claim_cron_runs instance_id now_ms config.(cron_max_retries) batch.

(** What the runtime answers. *)
Record ScheduledResponse := scheduled_response { outcome : string; response_no_retry : bool }.

(** The authority lookup, then the dispatch, then the classification of its answer. *)
Definition dispatch_cron_attempt (authority : bool) (response : result PlatformError ScheduledResponse)
    (run : ClaimedCronRun) : result CronUnknownReason CronCompletion :=
  if negb authority then Err ConnectionLoss
  else if decide (in_i64 run.(cr_generation) ∧ 0 < run.(cr_generation)) then
    match response with
    | Ok r =>
        if decide (r.(outcome) = "ok"%string) then Ok Success
        else if decide (r.(outcome) = "exception"%string)
        then Ok (Failure r.(response_no_retry) "CRON_RUNTIME_EXCEPTION")
        else Err MalformedResponse
    | Err e =>
        Err (match e.(code) with
             | SchedulerUnavailable => TransportTimeout
             | RuntimeUnavailable => RuntimeGenerationLost
             | _ => ConnectionLoss
             end)
    end
  else Err MalformedResponse.

(** How long an attempt may take: no longer than the lease, and not past the deadline. *)
Definition dispatch_duration (now_ms : Z) (run : ClaimedCronRun) : Z :=
  Z.min config.(claim_lease_ms) (Z.max (i64_saturate (run.(cr_deadline) - now_ms)) 0).

(** What an attempt comes to: [None] when its time runs out. *)
Definition record_cron_unknown (run : ClaimedCronRun) (reason : CronUnknownReason) (now_ms : Z) : CM unit :=
  λ db, ((mark_cron_unknown run reason now_ms config.(cron_max_retries) db).1, Ok ()).

Definition dispatch_cron_run (attempted : option (result CronUnknownReason CronCompletion)) (now_ms : Z)
    (run : ClaimedCronRun) : CM unit :=
  match attempted with
  | Some (Ok completion) =>
      λ db, ((complete_cron_run run completion now_ms config.(cron_max_retries) db).1, Ok ())
  | Some (Err reason) => record_cron_unknown run reason now_ms
  | None => record_cron_unknown run TransportTimeout now_ms
  end.
End service.

(** ** Unknown outcomes *)

Lemma unknown_check reason now next m r :
  run_check r → r.(run_state) = RClaimed → in_i64 next →
  let r' := unknown_row reason now next m r in identity_ok r r' ∧ transition_guard r r' ∧ run_check r'.
Proof.
  intros (H1 & H2 & H3 & H4 & H5 & H6 & H7 & H8) Hst Hnext r'.
  unfold r', unknown_row. set (again := decide (_ ∧ _)). split_and!.
  - done.
  - unfold transition_guard. rewrite Hst. cbn. by destruct again.
  - unfold run_check. split_and!; try done; cbn; try lia.
    + repeat case_decide; done.
    + by destruct again.
    + unfold shape_check. cbn. destruct again; cbn; by eauto.
Qed.

Lemma mark_cron_unknown_ok run reason now m db r :
  cron_wf db → db.(runs) !! run.(cr_id) = Some r → holds_claim run r → m ≤ 3 → in_i64 (now + 250) →
  mark_cron_unknown run reason now m db =
    (cron_notify (set_runs (<[run.(cr_id) := unknown_row reason now (now + 250) (m + 1) r]> db.(runs)) db), Ok true).
Proof.
  intros Hwf Hr (Hst & Hact & _ & _) Hm Hnow. pose proof (wf_runs _ Hwf _ _ Hr) as Hc.
  unfold mark_cron_unknown, cron_add_ms, cron_i64. run_simpl. rewrite decide_False by lia. unfold i64_checked.
  rewrite (decide_True (P := in_i64 250)) by (unfold in_i64; lia). rewrite (decide_True (P := in_i64 _)) by exact Hnow.
  unfold statement. rewrite (update_run_key (claimed_by run) _ _ (cr_id run) r);
    [|by intros i x []|done|done|by apply unknown_check].
  by rewrite (decide_True (P := 1 > 0)) by lia.
Qed.

(** ** A dispatch ends its delivery *)

(** The state of a run after a delivery. *)
Record delivered (now m : Z) (run : ClaimedCronRun) (ok : Prop) (r r' : Run) : Prop := {
  dl_over : r'.(run_state) ≠ RClaimed;
  dl_attempt : r'.(attempt) = r.(attempt);
  dl_success : r'.(run_state) = RComplete ↔ ok;
  dl_again : r'.(run_state) = RReady → ∃ t, r'.(next_attempt_at_ms) = Some t ∧
    now + 250 ≤ t < run.(cr_deadline) ∧ r.(attempt) ≤ m;
}.

Lemma completion_delivered run c now m r :
  1 ≤ r.(attempt) → delivered now m run (c = Success) r (completion_spec run c now m r).1.
Proof.
  intros Ha. pose proof (Z.mod_pos_bound (Z.of_N (cr_id run) mod 65536) 1000 ltac:(lia)).
  assert (2 ^ 1 ≤ 2 ^ attempt r) by (apply Z.pow_le_mono_r; lia).
  unfold completion_spec. destruct c as [|[] code]; [by split|by split|].
  destruct (decide (m < attempt r)); [by split|].
  destruct (decide (_ < _)); [|by split]. split; cbn; try done. intros _.
  eexists. split; [done|]. unfold backoff in *. lia.
Qed.

Lemma unknown_delivered run reason now m r :
  holds_claim run r → delivered now m run False r (unknown_row reason now (now + 250) (m + 1) r).
Proof.
  intros (_ & _ & _ & Hdead). unfold unknown_row. rewrite Hdead. cbn [is_some_and].
  destruct (decide (_ ∧ _)) as [[? ?]|]; split; cbn; try done. intros _. eexists. split; [done|]. lia.
Qed.

Lemma delivered_iff now m run (P Q : Prop) r r' :
  delivered now m run P r r' → (P ↔ Q) → delivered now m run Q r r'.
Proof. intros [? ? ? ?] HPQ. split; try done. by rewrite <-HPQ. Qed.

Lemma attempt_code_ok authority response run c :
  dispatch_cron_attempt authority response run = Ok c → failure_code_ok c.
Proof.
  unfold dispatch_cron_attempt. destruct authority; [|done]. cbn. case_decide; [|done].
  destruct response as [x|]; [|done]. case_decide; [by intros [= <-]|]. case_decide; [|done]. by intros [= <-].
Qed.

(** C38. A dispatch ends the delivery it was given, whatever the control database and
    the runtime answer and even if they never do: the attempt is given no time past the
    lease or the deadline, the run leaves the claimed state with its attempt counted
    once, is complete exactly if the runtime reported success, and waits for another
    attempt only if one is left before the deadline; no other run changes. *)
Theorem dispatch_cron_run_releases config authority response timed_out started now run db r
    (Hwf : cron_wf db) (Hr : db.(runs) !! run.(cr_id) = Some r) (Hclaim : holds_claim run r)
    (Hatt : 1 ≤ r.(attempt)) (Hm : config.(cron_max_retries) ≤ 3)
    (Hnow : in_i64 now) (Hmax : now ≤ 9000000000000000000)
    (Hstarted : in_i64 (run.(cr_deadline) - started)) :
  let attempted := dispatch_cron_attempt authority response run in
  let db' := (dispatch_cron_run config (if timed_out : bool then None else Some attempted) now run db).1 in
  started + dispatch_duration config started run ≤ Z.max started run.(cr_deadline) ∧
  dispatch_duration config started run ≤ config.(claim_lease_ms) ∧
  db'.(schedules) = db.(schedules) ∧
  ∃ r', db'.(runs) = <[run.(cr_id) := r']> db.(runs) ∧
    delivered now config.(cron_max_retries) run (timed_out = false ∧ attempted = Ok Success) r r'.
Proof.
  intros attempted db'.
  assert (Hunk : ∀ reason, ∃ r', (record_cron_unknown config run reason now db).1 =
            cron_notify (set_runs (<[run.(cr_id) := r']> db.(runs)) db) ∧
            delivered now (cron_max_retries config) run False r r').
  { intros reason. eexists. split; [|by apply unknown_delivered]. unfold record_cron_unknown.
    rewrite (mark_cron_unknown_ok run reason now (cron_max_retries config) db r); [done..|unfold in_i64 in *; lia]. }
  assert (Hout : ∃ r', db' = cron_notify (set_runs (<[run.(cr_id) := r']> db.(runs)) db) ∧
            delivered now (cron_max_retries config) run (timed_out = false ∧ attempted = Ok Success) r r').
  { destruct timed_out.
    - destruct (Hunk TransportTimeout) as (r' & Heq & Hd). exists r'. split; [done|]. apply (delivered_iff _ _ _ False); [done|].
      split; [done|]. by intros [? _].
    - destruct attempted as [c|reason] eqn:Hat.
      + exists (completion_spec run c now (cron_max_retries config) r).1. split.
        * unfold db', dispatch_cron_run. rewrite (complete_cron_run_ok run c now (cron_max_retries config) db r); try done.
          by eapply attempt_code_ok.
        * apply (delivered_iff _ _ _ (c = Success)); [by apply completion_delivered|]. split; [by intros ->|by intros [_ [= ->]]].
      + destruct (Hunk reason) as (r' & Heq & Hd). exists r'. split; [done|]. apply (delivered_iff _ _ _ False); [done|].
        split; [done|]. by intros [_ ?]. }
  destruct Hout as (r' & -> & Hd). split_and!.
  - unfold dispatch_duration, i64_saturate, in_i64 in *. lia.
  - unfold dispatch_duration. lia.
  - done.
  - by exists r'.
Qed.

(** ** Examples *)

Definition ex_config : CronConfig := cron_config 3600000 5 100000 3 60000.

Lemma dispatch_cron_run_releases_witness :
  let response := Ok (scheduled_response "exception" false) in
  dispatch_cron_attempt true response ex_claimed = Ok (Failure false "CRON_RUNTIME_EXCEPTION") ∧
  dispatch_duration ex_config 8100000 ex_claimed = 60000 ∧
  ∃ r', (dispatch_cron_run ex_config (Some (dispatch_cron_attempt true response ex_claimed)) 8150000
           ex_claimed ex_delivery).1.(runs) = <[4%N := r']> ex_delivery.(runs) ∧
    r'.(run_state) ≠ RClaimed ∧ r'.(attempt) = 2.
Proof.
  intros response. split; [vm_compute; reflexivity|]. split; [vm_compute; reflexivity|].
  destruct (dispatch_cron_run_releases ex_config true response false 8100000 8150000 ex_claimed ex_delivery
    (claim_of 8100000 ex_run)) as (_ & _ & _ & r' & Hruns & Hd).
  - apply ex_delivery_wf.
  - vm_compute; reflexivity.
  - vm_compute; done.
  - vm_compute; done.
  - vm_compute; done.
  - split; lia.
  - lia.
  - vm_compute; done.
  - exists r'. split; [exact Hruns|]. split; [apply Hd|]. rewrite (dl_attempt _ _ _ _ _ _ Hd). reflexivity.
Defined.
