(* ===== verification/Recovery.v ===== *)
(** * Restart

    [reset_claims] of [crates/storage/src/scheduler/recovery.rs]: one transaction over the
    alarm, queue and cron tables, in the order of [reset_claims.sql], that takes back
    every delivery of a process that stopped. *)

From stdpp Require Import base numbers list option strings sorting gmap.
From S2P Require Import Prelude ErrorCodes Scheduler Sql CronStore CronInv CronClaim CronComplete CronService.
From S2P Require Import AlarmStore QueueDb QueueInv QueueConsumer QueueStmt QueueReach QueueComplete.

Local Open Scope Z_scope.

(** ** The scheduler store *)

Record SchedulerStore := scheduler_store {
  alarms : AlarmStore;
  queue : QueueDb;
  cron : CronStore.CronDb;
}.

Abbreviation SM := (M SchedulerStore PlatformError).

Definition on_alarms {A} (m : M AlarmStore PlatformError A) : SM A := λ s,
  let '(x, r) := m s.(alarms) in (scheduler_store x s.(queue) s.(cron), r).
Definition on_queue {A} (m : QM A) : SM A := λ s,
  let '(x, r) := m s.(queue) in (scheduler_store s.(alarms) x s.(cron), r).
Definition on_cron {A} (m : M CronStore.CronDb PlatformError A) : SM A := λ s,
  let '(x, r) := m s.(cron) in (scheduler_store s.(alarms) s.(queue) x, r).

Definition reset_claims_tx (now_ms cron_max_retries : Z) : SM unit :=
  _ ← on_alarms (modify (λ s, set_jobs (reset_job_claims now_ms s.(jobs)) s));
  _ ← on_queue (execute map_sql_error (reset_messages now_ms));
  _ ← on_queue (execute map_sql_error delete_batches);
  _ ← on_cron (CronStore.reset_cron_claims now_ms cron_max_retries);
  _ ← on_queue (execute map_sql_error (λ db, reset_pending now_ms db.(messages) db));
  on_queue (execute map_sql_error (λ db, delete_messages (discardable db.(consumers)) db)).

Definition reset_claims (now_ms cron_max_retries : Z) : SM unit :=
  _ ← throw_if (cron_max_retries > 3 ∨ i64_checked (now_ms + 250) = None) invalid;
  transaction (reset_claims_tx now_ms cron_max_retries).

(** ** Cron *)

(** A run in delivery comes back as one whose outcome is unknown. *)
Definition returned_run (now m : Z) (r : CronStore.Run) : CronStore.Run :=
  if decide (CronStore.in_delivery r)
  then CronStore.unknown_row (default CronStore.TransportTimeout r.(CronStore.last_unknown_reason)) now (now + 250) (m + 1) r
  else r.

Lemma reset_cron_claims_ok now m db :
  CronInv.cron_wf db → in_i64 (now + 250) →
  CronStore.reset_cron_claims now m db =
    (CronStore.set_runs (returned_run now m <$> db.(CronStore.runs)) db, Ok ()).
Proof.
  intros Hwf Hnow.
  destruct (CronInv.update_runs_ok (λ _ r, CronStore.in_delivery r)
    (λ r, CronStore.unknown_row (default CronStore.TransportTimeout r.(CronStore.last_unknown_reason))
            now (now + 250) (m + 1) r) db) as [db' Hup].
  { intros i r Hr Hst. apply CronService.unknown_check; [by apply (CronInv.wf_runs _ Hwf i)|done|done]. }
  unfold CronStore.reset_cron_claims, mbind, M_bind, statement. rewrite Hup.
  apply CronInv.update_runs_Some in Hup as (Hl & _ & Hs & Hw & _).
  assert (Hr : db'.(CronStore.runs) = returned_run now m <$> db.(CronStore.runs)).
  { apply map_eq. intros i. by rewrite Hl, lookup_fmap. }
  destruct db'. cbn in *. by subst.
Qed.

Lemma returned_run_spec now m r :
  ¬ in_delivery (returned_run now m r) ∧ (returned_run now m r).(attempt) = r.(attempt).
Proof. unfold returned_run. case_decide; [|done]. split; [|done]. unfold in_delivery. cbn. by case_decide. Qed.

(** ** Queue *)

(** A claimed message comes back with its attempt counted. *)
Definition returned (now : Z) (m : Message) : Message :=
  if decide (claim_batch_id m ≠ None)
  then move_message MReady (m.(attempts) + 1) (Z.max m.(enqueued_at_ms) (now + 250)) m else m.

Lemma returned_ready now m : (returned now m).(msg_state) = MReady.
Proof.
  unfold returned. case_decide as Hc; [done|]. unfold claim_batch_id in Hc. by destruct (msg_state m).
Qed.

Lemma reset_messages_ok now db :
  queue_core db →
  reset_messages now db = Ok (set_messages (returned now <$> db.(messages)) db) ∧
  queue_core (set_messages (returned now <$> db.(messages)) db).
Proof.
  intros Hc. change (returned now <$> db.(messages)) with
    (sql_update (λ m, claim_batch_id m ≠ None)
       (λ m, move_message MReady (m.(attempts) + 1) (Z.max m.(enqueued_at_ms) (now + 250)) m) db.(messages)).
  apply update_messages_ok; [done|by intros m; eexists _, _, _|].
  intros m Hm Hcl. split; [|cbn; lia]. unfold claim_batch_id in Hcl.
  pose proof (core_claim _ Hc) as Hok. rewrite Forall_forall in Hok.
  destruct (msg_state m) as [|b c g] eqn:Hst; [done|]. cbn. split; [lia|]. by apply claim_ok_authorises; [apply Hok|].
Qed.

Lemma delete_batches_ok db :
  Forall (λ m, m.(msg_state) = MReady) db.(messages) → delete_batches db = Ok (set_batches ∅ db).
Proof.
  intros Hr. unfold delete_batches, bail_if. rewrite decide_False; [done|].
  intros (m & Hm & Hb)%Exists_exists. rewrite Forall_forall in Hr. unfold claim_batch_id in Hb. by rewrite (Hr m Hm) in Hb.
Qed.

(** The pending dead letter of an exhausted message whose consumer names a queue for it. *)
Definition letter (now : Z) (cs : gmap N Consumer) (m : Message) : option Pending :=
  '(target, generation) ← exhausted cs m ≫= dlq;
  Some (pending_row m.(msg_queue) target generation m.(attempts) (now + 250) now (Some "QUEUE_DLQ_BACKPRESSURED"%string)).
Definition letters (now : Z) (cs : gmap N Consumer) (ms : list Message) : gmap N Pending :=
  list_to_map (omap (λ m, pair m.(msg_id) <$> letter now cs m) ms).

(** The queue a letter is for is in the generation the consumer names. *)
Definition addressed (qs : gmap N QueueRow) (p : Pending) : Prop :=
  lifecycle_generation <$> qs !! p.(target_queue) = Some p.(target_generation).
Definition letters_current (now : Z) (db : QueueDb) (ms : list Message) : Prop :=
  Forall (λ m, match letter now db.(consumers) m with Some p => addressed db.(queues) p | None => True end) ms.
#[export] Instance addressed_dec qs p : Decision (addressed qs p).
Proof. unfold addressed. apply _. Defined.
#[export] Instance letters_current_dec now db ms : Decision (letters_current now db ms).
Proof. apply Forall_dec. intros m. destruct (letter _ _ m); apply _. Defined.

Lemma exhausted_Some cs m c :
  exhausted cs m = Some c → ∃ i, cs !! i = Some c ∧ c.(consumer_queue) = m.(msg_queue) ∧ c.(max_retries) < m.(attempts).
Proof.
  unfold exhausted. destruct (sql_find _ _) as [[i c']|] eqn:E; [|done]. intros [= <-].
  apply sql_find_Some in E as [Hin [Hq Ha]]. apply elem_of_map_to_list in Hin. exists i. cbn in *. split_and!; [done..|lia].
Qed.

Lemma reset_pending_one_run now m db :
  consumers_ok db.(consumers) → m ∈ db.(messages) → m.(msg_state) = MReady → is_Some (db.(queues) !! m.(msg_queue)) →
  match letter now db.(consumers) m with
  | Some p => (addressed db.(queues) p →
                 reset_pending_one now m db = Ok (set_dlq_pending (db.(dlq_pending) ∪ {[ m.(msg_id) := p ]}) db)) ∧
              (¬ addressed db.(queues) p → reset_pending_one now m db = Err OtherConstraint)
  | None => reset_pending_one now m db = Ok db
  end.
Proof.
  intros Hcs Hm Hst Hq. unfold letter, reset_pending_one, bail_if. rewrite Hst.
  destruct (exhausted db.(consumers) m) as [c|] eqn:He; [|done]. cbn.
  destruct (dlq c) as [[target g]|] eqn:Hd; [|done]. cbn. apply exhausted_Some in He as (i & Hi & Hcq & Hatt).
  destruct (proj1 Hcs i c Hi) as (_ & _ & _ & _ & Hmr & _ & _ & Hdlq). destruct (Hdlq _ _ Hd) as [_ Hne].
  unfold addressed. cbn. split; intros Ha.
  - destruct (db.(queues) !! target) as [r|] eqn:Hr; [|done]. injection Ha as Ha. rewrite decide_False.
    + cbn. f_equal. destruct (dlq_pending db !! msg_id m) as [p|] eqn:Hp.
      * destruct db. cbn in *. unfold set_dlq_pending. cbn. f_equal. symmetry. apply map_eq. intros k.
        rewrite lookup_union. destruct (decide (k = msg_id m)) as [->|Hk].
        -- rewrite Hp. by destruct ({[_ := _]} !! _).
        -- rewrite lookup_singleton_ne by done. by destruct (_ !! k).
      * f_equal. by rewrite <-insert_union_singleton_r.
    + intros Hno. apply Hno. unfold pending_authorised. cbn. rewrite Hr. cbn. split_and!; [|done|lia|congruence|done].
      apply Exists_exists. by exists m.
  - rewrite decide_True; [done|]. intros (_ & Hgen & _). apply Ha. cbn in Hgen.
    destruct (db.(queues) !! target); [|done]. cbn in *. by rewrite Hgen.
Qed.

(** The pass over the ready messages writes exactly the letters that are not there yet, or
    is refused because a letter is for a queue that moved on. *)
Lemma reset_pending_run now ms db :
  consumers_ok db.(consumers) → Forall (λ m, m.(msg_state) = MReady) ms →
  Forall (λ m, is_Some (db.(queues) !! m.(msg_queue))) ms → Forall (λ m, m ∈ db.(messages)) ms →
  (letters_current now db ms →
     reset_pending now ms db = Ok (set_dlq_pending (db.(dlq_pending) ∪ letters now db.(consumers) ms) db)) ∧
  (¬ letters_current now db ms → ∃ e, reset_pending now ms db = Err e).
Proof.
  intros Hcs. revert db Hcs. induction ms as [|m ms IH]; intros db Hcs Hst Hq Hms; cbn [reset_pending].
  { split; [|intros Hno; destruct Hno; constructor]. intros _. unfold letters. cbn. rewrite map_union_empty. by destruct db. }
  apply Forall_cons in Hst as [Hst1 Hst]. apply Forall_cons in Hq as [Hq1 Hq]. apply Forall_cons in Hms as [Hm Hms].
  pose proof (reset_pending_one_run now m db Hcs Hm Hst1 Hq1) as H1.
  unfold letters_current, letters in *. cbn [omap list_omap]. rewrite Forall_cons.
  destruct (letter now db.(consumers) m) as [p|] eqn:Hl; cbn.
  - destruct H1 as [Hok Hno]. destruct (decide (addressed db.(queues) p)) as [Ha|Ha].
    + rewrite (Hok Ha). cbn. destruct (IH (set_dlq_pending (db.(dlq_pending) ∪ {[m.(msg_id) := p]}) db)) as [IH1 IH2]; [done..|].
      cbn in IH1, IH2. split.
      * intros [_ Hcur]. rewrite (IH1 Hcur). f_equal. rewrite <-(assoc_L (∪)), <-insert_union_singleton_l. by destruct db.
      * intros Hcur. apply IH2. intros Hcur'. apply Hcur. by split.
    + rewrite (Hno Ha). cbn. split; [|by eexists]. by intros [Hp _].
  - rewrite H1. cbn. destruct (IH db) as [IH1 IH2]; [done..|]. split; [intros [_ ?]; auto|].
    intros Hcur. apply IH2. intros Hcur'. apply Hcur. by split.
Qed.

Lemma delete_messages_exact db P `{!∀ m, Decision (P m)} (kept := sql_delete P db.(messages)) :
  queue_core db →
  delete_messages P db = Ok (set_queues (map_imap (λ q r, Some (with_counters (count_of q kept) (bytes_of q kept) r)) db.(queues))
    (set_messages kept db)).
Proof.
  intros Hc. destruct (delete_messages_ok db P Hc) as (qs & Hrun & _). rewrite Hrun. unfold delete_messages in Hrun. destruct_result.
  injection Hrun as <-. do 2 f_equal. apply map_eq. intros q. rewrite !map_lookup_imap.
  destruct (db.(queues) !! q) as [r|] eqn:E; [|done]. cbn. destruct (core_counters _ Hc q r E) as [-> ->].
  unfold kept. by rewrite count_of_split, bytes_of_split.
Qed.

(** The queue tables after a restart. *)
Definition recovered_queue (now : Z) (db : QueueDb) : QueueDb :=
  let kept := sql_delete (discardable db.(consumers)) (returned now <$> db.(messages)) in
  queue_db (map_imap (λ q r, Some (with_counters (count_of q kept) (bytes_of q kept) r)) db.(queues)) kept
    db.(next_seq) db.(operations) db.(consumers) ∅
    (db.(dlq_pending) ∪ letters now db.(consumers) (returned now <$> db.(messages))) db.(wake).

Lemma reset_queue_run now db
    (db1 := set_messages (returned now <$> db.(messages)) db) (db2 := set_batches ∅ db1)
    (db3 := set_dlq_pending (db.(dlq_pending) ∪ letters now db.(consumers) (returned now <$> db.(messages))) db2) :
  queue_wf db →
  reset_messages now db = Ok db1 ∧ delete_batches db1 = Ok db2 ∧
  (letters_current now db (returned now <$> db.(messages)) → reset_pending now db2.(messages) db2 = Ok db3) ∧
  (¬ letters_current now db (returned now <$> db.(messages)) → ∃ e, reset_pending now db2.(messages) db2 = Err e) ∧
  delete_messages (discardable db3.(consumers)) db3 = Ok (recovered_queue now db).
Proof.
  intros [Hcore _ Hrefs Hcs _]. destruct (reset_messages_ok now db Hcore) as [Hrun Hcore1]. fold db1 in Hrun, Hcore1.
  assert (Hready : Forall (λ m, m.(msg_state) = MReady) db1.(messages)).
  { apply Forall_fmap, Forall_forall. intros m _. apply returned_ready. }
  assert (Hcore2 : queue_core db2).
  { destruct Hcore1 as [H1 H2 H3 H4 H5 H6 H7 H8 H9]. split; cbn; try done.
    eapply Forall_impl; [exact Hready|]. intros m Hm. unfold claim_ok. by rewrite Hm. }
  destruct (reset_pending_run now db2.(messages) db2) as [Hp1 Hp2]; [exact Hcs|exact Hready|exact (core_fk _ Hcore2)|by apply Forall_forall|].
  split_and!; [done|by apply delete_batches_ok|exact Hp1|exact Hp2|].
  assert (Hcore3 : queue_core db3) by (by destruct Hcore2; split). by rewrite (delete_messages_exact db3 _ Hcore3).
Qed.

(** The store after a restart. *)
Definition recovered (now m : Z) (s : SchedulerStore) : SchedulerStore :=
  scheduler_store (set_jobs (reset_job_claims now s.(alarms).(jobs)) s.(alarms)) (recovered_queue now s.(queue))
    (CronStore.set_runs (returned_run now m <$> s.(cron).(CronStore.runs)) s.(cron)).

(** C29. A restart takes back every delivery, as one transaction over the alarm, queue and
    cron tables.  The claimed alarms are due again; every claimed message is ready with its
    interrupted attempt counted; exactly the messages whose retries are exhausted and whose
    consumer names no dead-letter queue are dropped, and the counters of their queues follow;
    exactly the exhausted messages whose consumer names one get a pending dead letter, unless
    they have one; no delivery batch remains; every interrupted cron run keeps its attempts
    and is ready again or failed; nothing else in the store changes, and nothing is in
    delivery.  The reset is refused, with the store unchanged, exactly when the queue one of
    these letters is for is no longer in the generation that the consumer names. *)
Theorem reset_claims_recovers now m s
    (Hq : queue_wf s.(queue)) (Hc : cron_wf s.(cron)) (Hm : m ≤ 3) (Hnow : in_i64 (now + 250))
    (current := letters_current now s.(queue) (returned now <$> s.(queue).(messages))) (s' := recovered now m s) :
  (current → reset_claims now m s = (s', Ok ())) ∧
  (¬ current → ∃ e, reset_claims now m s = (s, Err e)) ∧
  Forall (λ j, j.(job_state) ≠ Claimed) s'.(alarms).(jobs) ∧
  Forall (λ x, x.(msg_state) = MReady) s'.(queue).(messages) ∧
  map_Forall (λ i r, ¬ in_delivery r ∧ ∃ r0, s.(cron).(runs) !! i = Some r0 ∧ r.(attempt) = r0.(attempt)) s'.(cron).(runs).
Proof.
  destruct (reset_queue_run now s.(queue) Hq) as (H1 & H2 & H3 & H3' & H4).
  pose proof (reset_cron_claims_ok now m s.(cron) Hc Hnow) as Hcron.
  assert (Hrun : reset_claims now m s = transaction (reset_claims_tx now m) s).
  { unfold reset_claims. run_simpl. unfold i64_checked. rewrite (decide_True (P := in_i64 _)) by done.
    by rewrite decide_False by (intros [?|?]; [lia|done]). }
  rewrite Hrun. unfold transaction, reset_claims_tx, on_alarms, on_queue, on_cron, execute. run_simpl. cbn [alarms queue cron jobs].
  rewrite H1. cbn [alarms queue cron]. rewrite H2. cbn [alarms queue cron]. rewrite Hcron. cbn [alarms queue cron].
  split_and!.
  - intros Hcur. rewrite (H3 Hcur). cbn [alarms queue cron]. by rewrite H4.
  - intros Hcur. destruct (H3' Hcur) as [e ->]. cbn [alarms queue cron]. by eexists.
  - apply Forall_forall. intros j. cbn. unfold reset_job_claims. rewrite elem_of_sql_update.
    intros (j0 & Hj0 & ->). by case_decide.
  - apply Forall_sql_delete, Forall_fmap, Forall_forall. intros x _. apply returned_ready.
  - intros i r. cbn. rewrite lookup_fmap. intros (r0 & -> & Hr0)%fmap_Some. rewrite Hr0.
    destruct (returned_run_spec now m r0) as [Hd Ha]. split; [done|]. by exists r0.
Qed.

(** ** Example: an alarm, a batch of two messages and a cron run in delivery *)

Definition ex_store : SchedulerStore :=
  scheduler_store (claim_due 150 5 sample_store).1 ex_claim.1 ex_delivery.

Lemma reset_claims_recovers_witness :
  affected (λ j, j.(job_state) = Claimed) ex_store.(alarms).(jobs) = 1 ∧
  affected (λ x, claim_batch_id x ≠ None) ex_store.(queue).(messages) = 2 ∧
  ∃ s', reset_claims 9000000 3 ex_store = (s', Ok ()) ∧
    Forall (λ j, j.(job_state) ≠ Claimed) s'.(alarms).(jobs) ∧
    Forall (λ x, x.(msg_state) = MReady) s'.(queue).(messages) ∧ s'.(queue).(batches) = ∅.
Proof.
  split; [vm_compute; reflexivity|]. split; [vm_compute; reflexivity|].
  destruct (reset_claims_recovers 9000000 3 ex_store) as (Hrun & _ & Hj & Hms & _).
  - apply ex_claim_wf.
  - apply ex_delivery_wf.
  - lia.
  - split; lia.
  - exists (recovered 9000000 3 ex_store). split_and!; [|exact Hj|exact Hms|reflexivity].
    apply Hrun. apply (bool_decide_eq_true_1 _). vm_compute. reflexivity.
Defined.
