(* ===== verification/QueueService.v ===== *)
(** * Queue deliveries

    [crates/service/src/scheduler/queue.rs] and the validation of answers in
    [runtime_bridge/transport.rs]: a dispatch hands a claimed batch to the runtime, turns
    its answer into a decision for each message, and settles the batch.  What the control
    database and the runtime answer are inputs; so is the reading of ids from text. *)

From stdpp Require Import base numbers list option strings sorting gmap.
From S2P Require Import Prelude Text ErrorCodes Sql QueueDb QueueInv QueueStore QueueConsumer QueueStmt QueueReach QueueComplete.

Local Open Scope Z_scope.

(** ** Answers of the runtime *)

Record QueueRetryBatchResult := queue_retry_batch_result { rb_retry : bool; rb_delay_seconds : option Z }.
Record QueueRetryMessageResult := queue_retry_message_result { rm_msg_id : ustr; rm_delay_seconds : option Z }.
Record QueueDispatchResult := queue_dispatch_result {
  qd_outcome : string;
  ack_all : bool;
  retry_batch : QueueRetryBatchResult;
  explicit_acks : list ustr;
  retry_messages : list QueueRetryMessageResult;
}.

Definition queue_protocol_error : PlatformError :=
  platform_error QueueDispositionInvalid "native Queue disposition is invalid".

Definition queue_outcomes : list string :=
  ["ok"; "exception"; "canceled"; "killSwitch"; "daemonDown"; "exceededCpu"; "exceededMemory"; "loadShed";
   "responseStreamDisconnected"; "scriptNotFound"; "internalError"; "exceededWallTime"; "aborted"; "unknown"]%string.

Definition delay_ok (d : option Z) : Prop := is_none_or (λ x, 0 ≤ x ≤ 86400) d.
#[export] Instance delay_ok_dec d : Decision (delay_ok d).
Proof. unfold delay_ok. apply _. Defined.

Definition validate_queue_dispatch_result (r : QueueDispatchResult) (message_count : nat) :
    result PlatformError QueueDispatchResult :=
  let bounded := (0 < message_count ≤ 100 ∧ length r.(explicit_acks) ≤ message_count ∧
                  length r.(retry_messages) ≤ message_count)%nat in
  let decisions := delay_ok r.(retry_batch).(rb_delay_seconds) ∧
    Forall (λ m, m.(rm_msg_id) ≠ [] ∧ delay_ok m.(rm_delay_seconds)) r.(retry_messages) ∧
    Forall (λ id, id ≠ [] ∧ str_len id ≤ 128) r.(explicit_acks) in
  if decide (bounded ∧ r.(qd_outcome) ∈ queue_outcomes ∧ decisions) then Ok r else Err queue_protocol_error.

(** ** Decisions *)

Definition service_disposition_invalid : PlatformError :=
  platform_error QueueDispositionInvalid "Queue disposition does not exactly match the claimed batch".

Section disposition.
(** [QueueMessageId::from_str] *)
Context (parse_id : ustr → option N).

(** [!expected.contains(&id) || explicit.insert(id, action).is_some()] *)
Definition decide_once (expected : gset N) (explicit : gmap N QueueCompletionAction) (id : N)
    (action : QueueCompletionAction) : result PlatformError (gmap N QueueCompletionAction) :=
  _ ← bail_if (id ∉ expected ∨ is_Some (explicit !! id)) service_disposition_invalid;
  Ok (<[id := action]> explicit).

Fixpoint explicit_ack_loop (expected : gset N) (acks : list ustr) (explicit : gmap N QueueCompletionAction) :
    result PlatformError (gmap N QueueCompletionAction) :=
  match acks with
  | [] => Ok explicit
  | a :: acks =>
      id ← ok_or_else (parse_id a) service_disposition_invalid;
      explicit ← decide_once expected explicit id Ack;
      explicit_ack_loop expected acks explicit
  end.

(** [u32::try_from] of a delay *)
Definition delay_u32 (d : Z) : result PlatformError Z := ok_or_else (u32_checked d) service_disposition_invalid.

Fixpoint explicit_retry_loop (default_delay : Z) (expected : gset N) (retries : list QueueRetryMessageResult)
    (explicit : gmap N QueueCompletionAction) : result PlatformError (gmap N QueueCompletionAction) :=
  match retries with
  | [] => Ok explicit
  | r :: retries =>
      id ← ok_or_else (parse_id r.(rm_msg_id)) service_disposition_invalid;
      delay ← match r.(rm_delay_seconds) with Some d => delay_u32 d | None => Ok default_delay end;
      explicit ← decide_once expected explicit id (Retry delay);
      explicit_retry_loop default_delay expected retries explicit
  end.

Definition implicit_action (b : ClaimedQueueBatch) (r : QueueDispatchResult) (batch_delay : option Z)
    (success : bool) : QueueCompletionAction :=
  if r.(retry_batch).(rb_retry) then Retry (default b.(b_retry_delay_seconds) batch_delay)
  else if r.(ack_all) || success then Ack
  else Retry b.(b_retry_delay_seconds).

Definition resolve_queue_disposition (b : ClaimedQueueBatch) (r : QueueDispatchResult) (success : bool) :
    result PlatformError (list (N * QueueCompletionAction)) :=
  _ ← bail_if (r.(ack_all) = true ∧ r.(retry_batch).(rb_retry) = true) service_disposition_invalid;
  let expected : gset N := list_to_set (cm_id <$> b.(b_messages)) in
  explicit ← explicit_ack_loop expected r.(explicit_acks) ∅;
  explicit ← explicit_retry_loop b.(b_retry_delay_seconds) expected r.(retry_messages) explicit;
  batch_delay ← match r.(retry_batch).(rb_delay_seconds) with
                | Some d => x ← delay_u32 d; Ok (Some x)
                | None => Ok None
                end;
  Ok ((λ m, (m.(cm_id), default (implicit_action b r batch_delay success) (explicit !! m.(cm_id))))
        <$> b.(b_messages)).

(** ** Dispatch *)

(** The lookup of the target, the answer of the runtime, its validation and the decisions. *)
Definition dispatch_queue_attempt (authority : bool) (response : result PlatformError QueueDispatchResult)
    (b : ClaimedQueueBatch) : option (list (N * QueueCompletionAction)) :=
  if negb authority then None
  else if decide (in_i64 b.(b_execution_generation) ∧ 0 < b.(b_execution_generation)) then
    match (r ← response; validate_queue_dispatch_result r (length b.(b_messages))) with
    | Ok r =>
        let known_success := bool_decide (r.(qd_outcome) = "ok"%string) in
        let known_failure := bool_decide (r.(qd_outcome) = "exception"%string) in
        if negb known_success && negb known_failure then None
        else match resolve_queue_disposition b r known_success with Ok ds => Some ds | Err _ => None end
    | Err _ => None
    end
  else None.

(** What a batch without an answer comes to. *)
Definition retry_all (b : ClaimedQueueBatch) : list (N * QueueCompletionAction) :=
  (λ m, (m.(cm_id), Retry 0)) <$> b.(b_messages).

(** [None] is an attempt that was refused, failed or ran out of time. *)
Definition dispatch_queue_batch (attempted : option (list (N * QueueCompletionAction))) (wall_ms : Z)
    (b : ClaimedQueueBatch) : QM unit := λ db,
  let '(ds, backoff_ms) := match attempted with Some ds => (ds, 0) | None => (retry_all b, 250) end in
  ((complete_queue_batch b ds (i64_saturate (wall_ms + backoff_ms)) db).1, Ok ()).

(** ** The decisions of an answer *)

(** What an answer says of one message. *)
Definition says (b : ClaimedQueueBatch) (r : QueueDispatchResult) (id : N) (action : QueueCompletionAction) : Prop :=
  (action = Ack ∧ ∃ a, a ∈ r.(explicit_acks) ∧ parse_id a = Some id) ∨
  ∃ m, m ∈ r.(retry_messages) ∧ parse_id m.(rm_msg_id) = Some id ∧
       action = Retry (default b.(b_retry_delay_seconds) m.(rm_delay_seconds)).

Lemma decide_once_Ok expected explicit id action explicit' :
  decide_once expected explicit id action = Ok explicit' →
  id ∈ expected ∧ explicit !! id = None ∧ explicit' = <[id := action]> explicit.
Proof.
  unfold decide_once. intros H. destruct_result. apply bail_if_Ok in Hm. injection H as <-.
  split_and!; [|by apply eq_None_not_Some; tauto|done]. destruct (decide (id ∈ expected)); tauto.
Qed.

(** The map of explicit decisions: what it held, and what was said since. *)
Definition extends (explicit explicit' : gmap N QueueCompletionAction) (new : N → QueueCompletionAction → Prop) : Prop :=
  ∀ id action, explicit' !! id = Some action ↔ explicit !! id = Some action ∨ new id action.

Lemma explicit_ack_loop_spec expected acks explicit explicit' :
  explicit_ack_loop expected acks explicit = Ok explicit' →
  extends explicit explicit' (λ id action, action = Ack ∧ ∃ a, a ∈ acks ∧ parse_id a = Some id).
Proof.
  revert explicit. induction acks as [|a acks IH]; intros explicit H; cbn in H.
  - injection H as <-. intros id action. set_solver.
  - destruct_result. subst.
    apply decide_once_Ok in Hm0 as (_ & Hnone & ->). apply IH in H. intros id action. rewrite (H id action).
    rewrite lookup_insert_Some. split.
    + intros [[[<- <-]|[_ ?]]|(? & a' & ? & ?)]; [right; split; [done|]; exists a; by split; [left|]|by left|].
      right. split; [done|]. exists a'. by split; [right|].
    + intros [Hex|(-> & a' & [->|Hin]%elem_of_cons & Ha')].
      * left. right. split; [congruence|done].
      * left. left. split; congruence.
      * right. split; [done|]. by exists a'.
Qed.

Lemma explicit_retry_loop_spec d0 expected retries explicit explicit' :
  explicit_retry_loop d0 expected retries explicit = Ok explicit' →
  extends explicit explicit' (λ id action, ∃ m, m ∈ retries ∧ parse_id m.(rm_msg_id) = Some id ∧
    action = Retry (default d0 m.(rm_delay_seconds))).
Proof.
  revert explicit. induction retries as [|m retries IH]; intros explicit H; cbn in H.
  - injection H as <-. intros id action. set_solver.
  - destruct_result. subst.
    match goal with H : match _ with Some _ => _ | None => _ end = Ok ?d |- _ =>
      assert (Hd : d = default d0 (rm_delay_seconds m)) end.
    { destruct (rm_delay_seconds m); [|by injection Hm0]. unfold delay_u32, u32_checked in Hm0.
      case_decide; [|done]. by injection Hm0. }
    apply decide_once_Ok in Hm1 as (_ & Hnone & ->). apply IH in H. intros id action. rewrite (H id action).
    rewrite lookup_insert_Some. subst. split.
    + intros [[[<- <-]|[_ ?]]|(m' & ? & ? & ?)]; [right; exists m; by split; [left|]|by left|].
      right. exists m'. by split; [right|].
    + intros [Hex|(m' & [->|Hin]%elem_of_cons & Hp & ->)].
      * left. right. split; [congruence|done].
      * left. left. split; congruence.
      * right. by exists m'.
Qed.

(** Every message gets what the answer says of it, or else what it says of the batch. *)
Lemma resolve_queue_disposition_spec b r success ds :
  resolve_queue_disposition b r success = Ok ds →
  ds.*1 = cm_id <$> b.(b_messages) ∧
  ∀ id action, (id, action) ∈ ds →
    says b r id action ∨
    (¬ (∃ a, says b r id a) ∧ action = implicit_action b r r.(retry_batch).(rb_delay_seconds) success).
Proof.
  unfold resolve_queue_disposition. intros H. destruct_result. apply bail_if_Ok in Hm.
  match goal with H : match _ with Some _ => _ | None => _ end = Ok ?d |- _ =>
    assert (Hd : d = rb_delay_seconds (retry_batch r)) end.
  { destruct (rb_delay_seconds (retry_batch r)) as [x|]; [|by injection Hm2]. unfold delay_u32, u32_checked in Hm2.
    case_decide; [|done]. by injection Hm2. }
  subst. apply explicit_ack_loop_spec in Hm0. apply explicit_retry_loop_spec in Hm1. injection H as <-. split.
  { rewrite <-list_fmap_compose. done. }
  intros id action (m & [= -> ->] & Hm')%list_elem_of_fmap.
  assert (Hsays : ∀ act, a1 !! cm_id m = Some act ↔ says b r (cm_id m) act).
  { intros act. rewrite (Hm1 (cm_id m) act), (Hm0 (cm_id m) act), lookup_empty. unfold says. naive_solver. }
  destruct (a1 !! cm_id m) as [act|] eqn:E; cbn.
  - left. by apply Hsays.
  - right. split; [|done]. intros [act Hact%Hsays]. done.
Qed.

(** ** The answers that decide a batch *)

(** An answer that names messages of the batch, none twice, and does not acknowledge and
    retry the batch at once. *)
Definition consistent (b : ClaimedQueueBatch) (r : QueueDispatchResult) : Prop :=
  ¬ (r.(ack_all) = true ∧ r.(retry_batch).(rb_retry) = true) ∧
  ∃ ids, Forall2 (λ t id, parse_id t = Some id) (r.(explicit_acks) ++ (rm_msg_id <$> r.(retry_messages))) ids ∧
    NoDup ids ∧ Forall (λ id, id ∈ cm_id <$> b.(b_messages)) ids.

(** The ids left to decide are expected and undecided. *)
Definition undecided (expected : gset N) (explicit : gmap N QueueCompletionAction) (ids : list N) : Prop :=
  NoDup ids ∧ Forall (λ id, id ∈ expected ∧ explicit !! id = None) ids.

Lemma decide_once_ok expected explicit id action ids :
  undecided expected explicit (id :: ids) →
  decide_once expected explicit id action = Ok (<[id := action]> explicit) ∧
  undecided expected (<[id := action]> explicit) ids.
Proof.
  intros [[Hid Hnd]%NoDup_cons [[Hin Hnone] Hall]%Forall_cons]. unfold decide_once, bail_if.
  rewrite decide_False by (intros [?|[? ?]]; [done|congruence]). split; [done|]. split; [done|].
  rewrite Forall_forall in Hall |- *. intros x Hx. destruct (Hall x Hx). split; [done|].
  rewrite lookup_insert_ne; [done|]. by intros ->.
Qed.

Lemma explicit_ack_loop_ok expected acks ids ids' explicit :
  Forall2 (λ t id, parse_id t = Some id) acks ids → undecided expected explicit (ids ++ ids') →
  ∃ explicit', explicit_ack_loop expected acks explicit = Ok explicit' ∧ undecided expected explicit' ids'.
Proof.
  intros Hp. revert explicit. induction Hp as [|t id acks ids Ht _ IH]; intros explicit Hu; [by exists explicit|].
  cbn [explicit_ack_loop]. rewrite Ht. cbn. destruct (decide_once_ok _ _ _ Ack _ Hu) as [-> Hu'].
  by apply IH.
Qed.

Lemma delay_u32_ok d : 0 ≤ d ≤ 86400 → delay_u32 d = Ok d.
Proof. intros Hd. unfold delay_u32, u32_checked. by rewrite decide_True by (unfold in_u32; lia). Qed.

Lemma explicit_retry_loop_ok d0 expected retries ids explicit :
  Forall2 (λ t id, parse_id t = Some id) (rm_msg_id <$> retries) ids →
  Forall (λ m, delay_ok m.(rm_delay_seconds)) retries → undecided expected explicit ids →
  ∃ explicit', explicit_retry_loop d0 expected retries explicit = Ok explicit'.
Proof.
  revert ids explicit. induction retries as [|m retries IH]; intros ids explicit Hp Hd Hu; [by eexists|].
  cbn in Hp. apply Forall2_cons_inv_l in Hp as (id & ids' & Ht & Hp & ->).
  apply Forall_cons in Hd as [Hm Hd]. cbn [explicit_retry_loop]. rewrite Ht. cbn.
  set (d := default d0 (rm_delay_seconds m)).
  assert (Hdelay : match rm_delay_seconds m with Some d => delay_u32 d | None => Ok d0 end = Ok d).
  { subst d. destruct (rm_delay_seconds m); [by apply delay_u32_ok|done]. }
  rewrite Hdelay. cbn. destruct (decide_once_ok _ _ _ (Retry d) _ Hu) as [-> Hu']. by eapply IH.
Qed.

Lemma resolve_queue_disposition_ok b r success :
  consistent b r → delay_ok r.(retry_batch).(rb_delay_seconds) →
  Forall (λ m, delay_ok m.(rm_delay_seconds)) r.(retry_messages) →
  is_ok (resolve_queue_disposition b r success) = true.
Proof.
  intros (Hno & ids & Hp & Hnd & Hin) Hb Hm. unfold resolve_queue_disposition, bail_if.
  rewrite decide_False by done. cbn. apply Forall2_app_inv_l in Hp as (ids1 & ids2 & H1 & H2 & ->).
  destruct (explicit_ack_loop_ok (list_to_set (cm_id <$> b.(b_messages))) _ ids1 ids2 ∅ H1) as (e1 & -> & Hu1).
  { split; [done|]. eapply Forall_impl; [done|]. intros id Hid. split; [by apply elem_of_list_to_set|done]. }
  cbn. destruct (explicit_retry_loop_ok b.(b_retry_delay_seconds) _ _ ids2 e1 H2 Hm Hu1) as [e2 ->]. cbn.
  destruct (rb_delay_seconds _) as [d|]; [|done]. by rewrite delay_u32_ok.
Qed.

End disposition.

(** ** A dispatch settles its batch *)

Lemma validated_delays r n r' :
  validate_queue_dispatch_result r n = Ok r' →
  r' = r ∧ delay_ok r.(retry_batch).(rb_delay_seconds) ∧
  Forall (λ m, delay_ok m.(rm_delay_seconds)) r.(retry_messages).
Proof.
  unfold validate_queue_dispatch_result. case_decide as H; [|done]. intros [= <-].
  destruct H as (_ & _ & Hb & Hm & _). split_and!; [done..|]. eapply Forall_impl; [exact Hm|]. by intros m [_ ?].
Qed.

(** Decisions the store accepts: one per message, with delays in range. *)
Definition acceptable (b : ClaimedQueueBatch) (ds : list (N * QueueCompletionAction)) : Prop :=
  ds.*1 = cm_id <$> b.(b_messages) ∧ ∀ i d, (i, Retry d) ∈ ds → 0 ≤ d ≤ 86400.

Lemma acceptable_match b ds : NoDup (cm_id <$> b.(b_messages)) → acceptable b ds → decisions_match b ds = Ok ().
Proof.
  intros Hnd [Hids Hd]. unfold decisions_match, bail_if.
  assert (Hlen : length ds = length (b_messages b)).
  { rewrite <-(length_fmap fst ds), Hids. by rewrite length_fmap. }
  rewrite (decide_False (P := length ds ≠ _)) by tauto. cbn [mbind result_bind].
  rewrite (decide_False (P := _ ∨ _)).
  - cbn [mbind result_bind]. rewrite decide_False; [done|]. intros ([i a] & Hin & Ha)%Exists_exists. cbn in Ha.
    destruct a as [|d]; [done|]. apply bool_decide_eq_true in Ha. apply Hd in Hin. lia.
  - rewrite Hids. intros [Hs|Hs]; [|done]. apply Hs. rewrite size_list_to_set by done. by rewrite length_fmap.
Qed.

Lemma attempt_acceptable parse_id authority response b ds :
  0 ≤ b.(b_retry_delay_seconds) ≤ 86400 →
  dispatch_queue_attempt parse_id authority response b = Some ds →
  acceptable b ds ∧ ∃ r, response = Ok r ∧ resolve_queue_disposition parse_id b r (bool_decide (r.(qd_outcome) = "ok"%string)) = Ok ds.
Proof.
  intros Hdelay H. unfold dispatch_queue_attempt in H. destruct authority; [|done]. cbn [negb] in H.
  destruct (decide (_ ∧ _)); [|done]. destruct response as [r|e]; [|done]. cbn [mbind result_bind] in H.
  destruct (validate_queue_dispatch_result _ _) as [r'|] eqn:Hv; [|done].
  apply validated_delays in Hv as (-> & Hb & Hm). rewrite Forall_forall in Hm.
  destruct (_ && _); [done|]. destruct (resolve_queue_disposition _ _ _ _) as [ds'|] eqn:Hr; [|done]. injection H as <-.
  split; [|by exists r]. apply resolve_queue_disposition_spec in Hr as [Hids Hact]. split; [done|].
  intros i d Hin. destruct (Hact _ _ Hin) as [[[? _]|(m & Hin' & _ & [= ->])]|[_ Himp]]; [done| |].
  - specialize (Hm m Hin'). unfold delay_ok in Hm. by destruct (rm_delay_seconds m).
  - unfold implicit_action in Himp. destruct (rb_retry _).
    + injection Himp as ->. unfold delay_ok in Hb. by destruct (rb_delay_seconds _).
    + destruct (_ || _); [done|]. by injection Himp as ->.
Qed.

(** What the answer says of the messages it does not name. *)
Lemma implicit_action_spec b r :
  implicit_action b r r.(retry_batch).(rb_delay_seconds) (bool_decide (r.(qd_outcome) = "ok"%string)) =
  if r.(retry_batch).(rb_retry)
  then Retry (default b.(b_retry_delay_seconds) r.(retry_batch).(rb_delay_seconds))
  else if decide (r.(ack_all) = true ∨ r.(qd_outcome) = "ok"%string) then Ack
  else Retry b.(b_retry_delay_seconds).
Proof.
  unfold implicit_action. destruct (rb_retry _); [done|].
  destruct (ack_all r); cbn; [by rewrite decide_True by auto|]. case_bool_decide.
  - by rewrite decide_True by auto.
  - by rewrite decide_False by naive_solver.
Qed.

Lemma consistent_decided parse_id r b :
  0 < b.(b_execution_generation) ≤ i64_max →
  r.(qd_outcome) = "ok"%string ∨ r.(qd_outcome) = "exception"%string →
  is_ok (validate_queue_dispatch_result r (length b.(b_messages))) = true → consistent parse_id b r →
  dispatch_queue_attempt parse_id true (Ok r) b ≠ None.
Proof.
  intros Hgen Ho Hv Hc. unfold dispatch_queue_attempt. cbn [negb]. rewrite decide_True by (unfold in_i64; lia).
  cbn [mbind result_bind]. destruct (validate_queue_dispatch_result _ _) as [r'|] eqn:E; [|done].
  apply validated_delays in E as (-> & Hb & Hm). destruct (_ && _) eqn:Hout.
  { apply andb_true_iff in Hout as [H1 H2]. apply negb_true_iff, bool_decide_eq_false in H1, H2. tauto. }
  pose proof (resolve_queue_disposition_ok parse_id b r (bool_decide (r.(qd_outcome) = "ok"%string)) Hc Hb Hm) as Hok.
  by destruct (resolve_queue_disposition _ _ _ _).
Qed.

(** Acceptable decisions settle the batch or change nothing. *)
Lemma settle_outcome b ds now db db' result :
  queue_wf db → holds db b → acceptable b ds → complete_queue_batch b ds now db = (db', result) →
  match result with Ok summary => completed b ds now db db' summary | Err _ => db' = db end ∧
  (completable db b now → is_ok result = true).
Proof.
  intros Hwf Hh Hacc E. destruct result as [s|e].
  - split; [by apply complete_queue_batch_post|done].
  - split; [by eapply complete_queue_batch_atomic|]. intros Hco.
    destruct (complete_queue_batch_ok b ds now db Hwf Hh Hco) as (db1 & s & Hok); [| |congruence].
    + apply acceptable_match; [|done]. destruct Hh as (r & _ & _ & _ & _ & _ & <-). apply rows_ids_NoDup, Hwf.
    + intros i d Hin. by apply Hacc in Hin as [? _].
Qed.

(** C28. A dispatch decides every message of the batch it was given, whatever the control
    database and the runtime answer and even if they never do.  An answer in time that is
    valid and consistent decides each message it names and, for the rest, the batch; one
    that is not, or is late or missing, retries every message after the shortest wait.  The
    dispatch always ends, having completed the batch with these decisions: either each
    message is settled by its own and the batch is gone, or the completion was refused and
    no table changes.  It is not refused when the clock is not behind the messages, neither
    their attempts nor the keys are used up, and the dead-letter queue the batch names, if
    any, is still in that generation and takes messages of these sizes. *)
Theorem dispatch_queue_batch_settles parse_id authority response (timed_out : bool) wall b db
    (attempted := if timed_out then None else dispatch_queue_attempt parse_id authority response b)
    (now := i64_saturate (wall + match attempted with Some _ => 0 | None => 250 end))
    (Hwf : queue_wf db) (Hh : holds db b)
    (Hdelay : 0 ≤ b.(b_retry_delay_seconds) ≤ 86400) (Hgen : 0 < b.(b_execution_generation) ≤ i64_max) :
  ∃ ds db' result,
    dispatch_queue_batch attempted wall b db = (db', Ok ()) ∧
    complete_queue_batch b ds now db = (db', result) ∧
    ds.*1 = cm_id <$> b.(b_messages) ∧
    match attempted with
    | Some ds' => ds = ds' ∧ ∃ r, response = Ok r ∧ ∀ id action, (id, action) ∈ ds →
        says parse_id b r id action ∨ (¬ (∃ a, says parse_id b r id a) ∧
          action = if r.(retry_batch).(rb_retry)
                   then Retry (default b.(b_retry_delay_seconds) r.(retry_batch).(rb_delay_seconds))
                   else if decide (r.(ack_all) = true ∨ r.(qd_outcome) = "ok"%string) then Ack
                   else Retry b.(b_retry_delay_seconds))
    | None => ds = retry_all b ∧
        (timed_out = false → authority = true → ∀ r, response = Ok r →
           r.(qd_outcome) = "ok"%string ∨ r.(qd_outcome) = "exception"%string →
           is_ok (validate_queue_dispatch_result r (length b.(b_messages))) = true → ¬ consistent parse_id b r)
    end ∧
    match result with Ok summary => completed b ds now db db' summary | Err _ => db' = db end ∧
    (completable db b now → is_ok result = true).
Proof.
  set (ds := match attempted with Some ds => ds | None => retry_all b end).
  assert (Hnone : attempted = None → acceptable b (retry_all b)).
  { intros _. unfold retry_all. split; [by rewrite <-list_fmap_compose|].
    intros i d (m & [= -> ->] & _)%list_elem_of_fmap. lia. }
  assert (Hsome : ∀ ds', attempted = Some ds' → acceptable b ds' ∧ ∃ r, response = Ok r ∧
    resolve_queue_disposition parse_id b r (bool_decide (r.(qd_outcome) = "ok"%string)) = Ok ds').
  { intros ds'. unfold attempted. destruct timed_out; [done|]. by apply attempt_acceptable. }
  assert (Hundecided : attempted = None → timed_out = false → authority = true → ∀ r, response = Ok r →
    r.(qd_outcome) = "ok"%string ∨ r.(qd_outcome) = "exception"%string →
    is_ok (validate_queue_dispatch_result r (length b.(b_messages))) = true → ¬ consistent parse_id b r).
  { unfold attempted. intros Hnone' -> -> r -> Ho Hv Hc. by destruct (consistent_decided parse_id r b). }
  clearbody attempted.
  assert (Hacc : acceptable b ds) by (unfold ds; destruct attempted; [by apply Hsome|by apply Hnone]).
  destruct (complete_queue_batch b ds now db) as [db' result] eqn:Hrun. exists ds, db', result.
  split_and!; [|done|apply Hacc| |by eapply settle_outcome..].
  { unfold dispatch_queue_batch, now, ds in *. destruct attempted; by rewrite Hrun. }
  unfold ds. destruct attempted as [ds'|]; [|split; [done|by apply Hundecided]]. split; [done|].
  destruct (Hsome ds' eq_refl) as [_ (r & Hr & Hres)]. exists r. split; [done|].
  intros id action Hin. apply resolve_queue_disposition_spec in Hres as [_ Hact].
  destruct (Hact id action Hin) as [?|[Hno ->]]; [by left|]. right. split; [done|]. apply implicit_action_spec.
Qed.

(** ** Example *)

(** An id as its number, in one character. *)
Definition ex_parse_id (t : ustr) : option N := match t with [c] => Some (Z.to_N c) | _ => None end.
Definition ex_response : QueueDispatchResult :=
  queue_dispatch_result "exception" false (queue_retry_batch_result false None) [[100]]
    [queue_retry_message_result [101] (Some 5)].

Lemma dispatch_queue_batch_settles_witness :
  dispatch_queue_attempt ex_parse_id true (Ok ex_response) ex_batch = Some ex_decisions ∧
  ∃ db', dispatch_queue_batch (Some ex_decisions) 2000 ex_batch ex_claim.1 = (db', Ok ()) ∧
    db'.(batches) = delete 200%N ex_claim.1.(batches).
Proof.
  assert (E : dispatch_queue_attempt ex_parse_id true (Ok ex_response) ex_batch = Some ex_decisions)
    by (vm_compute; reflexivity).
  split; [exact E|].
  destruct (dispatch_queue_batch_settles ex_parse_id true (Ok ex_response) false 2000 ex_batch ex_claim.1
    ex_claim_wf ex_claim_holds) as (ds & db' & r & Hrun & _ & _ & _ & Hset & Hok); [vm_compute; split; congruence..|].
  cbn iota in Hrun, Hset, Hok. rewrite E in Hrun, Hset, Hok. exists db'. split; [exact Hrun|].
  specialize (Hok ex_claim_completable). destruct r as [s|]; [|done].
  destruct Hset as (os & _ & _ & Hbs & _). exact Hbs.
Defined.

(** ** Claims and maintenance *)

(** The queue tables and the cursor of the rotation. *)
Abbreviation QueuePool := (QueueDb * option N)%type.

Definition claim_queue_consumers (instance_id : N) (gen : nat → N) (now_ms batch : Z) :
    M QueuePool PlatformError (list ClaimedQueueBatch) := λ s,
  let '(db, r) := claim_queue_batches instance_id gen now_ms batch s.2 s.1 in
  match r with
  | Ok claimed => ((db, match last claimed with Some b => Some b.(b_queue) | None => s.2 end), Ok claimed)
  | Err e => ((db, s.2), Err e)
  end.

(** Pending dead letters, then retention, then the number of letters still pending, which
    only the metrics see. *)
Definition run_queue_maintenance (now_ms rows : Z) : QM unit :=
  _ ← forward_queue_dlq_pending now_ms 1000 rows;
  _ ← sweep_queue_retention now_ms rows (4 * 1024 * 1024);
  mret ().

(** One synchronous sweep, unless the queue pool is disabled or paused. *)
Definition poll_queue_once (enabled paused queue_paused : bool) (now_ms claim_batch : Z) : QM Z :=
  if negb enabled || paused || queue_paused then mret 0
  else
    r ← sweep_queue_retention now_ms claim_batch (4 * 1024 * 1024);
    mret r.(del_messages).
