(* ===== verification/AlarmService.v ===== *)
(** * Alarm deliveries

    [crates/service/src/scheduler/alarm.rs] and the validation of answers in
    [runtime_bridge/transport.rs]: a dispatch checks the authority of the object,
    retargets the claim, calls the object and records the result; an unknown result is
    rescheduled once the lease ends.  What the control database and the runtime answer
    are inputs, and so is the time of each store call. *)

From stdpp Require Import base numbers list option strings sorting gmap.
From S2P Require Import Prelude Text ErrorCodes Sql AlarmStore.

Local Open Scope Z_scope.

(** ** Answers of the runtime *)

Inductive AlarmDispatchOutcome : Type := AlarmSuccess | AlarmStale | AlarmNotDue | AlarmRetry | AlarmExhausted.
#[export] Instance AlarmDispatchOutcome_eq_dec : EqDecision AlarmDispatchOutcome.
Proof. solve_decision. Defined.

Record AlarmDispatchResult := alarm_dispatch_result {
  ad_outcome : AlarmDispatchOutcome;
  ad_scheduled_time_ms : option Z;
  ad_retry_count : option Z;
  ad_error_code : option string;
}.

Definition alarm_protocol_error : PlatformError :=
  platform_error SchedulerInternalProtocolError "private alarm dispatch response is invalid".

Definition alarm_shape_valid (r : AlarmDispatchResult) : Prop :=
  let schedule_valid := is_some_and (λ t, 0 < t) r.(ad_scheduled_time_ms) ∧ is_some_and (λ n, n ≤ 6) r.(ad_retry_count) in
  match r.(ad_outcome) with
  | AlarmSuccess | AlarmStale =>
      r.(ad_scheduled_time_ms) = None ∧ r.(ad_retry_count) = None ∧ r.(ad_error_code) = None
  | AlarmNotDue => schedule_valid ∧ r.(ad_error_code) = None
  | AlarmRetry => schedule_valid ∧ r.(ad_error_code) = Some "DO_RUNTIME_EXCEPTION"%string
  | AlarmExhausted =>
      r.(ad_scheduled_time_ms) = None ∧ r.(ad_retry_count) = None ∧
      r.(ad_error_code) = Some "DO_RUNTIME_EXCEPTION"%string
  end.
#[export] Instance alarm_shape_valid_dec r : Decision (alarm_shape_valid r).
Proof. unfold alarm_shape_valid. destruct (ad_outcome r); apply _. Defined.

Definition validate_alarm_dispatch_result (r : AlarmDispatchResult) : result PlatformError AlarmDispatchResult :=
  if decide (alarm_shape_valid r) then Ok r else Err alarm_protocol_error.

(** ** Dispatch *)

(** The answer of [authorize_alarm_dispatch]: the version and the route generation. *)
Abbreviation Authority := (result PlatformError (N * Z)).

Definition gone_code (c : ErrorCode) : bool :=
  match c with DoObjectDeleting | DoNamespaceNotFound | DoIdInvalid => true | _ => false end.

(** The outcome to record for a valid answer, if it carries one. *)
Definition claim_result_of (r : AlarmDispatchResult) : option ClaimResult :=
  match r.(ad_outcome) with
  | AlarmSuccess | AlarmStale => Some Delete
  | AlarmExhausted => Some (MarkDiscarding "DO_RUNTIME_EXCEPTION")
  | AlarmNotDue | AlarmRetry =>
      match r.(ad_scheduled_time_ms), r.(ad_retry_count) with
      | Some due, Some retry =>
          Some (Reschedule due retry
                  (if decide (r.(ad_outcome) = AlarmRetry) then Some "DO_RUNTIME_EXCEPTION"%string else None))
      | _, _ => None
      end
  end.

(** Runs a store call and reports how it went; its errors are logged. *)
Definition observe {A} (m : M AlarmStore PlatformError A) : M AlarmStore PlatformError (result PlatformError A) :=
  λ s, let '(s', r) := m s in (s', Ok r).

(** After the call: the answer is validated and its outcome recorded.  [None] is a call
    that the lease ended.  The result says whether the delivery is settled. *)
Definition settle_answer (response : option (result PlatformError AlarmDispatchResult)) (now_ms : Z)
    (c : ClaimedJob) : M AlarmStore PlatformError bool :=
  match response with
  | Some (Ok r) =>
      match validate_alarm_dispatch_result r with
      | Ok r =>
          match claim_result_of r with
          | Some outcome =>
              finished ← observe (finish_claim c outcome now_ms);
              match finished with
              | Ok true =>
                  if decide (r.(ad_outcome) = AlarmExhausted)
                  then _ ← observe (finish_discarding c); mret true
                  else mret true
              | Ok false => mret true
              | Err _ => mret false
              end
          | None => mret false
          end
      | Err _ => mret false
      end
  | _ => mret false
  end.

Definition dispatch_alarm_attempt (authority : Authority)
    (response : option (result PlatformError AlarmDispatchResult)) (retarget_ms now_ms : Z) (c : ClaimedJob) :
    M AlarmStore PlatformError bool :=
  match authority with
  | Err e =>
      if gone_code e.(code) then
        completed ← observe (finish_claim c Delete now_ms);
        mret (is_ok completed)
      else mret false
  | Ok (version, generation) =>
      retargeted ← observe (retarget_claim c version generation retarget_ms);
      match retargeted with
      | Ok true => settle_answer response now_ms c
      | Ok false => mret true
      | Err _ => mret false
      end
  end.

(** An attempt that is not settled is rescheduled as it was, once its lease is over. *)
Definition dispatch_one (authority : Authority) (response : option (result PlatformError AlarmDispatchResult))
    (retarget_ms now_ms later_ms : Z) (c : ClaimedJob) : M AlarmStore PlatformError unit :=
  completed ← dispatch_alarm_attempt authority response retarget_ms now_ms c;
  if completed : bool then mret ()
  else
    _ ← observe (finish_claim c (Reschedule c.(c_due_at_ms) c.(c_retry_count) (Some "transport-timeout"%string)) later_ms);
    mret ().

(** ** One row *)

(** The rows with the one of an id replaced or removed. *)
Definition put (id : N) (fate : option Job) (rows : list Job) : list Job :=
  omap (λ x, if decide (x.(job_id) = id) then fate else Some x) rows.

Lemma put_ext (f : Job → option Job) id fate rows :
  (∀ x, x ∈ rows → f x = if decide (x.(job_id) = id) then fate else Some x) → omap f rows = put id fate rows.
Proof.
  intros Hf. unfold put. induction rows as [|x rows IH]; [done|]. cbn. rewrite Hf by left.
  rewrite IH; [done|]. intros y Hy. apply Hf. by right.
Qed.

(** The row a claim holds is the only row with its id. *)
Lemma held_id st c j x rows :
  alarm_wf rows → j ∈ rows → held st c j → x ∈ rows → x.(job_id) = c.(c_id) ↔ x = j.
Proof.
  intros Hwf Hj (Hid & _ & _) Hx. split; [|by intros ->].
  intros Heq. eapply alarm_wf_id_unique; [done..|congruence].
Qed.

Lemma put_update st c f rows j :
  alarm_wf rows → j ∈ rows → held st c j → sql_update (held st c) f rows = put c.(c_id) (Some (f j)) rows.
Proof.
  intros Hwf Hj Hh. rewrite <-(put_ext (λ x, Some (if decide (held st c x) then f x else x))).
  - unfold sql_update. clear. induction rows as [|x rows IH]; [done|]. cbn [fmap list_fmap omap list_omap]. by f_equal.
  - intros x Hx. pose proof (held_id st c j x rows Hwf Hj Hh Hx) as Hiff.
    destruct (decide (x.(job_id) = c.(c_id))) as [->%Hiff|Hne]; [by rewrite decide_True|].
    rewrite decide_False; [done|]. by intros [? _].
Qed.

Lemma put_delete st c rows j :
  alarm_wf rows → j ∈ rows → held st c j → sql_delete (held st c) rows = put c.(c_id) None rows.
Proof.
  intros Hwf Hj Hh. rewrite <-(put_ext (λ x, if decide (held st c x) then None else Some x)).
  - unfold sql_delete. clear. induction rows as [|x rows IH]; [done|].
    rewrite filter_cons, IH. cbn [omap list_omap].
    destruct (decide (held st c x)); [rewrite decide_False by tauto|rewrite decide_True by done]; done.
  - intros x Hx. pose proof (held_id st c j x rows Hwf Hj Hh Hx) as Hiff.
    destruct (decide (x.(job_id) = c.(c_id))) as [->%Hiff|Hne]; [by rewrite decide_True|].
    rewrite decide_False; [done|]. by intros [? _].
Qed.

Lemma put_put id y fate rows : y.(job_id) = id → put id fate (put id (Some y) rows) = put id fate rows.
Proof.
  intros Hy. unfold put. induction rows as [|x rows IH]; [done|]. cbn [omap list_omap].
  destruct (decide (job_id x = id)) as [E|E]; cbn [omap list_omap].
  - rewrite decide_True by done. by rewrite IH.
  - rewrite decide_False by done. by rewrite IH.
Qed.

Lemma elem_of_put id y rows j : j ∈ rows → j.(job_id) = id → y ∈ put id (Some y) rows.
Proof. intros Hj Hid. apply list_elem_of_omap. exists j. split; [done|]. by rewrite decide_True. Qed.

(** ** What a dispatch does to its alarm *)

(** The row an outcome leaves. *)
Definition fate_of (result : ClaimResult) (now : Z) (j : Job) : option Job :=
  let move due st retry error :=
    job j.(job_id) j.(namespace_resource_id) j.(object_id) j.(object_generation) j.(row_token) due
      j.(target_version_id) j.(execution_generation) st retry error j.(created_at_ms) now in
  match result with
  | Delete => None
  | Reschedule due retry error => Some (move due Scheduled retry error)
  | MarkDiscarding error => Some (move j.(due_at_ms) Discarding j.(retry_count) (Some error))
  end.

Lemma finish_claim_put c result now s j :
  alarm_wf s.(jobs) → j ∈ s.(jobs) → held Claimed c j → claim_result_ok result →
  finish_claim c result now s = (notify (set_jobs (put c.(c_id) (fate_of result now j) s.(jobs)) s), Ok true).
Proof.
  intros Hwf Hj Hh Hok. assert (He : Exists (held Claimed c) s.(jobs)) by (apply Exists_exists; eauto).
  assert (Hon : ∀ f, on_held Claimed c f s = (notify (set_jobs (f s.(jobs)) s), Ok true)).
  { intros f. rewrite on_held_spec; [by rewrite decide_True|done|]. intros Hno. rewrite Forall_forall in Hno.
    by apply Hno in Hj. }
  destruct result as [|due retry error|error]; cbn [finish_claim fate_of].
  - by rewrite Hon, (put_delete Claimed c _ j).
  - unfold mbind, M_bind, throw_if, lift, bail_if. rewrite decide_False by (cbn in Hok; lia).
    by rewrite Hon, (put_update Claimed c _ _ j).
  - by rewrite Hon, (put_update Claimed c _ _ j).
Qed.

Definition retargeted (version : N) (generation now : Z) (j : Job) : Job :=
  job j.(job_id) j.(namespace_resource_id) j.(object_id) j.(object_generation) j.(row_token) j.(due_at_ms)
    version generation j.(job_state) j.(retry_count) j.(last_error_code) j.(created_at_ms) now.

Lemma retarget_claim_put c version generation now s j :
  alarm_wf s.(jobs) → j ∈ s.(jobs) → held Claimed c j → in_i64 generation →
  retarget_claim c version generation now s =
    (notify (set_jobs (put c.(c_id) (Some (retargeted version generation now j)) s.(jobs)) s), Ok true).
Proof.
  intros Hwf Hj Hh Hg. unfold retarget_claim, mbind, M_bind, some_or, lift, ok_or_else, i64_checked.
  rewrite decide_True by done. rewrite on_held_spec.
  - rewrite decide_True by (apply Exists_exists; eauto). by rewrite (put_update Claimed c _ _ j).
  - done.
  - intros Hno. rewrite Forall_forall in Hno. by apply Hno in Hj.
Qed.

Lemma finish_discarding_put c s j :
  alarm_wf s.(jobs) → j ∈ s.(jobs) → held Discarding c j →
  finish_discarding c s = (notify (set_jobs (put c.(c_id) None s.(jobs)) s), Ok true).
Proof.
  intros Hwf Hj Hh. unfold finish_discarding. rewrite on_held_spec.
  - rewrite decide_True by (apply Exists_exists; eauto). by rewrite (put_delete Discarding c _ j).
  - done.
  - intros Hno. rewrite Forall_forall in Hno. by apply Hno in Hj.
Qed.

Lemma finish_claim_unheld c r t s :
  alarm_wf s.(jobs) → ¬ Exists (held Claimed c) s.(jobs) →
  ∃ x, finish_claim c r t s = (s, x) ∧ (r = Delete → x = Ok false).
Proof.
  intros Hwf Hno. destruct r as [|due retry error|error]; cbn [finish_claim].
  - rewrite on_held_spec; [|done|apply sql_delete_none]. rewrite decide_False by done. by eexists; split.
  - unfold mbind, M_bind, throw_if, lift, bail_if. case_decide; [by eexists; split|].
    rewrite on_held_spec; [|done|apply sql_update_none]. rewrite decide_False by done. by eexists; split.
  - rewrite on_held_spec; [|done|apply sql_update_none]. rewrite decide_False by done. by eexists; split.
Qed.

(** The answers that end an alarm. *)
Definition ends_alarm (authority : Authority) (response : option (result PlatformError AlarmDispatchResult)) : Prop :=
  match authority with
  | Err e => gone_code e.(code) = true
  | Ok (_, generation) => in_i64 generation ∧
      match response with
      | Some (Ok r) => alarm_shape_valid r ∧
          (r.(ad_outcome) = AlarmSuccess ∨ r.(ad_outcome) = AlarmStale ∨ r.(ad_outcome) = AlarmExhausted)
      | _ => False
      end
  end.

(** The answers that move an alarm to another time. *)
Definition moves_alarm (authority : Authority) (response : option (result PlatformError AlarmDispatchResult))
    (due retry : Z) : Prop :=
  match authority, response with
  | Ok (_, generation), Some (Ok r) =>
      in_i64 generation ∧ alarm_shape_valid r ∧ (r.(ad_outcome) = AlarmNotDue ∨ r.(ad_outcome) = AlarmRetry) ∧
      r.(ad_scheduled_time_ms) = Some due ∧ r.(ad_retry_count) = Some retry
  | _, _ => False
  end.

(** The outcome of a dispatch for the row [j]. *)
Definition settled_as (authority : Authority) (response : option (result PlatformError AlarmDispatchResult))
    (j : Job) (fate : option Job) : Prop :=
  match fate with
  | None => ends_alarm authority response
  | Some y => y.(job_id) = j.(job_id) ∧ object_key y = object_key j ∧ y.(row_token) = j.(row_token) ∧
      y.(job_state) = Scheduled ∧
      (moves_alarm authority response y.(due_at_ms) y.(retry_count) ∨
       (y.(due_at_ms) = j.(due_at_ms) ∧ y.(retry_count) = j.(retry_count) ∧
        ¬ ends_alarm authority response ∧ ∀ d n, ¬ moves_alarm authority response d n))
  end.

(** The same alarm, still claimed, maybe under another target. *)
Definition same_claim (j y : Job) : Prop :=
  y.(job_id) = j.(job_id) ∧ object_key y = object_key j ∧ y.(row_token) = j.(row_token) ∧
  y.(job_state) = Claimed ∧ y.(due_at_ms) = j.(due_at_ms) ∧ y.(retry_count) = j.(retry_count).

Section attempt.
Context (authority : Authority) (response : option (result PlatformError AlarmDispatchResult)).
Context (retarget_ms now : Z) (j : Job).
Let c := to_claimed j.

(** What an attempt leaves: the alarm settled, or still claimed. *)
Definition attempted_to (s : AlarmStore) (out : AlarmStore * result PlatformError bool) : Prop :=
  (out.2 = Ok true ∧ ∃ fate, out.1.(jobs) = put j.(job_id) fate s.(jobs) ∧ settled_as authority response j fate) ∨
  (out.2 = Ok false ∧ alarm_wf out.1.(jobs) ∧ ¬ ends_alarm authority response ∧
   (∀ d n, ¬ moves_alarm authority response d n) ∧
   ∃ y, out.1.(jobs) = put j.(job_id) (Some y) s.(jobs) ∧ same_claim j y).

Lemma same_claim_held y : same_claim j y → held Claimed c y.
Proof. by intros (? & _ & ? & ? & _). Qed.

(** The answer to a claim that is retargeted. *)
Lemma answered version generation r y result :
  authority = Ok (version, generation) → in_i64 generation → response = Some (Ok r) → alarm_shape_valid r →
  claim_result_of r = Some result → (∀ n, r.(ad_retry_count) = Some n → 0 ≤ n) →
  same_claim j y →
  claim_result_ok result ∧ match result with Reschedule _ retry _ => 0 ≤ retry | _ => True end ∧
  (r.(ad_outcome) ≠ AlarmExhausted → settled_as authority response j (fate_of result now y)) ∧
  (r.(ad_outcome) = AlarmExhausted → ends_alarm authority response ∧
     ∃ z, fate_of result now y = Some z ∧ held Discarding c z).
Proof.
  intros -> Hg -> Hs Hres Hn (Hid & Hkey & Htok & Hst & Hdue & Hrc). unfold claim_result_of in Hres.
  assert (Hmoved : (r.(ad_outcome) = AlarmNotDue ∨ r.(ad_outcome) = AlarmRetry) → ∀ due retry error,
    r.(ad_scheduled_time_ms) = Some due → r.(ad_retry_count) = Some retry → result = Reschedule due retry error →
    claim_result_ok result ∧ 0 ≤ retry ∧
    settled_as (Ok (version, generation)) (Some (Ok r)) j (fate_of result now y)).
  { intros Ho due retry error Hd Hr ->. cbn. unfold moves_alarm, object_key in *. cbn.
    unfold alarm_shape_valid in Hs. rewrite Hd, Hr in Hs. cbn in Hs.
    assert (0 < due ∧ retry ≤ 6) by (destruct Ho as [Ho|Ho]; rewrite Ho in Hs; tauto).
    split_and!; [lia..|by apply Hn|done|done|done|done|]. left. split_and!; [done| |done|done|done].
    unfold alarm_shape_valid. rewrite Hd, Hr. cbn. by destruct Ho as [Ho|Ho]; rewrite Ho in *. }
  destruct (ad_outcome r) eqn:Ho; try (injection Hres as <-).
  - split_and!; try done. intros _. cbn. by rewrite Ho; auto.
  - split_and!; try done. intros _. cbn. by rewrite Ho; auto.
  - destruct (ad_scheduled_time_ms r) as [due|]; [|done]. destruct (ad_retry_count r) as [n|]; [|done].
    injection Hres as <-. destruct (Hmoved ltac:(by left) due n _ eq_refl eq_refl eq_refl) as (? & ? & ?). done.
  - destruct (ad_scheduled_time_ms r) as [due|]; [|done]. destruct (ad_retry_count r) as [n|]; [|done].
    injection Hres as <-. destruct (Hmoved ltac:(by right) due n _ eq_refl eq_refl eq_refl) as (? & ? & ?). done.
  - split_and!; try done. intros _. cbn. rewrite Ho. split; [by auto|]. eexists. split; [done|]. done.
Qed.

Context (Hgen : ∀ v g, authority = Ok (v, g) → 0 ≤ g).
Context (Hretry : ∀ r n, response = Some (Ok r) → r.(ad_retry_count) = Some n → 0 ≤ n).

Lemma finish_claimed s y result :
  alarm_wf s.(jobs) → y ∈ s.(jobs) → same_claim j y → claim_result_ok result →
  observe (finish_claim c result now) s =
    (notify (set_jobs (put j.(job_id) (fate_of result now y) s.(jobs)) s), Ok (Ok true)).
Proof.
  intros Hwf Hy Hsame Hok. unfold observe. by rewrite (finish_claim_put c result now s y) by (done || by apply same_claim_held).
Qed.

(** An attempt whose claim was retargeted to [y]. *)
Lemma settle_answer_spec version generation s y :
  authority = Ok (version, generation) → in_i64 generation →
  alarm_wf s.(jobs) → y ∈ s.(jobs) → same_claim j y →
  (∃ fate s', settle_answer response now c s = (s', Ok true) ∧ s'.(jobs) = put j.(job_id) fate s.(jobs) ∧
     settled_as authority response j fate) ∨
  (settle_answer response now c s = (s, Ok false) ∧ ¬ ends_alarm authority response ∧
     ∀ d n, ¬ moves_alarm authority response d n).
Proof.
  intros Hauth Hg Hwf Hy Hsame. unfold settle_answer.
  destruct response as [[r|e]|] eqn:Hresp; [|right; rewrite Hauth; cbn; tauto..].
  unfold validate_alarm_dispatch_result. destruct (decide (alarm_shape_valid r)) as [Hs|Hs];
    [|right; rewrite Hauth; cbn; tauto].
  destruct (claim_result_of r) as [result|] eqn:Hres.
  - left. destruct (answered version generation r y result) as (Hok & Hpos & Hset & Hexh);
      [congruence|done|congruence|done|done|intros n; by apply Hretry|done|]. rewrite <-Hresp.
    unfold mbind, M_bind at 1. rewrite (finish_claimed s y result) by done.
    destruct (decide (ad_outcome r = AlarmExhausted)) as [Ho|Ho]; [|by eauto 10].
    destruct (Hexh Ho) as [Hends (z & Hz & Hheld)]. rewrite Hz.
    set (s1 := notify (set_jobs (put (job_id j) (Some z) s.(jobs)) s)).
    assert (Hwf1 : alarm_wf s1.(jobs)).
    { pose proof (finish_claim_wf c result now s Hpos Hwf) as H.
      rewrite (finish_claim_put c result now s y) in H by (done || by apply same_claim_held). by rewrite Hz in H. }
    assert (Hin : z ∈ s1.(jobs)) by (apply (elem_of_put _ _ _ y); [done|apply Hsame]).
    unfold M_bind, observe. rewrite (finish_discarding_put c s1 z) by done.
    eexists None, _. split_and!; [done| |done]. apply put_put, Hheld.
  - exfalso. unfold claim_result_of in Hres. unfold alarm_shape_valid in Hs.
    destruct (ad_outcome r); try done; destruct (ad_scheduled_time_ms r), (ad_retry_count r); cbn in Hs; tauto || done.
Qed.

Lemma attempt_spec s :
  alarm_wf s.(jobs) → j ∈ s.(jobs) → j.(job_state) = Claimed →
  attempted_to s (dispatch_alarm_attempt authority response retarget_ms now c s).
Proof.
  intros Hwf Hj Hst. assert (Hself : same_claim j j) by done. apply same_claim_held in Hself as Hheld.
  assert (Hput : s.(jobs) = put j.(job_id) (Some j) s.(jobs)).
  { change (job_id j) with (c_id c). rewrite <-(put_update Claimed c (λ x, x) s.(jobs) j) by done.
    unfold sql_update. symmetry. etransitivity; [|apply list_fmap_id]. apply list_fmap_ext. intros i x _. cbn. by case_decide. }
  assert (Hkeep : ¬ ends_alarm authority response → (∀ d n, ¬ moves_alarm authority response d n) →
            attempted_to s (s, Ok false)).
  { intros He Hm. right. cbn. split_and!; [done..|]. by exists j. }
  unfold dispatch_alarm_attempt. destruct authority as [[version generation]|e] eqn:Hauth.
  - destruct (decide (in_i64 generation)) as [Hg|Hg].
    + set (y := retargeted version generation retarget_ms j). unfold mbind, M_bind at 1, observe at 1.
      rewrite (retarget_claim_put c version generation retarget_ms s j) by done. fold y.
      set (s1 := notify (set_jobs (put (c_id c) (Some y) s.(jobs)) s)).
      assert (Hwf1 : alarm_wf s1.(jobs)).
      { pose proof (alarm_step_wf s _ Hwf (step_retarget s c version generation retarget_ms (Hgen _ _ eq_refl))) as H.
        by rewrite (retarget_claim_put c version generation retarget_ms s j) in H by done. }
      assert (Hin : y ∈ s1.(jobs)) by (by apply (elem_of_put _ _ _ j)).
      destruct (settle_answer_spec version generation s1 y)
        as [(fate & s' & -> & Hjobs & Hset)|(-> & He & Hm)]; [congruence|done..| |].
      * left. split; [done|]. exists fate. split; [|congruence]. cbn. rewrite Hjobs. by apply put_put.
      * right. split_and!; [done..|]. exists y. split; [done|]. done.
    + unfold mbind, M_bind, observe, retarget_claim, some_or, lift, ok_or_else, i64_checked. run_simpl.
      rewrite decide_False by done. apply Hkeep; cbn; [tauto|]. intros d n. destruct response as [[r|]|]; tauto.
  - destruct (gone_code (code e)) eqn:Hgone.
    + unfold mbind, M_bind. rewrite (finish_claimed s j Delete) by done. left. split; [done|]. exists None.
      split; [done|]. rewrite Hauth. done.
    + apply Hkeep; cbn; [by rewrite Hgone|by intros d n []].
Qed.
End attempt.

(** C25. A dispatch never leaves its alarm claimed, whatever the control database and
    the object answer and even if they never do.  An alarm whose object is gone, or
    reports that it ran, is stale or has failed for good, is removed; one the object moved
    is scheduled for that time; any other answer, and none, schedules it again as it was,
    so that it is delivered at least once.  No other alarm changes, and the dispatch of a
    claim that is no longer live changes nothing. *)
Theorem dispatch_one_releases authority response retarget_ms now later s j
    (c := to_claimed j)
    (Hwf : alarm_wf s.(jobs)) (Hgen : ∀ v g, authority = Ok (v, g) → 0 ≤ g)
    (Hretry : ∀ r n, response = Some (Ok r) → r.(ad_retry_count) = Some n → 0 ≤ n) :
  (j ∈ s.(jobs) → j.(job_state) = Claimed → ∃ fate,
     (dispatch_one authority response retarget_ms now later c s).1.(jobs) = put j.(job_id) fate s.(jobs) ∧
     match fate with
     | None => ends_alarm authority response
     | Some y => y.(job_id) = j.(job_id) ∧ object_key y = object_key j ∧ y.(row_token) = j.(row_token) ∧
         y.(job_state) = Scheduled ∧
         (moves_alarm authority response y.(due_at_ms) y.(retry_count) ∨
          (y.(due_at_ms) = j.(due_at_ms) ∧ y.(retry_count) = j.(retry_count) ∧
           ¬ ends_alarm authority response ∧ ∀ d n, ¬ moves_alarm authority response d n))
     end) ∧
  (¬ Exists (held Claimed c) s.(jobs) → dispatch_one authority response retarget_ms now later c s = (s, Ok ())).
Proof.
  subst c. split.
  - intros Hj Hst. unfold dispatch_one, mbind, M_bind at 1.
    destruct (attempt_spec authority response retarget_ms now j Hgen Hretry s Hwf Hj Hst)
      as [(Hout & fate & Hjobs & Hset)|(Hout & Hwf1 & He & Hm & y & Hjobs & Hsame)];
      destruct (dispatch_alarm_attempt _ _ _ _ _ _) as [s1 out]; cbn in Hout, Hjobs; subst out.
    + by exists fate.
    + cbn in Hwf1. assert (Hin : y ∈ s1.(jobs)) by (rewrite Hjobs; by apply (elem_of_put _ _ _ j)).
      pose proof (same_claim_held j y Hsame) as Hheld.
      assert (Hok : claim_result_ok (Reschedule (due_at_ms j) (retry_count j) (Some "transport-timeout"%string))).
      { destruct Hwf as (_ & _ & Hall). rewrite Forall_forall in Hall. destruct (Hall j Hj) as (_ & ? & _ & ? & _). cbn. lia. }
      unfold M_bind, observe. cbn [c_due_at_ms c_retry_count to_claimed]. rewrite (finish_claim_put _ _ later s1 y Hwf1 Hin Hheld Hok). cbn.
      destruct Hsame as (Hid & Hkey & Htok & _ & _ & _). eexists. split.
      * rewrite Hjobs. by apply put_put.
      * cbn. split_and!; try done. right. done.
  - intros Hno. assert (Hfin : ∀ r t, ∃ x, finish_claim (to_claimed j) r t s = (s, x) ∧ (r = Delete → x = Ok false))
      by (intros; by apply finish_claim_unheld).
    assert (Hattempt : ∃ b, dispatch_alarm_attempt authority response retarget_ms now (to_claimed j) s = (s, Ok b)).
    { unfold dispatch_alarm_attempt, mbind, M_bind, observe. destruct authority as [[v g]|e].
      - unfold retarget_claim, mbind, M_bind, some_or, lift, ok_or_else. destruct (i64_checked g); [|by eexists].
        rewrite on_held_spec; [|done|apply sql_update_none]. rewrite decide_False by done. by eexists.
      - destruct (gone_code _); [|by eexists]. destruct (Hfin Delete now) as (x & -> & _). by eexists. }
    destruct Hattempt as [b Hb]. unfold dispatch_one, mbind, M_bind, observe. rewrite Hb. destruct b; [done|].
    destruct (Hfin (Reschedule (due_at_ms j) (retry_count j) (Some "transport-timeout"%string)) later) as (x & Hx & _).
    cbn [c_due_at_ms c_retry_count to_claimed]. by rewrite Hx.
Qed.

(** ** Example *)

Definition ex_claimed_store : AlarmStore := (claim_due 150 8 sample_store).1.
Definition ex_alarm : Job :=
  job 10 1 4 1 (lit "0123456789abcdef") 100 9 3 Claimed 0 None 1 150.
Definition ex_answer : AlarmDispatchResult :=
  alarm_dispatch_result AlarmRetry (Some 400) (Some 1) (Some "DO_RUNTIME_EXCEPTION"%string).

Lemma dispatch_one_releases_witness :
  affected (λ x, x.(job_state) = Claimed) ex_claimed_store.(jobs) = 1 ∧
  ∃ fate, (dispatch_one (Ok (9%N, 3)) (Some (Ok ex_answer)) 200 250 300 (to_claimed ex_alarm) ex_claimed_store).1.(jobs) =
    put 10 fate ex_claimed_store.(jobs) ∧ (due_at_ms <$> fate) = Some 400.
Proof.
  split; [vm_compute; reflexivity|].
  destruct (dispatch_one_releases (Ok (9%N, 3)) (Some (Ok ex_answer)) 200 250 300 ex_claimed_store ex_alarm) as [H _].
  - apply claim_due_wf, sample_wf.
  - intros v g [= <- <-]. lia.
  - intros r n [= <-] [= <-]. lia.
  - destruct H as (fate & Hjobs & Hfate); [vm_compute; left|reflexivity|].
    exists fate. split; [exact Hjobs|]. destruct fate as [y|]; cbn in Hfate.
    + destruct Hfate as (_ & _ & _ & _ & [(_ & _ & _ & Hd & _)|(_ & _ & _ & Hno)]); [cbn; congruence|].
      exfalso. apply (Hno 400 1). vm_compute. intuition congruence.
    + exfalso. destruct Hfate as (_ & _ & [?|[?|?]]); done.
Defined.
