(* ===== verification/Claims.v ===== *)
(** * Claims

    What the run loop needs of a store: its claims keep the tables well formed, return no
    more jobs than asked for and never report corruption, which would stop the loop.  The
    alarm, queue and cron stores are instances. *)

From stdpp Require Import base numbers list option strings sorting gmap.
From S2P Require Import Prelude Text ErrorCodes Scheduler Sql.
From S2P Require Import CronSlots CronStore CronInv CronService QueueDb QueueInv QueueConsumer QueueStmt QueueWf QueueDelivery QueueService AlarmStore.

Local Open Scope Z_scope.

(** ** The interface *)

Class ClaimSource {S J : Type} (ok : S → Prop) (claim : Z → M S PlatformError (list J)) : Prop := {
  claim_keeps n s : ok s → ok (claim n s).1;
  claim_bounded n s s' js : ok s → claim n s = (s', Ok js) → Z.of_nat (length js) ≤ Z.max 0 n;
  claim_sound n s s' e : ok s → claim n s = (s', Err e) → e.(code) ≠ SchedulerCorrupt;
}.

(** ** The errors of a call *)

Section errors.
Context {S E : Type} (P : E → Prop).

Definition fails_with {A} (r : result E A) : Prop := ∀ e, r = Err e → P e.
Definition errors {A} (m : M S E A) : Prop := ∀ s s' e, m s = (s', Err e) → P e.

Lemma fails_bind {A B} (r : result E A) (k : A → result E B) :
  fails_with r → (∀ a, fails_with (k a)) → fails_with (r ≫= k).
Proof. intros Hr Hk e. destruct r as [a|e']; cbn; [apply Hk|]. intros [= <-]. by apply Hr. Qed.
Lemma fails_bail (Q : Prop) `{!Decision Q} e : P e → fails_with (bail_if Q e).
Proof. intros He e'. unfold bail_if. case_decide; [|done]. by intros [= <-]. Qed.
Lemma fails_ok_or {A} (o : option A) e : P e → fails_with (ok_or_else o e).
Proof. intros He e'. destruct o; [done|]. by intros [= <-]. Qed.
Lemma fails_ok {A} (a : A) : fails_with (Ok a).
Proof. done. Qed.

Lemma errors_ret {A} (a : A) : errors (mret a).
Proof. done. Qed.
Lemma errors_gets {A} (f : S → A) : errors (gets f).
Proof. done. Qed.
Lemma errors_modify (f : S → S) : errors (modify f).
Proof. done. Qed.
Lemma errors_lift {A} (r : result E A) : fails_with r → errors (lift r).
Proof. intros Hr s s' e [= _ He]. by apply Hr. Qed.
Lemma errors_throw_if (Q : Prop) `{!Decision Q} e : P e → errors (throw_if Q e).
Proof. intros He. by apply errors_lift, fails_bail. Qed.
Lemma errors_some_or {A} (o : option A) e : P e → errors (some_or o e).
Proof. intros He. by apply errors_lift, fails_ok_or. Qed.
Lemma errors_bind {A B} (m : M S E A) (k : A → M S E B) :
  errors m → (∀ a, errors (k a)) → errors (m ≫= k).
Proof.
  intros Hm Hk s s' e. unfold mbind, M_bind. destruct (m s) as [s1 [a|e1]] eqn:Hrun; [apply Hk|].
  intros [= _ <-]. by eapply Hm.
Qed.
Lemma errors_if (Q : Prop) `{!Decision Q} {A} (m n : M S E A) :
  errors m → errors n → errors (if decide Q then m else n).
Proof. by case_decide. Qed.
Lemma errors_transaction {A} (m : M S E A) : errors m → errors (transaction m).
Proof.
  intros Hm s s' e. unfold transaction. destruct (m s) as [s1 [a|e1]] eqn:Hrun; [done|].
  intros [= _ <-]. by eapply Hm.
Qed.
Lemma errors_for_each {A B} (f : A → M S E B) l : (∀ x, errors (f x)) → errors (for_each f l).
Proof.
  intros Hf. induction l as [|x l IH]; [by apply errors_ret|]. cbn [for_each].
  apply errors_bind; [done|]. intros y. apply errors_bind; [done|]. intros ys. apply errors_ret.
Qed.
End errors.

Definition sound (e : PlatformError) : Prop := e.(code) ≠ SchedulerCorrupt.

Lemma errors_statement {S A} (f : S → option (S * A)) : errors sound (statement f).
Proof. intros s s' e. unfold statement. destruct (f s) as [[??]|]; [done|]. by intros [= _ <-]. Qed.
Lemma errors_execute f : errors sound (execute map_sql_error f).
Proof. intros s s' e. unfold execute. destruct (f s); [done|]. by intros [= _ <-]. Qed.

Create HintDb errors discriminated.
#[export] Hint Resolve fails_bind fails_bail fails_ok_or fails_ok errors_ret errors_gets errors_modify errors_lift
  errors_throw_if errors_some_or errors_bind errors_if errors_transaction errors_for_each
  errors_statement errors_execute : errors.
#[export] Hint Extern 1 (sound _) => discriminate : errors.

(** The errors of a program are those of its parts. *)
Ltac solve_errors :=
  cbv zeta; repeat first [apply errors_transaction | apply errors_for_each; intros ?
    | apply errors_bind; [|intros ?] | apply errors_if | solve [eauto with errors]].

(** ** Alarms *)

#[export] Instance alarm_claims now : ClaimSource (λ s, alarm_wf s.(jobs)) (claim_due now).
Proof.
  split.
  - intros n s. apply claim_due_wf.
  - intros n s s' js _ H. unfold claim_due in H. run_inv. subst.
    match goal with H : for_each _ _ _ = _ |- _ => apply for_each_length in H; rewrite H end.
    rewrite length_fmap. unfold due_candidates. rewrite length_take. lia.
  - intros n s s' e Hwf H. destruct (decide (n = 0)) as [->|Hn].
    + unfold claim_due, mbind, M_bind, throw_if, lift, bail_if in H. rewrite decide_True in H by done.
      by injection H as _ <-.
    + by rewrite claim_due_run in H.
Qed.

(** ** Queues *)

Lemma claim_loop_length inst gen now i cs db db' bs :
  claim_loop inst gen now i cs db = (db', Ok bs) → (length bs ≤ length cs)%nat.
Proof.
  revert i db bs. induction cs as [|[id c] cs IH]; intros i db bs H; cbn [claim_loop] in H.
  - run_inv. by subst.
  - run_inv; subst; match goal with H : claim_loop _ _ _ _ _ _ = _ |- _ => apply IH in H end; cbn; lia.
Qed.

Lemma claim_loop_errors inst gen now i cs : errors sound (claim_loop inst gen now i cs).
Proof.
  revert i. induction cs as [|[id c] cs IH]; intros i; cbn [claim_loop]; [auto with errors|].
  unfold due_messages_tx, claim_batch, claim_message, consumer_i64. solve_errors.
Qed.

#[export] Instance queue_claims inst gen now :
  ClaimSource (λ s : QueuePool, queue_wf s.1) (claim_queue_consumers inst gen now).
Proof.
  assert (Hstate : ∀ n s, (claim_queue_consumers inst gen now n s).1.1 = (claim_queue_batches inst gen now n s.2 s.1).1).
  { intros n s. unfold claim_queue_consumers. by destruct (claim_queue_batches _ _ _ _ _ _) as [db [bs|e]]. }
  split.
  - intros n s Hwf. rewrite Hstate. apply queue_wf_stmt, keeps_claim; [done|]. by apply queue_wf_stmt.
  - intros n s s' bs _ H. unfold claim_queue_consumers in H.
    destruct (claim_queue_batches _ _ _ _ _ _) as [db [bs'|e]] eqn:E; [|done]. injection H as _ <-.
    unfold claim_queue_batches, eligible_consumers_tx in E. run_inv. subst.
    match goal with H : claim_loop _ _ _ _ _ _ = _ |- _ => apply claim_loop_length in H as Hlen end.
    rewrite length_take in Hlen. lia.
  - intros n s s' e _ H. unfold claim_queue_consumers in H.
    destruct (claim_queue_batches _ _ _ _ _ _) as [db [bs|e']] eqn:E; [done|]. injection H as _ <-.
    assert (Herr : errors sound (claim_queue_batches inst gen now n s.2)); [|by eapply Herr].
    unfold claim_queue_batches, eligible_consumers_tx. pose proof claim_loop_errors. solve_errors.
Qed.

(** ** Cron *)

Section cron.
Context (cloudflare_syntax : ustr → bool) (croner_parse : ustr → option CronPattern).
Context (to_zoned : Z → option Zoned) (days_in_month : Z → Z → Z).

Lemma parse_errors t : fails_with sound (parse cloudflare_syntax croner_parse t).
Proof.
  unfold parse. apply fails_bind; [auto with errors|intros _].
  apply fails_bind; [apply fails_bail; by case_decide|intros _]. auto with errors.
Qed.

Lemma next_from_minute_errors s c : fails_with sound (next_from_minute to_zoned days_in_month s c).
Proof.
  unfold next_from_minute. apply fails_bind; [auto with errors|]. intros limit e He.
  destruct (loop_upto _ _ _) as [|r] eqn:Hl; [by simplify_eq|]. subst r.
  eapply (loop_upto_partial _ (λ _, True) (fails_with sound)) in Hl; [by apply Hl|done| |done].
  intros x b _. unfold search_step. case_decide; [|intros [= <-]; by intros ? [= <-]].
  destruct (i64_checked _) as [t|]; [|intros [= <-]; by intros ? [= <-]].
  assert (Hm : fails_with sound (timestamp_matches to_zoned days_in_month s t))
    by (unfold timestamp_matches; auto with errors).
  destruct (timestamp_matches _ _ _ _) as [[]|e']; [by intros [= <-]| |].
  - destruct (i64_checked _); [done|]. intros [= <-]. by intros ? [= <-].
  - intros [= <-]. intros ? [= <-]. by apply Hm.
Qed.

Lemma next_after_ms_errors s t : fails_with sound (next_after_ms to_zoned days_in_month s t).
Proof. unfold next_after_ms. pose proof next_from_minute_errors. auto with errors. Qed.

Lemma latest_errors s lo hi : fails_with sound (latest_at_or_before_ms to_zoned days_in_month s lo hi).
Proof.
  unfold latest_at_or_before_ms. apply fails_bind; [auto with errors|intros _].
  apply fails_bind; [apply next_from_minute_errors|]. intros c e He.
  destruct (loop_upto _ _ _) as [|r] eqn:Hl; [by simplify_eq|]. subst r.
  eapply (loop_upto_partial _ (λ _, True) (fails_with sound)) in Hl; [by apply Hl|done| |done].
  intros [next latest] b _. unfold latest_step. case_decide; [|by intros [= <-]].
  destruct (next_after_ms _ _ _ _) eqn:Hn; [done|]. intros [= <-] ? [= <-]. by eapply next_after_ms_errors.
Qed.

Context (inst : N) (config : CronConfig) (gen : nat → N) (now : Z).
Let parse := parse cloudflare_syntax croner_parse.

Lemma project_loop_errors floor i ss :
  errors sound (project_loop parse to_zoned days_in_month gen now floor i ss).
Proof.
  revert i. induction ss as [|s ss IH]; intros i; cbn [project_loop]; [auto with errors|].
  unfold project_schedule, cron_i64. apply errors_bind; [|auto with errors].
  apply errors_bind; [apply errors_lift, parse_errors|intros p].
  apply errors_bind; [apply errors_lift, latest_errors|intros slot].
  apply errors_bind; [destruct slot; auto with errors|intros x].
  apply errors_bind; [apply errors_lift, next_after_ms_errors|auto with errors].
Qed.

#[export] Instance cron_claims :
  ClaimSource cron_wf (claim_cron inst parse to_zoned days_in_month config gen now).
Proof.
  assert (Herr : ∀ n, errors sound (claim_cron inst parse to_zoned days_in_month config gen now n)).
  { intros n. unfold claim_cron. pose proof project_loop_errors.
    apply errors_bind; [|intros _; apply errors_bind; [|intros _]].
    - unfold project_due_cron_slots, due_schedules_tx, cron_i64. solve_errors.
    - unfold gc_cron_history, cron_i64. solve_errors.
    - unfold claim_cron_runs, claim_run, read_claimed_run_tx, cron_add_ms, cron_i64. solve_errors. }
  split.
  - intros n db Hwf. unfold claim_cron, mbind, M_bind.
    pose proof (project_due_cron_slots_keeps parse to_zoned days_in_month gen now (cron_misfire_grace_ms config) n db Hwf) as H1.
    destruct (project_due_cron_slots _ _ _ _ _ _ _ _) as [db1 [x|e]]; [|done]. cbn in H1.
    pose proof (gc_cron_history_keeps now (cron_history_retention_ms config) (cron_history_limit config) db1 H1) as H2.
    destruct (gc_cron_history _ _ _ _) as [db2 [y|e]]; [|done]. by apply claim_cron_runs_keeps.
  - intros n db db' js _ H. unfold claim_cron, claim_cron_runs in H. run_inv. subst.
    match goal with H : for_each _ _ _ = _ |- _ => apply for_each_length in H; rewrite H end.
    unfold due_runs, due_rows. rewrite length_fmap, length_take. lia.
  - intros n s s' e _. apply Herr.
Qed.
End cron.
