(* ===== verification/Service.v ===== *)
(** * The scheduler service

    The run loop over its stores ([crates/service/src/scheduler/runner.rs], which calls
    [claim], [claim_queue_consumers], [claim_cron] and [claim_workflows]).  A cycle claims
    from the stores and spawns a task for each job; between cycles, deliveries,
    producers, promotions and restarts call the stores.  The workflow store is a
    parameter that satisfies the interface of claims. *)

From stdpp Require Import base numbers list option strings functions sorting gmap.
From S2P Require Import Prelude Text ErrorCodes Scheduler Sql.
From S2P Require Import CronSlots CronStore CronInv CronService CronReach QueueDb QueueInv QueueConsumer QueueStore QueueStmt QueueWf QueueDelivery QueueReach QueueService AlarmStore Claims Fairness Kernel Runner.

Local Open Scope Z_scope.

Section service.
Context (instance_id : N) (sha256 : list Z → list Z) (id_text : N → list Z).
Context (cloudflare_syntax : ustr → bool) (croner_parse : ustr → option CronPattern).
Context (to_zoned : Z → option Zoned) (days_in_month : Z → Z → Z) (config : CronConfig).
Context {W JW : Type} (workflow_ok : W → Prop) (claim_workflows : Z → Z → M W PlatformError (list JW)).
Context {workflow_claims : ∀ now, ClaimSource workflow_ok (claim_workflows now)}.

(** ** State *)

Record Stores := stores {
  alarm_store_of : AlarmStore;
  queue_pool : QueuePool;
  cron_db_of : CronDb;
  workflow_db : W;
}.

Definition stores_ok (st : Stores) : Prop :=
  alarm_wf st.(alarm_store_of).(jobs) ∧ queue_wf st.(queue_pool).1 ∧ cron_wf st.(cron_db_of) ∧
  workflow_ok st.(workflow_db).

Abbreviation Service := (Stores * SchedulerRun)%type.

(** ** Claims *)

(** What a cycle takes from outside: the clock at each claim, and generated ids. *)
Record ClaimInputs := claim_inputs {
  claimed_at_ms : SchedulerKind → Z;
  batch_ids : nat → N;
  run_ids : nat → N;
}.

(** The claim of one kind: the tables after it, and how many jobs it returned. *)
Definition claim_kind (i : ClaimInputs) (k : SchedulerKind) (n : Z) (st : Stores) :
    Stores * result PlatformError nat :=
  let now := i.(claimed_at_ms) k in
  match k with
  | Alarm =>
      let '(x, r) := claim_due now n st.(alarm_store_of) in
      (stores x st.(queue_pool) st.(cron_db_of) st.(workflow_db), length <$> r)
  | Queue =>
      let '(x, r) := claim_queue_consumers instance_id i.(batch_ids) now n st.(queue_pool) in
      (stores st.(alarm_store_of) x st.(cron_db_of) st.(workflow_db), length <$> r)
  | Cron =>
      let '(x, r) := claim_cron instance_id (parse cloudflare_syntax croner_parse) to_zoned days_in_month config
                       i.(run_ids) now n st.(cron_db_of) in
      (stores st.(alarm_store_of) st.(queue_pool) x st.(workflow_db), length <$> r)
  | Workflow =>
      let '(x, r) := claim_workflows now n st.(workflow_db) in
      (stores st.(alarm_store_of) st.(queue_pool) st.(cron_db_of) x, length <$> r)
  end.

(** ** One cycle *)

Section cycle.
Context (now : Z) (claim_batches : SchedulerKind → Z) (i : ClaimInputs).
(** The ids of the tasks that [JoinSet::spawn] starts in this cycle *)
Context (task : SchedulerKind → nat → N).

Definition tasks (k : SchedulerKind) (claimed : result PlatformError nat) : result PlatformError (list N) :=
  (λ jobs, task k <$> List.seq 0 jobs) <$> claimed.

Definition service_dispatch_kind (selected : list SchedulerKind) (k : SchedulerKind) :
    M Service PlatformError unit := λ s,
  let n := Z.min (count k selected) (claim_batches k) in
  if decide (n > 0) then
    let '(st, claimed) := claim_kind i k (u32_saturate n) s.1 in
    match dispatch_kind now claim_batches (λ _ _, tasks k claimed) selected s.2 k with
    | Ok run => ((st, run), Ok ())
    | Err e => ((st, s.2), Err e)
    end
  else (s, Ok ()).

Definition service_cycle (ready : SchedulerKind → bool) : M Service PlatformError unit := λ s,
  let run := s.2 in
  if decide (available_global run.(admission) > 0) then
    let '(selector, selected) :=
      select run.(selector) ready (available_pools run.(admission))
        (Z.to_nat (available_global run.(admission))) in
    let '(s, r) := for_each (service_dispatch_kind selected) ALL
      (s.1, scheduler_run run.(admission) selector run.(backoff) run.(pools) run.(published)
              run.(dispatches) run.(dispatch_kinds)) in
    (s, _ ← r; Ok ())
  else (s, Ok ()).
End cycle.

(** Tokio gives a spawned task an id that no live task has. *)
Definition tasks_fresh (task : SchedulerKind → nat → N) (used : gset N) : Prop :=
  (∀ k j k' j', task k j = task k' j' → k = k' ∧ j = j') ∧ ∀ k j, task k j ∉ used.

(** ** Steps *)

Inductive service_step (claim_batches : SchedulerKind → Z) (s : Service) : Service → Prop :=
| svc_cycle now i task ready :
    tasks_fresh task s.2.(dispatches) →
    service_step claim_batches s (service_cycle now claim_batches i task ready s).1
| svc_complete id run' :
    id ∈ s.2.(dispatches) → complete id s.2 = Ok run' → service_step claim_batches s (s.1, run')
| svc_refresh now enabled paused : service_step claim_batches s (s.1, refresh now enabled paused s.2)
| svc_maintenance now now_ms rows :
    service_step claim_batches s
      (let '(db, outcome) := run_queue_maintenance now_ms rows s.1.(queue_pool).1 in
       (stores s.1.(alarm_store_of) (db, s.1.(queue_pool).2) s.1.(cron_db_of) s.1.(workflow_db),
        queue_maintenance now outcome s.2))
| svc_repair outcome : service_step claim_batches s (s.1, workflow_repair outcome s.2)
| svc_probe enabled alarm_paused : service_step claim_batches s (s.1, alarm_probe enabled alarm_paused s.2)
| svc_alarm x :
    alarm_step s.1.(alarm_store_of) x →
    service_step claim_batches s
      (stores x s.1.(queue_pool) s.1.(cron_db_of) s.1.(workflow_db), s.2)
| svc_queue c :
    call_ok c s.1.(queue_pool).1 →
    service_step claim_batches s
      (stores s.1.(alarm_store_of) (run_call instance_id sha256 id_text c s.1.(queue_pool).1, s.1.(queue_pool).2)
         s.1.(cron_db_of) s.1.(workflow_db), s.2)
| svc_cron c m log :
    cron_call_ok m c s.1.(cron_db_of) log →
    service_step claim_batches s
      (stores s.1.(alarm_store_of) s.1.(queue_pool)
         (run_cron instance_id (parse cloudflare_syntax croner_parse) to_zoned days_in_month c s.1.(cron_db_of))
         s.1.(workflow_db), s.2)
| svc_workflow x :
    workflow_ok x →
    service_step claim_batches s
      (stores s.1.(alarm_store_of) s.1.(queue_pool) s.1.(cron_db_of) x, s.2).

Inductive service_reachable (claim_batches : SchedulerKind → Z) (init : Service) : Service → Prop :=
| svc_init : service_reachable claim_batches init init
| svc_next s s' :
    service_reachable claim_batches init s → service_step claim_batches s s' →
    service_reachable claim_batches init s'.

(** A service that starts on empty tables. *)
Definition service_new (w : W) (max_in_flight : Z) (pool_caps weights : SchedulerKind → Z) (boot_wall_ms : Z) : Service :=
  (stores (alarm_store [] 0) (empty_db, None) (cron_db ∅ ∅ 0) w,
   SchedulerRun_new max_in_flight pool_caps weights boot_wall_ms).

(** ** Claims meet the needs of the loop *)

(** The table that a kind claims from. *)
Definition same_table (k : SchedulerKind) (st st' : Stores) : Prop :=
  match k with
  | Alarm => st.(alarm_store_of) = st'.(alarm_store_of)
  | Queue => st.(queue_pool) = st'.(queue_pool)
  | Cron => st.(cron_db_of) = st'.(cron_db_of)
  | Workflow => st.(workflow_db) = st'.(workflow_db)
  end.

Lemma claim_kind_same i k n st st' :
  same_table k st st' → (claim_kind i k n st).2 = (claim_kind i k n st').2.
Proof.
  destruct k; cbn [same_table claim_kind]; intros ->;
    by repeat match goal with |- context [let '_ := ?x in _] => destruct x end.
Qed.

Lemma claim_kind_other i k k' n st : k ≠ k' → same_table k' st (claim_kind i k n st).1.
Proof.
  intros Hk. destruct k, k'; try done; cbn;
    by repeat match goal with |- context [let '_ := ?x in _] => destruct x end.
Qed.

(** The laws of the interface, for any claim. *)
Lemma claim_laws {S J} (ok : S → Prop) (claim : Z → M S PlatformError (list J)) `{!ClaimSource ok claim} n s :
  ok s → let '(s', r) := claim n s in
  ok s' ∧ match length <$> r with
          | Ok jobs => Z.of_nat jobs ≤ Z.max 0 n
          | Err e => e.(code) ≠ SchedulerCorrupt
          end.
Proof.
  intros Hok. pose proof (claim_keeps n s Hok) as Hk. destruct (claim n s) as [s' [js|e]] eqn:E; split; cbn; try done.
  - exact (claim_bounded n s s' js Hok E).
  - exact (claim_sound n s s' e Hok E).
Qed.

Lemma claim_kind_laws i k n st :
  stores_ok st →
  stores_ok (claim_kind i k n st).1 ∧
  match (claim_kind i k n st).2 with
  | Ok jobs => Z.of_nat jobs ≤ Z.max 0 n
  | Err e => e.(code) ≠ SchedulerCorrupt
  end.
Proof.
  intros (Ha & Hq & Hc & Hw). destruct k; cbn [claim_kind].
  - pose proof (claim_laws _ (claim_due (claimed_at_ms i Alarm)) n _ Ha) as H.
    destruct (claim_due _ _ _). by destruct H.
  - pose proof (claim_laws _ (claim_queue_consumers instance_id (batch_ids i) (claimed_at_ms i Queue)) n _ Hq) as H.
    destruct (claim_queue_consumers _ _ _ _ _). by destruct H.
  - pose proof (claim_laws _ (claim_cron instance_id (parse cloudflare_syntax croner_parse) to_zoned days_in_month
      config (run_ids i) (claimed_at_ms i Cron)) n _ Hc) as H.
    destruct (claim_cron _ _ _ _ _ _ _ _ _). by destruct H.
  - pose proof (claim_laws _ (claim_workflows (claimed_at_ms i Workflow)) n _ Hw) as H.
    destruct (claim_workflows _ _ _). by destruct H.
Qed.

(** What the stores would answer at the start of a cycle. *)
Definition claims_of (i : ClaimInputs) (task : SchedulerKind → nat → N) (st : Stores)
    (k : SchedulerKind) (n : Z) : result PlatformError (list N) :=
  tasks task k (claim_kind i k n st).2.

Lemma claims_of_ok i task st used : stores_ok st → tasks_fresh task used → claims_ok (claims_of i task st) used.
Proof.
  intros Hok [Hinj Hfresh] k n jobs. unfold claims_of, tasks.
  pose proof (claim_kind_laws i k n st Hok) as [_ Hlaw].
  destruct (claim_kind i k n st).2 as [m|e]; [|done]. cbn. intros [= <-].
  assert (Hin : ∀ k m id, id ∈ task k <$> List.seq 0 m → ∃ j, id = task k j) by (intros ??? (j & -> & _)%list_elem_of_fmap; eauto).
  split_and!.
  - by rewrite length_fmap, length_seq.
  - apply NoDup_fmap_2; [|apply NoDup_seq]. intros j j' Hj. by apply Hinj in Hj as [_ ?].
  - intros id (j & ->)%Hin. apply Hfresh.
  - intros k' n' jobs' Hk'. destruct (claim_kind i k' n' st).2 as [m'|e]; [|done]. cbn. intros [= <-].
    intros id (j & ->)%Hin (j' & Heq)%Hin. apply Hinj in Heq as [-> _]. done.
Qed.

Lemma claims_not_corrupt i task st k n e :
  stores_ok st → claims_of i task st k n = Err e → e.(code) ≠ SchedulerCorrupt.
Proof.
  intros Hok. unfold claims_of, tasks. pose proof (claim_kind_laws i k n st Hok) as [_ Hlaw].
  destruct (claim_kind i k n st).2; cbn; [done|]. by intros [= <-].
Qed.

(** ** A cycle never stops the loop *)

Lemma dispatch_kind_ext now batches claim claim' selected run k :
  claim k (u32_saturate (Z.min (count k selected) (batches k))) =
  claim' k (u32_saturate (Z.min (count k selected) (batches k))) →
  dispatch_kind now batches claim selected run k = dispatch_kind now batches claim' selected run k.
Proof. intros Heq. unfold dispatch_kind. by rewrite Heq. Qed.

Lemma dispatch_kind_corrupt now batches claim selected run k e :
  dispatch_kind now batches claim selected run k = Err e → e.(code) = SchedulerCorrupt →
  ∃ n, claim k n = Err e.
Proof.
  unfold dispatch_kind. case_decide; [|done]. destruct (claim k _) as [jobs|e'] eqn:Hc.
  - case_decide; [done|]. destruct (reserve _ _ _) as [? []]; [done|]. by intros [= <-].
  - case_decide; [|done]. intros [= <-] _. by eexists.
Qed.

Section dispatch.
Context (now : Z) (batches : SchedulerKind → Z) (i : ClaimInputs) (task : SchedulerKind → nat → N).
Context (st0 : Stores) (used : gset N) (selected : list SchedulerKind).
Context (Hst0 : stores_ok st0) (Hfresh : tasks_fresh task used).

(** Before the kinds [kinds] are served, their tables are those of the start. *)
Definition serving (kinds : list SchedulerKind) (s : Service) : Prop :=
  stores_ok s.1 ∧ (∀ k, k ∈ kinds → same_table k st0 s.1) ∧
  dispatch_inv (claims_of i task st0) used selected kinds s.2.

Lemma same_table_trans k st1 st2 st3 : same_table k st1 st2 → same_table k st2 st3 → same_table k st1 st3.
Proof. destruct k; cbn; congruence. Qed.

Lemma service_dispatch_kind_ok kinds k s :
  k ∉ kinds → serving (k :: kinds) s →
  ∃ s', service_dispatch_kind now batches i task selected k s = (s', Ok ()) ∧ serving kinds s'.
Proof.
  intros Hk (Hok & Hsame & Hinv). unfold service_dispatch_kind. set (n := Z.min _ _).
  pose proof (dispatch_kind_ok now batches _ used (claims_of_ok i task st0 used Hst0 Hfresh) selected kinds k s.2 Hk Hinv) as Hrun.
  case_decide as Hn.
  - pose proof (claim_kind_same i k (u32_saturate n) _ _ (Hsame k ltac:(left))) as Hclaim.
    pose proof (claim_kind_laws i k (u32_saturate n) s.1 Hok) as [Hok' _].
    pose proof (λ k', claim_kind_other i k k' (u32_saturate n) s.1) as Hother.
    destruct (claim_kind i k (u32_saturate n) s.1) as [st claimed]. cbn [fst snd] in *.
    rewrite (dispatch_kind_ext _ _ _ (claims_of i task st0)) by (unfold claims_of; fold n; by rewrite Hclaim).
    destruct (dispatch_kind _ _ _ _ _ _) as [run|e] eqn:Hd.
    + eexists. split; [done|]. split_and!; [done| |done]. intros k' Hk'.
      eapply same_table_trans; [apply Hsame; by right|]. apply Hother. by intros ->.
    + exfalso. destruct (dispatch_kind_corrupt _ _ _ _ _ _ _ Hd Hrun) as [m Hm]. by apply claims_not_corrupt in Hm.
  - exists s. split; [done|]. split_and!; [done|intros; apply Hsame; by right|].
    unfold dispatch_kind in Hrun. fold n in Hrun. by rewrite decide_False in Hrun by done.
Qed.

Lemma service_dispatch_ok kinds s :
  NoDup kinds → serving kinds s →
  ∃ s' us, for_each (service_dispatch_kind now batches i task selected) kinds s = (s', Ok us) ∧ serving [] s'.
Proof.
  revert s. induction kinds as [|k kinds IH]; intros s Hnd Hs; [by eexists _, _|].
  apply NoDup_cons in Hnd as [Hk Hnd]. destruct (service_dispatch_kind_ok kinds k s Hk Hs) as (s1 & Hs1 & Hserving).
  destruct (IH s1 Hnd Hserving) as (s2 & us & Hs2 & ?). exists s2, (() :: us). split; [|done].
  apply for_each_cons_run. by eexists _, _, _.
Qed.
End dispatch.

Definition service_inv (s : Service) : Prop := stores_ok s.1 ∧ sched_inv s.2.

Lemma service_cycle_ok now batches i task ready s :
  service_inv s → tasks_fresh task s.2.(dispatches) →
  ∃ s', service_cycle now batches i task ready s = (s', Ok ()) ∧ service_inv s'.
Proof.
  intros [Hok Hinv] Hfresh. unfold service_cycle. case_decide as Hpos; [|by exists s].
  destruct (select _ _ _ _) as [sel selected] eqn:Hsel.
  pose proof (select_dispatch_inv (claims_of i task s.1) ready s.2 sel selected Hinv Hpos Hsel) as Hd.
  set (s0 := (s.1, _)).
  destruct (service_dispatch_ok now batches i task s.1 _ selected Hok Hfresh ALL s0 NoDup_ALL) as (s' & us & -> & Hok' & _ & Hinv' & _).
  - split_and!; [done|by intros []|done].
  - by exists s'.
Qed.

Lemma service_step_inv batches s s' : service_inv s → service_step batches s s' → service_inv s'.
Proof.
  intros Hs Hstep. pose proof Hs as [(Ha & Hq & Hc & Hw) Hinv].
  destruct Hstep as [now i task ready Hfresh|id run' Hid Hrun|now en pa|now now_ms rows|o|en pa|x Hx|c Hx|c m log Hx|x Hx].
  - by destruct (service_cycle_ok now batches i task ready s Hs Hfresh) as (s' & -> & ?).
  - split; [done|]. by apply (sched_step_inv batches s.2); [|eapply step_complete].
  - split; [done|]. by apply refresh_inv.
  - assert (Hq' : queue_wf (run_queue_maintenance now_ms rows s.1.(queue_pool).1).1).
    { apply queue_wf_stmt in Hq. apply queue_wf_stmt. unfold run_queue_maintenance, mbind, M_bind.
      pose proof (keeps_forward all_exact now_ms 1000 rows _ Hq) as H1.
      destruct (forward_queue_dlq_pending _ _ _ _) as [db1 [x|e]]; [|done]. cbn in H1.
      pose proof (keeps_sweep all_exact now_ms rows (4 * 1024 * 1024) _ H1) as H2.
      by destruct (sweep_queue_retention _ _ _ _) as [db2 [y|e]]. }
    destruct (run_queue_maintenance _ _ _) as [db outcome]. split; [done|].
    apply (sched_step_inv batches s.2); [done|]. apply step_maintenance.
  - split; [done|]. apply (sched_step_inv batches s.2); [done|]. apply step_repair.
  - split; [done|]. apply (sched_step_inv batches s.2); [done|]. apply step_probe.
  - split; [|done]. split_and!; [|done..]. by eapply alarm_step_wf.
  - split; [|done]. split_and!; [done| |done..]. apply queue_wf_stmt, run_call_stmt; try done. by apply queue_wf_stmt.
  - split; [|done]. split_and!; [done..| |done]. by eapply run_cron_wf.
  - split; [|done]. by split_and!.
Qed.

Lemma service_new_inv w g caps weights boot :
  workflow_ok w → 0 ≤ g ≤ u64_max → (∀ k, 0 ≤ caps k ≤ u64_max) → weights_ok weights →
  service_inv (service_new w g caps weights boot).
Proof.
  intros Hw Hg Hcaps Hweights. split; [|by apply sched_inv_new]. split_and!; [|apply empty_wf| |done].
  - apply (alarm_reachable_inv (alarm_store [] 0)), alarm_init.
  - apply (cron_exec_wf 0 (parse cloudflare_syntax croner_parse) to_zoned days_in_month 0 _ []), exec_empty.
Qed.

Lemma service_reachable_inv batches init s :
  service_inv init → service_reachable batches init s → service_inv s.
Proof. intros Hinit. induction 1; [done|]. by eapply service_step_inv. Qed.

(** C4. The scheduler as a whole, from empty tables and through any interleaving of cycles,
    task completions, refreshes, maintenance, probes and store calls of deliveries,
    producers, promotions and restarts.  In every state it can reach: the tables of every
    store are well formed; the permits held are exactly the live tasks, of each kind and in
    total, and within their caps; and the dispatch of the next cycle succeeds: no store
    makes it report corruption and no reservation fails, either of which would end the
    loop. *)
Theorem service_never_stops batches w g caps weights boot s
    (Hw : workflow_ok w) (Hg : 0 ≤ g ≤ u64_max) (Hcaps : ∀ k, 0 ≤ caps k ≤ u64_max) (Hweights : weights_ok weights)
    (Hreach : service_reachable batches (service_new w g caps weights boot) s) :
  stores_ok s.1 ∧
  (∀ k, s.2.(admission).(pool_in_flight) k = running k s.2.(dispatch_kinds) ∧
        running k s.2.(dispatch_kinds) ≤ s.2.(admission).(pool_caps) k) ∧
  Z.of_nat (size s.2.(dispatch_kinds)) = s.2.(admission).(global_in_flight) ∧
  s.2.(admission).(global_in_flight) ≤ s.2.(admission).(global_cap) ∧
  ∀ now i task ready, tasks_fresh task s.2.(dispatches) →
    (service_cycle now batches i task ready s).2 = Ok ().
Proof.
  assert (Hs : service_inv s) by (eapply service_reachable_inv, Hreach; by apply service_new_inv).
  pose proof Hs as [Hok Hinv]. destruct (sched_inv_permits s.2 Hinv) as (Hpools & Hsize & Hcap). split_and!; [done..|].
  intros now i task ready Hfresh. by destruct (service_cycle_ok now batches i task ready s Hs Hfresh) as (s' & -> & _).
Qed.
End service.

(** ** Example *)

(** A workflow store without work. *)
Definition no_workflows (now n : Z) : M unit PlatformError (list unit) := mret [].
#[export] Instance no_workflows_claims now : ClaimSource (λ _, True) (no_workflows now).
Proof. split; [done| |done]. intros n s s' js _ [= _ <-]. cbn. lia. Qed.

Definition ex_inputs : ClaimInputs := claim_inputs (λ _, 150) N.of_nat N.of_nat.
Definition ex_task (k : SchedulerKind) (j : nat) : N :=
  (4 * N.of_nat j + match k with Alarm => 0 | Queue => 1 | Cron => 2 | Workflow => 3 end)%N.

(** One alarm is set, then a cycle runs it. *)
Definition ex_start : Stores (W := unit) * SchedulerRun := service_new () 3 (λ _, 2) (λ _, 1) 1000.
Definition ex_set : Stores (W := unit) * SchedulerRun :=
  (stores (upsert_alarm 10 (sample_projection 4 100) 1 (alarm_store [] 0)).1
     ex_start.1.(queue_pool) ex_start.1.(cron_db_of) (), ex_start.2).
Definition ex_cycle : Stores (W := unit) * SchedulerRun → (Stores (W := unit) * SchedulerRun) * result PlatformError unit :=
  service_cycle 7 (λ _, false) (λ _, None) (λ _, None) (λ _ _, 30) (cron_config 0 1 1 3 1000)
    no_workflows 0 (λ _, 16) ex_inputs ex_task (λ k, bool_decide (k = Alarm)).

Lemma ex_task_fresh used : used = ∅ → tasks_fresh ex_task used.
Proof.
  intros ->. split; [|set_solver]. intros k j k' j'. unfold ex_task.
  destruct k, k'; intros H; split; (done || lia).
Qed.

Lemma service_never_stops_witness :
  size (ex_cycle ex_set).1.2.(dispatch_kinds) = 1%nat ∧
  running Alarm (ex_cycle ex_set).1.2.(dispatch_kinds) ≤ (ex_cycle ex_set).1.2.(admission).(pool_caps) Alarm ∧
  (ex_cycle ex_set).2 = Ok ().
Proof.
  set (reach := service_reachable 7 (λ _, []) (λ _, []) (λ _, false) (λ _, None) (λ _, None) (λ _ _, 30)
    (cron_config 0 1 1 3 1000) (λ _, True) no_workflows (λ _, 16) ex_start).
  assert (Hset : reach ex_set).
  { eapply svc_next; [apply svc_init|]. apply svc_alarm, step_upsert. split_and!; cbn; lia. }
  assert (Hcycle : reach (ex_cycle ex_set).1).
  { eapply svc_next; [exact Hset|]. apply svc_cycle. by apply ex_task_fresh. }
  assert (Hg : 0 ≤ 3 ≤ u64_max) by lia.
  assert (Hcaps : ∀ k : SchedulerKind, 0 ≤ 2 ≤ u64_max) by lia.
  assert (Hw : weights_ok (λ _, 1)) by (intros k; lia).
  split; [vm_compute; reflexivity|]. split.
  - by destruct (service_never_stops _ _ _ _ _ _ _ _ _ _ _ () 3 (λ _, 2) (λ _, 1) 1000 _ I Hg Hcaps Hw Hcycle) as (_ & Hp & _); apply Hp.
  - destruct (service_never_stops _ _ _ _ _ _ _ _ _ _ _ () 3 (λ _, 2) (λ _, 1) 1000 _ I Hg Hcaps Hw Hset) as (_ & _ & _ & _ & H).
    apply H. by apply ex_task_fresh.
Defined.
