(* ===== verification/WorkflowTypes.v ===== *)
(** * Workflow vocabulary

    [crates/core/src/workflow.rs] and its [workflow/] files: the local capacity policy,
    the immutable step descriptor with its canonical JSON and logical size, durable values,
    event envelopes and the identities the control and scheduler authorities share.  Hashes,
    base64 and UUID text come from other packages and are the parameters of [Codec]. *)

From stdpp Require Import base numbers list option strings pretty.
From S2P Require Import Prelude Text ErrorCodes Duration RetryPolicy.

Local Open Scope Z_scope.

(** ** Third-party encodings *)

Class Codec := {
  sha256 : ustr → list Z;
  base64_decode : ustr → option (list Z);
  base64_encode : list Z → ustr;
  uuid_text : N → ustr;
  hex_text : list Z → ustr;
}.

(** ** JSON text *)

#[warnings="-register-all"]
Inductive Json : Type :=
| JNull
| JBool (b : bool)
| JInt (z : Z)
| JStr (s : ustr)
| JArr (l : list Json)
| JObj (fields : list (string * Json)).

Definition hex_digit (n : Z) : Z := if decide (n < 10) then 48 + n else 87 + n.

(** The escapes of [serde_json]. *)
Definition escape (c : Z) : ustr :=
  if decide (c = 34) then [92; 34]
  else if decide (c = 92) then [92; 92]
  else if decide (c = 8) then [92; 98]
  else if decide (c = 9) then [92; 116]
  else if decide (c = 10) then [92; 110]
  else if decide (c = 12) then [92; 102]
  else if decide (c = 13) then [92; 114]
  else if decide (c < 32) then [92; 117; 48; 48; hex_digit (c / 16); hex_digit (c mod 16)]
  else [c].
Definition quoted (s : ustr) : ustr := [34] ++ (s ≫= escape) ++ [34].
Definition number_text (z : Z) : ustr := lit (pretty z).

Definition comma (l : list ustr) : ustr :=
  match l with
  | [] => []
  | x :: l => x ++ (l ≫= λ y, [44] ++ y)
  end.

Fixpoint json_text (j : Json) : ustr :=
  match j with
  | JNull => lit "null"
  | JBool b => lit (if b then "true" else "false")
  | JInt z => number_text z
  | JStr s => quoted s
  | JArr l => [91] ++ comma (map json_text l) ++ [93]
  | JObj fields => [123] ++ comma (map (λ kv, quoted (lit kv.1) ++ [58] ++ json_text kv.2) fields) ++ [125]
  end.

(** ** Validation *)

Definition WORKFLOW_VALUE_MAX_BYTES : Z := 1024 * 1024.

Definition is_ascii_alphanumeric (c : Z) : Prop := 48 ≤ c ≤ 57 ∨ 65 ≤ c ≤ 90 ∨ 97 ≤ c ≤ 122.
#[export] Instance is_ascii_alphanumeric_dec c : Decision (is_ascii_alphanumeric c).
Proof. unfold is_ascii_alphanumeric. apply _. Defined.

(** A byte past the first of a character is never alphanumeric, so the characters decide. *)
Definition validate_workflow_instance_id (value : ustr) : result PlatformError unit :=
  bail_if (¬ is_some_and (λ c, is_ascii_alphanumeric c ∨ c = 95) (head value) ∨ 100 < str_len value ∨
           ¬ Forall (λ c, is_ascii_alphanumeric c ∨ c = 95 ∨ c = 45) value)
    (workflow_error WorkflowInstanceIdInvalid).

Definition validate_workflow_event_type (value : ustr) : result PlatformError unit :=
  match validate_workflow_instance_id value with
  | Ok _ => Ok ()
  | Err _ => Err (workflow_error WorkflowEventTypeInvalid)
  end.

(** The permanent failure vocabulary, as typed codes. *)
Definition terminal_codes : list ErrorCode :=
  [WorkflowExecutionFailed; WorkflowNonDeterministic; WorkflowStepConfigUnsupported;
   WorkflowMethodUnsupported; WorkflowSerializationUnsupported; WorkflowResultTooLarge;
   WorkflowStateQuotaExceeded; WorkflowStepLimitExceeded; ArtifactIntegrityError;
   WorkflowStepTimeout; WorkflowStepRetriesExhausted; WorkflowNonRetryable; WorkflowEventTimeout;
   WorkflowDurationInvalid; WorkflowEventTypeInvalid].
Definition terminal_error_code (c : ErrorCode) : result PlatformError ErrorCode :=
  if decide (c ∈ terminal_codes) then Ok c else Err (workflow_error WorkflowInvariantViolation).

(** ** Local capacity *)

Record WorkflowsConfig := {
  max_in_flight_requests : Z;
  max_steps : Z;
  max_state_bytes : Z;
  max_instances : Z;
  max_instances_per_definition : Z;
  max_active : Z;
  max_total_state_bytes : Z;
  lease_ms : Z;
  heartbeat_ms : Z;
  dispatch_timeout_ms : Z;
  recovery_backoff_ms : Z;
  creation_grace_ms : Z;
  max_parallel_steps : Z;
  max_buffered_events : Z;
  max_event_bytes : Z;
  default_retention : WorkflowRetention;
}.

Definition WorkflowsConfig_default : WorkflowsConfig := {|
  max_in_flight_requests := 64;
  max_steps := 1024;
  max_state_bytes := 32 * 1024 * 1024;
  max_instances := 10000;
  max_instances_per_definition := 10000;
  max_active := 1000;
  max_total_state_bytes := 1024 * 1024 * 1024;
  lease_ms := 60000;
  heartbeat_ms := 20000;
  dispatch_timeout_ms := 300000;
  recovery_backoff_ms := 1000;
  creation_grace_ms := 60000;
  max_parallel_steps := 4;
  max_buffered_events := 128;
  max_event_bytes := 8 * 1024 * 1024;
  default_retention := WorkflowRetention_default;
|}.

Definition WorkflowsConfig_validate (c : WorkflowsConfig) : result PlatformError unit :=
  _ ← WorkflowRetention_validate c.(default_retention);
  bail_if
    (c.(max_in_flight_requests) = 0 ∨ c.(max_in_flight_requests) > 512 ∨
     c.(max_steps) = 0 ∨ c.(max_steps) > 1024 ∨
     c.(max_state_bytes) < WORKFLOW_VALUE_MAX_BYTES ∨ c.(max_state_bytes) > 1024 * 1024 * 1024 ∨
     c.(max_instances) = 0 ∨ c.(max_instances) > 1000000 ∨
     c.(max_instances_per_definition) = 0 ∨ c.(max_instances_per_definition) > c.(max_instances) ∨
     c.(max_active) = 0 ∨ c.(max_active) > c.(max_instances) ∨
     c.(max_total_state_bytes) < c.(max_state_bytes) ∨
     c.(max_total_state_bytes) > 1024 * 1024 * 1024 * 1024 ∨
     c.(heartbeat_ms) = 0 ∨ c.(lease_ms) > 300000 ∨
     c.(heartbeat_ms) >= c.(lease_ms) / 2 ∨ c.(lease_ms) / 2 >= c.(dispatch_timeout_ms) ∨
     c.(dispatch_timeout_ms) > 3600000 ∨
     c.(recovery_backoff_ms) = 0 ∨ c.(recovery_backoff_ms) > 60000 ∨
     c.(creation_grace_ms) = 0 ∨ c.(creation_grace_ms) > 300000 ∨
     ¬ (1 ≤ c.(max_parallel_steps) ≤ 16) ∨ ¬ (1 ≤ c.(max_buffered_events) ≤ 128) ∨
     ¬ (1 ≤ c.(max_event_bytes) ≤ 8 * 1024 * 1024))
    (workflow_error LimitInvalid).

(** ** Step descriptors *)

Definition WORKFLOW_INSTANCE_BYTES : Z := 256.
Definition WORKFLOW_STEP_BYTES : Z := 160.
Definition WORKFLOW_DEPENDENCY_BYTES : Z := 16.
Definition WORKFLOW_EVENT_BYTES : Z := 32.

#[export] Instance WorkflowBackoff_eq_dec : EqDecision WorkflowBackoff.
Proof. solve_decision. Defined.
#[export] Instance WorkflowStepSensitivity_eq_dec : EqDecision WorkflowStepSensitivity.
Proof. solve_decision. Defined.
#[export] Instance WorkflowRetryPolicy_eq_dec : EqDecision WorkflowRetryPolicy.
Proof. solve_decision. Defined.
#[export] Instance WorkflowStepConfig_eq_dec : EqDecision WorkflowStepConfig.
Proof. solve_decision. Defined.
#[export] Instance WorkflowRetention_eq_dec : EqDecision WorkflowRetention.
Proof. solve_decision. Defined.

Inductive WorkflowStepKind : Type := KDo | KSleep | KSleepUntil | KWaitEvent.
#[export] Instance WorkflowStepKind_eq_dec : EqDecision WorkflowStepKind.
Proof. solve_decision. Defined.

Inductive WorkflowDurableConfig : Type :=
| CDo (config : WorkflowStepConfig)
| CSleep (duration : Z)
| CSleepUntil (timestamp : Z)
| CWaitEvent (event_type : ustr) (timeout_ms : Z).
#[export] Instance WorkflowDurableConfig_eq_dec : EqDecision WorkflowDurableConfig.
Proof. solve_decision. Defined.

Definition kind (c : WorkflowDurableConfig) : WorkflowStepKind :=
  match c with
  | CDo _ => KDo
  | CSleep _ => KSleep
  | CSleepUntil _ => KSleepUntil
  | CWaitEvent _ _ => KWaitEvent
  end.

Definition WorkflowDurableConfig_validate (c : WorkflowDurableConfig) : result PlatformError unit :=
  match c with
  | CDo config => WorkflowStepConfig_validate config
  | CSleep duration => bail_if (¬ duration ≤ WORKFLOW_MAX_DURATION_MS) duration_invalid
  | CSleepUntil timestamp => bail_if (¬ Z.abs timestamp ≤ WORKFLOW_MAX_SAFE_INTEGER) duration_invalid
  | CWaitEvent event_type timeout_ms =>
      if decide (timeout_ms ≤ WORKFLOW_MAX_DURATION_MS) then validate_workflow_event_type event_type
      else Err duration_invalid
  end.

(** [serde_json::to_value(config)]: absent options are skipped, keys are sorted. *)
Definition backoff_text (b : WorkflowBackoff) : ustr :=
  lit match b with Constant => "constant" | Linear => "linear" | Exponential => "exponential" end.
Definition step_config_fields (c : WorkflowStepConfig) : list (string * Json) :=
  [("retries"%string, JObj ([("backoff"%string, JStr (backoff_text c.(retries).(backoff)))] ++
     match c.(retries).(delay) with Some d => [("delay"%string, JInt d)] | None => [] end ++
     [("limit"%string, JInt c.(retries).(limit))]))] ++
  match c.(sensitive) with Some Output => [("sensitive"%string, JStr (lit "output"))] | None => [] end ++
  [("timeout"%string, JInt c.(timeout))].

Definition canonical_value (c : WorkflowDurableConfig) : list (string * Json) :=
  match c with
  | CDo config => step_config_fields config
  | CSleep duration => [("durationMs"%string, JInt duration)]
  | CSleepUntil timestamp => [("timestampMs"%string, JInt timestamp)]
  | CWaitEvent event_type timeout_ms => [("timeoutMs"%string, JInt timeout_ms); ("type"%string, JStr event_type)]
  end.

(** Canonical replay identity, including immutable batch and dependency shape. *)
Record WorkflowStepDescriptor := {
  ordinal : Z;
  name : ustr;
  name_count : Z;
  config : WorkflowDurableConfig;
  rollback_config : option WorkflowStepConfig;
  rollback_step : bool;
  dependencies : list Z;
  batch_first_ordinal : Z;
  batch_size : Z;
}.
#[export] Instance WorkflowStepDescriptor_eq_dec : EqDecision WorkflowStepDescriptor.
Proof. solve_decision. Defined.

(** [windows(2).any(|pair| pair[0] >= pair[1])] is false. *)
Fixpoint increasing (l : list Z) : Prop :=
  match l with
  | x :: (y :: _) as l => x < y ∧ increasing l
  | _ => True
  end.
#[export] Instance increasing_dec l : Decision (increasing l).
Proof.
  induction l as [|x l IH]; [left; done|]. destruct l as [|y l]; [left; done|].
  cbn -[increasing]. change (Decision (x < y ∧ increasing (y :: l))). apply _.
Defined.

Definition WorkflowStepDescriptor_validate (d : WorkflowStepDescriptor) : result PlatformError unit :=
  _ ← WorkflowDurableConfig_validate d.(config);
  _ ← match d.(rollback_config) with
      | Some c =>
          _ ← bail_if (kind d.(config) ≠ KDo ∨ d.(rollback_step) = true) policy_unsupported;
          WorkflowStepConfig_validate c
      | None => Ok ()
      end;
  _ ← bail_if (d.(rollback_step) = true ∧ kind d.(config) ≠ KDo) policy_unsupported;
  _ ← bail_if (1024 ≤ d.(ordinal)) (workflow_error WorkflowStepLimitExceeded);
  _ ← bail_if (d.(name) = [] ∨ str_len d.(name) > 256 ∨ d.(name_count) = 0)
        (workflow_error WorkflowSerializationUnsupported);
  _ ← bail_if (d.(batch_size) = 0 ∨ d.(batch_size) > 16 ∨ (16 < length d.(dependencies))%nat)
        (workflow_error WorkflowStepLimitExceeded);
  let end_ := d.(batch_first_ordinal) + d.(batch_size) in
  bail_if (d.(batch_first_ordinal) > d.(ordinal) ∨
           end_ > u32_max ∨ end_ ≤ d.(ordinal) ∨ end_ > 1024 ∨
           ¬ increasing d.(dependencies) ∨
           is_some_and (λ parent, d.(batch_first_ordinal) ≤ parent) (last d.(dependencies)) ∨
           (d.(batch_first_ordinal) = 0 ∧ d.(dependencies) ≠ []))
    (workflow_error WorkflowSerializationUnsupported).

(** Canonical persisted policy, including rollback registration identity.  The keys of
    a rollback registration sort between the ones of the callback policy. *)
Definition canonical_config_json (d : WorkflowStepDescriptor) : ustr :=
  let rollback :=
    match d.(rollback_config) with
    | Some c => [("rollbackConfig"%string, JObj (step_config_fields c))]
    | None => []
    end ++ [("rollbackStep"%string, JBool d.(rollback_step))] in
  json_text (JObj
    match d.(config) with
    | CDo c => take 1 (step_config_fields c) ++ rollback ++ drop 1 (step_config_fields c)
    | CSleep _ => canonical_value d.(config) ++ rollback
    | CSleepUntil _ | CWaitEvent _ _ => rollback ++ canonical_value d.(config)
    end).

(** Exact retained descriptor and edge bytes. *)
Definition descriptor_bytes (d : WorkflowStepDescriptor) : Z :=
  WORKFLOW_STEP_BYTES + str_len d.(name) + str_len (canonical_config_json d) +
  WORKFLOW_DEPENDENCY_BYTES * Z.of_nat (length d.(dependencies)).
Definition state_bytes_of (d : WorkflowStepDescriptor) : result PlatformError Z :=
  _ ← WorkflowStepDescriptor_validate d;
  Ok (descriptor_bytes d).

(** ** Durable values and event envelopes *)

Section codec.
Context `{Codec}.

Definition HEADER : list Z := [79; 67; 68; 86; 1; 2].

Definition durable_value_bytes (input : ustr) (size_error : ErrorCode) : result PlatformError (list Z) :=
  _ ← bail_if (str_len input > 1398112 ∨ str_len input mod 4 ≠ 0) (workflow_error size_error);
  bytes ← ok_or_else (base64_decode input) (workflow_error WorkflowSerializationUnsupported);
  _ ← bail_if (Z.of_nat (length bytes) > WORKFLOW_VALUE_MAX_BYTES) (workflow_error size_error);
  _ ← bail_if (take 6 bytes ≠ HEADER ∨ base64_encode bytes ≠ input)
        (workflow_error WorkflowSerializationUnsupported);
  Ok bytes.

Definition durable_value_base64 (input : ustr) (size_error : ErrorCode) : result PlatformError ustr :=
  _ ← durable_value_bytes input size_error;
  Ok input.

Record WorkflowEventEnvelope := {
  event_type : ustr;
  payload_base64 : ustr;
  timestamp_ms : Z;
}.
#[export] Instance WorkflowEventEnvelope_eq_dec : EqDecision WorkflowEventEnvelope.
Proof. solve_decision. Defined.

Definition WORKFLOW_EVENT_ENVELOPE_MAX_BYTES : Z := WORKFLOW_VALUE_MAX_BYTES * 4 / 3 + 2048.

(** [serde_json::to_string(self)], in field order *)
Definition envelope_text (e : WorkflowEventEnvelope) : ustr :=
  json_text (JObj [("type"%string, JStr e.(event_type)); ("payloadBase64"%string, JStr e.(payload_base64));
                   ("timestampMs"%string, JInt e.(timestamp_ms))]).

Definition canonical_wire (e : WorkflowEventEnvelope) : result PlatformError ustr :=
  _ ← validate_workflow_event_type e.(event_type);
  _ ← bail_if (Z.abs e.(timestamp_ms) > WORKFLOW_MAX_SAFE_INTEGER) duration_invalid;
  _ ← durable_value_base64 e.(payload_base64) WorkflowPayloadTooLarge;
  _ ← bail_if (str_len (envelope_text e) > WORKFLOW_EVENT_ENVELOPE_MAX_BYTES)
        (workflow_error WorkflowResultTooLarge);
  Ok (envelope_text e).

(** ** Identities *)

(** A 256-bit private fence; only equality is used. *)
Definition WorkflowToken : Type := N.

Record WorkflowFence := {
  f_instance_id : N;
  f_instance_generation : Z;
  f_run_token : WorkflowToken;
}.

Record WorkflowCronSchedule := { cron : ustr; scheduled_time : Z }.
#[export] Instance WorkflowCronSchedule_eq_dec : EqDecision WorkflowCronSchedule.
Proof. solve_decision. Defined.

Record WorkflowTarget := {
  t_instance_id : N;
  definition_id : N;
  definition_name : ustr;
  workflow_version_id : N;
  worker_id : N;
  worker_version_id : N;
  worker_code_sha256 : list Z;
  class_name : ustr;
  loader_schema_version : Z;
  capability_version : Z;
  descriptor_sha256 : list Z;
}.
#[export] Instance WorkflowTarget_eq_dec : EqDecision WorkflowTarget.
Proof. solve_decision. Defined.

Record WorkflowInstanceIdentity := {
  instance_id : N;
  external_instance_id : ustr;
  target : WorkflowTarget;
  instance_generation : Z;
  creation_nonce : N;
  creation_operation_id : N;
  creation_batch_id : N;
  created_at_ms : Z;
  schedule : option WorkflowCronSchedule;
}.
#[export] Instance WorkflowInstanceIdentity_eq_dec : EqDecision WorkflowInstanceIdentity.
Proof. solve_decision. Defined.

Definition storage_error (c : ErrorCode) : PlatformError :=
  platform_error c "Workflow operation failed".
Definition violation : PlatformError := storage_error WorkflowInvariantViolation.

(** The frozen version descriptor; the display name is not part of it. *)
Definition version_digest (t : WorkflowTarget) : result PlatformError (list Z) :=
  _ ← bail_if (t.(capability_version) ≠ 1) violation;
  Ok (sha256 (json_text (JObj
    [("capabilityVersion"%string, JInt t.(capability_version));
     ("className"%string, JStr t.(class_name));
     ("definitionId"%string, JStr (uuid_text t.(definition_id)));
     ("instanceId"%string, JStr (uuid_text t.(t_instance_id)));
     ("loaderSchemaVersion"%string, JInt t.(loader_schema_version));
     ("schemaVersion"%string, JInt 2);
     ("workerCodeSha256"%string, JStr (hex_text t.(worker_code_sha256)));
     ("workerId"%string, JStr (uuid_text t.(worker_id)));
     ("workerVersionId"%string, JStr (uuid_text t.(worker_version_id)));
     ("workflowVersionId"%string, JStr (uuid_text t.(workflow_version_id)))]))).
End codec.

(** ** Restart selectors *)

Inductive WorkflowRestartStepType : Type := RestartDo | RestartSleep | RestartWaitForEvent.
#[export] Instance WorkflowRestartStepType_eq_dec : EqDecision WorkflowRestartStepType.
Proof. solve_decision. Defined.

Definition restart_matches (t : WorkflowRestartStepType) (k : WorkflowStepKind) : bool :=
  match t, k with
  | RestartDo, KDo | RestartSleep, KSleep | RestartSleep, KSleepUntil
  | RestartWaitForEvent, KWaitEvent => true
  | _, _ => false
  end.

Record WorkflowRestartSelector := {
  sel_name : ustr;
  sel_count : Z;
  step_type : option WorkflowRestartStepType;
}.
#[export] Instance WorkflowRestartSelector_eq_dec : EqDecision WorkflowRestartSelector.
Proof. solve_decision. Defined.

Definition WorkflowRestartSelector_validate (s : WorkflowRestartSelector) : result PlatformError unit :=
  bail_if (s.(sel_name) = [] ∨ str_len s.(sel_name) > 256 ∨ s.(sel_count) = 0 ∨ s.(sel_count) > 1024)
    (workflow_error WorkflowMethodUnsupported).
