(* ===== verification/WorkflowDb.v ===== *)
(** * The workflow tables

    [workflow_instances] and the tables below it, with the constraints and triggers of
    [refinery-migrations/control/V21__scheduler_tables.sql] and
    [V24__workflow_retention_milliseconds.sql].  A step, an edge and an event refer to the
    current generation of their instance, so each instance keeps its own rows; a step's
    edges are the [dependencies] of its descriptor, and the registration frontier makes
    its position in the table its ordinal.  Columns holding canonical JSON are kept
    decoded.  [workflow_mutation_context] has a row only inside the transaction of a restart
    or purge: it is an argument of the statements that run there. *)

From stdpp Require Import base numbers list option strings sorting gmap.
From S2P Require Import Prelude Text ErrorCodes Duration RetryPolicy WorkflowTypes Sql.

Local Open Scope Z_scope.

(** ** Rows *)

Inductive WorkflowState : Type :=
| WQueued | WRunning | WWaiting | WPaused | WComplete | WErrored | WTerminated.
#[export] Instance WorkflowState_eq_dec : EqDecision WorkflowState.
Proof. solve_decision. Defined.

Definition is_terminal (s : WorkflowState) : bool :=
  match s with WComplete | WErrored | WTerminated => true | _ => false end.

(** [run_token], [run_claimed_at_ms] and [run_lease_until_ms], which are null together. *)
Record RunLease := { run_token : WorkflowToken; run_claimed_at_ms : Z; run_lease_until_ms : Z }.
#[export] Instance RunLease_eq_dec : EqDecision RunLease.
Proof. solve_decision. Defined.

(** The columns projected from the rows below an instance. *)
Record Accounting := {
  registered_step_count : Z;
  settled_step_count : Z;
  completed_step_count : Z;
  event_count : Z;
  event_bytes : Z;
  next_wake_at_ms : option Z;
  state_bytes : Z;
}.
#[export] Instance Accounting_eq_dec : EqDecision Accounting.
Proof. solve_decision. Defined.

Record InstanceRow := {
  identity : WorkflowInstanceIdentity;
  input_json : ustr;
  retention : WorkflowRetention;
  state : WorkflowState;
  output_json : option ustr;
  error_json : option ustr;
  error_code : option ErrorCode;
  next_run_at_ms : option Z;
  run : option RunLease;
  updated_at_ms : Z;
  terminal_at_ms : option Z;
  expires_at_ms : option Z;
  pause_requested : bool;
  yield_requested : bool;
  rollback_requested : bool;
  last_restart_operation_id : option N;
  last_restart_from : option WorkflowRestartSelector;
  last_restart_target_ordinal : option Z;
  acct : Accounting;
  next_event_seq : Z;
  has_activated : bool;
}.

Inductive StepState : Type :=
| SPending | SRunning | SDelayPending | SRetryWait | SWaiting | SComplete | SFailed | SCancelled.
#[export] Instance StepState_eq_dec : EqDecision StepState.
Proof. solve_decision. Defined.

Definition step_settled (s : StepState) : bool :=
  match s with SComplete | SFailed => true | _ => false end.
Definition unfinished (s : StepState) : bool :=
  match s with SComplete | SFailed | SCancelled => false | _ => true end.
(** [state IN ('pending','running','delay_pending','waiting')]: a reserved failure *)
Definition reserves (s : StepState) : bool :=
  match s with SPending | SRunning | SDelayPending | SWaiting => true | _ => false end.

(** [output_json]: a callback's value or the envelope of a consumed event *)
Inductive StepOutput : Type := OutValue (s : ustr) | OutEvent (e : WorkflowEventEnvelope).
#[export] Instance StepOutput_eq_dec : EqDecision StepOutput.
Proof. solve_decision. Defined.
Definition output_text (o : StepOutput) : ustr :=
  match o with OutValue s => s | OutEvent e => envelope_text e end.

Record Step := {
  descriptor : WorkflowStepDescriptor;
  s_state : StepState;
  attempt : Z;
  s_run_token : option WorkflowToken;
  s_step_token : option WorkflowToken;
  s_output : option StepOutput;
  s_error_json : option ustr;
  s_error_code : option ErrorCode;
  started_at_ms : Z;
  s_updated_at_ms : Z;
  completed_at_ms : option Z;
  attempt_started_at_ms : option Z;
  attempt_deadline_at_ms : option Z;
  due_at_ms : option Z;
  retry_delay_ms : option Z;
  cancelled_at_ms : option Z;
  event_buffer_ceiling : option Z;
  consumed_event_seq : option Z;
}.

Definition s_kind (s : Step) : WorkflowStepKind := kind s.(descriptor).(config).

Record Event := {
  event_seq : Z;
  e_type : ustr;
  e_payload : ustr;
  accepted_at_ms : Z;
  logical_bytes : Z;
}.

Record Workflow := { row : InstanceRow; steps : list Step; events : list Event }.

(** A row of [workflow_event_receipts], by its operation. *)
Record EventReceipt := {
  r_instance : N;
  r_generation : Z;
  r_type : ustr;
  r_payload_sha256 : list Z;
  r_accepted_at_ms : Z;
}.

Inductive WorkflowOperationKind : Type := Restart | Purge.
#[export] Instance WorkflowOperationKind_eq_dec : EqDecision WorkflowOperationKind.
Proof. solve_decision. Defined.

(** The control half of an instance. *)
Inductive WorkflowRefState : Type := Creating | Live | Retained | Restarting | Releasing | Released.
#[export] Instance WorkflowRefState_eq_dec : EqDecision WorkflowRefState.
Proof. solve_decision. Defined.

(** A row of [workflow_operation_progress], by its instance; [p_error_code] is null when
    the operation was applied. *)
Record Progress := {
  p_operation : N;
  p_sequence : Z;
  p_nonce : N;
  p_expected_generation : Z;
  p_target_generation : Z;
  p_kind : WorkflowOperationKind;
  p_restart_from : option WorkflowRestartSelector;
  p_restart_target : option Z;
  p_error_code : option ErrorCode;
  p_decided_at_ms : Z;
}.

(** A row of [workflow_gc_receipts], by its instance. *)
Record GcReceipt := {
  g_operation : N;
  g_nonce : N;
  g_creation_operation : N;
  g_generation : Z;
  g_deleted_at_ms : Z;
}.

Record WorkflowDb := {
  owner : N;
  workflows : gmap N Workflow;
  receipts : gmap N EventReceipt;
  progress : gmap N Progress;
  gc_receipts : gmap N GcReceipt;
  wf_wake : Z;
}.

(** A row of [workflow_mutation_context] of a restart. *)
Record RestartContext := {
  x_operation : N;
  x_target_generation : Z;
  x_from : option WorkflowRestartSelector;
  x_target_ordinal : option Z;
  x_retain : Z;
  x_next_event_seq : Z;
}.

(** ** Accounting *)

Definition failure_json : ustr :=
  json_text (JObj [("name"%string, JStr (lit "Error"));
                   ("message"%string, JStr (lit "Workflow execution failed"))]).

Definition opt_len (s : option ustr) : Z := from_option str_len 0 s.
Definition opt_min (a b : option Z) : option Z :=
  match a, b with
  | Some x, Some y => Some (Z.min x y)
  | None, b => b
  | a, None => a
  end.

Definition initial_state_bytes (i : WorkflowInstanceIdentity) (input_bytes : Z) : Z :=
  input_bytes + WORKFLOW_INSTANCE_BYTES + str_len i.(target).(definition_name) +
  str_len i.(external_instance_id) + str_len i.(target).(class_name) +
  from_option (λ c, str_len c.(cron) + 16) 0 i.(schedule).

(** The deadline of a row: [MIN(CASE WHEN ..)] skips the rows without one. *)
Definition step_wake (s : Step) : option Z :=
  match s.(s_state) with
  | SPending | SRunning => s.(attempt_deadline_at_ms)
  | SDelayPending => Some s.(s_updated_at_ms)
  | SWaiting | SRetryWait => s.(due_at_ms)
  | _ => None
  end.
Definition earliest (ss : list Step) : option Z := foldr (λ s m, opt_min (step_wake s) m) None ss.

Definition step_bytes (s : Step) : Z :=
  descriptor_bytes s.(descriptor) + opt_len (output_text <$> s.(s_output)) + opt_len s.(s_error_json).

Definition count (P : Step → Prop) `{!∀ s, Decision (P s)} (ss : list Step) : Z :=
  Z.of_nat (length (filter P ss)).

(** [workflow_accounting] *)
Definition accounting (w : Workflow) : Accounting := {|
  registered_step_count := Z.of_nat (length w.(steps));
  settled_step_count := count (λ s, step_settled s.(s_state) = true) w.(steps);
  completed_step_count := count (λ s, s.(s_state) = SComplete) w.(steps);
  event_count := Z.of_nat (length w.(events));
  event_bytes := sql_sum logical_bytes w.(events);
  next_wake_at_ms := earliest w.(steps);
  state_bytes := initial_state_bytes w.(row).(identity) (str_len w.(row).(input_json)) +
    opt_len w.(row).(output_json) + opt_len w.(row).(error_json) +
    sql_sum step_bytes w.(steps) + sql_sum logical_bytes w.(events);
|}.

(** ** Constraints *)

(** The lease columns of each state. *)
Definition lease_check (i : InstanceRow) : Prop :=
  match i.(state) with
  | WQueued => is_Some i.(next_run_at_ms) ∧ i.(run) = None ∧ i.(terminal_at_ms) = None
  | WRunning => i.(next_run_at_ms) = None ∧ i.(terminal_at_ms) = None ∧
      is_some_and (λ r, r.(run_claimed_at_ms) < r.(run_lease_until_ms)) i.(run)
  | WWaiting | WPaused => i.(next_run_at_ms) = None ∧ i.(run) = None ∧ i.(terminal_at_ms) = None
  | _ => i.(next_run_at_ms) = None ∧ i.(run) = None ∧ is_Some i.(terminal_at_ms) ∧
      i.(acct).(next_wake_at_ms) = None
  end.

Definition expiry_check (i : InstanceRow) : Prop :=
  match i.(terminal_at_ms), i.(expires_at_ms) with
  | None, None => True
  | Some t, Some e => e ≤ WORKFLOW_MAX_SAFE_INTEGER ∧
      e = t + (if decide (i.(state) = WComplete) then i.(retention).(success_retention_ms)
               else i.(retention).(error_retention_ms))
  | _, _ => False
  end.

Definition marker_check (i : InstanceRow) : Prop :=
  match i.(last_restart_operation_id), i.(last_restart_from), i.(last_restart_target_ordinal) with
  | None, None, None | Some _, None, None => True
  | Some _, Some f, Some t =>
      1 ≤ str_len f.(sel_name) ≤ 256 ∧ 1 ≤ f.(sel_count) ≤ 1024 ∧ 0 ≤ t ≤ 1023
  | _, _, _ => False
  end.

(** The [CHECK] constraints of [workflow_instances]. *)
Definition instance_check (i : InstanceRow) : Prop :=
  lease_check i ∧ expiry_check i ∧ marker_check i ∧
  (i.(state) = WComplete ↔ is_Some i.(output_json)) ∧
  (i.(state) = WErrored ↔ is_Some i.(error_json)) ∧
  (i.(state) = WErrored ↔ is_Some i.(error_code)) ∧
  (i.(state) = WRunning ∨ (i.(pause_requested) = false ∧ i.(yield_requested) = false)) ∧
  (is_terminal i.(state) = true → i.(rollback_requested) = false) ∧
  1 ≤ i.(identity).(instance_generation) ∧ i.(identity).(target).(capability_version) = 1 ∧
  0 < i.(identity).(target).(loader_schema_version) ∧
  str_len i.(input_json) ≤ 1398112 ∧ opt_len i.(output_json) ≤ 1398112 ∧ opt_len i.(error_json) ≤ 8192 ∧
  0 ≤ i.(retention).(success_retention_ms) ≤ 31536000000 ∧
  0 ≤ i.(retention).(error_retention_ms) ≤ 31536000000 ∧
  0 ≤ i.(acct).(completed_step_count) ≤ i.(acct).(settled_step_count) ∧
  i.(acct).(settled_step_count) ≤ i.(acct).(registered_step_count) ≤ 1024 ∧
  0 ≤ i.(acct).(event_count) ∧ 0 ≤ i.(acct).(event_bytes) ∧ 0 ≤ i.(acct).(state_bytes) ∧
  1 ≤ i.(next_event_seq).

#[export] Instance lease_check_dec i : Decision (lease_check i).
Proof. unfold lease_check. destruct (state i); apply _. Defined.
#[export] Instance expiry_check_dec i : Decision (expiry_check i).
Proof. unfold expiry_check. destruct (terminal_at_ms i), (expires_at_ms i); apply _. Defined.
#[export] Instance marker_check_dec i : Decision (marker_check i).
Proof.
  unfold marker_check.
  destruct (last_restart_operation_id i), (last_restart_from i), (last_restart_target_ordinal i); apply _.
Defined.
#[export] Instance instance_check_dec i : Decision (instance_check i).
Proof. unfold instance_check. apply _. Defined.

(** The [CHECK] constraints of [workflow_steps] on the columns a statement changes. *)
Definition step_check (s : Step) : Prop :=
  (is_Some s.(s_run_token) ↔ s.(s_state) = SRunning) ∧
  (is_Some s.(s_step_token) ↔ s.(s_state) = SRunning) ∧
  (s.(s_state) = SRunning → s_kind s = KDo) ∧
  (is_Some s.(completed_at_ms) ↔ step_settled s.(s_state) = true) ∧
  (is_Some s.(cancelled_at_ms) ↔ s.(s_state) = SCancelled) ∧
  (is_Some s.(due_at_ms) ↔ s.(s_state) = SRetryWait ∨ s.(s_state) = SWaiting) ∧
  (is_Some s.(retry_delay_ms) ↔ s.(s_state) = SRetryWait) ∧
  is_none_or (λ d, 0 ≤ d ≤ 86400000 ∧ s.(due_at_ms) = Some (s.(s_updated_at_ms) + d)) s.(retry_delay_ms) ∧
  (s.(s_state) = SRetryWait → s_kind s = KDo ∧ is_Some s.(s_error_json) ∧ is_Some s.(s_error_code)) ∧
  (s.(s_state) = SWaiting → s_kind s ≠ KDo) ∧
  (s.(s_state) = SFailed → is_Some s.(s_error_json) ∧ is_Some s.(s_error_code)) ∧
  (s.(s_state) = SFailed ∨ s.(s_state) = SDelayPending ∨ s.(s_state) = SRetryWait ∨
     (s.(s_error_json) = None ∧ s.(s_error_code) = None)) ∧
  (is_Some s.(s_output) ↔ s.(s_state) = SComplete ∧ (s_kind s = KDo ∨ s_kind s = KWaitEvent)) ∧
  opt_len (output_text <$> s.(s_output)) ≤ (if decide (s_kind s = KWaitEvent) then 1400160 else 1398112) ∧
  opt_len s.(s_error_json) ≤ 8192 ∧
  0 ≤ s.(attempt) ≤ 101 ∧ (s_kind s = KDo ∨ s.(attempt) = 0) ∧
  (s.(attempt_started_at_ms) = None ↔ s.(attempt_deadline_at_ms) = None) ∧
  is_none_or (λ d, is_some_and (λ t, t < d) s.(attempt_started_at_ms)) s.(attempt_deadline_at_ms) ∧
  is_none_or (λ c, s_kind s = KWaitEvent ∧ 0 ≤ c) s.(event_buffer_ceiling) ∧
  is_none_or (λ c, s_kind s = KWaitEvent ∧ s.(s_state) = SComplete ∧ 1 ≤ c) s.(consumed_event_seq) ∧
  (s_kind s ≠ KDo ∨
     (s.(attempt) = 0 ∧ (s.(s_state) = SPending ∨ s.(s_state) = SCancelled) ∧ s.(attempt_started_at_ms) = None) ∨
     (1 ≤ s.(attempt) ∧ is_Some s.(attempt_started_at_ms))) ∧
  (s_kind s = KDo ∨ (s.(attempt_started_at_ms) = None ∧
     (s.(s_state) = SWaiting ∨ s.(s_state) = SComplete ∨ s.(s_state) = SFailed ∨ s.(s_state) = SCancelled))) ∧
  (s_kind s = KWaitEvent → is_Some s.(event_buffer_ceiling) ∧
     (s.(s_state) = SComplete → is_Some s.(consumed_event_seq))).
#[export] Instance step_check_dec s : Decision (step_check s).
Proof. unfold step_check. apply _. Defined.

(** The constraints on the immutable columns of a registered step. *)
Definition descriptor_check (d : WorkflowStepDescriptor) : Prop :=
  0 ≤ d.(ordinal) ≤ 1023 ∧ 1 ≤ str_len d.(name) ≤ 256 ∧ 0 < d.(name_count) ∧
  str_len (canonical_config_json d) ≤ 4096 ∧ 1 ≤ d.(batch_size) ≤ 16 ∧
  0 ≤ d.(batch_first_ordinal) ≤ 1023 ∧ (length d.(dependencies) ≤ 16)%nat ∧
  d.(batch_first_ordinal) ≤ d.(ordinal) < d.(batch_first_ordinal) + d.(batch_size) ∧
  d.(batch_first_ordinal) + d.(batch_size) ≤ 1024.
#[export] Instance descriptor_check_dec d : Decision (descriptor_check d).
Proof. unfold descriptor_check. apply _. Defined.

(** ** Triggers on instances *)

(** [workflow_instance_transition_guard] *)
Definition instance_transition (o n : WorkflowState) : bool :=
  match o, n with
  | WQueued, (WRunning | WPaused | WTerminated)
  | WRunning, (WQueued | WWaiting | WPaused | WComplete | WErrored | WTerminated)
  | WWaiting, (WQueued | WPaused | WTerminated)
  | WPaused, (WQueued | WWaiting | WTerminated) => true
  | o, n => bool_decide (o = n)
  end.

(** [workflow_instance_frontier_guard] *)
Definition frontier_ok (ss : list Step) (n : InstanceRow) : Prop :=
  (n.(state) ≠ WRunning → Forall (λ s, s.(s_state) ≠ SRunning) ss) ∧
  (n.(state) = WComplete → n.(acct).(settled_step_count) = n.(acct).(registered_step_count)) ∧
  (is_terminal n.(state) = true →
     Forall (λ s, s.(s_state) ≠ SPending ∧ s.(s_state) ≠ SDelayPending ∧
                  s.(s_state) ≠ SWaiting ∧ s.(s_state) ≠ SRetryWait) ss) ∧
  (n.(state) = WWaiting → is_Some n.(acct).(next_wake_at_ms) ∧
     Forall (λ s, s.(s_state) ≠ SPending ∧ s.(s_state) ≠ SDelayPending) ss).
#[export] Instance frontier_ok_dec ss n : Decision (frontier_ok ss n).
Proof. unfold frontier_ok. apply _. Defined.

(** [workflow_instance_run_guard] *)
Definition run_ok (o n : InstanceRow) : Prop :=
  (o.(state) = WRunning → n.(state) = WRunning →
     match o.(run), n.(run) with
     | Some r, Some r' => r.(run_token) = r'.(run_token) ∧ r.(run_claimed_at_ms) = r'.(run_claimed_at_ms) ∧
         r.(run_lease_until_ms) ≤ r'.(run_lease_until_ms)
     | _, _ => True
     end ∧ (o.(pause_requested) = true → n.(pause_requested) = true) ∧
     (o.(yield_requested) = true → n.(yield_requested) = true)) ∧
  (o.(state) = WRunning → n.(state) = WQueued ∨ n.(state) = WWaiting ∨ n.(state) = WPaused →
     is_none_or (λ r, r.(run_lease_until_ms) ≤ n.(updated_at_ms)) o.(run) ∨
     o.(yield_requested) = true ∨ o.(pause_requested) = true ∨ n.(rollback_requested) = true) ∧
  (o.(state) = WRunning → is_terminal n.(state) = true →
     is_none_or (λ r, n.(updated_at_ms) < r.(run_lease_until_ms)) o.(run)) ∧
  (n.(state) = WRunning → n.(has_activated) = true).
#[export] Instance run_ok_dec o n : Decision (run_ok o n).
Proof. unfold run_ok. destruct (run o), (run n); apply _. Defined.

(** [workflow_generation_guard], for the statement of a restart *)
Definition generation_ok (c : RestartContext) (n : InstanceRow) : Prop :=
  n.(identity).(instance_generation) = c.(x_target_generation) ∧
  n.(last_restart_operation_id) = Some c.(x_operation) ∧ n.(last_restart_from) = c.(x_from) ∧
  n.(last_restart_target_ordinal) = c.(x_target_ordinal) ∧ n.(state) = WQueued ∧
  n.(acct).(registered_step_count) = 0 ∧ n.(acct).(event_count) = 0 ∧
  n.(next_event_seq) = c.(x_next_event_seq) ∧ n.(has_activated) = bool_decide (0 < c.(x_retain)).
#[export] Instance generation_ok_dec c n : Decision (generation_ok c n).
Proof. unfold generation_ok. apply _. Defined.

(** The guards of an [UPDATE workflow_instances]; [sets_state] says whether the
    statement names the [state] column. *)
Definition instance_guards (sets_state : bool) (w : Workflow) (n : InstanceRow) : Prop :=
  let o := w.(row) in
  instance_check n ∧
  n.(acct) = accounting {| w with row := n |} ∧
  run_ok o n ∧
  is_terminal o.(state) = false ∧
  (sets_state = true → instance_transition o.(state) n.(state) = true ∧ frontier_ok w.(steps) n) ∧
  (n.(next_event_seq) ≠ o.(next_event_seq) → n.(next_event_seq) = o.(next_event_seq) + 1 ∧
     Exists (λ e, e.(event_seq) = o.(next_event_seq)) w.(events)).
#[export] Instance instance_guards_dec b w n : Decision (instance_guards b w n).
Proof. unfold instance_guards. apply _. Defined.

Definition update_instance (sets_state : bool) (f : InstanceRow → InstanceRow) (w : Workflow) : option Workflow :=
  let n := f w.(row) in
  if decide (instance_guards sets_state w n) then Some {| w with row := n |} else None.

(** The [.._accounting] triggers: project the rows below the instance. *)
Definition account (bump : Z) (w : Workflow) : option Workflow :=
  update_instance false
    (λ i, {| i with acct := accounting w; next_event_seq := i.(next_event_seq) + bump |}) w.

(** ** Triggers on steps *)

Definition live (i : InstanceRow) : bool := negb (is_terminal i.(state)).
Definition owns (i : InstanceRow) (t : option WorkflowToken) : Prop :=
  i.(state) = WRunning ∧ run_token <$> i.(run) = t.
Definition lease_after (i : InstanceRow) (now : Z) : Prop :=
  is_some_and (λ r, now < r.(run_lease_until_ms)) i.(run).
#[export] Instance owns_dec i t : Decision (owns i t).
Proof. unfold owns. apply _. Defined.
#[export] Instance lease_after_dec i now : Decision (lease_after i now).
Proof. unfold lease_after. apply _. Defined.

(** [workflow_step_attempt_guard] *)
Definition attempt_ok (o n : Step) : Prop :=
  (n.(attempt) = o.(attempt) ∧ n.(attempt_started_at_ms) = o.(attempt_started_at_ms) ∧
   n.(attempt_deadline_at_ms) = o.(attempt_deadline_at_ms)) ∨
  (n.(s_state) = SRunning ∧ n.(attempt) = o.(attempt) + 1 ∧
   ((o.(s_state) = SPending ∧ o.(attempt) = 0) ∨
    (o.(s_state) = SRetryWait ∧ is_some_and (λ d, d ≤ n.(s_updated_at_ms)) o.(due_at_ms))) ∧
   n.(attempt_started_at_ms) = Some n.(s_updated_at_ms) ∧
   match n.(descriptor).(config) with
   | CDo c => n.(attempt_deadline_at_ms) = Some (n.(s_updated_at_ms) + c.(timeout)) ∧
              n.(attempt) ≤ 1 + c.(retries).(limit)
   | _ => False
   end).
#[export] Instance attempt_ok_dec o n : Decision (attempt_ok o n).
Proof. unfold attempt_ok. destruct (config (descriptor n)); apply _. Defined.

Definition deadline_passed (o n : Step) : Prop :=
  is_some_and (λ d, d ≤ n.(s_updated_at_ms)) o.(attempt_deadline_at_ms).
#[export] Instance deadline_passed_dec o n : Decision (deadline_passed o n).
Proof. unfold deadline_passed. apply _. Defined.

(** [workflow_step_transition_guard] *)
Definition step_transition (i : InstanceRow) (ss : list Step) (o n : Step) : Prop :=
  match o.(s_state), n.(s_state) with
  | (SPending | SRetryWait), SRunning =>
      is_some_and (λ d, n.(s_updated_at_ms) < d) n.(attempt_deadline_at_ms) ∧
      (o.(s_state) = SRetryWait →
         is_some_and (λ d, d ≤ n.(s_updated_at_ms)) o.(due_at_ms) ∧ n.(attempt) = o.(attempt) + 1) ∧
      count (λ s, s.(descriptor).(batch_first_ordinal) = o.(descriptor).(batch_first_ordinal)) ss =
        o.(descriptor).(batch_size) ∧
      owns i n.(s_run_token) ∧ lease_after i n.(s_updated_at_ms) ∧
      i.(pause_requested) = false ∧ i.(yield_requested) = false
  | SRunning, (SComplete | SFailed | SRetryWait) =>
      (n.(s_state) = SComplete → is_some_and (λ d, n.(s_updated_at_ms) < d) o.(attempt_deadline_at_ms)) ∧
      owns i o.(s_run_token) ∧ lease_after i n.(s_updated_at_ms)
  | SRunning, SPending => owns i o.(s_run_token) ∧ ¬ lease_after i n.(s_updated_at_ms)
  | SRunning, SDelayPending =>
      deadline_passed o n ∧ n.(s_error_code) = Some WorkflowStepTimeout ∧ owns i o.(s_run_token)
  | SPending, (SFailed | SRetryWait) => 0 < o.(attempt) ∧ deadline_passed o n ∧ live i = true
  | SPending, SDelayPending =>
      0 < o.(attempt) ∧ deadline_passed o n ∧ n.(s_error_code) = Some WorkflowStepTimeout ∧ live i = true
  | SDelayPending, (SFailed | SRetryWait) => live i = true
  | SWaiting, (SComplete | SFailed) => live i = true
  | (SPending | SRunning | SDelayPending | SWaiting | SRetryWait), SCancelled => live i = true
  | _, _ => False
  end.
#[export] Instance step_transition_dec i ss o n : Decision (step_transition i ss o n).
Proof. unfold step_transition. destruct (s_state o), (s_state n); apply _. Defined.

(** An inbox event a wait may take: in time, or already buffered at registration. *)
Definition eligible (o : Step) (e : Event) : Prop :=
  match o.(descriptor).(config) with
  | CWaitEvent t _ =>
      e.(e_type) = t ∧
      (is_some_and (λ due, e.(accepted_at_ms) < due) o.(due_at_ms) ∨
       is_some_and (λ c, e.(event_seq) ≤ c) o.(event_buffer_ceiling))
  | _ => False
  end.
#[export] Instance eligible_dec o e : Decision (eligible o e).
Proof. unfold eligible. destruct (config (descriptor o)); apply _. Defined.

(** [workflow_wait_settlement_guard] *)
Definition wait_ok (w : Workflow) (o n : Step) : Prop :=
  o.(s_state) = SWaiting →
  match n.(s_state), s_kind o with
  | SComplete, (KSleep | KSleepUntil) => is_none_or (λ due, due ≤ n.(s_updated_at_ms)) o.(due_at_ms)
  | SComplete, KWaitEvent =>
      Exists (λ e, n.(consumed_event_seq) = Some e.(event_seq) ∧ eligible o e ∧
        Forall (λ p, p.(e_type) = e.(e_type) → e.(event_seq) ≤ p.(event_seq)) w.(events) ∧
        Forall (λ s, s.(consumed_event_seq) ≠ Some e.(event_seq)) w.(steps) ∧
        n.(s_output) = Some (OutEvent {| event_type := e.(e_type); payload_base64 := e.(e_payload);
                                         timestamp_ms := e.(accepted_at_ms) |})) w.(events)
  | SFailed, KWaitEvent =>
      is_none_or (λ due, due ≤ n.(s_updated_at_ms)) o.(due_at_ms) ∧
      n.(s_error_code) = Some WorkflowEventTimeout ∧ Forall (λ e, ¬ eligible o e) w.(events)
  | SFailed, _ => False
  | _, _ => True
  end.
#[export] Instance wait_ok_dec w o n : Decision (wait_ok w o n).
Proof. unfold wait_ok. destruct (s_state n), (s_kind o); apply _. Defined.

Definition step_guards (w : Workflow) (o n : Step) : Prop :=
  step_check n ∧ attempt_ok o n ∧ step_transition w.(row) w.(steps) o n ∧ wait_ok w o n.
#[export] Instance step_guards_dec w o n : Decision (step_guards w o n).
Proof. unfold step_guards. apply _. Defined.

(** [UPDATE workflow_steps SET .. WHERE .. AND ordinal=?]: no row, no change. *)
Definition update_step (o : nat) (f : Step → Step) (w : Workflow) : option Workflow :=
  match w.(steps) !! o with
  | None => Some w
  | Some s =>
      if decide (step_guards w s (f s)) then account 0 {| w with steps := <[o := f s]> w.(steps) |}
      else None
  end.

(** [UPDATE workflow_steps SET .. WHERE state IN ..]: row by row. *)
Definition update_steps (P : Step → Prop) `{!∀ s, Decision (P s)} (f : Step → Step) (w : Workflow) :
    option Workflow :=
  foldl (λ acc p, w ← acc; if decide (P p.2) then update_step p.1 f w else Some w)
    (Some w) (imap pair w.(steps)).

(** [workflow_step_insert_guard] of a registration and the dependency guard of its edges. *)
Definition register_ok (w : Workflow) (s : Step) : Prop :=
  let i := w.(row) in let d := s.(descriptor) in
  i.(state) = WRunning ∧ lease_after i s.(s_updated_at_ms) ∧
  i.(pause_requested) = false ∧ i.(yield_requested) = false ∧
  i.(rollback_requested) = d.(rollback_step) ∧ i.(acct).(registered_step_count) = d.(ordinal) ∧
  s.(attempt) = 0 ∧ s.(s_state) = (if decide (s_kind s = KDo) then SPending else SWaiting) ∧
  d.(name_count) = 1 + count (λ p, s_kind p = s_kind s ∧ p.(descriptor).(name) = d.(name)) w.(steps) ∧
  (d.(ordinal) = d.(batch_first_ordinal) ∨
     is_some_and (λ p, p.(descriptor).(batch_size) = d.(batch_size) ∧
                       length p.(descriptor).(dependencies) = length d.(dependencies))
       (w.(steps) !! Z.to_nat d.(batch_first_ordinal))) ∧
  match d.(config) with
  | CDo _ => True
  | CSleep duration => s.(due_at_ms) = Some (s.(started_at_ms) + duration)
  | CSleepUntil timestamp => s.(due_at_ms) = Some timestamp
  | CWaitEvent _ timeout_ms => s.(due_at_ms) = Some (s.(started_at_ms) + timeout_ms) ∧
      s.(event_buffer_ceiling) = Some (i.(next_event_seq) - 1)
  end ∧
  NoDup d.(dependencies) ∧
  Forall (λ p, 0 ≤ p < d.(batch_first_ordinal) ∧
               is_some_and (λ s, step_settled s.(s_state) = true) (w.(steps) !! Z.to_nat p)) d.(dependencies).
#[export] Instance register_ok_dec w s : Decision (register_ok w s).
Proof. unfold register_ok. destruct (config (descriptor s)); apply _. Defined.

Definition insert_step (s : Step) (w : Workflow) : option Workflow :=
  if decide (step_check s ∧ descriptor_check s.(descriptor) ∧ register_ok w s)
  then account 0 {| w with steps := w.(steps) ++ [s] |} else None.

(** ** Events *)

(** [workflow_event_insert_guard] and the constraints of [workflow_events] *)
Definition event_ok (w : Workflow) (e : Event) : Prop :=
  1 ≤ e.(event_seq) ∧ 1 ≤ str_len e.(e_type) ≤ 100 ∧ str_len e.(e_payload) ≤ 1398112 ∧
  e.(logical_bytes) = str_len e.(e_type) + str_len e.(e_payload) + 32 ∧
  Forall (λ c, is_ascii_alphanumeric c ∨ c = 95 ∨ c = 45) e.(e_type) ∧ head e.(e_type) ≠ Some 45 ∧
  live w.(row) = true ∧ w.(row).(next_event_seq) = e.(event_seq) ∧ w.(row).(next_event_seq) < i64_max.
#[export] Instance event_ok_dec w e : Decision (event_ok w e).
Proof. unfold event_ok. apply _. Defined.

Definition insert_event (e : Event) (w : Workflow) : option Workflow :=
  if decide (event_ok w e) then account 1 {| w with events := w.(events) ++ [e] |} else None.

(** [workflow_event_delete_guard] of a consumption *)
Definition delete_event (seq : Z) (w : Workflow) : option Workflow :=
  if decide (Exists (λ e, e.(event_seq) = seq) w.(events)) then
    if decide (Exists (λ s, s_kind s = KWaitEvent ∧ s.(s_state) = SComplete ∧
                            s.(consumed_event_seq) = Some seq) w.(steps))
    then account 0 {| w with events := filter (λ e, e.(event_seq) ≠ seq) w.(events) |}
    else None
  else Some w.

(** ** Statements *)

Abbreviation WM := (M WorkflowDb PlatformError).

Definition set_workflow (id : N) (w : Workflow) (db : WorkflowDb) : WorkflowDb :=
  {| db with workflows := <[id := w]> db.(workflows) |}.
Definition wf_notify (db : WorkflowDb) : WorkflowDb :=
  {| db with wf_wake := u64_wrap (db.(wf_wake) + 1) |}.

(** A statement on the rows of one instance, with the number of instances it matched;
    a constraint or a trigger that aborts it is reported by [sql_error]. *)
Definition execute_on (id : N) (P : Workflow → Prop) `{!∀ w, Decision (P w)}
    (f : Workflow → option Workflow) : WM Z := λ db,
  match db.(workflows) !! id with
  | Some w =>
      if decide (P w) then
        match f w with
        | Some w' => (set_workflow id w' db, Ok 1)
        | None => (db, Err violation)
        end
      else (db, Ok 0)
  | None => (db, Ok 0)
  end.
Definition execute (id : N) (f : Workflow → option Workflow) : WM unit :=
  _ ← execute_on id (λ _, True) f; mret ().
