(* ===== verification/WorkflowRuns.v ===== *)
(** * Workflow runs

    [crates/storage/src/scheduler/workflow/helpers.rs] and [durable_runs.rs]: the run
    fence, capacity, the lease of an activation, its claim, heartbeat, release, recovery
    and terminal commit.  A random token is an argument, absent when the generator fails. *)

From stdpp Require Import base numbers list option strings sorting gmap.
From S2P Require Import Prelude Text ErrorCodes Duration RetryPolicy WorkflowTypes Sql WorkflowDb.

Local Open Scope Z_scope.

(** ** Helpers *)

Definition workflow_deadline (now_ms duration : Z) : result PlatformError Z :=
  d ← ok_or_else (i64_checked duration) (storage_error LimitInvalid);
  ok_or_else (i64_checked (now_ms + d)) (storage_error LimitInvalid).

Definition durable_deadline (now_ms duration : Z) : result PlatformError Z :=
  value ← workflow_deadline now_ms duration;
  _ ← bail_if (Z.abs value > WORKFLOW_MAX_SAFE_INTEGER) (storage_error WorkflowDurationInvalid);
  Ok value.

Definition bounded (limit : Z) : result PlatformError unit :=
  bail_if (limit = 0 ∨ limit > 1000) (storage_error LimitInvalid).

(** What [instance_row] accepts of a stored row. *)
Definition readable (i : InstanceRow) : Prop :=
  i.(identity).(target).(capability_version) = 1 ∧
  WorkflowRetention_validate i.(retention) = Ok () ∧
  is_none_or (λ e, e = failure_json) i.(error_json) ∧
  is_none_or (λ c, c ∈ terminal_codes) i.(error_code).
#[export] Instance unit_result_eq_dec (r : result PlatformError unit) : Decision (r = Ok ()).
Proof. destruct r as [[]|]; [by left|by right]. Defined.
#[export] Instance readable_dec i : Decision (readable i).
Proof. unfold readable. apply _. Defined.
Definition instance_row (w : Workflow) : result PlatformError InstanceRow :=
  _ ← bail_if (¬ readable w.(row)) violation; Ok w.(row).

(** [query_row("{INSTANCE_SELECT} WHERE id=?1 ..")] with further conditions *)
Definition select_instance (id : N) (P : InstanceRow → Prop) `{!∀ i, Decision (P i)} : WM (option InstanceRow) :=
  o ← gets (λ db, w ← db.(workflows) !! id; if decide (P w.(row)) then Some w else None);
  match o with
  | Some w => i ← lift (instance_row w); mret (Some i)
  | None => mret None
  end.

(** The exact live lease of a fence. *)
Definition holds (f : WorkflowFence) (now_ms : Z) (i : InstanceRow) : Prop :=
  i.(identity).(instance_generation) = f.(f_instance_generation) ∧
  owns i (Some f.(f_run_token)) ∧ lease_after i now_ms.
#[export] Instance holds_dec f now i : Decision (holds f now i).
Proof. unfold holds. apply _. Defined.

Definition running (f : WorkflowFence) (now_ms : Z) : WM InstanceRow :=
  o ← select_instance f.(f_instance_id) (holds f now_ms);
  some_or o (storage_error WorkflowRunStale).

(** [SELECT .. FROM workflow_steps WHERE instance_id=?1] *)
Definition steps_of (id : N) : WM (list Step) :=
  gets (λ db, from_option steps [] (db.(workflows) !! id)).

(** *** Capacity *)

Definition reserve : Z := str_len failure_json.

(** Reserved failures of one instance: its own and those of its unfinished steps. *)
Definition reservations (w : Workflow) : Z :=
  (if live w.(row) then 1 else 0) +
  count (λ s, (s_kind s = KDo ∨ s_kind s = KWaitEvent) ∧ reserves s.(s_state) = true) w.(steps).

Definition account_capacity (db : WorkflowDb) : Z * Z :=
  (map_fold (λ _ w n, w.(row).(acct).(state_bytes) + n) 0 db.(workflows),
   map_fold (λ _ w n, reservations w + n) 0 db.(workflows)).

Definition capacity (retained extra : Z) (terminal : bool) (limits : WorkflowsConfig) : WM unit :=
  c ← gets account_capacity;
  let '(total, active) := c in
  let instance_reserve := if terminal || bool_decide (retained = 0) then 0 else reserve in
  let active := u64_saturate (active - (if terminal then 1 else 0)) in
  throw_if (limits.(max_state_bytes) < u64_saturate (u64_saturate (retained + extra) + instance_reserve) ∨
            limits.(max_total_state_bytes) <
              u64_saturate (u64_saturate (total + extra) + u64_saturate (active * reserve)))
    (storage_error WorkflowStateQuotaExceeded).

(** Settlements may use an existing reservation even after capacity is lowered, but may
    not introduce new growth beyond the current policy. *)
Definition capacity_change (id : N) (extra_bytes extra_reservations : Z) (limits : WorkflowsConfig) : WM unit :=
  o ← gets (λ db, db.(workflows) !! id);
  w ← some_or o violation;
  c ← gets account_capacity;
  let change := extra_bytes + extra_reservations * reserve in
  let current := w.(row).(acct).(state_bytes) + reservations w * reserve in
  let account := c.1 + c.2 * reserve in
  _ ← throw_if (current + change < 0) violation;
  _ ← throw_if (0 < change ∧ limits.(max_state_bytes) < current + change)
        (storage_error WorkflowStateQuotaExceeded);
  _ ← throw_if (account + change < 0) violation;
  throw_if (0 < change ∧ limits.(max_total_state_bytes) < account + change)
    (storage_error WorkflowStateQuotaExceeded).

(** *** Leases *)

Definition set_heartbeat (until now_ms : Z) (i : InstanceRow) : InstanceRow :=
  {| i with run := (λ r, {| r with run_lease_until_ms := Z.max r.(run_lease_until_ms) until |}) <$> i.(run);
            updated_at_ms := Z.max i.(updated_at_ms) now_ms |}.

Definition heartbeat (f : WorkflowFence) (now_ms : Z) (limits : WorkflowsConfig) : WM unit :=
  until ← lift (workflow_deadline now_ms limits.(lease_ms));
  changed ← execute_on f.(f_instance_id) (λ w, holds f now_ms w.(row))
              (update_instance false (set_heartbeat until now_ms));
  throw_if (changed ≠ 1) (storage_error WorkflowRunStale).

Definition heartbeat_workflow (f : WorkflowFence) (now_ms : Z) (limits : WorkflowsConfig) : WM unit :=
  _ ← lift (WorkflowsConfig_validate limits);
  heartbeat f now_ms limits.

Definition set_released (st : WorkflowState) (next_run : option Z) (now_ms : Z) (i : InstanceRow) : InstanceRow :=
  {| i with state := st; run := None; pause_requested := false; yield_requested := false;
            next_run_at_ms := next_run; updated_at_ms := now_ms |}.

(** Called inside the owner's transaction after validating the live or expired exact fence. *)
Definition release (i : InstanceRow) (queued_at_ms now_ms : Z) : WM WorkflowState :=
  let id := i.(identity).(instance_id) in
  ss ← steps_of id;
  _ ← throw_if (Exists (λ s, s.(s_state) = SRunning) ss) (storage_error WorkflowInstanceBusy);
  p ← (if i.(pause_requested) then mret (WPaused, None)
       else if decide (Exists (λ s, s.(s_state) = SPending ∨ s.(s_state) = SDelayPending) ss ∨
                       i.(acct).(registered_step_count) = i.(acct).(settled_step_count))
       then mret (WQueued, Some queued_at_ms)
       else if decide (is_Some i.(acct).(next_wake_at_ms)) then mret (WWaiting, None)
       else throw violation);
  r ← some_or i.(run) (storage_error WorkflowRunStale);
  changed ← execute_on id
    (λ w, w.(row).(identity).(instance_generation) = i.(identity).(instance_generation) ∧
          owns w.(row) (Some r.(run_token)))
    (update_instance true (set_released p.1 p.2 now_ms));
  _ ← throw_if (changed ≠ 1) (storage_error WorkflowRunStale);
  mret p.1.

(** ** Admission *)

(** Back off an unclaimable queued identity. *)
Definition defer_workflow (id : N) (now_ms : Z) (limits : WorkflowsConfig) : WM unit :=
  _ ← lift (WorkflowsConfig_validate limits);
  until ← lift (workflow_deadline now_ms limits.(recovery_backoff_ms));
  _ ← execute_on id
    (λ w, w.(row).(state) = WQueued ∧ is_some_and (λ t, t ≤ now_ms) w.(row).(next_run_at_ms))
    (update_instance false (λ i, {| i with next_run_at_ms := Some until; updated_at_ms := now_ms |}));
  mret ().

Definition due (now_ms : Z) (recovered : bool) (i : InstanceRow) : Prop :=
  i.(state) = WQueued ∧ i.(has_activated) = recovered ∧ is_some_and (λ t, t ≤ now_ms) i.(next_run_at_ms).
#[export] Instance due_dec now r i : Decision (due now r i).
Proof. unfold due. apply _. Defined.

Definition instance_rows (db : WorkflowDb) : list InstanceRow := (row ∘ snd) <$> map_to_list db.(workflows).

(** One page of the ready index: [ORDER BY next_run_at_ms,created_at_ms,id] *)
Definition ready_page (now_ms limit : Z) (recovered : bool) (db : WorkflowDb) : list N :=
  let page := order_by (λ i, [default 0 i.(next_run_at_ms); i.(identity).(created_at_ms);
                              Z.of_N i.(identity).(instance_id)])
                (filter (due now_ms recovered) (instance_rows db)) in
  (λ i, i.(identity).(instance_id)) <$> take (Z.to_nat limit) page.

(** The cursor is the number of recovered pages since the last fresh one. *)
Definition due_workflows (now_ms limit streak : Z) : WM (list N * Z) :=
  _ ← lift (bounded limit);
  let preferred := bool_decide (streak < 3) in
  ids ← gets (ready_page now_ms limit preferred);
  let streak_of (r : bool) := if r then Z.min (streak + 1) 3 else 0 in
  if decide (ids ≠ []) then mret (ids, streak_of preferred)
  else
    ids ← gets (ready_page now_ms limit (negb preferred));
    if decide (ids ≠ []) then mret (ids, streak_of (negb preferred)) else mret ([], streak).

Record ClaimedWorkflowRun := {
  c_fence : WorkflowFence;
  c_target : WorkflowTarget;
  c_external_instance_id : ustr;
  c_created_at_ms : Z;
  c_schedule : option WorkflowCronSchedule;
  c_input_json : ustr;
  recovered : bool;
  rollback : bool;
}.

Definition set_claimed (t : WorkflowToken) (now_ms until : Z) (i : InstanceRow) : InstanceRow :=
  {| i with state := WRunning;
            run := Some {| run_token := t; run_claimed_at_ms := now_ms; run_lease_until_ms := until |};
            next_run_at_ms := None; updated_at_ms := now_ms; has_activated := true |}.

Definition token_or (rng : option WorkflowToken) : WM WorkflowToken :=
  some_or rng (storage_error WorkflowRuntimeUnavailable).

Definition claim_workflow (id : WorkflowInstanceIdentity) (rng : option WorkflowToken) (now_ms : Z)
    (limits : WorkflowsConfig) : WM (option ClaimedWorkflowRun) := transaction (
  _ ← lift (WorkflowsConfig_validate limits);
  o ← select_instance id.(instance_id)
        (λ i, i.(state) = WQueued ∧ is_some_and (λ t, t ≤ now_ms) i.(next_run_at_ms));
  match o with
  | None => mret None
  | Some record =>
      _ ← throw_if (record.(identity) ≠ id) violation;
      t ← token_or rng;
      until ← lift (workflow_deadline now_ms limits.(lease_ms));
      _ ← execute_on id.(instance_id) (λ w, w.(row).(state) = WQueued)
            (update_instance true (set_claimed t now_ms until));
      mret (Some {|
        c_fence := {| f_instance_id := id.(instance_id);
                      f_instance_generation := id.(instance_generation); f_run_token := t |};
        c_target := id.(target);
        c_external_instance_id := id.(external_instance_id);
        c_created_at_ms := id.(created_at_ms);
        c_schedule := id.(schedule);
        c_input_json := record.(input_json);
        recovered := record.(has_activated);
        rollback := record.(rollback_requested) |})
  end).

(** ** Recovery *)

Definition expired_runs (now_ms limit : Z) (db : WorkflowDb) : list (N * Z * WorkflowToken) :=
  let expired := filter (λ i, i.(state) = WRunning ∧
      is_some_and (λ r, r.(run_lease_until_ms) ≤ now_ms) i.(run)) (instance_rows db) in
  let page := order_by (λ i, [from_option run_lease_until_ms 0 i.(run); Z.of_N i.(identity).(instance_id)])
                expired in
  omap (λ i, (λ r, (i.(identity).(instance_id), i.(identity).(instance_generation), r.(run_token)))
               <$> i.(run)) (take (Z.to_nat limit) page).

Definition set_relinquished (now_ms : Z) (s : Step) : Step :=
  {| s with s_state := SPending; s_run_token := None; s_step_token := None; s_updated_at_ms := now_ms |}.

(** Reset step ownership before the parent, then release with the recovery backoff. *)
Definition recover_one (now_ms : Z) (limits : WorkflowsConfig) (e : N * Z * WorkflowToken) : WM unit :=
  let '(id, generation, t) := e in
  _ ← execute_on id (λ w, w.(row).(identity).(instance_generation) = generation)
        (update_steps (λ s, s.(s_state) = SRunning ∧ s.(s_run_token) = Some t) (set_relinquished now_ms));
  o ← select_instance id (λ _, True);
  i ← some_or o violation;
  until ← lift (workflow_deadline now_ms limits.(recovery_backoff_ms));
  _ ← release i until now_ms;
  mret ().

Definition recover_workflows (now_ms : Z) (limits : WorkflowsConfig) (limit : Z) : WM Z := transaction (
  _ ← lift (WorkflowsConfig_validate limits);
  _ ← lift (bounded limit);
  expired ← gets (expired_runs now_ms limit);
  _ ← for_each (recover_one now_ms limits) expired;
  _ ← (if decide (expired ≠ []) then modify wf_notify else mret ());
  mret (Z.of_nat (length expired))).

(** ** Terminal commit *)

Inductive WorkflowCompletion : Type :=
| CompletionComplete (output : ustr) (final_ordinal : Z)
| CompletionErrored (code : ErrorCode)
| CompletionTerminated (final_ordinal : Z).

Definition set_cancelled (now_ms : Z) (s : Step) : Step :=
  {| s with s_state := SCancelled; s_run_token := None; s_step_token := None; due_at_ms := None;
            retry_delay_ms := None; s_error_json := None; s_error_code := None;
            cancelled_at_ms := Some now_ms; s_updated_at_ms := now_ms |}.

(** [durable_lifecycle::cancel_unfinished] *)
Definition cancel_unfinished (id : N) (now_ms : Z) : WM unit :=
  execute id (update_steps (λ s, unfinished s.(s_state) = true) (set_cancelled now_ms)).

Definition set_finished (st : WorkflowState) (output failure : option ustr) (code : option ErrorCode)
    (now_ms expires : Z) (i : InstanceRow) : InstanceRow :=
  let a := i.(acct) in
  {| i with state := st; output_json := output; error_json := failure; error_code := code;
            acct := {| a with state_bytes := a.(state_bytes) + opt_len output + opt_len failure |};
            rollback_requested := false; terminal_at_ms := Some now_ms; updated_at_ms := now_ms;
            expires_at_ms := Some expires; run := None |}.

(** Settled business failures may be caught by the tenant. *)
Definition business_failure (c : ErrorCode) : bool :=
  match c with
  | WorkflowStepTimeout | WorkflowStepRetriesExhausted | WorkflowNonRetryable | WorkflowEventTimeout => true
  | _ => false
  end.
Definition platform_failure (ss : list Step) : option ErrorCode :=
  head (omap (λ s, if decide (s.(s_state) = SFailed) then
                     c ← s.(s_error_code); if business_failure c then None else Some c
                   else None) ss).

Section finish.
Context `{Codec}.

(** The final value, or the code the instance fails with. *)
Definition final_output (i : InstanceRow) (completion : WorkflowCompletion) (limits : WorkflowsConfig) :
    WM (ustr + ErrorCode) :=
  ss ← steps_of i.(identity).(instance_id);
  match platform_failure ss with
  | Some c => c ← lift (terminal_error_code c); mret (inr c)
  | None =>
      match completion with
      | CompletionErrored c => c ← lift (terminal_error_code c); mret (inr c)
      | CompletionComplete output final_ordinal =>
          if decide (final_ordinal ≠ i.(acct).(registered_step_count) ∨
                     i.(acct).(registered_step_count) ≠ i.(acct).(settled_step_count))
          then mret (inr WorkflowNonDeterministic)
          else
            match durable_value_base64 output WorkflowResultTooLarge with
            | Err e => mret (inr e.(code))
            | Ok output => λ db,
                match capacity_change i.(identity).(instance_id) (str_len output) (-1) limits db with
                | (db, Ok _) => (db, Ok (inl output))
                | (db, Err e) => (db, Ok (inr e.(code)))
                end
            end
      | CompletionTerminated _ => mret (inr WorkflowNonDeterministic)
      end
  end.

Definition finish_workflow (f : WorkflowFence) (completion : WorkflowCompletion) (now_ms : Z)
    (limits : WorkflowsConfig) : WM WorkflowState := transaction (
  _ ← lift (WorkflowsConfig_validate limits);
  i ← running f now_ms;
  let id := f.(f_instance_id) in
  if decide (i.(pause_requested) = true ∨ i.(yield_requested) = true) then
    st ← release i now_ms now_ms;
    _ ← modify wf_notify;
    mret st
  else
    match completion with
    | CompletionTerminated final_ordinal =>
        _ ← throw_if (i.(rollback_requested) = false ∨ final_ordinal ≠ i.(acct).(registered_step_count))
              (storage_error WorkflowNonDeterministic);
        ss ← steps_of id;
        _ ← throw_if (Exists (λ s, unfinished s.(s_state) = true) ss) (storage_error WorkflowNonDeterministic);
        expires ← lift (expires_at i.(retention) now_ms false);
        _ ← execute_on id
              (λ w, w.(row).(identity).(instance_generation) = f.(f_instance_generation) ∧
                    owns w.(row) (Some f.(f_run_token)))
              (update_instance true (set_finished WTerminated None None None now_ms expires));
        mret WTerminated
    | _ =>
        _ ← throw_if (i.(rollback_requested) = true) (storage_error WorkflowNonDeterministic);
        result ← final_output i completion limits;
        r ← match result with
            | inl output => mret (WComplete, Some output, None, None)
            | inr c => _ ← cancel_unfinished id now_ms; mret (WErrored, None, Some failure_json, Some c)
            end;
        let '(st, output, failure, c) := r in
        expires ← lift (expires_at i.(retention) now_ms (bool_decide (st = WComplete)));
        _ ← execute_on id
              (λ w, w.(row).(identity).(instance_generation) = f.(f_instance_generation) ∧
                    owns w.(row) (Some f.(f_run_token)))
              (update_instance true (set_finished st output failure c now_ms expires));
        mret st
    end).
End finish.

(** Release an activation only after every granted callback has relinquished its token. *)
Definition yield_workflow (f : WorkflowFence) (now_ms : Z) : WM WorkflowState := transaction (
  i ← running f now_ms;
  _ ← throw_if (i.(yield_requested) = false ∧ i.(pause_requested) = false)
        (storage_error WorkflowInstanceStateConflict);
  st ← release i now_ms now_ms;
  _ ← modify wf_notify;
  mret st).
