(* ===== verification/WorkflowSteps.v ===== *)
(** * Workflow steps

    [durable_model.rs], [durable_steps.rs], [durable_settlement.rs] and [durable_waits.rs]
    of [crates/storage/src/scheduler/workflow]: registration and replay of a batch, the
    admission of its callbacks, the commit of an attempt, retry decisions, and the
    arbitration of sleeps, events and timeouts. *)

From stdpp Require Import base numbers list option strings sorting gmap.
From S2P Require Import Prelude Text ErrorCodes Duration RetryPolicy WorkflowTypes Sql WorkflowDb WorkflowRuns.

Local Open Scope Z_scope.

(** ** Results *)

Inductive WorkflowStepGrant : Type :=
| GrantRun (step_token : WorkflowToken) (attempt remaining_ms : Z) (config : WorkflowStepConfig)
| GrantComplete (attempt : option Z) (config : option WorkflowStepConfig)
| GrantFailed
| GrantResolveDelay (attempt : Z) (code : ErrorCode) (config : WorkflowStepConfig)
| GrantRollbackBoundary (rollback_ordinal : Z)
| GrantSuspended.

Inductive WorkflowStepResult : Type :=
| ResComplete (output : option ustr)
| ResEvent (event : WorkflowEventEnvelope)
| ResFailed (code : ErrorCode)
| ResResolveDelay (attempt : Z) (code : ErrorCode) (config : WorkflowStepConfig)
| ResSuspended.

Definition suspended (r : WorkflowStepResult) : bool := match r with ResSuspended => true | _ => false end.
Definition grant_suspended (g : WorkflowStepGrant) : bool := match g with GrantSuspended => true | _ => false end.

Record WorkflowStepAttempt := { a_ordinal : Z; a_attempt : Z; a_step_token : WorkflowToken }.

Inductive WorkflowStepOutcome : Type :=
| OutcomeSuccess (output : ustr)
| OutcomeFailure (code : ErrorCode)
| OutcomeFailureWithDelay (code : ErrorCode) (delay_ms : Z)
| OutcomeTimeout.

Record WorkflowDelayResolution := { failure_code : ErrorCode; resolved_delay_ms : option Z }.

Definition stale : PlatformError := storage_error WorkflowStepStale.

(** ** Reading a step *)

Definition step_readable (s : Step) : Prop :=
  is_none_or (λ e, e = failure_json) s.(s_error_json) ∧
  (is_Some s.(s_error_json) ↔ is_Some s.(s_error_code)) ∧
  is_none_or (λ c, c ∈ terminal_codes) s.(s_error_code) ∧
  WorkflowStepDescriptor_validate s.(descriptor) = Ok ().
#[export] Instance step_readable_dec s : Decision (step_readable s).
Proof. unfold step_readable. apply _. Defined.

Definition read_step (id : N) (o : Z) : WM (option Step) :=
  ss ← steps_of id;
  match ss !! Z.to_nat o with
  | None => mret None
  | Some s => _ ← throw_if (¬ step_readable s) violation; mret (Some s)
  end.

Section steps.
Context `{Codec}.

(** The committed result of one step. *)
Definition step_result (s : Step) : result PlatformError WorkflowStepResult :=
  match s.(s_state) with
  | SComplete =>
      match s.(descriptor).(config), s.(s_output) with
      | CDo _, Some (OutValue v) =>
          match durable_value_base64 v WorkflowInvariantViolation with
          | Ok _ => Ok (ResComplete (Some v))
          | Err _ => Err violation
          end
      | CWaitEvent _ _, Some (OutEvent e) =>
          match canonical_wire e with
          | Ok _ => Ok (ResEvent e)
          | Err _ => Err (workflow_error WorkflowInvariantViolation)
          end
      | (CSleep _ | CSleepUntil _), None => Ok (ResComplete None)
      | _, _ => Err violation
      end
  | SFailed => c ← ok_or_else s.(s_error_code) violation; Ok (ResFailed c)
  | SDelayPending =>
      match s.(descriptor).(config) with
      | CDo config => c ← ok_or_else s.(s_error_code) violation; Ok (ResResolveDelay s.(attempt) c config)
      | _ => Err violation
      end
  | SWaiting | SRetryWait | SPending => Ok ResSuspended
  | _ => Err stale
  end.

(** ** Waits *)

Definition set_event_consumed (e : Event) (now_ms : Z) (s : Step) : Step :=
  {| s with s_state := SComplete;
            s_output := Some (OutEvent {| event_type := e.(e_type); payload_base64 := e.(e_payload);
                                          timestamp_ms := e.(accepted_at_ms) |});
            consumed_event_seq := Some e.(event_seq); due_at_ms := None; s_updated_at_ms := now_ms;
            completed_at_ms := Some now_ms |}.
Definition set_event_timeout (now_ms : Z) (s : Step) : Step :=
  {| s with s_state := SFailed; s_error_json := Some failure_json; s_error_code := Some WorkflowEventTimeout;
            due_at_ms := None; s_updated_at_ms := now_ms; completed_at_ms := Some now_ms |}.
Definition set_slept (now_ms : Z) (s : Step) : Step :=
  {| s with s_state := SComplete; due_at_ms := None; s_updated_at_ms := now_ms; completed_at_ms := Some now_ms |}.

(** [ORDER BY event_seq LIMIT 1] over the inbox of a type, which is kept in sequence order *)
Definition first_event (id : N) (t : ustr) : WM (option Event) :=
  gets (λ db, w ← db.(workflows) !! id; head (filter (λ e, e.(e_type) = t) w.(events))).

(** One arbiter for events, timeouts and sleeps. *)
Definition settle (i : InstanceRow) (s : Step) (now_ms : Z) (limits : WorkflowsConfig) : WM WorkflowStepResult :=
  let id := i.(identity).(instance_id) in
  let o := Z.to_nat s.(descriptor).(ordinal) in
  if decide (s.(s_state) ≠ SWaiting) then lift (step_result s)
  else
    due ← some_or s.(due_at_ms) violation;
    match s.(descriptor).(config) with
    | CWaitEvent t _ =>
        event ← first_event id t;
        taken ← match event with
          | Some e =>
              ceiling ← some_or s.(event_buffer_ceiling) violation;
              if decide (e.(accepted_at_ms) < due ∨ e.(event_seq) ≤ ceiling) then mret (Some e) else mret None
          | None => mret None
          end;
        match taken with
        | Some e =>
            let envelope := {| event_type := t; payload_base64 := e.(e_payload);
                               timestamp_ms := e.(accepted_at_ms) |} in
            output ← lift (canonical_wire envelope);
            _ ← capacity_change id (str_len output - e.(logical_bytes)) (-1) limits;
            _ ← execute id (update_step o (set_event_consumed e now_ms));
            _ ← execute id (delete_event e.(event_seq));
            mret (ResEvent envelope)
        | None =>
            if decide (due ≤ now_ms) then
              _ ← execute id (update_step o (set_event_timeout now_ms));
              mret (ResFailed WorkflowEventTimeout)
            else mret ResSuspended
        end
    | _ =>
        if decide (due ≤ now_ms) then
          _ ← execute id (update_step o (set_slept now_ms));
          mret (ResComplete None)
        else mret ResSuspended
    end.

Definition set_woken (now_ms : Z) (i : InstanceRow) : InstanceRow :=
  {| i with state := WQueued; next_run_at_ms := Some now_ms; updated_at_ms := Z.max i.(updated_at_ms) now_ms |}.

Definition wake (id : N) (now_ms : Z) : WM unit :=
  _ ← execute_on id (λ w, w.(row).(state) = WWaiting) (update_instance true (set_woken now_ms));
  mret ().

Definition wait_type (s : Step) : option ustr :=
  match s.(descriptor).(config) with CWaitEvent t _ => Some t | _ => None end.

(** Admit a canonical event for an exact generation, then arbitrate a matching wait. *)
Definition send_workflow_event (id : WorkflowInstanceIdentity) (operation_id : N) (t payload : ustr)
    (now_ms : Z) (limits : WorkflowsConfig) : WM unit := transaction (
  _ ← lift (WorkflowsConfig_validate limits);
  _ ← lift (validate_workflow_event_type t);
  payload ← lift (durable_value_base64 payload WorkflowPayloadTooLarge);
  receipt ← gets (λ db, db.(receipts) !! operation_id);
  match receipt with
  | Some r =>
      throw_if (r.(r_instance) ≠ id.(instance_id) ∨ r.(r_generation) ≠ id.(instance_generation) ∨
                r.(r_type) ≠ t ∨ r.(r_payload_sha256) ≠ sha256 payload) violation
  | None =>
      o ← select_instance id.(instance_id) (λ _, True);
      i ← some_or o (storage_error WorkflowInstanceNotFound);
      _ ← throw_if (i.(identity) ≠ id) (storage_error WorkflowInstanceStateConflict);
      _ ← throw_if (is_terminal i.(state) = true) (storage_error WorkflowInstanceStateConflict);
      let logical := WORKFLOW_EVENT_BYTES + str_len t + str_len payload in
      _ ← throw_if (limits.(max_buffered_events) ≤ i.(acct).(event_count) ∨
                    limits.(max_event_bytes) < u64_saturate (i.(acct).(event_bytes) + logical) ∨
                    i.(next_event_seq) = i64_max) (storage_error WorkflowEventQueueFull);
      _ ← capacity_change id.(instance_id) logical 0 limits;
      let now_ms := Z.max now_ms i.(updated_at_ms) in
      _ ← lift (durable_deadline now_ms 0);
      _ ← modify (λ db, {| db with receipts := <[operation_id := {|
            r_instance := id.(instance_id); r_generation := id.(instance_generation); r_type := t;
            r_payload_sha256 := sha256 payload; r_accepted_at_ms := now_ms |}]> db.(receipts) |});
      _ ← execute id.(instance_id) (insert_event {|
            event_seq := i.(next_event_seq); e_type := t; e_payload := payload;
            accepted_at_ms := now_ms; logical_bytes := logical |});
      _ ← execute id.(instance_id) (update_instance false (λ i, {| i with updated_at_ms := now_ms |}));
      ss ← steps_of id.(instance_id);
      _ ← match head (filter (λ s, s.(s_state) = SWaiting ∧ wait_type s = Some t) ss) with
        | Some s =>
            step ← read_step id.(instance_id) s.(descriptor).(ordinal);
            step ← some_or step violation;
            r ← settle i step now_ms limits;
            if suspended r then mret () else wake id.(instance_id) now_ms
        | None => mret ()
        end;
      modify wf_notify
  end).

(** ** Attempts *)

Definition set_failed (retry : bool) (c : ErrorCode) (due delay : option Z) (now_ms : Z) (s : Step) : Step :=
  {| s with s_state := (if retry then SRetryWait else SFailed); s_run_token := None; s_step_token := None;
            s_error_json := Some failure_json; s_error_code := Some c; due_at_ms := due;
            retry_delay_ms := delay; s_updated_at_ms := now_ms;
            completed_at_ms := (if retry then None else Some now_ms) |}.

Definition retryable (c : ErrorCode) : bool :=
  match c with WorkflowExecutionFailed | WorkflowStepTimeout => true | _ => false end.

(** Failure bytes consume the reservation established before callback admission. *)
Definition fail (id : N) (s : Step) (c : ErrorCode) (resolved_dynamic_delay : option Z) (now_ms : Z) :
    WM WorkflowStepResult :=
  _ ← lift (terminal_error_code c);
  match s.(descriptor).(config) with
  | CDo config =>
      _ ← throw_if (s.(attempt) = 0 ∨ ¬ (s.(s_state) = SRunning ∨ s.(s_state) = SPending ∨
                                        s.(s_state) = SDelayPending)) stale;
      let retry := retryable c && bool_decide (s.(attempt) ≤ config.(retries).(limit)) in
      let c := if negb retry && bool_decide (c = WorkflowExecutionFailed)
               then WorkflowStepRetriesExhausted else c in
      delay ← (if retry then d ← lift (delay_after_resolved config.(retries) s.(attempt) resolved_dynamic_delay);
                             mret (Some d)
               else mret None);
      due ← match delay with
            | Some d => t ← lift (durable_deadline now_ms d); mret (Some t)
            | None => mret None
            end;
      _ ← execute id (update_step (Z.to_nat s.(descriptor).(ordinal)) (set_failed retry c due delay now_ms));
      mret (if retry then ResSuspended else ResFailed c)
  | _ => throw violation
  end.

Definition set_deferred (c : ErrorCode) (now_ms : Z) (s : Step) : Step :=
  {| s with s_state := SDelayPending; s_run_token := None; s_step_token := None;
            s_error_json := Some failure_json; s_error_code := Some c; due_at_ms := None;
            retry_delay_ms := None; s_updated_at_ms := now_ms |}.

Definition defer_dynamic_failure (id : N) (s : Step) (c : ErrorCode) (now_ms : Z) : WM WorkflowStepResult :=
  match s.(descriptor).(config) with
  | CDo config =>
      _ ← throw_if (is_Some config.(retries).(delay) ∨ s.(attempt) = 0 ∨
                    ¬ (s.(s_state) = SRunning ∨ s.(s_state) = SPending) ∨ c ≠ WorkflowStepTimeout) stale;
      _ ← execute id (update_step (Z.to_nat s.(descriptor).(ordinal)) (set_deferred c now_ms));
      mret (ResResolveDelay s.(attempt) c config)
  | _ => throw violation
  end.

Definition dynamic_delay_step (s : Step) : bool :=
  match s.(descriptor).(config) with
  | CDo config => bool_decide (config.(retries).(delay) = None)
  | _ => false
  end.

(** [durable_settlement::timeout] *)
Definition step_timeout (id : N) (s : Step) (now_ms : Z) : WM WorkflowStepResult :=
  if dynamic_delay_step s then defer_dynamic_failure id s WorkflowStepTimeout now_ms
  else fail id s WorkflowStepTimeout None now_ms.

Definition request_yield (f : WorkflowFence) (now_ms : Z) : WM unit :=
  changed ← execute_on f.(f_instance_id) (λ w, holds f now_ms w.(row))
    (update_instance false
       (λ i, {| i with yield_requested := true; updated_at_ms := Z.max i.(updated_at_ms) now_ms |}));
  throw_if (changed ≠ 1) (storage_error WorkflowRunStale).

Definition set_succeeded (output : ustr) (now_ms : Z) (s : Step) : Step :=
  {| s with s_state := SComplete; s_run_token := None; s_step_token := None;
            s_output := Some (OutValue output); completed_at_ms := Some now_ms; s_updated_at_ms := now_ms |}.

(** The validated output with its charge, or the code it is rejected with. *)
Definition charge_output (id : N) (output : ustr) (limits : WorkflowsConfig) : WM (ustr + ErrorCode) :=
  match durable_value_base64 output WorkflowResultTooLarge with
  | Err e => mret (inr e.(code))
  | Ok value => λ db,
      match capacity_change id (str_len value) (-1) limits db with
      | (db, Ok _) => (db, Ok (inl value))
      | (db, Err e) => (db, Ok (inr e.(code)))
      end
  end.

(** Commit one trusted callback report under the exact run, ordinal, attempt and token.
    The stored deadline wins over a late success or failure. *)
Definition settle_workflow_step (f : WorkflowFence) (a : WorkflowStepAttempt) (outcome : WorkflowStepOutcome)
    (now_ms : Z) (limits : WorkflowsConfig) : WM WorkflowStepResult := transaction (
  _ ← lift (WorkflowsConfig_validate limits);
  i ← running f now_ms;
  let id := f.(f_instance_id) in
  step ← read_step id a.(a_ordinal);
  s ← some_or step stale;
  _ ← throw_if (s.(s_state) ≠ SRunning ∨ s.(attempt) ≠ a.(a_attempt) ∨
                s.(s_run_token) ≠ Some f.(f_run_token) ∨ s.(s_step_token) ≠ Some a.(a_step_token)) stale;
  d ← some_or s.(attempt_deadline_at_ms) violation;
  verdict ← (if decide (d ≤ now_ms) then step_timeout id s now_ms
    else match outcome with
      | OutcomeTimeout => throw stale
      | OutcomeFailure c => fail id s c None now_ms
      | OutcomeFailureWithDelay c delay_ms => fail id s c (Some delay_ms) now_ms
      | OutcomeSuccess output =>
          charged ← charge_output id output limits;
          match charged with
          | inl output =>
              _ ← execute id (update_step (Z.to_nat a.(a_ordinal)) (set_succeeded output now_ms));
              mret (ResComplete (Some output))
          | inr c => fail id s c None now_ms
          end
      end);
  _ ← (if suspended verdict then request_yield f now_ms else mret ());
  _ ← heartbeat f now_ms limits;
  mret verdict).

(** Resolve a persisted dynamic-delay timeout without rerunning the callback. *)
Definition resolve_workflow_delay (f : WorkflowFence) (o a : Z) (resolution : WorkflowDelayResolution)
    (now_ms : Z) (limits : WorkflowsConfig) : WM WorkflowStepResult := transaction (
  _ ← lift (WorkflowsConfig_validate limits);
  _ ← running f now_ms;
  let id := f.(f_instance_id) in
  step ← read_step id o;
  s ← some_or step stale;
  match s.(descriptor).(config) with
  | CDo config =>
      _ ← throw_if (s.(s_state) ≠ SDelayPending ∨ s.(attempt) ≠ a ∨ is_Some config.(retries).(delay) ∨
                    s.(s_error_code) ≠ Some WorkflowStepTimeout) stale;
      let c := resolution.(failure_code) in
      verdict ← (if decide (c = WorkflowStepConfigUnsupported) then fail id s c None now_ms
                 else _ ← throw_if (c ≠ WorkflowStepTimeout) stale;
                      fail id s c resolution.(resolved_delay_ms) now_ms);
      _ ← (if suspended verdict then request_yield f now_ms else mret ());
      _ ← heartbeat f now_ms limits;
      mret verdict
  | _ => throw stale
  end).

(** Fetch one immutable result under the current run lease. *)
Definition workflow_step_result (f : WorkflowFence) (o now_ms : Z) : WM WorkflowStepResult :=
  _ ← running f now_ms;
  step ← read_step f.(f_instance_id) o;
  s ← some_or step stale;
  lift (step_result s).
End steps.
