(* ===== verification/WorkflowBatch.v ===== *)
(** * Workflow batches

    [claim_workflow_batch] of [crates/storage/src/scheduler/workflow/durable_steps.rs]:
    one immutable graph group is registered before any of its callbacks or waits is
    granted, or replayed against the registered shape.  Random step tokens are indexed by
    the ordinal they are drawn for. *)

From stdpp Require Import base numbers list option strings sorting gmap.
From S2P Require Import Prelude Text ErrorCodes Duration RetryPolicy WorkflowTypes Sql WorkflowDb WorkflowRuns WorkflowSteps.

Local Open Scope Z_scope.

Definition nondeterministic : PlatformError := storage_error WorkflowNonDeterministic.
Definition step_limit : PlatformError := storage_error WorkflowStepLimitExceeded.

(** ** The shape of a batch *)

Fixpoint validate_members (first : WorkflowStepDescriptor) (size index : Z) (ds : list WorkflowStepDescriptor) :
    result PlatformError unit :=
  match ds with
  | [] => Ok ()
  | d :: ds =>
      _ ← WorkflowStepDescriptor_validate d;
      _ ← bail_if (d.(ordinal) ≠ first.(ordinal) + index ∨ d.(batch_first_ordinal) ≠ first.(ordinal) ∨
                   d.(batch_size) ≠ size ∨ d.(dependencies) ≠ first.(dependencies)) nondeterministic;
      validate_members first size (index + 1) ds
  end.

Definition validate_batch (ds : list WorkflowStepDescriptor) (remaining_ms : Z) (limits : WorkflowsConfig) :
    result PlatformError WorkflowStepDescriptor :=
  first ← ok_or_else (head ds) step_limit;
  _ ← bail_if ((16 < length ds)%nat ∨ limits.(dispatch_timeout_ms) < remaining_ms) step_limit;
  _ ← validate_members first (Z.of_nat (length ds)) 0 ds;
  Ok first.

(** ** Registration *)

Definition fresh_step (d : WorkflowStepDescriptor) (now_ms : Z) (due ceiling : option Z) : Step := {|
  descriptor := d;
  s_state := if decide (kind d.(config) = KDo) then SPending else SWaiting;
  attempt := 0;
  s_run_token := None;
  s_step_token := None;
  s_output := None;
  s_error_json := None;
  s_error_code := None;
  started_at_ms := now_ms;
  s_updated_at_ms := now_ms;
  completed_at_ms := None;
  attempt_started_at_ms := None;
  attempt_deadline_at_ms := None;
  due_at_ms := due;
  retry_delay_ms := None;
  cancelled_at_ms := None;
  event_buffer_ceiling := ceiling;
  consumed_event_seq := None;
|}.

Definition register (id : N) (d : WorkflowStepDescriptor) (now_ms : Z) (due ceiling : option Z) : WM unit :=
  ss ← steps_of id;
  _ ← throw_if (count (λ s, s_kind s = kind d.(config) ∧ s.(descriptor).(name) = d.(name)) ss + 1 ≠
                d.(name_count)) nondeterministic;
  execute id (insert_step (fresh_step d now_ms due ceiling)).

(** The absolute deadline and the inbox ceiling of a wait. *)
Definition wait_columns (c : WorkflowDurableConfig) (next_event_seq now_ms : Z) :
    result PlatformError (option Z * option Z) :=
  match c with
  | CDo _ => Ok (None, None)
  | CSleep duration => t ← durable_deadline now_ms duration; Ok (Some t, None)
  | CSleepUntil timestamp => Ok (Some timestamp, None)
  | CWaitEvent _ timeout_ms =>
      t ← durable_deadline now_ms timeout_ms; Ok (Some t, Some (next_event_seq - 1))
  end.

Definition register_one (i : InstanceRow) (id : N) (now_ms : Z) (d : WorkflowStepDescriptor) : WM unit :=
  c ← lift (wait_columns d.(config) i.(next_event_seq) now_ms);
  register id d now_ms c.1 c.2.

Definition total_bytes (ds : list WorkflowStepDescriptor) : result PlatformError Z :=
  foldl (λ acc d, bytes ← acc; n ← state_bytes_of d; Ok (bytes + n)) (Ok 0) ds.

Definition fits (limits : WorkflowsConfig) (d : WorkflowStepDescriptor) : bool :=
  match d.(config) with
  | CDo config => fits_activation config limits.(dispatch_timeout_ms)
  | _ => true
  end.

Definition register_batch (i : InstanceRow) (f : WorkflowFence) (first : WorkflowStepDescriptor)
    (ds : list WorkflowStepDescriptor) (now_ms : Z) (limits : WorkflowsConfig) : WM unit :=
  let id := f.(f_instance_id) in
  _ ← throw_if (¬ Forall (λ d, fits limits d = true) ds) (storage_error WorkflowStepConfigUnsupported);
  _ ← throw_if (limits.(max_parallel_steps) < Z.of_nat (length ds)) step_limit;
  _ ← throw_if (limits.(max_steps) < first.(ordinal) + Z.of_nat (length ds)) step_limit;
  ss ← steps_of id;
  _ ← throw_if (¬ Forall (λ p, is_some_and (λ s, step_settled s.(s_state) = true) (ss !! Z.to_nat p))
                   first.(dependencies)) nondeterministic;
  extra ← lift (total_bytes ds);
  _ ← capacity_change id extra
        (Z.of_nat (length (filter (λ d, kind d.(config) = KDo ∨ kind d.(config) = KWaitEvent) ds))) limits;
  _ ← for_each (register_one i id now_ms) ds;
  mret ().

(** ** Grants *)

Definition complete_grant (s : Step) : result PlatformError WorkflowStepGrant :=
  match s.(descriptor).(config) with
  | CDo config =>
      _ ← bail_if (s.(attempt) = 0) violation;
      Ok (GrantComplete (Some s.(attempt)) (Some config))
  | _ => Ok (GrantComplete None None)
  end.

(** The grant of an attempt that this run already owns. *)
Definition running_grant (s : Step) (now_ms : Z) : result PlatformError WorkflowStepGrant :=
  match s.(descriptor).(config) with
  | CDo config =>
      t ← ok_or_else s.(s_step_token) violation;
      d ← ok_or_else s.(attempt_deadline_at_ms) violation;
      let remaining := i64_saturate (d - now_ms) in
      _ ← bail_if (remaining < 0) violation;
      Ok (GrantRun t s.(attempt) remaining config)
  | _ => Err violation
  end.

Definition timeout_grant (r : WorkflowStepResult) : WorkflowStepGrant :=
  match r with
  | ResSuspended => GrantSuspended
  | ResResolveDelay a c config => GrantResolveDelay a c config
  | _ => GrantFailed
  end.

Definition set_started (r t : WorkflowToken) (now_ms until : Z) (s : Step) : Step :=
  {| s with s_state := SRunning; attempt := s.(attempt) + 1; attempt_started_at_ms := Some now_ms;
            attempt_deadline_at_ms := Some until; s_run_token := Some r; s_step_token := Some t;
            due_at_ms := None; retry_delay_ms := None; s_error_json := None; s_error_code := None;
            s_updated_at_ms := now_ms |}.
Definition set_resumed (r t : WorkflowToken) (now_ms : Z) (s : Step) : Step :=
  {| s with s_state := SRunning; s_run_token := Some r; s_step_token := Some t; s_updated_at_ms := now_ms |}.

Section batch.
Context `{Codec} (f : WorkflowFence) (i : InstanceRow) (rng : Z → option WorkflowToken).
Context (remaining_ms now_ms : Z) (limits : WorkflowsConfig).

(** Start a fresh attempt, or resume a recovered one under its old number and deadline. *)
Definition start_attempt (s : Step) (config : WorkflowStepConfig) (duration : Z) : WM WorkflowStepGrant :=
  let id := f.(f_instance_id) in
  let o := Z.to_nat s.(descriptor).(ordinal) in
  let fresh := bool_decide (s.(attempt) = 0 ∨ s.(s_state) = SRetryWait) in
  t ← token_or (rng s.(descriptor).(ordinal));
  _ ← (if fresh then
         until ← lift (durable_deadline now_ms config.(timeout));
         execute id (update_step o (set_started f.(f_run_token) t now_ms until))
       else
         execute id (λ w, match w.(steps) !! o with
           | Some p => if decide (p.(s_state) = SPending) then
                         update_step o (set_resumed f.(f_run_token) t now_ms) w else Some w
           | None => Some w
           end));
  mret (GrantRun t (s.(attempt) + (if fresh then 1 else 0)) duration config).

(** A pending or retrying callback: bounded by its due time, the parallel limit and the
    remaining budget of the activation. *)
Definition admit_callback (s : Step) (admitted : Z) : WM (WorkflowStepGrant * Z) :=
  match s.(descriptor).(config) with
  | CDo config =>
      duration ← (if decide (s.(s_state) = SPending ∧ 0 < s.(attempt)) then
                    d ← some_or s.(attempt_deadline_at_ms) violation;
                    _ ← throw_if (i64_saturate (d - now_ms) < 0) violation;
                    mret (i64_saturate (d - now_ms))
                  else mret config.(timeout));
      _ ← throw_if (¬ (s.(s_state) = SRetryWait ↔ is_Some s.(retry_delay_ms))) violation;
      _ ← throw_if ((s.(attempt) = 0 ∨ s.(s_state) = SRetryWait) ∧
                    fits_activation config limits.(dispatch_timeout_ms) = false)
            (storage_error WorkflowRuntimeUnavailable);
      if decide (is_some_and (λ due, now_ms < due) s.(due_at_ms) ∨ limits.(max_parallel_steps) ≤ admitted ∨
                 remaining_ms < u64_saturate (duration + WORKFLOW_DRAIN_MARGIN_MS))
      then mret (GrantSuspended, admitted)
      else g ← start_attempt s config duration; mret (g, admitted + 1)
  | _ => throw violation
  end.

Definition grant_step (rollback_ordinal : Z) (s : Step) (admitted : Z) : WM (WorkflowStepGrant * Z) :=
  let id := f.(f_instance_id) in
  let expired := is_none_or (λ d, d ≤ now_ms) s.(attempt_deadline_at_ms) in
  if decide (i.(rollback_requested) = true ∧ s.(descriptor).(rollback_step) = false ∧ s.(s_state) ≠ SComplete)
  then mret (GrantRollbackBoundary rollback_ordinal, admitted)
  else
    match s.(s_state) with
    | SComplete => g ← lift (complete_grant s); mret (g, admitted)
    | SFailed => mret (GrantFailed, admitted)
    | SWaiting =>
        r ← settle i s now_ms limits;
        match r with
        | ResComplete _ | ResEvent _ => g ← lift (complete_grant s); mret (g, admitted)
        | ResFailed _ => mret (GrantFailed, admitted)
        | ResSuspended => mret (GrantSuspended, admitted)
        | ResResolveDelay _ _ _ => throw violation
        end
    | SRunning =>
        _ ← throw_if (s.(s_run_token) ≠ Some f.(f_run_token)) stale;
        if decide expired then r ← step_timeout id s now_ms; mret (timeout_grant r, admitted)
        else g ← lift (running_grant s now_ms); mret (g, admitted + 1)
    | SPending =>
        if decide (0 < s.(attempt) ∧ is_some_and (λ d, d ≤ now_ms) s.(attempt_deadline_at_ms)) then
          r ← step_timeout id s now_ms; mret (timeout_grant r, admitted)
        else admit_callback s admitted
    | SRetryWait => admit_callback s admitted
    | SDelayPending =>
        match s.(descriptor).(config) with
        | CDo config =>
            c ← some_or s.(s_error_code) violation;
            mret (GrantResolveDelay s.(attempt) c config, admitted)
        | _ => throw violation
        end
    | SCancelled => throw stale
    end.

Fixpoint grant_all (rollback_ordinal admitted : Z) (ds : list WorkflowStepDescriptor) :
    WM (list WorkflowStepGrant) :=
  match ds with
  | [] => mret []
  | d :: ds =>
      step ← read_step f.(f_instance_id) d.(ordinal);
      s ← some_or step violation;
      _ ← throw_if (s.(descriptor) ≠ d) nondeterministic;
      g ← grant_step rollback_ordinal s admitted;
      gs ← grant_all rollback_ordinal g.2 ds;
      mret (g.1 :: gs)
  end.
End batch.

(** [coalesce(MIN(ordinal),registered)] of the rollback descriptors *)
Definition rollback_frontier (ss : list Step) (registered : Z) : Z :=
  from_option (λ s, s.(descriptor).(ordinal)) registered
    (head (filter (λ s, s.(descriptor).(rollback_step) = true) ss)).

Definition claim_workflow_batch `{Codec} (f : WorkflowFence) (ds : list WorkflowStepDescriptor)
    (rng : Z → option WorkflowToken) (remaining_ms now_ms : Z) (limits : WorkflowsConfig) :
    WM (list WorkflowStepGrant) := transaction (
  _ ← lift (WorkflowsConfig_validate limits);
  first ← lift (validate_batch ds remaining_ms limits);
  i ← running f now_ms;
  if decide (i.(pause_requested) = true ∨ i.(yield_requested) = true)
  then mret ((λ _, GrantSuspended) <$> ds)
  else
    _ ← throw_if (¬ Forall (λ d, d.(rollback_step) = first.(rollback_step)) ds ∨
                  (i.(rollback_requested) = false ∧ first.(rollback_step) = true)) nondeterministic;
    ss ← steps_of f.(f_instance_id);
    let registered := i.(acct).(registered_step_count) in
    let rollback_ordinal := if i.(rollback_requested) then rollback_frontier ss registered else registered in
    if decide (i.(rollback_requested) = true ∧ first.(rollback_step) = false ∧
               rollback_ordinal ≤ first.(ordinal))
    then mret ((λ _, GrantRollbackBoundary rollback_ordinal) <$> ds)
    else
      _ ← (if decide (first.(ordinal) = registered) then register_batch i f first ds now_ms limits
           else throw_if (registered < first.(ordinal)) nondeterministic);
      grants ← grant_all f i rng remaining_ms now_ms limits rollback_ordinal 0 ds;
      _ ← (if decide (Exists (λ g, grant_suspended g = true) grants) then request_yield f now_ms else mret ());
      _ ← heartbeat f now_ms limits;
      mret grants).
