(* ===== verification/WorkflowHistory.v ===== *)
(** * Workflow history verification

    [durable_history.rs] and [inspection.rs] of [crates/storage/src/scheduler/workflow]:
    the read-only verification of one instance against its replay graph and projections,
    which gates every claim, and the count of invalid rows the doctor reports. *)

From stdpp Require Import base numbers list option strings sorting gmap.
From S2P Require Import Prelude Text ErrorCodes Duration RetryPolicy WorkflowTypes Sql WorkflowDb WorkflowRuns WorkflowSteps.

Local Open Scope Z_scope.

Definition fail_if (P : Prop) `{!Decision P} : result PlatformError unit := bail_if P violation.

Definition safe_time (value : Z) : result PlatformError unit := fail_if (Z.abs value > WORKFLOW_MAX_SAFE_INTEGER).
Definition safe_times (l : list (option Z)) : result PlatformError unit :=
  foldr (λ o r, _ ← from_option safe_time (Ok ()) o; r) (Ok ()) l.

(** ** Instances *)

Definition instance_times (i : InstanceRow) : list (option Z) :=
  [Some i.(identity).(created_at_ms); Some i.(updated_at_ms); i.(next_run_at_ms);
   run_lease_until_ms <$> i.(run); i.(terminal_at_ms); i.(acct).(next_wake_at_ms); i.(expires_at_ms)].

Definition verify_instance (i : InstanceRow) : result PlatformError unit :=
  _ ← safe_times (instance_times i);
  expiry ← match i.(terminal_at_ms) with
           | Some t => match expires_at i.(retention) t (bool_decide (i.(state) = WComplete)) with
                       | Ok e => Ok (Some e)
                       | Err _ => Err violation
                       end
           | None => Ok None
           end;
  fail_if (i.(identity).(instance_generation) < 1 ∨ expiry ≠ i.(expires_at_ms) ∨
           ¬ (is_terminal i.(state) = true ↔ is_Some i.(terminal_at_ms)) ∨
           ¬ (i.(state) = WComplete ↔ is_Some i.(output_json)) ∨
           ¬ (i.(state) = WErrored ↔ is_Some i.(error_json)) ∨
           ¬ (is_Some i.(error_json) ↔ is_Some i.(error_code)) ∨
           ¬ (i.(state) = WRunning ↔ is_Some i.(run)) ∨
           ¬ (i.(state) = WQueued ↔ is_Some i.(next_run_at_ms)) ∨
           (i.(state) ≠ WRunning ∧ (i.(pause_requested) = true ∨ i.(yield_requested) = true)) ∨
           (is_terminal i.(state) = true ∧ i.(rollback_requested) = true) ∨
           (is_terminal i.(state) = true ∧ is_Some i.(acct).(next_wake_at_ms)) ∨
           i.(next_event_seq) < 1).

(** ** Steps *)

Definition step_times (s : Step) : list (option Z) :=
  [Some s.(started_at_ms); Some s.(s_updated_at_ms); s.(completed_at_ms); s.(cancelled_at_ms);
   s.(due_at_ms); s.(attempt_started_at_ms); s.(attempt_deadline_at_ms)].

(** The columns every step has in its state. *)
Definition step_shape (i : InstanceRow) (s : Step) : Prop :=
  let st := s.(s_state) in
  (st = SRunning ↔ is_Some s.(s_run_token)) ∧
  (st = SRunning ↔ is_Some s.(s_step_token)) ∧
  (st = SRunning → i.(state) = WRunning ∧ s.(s_run_token) = run_token <$> i.(run)) ∧
  (step_settled st = true ↔ is_Some s.(completed_at_ms)) ∧
  (st = SCancelled ↔ is_Some s.(cancelled_at_ms)) ∧
  (st = SWaiting ∨ st = SRetryWait ↔ is_Some s.(due_at_ms)) ∧
  (st = SComplete ∧ (s_kind s = KDo ∨ s_kind s = KWaitEvent) ↔ is_Some s.(s_output)) ∧
  (st = SFailed ∨ st = SDelayPending ∨ st = SRetryWait ↔ is_Some s.(s_error_json)) ∧
  (is_Some s.(s_error_json) ↔ is_Some s.(s_error_code)) ∧
  is_none_or (λ e, e = failure_json) s.(s_error_json) ∧
  is_none_or (λ t, t = s.(s_updated_at_ms)) s.(completed_at_ms) ∧
  is_none_or (λ t, t = s.(s_updated_at_ms)) s.(cancelled_at_ms) ∧
  (is_terminal i.(state) = true → unfinished st = false) ∧
  (is_terminal i.(state) = false → st ≠ SCancelled).
#[export] Instance step_shape_dec i s : Decision (step_shape i s).
Proof. unfold step_shape. apply _. Defined.

(** The columns of a callback. *)
Definition do_shape (c : WorkflowStepConfig) (s : Step) : Prop :=
  let st := s.(s_state) in
  s.(event_buffer_ceiling) = None ∧ s.(consumed_event_seq) = None ∧ st ≠ SWaiting ∧
  (st = SDelayPending → c.(retries).(delay) = None ∧ s.(due_at_ms) = None ∧ s.(retry_delay_ms) = None ∧
     s.(s_error_code) = Some WorkflowStepTimeout) ∧
  (st ≠ SRetryWait → s.(retry_delay_ms) = None) ∧
  s.(attempt) ≤ c.(retries).(limit) + 1 ∧
  (s.(attempt) = 0 → (st = SPending ∨ st = SCancelled) ∧ s.(attempt_started_at_ms) = None ∧
     s.(attempt_deadline_at_ms) = None) ∧
  (0 < s.(attempt) →
     is_some_and (λ t, i64_checked (t + c.(timeout)) = s.(attempt_deadline_at_ms)) s.(attempt_started_at_ms) ∧
     is_Some s.(attempt_deadline_at_ms)) ∧
  (st = SComplete → is_some_and (λ d, s.(s_updated_at_ms) < d) s.(attempt_deadline_at_ms)) ∧
  (st = SRetryWait → s.(attempt) ≤ c.(retries).(limit) ∧
     is_some_and (λ d, i64_checked (s.(s_updated_at_ms) + d) = s.(due_at_ms)) s.(retry_delay_ms) ∧
     (is_Some c.(retries).(delay) → result_ok (delay_after c.(retries) s.(attempt)) = s.(retry_delay_ms)) ∧
     (s.(s_error_code) = Some WorkflowExecutionFailed ∨ s.(s_error_code) = Some WorkflowStepTimeout)).
#[export] Instance do_shape_dec c s : Decision (do_shape c s).
Proof. unfold do_shape. apply _. Defined.

Section history.
Context `{Codec}.

Definition valid_value (v : ustr) : bool := is_ok (durable_value_base64 v WorkflowInvariantViolation).

(** The original deadline of a wait. *)
Definition expected_due (s : Step) : result PlatformError Z :=
  match s.(descriptor).(config) with
  | CSleep duration => ok_or_else (i64_checked (s.(started_at_ms) + duration)) violation
  | CSleepUntil timestamp => Ok timestamp
  | CWaitEvent _ timeout_ms => ok_or_else (i64_checked (s.(started_at_ms) + timeout_ms)) violation
  | CDo _ => Err violation
  end.

(** A wait, with the event sequences consumed so far. *)
Definition verify_wait (s : Step) (consumed : list Z) : result PlatformError (list Z) :=
  expected ← expected_due s;
  _ ← safe_time expected;
  _ ← fail_if (s.(s_state) = SWaiting ∧ s.(due_at_ms) ≠ Some expected);
  match s.(descriptor).(config) with
  | CWaitEvent t _ =>
      ceiling ← ok_or_else (c ← s.(event_buffer_ceiling); if decide (0 ≤ c) then Some c else None) violation;
      _ ← fail_if (¬ (s.(s_state) = SComplete ↔ is_Some s.(consumed_event_seq)));
      consumed ← match s.(consumed_event_seq) with
        | Some sequence =>
            match s.(s_output) with
            | Some (OutEvent e) =>
                _ ← fail_if (¬ is_ok (canonical_wire e) = true);
                _ ← fail_if (sequence < 1 ∨ sequence ∈ consumed ∨ e.(event_type) ≠ t ∨
                             (expected ≤ e.(timestamp_ms) ∧ ceiling < sequence));
                Ok (sequence :: consumed)
            | _ => Err violation
            end
        | None => Ok consumed
        end;
      _ ← fail_if (s.(s_state) = SFailed ∧
                   (s.(s_updated_at_ms) < expected ∨ s.(s_error_code) ≠ Some WorkflowEventTimeout));
      Ok consumed
  | _ =>
      _ ← fail_if (is_Some s.(event_buffer_ceiling) ∨ is_Some s.(consumed_event_seq) ∨ s.(s_state) = SFailed ∨
                   (s.(s_state) = SComplete ∧ s.(s_updated_at_ms) < expected));
      Ok consumed
  end.

(** One step, with its contribution to the next wake-up. *)
Definition verify_step (i : InstanceRow) (s : Step) (consumed : list Z) :
    result PlatformError (option Z * list Z) :=
  _ ← fail_if (¬ is_none_or (λ c, c ∈ terminal_codes) s.(s_error_code));
  _ ← safe_times (step_times s);
  _ ← fail_if (¬ step_shape i s);
  match s.(descriptor).(config) with
  | CDo c =>
      _ ← (if decide (s.(s_state) = SRetryWait ∧ is_Some c.(retries).(delay))
           then _ ← delay_after c.(retries) s.(attempt); Ok () else Ok ());
      _ ← fail_if (¬ do_shape c s);
      _ ← match s.(s_output) with
          | Some (OutValue v) => fail_if (valid_value v = false)
          | Some (OutEvent _) => Err violation
          | None => Ok ()
          end;
      Ok (match s.(s_state) with
          | SDelayPending => Some s.(s_updated_at_ms)
          | SPending | SRunning => s.(attempt_deadline_at_ms)
          | _ => s.(due_at_ms)
          end, consumed)
  | _ =>
      _ ← fail_if (s.(attempt) ≠ 0 ∨ is_Some s.(attempt_started_at_ms) ∨ is_Some s.(attempt_deadline_at_ms) ∨
                   ¬ (s.(s_state) = SWaiting ∨ s.(s_state) = SComplete ∨ s.(s_state) = SFailed ∨
                      s.(s_state) = SCancelled));
      consumed ← verify_wait s consumed;
      Ok (s.(due_at_ms), consumed)
  end.

(** ** The replay graph *)

Record Scan := {
  seen : list (WorkflowStepKind * ustr);
  consumed : list Z;
  registered : Z;
  completed : Z;
  settled : Z;
  next_wake : option Z;
  batch_end : Z;
  batch_first : Z;
  batch_dependencies : list Z;
  settled_ordinals : list Z;
  has_pending : bool;
  rollback_started : bool;
  bytes : Z;
}.

Definition scan_start (i : InstanceRow) : Scan := {|
  seen := [];
  consumed := [];
  registered := 0;
  completed := 0;
  settled := 0;
  next_wake := None;
  batch_end := 0;
  batch_first := 0;
  batch_dependencies := [];
  settled_ordinals := [];
  has_pending := false;
  rollback_started := false;
  bytes := initial_state_bytes i.(identity) (str_len i.(input_json)) + opt_len i.(output_json) +
           (if i.(error_json) then reserve else 0);
|}.

Definition scan_step (i : InstanceRow) (v : Scan) (s : Step) : result PlatformError Scan :=
  let d := s.(descriptor) in
  _ ← fail_if (WorkflowStepDescriptor_validate d ≠ Ok ());
  let key := (kind d.(config), d.(name)) in
  _ ← fail_if (d.(ordinal) ≠ v.(registered) ∨
               d.(name_count) ≠ 1 + Z.of_nat (length (filter (λ k, k = key) v.(seen))));
  _ ← fail_if (d.(rollback_step) = true ∧ (d.(batch_size) ≠ 1 ∨ d.(dependencies) ≠ []));
  _ ← fail_if (d.(rollback_step) = false ∧ v.(rollback_started) = true);
  let '(first, end_, deps) :=
    if decide (v.(registered) = v.(batch_end))
    then (v.(registered), v.(registered) + d.(batch_size), d.(dependencies))
    else (v.(batch_first), v.(batch_end), v.(batch_dependencies)) in
  _ ← fail_if (d.(batch_first_ordinal) ≠ first ∨ d.(batch_size) ≠ end_ - first ∨ d.(dependencies) ≠ deps ∨
               ¬ Forall (λ p, p ∈ v.(settled_ordinals)) d.(dependencies));
  _ ← fail_if (is_some_and (λ c, i.(next_event_seq) ≤ c) s.(event_buffer_ceiling));
  r ← verify_step i s v.(consumed);
  let done := step_settled s.(s_state) in
  Ok {|
    seen := key :: v.(seen);
    consumed := r.2;
    registered := v.(registered) + 1;
    completed := v.(completed) + (if decide (s.(s_state) = SComplete) then 1 else 0);
    settled := v.(settled) + (if done then 1 else 0);
    next_wake := opt_min v.(next_wake) r.1;
    batch_end := end_;
    batch_first := first;
    batch_dependencies := deps;
    settled_ordinals := (if done then d.(ordinal) :: v.(settled_ordinals) else v.(settled_ordinals));
    has_pending := v.(has_pending) || bool_decide (s.(s_state) = SPending ∨ s.(s_state) = SRunning ∨
                                                   s.(s_state) = SDelayPending);
    rollback_started := v.(rollback_started) || d.(rollback_step);
    bytes := v.(bytes) + step_bytes s;
  |}.

Fixpoint scan_steps (i : InstanceRow) (v : Scan) (ss : list Step) : result PlatformError Scan :=
  match ss with
  | [] => Ok v
  | s :: ss => v ← scan_step i v s; scan_steps i v ss
  end.

(** ** The inbox *)

Fixpoint scan_events (i : InstanceRow) (consumed : list Z) (n size previous : Z) (es : list Event) :
    result PlatformError (Z * Z) :=
  match es with
  | [] => Ok (n, size)
  | e :: es =>
      _ ← fail_if (i.(acct).(event_count) < n + 1);
      _ ← safe_time e.(accepted_at_ms);
      _ ← fail_if (validate_workflow_event_type e.(e_type) ≠ Ok ());
      _ ← fail_if (e.(event_seq) ≤ previous ∨ i.(next_event_seq) ≤ e.(event_seq) ∨ e.(event_seq) ∈ consumed ∨
                   e.(logical_bytes) ≠ WORKFLOW_EVENT_BYTES + str_len e.(e_type) + str_len e.(e_payload) ∨
                   valid_value e.(e_payload) = false);
      scan_events i consumed (n + 1) (size + e.(logical_bytes)) e.(event_seq) es
  end.

Definition verify_events (w : Workflow) (consumed : list Z) : result PlatformError (Z * Z) :=
  r ← scan_events w.(row) consumed 0 0 0 w.(events);
  _ ← fail_if (Exists (λ seq, w.(row).(next_event_seq) ≤ seq) consumed);
  Ok r.

(** ** The whole instance *)

(** The edges, ordered by child and parent. *)
Definition edges_ok (ss : list Step) : Prop :=
  sql_sum (λ s, Z.of_nat (length s.(descriptor).(dependencies))) ss ≤ 16384 ∧
  Forall (λ s, Forall (λ p, p < s.(descriptor).(ordinal)) s.(descriptor).(dependencies)) ss.
#[export] Instance edges_ok_dec ss : Decision (edges_ok ss).
Proof. unfold edges_ok. apply _. Defined.

(** A step carries its rows of [workflow_step_dependencies] as the list of its descriptor, which
    the code reads from them; [edges_ok] has the bounds and the order of parents before
    children.  Rows without a step, or beside the count in the step, have no counterpart, nor
    have the checks that look for them. *)
Definition verify (w : Workflow) : result PlatformError unit :=
  let i := w.(row) in let a := i.(acct) in
  _ ← fail_if (¬ edges_ok w.(steps));
  v ← scan_steps i (scan_start i) (take 1025 w.(steps));
  e ← verify_events w v.(consumed);
  _ ← fail_if (v.(registered) ≠ v.(batch_end) ∨ v.(registered) ≠ a.(registered_step_count) ∨
               v.(completed) ≠ a.(completed_step_count) ∨ v.(settled) ≠ a.(settled_step_count) ∨
               v.(next_wake) ≠ a.(next_wake_at_ms) ∨ e.1 ≠ a.(event_count) ∨ e.2 ≠ a.(event_bytes) ∨
               v.(bytes) + e.2 ≠ a.(state_bytes) ∨
               (i.(state) = WComplete ∧ v.(settled) ≠ v.(registered)) ∨
               (i.(state) = WWaiting ∧ (v.(next_wake) = None ∨ v.(has_pending) = true)) ∨
               ((0 < v.(registered) ∨ i.(state) = WRunning) ∧ i.(has_activated) = false) ∨
               ¬ (i.(identity).(instance_generation) = 1 ↔ i.(last_restart_operation_id) = None) ∨
               (v.(rollback_started) = true ∧ i.(rollback_requested) = false ∧ i.(state) ≠ WTerminated));
  verify_instance i.

Definition verify_row (w : Workflow) : result PlatformError unit :=
  i ← instance_row w;
  digest ← version_digest i.(identity).(target);
  _ ← fail_if (digest ≠ i.(identity).(target).(descriptor_sha256));
  _ ← fail_if (valid_value i.(input_json) = false);
  _ ← fail_if (is_some_and (λ o, valid_value o = false) i.(output_json));
  verify w.

Definition verify_workflow_history (id : N) : WM unit :=
  o ← gets (λ db, db.(workflows) !! id);
  w ← some_or o (storage_error WorkflowInstanceNotFound);
  lift (verify_row w).
End history.

(** ** The doctor's count *)

(** [workflow_invalid_rows] on one instance; the position of a row is its ordinal. *)
Definition invalid_row (w : Workflow) : Prop :=
  let i := w.(row) in
  i.(acct) ≠ accounting w ∨
  (i.(state) = WComplete ∧ i.(acct).(settled_step_count) ≠ i.(acct).(registered_step_count)) ∨
  (i.(state) ≠ WRunning ∧ Exists (λ s, s.(s_state) = SRunning) w.(steps)) ∨
  (is_terminal i.(state) = true ∧
     Exists (λ s, unfinished s.(s_state) = true ∧ s.(s_state) ≠ SRunning) w.(steps)) ∨
  (i.(state) = WWaiting ∧ (i.(acct).(next_wake_at_ms) = None ∨
     Exists (λ s, s.(s_state) = SPending ∨ s.(s_state) = SDelayPending) w.(steps))) ∨
  Exists (λ p : nat * Step,
    (p.2.(s_state) = SRunning ∧ p.2.(s_run_token) ≠ run_token <$> i.(run)) ∨
    p.2.(descriptor).(ordinal) ≠ Z.of_nat p.1 ∨
    p.2.(descriptor).(name_count) ≠
      1 + count (λ q, s_kind q = s_kind p.2 ∧ q.(descriptor).(name) = p.2.(descriptor).(name))
            (take p.1 w.(steps))) (imap pair w.(steps)).
#[export] Instance invalid_row_dec w : Decision (invalid_row w).
Proof. unfold invalid_row. apply _. Defined.

Definition workflow_invalid_rows (db : WorkflowDb) : Z :=
  Z.of_nat (length (filter (λ p, invalid_row p.2) (map_to_list db.(workflows)))).
