(* ===== verification/WorkflowLifecycle.v ===== *)
(** * Workflow lifecycle

    [workflow.rs], [durable_lifecycle.rs] and [durable_due.rs] of
    [crates/storage/src/scheduler]: creation of a batch of instances, pause, resume,
    terminate and rollback, and the bounded maintenance of due deadlines. *)

From stdpp Require Import base numbers list option strings sorting gmap.
From S2P Require Import Prelude Text ErrorCodes Duration RetryPolicy WorkflowTypes Sql WorkflowDb WorkflowRuns WorkflowSteps.

Local Open Scope Z_scope.

(** ** Creation *)

Definition fresh_instance (id : WorkflowInstanceIdentity) (input : ustr) (r : WorkflowRetention) : InstanceRow := {|
  identity := id;
  input_json := input;
  retention := r;
  state := WQueued;
  output_json := None;
  error_json := None;
  error_code := None;
  next_run_at_ms := Some id.(created_at_ms);
  run := None;
  updated_at_ms := id.(created_at_ms);
  terminal_at_ms := None;
  expires_at_ms := None;
  pause_requested := false;
  yield_requested := false;
  rollback_requested := false;
  last_restart_operation_id := None;
  last_restart_from := None;
  last_restart_target_ordinal := None;
  acct := {| registered_step_count := 0; settled_step_count := 0; completed_step_count := 0; event_count := 0;
             event_bytes := 0; next_wake_at_ms := None;
             state_bytes := initial_state_bytes id (str_len input) |};
  next_event_seq := 1;
  has_activated := false;
|}.

(** The constraints of an [INSERT INTO workflow_instances]. *)
Definition insert_ok (db : WorkflowDb) (i : InstanceRow) : Prop :=
  let id := i.(identity) in
  db.(workflows) !! id.(instance_id) = None ∧
  map_Forall (λ _ w, w.(row).(identity).(creation_operation_id) ≠ id.(creation_operation_id) ∧
    ¬ (w.(row).(identity).(target).(definition_id) = id.(target).(definition_id) ∧
       w.(row).(identity).(external_instance_id) = id.(external_instance_id))) db.(workflows) ∧
  length id.(target).(worker_code_sha256) = 32%nat ∧ length id.(target).(descriptor_sha256) = 32%nat ∧
  is_none_or (λ c, 1 ≤ Z.of_nat (length c.(cron)) ≤ 256 ∧ 0 ≤ c.(scheduled_time)) id.(schedule) ∧
  instance_check i ∧ id.(instance_generation) = 1.
#[export] Instance insert_ok_dec db i : Decision (insert_ok db i).
Proof. unfold insert_ok. apply _. Defined.

Definition insert_instance (i : InstanceRow) : WM unit := λ db,
  if decide (insert_ok db i)
  then (set_workflow i.(identity).(instance_id) {| row := i; steps := []; events := [] |} db, Ok ())
  else (db, Err violation).

Abbreviation Creation := (WorkflowInstanceIdentity * ustr * WorkflowRetention)%type.

Section create.
Context `{Codec}.

Definition prepare (r : WorkflowInstanceIdentity * ustr * option WorkflowRetention) :
    result PlatformError Creation :=
  let '(id, input, retention) := r in
  retention ← ok_or_else retention violation;
  _ ← WorkflowRetention_validate retention;
  _ ← bail_if (Z.abs id.(created_at_ms) > WORKFLOW_MAX_SAFE_INTEGER) (storage_error WorkflowDurationInvalid);
  _ ← validate_workflow_instance_id id.(external_instance_id);
  input ← durable_value_base64 input WorkflowPayloadTooLarge;
  _ ← bail_if (id.(instance_generation) ≠ 1) violation;
  digest ← version_digest id.(target);
  _ ← bail_if (digest ≠ id.(target).(descriptor_sha256)) violation;
  Ok (id, input, retention).

Fixpoint prepare_all (rs : list (WorkflowInstanceIdentity * ustr * option WorkflowRetention)) :
    result PlatformError (list Creation) :=
  match rs with
  | [] => Ok []
  | r :: rs => p ← prepare r; ps ← prepare_all rs; Ok (p :: ps)
  end.

Definition by_operation (db : WorkflowDb) (op : N) : option Workflow :=
  snd <$> head (filter (λ p, p.2.(row).(identity).(creation_operation_id) = op) (map_to_list db.(workflows))).

(** Whether a stored instance is the exact replay of a creation. *)
Definition replays (w : Workflow) (p : Creation) : Prop :=
  w.(row).(identity) = p.1.1 ∧ w.(row).(input_json) = p.1.2 ∧ w.(row).(retention) = p.2.
#[export] Instance replays_dec w p : Decision (replays w p).
Proof. unfold replays. apply _. Defined.

Definition initial_bytes (p : Creation) : Z := initial_state_bytes p.1.1 (str_len p.1.2).

(** Atomically insert or replay every exact identity of one create batch. *)
Definition insert_workflows (rs : list (WorkflowInstanceIdentity * ustr * option WorkflowRetention))
    (limits : WorkflowsConfig) : WM unit := transaction (
  _ ← throw_if (rs = [] ∨ (100 < length rs)%nat) (storage_error WorkflowMethodUnsupported);
  _ ← lift (WorkflowsConfig_validate limits);
  ps ← lift (prepare_all rs);
  p0 ← some_or (head ps) violation;
  let batch := p0.1.1.(creation_batch_id) in
  _ ← throw_if (¬ Forall (λ p : Creation, p.1.1.(creation_batch_id) = batch) ps) violation;
  existing ← gets (λ db, (λ p : Creation, by_operation db p.1.1.(creation_operation_id)) <$> ps);
  batch_count ← gets (λ db, size (filter (λ p : N * Workflow,
                       p.2.(row).(identity).(creation_batch_id) = batch) db.(workflows)));
  if decide (Exists is_Some existing) then
    throw_if (¬ Forall is_Some existing ∨ batch_count ≠ length ps ∨
              ¬ Forall (λ q : option Workflow * Creation, is_some_and (λ w, readable w.(row) ∧ replays w q.2) q.1)
                  (zip existing ps)) violation
  else
    _ ← throw_if (batch_count ≠ 0%nat) violation;
    owner ← gets owner;
    _ ← throw_if (¬ Forall (λ p : Creation, p.1.1.(target).(t_instance_id) = owner) ps) violation;
    counts ← gets (λ db, (Z.of_nat (size db.(workflows)),
      Z.of_nat (size (filter (λ p : N * Workflow, live p.2.(row) = true) db.(workflows))),
      Z.of_nat (size (filter (λ p : N * Workflow, p.2.(row).(identity).(target).(definition_id) =
                               p0.1.1.(target).(definition_id)) db.(workflows)))));
    let '(total, active, per_definition) := counts in
    let added := Z.of_nat (length ps) in
    _ ← throw_if (¬ Forall (λ p : Creation, p.1.1.(target).(definition_id) = p0.1.1.(target).(definition_id)) ps ∨
                  limits.(max_instances) < total + added ∨ limits.(max_active) < active + added ∨
                  limits.(max_instances_per_definition) < per_definition + added)
          (storage_error WorkflowStateQuotaExceeded);
    _ ← throw_if (¬ Forall (λ p, initial_bytes p + reserve ≤ limits.(max_state_bytes)) ps)
          (storage_error WorkflowStateQuotaExceeded);
    _ ← capacity 0 (sql_sum (λ p, initial_bytes p + reserve) ps) false limits;
    _ ← for_each (λ p : Creation, insert_instance (fresh_instance p.1.1 p.1.2 p.2)) ps;
    mret ()).
End create.

(** ** Pause, resume, terminate, rollback *)

Inductive WorkflowInstanceAction : Type := Pause | Resume | Terminate.

Section lifecycle.
Context `{Codec}.

Definition set_rollback (now_ms : Z) (i : InstanceRow) : InstanceRow :=
  {| i with state := WQueued; next_run_at_ms := Some now_ms; run := None; pause_requested := false;
            yield_requested := false; rollback_requested := true; updated_at_ms := now_ms |}.

(** Fence normal execution and queue a replay that runs the rollback handlers. *)
Definition request_workflow_rollback (id : WorkflowInstanceIdentity) (now_ms : Z) (limits : WorkflowsConfig) :
    WM unit := transaction (
  _ ← lift (WorkflowsConfig_validate limits);
  _ ← lift (durable_deadline now_ms 0);
  o ← select_instance id.(instance_id) (λ _, True);
  i ← some_or o (storage_error WorkflowInstanceNotFound);
  _ ← throw_if (i.(identity) ≠ id) (storage_error WorkflowRunStale);
  _ ← throw_if (is_terminal i.(state) = true) (storage_error WorkflowInstanceStateConflict);
  if i.(rollback_requested) then mret ()
  else
    _ ← cancel_unfinished id.(instance_id) now_ms;
    _ ← execute id.(instance_id) (update_instance true (set_rollback now_ms));
    modify wf_notify).

(** The steps a resume must settle first. *)
Definition resume_due (now_ms : Z) (s : Step) : Prop :=
  s.(s_state) = SDelayPending ∨
  (s.(s_state) = SWaiting ∧ is_some_and (λ d, d ≤ now_ms) s.(due_at_ms)) ∨
  (s.(s_state) = SPending ∧ 0 < s.(attempt) ∧ is_some_and (λ d, d ≤ now_ms) s.(attempt_deadline_at_ms)).
#[export] Instance resume_due_dec now s : Decision (resume_due now s).
Proof. unfold resume_due. apply _. Defined.

Definition resume_step (i : InstanceRow) (now_ms : Z) (limits : WorkflowsConfig) (o : Z) : WM unit :=
  let id := i.(identity).(instance_id) in
  step ← read_step id o;
  s ← some_or step violation;
  match s.(s_state) with
  | SWaiting => _ ← settle i s now_ms limits; mret ()
  | SDelayPending => mret ()
  | _ => _ ← step_timeout id s now_ms; mret ()
  end.

(** Whether a resumed instance has work to activate for. *)
Definition resume_ready (now_ms : Z) (w : Workflow) : Prop :=
  w.(row).(acct).(registered_step_count) = w.(row).(acct).(settled_step_count) ∨
  Exists (λ s, s.(s_state) = SPending ∨ s.(s_state) = SDelayPending ∨
    (s.(s_state) = SRetryWait ∧ is_some_and (λ d, d ≤ now_ms) s.(due_at_ms))) w.(steps).
#[export] Instance resume_ready_dec now w : Decision (resume_ready now w).
Proof. unfold resume_ready. apply _. Defined.

Definition resume (i : InstanceRow) (now_ms : Z) (limits : WorkflowsConfig) : WM unit :=
  let id := i.(identity).(instance_id) in
  _ ← throw_if (i.(state) ≠ WPaused) (storage_error WorkflowInstanceStateConflict);
  ss ← steps_of id;
  _ ← for_each (resume_step i now_ms limits)
        ((λ s, s.(descriptor).(ordinal)) <$> filter (resume_due now_ms) ss);
  o ← gets (λ db, db.(workflows) !! id);
  w ← some_or o violation;
  let ready := bool_decide (resume_ready now_ms w) in
  execute id (update_instance true
    (λ i, {| i with state := (if ready then WQueued else WWaiting);
                    next_run_at_ms := (if ready then Some now_ms else None); updated_at_ms := now_ms |})).

Definition pause (i : InstanceRow) (now_ms : Z) : WM unit :=
  let id := i.(identity).(instance_id) in
  match i.(state) with
  | WPaused => mret ()
  | WRunning =>
      if i.(pause_requested) then mret ()
      else execute id (update_instance false (λ i, {| i with pause_requested := true; updated_at_ms := now_ms |}))
  | WQueued | WWaiting =>
      execute id (update_instance true
        (λ i, {| i with state := WPaused; next_run_at_ms := None; updated_at_ms := now_ms |}))
  | _ => throw (storage_error WorkflowInstanceStateConflict)
  end.

Definition set_terminated (now_ms expires : Z) (i : InstanceRow) : InstanceRow :=
  {| i with state := WTerminated; next_run_at_ms := None; run := None; pause_requested := false;
            yield_requested := false; rollback_requested := false; terminal_at_ms := Some now_ms;
            expires_at_ms := Some expires; updated_at_ms := now_ms |}.

Definition terminate (i : InstanceRow) (now_ms : Z) : WM unit :=
  let id := i.(identity).(instance_id) in
  _ ← cancel_unfinished id now_ms;
  expires ← lift (expires_at i.(retention) now_ms false);
  execute id (update_instance true (set_terminated now_ms expires)).

(** Apply an admitted lifecycle action to an exact current generation. *)
Definition modify_workflow (id : WorkflowInstanceIdentity) (action : WorkflowInstanceAction) (now_ms : Z)
    (limits : WorkflowsConfig) : WM unit := transaction (
  _ ← lift (WorkflowsConfig_validate limits);
  _ ← lift (durable_deadline now_ms 0);
  o ← select_instance id.(instance_id) (λ _, True);
  i ← some_or o (storage_error WorkflowInstanceNotFound);
  _ ← throw_if (i.(identity) ≠ id) (storage_error WorkflowRunStale);
  _ ← throw_if (is_some_and (λ e, e ≤ now_ms) i.(expires_at_ms)) (storage_error WorkflowInstanceNotFound);
  _ ← throw_if (is_terminal i.(state) = true) (storage_error WorkflowInstanceStateConflict);
  _ ← match action with
      | Pause => pause i now_ms
      | Resume => resume i now_ms limits
      | Terminate => terminate i now_ms
      end;
  modify wf_notify).

(** ** Due deadlines *)

(** One of the four indexed sources, with its deadline column. *)
Definition due_source (P : InstanceRow → Step → Prop) `{!∀ i s, Decision (P i s)} (col : Step → option Z)
    (now_ms limit : Z) (db : WorkflowDb) : list (Z * Z * Z) :=
  let rows := w ← (snd <$> map_to_list db.(workflows));
    s ← filter (λ s, P w.(row) s ∧ is_some_and (λ d, d ≤ now_ms) (col s)) w.(steps);
    [(default 0 (col s), Z.of_N w.(row).(identity).(instance_id), s.(descriptor).(ordinal))] in
  take (Z.to_nat limit) (order_by (λ r, [r.1.1; r.1.2; r.2]) rows).

Definition due_steps (now_ms limit : Z) (db : WorkflowDb) : list (N * Z) :=
  let rows :=
    due_source (λ i s, s.(s_state) = SWaiting ∧ live i = true) due_at_ms now_ms limit db ++
    due_source (λ i s, s.(s_state) = SPending ∧ 0 < s.(attempt) ∧ live i = true) attempt_deadline_at_ms
      now_ms limit db ++
    due_source (λ i s, s.(s_state) = SDelayPending ∧ live i = true) (λ s, Some s.(s_updated_at_ms))
      now_ms limit db ++
    due_source (λ i s, s.(s_state) = SRetryWait ∧ i.(state) = WWaiting) due_at_ms now_ms limit db in
  (λ r : Z * Z * Z, (Z.to_N r.1.2, r.2)) <$>
    take (Z.to_nat limit) (order_by (λ r : Z * Z * Z, [r.1.1; r.1.2; r.2]) rows).

Definition maintain_one (now_ms : Z) (limits : WorkflowsConfig) (p : N * Z) : WM unit :=
  let '(id, o) := p in
  q ← select_instance id (λ _, True);
  i ← some_or q violation;
  step ← read_step id o;
  s ← some_or step violation;
  ready ← match s.(s_state) with
    | SWaiting => r ← settle i s now_ms limits; mret (negb (suspended r))
    | SPending => r ← step_timeout id s now_ms; mret (negb (suspended r))
    | SDelayPending | SRetryWait => mret true
    | _ => throw violation
    end;
  if (ready : bool) then wake id now_ms else mret ().

(** Settle at most one bounded page of due waits and recovered timeouts. *)
Definition maintain_workflow_due (now_ms : Z) (limits : WorkflowsConfig) (limit : Z) : WM Z := transaction (
  _ ← lift (WorkflowsConfig_validate limits);
  _ ← lift (bounded limit);
  page ← gets (due_steps now_ms limit);
  _ ← for_each (maintain_one now_ms limits) page;
  _ ← (if decide (page ≠ []) then modify wf_notify else mret ());
  mret (Z.of_nat (length page))).
End lifecycle.
