(* ===== verification/WorkflowOperations.v ===== *)
(** * Workflow restart and purge

    [durable_operations.rs], [durable_progress.rs] and [durable_gc.rs] of
    [crates/storage/src/scheduler/workflow]: the exact commit of a prepared restart or
    purge, the monotonic watermark that makes it replayable, and the sweep of purge
    receipts. *)

From stdpp Require Import base numbers list option strings sorting gmap.
From S2P Require Import Prelude Text ErrorCodes Duration RetryPolicy WorkflowTypes Sql WorkflowDb WorkflowRuns WorkflowSteps WorkflowHistory.

Local Open Scope Z_scope.

Record WorkflowOperation := {
  op_id : N;
  op_identity : WorkflowInstanceIdentity;
  op_kind : WorkflowOperationKind;
  op_restart_from : option WorkflowRestartSelector;
  op_target_generation : Z;
  op_prior_state : WorkflowRefState;
  op_created_at_ms : Z;
  op_sequence : Z;
}.
#[export] Instance WorkflowOperation_eq_dec : EqDecision WorkflowOperation.
Proof. solve_decision. Defined.

Inductive WorkflowOperationResult : Type :=
| Applied (op : WorkflowOperation)
| Rejected (op : WorkflowOperation) (code : ErrorCode).

Definition set_progress (id : N) (p : Progress) (db : WorkflowDb) : WorkflowDb :=
  {| db with progress := <[id := p]> db.(progress) |}.

(** ** The watermark *)

Definition rejection (c : ErrorCode) : bool :=
  match c with
  | WorkflowInstanceNotFound | WorkflowInstanceStateConflict | WorkflowStateQuotaExceeded => true
  | _ => false
  end.

(** The marker a restart leaves on its instance. *)
Definition restart_applied (p : Progress) (i : InstanceRow) : Prop :=
  i.(identity).(creation_nonce) = p.(p_nonce) ∧
  i.(identity).(instance_generation) = p.(p_target_generation) ∧
  i.(last_restart_operation_id) = Some p.(p_operation) ∧ i.(last_restart_from) = p.(p_restart_from) ∧
  i.(last_restart_target_ordinal) = p.(p_restart_target).
#[export] Instance restart_applied_dec p i : Decision (restart_applied p i).
Proof. unfold restart_applied. apply _. Defined.

Definition purge_applied (p : Progress) (g : GcReceipt) : Prop :=
  g.(g_operation) = p.(p_operation) ∧ g.(g_nonce) = p.(p_nonce) ∧ g.(g_generation) = p.(p_expected_generation).
#[export] Instance purge_applied_dec p g : Decision (purge_applied p g).
Proof. unfold purge_applied. apply _. Defined.

(** [INVALID_PROGRESS] does not count the row of an instance. *)
Definition progress_valid (db : WorkflowDb) (id : N) (p : Progress) : Prop :=
  match p.(p_error_code) with
  | Some c =>
      rejection c = true ∧
      is_some_and (λ w, w.(row).(identity).(creation_nonce) = p.(p_nonce) ∧
                        w.(row).(identity).(instance_generation) = p.(p_expected_generation))
        (db.(workflows) !! id)
  | None =>
      match p.(p_kind) with
      | Restart => is_some_and (λ w, restart_applied p w.(row)) (db.(workflows) !! id)
      | Purge => db.(workflows) !! id = None ∧ is_some_and (purge_applied p) (db.(gc_receipts) !! id)
      end
  end.
#[export] Instance progress_valid_dec db id p : Decision (progress_valid db id p).
Proof. unfold progress_valid. destruct (p_error_code p), (p_kind p); apply _. Defined.

Definition verify_one (id : N) : WM unit :=
  ok ← gets (λ db, bool_decide (is_none_or (progress_valid db id) (db.(progress) !! id)));
  throw_if (ok = false) violation.

(** Whether a stored decision is the one of this exact operation. *)
Definition same_operation (p : Progress) (op : WorkflowOperation) : Prop :=
  p.(p_operation) = op.(op_id) ∧ p.(p_nonce) = op.(op_identity).(creation_nonce) ∧
  p.(p_expected_generation) = op.(op_identity).(instance_generation) ∧
  p.(p_target_generation) = op.(op_target_generation) ∧ p.(p_kind) = op.(op_kind) ∧
  p.(p_restart_from) = op.(op_restart_from).
#[export] Instance same_operation_dec p op : Decision (same_operation p op).
Proof. unfold same_operation. apply _. Defined.

Definition read_decision (op : WorkflowOperation) : WM (option WorkflowOperationResult) :=
  let id := op.(op_identity).(instance_id) in
  o ← gets (λ db, db.(progress) !! id);
  match o with
  | None => mret None
  | Some p =>
      if decide (p.(p_sequence) < op.(op_sequence)) then mret None
      else
        _ ← throw_if (op.(op_sequence) < p.(p_sequence)) (storage_error WorkflowRunStale);
        _ ← throw_if (¬ same_operation p op) violation;
        _ ← verify_one id;
        match p.(p_error_code), op.(op_kind) with
        | None, Restart =>
            q ← select_instance id (λ _, True);
            i ← some_or q violation;
            _ ← throw_if (i.(identity) ≠
                  {| op.(op_identity) with instance_generation := op.(op_target_generation) |}) violation;
            _ ← throw_if (i.(last_restart_operation_id) ≠ Some op.(op_id) ∨
                          i.(last_restart_from) ≠ p.(p_restart_from) ∨
                          i.(last_restart_target_ordinal) ≠ p.(p_restart_target)) violation;
            mret (Some (Applied op))
        | None, Purge => mret (Some (Applied op))
        | Some c, _ =>
            _ ← throw_if (rejection c = false) violation;
            q ← select_instance id (λ _, True);
            i ← some_or q violation;
            _ ← throw_if (i.(identity) ≠ op.(op_identity)) violation;
            mret (Some (Rejected op c))
        end
  end.

(** The upsert, with [workflow_progress_insert_guard] and [workflow_progress_update_guard]. *)
Definition progress_check (p : Progress) : Prop :=
  1 ≤ p.(p_sequence) ∧ 1 ≤ p.(p_expected_generation) ∧
  p.(p_target_generation) = p.(p_expected_generation) + (if decide (p.(p_kind) = Restart) then 1 else 0) ∧
  p.(p_target_generation) ≤ i64_max ∧
  is_none_or (λ c, rejection c = true) p.(p_error_code) ∧
  match p.(p_restart_from) with
  | None => p.(p_restart_target) = None
  | Some s => p.(p_kind) = Restart ∧ 1 ≤ str_len s.(sel_name) ≤ 256 ∧ 1 ≤ s.(sel_count) ≤ 1024 ∧
      is_none_or (λ t, 0 ≤ t ≤ 1023) p.(p_restart_target) ∧
      (p.(p_error_code) = None → is_Some p.(p_restart_target))
  end.
#[export] Instance progress_check_dec p : Decision (progress_check p).
Proof. unfold progress_check. destruct (p_restart_from p); apply _. Defined.

Definition upsert_progress (id : N) (p : Progress) : WM unit := λ db,
  if decide (progress_check p ∧ progress_valid db id p ∧
             is_none_or (λ o, o.(p_nonce) = p.(p_nonce) ∧ o.(p_sequence) < p.(p_sequence)) (db.(progress) !! id) ∧
             map_Forall (λ id' o, id' ≠ id → o.(p_operation) ≠ p.(p_operation)) db.(progress))
  then (set_progress id p db, Ok ()) else (db, Err violation).

Definition decide_operation (op : WorkflowOperation) (restart_target : option Z) (code : option ErrorCode)
    (now_ms : Z) : WM WorkflowOperationResult :=
  _ ← upsert_progress op.(op_identity).(instance_id) {|
        p_operation := op.(op_id); p_sequence := op.(op_sequence);
        p_nonce := op.(op_identity).(creation_nonce);
        p_expected_generation := op.(op_identity).(instance_generation);
        p_target_generation := op.(op_target_generation); p_kind := op.(op_kind);
        p_restart_from := op.(op_restart_from); p_restart_target := restart_target;
        p_error_code := code; p_decided_at_ms := now_ms |};
  o ← read_decision op;
  some_or o violation.

(** ** Restart *)

Record RestartProjection := {
  target_ordinal : option Z;
  retain_step_count : Z;
  j_next_event_seq : Z;
  j_state_bytes : Z;
  reserved : Z;
}.

Definition selects (sel : WorkflowRestartSelector) (s : Step) : Prop :=
  s.(descriptor).(name) = sel.(sel_name) ∧ s.(descriptor).(name_count) = sel.(sel_count) ∧
  is_none_or (λ t, restart_matches t (s_kind s) = true) sel.(step_type).
#[export] Instance selects_dec sel s : Decision (selects sel s).
Proof. unfold selects. apply _. Defined.

Definition restart_projection (w : Workflow) (op : WorkflowOperation) : result PlatformError RestartProjection :=
  let i := w.(row) in
  let base := initial_state_bytes i.(identity) (str_len i.(input_json)) in
  match op.(op_restart_from) with
  | None => Ok {| target_ordinal := None; retain_step_count := 0; j_next_event_seq := 1;
                  j_state_bytes := base; reserved := 1 |}
  | Some sel =>
      _ ← WorkflowRestartSelector_validate sel;
      match take 2 (filter (λ s, selects sel s ∧ s.(descriptor).(rollback_step) = false) w.(steps)) with
      | [s] =>
          let target := s.(descriptor).(ordinal) in
          let retain := s.(descriptor).(batch_first_ordinal) + s.(descriptor).(batch_size) in
          _ ← bail_if (¬ (target < retain ≤ 1024)) violation;
          let prefix := take (Z.to_nat target) w.(steps) in
          let retained := take (Z.to_nat retain) w.(steps) in
          _ ← bail_if (count (λ s, s.(s_state) = SComplete) prefix ≠ target ∨
                       Z.of_nat (length retained) ≠ retain) (storage_error WorkflowInstanceStateConflict);
          let history := sql_sum (λ s, descriptor_bytes s.(descriptor)) retained +
                         sql_sum (λ s, opt_len (output_text <$> s.(s_output))) prefix in
          let unfinished := count (λ s, s_kind s = KDo ∨ s_kind s = KWaitEvent)
                              (drop (Z.to_nat target) retained) in
          Ok {| target_ordinal := Some target; retain_step_count := retain;
                j_next_event_seq := i.(next_event_seq); j_state_bytes := base + history;
                reserved := 1 + unfinished |}
      | _ => Err (storage_error WorkflowInstanceStateConflict)
      end
  end.

Definition restart_capacity (w : Workflow) (j : RestartProjection) (limits : WorkflowsConfig) : WM unit :=
  active ← gets (λ db, Z.of_nat (size (filter (λ p : N * Workflow, live p.2.(row) = true) db.(workflows))));
  _ ← throw_if (is_terminal w.(row).(state) = true ∧ limits.(max_active) ≤ active)
        (storage_error WorkflowStateQuotaExceeded);
  capacity_change w.(row).(identity).(instance_id) (j.(j_state_bytes) - w.(row).(acct).(state_bytes))
    (j.(reserved) - reservations w) limits.

(** [workflow_context_insert_guard] and the constraints of the context of a restart *)
Definition restart_context_ok (w : Workflow) (op : WorkflowOperation) (c : RestartContext) (now_ms : Z) : Prop :=
  let i := w.(row) in
  c.(x_target_generation) = i.(identity).(instance_generation) + 1 ∧
  i.(identity).(instance_generation) < i64_max ∧
  i.(identity).(creation_nonce) = op.(op_identity).(creation_nonce) ∧
  i.(identity).(instance_generation) = op.(op_identity).(instance_generation) ∧
  is_none_or (λ e, now_ms < e) i.(expires_at_ms) ∧
  c.(x_next_event_seq) = (if c.(x_from) then i.(next_event_seq) else 1) ∧
  match c.(x_from) with
  | None => c.(x_target_ordinal) = None ∧ c.(x_retain) = 0
  | Some sel =>
      is_some_and (λ t,
        is_some_and (λ s, selects sel s ∧
            c.(x_retain) = s.(descriptor).(batch_first_ordinal) + s.(descriptor).(batch_size))
          (w.(steps) !! Z.to_nat t) ∧
        count (selects sel) w.(steps) = 1 ∧
        t = count (λ s, s.(s_state) = SComplete) (take (Z.to_nat t) w.(steps)) ∧
        c.(x_retain) = Z.of_nat (length (take (Z.to_nat c.(x_retain)) w.(steps))) ∧ t < c.(x_retain))
      c.(x_target_ordinal)
  end.
#[export] Instance restart_context_ok_dec w op c now : Decision (restart_context_ok w op c now).
Proof. unfold restart_context_ok. destruct (x_from c); apply _. Defined.

Definition set_restarted (op : WorkflowOperation) (j : RestartProjection) (now_ms : Z) (i : InstanceRow) :
    InstanceRow :=
  let a := i.(acct) in
  {| i with identity := {| i.(identity) with instance_generation := op.(op_target_generation) |};
            state := WQueued; next_run_at_ms := Some now_ms; output_json := None; error_json := None;
            error_code := None; run := None; pause_requested := false; yield_requested := false;
            rollback_requested := false; terminal_at_ms := None; expires_at_ms := None;
            next_event_seq := j.(j_next_event_seq);
            has_activated := bool_decide (0 < j.(retain_step_count));
            last_restart_operation_id := Some op.(op_id); last_restart_from := op.(op_restart_from);
            last_restart_target_ordinal := j.(target_ordinal); updated_at_ms := now_ms;
            acct := {| a with state_bytes := initial_state_bytes i.(identity) (str_len i.(input_json)) |} |}.

(** A retained row: complete before the target, registered afresh from it on. *)
Definition retained_step (t next_event_seq now_ms : Z) (s : Step) : Step :=
  if decide (s.(descriptor).(ordinal) < t) then
    {| s with s_run_token := None; s_step_token := None; s_error_json := None; s_error_code := None |}
  else {|
    descriptor := s.(descriptor);
    s_state := if decide (s_kind s = KDo) then SPending else SWaiting;
    attempt := 0;
    s_run_token := None;
    s_step_token := None;
    s_output := None;
    s_error_json := None;
    s_error_code := None;
    started_at_ms := now_ms;
    s_updated_at_ms := now_ms;
    completed_at_ms := None;
    attempt_started_at_ms := None;
    attempt_deadline_at_ms := None;
    due_at_ms := match s.(descriptor).(config) with
                 | CDo _ => None
                 | CSleep duration => Some (now_ms + duration)
                 | CSleepUntil timestamp => Some timestamp
                 | CWaitEvent _ timeout_ms => Some (now_ms + timeout_ms)
                 end;
    retry_delay_ms := None;
    cancelled_at_ms := None;
    event_buffer_ceiling := if decide (s_kind s = KWaitEvent) then Some (next_event_seq - 1) else None;
    consumed_event_seq := None;
  |}.

(** The [INSERT] of a retained row under its context. *)
Definition insert_retained (c : RestartContext) (t : Z) (s : Step) (w : Workflow) : option Workflow :=
  let o := s.(descriptor).(ordinal) in
  if decide (step_check s ∧ descriptor_check s.(descriptor) ∧ s.(descriptor).(rollback_step) = false ∧
             o < c.(x_retain) ∧
             ((o < t ∧ s.(s_state) = SComplete) ∨
              (t ≤ o ∧ s.(attempt) = 0 ∧ s.(s_state) = (if decide (s_kind s = KDo) then SPending else SWaiting) ∧
               (s_kind s = KWaitEvent → s.(event_buffer_ceiling) = Some (w.(row).(next_event_seq) - 1)))) ∧
             Forall (λ p, p < o) s.(descriptor).(dependencies))
  then account 0 {| w with steps := w.(steps) ++ [s] |} else None.

(** The statements of a restart: clear the generation, move to the next one, keep the
    retained prefix. *)
Definition restart_rows (op : WorkflowOperation) (j : RestartProjection) (now_ms : Z) (w : Workflow) :
    option Workflow :=
  let c := {| x_operation := op.(op_id); x_target_generation := op.(op_target_generation);
              x_from := op.(op_restart_from); x_target_ordinal := j.(target_ordinal);
              x_retain := j.(retain_step_count); x_next_event_seq := j.(j_next_event_seq) |} in
  if decide (restart_context_ok w op c now_ms) then
    let cleared := {| w with steps := []; events := [] |} in
    let cleared := {| cleared with row := {| w.(row) with acct := accounting cleared |} |} in
    let n := set_restarted op j now_ms cleared.(row) in
    let w' := {| cleared with row := n |} in
    if decide (instance_check n ∧ n.(acct) = accounting w' ∧ generation_ok c n) then
      let t := default 0 j.(target_ordinal) in
      foldl (λ acc s, w ← acc; insert_retained c t (retained_step t j.(j_next_event_seq) now_ms s) w)
        (Some w') (take (Z.to_nat j.(retain_step_count)) w.(steps))
    else None
  else None.

(** ** Purge *)

(** Delete the receipts and the instance, and leave the purge receipt. *)
Definition purge_rows (op : WorkflowOperation) (now_ms : Z) : WM unit := λ db,
  let id := op.(op_identity) in
  match db.(workflows) !! id.(instance_id) with
  | Some w =>
      if decide (is_terminal w.(row).(state) = true ∧
                 w.(row).(identity).(creation_nonce) = id.(creation_nonce) ∧
                 w.(row).(identity).(instance_generation) = id.(instance_generation) ∧
                 db.(gc_receipts) !! id.(instance_id) = None ∧
                 map_Forall (λ _ g, g.(g_operation) ≠ op.(op_id) ∧
                                    g.(g_creation_operation) ≠ id.(creation_operation_id)) db.(gc_receipts))
      then ({| db with
                 receipts := filter (λ p : N * EventReceipt, p.2.(r_instance) ≠ id.(instance_id)) db.(receipts);
                 workflows := delete id.(instance_id) db.(workflows);
                 gc_receipts := <[id.(instance_id) := {|
                   g_operation := op.(op_id); g_nonce := id.(creation_nonce);
                   g_creation_operation := id.(creation_operation_id);
                   g_generation := id.(instance_generation); g_deleted_at_ms := now_ms |}]> db.(gc_receipts) |},
            Ok ())
      else (db, Err violation)
  | None => (db, Err violation)
  end.

Section operations.
Context `{Codec}.

(** The projection of an admitted restart, or the code of a definitive rejection. *)
Definition admit_operation (w : Workflow) (op : WorkflowOperation) (now_ms : Z) (limits : WorkflowsConfig) :
    WM (option RestartProjection + ErrorCode) :=
  match op.(op_kind) with
  | Restart =>
      if decide (is_some_and (λ e, e ≤ now_ms) w.(row).(expires_at_ms)) then mret (inr WorkflowInstanceNotFound)
      else
        match restart_projection w op with
        | Err e => mret (inr e.(code))
        | Ok j => λ db,
            match restart_capacity w j limits db with
            | (db, Ok _) => (db, Ok (inl (Some j)))
            | (db, Err e) => (db, Ok (inr e.(code)))
            end
        end
  | Purge =>
      if is_terminal w.(row).(state) then mret (inl None) else mret (inr WorkflowInstanceStateConflict)
  end.

(** Apply or replay an exact prepared operation, recording success and rejection. *)
Definition apply_workflow_operation (op : WorkflowOperation) (now_ms : Z) (limits : WorkflowsConfig) :
    WM WorkflowOperationResult := transaction (
  _ ← lift (WorkflowsConfig_validate limits);
  _ ← lift (durable_deadline now_ms 0);
  decision ← read_decision op;
  match decision with
  | Some d => mret d
  | None =>
      let id := op.(op_identity).(instance_id) in
      o ← gets (λ db, db.(workflows) !! id);
      w ← some_or o violation;
      i ← lift (instance_row w);
      _ ← throw_if (i.(identity) ≠ op.(op_identity) ∨ op.(op_sequence) < 1) (storage_error WorkflowRunStale);
      _ ← verify_workflow_history id;
      admitted ← admit_operation w op now_ms limits;
      match admitted with
      | inr c =>
          _ ← throw_if (rejection c = false) (storage_error c);
          decide_operation op None (Some c) now_ms
      | inl restart =>
          _ ← match restart with
              | Some j => _ ← execute id (restart_rows op j now_ms); verify_workflow_history id
              | None => purge_rows op now_ms
              end;
          d ← decide_operation op (restart ≫= target_ordinal) None now_ms;
          _ ← modify wf_notify;
          mret d
      end
  end).

(** Read an exact committed result without applying, repairing or deleting anything. *)
Definition workflow_operation_result (op : WorkflowOperation) : WM (option WorkflowOperationResult) :=
  read_decision op.

(** Whether the current generation is the exact committed result of this restart. *)
Definition workflow_restart_matches (id operation : N) (from : option WorkflowRestartSelector) : WM bool :=
  o ← gets (λ db, db.(workflows) !! id);
  match o with
  | None => mret false
  | Some w =>
      if decide (w.(row).(last_restart_operation_id) ≠ Some operation) then mret false
      else
        _ ← throw_if (w.(row).(last_restart_from) ≠ from) violation;
        _ ← verify_workflow_history id;
        mret true
  end.
End operations.

(** ** Retention *)

Definition expired_workflows (now_ms limit : Z) : WM (list WorkflowInstanceIdentity) :=
  _ ← lift (bounded limit);
  page ← gets (λ db, take (Z.to_nat limit)
    (order_by (λ i, [default 0 i.(expires_at_ms); Z.of_N i.(identity).(instance_id)])
      (filter (λ i, is_terminal i.(state) = true ∧ is_some_and (λ e, e ≤ now_ms) i.(expires_at_ms))
        (instance_rows db))));
  _ ← throw_if (¬ Forall readable page) violation;
  mret (identity <$> page).

(** The purge decision that authorises sweeping a receipt. *)
Definition receipt_sequence (db : WorkflowDb) (id : N) (g : GcReceipt) : option Z :=
  p ← db.(progress) !! id;
  if decide (purge_applied p g ∧ p.(p_target_generation) = g.(g_generation) ∧ p.(p_kind) = Purge ∧
             p.(p_error_code) = None ∧ db.(workflows) !! id = None)
  then Some p.(p_sequence) else None.

Definition read_receipt (id : N) : WM (option (GcReceipt * Z)) :=
  o ← gets (λ db, db.(gc_receipts) !! id);
  match o with
  | None => mret None
  | Some g => q ← gets (λ db, receipt_sequence db id g); n ← some_or q violation; mret (Some (g, n))
  end.

#[export] Instance GcReceipt_eq_dec : EqDecision GcReceipt.
Proof. solve_decision. Defined.

(** Sweep a receipt once the control owner proves all references to it are gone; the
    guards of the acknowledgement context repeat the check of the receipt. *)
Definition sweep_workflow_gc (id : N) (receipt : GcReceipt) (sequence : Z) : WM unit := transaction (
  o ← read_receipt id;
  match o with
  | None => mret ()
  | Some current =>
      _ ← throw_if (current ≠ (receipt, sequence)) violation;
      modify (λ db, {| db with progress := delete id db.(progress);
                               gc_receipts := delete id db.(gc_receipts) |})
  end).
