(* ===== verification/WorkflowSpec.v ===== *)
(** * What a verified history is

    A declarative account of a workflow history: the columns of a step in each state of
    each kind, the partition of the steps into batches, the inbox, and the projections.
    The one-pass verification of [WorkflowHistory] accepts exactly these histories. *)

From stdpp Require Import base numbers list option strings sorting gmap.
From S2P Require Import Prelude Text ErrorCodes Duration RetryPolicy WorkflowTypes Sql WorkflowDb WorkflowRuns WorkflowSteps WorkflowHistory.

Local Open Scope Z_scope.

#[global] Opaque failure_json.

(** ** Steps by state *)

Definition safe (z : Z) : Prop := Z.abs z ≤ WORKFLOW_MAX_SAFE_INTEGER.

(** The nullable columns of a step: the two tokens, output, error and its code,
    completion, due time, retry delay and cancellation. *)
Definition columns (s : Step) :=
  (s.(s_run_token), s.(s_step_token), s.(s_output), s.(s_error_json), s.(s_error_code),
   s.(completed_at_ms), s.(due_at_ms), s.(retry_delay_ms), s.(cancelled_at_ms)).

Definition untried (s : Step) : Prop :=
  s.(attempt) = 0 ∧ s.(attempt_started_at_ms) = None ∧ s.(attempt_deadline_at_ms) = None.
Definition tried (c : WorkflowStepConfig) (s : Step) : Prop :=
  1 ≤ s.(attempt) ≤ c.(retries).(limit) + 1 ∧
  ∃ t, s.(attempt_started_at_ms) = Some t ∧ s.(attempt_deadline_at_ms) = Some (t + c.(timeout)) ∧
       safe t ∧ safe (t + c.(timeout)).

Section spec.
Context `{Codec}.

Definition do_norm (i : InstanceRow) (c : WorkflowStepConfig) (s : Step) : Prop :=
  let now := s.(s_updated_at_ms) in
  s.(event_buffer_ceiling) = None ∧ s.(consumed_event_seq) = None ∧
  match s.(s_state) with
  | SPending =>
      columns s = (None, None, None, None, None, None, None, None, None) ∧ (untried s ∨ tried c s)
  | SRunning =>
      tried c s ∧ ∃ r t, columns s = (Some r, Some t, None, None, None, None, None, None, None) ∧
      owns i (Some r)
  | SDelayPending =>
      tried c s ∧ c.(retries).(delay) = None ∧
      columns s = (None, None, None, Some failure_json, Some WorkflowStepTimeout, None, None, None, None)
  | SRetryWait =>
      tried c s ∧ s.(attempt) ≤ c.(retries).(limit) ∧
      ∃ e d, columns s = (None, None, None, Some failure_json, Some e, None, Some (now + d), Some d, None) ∧
        safe (now + d) ∧ (e = WorkflowExecutionFailed ∨ e = WorkflowStepTimeout) ∧
        (is_Some c.(retries).(delay) → delay_after c.(retries) s.(attempt) = Ok d)
  | SComplete =>
      tried c s ∧ is_some_and (λ d, now < d) s.(attempt_deadline_at_ms) ∧
      ∃ v, columns s = (None, None, Some (OutValue v), None, None, Some now, None, None, None) ∧
        valid_value v = true
  | SFailed =>
      tried c s ∧ ∃ e, columns s = (None, None, None, Some failure_json, Some e, Some now, None, None, None) ∧
        e ∈ terminal_codes
  | SCancelled =>
      (untried s ∨ tried c s) ∧ columns s = (None, None, None, None, None, None, None, None, Some now)
  | SWaiting => False
  end.

(** The absolute deadline of a wait. *)
Definition expected (s : Step) : Z :=
  match s.(descriptor).(config) with
  | CDo _ => 0
  | CSleep duration => s.(started_at_ms) + duration
  | CSleepUntil timestamp => timestamp
  | CWaitEvent _ timeout_ms => s.(started_at_ms) + timeout_ms
  end.

Definition sleep_norm (s : Step) : Prop :=
  let now := s.(s_updated_at_ms) in
  s.(event_buffer_ceiling) = None ∧ s.(consumed_event_seq) = None ∧
  match s.(s_state) with
  | SWaiting => columns s = (None, None, None, None, None, None, Some (expected s), None, None)
  | SComplete => expected s ≤ now ∧ columns s = (None, None, None, None, None, Some now, None, None, None)
  | SCancelled => columns s = (None, None, None, None, None, None, None, None, Some now)
  | _ => False
  end.

Definition event_norm (t : ustr) (s : Step) : Prop :=
  let now := s.(s_updated_at_ms) in
  ∃ ceiling, s.(event_buffer_ceiling) = Some ceiling ∧ 0 ≤ ceiling ∧
  match s.(s_state) with
  | SWaiting =>
      columns s = (None, None, None, None, None, None, Some (expected s), None, None) ∧
      s.(consumed_event_seq) = None
  | SComplete =>
      ∃ e seq, columns s = (None, None, Some (OutEvent e), None, None, Some now, None, None, None) ∧
        s.(consumed_event_seq) = Some seq ∧ 1 ≤ seq ∧ is_ok (canonical_wire e) = true ∧
        e.(event_type) = t ∧ (e.(timestamp_ms) < expected s ∨ seq ≤ ceiling)
  | SFailed =>
      expected s ≤ now ∧ s.(consumed_event_seq) = None ∧
      columns s = (None, None, None, Some failure_json, Some WorkflowEventTimeout, Some now, None, None, None)
  | SCancelled =>
      columns s = (None, None, None, None, None, None, None, None, Some now) ∧ s.(consumed_event_seq) = None
  | _ => False
  end.

Definition step_norm (i : InstanceRow) (s : Step) : Prop :=
  safe s.(started_at_ms) ∧ safe s.(s_updated_at_ms) ∧
  match s.(descriptor).(config) with
  | CDo c => do_norm i c s
  | CWaitEvent t _ => untried s ∧ safe (expected s) ∧ event_norm t s
  | _ => untried s ∧ safe (expected s) ∧ sleep_norm s
  end.

(** A live instance keeps no cancelled step, a terminal one no unfinished step. *)
Definition live_ok (i : InstanceRow) (s : Step) : Prop :=
  (is_terminal i.(state) = true → unfinished s.(s_state) = false) ∧
  (is_terminal i.(state) = false → s.(s_state) ≠ SCancelled).

(** ** Successful checks *)

Lemma result_bind_Ok {E A B} (m : result E A) (k : A → result E B) b :
  (m ≫= k) = Ok b ↔ ∃ a, m = Ok a ∧ k a = Ok b.
Proof. destruct m; cbn; naive_solver. Qed.
Lemma fail_if_Ok (P : Prop) `{!Decision P} u : fail_if P = Ok u ↔ ¬ P.
Proof. destruct u. unfold fail_if, bail_if. case_decide; naive_solver. Qed.
Lemma fail_if_not_Ok (P : Prop) `{!Decision P} u : fail_if (¬ P) = Ok u ↔ P.
Proof. rewrite fail_if_Ok. split; [apply dec_stable|tauto]. Qed.
Lemma fail_if_bind (P : Prop) `{!Decision P} {B} (k : unit → result PlatformError B) b :
  (fail_if P ≫= k) = Ok b ↔ ¬ P ∧ k () = Ok b.
Proof. rewrite result_bind_Ok. setoid_rewrite fail_if_Ok. split; [by intros ([] & ?)|eauto]. Qed.
Lemma fail_if_not_bind (P : Prop) `{!Decision P} {B} (k : unit → result PlatformError B) b :
  (fail_if (¬ P) ≫= k) = Ok b ↔ P ∧ k () = Ok b.
Proof. rewrite fail_if_bind. split; intros [Hp ?]; split; try done; [by apply dec_stable|tauto]. Qed.

Lemma safe_time_Ok z u : safe_time z = Ok u ↔ safe z.
Proof. unfold safe_time, safe. rewrite fail_if_Ok. lia. Qed.
Lemma safe_times_Ok l u : safe_times l = Ok u ↔ Forall (is_none_or safe) l.
Proof.
  destruct u. induction l as [|o l IH]; cbn; [by split|]. rewrite result_bind_Ok, Forall_cons.
  destruct o as [z|]; cbn.
  - split; [intros (u & Hu & Hl)|intros [Hz Hl]].
    + apply safe_time_Ok in Hu. by rewrite <-IH.
    + exists (). by rewrite safe_time_Ok, IH.
  - rewrite <-IH. naive_solver.
Qed.
Lemma safe_i64 z : safe z → i64_checked z = Some z.
Proof. intros ?. apply i64_checked_in. unfold safe, in_i64, WORKFLOW_MAX_SAFE_INTEGER in *. lia. Qed.

(** The value of a column from the state it belongs to. *)
Lemma iff_none {A} (P : Prop) (o : option A) : (P ↔ is_Some o) → ¬ P → o = None.
Proof. intros HP Hn. apply eq_None_not_Some. tauto. Qed.
Lemma iff_some {A} (P : Prop) (o : option A) : (P ↔ is_Some o) → P → ∃ x, o = Some x.
Proof. intros HP Hn. destruct HP as [HP _]. by apply HP. Qed.
End spec.

Ltac decide_state := clear; intuition congruence.
Ltac fix_columns :=
  repeat match goal with
  | H : ?P ↔ is_Some ?o |- _ =>
      let E := fresh in
      first [assert (E : o = None) by (apply (iff_none P o H); decide_state)
            |assert (E : ∃ x, o = Some x) by (apply (iff_some P o H); decide_state);
             let x := fresh "x" in destruct E as [x E]];
      clear H; rename E into H
  end.
Ltac rew_cols :=
  repeat match goal with
  | E : ?f ?s = _ |- context [?f ?s] => match type of s with Step => rewrite E end
  | E : ?f ?s = _, E' : context [?f ?s] |- _ => match type of s with Step => rewrite E in E' end
  end.

(** ** The checks of one step *)

Section step_checks.
Context `{Codec}.

(** The event sequence a step consumed. *)
Definition taken (s : Step) : list Z := option_list s.(consumed_event_seq).

Lemma checks_tried c s :
  0 < s.(attempt) → is_none_or safe s.(attempt_started_at_ms) → is_none_or safe s.(attempt_deadline_at_ms) →
  s.(attempt) ≤ c.(retries).(limit) + 1 →
  is_some_and (λ t, i64_checked (t + c.(timeout)) = s.(attempt_deadline_at_ms)) s.(attempt_started_at_ms) →
  is_Some s.(attempt_deadline_at_ms) → tried c s.
Proof.
  intros Ha Hs Hd Hl Hchk [d Hd']. unfold tried. rewrite Hd' in *. split; [lia|].
  destruct (attempt_started_at_ms s) as [t|]; [|done]. cbn in *. exists t.
  apply i64_checked_Some in Hchk as [-> _]. done.
Qed.

Lemma do_checks_norm i c s :
  0 ≤ s.(attempt) → s_kind s = KDo →
  (is_none_or (λ e, e ∈ terminal_codes) s.(s_error_code) ∧ Forall (is_none_or safe) (step_times s) ∧
   step_shape i s ∧ do_shape c s ∧ is_none_or (λ o, ∃ v, o = OutValue v ∧ valid_value v = true) s.(s_output)) →
  safe s.(started_at_ms) ∧ safe s.(s_updated_at_ms) ∧ do_norm i c s ∧ live_ok i s.
Proof.
  intros Ha Hk (Hec & Ht & Hs & Hdo & Ho). unfold step_times in Ht. rewrite !Forall_cons in Ht.
  destruct Ht as (Hsta & Hupd & Hcomp & Hcan & Hdue & Hats & Hatd & _).
  destruct Hdo as (Hceil & Hcons & Hnw & Hdp & Hrd & Hlim & Hzero & Hpos & Hcompl & Hretry).
  unfold step_shape in Hs. rewrite Hk in Hs.
  destruct Hs as (H1 & H2 & H3 & H4 & H5 & H6 & H7 & H8 & H9 & H10 & H11 & H12 & Hlive1 & Hlive2).
  split; [done|]. split; [done|]. split; [|by split].
  assert (Htr : s.(attempt) ≠ 0 → tried c s).
  { intros Hne. destruct Hpos as [Hp1 Hp2]; [lia|]. apply checks_tried; try done. lia. }
  assert (Hun : s.(attempt) = 0 → untried s).
  { intros Hz. destruct (Hzero Hz) as (_ & ? & ?). done. }
  unfold do_norm, columns. split; [done|]. split; [done|].
  assert (Hua : untried s ∨ tried c s) by (destruct (decide (attempt s = 0)); auto).
  assert (Hcode : s_error_json s = None → s_error_code s = None).
  { intros Hx. rewrite Hx in H9. apply eq_None_not_Some. rewrite <-H9. by intros [? ?]. }
  destruct (s_state s) eqn:Hst; cbn in H4, H8; fix_columns;
    try (rewrite (Hcode ltac:(done))); try rewrite Hrd by done;
    try (assert (Htr' : tried c s) by (apply Htr; intros Hz; by destruct (Hzero Hz) as [[?|?] _]));
    clear Htr Hun Hzero Hpos.
  - rew_cols. by split.
  - destruct H3 as [? H3]; [done|]. rewrite H1 in H3. rew_cols. split; [done|]. eexists _, _. split; [done|].
    unfold owns. by split.
  - destruct Hdp as (? & ? & ? & ?); [done|]. rew_cols. cbn in H10. subst. done.
  - destruct Hretry as (? & Hr & Hda & Hc); [done|]. split; [done|]. split; [done|].
    destruct (retry_delay_ms s) as [d|]; [|done]. cbn in Hr. rew_cols.
    apply i64_checked_Some in Hr as [-> _]. cbn in H10, Hdue. subst.
    destruct Hc as [Hc|Hc]; rewrite Hc; eexists _, _; (split; [done|]);
      (split; [done|]); (split; [auto|]); intros Hs; specialize (Hda Hs); unfold result_ok in Hda;
      destruct (delay_after _ _); naive_solver.
  - done.
  - rew_cols. cbn in *. subst. destruct Ho as (v & -> & ?). eauto 10.
  - rew_cols. destruct H9 as [H9 _]. destruct H9 as [e He]; [done|]. rew_cols. cbn in *. subst. eauto 10.
  - rew_cols. cbn in *. subst. done.
Qed.


Lemma tried_checks c s :
  untried s ∨ tried c s → 0 ≤ c.(retries).(limit) →
  is_none_or safe s.(attempt_started_at_ms) ∧ is_none_or safe s.(attempt_deadline_at_ms) ∧
  s.(attempt) ≤ c.(retries).(limit) + 1 ∧
  (s.(attempt) = 0 → s.(attempt_started_at_ms) = None ∧ s.(attempt_deadline_at_ms) = None) ∧
  (0 < s.(attempt) →
   is_some_and (λ t, i64_checked (t + c.(timeout)) = s.(attempt_deadline_at_ms)) s.(attempt_started_at_ms) ∧
   is_Some s.(attempt_deadline_at_ms)).
Proof.
  intros [(Ha & Hs & Hd)|(Ha & t & Hs & Hd & Ht & Htd)] Hl; rewrite Hs, Hd; cbn; repeat split; try done; try lia.
  by apply safe_i64.
Qed.

Lemma do_norm_checks i c s :
  0 ≤ c.(retries).(limit) → s_kind s = KDo → 
  safe s.(started_at_ms) ∧ safe s.(s_updated_at_ms) ∧ do_norm i c s ∧ live_ok i s →
  (is_none_or (λ e, e ∈ terminal_codes) s.(s_error_code) ∧ Forall (is_none_or safe) (step_times s) ∧
   step_shape i s ∧ do_shape c s ∧ is_none_or (λ o, ∃ v, o = OutValue v ∧ valid_value v = true) s.(s_output)).
Proof.
  intros Hlim Hk (Hsta & Hupd & (Hceil & Hcons & Hn) & Hl).
  assert (Hua : untried s ∨ tried c s) by (destruct (s_state s); naive_solver).
  destruct (tried_checks c s Hua Hlim) as (T1 & T2 & T3 & T4 & T5).
  unfold step_times, step_shape, do_shape, live_ok in *. rewrite Hk, !Forall_cons, Forall_nil.
  assert (Hz : s.(s_state) ≠ SPending → s.(s_state) ≠ SCancelled → attempt s ≠ 0).
  { intros ??. enough (tried c s) as [? _] by lia. destruct (s_state s); naive_solver. }
  clear Hua. unfold columns in Hn.
  destruct (s_state s) eqn:Hst; cbn in Hl |- *;
    repeat match goal with H : _ ∧ _ |- _ => destruct H | H : ∃ _, _ |- _ => destruct H end;
    simplify_eq/=; rew_cols; cbn.
  all: unfold owns in *; intuition (try done); try by subst.
  all: subst; try (by apply safe_i64); auto.
  all: try match goal with |- _ ∈ terminal_codes => apply (bool_decide_unpack _); vm_compute; done end.
  all: match goal with E : delay_after _ _ = Ok _ |- _ => by rewrite E | |- _ => eauto end.
Qed.

End step_checks.

Section step_equivalence.
Context `{Codec}.

Definition do_checks (i : InstanceRow) (c : WorkflowStepConfig) (s : Step) : Prop :=
  is_none_or (λ e, e ∈ terminal_codes) s.(s_error_code) ∧ Forall (is_none_or safe) (step_times s) ∧
  step_shape i s ∧ do_shape c s ∧ is_none_or (λ o, ∃ v, o = OutValue v ∧ valid_value v = true) s.(s_output).

Lemma verify_do i c s cs r :
  s.(descriptor).(config) = CDo c →
  verify_step i s cs = Ok r ↔ do_checks i c s ∧
    r = (match s.(s_state) with
          | SDelayPending => Some s.(s_updated_at_ms)
          | SPending | SRunning => s.(attempt_deadline_at_ms)
          | _ => s.(due_at_ms)
          end, cs).
Proof.
  intros Hc. unfold verify_step, do_checks. rewrite Hc, fail_if_not_bind, result_bind_Ok. setoid_rewrite safe_times_Ok.
  setoid_rewrite fail_if_not_bind. setoid_rewrite result_bind_Ok. setoid_rewrite fail_if_not_bind. 
  setoid_rewrite result_bind_Ok. split.
  - intros (? & [] & ? & ? & [] & ? & ? & [] & Ho & [= <-]). split_and!; try done.
    destruct (s_output s) as [[v|e]|]; [|done..]. apply fail_if_Ok in Ho. exists v.
    by destruct (valid_value v).
  - intros ((? & ? & ? & Hdo & Ho) & ->). split; [done|]. exists (). split_and!; try done. exists ().
    split_and!; try done.
    + case_decide as Hr; [|done]. destruct Hr as [Hr Hd].
      destruct Hdo as (_ & _ & _ & _ & _ & _ & _ & _ & _ & Hw). destruct (Hw Hr) as (_ & Hs & Hda & _).
      specialize (Hda Hd). destruct (retry_delay_ms s); [|done]. by destruct (delay_after _ _).
    + exists (). split; [|done]. destruct (s_output s) as [o|]; [|done]. destruct Ho as (v & -> & Hv).
      by rewrite fail_if_Ok, Hv.
Qed.

Lemma expected_due_Ok s x :
  s_kind s ≠ KDo → expected_due s = Ok x ∧ safe x ↔ x = expected s ∧ safe (expected s).
Proof.
  unfold s_kind, expected_due, expected. destruct (config (descriptor s)) as [c|d|t|t d]; cbn; intros Hk; [done|..];
    try (split; [intros [[= ->] ?]|intros [-> ?]]; done).
  all: unfold ok_or_else; split.
  1,3: intros [Hx Hs]; destruct (i64_checked _) eqn:E in Hx; [|done]; simplify_eq/=;
       apply i64_checked_Some in E as [-> ?]; done.
  all: intros [-> Hs]; by rewrite safe_i64.
Qed.

Definition wait_rest (s : Step) : Prop :=
  s.(attempt) = 0 ∧ s.(attempt_started_at_ms) = None ∧ s.(attempt_deadline_at_ms) = None ∧
  (s.(s_state) = SWaiting ∨ s.(s_state) = SComplete ∨ s.(s_state) = SFailed ∨ s.(s_state) = SCancelled) ∧
  safe (expected s) ∧ (s.(s_state) = SWaiting → s.(due_at_ms) = Some (expected s)).
Definition wait_checks (i : InstanceRow) (s : Step) : Prop :=
  is_none_or (λ e, e ∈ terminal_codes) s.(s_error_code) ∧ Forall (is_none_or safe) (step_times s) ∧
  step_shape i s ∧ wait_rest s.

Definition event_checks (t : ustr) (s : Step) : Prop :=
  (∃ c, s.(event_buffer_ceiling) = Some c ∧ 0 ≤ c ∧
   (s.(s_state) = SComplete ↔ is_Some s.(consumed_event_seq)) ∧
   is_none_or (λ seq, ∃ e, s.(s_output) = Some (OutEvent e) ∧ is_ok (canonical_wire e) = true ∧ 1 ≤ seq ∧
      e.(event_type) = t ∧ (e.(timestamp_ms) < expected s ∨ seq ≤ c)) s.(consumed_event_seq)) ∧
  (s.(s_state) = SFailed → expected s ≤ s.(s_updated_at_ms) ∧ s.(s_error_code) = Some WorkflowEventTimeout).

Definition kind_checks (s : Step) (cs : list Z) : Prop :=
  match s.(descriptor).(config) with
  | CWaitEvent t _ => event_checks t s ∧ Forall (λ x, x ∉ cs) (taken s)
  | _ => s.(event_buffer_ceiling) = None ∧ s.(consumed_event_seq) = None ∧ s.(s_state) ≠ SFailed ∧
         (s.(s_state) = SComplete → expected s ≤ s.(s_updated_at_ms))
  end.

Lemma ceiling_Ok o c :
  ok_or_else (c ← o; if decide (0 ≤ c) then Some c else None) violation = Ok c ↔ o = Some c ∧ 0 ≤ c.
Proof. destruct o as [z|]; cbn; [case_decide|]; cbn; naive_solver. Qed.

Lemma verify_sleep_checks s cs cs' :
  (_ ← fail_if (is_Some s.(event_buffer_ceiling) ∨ is_Some s.(consumed_event_seq) ∨ s.(s_state) = SFailed ∨
                (s.(s_state) = SComplete ∧ s.(s_updated_at_ms) < expected s)); Ok cs) = Ok cs' ↔
  (s.(event_buffer_ceiling) = None ∧ s.(consumed_event_seq) = None ∧ s.(s_state) ≠ SFailed ∧
   (s.(s_state) = SComplete → expected s ≤ s.(s_updated_at_ms))) ∧ cs' = taken s ++ cs.
Proof.
  rewrite fail_if_bind. unfold taken. split.
  - intros [Hn [= <-]]. rewrite !eq_None_not_Some. assert (consumed_event_seq s = None) as ->.
    { apply eq_None_not_Some. tauto. }
    split_and!; try done; try tauto. intros ?. destruct (decide (s_updated_at_ms s < expected s)); [tauto|lia].
  - intros [(-> & -> & ? & Hc) ->]. split; [|done]. intros [[? ?]|[[? ?]|[?|[? ?]]]]; try done.
    specialize (Hc ltac:(done)). lia.
Qed.

Lemma verify_event_checks t s cs cs' :
  (ceiling ← ok_or_else (c ← s.(event_buffer_ceiling); if decide (0 ≤ c) then Some c else None) violation;
      _ ← fail_if (¬ (s.(s_state) = SComplete ↔ is_Some s.(consumed_event_seq)));
      consumed ← match s.(consumed_event_seq) with
        | Some sequence =>
            match s.(s_output) with
            | Some (OutEvent e) =>
                _ ← fail_if (¬ is_ok (canonical_wire e) = true);
                _ ← fail_if (sequence < 1 ∨ sequence ∈ cs ∨ e.(event_type) ≠ t ∨
                             (expected s ≤ e.(timestamp_ms) ∧ ceiling < sequence));
                Ok (sequence :: cs)
            | _ => Err violation
            end
        | None => Ok cs
        end;
      _ ← fail_if (s.(s_state) = SFailed ∧
                   (s.(s_updated_at_ms) < expected s ∨ s.(s_error_code) ≠ Some WorkflowEventTimeout));
      Ok consumed) = Ok cs' ↔
  (event_checks t s ∧ Forall (λ x, x ∉ cs) (taken s)) ∧ cs' = taken s ++ cs.
Proof.
  rewrite result_bind_Ok. setoid_rewrite ceiling_Ok. setoid_rewrite fail_if_not_bind.
  setoid_rewrite result_bind_Ok. setoid_rewrite fail_if_bind. unfold event_checks, taken. split.
  - intros (c & [Hc Hc0] & Hi & cs1 & Hm & Hf & [= <-]). split.
    + split; [split|].
      * exists c. split_and!; try done. all: try tauto.
        destruct (consumed_event_seq s) as [q|]; [|done]. cbn. destruct (s_output s) as [[|e]|]; try done.
        apply fail_if_not_bind in Hm as [? Hm]. apply fail_if_bind in Hm as [Hn _]. exists e.
        split_and!; try done; try lia. destruct (decide (event_type e = t)); tauto.
      * intros Hst. split; [destruct (decide (s_updated_at_ms s < expected s)); [tauto|lia]|]. destruct (decide (s_error_code s = Some WorkflowEventTimeout)); tauto.
      * destruct (consumed_event_seq s) as [q|]; [|done]. cbn. destruct (s_output s) as [[|e]|]; try done.
        apply fail_if_not_bind in Hm as [? Hm]. apply fail_if_bind in Hm as [Hn _].
        apply Forall_singleton. tauto.
    + destruct (consumed_event_seq s) as [q|]; [|by simplify_eq/=]. cbn. destruct (s_output s) as [[|e]|]; try done.
      apply fail_if_not_bind in Hm as [? Hm]. apply fail_if_bind in Hm as [Hn Hq]. by simplify_eq/=.
  - intros [[[(c & Hc & Hc0 & Hi & Ho) Hf] Hn] ->]. exists c. split_and!; try done. exists (option_list (consumed_event_seq s) ++ cs).
    split_and!; try done.
    + destruct (consumed_event_seq s) as [q|]; [|done]. cbn in *. destruct Ho as (e & -> & ? & ? & ? & ?).
      rewrite Forall_singleton in Hn.
      apply fail_if_not_bind. split; [done|]. apply fail_if_bind. split; [|done]. 
      intros [?|[?|[?|?]]]; try done; lia.
    + intros [? Hx]. destruct Hf as [? ?]; [done|]. destruct Hx; [lia|done].
Qed.

Lemma verify_wait_Ok s cs cs' :
  s_kind s ≠ KDo →
  verify_wait s cs = Ok cs' ↔
  safe (expected s) ∧ (s.(s_state) = SWaiting → s.(due_at_ms) = Some (expected s)) ∧ kind_checks s cs ∧
  cs' = taken s ++ cs.
Proof.
  intros Hk. unfold verify_wait, kind_checks. rewrite result_bind_Ok. setoid_rewrite result_bind_Ok. setoid_rewrite safe_time_Ok.
  setoid_rewrite fail_if_bind.
  split.
  - intros (x & Hx & [] & Hs & Hw & Hm). destruct (proj1 (expected_due_Ok s x Hk)) as [-> Hs']; [done|].
    split; [done|]. split; [intros; destruct (decide (due_at_ms s = Some (expected s))); tauto|].
    destruct (config (descriptor s)) eqn:Hc; [by unfold s_kind in Hk; rewrite Hc in Hk|..];
    first [by apply verify_sleep_checks|by apply verify_event_checks].
  - intros (Hs & Hw & Hm). destruct (proj2 (expected_due_Ok s (expected s) Hk)) as [Hx _]; [done|].
    exists (expected s). split; [done|]. exists (). split_and!; try done; [tauto|].
    destruct (config (descriptor s)) eqn:Hc; [by unfold s_kind in Hk; rewrite Hc in Hk|..];
    first [by apply verify_sleep_checks|by apply verify_event_checks].
Qed.

Lemma verify_wait_tail s cs r :
  s_kind s ≠ KDo →
  (_ ← fail_if (s.(attempt) ≠ 0 ∨ is_Some s.(attempt_started_at_ms) ∨ is_Some s.(attempt_deadline_at_ms) ∨
                ¬ (s.(s_state) = SWaiting ∨ s.(s_state) = SComplete ∨ s.(s_state) = SFailed ∨
                   s.(s_state) = SCancelled));
   consumed ← verify_wait s cs; Ok (s.(due_at_ms), consumed)) = Ok r ↔
  wait_rest s ∧
  kind_checks s cs ∧ r = (s.(due_at_ms), taken s ++ cs).
Proof.
  intros Hk. unfold wait_rest. rewrite fail_if_bind, result_bind_Ok, !eq_None_not_Some. split.
  - intros (Hn & cs' & Hw & [= <-]). apply verify_wait_Ok in Hw as (? & ? & ? & ->); [|done].
    split_and!; try done; try tauto; [lia|]. apply dec_stable. tauto.
  - intros ((? & ? & ? & ? & ? & ?) & ? & ->). split; [tauto|]. exists (taken s ++ cs).
    split; [|done]. by apply verify_wait_Ok.
Qed.

Lemma verify_wait_checks i s cs r :
  s_kind s ≠ KDo →
  verify_step i s cs = Ok r ↔ wait_checks i s ∧ kind_checks s cs ∧ r = (s.(due_at_ms), taken s ++ cs).
Proof.
  intros Hk. unfold verify_step, wait_checks at 1.
  rewrite fail_if_not_bind, result_bind_Ok. setoid_rewrite safe_times_Ok. setoid_rewrite fail_if_not_bind.
  pose proof (verify_wait_tail s cs r Hk) as Ht.
  destruct (config (descriptor s)) eqn:Hc; [by unfold s_kind in Hk; rewrite Hc in Hk|..];
    setoid_rewrite Ht; 
      (split; [intros (? & [] & ? & ? & ? & ?); split; [by split_and!|done]|intros [(? & ? & ? & ?) ?]; split; [done|by exists ()]]).
Qed.

Lemma check_retry_delay s : step_check s → s.(s_state) ≠ SRetryWait → s.(retry_delay_ms) = None.
Proof. intros (_ & _ & _ & _ & _ & _ & Hr & _) Hst. apply eq_None_not_Some. by rewrite Hr. Qed.

Lemma sleep_kind k : k = KSleep ∨ k = KSleepUntil → k ≠ KDo ∧ k ≠ KWaitEvent.
Proof. by intros [-> | ->]. Qed.

Lemma sleep_checks_norm i s :
  s_kind s = KSleep ∨ s_kind s = KSleepUntil → step_check s →
  wait_checks i s → s.(event_buffer_ceiling) = None → s.(consumed_event_seq) = None → s.(s_state) ≠ SFailed →
  (s.(s_state) = SComplete → expected s ≤ s.(s_updated_at_ms)) →
  safe s.(started_at_ms) ∧ safe s.(s_updated_at_ms) ∧ untried s ∧ safe (expected s) ∧ sleep_norm s ∧ live_ok i s.
Proof.
  intros Hk Hchk (Hec & Ht & Hs & Ha & Has & Had & Hst4 & Hexp & Hw) Hceil Hcons Hnf Hcompl.
  pose proof (check_retry_delay s Hchk) as Hret. clear Hchk.
  unfold step_times in Ht. rewrite !Forall_cons in Ht. destruct Ht as (Hsta & Hupd & _).
  unfold step_shape in Hs.
  destruct Hs as (H1 & H2 & H3 & H4 & H5 & H6 & H7 & H8 & H9 & H10 & H11 & H12 & Hlive1 & Hlive2).
  unfold sleep_norm, untried, live_ok, columns.
  assert (Hout : s_output s = None).
  { apply eq_None_not_Some. rewrite <-H7. destruct (sleep_kind _ Hk) as [??]. by intros [_ [?|?]]. }
  assert (Hcode : s_error_json s = None → s_error_code s = None).
  { intros Hx. rewrite Hx in H9. apply eq_None_not_Some. rewrite <-H9. by intros [? ?]. }
  clear H7 Hk. split_and!; try done.
  destruct (s_state s) eqn:Hst; try (by destruct Hst4 as [?|[?|[?|?]]]); try done; rewrite Hret, Hout by done;
    cbn in H4, H8; fix_columns; rewrite (Hcode ltac:(done)); rew_cols; cbn in *; subst; auto.
  by rewrite Hw.
Qed.

Lemma sleep_norm_checks i s :
  s_kind s = KSleep ∨ s_kind s = KSleepUntil → 
  safe s.(started_at_ms) → safe s.(s_updated_at_ms) → untried s → safe (expected s) → sleep_norm s → live_ok i s →
  wait_checks i s ∧ s.(event_buffer_ceiling) = None ∧ s.(consumed_event_seq) = None ∧ s.(s_state) ≠ SFailed ∧
  (s.(s_state) = SComplete → expected s ≤ s.(s_updated_at_ms)).
Proof.
  intros Hk Hsta Hupd (Ha & Has & Had) Hexp (Hceil & Hcons & Hn) [Hl1 Hl2].
  unfold wait_checks, wait_rest, step_times, step_shape. rewrite !Forall_cons, Forall_nil.
  destruct (sleep_kind _ Hk) as [Hk1 Hk2]. clear Hk.
  unfold columns in Hn. 
  destruct (s_state s) eqn:Hst; cbn in Hl1 |- *; try done; 
    repeat match goal with H : _ ∧ _ |- _ => destruct H | H : ∃ _, _ |- _ => destruct H end;
    simplify_eq/=; rew_cols; cbn; intuition (try done).
Qed.

Lemma event_checks_norm i t s :
  s_kind s = KWaitEvent → step_check s → wait_checks i s → event_checks t s →
  safe s.(started_at_ms) ∧ safe s.(s_updated_at_ms) ∧ untried s ∧ safe (expected s) ∧ event_norm t s ∧ live_ok i s.
Proof.
  intros Hk Hchk (Hec & Ht & Hs & Ha & Has & Had & Hst4 & Hexp & Hw) ((c & Hceil & Hc0 & Hi & Ho) & Hf).
  pose proof (check_retry_delay s Hchk) as Hret. clear Hchk.
  unfold step_times in Ht. rewrite !Forall_cons in Ht. destruct Ht as (Hsta & Hupd & _).
  unfold step_shape in Hs. rewrite Hk in Hs.
  destruct Hs as (H1 & H2 & H3 & H4 & H5 & H6 & H7 & H8 & H9 & H10 & H11 & H12 & Hlive1 & Hlive2).
  unfold event_norm, untried, live_ok, columns.
  assert (Hcode : s_error_json s = None → s_error_code s = None).
  { intros Hx. rewrite Hx in H9. apply eq_None_not_Some. rewrite <-H9. by intros [? ?]. }
  clear Hk. split_and!; try done. exists c. split_and!; try done.
  destruct (s_state s) eqn:Hst; try (by destruct Hst4 as [?|[?|[?|?]]]); rewrite Hret by done;
    cbn in H4, H8; fix_columns; try rewrite (Hcode ltac:(done)); rew_cols; cbn in *; subst; auto.
  - by rewrite Hw.
  - destruct Ho as (e & ? & ? & ? & ? & ?). simplify_eq. eauto 12.
  - destruct Hf as [? Hf]; [done|]. rewrite Hf. auto.
Qed.

Lemma event_norm_checks i t s :
  s_kind s = KWaitEvent → 
  safe s.(started_at_ms) → safe s.(s_updated_at_ms) → untried s → safe (expected s) → event_norm t s → live_ok i s →
  wait_checks i s ∧ event_checks t s.
Proof.
  intros Hk Hsta Hupd (Ha & Has & Had) Hexp (c & Hceil & Hc0 & Hn) [Hl1 Hl2].
  unfold wait_checks, wait_rest, event_checks, step_times, step_shape. rewrite Hk, !Forall_cons, Forall_nil.
  clear Hk. unfold columns in Hn. rewrite Hceil.
  destruct (s_state s) eqn:Hst; cbn in Hl1 |- *; try done; 
    repeat match goal with H : _ ∧ _ |- _ => destruct H | H : ∃ _, _ |- _ => destruct H end;
    simplify_eq/=; rew_cols; cbn; intuition (try done).
  all: first [apply (bool_decide_unpack _); vm_compute; done|exists c; intuition (try done)].
  all: eexists; (split; [done|]); intuition (try done).
Qed.

(** The retry limit is a [u32]. *)
Definition unsigned (c : WorkflowDurableConfig) : Prop :=
  match c with CDo c => 0 ≤ c.(retries).(limit) | _ => True end.

Lemma do_norm_due i c s :
  do_norm i c s → step_settled s.(s_state) = true ∨ s.(s_state) = SCancelled → s.(due_at_ms) = None.
Proof.
  intros (_ & _ & Hn) Hst. unfold columns in Hn. destruct (s_state s); try by destruct Hst.
  - by destruct Hn as (_ & _ & v & [= ????????] & _).
  - by destruct Hn as (_ & v & [= ????????] & _).
  - by destruct Hn as (_ & [= ????????]).
Qed.

Lemma sleep_wake s : sleep_norm s → step_wake s = s.(due_at_ms).
Proof.
  intros (_ & _ & Hn). unfold step_wake, columns in *. destruct (s_state s); try done.
  - by destruct Hn as [_ [= ????????]].
  - by injection Hn.
Qed.
Lemma event_wake t s : event_norm t s → step_wake s = s.(due_at_ms).
Proof.
  intros (c & _ & _ & Hn). unfold step_wake, columns in *. destruct (s_state s); try done.
  - by destruct Hn as (e & q & [= ????????] & _).
  - by destruct Hn as (_ & _ & [= ????????]).
  - by destruct Hn as ([= ????????] & _).
Qed.

Lemma verify_sleep_iff i s cs r :
  s_kind s = KSleep ∨ s_kind s = KSleepUntil → step_check s →
  verify_step i s cs = Ok r ↔
  step_norm i s ∧ live_ok i s ∧ Forall (λ x, x ∉ cs) (taken s) ∧ r = (step_wake s, taken s ++ cs).
Proof.
  intros Hk Hchk. rewrite verify_wait_checks by by apply sleep_kind in Hk as [? ?].
  assert (Hsl : step_norm i s ↔ safe s.(started_at_ms) ∧ safe s.(s_updated_at_ms) ∧ untried s ∧
                safe (expected s) ∧ sleep_norm s).
  { unfold s_kind in Hk. unfold step_norm. destruct (config (descriptor s)); cbn in Hk; naive_solver. }
  assert (Hkc : kind_checks s cs ↔ s.(event_buffer_ceiling) = None ∧ s.(consumed_event_seq) = None ∧
                s.(s_state) ≠ SFailed ∧ (s.(s_state) = SComplete → expected s ≤ s.(s_updated_at_ms))).
  { unfold s_kind in Hk. unfold kind_checks. destruct (config (descriptor s)); cbn in Hk; naive_solver. }
  rewrite Hsl, Hkc. unfold taken. split.
  - intros (Hw & (? & Hc & ? & ?) & ->). destruct (sleep_checks_norm i s) as (? & ? & ? & ? & Hn & ?); [done..|].
    rewrite Hc, (sleep_wake _ Hn). by split_and!.
  - intros ((? & ? & ? & ? & Hn) & ? & _ & ->). destruct (sleep_norm_checks i s) as (? & ? & Hc & ? & ?); [done..|].
    rewrite Hc, (sleep_wake _ Hn). by split_and!.
Qed.

(** The executable check of a step accepts exactly the normal steps. *)
Lemma verify_step_iff i s cs r :
  step_check s → unsigned s.(descriptor).(config) →
  verify_step i s cs = Ok r ↔
  step_norm i s ∧ live_ok i s ∧ Forall (λ x, x ∉ cs) (taken s) ∧ r = (step_wake s, taken s ++ cs).
Proof.
  intros Hchk Hv. destruct (config (descriptor s)) as [c| | |t ?] eqn:Hc.
  - assert (Hk : s_kind s = KDo) by (unfold s_kind; by rewrite Hc).
    rewrite (verify_do _ _ _ _ _ Hc). unfold step_norm, taken, step_wake. rewrite Hc. split.
    + intros [Hd ->]. apply do_checks_norm in Hd as (? & ? & Hn & Hl); [|by apply Hchk|done].
      pose proof (do_norm_due _ _ _ Hn) as Hdue. assert (consumed_event_seq s = None) as -> by apply Hn.
      split_and!; try done. f_equal. destruct (s_state s); try done; apply Hdue; auto.
    + intros ((? & ? & Hn) & Hl & _ & ->). split; [by apply do_norm_checks|].
      pose proof (do_norm_due _ _ _ Hn) as Hdue. assert (consumed_event_seq s = None) as -> by apply Hn.
      f_equal. destruct (s_state s); try done; symmetry; apply Hdue; auto.
  - by apply verify_sleep_iff; [left; unfold s_kind; rewrite Hc|..].
  - by apply verify_sleep_iff; [right; unfold s_kind; rewrite Hc|..].
  - assert (Hk : s_kind s = KWaitEvent) by (unfold s_kind; by rewrite Hc).
    rewrite verify_wait_checks by by rewrite Hk. unfold kind_checks, step_norm. rewrite Hc. split.
    + intros (Hw & [He Hf] & ->). destruct (event_checks_norm i t s) as (? & ? & ? & ? & Hn & ?); [done..|].
      split_and!; try done. f_equal. symmetry. by eapply event_wake.
    + intros ((? & ? & ? & ? & Hn) & ? & Hf & ->). 
      destruct (event_norm_checks i t s) as [? ?]; [done..|]. split_and!; try done. f_equal. by eapply event_wake.
Qed.
End step_equivalence.
