(* ===== verification/WorkflowVerify.v ===== *)
(** * The verification accepts exactly the valid histories

    [WorkflowHistory.verify_row] walks the steps of an instance once, carrying counters,
    the open batch, and the consumed events.  [history_ok] says the same of the whole
    table, row by row, and the two agree. *)

From stdpp Require Import base numbers list option strings sorting gmap.
From S2P Require Import Prelude Text ErrorCodes Duration RetryPolicy WorkflowTypes Sql WorkflowDb WorkflowRuns WorkflowSteps WorkflowHistory WorkflowSpec.

Local Open Scope Z_scope.

(** ** Histories *)

Definition step_key (s : Step) : WorkflowStepKind * ustr := (s_kind s, s.(descriptor).(name)).

(** Where the batch of the last of these steps ends. *)
Definition end_of (ss : list Step) : Z :=
  from_option (λ s, s.(descriptor).(batch_first_ordinal) + s.(descriptor).(batch_size)) 0 (last ss).

(** A step opens a batch where the previous one ended, and continues an open one. *)
Definition batch_ok (pre : list Step) (d : WorkflowStepDescriptor) : Prop :=
  if decide (Z.of_nat (length pre) = end_of pre) then d.(batch_first_ordinal) = Z.of_nat (length pre)
  else is_some_and (λ p, d.(batch_first_ordinal) = p.(descriptor).(batch_first_ordinal) ∧
                         d.(batch_size) = p.(descriptor).(batch_size) ∧
                         d.(dependencies) = p.(descriptor).(dependencies)) (last pre).

Definition settled_at (pre : list Step) (p : Z) : Prop :=
  0 ≤ p ∧ is_some_and (λ s, step_settled s.(s_state) = true) (pre !! Z.to_nat p).

Definition consumed_of (ss : list Step) : list Z := ss ≫= taken.

(** The descriptor of a step after the ones before it. *)
Definition graph_ok (i : InstanceRow) (pre : list Step) (s : Step) : Prop :=
  let d := s.(descriptor) in
  WorkflowStepDescriptor_validate d = Ok () ∧ d.(ordinal) = Z.of_nat (length pre) ∧
  d.(name_count) = 1 + count (λ p, step_key p = step_key s) pre ∧
  (d.(rollback_step) = true → d.(batch_size) = 1 ∧ d.(dependencies) = []) ∧
  (d.(rollback_step) = false → Forall (λ p, p.(descriptor).(rollback_step) = false) pre) ∧
  batch_ok pre d ∧ Forall (settled_at pre) d.(dependencies) ∧
  is_none_or (λ c, c < i.(next_event_seq)) s.(event_buffer_ceiling).

Section history.
Context `{Codec}.

Definition step_ok (i : InstanceRow) (pre : list Step) (s : Step) : Prop :=
  graph_ok i pre s ∧ step_norm i s ∧ Forall (λ x, x ∉ consumed_of pre) (taken s).

Definition event_fits (i : InstanceRow) (cs : list Z) (e : Event) : Prop :=
  safe e.(accepted_at_ms) ∧ validate_workflow_event_type e.(e_type) = Ok () ∧
  e.(event_seq) < i.(next_event_seq) ∧ e.(event_seq) ∉ cs ∧
  e.(logical_bytes) = WORKFLOW_EVENT_BYTES + str_len e.(e_type) + str_len e.(e_payload) ∧
  valid_value e.(e_payload) = true.

Definition events_ok (w : Workflow) : Prop :=
  increasing (0 :: (event_seq <$> w.(events))) ∧
  Forall (event_fits w.(row) (consumed_of w.(steps))) w.(events) ∧
  Forall (λ q, q < w.(row).(next_event_seq)) (consumed_of w.(steps)).

(** ** One step of the scan *)

Definition scan_of (i : InstanceRow) (pre : list Step) : Scan := {|
  seen := reverse (step_key <$> pre);
  consumed := reverse (consumed_of pre);
  registered := Z.of_nat (length pre);
  completed := count (λ s, s.(s_state) = SComplete) pre;
  settled := count (λ s, step_settled s.(s_state) = true) pre;
  next_wake := earliest pre;
  batch_end := end_of pre;
  batch_first := from_option (λ s, s.(descriptor).(batch_first_ordinal)) 0 (last pre);
  batch_dependencies := from_option (λ s, s.(descriptor).(dependencies)) [] (last pre);
  settled_ordinals := reverse ((λ s, s.(descriptor).(ordinal)) <$> filter (λ s, step_settled s.(s_state) = true) pre);
  has_pending := bool_decide (Exists (λ s, s.(s_state) = SPending ∨ s.(s_state) = SRunning ∨
                                           s.(s_state) = SDelayPending) pre);
  rollback_started := bool_decide (Exists (λ s, s.(descriptor).(rollback_step) = true) pre);
  bytes := (scan_start i).(bytes) + sql_sum step_bytes pre;
|}.

Lemma opt_min_assoc a b c : opt_min a (opt_min b c) = opt_min (opt_min a b) c.
Proof. destruct a, b, c; cbn; try done. by rewrite Z.min_assoc. Qed.
Lemma opt_min_None_r a : opt_min a None = a.
Proof. by destruct a. Qed.
Lemma earliest_snoc pre s : earliest (pre ++ [s]) = opt_min (earliest pre) (step_wake s).
Proof.
  unfold earliest. induction pre as [|p pre IH]; cbn.
  - by rewrite opt_min_None_r.
  - rewrite IH. apply opt_min_assoc.
Qed.
Lemma count_snoc (P : Step → Prop) `{!∀ s, Decision (P s)} pre s :
  count P (pre ++ [s]) = count P pre + (if decide (P s) then 1 else 0).
Proof.
  unfold count. rewrite filter_app, length_app, filter_cons, filter_nil. case_decide; cbn; lia.
Qed.
Lemma sql_sum_snoc {A} (f : A → Z) l x : sql_sum f (l ++ [x]) = sql_sum f l + f x.
Proof. rewrite sql_sum_app. cbn. lia. Qed.

Lemma seen_count pre s :
  Z.of_nat (length (filter (λ k, k = step_key s) (reverse (step_key <$> pre)))) =
  count (λ p, step_key p = step_key s) pre.
Proof.
  unfold count. rewrite filter_reverse, length_reverse. f_equal.
  induction pre as [|p pre IH]; [done|]. rewrite fmap_cons, !filter_cons. 
  case_decide; cbn; [by rewrite IH|done].
Qed.

Lemma scan_of_snoc i pre s :
  scan_of i (pre ++ [s]) = {|
    seen := step_key s :: (scan_of i pre).(seen);
    consumed := taken s ++ (scan_of i pre).(consumed);
    registered := (scan_of i pre).(registered) + 1;
    completed := (scan_of i pre).(completed) + (if decide (s.(s_state) = SComplete) then 1 else 0);
    settled := (scan_of i pre).(settled) + (if step_settled s.(s_state) then 1 else 0);
    next_wake := opt_min (scan_of i pre).(next_wake) (step_wake s);
    batch_end := s.(descriptor).(batch_first_ordinal) + s.(descriptor).(batch_size);
    batch_first := s.(descriptor).(batch_first_ordinal);
    batch_dependencies := s.(descriptor).(dependencies);
    settled_ordinals := (if step_settled s.(s_state) then s.(descriptor).(ordinal) :: (scan_of i pre).(settled_ordinals)
                         else (scan_of i pre).(settled_ordinals));
    has_pending := (scan_of i pre).(has_pending) ||
      bool_decide (s.(s_state) = SPending ∨ s.(s_state) = SRunning ∨ s.(s_state) = SDelayPending);
    rollback_started := (scan_of i pre).(rollback_started) || s.(descriptor).(rollback_step);
    bytes := (scan_of i pre).(bytes) + step_bytes s;
  |}.
Proof.
  unfold scan_of. cbn [seen consumed registered completed settled next_wake batch_end batch_first
    batch_dependencies settled_ordinals has_pending rollback_started bytes]. f_equal.
  - by rewrite fmap_app, reverse_app.
  - unfold consumed_of, taken. rewrite bind_app, reverse_app. f_equal. cbn. rewrite app_nil_r.
    by destruct (consumed_event_seq s).
  - rewrite length_app. cbn. lia.
  - by rewrite count_snoc.
  - rewrite count_snoc. f_equal. destruct (step_settled (s_state s)); case_decide; done.
  - by rewrite earliest_snoc.
  - unfold end_of. by rewrite last_snoc.
  - by rewrite last_snoc.
  - by rewrite last_snoc.
  - rewrite filter_app, fmap_app, reverse_app, filter_cons, filter_nil.
    destruct (step_settled (s_state s)); case_decide; done.
  - rewrite <-bool_decide_or. apply bool_decide_ext. rewrite Exists_app, Exists_cons, Exists_nil. tauto.
  - rewrite (bool_decide_ext _ (Exists (λ s, rollback_step (descriptor s) = true) pre ∨
                                rollback_step (descriptor s) = true)) by (rewrite Exists_app, Exists_cons, Exists_nil; tauto).
    rewrite bool_decide_or. by destruct (rollback_step (descriptor s)).
  - rewrite sql_sum_snoc. lia.
Qed.

Definition positions (pre : list Step) : Prop :=
  ∀ k s, pre !! k = Some s → s.(descriptor).(ordinal) = Z.of_nat k.

Lemma settled_ordinals_spec i pre p :
  positions pre → p ∈ (scan_of i pre).(settled_ordinals) ↔ settled_at pre p.
Proof.
  intros Hp. cbn. rewrite elem_of_reverse, list_elem_of_fmap. setoid_rewrite list_elem_of_filter. split.
  - intros (s & -> & Hs & Hin). apply list_elem_of_lookup in Hin as [k Hk]. unfold settled_at.
    rewrite (Hp _ _ Hk), Nat2Z.id, Hk. split; [lia|done].
  - intros [H0 Hs]. destruct (pre !! Z.to_nat p) as [s|] eqn:Hk; [|done]. exists s.
    split; [rewrite (Hp _ _ Hk); lia|]. split; [done|]. by eapply list_elem_of_lookup_2.
Qed.


Lemma parents_spec i pre ps :
  positions pre → Forall (λ p, p ∈ (scan_of i pre).(settled_ordinals)) ps ↔ Forall (settled_at pre) ps.
Proof. intros Hp. apply Forall_iff. intros p. by apply settled_ordinals_spec. Qed.

(** The batch the scan continues, which is the one of an accepted descriptor. *)
Lemma open_batch i pre d :
  (if decide (Z.of_nat (length pre) = end_of pre)
   then (Z.of_nat (length pre), Z.of_nat (length pre) + d.(batch_size), d.(dependencies))
   else ((scan_of i pre).(batch_first), end_of pre, (scan_of i pre).(batch_dependencies))) =
  (d.(batch_first_ordinal), d.(batch_first_ordinal) + d.(batch_size), d.(dependencies)) ↔ batch_ok pre d.
Proof.
  unfold batch_ok. case_decide as Hlen.
  - split; [by intros [= -> ?]|by intros ->].
  - destruct (last pre) as [p|] eqn:Hl.
    + unfold end_of. cbn. rewrite Hl. cbn. split; [intros [= -> ? ->]|intros (-> & -> & ->)]; [|done].
      split_and!; try done. lia.
    + apply last_None in Hl as ->. by destruct Hlen.
Qed.

Lemma open_batch_checks first end_ (deps : list Z) d :
  d.(batch_first_ordinal) = first ∧ d.(batch_size) = end_ - first ∧ d.(dependencies) = deps ↔
  (first, end_, deps) = (d.(batch_first_ordinal), d.(batch_first_ordinal) + d.(batch_size), d.(dependencies)).
Proof. split; [intros (<- & -> & <-)|intros [= -> -> ->]]; [f_equal; f_equal; lia|split_and!; try done; lia]. Qed.


(** The guards of the scan, one clause of [graph_ok] each. *)
Lemma guard_ordinal (a b c e : Z) : ¬ (a ≠ b ∨ c ≠ e) ↔ a = b ∧ c = e.
Proof. lia. Qed.
Lemma guard_rollback d :
  ¬ (d.(rollback_step) = true ∧ (d.(batch_size) ≠ 1 ∨ d.(dependencies) ≠ [])) ↔
  (d.(rollback_step) = true → d.(batch_size) = 1 ∧ d.(dependencies) = []).
Proof. destruct (decide (batch_size d = 1)), (decide (dependencies d = [])); naive_solver. Qed.
Lemma guard_suffix d pre :
  ¬ (d.(rollback_step) = false ∧ bool_decide (Exists (λ s, s.(descriptor).(rollback_step) = true) pre) = true) ↔
  (d.(rollback_step) = false → Forall (λ p, p.(descriptor).(rollback_step) = false) pre).
Proof.
  rewrite bool_decide_eq_true. 
  assert (Forall (λ p, p.(descriptor).(rollback_step) = false) pre ↔
          ¬ Exists (λ s, s.(descriptor).(rollback_step) = true) pre) as ->; [|tauto].
  rewrite <-Forall_Exists_neg. apply Forall_iff. intros s. by destruct (rollback_step (descriptor s)).
Qed.
Lemma guard_batch first end_ deps d P :
  ¬ (d.(batch_first_ordinal) ≠ first ∨ d.(batch_size) ≠ end_ - first ∨ d.(dependencies) ≠ deps ∨ ¬ P) ↔
  (first, end_, deps) = (d.(batch_first_ordinal), d.(batch_first_ordinal) + d.(batch_size), d.(dependencies)) ∧
  ¬ ¬ P.
Proof.
  rewrite <-open_batch_checks.
  destruct (decide (batch_first_ordinal d = first)), (decide (batch_size d = end_ - first)),
    (decide (dependencies d = deps)); naive_solver.
Qed.
Lemma guard_ceiling (n : Z) o : ¬ is_some_and (λ c, n ≤ c) o ↔ is_none_or (λ c, c < n) o.
Proof. destruct o; cbn; [lia|tauto]. Qed.

Lemma scan_step_iff i pre s v :
  step_check s → unsigned s.(descriptor).(config) → positions pre →
  scan_step i (scan_of i pre) s = Ok v ↔ step_ok i pre s ∧ live_ok i s ∧ v = scan_of i (pre ++ [s]).
Proof.
  intros Hchk Hu Hp. unfold scan_step, step_ok, graph_ok. 
  change (kind (config (descriptor s)), name (descriptor s)) with (step_key s).
  rewrite !fail_if_bind. change (seen (scan_of i pre)) with (reverse (step_key <$> pre)).
  rewrite seen_count, guard_ordinal, guard_rollback.
  change (registered (scan_of i pre)) with (Z.of_nat (length pre)).
  change (batch_end (scan_of i pre)) with (end_of pre).
  change (rollback_started (scan_of i pre)) with (bool_decide (Exists (λ s, rollback_step (descriptor s) = true) pre)).
  rewrite guard_suffix. pose proof (open_batch i pre (descriptor s)) as Hb.
  destruct (if decide _ then _ else _) as [[first end_] deps].
  rewrite !fail_if_bind, guard_batch, guard_ceiling, Hb, parents_spec, result_bind_Ok by done.
  setoid_rewrite (verify_step_iff i s _ _ Hchk Hu). rewrite scan_of_snoc.
  assert (Hf : Forall (λ x, x ∉ consumed (scan_of i pre)) (taken s) ↔ Forall (λ x, x ∉ consumed_of pre) (taken s)).
  { apply Forall_iff. intros x. cbn. by rewrite elem_of_reverse. }
  split.
  - intros (Hv & [??] & ? & ? & [Hbo Hd] & ? & r & (? & ? & ? & ->) & [= <-]). apply dec_stable in Hv, Hd.
    apply Hb in Hbo as Hbe. injection Hbe as -> -> ->. split; [by split_and!; try apply Hf|]. by split.
  - intros (((Hv & ? & ? & ? & ? & Hbo & Hd & ?) & ? & ?) & ? & ->). split_and!; try tauto.
    exists (step_wake s, taken s ++ consumed (scan_of i pre)). split; [by split_and!; try apply Hf|].
    apply Hb in Hbo. injection Hbo as -> -> ->. done.
Qed.

(** ** The whole scan *)

Lemma scan_of_nil i : scan_of i [] = scan_start i.
Proof. unfold scan_of. cbn. unfold scan_start. cbn. f_equal. lia. Qed.

Lemma positions_snoc pre s :
  positions pre → s.(descriptor).(ordinal) = Z.of_nat (length pre) → positions (pre ++ [s]).
Proof.
  intros Hp Hs k q. rewrite lookup_app. destruct (pre !! k) as [p|] eqn:Hk.
  - intros [= <-]. by apply Hp.
  - intros Hq. apply list_lookup_singleton_Some in Hq as [Hlen <-]. apply lookup_ge_None in Hk.
    rewrite Hs. lia.
Qed.

Lemma scan_steps_iff i pre ss v :
  Forall step_check ss → Forall (λ s, unsigned s.(descriptor).(config)) ss → positions pre →
  scan_steps i (scan_of i pre) ss = Ok v ↔
  (∀ k s, ss !! k = Some s → step_ok i (pre ++ take k ss) s ∧ live_ok i s) ∧ v = scan_of i (pre ++ ss).
Proof.
  intros Hc Hu. revert pre. induction ss as [|s ss IH]; intros pre Hp; cbn.
  - rewrite app_nil_r. split; [intros [= <-]|intros [_ ->]]; done.
  - inversion_clear Hc as [|?? Hc1 Hc2]. inversion_clear Hu as [|?? Hu1 Hu2]. rewrite result_bind_Ok.
    setoid_rewrite (scan_step_iff i pre s _ Hc1 Hu1 Hp). split.
    + intros (v' & (Hs & Hl & ->) & Hss). apply IH in Hss as [Hss ->]; [|done..|].
      2:{ apply positions_snoc; [done|]. apply Hs. }
      rewrite <-app_assoc in *. split; [|done]. intros [|k] q Hq.
      * injection Hq as <-. cbn. by rewrite app_nil_r.
      * specialize (Hss k q Hq). by rewrite <-app_assoc in Hss.
    + intros [Hall ->]. destruct (Hall 0%nat s) as [Hs Hl]; [done|]. cbn in Hs. rewrite app_nil_r in Hs.
      exists (scan_of i (pre ++ [s])). split; [done|]. rewrite IH; [|done..|].
      2:{ apply positions_snoc; [done|]. apply Hs. }
      rewrite <-app_assoc. split; [|done]. intros k q Hq. rewrite <-app_assoc. by apply (Hall (S k)).
Qed.

Lemma guard_event i cs e previous :
  ¬ (e.(event_seq) ≤ previous ∨ i.(next_event_seq) ≤ e.(event_seq) ∨ e.(event_seq) ∈ cs ∨
     e.(logical_bytes) ≠ WORKFLOW_EVENT_BYTES + str_len e.(e_type) + str_len e.(e_payload) ∨
     valid_value e.(e_payload) = false) ∧ safe e.(accepted_at_ms) ∧
  ¬ validate_workflow_event_type e.(e_type) ≠ Ok () ↔ previous < e.(event_seq) ∧ event_fits i cs e.
Proof.
  unfold event_fits. split.
  - intros (Hn & ? & Ht). apply dec_stable in Ht.
    split_and!; try done; try lia; try tauto. by destruct (valid_value (e_payload e)); [|exfalso; tauto].
  - intros (? & ? & ? & ? & ? & ? & Hv). rewrite Hv. split_and!; try done; [|tauto].
    intros [?|[?|[?|[?|?]]]]; try done; lia.
Qed.

Lemma scan_events_iff i cs n size previous es r :
  scan_events i cs n size previous es = Ok r ↔
  (es = [] ∨ n + Z.of_nat (length es) ≤ i.(acct).(event_count)) ∧ increasing (previous :: (event_seq <$> es)) ∧
  Forall (event_fits i cs) es ∧ r = (n + Z.of_nat (length es), size + sql_sum logical_bytes es).
Proof.
  revert n size previous. induction es as [|e es IH]; intros n size previous.
  - cbn. split; [intros [= <-]|intros (_ & _ & _ & ->)]; [|f_equal; f_equal; lia].
    split_and!; auto. f_equal; lia.
  - cbn [scan_events]. rewrite fail_if_bind, result_bind_Ok. setoid_rewrite safe_time_Ok. do 2 setoid_rewrite fail_if_bind.
    setoid_rewrite IH. rewrite fmap_cons, Forall_cons, length_cons.
    change (increasing (previous :: event_seq e :: (event_seq <$> es))) with
      (previous < event_seq e ∧ increasing (event_seq e :: (event_seq <$> es))).
    change (sql_sum logical_bytes (e :: es)) with (logical_bytes e + sql_sum logical_bytes es).
    split.
    + intros (Hn & _ & Hs & Ht & Hg & Hc & ? & ? & ->).
      destruct (proj1 (guard_event i cs e previous)) as [? ?]; [done|]. split_and!; try done.
      * right. destruct Hc as [-> |?]; cbn; lia.
      * f_equal; lia.
    + intros (Hc & (? & ?) & (? & ?) & ->). destruct Hc as [?|Hc]; [done|]. split; [lia|]. exists ().
      destruct (proj2 (guard_event i cs e previous)) as (? & ? & ?); [done|]. split_and!; try done.
      * right. lia.
      * f_equal; lia.
Qed.

(** ** The whole instance *)

Definition row_times (i : InstanceRow) : list (option Z) :=
  [Some i.(identity).(created_at_ms); Some i.(updated_at_ms); i.(next_run_at_ms);
   run_lease_until_ms <$> i.(run); i.(terminal_at_ms); i.(expires_at_ms)].

Record history_ok (w : Workflow) : Prop := {
  h_readable : readable w.(row);
  h_digest : version_digest w.(row).(identity).(target) = Ok w.(row).(identity).(target).(descriptor_sha256);
  h_input : valid_value w.(row).(input_json) = true;
  h_output : is_none_or (λ o, valid_value o = true) w.(row).(output_json);
  h_steps : ∀ k s, w.(steps) !! k = Some s → step_ok w.(row) (take k w.(steps)) s;
  h_closed : Z.of_nat (length w.(steps)) = end_of w.(steps);
  h_events : events_ok w;
  h_acct : w.(row).(acct) = accounting w;
  h_finished : is_terminal w.(row).(state) = true → Forall (λ s, unfinished s.(s_state) = false) w.(steps);
  h_complete : w.(row).(state) = WComplete → (accounting w).(settled_step_count) = (accounting w).(registered_step_count);
  h_waiting : w.(row).(state) = WWaiting →
    Forall (λ s, s.(s_state) ≠ SPending ∧ s.(s_state) ≠ SDelayPending) w.(steps);
  h_activated : w.(steps) ≠ [] ∨ w.(row).(state) = WRunning → w.(row).(has_activated) = true;
  h_generation : w.(row).(identity).(instance_generation) = 1 ↔ w.(row).(last_restart_operation_id) = None;
  h_rollback : Exists (λ s, s.(descriptor).(rollback_step) = true) w.(steps) →
    w.(row).(rollback_requested) = true ∨ w.(row).(state) = WTerminated;
  h_times : Forall (is_none_or safe) (row_times w.(row));
}.

(** What the verification asks beyond a valid history: a suspended instance has a
    deadline, and a live one no cancelled step. *)
Definition claimable (w : Workflow) : Prop :=
  (w.(row).(state) = WWaiting → is_Some (earliest w.(steps))) ∧
  (is_terminal w.(row).(state) = false → Forall (λ s, s.(s_state) ≠ SCancelled) w.(steps)).

Lemma lease_terminal i : lease_check i → is_terminal i.(state) = true ↔ is_Some i.(terminal_at_ms).
Proof.
  unfold lease_check. destruct (state i); cbn; intros (? & ? & ?); split; try done; try (intros [? ?]; congruence).
  all: naive_solver.
Qed.
Lemma lease_run i : lease_check i → i.(state) = WRunning ↔ is_Some i.(run).
Proof.
  unfold lease_check. destruct (state i); cbn; intros (? & Hr & Ht); split; try done; try (intros [? ?]; congruence).
  intros _. destruct (run i); [eauto|done].
Qed.
Lemma lease_next_run i : lease_check i → i.(state) = WQueued ↔ is_Some i.(next_run_at_ms).
Proof.
  unfold lease_check. destruct (state i); cbn; intros (? & ? & ?); split; try done; intros [? ?]; congruence.
Qed.
Lemma lease_wake i : lease_check i → is_terminal i.(state) = true → i.(acct).(next_wake_at_ms) = None.
Proof. unfold lease_check. destruct (state i); cbn; try done; by intros (? & ? & ? & ?). Qed.

Lemma verify_instance_iff i u :
  instance_check i → readable i →
  verify_instance i = Ok u ↔ Forall (is_none_or safe) (instance_times i).
Proof.
  intros Hc Hr. unfold verify_instance. rewrite result_bind_Ok. setoid_rewrite safe_times_Ok. setoid_rewrite result_bind_Ok.
  setoid_rewrite fail_if_Ok. split; [by intros ([] & ? & _)|].
  intros Ht. exists (). split; [done|]. exists i.(expires_at_ms).
  destruct Hc as (Hl & He & _ & Ho & Hj & Hj' & Hf & Hrb & ? & _ & _ & _ & _ & _ & ? & ? & _ & _ & _ & _ & _ & ?).
  destruct Hr as (_ & Hret & _ & _). 
  split.
  - unfold expiry_check in He. unfold instance_times in Ht. rewrite !Forall_cons in Ht.
    destruct Ht as (_ & _ & _ & _ & Htt & _ & Hte & _). 
    destruct (terminal_at_ms i) as [t|], (expires_at_ms i) as [e|]; try done.
    cbn in Htt, Hte. destruct He as [_ He].
    assert (expires_at i.(retention) t (bool_decide (i.(state) = WComplete)) = Ok e) as ->; [|done].
    apply expires_at_exact; [lia..|]. unfold safe, WorkflowRetention_validate, bail_if, WORKFLOW_MAX_DURATION_MS in *.
    case_decide; [done|].
    rewrite He. case_bool_decide; case_decide; try done; split_and!; lia.
  - pose proof (lease_terminal i Hl) as L1. pose proof (lease_run i Hl) as L2. pose proof (lease_next_run i Hl) as L3.
    pose proof (lease_wake i Hl) as L4. clear Hl He.
    intros [?|[?|[?|[?|[?|[?|[?|[?|[[Hn Hpy]|[[? ?]|[[? Hs]|?]]]]]]]]]]]; try tauto; try lia; try done.
    + destruct Hf as [?|[Hp Hy]]; [done|]. rewrite Hp, Hy in Hpy. by destruct Hpy.
    + rewrite Hrb in * by done. done.
    + rewrite L4 in Hs by done. by destruct Hs.
Qed.

Lemma error_bytes i : readable i → (if i.(error_json) then reserve else 0) = opt_len i.(error_json).
Proof. intros (_ & _ & He & _). unfold reserve. destruct (error_json i); cbn in *; by subst. Qed.

Lemma acct_iff w :
  readable w.(row) →
  w.(row).(acct) = accounting w ↔
  (let v := scan_of w.(row) w.(steps) in let a := w.(row).(acct) in
   v.(registered) = a.(registered_step_count) ∧ v.(completed) = a.(completed_step_count) ∧
   v.(settled) = a.(settled_step_count) ∧ v.(next_wake) = a.(next_wake_at_ms) ∧
   0 + Z.of_nat (length w.(events)) = a.(event_count) ∧
   0 + sql_sum logical_bytes w.(events) = a.(event_bytes) ∧
   v.(bytes) + (0 + sql_sum logical_bytes w.(events)) = a.(state_bytes)).
Proof.
  intros Hr. unfold accounting, scan_of. cbn. rewrite (error_bytes _ Hr).
  destruct (acct (row w)) as [a1 a2 a3 a4 a5 a6 a7]. cbn. split.
  - intros [= -> -> -> -> -> -> ->]. split_and!; try done; lia.
  - intros (-> & -> & -> & -> & <- & <- & <-). f_equal; lia.
Qed.

Lemma pending_iff w :
  (∀ s, s ∈ w.(steps) → step_norm w.(row) s) → w.(row).(state) = WWaiting →
  (scan_of w.(row) w.(steps)).(has_pending) = false ↔
  Forall (λ s, s.(s_state) ≠ SPending ∧ s.(s_state) ≠ SDelayPending) w.(steps).
Proof.
  intros Hn Hw. cbn. rewrite bool_decide_eq_false, <-Forall_Exists_neg, !Forall_forall. split.
  - intros Hp s Hs. specialize (Hp s Hs). tauto.
  - intros Hp s Hs. specialize (Hp s Hs). intros [?|[Hr|?]]; try tauto.
    specialize (Hn s Hs). unfold step_norm in Hn. destruct Hn as (_ & _ & Hn).
    destruct (config (descriptor s)); unfold do_norm, sleep_norm, event_norm in Hn; rewrite Hr in Hn.
    + destruct Hn as (_ & _ & _ & ? & ? & _ & Ho & _). congruence.
    + by destruct Hn as (_ & _ & _ & _ & ?).
    + by destruct Hn as (_ & _ & _ & _ & ?).
    + by destruct Hn as (_ & _ & ? & _ & _ & ?).
Qed.

Lemma nor_iff (P Q : Prop) : ¬ (P ∨ Q) ↔ ¬ P ∧ ¬ Q.
Proof. tauto. Qed.

(** The final comparison of [verify]. *)
Lemma summary_iff w :
  readable w.(row) → (∀ s, s ∈ w.(steps) → step_norm w.(row) s) →
  (let i := w.(row) in let a := i.(acct) in let v := scan_of i w.(steps) in
   let e := (0 + Z.of_nat (length w.(events)), 0 + sql_sum logical_bytes w.(events)) in
   ¬ (v.(registered) ≠ v.(batch_end) ∨ v.(registered) ≠ a.(registered_step_count) ∨
      v.(completed) ≠ a.(completed_step_count) ∨ v.(settled) ≠ a.(settled_step_count) ∨
      v.(next_wake) ≠ a.(next_wake_at_ms) ∨ e.1 ≠ a.(event_count) ∨ e.2 ≠ a.(event_bytes) ∨
      v.(bytes) + e.2 ≠ a.(state_bytes) ∨
      (i.(state) = WComplete ∧ v.(settled) ≠ v.(registered)) ∨
      (i.(state) = WWaiting ∧ (v.(next_wake) = None ∨ v.(has_pending) = true)) ∨
      ((0 < v.(registered) ∨ i.(state) = WRunning) ∧ i.(has_activated) = false) ∨
      ¬ (i.(identity).(instance_generation) = 1 ↔ i.(last_restart_operation_id) = None) ∨
      (v.(rollback_started) = true ∧ i.(rollback_requested) = false ∧ i.(state) ≠ WTerminated))) ↔
  Z.of_nat (length w.(steps)) = end_of w.(steps) ∧ w.(row).(acct) = accounting w ∧
  (w.(row).(state) = WComplete → (accounting w).(settled_step_count) = (accounting w).(registered_step_count)) ∧
  (w.(row).(state) = WWaiting → is_Some (earliest w.(steps)) ∧
     Forall (λ s, s.(s_state) ≠ SPending ∧ s.(s_state) ≠ SDelayPending) w.(steps)) ∧
  (w.(steps) ≠ [] ∨ w.(row).(state) = WRunning → w.(row).(has_activated) = true) ∧
  (w.(row).(identity).(instance_generation) = 1 ↔ w.(row).(last_restart_operation_id) = None) ∧
  (Exists (λ s, s.(descriptor).(rollback_step) = true) w.(steps) →
    w.(row).(rollback_requested) = true ∨ w.(row).(state) = WTerminated).
Proof.
  intros Hr Hn. cbn zeta. rewrite (acct_iff _ Hr). pose proof (pending_iff w Hn) as Hp. cbn zeta.
  change (rollback_started (scan_of (row w) (steps w))) with
    (bool_decide (Exists (λ s, rollback_step (descriptor s) = true) (steps w))).
  change (registered (scan_of (row w) (steps w))) with (Z.of_nat (length (steps w))).
  change (settled_step_count (accounting w)) with (settled (scan_of (row w) (steps w))).
  change (registered_step_count (accounting w)) with (Z.of_nat (length (steps w))).
  change (next_wake (scan_of (row w) (steps w))) with (earliest (steps w)).
  change (batch_end (scan_of (row w) (steps w))) with (end_of (steps w)).
  rewrite bool_decide_eq_true.
  assert (Hlen : steps w ≠ [] ↔ 0 < Z.of_nat (length (steps w))) by (destruct (steps w); cbn; [done|]; split; [lia|done]).
  rewrite Hlen. 
  cbn [fst snd]. split.
  - intros HN. rewrite !nor_iff in HN. 
    destruct HN as (N1 & N2 & N3 & N4 & N5 & N6 & N7 & N8 & N9 & N10 & N11 & N12 & N13).
    apply dec_stable in N1, N2, N3, N4, N5, N6, N7, N8, N12. split_and!; try done.
    + intros ?. destruct (decide (settled (scan_of (row w) (steps w)) = Z.of_nat (length (steps w)))); tauto.
    + intros Hw. rewrite <-Hp by done. split.
      * destruct (earliest (steps w)); [by eexists|tauto].
      * destruct (has_pending (scan_of (row w) (steps w))); tauto.
    + intros ?. destruct (has_activated (row w)); tauto.
    + intros ?. destruct (rollback_requested (row w)), (decide (state (row w) = WTerminated)); tauto.
  - intros (? & (? & ? & ? & ? & ? & ? & ?) & ? & Hw & Ha & ? & Hrb). rewrite !nor_iff. split_and!; try tauto.
    + intros [Hst Hx]. specialize (Hw Hst). rewrite <-Hp in Hw by done. destruct Hw as [[? Hw1] Hw2].
      destruct Hx; congruence.
    + intros [? ?]. rewrite Ha in * by done. done.
    + intros (? & ? & ?). destruct Hrb; congruence.
Qed.

Lemma verify_events_iff w r :
  verify_events w (reverse (consumed_of w.(steps))) = Ok r ↔
  (w.(events) = [] ∨ 0 + Z.of_nat (length w.(events)) ≤ w.(row).(acct).(event_count)) ∧ events_ok w ∧
  r = (0 + Z.of_nat (length w.(events)), 0 + sql_sum logical_bytes w.(events)).
Proof.
  unfold verify_events, events_ok. rewrite result_bind_Ok. setoid_rewrite scan_events_iff. setoid_rewrite fail_if_bind.
  assert (Hf : Forall (event_fits (row w) (reverse (consumed_of (steps w)))) (events w) ↔
               Forall (event_fits (row w) (consumed_of (steps w))) (events w)).
  { apply Forall_iff. intros e. unfold event_fits. by rewrite elem_of_reverse. }
  assert (Hc : ¬ Exists (λ q, next_event_seq (row w) ≤ q) (reverse (consumed_of (steps w))) ↔
               Forall (λ q, q < next_event_seq (row w)) (consumed_of (steps w))).
  { rewrite <-Forall_Exists_neg, !Forall_forall. setoid_rewrite elem_of_reverse.
    split; intros Hq q Hin; specialize (Hq q Hin); lia. }
  setoid_rewrite Hf. setoid_rewrite Hc. split.
  - intros (? & (? & ? & ? & ->) & ? & [= <-]). by split_and!.
  - intros (? & (? & ? & ?) & ->). eexists. by split_and!.
Qed.

(** The edges of an accepted graph. *)
Lemma graph_edges w :
  (∀ k s, w.(steps) !! k = Some s → graph_ok w.(row) (take k w.(steps)) s) →
  Z.of_nat (length w.(steps)) ≤ 1024 → edges_ok w.(steps).
Proof.
  intros Hg Hlen. split.
  - assert (Hd : Forall (λ s, Z.of_nat (length s.(descriptor).(dependencies)) ≤ 16) w.(steps)).
    { apply Forall_lookup. intros k s Hs. destruct (Hg k s Hs) as (Hv & _).
      unfold WorkflowStepDescriptor_validate, bail_if in Hv. destruct_result. repeat case_decide; try done; lia. }
    assert (Hs : ∀ l, Forall (λ s, Z.of_nat (length s.(descriptor).(dependencies)) ≤ 16) l →
      sql_sum (λ s, Z.of_nat (length s.(descriptor).(dependencies))) l ≤ 16 * Z.of_nat (length l)).
    { induction 1 as [|s l Hs Hl IH]; [done|]. unfold sql_sum in *. cbn -[Z.mul]. lia. }
    specialize (Hs _ Hd). lia.
  - apply Forall_lookup. intros k s Hs. destruct (Hg k s Hs) as (_ & -> & _ & _ & _ & _ & Hd & _).
    eapply Forall_impl; [exact Hd|]. intros p [H0 Hp]. destruct (take k (steps w) !! Z.to_nat p) eqn:E; [|done].
    apply lookup_lt_Some in E. lia.
Qed.

Lemma verify_iff w u :
  instance_check w.(row) → readable w.(row) → Forall step_check w.(steps) →
  Forall (λ s, unsigned s.(descriptor).(config)) w.(steps) → Z.of_nat (length w.(steps)) ≤ 1024 →
  verify w = Ok u ↔
  (∀ k s, w.(steps) !! k = Some s → step_ok w.(row) (take k w.(steps)) s ∧ live_ok w.(row) s) ∧
  events_ok w ∧
  (Z.of_nat (length w.(steps)) = end_of w.(steps) ∧ w.(row).(acct) = accounting w ∧
   (w.(row).(state) = WComplete → (accounting w).(settled_step_count) = (accounting w).(registered_step_count)) ∧
   (w.(row).(state) = WWaiting → is_Some (earliest w.(steps)) ∧
      Forall (λ s, s.(s_state) ≠ SPending ∧ s.(s_state) ≠ SDelayPending) w.(steps)) ∧
   (w.(steps) ≠ [] ∨ w.(row).(state) = WRunning → w.(row).(has_activated) = true) ∧
   (w.(row).(identity).(instance_generation) = 1 ↔ w.(row).(last_restart_operation_id) = None) ∧
   (Exists (λ s, s.(descriptor).(rollback_step) = true) w.(steps) →
     w.(row).(rollback_requested) = true ∨ w.(row).(state) = WTerminated)) ∧
  Forall (is_none_or safe) (instance_times w.(row)).
Proof.
  intros Hc Hr Hchk Hu Hlen. unfold verify. rewrite fail_if_not_bind, result_bind_Ok.
  rewrite take_ge, <-scan_of_nil by lia. 
  setoid_rewrite (scan_steps_iff (row w) [] (steps w) _ Hchk Hu); [|by intros ??].
  setoid_rewrite result_bind_Ok. cbn [app].
  assert (Hnorm : (∀ k s, steps w !! k = Some s → step_ok (row w) (take k (steps w)) s ∧ live_ok (row w) s) →
                  ∀ s, s ∈ steps w → step_norm (row w) s).
  { intros Hall s [k Hk]%list_elem_of_lookup. by apply (Hall k s). }
  split.
  - intros (_ & v & (Hall & ->) & e & He & Hf). apply verify_events_iff in He as (_ & He & ->).
    rewrite fail_if_bind, verify_instance_iff in Hf by done. destruct Hf as [Hs Ht].
    apply summary_iff in Hs; [|done|by apply Hnorm]. done.
  - intros (Hall & He & Hs & Ht). split; [apply graph_edges; [|done]; intros k s Hk; by apply Hall|].
    exists (scan_of (row w) (steps w)). split; [done|]. 
    eexists. split; [apply verify_events_iff; split_and!; [right|done..]|].
    + destruct Hs as (_ & -> & _). cbn. lia.
    + rewrite fail_if_bind, verify_instance_iff by done. split; [|done]. apply summary_iff; [done|by apply Hnorm|done].
Qed.

(** The next wake-up of a valid history is a safe time. *)
Lemma step_wake_safe i s : step_norm i s → is_none_or safe (step_wake s).
Proof.
  intros (_ & Hu & Hn). unfold step_wake.
  assert (Htried : ∀ c, untried s ∨ tried c s → is_none_or safe (attempt_deadline_at_ms s)).
  { intros c [(_ & _ & ->)|(_ & t & _ & -> & _ & ?)]; done. }
  destruct (config (descriptor s)) as [c| | |t ?]; unfold do_norm, sleep_norm, event_norm, columns in Hn;
    destruct (s_state s); try done.
  1: apply (Htried c), Hn.
  1: apply (Htried c); right; apply Hn.
  all: repeat match goal with H : _ ∧ _ |- _ => destruct H | H : ∃ _, _ |- _ => destruct H end; try done;
    simplify_eq; by rew_cols.
Qed.

Lemma earliest_safe ss : Forall (λ s, is_none_or safe (step_wake s)) ss → is_none_or safe (earliest ss).
Proof.
  unfold earliest. induction 1 as [|s ss Hs _ IH]; [done|]. cbn.
  destruct (step_wake s), (foldr _ _ ss); cbn in *; try done. unfold safe in *. lia.
Qed.

Lemma times_iff w :
  (∀ s, s ∈ w.(steps) → step_norm w.(row) s) → w.(row).(acct) = accounting w →
  Forall (is_none_or safe) (instance_times w.(row)) ↔ Forall (is_none_or safe) (row_times w.(row)).
Proof.
  intros Hn Ha. unfold instance_times, row_times. rewrite !Forall_cons, Ha. cbn.
  assert (is_none_or safe (earliest (steps w))); [|tauto].
  apply earliest_safe, Forall_forall. intros s Hs. eapply step_wake_safe, Hn, Hs.
Qed.

Lemma verify_row_Ok w :
  verify_row w = Ok () ↔
  readable w.(row) ∧
  version_digest w.(row).(identity).(target) = Ok w.(row).(identity).(target).(descriptor_sha256) ∧
  valid_value w.(row).(input_json) = true ∧ is_none_or (λ o, valid_value o = true) w.(row).(output_json) ∧
  verify w = Ok ().
Proof.
  unfold verify_row, instance_row. rewrite result_bind_Ok. split.
  - intros (i & Hr & Hv). apply (fail_if_not_bind (readable (row w))) in Hr as [Hr [= <-]].
    apply result_bind_Ok in Hv as (d & Hd & Hv). apply fail_if_bind in Hv as [Hd' Hv]. apply dec_stable in Hd'. subst d.
    apply fail_if_bind in Hv as [Hi Hv]. apply fail_if_bind in Hv as [Ho Hv].
    split_and!; try done; [by apply not_false_is_true|].
    destruct (output_json (row w)) as [o|]; [|done]. cbn in *. by apply not_false_is_true.
  - intros (Hr & Hd & Hi & Ho & Hv). exists (row w). split; [by apply (fail_if_not_bind (readable (row w)))|].
    rewrite Hd. cbn [mbind result_bind]. rewrite !fail_if_bind, Hi. split_and!; try done; [tauto|].
    destruct (output_json (row w)); [|tauto]. cbn in *. congruence.
Qed.

Lemma verified_bound w v :
  instance_check w.(row) → Forall step_check w.(steps) →
  Forall (λ s, unsigned s.(descriptor).(config)) w.(steps) → verify w = Ok v → Z.of_nat (length w.(steps)) ≤ 1024.
Proof.
  intros Hc Hchk Hu Hv. unfold verify in Hv. apply fail_if_not_bind in Hv as [_ Hv].
  rewrite <-scan_of_nil in Hv. apply result_bind_Ok in Hv as (x & Hx & Hv).
  apply (scan_steps_iff _ []) in Hx as [_ ->]; [|by apply Forall_take..|by intros ??].
  apply result_bind_Ok in Hv as (e & _ & Hv). apply fail_if_bind in Hv as [Hv _].
  rewrite !nor_iff in Hv. destruct Hv as (_ & Hreg & _). apply dec_stable in Hreg. cbn in Hreg.
  assert (registered_step_count (acct (row w)) ≤ 1024) by apply Hc.
  rewrite length_take in Hreg. lia.
Qed.

(** The verification accepts exactly the claimable valid histories. *)
Lemma verify_row_iff w :
  instance_check w.(row) → Forall step_check w.(steps) →
  Forall (λ s, unsigned s.(descriptor).(config)) w.(steps) →
  verify_row w = Ok () ↔ history_ok w ∧ claimable w.
Proof.
  intros Hc Hchk Hu. rewrite verify_row_Ok. split.
  - intros (Hr & Hd & Hi & Ho & Hv). pose proof (verified_bound _ _ Hc Hchk Hu Hv) as Hlen.
    apply verify_iff in Hv as (Hs & He & (Hcl & Ha & Hcomp & Hw & Hact & Hg & Hrb) & Ht); [|done..].
    assert (Hn : ∀ s, s ∈ steps w → step_norm (row w) s).
    { intros s [k Hk]%list_elem_of_lookup. by apply (Hs k s). }
    split; [split; try done|split].
    + intros k s Hk. by apply (Hs k s).
    + intros Hterm. apply Forall_lookup. intros k s Hk. by apply (Hs k s).
    + intros. by apply Hw.
    + by apply times_iff.
    + intros. by apply Hw.
    + intros Hlive. apply Forall_lookup. intros k s Hk. by apply (Hs k s).
  - intros [[Hr Hd Hi Ho Hs Hcl He Ha Hfin Hcomp Hw Hact Hg Hrb Ht] [Hwake Hlive]].
    assert (Hn : ∀ s, s ∈ steps w → step_norm (row w) s).
    { intros s [k Hk]%list_elem_of_lookup. by apply (Hs k s). }
    split_and!; try done. apply verify_iff; try done.
    + assert (registered_step_count (acct (row w)) ≤ 1024) as Hb by apply Hc. by rewrite Ha in Hb.
    + split_and!; try done; [|by auto|by apply times_iff]. intros k s Hk. split; [by apply Hs|]. split; intros Hx.
      * by apply (Forall_lookup_1 _ _ _ _ (Hfin Hx) Hk).
      * by apply (Forall_lookup_1 _ _ _ _ (Hlive Hx) Hk).
Qed.
End history.
