(* ===== verification/WorkflowStmt.v ===== *)
(** * Statements keep a valid history

    Every operation of the workflow store is a sequence of statements on single instances:
    a change of the instance row, of one step, the consumption of an event, the
    registration of a batch, or the arrival of an event.  Each passes the constraints and
    triggers of [WorkflowDb], and each takes a valid history to a valid history. *)

From stdpp Require Import base numbers list option strings sorting gmap.
From S2P Require Import Prelude Text ErrorCodes Duration RetryPolicy WorkflowTypes Sql WorkflowDb WorkflowRuns WorkflowSteps WorkflowBatch WorkflowHistory WorkflowSpec WorkflowVerify.

Local Open Scope Z_scope.

Section statements.
Context `{Codec}.

Record wf_ok (w : Workflow) : Prop := {
  ok_row : instance_check w.(row);
  ok_steps : Forall step_check w.(steps);
  ok_unsigned : Forall (λ s, unsigned s.(descriptor).(config)) w.(steps);
  ok_history : history_ok w;
}.

(** ** Row changes *)

(** What an [UPDATE workflow_instances] of an operation leaves of the row; a run it
    starts has this token. *)
Record row_change (sets : bool) (token : option WorkflowToken) (i n : InstanceRow) : Prop := {
  rc_identity : n.(identity) = i.(identity);
  rc_input : n.(input_json) = i.(input_json);
  rc_seq : n.(next_event_seq) = i.(next_event_seq);
  rc_marker : n.(last_restart_operation_id) = i.(last_restart_operation_id);
  rc_same : sets = false → n.(state) = i.(state) ∧ run_token <$> n.(run) = run_token <$> i.(run);
  rc_run : is_Some n.(run) → run_token <$> n.(run) = run_token <$> i.(run) ∨ run_token <$> n.(run) = token;
  rc_rollback : i.(rollback_requested) = true → n.(rollback_requested) = true ∨ n.(state) = WTerminated;
  rc_activated : i.(has_activated) = true → n.(has_activated) = true;
  rc_output : is_none_or (λ o, valid_value o = true) i.(output_json) →
              is_none_or (λ o, valid_value o = true) n.(output_json);
  rc_readable : readable i → readable n;
  rc_times : Forall (is_none_or safe) (row_times i) → Forall (is_none_or safe) (row_times n);
}.

Lemma update_instance_Some b f w w' :
  update_instance b f w = Some w' ↔ instance_guards b w (f w.(row)) ∧ w' = {| w with row := f w.(row) |}.
Proof. unfold update_instance. case_decide; naive_solver. Qed.

(** A running step is owned by the lease of its row, before and after. *)
Lemma norm_running i s : step_norm i s → s.(s_state) = SRunning → owns i s.(s_run_token) ∧ is_Some s.(s_run_token).
Proof.
  intros (_ & _ & Hn) Hr. unfold do_norm, sleep_norm, event_norm, columns in Hn. rewrite Hr in Hn.
  destruct (config (descriptor s)).
  - destruct Hn as (_ & _ & _ & r & t & [= -> ????????] & ?). eauto.
  - by destruct Hn as (_ & _ & _ & _ & ?).
  - by destruct Hn as (_ & _ & _ & _ & ?).
  - by destruct Hn as (_ & _ & ? & _ & _ & ?).
Qed.

Lemma step_norm_owner i n s :
  step_norm i s → (s.(s_state) = SRunning → owns n s.(s_run_token)) → step_norm n s.
Proof.
  intros (Hs & Hu & Hn) Ho. split; [done|]. split; [done|].
  destruct (config (descriptor s)) as [c| | |]; [|done..]. unfold do_norm, columns in *.
  destruct Hn as (? & ? & Hn). split; [done|]. split; [done|].
  destruct (s_state s); try done. destruct Hn as (? & r & t & Hcol & _). split; [done|].
  exists r, t. split; [done|]. injection Hcol as Hrt _ _ _ _ _ _ _ _. rewrite <-Hrt. by apply Ho.
Qed.

Lemma row_keeps_owner b token w n s :
  instance_check w.(row) → instance_guards b w n → row_change b token w.(row) n → s ∈ w.(steps) →
  step_norm w.(row) s → s.(s_state) = SRunning → owns n s.(s_run_token).
Proof.
  intros Hc Hg Hrc Hin Hn Hr. destruct (norm_running _ _ Hn Hr) as [[Hst Ht] _].
  destruct Hg as (Hcn & _ & Hrun & _ & Hset & _). destruct b.
  - destruct (Hset eq_refl) as [_ [Hf _]]. destruct (decide (n.(state) = WRunning)) as [Hnr|Hnr].
    + split; [done|]. destruct Hrun as [Hrun _]. specialize (Hrun Hst Hnr).
      destruct (run (row w)) as [r|] eqn:E1; [|by apply lease_run in Hst as [? ?]; [|apply Hc]; congruence].
      destruct (proj1 (lease_run n ltac:(apply Hcn)) Hnr) as [r' E2]. rewrite E2 in Hrun |- *.
      destruct Hrun as ((Hrt & _) & _). cbn in *. congruence.
    + specialize (Hf Hnr). rewrite Forall_forall in Hf. by destruct (Hf s Hin).
  - destruct (rc_same _ _ _ _ Hrc eq_refl) as [Hs' Ht']. split; congruence.
Qed.

Lemma frontier_finished b token i n ss :
  row_change b token i n → is_terminal i.(state) = false →
  (b = true → instance_transition i.(state) n.(state) = true ∧ frontier_ok ss n) →
  is_terminal n.(state) = true → Forall (λ s, unfinished s.(s_state) = false) ss.
Proof.
  intros Hrc Hlive Hset Hterm. destruct b.
  - destruct (Hset eq_refl) as (_ & Hr & _ & Hf & _). specialize (Hf Hterm).
    assert (n.(state) ≠ WRunning) as Hnr by (intros E; by rewrite E in Hterm). specialize (Hr Hnr).
    rewrite Forall_forall in *. intros s Hs. specialize (Hf s Hs). specialize (Hr s Hs). 
    destruct (s_state s); try done; by destruct Hf as (? & ? & ? & ?).
  - destruct (rc_same _ _ _ _ Hrc eq_refl) as [Hs _]. congruence.
Qed.

Lemma update_keeps b token f w w' :
  wf_ok w → row_change b token w.(row) (f w.(row)) → update_instance b f w = Some w' → wf_ok w'.
Proof.
  intros [Hc Hsc Hu Hh] Hrc [Hg ->]%update_instance_Some. set (n := f (row w)) in *. clearbody n.
  assert (Hown : ∀ s, s ∈ steps w → step_norm (row w) s → step_norm n s).
  { intros s Hin Hn. eapply step_norm_owner; [done|]. by eapply row_keeps_owner. }
  destruct Hg as (Hcn & Ha & Hrun & Hlive & Hset & _).
  destruct Hh as [Hrd Hdg Hin Hout Hst Hcl Hev Hac Hfin Hcomp Hwt Hact Hgen Hrb Htm]. split; [done..|]. split; cbn.
  - by apply Hrc.
  - by rewrite (rc_identity _ _ _ _ Hrc).
  - by rewrite (rc_input _ _ _ _ Hrc).
  - by apply Hrc.
  - intros k s Hk. destruct (Hst k s Hk) as (Hgr & Hn & Ht). split_and!; try done.
    + unfold graph_ok in *. by rewrite (rc_seq _ _ _ _ Hrc).
    + apply Hown; [|done]. by eapply list_elem_of_lookup_2.
  - done.
  - unfold events_ok, event_fits in *. cbn. by rewrite (rc_seq _ _ _ _ Hrc).
  - done.
  - intros Hterm. by apply (frontier_finished b token (row w) n).
  - intros Hx. destruct b.
    + destruct (Hset eq_refl) as (_ & _ & Hf & _). specialize (Hf Hx). by rewrite Ha in Hf.
    + destruct (rc_same _ _ _ _ Hrc eq_refl) as [Hs _]. rewrite Hs in Hx. by rewrite Hx in Hlive.
  - intros Hx. destruct b.
    + destruct (Hset eq_refl) as (_ & _ & _ & _ & Hf). by apply Hf.
    + destruct (rc_same _ _ _ _ Hrc eq_refl) as [Hs _]. rewrite Hs in Hx. by apply Hwt.
  - intros [Hx|Hx]; [apply (rc_activated _ _ _ _ Hrc); auto|by apply Hrun].
  - by rewrite (rc_identity _ _ _ _ Hrc), (rc_marker _ _ _ _ Hrc).
  - intros Hx. destruct (Hrb Hx) as [Hy|Hy]; [by apply (rc_rollback _ _ _ _ Hrc)|]. by rewrite Hy in Hlive.
  - by apply Hrc.
Qed.

(** ** Rows below an instance *)

Lemma accounting_row w n :
  n.(identity) = w.(row).(identity) → n.(input_json) = w.(row).(input_json) →
  n.(output_json) = w.(row).(output_json) → n.(error_json) = w.(row).(error_json) →
  accounting {| w with row := n |} = accounting w.
Proof. intros H1 H2 H3 H4. unfold accounting. cbn. by rewrite H1, H2, H3, H4. Qed.

(** The state after a statement that left these rows. *)
Definition accounted (bump : Z) (w : Workflow) (ss : list Step) (es : list Event) (w' : Workflow) : Prop :=
  w' = {| row := {| w.(row) with acct := accounting {| row := w.(row); steps := ss; events := es |};
                                 next_event_seq := w.(row).(next_event_seq) + bump |};
          steps := ss; events := es |} ∧
  instance_check w'.(row) ∧ is_terminal w.(row).(state) = false.

Lemma account_Some bump w w' : account bump w = Some w' → accounted bump w w.(steps) w.(events) w'.
Proof.
  intros [Hg ->]%update_instance_Some. destruct w. split; [done|]. by destruct Hg as (? & _ & _ & ? & _).
Qed.

(** A statement below the instance, and what it must show of the rows it leaves. *)
Lemma account_keeps bump w ss es w' :
  wf_ok w → accounted bump w ss es w' →
  Forall step_check ss → Forall (λ s, unsigned s.(descriptor).(config)) ss →
  (∀ k s, ss !! k = Some s → step_ok w'.(row) (take k ss) s) → Z.of_nat (length ss) = end_of ss → events_ok w' →
  (w.(row).(state) = WWaiting → Forall (λ s, s.(s_state) ≠ SPending ∧ s.(s_state) ≠ SDelayPending) ss) →
  (ss ≠ [] → w.(row).(has_activated) = true) →
  (Exists (λ s, s.(descriptor).(rollback_step) = true) ss → w.(row).(rollback_requested) = true) →
  wf_ok w'.
Proof.
  intros [Hc Hsc Hu Hh] (-> & Hcn & Hlive) Hsc' Hu' Hst' Hcl' Hev' Hwt' Hact' Hrb'. cbn in *.
  destruct Hh as [Hrd Hdg Hin Hout Hst Hcl Hev Hac Hfin Hcomp Hwt Hact Hgen Hrb Htm]. split; [done..|]. split; cbn; try done.
  - congruence.
  - intros Hx. by rewrite Hx in Hlive.
  - intros [?|?]; auto.
  - auto.
Qed.

(** *** The replacement of one step *)

(** A later version of a step: the same descriptor and inbox ceiling, settled once settled. *)
Definition later (s n : Step) : Prop :=
  n.(descriptor) = s.(descriptor) ∧ n.(event_buffer_ceiling) = s.(event_buffer_ceiling) ∧
  (step_settled s.(s_state) = true → step_settled n.(s_state) = true).

Lemma later_refl s : later s s.
Proof. done. Qed.
Lemma later_insert ss o s n : ss !! o = Some s → later s n → Forall2 later ss (<[o := n]> ss).
Proof.
  intros Ho Hl. apply Forall2_same_length_lookup. split; [by rewrite length_insert|].
  intros k p q Hp Hq. destruct (decide (k = o)) as [->|Hk].
  - rewrite list_lookup_insert_eq in Hq by by eapply lookup_lt_Some. by simplify_eq.
  - rewrite list_lookup_insert_ne in Hq by done. by simplify_eq.
Qed.

Lemma later_count ss ss' s :
  Forall2 later ss ss' → count (λ p, step_key p = step_key s) ss = count (λ p, step_key p = step_key s) ss'.
Proof.
  unfold count, step_key, s_kind. induction 1 as [|p p' ss ss' (Hd & _ & _) _ IH]; [done|].
  rewrite !filter_cons, Hd. case_decide; cbn; lia.
Qed.
Lemma later_last ss ss' :
  Forall2 later ss ss' → descriptor <$> last ss = descriptor <$> last ss'.
Proof.
  induction 1 as [|p p' ss ss' (Hd & _ & _) Hss IH]; [done|]. cbn.
  destruct Hss; [cbn; by rewrite Hd|done].
Qed.
Lemma later_end ss ss' : Forall2 later ss ss' → end_of ss = end_of ss'.
Proof.
  intros Hl%later_last. unfold end_of. destruct (last ss), (last ss'); cbn in *; simplify_eq; by rewrite ?Hl.
Qed.
Lemma later_settled ss ss' p : Forall2 later ss ss' → settled_at ss p → settled_at ss' p.
Proof.
  intros Hl [H0 Hp]. split; [done|]. destruct (ss !! Z.to_nat p) as [q|] eqn:Hq; [|done].
  destruct (Forall2_lookup_l _ _ _ _ _ Hl Hq) as (q' & -> & _ & _ & Hs). by apply Hs.
Qed.

Lemma graph_later i ss ss' s : Forall2 later ss ss' → graph_ok i ss s → graph_ok i ss' s.
Proof.
  intros Hl (Hv & Ho & Hn & Hr1 & Hr2 & Hb & Hd & Hc). unfold graph_ok.
  rewrite <-(Forall2_length _ _ _ Hl), <-(later_count _ _ s Hl). split_and!; try done.
  - intros Hr. specialize (Hr2 Hr). clear -Hl Hr2. induction Hl as [|p p' ss ss' (Hd & _) _ IH]; [done|].
    inversion_clear Hr2. constructor; [by rewrite Hd|auto].
  - unfold batch_ok in *. rewrite <-(Forall2_length _ _ _ Hl), <-(later_end _ _ Hl). case_decide; [done|].
    apply later_last in Hl. destruct (last ss), (last ss'); cbn in *; simplify_eq; by rewrite <-?Hl.
  - eapply Forall_impl; [exact Hd|]. intros p. by apply later_settled.
Qed.

Lemma consumed_elem ss x : x ∈ consumed_of ss ↔ ∃ k s, ss !! k = Some s ∧ x ∈ taken s.
Proof.
  unfold consumed_of. rewrite list_elem_of_bind. split.
  - intros (s & Hx & [k Hk]%list_elem_of_lookup). eauto.
  - intros (k & s & Hk & Hx). exists s. split; [done|]. by eapply list_elem_of_lookup_2.
Qed.

(** The replacement takes nothing new, or an event that no step took. *)
Definition takes (ss : list Step) (s n : Step) : Prop :=
  taken n = taken s ∨ (taken s = [] ∧ ∃ x, taken n = [x] ∧ ∀ q, q ∈ ss → x ∉ taken q).

Lemma replace_step_ok i ss o s n :
  ss !! o = Some s → later s n → step_norm i n → takes ss s n →
  (∀ k q, ss !! k = Some q → step_ok i (take k ss) q) →
  ∀ k q, <[o := n]> ss !! k = Some q → step_ok i (take k (<[o := n]> ss)) q.
Proof.
  intros Ho Hl Hn Ht Hall k q Hq.
  assert (Hll : Forall2 later (take k ss) (take k (<[o := n]> ss))) by by apply Forall2_take, (later_insert _ _ s).
  assert (Hc : ∀ x, x ∈ consumed_of (take k (<[o := n]> ss)) → x ∈ consumed_of (take k ss) ∨ x ∈ taken n).
  { intros x (j & p & Hj & Hx)%consumed_elem. apply lookup_take_Some in Hj as [Hj Hjk].
    destruct (decide (j = o)) as [->|Hne].
    - rewrite list_lookup_insert_eq in Hj by by eapply lookup_lt_Some. simplify_eq. auto.
    - rewrite list_lookup_insert_ne in Hj by done. left. apply consumed_elem. exists j, p.
      split; [|done]. by apply lookup_take_Some. }
  destruct (decide (k = o)) as [->|Hne].
  - rewrite list_lookup_insert_eq in Hq by by eapply lookup_lt_Some. simplify_eq.
    destruct (Hall _ _ Ho) as (Hg & _ & Hf). split_and!; [|done|].
    + eapply graph_later in Hg; [|exact Hll]. unfold graph_ok, step_key, s_kind in *.
      destruct Hl as (-> & -> & _). done.
    + rewrite take_insert_ge by done. destruct Ht as [->|(_ & x & -> & Hx)]; [done|]. apply Forall_singleton.
      intros (j & p & Hj & Hin)%consumed_elem. apply lookup_take_Some in Hj as [Hj _].
      by apply (Hx p); [eapply list_elem_of_lookup_2|].
  - rewrite list_lookup_insert_ne in Hq by done. destruct (Hall _ _ Hq) as (Hg & ? & Hf). split_and!; try done.
    + by eapply graph_later.
    + rewrite Forall_forall in *. intros x Hx [Hin|Hin]%Hc; [by apply (Hf x)|].
      destruct Ht as [Ht|(_ & y & Ht & Hy)]; rewrite Ht in Hin.
      * destruct (decide (k < o)%nat).
        { destruct (Hall _ _ Ho) as (_ & _ & Hf'). rewrite Forall_forall in Hf'. apply (Hf' x Hin).
          apply consumed_elem. exists k, q. split; [|done]. by apply lookup_take_Some. }
        { apply (Hf x Hx), consumed_elem. exists o, s. split; [|done]. apply lookup_take_Some. split; [done|lia]. }
      * apply list_elem_of_singleton in Hin as ->. apply (Hy q); [|done]. by eapply list_elem_of_lookup_2.
Qed.

(** *** Step changes *)

(** The statements on one step, with what the operation knows of the row it read. *)
Inductive step_change (s : Step) : (Step → Step) → Prop :=
| ch_timeout t d now :
    s.(descriptor).(config) = CWaitEvent t d → safe now → step_change s (set_event_timeout now)
| ch_slept now :
    s_kind s = KSleep ∨ s_kind s = KSleepUntil → safe now → step_change s (set_slept now)
| ch_retry c code d now :
    s.(descriptor).(config) = CDo c → s.(attempt) ≠ 0 → s.(attempt) ≤ c.(retries).(limit) →
    (code = WorkflowExecutionFailed ∨ code = WorkflowStepTimeout) →
    (is_Some c.(retries).(delay) → delay_after c.(retries) s.(attempt) = Ok d) →
    safe now → safe (now + d) → step_change s (set_failed true code (Some (now + d)) (Some d) now)
| ch_failed c code now :
    s.(descriptor).(config) = CDo c → s.(attempt) ≠ 0 → code ∈ terminal_codes → safe now →
    step_change s (set_failed false code None None now)
| ch_deferred c now :
    s.(descriptor).(config) = CDo c → c.(retries).(delay) = None → s.(attempt) ≠ 0 → safe now →
    step_change s (set_deferred WorkflowStepTimeout now)
| ch_started c r t now :
    s.(descriptor).(config) = CDo c → safe now → safe (now + c.(timeout)) →
    step_change s (set_started r t now (now + c.(timeout)))
| ch_resumed r t now :
    s.(s_state) = SPending → s.(attempt) ≠ 0 → safe now → step_change s (set_resumed r t now)
| ch_succeeded output now :
    s_kind s = KDo → valid_value output = true → safe now → step_change s (set_succeeded output now)
| ch_relinquished now :
    s.(s_state) = SRunning → safe now → step_change s (set_relinquished now)
| ch_cancelled now :
    unfinished s.(s_state) = true → safe now → step_change s (set_cancelled now).

Lemma change_keeps_row s f :
  step_change s f → (f s).(descriptor) = s.(descriptor) ∧ (f s).(event_buffer_ceiling) = s.(event_buffer_ceiling) ∧
    (f s).(consumed_event_seq) = s.(consumed_event_seq) ∧ (f s).(started_at_ms) = s.(started_at_ms).
Proof. by destruct 1. Qed.

Lemma transition_unsettled i ss s n : step_transition i ss s n → step_settled s.(s_state) = false.
Proof. unfold step_transition. by destruct (s_state s). Qed.

(** *** Changes keep a step normal *)

Lemma do_not_waiting i c s : do_norm i c s → s.(s_state) ≠ SWaiting.
Proof. intros (_ & _ & Hn) E. by rewrite E in Hn. Qed.

Lemma norm_attempted i c s : do_norm i c s → s.(attempt) ≠ 0 → tried c s.
Proof.
  intros (_ & _ & Hn) Ha. destruct (s_state s); try tauto.
  - destruct Hn as [_ [[? _]|?]]; tauto.
  - destruct Hn as [[[? _]|?] _]; tauto.
Qed.
Lemma norm_tried i c s : do_norm i c s → untried s ∨ tried c s.
Proof. intros (_ & _ & Hn). destruct (s_state s); tauto. Qed.


Lemma norm_open i c s :
  do_norm i c s → unfinished s.(s_state) = true →
  s.(s_output) = None ∧ s.(completed_at_ms) = None ∧ s.(cancelled_at_ms) = None ∧
  (s.(s_state) = SPending ∨ s.(s_state) = SRunning →
   s.(s_error_json) = None ∧ s.(s_error_code) = None ∧ s.(due_at_ms) = None ∧ s.(retry_delay_ms) = None) ∧
  (s.(s_state) = SPending → s.(s_run_token) = None ∧ s.(s_step_token) = None).
Proof.
  intros (_ & _ & Hn) Hu. unfold columns in Hn. destruct (s_state s); try done.
  - destruct Hn as [[=] _]. naive_solver.
  - destruct Hn as (_ & r & t & [=] & _). naive_solver.
  - destruct Hn as (_ & _ & [=]). naive_solver.
  - destruct Hn as (_ & _ & e & d & [=] & _). naive_solver.
Qed.

Lemma transition_open i ss s n : step_transition i ss s n → unfinished s.(s_state) = true.
Proof. unfold step_transition. by destruct (s_state s). Qed.

Section do_changes.
Context (i : InstanceRow) (ss : list Step) (c : WorkflowStepConfig) (s : Step).
Context (Hc : s.(descriptor).(config) = CDo c) (Hn : do_norm i c s).

Lemma do_retry code d now :
  s.(attempt) ≠ 0 → s.(attempt) ≤ c.(retries).(limit) → (code = WorkflowExecutionFailed ∨ code = WorkflowStepTimeout) →
  (is_Some c.(retries).(delay) → delay_after c.(retries) s.(attempt) = Ok d) → safe (now + d) →
  unfinished s.(s_state) = true → do_norm i c (set_failed true code (Some (now + d)) (Some d) now s).
Proof.
  intros Ha Hl Hcode Hd Hs Hu. destruct (norm_open _ _ _ Hn Hu) as (Ho & _ & Hcan & _).
  pose proof (norm_attempted _ _ _ Hn Ha) as Ht. destruct Hn as (? & ? & _). split_and!; try done. cbn.
  split; [done|]. split; [done|]. exists code, d. unfold columns. cbn. rewrite Ho, Hcan. by split_and!.
Qed.
Lemma do_failed code now :
  s.(attempt) ≠ 0 → code ∈ terminal_codes → unfinished s.(s_state) = true →
  do_norm i c (set_failed false code None None now s).
Proof.
  intros Ha Hcode Hu. destruct (norm_open _ _ _ Hn Hu) as (Ho & _ & Hcan & _).
  pose proof (norm_attempted _ _ _ Hn Ha) as Ht. destruct Hn as (? & ? & _). split_and!; try done. cbn.
  split; [done|]. exists code. unfold columns. cbn. by rewrite Ho, Hcan.
Qed.
Lemma do_deferred now :
  s.(attempt) ≠ 0 → c.(retries).(delay) = None → unfinished s.(s_state) = true →
  do_norm i c (set_deferred WorkflowStepTimeout now s).
Proof.
  intros Ha Hd Hu. destruct (norm_open _ _ _ Hn Hu) as (Ho & Hco & Hcan & _).
  pose proof (norm_attempted _ _ _ Hn Ha) as Ht. destruct Hn as (? & ? & _). split_and!; try done. cbn.
  split; [done|]. split; [done|]. unfold columns. cbn. by rewrite Ho, Hco, Hcan.
Qed.
Lemma do_started r t now :
  safe now → safe (now + c.(timeout)) → attempt_ok s (set_started r t now (now + c.(timeout)) s) →
  step_transition i ss s (set_started r t now (now + c.(timeout)) s) →
  do_norm i c (set_started r t now (now + c.(timeout)) s).
Proof.
  intros Hs1 Hs2 Hat Htr. pose proof (transition_open _ _ _ _ Htr) as Hu.
  destruct (norm_open _ _ _ Hn Hu) as (Ho & Hco & Hcan & _).
  destruct Hat as [(Hat & _)|(_ & _ & Ha & _ & Hd)]; [cbn in Hat; lia|]. cbn in Hd. rewrite Hc in Hd.
  destruct Hn as (? & ? & Hn'). split_and!; try done. cbn. 
  assert (0 ≤ s.(attempt)).
  { destruct (s_state s); try tauto; unfold tried, untried in Hn'; destruct Ha as [[? ?]|[? ?]]; try done; try lia. }
  split.
  - split; [cbn; lia|]. exists now. by split_and!.
  - exists r, t. unfold columns. cbn. rewrite Ho, Hco, Hcan. split; [done|].
    unfold step_transition in Htr. cbn in Htr. destruct (s_state s); try done; by destruct Htr as (_ & _ & _ & ? & _).
Qed.
Lemma do_resumed r t now :
  s.(s_state) = SPending → s.(attempt) ≠ 0 → step_transition i ss s (set_resumed r t now s) →
  do_norm i c (set_resumed r t now s).
Proof.
  intros Hst Ha Htr. destruct (norm_open _ _ _ Hn) as (Ho & Hco & Hcan & Hp & _); [by rewrite Hst|].
  destruct Hp as (He & He' & Hd & Hr); [by left|].
  pose proof (norm_attempted _ _ _ Hn Ha) as Ht. destruct Hn as (? & ? & _). split_and!; try done. cbn.
  split; [done|]. exists r, t. unfold columns. cbn. rewrite Ho, Hco, Hcan, He, He', Hd, Hr. split; [done|].
  unfold step_transition in Htr. rewrite Hst in Htr. by destruct Htr as (_ & _ & _ & ? & _).
Qed.
Lemma do_succeeded output now :
  valid_value output = true → step_transition i ss s (set_succeeded output now s) →
  do_norm i c (set_succeeded output now s).
Proof.
  intros Hv Htr. pose proof (transition_open _ _ _ _ Htr) as Hu.
  assert (s.(s_state) = SRunning) as Hst.
  { pose proof (do_not_waiting _ _ _ Hn). unfold step_transition in Htr. cbn in Htr. by destruct (s_state s). }
  destruct (norm_open _ _ _ Hn Hu) as (Ho & Hco & Hcan & Hp & _). destruct Hp as (He & He' & Hd & Hr); [by right|].
  unfold step_transition in Htr. rewrite Hst in Htr. cbn in Htr. destruct Htr as [Hlt _].
  destruct Hn as (? & ? & Hn'). rewrite Hst in Hn'. destruct Hn' as [Ht _]. split_and!; try done. cbn.
  split; [done|]. split; [by apply Hlt|]. exists output. unfold columns. cbn. by rewrite He, He', Hd, Hr, Hcan.
Qed.
Lemma do_relinquished now : s.(s_state) = SRunning → do_norm i c (set_relinquished now s).
Proof.
  intros Hst. destruct (norm_open _ _ _ Hn) as (Ho & Hco & Hcan & Hp & _); [by rewrite Hst|].
  destruct Hp as (He & He' & Hd & Hr); [by right|].
  destruct Hn as (? & ? & Hn'). rewrite Hst in Hn'. destruct Hn' as [Ht _]. split_and!; try done. cbn.
  split; [|by right]. unfold columns. cbn. by rewrite Ho, Hco, Hcan, He, He', Hd, Hr.
Qed.
Lemma do_cancelled now : unfinished s.(s_state) = true → do_norm i c (set_cancelled now s).
Proof.
  intros Hu. destruct (norm_open _ _ _ Hn Hu) as (Ho & Hco & Hcan & _). pose proof (norm_tried _ _ _ Hn) as Ht.
  destruct Hn as (? & ? & _). split_and!; try done. cbn. split; [done|]. unfold columns. cbn. by rewrite Ho, Hco.
Qed.
End do_changes.

Lemma change_do_norm i ss c s f :
  s.(descriptor).(config) = CDo c → do_norm i c s → step_change s f → attempt_ok s (f s) →
  step_transition i ss s (f s) → do_norm i c (f s).
Proof.
  intros Hc Hn Hch Hat Htr. pose proof (transition_open _ _ _ _ Htr) as Hu.
  assert (Hk : s_kind s = KDo) by (unfold s_kind; by rewrite Hc).
  assert (Hcc : ∀ c', s.(descriptor).(config) = CDo c' → c' = c) by congruence. clear Hc.
  destruct Hch; try (by exfalso; unfold s_kind in Hk; simplify_eq/=);
    try match goal with E : config _ = CDo ?c' |- _ => pose proof (Hcc _ E); subst c' end.
  - unfold s_kind in Hk. by rewrite H0 in Hk.
  - destruct (sleep_kind (s_kind s)) as [? _]; [done|]. by exfalso.
  - by apply do_retry.
  - by apply do_failed.
  - by apply do_deferred.
  - by eapply do_started.
  - by eapply do_resumed.
  - by eapply do_succeeded.
  - by apply do_relinquished.
  - by apply do_cancelled.
Qed.

Lemma change_updated s f : step_change s f → safe (f s).(s_updated_at_ms).
Proof. by destruct 1. Qed.

(** A wait has no running, pending or retrying state. *)
Lemma sleep_states s : sleep_norm s → unfinished s.(s_state) = true → s.(s_state) = SWaiting.
Proof. intros (_ & _ & Hn) Hu. by destruct (s_state s). Qed.
Lemma event_states t s : event_norm t s → unfinished s.(s_state) = true → s.(s_state) = SWaiting.
Proof. intros (c & _ & _ & Hn) Hu. by destruct (s_state s). Qed.

Lemma change_sleep_norm w s f :
  s_kind s = KSleep ∨ s_kind s = KSleepUntil → sleep_norm s → step_change s f →
  step_transition w.(row) w.(steps) s (f s) → wait_ok w s (f s) → sleep_norm (f s).
Proof.
  intros Hk Hn Hch Htr Hw. pose proof (sleep_states s Hn (transition_open _ _ _ _ Htr)) as Hst.
  destruct (sleep_kind _ Hk) as [Hk1 Hk2]. 
  assert (Hcc : ∀ c, s.(descriptor).(config) ≠ CDo c) by (intros c E; unfold s_kind in Hk1; by rewrite E in Hk1).
  pose proof Hn as (Hc1 & Hc2 & Hcol). rewrite Hst in Hcol. injection Hcol as Hr Ht Ho He He' Hco Hd Hrd Hcan.
  destruct Hch; try match goal with E : config _ = CDo _ |- _ => by destruct (Hcc _ E) end; try congruence.
  - unfold s_kind in Hk2. by rewrite H0 in Hk2.
  - specialize (Hw Hst). cbn in Hw. split; [done|]. split; [done|]. cbn. unfold columns. cbn.
    rewrite Hr, Ht, Ho, He, He', Hrd, Hcan. split; [|done]. rewrite Hd in Hw. 
    by destruct Hk as [Hk|Hk]; rewrite Hk in Hw.
  - split; [done|]. split; [done|]. cbn. unfold columns. cbn. by rewrite Ho, Hco.
Qed.

Lemma change_event_norm w t d s f :
  s.(descriptor).(config) = CWaitEvent t d → event_norm t s → step_change s f →
  step_transition w.(row) w.(steps) s (f s) → wait_ok w s (f s) → event_norm t (f s).
Proof.
  intros Hk Hn Hch Htr Hw. pose proof (event_states t s Hn (transition_open _ _ _ _ Htr)) as Hst.
  assert (Hkk : s_kind s = KWaitEvent) by (unfold s_kind; by rewrite Hk).
  pose proof Hn as (c & Hc1 & Hc2 & Hcol). rewrite Hst in Hcol. destruct Hcol as [Hcol Hcons].
  injection Hcol as Hr Ht Ho He He' Hco Hd Hrd Hcan.
  destruct Hch; try congruence.
  - specialize (Hw Hst). cbn in Hw. rewrite Hkk in Hw. destruct Hw as (Hdue & _ & _). rewrite Hd in Hdue.
    exists c. split; [done|]. split; [done|]. cbn. split; [done|]. split; [done|]. unfold columns. cbn.
    by rewrite Hr, Ht, Ho, Hrd, Hcan.
  - by destruct (sleep_kind (s_kind s)) as [? ?].
  - exists c. split; [done|]. split; [done|]. cbn. split; [|done]. unfold columns. cbn. by rewrite Ho, Hco.
Qed.

Lemma change_norm w s f :
  step_norm w.(row) s → step_change s f → attempt_ok s (f s) →
  step_transition w.(row) w.(steps) s (f s) → wait_ok w s (f s) → step_norm w.(row) (f s).
Proof.
  intros (Hs & Hu & Hn) Hch Hat Htr Hw. destruct (change_keeps_row _ _ Hch) as (Hd & Hceil & Hcons & Hsta).
  unfold step_norm. rewrite Hsta, Hd. split; [done|]. split; [by apply change_updated|].
  assert (Hexp : expected (f s) = expected s) by (unfold expected; by rewrite Hd, Hsta).
  assert (Hunt : s_kind s ≠ KDo → untried s → untried (f s)).
  { intros Hk (Ha & Has & Had). destruct Hch; try done.
    exfalso. apply Hk. unfold s_kind. by rewrite H0. }
  rewrite Hexp. destruct (config (descriptor s)) as [c|x|x|t x] eqn:Hc.
  - by eapply change_do_norm.
  - destruct Hn as (? & ? & Hn). unfold s_kind in Hunt. rewrite Hc in Hunt. split_and!; [by apply Hunt|done|].
    eapply change_sleep_norm; try done. unfold s_kind. rewrite Hc. auto.
  - destruct Hn as (? & ? & Hn). unfold s_kind in Hunt. rewrite Hc in Hunt. split_and!; [by apply Hunt|done|].
    eapply change_sleep_norm; try done. unfold s_kind. rewrite Hc. auto.
  - destruct Hn as (? & ? & Hn). unfold s_kind in Hunt. rewrite Hc in Hunt. split_and!; [by apply Hunt|done|].
    by eapply change_event_norm.
Qed.

Lemma update_step_Some o f w w' s :
  w.(steps) !! o = Some s → update_step o f w = Some w' →
  step_guards w s (f s) ∧ account 0 {| w with steps := <[o := f s]> w.(steps) |} = Some w' ∧
  accounted 0 w (<[o := f s]> w.(steps)) w.(events) w'.
Proof. unfold update_step. intros ->. case_decide; [|done]. intros Ha. split_and!; try done. apply (account_Some _ _ _ Ha). Qed.

Lemma insert_Forall {A} (P : A → Prop) l o x : Forall P l → P x → Forall P (<[o := x]> l).
Proof. intros Hl Hx. by apply Forall_insert. Qed.

Lemma consumed_insert ss o s n :
  ss !! o = Some s → taken n = taken s → consumed_of (<[o := n]> ss) = consumed_of ss.
Proof.
  intros Ho Ht. unfold consumed_of. revert o Ho. induction ss as [|p ss IH]; intros [|o] Ho; [done..| |].
  - injection Ho as ->. cbn. by rewrite Ht.
  - cbn. f_equal. by apply IH.
Qed.

(** A suspended instance stays without pending work. *)
Lemma waiting_replaced w o s n :
  history_ok w → w.(steps) !! o = Some s → step_transition w.(row) w.(steps) s n → w.(row).(state) = WWaiting →
  Forall (λ s, s.(s_state) ≠ SPending ∧ s.(s_state) ≠ SDelayPending) (<[o := n]> w.(steps)).
Proof.
  intros Hh Ho Htr Hw. pose proof (h_waiting _ Hh Hw) as Hp. apply insert_Forall; [done|].
  destruct (Forall_lookup_1 _ _ _ _ Hp Ho) as [Hp1 Hp2]. unfold step_transition, owns in Htr.
  split; intros E; rewrite E in Htr; destruct (s_state s); try done.
  - destruct Htr as [[? _] _]. congruence.
  - destruct Htr as (_ & _ & [? _]). congruence.
Qed.

Lemma history_row_indep w i :
  i.(state) = w.(row).(state) → i.(run) = w.(row).(run) → i.(next_event_seq) = w.(row).(next_event_seq) →
  ∀ pre s, step_ok w.(row) pre s → step_ok i pre s.
Proof.
  intros Hst Hr Hq pre s (Hg & Hn & Hf). split_and!; try done.
  - unfold graph_ok in *. by rewrite Hq.
  - eapply step_norm_owner; [done|]. intros E. destruct (norm_running _ _ Hn E) as [[? ?] _].
    split; congruence.
Qed.

Lemma replace_rollback ss o s n :
  ss !! o = Some s → n.(descriptor) = s.(descriptor) →
  Exists (λ s, s.(descriptor).(rollback_step) = true) (<[o := n]> ss) →
  Exists (λ s, s.(descriptor).(rollback_step) = true) ss.
Proof.
  intros Ho Hd. rewrite !Exists_exists. intros (q & [k Hk]%list_elem_of_lookup & Hq).
  destruct (decide (k = o)) as [->|Hne].
  - rewrite list_lookup_insert_eq in Hk by by eapply lookup_lt_Some. simplify_eq. exists s.
    split; [by eapply list_elem_of_lookup_2|congruence].
  - rewrite list_lookup_insert_ne in Hk by done. exists q. split; [by eapply list_elem_of_lookup_2|done].
Qed.

(** The replacement of a step by a later normal one keeps the history, up to the inbox. *)
Lemma replace_keeps bump o s n es w w' :
  wf_ok w → w.(steps) !! o = Some s → later s n → step_check n → step_norm w.(row) n →
  step_transition w.(row) w.(steps) s n → takes w.(steps) s n → bump = 0 →
  accounted bump w (<[o := n]> w.(steps)) es w' →
  events_ok w' → wf_ok w'.
Proof.
  intros Hok Ho Hl Hchk Hn Htr Htk -> Hacc Hev. pose proof Hok as [Hc Hsc Hu Hh].
  pose proof Hl as (Hd & _ & _). pose proof Hacc as (Hw' & _ & Hlive).
  eapply account_keeps; try done.
  - by apply insert_Forall.
  - apply insert_Forall; [done|]. rewrite Hd. by apply (Forall_lookup_1 _ _ _ _ Hu Ho).
  - intros k q Hk. subst w'. cbn. eapply (history_row_indep w); [done..|cbn; lia|].
    eapply replace_step_ok; try done. apply Hh.
  - rewrite length_insert, (h_closed _ Hh). by eapply later_end, later_insert.
  - intros Hst. by eapply waiting_replaced.
  - intros _. apply (h_activated _ Hh). left. intros E. by rewrite E in Ho.
  - intros Hx. apply (replace_rollback _ _ s) in Hx; [|done..].
    destruct (h_rollback _ Hh Hx) as [?|E]; [done|]. by rewrite E in Hlive.
Qed.

Lemma step_keeps o s f w w' :
  wf_ok w → w.(steps) !! o = Some s → step_change s f → update_step o f w = Some w' → wf_ok w'.
Proof.
  intros Hok Ho Hch Hup. destruct (update_step_Some _ _ _ _ _ Ho Hup) as [(Hchk & Hat & Htr & Hw) [_ Hacc]].
  destruct (change_keeps_row _ _ Hch) as (Hd & Hceil & Hcons & _). pose proof (ok_history _ Hok) as Hh.
  assert (Hn : step_norm (row w) s) by apply (h_steps _ Hh _ _ Ho).
  assert (Ht : taken (f s) = taken s) by (unfold taken; by rewrite Hcons).
  eapply (replace_keeps 0 o s (f s)); try done.
  - split_and!; try done. intros E. by rewrite (transition_unsettled _ _ _ _ Htr) in E.
  - by apply change_norm.
  - by left.
  - destruct Hacc as (-> & _). destruct (h_events _ Hh) as (? & ? & ?). unfold events_ok. cbn.
    rewrite (consumed_insert _ _ s) by done. unfold event_fits in *. cbn. by rewrite Z.add_0_r.
Qed.

(** ** Events *)

(** The projection of a previous statement does not matter to the next one. *)
Lemma account_account bump w w1 w' es :
  account 0 w = Some w1 → account bump {| w1 with events := es |} = Some w' →
  account bump {| w with events := es |} = Some w'.
Proof.
  intros (-> & _)%account_Some. unfold account, update_instance. cbn. rewrite Z.add_0_r.
  case_decide as H1; [|done]. intros [= <-].
  rewrite decide_True; [done|]. exact H1.
Qed.

(** What the settlement guard says of the event a wait takes. *)
Lemma consumed_event w s e now :
  s.(s_state) = SWaiting → s_kind s = KWaitEvent → wait_ok w s (set_event_consumed e now s) →
  ∃ e', e' ∈ w.(events) ∧ e'.(event_seq) = e.(event_seq) ∧ eligible s e' ∧
        Forall (λ q, q.(consumed_event_seq) ≠ Some e.(event_seq)) w.(steps) ∧
        e'.(e_type) = e.(e_type) ∧ e'.(accepted_at_ms) = e.(accepted_at_ms).
Proof.
  intros Hst Hk Hw. specialize (Hw Hst). cbn in Hw. rewrite Hk in Hw.
  apply Exists_exists in Hw as (e' & Hin & [= Hq] & Hel & _ & Hf & [= Hty _ Hacc]). exists e'.
  split_and!; try done. by rewrite Hq.
Qed.

Lemma consumed_norm i t d s e now :
  s.(descriptor).(config) = CWaitEvent t d → step_norm i s → s.(s_state) = SWaiting → safe now →
  e.(e_type) = t → 1 ≤ e.(event_seq) → eligible s e →
  is_ok (canonical_wire {| event_type := e.(e_type); payload_base64 := e.(e_payload);
                           timestamp_ms := e.(accepted_at_ms) |}) = true →
  step_norm i (set_event_consumed e now s).
Proof.
  intros Hc (Hs & Hu & Hn) Hst Hnow Ht Hq Hel Hok. unfold step_norm. cbn. rewrite Hc in Hn |- *.
  destruct Hn as (? & ? & Hn). split_and!; try done. destruct Hn as (c & Hceil & Hc0 & Hn).
  rewrite Hst in Hn. destruct Hn as [Hcol _]. injection Hcol as Hr Htk Ho He He' Hco Hd Hrd Hcan.
  exists c. split; [done|]. split; [done|]. cbn. eexists _, _. split.
  { unfold columns. cbn. by rewrite Hr, Htk, He, He', Hrd, Hcan. }
  split_and!; try done. unfold eligible in Hel. rewrite Hc, Hd, Hceil in Hel. by destruct Hel as [_ Hel].
Qed.

Lemma increasing_Forall x l : increasing (x :: l) → Forall (λ y, x < y) l.
Proof.
  revert x. induction l as [|y l IH]; intros x Hl; [constructor|]. destruct Hl as [Hxy Hl].
  constructor; [done|]. eapply Forall_impl; [by apply IH|]. cbn. lia.
Qed.
Lemma increasing_intro x l : Forall (λ y, x < y) l → increasing l → increasing (x :: l).
Proof. destruct l as [|y l]; [done|]. intros Hx Hl. split; [by inversion Hx|done]. Qed.
Lemma increasing_tail x l : increasing (x :: l) → increasing l.
Proof. destruct l; [done|]. by intros [_ ?]. Qed.
Lemma increasing_filter (P : Event → Prop) `{!∀ e, Decision (P e)} x es :
  increasing (x :: (event_seq <$> es)) → increasing (x :: (event_seq <$> filter P es)).
Proof.
  revert x. induction es as [|e es IH]; intros x Hl; [done|]. rewrite filter_cons.
  pose proof (increasing_Forall _ _ Hl) as Hx. pose proof (increasing_tail _ _ Hl) as Hl'.
  case_decide.
  - destruct Hl as [? ?]. split; [done|]. by apply IH.
  - apply IH. apply increasing_intro; [|by apply increasing_tail in Hl']. by inversion Hx.
Qed.

Lemma consume_events w o s n x es' w' :
  history_ok w → w.(steps) !! o = Some s → taken s = [] → taken n = [x] →
  Exists (λ e, e.(event_seq) = x) w.(events) → es' = filter (λ e, e.(event_seq) ≠ x) w.(events) →
  w'.(row).(next_event_seq) = w.(row).(next_event_seq) → w'.(steps) = <[o := n]> w.(steps) → w'.(events) = es' →
  events_ok w'.
Proof.
  intros Hh Ho Hts Htn Hex -> Hq Hss Hes. destruct (h_events _ Hh) as (Hinc & Hfit & Hcon).
  assert (Hc : ∀ y, y ∈ consumed_of w'.(steps) → y ∈ consumed_of w.(steps) ∨ y = x).
  { intros y (k & q & Hk & Hy)%consumed_elem. rewrite Hss in Hk. destruct (decide (k = o)) as [->|Hne].
    - rewrite list_lookup_insert_eq in Hk by by eapply lookup_lt_Some. simplify_eq. rewrite Htn in Hy.
      right. by apply list_elem_of_singleton in Hy.
    - rewrite list_lookup_insert_ne in Hk by done. left. apply consumed_elem. eauto. }
  apply Exists_exists in Hex as (e & He & <-). rewrite Forall_forall in Hfit. rewrite Forall_forall in Hcon. unfold events_ok. rewrite Hes, Hq.
  split_and!.
  - by apply increasing_filter.
  - apply Forall_forall. intros e' [Hne He']%list_elem_of_filter.
    destruct (Hfit e' He') as (? & ? & ? & Hni & ? & ?). split_and!; try done; [by rewrite Hq|].
    by intros [?|?]%Hc.
  - apply Forall_forall. intros y [Hy| ->]%Hc; [by apply Hcon|]. by apply Hfit.
Qed.

Lemma consume_keeps o s t d e now w w1 w' :
  wf_ok w → w.(steps) !! o = Some s → s.(descriptor).(config) = CWaitEvent t d → s.(s_state) = SWaiting →
  safe now → e.(e_type) = t →
  is_ok (canonical_wire {| event_type := e.(e_type); payload_base64 := e.(e_payload);
                           timestamp_ms := e.(accepted_at_ms) |}) = true →
  update_step o (set_event_consumed e now) w = Some w1 → delete_event e.(event_seq) w1 = Some w' → wf_ok w'.
Proof.
  intros Hok Ho Hc Hst Hnow Ht Hwire Hup Hdel. pose proof (ok_history _ Hok) as Hh.
  assert (Hk : s_kind s = KWaitEvent) by (unfold s_kind; by rewrite Hc).
  destruct (update_step_Some _ _ _ _ _ Ho Hup) as [(Hchk & Hat & Htr & Hw) [Hacc Hacc']].
  destruct (consumed_event _ _ _ _ Hst Hk Hw) as (e' & He' & Hq & Hel & Hfree & Hty & Hac).
  assert (Hn : step_norm (row w) s) by apply (h_steps _ Hh _ _ Ho).
  assert (Hev1 : w1.(events) = w.(events)) by by destruct Hacc' as (-> & _).
  assert (Hts : taken s = []).
  { unfold taken. destruct Hn as (_ & _ & Hn). rewrite Hc in Hn. destruct Hn as (_ & _ & c & _ & _ & Hn).
    rewrite Hst in Hn. by destruct Hn as [_ ->]. }
  assert (Hex : Exists (λ e0, event_seq e0 = event_seq e) w.(events)) by (apply Exists_exists; eauto).
  unfold delete_event in Hdel. rewrite Hev1, decide_True in Hdel by done. case_decide; [|done].
  eapply (account_account 0 _ w1) in Hdel; [|exact Hacc]. apply account_Some in Hdel. cbn in Hdel.
  eapply (replace_keeps 0 o s (set_event_consumed e now s)); try done.
  - eapply consumed_norm; try done.
    + destruct (h_events _ Hh) as (Hinc & _). apply increasing_Forall in Hinc. rewrite Forall_fmap, Forall_forall in Hinc.
      specialize (Hinc e' He'). cbn in Hinc. lia.
    + unfold eligible in *. rewrite Hc in *. by rewrite <-Hty, <-Hq, <-Hac.
  - right. split; [done|]. exists (event_seq e). split; [done|]. intros q Hin.
    rewrite Forall_forall in Hfree. specialize (Hfree q Hin). unfold taken.
    destruct (consumed_event_seq q) as [y|]; cbn; [rewrite list_elem_of_singleton; congruence|apply not_elem_of_nil].
  - destruct Hdel as (-> & _). eapply (consume_events w o s (set_event_consumed e now s) (event_seq e)); try done.
    cbn. lia.
Qed.

Lemma increasing_snoc x l y : increasing (x :: l) → Forall (λ z, z < y) (x :: l) → increasing (x :: l ++ [y]).
Proof.
  revert x. induction l as [|z l IH]; intros x Hl Hy.
  - cbn. by inversion_clear Hy.
  - destruct Hl as [Hxz Hl]. cbn [app]. split; [done|]. apply IH; [done|]. by inversion_clear Hy.
Qed.

Lemma event_keeps e w w' :
  wf_ok w → safe e.(accepted_at_ms) → validate_workflow_event_type e.(e_type) = Ok () →
  valid_value e.(e_payload) = true → insert_event e w = Some w' → wf_ok w'.
Proof.
  intros Hok Hs Ht Hv Hin. pose proof Hok as [Hc Hsc Hu Hh]. unfold insert_event in Hin. case_decide as He; [|done].
  destruct He as (Hq & _ & _ & Hb & _ & _ & Hl & Hseq & _).
  apply account_Some in Hin as Hacc. cbn in Hacc. pose proof Hacc as (-> & _ & Hlive). cbn in Hlive.
  destruct (h_events _ Hh) as (Hinc & Hfit & Hcon).
  eapply account_keeps; try done; try apply Hh; cbn.
  - intros k s Hk. destruct (h_steps _ Hh k s Hk) as (Hg & Hn & Hf). split_and!; try done.
    destruct Hg as (? & ? & ? & ? & ? & ? & ? & Hceil). split_and!; try done. cbn.
    destruct (event_buffer_ceiling s); [|done]. cbn in *. lia.
  - unfold events_ok. cbn. rewrite fmap_app. split_and!.
    + apply increasing_snoc; [done|]. constructor; [lia|]. rewrite Forall_fmap.
      eapply Forall_impl; [exact Hfit|]. intros e' (_ & _ & ? & _). cbn. lia.
    + apply Forall_app. split.
      * eapply Forall_impl; [exact Hfit|]. intros e' (? & ? & ? & ? & ? & ?). split_and!; try done. cbn. lia.
      * apply Forall_singleton. split_and!; try done; [cbn; lia| |unfold WORKFLOW_EVENT_BYTES; lia].
        rewrite Forall_forall in Hcon. intros Hx%Hcon. lia.
    + eapply Forall_impl; [exact Hcon|]. cbn. lia.
  - intros ?. apply (h_activated _ Hh). auto.
  - intros Hx. destruct (h_rollback _ Hh Hx) as [?|E]; [done|]. by rewrite E in Hlive.
Qed.

(** ** Registration of a batch *)

Fixpoint insert_steps (ns : list Step) (w : Workflow) : option Workflow :=
  match ns with
  | [] => Some w
  | s :: ns => w ← insert_step s w; insert_steps ns w
  end.

(** The table a member of the batch is inserted into. *)
Definition partly (w : Workflow) (ns : list Step) (j : nat) (w' : Workflow) : Prop :=
  ∃ a, w' = {| row := {| w.(row) with acct := a |}; steps := w.(steps) ++ take j ns; events := w.(events) |}.

Lemma insert_steps_Some ns w w' :
  ns ≠ [] → insert_steps ns w = Some w' →
  accounted 0 w (w.(steps) ++ ns) w.(events) w' ∧
  ∀ j s, ns !! j = Some s → step_check s ∧ ∃ wj, partly w ns j wj ∧ register_ok wj s.
Proof.
  revert w. induction ns as [|s ns IH]; intros w Hne Hin; [done|]. cbn in Hin.
  apply bind_Some in Hin as (w1 & Hs & Hin). unfold insert_step in Hs. case_decide as Hg; [|done].
  destruct Hg as (Hchk & _ & Hreg). apply account_Some in Hs as Hacc. cbn in Hacc.
  assert (H0 : ∃ wj, partly w (s :: ns) 0 wj ∧ register_ok wj s).
  { exists w. split; [|done]. exists (acct (row w)). cbn. rewrite app_nil_r. destruct w as [[] ? ?]. done. }
  destruct (decide (ns = [])) as [->|Hns].
  - injection Hin as <-. split; [done|]. intros [|j] q Hq; [|done]. injection Hq as <-. eauto.
  - destruct (IH w1 Hns Hin) as [(Hw' & Hc & Hl) Hall]. destruct Hacc as (-> & _ & Hl'). cbn in *.
    rewrite !Z.add_0_r in *. split.
    + split; [|done]. rewrite Hw', <-app_assoc, Z.add_0_r. done.
    + intros [|j] q Hq; [injection Hq as <-; eauto|]. destruct (Hall j q Hq) as (? & wj & [a ->] & Hr).
      split; [done|]. eexists. split; [|exact Hr]. exists a. cbn. by rewrite <-app_assoc.
Qed.

(** The members of one validated batch, at the end of the table. *)
Record batch_of (w : Workflow) (now : Z) (deps : list Z) (rb : bool) (ns : list Step) : Prop := {
  bo_some : ns ≠ [];
  bo_now : safe now;
  bo_rollback : rb = true → length ns = 1%nat ∧ deps = [];
  bo_member : ∀ j s, ns !! j = Some s → ∃ due ceiling,
    s = fresh_step s.(descriptor) now due ceiling ∧
    wait_columns s.(descriptor).(config) w.(row).(next_event_seq) now = Ok (due, ceiling) ∧
    WorkflowStepDescriptor_validate s.(descriptor) = Ok () ∧ unsigned s.(descriptor).(config) ∧
    s.(descriptor).(ordinal) = Z.of_nat (length w.(steps)) + Z.of_nat j ∧
    s.(descriptor).(batch_first_ordinal) = Z.of_nat (length w.(steps)) ∧
    s.(descriptor).(batch_size) = Z.of_nat (length ns) ∧
    s.(descriptor).(dependencies) = deps ∧ s.(descriptor).(rollback_step) = rb;
}.

Lemma durable_deadline_Ok now d t : durable_deadline now d = Ok t → t = now + d ∧ safe t.
Proof.
  unfold durable_deadline, workflow_deadline, bail_if. intros Hd. destruct_result.
  case_decide; [done|]. cbn in Hd. simplify_eq. destruct_result.
  repeat match goal with H : i64_checked _ = Some _ |- _ => apply i64_checked_Some in H as [? _] end.
  unfold safe. split; [congruence|lia].
Qed.

Lemma fresh_norm i d now due ceiling seq :
  safe now → 1 ≤ seq → WorkflowStepDescriptor_validate d = Ok () → wait_columns d.(config) seq now = Ok (due, ceiling) →
  step_norm i (fresh_step d now due ceiling) ∧ is_none_or (λ c, c < seq) ceiling.
Proof.
  intros Hnow Hseq Hv Hw. unfold step_norm, fresh_step. cbn.
  destruct (config d) as [c|x|x|t x] eqn:Hc; cbn in Hw.
  - simplify_eq. split; [|done]. split_and!; try done. cbn. rewrite ?Hc. cbn. rewrite decide_True by done. split; [done|]. split; [done|]. cbn. split; [done|by left].
  - destruct_result. simplify_eq. apply durable_deadline_Ok in Hm as [-> Hs]. split; [|done].
    unfold sleep_norm, columns, expected. cbn. rewrite decide_False, ?Hc by done. by split_and!.
  - simplify_eq. split; [|done]. unfold sleep_norm, columns, expected. cbn. rewrite decide_False, ?Hc by done.
    split_and!; try done. unfold WorkflowStepDescriptor_validate in Hv. destruct_result. rewrite Hc in Hm. cbn in Hm.
    unfold bail_if in Hm. case_decide; [done|]. unfold safe. lia.
  - destruct_result. simplify_eq. apply durable_deadline_Ok in Hm as [-> Hs]. split; [|cbn; lia].
    unfold event_norm, columns, expected. cbn. rewrite decide_False, ?Hc by done. split_and!; try done.
    exists (seq - 1). split_and!; try done. lia.
Qed.

Lemma batch_member_open w now deps rb ns j s :
  Z.of_nat (length w.(steps)) = end_of w.(steps) → batch_of w now deps rb ns → ns !! j = Some s →
  batch_ok (w.(steps) ++ take j ns) s.(descriptor).
Proof.
  intros Hcl Hb Hj. destruct (bo_member _ _ _ _ _ Hb j s Hj) as (? & ? & _ & _ & _ & _ & _ & Hf & Hsz & Hd & _).
  assert (Hjl : (j < length ns)%nat) by by eapply lookup_lt_Some.
  unfold batch_ok. rewrite length_app, length_take_le by lia. destruct j as [|j].
  - rewrite take_0, app_nil_r, decide_True by lia. lia.
  - destruct (lookup_lt_is_Some_2 ns j) as [p Hp]; [lia|]. rewrite (take_S_r _ _ p Hp), app_assoc, last_snoc.
    destruct (bo_member _ _ _ _ _ Hb j p Hp) as (? & ? & _ & _ & _ & _ & _ & Hf' & Hsz' & Hd' & _).
    unfold end_of. rewrite last_snoc. cbn. rewrite decide_False by lia. split_and!; congruence.
Qed.

Lemma count_key s ss :
  count (λ p, s_kind p = s_kind s ∧ p.(descriptor).(name) = s.(descriptor).(name)) ss =
  count (λ p, step_key p = step_key s) ss.
Proof.
  unfold count. do 2 f_equal. apply list_filter_iff. intros p. unfold step_key.
  split; [by intros [-> ->]|by intros [= -> ->]].
Qed.

Lemma member_graph w now deps rb ns j s wj :
  wf_ok w → w.(row).(state) = WRunning → batch_of w now deps rb ns → ns !! j = Some s →
  w.(row).(rollback_requested) = rb → partly w ns j wj → register_ok wj s →
  graph_ok w.(row) (w.(steps) ++ take j ns) s.
Proof.
  intros Hok Hrun Hb Hj Hreq [a ->] Hreg. pose proof (ok_history _ Hok) as Hh.
  destruct (bo_member _ _ _ _ _ Hb j s Hj) as (due & ceil & Hs & Hw & Hv & Hu & Ho & Hf & Hsz & Hd & Hrb).
  assert (Hjl : (j < length ns)%nat) by by eapply lookup_lt_Some.
  assert (1 ≤ w.(row).(next_event_seq)) as Hseq by apply (ok_row _ Hok).
  unfold register_ok in Hreg. cbn in Hreg. destruct Hreg as (_ & _ & _ & _ & _ & _ & _ & _ & Hname & _ & _ & _ & Hdeps).
  unfold graph_ok. split_and!; try done.
  - rewrite length_app, length_take_le by lia. lia.
  - by rewrite Hname, count_key.
  - intros E. rewrite Hsz, Hd. destruct (bo_rollback _ _ _ _ _ Hb) as [Hl ->]; [congruence|]. split; [lia|done].
  - intros E. apply Forall_app. split.
    + destruct (decide (Exists (λ p, p.(descriptor).(rollback_step) = true) w.(steps))) as [Hx|Hx].
      * destruct (h_rollback _ Hh Hx) as [Hy|Hy]; congruence.
      * apply Forall_Exists_neg in Hx. eapply Forall_impl; [exact Hx|]. intros p. by apply not_true_is_false.
    + apply Forall_lookup. intros k p Hp. apply lookup_take_Some in Hp as [Hp _].
      destruct (bo_member _ _ _ _ _ Hb k p Hp) as (? & ? & _ & _ & _ & _ & _ & _ & _ & _ & Hrb'). congruence.
  - eapply batch_member_open; [apply Hh|done..].
  - eapply Forall_impl; [exact Hdeps|]. intros p [[H0 _] Hp]. by split.
  - rewrite Hs. by apply (fresh_norm (row w) _ _ _ _ _ (bo_now _ _ _ _ _ Hb) Hseq Hv Hw).
Qed.

Lemma register_keeps w now deps rb ns w' :
  wf_ok w → w.(row).(state) = WRunning → w.(row).(rollback_requested) = rb → batch_of w now deps rb ns →
  insert_steps ns w = Some w' → wf_ok w'.
Proof.
  intros Hok Hrun Hreq Hb Hin. pose proof (ok_history _ Hok) as Hh.
  destruct (insert_steps_Some _ _ _ (bo_some _ _ _ _ _ Hb) Hin) as [Hacc Hall].
  assert (1 ≤ w.(row).(next_event_seq)) as Hseq by apply (ok_row _ Hok).
  eapply account_keeps; try done.
  - apply Forall_app. split; [apply Hok|]. apply Forall_lookup. intros j s Hj. by apply (Hall j s).
  - apply Forall_app. split; [apply Hok|]. apply Forall_lookup. intros j s Hj.
    by destruct (bo_member _ _ _ _ _ Hb j s Hj) as (? & ? & _ & _ & _ & ? & _).
  - destruct Hacc as (-> & _). intros k s Hk. apply (history_row_indep w); [done..|cbn; lia|].
    apply lookup_app_Some in Hk as [Hk|[Hlen Hk]].
    + rewrite take_app_le by (apply lookup_lt_Some in Hk; lia). by apply Hh.
    + rewrite take_app_ge by done. destruct (Hall _ _ Hk) as (_ & wj & Hp & Hr).
      destruct (bo_member _ _ _ _ _ Hb _ s Hk) as (due & ceil & Hs & Hw & Hv & _).
      split_and!.
      * by eapply member_graph.
      * rewrite Hs. by apply (fresh_norm (row w) _ _ _ _ _ (bo_now _ _ _ _ _ Hb) Hseq Hv Hw).
      * rewrite Hs. constructor.
  - rewrite length_app. pose proof (bo_some _ _ _ _ _ Hb) as Hne.
    destruct (exists_last Hne) as (ns0 & s & Hns). unfold end_of. rewrite Hns at 2. rewrite app_assoc, last_snoc.
    destruct (bo_member _ _ _ _ _ Hb (length ns0) s) as (? & ? & _ & _ & _ & _ & _ & Hf & Hsz & _).
    { rewrite Hns. by apply list_lookup_middle. }
    cbn. rewrite Hf, Hsz. lia.
  - destruct Hacc as (-> & _). destruct (h_events _ Hh) as (? & ? & ?). unfold events_ok. cbn [row steps events].
    assert (consumed_of ns = []) as Hc.
    { apply elem_of_nil_inv. intros x (k & s & Hk & Hx)%consumed_elem.
      destruct (bo_member _ _ _ _ _ Hb _ s Hk) as (? & ? & Hs & _). rewrite Hs in Hx. by apply not_elem_of_nil in Hx. }
    assert (consumed_of (steps w ++ ns) = consumed_of (steps w)) as ->.
    { unfold consumed_of in *. by rewrite bind_app, Hc, app_nil_r. }
    unfold event_fits in *. cbn. by rewrite Z.add_0_r.
  - intros. congruence.
  - intros _. apply (h_activated _ Hh). by right.
  - rewrite Exists_app. intros [Hx|Hx].
    + destruct (h_rollback _ Hh Hx) as [?|E]; congruence.
    + apply Exists_exists in Hx as (s & [j Hj]%list_elem_of_lookup & E).
      destruct (bo_member _ _ _ _ _ Hb _ s Hj) as (? & ? & _ & _ & _ & _ & _ & _ & _ & _ & ?). congruence.
Qed.

(** ** Statements *)

Inductive stmt (token : option WorkflowToken) (w w' : Workflow) : Prop :=
| st_row b f : row_change b token w.(row) (f w.(row)) → update_instance b f w = Some w' → stmt token w w'
| st_step o s f : w.(steps) !! o = Some s → step_change s f → update_step o f w = Some w' → stmt token w w'
| st_consume o s t d e now w1 :
    w.(steps) !! o = Some s → s.(descriptor).(config) = CWaitEvent t d → s.(s_state) = SWaiting → safe now →
    e.(e_type) = t →
    is_ok (canonical_wire {| event_type := e.(e_type); payload_base64 := e.(e_payload);
                             timestamp_ms := e.(accepted_at_ms) |}) = true →
    update_step o (set_event_consumed e now) w = Some w1 → delete_event e.(event_seq) w1 = Some w' → stmt token w w'
| st_event e :
    safe e.(accepted_at_ms) → validate_workflow_event_type e.(e_type) = Ok () → valid_value e.(e_payload) = true →
    insert_event e w = Some w' → stmt token w w'
| st_register now deps rb ns :
    w.(row).(state) = WRunning → w.(row).(rollback_requested) = rb → batch_of w now deps rb ns →
    insert_steps ns w = Some w' → stmt token w w'.

(** Each statement takes a valid instance to a valid instance. *)
Lemma stmt_keeps token w w' : wf_ok w → stmt token w w' → wf_ok w'.
Proof.
  intros Hok []; [by eapply update_keeps|by eapply step_keeps|by eapply consume_keeps|by eapply event_keeps|
    by eapply register_keeps].
Qed.
Lemma stmts_keep token w w' : wf_ok w → rtc (stmt token) w w' → wf_ok w'.
Proof. intros Hok. induction 1; eauto using stmt_keeps. Qed.
End statements.
