(* ===== verification/WorkflowEvolve.v ===== *)
(** * Operations as sequences of statements

    Each operation of the workflow store, when it succeeds, takes the instances it touches
    through a sequence of the statements of [WorkflowStmt] and leaves all others alone. *)

From stdpp Require Import base numbers list option strings sorting gmap.
From S2P Require Import Prelude Text ErrorCodes Duration RetryPolicy WorkflowTypes Sql WorkflowDb WorkflowRuns WorkflowSteps WorkflowBatch WorkflowHistory WorkflowLifecycle WorkflowOperations WorkflowSpec WorkflowVerify WorkflowStmt.

Local Open Scope Z_scope.

(** A wall clock far from the bounds of a safe integer: every lease and backoff fits. *)
Definition clock (now : Z) : Prop := 0 ≤ now ∧ now + 300000 ≤ WORKFLOW_MAX_SAFE_INTEGER.

Lemma clock_safe now : clock now → safe now.
Proof. unfold clock, safe. lia. Qed.

(** The limits are unsigned. *)
Definition limits_unsigned (l : WorkflowsConfig) : Prop := 0 ≤ l.(lease_ms) ∧ 0 ≤ l.(recovery_backoff_ms).

Lemma deadline_safe now d t : clock now → 0 ≤ d ≤ 300000 → workflow_deadline now d = Ok t → t = now + d ∧ safe t.
Proof.
  unfold clock, workflow_deadline. intros Hc Hd Ht. destruct_result. simplify_eq.
  apply i64_checked_Some in Ho0 as [-> _]. apply i64_checked_Some in Ho as [-> _]. split; [done|]. unfold safe. lia.
Qed.

Lemma limits_bounds l :
  limits_unsigned l → WorkflowsConfig_validate l = Ok () → 0 ≤ l.(lease_ms) ≤ 300000 ∧ 0 ≤ l.(recovery_backoff_ms) ≤ 300000.
Proof.
  intros [H1 H2] Hv. unfold WorkflowsConfig_validate, bail_if in Hv. destruct_result. case_decide; [done|]. lia.
Qed.

Lemma safe_max a b : safe a → safe b → safe (Z.max a b).
Proof. unfold safe. lia. Qed.

Section evolve.
Context `{Codec}.

(** ** Row changes of the operations *)

Ltac row_change :=
  split; cbn; try done; auto; try (by intros [? ?]);
  try (unfold row_times; rewrite !Forall_cons; cbn; intros; destruct_and!; split_and!; eauto using safe_max).

Lemma rc_heartbeat token until now i : safe until → safe now → row_change false token i (set_heartbeat until now i).
Proof.
  intros Hu Hn. row_change.
  - split; [done|]. by destruct (run i).
  - intros _. left. by destruct (run i).
  - destruct (run i); cbn in *; eauto using safe_max.
Qed.
Lemma rc_yield token now i :
  safe now →
  row_change false token i {| i with yield_requested := true; updated_at_ms := Z.max i.(updated_at_ms) now |}.
Proof. intros Hn. row_change. Qed.
Lemma rc_released token st next now i :
  safe now → is_none_or safe next → row_change true token i (set_released st next now i).
Proof. intros Hn Hx. row_change. Qed.
Lemma rc_deferred token until now i :
  safe now → safe until → row_change false token i {| i with next_run_at_ms := Some until; updated_at_ms := now |}.
Proof. intros Hn Hx. row_change. Qed.
Lemma rc_claimed t until now i : safe now → safe until → row_change true (Some t) i (set_claimed t now until i).
Proof. intros Hn Hx. row_change. Qed.
Lemma rc_woken token now i : safe now → row_change true token i (set_woken now i).
Proof. intros Hn. row_change. Qed.
Lemma rc_touched token now i : safe now → row_change false token i {| i with updated_at_ms := now |}.
Proof. intros Hn. row_change. Qed.
Lemma rc_rollback_requested token now i : safe now → row_change true token i (set_rollback now i).
Proof. intros Hn. row_change. Qed.
Lemma rc_paused token now i :
  safe now → row_change true token i {| i with state := WPaused; next_run_at_ms := None; updated_at_ms := now |}.
Proof. intros Hn. row_change. Qed.
Lemma rc_pausing token now i :
  safe now → row_change false token i {| i with pause_requested := true; updated_at_ms := now |}.
Proof. intros Hn. row_change. Qed.
Lemma rc_resumed token st next now i :
  safe now → is_none_or safe next →
  row_change true token i {| i with state := st; next_run_at_ms := next; updated_at_ms := now |}.
Proof. intros Hn Hx. row_change. Qed.
Lemma rc_terminated token now expires i :
  safe now → safe expires → row_change true token i (set_terminated now expires i).
Proof. intros Hn Hx. row_change. Qed.
Lemma rc_finished token st output failure code now expires i :
  safe now → safe expires → (i.(rollback_requested) = true → st = WTerminated) →
  is_none_or (λ o, valid_value o = true) output → is_none_or (λ e, e = failure_json) failure →
  is_none_or (λ c, c ∈ terminal_codes) code →
  row_change true token i (set_finished st output failure code now expires i).
Proof. intros Hn Hx Hr Ho Hf Hc. row_change. intros (? & ? & _ & _). by split_and!. Qed.

(** ** One instance under an operation *)

(** The database after some statements on instance [id], which stands at [w]. *)
Definition is_at (db0 : WorkflowDb) (id : N) (w : Workflow) (db : WorkflowDb) : Prop :=
  db.(workflows) = <[id := w]> db0.(workflows).

Lemma at_start db id w : db.(workflows) !! id = Some w → is_at db id w db.
Proof. intros Hw. unfold is_at. by rewrite insert_id. Qed.
Lemma at_lookup db0 id w db : is_at db0 id w db → db.(workflows) !! id = Some w.
Proof. intros ->. by rewrite lookup_insert_eq. Qed.

Section at_id.
Context (db0 : WorkflowDb) (id : N).

Lemma execute_on_at (P : Workflow → Prop) `{!∀ w, Decision (P w)} f w db db' n :
  is_at db0 id w db → execute_on id P f db = (db', Ok n) →
  (P w ∧ n = 1 ∧ ∃ w', f w = Some w' ∧ is_at db0 id w' db') ∨ (¬ P w ∧ n = 0 ∧ is_at db0 id w db').
Proof.
  intros Hat. unfold execute_on. rewrite (at_lookup _ _ _ _ Hat). case_decide as HP.
  - destruct (f w) as [w'|] eqn:Hf; [|done]. intros [= <- <-]. left. split_and!; try done. exists w'. split; [done|].
    unfold is_at, set_workflow in *. cbn. by rewrite Hat, insert_insert_eq.
  - intros [= <- <-]. auto.
Qed.

Lemma execute_at f w db db' u :
  is_at db0 id w db → execute id f db = (db', Ok u) → ∃ w', f w = Some w' ∧ is_at db0 id w' db'.
Proof.
  intros Hat Hrun. unfold execute in Hrun. run_inv.
  destruct (execute_on_at _ _ _ _ _ _ Hat Hm) as [(_ & _ & ?)|(? & _)]; [done|tauto].
Qed.

Lemma steps_of_at w db db' ss : is_at db0 id w db → steps_of id db = (db', Ok ss) → db' = db ∧ ss = w.(steps).
Proof. intros Hat Hrun. unfold steps_of in Hrun. run_inv. by rewrite (at_lookup _ _ _ _ Hat) in Hgets. Qed.

Lemma select_at (P : InstanceRow → Prop) `{!∀ i, Decision (P i)} w db db' o :
  is_at db0 id w db → select_instance id P db = (db', Ok o) →
  db' = db ∧ ((P w.(row) ∧ o = Some w.(row) ∧ readable w.(row)) ∨ (¬ P w.(row) ∧ o = None)).
Proof.
  intros Hat Hrun. unfold select_instance in Hrun. run_inv. rewrite (at_lookup _ _ _ _ Hat) in Hgets. cbn in Hgets.
  case_decide; subst; run_inv; [|by auto]. unfold instance_row, bail_if in Hr. case_decide; [done|]. cbn in Hr.
  simplify_eq. split; [done|]. left. split_and!; try done.
Qed.

Lemma read_step_at o w db db' r :
  is_at db0 id w db → read_step id o db = (db', Ok r) →
  db' = db ∧ r = w.(steps) !! Z.to_nat o ∧ (∀ s, r = Some s → step_readable s).
Proof.
  intros Hat Hrun. unfold read_step in Hrun. run_inv. apply (steps_of_at w) in Hm as [-> ->]; [|done].
  destruct (steps w !! Z.to_nat o) as [s|]; run_inv; subst; [|done]. split_and!; try done.
  intros q [= <-]. apply dec_stable. tauto.
Qed.
End at_id.

Lemma running_at f now db db' i :
  running f now db = (db', Ok i) →
  db' = db ∧ ∃ w, db.(workflows) !! f.(f_instance_id) = Some w ∧ i = w.(row) ∧ holds f now i ∧ readable i.
Proof.
  intros Hrun. unfold running in Hrun. run_inv. subst a.
  destruct (db.(workflows) !! f_instance_id f) as [w|] eqn:Hw.
  - destruct (select_at _ _ _ _ _ _ _ (at_start _ _ _ Hw) Hm) as [-> [(? & [= ->] & ?)|(_ & ?)]]; [|done].
    split; [done|]. by exists w.
  - unfold select_instance in Hm. run_inv. rewrite Hw in Hgets. cbn in Hgets. subst. run_inv. done.
Qed.

Lemma capacity_change_pure id a b l : pure (capacity_change id a b l).
Proof. unfold capacity_change. auto 20 with tx. Qed.
Lemma pure_run {S E A} (m : M S E A) s s' r : pure m → m s = (s', r) → s' = s.
Proof. intros Hp Hr. specialize (Hp s). by rewrite Hr in Hp. Qed.

End evolve.

(** The statement of the run, on the instance it stands at. *)
Tactic Notation "exec" hyp(Hat) "as" ident(w) ident(Hup) ident(Hat') :=
  match goal with Hx : execute _ _ ?d = _ |- _ =>
    match type of Hat with is_at _ _ _ d =>
      destruct (execute_at _ _ _ _ _ _ _ Hat Hx) as (w & Hup & Hat'); clear Hx
    end
  end.

(** The reads of the run, at the instance it stands at. *)
Ltac reads Hat :=
  repeat match goal with
  | Hx : read_step _ _ _ = _ |- _ =>
      let Hrd := fresh "Hrd" in destruct (read_step_at _ _ _ _ _ _ _ Hat Hx) as (-> & -> & Hrd); clear Hx
  | Hx : steps_of _ _ = _ |- _ => destruct (steps_of_at _ _ _ _ _ _ Hat Hx) as [-> ->]; clear Hx
  | Hx : capacity_change _ _ _ _ _ = _ |- _ => apply pure_run in Hx as ->; [|apply capacity_change_pure]
  end.

Section operations.
Context `{Codec}.

(** ** Attempts *)

Lemma terminal_error_code_Ok c x : terminal_error_code c = Ok x → x = c ∧ c ∈ terminal_codes.
Proof. unfold terminal_error_code. case_decide; naive_solver. Qed.

Lemma resolved_delay p a r d : delay_after_resolved p a r = Ok d → is_Some p.(delay) → delay_after p a = Ok d.
Proof.
  unfold delay_after, delay_after_resolved. intros Hd [x Hx]. rewrite Hx in *. destruct r; [|done]. by destruct_result.
Qed.

Section steps_at.
Context (token : option WorkflowToken) (db0 : WorkflowDb) (id : N).

Lemma fail_at w s c resolved now db db' r :
  is_at db0 id w db → w.(steps) !! Z.to_nat s.(descriptor).(ordinal) = Some s → safe now →
  fail id s c resolved now db = (db', Ok r) →
  ∃ w' retry code due delay, is_at db0 id w' db' ∧ stmt token w w' ∧
    update_step (Z.to_nat s.(descriptor).(ordinal)) (set_failed retry code due delay now) w = Some w' ∧
    r = (if (retry : bool) then ResSuspended else ResFailed code).
Proof.
  intros Hat Hs Hnow Hrun. unfold fail in Hrun. run_inv. apply terminal_error_code_Ok in Hr as [-> Hc].
  destruct (config (descriptor s)) as [cfg| | |] eqn:Hcfg; [|run_inv..]. run_inv.
  assert (Ha : s.(attempt) ≠ 0) by tauto.
  set (retry := retryable c && bool_decide (attempt s ≤ limit (retries cfg))) in *.
  destruct retry eqn:Hretry; run_inv; subst; run_inv; subst.
  - apply andb_true_iff in Hretry as [Hre Hlim]. apply bool_decide_eq_true in Hlim.
    match goal with Hd : durable_deadline _ _ = Ok _ |- _ => apply durable_deadline_Ok in Hd as [-> Hsafe] end.
    exec Hat as w' Hup Hat'.
    eexists w', true, _, _, _. split_and!; try done. eapply st_step; [done| |done].
    cbn in Hup |- *. eapply ch_retry; try done.
    + destruct c; try done; auto.
    + intros. by eapply resolved_delay.
  - exec Hat as w' Hup Hat'.
    eexists w', false, _, _, _. split_and!; try done. eapply st_step; [done| |done].
    eapply ch_failed; try done. case_match; [|done]. by apply (bool_decide_unpack _).
Qed.

Lemma defer_at w s now db db' r :
  is_at db0 id w db → w.(steps) !! Z.to_nat s.(descriptor).(ordinal) = Some s → safe now →
  defer_dynamic_failure id s WorkflowStepTimeout now db = (db', Ok r) →
  ∃ w', is_at db0 id w' db' ∧ stmt token w w' ∧ suspended r = false ∧
    update_step (Z.to_nat s.(descriptor).(ordinal)) (set_deferred WorkflowStepTimeout now) w = Some w'.
Proof.
  intros Hat Hs Hnow Hrun. unfold defer_dynamic_failure in Hrun.
  destruct (config (descriptor s)) as [cfg| | |] eqn:Hcfg; [|run_inv..]. run_inv. subst.
  exec Hat as w' Hup Hat'.
  exists w'. split_and!; try done. eapply st_step; [done| |done]. eapply ch_deferred; try done; [|tauto].
  apply eq_None_not_Some. tauto.
Qed.

(** A timeout defers a dynamic delay, retries, or fails. *)
Lemma step_timeout_at w s now db db' r :
  is_at db0 id w db → w.(steps) !! Z.to_nat s.(descriptor).(ordinal) = Some s → safe now →
  step_timeout id s now db = (db', Ok r) →
  ∃ w' f, is_at db0 id w' db' ∧ stmt token w w' ∧ update_step (Z.to_nat s.(descriptor).(ordinal)) f w = Some w' ∧
    (f s).(s_state) ≠ SRunning ∧ (f s).(s_state) ≠ SPending.
Proof.
  intros Hat Hs Hnow Hrun. unfold step_timeout in Hrun. destruct (dynamic_delay_step s).
  - destruct (defer_at _ _ _ _ _ _ Hat Hs Hnow Hrun) as (w' & ? & ? & _ & ?). by eexists w', _.
  - destruct (fail_at _ _ _ _ _ _ _ _ Hat Hs Hnow Hrun) as (w' & retry & code & due & dl & ? & ? & ? & _).
    eexists w', _. split_and!; try done; by destruct retry.
Qed.

Lemma first_event_at w db t db' o :
  is_at db0 id w db → first_event id t db = (db', Ok o) →
  db' = db ∧ o = head (filter (λ e, e.(e_type) = t) w.(events)).
Proof. intros Hat Hrun. unfold first_event in Hrun. run_inv. by rewrite (at_lookup _ _ _ _ Hat) in Hgets. Qed.

(** The arbiter settles a wait by one statement, or suspends and changes nothing. *)
Lemma settle_at w i s now limits db db' r :
  is_at db0 id w db → i.(identity).(instance_id) = id →
  w.(steps) !! Z.to_nat s.(descriptor).(ordinal) = Some s → s.(s_state) = SWaiting → s_kind s ≠ KDo → safe now →
  settle i s now limits db = (db', Ok r) →
  ∃ w', is_at db0 id w' db' ∧ (if suspended r then w' = w else stmt token w w').
Proof.
  intros Hat Hid Hs Hst Hk Hnow Hrun. unfold settle in Hrun. rewrite Hid in Hrun.
  rewrite decide_False in Hrun by tauto. run_inv.
  destruct (config (descriptor s)) as [cfg| | |t d] eqn:Hcfg.
  { exfalso. apply Hk. unfold s_kind. by rewrite Hcfg. }
  - run_inv; subst; [|by exists w].
    exec Hat as w' Hup Hat'. exists w'. split; [done|].
    eapply st_step; [done| |done]. apply ch_slept; [left; unfold s_kind; by rewrite Hcfg|done].
  - run_inv; subst; [|by exists w].
    exec Hat as w' Hup Hat'. exists w'. split; [done|].
    eapply st_step; [done| |done]. apply ch_slept; [right; unfold s_kind; by rewrite Hcfg|done].
  - run_inv. 
    match goal with Hx : first_event _ _ _ = _ |- _ => apply (first_event_at w) in Hx as [-> ->]; [|done] end.
    assert (s1 = db ∧ (∀ e, a1 = Some e → e.(e_type) = t)) as [-> Hty].
    { destruct (head (filter _ _)) as [e|] eqn:Hh; run_inv; subst; try done. split; [done|]. intros ? [= <-].
      apply head_Some_elem_of, list_elem_of_filter in Hh. by destruct Hh. }
    destruct a1 as [e|]; run_inv; subst.
    + match goal with Hx : capacity_change _ _ _ _ _ = _ |- _ =>
        apply pure_run in Hx as ->; [|apply capacity_change_pure] end.
      exec Hat as w1 Hup Hat1. exec Hat1 as w' Hdel Hat'. exists w'. split; [done|]. cbn.
      eapply st_consume; try done; [by apply Hty|]. rewrite (Hty e eq_refl). by rewrite Hr0.
    + exec Hat as w' Hup Hat'. exists w'. split; [done|]. cbn. eapply st_step; [done| |done]. by eapply ch_timeout.
    + by exists w.
Qed.
End steps_at.

(** ** Fenced operations *)

Lemma ok_ordinal w k s : wf_ok w → w.(steps) !! k = Some s → Z.to_nat s.(descriptor).(ordinal) = k.
Proof.
  intros Hok Hk. destruct (h_steps _ (ok_history _ Hok) k s Hk) as ((_ & -> & _) & _).
  rewrite length_take_le; [lia|]. apply lookup_lt_Some in Hk. lia.
Qed.
Lemma ok_own w k s : wf_ok w → w.(steps) !! k = Some s → w.(steps) !! Z.to_nat s.(descriptor).(ordinal) = Some s.
Proof. intros Hok Hk. by rewrite (ok_ordinal _ _ _ Hok Hk). Qed.

Lemma durable_value_Ok v c x : durable_value_base64 v c = Ok x → x = v ∧ valid_value v = true.
Proof.
  unfold valid_value, durable_value_base64, durable_value_bytes, bail_if.
  destruct (base64_decode v) as [b|]; cbn [ok_or_else mbind result_bind].
  - repeat (case_decide; cbn [mbind result_bind is_ok]; try done). by intros [= <-].
  - by case_decide.
Qed.

Lemma yield_at token db0 f now w db db' u :
  is_at db0 f.(f_instance_id) w db → safe now → request_yield f now db = (db', Ok u) →
  ∃ w', is_at db0 f.(f_instance_id) w' db' ∧ stmt token w w'.
Proof.
  intros Hat Hnow Hrun. unfold request_yield in Hrun. run_inv.
  destruct (execute_on_at _ _ _ _ _ _ _ _ Hat Hm) as [(_ & _ & w' & Hup & Hat')|(_ & -> & _)]; [|lia].
  exists w'. split; [done|]. eapply st_row; [|done]. by apply rc_yield.
Qed.

Lemma heartbeat_at token db0 f now limits w db db' u :
  is_at db0 f.(f_instance_id) w db → clock now → limits_unsigned limits → WorkflowsConfig_validate limits = Ok () →
  heartbeat f now limits db = (db', Ok u) →
  ∃ w', is_at db0 f.(f_instance_id) w' db' ∧ stmt token w w' ∧ w'.(row).(state) = WRunning.
Proof.
  intros Hat Hnow Hl Hv Hrun. unfold heartbeat in Hrun. run_inv.
  destruct (limits_bounds _ Hl Hv) as [Hb _]. apply deadline_safe in Hr as [-> Hs]; [|done..].
  destruct (execute_on_at _ _ _ _ _ _ _ _ Hat Hm0) as [((_ & [Hst _] & _) & _ & w' & Hup & Hat')|(_ & -> & _)]; [|lia].
  exists w'. split_and!; try done.
  - eapply st_row; [|done]. apply rc_heartbeat; [done|by apply clock_safe].
  - by apply update_instance_Some in Hup as [_ ->].
Qed.

(** What a fenced operation does: statements on the instance of the fence, which it
    leaves running. *)
Definition fenced (token : option WorkflowToken) (id : N) (db db' : WorkflowDb) : Prop :=
  ∃ w w', db.(workflows) !! id = Some w ∧ is_at db id w' db' ∧ rtc (stmt token) w w' ∧ w'.(row).(state) = WRunning.

(** The end of a fenced operation: an optional yield, then a heartbeat. *)
Lemma fenced_end token f now limits (b : bool) w w1 db db1 db2 db' u u' :
  clock now → limits_unsigned limits → WorkflowsConfig_validate limits = Ok () →
  db.(workflows) !! f.(f_instance_id) = Some w → is_at db f.(f_instance_id) w1 db1 → rtc (stmt token) w w1 →
  (if b then request_yield f now else mret ()) db1 = (db2, Ok u) → heartbeat f now limits db2 = (db', Ok u') →
  fenced token f.(f_instance_id) db db'.
Proof.
  intros Hnow Hl Hv Hw Hat Hs Hy Hb.
  assert (∃ w2, is_at db f.(f_instance_id) w2 db2 ∧ rtc (stmt token) w w2) as (w2 & Hat2 & Hs2).
  { destruct b; [|run_inv; by exists w1].
    destruct (yield_at token _ _ _ _ _ _ _ Hat (clock_safe _ Hnow) Hy) as (w2 & ? & ?). eauto using rtc_r. }
  destruct (heartbeat_at token _ _ _ _ _ _ _ _ Hat2 Hnow Hl Hv Hb) as (w' & ? & ? & ?).
  exists w, w'. eauto using rtc_r.
Qed.

Definition all_ok (db : WorkflowDb) : Prop :=
  ∀ id w, db.(workflows) !! id = Some w → wf_ok w ∧ w.(row).(identity).(instance_id) = id.

Lemma charge_output_at id output limits db db' r :
  charge_output id output limits db = (db', Ok r) →
  db' = db ∧ (∀ v, r = inl v → valid_value v = true).
Proof.
  unfold charge_output. destruct (durable_value_base64 output _) as [v|e] eqn:Hv.
  - apply durable_value_Ok in Hv as [-> Hv].
    destruct (capacity_change _ _ _ _ _) as [s [u|e]] eqn:Hc;
      apply pure_run in Hc as ->; try apply capacity_change_pure; intros [= <- <-]; split; try done.
    by intros ? [= <-].
  - intros [= <- <-]. done.
Qed.

Lemma settle_workflow_step_at token f a outcome now limits db db' r :
  all_ok db → clock now → limits_unsigned limits →
  settle_workflow_step f a outcome now limits db = (db', Ok r) → fenced token f.(f_instance_id) db db'.
Proof.
  intros Hall Hnow Hl Hrun. pose proof (clock_safe _ Hnow) as Hsafe. unfold settle_workflow_step in Hrun.
  run_inv; rename Hr into Hv; destruct a0; apply running_at in Hm0 as [-> (w & Hw & -> & Hh & _)];
    destruct (Hall _ _ Hw) as [Hok Hid]; pose proof (at_start _ _ _ Hw) as Hat; reads Hat; rename a3 into s;
    pose proof (ok_own _ _ _ Hok Hr1) as Hs.
  - destruct (step_timeout_at token _ _ _ _ _ _ _ _ Hat Hs Hsafe Hm5) as (w1 & fn & Hat1 & Hst & _).
    eapply fenced_end; try done. by apply rtc_once.
  - assert (∃ w1, is_at db (f_instance_id f) w1 s5 ∧ stmt token w w1) as (w1 & Hat1 & Hst).
    { assert (Hfail : ∀ c x, fail (f_instance_id f) s c x now db = (s5, Ok a6) →
        ∃ w1, is_at db (f_instance_id f) w1 s5 ∧ stmt token w w1).
      { intros c x Hf. destruct (fail_at token _ _ _ _ _ _ _ _ _ _ Hat Hs Hsafe Hf) as (w1 & ? & ? & ? & ? & ? & ? & _). eauto. }
      destruct outcome; run_inv; eauto.
      apply charge_output_at in Hm as [-> Hval]. destruct a0 as [v|c]; [|eauto]. run_inv.
      exec Hat as w1 Hup Hat1. exists w1. split; [done|]. eapply st_step; [exact Hr1| |done]. apply ch_succeeded; auto.
      destruct (Forall_lookup_1 _ _ _ _ (ok_steps _ Hok) Hr1) as (_ & _ & Hkind & _). apply Hkind. apply dec_stable. tauto. }
    eapply fenced_end; try done. by apply rtc_once.
Qed.

Lemma resolve_workflow_delay_at token f o a res now limits db db' r :
  all_ok db → clock now → limits_unsigned limits →
  resolve_workflow_delay f o a res now limits db = (db', Ok r) → fenced token f.(f_instance_id) db db'.
Proof.
  intros Hall Hnow Hl Hrun. pose proof (clock_safe _ Hnow) as Hsafe. unfold resolve_workflow_delay in Hrun.
  run_inv; rename Hr into Hv; destruct a0; apply running_at in Hm0 as [-> (w & Hw & -> & Hh & _)];
    destruct (Hall _ _ Hw) as [Hok Hid]; pose proof (at_start _ _ _ Hw) as Hat; reads Hat.
  rename a3 into s. pose proof (ok_own _ _ _ Hok Hr0) as Hs.
  assert (Hfail : ∀ c x db1 a6, fail (f_instance_id f) s c x now db = (db1, Ok a6) →
        ∃ w1, is_at db (f_instance_id f) w1 db1 ∧ stmt token w w1).
  { intros c x db1 a6 Hf. destruct (fail_at token _ _ _ _ _ _ _ _ _ _ Hat Hs Hsafe Hf) as (w1 & ? & ? & ? & ? & ? & ? & _). eauto. }
  destruct (config (descriptor s)) as [cfg| | |]; [|run_inv..]. run_inv.
  all: match goal with Hx : fail _ _ _ _ _ _ = _ |- _ => apply Hfail in Hx as (w1 & Hat1 & Hst) end.
  all: eapply (fenced_end token f now limits _ w w1); try done; by apply rtc_once.
Qed.

(** ** Batches *)

Section grants.
Context (token : option WorkflowToken) (db0 : WorkflowDb) (f : WorkflowFence) (i : InstanceRow).
Context (rng : Z → option WorkflowToken) (remaining now : Z) (limits : WorkflowsConfig).
Context (Hid : i.(identity).(instance_id) = f.(f_instance_id)) (Hsafe : safe now).

Lemma start_attempt_at w s c duration db db' g :
  is_at db0 f.(f_instance_id) w db → w.(steps) !! Z.to_nat s.(descriptor).(ordinal) = Some s →
  s.(descriptor).(config) = CDo c →
  start_attempt f rng now s c duration db = (db', Ok g) →
  ∃ w', is_at db0 f.(f_instance_id) w' db' ∧ rtc (stmt token) w w'.
Proof.
  intros Hat Hs Hc Hrun. unfold start_attempt in Hrun. run_inv. unfold token_or in Hm. run_inv. subst.
  case_bool_decide as Hf; run_inv.
  - apply durable_deadline_Ok in Hr0 as [-> Hu]. exec Hat as w' Hup Hat'. exists w'. split; [done|].
    apply rtc_once. eapply st_step; [done| |done]. by eapply ch_started.
  - exec Hat as w' Hup Hat'. exists w'. split; [done|]. rewrite Hs in Hup.
    case_decide as Hst; [|by simplify_eq]. apply rtc_once. eapply st_step; [done| |done]. apply ch_resumed; tauto.
Qed.

Lemma admit_callback_at w s n db db' r :
  is_at db0 f.(f_instance_id) w db → w.(steps) !! Z.to_nat s.(descriptor).(ordinal) = Some s →
  admit_callback f rng remaining now limits s n db = (db', Ok r) →
  ∃ w', is_at db0 f.(f_instance_id) w' db' ∧ rtc (stmt token) w w'.
Proof.
  intros Hat Hs Hrun. unfold admit_callback in Hrun. destruct (config (descriptor s)) as [c| | |] eqn:Hc; [|run_inv..].
  run_inv; subst; try (by exists w); by eapply start_attempt_at.
Qed.

Lemma grant_step_at w s o n db db' r :
  wf_ok w → is_at db0 f.(f_instance_id) w db → w.(steps) !! Z.to_nat s.(descriptor).(ordinal) = Some s →
  grant_step f i rng remaining now limits o s n db = (db', Ok r) →
  ∃ w', is_at db0 f.(f_instance_id) w' db' ∧ rtc (stmt token) w w'.
Proof.
  intros Hok Hat Hs Hrun. unfold grant_step in Hrun.
  assert (Hto : ∀ db1 x, step_timeout (f_instance_id f) s now db = (db1, Ok x) →
     ∃ w', is_at db0 (f_instance_id f) w' db1 ∧ rtc (stmt token) w w').
  { intros db1 x Ht. destruct (step_timeout_at token _ _ _ _ _ _ _ _ Hat Hs Hsafe Ht) as (w' & ? & ? & ? & _).
    eauto using rtc_once. }
  case_decide; [run_inv; by exists w|]. destruct (s_state s) eqn:Hst.
  - run_inv; [by eapply Hto|]. by eapply admit_callback_at.
  - run_inv; subst; [by eapply Hto|by exists w].
  - destruct (config (descriptor s)); run_inv; by exists w.
  - by eapply admit_callback_at.
  - run_inv.
    assert (Hk : s_kind s ≠ KDo).
    { by apply (Forall_lookup_1 _ _ _ _ (ok_steps _ Hok) Hs). }
    destruct (settle_at token _ _ _ _ _ _ _ _ _ _ Hat Hid Hs Hst Hk Hsafe Hm) as (w' & Hat' & Hw').
    assert (rtc (stmt token) w w') by (revert Hw'; destruct (suspended a); [by intros ->|by intros; apply rtc_once]).
    destruct a; run_inv; eauto.
  - run_inv; by exists w.
  - run_inv; by exists w.
  - run_inv.
Qed.

Lemma grant_all_at w o n ds db db' gs :
  wf_ok w → is_at db0 f.(f_instance_id) w db →
  grant_all f i rng remaining now limits o n ds db = (db', Ok gs) →
  ∃ w', is_at db0 f.(f_instance_id) w' db' ∧ rtc (stmt token) w w'.
Proof.
  revert w n db gs. induction ds as [|d ds IH]; intros w n db gs Hok Hat Hrun; cbn in Hrun; run_inv; [by exists w|].
  reads Hat. pose proof (ok_own _ _ _ Hok Hr) as Hs.
  match goal with Hx : grant_step _ _ _ _ _ _ _ _ _ _ = _ |- _ =>
    destruct (grant_step_at _ _ _ _ _ _ _ Hok Hat Hs Hx) as (w1 & Hat1 & Hs1) end.
  match goal with Hx : grant_all _ _ _ _ _ _ _ _ _ _ = _ |- _ =>
    destruct (IH w1 _ _ _ (stmts_keep _ _ _ Hok Hs1) Hat1 Hx) as (w' & ? & ?) end.
  exists w'. split; [done|]. by etrans.
Qed.
End grants.

Definition registers (i : InstanceRow) (now : Z) (d : WorkflowStepDescriptor) (s : Step) : Prop :=
  ∃ due ceiling, s = fresh_step d now due ceiling ∧
    wait_columns d.(config) i.(next_event_seq) now = Ok (due, ceiling).

Lemma register_all_at db0 i id now ds w db db' us :
  is_at db0 id w db → for_each (register_one i id now) ds db = (db', Ok us) →
  ∃ ns w', insert_steps ns w = Some w' ∧ is_at db0 id w' db' ∧ Forall2 (registers i now) ds ns.
Proof.
  revert w db us. induction ds as [|d ds IH]; intros w db us Hat Hrun.
  - cbn in Hrun. run_inv. exists [], w. by split_and!.
  - apply for_each_cons_run in Hrun as (s1 & u & us' & Hd & Hds & _).
    unfold register_one, register in Hd. run_inv. reads Hat. exec Hat as w1 Hup Hat1.
    destruct (IH _ _ _ Hat1 Hds) as (ns & w' & Hin & Hat' & Hall). eexists (_ :: ns), w'.
    split_and!; [cbn; by rewrite Hup|done|]. constructor; [|done]. destruct a as [due ceil]. by exists due, ceil.
Qed.

Lemma validate_members_Ok first size index ds :
  validate_members first size index ds = Ok () →
  ∀ j d, ds !! j = Some d → WorkflowStepDescriptor_validate d = Ok () ∧
    d.(ordinal) = first.(ordinal) + index + Z.of_nat j ∧ d.(batch_first_ordinal) = first.(ordinal) ∧
    d.(batch_size) = size ∧ d.(dependencies) = first.(dependencies).
Proof.
  revert index. induction ds as [|d ds IH]; intros index Hv; [done|]. cbn in Hv. destruct_result. destruct a.
  unfold bail_if in Hm0. case_decide as Hn; [done|]. intros [|j] q Hq.
  - injection Hq as <-. split_and!; try done; try lia; apply dec_stable; tauto.
  - destruct (IH _ Hv j q Hq) as (? & ? & ? & ? & ?). split_and!; try done. lia.
Qed.

(** What the controller guarantees of the batches it claims: retry limits are unsigned,
    and a rollback handler is a batch of its own without dependencies. *)
Definition batch_typed (ds : list WorkflowStepDescriptor) : Prop :=
  Forall (λ d, unsigned d.(config) ∧
               (d.(rollback_step) = true → d.(batch_size) = 1 ∧ d.(dependencies) = [])) ds.

Lemma register_batch_at token db0 f first ds now limits w db db' u :
  wf_ok w → is_at db0 f.(f_instance_id) w db → safe now → batch_typed ds → head ds = Some first →
  validate_members first (Z.of_nat (length ds)) 0 ds = Ok () →
  Forall (λ d, d.(rollback_step) = first.(rollback_step)) ds →
  first.(ordinal) = w.(row).(acct).(registered_step_count) →
  register_batch w.(row) f first ds now limits db = (db', Ok u) →
  ∃ w', is_at db0 f.(f_instance_id) w' db' ∧ stmt token w w'.
Proof.
  intros Hok Hat Hsafe Hty Hhd Hv Hrb Hord Hrun. unfold register_batch in Hrun. run_inv. reads Hat. 
  match goal with Hx : for_each _ _ _ = _ |- _ =>
    destruct (register_all_at _ _ _ _ _ _ _ _ _ Hat Hx) as (ns & w' & Hin & Hat' & Hall) end.
  exists w'. split; [done|].
  rewrite (h_acct _ (ok_history _ Hok)) in Hord. cbn in Hord.
  assert (Hne : ns ≠ []) by (intros ->; inversion Hall; by subst).
  pose proof (Forall2_length _ _ _ Hall) as Hlen.
  assert (Hb : batch_of w now first.(dependencies) first.(rollback_step) ns).
  { split; try done.
    - intros E. apply head_Some_elem_of in Hhd as Hin1. unfold batch_typed in Hty. rewrite Forall_forall in Hty.
      destruct (Hty _ Hin1) as [_ Hr1]. destruct (Hr1 E) as [Hsz Hd]. split; [|done].
      apply list_elem_of_lookup in Hin1 as [j Hj]. destruct (validate_members_Ok _ _ _ _ Hv j _ Hj) as (_ & _ & _ & Hs & _). lia.
    - intros j s Hj. destruct (Forall2_lookup_r _ _ _ _ _ Hall Hj) as (d & Hd & due & ceil & -> & Hw).
      destruct (validate_members_Ok _ _ _ _ Hv j d Hd) as (? & ? & ? & ? & ?).
      exists due, ceil. cbn. rewrite Forall_forall in Hrb. unfold batch_typed in Hty. rewrite Forall_forall in Hty.
      assert (d ∈ ds) as Hds by by eapply list_elem_of_lookup_2.
      split_and!; try done; try lia; [by apply Hty|by apply Hrb]. }
  destruct (insert_steps_Some _ _ _ Hne Hin) as [_ Hreg].
  destruct ns as [|s0 ns]; [done|]. destruct (Hreg 0%nat s0 eq_refl) as (_ & wj & [acc ->] & Hrg).
  destruct (bo_member _ _ _ _ _ Hb 0%nat s0 eq_refl) as (? & ? & _ & _ & _ & _ & _ & _ & _ & _ & Hrb0).
  destruct Hrg as (Hst & _ & _ & _ & Hreq & _). eapply st_register; [done| |exact Hb|done]. cbn in Hreq. congruence.
Qed.

Lemma claim_workflow_batch_at token f ds rng remaining now limits db db' r :
  all_ok db → clock now → limits_unsigned limits → batch_typed ds →
  claim_workflow_batch f ds rng remaining now limits db = (db', Ok r) → fenced token f.(f_instance_id) db db'.
Proof.
  intros Hall Hnow Hl Hty Hrun. pose proof (clock_safe _ Hnow) as Hsafe. unfold claim_workflow_batch in Hrun.
  apply transaction_run, bind_run in Hrun as (d1 & [] & Hv & Hrun). apply lift_run in Hv as [-> Hv].
  apply bind_run in Hrun as (d2 & first & Hf & Hrun). apply lift_run in Hf as [-> Hf].
  apply bind_run in Hrun as (d3 & i & Hi & Hrun). apply running_at in Hi as [-> (w & Hw & -> & Hh & _)].
  destruct (Hall _ _ Hw) as [Hok Hid]. pose proof (at_start _ _ _ Hw) as Hat.
  assert (Hrefl : fenced token (f_instance_id f) db db).
  { exists w, w. split_and!; try done. by destruct Hh as (_ & [? _] & _). }
  case_decide; [run_inv; done|]. 
  apply bind_run in Hrun as (d4 & [] & Hg & Hrun). apply throw_if_run in Hg as [-> Hg].
  apply bind_run in Hrun as (d5 & ss & Hss & Hrun). reads Hat. case_decide; [run_inv; done|].
  apply bind_run in Hrun as (d6 & [] & Hreg & Hrun).
  assert (∃ w1, is_at db (f_instance_id f) w1 d6 ∧ rtc (stmt token) w w1) as (w1 & Hat1 & Hs1).
  { case_decide as Hord; [|run_inv; by exists w].
    unfold validate_batch in Hf. destruct_result. simplify_eq. destruct a1.
    assert (Hrb : Forall (λ d, rollback_step d = rollback_step first) ds) by (apply dec_stable; tauto).
    destruct (register_batch_at token _ _ _ _ _ _ _ _ _ _ Hok Hat Hsafe Hty Ho Hm1 Hrb Hord Hreg) as (w1 & ? & ?).
    eauto using rtc_once. }
  pose proof (stmts_keep _ _ _ Hok Hs1) as Hok1.
  apply bind_run in Hrun as (d7 & gs & Hgr & Hrun).
  destruct (grant_all_at token _ _ _ _ _ _ _ Hid Hsafe _ _ _ _ _ _ _ Hok1 Hat1 Hgr) as (w2 & Hat2 & Hs2).
  apply bind_run in Hrun as (d8 & [] & Hy & Hrun).
  apply bind_run in Hrun as (d9 & [] & Hb & Hrun). apply ret_run in Hrun as [-> _].
  eapply (fenced_end token f now limits (bool_decide (Exists (λ g, grant_suspended g = true) gs)) w w2); try done; [by etrans|].
  case_decide; [by rewrite bool_decide_true|by rewrite bool_decide_false].
Qed.

(** ** Lifecycle *)

(** A suspended instance has a deadline. *)
Definition suspended_ok (w : Workflow) : Prop := w.(row).(state) = WWaiting → is_Some (earliest w.(steps)).

Lemma row_suspended f w w' : update_instance true f w = Some w' → suspended_ok w'.
Proof.
  intros [Hg ->]%update_instance_Some Hst. destruct Hg as (_ & Ha & _ & _ & Hset & _).
  destruct (Hset eq_refl) as (_ & _ & _ & _ & Hw). destruct (Hw Hst) as [Hn _]. by rewrite Ha in Hn.
Qed.

(** What an operation does to the instance it is about. *)
Definition moved (token : option WorkflowToken) (id : N) (db db' : WorkflowDb) : Prop :=
  ∃ w w', db.(workflows) !! id = Some w ∧ is_at db id w' db' ∧ rtc (stmt token) w w' ∧
          (suspended_ok w → suspended_ok w').
Definition unmoved (db db' : WorkflowDb) : Prop := db'.(workflows) = db.(workflows).

Lemma fenced_moved token id db db' : fenced token id db db' → moved token id db db'.
Proof. intros (w & w' & ? & ? & ? & Hr). exists w, w'. split_and!; try done. intros _ ?. congruence. Qed.

(** *** Statements over several steps *)

Definition same_row (i n : InstanceRow) : Prop := ∃ a, n = {| i with acct := a |}.
Lemma same_row_refl i : same_row i i.
Proof. exists (acct i). by destruct i. Qed.
Lemma same_row_trans i n m : same_row i n → same_row n m → same_row i m.
Proof. intros [a ->] [b ->]. by exists b. Qed.

Lemma update_step_row o f w w' : update_step o f w = Some w' → same_row w.(row) w'.(row) ∧ w'.(events) = w.(events).
Proof.
  unfold update_step. destruct (steps w !! o) as [s|]; [|intros [= <-]; split; [apply same_row_refl|done]].
  case_decide; [|done]. intros (-> & _)%account_Some. cbn. split; [|done]. eexists. by rewrite Z.add_0_r.
Qed.

Lemma foldl_None {A B} (g : B → A → option A) (l : list B) : foldl (λ acc p, w ← acc; g p w) None l = None.
Proof. by induction l. Qed.

Lemma update_steps_fold token (P : Step → Prop) `{!∀ s, Decision (P s)} f l n w w' :
  (∀ s, P s → step_change s f) → (∀ j s, l !! j = Some s → w.(steps) !! (n + j)%nat = Some s) →
  foldl (λ acc p, w ← acc; if decide (P p.2) then update_step p.1 f w else Some w) (Some w)
    (imap (λ j s, ((n + j)%nat, s)) l) = Some w' →
  rtc (stmt token) w w' ∧ same_row w.(row) w'.(row).
Proof.
  intros Hf. revert n w. induction l as [|s l IH]; intros n w Hl Hrun; cbn in Hrun.
  - injection Hrun as <-. split; [done|apply same_row_refl].
  - rewrite Nat.add_0_r in Hrun. 
    assert (Hs : steps w !! n = Some s) by (rewrite <-(Hl 0%nat s eq_refl); f_equal; lia).
    assert (Himap : imap (λ j s0, ((n + S j)%nat, s0)) l = imap (λ j s0, ((S n + j)%nat, s0)) l).
    { apply imap_ext. intros. f_equal. lia. }
    change (imap ((λ j s0, ((n + j)%nat, s0)) ∘ S) l) with (imap (λ j s0, ((n + S j)%nat, s0)) l) in Hrun.
    rewrite Himap in Hrun. case_decide as HP.
    + destruct (update_step n f w) as [w1|] eqn:Hup; cbn in Hrun.
      * destruct (IH (S n) w1) as [Hr Hrow].
        { intros j q Hq. specialize (Hl (S j) q Hq). 
          destruct (update_step_Some _ _ _ _ _ Hs Hup) as (_ & _ & -> & _). cbn.
          rewrite list_lookup_insert_ne by lia. rewrite <-Hl. f_equal. lia. }
        { done. }
        split.
        { eapply rtc_l; [|exact Hr]. eapply st_step; [exact Hs|by apply Hf|exact Hup]. }
        { eapply same_row_trans; [by apply (update_step_row _ _ _ _ Hup)|done]. }
      * by rewrite foldl_None in Hrun.
    + cbn in Hrun. apply (IH (S n) w); [|done]. intros j q Hq. specialize (Hl (S j) q Hq).
      rewrite <-Hl. f_equal. lia.
Qed.

Lemma update_steps_at token (P : Step → Prop) `{!∀ s, Decision (P s)} f w w' :
  (∀ s, P s → step_change s f) → update_steps P f w = Some w' →
  rtc (stmt token) w w' ∧ same_row w.(row) w'.(row).
Proof. intros Hf Hrun. by apply (update_steps_fold token P f w.(steps) 0 w w' Hf). Qed.

Lemma cancel_at token db0 id now w db db' u :
  is_at db0 id w db → safe now → cancel_unfinished id now db = (db', Ok u) →
  ∃ w', is_at db0 id w' db' ∧ rtc (stmt token) w w' ∧ same_row w.(row) w'.(row).
Proof.
  intros Hat Hnow Hrun. unfold cancel_unfinished in Hrun. exec Hat as w' Hup Hat'. exists w'. split; [done|].
  eapply update_steps_at; [|done]. intros s Hs. by apply ch_cancelled.
Qed.

Lemma release_at token db0 id i next now w db db' r :
  is_at db0 id w db → i.(identity).(instance_id) = id → safe now → safe next →
  release i next now db = (db', Ok r) →
  ∃ w', is_at db0 id w' db' ∧ rtc (stmt token) w w' ∧ suspended_ok w'.
Proof.
  intros Hat Hid Hnow Hnext Hrun. unfold release in Hrun. rewrite Hid in Hrun.
  apply bind_run in Hrun as (d1 & ss & Hss & Hrun). reads Hat.
  apply bind_run in Hrun as (d2 & [] & Hg & Hrun). apply throw_if_run in Hg as [-> Hg].
  apply bind_run in Hrun as (d3 & p & Hp & Hrun).
  assert (d3 = db ∧ is_none_or safe p.2) as [-> Hps].
  { destruct (pause_requested i); run_inv; subst; done. }
  run_inv.
  match goal with Hx : execute_on _ _ _ _ = _ |- _ =>
    destruct (execute_on_at _ _ _ _ _ _ _ _ Hat Hx) as [(_ & _ & w' & Hup & Hat')|(_ & -> & _)] end.
  - exists w'. split_and!; try done; [|by eapply row_suspended]. apply rtc_once. eapply st_row; [|done].
    by apply rc_released.
  - lia.
Qed.
End operations.
