(* ===== verification/WorkflowMoves.v ===== *)
(** * Lifecycle operations as sequences of statements

    The claim, release, terminal commit and recovery of a run, pause, resume, terminate
    and rollback, the maintenance of due deadlines, and the arrival of events. *)

From stdpp Require Import base numbers list option strings sorting gmap.
From S2P Require Import Prelude Text ErrorCodes Duration RetryPolicy WorkflowTypes Sql WorkflowDb WorkflowRuns WorkflowSteps WorkflowBatch WorkflowHistory WorkflowLifecycle WorkflowOperations WorkflowSpec WorkflowVerify WorkflowStmt WorkflowEvolve.

Local Open Scope Z_scope.

Section moves.
Context `{Codec}.

(** ** Claim, defer, yield *)

Lemma select_present (db : WorkflowDb) id (P : InstanceRow → Prop) `{!∀ i, Decision (P i)} db' i :
  select_instance id P db = (db', Ok (Some i)) →
  db' = db ∧ ∃ w, db.(workflows) !! id = Some w ∧ i = w.(row) ∧ P i ∧ readable i.
Proof.
  intros Hrun. destruct (db.(workflows) !! id) as [w|] eqn:Hw.
  - destruct (select_at _ _ _ _ _ _ _ (at_start _ _ _ Hw) Hrun) as [-> [(? & [= ->] & ?)|(_ & ?)]]; [|done].
    split; [done|]. by exists w.
  - unfold select_instance in Hrun. run_inv. rewrite Hw in Hgets. cbn in Hgets. subst. by run_inv.
Qed.
Lemma select_pure id (P : InstanceRow → Prop) `{!∀ i, Decision (P i)} : pure (select_instance id P).
Proof. unfold select_instance. apply pure_bind; [apply pure_gets|]. intros [w|]; auto with tx. Qed.

Lemma claim_workflow_at ident rng now limits db db' r :
  all_ok db → clock now → limits_unsigned limits → claim_workflow ident rng now limits db = (db', Ok r) →
  unmoved db db' ∨ moved rng ident.(instance_id) db db'.
Proof.
  intros Hall Hnow Hl Hrun. unfold claim_workflow in Hrun. run_inv. rename Hr into Hv. destruct a.
  destruct a0 as [i|]; [|apply pure_run in Hm0 as ->; [|apply select_pure]; run_inv; by left].
  apply select_present in Hm0 as [-> (w & Hw & -> & [Hst _] & _)]. pose proof (at_start _ _ _ Hw) as Hat.
  unfold token_or in *. run_inv. subst rng. destruct (limits_bounds _ Hl Hv) as [Hb _].
  match goal with Hx : workflow_deadline _ _ = Ok _ |- _ => apply deadline_safe in Hx as [-> Hs]; [|done..] end.
  match goal with Hx : execute_on _ _ _ _ = _ |- _ =>
    destruct (execute_on_at _ _ _ _ _ _ _ _ Hat Hx) as [(_ & _ & w' & Hup & Hat')|(? & _)]; [|tauto] end.
  right. exists w, w'. split_and!; try done; [|by intros _; eapply row_suspended].
  apply rtc_once. eapply st_row; [|done]. apply rc_claimed; [by apply clock_safe|done].
Qed.

Lemma defer_workflow_at id now limits db db' r :
  clock now → limits_unsigned limits → defer_workflow id now limits db = (db', Ok r) →
  unmoved db db' ∨ moved None id db db'.
Proof.
  intros Hnow Hl Hrun. unfold defer_workflow in Hrun. run_inv. destruct a.
  destruct (limits_bounds _ Hl Hr0) as [_ Hb].
  match goal with Hx : workflow_deadline _ _ = Ok _ |- _ => apply deadline_safe in Hx as [-> Hs]; [|done..] end.
  destruct (db.(workflows) !! id) as [w|] eqn:Hw.
  - destruct (execute_on_at _ _ _ _ _ _ _ _ (at_start _ _ _ Hw) Hm1) as [((Hst & _) & _ & w' & Hup & Hat')|(_ & _ & ?)].
    + right. exists w, w'. split_and!; try done.
      * apply rtc_once. eapply st_row; [|done]. apply rc_deferred; [by apply clock_safe|done].
      * apply update_instance_Some in Hup as [_ ->]. intros _ E. cbn in E. congruence.
    + left. unfold is_at in *. unfold unmoved. by rewrite insert_id in *.
  - left. unfold execute_on in Hm1. rewrite Hw in Hm1. by simplify_eq.
Qed.

Lemma heartbeat_workflow_at f now limits db db' r :
  clock now → limits_unsigned limits → heartbeat_workflow f now limits db = (db', Ok r) →
  moved None f.(f_instance_id) db db'.
Proof.
  intros Hnow Hl Hrun. unfold heartbeat_workflow in Hrun. run_inv. destruct a. 
  destruct (db.(workflows) !! f.(f_instance_id)) as [w|] eqn:Hw.
  - destruct (heartbeat_at None _ _ _ _ _ _ _ _ (at_start _ _ _ Hw) Hnow Hl Hr Hrun) as (w' & ? & ? & ?).
    apply fenced_moved. exists w, w'. split_and!; try done. by apply rtc_once.
  - unfold heartbeat in Hrun. run_inv. unfold execute_on in Hm0. rewrite Hw in Hm0. simplify_eq. lia.
Qed.

Lemma yield_workflow_at f now db db' r :
  all_ok db → clock now → yield_workflow f now db = (db', Ok r) → moved None f.(f_instance_id) db db'.
Proof.
  intros Hall Hnow Hrun. pose proof (clock_safe _ Hnow) as Hs. unfold yield_workflow in Hrun. run_inv.
  apply running_at in Hm as [-> (w & Hw & -> & (_ & [Hst _] & _) & _)]. destruct (Hall _ _ Hw) as [Hok Hid].
  match goal with Hx : release _ _ _ _ = _ |- _ =>
    destruct (release_at None _ _ _ _ _ _ _ _ _ (at_start _ _ _ Hw) Hid Hs Hs Hx) as (w' & Hat' & ? & ?) end.
  subst. by exists w, w'.
Qed.

(** ** Terminal commit *)

(** The sum of a column over the instances. *)
Lemma map_sum_nonneg (g : Workflow → Z) (m : gmap N Workflow) :
  (∀ id w, m !! id = Some w → 0 ≤ g w) → 0 ≤ map_fold (λ _ w n, g w + n) 0 m.
Proof.
  intros Hg. apply (map_fold_weak_ind (λ n m', (∀ id w, m' !! id = Some w → 0 ≤ g w) → 0 ≤ n)); [done| |done].
  intros id w m' n Hid IH Hall. specialize (Hall id w) as Hw. rewrite lookup_insert_eq in Hw. specialize (Hw eq_refl).
  assert (0 ≤ n); [|lia]. apply IH. intros id' w' Hw'. apply (Hall id'). rewrite lookup_insert_ne; [done|]. congruence.
Qed.
Lemma map_sum_le (g : Workflow → Z) (m : gmap N Workflow) id w :
  (∀ id w, m !! id = Some w → 0 ≤ g w) → m !! id = Some w → g w ≤ map_fold (λ _ w n, g w + n) 0 m.
Proof.
  intros Hg Hw. rewrite (map_fold_delete_L _ _ id w); [|intros; lia|done].
  assert (0 ≤ map_fold (λ _ w n, g w + n) 0 (delete id m)); [|lia]. apply map_sum_nonneg.
  intros id' w' Hw'. apply lookup_delete_Some in Hw' as [_ Hw']. by eapply Hg.
Qed.

Lemma str_len_nonneg s : 0 ≤ str_len s.
Proof. pose proof (str_len_length s). lia. Qed.
Lemma reserve_nonneg : 0 ≤ reserve.
Proof. apply str_len_nonneg. Qed.
Lemma reservations_nonneg w : (if live w.(row) then 1 else 0) ≤ reservations w.
Proof. unfold reservations. match goal with |- _ ≤ _ + ?c => assert (0 ≤ c) by (unfold count; lia) end. lia. Qed.

(** Using an existing reservation can exceed a limit but never the books. *)
Lemma capacity_error id extra limits db db' e w :
  all_ok db → db.(workflows) !! id = Some w → live w.(row) = true → 0 ≤ extra →
  capacity_change id extra (-1) limits db = (db', Err e) → e.(code) = WorkflowStateQuotaExceeded.
Proof.
  intros Hall Hw Hlive Hx. pose proof reserve_nonneg as Hr.
  assert (Hsb : ∀ id w, db.(workflows) !! id = Some w → 0 ≤ w.(row).(acct).(state_bytes)).
  { intros ? ? Hq. apply (ok_row _ (proj1 (Hall _ _ Hq))). }
  assert (Hres : ∀ id w, db.(workflows) !! id = Some w → 0 ≤ reservations w).
  { intros ? v _. pose proof (reservations_nonneg v). destruct (live (row v)); lia. }
  pose proof (map_sum_le _ _ _ _ Hsb Hw) as H1. pose proof (map_sum_le _ _ _ _ Hres Hw) as H2.
  pose proof (Hsb _ _ Hw) as H3. pose proof (reservations_nonneg w) as H4. rewrite Hlive in H4.
  unfold capacity_change, account_capacity. run_simpl. rewrite Hw. cbn [fst snd].
  set (total := map_fold (λ _ w n, w.(row).(acct).(state_bytes) + n) 0 (workflows db)) in *.
  set (all := map_fold (λ _ w n, reservations w + n) 0 (workflows db)) in *. cbn beta in *. clearbody total all.
  rewrite decide_False by nia. case_decide; [by intros [= _ <-]|]. rewrite decide_False by nia.
  case_decide; [by intros [= _ <-]|done].
Qed.

Lemma durable_value_Err v e : durable_value_base64 v WorkflowResultTooLarge = Err e → e.(code) ∈ terminal_codes.
Proof.
  unfold durable_value_base64, durable_value_bytes, bail_if.
  destruct (base64_decode v) as [b|]; cbn [ok_or_else mbind result_bind];
    repeat (case_decide; cbn [mbind result_bind]); intros [= <-]; by apply (bool_decide_unpack _).
Qed.

Lemma final_output_at completion limits db db' r w id :
  all_ok db → db.(workflows) !! id = Some w → live w.(row) = true →
  final_output w.(row) completion limits db = (db', Ok r) →
  db' = db ∧ (∀ v, r = inl v → valid_value v = true) ∧ (∀ c, r = inr c → c ∈ terminal_codes).
Proof.
  intros Hall Hw Hlive Hrun. destruct (Hall _ _ Hw) as [Hok Hid]. pose proof (at_start _ _ _ Hw) as Hat.
  unfold final_output in Hrun. rewrite Hid in Hrun. apply bind_run in Hrun as (d1 & ss & Hss & Hrun). reads Hat.
  destruct (platform_failure (steps w)) as [c|].
  { run_inv. apply terminal_error_code_Ok in Hr as [-> ?]. subst. naive_solver. }
  destruct completion as [output o|c|o].
  - case_decide; [run_inv; subst; split_and!; try done; intros c [= <-]; by apply (bool_decide_unpack _)|].
    destruct (durable_value_base64 output _) as [v|e] eqn:Hv.
    + apply durable_value_Ok in Hv as [-> Hv].
      destruct (capacity_change _ _ _ _ _) as [s [u|e]] eqn:Hc; pose proof Hc as Hc';
        apply pure_run in Hc as ->; try apply capacity_change_pure; injection Hrun as <- <-.
      * split_and!; [done|by intros ? [= <-]|done].
      * split_and!; [done|done|]. intros c [= <-].
        rewrite (capacity_error _ _ _ _ _ _ _ Hall Hw Hlive (str_len_nonneg _) Hc'). by apply (bool_decide_unpack _).
    + run_inv. subst. split_and!; [done|done|]. intros c [= <-]. eapply durable_value_Err, Hv.
  - run_inv. apply terminal_error_code_Ok in Hr as [-> ?]. subst. naive_solver.
  - run_inv. subst. split_and!; try done. intros c [= <-]. by apply (bool_decide_unpack _).
Qed.

Lemma expires_safe r t b e : expires_at r t b = Ok e → safe e.
Proof.
  unfold expires_at, bail_if. intros He. destruct_result.
  match goal with Hx : _ ≫= _ = Some _ |- _ => apply bind_Some in Hx as (x & _ & Hx) end.
  case_decide; [|done]. simplify_eq. unfold safe. lia.
Qed.

(** The guarded terminal update; an unmatched one changes nothing. *)
Lemma finished_at token db0 id (P : Workflow → Prop) `{!∀ w, Decision (P w)} st output failure code now expires w db db' n :
  is_at db0 id w db → w.(row).(state) ≠ WWaiting → safe now → safe expires →
  (w.(row).(rollback_requested) = true → st = WTerminated) →
  is_none_or (λ o, valid_value o = true) output → is_none_or (λ e, e = failure_json) failure →
  is_none_or (λ c, c ∈ terminal_codes) code →
  execute_on id P (update_instance true (set_finished st output failure code now expires)) db = (db', Ok n) →
  ∃ w', is_at db0 id w' db' ∧ rtc (stmt token) w w' ∧ suspended_ok w'.
Proof.
  intros Hat Hst Hnow He Hrb Ho Hf Hc Hrun.
  destruct (execute_on_at _ _ _ _ _ _ _ _ Hat Hrun) as [(_ & _ & w' & Hup & Hat')|(_ & _ & ?)].
  - exists w'. split_and!; [done| |by eapply row_suspended]. apply rtc_once. eapply st_row; [|done]. by apply rc_finished.
  - exists w. split_and!; [done..|by intros ?].
Qed.

Lemma finish_workflow_at f completion now limits db db' r :
  all_ok db → clock now → finish_workflow f completion now limits db = (db', Ok r) →
  moved None f.(f_instance_id) db db'.
Proof.
  intros Hall Hnow Hrun. pose proof (clock_safe _ Hnow) as Hs. unfold finish_workflow in Hrun.
  apply transaction_run, bind_run in Hrun as (d1 & [] & Hv & Hrun). apply lift_run in Hv as [-> Hv].
  apply bind_run in Hrun as (d3 & i & Hi & Hrun). apply running_at in Hi as [-> (w & Hw & -> & (_ & [Hst _] & _) & _)].
  destruct (Hall _ _ Hw) as [Hok Hid]. pose proof (at_start _ _ _ Hw) as Hat.
  assert (Hlive : live (row w) = true) by (unfold live; by rewrite Hst).
  assert (Hend : ∀ w1 w2 d, is_at db (f_instance_id f) w2 d → rtc (stmt None) w w1 → rtc (stmt None) w1 w2 →
    suspended_ok w2 → moved None (f_instance_id f) db d).
  { intros w1 w2 d ? ? ? ?. exists w, w2. split_and!; try done. by etrans. }
  case_decide.
  { run_inv. subst.
    match goal with Hx : release _ _ _ _ = _ |- _ =>
      destruct (release_at None _ _ _ _ _ _ _ _ _ Hat Hid Hs Hs Hx) as (w' & Hat' & ? & ?) end.
    by eapply (Hend w). }
  assert (Hnw : state (row w) ≠ WWaiting) by congruence.
  destruct completion as [output o|c|o].
  3:{ run_inv. subst. reads Hat.
      match goal with Hx : expires_at _ _ _ = Ok _ |- _ => apply expires_safe in Hx as He end.
      match goal with Hx : execute_on _ _ _ _ = _ |- _ =>
        eapply (finished_at None) in Hx as (w' & ? & ? & ?); [|done..] end.
      by eapply (Hend w). }
  all: apply bind_run in Hrun as (d4 & [] & Hg & Hrun); apply throw_if_run in Hg as [-> Hg];
    apply bind_run in Hrun as (d5 & res & Hres & Hrun);
    apply (final_output_at _ _ _ _ _ w (f_instance_id f)) in Hres as (-> & Hval & Hcode); [|done..];
    destruct res as [v|code].
  all: run_inv; subst; run_inv; simplify_eq;
    try match goal with Hx : expires_at _ _ _ = Ok _ |- _ => apply expires_safe in Hx as He end.
  1,3: match goal with Hx : execute_on _ _ _ _ = _ |- _ =>
      eapply (finished_at None) in Hx as (w' & ? & ? & ?); [|try done..];
      [by eapply (Hend w)|by apply Hval] end.
  all: match goal with Hx : cancel_unfinished _ _ _ = _ |- _ =>
      destruct (cancel_at None _ _ _ _ _ _ _ Hat Hs Hx) as (w1 & Hat1 & Hr1 & [ac Hrow]) end;
    match goal with Hx : execute_on _ _ _ _ = _ |- _ =>
      eapply (finished_at None _ _ _ _ _ _ _ _ _ w1) in Hx as (w' & ? & ? & ?); [|try done..];
      [by eapply (Hend w1)|by rewrite Hrow|by rewrite Hrow|by apply Hcode] end.
Qed.

(** ** Several instances *)

(** An operation that takes each instance through statements. *)
Definition evolved (token : option WorkflowToken) (db db' : WorkflowDb) : Prop :=
  ∀ id, match db.(workflows) !! id with
        | Some w => ∃ w', db'.(workflows) !! id = Some w' ∧ rtc (stmt token) w w' ∧ (suspended_ok w → suspended_ok w')
        | None => db'.(workflows) !! id = None
        end.

Lemma unmoved_evolved token db db' : unmoved db db' → evolved token db db'.
Proof. intros Hu id. rewrite Hu. destruct (workflows db !! id) as [w|]; [|done]. by exists w. Qed.
Lemma evolved_refl token db : evolved token db db.
Proof. by apply unmoved_evolved. Qed.
Lemma moved_evolved token id db db' : moved token id db db' → evolved token db db'.
Proof.
  intros (w & w' & Hw & Hat & Hr & Hs) id'. rewrite Hat. destruct (decide (id' = id)) as [->|Hne].
  - rewrite Hw, lookup_insert_eq. by exists w'.
  - rewrite lookup_insert_ne by done. destruct (workflows db !! id') as [v|]; [|done]. by exists v.
Qed.
Lemma evolved_trans token db db1 db2 : evolved token db db1 → evolved token db1 db2 → evolved token db db2.
Proof.
  intros H1 H2 id. specialize (H1 id). specialize (H2 id). destruct (workflows db !! id) as [w|].
  - destruct H1 as (w1 & E1 & Hr1 & Hs1). rewrite E1 in H2. destruct H2 as (w2 & E2 & Hr2 & Hs2).
    exists w2. split_and!; [done|by etrans|auto].
  - by rewrite H1 in H2.
Qed.

Lemma stmt_identity token w w' : stmt token w w' → w'.(row).(identity) = w.(row).(identity).
Proof.
  intros [b f Hrc Hup|o s f Hs _ Hup|o s t d e now w1 Hs _ _ _ _ _ Hup Hdel|e _ _ _ Hin|now deps rb ns _ _ Hb Hin].
  - apply update_instance_Some in Hup as [_ ->]. by apply Hrc.
  - by destruct (update_step_row _ _ _ _ Hup) as [[a ->] _].
  - destruct (update_step_row _ _ _ _ Hup) as [[a Hr] _]. unfold delete_event in Hdel.
    repeat case_decide; try done; [|by simplify_eq; rewrite Hr]. apply account_Some in Hdel as (-> & _). cbn. by rewrite Hr.
  - unfold insert_event in Hin. case_decide; [|done]. by apply account_Some in Hin as (-> & _).
  - destruct (insert_steps_Some _ _ _ (bo_some _ _ _ _ _ Hb) Hin) as [(-> & _) _]. done.
Qed.
Lemma stmts_identity token w w' : rtc (stmt token) w w' → w'.(row).(identity) = w.(row).(identity).
Proof. induction 1 as [|w w1 w' Hs _ IH]; [done|]. rewrite IH. by eapply stmt_identity. Qed.

Lemma evolved_ok token db db' : all_ok db → evolved token db db' → all_ok db'.
Proof.
  intros Hall He id w' Hw'. specialize (He id). destruct (workflows db !! id) as [w|] eqn:Hw; [|congruence].
  destruct He as (w2 & E & Hr & _). destruct (Hall _ _ Hw) as [Hok Hid]. simplify_eq.
  split; [by eapply stmts_keep|]. by rewrite (stmts_identity _ _ _ Hr).
Qed.

Lemma for_each_evolved {A B} token (g : A → WM B) l db db' ys :
  all_ok db → (∀ x db1 db2 y, all_ok db1 → g x db1 = (db2, Ok y) → evolved token db1 db2) →
  for_each g l db = (db', Ok ys) → evolved token db db'.
Proof.
  intros Hall Hg Hrun. eapply (for_each_inv (λ s, evolved token db s)); [|apply evolved_refl|exact Hrun].
  intros x s1 s2 y _ He Hx. eapply evolved_trans; [done|]. eapply Hg; [|done]. by eapply evolved_ok.
Qed.

Lemma recover_one_at e now limits db db' u :
  all_ok db → clock now → limits_unsigned limits → WorkflowsConfig_validate limits = Ok () →
  recover_one now limits e db = (db', Ok u) → evolved None db db'.
Proof.
  intros Hall Hnow Hl Hv Hrun. pose proof (clock_safe _ Hnow) as Hs. destruct e as [[id gen] t]. cbn in Hrun.
  apply bind_run in Hrun as (d1 & n & He & Hrun). apply bind_run in Hrun as (d2 & o & Ho & Hrun).
  destruct (limits_bounds _ Hl Hv) as [_ Hb]. apply bind_run in Hrun as (d3 & i & Hi & Hrun).
  apply some_or_run in Hi as [-> ->]. run_inv. apply deadline_safe in Hr as [-> Hu]; [|done..].
  apply select_present in Ho as [-> (w1 & Hw1 & -> & _)].
  destruct (db.(workflows) !! id) as [w|] eqn:Hw.
  - destruct (Hall _ _ Hw) as [Hok Hid]. pose proof (at_start _ _ _ Hw) as Hat.
    assert (∃ w2, is_at db id w2 d1 ∧ rtc (stmt None) w w2 ∧ same_row w.(row) w2.(row)) as (w2 & Hat1 & Hr1 & [a Hrow]).
    { destruct (execute_on_at _ _ _ _ _ _ _ _ Hat He) as [(_ & _ & w2 & Hup & Hat2)|(_ & _ & ?)].
      - exists w2. split; [done|]. eapply update_steps_at; [|done]. intros s [Hst _]. by apply ch_relinquished.
      - exists w. split_and!; try done. apply same_row_refl. }
    pose proof (at_lookup _ _ _ _ Hat1) as E. rewrite Hw1 in E. injection E as <-.
    match goal with Hx : release _ _ _ _ = _ |- _ =>
      eapply (release_at None _ id) in Hx as (w' & ? & ? & ?); [|exact Hat1|by rewrite Hrow|done..] end.
    apply (moved_evolved _ id). exists w, w'. split_and!; try done. by etrans.
  - unfold execute_on in He. rewrite Hw in He. simplify_eq.
Qed.

Lemma recover_workflows_at now limits limit db db' r :
  all_ok db → clock now → limits_unsigned limits →
  recover_workflows now limits limit db = (db', Ok r) → evolved None db db'.
Proof.
  intros Hall Hnow Hl Hrun. unfold recover_workflows in Hrun. run_inv; subst.
  all: match goal with Hv : WorkflowsConfig_validate _ = Ok ?u |- _ => destruct u end.
  all: match goal with Hx : for_each _ _ _ = _ |- _ =>
    eapply (for_each_evolved None) in Hx; [exact Hx|done|]; intros; by eapply recover_one_at end.
Qed.

(** ** Pause, resume, terminate, rollback *)

Lemma execute_row_at token db0 id f now w db db' u :
  is_at db0 id w db → row_change true token w.(row) (f w.(row)) → safe now →
  execute id (update_instance true f) db = (db', Ok u) →
  ∃ w', is_at db0 id w' db' ∧ stmt token w w' ∧ suspended_ok w'.
Proof.
  intros Hat Hrc Hs Hrun. exec Hat as w' Hup Hat'. exists w'. split_and!; [done| |by eapply row_suspended].
  by eapply st_row.
Qed.

Lemma request_workflow_rollback_at ident now limits db db' u :
  all_ok db → clock now → request_workflow_rollback ident now limits db = (db', Ok u) → evolved None db db'.
Proof.
  intros Hall Hnow Hrun. pose proof (clock_safe _ Hnow) as Hs. unfold request_workflow_rollback in Hrun. run_inv.
  match goal with Hx : select_instance _ _ _ = _ |- _ => subst; apply select_present in Hx as [-> (w & Hw & -> & _)] end.
  destruct (rollback_requested (row w)); run_inv; [by apply evolved_refl|].
  match goal with Hx : cancel_unfinished _ _ _ = _ |- _ =>
    destruct (cancel_at None _ _ _ _ _ _ _ (at_start _ _ _ Hw) Hs Hx) as (w1 & Hat1 & Hr1 & _) end.
  match goal with Hx : execute _ _ _ = _ |- _ =>
    destruct (execute_row_at None _ _ _ now _ _ _ _ Hat1 (rc_rollback_requested _ _ _ Hs) Hs Hx) as (w' & ? & ? & ?) end.
  subst. apply (moved_evolved _ (instance_id ident)). exists w, w'. split_and!; try done. by eapply rtc_r.
Qed.

Lemma resume_step_at token db0 id i now limits o w db db' u :
  wf_ok w → is_at db0 id w db → i.(identity).(instance_id) = id → safe now →
  resume_step i now limits o db = (db', Ok u) → ∃ w', is_at db0 id w' db' ∧ rtc (stmt token) w w'.
Proof.
  intros Hok Hat Hid Hs Hrun. unfold resume_step in Hrun. rewrite Hid in Hrun.
  apply bind_run in Hrun as (d1 & r & Hr & Hrun). apply bind_run in Hrun as (d2 & s & Hso & Hrun).
  apply some_or_run in Hso as [-> ->]. destruct (read_step_at _ _ _ _ _ _ _ Hat Hr) as (-> & Hlk & _). symmetry in Hlk.
  pose proof (ok_own _ _ _ Hok Hlk) as Hown. destruct (s_state s) eqn:Hst; run_inv; try (by exists w).
  all: try (match goal with Hx : step_timeout _ _ _ _ = _ |- _ =>
    destruct (step_timeout_at token _ _ _ _ _ _ _ _ Hat Hown Hs Hx) as (w' & ? & ? & ? & _) end; eauto using rtc_once).
  assert (Hk : s_kind s ≠ KDo) by by apply (Forall_lookup_1 _ _ _ _ (ok_steps _ Hok) Hown).
  match goal with Hx : settle _ _ _ _ _ = _ |- _ =>
    destruct (settle_at token _ _ _ _ _ _ _ _ _ _ Hat Hid Hown Hst Hk Hs Hx) as (w' & ? & Hw') end.
  exists w'. split; [done|]. revert Hw'. destruct (suspended _); [by intros ->|by intros; apply rtc_once].
Qed.

Lemma for_each_at {A B} token db0 id (g : A → WM B) l w db db' ys :
  wf_ok w → is_at db0 id w db →
  (∀ x w1 db1 db2 y, wf_ok w1 → is_at db0 id w1 db1 → g x db1 = (db2, Ok y) →
     ∃ w2, is_at db0 id w2 db2 ∧ rtc (stmt token) w1 w2) →
  for_each g l db = (db', Ok ys) → ∃ w', is_at db0 id w' db' ∧ rtc (stmt token) w w'.
Proof.
  intros Hok Hat Hg Hrun.
  eapply (for_each_inv (λ s, ∃ w', is_at db0 id w' s ∧ rtc (stmt token) w w')); [|by exists w|exact Hrun].
  intros x s1 s2 y _ (w1 & Hat1 & Hr1) Hx. destruct (Hg x w1 s1 s2 y (stmts_keep _ _ _ Hok Hr1) Hat1 Hx) as (w2 & ? & ?).
  exists w2. split; [done|]. by etrans.
Qed.

Lemma resume_at token ident w now limits db db' u :
  wf_ok w → db.(workflows) !! ident = Some w → w.(row).(identity).(instance_id) = ident → safe now →
  resume w.(row) now limits db = (db', Ok u) →
  ∃ w', is_at db ident w' db' ∧ rtc (stmt token) w w' ∧ suspended_ok w'.
Proof.
  intros Hok Hw Hid Hs Hrun. pose proof (at_start _ _ _ Hw) as Hat. unfold resume in Hrun. rewrite Hid in Hrun.
  run_inv. reads Hat.
  match goal with Hx : for_each _ _ _ = _ |- _ =>
    eapply (for_each_at token db ident) in Hx as (w1 & Hat1 & Hr1); [|done|done|intros; by eapply resume_step_at] end.
  match goal with Hx : execute _ _ _ = _ |- _ =>
    eapply (execute_row_at token _ _ _ now) in Hx as (w' & ? & ? & ?); [|exact Hat1| |done] end.
  - exists w'. split_and!; try done. by eapply rtc_r.
  - apply rc_resumed; [done|]. by case_bool_decide.
Qed.

Lemma pause_at token ident w now db db' u :
  db.(workflows) !! ident = Some w → w.(row).(identity).(instance_id) = ident → safe now →
  pause w.(row) now db = (db', Ok u) →
  ∃ w', is_at db ident w' db' ∧ rtc (stmt token) w w' ∧ (suspended_ok w → suspended_ok w').
Proof.
  intros Hw Hid Hs Hrun. pose proof (at_start _ _ _ Hw) as Hat. unfold pause in Hrun. rewrite Hid in Hrun.
  assert (Hup : ∀ d, execute ident (update_instance true
      (λ i, {| i with state := WPaused; next_run_at_ms := None; updated_at_ms := now |})) db = (d, Ok u) →
    ∃ w', is_at db ident w' d ∧ rtc (stmt token) w w' ∧ (suspended_ok w → suspended_ok w')).
  { intros d Hx. eapply (execute_row_at token _ _ _ now) in Hx as (w' & ? & ? & ?); [|exact Hat|by apply rc_paused|done].
    exists w'. split_and!; try done. by apply rtc_once. }
  destruct (state (row w)) eqn:Hst; try (by run_inv); try by eauto.
  - destruct (pause_requested (row w)); run_inv; [by exists w|]. exec Hat as w' Hup' Hat'. exists w'. split_and!; [done| |].
    + apply rtc_once. eapply st_row; [|done]. by apply rc_pausing.
    + apply update_instance_Some in Hup' as [_ ->]. intros _ E. cbn in E. congruence.
  - run_inv. by exists w.
Qed.

Lemma terminate_at token ident w now db db' u :
  db.(workflows) !! ident = Some w → w.(row).(identity).(instance_id) = ident → safe now →
  terminate w.(row) now db = (db', Ok u) →
  ∃ w', is_at db ident w' db' ∧ rtc (stmt token) w w' ∧ suspended_ok w'.
Proof.
  intros Hw Hid Hs Hrun. unfold terminate in Hrun. rewrite Hid in Hrun. run_inv.
  match goal with Hx : expires_at _ _ _ = Ok _ |- _ => apply expires_safe in Hx as He end.
  match goal with Hx : cancel_unfinished _ _ _ = _ |- _ =>
    destruct (cancel_at token _ _ _ _ _ _ _ (at_start _ _ _ Hw) Hs Hx) as (w1 & Hat1 & Hr1 & _) end.
  eapply (execute_row_at token _ _ _ now) in Hrun as (w' & ? & ? & ?); [|exact Hat1|by apply rc_terminated|done].
  exists w'. split_and!; try done. by eapply rtc_r.
Qed.

Lemma modify_workflow_moved ident action now limits db db' u :
  all_ok db → clock now → modify_workflow ident action now limits db = (db', Ok u) →
  moved None ident.(instance_id) db db'.
Proof.
  intros Hall Hnow Hrun. pose proof (clock_safe _ Hnow) as Hs. unfold modify_workflow in Hrun. run_inv.
  match goal with Hx : select_instance _ _ _ = _ |- _ => subst; apply select_present in Hx as [-> (w & Hw & -> & _)] end.
  destruct (Hall _ _ Hw) as [Hok Hid].
  match goal with Hx : match action with _ => _ end _ = (?d, _) |- _ =>
    assert (∃ w', is_at db (instance_id ident) w' d ∧ rtc (stmt None) w w' ∧ (suspended_ok w → suspended_ok w')) as (w' & ? & ? & ?)
  end.
  { destruct action; [by eapply pause_at| |].
    - match goal with Hx : resume _ _ _ _ = _ |- _ => eapply (resume_at None) in Hx as (w' & ? & ? & ?); [|done..] end.
      by exists w'.
    - match goal with Hx : terminate _ _ _ = _ |- _ => eapply (terminate_at None) in Hx as (w' & ? & ? & ?); [|done..] end.
      by exists w'. }
  by exists w, w'.
Qed.
Lemma modify_workflow_at ident action now limits db db' u :
  all_ok db → clock now → modify_workflow ident action now limits db = (db', Ok u) → evolved None db db'.
Proof. intros Hall Hnow Hrun. by eapply moved_evolved, modify_workflow_moved. Qed.

(** ** Due deadlines and events *)

Lemma wake_at token db0 id now w db db' u :
  is_at db0 id w db → safe now → wake id now db = (db', Ok u) →
  ∃ w', is_at db0 id w' db' ∧ rtc (stmt token) w w' ∧ suspended_ok w'.
Proof.
  intros Hat Hs Hrun. unfold wake in Hrun. run_inv.
  destruct (execute_on_at _ _ _ _ _ _ _ _ Hat Hm) as [(_ & _ & w' & Hup & Hat')|(Hn & _ & ?)].
  - exists w'. split_and!; [done| |by eapply row_suspended]. apply rtc_once. eapply st_row; [|done]. by apply rc_woken.
  - exists w. split_and!; [done..|by intros ?].
Qed.

(** A settled wait wakes the instance; a suspended one changes nothing. *)
Lemma settle_wake_at token db0 id i s now limits w db db1 db' r u :
  wf_ok w → is_at db0 id w db → i.(identity).(instance_id) = id →
  w.(steps) !! Z.to_nat s.(descriptor).(ordinal) = Some s → s.(s_state) = SWaiting → safe now →
  settle i s now limits db = (db1, Ok r) → (if suspended r then mret () else wake id now) db1 = (db', Ok u) →
  ∃ w', is_at db0 id w' db' ∧ rtc (stmt token) w w' ∧ (suspended_ok w → suspended_ok w').
Proof.
  intros Hok Hat Hid Hown Hst Hs Hset Hrun.
  assert (Hk : s_kind s ≠ KDo) by by apply (Forall_lookup_1 _ _ _ _ (ok_steps _ Hok) Hown).
  destruct (settle_at token _ _ _ _ _ _ _ _ _ _ Hat Hid Hown Hst Hk Hs Hset) as (w1 & Hat1 & Hw1). revert Hw1 Hrun.
  destruct (suspended r).
  - intros -> Hrun. run_inv. by exists w.
  - intros Hw1 Hrun. destruct (wake_at token _ _ _ _ _ _ _ Hat1 Hs Hrun) as (w' & ? & ? & ?).
    exists w'. split_and!; try done. by eapply rtc_l.
Qed.

Lemma maintain_one_at p now limits db db' u :
  all_ok db → clock now → maintain_one now limits p db = (db', Ok u) → evolved None db db'.
Proof.
  intros Hall Hnow Hrun. pose proof (clock_safe _ Hnow) as Hs. destruct p as [id o]. cbn in Hrun.
  apply bind_run in Hrun as (d1 & q & Hq & Hrun). apply bind_run in Hrun as (d2 & i & Hi & Hrun).
  apply some_or_run in Hi as [-> ->]. apply select_present in Hq as [-> (w & Hw & -> & _)].
  destruct (Hall _ _ Hw) as [Hok Hid]. pose proof (at_start _ _ _ Hw) as Hat.
  apply bind_run in Hrun as (d3 & r & Hr & Hrun). apply bind_run in Hrun as (d4 & s & Hso & Hrun).
  apply some_or_run in Hso as [-> ->]. destruct (read_step_at _ _ _ _ _ _ _ Hat Hr) as (-> & Hlk & _). symmetry in Hlk.
  pose proof (ok_own _ _ _ Hok Hlk) as Hown. apply bind_run in Hrun as (d5 & ready & Hready & Hrun).
  apply (moved_evolved _ id).
  enough (∃ w', is_at db id w' db' ∧ rtc (stmt None) w w' ∧ (suspended_ok w → suspended_ok w')) as (w' & ? & ? & ?) by by exists w, w'.
  destruct (s_state s) eqn:Hst; run_inv; subst; cbn in Hrun.
  - destruct (step_timeout_at None _ _ _ _ _ _ _ _ Hat Hown Hs Hm) as (w1 & f & Hat1 & Hs1 & Hup & _).
    destruct (negb (suspended a)).
    + destruct (wake_at None _ _ _ _ _ _ _ Hat1 Hs Hrun) as (w' & ? & ? & ?). exists w'. split_and!; try done. by eapply rtc_l.
    + run_inv. exists w1. split_and!; [done|by apply rtc_once|]. intros _ E.
      destruct (update_step_row _ _ _ _ Hup) as [[ac Hrow] _]. rewrite Hrow in E. cbn in E.
      by destruct (Forall_lookup_1 _ _ _ _ (h_waiting _ (ok_history _ Hok) E) Hown).
  - destruct (wake_at None _ _ _ _ _ _ _ Hat Hs Hrun) as (w' & ? & ? & ?). by exists w'.
  - destruct (wake_at None _ _ _ _ _ _ _ Hat Hs Hrun) as (w' & ? & ? & ?). by exists w'.
  - eapply settle_wake_at; try done. by destruct (suspended a).
Qed.

Lemma maintain_workflow_due_at now limits limit db db' r :
  all_ok db → clock now → maintain_workflow_due now limits limit db = (db', Ok r) → evolved None db db'.
Proof.
  intros Hall Hnow Hrun. unfold maintain_workflow_due in Hrun. run_inv; subst.
  all: match goal with Hx : for_each _ _ _ = _ |- _ =>
    eapply (for_each_evolved None) in Hx; [exact Hx|done|]; intros; by eapply maintain_one_at end.
Qed.

Lemma send_workflow_event_at ident op t payload now limits db db' u :
  all_ok db → send_workflow_event ident op t payload now limits db = (db', Ok u) → evolved None db db'.
Proof.
  intros Hall Hrun. unfold send_workflow_event in Hrun. run_inv.
  destruct (receipts db !! op) as [rc|] eqn:Hrc; subst; run_inv; [by apply evolved_refl|].
  subst a2. apply select_present in Hm as [-> (w & Hw & -> & _)]. destruct (Hall _ _ Hw) as [Hok Hid].
  pose proof (at_start _ _ _ Hw) as Hat. reads Hat. apply durable_deadline_Ok in Hr2 as [-> Hs]. rewrite Z.add_0_r in Hs.
  set (n := Z.max now (updated_at_ms (row w))) in *. apply durable_value_Ok in Hr as [-> Hval]. destruct a0.
  assert (Hat6 : is_at db (instance_id ident) w s6) by by subst s6. clear Hm6.
  match goal with Hx : execute _ (insert_event _) _ = _ |- _ =>
    destruct (execute_at _ _ _ _ _ _ _ Hat6 Hx) as (w1 & Hin & Hat1) end.
  match goal with Hx : execute _ (update_instance _ _) _ = _ |- _ =>
    destruct (execute_at _ _ _ _ _ _ _ Hat1 Hx) as (w2 & Hup & Hat2) end.
  assert (Hr2 : rtc (stmt None) w w2).
  { eapply rtc_l; [eapply st_event; [..|exact Hin]; done|]. apply rtc_once. eapply st_row; [|exact Hup]. by apply rc_touched. }
  assert (Hsus : suspended_ok w → suspended_ok w2).
  { apply update_instance_Some in Hup as [_ ->]. unfold insert_event in Hin. case_decide; [|done].
    by apply account_Some in Hin as (-> & _). }
  pose proof (stmts_keep _ _ _ Hok Hr2) as Hok2.
  match goal with Hx : steps_of _ _ = _ |- _ => destruct (steps_of_at _ _ _ _ _ _ Hat2 Hx) as [-> ->] end.
  enough (∃ w', is_at db (instance_id ident) w' s10 ∧ rtc (stmt None) w2 w' ∧ (suspended_ok w2 → suspended_ok w'))
    as (w' & ? & ? & ?).
  { apply (moved_evolved _ (instance_id ident)). subst db'. exists w, w'. split_and!; [done|done|by etrans|auto]. }
  match goal with Hx : match head ?l with _ => _ end _ = _ |- _ => destruct (head l) as [q|] eqn:Hh end; run_inv; [|by exists w2].
  apply head_Some_elem_of, list_elem_of_filter in Hh as [[Hqs _] [k Hq]%list_elem_of_lookup].
  match goal with Hx : read_step _ _ _ = _ |- _ => destruct (read_step_at _ _ _ _ _ _ _ Hat2 Hx) as (-> & Hlk & _) end.
  rewrite (ok_own _ _ _ Hok2 Hq) in Hlk. simplify_eq.
  eapply settle_wake_at; try done. by eapply ok_own.
Qed.
End moves.
