(* ===== verification/WorkflowReach.v ===== *)
(** * Reachable workflow stores

    Creation, restart, purge and the sweep of receipts complete the operations of the
    store.  A call is one operation with its arguments; the stores reached from an empty
    one by calls hold only valid instances. *)

From stdpp Require Import base numbers list option strings sorting gmap.
From S2P Require Import Prelude Text ErrorCodes Duration RetryPolicy WorkflowTypes Sql WorkflowDb WorkflowRuns WorkflowSteps WorkflowBatch WorkflowHistory WorkflowLifecycle WorkflowOperations WorkflowSpec WorkflowVerify WorkflowStmt WorkflowEvolve WorkflowMoves.

Local Open Scope Z_scope.

Section reach.
Context `{Codec}.

(** ** Creation *)

Lemma fresh_ok db id input r :
  insert_ok db (fresh_instance id input r) → WorkflowRetention_validate r = Ok () → safe id.(created_at_ms) →
  version_digest id.(target) = Ok id.(target).(descriptor_sha256) → valid_value input = true →
  wf_ok {| row := fresh_instance id input r; steps := []; events := [] |}.
Proof.
  intros (_ & _ & _ & _ & _ & Hc & Hg) Hr Hs Hd Hv. split; try done. split; cbn; try done.
  - split_and!; try done. by destruct Hc as (_ & _ & _ & _ & _ & _ & _ & _ & _ & Hcap & _).
  - unfold accounting. cbn. by rewrite !Z.add_0_r.
  - intros [?|?]; done.
  - by rewrite Exists_nil.
  - repeat constructor; done.
Qed.

Lemma prepare_Ok r p :
  prepare r = Ok p → WorkflowRetention_validate p.2 = Ok () ∧ safe p.1.1.(created_at_ms) ∧
    version_digest p.1.1.(target) = Ok p.1.1.(target).(descriptor_sha256) ∧ valid_value p.1.2 = true.
Proof.
  destruct r as [[id input] ret]. unfold prepare. intros Hp. destruct_result. simplify_eq.
  destruct a0, a1, a6. apply durable_value_Ok in Hm3 as [-> ?]. unfold bail_if in *. cbn.
  repeat case_decide; try done. split_and!; try done. rewrite Hm5. by rewrite H1.
Qed.
Lemma prepare_all_Ok rs ps : prepare_all rs = Ok ps → Forall (λ p, ∃ r, prepare r = Ok p) ps.
Proof.
  revert ps. induction rs as [|r rs IH]; intros ps Hp; cbn in Hp; [by simplify_eq|]. destruct_result. simplify_eq.
  constructor; eauto.
Qed.

(** ** Operations on whole instances *)

(** A valid store: its instances are valid under their own identity, and a suspended one
    has a deadline. *)
Definition store_ok (db : WorkflowDb) : Prop :=
  all_ok db ∧ map_Forall (λ _ w, suspended_ok w) db.(workflows).

Lemma evolved_store token db db' : store_ok db → evolved token db db' → store_ok db'.
Proof.
  intros [Hall Hsus] He. split; [by eapply evolved_ok|]. intros id w' Hw'. specialize (He id).
  destruct (workflows db !! id) as [w|] eqn:Hw; [|congruence]. destruct He as (w2 & E & _ & Hs). simplify_eq.
  by apply Hs, (Hsus id).
Qed.

Lemma store_ok_insert db id w :
  store_ok db → wf_ok w → w.(row).(identity).(instance_id) = id → suspended_ok w → store_ok (set_workflow id w db).
Proof.
  intros [Hall Hsus] Hok Hid Hs. split.
  - intros id' w' Hw'. cbn in Hw'. apply lookup_insert_Some in Hw' as [[<- <-]|[_ Hw']]; [done|by apply Hall].
  - cbn. by apply map_Forall_insert_2.
Qed.

Lemma store_ok_same db db' : db'.(workflows) = db.(workflows) → store_ok db → store_ok db'.
Proof. intros He [Hall Hsus]. split; [intros id w|]; rewrite He; [apply Hall|done]. Qed.

(** Creation keeps every instance and adds fresh ones. *)
Definition created (db db' : WorkflowDb) : Prop :=
  (∀ id w, db.(workflows) !! id = Some w → db'.(workflows) !! id = Some w) ∧
  ∀ id w, db'.(workflows) !! id = Some w →
    db.(workflows) !! id = Some w ∨
    ∃ i input r, w = {| row := fresh_instance i input r; steps := []; events := [] |}.

Lemma insert_workflows_ok rs limits db db' u :
  store_ok db → insert_workflows rs limits db = (db', Ok u) → store_ok db' ∧ created db db'.
Proof.
  intros Hst Hrun. unfold insert_workflows in Hrun. run_inv; [split; [done|by split; auto]|].
  match goal with Hx : for_each _ _ ?d = _ |- _ =>
    assert (d = db) as -> end.
  { match goal with Hx : capacity _ _ _ _ _ = _ |- _ => apply pure_run in Hx; [done|unfold capacity] end.
    apply pure_bind; [apply pure_gets|]. intros []. auto with tx. }
  match goal with Hx : prepare_all _ = Ok _ |- _ => apply prepare_all_Ok in Hx as Hps end.
  match goal with Hx : for_each _ _ _ = _ |- _ =>
    eapply (for_each_inv (λ s, store_ok s ∧ created db s)) in Hx; [exact Hx| |split; [done|split; auto]] end.
  intros p s1 s2 y Hp [Hs1 [Hk Hnew]] Hx. rewrite Forall_forall in Hps. destruct (Hps p Hp) as [rq Hrq].
  apply prepare_Ok in Hrq as (H1 & H2 & H3 & H4). unfold insert_instance in Hx. case_decide as Hin; [|done]. simplify_eq.
  split; [|split].
  - apply store_ok_insert; [done|by eapply fresh_ok|done|done].
  - intros id w Hw. cbn. destruct Hin as (Hnone & _). cbn in Hnone. rewrite lookup_insert_ne; [by apply Hk|].
    intros <-. by rewrite (Hk _ _ Hw) in Hnone.
  - intros id w Hw. cbn in Hw. apply lookup_insert_Some in Hw as [[_ <-]|[_ Hw]]; [|by apply Hnew]. right. eauto.
Qed.
(** ** Restart and purge *)

(** The constraints on the rows of an instance. *)
Definition rows_ok (id : N) (w : Workflow) : Prop :=
  instance_check w.(row) ∧ Forall step_check w.(steps) ∧
  Forall (λ s, unsigned s.(descriptor).(config)) w.(steps) ∧ w.(row).(identity).(instance_id) = id.

Lemma insert_retained_rows id c t s w w' :
  rows_ok id w → unsigned s.(descriptor).(config) → insert_retained c t s w = Some w' → rows_ok id w'.
Proof.
  intros (_ & Hs & Hu & Hid) Hus Hr. unfold insert_retained in Hr. case_decide as Hg; [|done].
  apply account_Some in Hr as (-> & Hc & _). split_and!; try done; apply Forall_app; (split; [done|]);
    apply Forall_singleton; [apply Hg|done].
Qed.

Lemma retained_descriptor t n now s : (retained_step t n now s).(descriptor) = s.(descriptor).
Proof. unfold retained_step. by case_decide. Qed.

Lemma retain_rows id c t n now ss w w' :
  rows_ok id w → Forall (λ s, unsigned s.(descriptor).(config)) ss →
  foldl (λ acc s, w ← acc; insert_retained c t (retained_step t n now s) w) (Some w) ss = Some w' → rows_ok id w'.
Proof.
  revert w. induction ss as [|s ss IH]; intros w Hw Hu Hf; cbn in Hf; [by simplify_eq|].
  inversion_clear Hu as [|? ? Hus Hu']. destruct (insert_retained _ _ _ w) as [w1|] eqn:Hr; [|by rewrite foldl_None in Hf].
  eapply IH; [|done..]. eapply insert_retained_rows; [done| |done]. by rewrite retained_descriptor.
Qed.

Lemma restart_rows_ok op j now w w' :
  wf_ok w → restart_rows op j now w = Some w' → rows_ok w.(row).(identity).(instance_id) w'.
Proof.
  intros Hok Hr. unfold restart_rows in Hr. do 2 (case_decide; [|done]). eapply retain_rows; [|by apply Forall_take, Hok|done].
  split_and!; try done. tauto.
Qed.

Lemma verified_ok w id : rows_ok id w → verify_row w = Ok () → wf_ok w ∧ suspended_ok w.
Proof.
  intros (Hc & Hs & Hu & _) Hv. apply verify_row_iff in Hv as [Hh [Hsus _]]; [|done..]. done.
Qed.

Lemma read_decision_pure op : pure (read_decision op).
Proof.
  unfold read_decision, verify_one. apply pure_bind; [apply pure_gets|]. intros [p|]; [|apply pure_ret].
  case_decide; [apply pure_ret|]. destruct (p_error_code p), (op_kind op); auto 20 using select_pure with tx.
Qed.

Lemma upsert_unmoved id p db db' u : upsert_progress id p db = (db', Ok u) → unmoved db db'.
Proof. unfold upsert_progress. case_decide; intros ?; by simplify_eq. Qed.

Lemma decide_unmoved op t c now db db' r : decide_operation op t c now db = (db', Ok r) → unmoved db db'.
Proof.
  unfold decide_operation. intros Hrun. run_inv.
  match goal with Hx : read_decision _ _ = _ |- _ => apply (pure_run _ _ _ _ (read_decision_pure _)) in Hx end.
  subst. by eapply upsert_unmoved.
Qed.

Lemma admit_pure w op now limits : pure (admit_operation w op now limits).
Proof.
  intros db. unfold admit_operation. destruct (op_kind op); [|by destruct (is_terminal _)].
  case_decide; [done|]. destruct (restart_projection w op) as [j|]; [|done].
  assert (Hp : pure (restart_capacity w j limits)).
  { unfold restart_capacity. auto using capacity_change_pure with tx. }
  specialize (Hp db). by destruct (restart_capacity w j limits db) as [? []].
Qed.

Lemma verify_history_run id db db' u :
  verify_workflow_history id db = (db', Ok u) → db' = db ∧ ∃ w, db.(workflows) !! id = Some w ∧ verify_row w = Ok ().
Proof. unfold verify_workflow_history. intros Hrun. run_inv. destruct u. naive_solver. Qed.

Lemma instance_row_Ok w i : instance_row w = Ok i → i = w.(row).
Proof. unfold instance_row, bail_if. case_decide; [done|]. cbn. intros ?. by simplify_eq. Qed.

Lemma admit_kind w op now limits db db' o :
  admit_operation w op now limits db = (db', Ok (inl o)) →
  match o with Some _ => op.(op_kind) = Restart | None => op.(op_kind) = Purge end.
Proof.
  unfold admit_operation. destruct (op_kind op); [case_decide; [done|]|destruct (is_terminal _); intros [=]; by subst].
  destruct (restart_projection w op); [|done]. destruct (restart_capacity _ _ _ _) as [? []]; intros [=]; by subst.
Qed.

(** What applying an operation does to the instances. *)
Inductive op_effect (op : WorkflowOperation) (now : Z) (db db' : WorkflowDb) : Prop :=
| oe_none : unmoved db db' → op_effect op now db db'
| oe_restart j w w' :
    op.(op_kind) = Restart → db.(workflows) !! op.(op_identity).(instance_id) = Some w → w.(row).(identity) = op.(op_identity) →
    verify_row w = Ok () → restart_rows op j now w = Some w' → verify_row w' = Ok () →
    db'.(workflows) = <[op.(op_identity).(instance_id) := w']> db.(workflows) → op_effect op now db db'
| oe_purge w :
    op.(op_kind) = Purge → db.(workflows) !! op.(op_identity).(instance_id) = Some w → w.(row).(identity) = op.(op_identity) →
    is_terminal w.(row).(state) = true →
    db'.(workflows) = delete op.(op_identity).(instance_id) db.(workflows) → op_effect op now db db'.

Lemma apply_operation_at op now limits db db' r :
  apply_workflow_operation op now limits db = (db', Ok r) → op_effect op now db db'.
Proof.
  intros Hrun. unfold apply_workflow_operation in Hrun. run_inv.
  match goal with Hx : read_decision _ _ = _ |- _ => apply (pure_run _ _ _ _ (read_decision_pure _)) in Hx as -> end.
  destruct a1; [run_inv; by constructor|]. run_inv. subst.
  match goal with Hx : verify_workflow_history _ _ = _ |- _ => apply verify_history_run in Hx as [-> (w0 & Hw & Hv)] end.
  match goal with Hx : admit_operation _ _ _ _ _ = (_, Ok ?o) |- _ =>
    assert (Hk : ∀ q, o = inl q → match q with Some _ => op.(op_kind) = Restart | None => op.(op_kind) = Purge end)
      by (intros q ->; by eapply admit_kind) end.
  match goal with Hx : admit_operation _ _ _ _ _ = _ |- _ => apply (pure_run _ _ _ _ (admit_pure _ _ _ _)) in Hx as -> end.
  match goal with Hx : instance_row ?x = Ok _ |- _ => rename x into w; apply instance_row_Ok in Hx as -> end.
  assert (w0 = w) as -> by congruence.
  assert (Hid : identity (row w) = op_identity op) by (destruct (decide (identity (row w) = op_identity op)); tauto).
  match goal with x : _ + ErrorCode |- _ => destruct x as [[j|]|c] end; run_inv.
  - match goal with Hx : decide_operation _ _ _ _ _ = _ |- _ => apply decide_unmoved in Hx as Hu end.
    match goal with Hx : verify_workflow_history _ _ = _ |- _ => apply verify_history_run in Hx as [-> (w' & Hw' & Hv')] end.
    match goal with Hx : execute _ _ _ = _ |- _ => eapply execute_at in Hx as (n & Hr' & Hat); [|by apply at_start] end.
    rewrite (at_lookup _ _ _ _ Hat) in Hw'. simplify_eq. specialize (Hk _ eq_refl). eapply oe_restart; try done. cbn. by rewrite Hu, Hat.
  - match goal with Hx : decide_operation _ _ _ _ _ = _ |- _ => apply decide_unmoved in Hx as Hu end.
    match goal with Hx : purge_rows _ _ _ = _ |- _ => unfold purge_rows in Hx; rewrite Hw in Hx;
      case_decide as Hg'; [|done] end. simplify_eq. specialize (Hk _ eq_refl). eapply oe_purge; try done. tauto.
  - match goal with Hx : decide_operation _ _ _ _ _ = _ |- _ => apply decide_unmoved in Hx as Hu end. by constructor.
Qed.

Lemma op_effect_store op now db db' : store_ok db → op_effect op now db db' → store_ok db'.
Proof.
  intros Hst [Hu|j w w' _ Hw Hid _ Hr Hv He|w _ Hw _ _ He]; [by eapply store_ok_same| |].
  - destruct (proj1 Hst _ _ Hw) as [Hok _]. pose proof (restart_rows_ok _ _ _ _ _ Hok Hr) as Hn.
    destruct (verified_ok _ _ Hn Hv). apply (store_ok_same (set_workflow (instance_id (op_identity op)) w' db)); [done|].
    apply store_ok_insert; try done. rewrite <- Hid. apply Hn.
  - destruct Hst as [Hall Hsus]. split; [|rewrite He; by apply map_Forall_delete].
    intros id w' Hw'. rewrite He in Hw'. apply lookup_delete_Some in Hw' as [_ Hw']. by apply Hall.
Qed.

(** ** Calls *)

(** The operations of the store, with their arguments; reads are left out. *)
Inductive Call : Type :=
| CallInsert (rs : list (WorkflowInstanceIdentity * ustr * option WorkflowRetention)) (limits : WorkflowsConfig)
| CallClaim (id : WorkflowInstanceIdentity) (rng : option WorkflowToken) (now : Z) (limits : WorkflowsConfig)
| CallDefer (id : N) (now : Z) (limits : WorkflowsConfig)
| CallHeartbeat (f : WorkflowFence) (now : Z) (limits : WorkflowsConfig)
| CallYield (f : WorkflowFence) (now : Z)
| CallRecover (now : Z) (limits : WorkflowsConfig) (limit : Z)
| CallFinish (f : WorkflowFence) (completion : WorkflowCompletion) (now : Z) (limits : WorkflowsConfig)
| CallBatch (f : WorkflowFence) (ds : list WorkflowStepDescriptor) (rng : Z → option WorkflowToken)
    (remaining now : Z) (limits : WorkflowsConfig)
| CallSettle (f : WorkflowFence) (a : WorkflowStepAttempt) (outcome : WorkflowStepOutcome) (now : Z)
    (limits : WorkflowsConfig)
| CallResolve (f : WorkflowFence) (o a : Z) (resolution : WorkflowDelayResolution) (now : Z) (limits : WorkflowsConfig)
| CallEvent (id : WorkflowInstanceIdentity) (operation : N) (t payload : ustr) (now : Z) (limits : WorkflowsConfig)
| CallMaintain (now : Z) (limits : WorkflowsConfig) (limit : Z)
| CallRollback (id : WorkflowInstanceIdentity) (now : Z) (limits : WorkflowsConfig)
| CallModify (id : WorkflowInstanceIdentity) (action : WorkflowInstanceAction) (now : Z) (limits : WorkflowsConfig)
| CallApply (op : WorkflowOperation) (now : Z) (limits : WorkflowsConfig)
| CallSweep (id : N) (receipt : GcReceipt) (sequence : Z).

Definition exec (c : Call) : WM unit :=
  match c with
  | CallInsert rs limits => insert_workflows rs limits
  | CallClaim id rng now limits => _ ← claim_workflow id rng now limits; mret ()
  | CallDefer id now limits => defer_workflow id now limits
  | CallHeartbeat f now limits => heartbeat_workflow f now limits
  | CallYield f now => _ ← yield_workflow f now; mret ()
  | CallRecover now limits limit => _ ← recover_workflows now limits limit; mret ()
  | CallFinish f completion now limits => _ ← finish_workflow f completion now limits; mret ()
  | CallBatch f ds rng remaining now limits => _ ← claim_workflow_batch f ds rng remaining now limits; mret ()
  | CallSettle f a outcome now limits => _ ← settle_workflow_step f a outcome now limits; mret ()
  | CallResolve f o a r now limits => _ ← resolve_workflow_delay f o a r now limits; mret ()
  | CallEvent id operation t payload now limits => send_workflow_event id operation t payload now limits
  | CallMaintain now limits limit => _ ← maintain_workflow_due now limits limit; mret ()
  | CallRollback id now limits => request_workflow_rollback id now limits
  | CallModify id action now limits => modify_workflow id action now limits
  | CallApply op now limits => _ ← apply_workflow_operation op now limits; mret ()
  | CallSweep id receipt sequence => sweep_workflow_gc id receipt sequence
  end.

(** What the callers keep: a clock within the range the deadlines leave, limits of the
    unsigned types of the configuration, and the descriptors the worker protocol builds. *)
Definition call_ok (c : Call) : Prop :=
  match c with
  | CallClaim _ _ now l | CallDefer _ now l | CallHeartbeat _ now l | CallRecover now l _
  | CallSettle _ _ _ now l | CallResolve _ _ _ _ now l => clock now ∧ limits_unsigned l
  | CallBatch _ ds _ _ now l => clock now ∧ limits_unsigned l ∧ batch_typed ds
  | CallYield _ now | CallFinish _ _ now _ | CallMaintain now _ _ | CallRollback _ now _ | CallModify _ _ now _ =>
      clock now
  | _ => True
  end.

(** The run token a call may hand out. *)
Definition draws (c : Call) : option WorkflowToken := match c with CallClaim _ rng _ _ => rng | _ => None end.

Lemma atomic_ignore {A} (m : WM A) : atomic m → atomic (_ ← m; mret ()).
Proof. intros Hm. by apply atomic_bind_total; [|auto with tx]. Qed.

Lemma execute_on_fails id (P : Workflow → Prop) `{!∀ w, Decision (P w)} f db db' r :
  execute_on id P f db = (db', r) → r ≠ Ok 1 → db' = db.
Proof. unfold execute_on. destruct (workflows db !! id); repeat case_decide; try destruct (f _); naive_solver. Qed.

Lemma heartbeat_atomic f now limits : atomic (heartbeat_workflow f now limits).
Proof.
  unfold heartbeat_workflow, heartbeat. do 2 (apply atomic_bind_pure; [auto with tx|intros ?]).
  intros db db' e. unfold mbind, M_bind. destruct (execute_on _ _ _ db) as [s1 [n|x]] eqn:Hx.
  - unfold throw_if, lift, bail_if. case_decide as Hn; cbn; intros ?; simplify_eq.
    eapply execute_on_fails; [done|]. by intros [= ->].
  - intros ?. simplify_eq. by eapply execute_on_fails.
Qed.

(** A call that fails leaves the store. *)
Lemma exec_atomic c : atomic (exec c).
Proof.
  destruct c; cbn; try apply atomic_ignore; try apply atomic_transaction; try apply heartbeat_atomic.
  unfold defer_workflow. do 2 (apply atomic_bind_pure; [auto with tx|intros ?]).
  apply atomic_ignore. intros db db' e Hrun. by eapply execute_on_fails.
Qed.

(** ** Effects of calls *)

Inductive effect (c : Call) (db db' : WorkflowDb) : Prop :=
| ef_evolved : evolved (draws c) db db' → effect c db db'
| ef_created rs limits :
    c = CallInsert rs limits → created db db' → effect c db db'
| ef_operation op now limits : c = CallApply op now limits → op_effect op now db db' → effect c db db'.

Lemma sweep_unmoved id g n db db' u : sweep_workflow_gc id g n db = (db', Ok u) → unmoved db db'.
Proof.
  intros Hrun. unfold sweep_workflow_gc in Hrun. run_inv.
  assert (Hp : pure (read_receipt id)).
  { unfold read_receipt. apply pure_bind; [apply pure_gets|]. intros [g'|]; auto with tx. }
  match goal with Hx : read_receipt _ _ = _ |- _ => apply (pure_run _ _ _ _ Hp) in Hx as -> end.
  destruct a; run_inv; by subst.
Qed.

Lemma exec_effect c db db' u :
  store_ok db → call_ok c → exec c db = (db', Ok u) → store_ok db' ∧ effect c db db'.
Proof.
  intros Hst Hok Hrun. assert (Hall := proj1 Hst).
  assert (Hev : evolved (draws c) db db' → store_ok db' ∧ effect c db db').
  { intros He. split; [by eapply evolved_store|by apply ef_evolved]. }
  destruct c; cbn in Hok, Hrun; [|apply Hev|apply Hev|apply Hev|apply Hev|apply Hev|apply Hev|apply Hev|apply Hev|
    apply Hev|apply Hev|apply Hev|apply Hev|apply Hev| |apply Hev]; clear Hev;
    try (apply bind_run in Hrun as (d & r & Hrun & Hret); apply ret_run in Hret as [-> _]); cbn.
  - destruct (insert_workflows_ok _ _ _ _ _ Hst Hrun) as [? ?]. split; [done|]. by eapply ef_created.
  - destruct Hok. destruct (claim_workflow_at _ _ _ _ _ _ _ Hall ltac:(done) ltac:(done) Hrun);
      [by apply unmoved_evolved|by eapply moved_evolved].
  - destruct Hok. destruct (defer_workflow_at _ _ _ _ _ _ ltac:(done) ltac:(done) Hrun);
      [by apply unmoved_evolved|by eapply moved_evolved].
  - destruct Hok. by eapply moved_evolved, heartbeat_workflow_at.
  - by eapply moved_evolved, yield_workflow_at.
  - destruct Hok. by eapply recover_workflows_at.
  - by eapply moved_evolved, finish_workflow_at.
  - destruct Hok as (? & ? & ?). by eapply moved_evolved, fenced_moved, claim_workflow_batch_at.
  - destruct Hok. by eapply moved_evolved, fenced_moved, settle_workflow_step_at.
  - destruct Hok. by eapply moved_evolved, fenced_moved, resolve_workflow_delay_at.
  - by eapply send_workflow_event_at.
  - by eapply maintain_workflow_due_at.
  - by eapply request_workflow_rollback_at.
  - by eapply modify_workflow_at.
  - pose proof (apply_operation_at _ _ _ _ _ _ Hrun). split; [by eapply op_effect_store|by eapply ef_operation].
  - by eapply unmoved_evolved, sweep_unmoved.
Qed.

(** ** Reachability *)

Definition empty_store (o : N) : WorkflowDb :=
  {| owner := o; workflows := ∅; receipts := ∅; progress := ∅; gc_receipts := ∅; wf_wake := 0 |}.

Inductive reachable (o : N) : WorkflowDb → Prop :=
| reach_empty : reachable o (empty_store o)
| reach_call db c : reachable o db → call_ok c → reachable o (exec c db).1.

Lemma exec_store c db : store_ok db → call_ok c → store_ok (exec c db).1.
Proof.
  intros Hst Hok. destruct (exec c db) as [db' [u|e]] eqn:Hrun; cbn; [by eapply exec_effect|].
  by rewrite (exec_atomic c _ _ _ Hrun).
Qed.

Lemma reachable_ok o db : reachable o db → store_ok db.
Proof.
  induction 1; [|by apply exec_store]. split; [intros id w; cbn; by rewrite lookup_empty|apply map_Forall_empty].
Qed.
End reach.
