(* ===== verification/WorkflowProps.v ===== *)
(** * Properties of the workflow store

    What every reachable store satisfies: histories verify, the doctor finds nothing,
    settled work never changes and a fence that was lost stays lost. *)

From stdpp Require Import base numbers list option strings sorting gmap.
From S2P Require Import Prelude Text ErrorCodes Duration RetryPolicy WorkflowTypes Sql WorkflowDb WorkflowRuns WorkflowSteps WorkflowBatch WorkflowHistory WorkflowLifecycle WorkflowOperations WorkflowSpec WorkflowVerify WorkflowStmt WorkflowEvolve WorkflowMoves WorkflowReach.

Local Open Scope Z_scope.

(** ** The doctor *)

Section doctor.
Context `{Codec}.

Lemma ok_not_invalid w : wf_ok w → suspended_ok w → ¬ invalid_row w.
Proof.
  intros Hok Hsus. pose proof (ok_history _ Hok) as Hh. pose proof (h_acct _ Hh) as Hac.
  assert (Hrun : ∀ k s, w.(steps) !! k = Some s → s.(s_state) = SRunning → owns w.(row) s.(s_run_token)).
  { intros k s Hk E. destruct (h_steps _ Hh _ _ Hk) as (_ & Hn & _). by apply (norm_running _ _ Hn). }
  unfold invalid_row. intros [?|[[E ?]|[[E Hx]|[[E Hx]|[[E [Hx|Hx]]|Hx]]]]].
  - done.
  - rewrite Hac in *. by apply (h_complete _ Hh) in E.
  - apply Exists_exists in Hx as (s & [k Hk]%list_elem_of_lookup & Es). by destruct (Hrun _ _ Hk Es).
  - apply (h_finished _ Hh) in E. rewrite Forall_forall in E.
    apply Exists_exists in Hx as (s & Hs & Es & _). by rewrite (E _ Hs) in Es.
  - rewrite Hac in Hx. cbn in Hx. destruct (Hsus E) as [? Hy]. congruence.
  - apply (h_waiting _ Hh) in E. rewrite Forall_forall in E.
    apply Exists_exists in Hx as (s & Hs & Es). destruct (E _ Hs). tauto.
  - apply Exists_exists in Hx as ([k s] & Hin & Hx). apply elem_of_lookup_imap in Hin as (k' & s' & [= <- <-] & Hk). cbn in Hx.
    destruct (h_steps _ Hh _ _ Hk) as ((_ & Ho & Hn & _) & _ & _).
    rewrite length_take_le in Ho by (apply lookup_lt_Some in Hk; lia).
    destruct Hx as [[E ?]|[?|Hc]]; [|done|by rewrite count_key in Hc].
    by destruct (Hrun _ _ Hk E).
Qed.

Lemma doctor_clean db : store_ok db → workflow_invalid_rows db = 0.
Proof.
  intros [Hall Hsus]. unfold workflow_invalid_rows.
  assert (filter (λ p : N * Workflow, invalid_row p.2) (map_to_list db.(workflows)) = []) as ->; [|done].
  apply elem_of_nil_inv. intros [id w] [Hi Hin%elem_of_map_to_list]%list_elem_of_filter. revert Hi.
  apply ok_not_invalid; [by eapply Hall|by eapply Hsus].
Qed.
End doctor.

(** ** What statements keep *)

(** An attempt that no callback may report on any more. *)
Definition attempt_over (a : Z) (s : Step) : Prop :=
  a < s.(attempt) ∨ (a = s.(attempt) ∧ s.(s_state) ≠ SPending ∧ s.(s_state) ≠ SRunning).

(** A later row of the same step: the descriptor and the registration stay, attempts only
    grow, the window of an attempt is fixed, an attempt that is over stays so, and a settled
    or cancelled step is final. *)
Definition keeps_step (s n : Step) : Prop :=
  n.(descriptor) = s.(descriptor) ∧ n.(started_at_ms) = s.(started_at_ms) ∧
  n.(event_buffer_ceiling) = s.(event_buffer_ceiling) ∧ s.(attempt) ≤ n.(attempt) ∧
  (n.(attempt) = s.(attempt) → n.(attempt_started_at_ms) = s.(attempt_started_at_ms) ∧
                               n.(attempt_deadline_at_ms) = s.(attempt_deadline_at_ms)) ∧
  (∀ a, attempt_over a s → attempt_over a n) ∧
  (unfinished s.(s_state) = false → n = s).

(** A later state of the same generation of an instance. *)
Definition keeps (w w' : Workflow) : Prop :=
  w'.(row).(identity) = w.(row).(identity) ∧ w'.(row).(input_json) = w.(row).(input_json) ∧
  w.(row).(next_event_seq) ≤ w'.(row).(next_event_seq) ∧
  (is_terminal w.(row).(state) = true → w' = w) ∧
  ∀ k s, w.(steps) !! k = Some s → ∃ n, w'.(steps) !! k = Some n ∧ keeps_step s n.

Lemma keeps_step_refl s : keeps_step s s.
Proof. by repeat split. Qed.
Lemma keeps_step_trans s n m : keeps_step s n → keeps_step n m → keeps_step s m.
Proof.
  intros (D1 & S1 & E1 & A1 & W1 & O1 & F1) (D2 & S2 & E2 & A2 & W2 & O2 & F2). split_and!; try congruence; [lia| |auto|].
  - intros E. destruct W1, W2; [lia..|]. split; congruence.
  - intros E. pose proof (F1 E). subst. auto.
Qed.
Lemma keeps_refl w : keeps w w.
Proof. split_and!; try done. intros k s Hk. exists s. split; [done|apply keeps_step_refl]. Qed.
Lemma keeps_trans w w1 w2 : keeps w w1 → keeps w1 w2 → keeps w w2.
Proof.
  intros (I1 & J1 & N1 & T1 & S1) (I2 & J2 & N2 & T2 & S2). split_and!; try congruence; [lia| |].
  - intros E. pose proof (T1 E). subst. auto.
  - intros k s Hk. destruct (S1 _ _ Hk) as (n & Hn & K1). destruct (S2 _ _ Hn) as (m & Hm & K2).
    exists m. split; [done|]. by eapply keeps_step_trans.
Qed.

Section keep.
Context `{Codec}.

Lemma accounted_keeps bump w ss es w' :
  accounted bump w ss es w' → 0 ≤ bump →
  (∀ k s, w.(steps) !! k = Some s → ∃ n, ss !! k = Some n ∧ keeps_step s n) → keeps w w'.
Proof. intros (-> & _ & Hl) Hb Hs. split_and!; try done; cbn; [lia|congruence]. Qed.

Lemma replaced_keeps (ss : list Step) o s n :
  ss !! o = Some s → keeps_step s n → ∀ k q, ss !! k = Some q → ∃ m, <[o := n]> ss !! k = Some m ∧ keeps_step q m.
Proof.
  intros Hs Hn k q Hk. destruct (decide (k = o)) as [->|Hne].
  - simplify_eq. exists n. split; [|done]. apply list_lookup_insert_eq. by eapply lookup_lt_Some.
  - exists q. split; [by rewrite list_lookup_insert_ne|apply keeps_step_refl].
Qed.

Lemma guarded_over w s n a : step_guards w s n → attempt_over a s → attempt_over a n.
Proof.
  intros (_ & Ha & Ht & _) [Hlt|(-> & Hp & Hr)].
  - left. destruct Ha as [(-> & _)|(_ & -> & _)]; lia.
  - destruct Ha as [(Ea & _)|(_ & E & _)]; [|left; lia].
    unfold step_transition in Ht. destruct (s_state s), (s_state n) eqn:En; try done; try (right; split; [done|by rewrite En]).
    destruct Ht as (_ & Ht & _). destruct (Ht eq_refl). lia.
Qed.

Lemma guarded_keeps w s n :
  step_guards w s n → n.(descriptor) = s.(descriptor) → n.(started_at_ms) = s.(started_at_ms) →
  n.(event_buffer_ceiling) = s.(event_buffer_ceiling) → keeps_step s n.
Proof.
  intros Hg Hd Hs He. pose proof Hg as (_ & Ha & Ht & _). split_and!; try done.
  - destruct Ha as [(-> & _)|(_ & -> & _)]; lia.
  - destruct Ha as [(_ & ? & ?)|(_ & E & _)]; [done|lia].
  - intros a. by apply guarded_over with w.
  - apply transition_open in Ht. congruence.
Qed.

Lemma delete_event_accounted seq w w' :
  delete_event seq w = Some w' → w' = w ∨ ∃ es, accounted 0 w w.(steps) es w'.
Proof.
  unfold delete_event. case_decide; [|naive_solver]. case_decide; [|done]. intros Ha%account_Some. eauto.
Qed.

Lemma stmt_keeps_history token w w' : stmt token w w' → keeps w w'.
Proof.
  intros [b f Hrc Hu|o s f Hs Hc Hu|o s t d e now w1 Hs _ _ _ _ _ Hu Hd|e _ _ _ Hi|now deps rb ns _ _ Hb Hi].
  - apply update_instance_Some in Hu as [Hg ->]. destruct Hrc. split_and!; cbn; try done; [lia| |].
    + destruct Hg as (_ & _ & _ & Hl & _). congruence.
    + intros k s Hk. exists s. split; [done|apply keeps_step_refl].
  - destruct (update_step_Some _ _ _ _ _ Hs Hu) as (Hg & _ & Ha). destruct (change_keeps_row _ _ Hc) as (? & ? & _ & ?).
    eapply accounted_keeps; [done..|]. apply (replaced_keeps _ _ s); [done|]. by eapply guarded_keeps.
  - destruct (update_step_Some _ _ _ _ _ Hs Hu) as (Hg & _ & Ha). eapply (keeps_trans _ w1).
    + eapply accounted_keeps; [done..|]. apply (replaced_keeps _ _ s); [done|]. by eapply guarded_keeps.
    + apply delete_event_accounted in Hd as [->|[es Hes]]; [apply keeps_refl|].
      eapply accounted_keeps; [done..|]. intros k q Hk. exists q. split; [done|apply keeps_step_refl].
  - unfold insert_event in Hi. case_decide; [|done]. apply account_Some in Hi. cbn in Hi.
    eapply accounted_keeps; [done..|]. intros k q Hk. exists q. split; [done|apply keeps_step_refl].
  - apply insert_steps_Some in Hi as [Ha _]; [|apply Hb]. eapply accounted_keeps; [done..|].
    intros k q Hk. exists q. split; [by apply lookup_app_l_Some|apply keeps_step_refl].
Qed.

Lemma stmts_keep_history token w w' : rtc (stmt token) w w' → keeps w w'.
Proof. induction 1; [apply keeps_refl|]. eauto using keeps_trans, stmt_keeps_history. Qed.
End keep.

(** ** Restart *)

Lemma insert_retained_Some c t s w w' :
  insert_retained c t s w = Some w' → accounted 0 w (w.(steps) ++ [s]) w.(events) w'.
Proof. unfold insert_retained. case_decide; [|done]. apply account_Some. Qed.

Lemma retain_fold c t n now ss w w' :
  foldl (λ acc s, w ← acc; insert_retained c t (retained_step t n now s) w) (Some w) ss = Some w' →
  (∃ a, w'.(row) = {| w.(row) with acct := a |}) ∧ w'.(events) = w.(events) ∧
  w'.(steps) = w.(steps) ++ (retained_step t n now <$> ss).
Proof.
  revert w. induction ss as [|s ss IH]; intros w Hf; cbn in Hf.
  - simplify_eq. split_and!; [|done|by rewrite app_nil_r]. exists (acct (row w')). by destruct w' as [[] ? ?].
  - destruct (insert_retained _ _ _ w) as [w1|] eqn:Hr; [|by rewrite foldl_None in Hf].
    apply insert_retained_Some in Hr as (-> & _ & _). destruct (IH _ Hf) as ([a Ha] & He & Hs). cbn in *.
    rewrite Z.add_0_r in Ha. split_and!; [by exists a|done|]. by rewrite Hs, <-app_assoc.
Qed.

(** The generation a restart leaves: queued under the next generation, without inbox,
    run or result, with the retained prefix of the history. *)
Definition restarted (op : WorkflowOperation) (now : Z) (w w' : Workflow) : Prop :=
  ∃ j a, w'.(row) = {| (set_restarted op j now w.(row)) with acct := a |} ∧
    op.(op_target_generation) = w.(row).(identity).(instance_generation) + 1 ∧ w'.(events) = [] ∧
    w'.(steps) = retained_step (default 0 j.(target_ordinal)) j.(j_next_event_seq) now <$>
                   take (Z.to_nat j.(retain_step_count)) w.(steps).

Lemma restart_rows_exact op j now w w' : restart_rows op j now w = Some w' → restarted op now w w'.
Proof.
  unfold restart_rows. case_decide as Hc; [|done]. case_decide; [|done]. intros ([a Ha] & He & Hs)%retain_fold.
  exists j, a. split_and!; [exact Ha|apply Hc|exact He|exact Hs].
Qed.

(** ** One call *)

Section calls.
Context `{Codec}.

(** What a call may do to an instance: keep its history, or, as an exact operation on its
    identity, restart it as the next generation or purge it once terminal. *)
Definition call_keeps (c : Call) (db' : WorkflowDb) (id : N) (w : Workflow) : Prop :=
  (∃ w', db'.(workflows) !! id = Some w' ∧ keeps w w') ∨
  (∃ op now limits, c = CallApply op now limits ∧ op.(op_identity) = w.(row).(identity) ∧
     ((op.(op_kind) = Restart ∧ ∃ w', db'.(workflows) !! id = Some w' ∧ restarted op now w w') ∨
      (op.(op_kind) = Purge ∧ is_terminal w.(row).(state) = true ∧ db'.(workflows) !! id = None))).

Lemma op_effect_keeps op now limits db db' id w :
  op_effect op now db db' → db.(workflows) !! id = Some w → call_keeps (CallApply op now limits) db' id w.
Proof.
  assert (Hsame : ∀ w', w' = w → db'.(workflows) !! id = Some w' → call_keeps (CallApply op now limits) db' id w).
  { intros w' -> Hw'. left. exists w. split; [done|apply keeps_refl]. }
  intros [Hu|j w1 w' Hk Hw1 Hid _ Hr _ He|w1 Hk Hw1 Hid Ht He] Hw.
  - apply (Hsame w); [done|]. by rewrite Hu.
  - destruct (decide (instance_id (op_identity op) = id)) as [<-|Hne].
    + simplify_eq. right. exists op, now, limits. split_and!; [done..|]. left. split; [done|]. exists w'.
      split; [rewrite He; apply lookup_insert_eq|by eapply restart_rows_exact].
    + apply (Hsame w); [done|]. by rewrite He, lookup_insert_ne.
  - destruct (decide (instance_id (op_identity op) = id)) as [<-|Hne].
    + simplify_eq. right. exists op, now, limits. split_and!; [done..|]. right. split_and!; [done..|].
      rewrite He. apply lookup_delete_eq.
    + apply (Hsame w); [done|]. by rewrite He, lookup_delete_ne.
Qed.

Lemma exec_keeps c db id w :
  store_ok db → call_ok c → db.(workflows) !! id = Some w → call_keeps c (exec c db).1 id w.
Proof.
  intros Hst Hok Hw. assert (Hr : ∀ db', db'.(workflows) !! id = Some w → call_keeps c db' id w).
  { intros db' Hw'. left. exists w. split; [done|apply keeps_refl]. }
  destruct (exec c db) as [db' [u|e]] eqn:Hrun; cbn; [|apply Hr; by rewrite (exec_atomic c _ _ _ Hrun)].
  destruct (exec_effect _ _ _ _ Hst Hok Hrun) as [_ [He|rs limits -> [Hk _]|op now limits -> He]].
  - specialize (He id). rewrite Hw in He. destruct He as (w' & Hw' & Hs & _). left. exists w'.
    split; [done|by eapply stmts_keep_history].
  - by apply Hr, Hk.
  - by eapply op_effect_keeps.
Qed.
End calls.

(** ** Fences *)

(** No instance is run under this token. *)
Definition unowned (t : WorkflowToken) (db : WorkflowDb) : Prop :=
  map_Forall (λ _ w, run_token <$> w.(row).(run) ≠ Some t) db.(workflows).

Section fences.
Context `{Codec}.

Lemma accounted_run bump w ss es w' : accounted bump w ss es w' → w'.(row).(run) = w.(row).(run).
Proof. by intros (-> & _). Qed.

(** A statement starts a run only under the token it drew. *)
Lemma stmt_run token w w' t :
  stmt token w w' → run_token <$> w'.(row).(run) = Some t → run_token <$> w.(row).(run) = Some t ∨ token = Some t.
Proof.
  intros [b f Hrc Hu|o s f Hs _ Hu|o s ? ? e ? w1 Hs _ _ _ _ _ Hu Hd|e _ _ _ Hi|? ? ? ns _ _ Hb Hi] Ht.
  - apply update_instance_Some in Hu as [_ ->]. cbn in Ht.
    destruct (rc_run _ _ _ _ Hrc); [destruct (run (f (row w))); [eauto|done]|left|right]; congruence.
  - left. destruct (update_step_Some _ _ _ _ _ Hs Hu) as (_ & _ & Ha). by rewrite <- (accounted_run _ _ _ _ _ Ha).
  - left. destruct (update_step_Some _ _ _ _ _ Hs Hu) as (_ & _ & Ha). rewrite <- (accounted_run _ _ _ _ _ Ha).
    apply delete_event_accounted in Hd as [->|[es Hes]]; [done|]. by rewrite <- (accounted_run _ _ _ _ _ Hes).
  - left. unfold insert_event in Hi. case_decide; [|done]. apply account_Some in Hi. by rewrite (accounted_run _ _ _ _ _ Hi) in Ht.
  - left. apply insert_steps_Some in Hi as [Ha _]; [|apply Hb]. by rewrite <- (accounted_run _ _ _ _ _ Ha).
Qed.

Lemma stmts_run token w w' t :
  rtc (stmt token) w w' → token ≠ Some t → run_token <$> w.(row).(run) ≠ Some t → run_token <$> w'.(row).(run) ≠ Some t.
Proof.
  induction 1 as [|w w1 w' Hs _ IH]; intros Hn Hw; [done|]. apply IH; [done|]. intros E.
  by destruct (stmt_run _ _ _ _ Hs E).
Qed.

Lemma op_effect_unowned op now db db' t : op_effect op now db db' → unowned t db → unowned t db'.
Proof.
  intros [Hu|j w w' _ _ _ _ Hr _ He|w _ _ _ _ He] Hn; unfold unowned in *.
  - by rewrite Hu.
  - rewrite He. apply map_Forall_insert_2; [|done]. destruct (restart_rows_exact _ _ _ _ _ Hr) as (? & ? & -> & _). done.
  - rewrite He. by apply map_Forall_delete.
Qed.

(** A token no instance holds is held again only after a call that draws it. *)
Lemma exec_unowned c db t :
  store_ok db → call_ok c → draws c ≠ Some t → unowned t db → unowned t (exec c db).1.
Proof.
  intros Hst Hok Hd Hn. destruct (exec c db) as [db' [u|e]] eqn:Hrun; cbn; [|by rewrite (exec_atomic c _ _ _ Hrun)].
  destruct (exec_effect _ _ _ _ Hst Hok Hrun) as [_ [He|rs limits -> [_ Hk]|op now limits -> He]].
  - intros id w' Hw'. specialize (He id). destruct (workflows db !! id) as [w|] eqn:Hw; [|congruence].
    destruct He as (w1 & Hw1 & Hs & _). simplify_eq. eapply stmts_run; [done..|]. by apply (Hn id).
  - intros id w' Hw'. destruct (Hk _ _ Hw') as [Hw|(? & ? & ? & ->)]; [by apply (Hn id)|done].
  - by eapply op_effect_unowned.
Qed.

(** ** Fenced calls *)

Definition fence_of (c : Call) : option WorkflowFence :=
  match c with
  | CallHeartbeat f _ _ | CallYield f _ | CallFinish f _ _ _ | CallBatch f _ _ _ _ _ | CallSettle f _ _ _ _
  | CallResolve f _ _ _ _ _ => Some f
  | _ => None
  end.

(** The arguments pass the checks that do not read the store. *)
Definition well_formed (c : Call) : Prop :=
  match c with
  | CallHeartbeat _ _ l | CallFinish _ _ _ l | CallSettle _ _ _ _ l | CallResolve _ _ _ _ _ l =>
      WorkflowsConfig_validate l = Ok ()
  | CallBatch _ ds _ remaining _ l => WorkflowsConfig_validate l = Ok () ∧ is_ok (validate_batch ds remaining l) = true
  | _ => True
  end.

Lemma unowned_holds t db f now id w :
  unowned t db → f.(f_run_token) = t → db.(workflows) !! id = Some w → ¬ holds f now w.(row).
Proof. intros Hn Ht Hw (_ & [_ E] & _). apply (Hn _ _ Hw). by rewrite E, Ht. Qed.

Lemma running_stale f now db :
  unowned f.(f_run_token) db → running f now db = (db, Err (storage_error WorkflowRunStale)).
Proof.
  intros Hn. unfold running, select_instance, mbind, M_bind, gets. cbn.
  destruct (workflows db !! f_instance_id f) as [w|] eqn:Hw; [|done]. cbn.
  by rewrite decide_False by (by eapply unowned_holds).
Qed.

Lemma deadline_total now l :
  clock now → limits_unsigned l → WorkflowsConfig_validate l = Ok () → workflow_deadline now l.(lease_ms) = Ok (now + l.(lease_ms)).
Proof.
  intros Hc Hu Hv. destruct (limits_bounds _ Hu Hv) as [Hb _]. unfold clock, WORKFLOW_MAX_SAFE_INTEGER in Hc.
  unfold workflow_deadline. rewrite !i64_checked_in by (unfold in_i64; lia). cbn.
  by rewrite !i64_checked_in by (unfold in_i64; lia).
Qed.

Lemma fenced_stale c f db :
  fence_of c = Some f → call_ok c → well_formed c → unowned f.(f_run_token) db →
  exec c db = (db, Err (storage_error WorkflowRunStale)).
Proof.
  intros Hf Hok Hwf Hn. destruct c; cbn in Hf; try done; injection Hf as ->; cbn in Hok, Hwf |- *.
  - destruct Hok. unfold heartbeat_workflow, heartbeat, mbind, M_bind, lift. rewrite Hwf, deadline_total by done.
    unfold execute_on. destruct (workflows db !! f_instance_id f) as [w|] eqn:Hw; [|done].
    by rewrite decide_False by (by eapply unowned_holds).
  - unfold yield_workflow, transaction, mbind, M_bind. by rewrite running_stale.
  - unfold finish_workflow, transaction, mbind, M_bind, lift. by rewrite Hwf, running_stale.
  - destruct Hwf as [Hv Hb]. destruct (validate_batch ds remaining limits) as [first|] eqn:Hvb; [|done].
    unfold claim_workflow_batch, transaction, mbind, M_bind, lift. by rewrite Hv, Hvb, running_stale.
  - unfold settle_workflow_step, transaction, mbind, M_bind, lift. by rewrite Hwf, running_stale.
  - unfold resolve_workflow_delay, transaction, mbind, M_bind, lift. by rewrite Hwf, running_stale.
Qed.

(** *** Sequences of calls *)

Fixpoint exec_all (cs : list Call) (db : WorkflowDb) : WorkflowDb :=
  match cs with [] => db | c :: cs => exec_all cs (exec c db).1 end.

Lemma exec_all_unowned cs db t :
  store_ok db → Forall (λ c, call_ok c ∧ draws c ≠ Some t) cs → unowned t db → unowned t (exec_all cs db).
Proof.
  intros Hst Hcs. revert db Hst. induction Hcs as [|c cs [Hok Hd] _ IH]; intros db Hst Hn; [done|]. cbn.
  apply IH; [by apply exec_store|by apply exec_unowned].
Qed.
End fences.

(** ** Reports of callbacks *)

Section reports.
Context `{Codec}.

(** How a failed attempt is recorded: a failed execution or a timeout is retried after the
    delay of the policy while retries are left, else the step is settled with the code. *)
Definition failed_as (s : Step) (c : ErrorCode) (resolved : option Z) (now : Z) (n : Step) (r : WorkflowStepResult) :
    Prop :=
  ∃ cfg, s.(descriptor).(config) = CDo cfg ∧ c ∈ terminal_codes ∧
  let failed := {| s with s_state := SFailed; s_run_token := None; s_step_token := None;
                          s_error_json := Some failure_json; s_error_code := Some c; due_at_ms := None;
                          retry_delay_ms := None; s_updated_at_ms := now; completed_at_ms := Some now |} in
  if decide ((c = WorkflowExecutionFailed ∨ c = WorkflowStepTimeout) ∧ s.(attempt) ≤ cfg.(retries).(limit)) then
    ∃ d, delay_after_resolved cfg.(retries) s.(attempt) resolved = Ok d ∧ safe (now + d) ∧
      n = {| failed with s_state := SRetryWait; due_at_ms := Some (now + d); retry_delay_ms := Some d;
                         completed_at_ms := None |} ∧ r = ResSuspended
  else
    let c := if decide (c = WorkflowExecutionFailed) then WorkflowStepRetriesExhausted else c in
    n = {| failed with s_error_code := Some c |} ∧ r = ResFailed c.

(** Why the value of a step is refused: it is not a durable value, or what it takes beyond
    the reservation of its failure exceeds the quota of the instance or of the platform. *)
Definition grows_over (db : WorkflowDb) (id : N) (v : ustr) (limits : WorkflowsConfig) : Prop :=
  let change := str_len v - reserve in
  0 < change ∧
  (is_some_and (λ w, limits.(max_state_bytes) <
       w.(row).(acct).(state_bytes) + reservations w * reserve + change) (db.(workflows) !! id) ∨
   limits.(max_total_state_bytes) <
     (account_capacity db).1 + (account_capacity db).2 * reserve + change).
Definition refused (db : WorkflowDb) (id : N) (v : ustr) (limits : WorkflowsConfig) (c : ErrorCode) : Prop :=
  match durable_value_base64 v WorkflowResultTooLarge with
  | Err e => c = e.(code)
  | Ok _ => c = WorkflowStateQuotaExceeded ∧ grows_over db id v limits
  end.

(** The verdict on a report: the stored deadline wins over the outcome. *)
Definition reported (db : WorkflowDb) (id : N) (limits : WorkflowsConfig) (s : Step) (outcome : WorkflowStepOutcome)
    (now : Z) (n : Step) (r : WorkflowStepResult) : Prop :=
  ∃ d, s.(attempt_deadline_at_ms) = Some d ∧
  if decide (d ≤ now) then
    if dynamic_delay_step s then
      n = {| s with s_state := SDelayPending; s_run_token := None; s_step_token := None;
                    s_error_json := Some failure_json; s_error_code := Some WorkflowStepTimeout;
                    due_at_ms := None; retry_delay_ms := None; s_updated_at_ms := now |} ∧
      ∃ cfg, s.(descriptor).(config) = CDo cfg ∧ r = ResResolveDelay s.(attempt) WorkflowStepTimeout cfg
    else failed_as s WorkflowStepTimeout None now n r
  else match outcome with
  | OutcomeTimeout => False
  | OutcomeFailure c => failed_as s c None now n r
  | OutcomeFailureWithDelay c delay => failed_as s c (Some delay) now n r
  | OutcomeSuccess v =>
      (valid_value v = true ∧ ¬ grows_over db id v limits ∧
       n = {| s with s_state := SComplete; s_run_token := None; s_step_token := None;
                     s_output := Some (OutValue v); completed_at_ms := Some now; s_updated_at_ms := now |} ∧
       r = ResComplete (Some v)) ∨
      ∃ c, refused db id v limits c ∧ failed_as s c None now n r
  end.

Lemma capacity_change_run id v limits db db' w x :
  db.(workflows) !! id = Some w → capacity_change id (str_len v) (-1) limits db = (db', x) →
  match x with
  | Ok _ => ¬ grows_over db id v limits
  | Err e => e = violation ∨ (e = storage_error WorkflowStateQuotaExceeded ∧ grows_over db id v limits)
  end.
Proof.
  intros Hw. unfold capacity_change, grows_over. rewrite Hw. cbn. run_simpl. rewrite Hw.
  replace (str_len v + -1 * reserve) with (str_len v - reserve) by lia.
  repeat case_decide; intros [= <- <-]; cbn; auto; try (right; split; [done|]; tauto). intros [? [?|?]]; tauto.
Qed.

Lemma retry_decided c a l :
  retryable c && bool_decide (a ≤ l) = bool_decide ((c = WorkflowExecutionFailed ∨ c = WorkflowStepTimeout) ∧ a ≤ l).
Proof.
  transitivity (bool_decide (c = WorkflowExecutionFailed ∨ c = WorkflowStepTimeout) && bool_decide (a ≤ l)).
  - f_equal. destruct c; try reflexivity.
  - symmetry. apply bool_decide_and.
Qed.

Lemma fail_exact db0 id w s c resolved now db db' r :
  is_at db0 id w db → w.(steps) !! Z.to_nat s.(descriptor).(ordinal) = Some s → 
  fail id s c resolved now db = (db', Ok r) →
  ∃ w' n, is_at db0 id w' db' ∧ w'.(steps) = <[Z.to_nat s.(descriptor).(ordinal) := n]> w.(steps) ∧
    failed_as s c resolved now n r.
Proof.
  intros Hat Hs Hrun. unfold fail in Hrun. run_inv. apply terminal_error_code_Ok in Hr as [-> Hc].
  destruct (config (descriptor s)) as [cfg| | |] eqn:Hcfg; [|run_inv..]. rewrite retry_decided in Hrun. run_inv. unfold failed_as.
  case_bool_decide as Hretry; cbn in *; run_inv; subst; run_inv; subst.
  - match goal with Hd : durable_deadline _ _ = Ok _ |- _ => apply durable_deadline_Ok in Hd as [-> Hsafe] end.
    exec Hat as w' Hup Hat'. destruct (update_step_Some _ _ _ _ _ Hs Hup) as (_ & _ & -> & _).
    eexists _, _. split_and!; [done..|]. exists cfg. rewrite decide_True by done. eauto 10.
  - exec Hat as w' Hup Hat'. destruct (update_step_Some _ _ _ _ _ Hs Hup) as (_ & _ & -> & _).
    eexists _, _. split_and!; [done..|]. exists cfg. rewrite decide_False by done. split_and!; try done.
    + case_bool_decide; case_decide; done.
    + case_bool_decide; case_decide; done.
Qed.

Lemma defer_exact db0 id w s now db db' r :
  is_at db0 id w db → w.(steps) !! Z.to_nat s.(descriptor).(ordinal) = Some s →
  defer_dynamic_failure id s WorkflowStepTimeout now db = (db', Ok r) →
  ∃ w', is_at db0 id w' db' ∧
    w'.(steps) = <[Z.to_nat s.(descriptor).(ordinal) := set_deferred WorkflowStepTimeout now s]> w.(steps) ∧
    ∃ cfg, s.(descriptor).(config) = CDo cfg ∧ r = ResResolveDelay s.(attempt) WorkflowStepTimeout cfg.
Proof.
  intros Hat Hs Hrun. unfold defer_dynamic_failure in Hrun.
  destruct (config (descriptor s)) as [cfg| | |] eqn:Hcfg; [|run_inv..]. run_inv. subst.
  exec Hat as w' Hup Hat'. destruct (update_step_Some _ _ _ _ _ Hs Hup) as (_ & _ & -> & _). eauto 10.
Qed.

(** The row statements that end a fenced operation leave the steps. *)
Lemma row_only_at db0 f now limits (b : bool) w db db1 db' u u' :
  is_at db0 f.(f_instance_id) w db →
  (if b then request_yield f now else mret ()) db = (db1, Ok u) → heartbeat f now limits db1 = (db', Ok u') →
  ∃ w', is_at db0 f.(f_instance_id) w' db' ∧ w'.(steps) = w.(steps).
Proof.
  intros Hat Hy Hb.
  assert (∃ w1, is_at db0 f.(f_instance_id) w1 db1 ∧ w1.(steps) = w.(steps)) as (w1 & Hat1 & <-).
  { destruct b; [|run_inv; eauto]. unfold request_yield in Hy. run_inv.
    match goal with Hx : execute_on _ _ _ _ = _ |- _ => apply (execute_on_at db0 _ _ _ w) in Hx; [|done] end.
    destruct_or!; destruct_and!; [|lia]. match goal with Hx : ∃ _, _ |- _ => destruct Hx as (w1 & Hup & Hat1) end.
    apply update_instance_Some in Hup as [_ ->]. eauto. }
  unfold heartbeat in Hb. run_inv.
  match goal with Hx : execute_on _ _ _ _ = _ |- _ => apply (execute_on_at db0 _ _ _ w1) in Hx; [|done] end.
  destruct_or!; destruct_and!; [|lia]. match goal with Hx : ∃ _, _ |- _ => destruct Hx as (w2 & Hup & Hat2) end.
  apply update_instance_Some in Hup as [_ ->]. eauto.
Qed.

Lemma violation_not_terminal : violation.(code) ∉ terminal_codes.
Proof. apply (bool_decide_unpack _). vm_compute. exact I. Qed.

Lemma charge_output_exact id output limits db db' w x :
  db.(workflows) !! id = Some w → charge_output id output limits db = (db', Ok x) →
  match x with
  | inl v => v = output ∧ valid_value output = true ∧ ¬ grows_over db id output limits
  | inr c => c ∈ terminal_codes → refused db id output limits c
  end.
Proof.
  intros Hw. unfold charge_output, refused. destruct (durable_value_base64 output _) as [y|e] eqn:Hv.
  - apply durable_value_Ok in Hv as [-> Hv]. destruct (capacity_change _ _ _ _ _) as [d y] eqn:Hc.
    apply (capacity_change_run _ _ _ _ _ w) in Hc; [|done]. destruct y as [u|e]; intros [= _ <-]; [done|].
    destruct Hc as [->|[-> ?]]; [|done]. intros Hx. by apply violation_not_terminal in Hx.
  - by intros [= _ <-].
Qed.

(** The verdict of a report is one statement on the step. *)
Lemma verdict_exact f a s d w outcome now limits db db' r :
  wf_ok w → db.(workflows) !! f.(f_instance_id) = Some w → w.(steps) !! Z.to_nat a.(a_ordinal) = Some s →
  s.(attempt_deadline_at_ms) = Some d →
  (if decide (d ≤ now) then step_timeout f.(f_instance_id) s now
   else match outcome with
     | OutcomeTimeout => throw stale
     | OutcomeFailure c => fail f.(f_instance_id) s c None now
     | OutcomeFailureWithDelay c delay_ms => fail f.(f_instance_id) s c (Some delay_ms) now
     | OutcomeSuccess output =>
         charged ← charge_output f.(f_instance_id) output limits;
         match charged with
         | inl output =>
             _ ← execute f.(f_instance_id) (update_step (Z.to_nat a.(a_ordinal)) (set_succeeded output now));
             mret (ResComplete (Some output))
         | inr c => fail f.(f_instance_id) s c None now
         end
     end) db = (db', Ok r) →
  ∃ w' n, is_at db f.(f_instance_id) w' db' ∧ w'.(steps) = <[Z.to_nat a.(a_ordinal) := n]> w.(steps) ∧
    reported db f.(f_instance_id) limits s outcome now n r.
Proof.
  intros Hok Hw Hs Hd Hrun. pose proof (at_start _ _ _ Hw) as Hat. pose proof (ok_ordinal _ _ _ Hok Hs) as Ho.
  assert (Hf : ∀ c x d1 v, fail (f_instance_id f) s c x now db = (d1, Ok v) →
    ∃ w1 n, is_at db (f_instance_id f) w1 d1 ∧ w1.(steps) = <[Z.to_nat a.(a_ordinal) := n]> w.(steps) ∧
      failed_as s c x now n v).
  { intros c x d1 v Hx. rewrite <- Ho. eapply fail_exact; [done|by rewrite Ho|done]. }
  unfold reported. setoid_rewrite Hd. case_decide as Hnow.
  - unfold step_timeout in Hrun. destruct (dynamic_delay_step s) eqn:Hdyn.
    + destruct (defer_exact _ _ w _ _ _ _ _ Hat ltac:(by rewrite Ho) Hrun) as (w1 & ? & Hst & ?). rewrite Ho in Hst.
      eexists w1, _. split_and!; [done..|]. exists d. by rewrite decide_True.
    + destruct (Hf _ _ _ _ Hrun) as (w1 & n & ? & ? & ?). exists w1, n. split_and!; [done..|]. exists d. by rewrite decide_True.
  - destruct outcome as [output| | |]; run_inv.
    + destruct (charge_output_at _ _ _ _ _ _ Hm) as [-> _]. match type of Hm with _ = (_, Ok ?x) => destruct x as [v|c] end.
      * destruct (charge_output_exact _ _ _ _ _ _ _ Hw Hm) as (-> & Hval & Hq). run_inv. exec Hat as w' Hup Hat'.
        destruct (update_step_Some _ _ _ _ _ Hs Hup) as (_ & _ & -> & _). eexists _, _. split_and!; [done..|].
        exists d. rewrite decide_False by done. split; [done|]. by left.
      * destruct (Hf _ _ _ _ Hrun) as (w1 & n & ? & ? & ?). exists w1, n. split_and!; [done..|].
        exists d. rewrite decide_False by done. split; [done|]. right. exists c. split; [|done].
        apply (charge_output_exact _ _ _ _ _ _ _ Hw Hm). by match goal with Hx : failed_as _ _ _ _ _ _ |- _ => destruct Hx as (? & _ & ? & _) end.
    + destruct (Hf _ _ _ _ Hrun) as (w1 & n & ? & ? & ?). exists w1, n. split_and!; [done..|]. exists d. by rewrite decide_False.
    + destruct (Hf _ _ _ _ Hrun) as (w1 & n & ? & ? & ?). exists w1, n. split_and!; [done..|]. exists d. by rewrite decide_False.
Qed.

(** What a report does to the store. *)
Definition settles (f : WorkflowFence) (a : WorkflowStepAttempt) (outcome : WorkflowStepOutcome) (now : Z)
    (limits : WorkflowsConfig) (db db' : WorkflowDb) (r : WorkflowStepResult) : Prop :=
  ∃ w s w' n, db.(workflows) !! f.(f_instance_id) = Some w ∧ holds f now w.(row) ∧
    w.(steps) !! Z.to_nat a.(a_ordinal) = Some s ∧ s.(s_state) = SRunning ∧ s.(attempt) = a.(a_attempt) ∧
    s.(s_run_token) = Some f.(f_run_token) ∧ s.(s_step_token) = Some a.(a_step_token) ∧
    reported db f.(f_instance_id) limits s outcome now n r ∧ is_at db f.(f_instance_id) w' db' ∧
    w'.(steps) = <[Z.to_nat a.(a_ordinal) := n]> w.(steps).

Lemma settle_exact f a outcome now limits db db' r :
  all_ok db → settle_workflow_step f a outcome now limits db = (db', Ok r) → settles f a outcome now limits db db' r.
Proof.
  intros Hall Hrun. unfold settle_workflow_step in Hrun.
  apply transaction_run, bind_run in Hrun as (? & ? & Hv & Hrun). apply lift_run in Hv as [-> Hv].
  apply bind_run in Hrun as (d1 & i & Hr & Hrun). apply running_at in Hr as [-> (w & Hw & -> & Hh & _)].
  destruct (Hall _ _ Hw) as [Hok Hid]. pose proof (at_start _ _ _ Hw) as Hat.
  apply bind_run in Hrun as (d2 & o & Hr & Hrun). reads Hat.
  apply bind_run in Hrun as (d2 & s & Hs & Hrun). apply some_or_run in Hs as [-> Hs].
  apply bind_run in Hrun as (d2 & u1 & Hg & Hrun). apply throw_if_run in Hg as [-> Hg].
  apply bind_run in Hrun as (d2 & d & Hd & Hrun). apply some_or_run in Hd as [-> Hd].
  apply bind_run in Hrun as (d2 & v & Hverdict & Hrun).
  destruct (verdict_exact _ _ _ _ _ _ _ _ _ _ _ Hok Hw Hs Hd Hverdict) as (w1 & n & Hat1 & Hst & Hrep).
  apply bind_run in Hrun as (d3 & u2 & Hy & Hrun). apply bind_run in Hrun as (d4 & u3 & Hb & Hrun).
  apply ret_run in Hrun as [-> ->].
  destruct (row_only_at _ _ _ _ _ _ _ _ _ _ _ Hat1 Hy Hb) as (w' & Hat' & Hst').
  exists w, s, w', n. split_and!; try done; try congruence; apply dec_stable; tauto.
Qed.

Lemma reported_over db id limits s outcome now n r : reported db id limits s outcome now n r → attempt_over s.(attempt) n.
Proof.
  assert (Hf : ∀ c x, failed_as s c x now n r → attempt_over s.(attempt) n).
  { intros c x (cfg & _ & _ & Hn). case_decide; [destruct Hn as (d & _ & _ & -> & _)|destruct Hn as [-> _]]; by right. }
  intros (d & _ & Hn). case_decide.
  - destruct (dynamic_delay_step s); [|eauto]. destruct Hn as [-> _]. by right.
  - destruct outcome; [|eauto..|done]. destruct Hn as [(_ & _ & -> & _)|(c & _ & Hc)]; [by right|eauto].
Qed.

Lemma settle_again f a outcome now limits db w s :
  all_ok db → db.(workflows) !! f.(f_instance_id) = Some w → w.(steps) !! Z.to_nat a.(a_ordinal) = Some s →
  attempt_over a.(a_attempt) s → ∃ e, settle_workflow_step f a outcome now limits db = (db, Err e).
Proof.
  intros Hall Hw Hs Hover. destruct (settle_workflow_step f a outcome now limits db) as [db' [r|e]] eqn:Hrun.
  - apply settle_exact in Hrun as (w' & s' & _ & _ & Hw' & _ & Hs' & Hrun & Ha & _); [|done]. simplify_eq.
    destruct Hover as [?|(_ & _ & ?)]; [lia|done].
  - exists e. f_equal. by eapply (atomic_transaction _ _ _ _ Hrun).
Qed.

(** Calls that do not restart or purge this instance. *)
Definition spares (id : N) (c : Call) : Prop :=
  match c with CallApply op _ _ => op.(op_identity).(instance_id) ≠ id | _ => True end.

Lemma exec_all_keeps cs db id w :
  store_ok db → Forall (λ c, call_ok c ∧ spares id c) cs → db.(workflows) !! id = Some w →
  store_ok (exec_all cs db) ∧ ∃ w', (exec_all cs db).(workflows) !! id = Some w' ∧ keeps w w'.
Proof.
  intros Hst Hcs. revert db w Hst. induction Hcs as [|c cs [Hok Hsp] _ IH]; intros db w Hst Hw; cbn.
  - split; [done|]. exists w. split; [done|apply keeps_refl].
  - assert (∃ w1, (exec c db).1.(workflows) !! id = Some w1 ∧ keeps w w1) as (w1 & Hw1 & Hk1).
    { destruct (exec_keeps c _ _ _ Hst Hok Hw) as [?|(op & now & limits & -> & Hid & _)]; [done|].
      cbn in Hsp. rewrite Hid in Hsp. by rewrite (proj2 (proj1 Hst _ _ Hw)) in Hsp. }
    destruct (IH _ _ (exec_store c _ Hst Hok) Hw1) as (? & w' & ? & ?). eauto using keeps_trans.
Qed.
End reports.

(** ** Consumption *)

Section consumption.
Context `{Codec}.

Lemma taken_NoDup i ss k :
  (∀ k s, ss !! k = Some s → step_ok i (take k ss) s) → NoDup (consumed_of (take k ss)).
Proof.
  intros Hst. induction k as [|k IH]; [constructor|]. destruct (ss !! k) as [s|] eqn:Hs.
  - rewrite (take_S_r _ _ _ Hs). unfold consumed_of. rewrite bind_app. cbn. rewrite app_nil_r.
    destruct (Hst _ _ Hs) as (_ & _ & Hf). rewrite Forall_forall in Hf. apply NoDup_app. split_and!; [done| |].
    + intros x Hx Ht. by apply (Hf _ Ht).
    + unfold taken. destruct (consumed_event_seq s); cbn; [apply NoDup_singleton|constructor].
  - apply lookup_ge_None in Hs. rewrite take_ge in * by lia. done.
Qed.

Lemma consumed_NoDup w : wf_ok w → NoDup (consumed_of w.(steps)).
Proof.
  intros Hok. rewrite <- (firstn_all w.(steps)). by apply (taken_NoDup w.(row)), h_steps, ok_history.
Qed.
End consumption.

(** ** Replay *)

(** A run that does not depend on the wake counter. *)
Definition blind {A} (m : WM A) : Prop := ∀ db, m (wf_notify db) = (wf_notify (m db).1, (m db).2).

Lemma blind_bind {A B} (m : WM A) (k : A → WM B) : blind m → (∀ a, blind (k a)) → blind (m ≫= k).
Proof. intros Hm Hk db. unfold mbind, M_bind. rewrite Hm. destruct (m db) as [s [a|e]]; cbn; [apply Hk|done]. Qed.
Lemma blind_ret {A} (a : A) : blind (mret a).
Proof. done. Qed.
Lemma blind_lift {A} (r : result PlatformError A) : blind (lift r).
Proof. done. Qed.
Lemma blind_gets {A} (g : WorkflowDb → A) : (∀ db, g (wf_notify db) = g db) → blind (gets g).
Proof. intros Hg db. unfold gets. cbn. by rewrite Hg. Qed.

Lemma blind_some_or {A} (o : option A) e : blind (some_or o e).
Proof. by destruct o. Qed.
Create HintDb blind.
#[export] Hint Resolve blind_bind blind_ret blind_lift blind_some_or : blind.

Lemma blind_select id (P : InstanceRow → Prop) `{!∀ i, Decision (P i)} : blind (select_instance id P).
Proof. unfold select_instance. apply blind_bind; [by apply blind_gets|]. intros [w|]; auto with blind. Qed.
Lemma blind_verify_one id : blind (verify_one id).
Proof. unfold verify_one, throw_if. apply blind_bind; [by apply blind_gets|]. auto with blind. Qed.
#[export] Hint Resolve blind_select blind_verify_one : blind.

Lemma read_decision_blind op : blind (read_decision op).
Proof.
  unfold read_decision. apply blind_bind; [by apply blind_gets|]. intros [p|]; [|apply blind_ret].
  case_decide; [apply blind_ret|]. unfold throw_if. destruct (p_error_code p), (op_kind op); auto 20 with blind.
Qed.

Section replay.
Context `{Codec}.

Lemma apply_decided op now limits db db' r :
  apply_workflow_operation op now limits db = (db', Ok r) → read_decision op db' = (db', Ok (Some r)).
Proof.
  assert (Hdec : ∀ t c d d' r, decide_operation op t c now d = (d', Ok r) → read_decision op d' = (d', Ok (Some r))).
  { intros t c d d' r' Hrun. unfold decide_operation in Hrun. run_inv. subst.
    match goal with Hx : read_decision _ ?s = _ |- _ => 
      pose proof Hx as Hy; apply (pure_run _ _ _ _ (read_decision_pure _)) in Hy as ->; exact Hx end. }
  intros Hrun. unfold apply_workflow_operation in Hrun. run_inv.
  match goal with Hx : read_decision _ ?s = _ |- _ => 
      pose proof Hx as Hy; apply (pure_run _ _ _ _ (read_decision_pure _)) in Hy as ->; rename Hx into Hread end.
  destruct a1 as [d|]; run_inv; [by subst|].
  match goal with x : _ + ErrorCode |- _ => destruct x as [j|c] end; run_inv; [|by eapply Hdec].
  subst. match goal with Hx : decide_operation _ _ _ _ _ = _ |- _ => apply Hdec in Hx as Hd end.
  by rewrite read_decision_blind, Hd.
Qed.

Lemma apply_replay op now limits db r :
  read_decision op db = (db, Ok (Some r)) → WorkflowsConfig_validate limits = Ok () → is_ok (durable_deadline now 0) = true →
  apply_workflow_operation op now limits db = (db, Ok r).
Proof.
  intros Hr Hv Hd. unfold apply_workflow_operation, transaction, mbind, M_bind, lift. rewrite Hv.
  destruct (durable_deadline now 0); [|done]. by rewrite Hr.
Qed.
Lemma read_decision_Some op db db' r :
  read_decision op db = (db', Ok (Some r)) →
  ∃ p, db.(progress) !! op.(op_identity).(instance_id) = Some p ∧ p.(p_sequence) = op.(op_sequence) ∧ same_operation p op.
Proof.
  intros Hr. unfold read_decision in Hr. apply bind_run in Hr as (d & o & Ho & Hr). apply gets_run in Ho as [-> ->].
  destruct (progress db !! _) as [p|] eqn:Hp; [|by run_inv]. exists p. split; [done|].
  case_decide; [by run_inv|]. apply bind_run in Hr as (d & u & Hg & Hr). apply throw_if_run in Hg as [-> Hg].
  apply bind_run in Hr as (d & u' & Hg' & Hr). apply throw_if_run in Hg' as [-> Hg']. split; [lia|]. by apply dec_stable.
Qed.

Lemma read_decision_refused op db p :
  db.(progress) !! op.(op_identity).(instance_id) = Some p → op.(op_sequence) ≤ p.(p_sequence) →
  (op.(op_sequence) = p.(p_sequence) → ¬ same_operation p op) → ∃ e, read_decision op db = (db, Err e).
Proof.
  intros Hp Hle Hne. unfold read_decision, mbind, M_bind, gets. rewrite Hp. rewrite decide_False by lia.
  unfold throw_if, lift, bail_if. case_decide; [eauto|]. cbn. rewrite decide_True by (apply Hne; lia). cbn. eauto.
Qed.

(** The decision that was recorded refuses every other operation of its sequence or below. *)
Lemma apply_superseded op op' now limits db r :
  read_decision op db = (db, Ok (Some r)) → op'.(op_identity).(instance_id) = op.(op_identity).(instance_id) →
  op'.(op_sequence) ≤ op.(op_sequence) → (op'.(op_sequence) = op.(op_sequence) → op'.(op_id) ≠ op.(op_id)) →
  ∃ e, apply_workflow_operation op' now limits db = (db, Err e).
Proof.
  intros (p & Hp & Hseq & Hsame)%read_decision_Some Hid Hle Hne.
  destruct (read_decision_refused op' db p) as [e He]; [by rewrite Hid|lia| |].
  { intros Es (Eop & _). destruct Hsame as (Eop' & _). apply Hne; congruence. }
  destruct (apply_workflow_operation op' now limits db) as [db' [r'|e']] eqn:Hrun; cycle 1.
  { exists e'. f_equal. by eapply (atomic_transaction _ _ _ _ Hrun). }
  unfold apply_workflow_operation in Hrun. run_inv. by rewrite He in *.
Qed.
End replay.
