(* ===== verification/WorkflowTheorems.v ===== *)
(** * Theorems of the workflow store

    Verification, inspection, finality, fencing, settlement and replay of the durable
    workflows, over every reachable store, with a concrete run at which they are evaluated
    and the reachable stores in which a lifecycle operation leaves an instance that the
    store itself refuses to continue. *)

From stdpp Require Import base numbers list option strings sorting gmap.
From S2P Require Import Prelude Text ErrorCodes Duration RetryPolicy Sql WorkflowTypes WorkflowDb WorkflowRuns WorkflowSteps WorkflowBatch WorkflowHistory WorkflowLifecycle WorkflowOperations WorkflowSpec WorkflowVerify WorkflowStmt WorkflowEvolve WorkflowMoves WorkflowReach WorkflowProps.

Local Open Scope Z_scope.

(** ** A run of the store *)

Definition demo_codec : Codec := {|
  sha256 := λ _, repeat 7 32; base64_decode := λ s, Some s; base64_encode := λ s, s;
  uuid_text := λ _, lit "id"; hex_text := λ _, lit "00" |}.
#[local] Existing Instance demo_codec.

Definition demo_value : ustr := [79; 67; 68; 86; 1; 2; 0; 0].
Definition demo_target : WorkflowTarget := {|
  t_instance_id := 1; definition_id := 2; definition_name := lit "orders"; workflow_version_id := 3; worker_id := 4;
  worker_version_id := 5; worker_code_sha256 := repeat 1 32; class_name := lit "Order"; loader_schema_version := 1;
  capability_version := 1; descriptor_sha256 := repeat 7 32 |}.
Definition demo_identity : WorkflowInstanceIdentity := {|
  instance_id := 9; external_instance_id := lit "order_1"; target := demo_target; instance_generation := 1;
  creation_nonce := 77; creation_operation_id := 10; creation_batch_id := 10; created_at_ms := 0; schedule := None |}.
Definition demo_limits : WorkflowsConfig := WorkflowsConfig_default.
Definition demo_step (o : Z) (step_name : string) (deps : list Z) : WorkflowStepDescriptor := {|
  ordinal := o; name := lit step_name; name_count := 1; config := CDo WorkflowStepConfig_default;
  rollback_config := None; rollback_step := false; dependencies := deps; batch_first_ordinal := o; batch_size := 1 |}.
Definition demo_fence : WorkflowFence := {| f_instance_id := 9; f_instance_generation := 1; f_run_token := 100%N |}.
Definition demo_attempt : WorkflowStepAttempt := {| a_ordinal := 0; a_attempt := 1; a_step_token := 200%N |}.
Definition demo_rng (o : Z) : option WorkflowToken := Some (Z.to_N (200 + o)).

Definition demo_start : list Call := [
  CallInsert [(demo_identity, demo_value, Some WorkflowRetention_default)] demo_limits;
  CallClaim demo_identity (Some 100%N) 0 demo_limits;
  CallBatch demo_fence [demo_step 0 "charge" []] demo_rng 300000 1 demo_limits].
Definition demo_running : WorkflowDb := exec_all demo_start (empty_store 1).

Lemma reach_all `{Codec} o cs db : reachable o db → Forall call_ok cs → reachable o (exec_all cs db).
Proof. intros Hre Hcs. revert db Hre. induction Hcs; intros db Hre; cbn; [done|]. by apply IHHcs, reach_call. Qed.

Ltac demo_ok := repeat constructor; unfold clock, limits_unsigned, unsigned; cbn; try lia; try done.

Lemma demo_running_reachable : reachable 1 demo_running.
Proof. apply reach_all; [constructor|]. demo_ok. Qed.

Definition demo_at (db : WorkflowDb) : Workflow :=
  default {| row := fresh_instance demo_identity [] WorkflowRetention_default; steps := []; events := [] |}
    (db.(workflows) !! 9%N).

Definition demo_settled : WorkflowDb := (exec (CallSettle demo_fence demo_attempt (OutcomeSuccess demo_value) 2 demo_limits) demo_running).1.
Definition demo_done : WorkflowDb := (exec (CallFinish demo_fence (CompletionComplete demo_value 1) 3 demo_limits) demo_settled).1.
Definition demo_restart : WorkflowOperation := {|
  op_id := 50; op_identity := demo_identity; op_kind := Restart; op_restart_from := None; op_target_generation := 2;
  op_prior_state := Live; op_created_at_ms := 3000; op_sequence := 1 |}.

(** An instance that waits for an event, and the event. *)
Definition demo_wait : WorkflowStepDescriptor := {|
  ordinal := 0; name := lit "paid"; name_count := 1; config := CWaitEvent (lit "payment") 60000;
  rollback_config := None; rollback_step := false; dependencies := []; batch_first_ordinal := 0; batch_size := 1 |}.
Definition demo_received : WorkflowDb := exec_all (take 2 demo_start ++ [
  CallBatch demo_fence [demo_wait] demo_rng 300000 1 demo_limits;
  CallEvent demo_identity 60 (lit "payment") demo_value 2 demo_limits;
  CallEvent demo_identity 61 (lit "payment") demo_value 3 demo_limits]) (empty_store 1).
Lemma demo_received_reachable : reachable 1 demo_received.
Proof. apply reach_all; [constructor|]. demo_ok. Qed.

Section theorems.
Context `{Codec}.

(** ** Verification *)

(** C16. The scan that verifies an instance accepts exactly the histories the declarative
    specification describes: on rows that satisfy the constraints of their tables,
    verification succeeds if and only if the history is valid and the instance claimable. *)
Theorem verification_exact w :
  instance_check w.(row) → Forall step_check w.(steps) →
  Forall (λ s, unsigned s.(descriptor).(config)) w.(steps) →
  verify_row w = Ok () ↔ history_ok w ∧ claimable w.
Proof. apply verify_row_iff. Qed.

(** C10. In every reachable store the history of an instance verifies, except that of a
    live instance in which a rollback request cancelled a step. *)
Theorem reachable_histories_verify o db id w :
  reachable o db → db.(workflows) !! id = Some w →
  verify_row w = Ok () ↔
  (is_terminal w.(row).(state) = false → Forall (λ s, s.(s_state) ≠ SCancelled) w.(steps)).
Proof.
  intros Hre Hw. destruct (reachable_ok _ _ Hre) as [Hall Hsus]. destruct (Hall _ _ Hw) as [Hok _].
  rewrite verify_row_iff; [|apply Hok..]. split; [by intros [_ [_ ?]]|].
  intros Hc. split; [apply Hok|]. split; [exact (Hsus _ _ Hw)|done].
Qed.

(** The doctor finds no invalid row in any reachable store: the projected counters,
    byte totals and wake times are those of the rows, running steps belong to the run of
    their instance, and ordinals and name counts are those of their positions. *)
Theorem reachable_doctor_clean o db : reachable o db → workflow_invalid_rows db = 0.
Proof. intros Hre. by eapply doctor_clean, reachable_ok. Qed.

(** ** Finality *)

(** C9. Committed work is final: whatever a call does, and whether it succeeds, an instance
    keeps its input, its registered descriptors, the window of each attempt and every
    settled or cancelled step, a terminal instance does not change at all, and only an
    exact restart or purge of its identity starts another generation or removes it. *)
Theorem committed_work_final o db c id w :
  reachable o db → call_ok c → db.(workflows) !! id = Some w → call_keeps c (exec c db).1 id w.
Proof. intros Hre. apply exec_keeps. by eapply reachable_ok. Qed.

(** ** Fencing *)

(** C11. A lost run stays lost: once no instance is run under a token, every heartbeat,
    batch, report, resolution, yield and completion under it is refused as stale and
    changes nothing, however many calls come between, until a claim draws that token. *)
Theorem lost_fence_refused o db cs c f :
  reachable o db → unowned f.(f_run_token) db →
  Forall (λ c, call_ok c ∧ draws c ≠ Some f.(f_run_token)) cs →
  fence_of c = Some f → call_ok c → well_formed c →
  exec c (exec_all cs db) = (exec_all cs db, Err (storage_error WorkflowRunStale)).
Proof.
  intros Hre Hn Hcs Hf Hok Hwf. apply (fenced_stale c f); [done..|].
  apply exec_all_unowned; [by eapply reachable_ok|done..].
Qed.

(** ** Settlement *)

(** C14. A report is committed only under the exact run, attempt and token, and its verdict
    is the one of the stored deadline and policy: late reports time out, a success on time
    completes the step with its value, and a failure is retried after the delay of the
    policy while retries are left, else settled.  No other step changes. *)
Theorem report_settles_exactly o db f a outcome now limits db' r :
  reachable o db → settle_workflow_step f a outcome now limits db = (db', Ok r) →
  settles f a outcome now limits db db' r.
Proof. intros Hre. apply settle_exact. by eapply reachable_ok. Qed.

(** C15. An attempt is settled at most once: after a committed report every further report
    on the attempt is refused and changes nothing, whatever calls come between, as long as
    the instance is not restarted or purged. *)
Theorem attempt_settled_once o db f a outcome now limits db' r cs outcome' now' limits' :
  reachable o db → clock now → limits_unsigned limits →
  settle_workflow_step f a outcome now limits db = (db', Ok r) →
  Forall (λ c, call_ok c ∧ spares f.(f_instance_id) c) cs →
  ∃ e, settle_workflow_step f a outcome' now' limits' (exec_all cs db') = (exec_all cs db', Err e).
Proof.
  intros Hre Hnow Hl Hrun Hcs. pose proof (reachable_ok _ _ Hre) as Hst.
  destruct (settle_exact _ _ _ _ _ _ _ _ (proj1 Hst) Hrun) as (w & s & w' & n & Hw & _ & Hs & _ & Ha & _ & _ & Hr & Hat & Hn).
  assert (Hst' : store_ok db').
  { pose proof (exec_store (CallSettle f a outcome now limits) db Hst (conj Hnow Hl)) as Hx. cbn in Hx.
    unfold mbind, M_bind in Hx. by rewrite Hrun in Hx. }
  destruct (exec_all_keeps cs _ _ _ Hst' Hcs (at_lookup _ _ _ _ Hat)) as (Hst2 & w2 & Hw2 & (_ & _ & _ & _ & Hk)).
  destruct (Hk (Z.to_nat (a_ordinal a)) n) as (n2 & Hn2 & (_ & _ & _ & _ & _ & Hover & _)).
  { rewrite Hn. apply list_lookup_insert_eq. by eapply lookup_lt_Some. }
  eapply settle_again; [apply Hst2|done..|]. apply Hover. rewrite <- Ha. by eapply reported_over.
Qed.

(** ** Events *)

(** In every reachable store an event is consumed at most once: the sequence numbers
    the waits of an instance took are distinct and were all issued, no taken event is still
    in the inbox, and the inbox is in the order of its sequence numbers. *)
Theorem events_consumed_once o db id w :
  reachable o db → db.(workflows) !! id = Some w →
  NoDup (consumed_of w.(steps)) ∧ Forall (λ q, q < w.(row).(next_event_seq)) (consumed_of w.(steps)) ∧
  Forall (λ e, e.(event_seq) ∉ consumed_of w.(steps)) w.(events) ∧ increasing (event_seq <$> w.(events)).
Proof.
  intros Hre Hw. destruct (proj1 (reachable_ok _ _ Hre) _ _ Hw) as [Hok _].
  pose proof (ok_history _ Hok) as Hh. destruct (h_events _ Hh) as (Hinc & Hfit & Hlt). split_and!; [|done| |].
  - by apply consumed_NoDup.
  - eapply Forall_impl; [exact Hfit|]. by intros e (_ & _ & _ & ? & _).
  - by eapply increasing_tail.
Qed.

(** ** Restart and purge *)

(** C17. A decided operation is replayed: applying it again, at any time and under any
    limits, returns the recorded decision and changes nothing, and every other operation
    on the instance with its sequence number or a lower one is refused. *)
Theorem operation_replayed op now limits db db' r now' limits' :
  apply_workflow_operation op now limits db = (db', Ok r) →
  WorkflowsConfig_validate limits' = Ok () → is_ok (durable_deadline now' 0) = true →
  apply_workflow_operation op now' limits' db' = (db', Ok r) ∧
  ∀ op', op'.(op_identity).(instance_id) = op.(op_identity).(instance_id) → op'.(op_sequence) ≤ op.(op_sequence) →
    (op'.(op_sequence) = op.(op_sequence) → op'.(op_id) ≠ op.(op_id)) →
    ∃ e, apply_workflow_operation op' now' limits' db' = (db', Err e).
Proof.
  intros Hrun%apply_decided Hv Hd. split; [by apply apply_replay|]. intros op' Hid Hle Hne. by eapply apply_superseded.
Qed.
End theorems.

(** ** Witnesses *)


#[local] Instance unsigned_dec c : Decision (unsigned c).
Proof. unfold unsigned. destruct c; apply _. Defined.
Definition demo_rows (w : Workflow) : bool :=
  bool_decide (instance_check w.(row) ∧ Forall step_check w.(steps) ∧
               Forall (λ s, unsigned s.(descriptor).(config)) w.(steps)).
Lemma demo_rows_ok w : demo_rows w = true →
  instance_check w.(row) ∧ Forall step_check w.(steps) ∧ Forall (λ s, unsigned s.(descriptor).(config)) w.(steps).
Proof. apply bool_decide_eq_true. Qed.

Lemma verification_exact_witness : verify_row (demo_at demo_running) = Ok () ∧ history_ok (demo_at demo_running).
Proof.
  assert (Hv : verify_row (demo_at demo_running) = Ok ()) by (vm_compute; reflexivity). split; [exact Hv|].
  assert (Hr : demo_rows (demo_at demo_running) = true) by (vm_compute; reflexivity).
  apply demo_rows_ok in Hr as (H1 & H2 & H3). exact (proj1 (proj1 (verification_exact _ H1 H2 H3) Hv)).
Defined.

Lemma reachable_histories_verify_witness : verify_row (demo_at demo_running) = Ok ().
Proof.
  apply (reachable_histories_verify 1 demo_running 9); [exact demo_running_reachable|vm_compute; reflexivity|].
  intros _. apply Forall_forall. vm_compute. intros s Hs. apply list_elem_of_singleton in Hs as ->. discriminate.
Defined.

Lemma reachable_doctor_clean_witness : workflow_invalid_rows demo_running = 0.
Proof. exact (reachable_doctor_clean 1 demo_running demo_running_reachable). Defined.

Lemma committed_work_final_witness :
  call_keeps (CallSettle demo_fence demo_attempt (OutcomeSuccess demo_value) 2 demo_limits) demo_settled 9
    (demo_at demo_running).
Proof.
  apply (committed_work_final 1 demo_running); [exact demo_running_reachable|demo_ok|vm_compute; reflexivity].
Defined.

(** The lease expires and the run is taken back; the callback reports to nobody. *)
Lemma lost_fence_refused_witness :
  let db := (exec (CallRecover 100000 demo_limits 32) demo_running).1 in
  let c := CallSettle demo_fence demo_attempt (OutcomeSuccess demo_value) 100001 demo_limits in
  exec c (exec_all [CallClaim demo_identity (Some 101%N) 200000 demo_limits] db) =
  (exec_all [CallClaim demo_identity (Some 101%N) 200000 demo_limits] db, Err (storage_error WorkflowRunStale)).
Proof.
  intros db c. apply (lost_fence_refused 1 db _ c demo_fence).
  - apply reach_call; [exact demo_running_reachable|demo_ok].
  - apply (bool_decide_unpack _). vm_compute. exact I.
  - demo_ok.
  - reflexivity.
  - demo_ok.
  - reflexivity.
Defined.

Lemma report_settles_exactly_witness :
  settles demo_fence demo_attempt (OutcomeSuccess demo_value) 2 demo_limits demo_running demo_settled (ResComplete (Some demo_value)).
Proof.
  apply (report_settles_exactly 1 _ _ _ _ _ demo_limits); [exact demo_running_reachable|vm_compute; reflexivity].
Defined.

Lemma attempt_settled_once_witness :
  ∃ e, settle_workflow_step demo_fence demo_attempt (OutcomeFailure WorkflowExecutionFailed) 4 demo_limits
         (exec_all [CallBatch demo_fence [demo_step 1 "ship" [0]] demo_rng 300000 3 demo_limits] demo_settled) =
       (exec_all [CallBatch demo_fence [demo_step 1 "ship" [0]] demo_rng 300000 3 demo_limits] demo_settled, Err e).
Proof.
  apply (attempt_settled_once 1 demo_running demo_fence demo_attempt (OutcomeSuccess demo_value) 2 demo_limits demo_settled
    (ResComplete (Some demo_value))); [exact demo_running_reachable|demo_ok|demo_ok|vm_compute; reflexivity|demo_ok].
Defined.

(** The wait takes the first payment; the second stays in the inbox. *)
Lemma events_consumed_once_witness :
  consumed_of (demo_at demo_received).(steps) = [1] ∧ Forall (λ e, e.(event_seq) ∉ [1]) (demo_at demo_received).(events).
Proof.
  split; [vm_compute; reflexivity|].
  assert (Hc : consumed_of (demo_at demo_received).(steps) = [1]) by (vm_compute; reflexivity). rewrite <- Hc.
  apply (events_consumed_once 1 demo_received 9); [exact demo_received_reachable|vm_compute; reflexivity].
Defined.

Lemma operation_replayed_witness :
  let db := (apply_workflow_operation demo_restart 5 demo_limits demo_done).1 in
  apply_workflow_operation demo_restart 6 demo_limits db = (db, Ok (Applied demo_restart)).
Proof.
  intros db. refine (proj1 (operation_replayed demo_restart 5 demo_limits demo_done db (Applied demo_restart) 6 demo_limits _ _ _));
    vm_compute; reflexivity.
Defined.

(** ** Executions that fail *)

(** The first step is complete and the second one runs. *)
Definition second_running : list Call := demo_start ++ [
  CallSettle demo_fence demo_attempt (OutcomeSuccess demo_value) 2 demo_limits;
  CallBatch demo_fence [demo_step 1 "ship" [0]] demo_rng 300000 3 demo_limits].

(** After a rollback request on an instance with an unfinished step, which the request
    cancels, the history of the instance no longer verifies, although it did before and the
    instance is still live: the check that precedes every claim refuses the run that would
    execute the rollback. *)
Theorem rollback_request_unverifiable :
  ∃ db, reachable 1 db ∧ verify_workflow_history 9 (exec_all second_running (empty_store 1)) =
      (exec_all second_running (empty_store 1), Ok ()) ∧
    request_workflow_rollback demo_identity 4 demo_limits (exec_all second_running (empty_store 1)) = (db, Ok ()) ∧
    verify_workflow_history 9 db = (db, Err violation).
Proof.
  exists (exec (CallRollback demo_identity 4 demo_limits) (exec_all second_running (empty_store 1))).1.
  split; [apply reach_call; [apply reach_all; [constructor|demo_ok]|demo_ok]|].
  split_and!; vm_compute; reflexivity.
Qed.

(** Pausing such an instance is accepted, resuming it is not: it would wait without a
    deadline. *)
Theorem rolled_back_pause_not_resumable :
  ∃ db, reachable 1 db ∧
    (modify_workflow demo_identity Pause 5 demo_limits
      (exec (CallRollback demo_identity 4 demo_limits) (exec_all second_running (empty_store 1))).1) = (db, Ok ()) ∧
    modify_workflow demo_identity Resume 6 demo_limits db = (db, Err violation).
Proof.
  exists (exec (CallModify demo_identity Pause 5 demo_limits)
    (exec (CallRollback demo_identity 4 demo_limits) (exec_all second_running (empty_store 1))).1).1.
  split; [do 2 (apply reach_call; [|demo_ok]); apply reach_all; [constructor|demo_ok]|].
  split_and!; vm_compute; reflexivity.
Qed.

(** A running instance whose lease has expired cannot be terminated until it is recovered. *)
Theorem expired_run_not_terminable :
  ∃ db, reachable 1 db ∧ modify_workflow demo_identity Terminate 100000 demo_limits db = (db, Err violation) ∧
    (modify_workflow demo_identity Terminate 100001 demo_limits (exec (CallRecover 100000 demo_limits 32) db).1).2 = Ok ().
Proof.
  exists (exec_all second_running (empty_store 1)).
  split; [apply reach_all; [constructor|demo_ok]|]. split_and!; vm_compute; reflexivity.
Qed.

(** The rollback request committed between the verification of an instance and its claim,
    so that the run of the rollback holds an instance with a cancelled step; another
    instance runs as well, and both leases expire. *)
Definition other_identity : WorkflowInstanceIdentity :=
  {| demo_identity with instance_id := 10; external_instance_id := lit "other"; creation_nonce := 8;
                        creation_operation_id := 8; creation_batch_id := 8 |}.
Definition poisoned : list Call := second_running ++ [
  CallRollback demo_identity 4 demo_limits;
  CallClaim demo_identity (Some 101%N) 5 demo_limits;
  CallInsert [(other_identity, demo_value, Some WorkflowRetention_default)] demo_limits;
  CallClaim other_identity (Some 102%N) 6 demo_limits].

(** One such instance stops the recovery of every run: the pass is one transaction and it
    fails on the instance, which has no step to run and no deadline to wait for. *)
Theorem recovery_poisoned :
  ∃ db, reachable 1 db ∧
    (state ∘ row) <$> db.(workflows) !! 10%N = Some WRunning ∧
    recover_workflows 100000 demo_limits 32 db = (db, Err violation).
Proof.
  exists (exec_all poisoned (empty_store 1)).
  split; [apply reach_all; [constructor|demo_ok]|]. split; vm_compute; reflexivity.
Qed.
