(* ===== verification/WorkflowAccept.v ===== *)
(** * What the workflow store always accepts

    The calls of the executor that holds a run succeed: a heartbeat, and a report on a
    running attempt whatever its outcome, because no constraint or trigger stops the
    statements they make on a well-formed instance. *)

From stdpp Require Import base numbers list option strings sorting gmap.
From S2P Require Import Prelude Text ErrorCodes Duration RetryPolicy WorkflowTypes Sql WorkflowDb WorkflowRuns WorkflowSteps WorkflowBatch WorkflowHistory WorkflowLifecycle WorkflowOperations WorkflowSpec WorkflowVerify WorkflowStmt WorkflowEvolve WorkflowMoves WorkflowReach WorkflowProps.

Local Open Scope Z_scope.

Section accept.
Context `{Codec}.

(** ** Reads *)

Lemma running_total f now db w :
  db.(workflows) !! f.(f_instance_id) = Some w → wf_ok w → holds f now w.(row) → running f now db = (db, Ok w.(row)).
Proof.
  intros Hw Hok Hh. unfold running, select_instance. run_simpl. rewrite Hw. cbn. rewrite decide_True by done.
  unfold instance_row, bail_if. rewrite decide_False by (intros Hx; apply Hx, Hok). done.
Qed.

Lemma ok_readable w k s : wf_ok w → w.(steps) !! k = Some s → step_readable s.
Proof.
  intros Hok Hs. destruct (h_steps _ (ok_history _ Hok) _ _ Hs) as ((Hv & _) & (_ & _ & Hn) & _).
  unfold step_readable. rewrite Hv.
  assert (He : (s_error_json s = None ∧ s_error_code s = None) ∨
               (s_error_json s = Some failure_json ∧ ∃ e, s_error_code s = Some e ∧ e ∈ terminal_codes)).
  { assert (WorkflowStepTimeout ∈ terminal_codes ∧ WorkflowEventTimeout ∈ terminal_codes ∧
            WorkflowExecutionFailed ∈ terminal_codes) as (? & ? & ?)
      by (split_and!; apply (bool_decide_unpack _); vm_compute; exact I).
    unfold do_norm, sleep_norm, event_norm, columns in Hn. destruct (config (descriptor s)), (s_state s);
      repeat match goal with H : _ ∧ _ |- _ => destruct H | H : ∃ _, _ |- _ => destruct H
        | H : _ = WorkflowExecutionFailed ∨ _ |- _ => destruct H end; simplify_eq/=; try done; naive_solver. }
  destruct He as [[-> ->]|(-> & e & -> & ?)]; cbn; split_and!; try done; split; eauto; intros [? ?]; done.
Qed.

Lemma read_step_total id o db w s :
  db.(workflows) !! id = Some w → wf_ok w → w.(steps) !! Z.to_nat o = Some s →
  read_step id o db = (db, Ok (Some s)).
Proof.
  intros Hw Hok Hs. unfold read_step, steps_of. run_simpl. rewrite Hw. cbn. rewrite Hs.
  rewrite decide_False by (intros Hx; apply Hx; by eapply ok_readable). done.
Qed.

(** ** Statements *)

(** An update of the lease, of the requests to pause or yield, or of the time. *)
Lemma touch_total w n :
  instance_check w.(row) → w.(row).(acct) = accounting w → w.(row).(state) = WRunning →
  w.(row).(has_activated) = true →
  (∃ r p y u, n = {| w.(row) with run := Some r; pause_requested := p; yield_requested := y; updated_at_ms := u |} ∧
    r.(run_claimed_at_ms) < r.(run_lease_until_ms) ∧
    is_none_or (λ r', r'.(run_token) = r.(run_token) ∧ r'.(run_claimed_at_ms) = r.(run_claimed_at_ms) ∧
                      r'.(run_lease_until_ms) ≤ r.(run_lease_until_ms)) w.(row).(run) ∧
    (w.(row).(pause_requested) = true → p = true) ∧ (w.(row).(yield_requested) = true → y = true)) →
  instance_guards false w n.
Proof.
  intros Hc Ha Hst Hact (r & p & y & u & -> & Hr & Hsame & Hp & Hy).
  unfold instance_guards. split_and!.
  - unfold instance_check, lease_check, expiry_check, marker_check in *. cbn. rewrite Hst in *. cbn in *. naive_solver.
  - cbn. rewrite accounting_row; done.
  - unfold run_ok. cbn. rewrite Hst. split; [|split; [|split]]; [|by intros _ [?|[?|?]]|done|done].
    intros _ _. destruct (run (row w)) as [r'|]; cbn in *; [split; [exact Hsame|by split]|by split].
  - by rewrite Hst.
  - done.
  - cbn. lia.
Qed.

Lemma opt_len_nonneg o : 0 ≤ opt_len o.
Proof. destruct o; cbn; [apply str_len_nonneg|lia]. Qed.
Lemma step_bytes_nonneg s : 0 ≤ step_bytes s.
Proof.
  unfold step_bytes, descriptor_bytes, WORKFLOW_STEP_BYTES, WORKFLOW_DEPENDENCY_BYTES.
  pose proof (opt_len_nonneg (output_text <$> s_output s)). pose proof (opt_len_nonneg (s_error_json s)).
  pose proof (str_len_nonneg (name (descriptor s))). pose proof (str_len_nonneg (canonical_config_json (descriptor s))). lia.
Qed.
Lemma sum_nonneg {A} (g : A → Z) l : Forall (λ x, 0 ≤ g x) l → 0 ≤ sql_sum g l.
Proof. unfold sql_sum. induction 1; cbn; lia. Qed.
Lemma initial_nonneg i n : 0 ≤ n → 0 ≤ initial_state_bytes i n.
Proof.
  intros Hn. unfold initial_state_bytes, WORKFLOW_INSTANCE_BYTES.
  pose proof (str_len_nonneg (definition_name (target i))). pose proof (str_len_nonneg (external_instance_id i)).
  pose proof (str_len_nonneg (class_name (target i))).
  destruct (schedule i) as [c|]; cbn; [pose proof (str_len_nonneg (cron c))|]; lia.
Qed.
Lemma count_length (P : Step → Prop) `{!∀ s, Decision (P s)} ss : 0 ≤ count P ss ≤ Z.of_nat (length ss).
Proof. unfold count. pose proof (length_filter P ss). lia. Qed.

Lemma count_settled ss :
  count (λ s, s.(s_state) = SComplete) ss ≤ count (λ s, step_settled s.(s_state) = true) ss.
Proof.
  unfold count. induction ss as [|s ss IH]; [done|]. rewrite !filter_cons.
  destruct (s_state s); repeat (case_decide; cbn [step_settled length] in *); try done; lia.
Qed.

(** The projection of as many steps as before fits the constraints of a live row. *)
Lemma account_total w ss :
  wf_ok w → is_terminal w.(row).(state) = false → length ss = length w.(steps) →
  (w.(row).(state) = WRunning → w.(row).(has_activated) = true) →
  is_Some (account 0 {| w with steps := ss |}).
Proof.
  intros Hok Hlive Hlen Hact. pose proof (ok_row _ Hok) as Hc. pose proof (h_acct _ (ok_history _ Hok)) as Ha.
  assert (Hev : Forall (λ e, 0 ≤ e.(logical_bytes)) w.(events)).
  { destruct (h_events _ (ok_history _ Hok)) as (_ & Hf & _). eapply Forall_impl; [exact Hf|].
    intros e (_ & _ & _ & _ & -> & _). unfold WORKFLOW_EVENT_BYTES.
    pose proof (str_len_nonneg (e_type e)). pose proof (str_len_nonneg (e_payload e)). lia. }
  unfold account, update_instance. rewrite decide_True; [eauto|]. unfold instance_guards. cbn. split_and!.
  - assert (Hreg : (row w).(acct).(registered_step_count) ≤ 1024) by apply Hc. rewrite Ha in Hreg. cbn in Hreg.
    unfold instance_check in *. destruct Hc as (H1 & H2 & H3 & H4 & H5 & H6 & H7 & H8 & H9 & H10 & H11 & H12 & H13 & H14 & H15 & H16 & _ & _ & _ & _ & _ & H22).
    cbn. rewrite Z.add_0_r. split_and!; try done; try lia.
    + unfold lease_check in *. cbn. by destruct (state (row w)).
    + unfold count. lia.
    + apply count_settled.
    + apply count_length.
    + by apply sum_nonneg.
    + pose proof (initial_nonneg (identity (row w)) (str_len (input_json (row w))) (str_len_nonneg _)).
      pose proof (opt_len_nonneg (output_json (row w))). pose proof (opt_len_nonneg (error_json (row w))).
      pose proof (sum_nonneg step_bytes ss ltac:(apply Forall_true, step_bytes_nonneg)).
      pose proof (sum_nonneg logical_bytes _ Hev). unfold sql_sum in *. lia.
  - done.
  - unfold run_ok. cbn. split_and!; try done.
    + intros _ _. destruct (run (row w)); by split_and!.
    + intros -> [?|[?|?]]; done.
    + intros -> ?. done.
  - done.
  - done.
  - lia.
Qed.

Lemma update_step_total w o s g :
  wf_ok w → w.(row).(state) = WRunning → w.(steps) !! o = Some s → step_guards w s (g s) →
  ∃ w', update_step o g w = Some w' ∧ (∃ a, w'.(row) = {| w.(row) with acct := a |}) ∧
    instance_check w'.(row) ∧ w'.(row).(acct) = accounting w'.
Proof.
  intros Hok Hst Hs Hg. pose proof (h_activated _ (ok_history _ Hok)) as Hact.
  unfold update_step. rewrite Hs, decide_True by done.
  destruct (account_total w (<[o := g s]> w.(steps)) Hok) as [w' Hw'];
    [by rewrite Hst|by rewrite length_insert|intros _; apply Hact; by right|].
  exists w'. split; [done|]. apply account_Some in Hw' as (-> & Hc & _). split_and!; [|done|done].
  eexists. cbn. rewrite Z.add_0_r. reflexivity.
Qed.

(** *** The constraints of an attempted step *)

Lemma failure_json_fits : str_len failure_json ≤ 8192.
Proof. vm_compute. discriminate. Qed.

Lemma value_fits v : valid_value v = true → str_len v ≤ 1398112.
Proof.
  unfold valid_value, durable_value_base64, durable_value_bytes, bail_if. case_decide as Hx; [done|]. intros _. lia.
Qed.

Lemma do_norm_check i c s :
  s.(descriptor).(config) = CDo c → c.(retries).(limit) ≤ 100 → is_none_or (λ d, 0 ≤ d ≤ 86400000) s.(retry_delay_ms) →
  1 ≤ c.(timeout) → do_norm i c s → step_check s.
Proof.
  intros Hc Hl Hd Ht (Hce & Hco & Hn). pose proof failure_json_fits as Hf.
  assert (Hk : s_kind s = KDo) by (unfold s_kind; by rewrite Hc).
  unfold step_check. rewrite Hk, Hce, Hco.
  assert (Htr : untried s ∨ tried c s → 0 ≤ s.(attempt) ≤ 101 ∧
    (attempt_started_at_ms s = None ↔ attempt_deadline_at_ms s = None) ∧
    is_none_or (λ d, is_some_and (λ t, t < d) (attempt_started_at_ms s)) (attempt_deadline_at_ms s)).
  { intros [(-> & -> & ->)|(? & t & -> & -> & _)]; cbn; split_and!; try done; lia. }
  unfold columns in Hn. destruct (s_state s) eqn:Hst; cbn in *; try done.
  all: repeat match goal with H : _ ∧ _ |- _ => destruct H | H : ∃ _, _ |- _ => destruct H end; simplify_eq/=.
  all: rew_cols; cbn; split_and!; try done; try (by split; intros; destruct_or?; try done; eauto); try tauto.
  all: try (by split; [intros [? ?]|intros [? _]]); try (match goal with Hx : is_none_or _ (Some _) |- _ => cbn in Hx; lia end); try by apply value_fits.
  all: right;
    match goal with
    | Hx : untried _ ∨ tried _ _ |- _ => destruct Hx as [(? & E & _)|(? & ? & E & _)]
    | Hx : tried _ _ |- _ => destruct Hx as (? & ? & E & _)
    end;
    match goal with E : attempt_started_at_ms _ = _ |- _ => rewrite E end; first [by right; split; [lia|eauto]|left; split_and!; auto].
Qed.

Lemma resolved_total p a r d :
  WorkflowRetryPolicy_validate p = Ok () → 1 ≤ a ≤ 101 → base_delay p r = Some d → d ≤ WORKFLOW_MAX_DURATION_MS →
  ∃ ms, delay_after_resolved p a r = Ok ms ∧ 0 ≤ ms ≤ 86400000.
Proof.
  intros Hv Ha Hb Hd. unfold delay_after_resolved. rewrite Hv. cbn [mbind result_bind]. unfold bail_if.
  rewrite decide_False by tauto. cbn [mbind result_bind].
  assert (match delay p, r with
    | Some delay, None | None, Some delay => if decide (delay ≤ WORKFLOW_MAX_DURATION_MS) then Ok delay else Err policy_unsupported
    | _, _ => Err policy_unsupported end = Ok d) as ->.
  { unfold base_delay in Hb. destruct (delay p), r; simplify_eq; by rewrite decide_True. }
  cbn [mbind result_bind]. eexists. split; [done|]. unfold WORKFLOW_MAX_RETRY_DELAY_MS, u64_saturate. lia.
Qed.


Lemma execute_total id g db w w' :
  db.(workflows) !! id = Some w → g w = Some w' → execute id g db = (set_workflow id w' db, Ok ()).
Proof. intros Hw Hg. unfold execute, execute_on. run_simpl. rewrite Hw, decide_True, Hg by done. done. Qed.
Lemma execute_on_total id (P : Workflow → Prop) `{!∀ w, Decision (P w)} g db w w' :
  db.(workflows) !! id = Some w → P w → g w = Some w' → execute_on id P g db = (set_workflow id w' db, Ok 1).
Proof. intros Hw HP Hg. unfold execute_on. by rewrite Hw, decide_True, Hg. Qed.

(** ** Reports *)

(** A row as a fenced call finds it after the statements on its steps. *)
Definition steady (w w' : Workflow) : Prop :=
  (∃ a, w'.(row) = {| w.(row) with acct := a |}) ∧ instance_check w'.(row) ∧ w'.(row).(acct) = accounting w'.

Lemma steady_holds f now w w' : steady w w' → holds f now w.(row) → holds f now w'.(row).
Proof. intros [[a ->] _]. done. Qed.

Section report.
Context (db : WorkflowDb) (w : Workflow) (f : WorkflowFence) (o : nat) (s : Step) (now : Z) (cfg : WorkflowStepConfig).
Context (Hw : db.(workflows) !! f.(f_instance_id) = Some w) (Hok : wf_ok w) (Hh : holds f now w.(row)).
Context (Hs : w.(steps) !! o = Some s) (Hst : s.(s_state) = SRunning) (Htok : s.(s_run_token) = Some f.(f_run_token)).
Context (Hcfg : s.(descriptor).(config) = CDo cfg).
Context (Hnow : 0 ≤ now ∧ now + 86400000 ≤ WORKFLOW_MAX_SAFE_INTEGER).

Lemma report_norm : do_norm w.(row) cfg s.
Proof.
  destruct (h_steps _ (ok_history _ Hok) _ _ Hs) as (_ & (_ & _ & Hn) & _). by rewrite Hcfg in Hn.
Qed.
Lemma report_config :
  WorkflowRetryPolicy_validate cfg.(retries) = Ok () ∧ cfg.(retries).(limit) ≤ 100 ∧
  is_none_or (λ d, d ≤ WORKFLOW_MAX_DURATION_MS) cfg.(retries).(delay) ∧ 1 ≤ cfg.(timeout).
Proof.
  destruct (h_steps _ (ok_history _ Hok) _ _ Hs) as ((Hv & _) & _ & _).
  assert (Hc : WorkflowStepConfig_validate cfg = Ok ()).
  { unfold WorkflowStepDescriptor_validate in Hv. rewrite Hcfg in Hv. cbn [WorkflowDurableConfig_validate] in Hv.
    destruct (WorkflowStepConfig_validate cfg) as [[]|]; done. }
  unfold WorkflowStepConfig_validate in Hc. destruct (WorkflowRetryPolicy_validate _) as [[]|] eqn:Hr; [|done].
  split; [done|]. unfold WorkflowRetryPolicy_validate, bail_if in *. repeat case_decide; try done.
  split_and!; [lia| |lia]. destruct (delay (retries cfg)); cbn in *; [lia|done].
Qed.

(** The statement that ends the attempt of a running step passes every guard. *)
Lemma report_statement g :
  do_norm w.(row) cfg (g s) → (g s).(descriptor) = s.(descriptor) → (g s).(s_updated_at_ms) = now →
  (g s).(attempt) = s.(attempt) → (g s).(attempt_started_at_ms) = s.(attempt_started_at_ms) →
  (g s).(attempt_deadline_at_ms) = s.(attempt_deadline_at_ms) →
  is_none_or (λ d, 0 ≤ d ≤ 86400000) (g s).(retry_delay_ms) →
  ((g s).(s_state) = SFailed ∨ (g s).(s_state) = SRetryWait ∨
   ((g s).(s_state) = SComplete ∧ is_some_and (λ d, now < d) s.(attempt_deadline_at_ms)) ∨
   ((g s).(s_state) = SDelayPending ∧ (g s).(s_error_code) = Some WorkflowStepTimeout ∧
    is_some_and (λ d, d ≤ now) s.(attempt_deadline_at_ms))) →
  ∃ w', execute f.(f_instance_id) (update_step o g) db = (set_workflow f.(f_instance_id) w' db, Ok ()) ∧ steady w w'.
Proof.
  intros Hn Hd Hu Ha Has Had Hr Hend. destruct report_config as (_ & Hl & _ & Ht). destruct Hh as (_ & Hown & Hlease).
  assert (Hg : step_guards w s (g s)).
  { split_and!.
    - eapply do_norm_check; try done. by rewrite Hd.
    - left. done.
    - unfold step_transition, deadline_passed. rewrite Hst, Hu, Htok.
      destruct Hend as [->|[->|[[-> ?]|(-> & -> & ?)]]]; cbn; split_and!; try done.
    - unfold wait_ok. by rewrite Hst. }
  destruct (update_step_total _ _ _ g Hok (proj1 Hown) Hs Hg) as (w' & Hup & ? & ? & ?).
  exists w'. split; [by apply (execute_total _ _ _ w)|done].
Qed.

Lemma report_ordinal : Z.to_nat s.(descriptor).(ordinal) = o.
Proof. by eapply ok_ordinal. Qed.
Lemma report_tried : tried cfg s.
Proof. destruct report_norm as (_ & _ & Hn). rewrite Hst in Hn. by destruct Hn. Qed.
Lemma report_safe d : 0 ≤ d ≤ 86400000 → durable_deadline now d = Ok (now + d) ∧ safe (now + d).
Proof.
  intros Hd. assert (Hs' : safe (now + d)) by (unfold safe; lia). split; [|done].
  unfold durable_deadline, workflow_deadline. rewrite (safe_i64 d) by (unfold safe; lia). cbn. rewrite safe_i64 by done. cbn. unfold bail_if.
  rewrite decide_False; [done|]. unfold safe in Hs'. lia.
Qed.

(** What a failure needs of the policy: a delay when the attempt is to be retried. *)
Definition delay_given (c : ErrorCode) (resolved : option Z) : Prop :=
  (c = WorkflowExecutionFailed ∨ c = WorkflowStepTimeout) ∧ s.(attempt) ≤ cfg.(retries).(limit) →
  is_some_and (λ d, d ≤ WORKFLOW_MAX_DURATION_MS) (base_delay cfg.(retries) resolved).

Lemma fail_total c resolved :
  c ∈ terminal_codes → delay_given c resolved →
  ∃ w' r, fail f.(f_instance_id) s c resolved now db = (set_workflow f.(f_instance_id) w' db, Ok r) ∧ steady w w'.
Proof.
  intros Hc Hd. destruct report_config as (Hv & Hl & _ & _). destruct report_tried as (Hta & _).
  pose proof report_norm as Hn. unfold fail, terminal_error_code. rewrite decide_True by done. rewrite Hcfg, retry_decided.
  run_simpl. rewrite decide_False by (intros [?|Hx]; [lia|tauto]). case_bool_decide as Hre; cbn.
  - destruct (base_delay (retries cfg) resolved) as [d|] eqn:Hb; [|by specialize (Hd Hre); rewrite Hb in Hd].
    assert (Hle : d ≤ WORKFLOW_MAX_DURATION_MS) by (specialize (Hd Hre); by rewrite Hb in Hd).
    destruct (resolved_total _ s.(attempt) _ _ Hv ltac:(lia) Hb Hle) as (ms & Hms & Hrange). rewrite Hms.
    destruct (report_safe ms Hrange) as [-> Hsafe].
    destruct (report_statement (set_failed true c (Some (now + ms)) (Some ms) now)) as (w' & Hx & Hsteady); try done.
    + apply do_retry; try done; try lia; try tauto; [|by rewrite Hst].
      intros. by eapply resolved_delay.
    + auto.
    + rewrite report_ordinal, Hx. eauto.
  - set (code := if bool_decide (c = WorkflowExecutionFailed) then WorkflowStepRetriesExhausted else c).
    destruct (report_statement (set_failed false code None None now)) as (w' & Hx & Hsteady); try done.
    + apply do_failed; try done; [lia| |by rewrite Hst]. unfold code. case_bool_decide; [|done].
      by apply (bool_decide_unpack _).
    + auto.
    + rewrite report_ordinal, Hx. eauto.
Qed.

Lemma defer_total :
  cfg.(retries).(delay) = None → is_some_and (λ d, d ≤ now) s.(attempt_deadline_at_ms) →
  ∃ w' r, defer_dynamic_failure f.(f_instance_id) s WorkflowStepTimeout now db =
    (set_workflow f.(f_instance_id) w' db, Ok r) ∧ steady w w'.
Proof.
  intros Hd Hlate. destruct report_tried as (Hta & _). pose proof report_norm as Hn.
  unfold defer_dynamic_failure. rewrite Hcfg. run_simpl.
  rewrite decide_False by (rewrite Hd; intros [[? ?]|[?|[?|?]]]; [done|lia|tauto|done]).
  destruct (report_statement (set_deferred WorkflowStepTimeout now)) as (w' & Hx & Hsteady); try done.
  - apply do_deferred; try done; [lia|by rewrite Hst].
  - auto 10.
  - rewrite report_ordinal, Hx. eauto.
Qed.

Lemma step_timeout_total :
  is_some_and (λ d, d ≤ now) s.(attempt_deadline_at_ms) →
  ∃ w' r, step_timeout f.(f_instance_id) s now db = (set_workflow f.(f_instance_id) w' db, Ok r) ∧ steady w w'.
Proof.
  intros Hlate. unfold step_timeout, dynamic_delay_step. rewrite Hcfg. case_bool_decide as Hd; [by apply defer_total|].
  apply fail_total; [by apply (bool_decide_unpack _)|]. intros _. destruct report_config as (_ & _ & Hle & _).
  unfold base_delay. destruct (delay (retries cfg)); done.
Qed.

Lemma success_total v limits :
  all_ok db → is_some_and (λ d, now < d) s.(attempt_deadline_at_ms) →
  ∃ w' r, (charged ← charge_output f.(f_instance_id) v limits;
    match charged with
    | inl output => _ ← execute f.(f_instance_id) (update_step o (set_succeeded output now)); mret (ResComplete (Some output))
    | inr c => fail f.(f_instance_id) s c None now
    end) db = (set_workflow f.(f_instance_id) w' db, Ok r) ∧ steady w w'.
Proof.
  intros Hall Hearly. destruct Hh as (_ & [Hrun _] & _).
  assert (Hlive : live w.(row) = true) by (unfold live; by rewrite Hrun).
  assert (Hc : ∃ x, charge_output f.(f_instance_id) v limits db = (db, Ok x) ∧
    match x with inl v => valid_value v = true | inr c => c ∈ terminal_codes ∧ retryable c = false end).
  { unfold charge_output. destruct (durable_value_base64 v _) as [y|e] eqn:Hv.
    - apply durable_value_Ok in Hv as [-> Hv]. destruct (capacity_change _ _ _ _ _) as [db' [u|e]] eqn:Hcap; pose proof Hcap as Hp;
        apply pure_run in Hp as ->; try apply capacity_change_pure; eexists; (split; [done|]); [done|].
      rewrite (capacity_error _ _ _ _ _ _ _ Hall Hw Hlive (str_len_nonneg _) Hcap). split; [by apply (bool_decide_unpack _)|done].
    - eexists. split; [done|]. split; [by eapply durable_value_Err|]. revert Hv.
      unfold durable_value_base64, durable_value_bytes, bail_if.
      destruct (base64_decode v); cbn [ok_or_else mbind result_bind]; repeat (case_decide; cbn [mbind result_bind]); by intros [= <-]. }
  destruct Hc as (x & Hx & Hcase). unfold mbind, M_bind. rewrite Hx. destruct x as [y|c].
  - pose proof report_norm as Hn. destruct (report_statement (set_succeeded y now)) as (w' & Hy & Hsteady); try done.
    + apply (do_succeeded _ w.(steps)); try done. unfold step_transition. rewrite Hst. rewrite Htok. cbn. by destruct Hh as (_ & ? & ?).
    + destruct (norm_open _ _ _ Hn ltac:(by rewrite Hst)) as (_ & _ & _ & Hp & _). cbn. by rewrite (proj2 (proj2 (proj2 (Hp (or_intror Hst))))).
    + cbn. auto.
    + rewrite Hy. eauto.
  - destruct Hcase as [Hc Hr]. apply fail_total; [done|]. intros [[-> | ->] _]; done.
Qed.
End report.

(** ** The end of a fenced call *)

(** A row under a live lease that satisfies its constraints. *)
Definition held (f : WorkflowFence) (now : Z) (w : Workflow) : Prop :=
  holds f now w.(row) ∧ instance_check w.(row) ∧ w.(row).(acct) = accounting w ∧ w.(row).(has_activated) = true.

Lemma steady_held f now w w' : wf_ok w → holds f now w.(row) → steady w w' → held f now w'.
Proof.
  intros Hok Hh Hs. pose proof (steady_holds _ _ _ _ Hs Hh) as Hh'. destruct Hs as (Hrow & Hc & Ha). split_and!; try done.
  destruct Hrow as [a ->]. apply (h_activated _ (ok_history _ Hok)). right. apply Hh.
Qed.

Lemma held_lease f now w : held f now w → ∃ r, w.(row).(run) = Some r ∧ r.(run_claimed_at_ms) < r.(run_lease_until_ms).
Proof.
  intros ((_ & [Hst _] & _) & (Hl & _) & _). unfold lease_check in Hl. rewrite Hst in Hl. destruct Hl as (_ & _ & Hr).
  destruct (run (row w)) as [r|]; [eauto|done].
Qed.

Lemma request_yield_total f now db w :
  held f now w → db.(workflows) !! f.(f_instance_id) = Some w →
  ∃ w', request_yield f now db = (set_workflow f.(f_instance_id) w' db, Ok ()) ∧ held f now w'.
Proof.
  intros Hh Hw. destruct (held_lease _ _ _ Hh) as (r & Hr & Hlt). destruct Hh as (Hh & Hc & Ha & Hact).
  set (n := {| w.(row) with yield_requested := true; updated_at_ms := Z.max w.(row).(updated_at_ms) now |}).
  assert (Hg : instance_guards false w n).
  { apply touch_total; try done; [apply Hh|]. exists r, (pause_requested (row w)), true, (Z.max w.(row).(updated_at_ms) now).
    rewrite Hr. cbn. split_and!; try done. unfold n. by rewrite <- Hr. }
  exists {| w with row := n |}. split.
  - unfold request_yield, mbind, M_bind. erewrite execute_on_total; [|done|done|unfold update_instance; by rewrite decide_True]. done.
  - split_and!; [done|apply Hg..|done].
Qed.

Lemma heartbeat_total f now limits db w :
  held f now w → db.(workflows) !! f.(f_instance_id) = Some w → clock now → limits_unsigned limits →
  WorkflowsConfig_validate limits = Ok () →
  ∃ w', heartbeat f now limits db = (set_workflow f.(f_instance_id) w' db, Ok ()).
Proof.
  intros Hh Hw Hnow Hl Hv. destruct (held_lease _ _ _ Hh) as (r & Hr & Hlt). destruct Hh as (Hh & Hc & Ha & Hact).
  destruct (limits_bounds _ Hl Hv) as [Hlease _].
  assert (Hd : workflow_deadline now limits.(lease_ms) = Ok (now + limits.(lease_ms))).
  { unfold workflow_deadline, clock in *. rewrite (safe_i64 (lease_ms limits)) by (unfold safe; lia). cbn.
    rewrite safe_i64 by (unfold safe; lia). done. }
  assert (Hg : instance_guards false w (set_heartbeat (now + limits.(lease_ms)) now w.(row))).
  { apply touch_total; try done; [apply Hh|].
    exists {| r with run_lease_until_ms := Z.max r.(run_lease_until_ms) (now + lease_ms limits) |},
      (pause_requested (row w)), (yield_requested (row w)), (Z.max w.(row).(updated_at_ms) now).
    unfold set_heartbeat. rewrite Hr. cbn. split_and!; try done; lia. }
  eexists. unfold heartbeat. run_simpl. rewrite Hd.
  erewrite execute_on_total; [|done|done|unfold update_instance; by rewrite decide_True]. done.
Qed.

(** ** Acceptance *)

(** What a report must be to be accepted: after the deadline anything; in time a success,
    or a failure with a code the store knows that, when the attempt is to be retried, comes
    with a delay exactly when the policy has none, and with one it allows.  A timeout in
    time is none of these. *)
Definition admissible (s : Step) (outcome : WorkflowStepOutcome) (now : Z) : Prop :=
  is_some_and (λ d, d ≤ now) s.(attempt_deadline_at_ms) ∨
  match s.(descriptor).(config), outcome with
  | CDo _, OutcomeSuccess _ => True
  | CDo cfg, OutcomeFailure c => c ∈ terminal_codes ∧ delay_given s cfg c None
  | CDo cfg, OutcomeFailureWithDelay c d => c ∈ terminal_codes ∧ delay_given s cfg c (Some d)
  | _, _ => False
  end.

Lemma running_callback w k s : wf_ok w → w.(steps) !! k = Some s → s.(s_state) = SRunning →
  ∃ cfg, s.(descriptor).(config) = CDo cfg.
Proof.
  intros Hok Hs Hst. pose proof (ok_steps _ Hok) as Hc. rewrite Forall_lookup in Hc. destruct (Hc _ _ Hs) as (_ & _ & Hk & _).
  specialize (Hk Hst). unfold s_kind in Hk. destruct (config (descriptor s)); eauto; done.
Qed.

Lemma verdict_total f a outcome now limits db w s d :
  all_ok db → db.(workflows) !! f.(f_instance_id) = Some w → holds f now w.(row) →
  w.(steps) !! Z.to_nat a.(a_ordinal) = Some s → s.(s_state) = SRunning → s.(s_run_token) = Some f.(f_run_token) →
  s.(attempt_deadline_at_ms) = Some d →
  0 ≤ now ∧ now + 86400000 ≤ WORKFLOW_MAX_SAFE_INTEGER → admissible s outcome now →
  ∃ w' r, (if decide (d ≤ now) then step_timeout f.(f_instance_id) s now
    else match outcome with
      | OutcomeTimeout => throw stale
      | OutcomeFailure c => fail f.(f_instance_id) s c None now
      | OutcomeFailureWithDelay c delay_ms => fail f.(f_instance_id) s c (Some delay_ms) now
      | OutcomeSuccess output =>
          charged ← charge_output f.(f_instance_id) output limits;
          match charged with
          | inl output =>
              _ ← execute f.(f_instance_id) (update_step (Z.to_nat a.(a_ordinal)) (set_succeeded output now));
              mret (ResComplete (Some output))
          | inr c => fail f.(f_instance_id) s c None now
          end
      end) db = (set_workflow f.(f_instance_id) w' db, Ok r) ∧ steady w w'.
Proof.
  intros Hall Hw Hh Hs Hst Htok Hd Hnow Hadm. destruct (Hall _ _ Hw) as [Hok _].
  destruct (running_callback _ _ _ Hok Hs Hst) as [cfg Hcfg].
  pose proof (fail_total _ _ _ _ _ _ _ Hw Hok Hh Hs Hst Htok Hcfg Hnow) as Hfail. case_decide as Hlate.
  - eapply step_timeout_total; try done. by rewrite Hd.
  - unfold admissible in Hadm. rewrite Hd, Hcfg in Hadm. destruct Hadm as [?|Hadm]; [done|].
    destruct outcome; try done.
    + eapply success_total; try done. rewrite Hd. cbn. lia.
    + destruct Hadm. by apply Hfail.
    + destruct Hadm. by apply Hfail.
Qed.

(** The yield a suspended verdict asks for, and the heartbeat of every fenced call. *)
Lemma fenced_end_total f now limits (b : bool) db w :
  held f now w → db.(workflows) !! f.(f_instance_id) = Some w → clock now → limits_unsigned limits →
  WorkflowsConfig_validate limits = Ok () →
  ∃ db', (_ ← (if b then request_yield f now else mret ()); heartbeat f now limits) db = (db', Ok ()).
Proof.
  intros Hh Hw Hc Hl Hv.
  assert (∃ db1 w1, (if b then request_yield f now else mret ()) db = (db1, Ok ()) ∧
    db1.(workflows) !! f.(f_instance_id) = Some w1 ∧ held f now w1) as (db1 & w1 & Hy & Hw1 & Hh1).
  { destruct b; [|by eexists db, w]. destruct (request_yield_total _ _ _ _ Hh Hw) as (w1 & -> & ?).
    eexists _, w1. split_and!; [done| |done]. apply lookup_insert_eq. }
  destruct (heartbeat_total _ _ limits _ _ Hh1 Hw1) as (w2 & Hb); [done..|].
  unfold mbind, M_bind. rewrite Hy, Hb. eauto.
Qed.

Lemma settle_total f a outcome now limits db w s :
  all_ok db → db.(workflows) !! f.(f_instance_id) = Some w → holds f now w.(row) →
  w.(steps) !! Z.to_nat a.(a_ordinal) = Some s → s.(s_state) = SRunning → s.(attempt) = a.(a_attempt) →
  s.(s_run_token) = Some f.(f_run_token) → s.(s_step_token) = Some a.(a_step_token) →
  0 ≤ now ∧ now + 86400000 ≤ WORKFLOW_MAX_SAFE_INTEGER → limits_unsigned limits →
  WorkflowsConfig_validate limits = Ok () → admissible s outcome now →
  ∃ db' r, settle_workflow_step f a outcome now limits db = (db', Ok r).
Proof.
  intros Hall Hw Hh Hs Hst Ha Htok Hstok Hnow Hl Hv Hadm. destruct (Hall _ _ Hw) as [Hok _].
  destruct (running_callback _ _ _ Hok Hs Hst) as [cfg Hcfg].
  destruct (report_tried _ _ _ _ Hok Hs Hst Hcfg) as (_ & t & _ & Hd & _).
  destruct (verdict_total f a outcome now limits db w s _ Hall Hw Hh Hs Hst Htok Hd Hnow Hadm) as (w1 & r & Hverdict & Hsteady).
  destruct (fenced_end_total f now limits (suspended r) (set_workflow f.(f_instance_id) w1 db) w1) as (db' & Hend);
    [by eapply steady_held|apply lookup_insert_eq|unfold clock; lia|done..|].
  exists db', r. unfold settle_workflow_step, transaction. unfold mbind, M_bind, lift at 1. rewrite Hv.
  rewrite (running_total _ _ _ _ Hw Hok Hh), (read_step_total _ _ _ _ _ Hw Hok Hs).
  unfold some_or, throw_if, bail_if, lift at 1 2 3. cbn [ok_or_else].
  rewrite decide_False by (rewrite Hst, Ha, Htok, Hstok; tauto). rewrite Hd. cbn [ok_or_else].
  unfold mbind, M_bind in Hverdict, Hend. rewrite Hverdict. 
  destruct ((if suspended r then request_yield f now else mret ()) (set_workflow (f_instance_id f) w1 db)) as [db2 [[]|e]]; [|done].
  by rewrite Hend.
Qed.

(** *** Nothing else is accepted *)

Lemma fail_admissible id s c resolved now db db' r cfg :
  s.(descriptor).(config) = CDo cfg → fail id s c resolved now db = (db', Ok r) →
  c ∈ terminal_codes ∧ delay_given s cfg c resolved.
Proof.
  intros Hcfg Hrun. unfold fail in Hrun. rewrite Hcfg in Hrun.
  apply bind_run in Hrun as (db0 & u & Hc & Hrun). apply lift_run in Hc as [-> [-> Hc]%terminal_error_code_Ok].
  split; [done|]. apply bind_run in Hrun as (db1 & v0 & Ht & Hrun). apply throw_if_run in Ht as [-> _].
  rewrite retry_decided in Hrun. unfold delay_given. intros Hre. rewrite bool_decide_true in Hrun by done.
  apply bind_run in Hrun as (db2 & d & Hd & _). apply bind_run in Hd as (db3 & ms & Hd & _). apply lift_run in Hd as [-> Hd].
  unfold delay_after_resolved in Hd. destruct_result. unfold base_delay.
  destruct (delay (retries cfg)), resolved; try done; by case_decide.
Qed.

Lemma settle_admissible f a outcome now limits db w s db' r :
  all_ok db → db.(workflows) !! f.(f_instance_id) = Some w → w.(steps) !! Z.to_nat a.(a_ordinal) = Some s →
  settle_workflow_step f a outcome now limits db = (db', Ok r) → admissible s outcome now.
Proof.
  intros Hall Hw Hs Hrun. destruct (Hall _ _ Hw) as [Hok _]. unfold settle_workflow_step in Hrun. rewrite transaction_run in Hrun.
  apply bind_run in Hrun as (db0 & u & Hv & Hrun). apply lift_run in Hv as [-> _].
  apply bind_run in Hrun as (db1 & i & Hr & Hrun). apply running_at in Hr as [-> _].
  apply bind_run in Hrun as (db2 & x & Hx & Hrun). rewrite (read_step_total _ _ _ _ _ Hw Hok Hs) in Hx. injection Hx as <- <-.
  apply bind_run in Hrun as (db3 & s' & Hx & Hrun). apply some_or_run in Hx as [-> Hx]. injection Hx as <-.
  apply bind_run in Hrun as (db4 & v4 & Hx & Hrun). apply throw_if_run in Hx as [-> Hst].
  apply bind_run in Hrun as (db5 & d & Hx & Hrun). apply some_or_run in Hx as [-> Hd].
  apply bind_run in Hrun as (db6 & v & Hverdict & _). unfold admissible. rewrite Hd.
  destruct (decide (d ≤ now)) as [?|Hlate]; [by left|]. right.
  destruct (running_callback w _ s Hok Hs) as [cfg Hcfg]; [destruct (decide (s.(s_state) = SRunning)); [done|tauto]|].
  rewrite Hcfg. destruct outcome; [done|by eapply fail_admissible..|done].
Qed.
End accept.
