(* ===== verification/WorkflowLiveness.v ===== *)
(** * Progress of the workflow store

    The executor that holds a run is always heard, and expired runs are always taken back:
    a recovery pass succeeds on instances without a cancelled step, takes back exactly the
    runs whose lease has expired, up to its limit, and leaves each of them where the next
    claim, its earliest deadline or a resumption finds it. *)

From stdpp Require Import base numbers list option strings sorting gmap.
From S2P Require Import Prelude Text ErrorCodes Duration RetryPolicy Sql WorkflowTypes WorkflowDb WorkflowRuns WorkflowSteps WorkflowBatch WorkflowHistory WorkflowLifecycle WorkflowOperations WorkflowSpec WorkflowVerify WorkflowStmt WorkflowEvolve WorkflowMoves WorkflowReach WorkflowProps WorkflowTheorems WorkflowAccept.

Local Open Scope Z_scope.

Section recovery.
Context `{Codec}.

(** ** Statements on several steps *)

Lemma update_steps_fold_total (P : Step → Prop) `{!∀ s, Decision (P s)} g l n w :
  wf_ok w → w.(row).(state) = WRunning → (∀ j s, l !! j = Some s → w.(steps) !! (n + j)%nat = Some s) →
  (∀ s, P s → step_change s g) → (∀ s w', P s → s ∈ l → same_row w.(row) w'.(row) → step_guards w' s (g s)) →
  ∃ w', foldl (λ acc p, w ← acc; if decide (P p.2) then update_step p.1 g w else Some w) (Some w)
      (imap (λ j s, ((n + j)%nat, s)) l) = Some w' ∧
    wf_ok w' ∧ same_row w.(row) w'.(row) ∧ w'.(events) = w.(events) ∧
    w'.(steps) = take n w.(steps) ++ ((λ s, if decide (P s) then g s else s) <$> l) ++ drop (n + length l) w.(steps).
Proof.
  intros Hok Hst Hl Hch. revert n w Hok Hst Hl. induction l as [|s l IH]; intros n w Hok Hst Hl Hg; cbn.
  - exists w. split_and!; try done; [apply same_row_refl|]. rewrite Nat.add_0_r. by rewrite take_drop.
  - rewrite Nat.add_0_r.
    assert (Hs : steps w !! n = Some s) by (rewrite <-(Hl 0%nat s eq_refl); f_equal; lia).
    assert (Himap : imap (λ j s0, ((n + S j)%nat, s0)) l = imap (λ j s0, ((S n + j)%nat, s0)) l).
    { apply imap_ext. intros. f_equal. lia. }
    change (imap ((λ j s0, ((n + j)%nat, s0)) ∘ S) l) with (imap (λ j s0, ((n + S j)%nat, s0)) l). rewrite Himap.
    case_decide as HP.
    + destruct (update_step_total w n s g Hok Hst Hs) as (w1 & Hup & Hrow & _).
      { apply Hg; [done|left|apply same_row_refl]. }
      rewrite Hup. cbn. destruct (update_step_row _ _ _ _ Hup) as [Hsame Hev].
      destruct (update_step_Some _ _ _ _ _ Hs Hup) as (_ & _ & Hacc & _).
      assert (Hst1 : steps w1 = <[n := g s]> (steps w)) by by rewrite Hacc.
      destruct (IH (S n) w1) as (w' & Hf & Hok' & Hsame' & Hev' & Hsteps).
      * by eapply step_keeps; [| |apply Hch|].
      * destruct Hsame as [a ->]. done.
      * intros j q Hq. specialize (Hl (S j) q Hq). rewrite Hst1, list_lookup_insert_ne by lia. rewrite <-Hl. f_equal. lia.
      * intros q w2 Hq Hin Hs2. apply Hg; [done|by right|]. by eapply same_row_trans.
      * exists w'. split_and!; try done; [by eapply same_row_trans|by rewrite Hev'|].
        rewrite Hsteps, Hst1. rewrite (take_S_r _ _ (g s)) by (apply list_lookup_insert_eq; by eapply lookup_lt_Some).
        rewrite take_insert_ge by done. rewrite drop_insert_lt by lia. rewrite <-app_assoc. cbn. do 4 f_equal. lia.
    + cbn. destruct (IH (S n) w) as (w' & Hf & Hok' & Hsame' & Hev' & Hsteps); try done.
      * intros j q Hq. specialize (Hl (S j) q Hq). rewrite <-Hl. f_equal. lia.
      * intros q w2 Hq Hin Hs2. apply Hg; [done|by right|done].
      * exists w'. split_and!; try done. rewrite Hsteps, (take_S_r _ _ s) by done. rewrite <-app_assoc. cbn. do 4 f_equal. lia.
Qed.

Lemma update_steps_total (P : Step → Prop) `{!∀ s, Decision (P s)} g w :
  wf_ok w → w.(row).(state) = WRunning → (∀ s, P s → step_change s g) →
  (∀ s w', P s → s ∈ w.(steps) → same_row w.(row) w'.(row) → step_guards w' s (g s)) →
  ∃ w', update_steps P g w = Some w' ∧ wf_ok w' ∧ same_row w.(row) w'.(row) ∧ w'.(events) = w.(events) ∧
    w'.(steps) = (λ s, if decide (P s) then g s else s) <$> w.(steps).
Proof.
  intros Hok Hst Hch Hg. destruct (update_steps_fold_total P g w.(steps) 0 w Hok Hst) as (w' & ? & ? & ? & ? & Hs); try done.
  exists w'. split_and!; try done. rewrite Hs. cbn. rewrite drop_all. by rewrite app_nil_r.
Qed.

(** ** Release *)

(** Where an instance rests when its run is released. *)
Definition resting (paused : bool) (ss : list Step) (queued_at : Z) : WorkflowState * option Z :=
  if paused then (WPaused, None)
  else if decide (Exists (λ s, s.(s_state) = SPending ∨ s.(s_state) = SDelayPending) ss ∨
                  Forall (λ s, step_settled s.(s_state) = true) ss)
  then (WQueued, Some queued_at)
  else (WWaiting, None).

Lemma count_all ss :
  Z.of_nat (length ss) = count (λ s, step_settled s.(s_state) = true) ss ↔ Forall (λ s, step_settled s.(s_state) = true) ss.
Proof.
  unfold count. induction ss as [|s ss IH]; [split; [constructor|done]|]. rewrite filter_cons, Forall_cons.
  pose proof (length_filter (λ s, step_settled s.(s_state) = true) ss). case_decide as Hs; cbn [length].
  - rewrite <-IH. split; [intros; split; [done|lia]|lia].
  - split; [lia|]. by intros [? _].
Qed.

Lemma earliest_Some ss s t : s ∈ ss → step_wake s = Some t → is_Some (earliest ss).
Proof.
  intros Hs Ht. induction Hs as [s ss|s q ss _ IH]; unfold earliest; cbn.
  - rewrite Ht. destruct (foldr _ None ss); cbn; eauto.
  - destruct (IH Ht) as [x Hx]. unfold earliest in Hx. rewrite Hx. destruct (step_wake q); cbn; eauto.
Qed.

(** An unsettled step that is neither due for a run nor cancelled has a deadline. *)
Lemma unsettled_wakes i s :
  step_norm i s → step_settled s.(s_state) = false → s.(s_state) ≠ SRunning → s.(s_state) ≠ SCancelled →
  s.(s_state) ≠ SPending → s.(s_state) ≠ SDelayPending → is_Some (step_wake s).
Proof.
  intros (_ & _ & Hn) Hset Hr Hc Hp Hd. unfold step_wake.
  unfold do_norm, sleep_norm, event_norm, columns in Hn. destruct (config (descriptor s)), (s_state s); try done;
    repeat match goal with H : _ ∧ _ |- _ => destruct H | H : ∃ _, _ |- _ => destruct H end; simplify_eq/=; eauto.
Qed.

Lemma resting_wakes w queued_at :
  wf_ok w → Forall (λ s, s.(s_state) ≠ SRunning ∧ s.(s_state) ≠ SCancelled) w.(steps) →
  (resting w.(row).(pause_requested) w.(steps) queued_at).1 = WWaiting →
  is_Some (earliest w.(steps)) ∧ Forall (λ s, s.(s_state) ≠ SPending ∧ s.(s_state) ≠ SDelayPending) w.(steps).
Proof.
  intros Hok Hf. unfold resting. destruct (pause_requested _); [done|]. case_decide as Hc; [done|]. intros _.
  assert (Hp : Forall (λ s, s.(s_state) ≠ SPending ∧ s.(s_state) ≠ SDelayPending) w.(steps)).
  { apply Forall_forall. intros s Hs. split; intros E; apply Hc; left; apply Exists_exists; eauto. }
  split; [|done].
  destruct (proj1 (Exists_exists _ _) (not_Forall_Exists _ _ (λ Hx, Hc (or_intror Hx)))) as (s & Hs & Hset).
  rewrite Forall_forall in Hf, Hp. destruct (Hf s Hs), (Hp s Hs).
  apply list_elem_of_lookup in Hs as Hl. destruct Hl as [k Hk].
  destruct (h_steps _ (ok_history _ Hok) _ _ Hk) as (_ & Hn & _).
  destruct (unsettled_wakes _ _ Hn) as [t Ht]; try done; [by apply not_true_is_false|]. by eapply earliest_Some.
Qed.

Lemma resting_cases w queued_at :
  resting w.(row).(pause_requested) w.(steps) queued_at = (WPaused, None) ∨ resting w.(row).(pause_requested) w.(steps) queued_at = (WQueued, Some queued_at) ∨
  resting w.(row).(pause_requested) w.(steps) queued_at = (WWaiting, None).
Proof. unfold resting. repeat case_match; auto. Qed.

Lemma released_guards w queued_at now :
  wf_ok w → w.(row).(state) = WRunning →
  Forall (λ s, s.(s_state) ≠ SRunning ∧ s.(s_state) ≠ SCancelled) w.(steps) →
  is_some_and (λ r, r.(run_lease_until_ms) ≤ now) w.(row).(run) ∨ w.(row).(yield_requested) = true ∨
    w.(row).(pause_requested) = true →
  instance_guards true w (set_released (resting w.(row).(pause_requested) w.(steps) queued_at).1 (resting w.(row).(pause_requested) w.(steps) queued_at).2 now w.(row)).
Proof.
  intros Hok Hst Hf Hend. pose proof (ok_row _ Hok) as Hc. pose proof (h_acct _ (ok_history _ Hok)) as Ha.
  pose proof (resting_wakes w queued_at Hok Hf) as Hwake. pose proof (resting_cases w queued_at) as Hp.
  assert (Hnr : Forall (λ s, s.(s_state) ≠ SRunning) w.(steps)) by (eapply Forall_impl; [exact Hf|by intros ? [? _]]).
  unfold instance_guards. split_and!.
  - destruct Hc as (Hlc & Hx & Hm & Ho & He & He' & Hfl & Hrb & Hrest). unfold lease_check in Hlc. rewrite Hst in *.
    assert (¬ is_Some (output_json (row w))) by (by intros ?%Ho).
    assert (¬ is_Some (error_json (row w))) by (by intros ?%He).
    assert (¬ is_Some (error_code (row w))) by (by intros ?%He').
    destruct Hlc as (_ & Hterm & _). unfold instance_check, lease_check, expiry_check in *. cbn. rewrite Hterm in *.
    destruct Hp as [-> | [-> | ->]]; cbn; split_and!; try done; try tauto.
    all: split; [done|tauto].
  - cbn. by rewrite accounting_row.
  - unfold run_ok. cbn. rewrite Hst. destruct (run (row w)) as [r|]; cbn in Hend |- *;
      destruct Hp as [-> | [-> | ->]]; cbn; split_and!; try done; intros; tauto.
  - by rewrite Hst.
  - intros _. rewrite Hst. unfold frontier_ok. cbn. rewrite Ha. cbn.
    destruct Hp as [E | [E | E]]; rewrite E in *; cbn in *; split_and!; try done.
    all: intros _; by apply Hwake.
  - cbn. lia.
Qed.

Lemma release_total w queued_at now db :
  wf_ok w → db.(workflows) !! w.(row).(identity).(instance_id) = Some w → w.(row).(state) = WRunning →
  Forall (λ s, s.(s_state) ≠ SRunning ∧ s.(s_state) ≠ SCancelled) w.(steps) →
  is_some_and (λ r, r.(run_lease_until_ms) ≤ now) w.(row).(run) ∨ w.(row).(yield_requested) = true ∨
    w.(row).(pause_requested) = true →
  let p := resting w.(row).(pause_requested) w.(steps) queued_at in
  release w.(row) queued_at now db =
    (set_workflow w.(row).(identity).(instance_id) {| w with row := set_released p.1 p.2 now w.(row) |} db, Ok p.1).
Proof.
  intros Hok Hw Hst Hf Hend p. pose proof (h_acct _ (ok_history _ Hok)) as Ha.
  destruct (proj1 (lease_run _ (proj1 (ok_row _ Hok))) Hst) as [r Hr].
  assert (Hp : (if pause_requested w.(row) then mret (WPaused, None)
       else if decide (Exists (λ s, s.(s_state) = SPending ∨ s.(s_state) = SDelayPending) w.(steps) ∨
                       w.(row).(acct).(registered_step_count) = w.(row).(acct).(settled_step_count))
       then mret (WQueued, Some queued_at)
       else if decide (is_Some w.(row).(acct).(next_wake_at_ms)) then mret (WWaiting, None)
       else throw violation) db = (db, Ok p)).
  { pose proof (resting_wakes w queued_at Hok Hf) as Hwake. unfold p, resting in *.
    destruct (pause_requested (row w)); [done|]. rewrite Ha. cbn [accounting registered_step_count settled_step_count next_wake_at_ms].
    pose proof (count_all w.(steps)) as Hcount. repeat case_decide; try done; try (exfalso; tauto). }
  pose proof (released_guards w queued_at now Hok Hst Hf Hend) as Hg.
  assert (Hn : ¬ Exists (λ s, s.(s_state) = SRunning) w.(steps)).
  { intros (s & Hs & E)%Exists_exists. rewrite Forall_forall in Hf. by destruct (Hf s Hs). }
  unfold release, mbind, M_bind, steps_of, gets, throw_if, bail_if, lift, some_or. rewrite Hw. cbn [from_option].
  rewrite decide_False by done. rewrite Hp, Hr. unfold lift. cbn [ok_or_else].
  erewrite execute_on_total; [|exact Hw|split; [done|by split; [|rewrite Hr]]|unfold update_instance; by rewrite decide_True]. done.
Qed.

(** ** One expired run *)

(** The run of [w] with token [t] has expired, and no step of the instance is cancelled. *)
Definition expired (now : Z) (w : Workflow) (t : WorkflowToken) : Prop :=
  w.(row).(state) = WRunning ∧
  is_some_and (λ r, r.(run_token) = t ∧ r.(run_lease_until_ms) ≤ now) w.(row).(run) ∧
  Forall (λ s, s.(s_state) ≠ SCancelled) w.(steps).

(** The instance after its run was taken back: its running steps are pending again with
    the attempt they were in, and it waits for a claim at [until], for its earliest
    deadline or for a resumption. *)
Definition relinquished (now : Z) (s : Step) : Step :=
  if decide (s.(s_state) = SRunning)
  then {| s with s_state := SPending; s_run_token := None; s_step_token := None; s_updated_at_ms := now |}
  else s.
Definition taken_back (now until : Z) (w : Workflow) : Workflow :=
  let ss := relinquished now <$> w.(steps) in
  let p := resting w.(row).(pause_requested) ss until in
  {| row := {| w.(row) with acct := accounting {| w with steps := ss |}; state := p.1; run := None;
                            pause_requested := false; yield_requested := false; next_run_at_ms := p.2;
                            updated_at_ms := now |};
     steps := ss; events := w.(events) |}.

Lemma relinquish_guards now w t s i :
  wf_ok w → safe now → expired now w t → same_row w.(row) i.(row) → s ∈ w.(steps) → s.(s_state) = SRunning →
  step_guards i s (set_relinquished now s).
Proof.
  intros Hok Hnow (Hst & Hl & _) [a Hi] [k Hs]%list_elem_of_lookup Hrun.
  destruct (running_callback _ _ _ Hok Hs Hrun) as [cfg Hcfg].
  destruct (report_config _ _ _ _ Hok Hs Hcfg) as (_ & Hlim & _ & Ht).
  pose proof (report_norm _ _ _ _ Hok Hs Hcfg) as Hn.
  destruct (h_steps _ (ok_history _ Hok) _ _ Hs) as (_ & Hsn & _). destruct (norm_running _ _ Hsn Hrun) as [Hown _].
  destruct (norm_open _ _ _ Hn ltac:(by rewrite Hrun)) as (_ & _ & _ & Hp & _).
  split_and!.
  - eapply (do_norm_check w.(row)); [done..| |done|by apply do_relinquished]. cbn.
    by rewrite (proj2 (proj2 (proj2 (Hp (or_intror Hrun))))).
  - by left.
  - unfold step_transition. rewrite Hrun, Hi. cbn. split; [done|]. unfold lease_after. cbn.
    destruct (run (row w)); cbn in *; [lia|done].
  - unfold wait_ok. by rewrite Hrun.
Qed.

Lemma relinquish_total now w t :
  wf_ok w → safe now → expired now w t →
  ∃ w', update_steps (λ s, s.(s_state) = SRunning ∧ s.(s_run_token) = Some t) (set_relinquished now) w = Some w' ∧
    wf_ok w' ∧ w' = {| row := {| w.(row) with acct := accounting {| w with steps := relinquished now <$> w.(steps) |} |};
                       steps := relinquished now <$> w.(steps); events := w.(events) |}.
Proof.
  intros Hok Hnow He. pose proof He as (Hst & Hl & _).
  assert (Ht : ∀ s, s ∈ w.(steps) → s.(s_state) = SRunning → s.(s_run_token) = Some t).
  { intros s [k Hs]%list_elem_of_lookup Hrun. destruct (h_steps _ (ok_history _ Hok) _ _ Hs) as (_ & Hsn & _).
    destruct (norm_running _ _ Hsn Hrun) as [[_ Hown] _]. destruct (run (row w)); cbn in *; [|done]. destruct Hl as [<- _]. done. }
  destruct (update_steps_total (λ s, s.(s_state) = SRunning ∧ s.(s_run_token) = Some t) (set_relinquished now) w)
    as (w' & Hup & Hok' & [a Hrow] & Hev & Hss); try done.
  - intros s [? _]. by apply ch_relinquished.
  - intros s i [Hrun _] Hin Hsame. by eapply relinquish_guards.
  - exists w'. split_and!; try done. assert (Hm : w'.(steps) = relinquished now <$> w.(steps)).
    { rewrite Hss. apply list_fmap_ext. intros k s Hk%list_elem_of_lookup_2. unfold relinquished.
      repeat case_decide; try done; naive_solver. }
    clear Hss.
    pose proof (h_acct _ (ok_history _ Hok')) as Ha. destruct w' as [i ss es]. cbn in *. subst ss es i. cbn in Ha.
        change (a = accounting {| w with steps := relinquished now <$> w.(steps) |}) in Ha. by rewrite <- Ha.
Qed.

Lemma recover_one_total now limits id g t w db :
  db.(workflows) !! id = Some w → wf_ok w → w.(row).(identity).(instance_id) = id →
  w.(row).(identity).(instance_generation) = g → expired now w t → clock now → limits_unsigned limits →
  WorkflowsConfig_validate limits = Ok () →
  recover_one now limits (id, g, t) db =
    (set_workflow id (taken_back now (now + limits.(recovery_backoff_ms)) w) db, Ok ()).
Proof.
  intros Hw Hok Hid Hg He Hnow Hl Hv. destruct (limits_bounds _ Hl Hv) as [_ Hb].
  destruct (relinquish_total now w t Hok (clock_safe _ Hnow) He) as (w1 & Hup & Hok1 & Hw1).
  destruct He as (Hst & Hlease & Hcan). set (db1 := set_workflow id w1 db).
  assert (Hd : workflow_deadline now limits.(recovery_backoff_ms) = Ok (now + limits.(recovery_backoff_ms))).
  { unfold workflow_deadline, clock in *. rewrite (safe_i64 (recovery_backoff_ms limits)) by (unfold safe; lia). cbn.
    rewrite safe_i64 by (unfold safe; lia). done. }
  assert (Hw1' : db1.(workflows) !! id = Some w1) by apply lookup_insert_eq.
  assert (Hsel : select_instance id (λ _, True) db1 = (db1, Ok (Some w1.(row)))).
  { unfold select_instance. run_simpl. rewrite Hw1'. cbn. rewrite decide_True by done. unfold instance_row, bail_if.
    rewrite decide_False by (intros Hx; apply Hx, Hok1). done. }
  assert (Hrel : release w1.(row) (now + limits.(recovery_backoff_ms)) now db1 =
    (set_workflow id (taken_back now (now + limits.(recovery_backoff_ms)) w) db1,
     Ok (taken_back now (now + limits.(recovery_backoff_ms)) w).(row).(state))).
  { assert (Hid1 : w1.(row).(identity).(instance_id) = id) by by rewrite Hw1.
    rewrite <- Hid1. rewrite release_total; try done; try by rewrite Hw1.
    - by rewrite Hid1.
    - rewrite Hw1. cbn. apply Forall_fmap. eapply Forall_impl; [exact Hcan|]. intros s Hs. unfold relinquished, compose.
      case_decide; done.
    - left. rewrite Hw1. cbn. destruct (run (row w)); cbn in *; tauto. }
  unfold recover_one, mbind, M_bind. erewrite execute_on_total; [|exact Hw|done|exact Hup]. fold db1. rewrite Hsel.
  unfold some_or, lift. cbn [ok_or_else]. rewrite Hd, Hrel. unfold mret, M_ret. f_equal.
  unfold db1, set_workflow. cbn. by rewrite insert_insert_eq.
Qed.

(** ** The pass *)

Definition run_expired (now : Z) (i : InstanceRow) : Prop :=
  i.(state) = WRunning ∧ is_some_and (λ r, r.(run_lease_until_ms) ≤ now) i.(run).
#[local] Instance run_expired_dec now i : Decision (run_expired now i).
Proof. unfold run_expired. apply _. Defined.

Definition row_id (i : InstanceRow) : N := i.(identity).(instance_id).

Lemma rows_ids db : all_ok db → row_id <$> instance_rows db = (map_to_list db.(workflows)).*1.
Proof.
  intros Hall. unfold instance_rows. rewrite <- list_fmap_compose. apply list_fmap_ext. intros k [id w] Hk. cbn.
  apply list_elem_of_lookup_2, elem_of_map_to_list in Hk. apply Hall in Hk as [_ Hid]. done.
Qed.
Lemma elem_of_instance_rows db i : i ∈ instance_rows db ↔ ∃ id w, db.(workflows) !! id = Some w ∧ i = w.(row).
Proof.
  unfold instance_rows. rewrite list_elem_of_fmap. split.
  - intros ([id w] & -> & Hk%elem_of_map_to_list). eauto.
  - intros (id & w & Hw & ->). exists (id, w). split; [done|]. by apply elem_of_map_to_list.
Qed.

(** The page of a pass: expired runs, each once, and all of them unless the page is full. *)
Lemma expired_page now limit db :
  all_ok db → 0 ≤ limit →
  ∃ page, expired_runs now limit db = omap (λ i, (λ r, (row_id i, i.(identity).(instance_generation), r.(run_token))) <$> i.(run)) page ∧
    NoDup (row_id <$> page) ∧ (∀ i, i ∈ page → run_expired now i ∧ ∃ w, db.(workflows) !! row_id i = Some w ∧ i = w.(row)) ∧
    (length page ≤ Z.to_nat limit)%nat ∧
    ((length page < Z.to_nat limit)%nat → ∀ id w, db.(workflows) !! id = Some w → run_expired now w.(row) → w.(row) ∈ page).
Proof.
  intros Hall Hlim.
  set (rows := order_by (λ i, [from_option run_lease_until_ms 0 i.(run); Z.of_N i.(identity).(instance_id)])
    (filter (run_expired now) (instance_rows db))).
  exists (take (Z.to_nat limit) rows). split; [done|].
  assert (Hin : ∀ i, i ∈ rows ↔ run_expired now i ∧ i ∈ instance_rows db).
  { intros i. unfold rows. by rewrite elem_of_order_by, list_elem_of_filter. }
  split_and!.
  - eapply sublist_NoDup; [|apply fmap_sublist, sublist_take].
    rewrite (fmap_Permutation row_id rows) by apply order_by_Permutation.
    eapply sublist_NoDup; [|apply fmap_sublist, sublist_filter]. rewrite rows_ids by done. apply NoDup_fst_map_to_list.
  - intros i [k Hk]%list_elem_of_lookup. apply lookup_take_Some in Hk as [Hk%list_elem_of_lookup_2 _].
    apply Hin in Hk as [He (id & w & Hw & ->)%elem_of_instance_rows]. split; [done|]. exists w.
    pose proof (Hall _ _ Hw) as [_ Hid]. unfold row_id. by rewrite Hid.
  - rewrite length_take. lia.
  - intros Hlen id w Hw He. rewrite length_take in Hlen. rewrite take_ge by lia. apply Hin. split; [done|].
    apply elem_of_instance_rows. eauto.
Qed.

Lemma recover_all_total now limits page db :
  clock now → limits_unsigned limits → WorkflowsConfig_validate limits = Ok () → NoDup (row_id <$> page) →
  (∀ i, i ∈ page → ∃ w t, db.(workflows) !! row_id i = Some w ∧ i = w.(row) ∧ wf_ok w ∧ expired now w t ∧
     run_token <$> i.(run) = Some t) →
  ∃ db' us, for_each (recover_one now limits) (omap (λ i, (λ r, (row_id i, i.(identity).(instance_generation), r.(run_token))) <$> i.(run)) page) db =
      (db', Ok us) ∧
    db'.(receipts) = db.(receipts) ∧ db'.(progress) = db.(progress) ∧ db'.(gc_receipts) = db.(gc_receipts) ∧
    db'.(owner) = db.(owner) ∧
    ∀ id, db'.(workflows) !! id =
      if decide (id ∈ row_id <$> page) then taken_back now (now + limits.(recovery_backoff_ms)) <$> db.(workflows) !! id
      else db.(workflows) !! id.
Proof.
  intros Hnow Hl Hv. revert db. induction page as [|i page IH]; intros db Hnd Hpage.
  - exists db, []. split_and!; try done.
  - rewrite fmap_cons in Hnd. apply NoDup_cons in Hnd as [Hni Hnd].
    destruct (Hpage i) as (w & t & Hw & -> & Hok & He & Ht); [by left|].
    destruct (run (row w)) as [r|] eqn:Hr; [|done]. injection Ht as Ht.
    unfold omap. cbn [list_omap]. rewrite Hr. cbn [fmap option_fmap option_map for_each]. rewrite Ht. fold (@omap list _).
    unfold mbind, M_bind. rewrite (recover_one_total now limits _ _ t w db Hw Hok); try done.
    set (w' := taken_back now (now + recovery_backoff_ms limits) w).
    destruct (IH (set_workflow (row_id (row w)) w' db)) as (db' & us & Hrun & H1 & H2 & H3 & H4 & Hall); try done.
    { intros j Hj. destruct (Hpage j) as (v & tv & Hv' & -> & ?); [by right|]. exists v, tv. split; [|done].
      cbn. rewrite lookup_insert_ne; [done|]. intros E. apply Hni. rewrite E. by apply list_elem_of_fmap_2. }
    rewrite Hrun. eexists _, _. split_and!; try done. intros id. rewrite Hall. cbn.
    destruct (decide (id = row_id (row w))) as [->|Hne].
    + rewrite decide_False by done. rewrite decide_True by set_solver. by rewrite lookup_insert_eq, Hw.
    + rewrite lookup_insert_ne by done. repeat case_decide; try done; set_solver.
Qed.

(** A recovery pass on a store whose expired runs have no cancelled step: it succeeds,
    takes back exactly the runs of its page and changes no other instance. *)
Definition recovers (now : Z) (limits : WorkflowsConfig) (limit : Z) (db db' : WorkflowDb) (n : Z) : Prop :=
  ∃ ids : list N, NoDup ids ∧ n = Z.of_nat (length ids) ∧ n ≤ limit ∧
    (∀ id, id ∈ ids → ∃ w, db.(workflows) !! id = Some w ∧ run_expired now w.(row)) ∧
    (n < limit → ∀ id w, db.(workflows) !! id = Some w → run_expired now w.(row) → id ∈ ids) ∧
    (∀ id, db'.(workflows) !! id =
       if decide (id ∈ ids) then taken_back now (now + limits.(recovery_backoff_ms)) <$> db.(workflows) !! id
       else db.(workflows) !! id).

Lemma recover_total now limits limit db :
  all_ok db → clock now → limits_unsigned limits → WorkflowsConfig_validate limits = Ok () → 1 ≤ limit ≤ 1000 →
  (∀ id w, db.(workflows) !! id = Some w → run_expired now w.(row) → Forall (λ s, s.(s_state) ≠ SCancelled) w.(steps)) →
  ∃ db' n, recover_workflows now limits limit db = (db', Ok n) ∧ recovers now limits limit db db' n.
Proof.
  intros Hall Hnow Hl Hv Hlim Hcan.
  destruct (expired_page now limit db Hall ltac:(lia)) as (page & Hpage & Hnd & Hin & Hlen & Hfull).
  destruct (recover_all_total now limits page db Hnow Hl Hv Hnd) as (db1 & us & Hrun & _ & _ & _ & _ & Hat).
  { intros i Hi. destruct (Hin i Hi) as [[Hst He] (w & Hw & ->)]. destruct (run (row w)) as [r|] eqn:Hr; [|done].
    exists w, r.(run_token). destruct (Hall _ _ Hw) as [Hok _]. split_and!; try done.
    split_and!; [done|by rewrite Hr|]. eapply Hcan; [done|]. split; [done|]. by rewrite Hr. }
  assert (Hn : length (expired_runs now limit db) = length page).
  { rewrite Hpage. clear -Hin. induction page as [|i page IH]; [done|]. cbn.
    destruct (Hin i) as [[_ He] _]; [by left|]. destruct (run i); [|done]. cbn. f_equal. apply IH. intros j Hj. apply Hin. by right. }
  set (db2 := if decide (expired_runs now limit db ≠ []) then wf_notify db1 else db1).
  exists db2, (Z.of_nat (length page)). split.
  - unfold recover_workflows, transaction, mbind, M_bind, lift, bounded, bail_if, gets. rewrite Hv.
    rewrite decide_False by lia. rewrite <- Hpage in Hrun. rewrite Hrun. unfold db2. case_decide; cbn; by rewrite Hn.
  - exists (row_id <$> page). rewrite length_fmap. split_and!; try done; try lia.
    + intros id (i & -> & Hi)%list_elem_of_fmap. destruct (Hin i Hi) as [He (w & ? & ->)]. eauto.
    + intros Hlt id w Hw He. pose proof (Hall _ _ Hw) as [_ <-]. apply (list_elem_of_fmap_2 row_id).
      apply (Hfull ltac:(lia) _ _ Hw He).
    + intros id. rewrite <- Hat. unfold db2. by case_decide.
Qed.
End recovery.

Section liveness.
Context `{Codec}.

(** C12. A report on a running attempt by the executor that holds the run is committed
    exactly when it is admissible, and then with the verdict of the stored deadline and
    policy: after the deadline any report; in time a success, whatever its value, and a
    failure with a known code that, when the attempt is to be retried, brings a delay
    exactly when the policy has none, and one within its bounds.  No quota, constraint or
    trigger stops such a report.  Any other one, a timeout before the deadline among them,
    is refused and changes nothing. *)
Theorem report_accepted o db f a outcome now limits w s :
  reachable o db → db.(workflows) !! f.(f_instance_id) = Some w → holds f now w.(row) →
  w.(steps) !! Z.to_nat a.(a_ordinal) = Some s → s.(s_state) = SRunning → s.(attempt) = a.(a_attempt) →
  s.(s_run_token) = Some f.(f_run_token) → s.(s_step_token) = Some a.(a_step_token) →
  0 ≤ now ∧ now + 86400000 ≤ WORKFLOW_MAX_SAFE_INTEGER → limits_unsigned limits →
  WorkflowsConfig_validate limits = Ok () →
  (admissible s outcome now →
     ∃ db' r, settle_workflow_step f a outcome now limits db = (db', Ok r) ∧ settles f a outcome now limits db db' r) ∧
  (¬ admissible s outcome now → ∃ e, settle_workflow_step f a outcome now limits db = (db, Err e)).
Proof.
  intros Hre Hw Hh Hs Hst Ha Ht Ht' Hnow Hl Hv. pose proof (proj1 (reachable_ok _ _ Hre)) as Hall. split; intros Hadm.
  - destruct (settle_total f a outcome now limits db w s) as (db' & r & Hrun); try done.
    exists db', r. split; [done|]. by apply settle_exact.
  - destruct (settle_workflow_step f a outcome now limits db) as [db' [r|e]] eqn:Hrun.
    + by eapply settle_admissible in Hrun.
    + exists e. pose proof Hrun as Hroll. apply transaction_rollback in Hroll as ->. done.
Qed.

(** C13. A recovery pass over expired runs without cancelled steps always succeeds.  It
    takes back exactly the expired runs, up to its limit and each once: their running
    steps are pending again in the same attempt, and the instance is queued after the
    backoff when a step can run or all are settled, paused when that was requested, and
    else waits for its earliest deadline.  Nothing else changes. *)
Theorem recovery_exact o db now limits limit :
  reachable o db → clock now → limits_unsigned limits → WorkflowsConfig_validate limits = Ok () → 1 ≤ limit ≤ 1000 →
  (∀ id w, db.(workflows) !! id = Some w → run_expired now w.(row) → Forall (λ s, s.(s_state) ≠ SCancelled) w.(steps)) →
  ∃ db' n, recover_workflows now limits limit db = (db', Ok n) ∧ recovers now limits limit db db' n.
Proof. intros Hre. apply recover_total. by eapply reachable_ok. Qed.
End liveness.

(** ** Witnesses *)

#[local] Existing Instance demo_codec.

Definition demo_first (w : Workflow) : Step := default (fresh_step (demo_step 0 "charge" []) 0 None None) (head w.(steps)).

Lemma report_accepted_witness :
  (∃ db' r, settle_workflow_step demo_fence demo_attempt (OutcomeFailure WorkflowExecutionFailed) 2 demo_limits demo_running = (db', Ok r) ∧
    settles demo_fence demo_attempt (OutcomeFailure WorkflowExecutionFailed) 2 demo_limits demo_running db' r) ∧
  ∃ e, settle_workflow_step demo_fence demo_attempt OutcomeTimeout 2 demo_limits demo_running = (demo_running, Err e).
Proof.
  assert (Hh : holds demo_fence 2 (demo_at demo_running).(row)).
  { apply (proj1 (bool_decide_eq_true _ (H := holds_dec _ _ _))). vm_compute. reflexivity. }
  pose proof (λ outcome, report_accepted 1 demo_running demo_fence demo_attempt outcome 2 demo_limits
    (demo_at demo_running) (demo_first (demo_at demo_running)) demo_running_reachable
    ltac:(vm_compute; reflexivity) Hh ltac:(vm_compute; reflexivity) ltac:(vm_compute; reflexivity)
    ltac:(vm_compute; reflexivity) ltac:(vm_compute; reflexivity) ltac:(vm_compute; reflexivity)
    ltac:(split; vm_compute; discriminate) ltac:(split; vm_compute; discriminate) ltac:(vm_compute; reflexivity)) as Hreport.
  split.
  - apply (Hreport (OutcomeFailure WorkflowExecutionFailed)). right. vm_compute. split; [by repeat constructor|discriminate].
  - apply (Hreport OutcomeTimeout). intros [Hlate|Hno]; [vm_compute in Hlate; by apply Hlate|by vm_compute in Hno].
Defined.

Definition uncancelled (db : WorkflowDb) : bool :=
  bool_decide (map_Forall (λ _ w, Forall (λ s, s.(s_state) ≠ SCancelled) w.(steps)) db.(workflows)).
Lemma uncancelled_spec db id w :
  uncancelled db = true → db.(workflows) !! id = Some w → Forall (λ s, s.(s_state) ≠ SCancelled) w.(steps).
Proof. unfold uncancelled. rewrite bool_decide_eq_true. intros Hm Hw. exact (Hm _ _ Hw). Qed.

Lemma recovery_exact_witness :
  ∃ db' n, recover_workflows 100000 demo_limits 32 demo_running = (db', Ok n) ∧
    recovers 100000 demo_limits 32 demo_running db' n.
Proof.
  apply (recovery_exact 1); [exact demo_running_reachable|demo_ok|demo_ok|vm_compute; reflexivity|lia|].
  intros id w Hw _. apply (uncancelled_spec demo_running id); [vm_compute; reflexivity|exact Hw].
Defined.
