(* ===== verification/WorkflowControl.v ===== *)
(** * The workflow catalog tables

    The control tables of [refinery-migrations/control/V1__init.sql], as [V9] and [V10]
    left them: definitions, their immutable versions, the caller bindings, the typed
    referrers that pin both, the instance reservations and the prepared operations.  A
    statement checks the constraints and runs the triggers of its table; one that aborts
    is an error of the surrounding transaction.  The four nullable columns of a pending
    reservation are null together, and so are the two of a version or a binding: each
    group is one optional value.  Of [workers] and [worker_versions] the tables keep the
    columns the workflow statements read. *)

From stdpp Require Import base numbers list option strings gmap.
From S2P Require Import Prelude Text ErrorCodes Duration RetryPolicy WorkflowTypes Sql WorkflowDb.

Local Open Scope Z_scope.

(** ** Rows *)

Inductive ResourceState : Type := DCreating | DReady | DDeleting | DTombstoned.
#[export] Instance ResourceState_eq_dec : EqDecision ResourceState.
Proof. solve_decision. Defined.

Inductive ResourceAvailability : Type := Healthy | Degraded | Unavailable.
#[export] Instance ResourceAvailability_eq_dec : EqDecision ResourceAvailability.
Proof. solve_decision. Defined.

Inductive VersionState : Type :=
| VStaging | VValidating | VReady | VRejected | VDeleting | VTombstoned.
#[export] Instance VersionState_eq_dec : EqDecision VersionState.
Proof. solve_decision. Defined.

Inductive WorkflowReservationState : Type := Reserved | Bound.
#[export] Instance WorkflowReservationState_eq_dec : EqDecision WorkflowReservationState.
Proof. solve_decision. Defined.

(** [reserved_class_name], [reservation_owner], [reservation_state] and
    [reservation_created_definition]. *)
Record Pending := {
  reserved_class_name : ustr;
  reservation_owner : ustr;
  reservation_state : WorkflowReservationState;
  reservation_created_definition : bool;
}.
#[export] Instance Pending_eq_dec : EqDecision Pending.
Proof. solve_decision. Defined.

Record DefinitionRow := {
  d_name : ustr;
  d_state : ResourceState;
  availability : ResourceAvailability;
  availability_code : option ustr;
  lifecycle_generation : Z;
  pending : option Pending;
  reservation_fence : Z;
  delete_fence : Z;
  current_version_id : option N;
  d_created_at_ms : Z;
  d_updated_at_ms : Z;
  d_deleted_at_ms : option Z;
}.

Record VersionRow := {
  v_definition : N;
  version_number : Z;
  v_state : VersionState;
  v_worker : N;
  v_worker_version : N;
  v_class_name : ustr;
  v_reservation : option (ustr * Z);
  v_code_sha256 : list Z;
  v_loader_schema : Z;
  v_capability : Z;
  v_descriptor : list Z;
  v_created_at_ms : Z;
  ready_at_ms : option Z;
  rejected_at_ms : option Z;
  rejection_code : option ustr;
  v_deleted_at_ms : option Z;
}.

Record WorkerVersionRow := {
  wv_worker : N;
  wv_state : VersionState;
  wv_code_sha256 : list Z;
  wv_loader_schema : Z;
  wv_rejected_at_ms : option Z;
}.

Record BindingRow := {
  b_version : N;
  b_name : ustr;
  b_definition : N;
  b_lifecycle_generation : Z;
  b_class_name : ustr;
  b_capability : Z;
  b_schedules : list ustr;
  b_descriptor : list Z;
  b_reservation : option (ustr * Z);
  b_created_at_ms : Z;
}.

(** A row of [workflow_binding_operations]; it is applied when it has a response. *)
Record BindingOperation := {
  bo_binding : N;
  bo_kind : ustr;
  bo_fingerprint : list Z;
  bo_request : list Z;
  bo_response : option (list Z);
  bo_created_at_ms : Z;
  bo_updated_at_ms : Z;
}.

(** A row of [workflow_instance_referrers], by its instance. *)
Record ReferrerRow := {
  rf_definition : N;
  rf_definition_name : ustr;
  rf_external : ustr;
  rf_version : N;
  rf_worker_version : N;
  rf_generation : Z;
  rf_nonce : N;
  rf_creation_operation : N;
  rf_batch : N;
  rf_state : WorkflowRefState;
  rf_schedule : option WorkflowCronSchedule;
  rf_created_at_ms : Z;
  rf_updated_at_ms : Z;
  rf_released_at_ms : option Z;
  rf_sequence : Z;
}.

(** A row of [workflow_instance_operations], by its instance. *)
Record IntentRow := {
  in_operation : N;
  in_nonce : N;
  in_expected_generation : Z;
  in_target_generation : Z;
  in_kind : WorkflowOperationKind;
  in_restart_from : option WorkflowRestartSelector;
  in_prior : WorkflowRefState;
  in_applied : bool;
  in_created_at_ms : Z;
  in_sequence : Z;
}.

Inductive VersionReferrer : Type := ByVersion | ByInstance.
#[export] Instance VersionReferrer_eq_dec : EqDecision VersionReferrer.
Proof. solve_decision. Defined.
#[export] Instance VersionReferrer_countable : Countable VersionReferrer.
Proof.
  refine (inj_countable' (λ k, match k with ByVersion => true | ByInstance => false end)
            (λ b : bool, if b then ByVersion else ByInstance) _); by intros [].
Defined.

Inductive DefinitionReferrer : Type := OfBinding | OfInstance.
#[export] Instance DefinitionReferrer_eq_dec : EqDecision DefinitionReferrer.
Proof. solve_decision. Defined.
#[export] Instance DefinitionReferrer_countable : Countable DefinitionReferrer.
Proof.
  refine (inj_countable' (λ k, match k with OfBinding => true | OfInstance => false end)
            (λ b : bool, if b then OfBinding else OfInstance) _); by intros [].
Defined.

(** [version_referrers] and [workflow_referrers] map their primary keys to their times, a
    lock its operation to the binding and the time. *)
Record ControlDb := {
  instance_identity : N;
  workers : gmap N (option Z);
  worker_versions : gmap N WorkerVersionRow;
  definitions : gmap N DefinitionRow;
  versions : gmap N VersionRow;
  bindings : gmap N BindingRow;
  binding_operations : gmap N BindingOperation;
  binding_locks : gmap N (N * Z);
  version_referrers : gmap (N * VersionReferrer * N) Z;
  workflow_referrers : gmap (N * DefinitionReferrer * N) Z;
  referrers : gmap N ReferrerRow;
  intents : gmap N IntentRow;
}.

Definition CM : Type → Type := M ControlDb PlatformError.

Definition set_definitions (f : gmap N DefinitionRow → gmap N DefinitionRow) (db : ControlDb) : ControlDb :=
  {| db with definitions := f db.(definitions) |}.
Definition set_versions (f : gmap N VersionRow → gmap N VersionRow) (db : ControlDb) : ControlDb :=
  {| db with versions := f db.(versions) |}.
Definition set_referrers (f : gmap N ReferrerRow → gmap N ReferrerRow) (db : ControlDb) : ControlDb :=
  {| db with referrers := f db.(referrers) |}.
Definition set_intents (f : gmap N IntentRow → gmap N IntentRow) (db : ControlDb) : ControlDb :=
  {| db with intents := f db.(intents) |}.
Definition set_version_referrers (f : gmap (N * VersionReferrer * N) Z → gmap (N * VersionReferrer * N) Z)
    (db : ControlDb) : ControlDb := {| db with version_referrers := f db.(version_referrers) |}.
Definition set_workflow_referrers (f : gmap (N * DefinitionReferrer * N) Z → gmap (N * DefinitionReferrer * N) Z)
    (db : ControlDb) : ControlDb := {| db with workflow_referrers := f db.(workflow_referrers) |}.

(** A constraint or a trigger that may abort. *)
Definition ensure (P : ControlDb → Prop) `{!∀ db, Decision (P db)} : CM unit := λ db,
  if decide (P db) then (db, Ok ()) else (db, Err violation).

(** [length(x) BETWEEN lo AND hi] *)
Definition text_between (lo hi : Z) (s : ustr) : Prop := lo ≤ Z.of_nat (length s) ≤ hi.
#[export] Instance text_between_dec lo hi s : Decision (text_between lo hi s).
Proof. unfold text_between. apply _. Defined.

(** ** Definitions *)

Definition open_state (s : ResourceState) : bool :=
  match s with DCreating | DReady => true | _ => false end.

Definition definition_check (d : DefinitionRow) : Prop :=
  text_between 1 64 d.(d_name) ∧ 1 ≤ d.(lifecycle_generation) ∧ 0 ≤ d.(reservation_fence) ∧
  (d.(d_state) = DTombstoned ↔ is_Some d.(d_deleted_at_ms)) ∧
  (d.(availability) = Healthy ↔ d.(availability_code) = None) ∧
  is_none_or (λ p, text_between 1 128 p.(reserved_class_name) ∧ text_between 1 128 p.(reservation_owner) ∧
      1 ≤ d.(reservation_fence) ∧ open_state d.(d_state) = true ∧
      (p.(reservation_created_definition) = false ∨
       (d.(d_state) = DCreating ∧ d.(current_version_id) = None))) d.(pending) ∧
  (open_state d.(d_state) = true → d.(delete_fence) = 0) ∧
  (open_state d.(d_state) = false → 1 ≤ d.(delete_fence)).
#[export] Instance definition_check_dec d : Decision (definition_check d).
Proof. unfold definition_check. apply _. Defined.

(** [workflow_definitions_live_name] *)
Definition name_free (db : ControlDb) (id : N) (name : ustr) : Prop :=
  ¬ map_Exists (λ id' d, id' ≠ id ∧ d.(d_state) ≠ DTombstoned ∧ d.(d_name) = name) db.(definitions).
#[export] Instance name_free_dec db id name : Decision (name_free db id name).
Proof. unfold name_free. apply _. Defined.

(** [workflow_definition_insert_guard] *)
Definition insert_definition (id : N) (d : DefinitionRow) : CM unit :=
  _ ← ensure (λ db, d.(d_state) = DCreating ∧ d.(current_version_id) = None ∧ d.(lifecycle_generation) = 1 ∧
        definition_check d ∧ db.(definitions) !! id = None ∧ name_free db id d.(d_name));
  modify (set_definitions <[id := d]>).

(** [workflow_definition_state_guard] *)
Definition definition_moves (o n : ResourceState) : bool :=
  match o, n with
  | DCreating, (DCreating | DReady | DDeleting) | DReady, (DReady | DDeleting)
  | DDeleting, (DDeleting | DTombstoned) | DTombstoned, DTombstoned => true
  | _, _ => false
  end.

(** A referrer or a version under validation of a definition. *)
Definition referenced (db : ControlDb) (id : N) : Prop :=
  map_Exists (λ k _, k.1.1 = id) db.(workflow_referrers) ∨
  map_Exists (λ _ v, v.(v_definition) = id ∧ (v.(v_state) = VStaging ∨ v.(v_state) = VValidating)) db.(versions).
#[export] Instance referenced_dec db id : Decision (referenced db id).
Proof. unfold referenced. apply _. Defined.

(** [workflow_definition_current_guard] *)
Definition current_ready (db : ControlDb) (id : N) (d : DefinitionRow) : Prop :=
  is_some_and (λ vid, is_some_and (λ v, v.(v_definition) = id ∧ v.(v_state) = VReady) (db.(versions) !! vid))
    d.(current_version_id).
#[export] Instance current_ready_dec db id d : Decision (current_ready db id d).
Proof. unfold current_ready. apply _. Defined.

(** [workflow_definition_terminal_guard], [.._state_guard], [.._delete_guard] and [.._current_guard];
    the last three watch [state] and [current_version_id], which [watched] says the
    statement assigns. *)
Definition definition_update_ok (watched : bool) (db : ControlDb) (id : N) (d d' : DefinitionRow) : Prop :=
  d.(d_state) ≠ DTombstoned ∧ definition_check d' ∧
  (d'.(d_state) ≠ DTombstoned → name_free db id d'.(d_name)) ∧
  (watched = true →
     definition_moves d.(d_state) d'.(d_state) = true ∧
     (d'.(d_state) = DTombstoned → ¬ referenced db id) ∧
     (is_Some d'.(current_version_id) ∨ d'.(d_state) = DReady → current_ready db id d')).
#[export] Instance definition_update_ok_dec watched db id d d' :
  Decision (definition_update_ok watched db id d d').
Proof. unfold definition_update_ok. apply _. Defined.

(** [UPDATE workflow_definitions SET f WHERE id=?1 AND P]: whether a row changed *)
Definition update_definition (watched : bool) (id : N) (P : DefinitionRow → Prop) `{!∀ d, Decision (P d)}
    (f : DefinitionRow → DefinitionRow) : CM bool :=
  o ← gets (λ db, db.(definitions) !! id);
  match o with
  | Some d =>
      if decide (P d) then
        _ ← ensure (λ db, definition_update_ok watched db id d (f d));
        _ ← modify (set_definitions <[id := f d]>);
        mret true
      else mret false
  | None => mret false
  end.

(** ** Versions *)

Definition version_check (v : VersionRow) : Prop :=
  0 < v.(version_number) ∧ text_between 1 128 v.(v_class_name) ∧
  is_none_or (λ p, text_between 1 128 p.1 ∧ 1 ≤ p.2) v.(v_reservation) ∧
  length v.(v_code_sha256) = 32%nat ∧ 0 < v.(v_loader_schema) ∧ v.(v_capability) = 1 ∧
  length v.(v_descriptor) = 32%nat ∧
  (v.(v_state) = VTombstoned ↔ is_Some v.(v_deleted_at_ms)) ∧
  (v.(v_state) = VReady → is_Some v.(ready_at_ms)).
#[export] Instance version_check_dec v : Decision (version_check v).
Proof. unfold version_check. apply _. Defined.

(** [workflow_version_insert_guard] *)
Definition version_authority (db : ControlDb) (v : VersionRow) : Prop :=
  is_some_and (λ f, open_state f.(d_state) = true) (db.(definitions) !! v.(v_definition)) ∧
  db.(workers) !! v.(v_worker) = Some None ∧
  is_some_and (λ d, d.(wv_worker) = v.(v_worker) ∧
      (d.(wv_state) = VReady ∨ (d.(wv_state) = VValidating ∧ is_Some v.(v_reservation))) ∧
      d.(wv_code_sha256) = v.(v_code_sha256) ∧ d.(wv_loader_schema) = v.(v_loader_schema))
    (db.(worker_versions) !! v.(v_worker_version)).
#[export] Instance version_authority_dec db v : Decision (version_authority db v).
Proof. unfold version_authority. apply _. Defined.

(** with [workflow_version_add_ref] *)
Definition insert_version (id : N) (v : VersionRow) : CM unit :=
  _ ← ensure (λ db, v.(v_state) = VStaging ∧ version_authority db v ∧ version_check v ∧
        db.(versions) !! id = None ∧
        ¬ map_Exists (λ _ v', v'.(v_definition) = v.(v_definition) ∧ v'.(version_number) = v.(version_number))
            db.(versions) ∧
        db.(version_referrers) !! (v.(v_worker_version), ByVersion, id) = None);
  _ ← modify (set_versions <[id := v]>);
  modify (set_version_referrers <[(v.(v_worker_version), ByVersion, id) := v.(v_created_at_ms)]>).

(** [workflow_version_state_guard] *)
Definition version_moves (o n : VersionState) : bool :=
  match o, n with
  | VStaging, (VValidating | VRejected) | VValidating, (VReady | VRejected)
  | (VReady | VRejected), VDeleting | VDeleting, VTombstoned => true
  | _, _ => bool_decide (o = n)
  end.

Definition retired (s : VersionState) : bool := match s with VDeleting | VTombstoned => true | _ => false end.

(** [workflow_version_delete_guard] *)
Definition version_in_use (db : ControlDb) (id : N) : Prop :=
  map_Exists (λ _ d, d.(current_version_id) = Some id) db.(definitions) ∨
  map_Exists (λ _ r, r.(rf_version) = id ∧ r.(rf_state) ≠ Released) db.(referrers).
#[export] Instance version_in_use_dec db id : Decision (version_in_use db id).
Proof. unfold version_in_use. apply _. Defined.

(** [UPDATE workflow_versions SET state=.. WHERE id=?1 AND P], with [workflow_version_release_ref]. *)
Definition update_version (id : N) (P : VersionRow → Prop) `{!∀ v, Decision (P v)}
    (f : VersionRow → VersionRow) : CM bool :=
  o ← gets (λ db, db.(versions) !! id);
  match o with
  | Some v =>
      if decide (P v) then
        _ ← ensure (λ db, v.(v_state) ≠ VTombstoned ∧ version_check (f v) ∧
              version_moves v.(v_state) (f v).(v_state) = true ∧
              (retired (f v).(v_state) = true → ¬ version_in_use db id));
        _ ← modify (set_versions <[id := f v]>);
        _ ← (if decide ((f v).(v_state) = VDeleting)
             then modify (set_version_referrers (delete (v.(v_worker_version), ByVersion, id)))
             else mret ());
        mret true
      else mret false
  | None => mret false
  end.

(** ** Instance reservations *)

Definition referrer_check (r : ReferrerRow) : Prop :=
  text_between 1 100 r.(rf_external) ∧ 1 ≤ r.(rf_generation) ∧
  (r.(rf_state) = Released ↔ is_Some r.(rf_released_at_ms)) ∧
  is_none_or (λ c, text_between 1 256 c.(cron) ∧ 0 ≤ c.(scheduled_time)) r.(rf_schedule) ∧
  0 ≤ r.(rf_sequence).
#[export] Instance referrer_check_dec r : Decision (referrer_check r).
Proof. unfold referrer_check. apply _. Defined.

(** [workflow_instance_ref_insert_guard] *)
Definition creation_authority (db : ControlDb) (r : ReferrerRow) : Prop :=
  is_some_and (λ f, f.(d_state) = DReady ∧ f.(availability) = Healthy ∧ f.(current_version_id) = Some r.(rf_version))
    (db.(definitions) !! r.(rf_definition)) ∧
  is_some_and (λ v, v.(v_state) = VReady ∧ v.(v_worker_version) = r.(rf_worker_version))
    (db.(versions) !! r.(rf_version)).
#[export] Instance creation_authority_dec db r : Decision (creation_authority db r).
Proof. unfold creation_authority. apply _. Defined.

(** with [workflow_instance_add_ref] *)
Definition insert_referrer (id : N) (r : ReferrerRow) : CM unit :=
  _ ← ensure (λ db, r.(rf_state) = Creating ∧ r.(rf_generation) = 1 ∧ creation_authority db r ∧
        referrer_check r ∧ db.(referrers) !! id = None ∧
        ¬ map_Exists (λ _ r', r'.(rf_creation_operation) = r.(rf_creation_operation) ∨
              (r'.(rf_definition) = r.(rf_definition) ∧ r'.(rf_external) = r.(rf_external))) db.(referrers) ∧
        db.(version_referrers) !! (r.(rf_worker_version), ByInstance, id) = None ∧
        db.(workflow_referrers) !! (r.(rf_definition), OfInstance, id) = None);
  _ ← modify (set_referrers <[id := r]>);
  _ ← modify (set_version_referrers <[(r.(rf_worker_version), ByInstance, id) := r.(rf_created_at_ms)]>);
  modify (set_workflow_referrers <[(r.(rf_definition), OfInstance, id) := r.(rf_created_at_ms)]>).

(** The prepared operation of the row's exact incarnation. *)
Definition intent_of (db : ControlDb) (id : N) (r : ReferrerRow) (k : WorkflowOperationKind)
    (P : IntentRow → Prop) : Prop :=
  is_some_and (λ o, o.(in_kind) = k ∧ o.(in_nonce) = r.(rf_nonce) ∧
      o.(in_expected_generation) = r.(rf_generation) ∧ P o) (db.(intents) !! id).
#[export] Instance intent_of_dec db id r k P `{!∀ o, Decision (P o)} : Decision (intent_of db id r k P).
Proof. unfold intent_of. apply _. Defined.

(** [workflow_instance_ref_state_guard] *)
Definition referrer_moves (db : ControlDb) (id : N) (r r' : ReferrerRow) : Prop :=
  match r.(rf_state), r'.(rf_state) with
  | Creating, Live | Live, Retained | Releasing, Released => True
  | (Live | Retained), Restarting => intent_of db id r Restart (λ o, o.(in_prior) = r.(rf_state) ∧ o.(in_applied) = false)
  | Restarting, (Creating | Live | Retained | Releasing | Released) =>
      intent_of db id r Restart (λ o,
        (o.(in_applied) = false ∧ r'.(rf_state) = o.(in_prior) ∧ r'.(rf_generation) = o.(in_expected_generation)) ∨
        (o.(in_applied) = true ∧ r'.(rf_state) = Live ∧ r'.(rf_generation) = o.(in_target_generation)))
  | Retained, Releasing => intent_of db id r Purge (λ o, o.(in_applied) = true)
  | s, s' => s = s'
  end.
#[export] Instance referrer_moves_dec db id r r' : Decision (referrer_moves db id r r').
Proof. unfold referrer_moves. destruct (rf_state r), (rf_state r'); apply _. Defined.

(** [workflow_instance_generation_guard] *)
Definition generation_moves (db : ControlDb) (id : N) (r r' : ReferrerRow) : Prop :=
  r.(rf_state) = Restarting ∧ r'.(rf_state) = Live ∧ r.(rf_generation) < i64_max ∧
  r'.(rf_generation) = r.(rf_generation) + 1 ∧
  intent_of db id r Restart (λ o, o.(in_applied) = true ∧ o.(in_target_generation) = r'.(rf_generation)).
#[export] Instance generation_moves_dec db id r r' : Decision (generation_moves db id r r').
Proof. unfold generation_moves. apply _. Defined.

(** [workflow_operation_sequence_reservation_guard] *)
Definition sequence_moves (db : ControlDb) (id : N) (r r' : ReferrerRow) : Prop :=
  r'.(rf_sequence) = r.(rf_sequence) + 1 ∧ r.(rf_sequence) ≠ i64_max ∧
  (r.(rf_state) = Live ∨ r.(rf_state) = Retained) ∧ db.(intents) !! id = None.
#[export] Instance sequence_moves_dec db id r r' : Decision (sequence_moves db id r r').
Proof. unfold sequence_moves. apply _. Defined.

(** The columns an [UPDATE workflow_instance_referrers] assigns. *)
Inductive RefColumns : Type := StateColumn | StateGeneration | SequenceColumn.
Definition column_guards (c : RefColumns) (db : ControlDb) (id : N) (r r' : ReferrerRow) : Prop :=
  match c with
  | StateColumn => referrer_moves db id r r'
  | StateGeneration => referrer_moves db id r r' ∧ generation_moves db id r r'
  | SequenceColumn => sequence_moves db id r r'
  end.
#[export] Instance column_guards_dec c db id r r' : Decision (column_guards c db id r r').
Proof. unfold column_guards. destruct c; apply _. Defined.

(** The typed references of an instance; [workflow_version_referrer_guard] and
    [workflow_referrer_guard] let them go once its row is released or gone. *)
Definition drop_instance_refs (id : N) (r : ReferrerRow) : CM unit :=
  _ ← ensure (λ db, is_none_or (λ r', r'.(rf_state) = Released) (db.(referrers) !! id));
  _ ← modify (set_version_referrers (delete (r.(rf_worker_version), ByInstance, id)));
  modify (set_workflow_referrers (delete (r.(rf_definition), OfInstance, id))).

(** [UPDATE workflow_instance_referrers SET f WHERE instance_id=?1 AND P], with
    [workflow_instance_ref_terminal_guard] and [workflow_instance_release_ref]. *)
Definition update_referrer (c : RefColumns) (id : N) (P : ReferrerRow → Prop) `{!∀ r, Decision (P r)}
    (f : ReferrerRow → ReferrerRow) : CM bool :=
  o ← gets (λ db, db.(referrers) !! id);
  match o with
  | Some r =>
      if decide (P r) then
        _ ← ensure (λ db, r.(rf_state) ≠ Released ∧ referrer_check (f r) ∧ column_guards c db id r (f r));
        _ ← modify (set_referrers <[id := f r]>);
        _ ← (if decide ((f r).(rf_state) = Released) then drop_instance_refs id (f r) else mret ());
        mret true
      else mret false
  | None => mret false
  end.

(** [DELETE FROM workflow_instance_referrers WHERE instance_id=?1 AND P], with
    [workflow_instance_reservation_delete_guard], the cascade to the prepared operation
    under [workflow_operation_delete_guard], and [workflow_instance_reservation_remove_ref]. *)
Definition delete_referrer (id : N) (P : ReferrerRow → Prop) `{!∀ r, Decision (P r)} : CM bool :=
  q ← gets (λ db, db.(referrers) !! id);
  match q with
  | Some r =>
      if decide (P r) then
        _ ← ensure (λ db, r.(rf_state) = Creating ∨
              (r.(rf_state) = Released ∧ intent_of db id r Purge (λ o, o.(in_applied) = true)));
        _ ← modify (set_referrers (delete id));
        _ ← ensure (λ db, is_none_or (λ o, o.(in_kind) = Purge ∧ o.(in_applied) = true) (db.(intents) !! id));
        _ ← modify (set_intents (delete id));
        _ ← drop_instance_refs id r;
        mret true
      else mret false
  | None => mret false
  end.

(** ** Prepared operations *)

Definition selector_fits (s : WorkflowRestartSelector) : Prop :=
  1 ≤ str_len s.(sel_name) ≤ 256 ∧ 1 ≤ s.(sel_count) ≤ 1024.
#[export] Instance selector_fits_dec s : Decision (selector_fits s).
Proof. unfold selector_fits. apply _. Defined.

Definition intent_check (o : IntentRow) : Prop :=
  1 ≤ o.(in_expected_generation) ∧ 1 ≤ o.(in_target_generation) ∧ 1 ≤ o.(in_sequence) ∧
  (o.(in_prior) = Live ∨ o.(in_prior) = Retained) ∧ is_none_or selector_fits o.(in_restart_from) ∧
  match o.(in_kind) with
  | Restart => o.(in_expected_generation) < i64_max ∧ o.(in_target_generation) = o.(in_expected_generation) + 1
  | Purge => o.(in_target_generation) = o.(in_expected_generation) ∧ o.(in_prior) = Retained ∧
             o.(in_restart_from) = None
  end.
#[export] Instance intent_check_dec o : Decision (intent_check o).
Proof. unfold intent_check. destruct (in_kind o); apply _. Defined.

(** A restart runs a ready version of a live Worker in an available definition. *)
Definition restart_ready (db : ControlDb) (r : ReferrerRow) (v : VersionRow) : Prop :=
  v.(v_state) = VReady ∧
  is_some_and (λ f, f.(d_state) = DReady ∧ f.(availability) = Healthy) (db.(definitions) !! r.(rf_definition)) ∧
  is_some_and (λ d, d.(wv_state) = VReady ∧ db.(workers) !! d.(wv_worker) = Some None)
    (db.(worker_versions) !! r.(rf_worker_version)).
#[export] Instance restart_ready_dec db r v : Decision (restart_ready db r v).
Proof. unfold restart_ready. apply _. Defined.

(** [workflow_operation_insert_guard] and [workflow_operation_sequence_insert_guard] *)
Definition intent_authority (db : ControlDb) (id : N) (o : IntentRow) : Prop :=
  o.(in_applied) = false ∧
  is_some_and (λ r, r.(rf_nonce) = o.(in_nonce) ∧ r.(rf_generation) = o.(in_expected_generation) ∧
      r.(rf_state) = o.(in_prior) ∧ r.(rf_sequence) = o.(in_sequence) ∧
      is_some_and (λ v, v.(v_capability) = 1 ∧ (o.(in_kind) = Purge ∨ restart_ready db r v))
        (db.(versions) !! r.(rf_version))) (db.(referrers) !! id).
#[export] Instance intent_authority_dec db id o : Decision (intent_authority db id o).
Proof. unfold intent_authority. apply _. Defined.

Definition insert_intent (id : N) (o : IntentRow) : CM unit :=
  _ ← ensure (λ db, intent_check o ∧ intent_authority db id o ∧ db.(intents) !! id = None ∧
        ¬ map_Exists (λ _ o', o'.(in_operation) = o.(in_operation)) db.(intents));
  modify (set_intents <[id := o]>).

(** [UPDATE workflow_instance_operations SET applied=1 WHERE operation_id=?1], on the row of
    instance [id]; [workflow_operation_apply_guard] *)
Definition apply_intent (id operation : N) : CM unit :=
  q ← gets (λ db, db.(intents) !! id);
  match q with
  | Some o =>
      if decide (o.(in_operation) = operation) then
        _ ← ensure (λ _, o.(in_applied) = false);
        modify (set_intents <[id := {| o with in_applied := true |}]>)
      else mret ()
  | None => mret ()
  end.

(** [workflow_operation_delete_guard] *)
Definition intent_settled (db : ControlDb) (id : N) (o : IntentRow) : Prop :=
  match o.(in_applied), o.(in_kind) with
  | false, _ => is_some_and (λ r, r.(rf_generation) = o.(in_expected_generation) ∧ r.(rf_state) = o.(in_prior))
                  (db.(referrers) !! id)
  | true, Restart => is_some_and (λ r, r.(rf_generation) = o.(in_target_generation) ∧ r.(rf_state) = Live)
                       (db.(referrers) !! id)
  | true, Purge => db.(referrers) !! id = None
  end.
#[export] Instance intent_settled_dec db id o : Decision (intent_settled db id o).
Proof. unfold intent_settled. destruct (in_applied o), (in_kind o); apply _. Defined.

Definition delete_intent_row (id operation : N) : CM unit :=
  q ← gets (λ db, db.(intents) !! id);
  match q with
  | Some o =>
      if decide (o.(in_operation) = operation) then
        _ ← ensure (λ db, intent_settled db id o);
        modify (set_intents (delete id))
      else mret ()
  | None => mret ()
  end.

(** ** Bindings and Worker versions *)

Definition active (s : VersionState) : bool :=
  match s with VStaging | VValidating | VReady => true | _ => false end.

(** Whether a binding or a version still consumes the reservation of a definition. *)
Definition consumed (db : ControlDb) (id : N) (owner : ustr) (fence : Z) : Prop :=
  map_Exists (λ _ b, b.(b_definition) = id ∧ b.(b_reservation) = Some (owner, fence) ∧
      is_some_and (λ w, active w.(wv_state) = true) (db.(worker_versions) !! b.(b_version))) db.(bindings) ∨
  map_Exists (λ _ v, v.(v_definition) = id ∧ v.(v_reservation) = Some (owner, fence) ∧
      active v.(v_state) = true) db.(versions).
#[export] Instance consumed_dec db id owner fence : Decision (consumed db id owner fence).
Proof. unfold consumed. apply _. Defined.

Definition identifier_char (c : Z) : Prop := is_ascii_alphanumeric c ∨ c = 95 ∨ c = 36.
#[export] Instance identifier_char_dec c : Decision (identifier_char c).
Proof. unfold identifier_char. apply _. Defined.
Definition has_prefix (p s : ustr) : Prop := take (length p) s = p.
#[export] Instance has_prefix_dec p s : Decision (has_prefix p s).
Proof. unfold has_prefix. apply _. Defined.

Definition binding_check (b : BindingRow) : Prop :=
  text_between 1 64 b.(b_name) ∧ 1 ≤ b.(b_lifecycle_generation) ∧ text_between 1 128 b.(b_class_name) ∧
  is_none_or (λ p, text_between 1 128 p.1 ∧ 1 ≤ p.2) b.(b_reservation) ∧ b.(b_capability) = 1 ∧
  2 ≤ str_len (json_text (JArr (JStr <$> b.(b_schedules)))) ≤ 32768 ∧ length b.(b_descriptor) = 32%nat ∧
  Forall identifier_char b.(b_name) ∧ ¬ is_some_and is_digit (head b.(b_name)) ∧
  ¬ has_prefix (lit "OPEN_COMPUTE_") b.(b_name) ∧ ¬ has_prefix (lit "__") b.(b_name).
#[export] Instance binding_check_dec b : Decision (binding_check b).
Proof. unfold binding_check. apply _. Defined.

(** [workflow_binding_insert_guard] *)
Definition binding_authority (db : ControlDb) (b : BindingRow) : Prop :=
  is_some_and (λ w, w.(wv_state) = VStaging ∧ is_Some (db.(workers) !! w.(wv_worker)))
    (db.(worker_versions) !! b.(b_version)) ∧
  is_some_and (λ f, f.(lifecycle_generation) = b.(b_lifecycle_generation) ∧
      match b.(b_reservation) with
      | Some (owner, fence) => open_state f.(d_state) = true ∧ f.(reservation_fence) = fence ∧
          is_some_and (λ p, p.(reserved_class_name) = b.(b_class_name) ∧ p.(reservation_owner) = owner) f.(pending)
      | None => f.(d_state) = DReady ∧ f.(availability) = Healthy ∧
          is_some_and (λ vid, is_some_and (λ v, v.(v_definition) = b.(b_definition) ∧ v.(v_state) = VReady ∧
              v.(v_class_name) = b.(b_class_name)) (db.(versions) !! vid)) f.(current_version_id)
      end) (db.(definitions) !! b.(b_definition)).
#[export] Instance binding_authority_dec db b : Decision (binding_authority db b).
Proof. unfold binding_authority. destruct (b_reservation b) as [[??]|]; apply _. Defined.

Definition set_bindings (f : gmap N BindingRow → gmap N BindingRow) (db : ControlDb) : ControlDb :=
  {| db with bindings := f db.(bindings) |}.
Definition mark_bound (now_ms : Z) (d : DefinitionRow) : DefinitionRow :=
  {| d with pending := (λ p, {| p with reservation_state := Bound |}) <$> d.(pending);
            d_updated_at_ms := now_ms |}.

(** with [workflow_binding_add_ref] and [workflow_binding_marks_reservation_bound];
    [name_taken]: another product of the version has the name *)
Definition insert_binding (name_taken : bool) (id : N) (b : BindingRow) : CM unit :=
  _ ← ensure (λ db, binding_check b ∧ name_taken = false ∧ binding_authority db b ∧ db.(bindings) !! id = None ∧
        ¬ map_Exists (λ _ b', b'.(b_version) = b.(b_version) ∧ b'.(b_name) = b.(b_name)) db.(bindings) ∧
        db.(workflow_referrers) !! (b.(b_definition), OfBinding, id) = None);
  _ ← modify (set_bindings <[id := b]>);
  _ ← modify (set_workflow_referrers <[(b.(b_definition), OfBinding, id) := b.(b_created_at_ms)]>);
  match b.(b_reservation) with
  | Some (owner, fence) =>
      changed ← update_definition false b.(b_definition)
        (λ d, d.(reservation_fence) = fence ∧
              is_some_and (λ p, p.(reservation_owner) = owner ∧ p.(reserved_class_name) = b.(b_class_name)) d.(pending))
        (λ d, mark_bound (Z.max d.(d_updated_at_ms) b.(b_created_at_ms)) d);
      ensure (λ _, changed = true)
  | None => mret ()
  end.

(** [DELETE FROM workflow_bindings] of one row, with [workflow_binding_delete_guard], the
    references of [workflow_binding_operations] and its locks, and [workflow_binding_remove_ref]. *)
Definition delete_binding (id : N) : CM unit :=
  o ← gets (λ db, db.(bindings) !! id);
  match o with
  | Some b =>
      _ ← ensure (λ db,
            is_some_and (λ w, w.(wv_state) = VStaging ∨ w.(wv_state) = VRejected ∨ w.(wv_state) = VDeleting)
              (db.(worker_versions) !! b.(b_version)) ∧
            ¬ map_Exists (λ _ o, o.(bo_binding) = id) db.(binding_operations) ∧
            ¬ map_Exists (λ _ l, l.1 = id) db.(binding_locks));
      _ ← modify (set_bindings (delete id));
      modify (set_workflow_referrers (delete (b.(b_definition), OfBinding, id)))
  | None => mret ()
  end.

(** [workflow_reservation_release_terminal_worker] *)
Definition orphaned (db : ControlDb) (version id : N) (d : DefinitionRow) : Prop :=
  open_state d.(d_state) = true ∧
  is_some_and (λ p,
      map_Exists (λ _ b, b.(b_version) = version ∧ b.(b_definition) = id ∧
          b.(b_reservation) = Some (p.(reservation_owner), d.(reservation_fence))) db.(bindings) ∧
      ¬ consumed db id p.(reservation_owner) d.(reservation_fence)) d.(pending).
#[export] Instance orphaned_dec db version id d : Decision (orphaned db version id d).
Proof. unfold orphaned. apply _. Defined.
Definition release_orphans (version : N) (rejected_at_ms : option Z) (db : ControlDb) : ControlDb :=
  {| db with definitions := map_imap (λ id d, Some
       (if decide (orphaned db version id d)
        then {| d with pending := None;
                       d_updated_at_ms := Z.max d.(d_updated_at_ms) (default d.(d_updated_at_ms) rejected_at_ms) |}
        else d)) db.(definitions) |}.

Definition set_worker_versions (f : gmap N WorkerVersionRow → gmap N WorkerVersionRow) (db : ControlDb) : ControlDb :=
  {| db with worker_versions := f db.(worker_versions) |}.

(** [UPDATE worker_versions SET f WHERE id=?1 AND P] *)
Definition update_worker_version (id : N) (P : WorkerVersionRow → Prop) `{!∀ w, Decision (P w)}
    (f : WorkerVersionRow → WorkerVersionRow) : CM bool :=
  o ← gets (λ db, db.(worker_versions) !! id);
  match o with
  | Some w =>
      if decide (P w) then
        let w' := f w in
        _ ← modify (set_worker_versions <[id := w']>);
        _ ← (if decide (((w.(wv_state) = VStaging ∨ w.(wv_state) = VValidating) ∧ w'.(wv_state) = VRejected) ∨
                        ((w.(wv_state) = VReady ∨ w.(wv_state) = VRejected) ∧ w'.(wv_state) = VDeleting))
             then modify (release_orphans id w'.(wv_rejected_at_ms)) else mret ());
        mret true
      else mret false
  | None => mret false
  end.
