(* ===== verification/WorkflowCatalog.v ===== *)
(** * The workflow catalog

    [crates/storage/src/workflows.rs], [workflows/versions.rs] and the Worker statements of
    [worker_repository] that reach the workflow tables: definitions and their fenced
    upload reservations, immutable versions, deletion, and the retirement of versions
    nothing pins.  A generated identity is an argument. *)

From stdpp Require Import base numbers list option strings sorting gmap.
From S2P Require Import Prelude Text ErrorCodes Duration RetryPolicy WorkflowTypes Sql WorkflowDb WorkflowRuns WorkflowControl.

Local Open Scope Z_scope.

(** ** Records *)

Record WorkflowDefinition := { wd_id : N; wd_instance : N; wd_row : DefinitionRow }.

Record WorkflowDefinitionReservation := {
  rs_definition : WorkflowDefinition;
  rs_owner : ustr;
  rs_fence : Z;
  rs_created_definition : bool;
}.

Record WorkflowDeleteIntent := { di_definition : WorkflowDefinition; di_fence : Z }.

Record WorkflowVersion := {
  vr_target : WorkflowTarget;
  vr_number : Z;
  vr_state : VersionState;
  vr_created_at_ms : Z;
  vr_rejection_code : option ustr;
  vr_reservation : option (ustr * Z);
}.

(** ** Validation *)

Definition validate_workflow_name (value : ustr) : result PlatformError unit :=
  bail_if (64 < str_len value ∨ is_ok (validate_workflow_instance_id value) = false)
    (workflow_error WorkflowNotReady).

Definition is_ascii_alphabetic (c : Z) : Prop := 65 ≤ c ≤ 90 ∨ 97 ≤ c ≤ 122.
#[export] Instance is_ascii_alphabetic_dec c : Decision (is_ascii_alphabetic c).
Proof. unfold is_ascii_alphabetic. apply _. Defined.

Definition validate_class_name (value : ustr) : result PlatformError unit :=
  bail_if (value = [] ∨ 128 < str_len value ∨ has_prefix (lit "__") value ∨
           ¬ is_some_and (λ c, is_ascii_alphabetic c ∨ c = 95 ∨ c = 36) (head value) ∨
           ¬ Forall identifier_char value)
    (storage_error WorkflowVersionNotReady).

(** ** Reads *)

Definition owned (db : ControlDb) (instance : N) : Prop := db.(instance_identity) = instance.
#[export] Instance owned_dec db instance : Decision (owned db instance).
Proof. unfold owned. apply _. Defined.

Definition definition_row (db : ControlDb) (id : N) (d : DefinitionRow) : WorkflowDefinition :=
  {| wd_id := id; wd_instance := db.(instance_identity); wd_row := d |}.

(** [DEFINITION_SELECT WHERE .. AND id=?2] *)
Definition read_definition (db : ControlDb) (instance id : N) : option WorkflowDefinition :=
  if decide (owned db instance) then definition_row db id <$> db.(definitions) !! id else None.

(** [DEFINITION_SELECT WHERE .. AND name=?2 AND state IN ..] *)
Definition named_definition (db : ControlDb) (instance : N) (name : ustr) (P : ResourceState → bool) :
    option WorkflowDefinition :=
  if decide (owned db instance) then
    (λ x, definition_row db x.1 x.2) <$>
      sql_find (λ x, x.2.(d_name) = name ∧ P x.2.(d_state) = true) (map_to_list db.(definitions))
  else None.

(** The row a statement of this transaction wrote. *)
Definition reread_definition (instance id : N) : CM WorkflowDefinition :=
  o ← gets (λ db, read_definition db instance id);
  some_or o violation.

(** [VERSION_SELECT], joined with the definition for its current name *)
Definition version_target (db : ControlDb) (id : N) (v : VersionRow) (name : ustr) : WorkflowTarget := {|
  t_instance_id := db.(instance_identity);
  definition_id := v.(v_definition);
  definition_name := name;
  workflow_version_id := id;
  worker_id := v.(v_worker);
  worker_version_id := v.(v_worker_version);
  worker_code_sha256 := v.(v_code_sha256);
  class_name := v.(v_class_name);
  loader_schema_version := v.(v_loader_schema);
  capability_version := v.(v_capability);
  descriptor_sha256 := v.(v_descriptor);
|}.
Definition version_row (db : ControlDb) (id : N) (v : VersionRow) : option WorkflowVersion :=
  d ← db.(definitions) !! v.(v_definition);
  Some {| vr_target := version_target db id v d.(d_name); vr_number := v.(version_number);
          vr_state := v.(v_state); vr_created_at_ms := v.(v_created_at_ms);
          vr_rejection_code := v.(rejection_code); vr_reservation := v.(v_reservation) |}.
Definition read_version (db : ControlDb) (id : N) : option WorkflowVersion :=
  v ← db.(versions) !! id;
  version_row db id v.

(** ** Definitions *)

Definition fresh_definition (name : ustr) (p : option Pending) (fence now_ms : Z) : DefinitionRow := {|
  d_name := name;
  d_state := DCreating;
  availability := Degraded;
  availability_code := Some (lit "WORKFLOW_VERSION_NOT_READY");
  lifecycle_generation := 1;
  pending := p;
  reservation_fence := fence;
  delete_fence := 0;
  current_version_id := None;
  d_created_at_ms := now_ms;
  d_updated_at_ms := now_ms;
  d_deleted_at_ms := None;
|}.

Definition not_tombstoned (s : ResourceState) : bool := match s with DTombstoned => false | _ => true end.

Definition create_definition (instance : N) (name : ustr) (id : N) (now_ms : Z) : CM WorkflowDefinition :=
  _ ← lift (validate_workflow_name name);
  transaction (
    known ← gets (λ db, bool_decide (owned db instance));
    _ ← throw_if (known = false) (storage_error WorkflowNotFound);
    taken ← gets (λ db, named_definition db instance name not_tombstoned);
    _ ← throw_if (is_Some taken) (storage_error WorkflowNameConflict);
    _ ← insert_definition id (fresh_definition name None 0 now_ms);
    reread_definition instance id).

(** [fn reservation] *)
Definition reservation_of (d : WorkflowDefinition) : result PlatformError WorkflowDefinitionReservation :=
  p ← ok_or_else d.(wd_row).(pending) violation;
  _ ← bail_if (d.(wd_row).(reservation_fence) < 1) violation;
  Ok {| rs_definition := d; rs_owner := p.(reservation_owner); rs_fence := d.(wd_row).(reservation_fence);
        rs_created_definition := p.(reservation_created_definition) |}.

Definition set_reserved (class_name owner : ustr) (fence now_ms : Z) (d : DefinitionRow) : DefinitionRow :=
  {| d with pending := Some {| reserved_class_name := class_name; reservation_owner := owner;
                               reservation_state := Reserved; reservation_created_definition := false |};
            reservation_fence := fence;
            d_updated_at_ms := now_ms |}.

Definition reserve_definition (instance : N) (name class_name owner : ustr) (id : N) (now_ms : Z) :
    CM WorkflowDefinitionReservation :=
  _ ← lift (validate_workflow_name name);
  _ ← lift (validate_class_name class_name);
  _ ← throw_if (owner = [] ∨ 128 < str_len owner) violation;
  transaction (
    known ← gets (λ db, bool_decide (owned db instance));
    _ ← throw_if (known = false) (storage_error WorkflowNotFound);
    o ← gets (λ db, named_definition db instance name not_tombstoned);
    match o with
    | Some existing =>
        let row := existing.(wd_row) in
        _ ← throw_if (open_state row.(d_state) = false) (storage_error WorkflowNameConflict);
        _ ← throw_if (is_some_and (λ p, p.(reserved_class_name) ≠ class_name) row.(pending))
              (storage_error WorkflowNameConflict);
        if decide (is_some_and (λ p, p.(reserved_class_name) = class_name ∧ p.(reservation_owner) = owner)
                     row.(pending))
        then lift (reservation_of existing)
        else
          fence ← some_or (i64_checked (row.(reservation_fence) + 1)) violation;
          changed ← update_definition false existing.(wd_id) (λ d, open_state d.(d_state) = true)
                      (set_reserved class_name owner fence now_ms);
          _ ← throw_if (changed = false) (storage_error WorkflowNameConflict);
          d ← reread_definition instance existing.(wd_id);
          lift (reservation_of d)
    | None =>
        _ ← insert_definition id (fresh_definition name
              (Some {| reserved_class_name := class_name; reservation_owner := owner;
                       reservation_state := Reserved; reservation_created_definition := true |}) 1 now_ms);
        d ← reread_definition instance id;
        lift (reservation_of d)
    end).

(** The rows a definition reservation admitted. *)
Definition has_consumers (db : ControlDb) (id : N) : Prop :=
  map_Exists (λ _ b, b.(b_definition) = id) db.(bindings) ∨
  map_Exists (λ _ v, v.(v_definition) = id) db.(versions).
#[export] Instance has_consumers_dec db id : Decision (has_consumers db id).
Proof. unfold has_consumers. apply _. Defined.

Definition holds_reservation (owner : ustr) (fence : Z) (d : DefinitionRow) : Prop :=
  is_some_and (λ p, p.(reservation_owner) = owner) d.(pending) ∧ d.(reservation_fence) = fence.
#[export] Instance holds_reservation_dec owner fence d : Decision (holds_reservation owner fence d).
Proof. unfold holds_reservation. apply _. Defined.

Definition set_unreserved (now_ms : Z) (d : DefinitionRow) : DefinitionRow :=
  {| d with pending := None; d_updated_at_ms := now_ms |}.
Definition set_deleting (fence now_ms : Z) (d : DefinitionRow) : DefinitionRow :=
  {| d with d_state := DDeleting; delete_fence := fence; d_updated_at_ms := now_ms |}.
Definition set_definition_tombstoned (now_ms : Z) (d : DefinitionRow) : DefinitionRow :=
  {| d with d_state := DTombstoned; d_updated_at_ms := now_ms; d_deleted_at_ms := Some now_ms |}.

(** The instance that owns the catalog decides every update with
    [(SELECT instance_id FROM instance_identity)=?1]. *)
Definition update_owned (instance : N) (watched : bool) (id : N) (P : DefinitionRow → Prop) `{!∀ d, Decision (P d)}
    (f : DefinitionRow → DefinitionRow) : CM bool :=
  known ← gets (λ db, bool_decide (owned db instance));
  if (known : bool) then update_definition watched id P f else mret false.

Definition release_definition_reservation (instance : N) (r : WorkflowDefinitionReservation) (now_ms : Z) : CM bool :=
  let id := r.(rs_definition).(wd_id) in
  transaction (
    o ← gets (λ db, read_definition db instance id);
    match o with
    | None => mret false
    | Some current =>
        let row := current.(wd_row) in
        if decide (¬ holds_reservation r.(rs_owner) r.(rs_fence) row) then mret false
        else
          _ ← throw_if (row.(reservation_fence) < 1) violation;
          busy ← gets (λ db, bool_decide (consumed db id r.(rs_owner) row.(reservation_fence)));
          if (busy : bool) then mret false
          else if decide (r.(rs_created_definition) = true ∧
                  is_some_and (λ p, p.(reservation_created_definition) = true) row.(pending) ∧
                  row.(d_state) = DCreating ∧ row.(current_version_id) = None) then
            any ← gets (λ db, bool_decide (has_consumers db id));
            if (any : bool) then mret false
            else
              deleting ← update_owned instance true id
                (λ d, holds_reservation r.(rs_owner) r.(rs_fence) d ∧ d.(d_state) = DCreating ∧
                      d.(current_version_id) = None)
                (λ d, set_deleting (d.(delete_fence) + 1) now_ms (set_unreserved now_ms d));
              if (deleting : bool) then
                update_owned instance true id (λ d, d.(d_state) = DDeleting) (set_definition_tombstoned now_ms)
              else mret false
          else if open_state row.(d_state) then
            update_owned instance false id
              (λ d, holds_reservation r.(rs_owner) r.(rs_fence) d ∧ open_state d.(d_state) = true)
              (set_unreserved now_ms)
          else mret false
    end).

Definition definition (instance id : N) : CM WorkflowDefinition :=
  o ← gets (λ db, read_definition db instance id);
  some_or o (storage_error WorkflowNotFound).

Definition rename (instance id : N) (name : ustr) (now_ms : Z) : CM WorkflowDefinition :=
  _ ← lift (validate_workflow_name name);
  transaction (
    taken ← gets (λ db, bool_decide (owned db instance ∧ ¬ name_free db id name));
    _ ← throw_if (taken = true) (storage_error WorkflowNameConflict);
    changed ← update_owned instance false id (λ d, open_state d.(d_state) = true)
                (λ d, {| d with d_name := name; d_updated_at_ms := now_ms |});
    _ ← throw_if (changed = false) (storage_error WorkflowNotReady);
    reread_definition instance id).

(** [UPDATE workflow_versions SET .. WHERE definition_id=?1 AND P], row by row *)
Definition update_versions_of (id : N) (P : VersionRow → Prop) `{!∀ v, Decision (P v)}
    (f : VersionRow → VersionRow) : CM unit :=
  ids ← gets (λ db, (map_to_list db.(versions)).*1);
  _ ← for_each (λ vid, update_version vid (λ v, v.(v_definition) = id ∧ P v) f) ids;
  mret ().

Definition set_version_state (s : VersionState) (v : VersionRow) : VersionRow := {| v with v_state := s |}.
Definition set_version_tombstoned (now_ms : Z) (v : VersionRow) : VersionRow :=
  {| v with v_state := VTombstoned; v_deleted_at_ms := Some now_ms |}.

Definition deleting_at (fence : Z) (d : DefinitionRow) : Prop := d.(d_state) = DDeleting ∧ d.(delete_fence) = fence.
#[export] Instance deleting_at_dec fence d : Decision (deleting_at fence d).
Proof. unfold deleting_at. apply _. Defined.

Definition finalize_definition_delete (instance id : N) (fence now_ms : Z) : CM WorkflowDefinition :=
  _ ← throw_if (fence < 1) violation;
  o ← gets (λ db, read_definition db instance id);
  d ← some_or o (storage_error WorkflowNotFound);
  if decide (d.(wd_row).(d_state) = DTombstoned ∧ d.(wd_row).(delete_fence) = fence) then mret d
  else
    _ ← throw_if (¬ deleting_at fence d.(wd_row)) (storage_error WorkflowNotReady);
    busy ← gets (λ db, bool_decide (referenced db id));
    _ ← throw_if (busy = true) (storage_error WorkflowReferenced);
    _ ← update_owned instance true id (deleting_at fence)
          (λ d, {| d with current_version_id := None; d_updated_at_ms := now_ms |});
    _ ← update_versions_of id (λ v, v.(v_state) = VReady ∨ v.(v_state) = VRejected) (set_version_state VDeleting);
    _ ← update_versions_of id (λ v, v.(v_state) = VDeleting) (set_version_tombstoned now_ms);
    changed ← update_owned instance true id (deleting_at fence) (set_definition_tombstoned now_ms);
    _ ← throw_if (changed = false) violation;
    reread_definition instance id.

(** [WorkflowRepository::delete] *)
Definition delete_definition (instance id : N) (now_ms : Z) : CM WorkflowDefinition := transaction (
  o ← gets (λ db, read_definition db instance id);
  d ← some_or o (storage_error WorkflowNotFound);
  if decide (d.(wd_row).(d_state) = DTombstoned) then mret d
  else
    _ ← throw_if (is_Some d.(wd_row).(pending)) (storage_error WorkflowReferenced);
    busy ← gets (λ db, bool_decide (referenced db id));
    _ ← throw_if (busy = true) (storage_error WorkflowReferenced);
    fence ← (if decide (d.(wd_row).(d_state) = DDeleting) then mret d.(wd_row).(delete_fence)
             else
               changed ← update_owned instance true id (λ d, open_state d.(d_state) = true)
                           (λ d, set_deleting (d.(delete_fence) + 1) now_ms d);
               _ ← throw_if (changed = false) (storage_error WorkflowNotReady);
               some_or (i64_checked (d.(wd_row).(delete_fence) + 1)) violation);
    finalize_definition_delete instance id fence now_ms).

Definition delete_intent (d : WorkflowDefinition) : result PlatformError WorkflowDeleteIntent :=
  _ ← bail_if (d.(wd_row).(d_state) ≠ DDeleting ∨ d.(wd_row).(delete_fence) < 1) violation;
  Ok {| di_definition := d; di_fence := d.(wd_row).(delete_fence) |}.

Definition deletable (s : ResourceState) : bool := match s with DReady | DDeleting => true | _ => false end.

(** A binding or a version under validation that a deletion would break. *)
Definition bound_or_validating (db : ControlDb) (id : N) : Prop :=
  map_Exists (λ k _, k.1 = (id, OfBinding)) db.(workflow_referrers) ∨
  map_Exists (λ _ v, v.(v_definition) = id ∧ (v.(v_state) = VStaging ∨ v.(v_state) = VValidating)) db.(versions).
#[export] Instance bound_or_validating_dec db id : Decision (bound_or_validating db id).
Proof. unfold bound_or_validating. apply _. Defined.

Definition begin_definition_delete (instance : N) (name : ustr) (now_ms : Z) : CM WorkflowDeleteIntent :=
  _ ← lift (validate_workflow_name name);
  transaction (
    o ← gets (λ db, named_definition db instance name deletable);
    d ← some_or o (storage_error WorkflowNotFound);
    if decide (d.(wd_row).(d_state) = DDeleting) then lift (delete_intent d)
    else
      let id := d.(wd_id) in
      busy ← gets (λ db, bool_decide (is_Some d.(wd_row).(pending) ∨ bound_or_validating db id));
      _ ← throw_if (busy = true) (storage_error WorkflowReferenced);
      fence ← some_or (i64_checked (d.(wd_row).(delete_fence) + 1)) violation;
      changed ← update_owned instance true id
        (λ d', open_state d'.(d_state) = true ∧ d'.(pending) = None ∧ d'.(delete_fence) = d.(wd_row).(delete_fence))
        (set_deleting fence now_ms);
      _ ← throw_if (changed = false) (storage_error WorkflowReferenced);
      claimed ← reread_definition instance id;
      lift (delete_intent claimed)).

Definition finish_definition_delete (instance : N) (intent : WorkflowDeleteIntent) (now_ms : Z) :
    CM WorkflowDefinition :=
  _ ← throw_if (intent.(di_definition).(wd_instance) ≠ instance) violation;
  transaction (finalize_definition_delete instance intent.(di_definition).(wd_id) intent.(di_fence) now_ms).

Definition mark_unavailable (instance id : N) (now_ms : Z) : CM unit := transaction (
  changed ← update_owned instance false id (λ d, open_state d.(d_state) = true)
    (λ d, {| d with availability := Unavailable;
                    availability_code := Some (lit "WORKFLOW_INVARIANT_VIOLATION");
                    d_updated_at_ms := now_ms |});
  throw_if (changed = false) (storage_error WorkflowNotFound)).

(** ** Versions *)

Section versions.
Context `{Codec}.

(** The digest a frozen version must still have. *)
Definition frozen (t : WorkflowTarget) : Prop := version_digest t = Ok t.(descriptor_sha256).
#[export] Instance frozen_dec t : Decision (frozen t).
Proof.
  unfold frozen. destruct (version_digest t) as [d|e]; [|by right].
  destruct (decide (d = descriptor_sha256 t)) as [->|]; [by left|right; congruence].
Defined.

(** A Worker version that may carry a new workflow version. *)
Definition worker_target (db : ControlDb) (instance version : N) (reserved : bool) :
    option (N * N * list Z * Z) :=
  if decide (owned db instance) then
    d ← db.(worker_versions) !! version;
    if decide ((d.(wv_state) = VReady ∨ (reserved = true ∧ d.(wv_state) = VValidating)) ∧
               db.(workers) !! d.(wv_worker) = Some None)
    then Some (d.(wv_worker), version, d.(wv_code_sha256), d.(wv_loader_schema)) else None
  else None.

Definition staged (target : WorkflowTarget) (number : Z) (r : option (ustr * Z)) (now_ms : Z) : VersionRow := {|
  v_definition := target.(definition_id);
  version_number := number;
  v_state := VStaging;
  v_worker := target.(worker_id);
  v_worker_version := target.(worker_version_id);
  v_class_name := target.(class_name);
  v_reservation := r;
  v_code_sha256 := target.(worker_code_sha256);
  v_loader_schema := target.(loader_schema_version);
  v_capability := 1;
  v_descriptor := target.(descriptor_sha256);
  v_created_at_ms := now_ms;
  ready_at_ms := None;
  rejected_at_ms := None;
  rejection_code := None;
  v_deleted_at_ms := None;
|}.

(** [coalesce(MAX(version_number),0)+1] *)
Definition next_number (db : ControlDb) (definition : N) : Z :=
  foldr Z.max 0 (version_number ∘ snd <$> filter (λ x, x.2.(v_definition) = definition) (map_to_list db.(versions))) + 1.

(** The version the same reservation already staged. *)
Definition staged_before (db : ControlDb) (definition version : N) (class_name owner : ustr) (fence : Z) :
    option WorkflowVersion :=
  x ← sql_find (λ x, x.2.(v_definition) = definition ∧ x.2.(v_worker_version) = version ∧
        x.2.(v_class_name) = class_name ∧ x.2.(v_reservation) = Some (owner, fence)) (map_to_list db.(versions));
  version_row db x.1 x.2.

(** [match reservation]: consume the exact reservation, or require that there is none. *)
Definition consume_reservation (d : WorkflowDefinition) (class_name : ustr) (reservation : option (ustr * Z))
    (now_ms : Z) : CM unit :=
  match reservation with
  | Some (owner, fence) =>
      _ ← throw_if (¬ (holds_reservation owner fence d.(wd_row) ∧
                       is_some_and (λ p, p.(reserved_class_name) = class_name) d.(wd_row).(pending)))
            (storage_error WorkflowVersionNotReady);
      changed ← update_definition false d.(wd_id) (holds_reservation owner fence) (mark_bound now_ms);
      throw_if (changed = false) (storage_error WorkflowVersionNotReady)
  | None => throw_if (is_Some d.(wd_row).(pending)) (storage_error WorkflowVersionNotReady)
  end.

Definition stage_version_inner (instance definition version : N) (class_name : ustr)
    (reservation : option (ustr * Z)) (fresh : N) (now_ms : Z) : CM WorkflowVersion :=
  _ ← lift (validate_class_name class_name);
  transaction (
    o ← gets (λ db, read_definition db instance definition);
    d ← some_or o (storage_error WorkflowNotFound);
    _ ← throw_if (open_state d.(wd_row).(d_state) = false) (storage_error WorkflowNotReady);
    _ ← consume_reservation d class_name reservation now_ms;
    q ← gets (λ db, worker_target db instance version (bool_decide (is_Some reservation)));
    worker ← some_or q (storage_error WorkflowVersionNotReady);
    existing ← gets (λ db, r ← reservation; staged_before db definition version class_name r.1 r.2);
    match existing with
    | Some e => _ ← throw_if (¬ frozen e.(vr_target)) violation; mret e
    | None =>
        number ← gets (λ db, next_number db definition);
        _ ← throw_if (10000 < number) (storage_error QuotaExceeded);
        let '(w, dv, code, loader) := worker in
        let target := {|
          t_instance_id := instance; definition_id := definition; definition_name := d.(wd_row).(d_name);
          workflow_version_id := fresh; worker_id := w; worker_version_id := dv; worker_code_sha256 := code;
          class_name := class_name; loader_schema_version := loader; capability_version := 1;
          descriptor_sha256 := replicate 32 0 |} in
        digest ← lift (version_digest target);
        let target := {| target with descriptor_sha256 := digest |} in
        _ ← insert_version fresh (staged target number reservation now_ms);
        _ ← update_version fresh (λ _, True) (set_version_state VValidating);
        mret {| vr_target := target; vr_number := number; vr_state := VValidating; vr_created_at_ms := now_ms;
                vr_rejection_code := None; vr_reservation := reservation |}
    end).

Definition stage_version (instance definition version : N) (class_name : ustr) (fresh : N) (now_ms : Z) :
    CM WorkflowVersion :=
  stage_version_inner instance definition version class_name None fresh now_ms.

Definition stage_reserved_version (instance definition version : N) (class_name : ustr)
    (r : WorkflowDefinitionReservation) (fresh : N) (now_ms : Z) : CM WorkflowVersion :=
  _ ← throw_if (r.(rs_definition).(wd_id) ≠ definition ∨ r.(rs_definition).(wd_instance) ≠ instance ∨
        ¬ is_some_and (λ p, p.(reserved_class_name) = class_name) r.(rs_definition).(wd_row).(pending)) violation;
  stage_version_inner instance definition version class_name (Some (r.(rs_owner), r.(rs_fence))) fresh now_ms.

(** [WorkflowRepository::version] *)
Definition version (instance id : N) : CM WorkflowVersion :=
  o ← gets (λ db, if decide (owned db instance) then read_version db id else None);
  v ← some_or o (storage_error WorkflowVersionNotReady);
  _ ← throw_if (¬ frozen v.(vr_target)) violation;
  mret v.
End versions.

(** The reservation that admitted a version still owns its definition. *)
Definition reservation_is_current (v : WorkflowVersion) (d : DefinitionRow) : Prop :=
  match v.(vr_reservation) with
  | Some (owner, fence) => holds_reservation owner fence d ∧
      is_some_and (λ p, p.(reserved_class_name) = v.(vr_target).(class_name)) d.(pending)
  | None => d.(pending) = None
  end.
#[export] Instance reservation_is_current_dec v d : Decision (reservation_is_current v d).
Proof. unfold reservation_is_current. destruct (vr_reservation v) as [[??]|]; apply _. Defined.

Definition set_version_ready (now_ms : Z) (v : VersionRow) : VersionRow :=
  {| v with v_state := VReady; ready_at_ms := Some now_ms |}.
Definition set_version_rejected (now_ms : Z) (v : VersionRow) : VersionRow :=
  {| v with v_state := VRejected; rejected_at_ms := Some now_ms;
            rejection_code := Some (lit "WORKFLOW_VERSION_NOT_READY") |}.
Definition set_current (id : N) (now_ms : Z) (d : DefinitionRow) : DefinitionRow :=
  {| d with d_state := DReady; availability := Healthy; availability_code := None; pending := None;
            current_version_id := Some id; d_updated_at_ms := now_ms |}.

(** The older current version, whose number the subquery of the publishing [UPDATE] reads. *)
Definition supersedes (db : ControlDb) (number : Z) (d : DefinitionRow) : Prop :=
  is_none_or (λ c, is_some_and (λ v, v.(version_number) < number) (db.(versions) !! c)) d.(current_version_id).
#[export] Instance supersedes_dec db number d : Decision (supersedes db number d).
Proof. unfold supersedes. apply _. Defined.

Definition publish_version (id : N) (v : WorkflowVersion) (now_ms : Z) : CM unit :=
  _ ← update_version id (λ r, r.(v_state) = VValidating) (set_version_ready now_ms);
  newer ← gets (λ db, bool_decide (is_some_and (λ d, open_state d.(d_state) = true ∧ supersedes db v.(vr_number) d)
            (db.(definitions) !! v.(vr_target).(definition_id))));
  changed ← update_definition true v.(vr_target).(definition_id) (λ _, newer = true) (set_current id now_ms);
  throw_if (changed = false ∧ is_Some v.(vr_reservation)) violation.

Definition reject_version (instance id : N) (v : WorkflowVersion) (is_current : bool) (now_ms : Z) : CM unit :=
  _ ← update_version id (λ r, r.(v_state) = VValidating) (set_version_rejected now_ms);
  match v.(vr_reservation), is_current with
  | Some (owner, fence), true =>
      other ← gets (λ db, bool_decide (map_Exists (λ id' r,
        r.(v_definition) = v.(vr_target).(definition_id) ∧ r.(v_reservation) = Some (owner, fence) ∧
        id' ≠ id ∧ active r.(v_state) = true) db.(versions)));
      if (other : bool) then mret ()
      else
        cleared ← update_owned instance false v.(vr_target).(definition_id)
          (λ d, holds_reservation owner fence d ∧ open_state d.(d_state) = true) (set_unreserved now_ms);
        throw_if (cleared = false) violation
  | _, _ => mret ()
  end.

Definition finish_version (instance id : N) (accepted : bool) (now_ms : Z) : CM WorkflowVersion := transaction (
  o ← gets (λ db, if decide (owned db instance) then read_version db id else None);
  v ← some_or o (storage_error WorkflowVersionNotReady);
  if decide (v.(vr_state) = if accepted then VReady else VRejected) then mret v
  else
    _ ← throw_if (v.(vr_state) ≠ VValidating) (storage_error WorkflowVersionNotReady);
    d ← reread_definition instance v.(vr_target).(definition_id);
    let is_current := bool_decide (reservation_is_current v d.(wd_row)) in
    _ ← (if accepted && is_current then publish_version id v now_ms
         else reject_version instance id v is_current now_ms);
    w ← gets (λ db, read_version db id);
    some_or w violation).

(** Noncurrent settled versions that no instance pins, oldest first. *)
Definition unused_versions (db : ControlDb) (limit : Z) : list N :=
  fst <$> take (Z.to_nat limit) (order_by (λ x, [x.2.(v_created_at_ms); Z.of_N x.1])
    (filter (λ x, (x.2.(v_state) = VReady ∨ x.2.(v_state) = VRejected) ∧ ¬ version_in_use db x.1)
       (map_to_list db.(versions)))).

Definition retire_version (now_ms : Z) (id : N) : CM unit :=
  _ ← update_version id (λ _, True) (set_version_state VDeleting);
  _ ← update_version id (λ _, True) (set_version_tombstoned now_ms);
  mret ().

Definition retire_unused_versions (limit now_ms : Z) : CM Z :=
  _ ← throw_if (limit = 0 ∨ 1000 < limit) (storage_error LimitInvalid);
  transaction (
    ids ← gets (λ db, unused_versions db limit);
    _ ← for_each (retire_version now_ms) ids;
    mret (Z.of_nat (length ids))).
