(* ===== verification/WorkflowBindings.v ===== *)
(** * Workflow bindings and the Worker versions that carry them

    [crates/storage/src/workflows/bindings.rs]: the frozen caller descriptor, its
    authorization before any public method and the replay records of its mutations; and
    the statements of [crates/storage/src/worker_repository] that move a Worker version
    or delete it, as far as the workflow tables see them. *)

From stdpp Require Import base numbers list option strings sorting gmap.
From S2P Require Import Prelude Text ErrorCodes Duration RetryPolicy CronSlots WorkflowTypes Sql WorkflowDb WorkflowRuns WorkflowControl WorkflowCatalog.

Local Open Scope Z_scope.

(** The expression grammar of [cron.rs], over the [croner] parser. *)
Class CronParser := {
  cloudflare_syntax : ustr → bool;
  croner_parse : ustr → option CronPattern;
}.
Definition cron_parses `{CronParser} (expression : ustr) : bool :=
  is_ok (CronSlots.parse cloudflare_syntax croner_parse expression).

(** ** Descriptors *)

Record WorkflowBindingDescriptor := {
  bd_binding_id : N;
  bd_name : ustr;
  bd_definition : N;
  bd_lifecycle_generation : Z;
  bd_class_name : ustr;
  bd_schema_version : Z;
  bd_capability : Z;
  bd_schedules : list ustr;
}.

Record WorkflowBindingRecord := {
  br_descriptor : WorkflowBindingDescriptor;
  br_version : N;
  br_sha256 : list Z;
  br_reservation : option (ustr * Z);
  br_created_at_ms : Z;
}.

(** [str]'s order, by code points *)
Definition str_lt (a b : ustr) : Prop := lex_le a b ∧ a ≠ b.
#[export] Instance str_lt_dec a b : Decision (str_lt a b).
Proof. unfold str_lt. apply _. Defined.

(** [!windows(2).any(|values| values[0] >= values[1])] *)
Fixpoint ascending (l : list ustr) : Prop :=
  match l with
  | a :: (b :: _) as l' => str_lt a b ∧ ascending l'
  | _ => True
  end.
#[export] Instance ascending_dec l : Decision (ascending l).
Proof.
  induction l as [|a l IH]; [left; done|]. destruct l as [|b l]; [left; done|].
  change (Decision (str_lt a b ∧ ascending (b :: l))). apply _.
Defined.

Section descriptor.
Context `{Codec, CronParser}.

Definition stale : PlatformError := storage_error WorkflowBindingStale.

(** [serde_json::to_vec(self)], in field order *)
Definition descriptor_text (d : WorkflowBindingDescriptor) : ustr :=
  json_text (JObj
    [("kind"%string, JStr (lit "workflow")); ("schemaVersion"%string, JInt d.(bd_schema_version));
     ("bindingId"%string, JStr (uuid_text d.(bd_binding_id))); ("name"%string, JStr d.(bd_name));
     ("definitionId"%string, JStr (uuid_text d.(bd_definition)));
     ("definitionLifecycleGeneration"%string, JInt d.(bd_lifecycle_generation));
     ("className"%string, JStr d.(bd_class_name)); ("capabilityVersion"%string, JInt d.(bd_capability));
     ("schedules"%string, JArr (JStr <$> d.(bd_schedules)))]).

(** [WorkflowBindingDescriptor::sha256] *)
Definition descriptor_digest (d : WorkflowBindingDescriptor) : result PlatformError (list Z) :=
  _ ← bail_if (d.(bd_schema_version) ≠ 1 ∨ d.(bd_capability) ≠ 1 ∨ d.(bd_lifecycle_generation) < 1 ∨
        (100 < length d.(bd_schedules))%nat ∨ d.(bd_name) = [] ∨ 64 < str_len d.(bd_name) ∨
        has_prefix (lit "__") d.(bd_name) ∨ has_prefix (lit "OPEN_COMPUTE_") d.(bd_name) ∨
        ¬ is_some_and (λ c, is_ascii_alphabetic c ∨ c = 95 ∨ c = 36) (head d.(bd_name)) ∨
        ¬ Forall identifier_char d.(bd_name)) stale;
  _ ← bail_if (is_ok (validate_class_name d.(bd_class_name)) = false) stale;
  _ ← bail_if (¬ ascending d.(bd_schedules) ∨ ¬ Forall (λ s, cron_parses s = true) d.(bd_schedules)) stale;
  Ok (sha256 (descriptor_text d)).

(** [binding_row] *)
Definition binding_record (id : N) (b : BindingRow) : WorkflowBindingRecord := {|
  br_descriptor := {|
    bd_binding_id := id; bd_name := b.(b_name); bd_definition := b.(b_definition);
    bd_lifecycle_generation := b.(b_lifecycle_generation); bd_class_name := b.(b_class_name);
    bd_schema_version := 1; bd_capability := b.(b_capability); bd_schedules := b.(b_schedules) |};
  br_version := b.(b_version);
  br_sha256 := b.(b_descriptor);
  br_reservation := b.(b_reservation);
  br_created_at_ms := b.(b_created_at_ms);
|}.

(** [schedules.sort(); schedules.dedup()] *)
Definition str_le (a b : ustr) : Prop := lex_le a b.
#[export] Instance str_le_dec a b : Decision (str_le a b).
Proof. unfold str_le. apply _. Defined.
Fixpoint dedup (l : list ustr) : list ustr :=
  match l with
  | a :: (b :: _) as l' => if decide (a = b) then dedup l' else a :: dedup l'
  | _ => l
  end.
Definition normal_schedules (l : list ustr) : list ustr := dedup (merge_sort str_le l).

(** The definition admits a caller: through its exact reservation, or ready and healthy with a
    current version of the class. *)
Definition bindable (d : WorkflowDefinition) (class_name : ustr) (reservation : option (ustr * Z)) : CM unit :=
  match reservation with
  | Some (owner, fence) =>
      throw_if (¬ (open_state d.(wd_row).(d_state) = true ∧ holds_reservation owner fence d.(wd_row) ∧
                   is_some_and (λ p, p.(reserved_class_name) = class_name) d.(wd_row).(pending)))
        (storage_error WorkflowNotReady)
  | None =>
      _ ← throw_if (¬ (d.(wd_row).(d_state) = DReady ∧ d.(wd_row).(availability) = Healthy))
            (storage_error WorkflowNotReady);
      current ← some_or d.(wd_row).(current_version_id) (storage_error WorkflowNotReady);
      v ← version d.(wd_instance) current;
      throw_if (v.(vr_state) ≠ VReady ∨ v.(vr_target).(definition_id) ≠ d.(wd_id) ∨
                v.(vr_target).(WorkflowTypes.class_name) ≠ class_name) (storage_error WorkflowNotReady)
  end.

Definition prepare_binding (instance version : N) (name : ustr) (definition : N) (class_name : ustr)
    (reservation : option (ustr * Z)) (schedules : list ustr) (fresh : N) (now_ms : Z) : CM WorkflowBindingRecord :=
  d ← WorkflowCatalog.definition instance definition;
  _ ← lift (validate_class_name class_name);
  _ ← throw_if (is_some_and (λ r, r.1 = [] ∨ 128 < str_len r.1 ∨ r.2 < 1) reservation) violation;
  _ ← bindable d class_name reservation;
  let descriptor := {|
    bd_binding_id := fresh; bd_name := name; bd_definition := d.(wd_id);
    bd_lifecycle_generation := d.(wd_row).(lifecycle_generation); bd_class_name := class_name;
    bd_schema_version := 1; bd_capability := 1; bd_schedules := normal_schedules schedules |} in
  digest ← lift (descriptor_digest descriptor);
  mret {| br_descriptor := descriptor; br_version := version; br_sha256 := digest;
          br_reservation := reservation; br_created_at_ms := now_ms |}.

Definition binding_of (r : WorkflowBindingRecord) : BindingRow := {|
  b_version := r.(br_version);
  b_name := r.(br_descriptor).(bd_name);
  b_definition := r.(br_descriptor).(bd_definition);
  b_lifecycle_generation := r.(br_descriptor).(bd_lifecycle_generation);
  b_class_name := r.(br_descriptor).(bd_class_name);
  b_capability := r.(br_descriptor).(bd_capability);
  b_schedules := r.(br_descriptor).(bd_schedules);
  b_descriptor := r.(br_sha256);
  b_reservation := r.(br_reservation);
  b_created_at_ms := r.(br_created_at_ms);
|}.

Definition insert_workflow_binding (name_taken : ustr → bool) (version : N) (r : WorkflowBindingRecord) : CM unit :=
  digest ← lift (descriptor_digest r.(br_descriptor));
  _ ← throw_if (r.(br_version) ≠ version ∨ digest ≠ r.(br_sha256)) violation;
  insert_binding (name_taken r.(br_descriptor).(bd_name)) r.(br_descriptor).(bd_binding_id) (binding_of r).

Definition insert_workflow_bindings (name_taken : ustr → bool) (version : N) (rs : list WorkflowBindingRecord) :
    CM unit :=
  _ ← for_each (insert_workflow_binding name_taken version) rs;
  mret ().

(** The joins of [authorize_binding]. *)
Definition authorized (db : ControlDb) (version : N) (b : BindingRow) : Prop :=
  b.(b_version) = version ∧
  is_some_and (λ d, d.(wv_state) = VReady ∧ db.(workers) !! d.(wv_worker) = Some None)
    (db.(worker_versions) !! b.(b_version)) ∧
  is_some_and (λ f, b.(b_lifecycle_generation) = f.(lifecycle_generation) ∧ f.(d_state) = DReady ∧
      f.(availability) = Healthy ∧
      is_some_and (λ vid, is_some_and (λ v, v.(v_state) = VReady ∧ v.(v_definition) = b.(b_definition) ∧
          v.(v_class_name) = b.(b_class_name)) (db.(versions) !! vid)) f.(current_version_id))
    (db.(definitions) !! b.(b_definition)).
#[export] Instance authorized_dec db version b : Decision (authorized db version b).
Proof. unfold authorized. apply _. Defined.

Definition authorize_binding (id version : N) (expected : list Z) : CM (N * WorkflowBindingRecord) :=
  o ← gets (λ db, b ← db.(bindings) !! id; if decide (authorized db version b) then Some b else None);
  b ← some_or o stale;
  let r := binding_record id b in
  _ ← throw_if (r.(br_sha256) ≠ expected) stale;
  digest ← lift (descriptor_digest r.(br_descriptor));
  _ ← throw_if (digest ≠ expected) stale;
  instance ← gets instance_identity;
  mret (instance, r).
End descriptor.

(** ** Replay records of binding mutations *)

Definition set_binding_operations (f : gmap N BindingOperation → gmap N BindingOperation) (db : ControlDb) : ControlDb :=
  {| db with binding_operations := f db.(binding_operations) |}.
Definition set_binding_locks (f : gmap N (N * Z) → gmap N (N * Z)) (db : ControlDb) : ControlDb :=
  {| db with binding_locks := f db.(binding_locks) |}.

Definition prepared (binding : N) (kind : ustr) (fingerprint request : list Z) (now_ms : Z) : BindingOperation := {|
  bo_binding := binding; bo_kind := kind; bo_fingerprint := fingerprint; bo_request := request;
  bo_response := None; bo_created_at_ms := now_ms; bo_updated_at_ms := now_ms |}.

(** [INSERT INTO workflow_binding_operations] and its lock, with
    [workflow_binding_operation_lock_guard] *)
Definition insert_binding_operation (operation : N) (o : BindingOperation) : CM unit :=
  _ ← ensure (λ db, is_Some (db.(bindings) !! o.(bo_binding)) ∧ length o.(bo_fingerprint) = 32%nat ∧
        db.(binding_operations) !! operation = None ∧ db.(binding_locks) !! operation = None);
  _ ← modify (set_binding_operations <[operation := o]>);
  modify (set_binding_locks <[operation := (o.(bo_binding), o.(bo_created_at_ms))]>).

Definition begin_binding_operation (binding operation : N) (kind : ustr) (fingerprint request : list Z)
    (now_ms : Z) : CM (option (list Z)) :=
  _ ← throw_if (kind = [] ∨ 32 < str_len kind ∨ ¬ Forall (λ c, 97 ≤ c ≤ 122 ∨ c = 45) kind ∨
        2 * 1024 * 1024 < Z.of_nat (length request)) (storage_error WorkflowMethodUnsupported);
  transaction (
    existing ← gets (λ db, db.(binding_operations) !! operation);
    match existing with
    | Some o =>
        _ ← throw_if (o.(bo_binding) ≠ binding ∨ o.(bo_kind) ≠ kind ∨ o.(bo_fingerprint) ≠ fingerprint ∨
              o.(bo_request) ≠ request) violation;
        match o.(bo_response) with
        | None =>
            locked ← gets (λ db, bool_decide (is_some_and (λ l, l.1 = binding) (db.(binding_locks) !! operation)));
            _ ← throw_if (locked = false) violation;
            mret None
        | Some response => mret (Some response)
        end
    | None =>
        _ ← insert_binding_operation operation (prepared binding kind fingerprint request now_ms);
        mret None
    end).

(** with [workflow_binding_operation_transition] and [workflow_binding_operation_unlock_guard] *)
Definition finish_binding_operation (binding operation : N) (response : list Z) (now_ms : Z) : CM unit :=
  _ ← throw_if (2 * 1024 * 1024 < Z.of_nat (length response)) (storage_error WorkflowResultTooLarge);
  transaction (
    q ← gets (λ db, o ← db.(binding_operations) !! operation; if decide (o.(bo_binding) = binding) then Some o else None);
    o ← some_or q violation;
    match o.(bo_response) with
    | Some r => throw_if (r ≠ response) violation
    | None =>
        _ ← ensure (λ db, is_some_and (λ l, l.1 = o.(bo_binding)) (db.(binding_locks) !! operation));
        _ ← modify (set_binding_operations
              <[operation := {| o with bo_response := Some response; bo_updated_at_ms := now_ms |}]>);
        modify (set_binding_locks (delete operation))
    end).

(** ** Worker versions *)

Definition db_error : PlatformError := platform_error Internal "control database operation failed".
Definition precondition_failed : PlatformError :=
  platform_error VersionNotReady "version state transition precondition failed".

(** [.map_err(|_| db_error())] *)
Definition internally {A} (m : CM A) : CM A := λ db,
  match m db with (db', Err _) => (db', Err db_error) | r => r end.

(** [WorkerRepository::transition]; [containers] is the verdict of the container tables on a
    version that becomes ready. *)
Definition set_worker_state (target : VersionState) (now_ms : Z) (w : WorkerVersionRow) : WorkerVersionRow :=
  {| w with wv_state := target;
            wv_rejected_at_ms := if decide (target = VRejected) then Some now_ms else w.(wv_rejected_at_ms) |}.
Definition transition (containers : result PlatformError unit) (version : N) (expected target : VersionState)
    (now_ms : Z) : CM unit := transaction (
  changed ← internally (update_worker_version version (λ w, w.(wv_state) = expected) (set_worker_state target now_ms));
  _ ← throw_if (changed = false) precondition_failed;
  if decide (target = VReady) then lift containers else mret ()).

Definition begin_validation (version : N) : CM unit := transition (Ok ()) version VStaging VValidating 0.
Definition mark_ready (containers : result PlatformError unit) (version : N) (now_ms : Z) : CM unit :=
  transition containers version VValidating VReady now_ms.
Definition mark_rejected (version : N) (expected : VersionState) (now_ms : Z) : CM unit :=
  _ ← throw_if (¬ (expected = VStaging ∨ expected = VValidating))
        (platform_error VersionInvariantViolation "persisted version invariant failed");
  transition (Ok ()) version expected VRejected now_ms.

(** [insert_staging_version]: a new version of a live Worker, with its workflow bindings *)
Definition worker_missing : PlatformError := platform_error WorkerNotFound "Worker was not found".
Definition read_worker (instance worker : N) : CM (option Z) :=
  o ← gets (λ db, if decide (owned db instance) then db.(workers) !! worker else None);
  some_or o worker_missing.
Definition require_live_worker (instance worker : N) : CM unit :=
  deleted ← read_worker instance worker;
  throw_if (is_Some deleted) (platform_error WorkerDeleted "Worker is tombstoned").
Definition insert_worker_version (version : N) (w : WorkerVersionRow) : CM unit :=
  _ ← ensure (λ db, is_Some (db.(workers) !! w.(wv_worker)) ∧ db.(worker_versions) !! version = None);
  modify (set_worker_versions <[version := w]>).
Definition insert_staging_version `{Codec, CronParser} (name_taken : ustr → bool) (instance version worker : N)
    (code : list Z) (loader : Z) (rs : list WorkflowBindingRecord) : CM unit := transaction (
  _ ← require_live_worker instance worker;
  _ ← internally (insert_worker_version version {| wv_worker := worker; wv_state := VStaging;
        wv_code_sha256 := code; wv_loader_schema := loader; wv_rejected_at_ms := None |});
  insert_workflow_bindings name_taken version rs).

(** The workflow statements of the deletion of a Worker. *)
Definition set_workers (f : gmap N (option Z) → gmap N (option Z)) (db : ControlDb) : ControlDb :=
  {| db with workers := f db.(workers) |}.
(** The row [WorkerRepository::create_worker] inserts; [elsewhere] is the verdict of the quota,
    the name and the route tables. *)
Definition create_worker (elsewhere : result PlatformError unit) (worker : N) : CM unit := transaction (
  taken ← gets (λ db, bool_decide (is_Some (db.(workers) !! worker)));
  _ ← throw_if (taken = true) (platform_error WorkerNameConflict "a live Worker already owns this name");
  _ ← modify (set_workers <[worker := None]>);
  lift elsewhere).
Definition runs_on (db : ControlDb) (worker : N) (d : DefinitionRow) : Prop :=
  d.(d_state) ≠ DTombstoned ∧
  is_some_and (λ vid, is_some_and (λ v, v.(v_worker) = worker) (db.(versions) !! vid)) d.(current_version_id).
#[export] Instance runs_on_dec db worker d : Decision (runs_on db worker d).
Proof. unfold runs_on. apply _. Defined.
Definition calls_from (db : ControlDb) (worker : N) (k : N * DefinitionReferrer * N) : Prop :=
  k.1.2 = OfBinding ∧
  is_some_and (λ b, is_some_and (λ w, w.(wv_worker) = worker) (db.(worker_versions) !! b.(b_version)))
    (db.(bindings) !! k.2).
#[export] Instance calls_from_dec db worker k : Decision (calls_from db worker k).
Proof. unfold calls_from. apply _. Defined.
Definition delete_worker (instance worker : N) (now_ms : Z) : CM unit := transaction (
  _ ← require_live_worker instance worker;
  _ ← modify (set_workers <[worker := Some now_ms]>);
  _ ← modify (λ db, {| db with definitions := (λ d, if decide (runs_on db worker d) then
        {| d with availability := Unavailable; availability_code := Some (lit "WORKER_DELETED");
                  d_updated_at_ms := now_ms |} else d) <$> db.(definitions) |});
  modify (λ db, {| db with workflow_referrers := filter (λ kt, ¬ calls_from db worker kt.1) db.(workflow_referrers) |})).

Definition version_missing : PlatformError := platform_error VersionNotFound "version was not found".

(** [SELECT 1 FROM version_referrers WHERE version_id = ?1]; [elsewhere]: a referrer of another kind *)
Definition version_referenced (db : ControlDb) (elsewhere : bool) (version : N) : Prop :=
  elsewhere = true ∨ map_Exists (λ k _, k.1.1 = version) db.(version_referrers).
#[export] Instance version_referenced_dec db elsewhere version : Decision (version_referenced db elsewhere version).
Proof. unfold version_referenced. apply _. Defined.

Definition begin_version_delete (instance worker version : N) (is_active elsewhere : bool) : CM unit := transaction (
  _ ← read_worker instance worker;
  _ ← throw_if (is_active = true) (platform_error VersionActive "active version cannot be deleted");
  pinned ← gets (λ db, bool_decide (version_referenced db elsewhere version));
  _ ← throw_if (pinned = true) (platform_error VersionReferenced "version still has registered referrers");
  o ← gets (λ db, db.(worker_versions) !! version);
  if decide (is_some_and (λ w, w.(wv_worker) = worker ∧ w.(wv_state) = VDeleting) o) then mret ()
  else
    changed ← internally (update_worker_version version
      (λ w, w.(wv_worker) = worker ∧ (w.(wv_state) = VReady ∨ w.(wv_state) = VRejected)) (set_worker_state VDeleting 0));
    throw_if (changed = false) version_missing).

(** [DELETE FROM workflow_bindings WHERE version_id=?1] of [delete_version_products] *)
Definition delete_version_bindings (version : N) : CM unit := internally (
  ids ← gets (λ db, fst <$> filter (λ x, x.2.(b_version) = version) (map_to_list db.(bindings)));
  _ ← for_each delete_binding ids;
  mret ()).

Definition finalize_version_delete (instance worker version : N) (elsewhere : bool) (now_ms : Z) : CM unit := transaction (
  _ ← read_worker instance worker;
  deleting ← gets (λ db, bool_decide (is_some_and (λ w, w.(wv_worker) = worker ∧ w.(wv_state) = VDeleting)
                (db.(worker_versions) !! version)));
  _ ← throw_if (deleting = false) version_missing;
  pinned ← gets (λ db, bool_decide (version_referenced db elsewhere version));
  _ ← throw_if (pinned = true) (platform_error VersionReferenced "version acquired a registered referrer while deleting");
  _ ← delete_version_bindings version;
  changed ← internally (update_worker_version version
    (λ w, w.(wv_worker) = worker ∧ w.(wv_state) = VDeleting) (set_worker_state VTombstoned now_ms));
  throw_if (changed = false) version_missing).

(** The versions left deleting, in the order of their identities. *)
Definition deleting_unreferenced (db : ControlDb) (elsewhere : N → bool) (limit : Z) : list N :=
  fst <$> take (Z.to_nat limit) (order_by (λ x, [Z.of_N x.1])
    (filter (λ x, x.2.(wv_state) = VDeleting ∧ ¬ version_referenced db (elsewhere x.1) x.1)
       (map_to_list db.(worker_versions)))).

Definition recover_deleting_versions (elsewhere : N → bool) (now_ms limit : Z) : CM Z :=
  _ ← throw_if (limit = 0 ∨ 10000 < limit) (platform_error LimitInvalid "delete recovery batch is invalid");
  transaction (
    ids ← gets (λ db, deleting_unreferenced db elsewhere limit);
    done ← for_each (λ id,
      _ ← delete_version_bindings id;
      internally (update_worker_version id (λ w, w.(wv_state) = VDeleting) (set_worker_state VTombstoned now_ms))) ids;
    mret (Z.of_nat (length (filter (λ b : bool, b = true) done)))).
