(* ===== verification/WorkflowReservations.v ===== *)
(** * Instance reservations

    [crates/storage/src/workflows/instances.rs]: the control half of an instance.  A batch
    reserves its public identities and pins its artifacts before the scheduler stores
    anything, is published or abandoned as one group, and keeps its pins until a proven
    purge. *)

From stdpp Require Import base numbers list option strings sorting gmap.
From S2P Require Import Prelude Text ErrorCodes Duration RetryPolicy CronSlots WorkflowTypes Sql WorkflowDb WorkflowRuns WorkflowControl WorkflowCatalog WorkflowBindings.

Local Open Scope Z_scope.

Record WorkflowReservation := {
  rv_identity : WorkflowInstanceIdentity;
  rv_state : WorkflowRefState;
  rv_updated_at_ms : Z;
}.

(** ** Reads *)

(** [reservation_row] over [RESERVATION_SELECT], which joins the version and the definition *)
Definition reservation_row (db : ControlDb) (id : N) (r : ReferrerRow) : option WorkflowReservation :=
  v ← db.(versions) !! r.(rf_version);
  _ ← db.(definitions) !! r.(rf_definition);
  Some {|
    rv_identity := {|
      instance_id := id;
      external_instance_id := r.(rf_external);
      target := {|
        t_instance_id := db.(instance_identity);
        definition_id := r.(rf_definition);
        definition_name := r.(rf_definition_name);
        workflow_version_id := r.(rf_version);
        worker_id := v.(v_worker);
        worker_version_id := r.(rf_worker_version);
        worker_code_sha256 := v.(v_code_sha256);
        class_name := v.(v_class_name);
        loader_schema_version := v.(v_loader_schema);
        capability_version := v.(v_capability);
        descriptor_sha256 := v.(v_descriptor) |};
      instance_generation := r.(rf_generation);
      creation_nonce := r.(rf_nonce);
      creation_operation_id := r.(rf_creation_operation);
      creation_batch_id := r.(rf_batch);
      created_at_ms := r.(rf_created_at_ms);
      schedule := r.(rf_schedule) |};
    rv_state := r.(rf_state);
    rv_updated_at_ms := r.(rf_updated_at_ms) |}.

Definition read_reservation (db : ControlDb) (id : N) : option WorkflowReservation :=
  r ← db.(referrers) !! id;
  reservation_row db id r.

(** The reservations that satisfy a condition on their rows. *)
Definition reservations_where (db : ControlDb) (P : N * ReferrerRow → Prop) `{!∀ x, Decision (P x)} :
    list WorkflowReservation :=
  omap (λ x, reservation_row db x.1 x.2)
    (order_by (λ x, [Z.of_N x.1]) (filter P (map_to_list db.(referrers)))).

(** [WorkflowRepository::reservation] *)
Definition reservation (id : N) : CM (option WorkflowReservation) := gets (λ db, read_reservation db id).

Definition find_instance (definition : N) (external : ustr) : CM WorkflowReservation :=
  _ ← lift (validate_workflow_instance_id external);
  l ← gets (λ db, reservations_where db (λ x, x.2.(rf_definition) = definition ∧ x.2.(rf_external) = external));
  some_or (head l) (storage_error WorkflowInstanceNotFound).

Definition live_reservations (after : option N) (limit : Z) : CM (list WorkflowReservation) :=
  _ ← throw_if (limit = 0 ∨ 1000 < limit) (storage_error LimitInvalid);
  gets (λ db, take (Z.to_nat limit)
    (reservations_where db (λ x, x.2.(rf_state) ≠ Released ∧ is_none_or (λ a, (a < x.1)%N) after))).

Definition creation_batch_reservations (batch : N) : CM (list WorkflowReservation) :=
  l ← gets (λ db, take 101 (reservations_where db (λ x, x.2.(rf_batch) = batch)));
  _ ← throw_if ((100 < length l)%nat) violation;
  mret l.

(** The rows of [workflow_instance_creation_batch]. *)
Definition batch_count (db : ControlDb) (batch : N) : nat :=
  length (filter (λ x, x.2.(rf_batch) = batch) (map_to_list db.(referrers))).

Section identity.
Context `{Codec}.

Definition verify_identity (i : WorkflowInstanceIdentity) : CM unit :=
  o ← gets (λ db, read_reservation db i.(instance_id));
  stored ← some_or o violation;
  throw_if (stored.(rv_identity) ≠ i ∨ ¬ frozen i.(target)) violation.

Definition referrers_intact (db : ControlDb) (i : WorkflowInstanceIdentity) : Prop :=
  db.(version_referrers) !! (i.(target).(worker_version_id), ByInstance, i.(instance_id)) = Some i.(created_at_ms) ∧
  db.(workflow_referrers) !! (i.(target).(definition_id), OfInstance, i.(instance_id)) = Some i.(created_at_ms).
#[export] Instance referrers_intact_dec db i : Decision (referrers_intact db i).
Proof. unfold referrers_intact. apply _. Defined.

Definition instance_referrers_intact (i : WorkflowInstanceIdentity) : CM bool :=
  gets (λ db, bool_decide (referrers_intact db i)).

(** [INSERT OR IGNORE] *)
Definition insert_absent {K A} `{Countable K} (k : K) (x : A) (m : gmap K A) : gmap K A :=
  if decide (is_Some (m !! k)) then m else <[k := x]> m.

Definition repair_instance_referrers (i : WorkflowInstanceIdentity) : CM unit := transaction (
  o ← gets (λ db, read_reservation db i.(instance_id));
  r ← some_or o violation;
  _ ← throw_if (r.(rv_identity) ≠ i ∨ ¬ (r.(rv_state) = Creating ∨ r.(rv_state) = Live)) violation;
  _ ← modify (set_version_referrers
        (insert_absent (i.(target).(worker_version_id), ByInstance, i.(instance_id)) i.(created_at_ms)));
  modify (set_workflow_referrers
        (insert_absent (i.(target).(definition_id), OfInstance, i.(instance_id)) i.(created_at_ms)))).

(** ** Retention *)

Definition set_ref_state (s : WorkflowRefState) (now_ms : Z) (r : ReferrerRow) : ReferrerRow :=
  {| r with rf_state := s; rf_updated_at_ms := now_ms |}.

Definition retain_instance (i : WorkflowInstanceIdentity) (now_ms : Z) : CM unit :=
  _ ← lift (version_digest i.(target));
  transaction (
    _ ← verify_identity i;
    o ← gets (λ db, db.(referrers) !! i.(instance_id));
    r ← some_or o violation;
    match r.(rf_state) with
    | Retained => mret ()
    | Live => _ ← update_referrer StateColumn i.(instance_id) (λ _, True) (set_ref_state Retained now_ms); mret ()
    | _ => throw (storage_error WorkflowInstanceStateConflict)
    end).

(** ** Publication and abandonment *)

(** [let batch = reservations[0].creation_batch_id], every member of it present and exact;
    the states of the members *)
Definition read_batch (ids : list WorkflowInstanceIdentity) : CM (list WorkflowRefState) :=
  first ← some_or (head ids) violation;
  _ ← throw_if (Exists (λ i, i.(creation_batch_id) ≠ first.(creation_batch_id)) ids) violation;
  n ← gets (λ db, batch_count db first.(creation_batch_id));
  _ ← throw_if (n ≠ length ids) violation;
  for_each (λ i,
    _ ← verify_identity i;
    o ← gets (λ db, db.(referrers) !! i.(instance_id));
    r ← some_or o violation;
    mret r.(rf_state)) ids.

Definition finalize_instances (ids : list WorkflowInstanceIdentity) (now_ms : Z) : CM unit :=
  _ ← throw_if (ids = [] ∨ (100 < length ids)%nat) violation;
  transaction (
    states ← read_batch ids;
    if decide (Forall (λ s, s = Live) states) then mret ()
    else
      _ ← throw_if (¬ Forall (λ s, s = Creating) states) violation;
      _ ← for_each (λ i,
        changed ← update_referrer StateColumn i.(instance_id)
          (λ r, r.(rf_nonce) = i.(creation_nonce) ∧ r.(rf_state) = Creating) (set_ref_state Live now_ms);
        throw_if (changed = false) violation) ids;
      mret ()).

Definition abandon_creations (ids : list WorkflowInstanceIdentity) : CM nat :=
  _ ← throw_if (ids = [] ∨ (100 < length ids)%nat) violation;
  transaction (
    states ← read_batch ids;
    if decide (Forall (λ s, s = Live) states) then mret 0%nat
    else
      _ ← throw_if (¬ Forall (λ s, s = Creating) states) violation;
      removed ← for_each (λ i, delete_referrer i.(instance_id)
        (λ r, r.(rf_nonce) = i.(creation_nonce) ∧ r.(rf_creation_operation) = i.(creation_operation_id) ∧
              r.(rf_state) = Creating)) ids;
      mret (length (filter (λ b : bool, b = true) removed))).
End identity.

(** ** Reservation of a batch *)

(** One request of a batch, with the identities its reservation would draw. *)
Record ReservationRequest := {
  rq_operation : N;
  rq_external : option ustr;
  rq_schedule : option WorkflowCronSchedule;
  rq_drawn_external : N;
  rq_instance : N;
  rq_nonce : option N;
}.

Section reserve.
Context `{Codec, CronParser}.

Definition WorkflowCronSchedule_validate (s : WorkflowCronSchedule) : result PlatformError unit :=
  _ ← CronSlots.parse cloudflare_syntax croner_parse s.(WorkflowTypes.cron);
  bail_if (s.(scheduled_time) < 0 ∨ Z.rem s.(scheduled_time) 60000 ≠ 0 ∨
           WORKFLOW_MAX_SAFE_INTEGER < Z.abs s.(scheduled_time)) (workflow_error WorkflowDurationInvalid).

(** The reservation a replayed request already has. *)
Definition by_creation (db : ControlDb) (operation : N) : option WorkflowReservation :=
  head (reservations_where db (λ x, x.2.(rf_creation_operation) = operation)).

Definition replays_request (instance definition batch : N) (r : WorkflowReservation) (q : ReservationRequest) : Prop :=
  r.(rv_identity).(target).(t_instance_id) = instance ∧ r.(rv_identity).(target).(definition_id) = definition ∧
  r.(rv_identity).(creation_operation_id) = q.(rq_operation) ∧ r.(rv_identity).(creation_batch_id) = batch ∧
  r.(rv_identity).(schedule) = q.(rq_schedule) ∧
  is_none_or (λ e, e = r.(rv_identity).(external_instance_id)) q.(rq_external).
#[export] Instance replays_request_dec instance definition batch r q :
  Decision (replays_request instance definition batch r q).
Proof. unfold replays_request. apply _. Defined.

(** The ready current version of an available definition. *)
Definition current_target (db : ControlDb) (instance definition : N) : option WorkflowTarget :=
  if decide (owned db instance) then
    d ← db.(definitions) !! definition;
    c ← d.(current_version_id);
    v ← db.(versions) !! c;
    if decide (d.(d_state) = DReady ∧ d.(availability) = Healthy ∧ v.(v_definition) = definition ∧ v.(v_state) = VReady)
    then Some (version_target db c v d.(d_name)) else None
  else None.

(** The closure over [requests]: the operations and external identities seen so far *)
Fixpoint admit_requests (db : ControlDb) (definition : N) (operations : list N) (externals : list ustr)
    (qs : list ReservationRequest) : result PlatformError (list (ReservationRequest * ustr)) :=
  match qs with
  | [] => Ok []
  | q :: qs =>
      _ ← bail_if (q.(rq_operation) ∈ operations) violation;
      let external := default (uuid_text q.(rq_drawn_external)) q.(rq_external) in
      _ ← validate_workflow_instance_id external;
      _ ← bail_if (external ∈ externals) (storage_error WorkflowInstanceAlreadyExists);
      _ ← bail_if (map_Exists (λ _ r, r.(rf_definition) = definition ∧ r.(rf_external) = external) db.(referrers))
            (storage_error WorkflowInstanceAlreadyExists);
      _ ← match q.(rq_schedule) with Some s => WorkflowCronSchedule_validate s | None => Ok () end;
      rest ← admit_requests db definition (q.(rq_operation) :: operations) (external :: externals) qs;
      Ok ((q, external) :: rest)
  end.

Definition occupies (s : WorkflowRefState) : bool :=
  match s with Creating | Live | Restarting => true | _ => false end.
Definition rows_where (P : ReferrerRow → Prop) `{!∀ r, Decision (P r)} (db : ControlDb) : Z :=
  Z.of_nat (length (filter (λ x, is_Some (db.(definitions) !! x.2.(rf_definition)) ∧ P x.2)
                      (map_to_list db.(referrers)))).

Definition over_quota (db : ControlDb) (definition : N) (added : Z) (limits : WorkflowsConfig) : Prop :=
  u64_saturate (rows_where (λ _, True) db + added) > limits.(max_instances) ∨
  u64_saturate (rows_where (λ r, occupies r.(rf_state) = true) db + added) > limits.(max_active) ∨
  u64_saturate (rows_where (λ r, r.(rf_definition) = definition) db + added) > limits.(max_instances_per_definition).
#[export] Instance over_quota_dec db definition added limits : Decision (over_quota db definition added limits).
Proof. unfold over_quota. apply _. Defined.

Definition fresh_referrer (i : WorkflowInstanceIdentity) : ReferrerRow := {|
  rf_definition := i.(target).(definition_id);
  rf_definition_name := i.(target).(definition_name);
  rf_external := i.(external_instance_id);
  rf_version := i.(target).(workflow_version_id);
  rf_worker_version := i.(target).(worker_version_id);
  rf_generation := 1;
  rf_nonce := i.(creation_nonce);
  rf_creation_operation := i.(creation_operation_id);
  rf_batch := i.(creation_batch_id);
  rf_state := Creating;
  rf_schedule := i.(schedule);
  rf_created_at_ms := i.(created_at_ms);
  rf_updated_at_ms := i.(created_at_ms);
  rf_released_at_ms := None;
  rf_sequence := 0;
|}.

Definition reserve_one (t : WorkflowTarget) (batch : N) (now_ms : Z) (p : ReservationRequest * ustr) :
    CM WorkflowReservation :=
  nonce ← some_or p.1.(rq_nonce) (storage_error WorkflowRuntimeUnavailable);
  let i := {| instance_id := p.1.(rq_instance); external_instance_id := p.2; target := t;
              instance_generation := 1; creation_nonce := nonce; creation_operation_id := p.1.(rq_operation);
              creation_batch_id := batch; created_at_ms := now_ms; schedule := p.1.(rq_schedule) |} in
  _ ← insert_referrer p.1.(rq_instance) (fresh_referrer i);
  mret {| rv_identity := i; rv_state := Creating; rv_updated_at_ms := now_ms |}.

Definition reserve_instances_with_schedules (instance definition batch : N) (qs : list ReservationRequest)
    (limits : WorkflowsConfig) (now_ms : Z) : CM (list WorkflowReservation) :=
  _ ← throw_if (qs = [] ∨ (100 < length qs)%nat) (storage_error WorkflowMethodUnsupported);
  _ ← lift (WorkflowsConfig_validate limits);
  transaction (
    existing ← gets (λ db, by_creation db ∘ rq_operation <$> qs);
    count ← gets (λ db, batch_count db batch);
    if decide (Exists is_Some existing) then
      _ ← throw_if (¬ Forall is_Some existing ∨ count ≠ length qs) violation;
      for_each (λ p,
        r ← some_or p.1 violation;
        _ ← throw_if (¬ replays_request instance definition batch r p.2) violation;
        mret r) (zip existing qs)
    else
      _ ← throw_if (count ≠ 0%nat) violation;
      o ← gets (λ db, current_target db instance definition);
      t ← some_or o (storage_error WorkflowNotReady);
      _ ← throw_if (¬ frozen t) violation;
      admitted ← gets (λ db, admit_requests db definition [] [] qs);
      pending ← lift admitted;
      full ← gets (λ db, bool_decide (over_quota db definition (Z.of_nat (length qs)) limits));
      _ ← throw_if (full = true) (storage_error WorkflowStateQuotaExceeded);
      for_each (reserve_one t batch now_ms) pending).
End reserve.
