(* ===== verification/WorkflowIntents.v ===== *)
(** * Prepared restart and purge

    [crates/storage/src/workflows/operations.rs] and [operation_evidence.rs]: the control half
    of the two operations that cross the databases.  An intent is prepared under the
    reservation's next sequence, is completed only with the scheduler's committed
    evidence and is cancelled only with its committed refusal. *)

From stdpp Require Import base numbers list option strings sorting gmap.
From S2P Require Import Prelude Text ErrorCodes Duration RetryPolicy CronSlots WorkflowTypes Sql WorkflowDb WorkflowRuns WorkflowOperations WorkflowControl WorkflowCatalog WorkflowBindings WorkflowReservations.

Local Open Scope Z_scope.

Section intents.
Context `{Codec}.

(** ** Reads *)

(** The conditions under which [read_operation] trusts a stored intent. *)
Definition intent_consistent (db : ControlDb) (r : ReferrerRow) (row : WorkflowReservation) (o : IntentRow) : Prop :=
  o.(in_applied) = false ∧ 1 ≤ o.(in_sequence) ∧ o.(in_sequence) = r.(rf_sequence) ∧
  row.(rv_identity).(creation_nonce) = o.(in_nonce) ∧
  row.(rv_identity).(instance_generation) = o.(in_expected_generation) ∧
  row.(rv_identity).(target).(capability_version) = 1 ∧ frozen row.(rv_identity).(target) ∧
  referrers_intact db row.(rv_identity) ∧
  (o.(in_kind) = Restart → row.(rv_state) = Restarting ∧
     i64_checked (o.(in_expected_generation) + 1) = Some o.(in_target_generation)) ∧
  (o.(in_kind) = Purge → o.(in_restart_from) = None ∧ row.(rv_state) = Retained ∧ o.(in_prior) = Retained ∧
     o.(in_expected_generation) = o.(in_target_generation)).
#[export] Instance intent_consistent_dec db r row o : Decision (intent_consistent db r row o).
Proof. unfold intent_consistent. apply _. Defined.

Definition operation_of (i : WorkflowInstanceIdentity) (o : IntentRow) : WorkflowOperation := {|
  op_id := o.(in_operation);
  op_identity := i;
  op_kind := o.(in_kind);
  op_restart_from := o.(in_restart_from);
  op_target_generation := o.(in_target_generation);
  op_prior_state := o.(in_prior);
  op_created_at_ms := o.(in_created_at_ms);
  op_sequence := o.(in_sequence);
|}.

Definition read_operation (id : N) : CM (option WorkflowOperation) :=
  q ← gets (λ db, db.(intents) !! id);
  match q with
  | None => mret None
  | Some o =>
      x ← gets (λ db, read_reservation db id);
      row ← some_or x violation;
      _ ← throw_if (is_some_and (λ s, is_ok (WorkflowRestartSelector_validate s) = false) o.(in_restart_from)) violation;
      y ← gets (λ db, db.(referrers) !! id);
      r ← some_or y violation;
      ok ← gets (λ db, bool_decide (intent_consistent db r row o));
      _ ← throw_if (ok = false) violation;
      mret (Some (operation_of row.(rv_identity) o))
  end.

Definition instance_operation (id : N) : CM (option WorkflowOperation) := read_operation id.

Definition instance_operations (after : option N) (limit : Z) : CM (list WorkflowOperation) :=
  _ ← throw_if (limit = 0 ∨ 1000 < limit) (storage_error LimitInvalid);
  ids ← gets (λ db, fst <$> take (Z.to_nat limit) (order_by (λ x, [Z.of_N x.2.(in_operation)])
          (filter (λ x, is_none_or (λ a, (a < x.2.(in_operation))%N) after) (map_to_list db.(intents)))));
  for_each (λ id, o ← read_operation id; some_or o violation) ids.

(** ** Preparation *)

(** [ready]: the frozen version can run again *)
Definition runnable (db : ControlDb) (version : N) : Prop :=
  is_some_and (λ v, v.(v_state) = VReady ∧
      is_some_and (λ f, f.(d_state) = DReady ∧ f.(availability) = Healthy) (db.(definitions) !! v.(v_definition)) ∧
      is_some_and (λ d, d.(wv_state) = VReady ∧ db.(workers) !! d.(wv_worker) = Some None)
        (db.(worker_versions) !! v.(v_worker_version))) (db.(versions) !! version).
#[export] Instance runnable_dec db version : Decision (runnable db version).
Proof. unfold runnable. apply _. Defined.

Definition set_sequence (n : Z) (r : ReferrerRow) : ReferrerRow := {| r with rf_sequence := n |}.

Definition prepare_operation (i : WorkflowInstanceIdentity) (operation : N) (kind : WorkflowOperationKind)
    (from : option WorkflowRestartSelector) (limits : WorkflowsConfig) (now_ms : Z) : CM WorkflowOperation :=
  _ ← lift (WorkflowsConfig_validate limits);
  _ ← throw_if (i.(target).(capability_version) ≠ 1 ∨ (kind = Purge ∧ is_Some from))
        (storage_error WorkflowMethodUnsupported);
  let id := i.(instance_id) in
  transaction (
    _ ← verify_identity i;
    q ← read_operation id;
    match q with
    | Some op =>
        _ ← throw_if (op.(op_id) ≠ operation ∨ op.(op_identity) ≠ i ∨ op.(op_kind) ≠ kind ∨ op.(op_restart_from) ≠ from)
              (storage_error WorkflowInstanceBusy);
        mret op
    | None =>
        x ← gets (λ db, read_reservation db id);
        row ← some_or x violation;
        _ ← throw_if (¬ (row.(rv_state) = Live ∨ row.(rv_state) = Retained) ∨
                      (kind = Purge ∧ row.(rv_state) ≠ Retained)) (storage_error WorkflowInstanceStateConflict);
        intact ← gets (λ db, bool_decide (referrers_intact db i));
        _ ← throw_if (intact = false) violation;
        _ ← (if decide (kind = Restart) then
               ready ← gets (λ db, bool_decide (runnable db i.(target).(workflow_version_id)));
               _ ← throw_if (ready = false) (storage_error WorkflowVersionNotReady);
               if decide (row.(rv_state) = Retained) then
                 n ← gets (rows_where (λ r, occupies r.(rf_state) = true));
                 throw_if (limits.(max_active) ≤ n) (storage_error WorkflowStateQuotaExceeded)
               else mret ()
             else mret ());
        generation ← (if decide (kind = Restart)
                      then some_or (i64_checked (i.(instance_generation) + 1)) (storage_error WorkflowInstanceStateConflict)
                      else mret i.(instance_generation));
        y ← gets (λ db, db.(referrers) !! id);
        r ← some_or y violation;
        sequence ← some_or (i64_checked (r.(rf_sequence) + 1)) (storage_error WorkflowInstanceStateConflict);
        _ ← update_referrer SequenceColumn id (λ _, True) (set_sequence sequence);
        let o := {| in_operation := operation; in_nonce := i.(creation_nonce);
                    in_expected_generation := i.(instance_generation); in_target_generation := generation;
                    in_kind := kind; in_restart_from := from; in_prior := row.(rv_state); in_applied := false;
                    in_created_at_ms := now_ms; in_sequence := sequence |} in
        _ ← insert_intent id o;
        _ ← (if decide (kind = Restart)
             then _ ← update_referrer StateColumn id (λ _, True) (set_ref_state Restarting now_ms); mret ()
             else mret ());
        mret (operation_of i o)
    end).

Definition prepare_instance_operation (i : WorkflowInstanceIdentity) (operation : N) (kind : WorkflowOperationKind)
    (limits : WorkflowsConfig) (now_ms : Z) : CM WorkflowOperation :=
  prepare_operation i operation kind None limits now_ms.

Definition prepare_restart_operation (i : WorkflowInstanceIdentity) (operation : N)
    (from : option WorkflowRestartSelector) (limits : WorkflowsConfig) (now_ms : Z) : CM WorkflowOperation :=
  _ ← lift match from with Some s => WorkflowRestartSelector_validate s | None => Ok () end;
  prepare_operation i operation Restart from limits now_ms.

(** ** Completion and cancellation *)

Definition set_ref_restarted (generation now_ms : Z) (r : ReferrerRow) : ReferrerRow :=
  {| r with rf_state := Live; rf_generation := generation; rf_updated_at_ms := now_ms |}.
Definition set_ref_released (now_ms : Z) (r : ReferrerRow) : ReferrerRow :=
  {| r with rf_state := Released; rf_released_at_ms := Some now_ms; rf_updated_at_ms := now_ms |}.

Definition complete_rows (op : WorkflowOperation) (now_ms : Z) : CM unit :=
  let id := op.(op_identity).(instance_id) in
  _ ← apply_intent id op.(op_id);
  match op.(op_kind) with
  | Restart =>
      _ ← update_referrer StateGeneration id (λ r, r.(rf_state) = Restarting)
            (set_ref_restarted op.(op_target_generation) now_ms);
      delete_intent_row id op.(op_id)
  | Purge =>
      _ ← update_referrer StateColumn id (λ r, r.(rf_state) = Retained) (set_ref_state Releasing now_ms);
      _ ← update_referrer StateColumn id (λ r, r.(rf_state) = Releasing) (set_ref_released now_ms);
      _ ← delete_referrer id (λ _, True);
      mret ()
  end.

(** Typed references that still name an instance. *)
Definition dangling (db : ControlDb) (id : N) : Prop :=
  map_Exists (λ k _, k.1.2 = ByInstance ∧ k.2 = id) db.(version_referrers) ∨
  map_Exists (λ k _, k.1.2 = OfInstance ∧ k.2 = id) db.(workflow_referrers).
#[export] Instance dangling_dec db id : Decision (dangling db id).
Proof. unfold dangling. apply _. Defined.

Definition complete_instance_operation (op : WorkflowOperation) (now_ms : Z) : CM unit := transaction (
  let id := op.(op_identity).(instance_id) in
  q ← read_operation id;
  _ ← match q with
      | Some current =>
          _ ← throw_if (current ≠ op) (storage_error WorkflowInstanceBusy);
          complete_rows op now_ms
      | None => mret ()
      end;
  x ← gets (λ db, read_reservation db id);
  match op.(op_kind), x with
  | Restart, Some row =>
      let expected := {| op.(op_identity) with instance_generation := op.(op_target_generation) |} in
      ok ← gets (λ db, bool_decide (row.(rv_identity) = expected ∧ row.(rv_state) = Live ∧ referrers_intact db expected));
      throw_if (ok = false) violation
  | Purge, None =>
      bad ← gets (λ db, bool_decide (dangling db id));
      throw_if (bad = true) violation
  | _, _ => throw violation
  end).

Definition cancel_instance_operation (op : WorkflowOperation) (now_ms : Z) : CM unit := transaction (
  let id := op.(op_identity).(instance_id) in
  q ← read_operation id;
  match q with
  | None => mret ()
  | Some current =>
      _ ← throw_if (current ≠ op) (storage_error WorkflowInstanceBusy);
      _ ← (if decide (op.(op_kind) = Restart)
           then _ ← update_referrer StateColumn id (λ r, r.(rf_state) = Restarting)
                      (set_ref_state (if decide (op.(op_prior_state) = Live) then Live else Retained) now_ms);
                mret ()
           else mret ());
      delete_intent_row id op.(op_id)
  end).

(** ** Acknowledgement of a purge *)

Definition remains (db : ControlDb) (id : N) : Prop :=
  is_Some (db.(referrers) !! id) ∨ is_Some (db.(intents) !! id) ∨ dangling db id.
#[export] Instance remains_dec db id : Decision (remains db id).
Proof. unfold remains. apply _. Defined.

Definition acknowledge_workflow_gc (id : N) : CM unit :=
  busy ← gets (λ db, bool_decide (remains db id));
  throw_if (busy = true) (storage_error WorkflowInstanceBusy).

(** [verify_operations] *)
Definition verify_operations : CM unit :=
  orphan ← gets (λ db, bool_decide (map_Exists (λ id r, r.(rf_state) = Restarting ∧
             ¬ is_some_and (λ o, o.(in_kind) = Restart) (db.(intents) !! id)) db.(referrers)));
  _ ← throw_if (orphan = true) violation;
  ids ← gets (λ db, (map_to_list db.(intents)).*1);
  _ ← for_each (λ id, o ← read_operation id; some_or o violation) ids;
  mret ().
End intents.
