(* ===== verification/WorkflowIntegrity.v ===== *)
(** * Catalog validation

    [crates/storage/src/workflows/integrity.rs]: the exhaustive scan that opening the control
    database runs after its migrations.  Each clause of the final query is one predicate;
    a row of one of its common table expressions is a key with its time. *)

From stdpp Require Import base numbers list option strings sorting gmap.
From S2P Require Import Prelude Text ErrorCodes Duration RetryPolicy CronSlots WorkflowTypes Sql WorkflowDb WorkflowRuns WorkflowOperations WorkflowControl WorkflowCatalog WorkflowBindings WorkflowReservations WorkflowIntents.

Local Open Scope Z_scope.

Section integrity.
Context `{Codec, CronParser}.

(** ** Rows *)

Definition definition_valid (d : DefinitionRow) : Prop :=
  is_ok (validate_workflow_name d.(d_name)) = true ∧ d.(lifecycle_generation) = 1 ∧
  (open_state d.(d_state) = true → d.(delete_fence) = 0) ∧
  (open_state d.(d_state) = false → 1 ≤ d.(delete_fence)) ∧
  is_none_or (λ p, is_ok (validate_class_name p.(reserved_class_name)) = true ∧
      p.(reservation_owner) ≠ [] ∧ str_len p.(reservation_owner) ≤ 128 ∧ 1 ≤ d.(reservation_fence) ∧
      (p.(reservation_created_definition) = true → d.(d_state) = DCreating ∧ d.(current_version_id) = None))
    d.(pending).
#[export] Instance definition_valid_dec d : Decision (definition_valid d).
Proof. unfold definition_valid. apply _. Defined.

Definition version_valid (db : ControlDb) (id : N) (v : VersionRow) : Prop :=
  is_none_or (λ w, frozen w.(vr_target)) (version_row db id v).
#[export] Instance version_valid_dec db id v : Decision (version_valid db id v).
Proof. unfold version_valid. apply _. Defined.

Definition binding_valid (id : N) (b : BindingRow) : Prop :=
  descriptor_digest (binding_record id b).(br_descriptor) = Ok b.(b_descriptor).
#[export] Instance binding_valid_dec id b : Decision (binding_valid id b).
Proof.
  unfold binding_valid. destruct (descriptor_digest _) as [x|]; [|by right].
  destruct (decide (x = b_descriptor b)) as [->|]; [by left|right; congruence].
Defined.

Definition reservation_valid (db : ControlDb) (id : N) (r : ReferrerRow) : Prop :=
  is_none_or (λ w,
      is_ok (validate_workflow_name w.(rv_identity).(target).(definition_name)) = true ∧
      is_ok (validate_workflow_instance_id w.(rv_identity).(external_instance_id)) = true ∧
      frozen w.(rv_identity).(target) ∧ w.(rv_identity).(target).(capability_version) = 1 ∧ w.(rv_state) ≠ Released)
    (reservation_row db id r).
#[export] Instance reservation_valid_dec db id r : Decision (reservation_valid db id r).
Proof. unfold reservation_valid. apply _. Defined.

(** ** References *)

(** [pragma_foreign_key_check] *)
Definition foreign_keys (db : ControlDb) : Prop :=
  map_Forall (λ _ w, is_Some (db.(workers) !! w.(wv_worker))) db.(worker_versions) ∧
  map_Forall (λ _ d, is_none_or (λ c, is_Some (db.(versions) !! c)) d.(current_version_id)) db.(definitions) ∧
  map_Forall (λ _ v, is_Some (db.(definitions) !! v.(v_definition)) ∧ is_Some (db.(workers) !! v.(v_worker)) ∧
      is_Some (db.(worker_versions) !! v.(v_worker_version))) db.(versions) ∧
  map_Forall (λ _ b, is_Some (db.(worker_versions) !! b.(b_version)) ∧
      is_Some (db.(definitions) !! b.(b_definition))) db.(bindings) ∧
  map_Forall (λ _ o, is_Some (db.(bindings) !! o.(bo_binding))) db.(binding_operations) ∧
  map_Forall (λ op l, is_Some (db.(bindings) !! l.1) ∧ is_Some (db.(binding_operations) !! op)) db.(binding_locks) ∧
  map_Forall (λ k _, is_Some (db.(worker_versions) !! k.1.1)) db.(version_referrers) ∧
  map_Forall (λ k _, is_Some (db.(definitions) !! k.1.1)) db.(workflow_referrers) ∧
  map_Forall (λ _ r, is_Some (db.(definitions) !! r.(rf_definition)) ∧ is_Some (db.(versions) !! r.(rf_version)) ∧
      is_Some (db.(worker_versions) !! r.(rf_worker_version))) db.(referrers) ∧
  map_Forall (λ id _, is_Some (db.(referrers) !! id)) db.(intents).
#[export] Instance foreign_keys_dec db : Decision (foreign_keys db).
Proof. unfold foreign_keys. apply _. Defined.

(** [expected_version]: the time under which a key must be registered *)
Definition expected_version (db : ControlDb) (k : N * VersionReferrer * N) : option Z :=
  match k with
  | (w, ByVersion, id) =>
      v ← db.(versions) !! id;
      if decide (v.(v_worker_version) = w ∧ retired v.(v_state) = false) then Some v.(v_created_at_ms) else None
  | (w, ByInstance, id) =>
      r ← db.(referrers) !! id;
      if decide (r.(rf_worker_version) = w ∧ r.(rf_state) ≠ Released) then Some r.(rf_created_at_ms) else None
  end.

(** The Worker of a version that was not deleted. *)
Definition worker_live (db : ControlDb) (version : N) : Prop :=
  is_some_and (λ w, db.(workers) !! w.(wv_worker) = Some None) (db.(worker_versions) !! version).
#[export] Instance worker_live_dec db version : Decision (worker_live db version).
Proof. unfold worker_live. apply _. Defined.

Definition expected_definition (db : ControlDb) (k : N * DefinitionReferrer * N) : option Z :=
  match k with
  | (d, OfBinding, id) =>
      b ← db.(bindings) !! id;
      if decide (b.(b_definition) = d ∧ worker_live db b.(b_version)) then Some b.(b_created_at_ms) else None
  | (d, OfInstance, id) =>
      r ← db.(referrers) !! id;
      if decide (r.(rf_definition) = d ∧ r.(rf_state) ≠ Released) then Some r.(rf_created_at_ms) else None
  end.

(** The keys the expected sets range over. *)
Definition version_keys (db : ControlDb) : list (N * VersionReferrer * N) :=
  ((λ x, (x.2.(v_worker_version), ByVersion, x.1)) <$> map_to_list db.(versions)) ++
  ((λ x, (x.2.(rf_worker_version), ByInstance, x.1)) <$> map_to_list db.(referrers)).
Definition definition_keys (db : ControlDb) : list (N * DefinitionReferrer * N) :=
  ((λ x, (x.2.(b_definition), OfBinding, x.1)) <$> map_to_list db.(bindings)) ++
  ((λ x, (x.2.(rf_definition), OfInstance, x.1)) <$> map_to_list db.(referrers)).

Definition version_referrers_exact (db : ControlDb) : Prop :=
  Forall (λ k, is_none_or (λ t, db.(version_referrers) !! k = Some t) (expected_version db k)) (version_keys db) ∧
  map_Forall (λ k t, expected_version db k = Some t) db.(version_referrers).
Definition workflow_referrers_exact (db : ControlDb) : Prop :=
  Forall (λ k, is_none_or (λ t, db.(workflow_referrers) !! k = Some t) (expected_definition db k)) (definition_keys db) ∧
  map_Forall (λ k t, expected_definition db k = Some t) db.(workflow_referrers).
#[export] Instance version_referrers_exact_dec db : Decision (version_referrers_exact db).
Proof. unfold version_referrers_exact. apply _. Defined.
#[export] Instance workflow_referrers_exact_dec db : Decision (workflow_referrers_exact db).
Proof. unfold workflow_referrers_exact. apply _. Defined.

(** ** The remaining clauses of the query *)

Definition current_valid (db : ControlDb) (id : N) (d : DefinitionRow) : Prop :=
  (d.(d_state) = DReady → is_Some d.(current_version_id)) ∧
  (is_Some d.(current_version_id) → current_ready db id d).

(** A version's frozen Worker columns, and the Worker version behind one that is not retired. *)
Definition worker_frozen (db : ControlDb) (v : VersionRow) : Prop :=
  is_none_or (λ d, d.(wv_worker) = v.(v_worker) ∧ d.(wv_code_sha256) = v.(v_code_sha256) ∧
      d.(wv_loader_schema) = v.(v_loader_schema)) (db.(worker_versions) !! v.(v_worker_version)).
Definition worker_ready (db : ControlDb) (v : VersionRow) : Prop :=
  retired v.(v_state) = false →
  is_none_or (λ d, d.(wv_state) = VReady) (db.(worker_versions) !! v.(v_worker_version)).
Definition deletion_seen (db : ControlDb) (id : N) (v : VersionRow) : Prop :=
  retired v.(v_state) = false → is_some_and is_Some (db.(workers) !! v.(v_worker)) →
  is_none_or (λ f, f.(current_version_id) = Some id → f.(availability) = Unavailable)
    (db.(definitions) !! v.(v_definition)).

Definition binding_current (db : ControlDb) (b : BindingRow) : Prop :=
  is_none_or (λ f, f.(lifecycle_generation) = b.(b_lifecycle_generation) ∧
      (worker_live db b.(b_version) → open_state f.(d_state) = true ∧
         (f.(d_state) = DCreating → f.(current_version_id) = None ∧ is_Some b.(b_reservation))))
    (db.(definitions) !! b.(b_definition)).

(** A row admitted by the pending reservation has its class. *)
Definition class_kept (db : ControlDb) (definition : N) (reservation : option (ustr * Z)) (class_name : ustr) : Prop :=
  is_none_or (λ r, is_none_or (λ f,
      holds_reservation r.1 r.2 f → is_some_and (λ p, p.(reserved_class_name) = class_name) f.(pending))
    (db.(definitions) !! definition)) reservation.

Definition reservation_counted (db : ControlDb) (id : N) (d : DefinitionRow) : Prop :=
  is_none_or (λ p, p.(reservation_state) = Bound ↔ consumed db id p.(reservation_owner) d.(reservation_fence)) d.(pending).

Definition pinned (db : ControlDb) (r : ReferrerRow) : Prop :=
  is_none_or (λ v, r.(rf_definition) = v.(v_definition) ∧ r.(rf_worker_version) = v.(v_worker_version) ∧
      (r.(rf_state) ≠ Released → v.(v_state) = VReady)) (db.(versions) !! r.(rf_version)).

#[export] Instance current_valid_dec db id d : Decision (current_valid db id d).
Proof. unfold current_valid. apply _. Defined.
#[export] Instance worker_frozen_dec db v : Decision (worker_frozen db v).
Proof. unfold worker_frozen. apply _. Defined.
#[export] Instance worker_ready_dec db v : Decision (worker_ready db v).
Proof. unfold worker_ready. apply _. Defined.
#[export] Instance deletion_seen_dec db id v : Decision (deletion_seen db id v).
Proof. unfold deletion_seen. apply _. Defined.
#[export] Instance binding_current_dec db b : Decision (binding_current db b).
Proof. unfold binding_current. apply _. Defined.
#[export] Instance class_kept_dec db definition reservation class_name :
  Decision (class_kept db definition reservation class_name).
Proof. unfold class_kept. apply _. Defined.
#[export] Instance reservation_counted_dec db id d : Decision (reservation_counted db id d).
Proof. unfold reservation_counted. apply _. Defined.
#[export] Instance pinned_dec db r : Decision (pinned db r).
Proof. unfold pinned. apply _. Defined.

Definition rows_valid (db : ControlDb) : Prop :=
  map_Forall (λ _, definition_valid) db.(definitions) ∧ map_Forall (version_valid db) db.(versions) ∧
  map_Forall binding_valid db.(bindings) ∧ map_Forall (reservation_valid db) db.(referrers).
Definition clauses_valid (db : ControlDb) : Prop :=
  version_referrers_exact db ∧ workflow_referrers_exact db ∧
  map_Forall (λ id d, current_valid db id d ∧ reservation_counted db id d) db.(definitions) ∧
  map_Forall (λ id v, worker_frozen db v ∧ worker_ready db v ∧ deletion_seen db id v ∧
      class_kept db v.(v_definition) v.(v_reservation) v.(v_class_name)) db.(versions) ∧
  map_Forall (λ _ b, binding_current db b ∧ class_kept db b.(b_definition) b.(b_reservation) b.(b_class_name))
    db.(bindings) ∧
  map_Forall (λ _, pinned db) db.(referrers).
#[export] Instance rows_valid_dec db : Decision (rows_valid db).
Proof. unfold rows_valid. apply _. Defined.
#[export] Instance clauses_valid_dec db : Decision (clauses_valid db).
Proof. unfold clauses_valid. apply _. Defined.

(** [integrity::verify_catalog] *)
Definition verify_catalog : CM unit :=
  ok ← gets (λ db, bool_decide (foreign_keys db ∧ rows_valid db ∧ clauses_valid db));
  throw_if (ok = false) violation.

(** [WorkflowRepository::verify_catalog] *)
Definition verify_control : CM unit :=
  _ ← verify_catalog;
  verify_operations.

(** The workflow part of [migrations::run_invariants], which [ControlDb::migrate] runs: its call of
    [verify_catalog].  The checks of the other catalogs before and after it are not modelled. *)
Definition run_invariants : CM unit := λ db,
  match verify_control db with
  | (db', Ok u) => (db', Ok u)
  | (db', Err _) => (db', Err (platform_error MigrationFailed "control database migration history or schema is invalid"))
  end.
End integrity.
