(* ===== verification/WorkflowControlInv.v ===== *)
(** * The catalog invariant

    What the constraints, the triggers and the repository together keep true of the
    control tables between transactions, split by row; and that each statement keeps it.
    [tables_ok] holds after every statement, [counted_ok] and [intents_ok] after every
    transaction. *)

From stdpp Require Import base numbers list option strings sorting gmap.
From S2P Require Import Prelude Text ErrorCodes Duration RetryPolicy CronSlots WorkflowTypes Sql WorkflowDb WorkflowRuns WorkflowOperations WorkflowControl WorkflowCatalog WorkflowBindings WorkflowReservations WorkflowIntents WorkflowIntegrity.

Local Open Scope Z_scope.

(** ** Runs of statements *)

Lemma ensure_run (P : ControlDb → Prop) `{!∀ db, Decision (P db)} db db' u :
  ensure P db = (db', Ok u) ↔ db' = db ∧ P db.
Proof. unfold ensure. destruct u. case_decide; naive_solver. Qed.

(** Opens a run of catalog statements. *)
Ltac cat_inv :=
  repeat (progress run_inv || match goal with
  | H : ensure _ _ = (_, Ok _) |- _ =>
      apply ensure_run in H; let Hg := fresh "Hg" in destruct H as [-> Hg]
  | H : (if ?b then _ else _) _ = (_, Ok _) |- _ => match type of b with bool =>
      let E := fresh "Hif" in destruct b eqn:E end
  | H : Ok _ = Ok _ |- _ => injection H as H
  | H : internally ?m ?db = (_, Ok _) |- _ => unfold internally in H;
      let E := fresh "Hint" in destruct (m db) as [? [?|?]] eqn:E; [|done]; simplify_eq
  end).

Section statements.
Implicit Types db : ControlDb.

Lemma insert_definition_run id d db db' u :
  insert_definition id d db = (db', Ok u) →
  d.(d_state) = DCreating ∧ d.(current_version_id) = None ∧ definition_check d ∧
  db.(definitions) !! id = None ∧ name_free db id d.(d_name) ∧ db' = set_definitions <[id := d]> db.
Proof. unfold insert_definition. intros Hr. cat_inv. naive_solver. Qed.

Lemma update_definition_run watched id P `{!∀ d, Decision (P d)} f db db' b :
  update_definition watched id P f db = (db', Ok b) →
  (b = false ∧ db' = db ∧ is_none_or (λ d, ¬ P d) (db.(definitions) !! id)) ∨
  (b = true ∧ ∃ d, db.(definitions) !! id = Some d ∧ P d ∧ definition_update_ok watched db id d (f d) ∧
     db' = set_definitions <[id := f d]> db).
Proof.
  unfold update_definition. intros Hr. cat_inv. subst.
  destruct (definitions db !! id) as [d|] eqn:Hd; [case_decide|]; cat_inv; simplify_eq.
  - right. eauto 10.
  - by left.
  - by left.
Qed.

Lemma update_owned_run instance watched id P `{!∀ d, Decision (P d)} f db db' b :
  update_owned instance watched id P f db = (db', Ok b) →
  (b = false ∧ db' = db ∧ (owned db instance → is_none_or (λ d, ¬ P d) (db.(definitions) !! id))) ∨
  (b = true ∧ ∃ d, db.(definitions) !! id = Some d ∧ P d ∧ definition_update_ok watched db id d (f d) ∧
     db' = set_definitions <[id := f d]> db).
Proof.
  unfold update_owned. intros Hr. run_inv. subst. case_bool_decide; cat_inv.
  - apply update_definition_run in Hr as [(? & ? & ?)|?]; [left|right]; auto.
  - left. naive_solver.
Qed.

Lemma insert_version_run id v db db' u :
  insert_version id v db = (db', Ok u) →
  v.(v_state) = VStaging ∧ version_authority db v ∧ version_check v ∧ db.(versions) !! id = None ∧
  (∀ id' v', db.(versions) !! id' = Some v' → v'.(v_definition) = v.(v_definition) →
     v'.(version_number) ≠ v.(version_number)) ∧
  db' = set_version_referrers <[(v.(v_worker_version), ByVersion, id) := v.(v_created_at_ms)]>
          (set_versions <[id := v]> db).
Proof.
  unfold insert_version. intros Hr. cat_inv. subst. destruct Hg as (? & ? & ? & ? & Hn & ?). split_and!; auto.
  intros id' v' Hv' ??. apply Hn. by exists id', v'.
Qed.

(** What remains of the references of a version that changed its state. *)
Definition after_version (db : ControlDb) (id : N) (v v' : VersionRow) : ControlDb :=
  let db1 := set_versions <[id := v']> db in
  if decide (v'.(v_state) = VDeleting)
  then set_version_referrers (delete (v.(v_worker_version), ByVersion, id)) db1 else db1.

Lemma update_version_run id P `{!∀ v, Decision (P v)} f db db' b :
  update_version id P f db = (db', Ok b) →
  (b = false ∧ db' = db ∧ is_none_or (λ v, ¬ P v) (db.(versions) !! id)) ∨
  (b = true ∧ ∃ v, db.(versions) !! id = Some v ∧ P v ∧ v.(v_state) ≠ VTombstoned ∧ version_check (f v) ∧
     version_moves v.(v_state) (f v).(v_state) = true ∧
     (retired (f v).(v_state) = true → ¬ version_in_use db id) ∧ db' = after_version db id v (f v)).
Proof.
  unfold update_version, after_version. intros Hr. cat_inv. subst.
  destruct (versions db !! id) as [v|] eqn:Hv; [case_decide|]; cat_inv; simplify_eq.
  - right. split; [done|]. exists v. destruct Hg as (? & ? & ? & ?). split_and!; auto. by destruct (decide _).
  - right. split; [done|]. exists v. destruct Hg as (? & ? & ? & ?). split_and!; auto. by destruct (decide _).
  - by left.
  - by left.
Qed.

Lemma insert_referrer_run id r db db' u :
  insert_referrer id r db = (db', Ok u) →
  r.(rf_state) = Creating ∧ r.(rf_generation) = 1 ∧ creation_authority db r ∧ referrer_check r ∧
  db.(referrers) !! id = None ∧
  (∀ id' r', db.(referrers) !! id' = Some r' → r'.(rf_creation_operation) ≠ r.(rf_creation_operation) ∧
     (r'.(rf_definition) = r.(rf_definition) → r'.(rf_external) ≠ r.(rf_external))) ∧
  db' = set_workflow_referrers <[(r.(rf_definition), OfInstance, id) := r.(rf_created_at_ms)]>
          (set_version_referrers <[(r.(rf_worker_version), ByInstance, id) := r.(rf_created_at_ms)]>
            (set_referrers <[id := r]> db)).
Proof.
  unfold insert_referrer. intros Hr. cat_inv. subst. destruct Hg as (? & ? & ? & ? & ? & Hn & ?). split_and!; auto.
  intros id' r' Hr'. split; [intros ?|intros ??]; apply Hn; exists id', r'; auto.
Qed.

Definition without_refs (id : N) (r : ReferrerRow) (db : ControlDb) : ControlDb :=
  set_workflow_referrers (delete (r.(rf_definition), OfInstance, id))
    (set_version_referrers (delete (r.(rf_worker_version), ByInstance, id)) db).

Lemma drop_instance_refs_run id r db db' u :
  drop_instance_refs id r db = (db', Ok u) → db' = without_refs id r db.
Proof. unfold drop_instance_refs. intros Hr. cat_inv. by subst. Qed.

Definition after_referrer (db : ControlDb) (id : N) (r' : ReferrerRow) : ControlDb :=
  let db1 := set_referrers <[id := r']> db in
  if decide (r'.(rf_state) = Released) then without_refs id r' db1 else db1.

Lemma update_referrer_run c id P `{!∀ r, Decision (P r)} f db db' b :
  update_referrer c id P f db = (db', Ok b) →
  (b = false ∧ db' = db ∧ is_none_or (λ r, ¬ P r) (db.(referrers) !! id)) ∨
  (b = true ∧ ∃ r, db.(referrers) !! id = Some r ∧ P r ∧ r.(rf_state) ≠ Released ∧ referrer_check (f r) ∧
     column_guards c db id r (f r) ∧ db' = after_referrer db id (f r)).
Proof.
  unfold update_referrer, after_referrer. intros Hr. cat_inv. subst.
  destruct (referrers db !! id) as [r|] eqn:Hrow; [case_decide|]; cat_inv; simplify_eq.
  - right. split; [done|]. exists r. match goal with H : drop_instance_refs _ _ _ = _ |- _ => apply drop_instance_refs_run in H end. destruct Hg as (? & ? & ?).
    split_and!; auto. subst. by destruct (decide _).
  - right. split; [done|]. exists r. destruct Hg as (? & ? & ?). split_and!; auto. by destruct (decide _).
  - by left.
  - by left.
Qed.

Lemma delete_referrer_run id P `{!∀ r, Decision (P r)} db db' b :
  delete_referrer id P db = (db', Ok b) →
  (b = false ∧ db' = db ∧ is_none_or (λ r, ¬ P r) (db.(referrers) !! id)) ∨
  (b = true ∧ ∃ r, db.(referrers) !! id = Some r ∧ P r ∧
     (r.(rf_state) = Creating ∨ (r.(rf_state) = Released ∧ intent_of db id r Purge (λ o, o.(in_applied) = true))) ∧
     is_none_or (λ o, o.(in_kind) = Purge ∧ o.(in_applied) = true) (db.(intents) !! id) ∧
     db' = without_refs id r (set_intents (delete id) (set_referrers (delete id) db))).
Proof.
  unfold delete_referrer. intros Hr. cat_inv. subst.
  destruct (referrers db !! id) as [r|] eqn:Hrow; [case_decide|]; cat_inv; simplify_eq.
  - right. split; [done|]. exists r. match goal with H : drop_instance_refs _ _ _ = _ |- _ => apply drop_instance_refs_run in H end. split_and!; auto.
  - by left.
  - by left.
Qed.
End statements.

(** ** Rows *)

(** A row admitted under a reservation: its fence is not ahead of the definition's, and while
    the same reservation is pending it has the reserved class. *)
Definition reserved_under (d : DefinitionRow) (r : option (ustr * Z)) (class_name : ustr) : Prop :=
  ∀ owner fence, r = Some (owner, fence) → fence ≤ d.(reservation_fence) ∧
    (holds_reservation owner fence d → is_some_and (λ p, p.(reserved_class_name) = class_name) d.(pending)).

Section rows.
Context `{Codec, CronParser}.

Record definition_ok (db : ControlDb) (id : N) (d : DefinitionRow) : Prop := {
  dk_check : definition_check d;
  dk_valid : definition_valid d;
  dk_creating : d.(d_state) = DCreating → d.(current_version_id) = None;
  dk_ready : d.(d_state) = DReady → is_Some d.(current_version_id);
  dk_current : ∀ c, d.(current_version_id) = Some c →
    ∃ v, db.(versions) !! c = Some v ∧ v.(v_definition) = id ∧ v.(v_state) = VReady;
}.

Record version_ok (db : ControlDb) (id : N) (v : VersionRow) : Prop := {
  vk_check : version_check v;
  vk_frozen : ∀ name, frozen (version_target db id v name);
  vk_definition : ∃ d, db.(definitions) !! v.(v_definition) = Some d ∧
    reserved_under d v.(v_reservation) v.(v_class_name);
  vk_worker : ∃ w, db.(worker_versions) !! v.(v_worker_version) = Some w ∧ w.(wv_worker) = v.(v_worker) ∧
    w.(wv_code_sha256) = v.(v_code_sha256) ∧ w.(wv_loader_schema) = v.(v_loader_schema);
}.

Record binding_ok (db : ControlDb) (id : N) (b : BindingRow) : Prop := {
  bk_check : binding_check b;
  bk_valid : binding_valid id b;
  bk_generation : b.(b_lifecycle_generation) = 1;
  bk_definition : ∃ d, db.(definitions) !! b.(b_definition) = Some d ∧
    reserved_under d b.(b_reservation) b.(b_class_name) ∧
    (worker_live db b.(b_version) →
       open_state d.(d_state) = true ∧ (d.(d_state) = DCreating → is_Some b.(b_reservation)));
  bk_version : is_Some (db.(worker_versions) !! b.(b_version));
}.

Record referrer_ok (db : ControlDb) (id : N) (r : ReferrerRow) : Prop := {
  rk_check : referrer_check r;
  rk_name : is_ok (validate_workflow_name r.(rf_definition_name)) = true;
  rk_external : is_ok (validate_workflow_instance_id r.(rf_external)) = true;
  rk_version : ∃ v, db.(versions) !! r.(rf_version) = Some v ∧ v.(v_definition) = r.(rf_definition) ∧
    v.(v_worker_version) = r.(rf_worker_version) ∧ (r.(rf_state) ≠ Released → v.(v_state) = VReady);
}.

Record tables_ok (db : ControlDb) : Prop := {
  k_definition : ∀ id d, db.(definitions) !! id = Some d → definition_ok db id d;
  k_version : ∀ id v, db.(versions) !! id = Some v → version_ok db id v;
  k_binding : ∀ id b, db.(bindings) !! id = Some b → binding_ok db id b;
  k_referrer : ∀ id r, db.(referrers) !! id = Some r → referrer_ok db id r;
  k_version_refs : ∀ k, db.(version_referrers) !! k = expected_version db k;
  k_definition_refs : ∀ k, db.(workflow_referrers) !! k = expected_definition db k;
  k_workers : ∀ id w, db.(worker_versions) !! id = Some w → is_Some (db.(workers) !! w.(wv_worker));
  k_operations : ∀ op o, db.(binding_operations) !! op = Some o → is_Some (db.(bindings) !! o.(bo_binding));
  k_locks : ∀ op l, db.(binding_locks) !! op = Some l →
    is_Some (db.(bindings) !! l.1) ∧ is_Some (db.(binding_operations) !! op);
  k_names : ∀ id id' d d', db.(definitions) !! id = Some d → db.(definitions) !! id' = Some d' →
    d.(d_state) ≠ DTombstoned → d'.(d_state) ≠ DTombstoned → d.(d_name) = d'.(d_name) → id = id';
  k_externals : ∀ id id' r r', db.(referrers) !! id = Some r → db.(referrers) !! id' = Some r' →
    r.(rf_definition) = r'.(rf_definition) → r.(rf_external) = r'.(rf_external) → id = id';
  k_creations : ∀ id id' r r', db.(referrers) !! id = Some r → db.(referrers) !! id' = Some r' →
    r.(rf_creation_operation) = r'.(rf_creation_operation) → id = id';
}.

(** A reservation is bound exactly while a binding or a version under it is active.  As long
    as it is pending, no version under it is published, and one of those staged is
    still under validation. *)
Definition counted_at (db : ControlDb) (id : N) (d : DefinitionRow) (p : Pending) : Prop :=
  (p.(reservation_state) = Bound ↔ consumed db id p.(reservation_owner) d.(reservation_fence)) ∧
  (∀ vid v, db.(versions) !! vid = Some v → v.(v_definition) = id →
     v.(v_reservation) = Some (p.(reservation_owner), d.(reservation_fence)) →
     (v.(v_state) = VValidating ∨ v.(v_state) = VRejected ∨ retired v.(v_state) = true) ∧
     ∃ vid' v', db.(versions) !! vid' = Some v' ∧ v'.(v_definition) = id ∧
       v'.(v_reservation) = Some (p.(reservation_owner), d.(reservation_fence)) ∧ v'.(v_state) = VValidating).
Definition counted_ok (db : ControlDb) : Prop :=
  ∀ id d p, db.(definitions) !! id = Some d → d.(pending) = Some p → counted_at db id d p.

(** An intent is unapplied, agrees with its reservation and is in the state of its kind; a
    restarting reservation has one; nothing is left half released. *)
Record intent_ok (db : ControlDb) (id : N) (o : IntentRow) : Prop := {
  ik_applied : o.(in_applied) = false;
  ik_check : intent_check o;
  ik_row : ∃ r, db.(referrers) !! id = Some r ∧ o.(in_sequence) = r.(rf_sequence) ∧ o.(in_nonce) = r.(rf_nonce) ∧
    o.(in_expected_generation) = r.(rf_generation) ∧
    r.(rf_state) = match o.(in_kind) with Restart => Restarting | Purge => Retained end;
}.
Record intents_ok (db : ControlDb) : Prop := {
  i_intent : ∀ id o, db.(intents) !! id = Some o → intent_ok db id o;
  i_restarting : ∀ id r, db.(referrers) !! id = Some r → r.(rf_state) = Restarting →
    ∃ o, db.(intents) !! id = Some o ∧ o.(in_kind) = Restart;
  i_settled : ∀ id r, db.(referrers) !! id = Some r → r.(rf_state) ≠ Releasing ∧ r.(rf_state) ≠ Released;
}.

Record control_ok (db : ControlDb) : Prop := {
  co_tables : tables_ok db;
  co_counted : counted_ok db;
  co_intents : intents_ok db;
}.
End rows.

(** ** What the expected references depend on *)

Lemma expected_definition_ext db db' k :
  db'.(bindings) = db.(bindings) → db'.(referrers) = db.(referrers) →
  (∀ v, worker_live db' v ↔ worker_live db v) → expected_definition db' k = expected_definition db k.
Proof.
  intros Eb Er El. destruct k as [[d [|]] id]; cbn; rewrite ?Eb, ?Er; [|done].
  destruct (bindings db !! id) as [b|]; cbn; [|done]. specialize (El (b_version b)).
  do 2 case_decide; tauto || done.
Qed.

Lemma worker_live_ext db db' v :
  db'.(workers) = db.(workers) → db'.(worker_versions) = db.(worker_versions) → worker_live db' v ↔ worker_live db v.
Proof. unfold worker_live. by intros -> ->. Qed.

(** ** Statements keep the tables *)

Section keeps.
Context `{Codec, CronParser}.
Implicit Types db : ControlDb.

(** What a change of a definition owes to the rows that refer to it. *)
Record redefines (db : ControlDb) (id : N) (d d' : DefinitionRow) : Prop := {
  rd_reserved : ∀ r c, reserved_under d r c → reserved_under d' r c;
  rd_bindings : ∀ bid b, db.(bindings) !! bid = Some b → b.(b_definition) = id → worker_live db b.(b_version) →
    open_state d'.(d_state) = true ∧ (d'.(d_state) = DCreating → is_Some b.(b_reservation));
}.

Lemma put_definition_ok db id d' :
  tables_ok db → definition_ok db id d' →
  (d'.(d_state) ≠ DTombstoned → name_free db id d'.(d_name)) →
  is_none_or (λ d, redefines db id d d') (db.(definitions) !! id) →
  tables_ok (set_definitions <[id := d']> db).
Proof.
  intros Hok Hd' Hname Hre. constructor; cbn.
  - intros id1 d1 [[<- <-]|[Hne Hd1]]%lookup_insert_Some; [by destruct Hd'|].
    by destruct (k_definition db Hok _ _ Hd1).
  - intros vid v Hv. destruct (k_version db Hok _ _ Hv) as [Hc Hf (d & Hd & Hr) Hw].
    split; [done..| |done]. destruct (decide (v_definition v = id)) as [He|Hne].
    + exists d'. cbn. rewrite He, lookup_insert_eq. rewrite He in Hd. rewrite Hd in Hre. split; [done|]. by apply Hre.
    + exists d. cbn. by rewrite lookup_insert_ne by done.
  - intros bid b Hb. destruct (k_binding db Hok _ _ Hb) as [Hc Hv Hg (d & Hd & Hr & Hl) Hw].
    split; [done..| |done]. destruct (decide (b_definition b = id)) as [He|Hne].
    + exists d'. cbn. rewrite He, lookup_insert_eq. rewrite He in Hd. rewrite Hd in Hre. split; [done|]. split; [by apply Hre|].
      intros Hlive. by eapply Hre.
    + exists d. cbn. by rewrite lookup_insert_ne by done.
  - intros rid r Hr. by destruct (k_referrer db Hok _ _ Hr).
  - apply Hok.
  - apply Hok.
  - apply Hok.
  - apply Hok.
  - apply Hok.
  - intros id1 id2 d1 d2 H1 H2 Hs1 Hs2 Hn.
    apply lookup_insert_Some in H1 as [[<- <-]|[Hne1 H1]]; apply lookup_insert_Some in H2 as [[<- <-]|[Hne2 H2]].
    + done.
    + destruct (Hname Hs1). exists id2, d2. naive_solver.
    + destruct (Hname Hs2). exists id1, d1. naive_solver.
    + by eapply (k_names db Hok).
  - apply Hok.
  - apply Hok.
Qed.

(** A new version is one more row: nothing referred to it. *)
Lemma insert_version_ok id v db db' u :
  tables_ok db → insert_version id v db = (db', Ok u) → (∀ name, frozen (version_target db id v name)) →
  (∀ d, db.(definitions) !! v.(v_definition) = Some d → reserved_under d v.(v_reservation) v.(v_class_name)) →
  tables_ok db'.
Proof.
  intros Hok Hrun Hf Hres. apply insert_version_run in Hrun as (Hs & Hauth & Hc & Hnone & Hnum & ->).
  destruct Hauth as (Hd & Hw & Hwv).
  destruct (definitions db !! v_definition v) as [d|] eqn:Ed; [|done].
  destruct (worker_versions db !! v_worker_version v) as [w|] eqn:Ew; [|done].
  assert (Hkeep : ∀ c x, versions db !! c = Some x → <[id:=v]> (versions db) !! c = Some x).
  { intros c x Hx. rewrite lookup_insert_ne; [done|]. intros <-. congruence. }
  constructor; cbn.
  - intros id1 d1 Hd1. destruct (k_definition db Hok _ _ Hd1) as [??? ? Hcur]. split; [done..|].
    intros c (x & Hx & Hxs)%Hcur. exists x. cbn. auto.
  - intros id1 v1 [[<- <-]|[Hne Hv1]]%lookup_insert_Some.
    + split; cbn; [done..|eauto|]. destruct Hwv as (? & _ & ? & ?). eauto 10.
    + by destruct (k_version db Hok _ _ Hv1).
  - intros bid b Hb. by destruct (k_binding db Hok _ _ Hb).
  - intros rid r Hr. destruct (k_referrer db Hok _ _ Hr) as [???(x & Hx & Hxs)]. split; [done..|].
    exists x. cbn. auto.
  - intros [[wk [|]] vid]; cbn.
    + destruct (decide ((v_worker_version v, ByVersion, id) = (wk, ByVersion, vid))) as [[= <- <-]|Hne].
      * rewrite !lookup_insert_eq. cbn. rewrite decide_True; [done|]. by rewrite Hs.
      * rewrite lookup_insert_ne by done. rewrite (k_version_refs db Hok). cbn.
        destruct (decide (id = vid)) as [->|Hne'].
        -- rewrite lookup_insert_eq, Hnone. cbn. rewrite decide_False; [done|]. naive_solver.
        -- by rewrite lookup_insert_ne.
    + rewrite lookup_insert_ne by done. apply (k_version_refs db Hok).
  - apply Hok.
  - apply Hok.
  - apply Hok.
  - apply Hok.
  - apply Hok.
  - apply Hok.
  - apply Hok.
Qed.

(** The columns [workflow_version_identity_guard] freezes, and the reservation. *)
Definition version_columns (v : VersionRow) :=
  (v.(v_definition), v.(version_number), v.(v_worker), v.(v_worker_version), v.(v_class_name), v.(v_reservation),
   v.(v_code_sha256), v.(v_loader_schema), v.(v_capability), v.(v_descriptor), v.(v_created_at_ms)).

Lemma after_version_lookup db id v v' k :
  (after_version db id v v').(version_referrers) !! k =
    if decide (v'.(v_state) = VDeleting ∧ k = (v.(v_worker_version), ByVersion, id)) then None
    else db.(version_referrers) !! k.
Proof.
  unfold after_version. destruct (decide (v_state v' = VDeleting)) as [Hd|Hd]; cbn.
  - destruct (decide (k = (v_worker_version v, ByVersion, id))) as [->|Hne].
    + by rewrite lookup_delete_eq, decide_True.
    + rewrite lookup_delete_ne, decide_False; naive_solver.
  - rewrite decide_False; naive_solver.
Qed.

Lemma after_version_frame db id v v' :
  let db' := after_version db id v v' in
  db'.(instance_identity) = db.(instance_identity) ∧ db'.(workers) = db.(workers) ∧
  db'.(worker_versions) = db.(worker_versions) ∧ db'.(definitions) = db.(definitions) ∧
  db'.(versions) = <[id := v']> db.(versions) ∧ db'.(bindings) = db.(bindings) ∧
  db'.(binding_operations) = db.(binding_operations) ∧ db'.(binding_locks) = db.(binding_locks) ∧
  db'.(workflow_referrers) = db.(workflow_referrers) ∧ db'.(referrers) = db.(referrers) ∧
  db'.(intents) = db.(intents).
Proof. cbn. unfold after_version. by destruct (decide _). Qed.

Lemma version_moves_ready v v' :
  version_moves v v' = true → v = VReady → retired v' = false → v' = VReady.
Proof. intros Hm -> Hr. by destruct v'. Qed.
Lemma version_moves_retired v v' :
  version_moves v v' = true → retired v = true → retired v' = true.
Proof. by destruct v, v'. Qed.
Lemma version_moves_tombstoned v v' :
  version_moves v v' = true → v ≠ VTombstoned → retired v' = true → v' ≠ VDeleting → retired v = true.
Proof. by destruct v, v'. Qed.

(** A version in use stays ready. *)
Lemma after_version_ready db id v v' c x :
  db.(versions) !! id = Some v → version_columns v' = version_columns v →
  version_moves v.(v_state) v'.(v_state) = true → (retired v'.(v_state) = true → ¬ version_in_use db id) →
  db.(versions) !! c = Some x → x.(v_state) = VReady → (c = id → version_in_use db id) →
  ∃ x', (after_version db id v v').(versions) !! c = Some x' ∧ v_definition x' = v_definition x ∧
    v_worker_version x' = v_worker_version x ∧ v_state x' = VReady.
Proof.
  intros Hv Hcol Hmv Huse Hx Hxs Hin. destruct (after_version_frame db id v v') as (_ & _ & _ & _ & -> & _).
  destruct (decide (c = id)) as [->|Hne]; [|exists x; by rewrite lookup_insert_ne].
  rewrite Hv in Hx. injection Hx as <-. unfold version_columns in Hcol. injection Hcol as Hdef _ _ Hwv _. exists v'. rewrite lookup_insert_eq. split_and!; try done.
  eapply version_moves_ready; [done|done|]. apply not_true_is_false. intros Hr. by apply Huse, Hin.
Qed.

(** Its reference goes when it retires, and no other one. *)
Lemma after_version_refs db id v v' k :
  db.(versions) !! id = Some v → version_columns v' = version_columns v →
  version_moves v.(v_state) v'.(v_state) = true → v.(v_state) ≠ VTombstoned →
  db.(version_referrers) !! k = expected_version db k →
  (after_version db id v v').(version_referrers) !! k = expected_version (after_version db id v v') k.
Proof.
  intros Hv Hcol Hmv Hnt Hk. rewrite after_version_lookup, Hk. unfold version_columns in Hcol. injection Hcol as _ _ _ Hwv _ _ _ _ _ _ Hcr.
  destruct (after_version_frame db id v v') as (_ & _ & _ & _ & Evs & _ & _ & _ & _ & Er & _).
  destruct k as [[wk [|]] vid]; cbn; rewrite ?Er, ?Evs; [|rewrite decide_False; [done|]; naive_solver].
  destruct (decide (vid = id)) as [->|Hne]; [|rewrite lookup_insert_ne by done; rewrite decide_False; [done|]; naive_solver].
  rewrite lookup_insert_eq, Hv. cbn. rewrite Hwv, Hcr.
  destruct (decide (v_state v' = VDeleting ∧ (wk, ByVersion, id) = (v_worker_version v, ByVersion, id))) as [[Hdel [= ->]]|Hno].
  { rewrite decide_False; [done|]. rewrite Hdel. naive_solver. }
  destruct (decide (v_worker_version v = wk)) as [<-|Hw]; [|rewrite !decide_False by naive_solver; done].
  destruct (retired (v_state v)) eqn:Hold.
  { rewrite !decide_False; [done|..]; rewrite ?(version_moves_retired _ _ Hmv Hold); naive_solver. }
  destruct (retired (v_state v')) eqn:Hnew; [|done]. exfalso. enough (retired (v_state v) = true) by congruence.
  eapply version_moves_tombstoned; [done..|]. naive_solver.
Qed.

Lemma update_version_ok id P `{!∀ v, Decision (P v)} f db db' b :
  tables_ok db → update_version id P f db = (db', Ok b) →
  (∀ v, version_columns (f v) = version_columns v) → tables_ok db'.
Proof.
  intros Hok Hrun Hcol.
  apply update_version_run in Hrun as [(_ & -> & _)|(_ & v & Hv & _ & Hnt & Hc & Hmv & Huse & Hdb)]; [done|].
  pose proof (after_version_frame db id v (f v)) as (Ei & Ew & Ewv & Ed & Evs & Eb & Eo & El & Ewr & Er & _).
  pose proof (λ k, after_version_refs db id v (f v) k Hv (Hcol v) Hmv Hnt) as Hrefs.
  pose proof (λ c x, after_version_ready db id v (f v) c x Hv (Hcol v) Hmv Huse) as Hread. rewrite <-Hdb in *. clear Hdb.
  specialize (Hcol v). unfold version_columns in Hcol. injection Hcol as Hdef Hnum Hwk Hwv Hcl Hre Hcode Hload Hcap Hdesc Hcr.
  constructor.
  - intros id1 d1. rewrite Ed. intros Hd1. destruct (k_definition db Hok _ _ Hd1) as [??? ? Hcur]. split; [done..|].
    intros c Hc1. destruct (Hcur _ Hc1) as (x & Hx & Hxd & Hxs).
    destruct (Hread c x Hx Hxs) as (x' & Hx' & Hxd' & _ & Hxs').
    { intros ->. left. by exists id1, d1. }
    exists x'. split_and!; [done|congruence|done].
  - intros id1 v1. rewrite Evs. intros [[<- <-]|[Hne Hv1]]%lookup_insert_Some.
    + destruct (k_version db Hok _ _ Hv) as [? Hf Hd Hw]. split; [done| | |].
      * intros n. specialize (Hf n). unfold version_target in *. rewrite Ei. congruence.
      * rewrite Ed, Hdef, Hre, Hcl. done.
      * rewrite Ewv, Hwv, Hwk, Hcode, Hload. done.
    + destruct (k_version db Hok _ _ Hv1) as [? Hf Hd Hw]. split; [done| | |].
      * intros n. specialize (Hf n). unfold version_target in *. by rewrite Ei.
      * by rewrite Ed.
      * by rewrite Ewv.
  - intros bid b1. rewrite Eb. intros Hb. destruct (k_binding db Hok _ _ Hb) as [???? ?].
    split; [done..| |by rewrite Ewv]. rewrite Ed. setoid_rewrite (worker_live_ext db db'); done.
  - intros rid r. rewrite Er. intros Hr. destruct (k_referrer db Hok _ _ Hr) as [???(x & Hx & Hxd & Hxw & Hxs)].
    split; [done..|]. destruct (decide (rf_state r = Released)) as [Hrel|Hrel].
    + destruct (decide (rf_version r = id)) as [He|Hne].
      * exists (f v). rewrite Evs, He, lookup_insert_eq. rewrite He in Hx. simplify_eq. split_and!; congruence.
      * exists x. rewrite Evs, lookup_insert_ne by done. done.
    + destruct (Hread _ x Hx (Hxs Hrel)) as (x' & Hx' & ? & ? & ?).
      { intros Hid. right. by exists rid, r. }
      exists x'. split_and!; congruence.
  - intros k. apply Hrefs, (k_version_refs db Hok).
  - intros k. rewrite Ewr, (k_definition_refs db Hok). symmetry.
    apply expected_definition_ext; [done..|]. intros. by apply worker_live_ext.
  - rewrite Ewv, Ew. apply Hok.
  - rewrite Eo, Eb. apply Hok.
  - rewrite El, Eb, Eo. apply Hok.
  - rewrite Ed. apply Hok.
  - rewrite Er. apply Hok.
  - rewrite Er. apply Hok.
Qed.

(** The columns [workflow_instance_ref_identity_guard] freezes. *)
Definition referrer_columns (r : ReferrerRow) :=
  (r.(rf_definition), r.(rf_definition_name), r.(rf_external), r.(rf_version), r.(rf_worker_version), r.(rf_nonce),
   r.(rf_creation_operation), r.(rf_batch), r.(rf_schedule), r.(rf_created_at_ms)).

Lemma insert_referrer_ok id r db db' u :
  tables_ok db → insert_referrer id r db = (db', Ok u) →
  is_ok (validate_workflow_name r.(rf_definition_name)) = true →
  is_ok (validate_workflow_instance_id r.(rf_external)) = true → tables_ok db'.
Proof.
  intros Hok Hrun Hname Hext.
  apply insert_referrer_run in Hrun as (Hs & Hg & (Hd & Hv) & Hc & Hnone & Huniq & ->).
  destruct (definitions db !! rf_definition r) as [d|] eqn:Ed; [|done]. destruct Hd as (Hds & _ & Hcur).
  destruct (versions db !! rf_version r) as [v|] eqn:Ev; [|done]. destruct Hv as (Hvs & Hvw).
  destruct (dk_current _ _ _ (k_definition db Hok _ _ Ed) _ Hcur) as (v' & Hv' & Hvd & _). simplify_eq.
  constructor; cbn.
  - intros id1 d1 Hd1. by destruct (k_definition db Hok _ _ Hd1).
  - intros id1 v1 Hv1. by destruct (k_version db Hok _ _ Hv1).
  - intros bid b Hb. by destruct (k_binding db Hok _ _ Hb).
  - intros id1 r1 [[<- <-]|[Hne Hr1]]%lookup_insert_Some.
    + split; [done..|]. exists v. cbn. split_and!; auto.
    + by destruct (k_referrer db Hok _ _ Hr1).
  - intros [[wk [|]] rid]; cbn.
    + rewrite lookup_insert_ne by done. apply (k_version_refs db Hok).
    + destruct (decide ((rf_worker_version r, ByInstance, id) = (wk, ByInstance, rid))) as [[= <- <-]|Hne].
      * rewrite !lookup_insert_eq. cbn. rewrite decide_True; [done|]. by rewrite Hs.
      * rewrite lookup_insert_ne by done. rewrite (k_version_refs db Hok). cbn.
        destruct (decide (id = rid)) as [->|Hne'].
        -- rewrite lookup_insert_eq, Hnone. cbn. rewrite decide_False; [done|]. naive_solver.
        -- by rewrite lookup_insert_ne.
  - intros [[dk [|]] rid]; cbn.
    + rewrite lookup_insert_ne by done. apply (k_definition_refs db Hok).
    + destruct (decide ((rf_definition r, OfInstance, id) = (dk, OfInstance, rid))) as [[= <- <-]|Hne].
      * rewrite !lookup_insert_eq. cbn. rewrite decide_True; [done|]. by rewrite Hs.
      * rewrite lookup_insert_ne by done. rewrite (k_definition_refs db Hok). cbn.
        destruct (decide (id = rid)) as [->|Hne'].
        -- rewrite lookup_insert_eq, Hnone. cbn. rewrite decide_False; [done|]. naive_solver.
        -- by rewrite lookup_insert_ne.
  - apply Hok.
  - apply Hok.
  - apply Hok.
  - apply Hok.
  - intros id1 id2 r1 r2 [[<- <-]|[Hn1 H1]]%lookup_insert_Some [[<- <-]|[Hn2 H2]]%lookup_insert_Some Hd1 He.
    + done.
    + by destruct (Huniq _ _ H2) as [_ []].
    + by destruct (Huniq _ _ H1) as [_ []].
    + by eapply (k_externals db Hok).
  - intros id1 id2 r1 r2 [[<- <-]|[Hn1 H1]]%lookup_insert_Some [[<- <-]|[Hn2 H2]]%lookup_insert_Some He.
    + done.
    + by destruct (Huniq _ _ H2) as [[] _].
    + by destruct (Huniq _ _ H1) as [[] _].
    + by eapply (k_creations db Hok).
Qed.

(** A row whose frozen columns stay, with its references dropped when it is released. *)
Lemma put_referrer_ok db id r r' :
  tables_ok db → db.(referrers) !! id = Some r → r.(rf_state) ≠ Released → referrer_check r' →
  referrer_columns r' = referrer_columns r → tables_ok (after_referrer db id r').
Proof.
  intros Hok Hr Hs Hc Hcol. unfold referrer_columns in Hcol.
  injection Hcol as Hd Hn He Hv Hw Hnonce Hop Hb Hsch Hcr.
  pose proof (k_referrer db Hok _ _ Hr) as [_ ?? (v & Hvr & Hvd & Hvw & Hvs)].
  assert (Hrow : ∀ id1 r1, <[id:=r']> (referrers db) !! id1 = Some r1 →
    ∃ r0, referrers db !! id1 = Some r0 ∧ rf_definition r1 = rf_definition r0 ∧ rf_external r1 = rf_external r0 ∧
      rf_creation_operation r1 = rf_creation_operation r0).
  { intros id1 r1 [[<- <-]|[? ?]]%lookup_insert_Some; [exists r|exists r1]; done. }
  assert (Hext : ∀ id1 id2 r1 r2, <[id:=r']> (referrers db) !! id1 = Some r1 → <[id:=r']> (referrers db) !! id2 = Some r2 →
    rf_definition r1 = rf_definition r2 → rf_external r1 = rf_external r2 → id1 = id2).
  { intros id1 id2 r1 r2 (? & ? & ? & ? & ?)%Hrow (? & ? & ? & ? & ?)%Hrow ??.
    eapply (k_externals db Hok); [done..| |]; congruence. }
  assert (Hcre : ∀ id1 id2 r1 r2, <[id:=r']> (referrers db) !! id1 = Some r1 → <[id:=r']> (referrers db) !! id2 = Some r2 →
    rf_creation_operation r1 = rf_creation_operation r2 → id1 = id2).
  { intros id1 id2 r1 r2 (? & ? & ? & ? & ?)%Hrow (? & ? & ? & ? & ?)%Hrow ?.
    eapply (k_creations db Hok); [done..|congruence]. }
  unfold after_referrer. destruct (decide (rf_state r' = Released)) as [Hrel|Hrel].
  all: constructor; cbn; try apply Hok; try done.
  all: try (intros id1 x1 Hx1; first [by destruct (k_definition db Hok _ _ Hx1) | by destruct (k_version db Hok _ _ Hx1)
         | by destruct (k_binding db Hok _ _ Hx1)]).
  1, 4: intros id1 r1 [[<- <-]|[Hne Hr1]]%lookup_insert_Some; [|by destruct (k_referrer db Hok _ _ Hr1)].
  1, 2: split; [done|congruence|congruence|]; exists v; cbn; rewrite Hv, Hd, Hw; naive_solver.
  - intros k. destruct (decide (k = (rf_worker_version r', ByInstance, id))) as [->|Hne].
    + rewrite lookup_delete_eq. cbn. rewrite lookup_insert_eq. cbn. rewrite decide_False; naive_solver.
    + rewrite lookup_delete_ne by done. rewrite (k_version_refs db Hok). destruct k as [[wk [|]] rid]; cbn; [done|].
      destruct (decide (id = rid)) as [->|Hne']; [|by rewrite lookup_insert_ne].
      rewrite lookup_insert_eq, Hr. cbn. rewrite !decide_False; [done|naive_solver|]. intros [<- _]. congruence.
  - intros k. destruct (decide (k = (rf_definition r', OfInstance, id))) as [->|Hne].
    + rewrite lookup_delete_eq. cbn. rewrite lookup_insert_eq. cbn. rewrite decide_False; naive_solver.
    + rewrite lookup_delete_ne by done. rewrite (k_definition_refs db Hok). destruct k as [[dk [|]] rid]; cbn; [done|].
      destruct (decide (id = rid)) as [->|Hne']; [|by rewrite lookup_insert_ne].
      rewrite lookup_insert_eq, Hr. cbn. rewrite !decide_False; [done|naive_solver|]. intros [<- _]. congruence.
  - intros k. rewrite (k_version_refs db Hok). destruct k as [[wk [|]] rid]; cbn; [done|].
    destruct (decide (id = rid)) as [->|Hne']; [|by rewrite lookup_insert_ne].
    rewrite lookup_insert_eq, Hr. cbn. rewrite Hw, Hcr. do 2 case_decide; tauto || done.
  - intros k. rewrite (k_definition_refs db Hok). destruct k as [[dk [|]] rid]; cbn; [done|].
    destruct (decide (id = rid)) as [->|Hne']; [|by rewrite lookup_insert_ne].
    rewrite lookup_insert_eq, Hr. cbn. rewrite Hd, Hcr. do 2 case_decide; tauto || done.
Qed.

Lemma update_referrer_ok c id P `{!∀ r, Decision (P r)} f db db' b :
  tables_ok db → update_referrer c id P f db = (db', Ok b) →
  (∀ r, referrer_columns (f r) = referrer_columns r) → tables_ok db'.
Proof.
  intros Hok Hrun Hcol.
  apply update_referrer_run in Hrun as [(_ & -> & _)|(_ & r & Hr & _ & Hs & Hc & _ & ->)]; [done|].
  by eapply put_referrer_ok.
Qed.

Lemma tables_intents f db : tables_ok db → tables_ok (set_intents f db).
Proof.
  intros Hok. constructor; cbn; try apply Hok; intros id1 x1 Hx1;
    first [by destruct (k_definition db Hok _ _ Hx1) | by destruct (k_version db Hok _ _ Hx1)
         | by destruct (k_binding db Hok _ _ Hx1) | by destruct (k_referrer db Hok _ _ Hx1)].
Qed.

Lemma remove_referrer_ok db id r :
  tables_ok db → db.(referrers) !! id = Some r →
  tables_ok (without_refs id r (set_intents (delete id) (set_referrers (delete id) db))).
Proof.
  intros Hok Hr. constructor; cbn; try apply Hok.
  - intros id1 x1 Hx1. by destruct (k_definition db Hok _ _ Hx1).
  - intros id1 x1 Hx1. by destruct (k_version db Hok _ _ Hx1).
  - intros id1 x1 Hx1. by destruct (k_binding db Hok _ _ Hx1).
  - intros id1 r1 [_ Hr1]%lookup_delete_Some. by destruct (k_referrer db Hok _ _ Hr1).
  - intros k. destruct (decide (k = (rf_worker_version r, ByInstance, id))) as [->|Hne].
    + rewrite lookup_delete_eq. cbn. by rewrite lookup_delete_eq.
    + rewrite lookup_delete_ne by done. rewrite (k_version_refs db Hok). destruct k as [[wk [|]] rid]; cbn; [done|].
      destruct (decide (id = rid)) as [->|Hne']; [|by rewrite lookup_delete_ne].
      rewrite lookup_delete_eq, Hr. cbn. rewrite decide_False; naive_solver.
  - intros k. destruct (decide (k = (rf_definition r, OfInstance, id))) as [->|Hne].
    + rewrite lookup_delete_eq. cbn. by rewrite lookup_delete_eq.
    + rewrite lookup_delete_ne by done. rewrite (k_definition_refs db Hok). destruct k as [[dk [|]] rid]; cbn; [done|].
      destruct (decide (id = rid)) as [->|Hne']; [|by rewrite lookup_delete_ne].
      rewrite lookup_delete_eq, Hr. cbn. rewrite decide_False; naive_solver.
  - intros id1 id2 r1 r2 [_ H1]%lookup_delete_Some [_ H2]%lookup_delete_Some. by apply (k_externals db Hok).
  - intros id1 id2 r1 r2 [_ H1]%lookup_delete_Some [_ H2]%lookup_delete_Some. by apply (k_creations db Hok).
Qed.

Lemma delete_referrer_ok id P `{!∀ r, Decision (P r)} db db' b :
  tables_ok db → delete_referrer id P db = (db', Ok b) → tables_ok db'.
Proof.
  intros Hok Hrun. apply delete_referrer_run in Hrun as [(_ & -> & _)|(_ & r & Hr & _ & _ & _ & ->)]; [done|].
  by apply remove_referrer_ok.
Qed.

(** ** Intents *)

Lemma insert_intent_run id o db db' u :
  insert_intent id o db = (db', Ok u) →
  intent_check o ∧ intent_authority db id o ∧ db.(intents) !! id = None ∧ db' = set_intents <[id := o]> db.
Proof. unfold insert_intent. intros Hr. cat_inv. naive_solver. Qed.

Lemma apply_intent_run id operation db db' u :
  apply_intent id operation db = (db', Ok u) →
  match db.(intents) !! id with
  | Some o => if decide (o.(in_operation) = operation)
      then o.(in_applied) = false ∧ db' = set_intents <[id := {| o with in_applied := true |}]> db else db' = db
  | None => db' = db
  end.
Proof.
  unfold apply_intent. intros Hr. run_inv. subst. destruct (intents db !! id) as [o|]; [case_decide|]; cat_inv; done.
Qed.

Lemma delete_intent_run id operation db db' u :
  delete_intent_row id operation db = (db', Ok u) →
  match db.(intents) !! id with
  | Some o => if decide (o.(in_operation) = operation)
      then intent_settled db id o ∧ db' = set_intents (delete id) db else db' = db
  | None => db' = db
  end.
Proof.
  unfold delete_intent_row. intros Hr. run_inv. subst. destruct (intents db !! id) as [o|]; [case_decide|]; cat_inv; done.
Qed.

Lemma insert_intent_ok id o db db' u : tables_ok db → insert_intent id o db = (db', Ok u) → tables_ok db'.
Proof. intros Hok (_ & _ & _ & ->)%insert_intent_run. by apply tables_intents. Qed.
Lemma apply_intent_ok id op db db' u : tables_ok db → apply_intent id op db = (db', Ok u) → tables_ok db'.
Proof.
  intros Hok Hr%apply_intent_run. destruct (intents db !! id); [case_decide|]; try destruct Hr as [_ Hr]; subst;
    auto using tables_intents.
Qed.
Lemma delete_intent_ok id op db db' u : tables_ok db → delete_intent_row id op db = (db', Ok u) → tables_ok db'.
Proof.
  intros Hok Hr%delete_intent_run. destruct (intents db !! id); [case_decide|]; try destruct Hr as [_ Hr]; subst;
    auto using tables_intents.
Qed.

(** ** Changes of a definition *)

Definition pending_key (d : DefinitionRow) : option (ustr * ustr) :=
  (λ p, (p.(reserved_class_name), p.(reservation_owner))) <$> d.(pending).

Lemma reserved_same d d' r c :
  pending_key d' = pending_key d → d'.(reservation_fence) = d.(reservation_fence) →
  reserved_under d r c → reserved_under d' r c.
Proof.
  unfold pending_key, reserved_under, holds_reservation. intros Hk Hf Hr o f Hof.
  destruct (Hr o f Hof) as [Hle Hc]. rewrite Hf. split; [done|].
  destruct (pending d) as [p|], (pending d') as [p'|]; cbn in *; try discriminate; [|naive_solver].
  injection Hk as Hk1 Hk2. rewrite Hk1, Hk2. done.
Qed.
Lemma reserved_cleared d d' r c :
  d'.(pending) = None → d.(reservation_fence) ≤ d'.(reservation_fence) → reserved_under d r c → reserved_under d' r c.
Proof.
  unfold reserved_under, holds_reservation. intros Hp Hf Hr o f Hof. destruct (Hr o f Hof) as [Hle _].
  rewrite Hp. split; [lia|]. by intros [[] _].
Qed.
Lemma reserved_bumped d d' r c :
  d.(reservation_fence) < d'.(reservation_fence) → reserved_under d r c → reserved_under d' r c.
Proof.
  unfold reserved_under, holds_reservation. intros Hf Hr o f Hof. destruct (Hr o f Hof) as [Hle _].
  split; [lia|]. intros [_ ?]. lia.
Qed.

Lemma valid_keep d d' :
  definition_valid d → definition_check d' → d'.(lifecycle_generation) = d.(lifecycle_generation) →
  is_ok (validate_workflow_name d'.(d_name)) = true → (d'.(pending) = None ∨ pending_key d' = pending_key d) →
  definition_valid d'.
Proof.
  intros (Hn & Hl & _ & _ & Hp) (_ & _ & _ & _ & _ & Hc & Ho & Hcl) Hl' Hn' Hk.
  split; [done|]. split; [congruence|]. split; [done|]. split; [done|].
  destruct Hk as [->|Hk]; [done|]. unfold pending_key in Hk.
  destruct (pending d') as [p'|], (pending d) as [p|]; cbn in *; try discriminate; [|done].
  destruct Hc as (_ & _ & Hf & _ & Hcr). destruct Hp as (Hp1 & Hp2 & Hp3 & _ & _).
  injection Hk as Hk1 Hk2. rewrite Hk1, Hk2. split_and!; auto. intros Ht. destruct Hcr as [?|?]; [congruence|done].
Qed.

Lemma update_definition_ok watched id P `{!∀ d, Decision (P d)} f db db' b :
  tables_ok db → update_definition watched id P f db = (db', Ok b) →
  (∀ d, db.(definitions) !! id = Some d → P d → definition_update_ok watched db id d (f d) →
     definition_ok db id (f d) ∧ redefines db id d (f d)) → tables_ok db'.
Proof.
  intros Hok Hrun Hf.
  apply update_definition_run in Hrun as [(_ & -> & _)|(_ & d & Hd & HP & Hg & ->)]; [done|].
  destruct (Hf d Hd HP Hg) as [Hdk Hre]. apply put_definition_ok; [done..| |by rewrite Hd].
  intros Hs. by apply Hg.
Qed.

Lemma update_owned_ok instance watched id P `{!∀ d, Decision (P d)} f db db' b :
  tables_ok db → update_owned instance watched id P f db = (db', Ok b) →
  (∀ d, db.(definitions) !! id = Some d → P d → definition_update_ok watched db id d (f d) →
     definition_ok db id (f d) ∧ redefines db id d (f d)) → tables_ok db'.
Proof.
  unfold update_owned. intros Hok Hrun Hf. run_inv. subst. case_bool_decide; cat_inv; [|done].
  by eapply update_definition_ok.
Qed.

(** No live caller is bound to a definition without a binding referrer. *)
Lemma unbound db id :
  tables_ok db → (∀ bid, db.(workflow_referrers) !! (id, OfBinding, bid) = None) →
  ∀ bid b, db.(bindings) !! bid = Some b → b.(b_definition) = id → ¬ worker_live db b.(b_version).
Proof.
  intros Hok Hno bid b Hb Hd Hl. specialize (Hno bid). rewrite (k_definition_refs db Hok) in Hno. cbn in Hno.
  rewrite Hb in Hno. cbn in Hno. by rewrite decide_True in Hno.
Qed.

(** A change that leaves state and current version alone. *)
Lemma plain_change db id d d' :
  tables_ok db → db.(definitions) !! id = Some d → definition_check d' →
  d'.(d_state) = d.(d_state) → d'.(current_version_id) = d.(current_version_id) →
  definition_valid d' → (∀ r c, reserved_under d r c → reserved_under d' r c) →
  definition_ok db id d' ∧ redefines db id d d'.
Proof.
  intros Hok Hd Hc Hs Hcur Hv Hr. destruct (k_definition db Hok _ _ Hd) as [_ _ H1 H2 H3].
  split; [split; rewrite ?Hs, ?Hcur; done|]. split; [done|].
  intros bid b Hb Hbd Hl. destruct (k_binding db Hok _ _ Hb) as [_ _ _ (d1 & Hd1 & _ & Hbl) _].
  rewrite Hbd in Hd1. simplify_eq. rewrite Hs. auto.
Qed.

(** A change that closes the definition, or clears the version of a closed one. *)
Lemma closing_change db id d d' :
  tables_ok db → db.(definitions) !! id = Some d → definition_check d' →
  open_state d'.(d_state) = false → d'.(current_version_id) = d.(current_version_id) ∨ d'.(current_version_id) = None →
  definition_valid d' → (∀ r c, reserved_under d r c → reserved_under d' r c) →
  (open_state d.(d_state) = true → ∀ bid, db.(workflow_referrers) !! (id, OfBinding, bid) = None) →
  definition_ok db id d' ∧ redefines db id d d'.
Proof.
  intros Hok Hd Hc Hs Hcur Hv Hr Hno. destruct (k_definition db Hok _ _ Hd) as [_ _ H1 H2 H3].
  split; [split; [done..| | |]|split; [done|]].
  - intros He. by rewrite He in Hs.
  - intros He. by rewrite He in Hs.
  - intros c Hcc. destruct Hcur as [E|E]; rewrite E in Hcc; [|done]. by apply H3.
  - intros bid b Hb Hbd Hl. exfalso. destruct (open_state (d_state d)) eqn:Ho.
    + exact (unbound db id Hok (Hno eq_refl) bid b Hb Hbd Hl).
    + destruct (k_binding db Hok _ _ Hb) as [_ _ _ (d1 & Hd1 & _ & Hbl) _]. rewrite Hbd in Hd1. simplify_eq.
      destruct (Hbl Hl). congruence.
Qed.
End keeps.
