(* ===== verification/WorkflowControlMoves.v ===== *)
(** * Bindings, Worker versions and the catalog invariant

    The statements on callers and Worker versions keep the tables, and a change of a
    Worker version releases exactly the reservations it orphans. *)

From stdpp Require Import base numbers list option strings sorting gmap.
From S2P Require Import Prelude Text ErrorCodes Duration RetryPolicy CronSlots WorkflowTypes Sql WorkflowDb WorkflowRuns WorkflowOperations WorkflowControl WorkflowCatalog WorkflowBindings WorkflowReservations WorkflowIntents WorkflowIntegrity WorkflowControlInv.

Local Open Scope Z_scope.

Section moves.
Context `{Codec, CronParser}.
Implicit Types db : ControlDb.

(** ** Bindings *)

Definition with_binding (id : N) (b : BindingRow) (db : ControlDb) : ControlDb :=
  set_workflow_referrers <[(b.(b_definition), OfBinding, id) := b.(b_created_at_ms)]> (set_bindings <[id := b]> db).

Lemma put_binding_ok db id b d :
  tables_ok db → db.(bindings) !! id = None → binding_check b → binding_valid id b →
  b.(b_lifecycle_generation) = 1 → db.(definitions) !! b.(b_definition) = Some d →
  reserved_under d b.(b_reservation) b.(b_class_name) → open_state d.(d_state) = true →
  (d.(d_state) = DCreating → is_Some b.(b_reservation)) → worker_live db b.(b_version) →
  tables_ok (with_binding id b db).
Proof.
  intros Hok Hnone Hc Hv Hg Hd Hr Ho Hcr Hl.
  assert (is_Some (worker_versions db !! b_version b)) as Hw.
  { unfold worker_live in Hl. by destruct (worker_versions db !! b_version b). }
  constructor; cbn; try apply Hok.
  - intros id1 x1 Hx1. by destruct (k_definition db Hok _ _ Hx1).
  - intros id1 x1 Hx1. by destruct (k_version db Hok _ _ Hx1).
  - intros bid b1 [[<- <-]|[Hne Hb1]]%lookup_insert_Some; [|by destruct (k_binding db Hok _ _ Hb1)].
    split; [done..| |done]. exists d. auto.
  - intros id1 x1 Hx1. by destruct (k_referrer db Hok _ _ Hx1).
  - intros [[dk [|]] bid]; cbn.
    + destruct (decide ((b_definition b, OfBinding, id) = (dk, OfBinding, bid))) as [[= <- <-]|Hne].
      * rewrite !lookup_insert_eq. cbn. by rewrite decide_True.
      * rewrite lookup_insert_ne by done. rewrite (k_definition_refs db Hok). cbn.
        destruct (decide (id = bid)) as [->|Hne']; [|by rewrite lookup_insert_ne].
        rewrite lookup_insert_eq, Hnone. cbn. rewrite decide_False; [done|]. naive_solver.
    + rewrite lookup_insert_ne by done. apply (k_definition_refs db Hok).
  - intros op o Ho1. apply lookup_insert_is_Some'. right. by eapply (k_operations db Hok).
  - intros op l Hl1. destruct (k_locks db Hok _ _ Hl1). split; [|done]. apply lookup_insert_is_Some'. by right.
Qed.

Definition without_binding (id : N) (b : BindingRow) (db : ControlDb) : ControlDb :=
  set_workflow_referrers (delete (b.(b_definition), OfBinding, id)) (set_bindings (delete id) db).

Lemma delete_binding_run id db db' u :
  delete_binding id db = (db', Ok u) →
  match db.(bindings) !! id with
  | Some b => is_some_and (λ w, w.(wv_state) = VStaging ∨ w.(wv_state) = VRejected ∨ w.(wv_state) = VDeleting)
        (db.(worker_versions) !! b.(b_version)) ∧
      (∀ op o, db.(binding_operations) !! op = Some o → o.(bo_binding) ≠ id) ∧
      (∀ op l, db.(binding_locks) !! op = Some l → l.1 ≠ id) ∧ db' = without_binding id b db
  | None => db' = db
  end.
Proof.
  unfold delete_binding. intros Hr. run_inv. subst. destruct (bindings db !! id) as [b|]; cat_inv; [|done].
  destruct Hg as (Hs & Ho & Hl). split_and!; [done|..|by subst].
  - intros op o Hop He. apply Ho. by exists op, o.
  - intros op l Hop He. apply Hl. by exists op, l.
Qed.

Lemma delete_binding_ok id db db' u : tables_ok db → delete_binding id db = (db', Ok u) → tables_ok db'.
Proof.
  intros Hok Hr%delete_binding_run. destruct (bindings db !! id) as [b|] eqn:Hb; [|by subst].
  destruct Hr as (_ & Hops & Hlocks & ->). constructor; cbn; try apply Hok.
  - intros id1 x1 Hx1. by destruct (k_definition db Hok _ _ Hx1).
  - intros id1 x1 Hx1. by destruct (k_version db Hok _ _ Hx1).
  - intros bid b1 [_ Hb1]%lookup_delete_Some. by destruct (k_binding db Hok _ _ Hb1).
  - intros id1 x1 Hx1. by destruct (k_referrer db Hok _ _ Hx1).
  - intros k. destruct (decide (k = (b_definition b, OfBinding, id))) as [->|Hne].
    + rewrite lookup_delete_eq. cbn. by rewrite lookup_delete_eq.
    + rewrite lookup_delete_ne by done. rewrite (k_definition_refs db Hok). destruct k as [[dk [|]] bid]; cbn; [|done].
      destruct (decide (id = bid)) as [->|Hne']; [|by rewrite lookup_delete_ne].
      rewrite lookup_delete_eq, Hb. cbn. rewrite decide_False; naive_solver.
  - intros op o Hop. rewrite lookup_delete_ne; [by eapply (k_operations db Hok)|]. intros He. by eapply Hops.
  - intros op l Hop. destruct (k_locks db Hok _ _ Hop) as [??]. split; [|done].
    rewrite lookup_delete_ne; [done|]. intros He. by eapply Hlocks.
Qed.

(** ** Worker versions *)

Definition released (db : ControlDb) (version : N) (t : option Z) (id : N) (d : DefinitionRow) : DefinitionRow :=
  if decide (orphaned db version id d)
  then {| d with pending := None; d_updated_at_ms := Z.max d.(d_updated_at_ms) (default d.(d_updated_at_ms) t) |}
  else d.

Lemma release_orphans_lookup version t db id :
  (release_orphans version t db).(definitions) !! id = released db version t id <$> db.(definitions) !! id.
Proof. cbn. rewrite map_lookup_imap. by destruct (definitions db !! id). Qed.

Lemma released_ok db version t id d :
  tables_ok db → db.(definitions) !! id = Some d →
  definition_ok db id (released db version t id d) ∧ redefines db id d (released db version t id d) ∧
  (released db version t id d).(d_name) = d.(d_name) ∧ (released db version t id d).(d_state) = d.(d_state).
Proof.
  intros Hok Hd. pose proof (k_definition db Hok _ _ Hd) as Hdk. unfold released. case_decide; [|split_and!; try done].
  - pose proof (dk_check _ _ _ Hdk) as Hc. pose proof (dk_valid _ _ _ Hdk) as Hv.
    assert (Hc' : definition_check {| d with pending := None;
      d_updated_at_ms := Z.max d.(d_updated_at_ms) (default d.(d_updated_at_ms) t) |}).
    { destruct Hc as (?&?&?&?&?&?&?&?). split_and!; done. }
    destruct (plain_change db id d _ Hok Hd Hc') as [Hk Hre]; try done.
    + eapply valid_keep; [done..| |by left]. apply Hv.
    + intros r c. by apply reserved_cleared.
  - split; [done|]. intros bid b Hb Hbd Hl. destruct (k_binding db Hok _ _ Hb) as [_ _ _ (d1 & Hd1 & _ & Hbl) _].
    rewrite Hbd in Hd1. simplify_eq. auto.
Qed.

Lemma release_orphans_ok version t db : tables_ok db → tables_ok (release_orphans version t db).
Proof.
  intros Hok.
  assert (Hdef : ∀ id d', definitions (release_orphans version t db) !! id = Some d' →
    ∃ d, definitions db !! id = Some d ∧ d' = released db version t id d).
  { intros id d'. rewrite release_orphans_lookup, fmap_Some. naive_solver. }
  constructor; try apply Hok.
  - intros id d' (d & Hd & ->)%Hdef. by destruct (proj1 (released_ok db version t id d Hok Hd)).
  - intros vid v Hv. destruct (k_version db Hok _ _ Hv) as [Hc Hf (d & Hd & Hr) Hw].
    split; [done..| |done]. destruct (released_ok db version t _ d Hok Hd) as (_ & [Hre _] & _).
    eexists. rewrite release_orphans_lookup, Hd. split; [done|]. by apply Hre.
  - intros bid b Hb. destruct (k_binding db Hok _ _ Hb) as [Hc Hv Hg (d & Hd & Hr & Hl) Hw].
    split; [done..| |done]. destruct (released_ok db version t _ d Hok Hd) as (_ & [Hre _] & _ & Hs).
    eexists. rewrite release_orphans_lookup, Hd. split; [done|]. split; [by apply Hre|]. rewrite Hs. exact Hl.
  - intros rid r Hr. by destruct (k_referrer db Hok _ _ Hr).
  - intros id id' d d' (d1 & Hd1 & ->)%Hdef (d2 & Hd2 & ->)%Hdef.
    destruct (released_ok db version t _ d1 Hok Hd1) as (_ & _ & -> & ->).
    destruct (released_ok db version t _ d2 Hok Hd2) as (_ & _ & -> & ->). by eapply (k_names db Hok).
Qed.

(** The columns of a Worker version that never change. *)
Definition worker_columns (w : WorkerVersionRow) := (w.(wv_worker), w.(wv_code_sha256), w.(wv_loader_schema)).

Lemma put_worker_version_ok db id w w' :
  tables_ok db → db.(worker_versions) !! id = Some w → worker_columns w' = worker_columns w →
  tables_ok (set_worker_versions <[id := w']> db) ∧
  ∀ v, worker_live (set_worker_versions <[id := w']> db) v ↔ worker_live db v.
Proof.
  intros Hok Hw Hcol. unfold worker_columns in Hcol. injection Hcol as Hwk Hcode Hload.
  assert (Hlive : ∀ v, worker_live (set_worker_versions <[id := w']> db) v ↔ worker_live db v).
  { intros v. unfold worker_live. cbn. destruct (decide (id = v)) as [->|Hne].
    - rewrite lookup_insert_eq, Hw. cbn. by rewrite Hwk.
    - by rewrite lookup_insert_ne. }
  assert (Hrow : ∀ v x, worker_versions db !! v = Some x → ∃ x', <[id:=w']> (worker_versions db) !! v = Some x' ∧
    worker_columns x' = worker_columns x).
  { intros v x Hx. destruct (decide (id = v)) as [->|Hne].
    - exists w'. rewrite lookup_insert_eq. simplify_eq. unfold worker_columns. split; [done|congruence].
    - exists x. by rewrite lookup_insert_ne. }
  split; [|done]. constructor; try apply Hok.
  - intros id1 x1 Hx1. by destruct (k_definition db Hok _ _ Hx1).
  - intros vid v Hv. destruct (k_version db Hok _ _ Hv) as [Hc Hf Hd (x & Hx & Hx1 & Hx2 & Hx3)]. split; [done..|].
    destruct (Hrow _ _ Hx) as (x' & Hx' & [= Hc1 Hc2 Hc3]). exists x'. split; [done|]. split_and!; congruence.
  - intros bid b Hb. destruct (k_binding db Hok _ _ Hb) as [Hc Hv Hg (d & Hd & Hr & Hl) [x Hx]].
    split; [done..| |].
    + exists d. split; [done|]. split; [done|]. by rewrite Hlive.
    + destruct (Hrow _ _ Hx) as (x' & Hx' & _). by exists x'.
  - intros rid r Hr. by destruct (k_referrer db Hok _ _ Hr).
  - intros k. cbn. rewrite (k_definition_refs db Hok). symmetry. by apply expected_definition_ext.
  - intros v x. cbn. intros [[<- <-]|[Hne Hx]]%lookup_insert_Some; [rewrite Hwk|]; by eapply (k_workers db Hok).
Qed.

(** The Worker version moved, and the reservations that this orphans are gone. *)
Definition moved_worker (db : ControlDb) (id : N) (w w' : WorkerVersionRow) : ControlDb :=
  let db1 := set_worker_versions <[id := w']> db in
  if decide (((w.(wv_state) = VStaging ∨ w.(wv_state) = VValidating) ∧ w'.(wv_state) = VRejected) ∨
             ((w.(wv_state) = VReady ∨ w.(wv_state) = VRejected) ∧ w'.(wv_state) = VDeleting))
  then release_orphans id w'.(wv_rejected_at_ms) db1 else db1.

Lemma update_worker_version_run id P `{!∀ w, Decision (P w)} f db db' b :
  update_worker_version id P f db = (db', Ok b) →
  (b = false ∧ db' = db) ∨
  (b = true ∧ ∃ w, db.(worker_versions) !! id = Some w ∧ P w ∧ db' = moved_worker db id w (f w)).
Proof.
  unfold update_worker_version, moved_worker. intros Hr. run_inv. subst.
  destruct (worker_versions db !! id) as [w|] eqn:Hw; [case_decide|]; run_inv; simplify_eq; [..|by left|by left].
  - right. split; [done|]. exists w. by rewrite decide_True.
  - right. split; [done|]. exists w. by rewrite decide_False.
Qed.

Lemma moved_worker_ok db id w w' :
  tables_ok db → db.(worker_versions) !! id = Some w → worker_columns w' = worker_columns w →
  tables_ok (moved_worker db id w w').
Proof.
  intros Hok Hw Hcol. destruct (put_worker_version_ok db id w w' Hok Hw Hcol) as [Hok1 _].
  unfold moved_worker. case_decide; [|done]. by apply release_orphans_ok.
Qed.

Lemma insert_worker_version_ok id w db db' u :
  tables_ok db → insert_worker_version id w db = (db', Ok u) →
  tables_ok db' ∧ db.(worker_versions) !! id = None ∧ db' = set_worker_versions <[id := w]> db.
Proof.
  unfold insert_worker_version. intros Hok Hr. cat_inv. destruct Hg as [Hwk Hnone]. subst db'.
  assert (Hkeep : ∀ v x, worker_versions db !! v = Some x → <[id:=w]> (worker_versions db) !! v = Some x).
  { intros v x Hx. rewrite lookup_insert_ne; [done|]. intros <-. congruence. }
  assert (Hlive : ∀ v, is_Some (worker_versions db !! v) →
    worker_live (set_worker_versions <[id := w]> db) v ↔ worker_live db v).
  { intros v [x Hx]. unfold worker_live. cbn. by rewrite (Hkeep _ _ Hx), Hx. }
  split; [|done]. constructor; try apply Hok.
  - intros id1 x1 Hx1. by destruct (k_definition db Hok _ _ Hx1).
  - intros vid v Hv. destruct (k_version db Hok _ _ Hv) as [Hc Hf Hd (x & Hx & Hx1)]. split; [done..|].
    exists x. split; [by apply Hkeep|done].
  - intros bid b Hb. destruct (k_binding db Hok _ _ Hb) as [Hc Hv Hg (d & Hd & Hr & Hl) Hx].
    split; [done..| |].
    + exists d. split; [done|]. split; [done|]. by rewrite Hlive.
    + destruct Hx as [x Hx]. exists x. by apply Hkeep.
  - intros rid r Hr. by destruct (k_referrer db Hok _ _ Hr).
  - intros k. cbn. rewrite (k_definition_refs db Hok). destruct k as [[dk [|]] bid]; cbn; [|done].
    destruct (bindings db !! bid) as [b|] eqn:Hb; cbn; [|done].
    pose proof (Hlive _ (bk_version _ _ _ (k_binding db Hok _ _ Hb))) as Hlb.
    do 2 case_decide; tauto || done.
  - intros v x. cbn. intros [[<- <-]|[Hne Hx]]%lookup_insert_Some; [done|]. by eapply (k_workers db Hok).
Qed.

(** ** Deletion of a Worker *)

Definition unavailable_if (db : ControlDb) (worker : N) (now_ms : Z) (d : DefinitionRow) : DefinitionRow :=
  if decide (runs_on db worker d) then
    {| d with availability := Unavailable; availability_code := Some (lit "WORKER_DELETED"); d_updated_at_ms := now_ms |}
  else d.
Definition without_worker (db : ControlDb) (worker : N) (now_ms : Z) : ControlDb :=
  {| db with workers := <[worker := Some now_ms]> db.(workers);
             definitions := unavailable_if db worker now_ms <$> db.(definitions);
             workflow_referrers := filter (λ kt, ¬ calls_from db worker kt.1) db.(workflow_referrers) |}.

Lemma require_live_worker_run instance worker db db' u :
  require_live_worker instance worker db = (db', Ok u) →
  db' = db ∧ owned db instance ∧ db.(workers) !! worker = Some None.
Proof.
  unfold require_live_worker, read_worker. intros Hr. run_inv. subst. case_decide; [|done]. split_and!; [done..|].
  destruct a as [t|]; [|done]. destruct Hg. by exists t.
Qed.

Lemma delete_worker_run instance worker now_ms db db' u :
  delete_worker instance worker now_ms db = (db', Ok u) →
  db.(workers) !! worker = Some None ∧ db' = without_worker db worker now_ms.
Proof.
  unfold delete_worker. intros Hr. run_inv.
  match goal with H : require_live_worker _ _ _ = _ |- _ => apply require_live_worker_run in H as (-> & _ & Hw) end.
  subst. split; [done|]. reflexivity.
Qed.

Lemma without_worker_ok db worker now_ms :
  tables_ok db → db.(workers) !! worker = Some None → tables_ok (without_worker db worker now_ms).
Proof.
  intros Hok Hw.
  assert (Hlive : ∀ v, worker_live (without_worker db worker now_ms) v ↔
    worker_live db v ∧ is_some_and (λ w, w.(wv_worker) ≠ worker) (db.(worker_versions) !! v)).
  { intros v. unfold worker_live. cbn. destruct (worker_versions db !! v) as [w|]; cbn; [|tauto].
    rewrite lookup_insert. case_decide; naive_solver. }
  assert (Hdef : ∀ id d', unavailable_if db worker now_ms <$> db.(definitions) !! id = Some d' →
    ∃ d, definitions db !! id = Some d ∧ d' = unavailable_if db worker now_ms d).
  { intros id d'. rewrite fmap_Some. naive_solver. }
  assert (Hsame : ∀ d, let d' := unavailable_if db worker now_ms d in
    d'.(d_name) = d.(d_name) ∧ d'.(d_state) = d.(d_state) ∧ d'.(pending) = d.(pending) ∧
    d'.(reservation_fence) = d.(reservation_fence) ∧ d'.(current_version_id) = d.(current_version_id)).
  { intros d. cbn. unfold unavailable_if. by destruct (decide _). }
  constructor; cbn; try apply Hok.
  - intros id d'. rewrite lookup_fmap. intros (d & Hd & ->)%Hdef.
    pose proof (k_definition db Hok _ _ Hd) as [Hc Hv Hcr Hrd Hcu].
    unfold unavailable_if. case_decide; [|done]. split; cbn; [|done..].
    destruct Hc as (?&?&?&?&?&?&?&?). split_and!; done.
  - intros vid v Hv. destruct (k_version db Hok _ _ Hv) as [Hc Hf (d & Hd & Hr) Hx]. split; [done..| |done].
    exists (unavailable_if db worker now_ms d). cbn. rewrite lookup_fmap, Hd. split; [done|].
    destruct (Hsame d) as (_ & _ & Hp & Hf' & _). eapply reserved_same; [|done..]. unfold pending_key. by rewrite Hp.
  - intros bid b Hb. destruct (k_binding db Hok _ _ Hb) as [Hc Hv Hg (d & Hd & Hr & Hl) Hx]. split; [done..| |done].
    exists (unavailable_if db worker now_ms d). cbn. rewrite lookup_fmap, Hd. split; [done|].
    destruct (Hsame d) as (_ & Hs & Hp & Hf' & _). rewrite Hs. split.
    + eapply reserved_same; [|done..]. unfold pending_key. by rewrite Hp.
    + rewrite Hlive. naive_solver.
  - intros rid r Hr. by destruct (k_referrer db Hok _ _ Hr).
  - intros k. apply option_eq. intros t. rewrite map_lookup_filter_Some, (k_definition_refs db Hok). unfold calls_from.
    destruct k as [[dk [|]] bid]; cbn; [|naive_solver].
    destruct (bindings db !! bid) as [b|] eqn:Hb; cbn; [|naive_solver].
    destruct (k_binding db Hok _ _ Hb) as [_ _ _ _ [x Hx]]. specialize (Hlive (b_version b)). rewrite Hx in *. cbn in *.
    do 2 case_decide; naive_solver.
  - intros id w Hwv. destruct (k_workers db Hok _ _ Hwv) as [t Ht]. rewrite lookup_insert. case_decide; eauto.
  - intros id id' d d'. rewrite !lookup_fmap. intros (d1 & Hd1 & ->)%Hdef (d2 & Hd2 & ->)%Hdef.
    destruct (Hsame d1) as (-> & -> & _). destruct (Hsame d2) as (-> & -> & _). by eapply (k_names db Hok).
Qed.

(** A new Worker. *)
Lemma insert_worker_ok db worker :
  tables_ok db → db.(workers) !! worker = None → tables_ok (set_workers <[worker := None]> db).
Proof.
  intros Hok Hnone.
  assert (Hkeep : ∀ v x, worker_versions db !! v = Some x →
    <[worker:=None]> (workers db) !! wv_worker x = workers db !! wv_worker x).
  { intros v x Hx. destruct (k_workers db Hok _ _ Hx) as [t Ht]. apply lookup_insert_ne. intros ->. congruence. }
  assert (Hlive : ∀ v, worker_live (set_workers <[worker := None]> db) v ↔ worker_live db v).
  { intros v. unfold worker_live. cbn. destruct (worker_versions db !! v) as [x|] eqn:Hx; [|done]. cbn.
    by rewrite (Hkeep _ _ Hx). }
  constructor; try apply Hok.
  - intros id1 x1 Hx1. by destruct (k_definition db Hok _ _ Hx1).
  - intros id1 x1 Hx1. by destruct (k_version db Hok _ _ Hx1).
  - intros bid b Hb. destruct (k_binding db Hok _ _ Hb) as [Hc Hv Hg (d & Hd & Hr & Hl) Hx]. split; [done..| |done].
    exists d. rewrite Hlive. done.
  - intros rid r Hr. by destruct (k_referrer db Hok _ _ Hr).
  - intros k. cbn. rewrite (k_definition_refs db Hok). symmetry. by apply expected_definition_ext.
  - intros v x Hx. cbn. rewrite (Hkeep _ _ Hx). by eapply (k_workers db Hok).
Qed.
End moves.
