(* ===== verification/WorkflowControlOps.v ===== *)
(** * Catalog transactions keep the invariant

    Definitions and versions: every committed transaction of [workflows.rs] and
    [workflows/versions.rs] takes an invariant catalog to an invariant catalog. *)

From stdpp Require Import base numbers list option strings sorting gmap.
From S2P Require Import Prelude Text ErrorCodes Duration RetryPolicy CronSlots WorkflowTypes Sql WorkflowDb WorkflowRuns WorkflowOperations WorkflowControl WorkflowCatalog WorkflowBindings WorkflowReservations WorkflowIntents WorkflowIntegrity WorkflowControlInv WorkflowControlMoves.

Local Open Scope Z_scope.

(** Reads a test as the proposition it decided. *)
Ltac bools :=
  repeat match goal with
  | H : ?b = bool_decide _ |- _ => symmetry in H
  | H : bool_decide _ = true |- _ => apply bool_decide_eq_true in H
  | H : bool_decide _ = false |- _ => apply bool_decide_eq_false in H
  | H : bool_decide _ ≠ true |- _ => apply not_true_is_false in H
  | H : bool_decide _ ≠ false |- _ => apply not_false_is_true in H
  end.

(** ** What the transaction invariants depend on *)

Lemma intents_ext db db' :
  db'.(referrers) = db.(referrers) → db'.(intents) = db.(intents) → intents_ok db → intents_ok db'.
Proof.
  intros Er Ei Hok. split; rewrite ?Er, ?Ei; [|apply Hok..].
  intros id o Ho. destruct (i_intent db Hok _ _ Ho) as [?? Hr]. split; [done..|]. by rewrite Er.
Qed.

Lemma consumed_ext db db' id o f :
  db'.(versions) = db.(versions) → db'.(bindings) = db.(bindings) → db'.(worker_versions) = db.(worker_versions) →
  consumed db' id o f ↔ consumed db id o f.
Proof. unfold consumed. by intros -> -> ->. Qed.

(** Only the pending reservations of the definitions changed, and each is an old one. *)
Lemma counted_ext db db' :
  db'.(versions) = db.(versions) → db'.(bindings) = db.(bindings) → db'.(worker_versions) = db.(worker_versions) →
  (∀ id d' p, db'.(definitions) !! id = Some d' → d'.(pending) = Some p →
     ∃ d, db.(definitions) !! id = Some d ∧ d.(pending) = Some p ∧ d.(reservation_fence) = d'.(reservation_fence)) →
  counted_ok db → counted_ok db'.
Proof.
  intros Ev Eb Ew Hd Hok id d' p Hd' Hp. destruct (Hd id d' p Hd' Hp) as (d & Hd0 & Hp0 & Hf).
  destruct (Hok id d p Hd0 Hp0) as [Hb Hj]. unfold counted_at. rewrite Ev, <-Hf. split; [|done]. rewrite Hb. symmetry. by apply consumed_ext.
Qed.

(** One definition changed, and it has no new reservation. *)
Lemma counted_put db id d d' :
  counted_ok db → db.(definitions) !! id = Some d →
  d'.(pending) = None ∨ (d'.(pending) = d.(pending) ∧ d'.(reservation_fence) = d.(reservation_fence)) →
  counted_ok (set_definitions <[id := d']> db).
Proof.
  intros Hok Hd Hp. apply (counted_ext db); try done. cbn.
  intros id1 d1 p [[<- <-]|[Hne Hd1]]%lookup_insert_Some Hp1; [|by exists d1].
  exists d. destruct Hp as [Hp|[Hp Hf]]; [congruence|]. split_and!; congruence.
Qed.

(** A reservation that no row was admitted under. *)
Lemma counted_reserve db id d' p :
  counted_ok db → d'.(pending) = Some p → p.(reservation_state) = Reserved →
  ¬ consumed db id p.(reservation_owner) d'.(reservation_fence) →
  (∀ vid v, db.(versions) !! vid = Some v → v.(v_definition) = id →
     v.(v_reservation) ≠ Some (p.(reservation_owner), d'.(reservation_fence))) →
  counted_ok (set_definitions <[id := d']> db).
Proof.
  intros Hok Hp Hs Hno Hv id1 d1 p1 Hd1 Hp1. cbn in Hd1. apply lookup_insert_Some in Hd1 as [[<- <-]|[Hne Hd1]].
  - rewrite Hp in Hp1. simplify_eq. split.
    + rewrite Hs. split; [done|]. intros Hc. exfalso. by apply Hno.
    + intros vid v Hvv Hvd Hvr. exfalso. by eapply Hv.
  - destruct (Hok id1 d1 p1 Hd1 Hp1). done.
Qed.

Section ops.
Context `{Codec, CronParser}.
Implicit Types db : ControlDb.

(** A committed run keeps the invariant. *)
Definition keeps {A} (m : CM A) : Prop := ∀ db db' x, control_ok db → m db = (db', Ok x) → control_ok db'.

Lemma keeps_lift {A B} (r : result PlatformError A) (k : A → CM B) :
  (∀ a, r = Ok a → keeps (k a)) → keeps (mbind k (lift r)).
Proof. intros Hk db db' x Hok Hr. run_inv. by eapply Hk. Qed.
Lemma keeps_throw_if {B} (P : Prop) `{!Decision P} e (k : unit → CM B) :
  (¬ P → keeps (k ())) → keeps (mbind k (throw_if P e)).
Proof. intros Hk db db' x Hok Hr. run_inv. destruct a. by eapply Hk. Qed.
Lemma keeps_transaction {A} (m : CM A) : keeps m → keeps (transaction m).
Proof. intros Hm db db' x Hok Hr. run_inv. by eapply Hm. Qed.

(** A change of one definition that keeps its reservation or ends it. *)
Lemma put_definition_control db id d d' :
  control_ok db → db.(definitions) !! id = Some d →
  (d'.(d_state) ≠ DTombstoned → name_free db id d'.(d_name)) →
  definition_ok db id d' ∧ redefines db id d d' →
  d'.(pending) = None ∨ (d'.(pending) = d.(pending) ∧ d'.(reservation_fence) = d.(reservation_fence)) →
  control_ok (set_definitions <[id := d']> db).
Proof.
  intros [Ht Hc Hi] Hd Hn [Hdk Hre] Hp. split.
  - apply put_definition_ok; [done..|]. by rewrite Hd.
  - by eapply counted_put.
  - by apply (intents_ext db).
Qed.

(** ** Definitions *)

Lemma named_definition_Some db instance name P w :
  named_definition db instance name P = Some w →
  owned db instance ∧ db.(definitions) !! w.(wd_id) = Some w.(wd_row) ∧ w.(wd_row).(d_name) = name ∧
  P w.(wd_row).(d_state) = true.
Proof.
  unfold named_definition. case_decide; [|done]. rewrite fmap_Some. intros ([id d] & Hf & ->).
  apply sql_find_Some in Hf as [Hin [Hn HP]]. apply elem_of_map_to_list in Hin. done.
Qed.
Lemma named_definition_None db instance name P :
  owned db instance → named_definition db instance name P = None →
  ∀ id d, db.(definitions) !! id = Some d → P d.(d_state) = true → d.(d_name) ≠ name.
Proof.
  unfold named_definition. intros Ho. rewrite decide_True by done. rewrite fmap_None, sql_find_None.
  intros Hno id d Hd HP Hn. apply (Hno (id, d)); [by apply elem_of_map_to_list|done].
Qed.

Lemma fresh_definition_ok db id name p fence now_ms :
  definition_check (fresh_definition name p fence now_ms) → is_ok (validate_workflow_name name) = true →
  is_none_or (λ q, is_ok (validate_class_name q.(reserved_class_name)) = true ∧ q.(reservation_owner) ≠ [] ∧
    str_len q.(reservation_owner) ≤ 128) p →
  definition_ok db id (fresh_definition name p fence now_ms).
Proof.
  intros Hc Hn Hp. split; try done. destruct Hc as (_ & _ & _ & _ & _ & Hp' & _ & _).
  split; [done|]. split; [done|]. split; [done|]. split; [done|]. cbn in *. destruct p as [q|]; [|done]. cbn in *.
  destruct Hp' as (_ & _ & Hf & _ & _). naive_solver.
Qed.

(** Nothing refers to an identity no definition has. *)
Lemma fresh_unused db id :
  tables_ok db → db.(definitions) !! id = None →
  (∀ vid v, db.(versions) !! vid = Some v → v.(v_definition) ≠ id) ∧
  (∀ bid b, db.(bindings) !! bid = Some b → b.(b_definition) ≠ id).
Proof.
  intros Hok Hno. split.
  - intros vid v Hv He. destruct (k_version db Hok _ _ Hv) as [_ _ (d & Hd & _) _]. congruence.
  - intros bid b Hb He. destruct (k_binding db Hok _ _ Hb) as [_ _ _ (d & Hd & _) _]. congruence.
Qed.

Lemma create_definition_keeps instance name id now_ms : keeps (create_definition instance name id now_ms).
Proof.
  unfold create_definition. apply keeps_lift. intros u Hname. apply keeps_transaction.
  intros db db' x [Ht Hc Hi] Hr. run_inv. unfold reread_definition in Hr. run_inv. subst.
  match goal with Hins : insert_definition _ _ _ = _ |- _ =>
    apply insert_definition_run in Hins as (_ & _ & Hchk & Hnone & Hfree & ->) end.
  split.
  - apply put_definition_ok; [done| |by intros _|by rewrite Hnone].
    apply fresh_definition_ok; [done| |done]. by rewrite Hname.
  - apply (counted_ext db); try done. cbn. intros id1 d1 p [[<- <-]|[Hne Hd1]]%lookup_insert_Some Hp; [done|by exists d1].
  - by apply (intents_ext db).
Qed.

(** A reservation under the next fence. *)
Lemma set_reserved_keeps db id d class_name owner now_ms :
  control_ok db → db.(definitions) !! id = Some d →
  is_ok (validate_class_name class_name) = true ∧ owner ≠ [] ∧ str_len owner ≤ 128 →
  let d' := set_reserved class_name owner (d.(reservation_fence) + 1) now_ms d in
  definition_check d' → (d'.(d_state) ≠ DTombstoned → name_free db id d'.(d_name)) →
  control_ok (set_definitions <[id := d']> db).
Proof.
  intros [Ht Hc Hi] Hd Hq d' Hchk Hfree. pose proof (k_definition db Ht _ _ Hd) as Hdk.
  assert (Hnew : ∀ r c f, reserved_under d r c → r ≠ Some (f, reservation_fence d + 1)).
  { intros r c f Hu ->. destruct (Hu _ _ eq_refl). lia. }
  assert (Hpl : definition_ok db id d' ∧ redefines db id d d').
  { apply plain_change; try done.
    - destruct (dk_valid _ _ _ Hdk) as (Hv1 & Hv2 & Hv3 & Hv4 & _).
      destruct Hchk as (_ & _ & _ & _ & _ & Hp & _ & _). cbn in Hp. unfold definition_valid. cbn. naive_solver.
    - intros r c. apply reserved_bumped. cbn. lia. }
  split.
  - apply put_definition_ok; [done|apply Hpl|done|]. rewrite Hd. apply Hpl.
  - eapply counted_reserve; [done|done|done|..]; cbn.
    + intros [(bid & b & Hb & Hbd & Hbr & _)|(vid & v & Hv & Hvd & Hvr & _)].
      * destruct (k_binding db Ht _ _ Hb) as [_ _ _ (d1 & Hd1 & Hu & _) _]. rewrite Hbd in Hd1. simplify_eq.
        by eapply Hnew.
      * destruct (k_version db Ht _ _ Hv) as [_ _ (d1 & Hd1 & Hu) _]. rewrite Hvd in Hd1. simplify_eq.
        by eapply Hnew.
    + intros vid v Hv Hvd. destruct (k_version db Ht _ _ Hv) as [_ _ (d1 & Hd1 & Hu) _]. rewrite Hvd in Hd1.
      simplify_eq. by eapply Hnew.
  - by apply (intents_ext db).
Qed.

Lemma reserve_definition_keeps instance name class_name owner id now_ms :
  keeps (reserve_definition instance name class_name owner id now_ms).
Proof.
  unfold reserve_definition. apply keeps_lift. intros u Hname. apply keeps_lift. intros u' Hcls.
  apply keeps_throw_if. intros Hown. apply keeps_transaction.
  assert (Hq : is_ok (validate_class_name class_name) = true ∧ owner ≠ [] ∧ str_len owner ≤ 128).
  { rewrite Hcls. split_and!; [done|tauto|]. apply Z.nlt_ge. tauto. }
  intros db db' x Hok Hr. run_inv. subst. unfold reread_definition in *.
  match goal with H : (match ?o with _ => _ end) _ = _ |- _ => destruct o as [w|] eqn:Hw end.
  - apply named_definition_Some in Hw as (Ho & Hd & Hn & Hs). run_inv; [done|]. subst.
    match goal with H : update_definition _ _ _ _ _ = _ |- _ =>
      apply update_definition_run in H as [(-> & -> & _)|(-> & d & Hd' & HP & Hg' & ->)] end; [done|].
    rewrite Hd in Hd'. simplify_eq. unfold i64_checked in *. case_decide; simplify_eq.
    destruct Hg' as (_ & Hchk & Hfree & _). by apply set_reserved_keeps.
  - run_inv. subst. destruct Hok as [Ht Hc Hi].
    match goal with Hins : insert_definition _ _ _ = _ |- _ =>
      apply insert_definition_run in Hins as (_ & _ & Hchk & Hnone & Hfree & ->) end.
    destruct (fresh_unused db id Ht Hnone) as [Hnv Hnb]. split.
    + apply put_definition_ok; [done| |by intros _|by rewrite Hnone].
      apply fresh_definition_ok; [done| |done]. by rewrite Hname.
    + eapply counted_reserve; [done|done|done|..]; cbn.
      * intros [(bid & b & Hb & Hbd & _)|(vid & v & Hv & Hvd & _)]; [by eapply Hnb|by eapply Hnv].
      * intros vid v Hv Hvd. by destruct (Hnv _ _ Hv).
    + by apply (intents_ext db).
Qed.

(** A change of a definition that leaves state and version alone and keeps or ends its reservation. *)
Lemma update_plain_keeps instance id P `{!∀ d, Decision (P d)} f db db' b :
  control_ok db → update_owned instance false id P f db = (db', Ok b) →
  (∀ d, (f d).(d_state) = d.(d_state) ∧ (f d).(current_version_id) = d.(current_version_id) ∧
        (f d).(lifecycle_generation) = d.(lifecycle_generation) ∧ (f d).(reservation_fence) = d.(reservation_fence) ∧
        ((f d).(pending) = None ∨ (f d).(pending) = d.(pending))) →
  (∀ d, is_ok (validate_workflow_name d.(d_name)) = true → is_ok (validate_workflow_name (f d).(d_name)) = true) →
  control_ok db'.
Proof.
  intros Hok Hr Hf Hn. apply update_owned_run in Hr as [(_ & -> & _)|(_ & d & Hd & _ & (_ & Hc & Hfree & _) & ->)]; [done|].
  destruct (Hf d) as (Hs & Hcur & Hl & Hfe & Hp).
  pose proof (dk_valid _ _ _ (k_definition db (co_tables db Hok) _ _ Hd)) as Hv.
  eapply put_definition_control; [done..| |naive_solver].
  apply (plain_change db id d); try done; [by apply Hok|..].
  - apply (valid_keep d); try done; [by apply Hn, Hv|]. unfold pending_key. destruct Hp as [Hp|Hp]; rewrite Hp; auto.
  - intros r c. destruct Hp as [Hp|Hp]; [apply reserved_cleared; [done|lia]|].
    apply reserved_same; [|done]. unfold pending_key. by rewrite Hp.
Qed.

Lemma rename_keeps instance id name now_ms : keeps (rename instance id name now_ms).
Proof.
  unfold rename. apply keeps_lift. intros u Hname. apply keeps_transaction. intros db db' x Hok Hr. run_inv.
  unfold reread_definition in *. run_inv. subst. eapply update_plain_keeps; [done|done|by intros; auto 10|].
  intros d _. cbn. by rewrite Hname.
Qed.

Lemma mark_unavailable_keeps instance id now_ms : keeps (mark_unavailable instance id now_ms).
Proof.
  unfold mark_unavailable. apply keeps_transaction. intros db db' x Hok Hr. run_inv. subst.
  eapply update_plain_keeps; [done|done|by intros; auto 10|done].
Qed.

(** A change that closes an open definition without callers, or a step of a closed one. *)
Lemma update_closing_keeps instance id P `{!∀ d, Decision (P d)} f db db' b :
  control_ok db → update_owned instance true id P f db = (db', Ok b) →
  (∀ d, db.(definitions) !! id = Some d → P d →
     open_state (f d).(d_state) = false ∧
     ((f d).(current_version_id) = d.(current_version_id) ∨ (f d).(current_version_id) = None) ∧
     (f d).(d_name) = d.(d_name) ∧ (f d).(lifecycle_generation) = d.(lifecycle_generation) ∧
     (f d).(reservation_fence) = d.(reservation_fence) ∧
     (open_state d.(d_state) = true → ∀ bid, db.(workflow_referrers) !! (id, OfBinding, bid) = None)) →
  control_ok db'.
Proof.
  intros Hok Hr Hf. apply update_owned_run in Hr as [(_ & -> & _)|(_ & d & Hd & HP & (_ & Hc & Hfree & _) & ->)]; [done|].
  destruct (Hf d Hd HP) as (Hs & Hcur & Hn & Hl & Hfe & Hno).
  pose proof (dk_valid _ _ _ (k_definition db (co_tables db Hok) _ _ Hd)) as Hv.
  assert (Hp : (f d).(pending) = None).
  { destruct Hc as (_ & _ & _ & _ & _ & Hp & _). destruct (pending (f d)); [|done]. cbn in Hp.
    destruct Hp as (_ & _ & _ & Ho & _). congruence. }
  eapply put_definition_control; [done..| |by left]. apply (closing_change db id d); try done; [by apply Hok|..].
  - apply (valid_keep d); [done..| |by left]. rewrite Hn. apply Hv.
  - intros r c. apply reserved_cleared; [done|lia].
Qed.

Lemma unbound_refs db id :
  tables_ok db → (∀ bid b, db.(bindings) !! bid = Some b → b.(b_definition) ≠ id) →
  ∀ bid, db.(workflow_referrers) !! (id, OfBinding, bid) = None.
Proof.
  intros Hok Hno bid. rewrite (k_definition_refs db Hok). cbn. destruct (bindings db !! bid) as [b|] eqn:Hb; [|done].
  cbn. rewrite decide_False; [done|]. intros [He _]. by eapply Hno.
Qed.

Lemma release_definition_reservation_keeps instance r now_ms :
  keeps (release_definition_reservation instance r now_ms).
Proof.
  unfold release_definition_reservation. apply keeps_transaction. intros db db' x Hok Hr. run_inv.
  match goal with H : (match ?o with _ => _ end) _ = _ |- _ => destruct o as [cur|] end; cat_inv; subst; bools; try done.
  all: try match goal with Hu : update_owned _ _ _ (λ d, _ ∧ _ ∧ _) _ _ = (?s1, _) |- _ => assert (control_ok s1) end.
  1, 3: eapply update_closing_keeps; [exact Hok|eassumption|]; intros d1 Hd1 HP; cbn; split_and!; auto; intros _;
    apply unbound_refs; [by apply Hok|]; intros bid b Hb He;
    match goal with H : ¬ has_consumers _ _ |- _ => apply H end; left; by exists bid, b.
  - eapply update_closing_keeps; [eassumption|eassumption|]. intros d1 Hd1 HP. cbn. rewrite HP. split_and!; auto. done.
  - done.
  - eapply update_plain_keeps; [done|done|by intros; auto 10|done].
Qed.

(** ** Versions *)

(** A version that was settled leaves the pending reservations counted. *)
Lemma counted_version db id v v' :
  counted_ok db → db.(versions) !! id = Some v → version_columns v' = version_columns v →
  v.(v_state) = VReady ∨ v.(v_state) = VRejected ∨ retired v.(v_state) = true →
  retired v'.(v_state) = true → counted_ok (after_version db id v v').
Proof.
  intros Hok Hv Hcol Hs Hs' did d p Hd Hp.
  pose proof (after_version_frame db id v v') as (_ & _ & Ewv & Ed & Evs & Eb & _).
  rewrite Ed in Hd. destruct (Hok did d p Hd Hp) as [Hb Hj].
  unfold version_columns in Hcol. injection Hcol as Hdef Hnum Hwk Hwv Hcl Hre _ _ _ _ _.
  assert (Hold : v.(v_definition) = did → v.(v_reservation) = Some (reservation_owner p, reservation_fence d) →
    v.(v_state) ≠ VValidating ∧ active v.(v_state) = false).
  { intros E1 E2. destruct (Hj id v Hv E1 E2) as [Hst _].
    destruct Hs as [Hs|[Hs|Hs]], Hst as [Hst|[Hst|Hst]]; destruct (v_state v); done. }
  assert (active v'.(v_state) = false) as Ha by (by destruct (v_state v')).
  split.
  - rewrite Hb. unfold consumed. rewrite Eb, Ewv, Evs. f_equiv. split; intros (vid & x & Hx & E1 & E2 & E3).
    + exists vid, x. split_and!; try done. rewrite lookup_insert_ne; [done|]. intros <-.
      rewrite Hv in Hx. injection Hx as <-. destruct (Hold E1 E2). congruence.
    + apply lookup_insert_Some in Hx as [[<- <-]|[Hne Hx]]; [congruence|]. by exists vid, x.
  - intros vid x Hx E1 E2. rewrite Evs in *. assert (∃ x0, versions db !! vid = Some x0 ∧ v_definition x0 = did ∧
      v_reservation x0 = Some (reservation_owner p, reservation_fence d) ∧ (x0 = x ∨ retired (v_state x) = true))
      as (x0 & Hx0 & E3 & E4 & E5).
    { apply lookup_insert_Some in Hx as [[<- <-]|[Hne Hx]]; [exists v|exists x]; split_and!; auto; congruence. }
    destruct (Hj vid x0 Hx0 E3 E4) as [Hst (vid' & w & Hw & W1 & W2 & W3)]. split; [naive_solver|].
    exists vid', w. split_and!; try done. rewrite lookup_insert_ne; [done|]. intros <-.
    rewrite Hv in Hw. injection Hw as <-. by destruct (Hold W1 W2).
Qed.

(** The statements that retire a settled version. *)
Lemma retire_keeps id P `{!∀ v, Decision (P v)} f db db' b :
  control_ok db → update_version id P f db = (db', Ok b) → (∀ v, version_columns (f v) = version_columns v) →
  (∀ v, db.(versions) !! id = Some v → P v →
     (v.(v_state) = VReady ∨ v.(v_state) = VRejected ∨ retired v.(v_state) = true) ∧ retired (f v).(v_state) = true) →
  control_ok db'.
Proof.
  intros [Ht Hc Hi] Hr Hcol Hs. split; [by eapply update_version_ok| |].
  - apply update_version_run in Hr as [(_ & -> & _)|(_ & v & Hv & HP & _ & _ & _ & _ & ->)]; [done|].
    destruct (Hs v Hv HP). by apply counted_version.
  - apply update_version_run in Hr as [(_ & -> & _)|(_ & v & _ & _ & _ & _ & _ & _ & ->)]; [done|].
    apply (intents_ext db); [apply after_version_frame..|done].
Qed.

Lemma update_versions_of_keeps id P `{!∀ v, Decision (P v)} f :
  (∀ v, version_columns (f v) = version_columns v) →
  (∀ v, P v → (v.(v_state) = VReady ∨ v.(v_state) = VRejected ∨ retired v.(v_state) = true) ∧
              retired (f v).(v_state) = true) →
  keeps (update_versions_of id P f).
Proof.
  intros Hcol Hs db db' x Hok Hr. unfold update_versions_of in Hr. run_inv. subst.
  match goal with Hl : for_each _ _ _ = _ |- _ => eapply (for_each_inv control_ok) in Hl; [done| |done] end.
  intros vid s1 s2 y _ Hs1 Hu. eapply retire_keeps; [done|exact Hu|done|]. intros v _ [_ HP]. by apply Hs.
Qed.

Lemma finalize_definition_delete_keeps instance id fence now_ms :
  keeps (finalize_definition_delete instance id fence now_ms).
Proof.
  intros db db' x Hok Hr. unfold finalize_definition_delete, reread_definition in Hr. run_inv; subst; [done|].
  repeat match goal with
  | Hk : control_ok ?s1, Hu : update_owned _ _ _ _ _ ?s1 = _ |- _ =>
      eapply update_closing_keeps in Hu; [|exact Hk|];
        [clear Hk|intros d1 Hd1 [HP1 HP2]; cbn; rewrite ?HP1; split_and!; auto; done]
  | Hk : control_ok ?s1, Hu : update_versions_of _ _ _ ?s1 = _ |- _ =>
      eapply update_versions_of_keeps in Hu; [clear Hk|done| |exact Hk];
        [|first [intros v [Hv|Hv]; cbn; rewrite Hv; by auto | intros v Hv; cbn; rewrite Hv; by auto]]
  end; done.
Qed.

Lemma delete_definition_keeps instance id now_ms : keeps (delete_definition instance id now_ms).
Proof.
  unfold delete_definition. apply keeps_transaction. intros db db' x Hok Hr. run_inv; subst; [done|..].
  all: eapply finalize_definition_delete_keeps; [|eassumption]; try done. bools.
  eapply update_closing_keeps; [done|eassumption|]. intros d1 Hd1 HP. cbn. split_and!; auto. intros _ bid.
  apply eq_None_not_Some. intros [t Ht].
  match goal with Hn : ¬ referenced _ _ |- _ => apply Hn end. left. by do 2 eexists.
Qed.

Lemma begin_definition_delete_keeps instance name now_ms : keeps (begin_definition_delete instance name now_ms).
Proof.
  unfold begin_definition_delete. apply keeps_lift. intros u Hname. apply keeps_transaction.
  intros db db' x Hok Hr. unfold reread_definition in Hr. run_inv; subst; [done|]. bools.
  eapply update_closing_keeps; [done|eassumption|]. intros d1 Hd1 HP. cbn. split_and!; auto. intros _ bid.
  apply eq_None_not_Some. intros [t Ht].
  match goal with Hn : ¬ (_ ∨ _) |- _ => apply Hn end. right. left. by do 2 eexists.
Qed.

Lemma finish_definition_delete_keeps instance intent now_ms : keeps (finish_definition_delete instance intent now_ms).
Proof.
  unfold finish_definition_delete. apply keeps_throw_if. intros _. apply keeps_transaction.
  apply finalize_definition_delete_keeps.
Qed.

Definition settled (v : VersionRow) : Prop :=
  v.(v_state) = VReady ∨ v.(v_state) = VRejected ∨ retired v.(v_state) = true.

Lemma retire_version_keeps now_ms id db db' u :
  control_ok db → (∀ v, db.(versions) !! id = Some v → settled v) → retire_version now_ms id db = (db', Ok u) →
  control_ok db' ∧ ∀ vid v, db'.(versions) !! vid = Some v → db.(versions) !! vid = Some v ∨ settled v.
Proof.
  unfold retire_version. intros Hok Hs Hr. run_inv. subst.
  match goal with H1 : update_version id _ (set_version_state _) _ = _ |- _ => rename H1 into Hu end.
  match goal with H1 : update_version id _ (set_version_tombstoned _) _ = _ |- _ => rename H1 into Hu' end.
  assert (Hst : ∀ f s1 s2 b, update_version id (λ _, True) f s1 = (s2, Ok b) → (∀ v, retired (f v).(v_state) = true) →
    ∀ vid v, s2.(versions) !! vid = Some v → s1.(versions) !! vid = Some v ∨ settled v).
  { clear. intros f s1 s2 b [(_ & -> & _)|(_ & v & _ & _ & _ & _ & _ & _ & ->)]%update_version_run Hf vid w; [auto|].
    destruct (after_version_frame s1 id v (f v)) as (_ & _ & _ & _ & -> & _).
    intros [[<- <-]|[_ ?]]%lookup_insert_Some; [right; right; right; apply Hf|auto]. }
  assert (control_ok s) as Hok1.
  { eapply retire_keeps; [exact Hok|exact Hu|done|]. intros v Hv _. split; [by apply Hs|done]. }
  split; [|intros vid v Hv; destruct (Hst _ _ _ _ Hu' ltac:(done) _ _ Hv) as [Hv'|]; [|auto]; by eapply Hst].
  eapply retire_keeps; [exact Hok1|exact Hu'|done|]. intros v Hv _. split; [|done].
  destruct (Hst _ _ _ _ Hu ltac:(done) _ _ Hv) as [Hv'|]; [|done]. by apply Hs.
Qed.

Lemma retire_unused_versions_keeps limit now_ms : keeps (retire_unused_versions limit now_ms).
Proof.
  unfold retire_unused_versions. apply keeps_throw_if. intros _. apply keeps_transaction.
  intros db db' x Hok Hr. run_inv. subst.
  match goal with Hl : for_each _ (unused_versions _ _) _ = _ |- _ =>
    eapply (for_each_inv (λ s, control_ok s ∧ ∀ id v, id ∈ unused_versions db limit → s.(versions) !! id = Some v →
      settled v)) in Hl as [? _]; [done|..] end.
  - intros id s1 s2 y Hid [Hs1 Hset] Hu. destruct (retire_version_keeps _ _ _ _ _ Hs1 (λ v, Hset id v Hid) Hu) as [Hs2 Hv].
    split; [done|]. intros id' v Hid' Hv'. destruct (Hv _ _ Hv'); [by eapply Hset|done].
  - split; [done|]. intros id v Hid Hv. unfold unused_versions in Hid.
    apply list_elem_of_fmap in Hid as ([id' v'] & -> & Hin). apply subseteq_take in Hin. cbn in *.
    apply elem_of_order_by, list_elem_of_filter in Hin as [[Hst _] Hin]. apply elem_of_map_to_list in Hin. simplify_eq.
    unfold settled. naive_solver.
Qed.

(** What a reservation's count depends on: the rows under it. *)
Lemma counted_at_ext db db' id d p :
  db'.(bindings) = db.(bindings) → db'.(worker_versions) = db.(worker_versions) →
  (∀ vid v, v.(v_definition) = id → v.(v_reservation) = Some (p.(reservation_owner), d.(reservation_fence)) →
     db'.(versions) !! vid = Some v ↔ db.(versions) !! vid = Some v) →
  counted_at db id d p → counted_at db' id d p.
Proof.
  intros Eb Ew Hv [Hb Hj]. split.
  - rewrite Hb. unfold consumed. rewrite Eb, Ew. f_equiv.
    split; intros (vid & x & Hx & E1 & E2 & E3); exists vid, x; split_and!; auto; by apply Hv.
  - intros vid v Hvv E1 E2. destruct (Hj vid v) as [Hs (vid' & v' & Hv' & E3 & E4 & E5)]; [by apply Hv|done..|].
    split; [done|]. exists vid', v'. split_and!; auto. by apply Hv.
Qed.

(** A version under no pending reservation changes freely. *)
Lemma counted_unpinned db id v v' :
  counted_ok db → db.(versions) !! id = Some v → version_columns v' = version_columns v →
  (∀ d p, db.(definitions) !! v.(v_definition) = Some d → d.(pending) = Some p →
     v.(v_reservation) ≠ Some (p.(reservation_owner), d.(reservation_fence))) →
  counted_ok (after_version db id v v').
Proof.
  intros Hok Hv Hcol Hno did d p Hd Hp.
  pose proof (after_version_frame db id v v') as (_ & _ & Ewv & Ed & Evs & Eb & _). rewrite Ed in Hd.
  unfold version_columns in Hcol. injection Hcol as Hdef _ _ _ _ Hre _ _ _ _ _.
  apply (counted_at_ext db); [done..| |by apply Hok]. intros vid x E1 E2. rewrite Evs, lookup_insert_Some.
  destruct (decide (vid = id)) as [->|Hne]; [|naive_solver]. rewrite Hv. split.
  - intros [[_ <-]|[]]; [|done]. destruct (Hno d p); congruence.
  - intros [= ->]. destruct (Hno d p); congruence.
Qed.

(** A version moves as the reservation of its definition ends. *)
Lemma counted_cleared db id v v' d' :
  counted_ok db → db.(versions) !! id = Some v → version_columns v' = version_columns v → d'.(pending) = None →
  counted_ok (set_definitions <[v.(v_definition) := d']> (after_version db id v v')).
Proof.
  intros Hok Hv Hcol Hp' did d p Hd Hp. cbn in Hd.
  pose proof (after_version_frame db id v v') as (_ & _ & Ewv & Ed & Evs & Eb & _). rewrite Ed in Hd.
  unfold version_columns in Hcol. injection Hcol as Hdef _ _ _ _ Hre _ _ _ _ _.
  apply lookup_insert_Some in Hd as [[<- <-]|[Hne Hd]]; [congruence|].
  apply (counted_at_ext db); [done..| |by apply Hok]. cbn. intros vid x E1 E2. rewrite Evs, lookup_insert_Some.
  destruct (decide (vid = id)) as [->|]; [|naive_solver]. rewrite Hv. split.
  - intros [[_ <-]|[]]; congruence.
  - intros [= ->]. congruence.
Qed.

Lemma read_version_Some db id w :
  read_version db id = Some w →
  ∃ v d, db.(versions) !! id = Some v ∧ db.(definitions) !! v.(v_definition) = Some d ∧
    w = {| vr_target := version_target db id v d.(d_name); vr_number := v.(version_number); vr_state := v.(v_state);
           vr_created_at_ms := v.(v_created_at_ms); vr_rejection_code := v.(rejection_code);
           vr_reservation := v.(v_reservation) |}.
Proof.
  unfold read_version, version_row. destruct (versions db !! id) as [v|]; cbn; [|done].
  destruct (definitions db !! v_definition v) as [d|] eqn:Hd; cbn; [|done]. intros [= <-]. by exists v, d.
Qed.

Lemma read_definition_Some db instance id w :
  read_definition db instance id = Some w →
  owned db instance ∧ db.(definitions) !! id = Some w.(wd_row) ∧ w.(wd_id) = id ∧ w.(wd_instance) = instance.
Proof.
  unfold read_definition. case_decide as Ho; [|done]. rewrite fmap_Some. intros (d & Hd & ->). cbn. by rewrite Ho.
Qed.

Lemma update_version_intents id P `{!∀ v, Decision (P v)} f db db' b :
  intents_ok db → update_version id P f db = (db', Ok b) → intents_ok db'.
Proof.
  intros Hi [(_ & -> & _)|(_ & v & _ & _ & _ & _ & _ & _ & ->)]%update_version_run; [done|].
  apply (intents_ext db); [apply after_version_frame..|done].
Qed.

(** The published version becomes current, and its reservation ends. *)
Lemma set_current_ok db id did d now_ms :
  tables_ok db → db.(definitions) !! did = Some d → definition_update_ok true db did d (set_current id now_ms d) →
  tables_ok (set_definitions <[did := set_current id now_ms d]> db).
Proof.
  intros Hok Hd (_ & Hc & Hfree & Hw). destruct (Hw eq_refl) as (_ & _ & Hcur).
  specialize (Hcur (or_intror eq_refl)). unfold current_ready in Hcur. cbn in Hcur.
  destruct (versions db !! id) as [v|] eqn:Hv; [|done]. destruct Hcur as [Hvd Hvs].
  pose proof (dk_valid _ _ _ (k_definition db Hok _ _ Hd)) as Hval.
  apply put_definition_ok; [done| |done|rewrite Hd].
  - split; [done| |done|done|].
    + apply (valid_keep d); [done..| |by left]. apply Hval.
    + cbn. intros c [= <-]. by exists v.
  - split; [|done]. intros r c. by apply reserved_cleared.
Qed.

Lemma publish_version_keeps id w v d now_ms db db' u :
  control_ok db → db.(versions) !! id = Some v → db.(definitions) !! v.(v_definition) = Some d →
  w.(vr_reservation) = v.(v_reservation) → w.(vr_target).(definition_id) = v.(v_definition) →
  publish_version id w now_ms db = (db', Ok u) → control_ok db'.
Proof.
  intros [Ht Hc Hi] Hv Hd Er Edid Hr. unfold publish_version in Hr. run_inv. rewrite Edid in *. rewrite Er in *.
  match goal with H1 : update_version _ _ _ _ = (?s1, _) |- _ => rename H1 into Hu;
    pose proof (update_version_ok _ _ _ _ _ _ Ht Hu (λ _, eq_refl)) as Ht1;
    pose proof (update_version_intents _ _ _ _ _ _ Hi Hu) as Hi1 end.
  match goal with H1 : update_definition _ _ _ _ _ = _ |- _ =>
    apply update_definition_run in H1 as [(-> & -> & _)|(-> & d1 & Hd1 & HP & Hg1 & ->)] end.
  - split; [done| |done]. apply update_version_run in Hu as [(_ & -> & _)|(_ & v0 & Hv0 & _ & _ & _ & _ & _ & ->)]; [done|].
    simplify_eq. apply counted_unpinned; [done..|]. intros d0 p0 _ _ E. destruct Hg. by rewrite E.
  - split; [by apply set_current_ok| |by apply (intents_ext s)].
    apply update_version_run in Hu as [(_ & -> & _)|(_ & v0 & Hv0 & _ & _ & _ & _ & _ & ->)].
    + eapply counted_put; [done..|by left].
    + simplify_eq. by apply counted_cleared.
Qed.

(** One of several versions under a reservation is rejected. *)
Lemma counted_rejected db id v v' owner fence :
  counted_ok db → db.(versions) !! id = Some v → version_columns v' = version_columns v →
  v.(v_reservation) = Some (owner, fence) → v'.(v_state) = VRejected →
  map_Exists (λ id' r, r.(v_definition) = v.(v_definition) ∧ r.(v_reservation) = Some (owner, fence) ∧
    id' ≠ id ∧ active r.(v_state) = true) (after_version db id v v').(versions) →
  counted_ok (after_version db id v v').
Proof.
  intros Hok Hv Hcol Er Hs' (oid & o & Ho & O1 & O2 & O3 & O4) did d p Hd Hp.
  pose proof (after_version_frame db id v v') as (_ & _ & Ewv & Ed & Evs & Eb & _). rewrite Ed in Hd.
  rewrite Evs, lookup_insert_ne in Ho by done.
  unfold version_columns in Hcol. injection Hcol as Hdef _ _ _ _ Hre _ _ _ _ _.
  destruct (decide (v.(v_definition) = did ∧ (owner, fence) = (reservation_owner p, reservation_fence d)))
    as [[<- [= -> ->]]|Hne].
  - destruct (Hok _ d p Hd Hp) as [Hb Hj]. destruct (Hj oid o Ho O1 O2) as [Hos _].
    assert (v_state o = VValidating) as Hval.
    { destruct Hos as [|[E|E]]; [done|..]; destruct (v_state o); done. }
    assert (Ho' : <[id:=v']> (versions db) !! oid = Some o) by (by rewrite lookup_insert_ne).
    split.
    + rewrite Hb. unfold consumed. rewrite Eb, Ewv, Evs.
      split; intros [?|_]; auto; right; exists oid, o; auto.
    + intros vid x Hx E1 E2. rewrite Evs in *. split; [|exists oid, o; auto].
      apply lookup_insert_Some in Hx as [[<- <-]|[_ Hx]]; [auto|]. by apply (Hj vid x).
  - apply (counted_at_ext db); [done..| |by apply Hok]. intros vid x E1 E2. rewrite Evs, lookup_insert_Some.
    destruct (decide (vid = id)) as [->|]; [|naive_solver]. rewrite Hv. split.
    + intros [[_ <-]|[]]; [|done]. destruct Hne. split; congruence.
    + intros [= ->]. destruct Hne. split; congruence.
Qed.

Lemma reject_version_keeps instance id w v d is_current now_ms db db' u :
  control_ok db → db.(versions) !! id = Some v → v.(v_state) = VValidating →
  db.(definitions) !! v.(v_definition) = Some d →
  w.(vr_reservation) = v.(v_reservation) → w.(vr_target).(definition_id) = v.(v_definition) →
  is_current = bool_decide (reservation_is_current w d) → w.(vr_target).(class_name) = v.(v_class_name) →
  reject_version instance id w is_current now_ms db = (db', Ok u) → control_ok db'.
Proof.
  intros [Ht Hc Hi] Hv Hs Hd Er Edid Hcur Ecls Hr. unfold reject_version in Hr. run_inv. rewrite Edid in *.
  match goal with H1 : update_version _ _ _ _ = (?s1, _) |- _ => rename H1 into Hu;
    pose proof (update_version_ok _ _ _ _ _ _ Ht Hu (λ _, eq_refl)) as Ht1;
    pose proof (update_version_intents _ _ _ _ _ _ Hi Hu) as Hi1 end.
  apply update_version_run in Hu as [(_ & -> & Hn)|(_ & v0 & Hv0 & _ & _ & _ & _ & _ & ->)].
  { rewrite Hv in Hn. by destruct Hn. }
  rewrite Hv in Hv0. injection Hv0 as <-.
  assert (Hout : ¬ reservation_is_current w d → counted_ok (after_version db id v (set_version_rejected now_ms v))).
  { intros Hno. apply counted_unpinned; [done..|]. intros d0 p0 Hd0 Hp0 E. assert (d0 = d) as -> by congruence.
    destruct (vk_definition _ _ _ (k_version db Ht _ _ Hv)) as (d1 & Hd1 & Hu). assert (d1 = d) as -> by congruence.
    destruct (Hu _ _ E) as [_ Hcls]. apply Hno. unfold reservation_is_current. rewrite Er, E, Ecls.
    assert (holds_reservation (reservation_owner p0) (reservation_fence d) d) as Hh by (split; [by rewrite Hp0|done]).
    auto. }
  destruct (vr_reservation w) as [[owner fence]|] eqn:Ew; [destruct is_current|].
  - symmetry in Hcur. apply bool_decide_eq_true in Hcur. unfold reservation_is_current in Hcur. rewrite Ew in Hcur.
    run_inv. cat_inv; bools; subst.
    + split; [done| |done]. by eapply counted_rejected.
    + match goal with H1 : update_owned _ _ _ _ _ _ = _ |- _ =>
        apply update_owned_run in H1 as [(-> & _ & _)|(-> & d1 & Hd1 & _ & (_ & Hck & Hfree & _) & ->)] end; [done|].
      assert (d_open : definition_ok _ _ _ ∧ redefines _ _ _ _) by
        (apply (plain_change _ _ d1 (set_unreserved now_ms d1) Ht1 Hd1 Hck); try done;
         [eapply (valid_keep d1); [|done..| |by left]|intros r c; by apply reserved_cleared];
         apply (k_definition _ Ht1 _ _ Hd1)).
      split; [|by apply counted_cleared|by apply (intents_ext (after_version db id v (set_version_rejected now_ms v)))].
      apply put_definition_ok; [done|apply d_open|done|]. rewrite Hd1. apply d_open.
  - run_inv. subst. split; [done| |done]. apply Hout. by bools.
  - run_inv. subst. split; [done| |done]. apply counted_unpinned; [done..|]. intros ????. congruence.
Qed.

Lemma finish_version_keeps instance id accepted now_ms : keeps (finish_version instance id accepted now_ms).
Proof.
  unfold finish_version. apply keeps_transaction. intros db db' x Hok Hr. unfold reread_definition in Hr.
  run_inv; subst; [done|].
  match goal with H1 : (if decide (owned _ _) then _ else _) = Some ?w |- _ =>
    rename w into w0, H1 into Hw; case_decide; [|done] end.
  apply read_version_Some in Hw as (v & d & Hv & Hdef & ->).
  match goal with H1 : read_definition _ _ _ = Some ?w |- _ => rename w into wd, H1 into Hwd end.
  apply read_definition_Some in Hwd as (_ & Hwd & _). cbn in Hwd. rewrite Hdef in Hwd. injection Hwd as ->.
  match goal with H1 : ¬ (_ ≠ VValidating) |- _ => apply dec_stable in H1; cbn in H1; rename H1 into Hval end.
  match goal with H1 : (if _ && _ then _ else _) _ = (?s1, Ok _) |- _ =>
    assert (control_ok s1); [destruct accepted; cbn [andb] in H1; [destruct (bool_decide _) eqn:E in H1|]|done] end.
  - eapply publish_version_keeps; [..|eassumption]; done.
  - eapply reject_version_keeps; [..|eassumption]; done.
  - eapply reject_version_keeps; [..|eassumption]; done.
Qed.

(** A reservation that admits a row is bound. *)
Lemma mark_bound_ok db id d now_ms :
  tables_ok db → db.(definitions) !! id = Some d → definition_check (mark_bound now_ms d) →
  (d.(d_state) ≠ DTombstoned → name_free db id d.(d_name)) →
  tables_ok (set_definitions <[id := mark_bound now_ms d]> db).
Proof.
  intros Hok Hd Hc Hfree.
  assert (Hk : pending_key (mark_bound now_ms d) = pending_key d) by (unfold pending_key; cbn; by destruct (pending d)).
  destruct (plain_change db id d (mark_bound now_ms d)) as [Hdk Hre]; try done.
  - pose proof (dk_valid _ _ _ (k_definition db Hok _ _ Hd)) as Hv. apply (valid_keep d); [done..| |by right]. apply Hv.
  - intros r c. by apply reserved_same.
  - apply put_definition_ok; [done..|]. by rewrite Hd.
Qed.

(** [consume_reservation] succeeded: the exact reservation is bound, or there is none. *)
Definition admitted_under (w : WorkflowDefinition) (class_name : ustr) (r : option (ustr * Z)) (now_ms : Z)
    (db db' : ControlDb) : Prop :=
  match r with
  | Some (owner, fence) => holds_reservation owner fence w.(wd_row) ∧
      is_some_and (λ p, p.(reserved_class_name) = class_name) w.(wd_row).(pending) ∧
      definition_check (mark_bound now_ms w.(wd_row)) ∧
      (w.(wd_row).(d_state) ≠ DTombstoned → name_free db w.(wd_id) w.(wd_row).(d_name)) ∧
      db' = set_definitions <[w.(wd_id) := mark_bound now_ms w.(wd_row)]> db
  | None => w.(wd_row).(pending) = None ∧ db' = db
  end.

Lemma consume_reservation_run w class_name r now_ms db db' u :
  consume_reservation w class_name r now_ms db = (db', Ok u) → db.(definitions) !! w.(wd_id) = Some w.(wd_row) →
  admitted_under w class_name r now_ms db db'.
Proof.
  unfold consume_reservation, admitted_under. intros Hr Hd. destruct r as [[owner fence]|]; run_inv; subst.
  - apply dec_stable in Hg0 as [Hh Hcl].
    match goal with H1 : update_definition _ _ _ _ _ = _ |- _ =>
      apply update_definition_run in H1 as [(-> & _)|(-> & d & Hd' & _ & (_ & Hc & Hfree & _) & ->)] end; [done|].
    rewrite Hd in Hd'. injection Hd' as <-. done.
  - split; [|done]. by apply eq_None_not_Some.
Qed.

(** A new version under validation, in a definition without a reservation. *)
Lemma counted_new db db' id v :
  counted_ok db → db.(versions) !! id = None → db'.(definitions) = db.(definitions) →
  db'.(versions) = <[id := v]> db.(versions) → db'.(bindings) = db.(bindings) →
  db'.(worker_versions) = db.(worker_versions) →
  (∀ d, db.(definitions) !! v.(v_definition) = Some d → d.(pending) = None) → counted_ok db'.
Proof.
  intros Hok Hnone Ed Ev Eb Ew Hno did d p Hd Hp. rewrite Ed in Hd.
  apply (counted_at_ext db); [done..| |by apply Hok]. intros vid x E1 E2. rewrite Ev, lookup_insert_Some.
  destruct (decide (vid = id)) as [->|]; [|naive_solver]. rewrite Hnone. split; [|done].
  intros [[_ <-]|[]]; [|done]. rewrite E1 in Hno. rewrite (Hno d Hd) in Hp. done.
Qed.

(** A new version under validation that binds the pending reservation of its definition. *)
Lemma counted_staged db db' d now_ms id v owner fence :
  counted_ok db → db.(versions) !! id = None → db.(definitions) !! v.(v_definition) = Some d →
  holds_reservation owner fence d → v.(v_reservation) = Some (owner, fence) → v.(v_state) = VValidating →
  db'.(definitions) = <[v.(v_definition) := mark_bound now_ms d]> db.(definitions) →
  db'.(versions) = <[id := v]> db.(versions) → db'.(bindings) = db.(bindings) →
  db'.(worker_versions) = db.(worker_versions) → counted_ok db'.
Proof.
  intros Hok Hnone Hd Hh Er Hs Ed Ev Eb Ew did d1 p1 Hd1 Hp1. rewrite Ed in Hd1.
  apply lookup_insert_Some in Hd1 as [[<- <-]|[Hne Hd1]].
  - destruct Hh as [Ho Hf]. cbn in Hp1. destruct (pending d) as [p|] eqn:Hp; [|done]. cbn in Ho, Hp1.
    destruct (Hok _ d p Hd Hp) as [Hb Hj]. injection Hp1 as <-. unfold counted_at. cbn. rewrite Ev, Ho, Hf in *.
    split.
    + split; [intros _|done]. right. rewrite Ev. exists id, v. rewrite lookup_insert_eq, Hs. done.
    + intros vid x Hx E1 E2. split; [|exists id, v; by rewrite lookup_insert_eq].
      apply lookup_insert_Some in Hx as [[<- <-]|[_ Hx]]; [by left|]. by apply (Hj vid x).
  - apply (counted_at_ext db); [done..| |by apply Hok]. intros vid x E1 E2. rewrite Ev, lookup_insert_Some.
    destruct (decide (vid = id)) as [->|]; [|naive_solver]. rewrite Hnone. naive_solver.
Qed.

(** The two statements that stage a version. *)
Lemma insert_staged_ok id v db s db' u b :
  tables_ok db → insert_version id v db = (s, Ok u) →
  update_version id (λ _, True) (set_version_state VValidating) s = (db', Ok b) →
  (∀ name, frozen (version_target db id v name)) →
  (∀ d, db.(definitions) !! v.(v_definition) = Some d → reserved_under d v.(v_reservation) v.(v_class_name)) →
  tables_ok db' ∧ db.(versions) !! id = None ∧ db'.(definitions) = db.(definitions) ∧
  db'.(versions) = <[id := set_version_state VValidating v]> db.(versions) ∧ db'.(bindings) = db.(bindings) ∧
  db'.(worker_versions) = db.(worker_versions) ∧ db'.(referrers) = db.(referrers) ∧ db'.(intents) = db.(intents).
Proof.
  intros Hok Hi Hu Hf Hr. pose proof (insert_version_ok _ _ _ _ _ Hok Hi Hf Hr) as Hok1.
  split; [by eapply update_version_ok|]. apply insert_version_run in Hi as (_ & _ & _ & Hnone & _ & ->).
  apply update_version_run in Hu as [(_ & _ & Hn)|(_ & v0 & Hv0 & _ & _ & _ & _ & _ & ->)]; cbn in *;
    rewrite lookup_insert_eq in *; [by destruct Hn|]. injection Hv0 as <-.
  match goal with |- context [after_version ?d ?i ?x ?y] =>
    destruct (after_version_frame d i x y) as (_ & _ & -> & -> & -> & -> & _ & _ & _ & -> & ->) end.
  split_and!; try done. cbn. by rewrite insert_insert_eq.
Qed.

Lemma admitted_tables w class_name r now_ms db db' :
  tables_ok db → db.(definitions) !! w.(wd_id) = Some w.(wd_row) → admitted_under w class_name r now_ms db db' →
  tables_ok db' ∧ ∀ d, db'.(definitions) !! w.(wd_id) = Some d → reserved_under d r class_name.
Proof.
  intros Hok Hd Ha. destruct r as [[owner fence]|]; cbn in Ha.
  - destruct Ha as (Hh & Hcl & Hc & Hfree & ->). split; [by apply mark_bound_ok|]. cbn. rewrite lookup_insert_eq.
    intros d [= <-] o f [= <- <-]. destruct Hh as [Ho Hf]. cbn. split; [lia|]. intros _. by destruct (pending (wd_row w)).
  - destruct Ha as [Hp ->]. split; [done|]. by intros d _ o f.
Qed.

Lemma stage_new_keeps w class_name r now_ms db db1 s db' id v u b :
  control_ok db → db.(definitions) !! w.(wd_id) = Some w.(wd_row) → admitted_under w class_name r now_ms db db1 →
  insert_version id v db1 = (s, Ok u) →
  update_version id (λ _, True) (set_version_state VValidating) s = (db', Ok b) →
  (∀ name, frozen (version_target db1 id v name)) →
  v.(v_definition) = w.(wd_id) → v.(v_reservation) = r → v.(v_class_name) = class_name → control_ok db'.
Proof.
  intros [Ht Hc Hi] Hd Ha Hins Hup Hf Ed Er Ec. destruct (admitted_tables _ _ _ _ _ _ Ht Hd Ha) as [Ht1 Hres].
  destruct (insert_staged_ok _ _ _ _ _ _ _ Ht1 Hins Hup Hf) as (Ht' & Hnone & Edf & Evs & Eb & Ew & Erf & Ein).
  { intros d. rewrite Ed, Er, Ec. apply Hres. }
  unfold admitted_under in Ha. split; [done|..].
  - destruct r as [[owner fence]|].
    + destruct Ha as (Hh & _ & _ & _ & ->). cbn in *.
      eapply (counted_staged db _ (wd_row w) now_ms id (set_version_state VValidating v)); try done; cbn; by rewrite ?Ed.
    + destruct Ha as [Hp ->]. eapply (counted_new db _ id (set_version_state VValidating v)); try done. cbn. rewrite Ed.
      intros d. rewrite Hd. by intros [= <-].
  - apply (intents_ext db1); [done..|]. destruct r as [[owner fence]|]; [destruct Ha as (_ & _ & _ & _ & ->)|destruct Ha as [_ ->]].
    + by apply (intents_ext db).
    + done.
Qed.

(** The replay of a staged version finds one under validation. *)
Lemma stage_replay_keeps w class_name owner fence now_ms db db' e version :
  control_ok db → db.(definitions) !! w.(wd_id) = Some w.(wd_row) →
  admitted_under w class_name (Some (owner, fence)) now_ms db db' →
  staged_before db' w.(wd_id) version class_name owner fence = Some e → control_ok db'.
Proof.
  intros [Ht Hc Hi] Hd Ha He. destruct (admitted_tables _ _ _ _ _ _ Ht Hd Ha) as [Ht1 _].
  destruct Ha as ([Ho Hf] & _ & _ & _ & ->). unfold staged_before in He.
  apply bind_Some in He as ([vid v] & Hs & _). apply sql_find_Some in Hs as [Hin (Hvd & _ & _ & Hvr)].
  apply elem_of_map_to_list in Hin. cbn in *. split; [done| |by apply (intents_ext db)].
  intros did d1 p1 Hd1 Hp1. cbn in Hd1. apply lookup_insert_Some in Hd1 as [[<- <-]|[Hne Hd1]].
  - cbn in Hp1. destruct (pending (wd_row w)) as [p|] eqn:Hp; [|done]. cbn in Ho, Hp1. injection Hp1 as <-.
    destruct (Hc _ _ p Hd Hp) as [Hb Hj]. unfold counted_at. cbn. split; [|done].
    split; [intros _|done]. destruct (Hj vid v Hin Hvd) as [_ (vid' & v' & Hv' & E1 & E2 & E3)]; [by rewrite Ho, Hf|].
    right. exists vid', v'. rewrite E3. done.
  - by destruct (Hc did d1 p1 Hd1 Hp1).
Qed.

Lemma stage_version_inner_keeps instance definition version class_name reservation fresh now_ms :
  keeps (stage_version_inner instance definition version class_name reservation fresh now_ms).
Proof.
  unfold stage_version_inner. apply keeps_lift. intros u Hcls. apply keeps_transaction. intros db db' x Hok Hr.
  run_inv. subst.
  match goal with H1 : read_definition _ _ _ = Some ?w |- _ =>
    rename w into wd, H1 into Hwd; apply read_definition_Some in Hwd as (Hown & Hwd & <- & _) end.
  match goal with H1 : consume_reservation _ _ _ _ _ = _ |- _ =>
    apply consume_reservation_run in H1 as Hcon; [|done] end.
  match goal with H1 : worker_target _ _ _ _ = Some ?t |- _ => destruct t as [[[w dv] code] loader] end.
  match type of Hr with (match ?o with _ => _ end) ?s1 = _ => destruct o as [e|] eqn:He; rename s1 into db1 end.
  - run_inv. subst. destruct reservation as [[owner fence]|]; [|done]. by eapply stage_replay_keeps.
  - run_inv. subst. eapply stage_new_keeps; [done..|eassumption|eassumption| |done|done|done].
    assert (instance_identity db1 = instance_identity db) as E.
    { destruct reservation as [[??]|]; [destruct Hcon as (_ & _ & _ & _ & ->)|destruct Hcon as [_ ->]]; done. }
    intros name. unfold frozen, version_digest, version_target, owned in *. cbn in *. rewrite E, Hown. done.
Qed.

Lemma stage_version_keeps instance definition version class_name fresh now_ms :
  keeps (stage_version instance definition version class_name fresh now_ms).
Proof. apply stage_version_inner_keeps. Qed.
Lemma stage_reserved_version_keeps instance definition version class_name r fresh now_ms :
  keeps (stage_reserved_version instance definition version class_name r fresh now_ms).
Proof. unfold stage_reserved_version. apply keeps_throw_if. intros _. apply stage_version_inner_keeps. Qed.
End ops.
