(* ===== verification/WorkflowControlInstances.v ===== *)
(** * Instance transactions keep the catalog invariant

    Reservations and prepared operations: every committed transaction of
    [workflows/instances.rs] and [workflows/operations.rs] takes an invariant catalog to an
    invariant catalog. *)

From stdpp Require Import base numbers list option strings sorting gmap.
From S2P Require Import Prelude Text ErrorCodes Duration RetryPolicy CronSlots WorkflowTypes Sql WorkflowDb WorkflowRuns WorkflowOperations WorkflowControl WorkflowCatalog WorkflowBindings WorkflowReservations WorkflowIntents WorkflowIntegrity WorkflowControlInv WorkflowControlMoves WorkflowControlOps.

Local Open Scope Z_scope.

Section instances.
Context `{Codec, CronParser}.
Implicit Types db : ControlDb.

(** The tables that instance statements leave alone. *)
Definition catalog (db : ControlDb) := (db.(definitions), db.(versions), db.(bindings), db.(worker_versions)).

Lemma counted_catalog db db' : catalog db' = catalog db → counted_ok db → counted_ok db'.
Proof.
  unfold catalog. intros [= Ed Ev Eb Ew]. apply counted_ext; [done..|]. rewrite Ed. intros id d p Hd Hp. by exists d.
Qed.

Lemma after_referrer_frame db id r :
  catalog (after_referrer db id r) = catalog db ∧ (after_referrer db id r).(referrers) = <[id := r]> db.(referrers) ∧
  (after_referrer db id r).(intents) = db.(intents).
Proof. unfold after_referrer. by case_decide. Qed.

(** ** Rows without an operation *)

Lemma no_intent db id r :
  intents_ok db → db.(referrers) !! id = Some r → r.(rf_state) = Live ∨ r.(rf_state) = Creating →
  db.(intents) !! id = None.
Proof.
  intros Hok Hr Hs. destruct (intents db !! id) as [o|] eqn:Ho; [|done].
  destruct (ik_row _ _ _ (i_intent db Hok _ _ Ho)) as (r' & Hr' & _ & _ & _ & Hst). simplify_eq.
  destruct Hs, (in_kind o); congruence.
Qed.
Lemma no_row_no_intent db id : intents_ok db → db.(referrers) !! id = None → db.(intents) !! id = None.
Proof.
  intros Hok Hr. destruct (intents db !! id) as [o|] eqn:Ho; [|done].
  destruct (ik_row _ _ _ (i_intent db Hok _ _ Ho)) as (r' & Hr' & _). congruence.
Qed.

(** A plain row appears or changes where nothing is prepared. *)
Lemma intents_put db db' id r :
  intents_ok db → db.(intents) !! id = None → db'.(referrers) = <[id := r]> db.(referrers) →
  db'.(intents) = db.(intents) → r.(rf_state) = Creating ∨ r.(rf_state) = Live ∨ r.(rf_state) = Retained →
  intents_ok db'.
Proof.
  intros Hok Hno Er Ei Hs. split; rewrite ?Er, ?Ei.
  - intros id1 o Ho. destruct (i_intent db Hok _ _ Ho) as [?? (r1 & Hr1 & Hrest)]. split; [done..|].
    exists r1. rewrite Er, lookup_insert_ne; [done|]. intros ->. congruence.
  - intros id1 r1 [[<- <-]|[Hne Hr1]]%lookup_insert_Some Hst; [|by apply (i_restarting db Hok _ _ Hr1)].
    destruct Hs as [?|[?|?]]; congruence.
  - intros id1 r1 [[<- <-]|[Hne Hr1]]%lookup_insert_Some; [|by apply (i_settled db Hok _ _ Hr1)].
    destruct Hs as [?|[?|?]]; split; congruence.
Qed.

Lemma put_referrer_keeps id P `{!∀ r, Decision (P r)} f db db' b :
  control_ok db → update_referrer StateColumn id P f db = (db', Ok b) →
  (∀ r, referrer_columns (f r) = referrer_columns r) →
  (∀ r, db.(referrers) !! id = Some r → P r → (r.(rf_state) = Live ∨ r.(rf_state) = Creating) ∧
     ((f r).(rf_state) = Live ∨ (f r).(rf_state) = Retained)) → control_ok db'.
Proof.
  intros [Ht Hc Hi] Hr Hcol Hs. split; [by eapply update_referrer_ok|..].
  all: apply update_referrer_run in Hr as [(_ & -> & _)|(_ & r & Hrow & HP & _ & _ & _ & ->)]; [done|].
  all: destruct (after_referrer_frame db id (f r)) as (Ec & Er & Ei).
  - by eapply counted_catalog.
  - destruct (Hs r Hrow HP). eapply intents_put; [done|by eapply no_intent|done|done|]. tauto.
Qed.

Lemma retain_instance_keeps i now_ms : keeps (retain_instance i now_ms).
Proof.
  unfold retain_instance. apply keeps_lift. intros d _. apply keeps_transaction. intros db db' x Hok Hr.
  unfold verify_identity in Hr. run_inv. subst.
  match type of Hr with (match rf_state ?r with _ => _ end) _ = _ => destruct (rf_state r) eqn:Hs end; run_inv; subst; try done.
  eapply put_referrer_keeps; [done|eassumption|done|]. intros r Hrow _. simplify_eq. rewrite Hs. auto.
Qed.

Lemma read_batch_run ids db db' x : read_batch ids db = (db', Ok x) →
  db' = db ∧ Forall2 (λ i s, is_some_and (λ r, r.(rf_state) = s) (db.(referrers) !! i.(instance_id))) ids x.
Proof.
  unfold read_batch. intros Hr. run_inv. subst. clear -Hr. revert x Hr. induction ids as [|i ids IH]; intros x Hr.
  - cbn in Hr. run_inv. by subst.
  - apply for_each_cons_run in Hr as (s1 & y & ys & Hi & Hl & ->). unfold verify_identity in Hi. run_inv. subst.
    apply IH in Hl as [-> Hl]. split; [done|]. constructor; [|done].
    match goal with H1 : referrers _ !! _ = Some _ |- _ => by rewrite H1 end.
Qed.

Lemma finalize_instances_keeps ids now_ms : keeps (finalize_instances ids now_ms).
Proof.
  unfold finalize_instances. apply keeps_throw_if. intros _. apply keeps_transaction. intros db db' x Hok Hr.
  run_inv; match goal with H1 : read_batch _ _ = _ |- _ => apply read_batch_run in H1 as [-> _] end; subst; [done|].
  match goal with Hl : for_each _ _ _ = _ |- _ => eapply (for_each_inv control_ok) in Hl; [done| |done] end.
  intros i t1 t2 y _ Hs1 Hu. run_inv. eapply put_referrer_keeps; [exact Hs1|eassumption|done|].
  intros r _ [_ Hst]. auto.
Qed.

(** A row under creation is removed with its references. *)
Lemma drop_creation_keeps id P `{!∀ r, Decision (P r)} db db' b :
  control_ok db → delete_referrer id P db = (db', Ok b) → (∀ r, P r → r.(rf_state) = Creating) → control_ok db'.
Proof.
  intros [Ht Hc Hi] Hr Hs. split; [by eapply delete_referrer_ok|..].
  all: apply delete_referrer_run in Hr as [(_ & -> & _)|(_ & r & Hrow & HP & _ & _ & ->)]; [done|].
  - by eapply counted_catalog.
  - pose proof (no_intent db id r Hi Hrow (or_intror (Hs r HP))) as Hno. split; cbn; rewrite ?(delete_id (intents db)) by done.
    + intros id1 o Ho. destruct (i_intent db Hi _ _ Ho) as [?? (r1 & Hr1 & Hrest)]. split; [done..|].
      exists r1. cbn. rewrite lookup_delete_ne; [done|]. intros ->. congruence.
    + intros id1 r1 [_ Hr1]%lookup_delete_Some. by apply (i_restarting db Hi).
    + intros id1 r1 [_ Hr1]%lookup_delete_Some. by apply (i_settled db Hi id1).
Qed.

Lemma abandon_creations_keeps ids : keeps (abandon_creations ids).
Proof.
  unfold abandon_creations. apply keeps_throw_if. intros _. apply keeps_transaction. intros db db' x Hok Hr.
  run_inv; match goal with H1 : read_batch _ _ = _ |- _ => apply read_batch_run in H1 as [-> _] end; subst; [done|].
  match goal with Hl : for_each _ _ _ = _ |- _ => eapply (for_each_inv control_ok) in Hl; [done| |done] end.
  intros i t1 t2 y _ Hs1 Hu. eapply drop_creation_keeps; [exact Hs1|exact Hu|]. naive_solver.
Qed.

(** ** Reservation of a batch *)

Lemma insert_referrer_keeps id r db db' u :
  control_ok db → insert_referrer id r db = (db', Ok u) →
  is_ok (validate_workflow_name r.(rf_definition_name)) = true →
  is_ok (validate_workflow_instance_id r.(rf_external)) = true → control_ok db'.
Proof.
  intros [Ht Hc Hi] Hr Hn He. split; [by eapply insert_referrer_ok|..].
  all: apply insert_referrer_run in Hr as (Hs & _ & _ & _ & Hnone & _ & ->).
  - by apply (counted_catalog db).
  - apply (intents_put db _ id r); [done|by apply no_row_no_intent|done|done|by left].
Qed.

Lemma admitted_externals db definition qs ops exts l :
  admit_requests db definition ops exts qs = Ok l →
  Forall (λ p, is_ok (validate_workflow_instance_id p.2) = true) l.
Proof.
  revert ops exts l. induction qs as [|q qs IH]; intros ops exts l Hr; cbn in Hr; [by simplify_eq|].
  repeat match type of Hr with
  | mbind _ ?m = _ => let E := fresh "E" in destruct m as [?|?] eqn:E; [cbn in Hr|done]
  end. simplify_eq. constructor; [cbn|by eapply IH].
  match goal with H1 : validate_workflow_instance_id _ = Ok _ |- _ => by rewrite H1 end.
Qed.

Lemma current_target_name db instance definition t :
  tables_ok db → current_target db instance definition = Some t → is_ok (validate_workflow_name t.(definition_name)) = true.
Proof.
  intros Hok. unfold current_target. case_decide; [|done]. intros Hr.
  apply bind_Some in Hr as (d & Hd & Hr). apply bind_Some in Hr as (c & Hc & Hr). apply bind_Some in Hr as (v & Hv & Hr).
  case_decide; [|done]. injection Hr as <-. cbn. apply (dk_valid _ _ _ (k_definition db Hok _ _ Hd)).
Qed.

Lemma reserve_one_keeps t batch now_ms p :
  is_ok (validate_workflow_name t.(definition_name)) = true → is_ok (validate_workflow_instance_id p.2) = true →
  keeps (reserve_one t batch now_ms p).
Proof.
  intros Hn He db db' x Hok Hr. unfold reserve_one in Hr. run_inv. subst. by eapply insert_referrer_keeps.
Qed.

Lemma reserve_instances_with_schedules_keeps instance definition batch qs limits now_ms :
  keeps (reserve_instances_with_schedules instance definition batch qs limits now_ms).
Proof.
  unfold reserve_instances_with_schedules. apply keeps_throw_if. intros _. apply keeps_lift. intros u _.
  apply keeps_transaction. intros db db' x Hok Hr. run_inv; subst.
  - eapply (for_each_inv (λ s, s = db)) in Hr; [by rewrite Hr| |done]. intros p t1 t2 y _ -> Hp. run_inv. done.
  - match goal with H1 : admit_requests _ _ _ _ _ = Ok _ |- _ => apply admitted_externals in H1 as Hext end.
    match goal with H1 : current_target _ _ _ = Some _ |- _ => apply current_target_name in H1 as Hname; [|by apply Hok] end.
    eapply (for_each_inv control_ok) in Hr; [done| |done]. intros p t1 t2 y Hp Hok1 Hu.
    eapply reserve_one_keeps; [done| |done|done]. rewrite Forall_forall in Hext. by apply Hext.
Qed.

Lemma read_reservation_Some db id w :
  read_reservation db id = Some w →
  ∃ r v d, db.(referrers) !! id = Some r ∧ db.(versions) !! r.(rf_version) = Some v ∧
    db.(definitions) !! r.(rf_definition) = Some d ∧ reservation_row db id r = Some w ∧
    w.(rv_state) = r.(rf_state) ∧ w.(rv_identity).(instance_id) = id ∧
    w.(rv_identity).(created_at_ms) = r.(rf_created_at_ms) ∧ w.(rv_identity).(creation_nonce) = r.(rf_nonce) ∧
    w.(rv_identity).(instance_generation) = r.(rf_generation) ∧
    w.(rv_identity).(target).(worker_version_id) = r.(rf_worker_version) ∧
    w.(rv_identity).(target).(definition_id) = r.(rf_definition).
Proof.
  unfold read_reservation, reservation_row. destruct (referrers db !! id) as [r|]; cbn; [|done].
  destruct (versions db !! rf_version r) as [v|] eqn:Hv; cbn; [|done].
  destruct (definitions db !! rf_definition r) as [d|] eqn:Hd; cbn; [|done].
  intros [= <-]. exists r, v, d. rewrite Hv, Hd. split_and!; done.
Qed.

(** The repair finds nothing to restore. *)
Lemma repair_instance_referrers_id i db db' u :
  tables_ok db → repair_instance_referrers i db = (db', Ok u) → db' = db.
Proof.
  unfold repair_instance_referrers. intros Hok Hr. run_inv. subst.
  match goal with H1 : read_reservation _ _ = Some _ |- _ =>
    apply read_reservation_Some in H1 as (r & v & d & Hrow & _ & _ & _ & Es & Ei & Ec & _ & _ & Ew & Ed) end.
  apply Decidable.not_or in Hg as [Hid%dec_stable Hst%dec_stable]. subst i. rewrite Ew, Ed, Ec.
  assert (Hn : rf_state r ≠ Released) by (rewrite <-Es; destruct Hst as [->| ->]; done).
  unfold set_workflow_referrers, set_version_referrers, insert_absent. cbn.
  rewrite (k_version_refs db Hok), (k_definition_refs db Hok). cbn. rewrite Hrow. cbn.
  rewrite !(decide_True (P := _ ∧ _)) by done. rewrite !decide_True by eauto. by destruct db.
Qed.

(** ** Prepared operations *)

(** What happened concerns one instance: every other row and operation is as it was. *)
Record only (id : N) (db db' : ControlDb) : Prop := {
  on_tables : tables_ok db → tables_ok db';
  on_catalog : catalog db' = catalog db;
  on_referrers : ∀ id', id' ≠ id → db'.(referrers) !! id' = db.(referrers) !! id';
  on_intents : ∀ id', id' ≠ id → db'.(intents) !! id' = db.(intents) !! id';
}.

#[export] Instance only_trans id : Transitive (only id).
Proof.
  intros x y z [T1 C1 R1 I1] [T2 C2 R2 I2]. split; [auto|congruence|..]; intros id' Hne.
  - by rewrite R2, R1.
  - by rewrite I2, I1.
Qed.
#[export] Instance only_refl id : Reflexive (only id).
Proof. by split. Qed.

Lemma update_referrer_only c id P `{!∀ r, Decision (P r)} f db db' b :
  update_referrer c id P f db = (db', Ok b) → (∀ r, referrer_columns (f r) = referrer_columns r) → only id db db'.
Proof.
  intros Hr Hcol. split; [intros Ht; by eapply update_referrer_ok|..].
  all: apply update_referrer_run in Hr as [(_ & -> & _)|(_ & r & _ & _ & _ & _ & _ & ->)]; [done|].
  all: destruct (after_referrer_frame db id (f r)) as (Ec & Er & Ei).
  - done.
  - intros id' Hne. by rewrite Er, lookup_insert_ne.
  - intros id' Hne. by rewrite Ei.
Qed.
Lemma apply_intent_only id op db db' u : apply_intent id op db = (db', Ok u) → only id db db'.
Proof.
  intros Hr. split; [intros Ht; by eapply apply_intent_ok|..]; apply apply_intent_run in Hr;
    destruct (intents db !! id) as [o|]; try case_decide; subst; try done; destruct Hr as [_ ->]; try done.
  intros id' Hne. cbn. by rewrite lookup_insert_ne.
Qed.
Lemma delete_intent_only id op db db' u : delete_intent_row id op db = (db', Ok u) → only id db db'.
Proof.
  intros Hr. split; [intros Ht; by eapply delete_intent_ok|..]; apply delete_intent_run in Hr;
    destruct (intents db !! id) as [o|]; try case_decide; subst; try done; destruct Hr as [_ ->]; try done.
  intros id' Hne. cbn. by rewrite lookup_delete_ne.
Qed.
Lemma insert_intent_only id o db db' u : insert_intent id o db = (db', Ok u) → only id db db'.
Proof.
  intros Hr. split; [intros Ht; by eapply insert_intent_ok|..]; apply insert_intent_run in Hr as (_ & _ & _ & ->); try done.
  intros id' Hne. cbn. by rewrite lookup_insert_ne.
Qed.
Lemma delete_referrer_only id P `{!∀ r, Decision (P r)} db db' b :
  delete_referrer id P db = (db', Ok b) → only id db db'.
Proof.
  intros Hr. split; [intros Ht; by eapply delete_referrer_ok|..].
  all: apply delete_referrer_run in Hr as [(_ & -> & _)|(_ & r & _ & _ & _ & _ & ->)]; [done|]; try done.
  all: intros id' Hne; cbn; by rewrite lookup_delete_ne.
Qed.

(** The invariant after steps on one instance, from what its row and operation became. *)
Lemma only_keeps id db db' :
  control_ok db → only id db db' → (∀ o, db'.(intents) !! id = Some o → intent_ok db' id o) →
  (∀ r, db'.(referrers) !! id = Some r → r.(rf_state) ≠ Releasing ∧ r.(rf_state) ≠ Released ∧
     (r.(rf_state) = Restarting → ∃ o, db'.(intents) !! id = Some o ∧ o.(in_kind) = Restart)) →
  control_ok db'.
Proof.
  intros [Ht Hc Hi] [Ht' Hcat Hr' Hi'] Ho Hrow. split; [auto|by eapply counted_catalog|]. split.
  - intros id1 o1. destruct (decide (id1 = id)) as [->|Hne]; [apply Ho|]. rewrite Hi' by done. intros Ho1.
    destruct (i_intent db Hi _ _ Ho1) as [?? Hr1]. split; [done..|]. by rewrite Hr'.
  - intros id1 r1. destruct (decide (id1 = id)) as [->|Hne]; [intros Hr1; by apply Hrow|].
    rewrite Hr', Hi' by done. apply (i_restarting db Hi).
  - intros id1 r1. destruct (decide (id1 = id)) as [->|Hne]; [intros Hr1; destruct (Hrow r1 Hr1); tauto|].
    rewrite Hr' by done. apply (i_settled db Hi).
Qed.

Lemma read_operation_run id db db' q :
  read_operation id db = (db', Ok q) → db' = db ∧
  match q with
  | None => db.(intents) !! id = None
  | Some op => ∃ o w r, db.(intents) !! id = Some o ∧ read_reservation db id = Some w ∧
      db.(referrers) !! id = Some r ∧ intent_consistent db r w o ∧ op = operation_of w.(rv_identity) o
  end.
Proof.
  unfold read_operation. intros Hr. run_inv. subst. destruct (intents db !! id) as [o|] eqn:Ho; run_inv; subst; [|done].
  bools. split; [done|]. eauto 10.
Qed.

Lemma delete_intent_gone id o op db db' u :
  db.(intents) !! id = Some o → o.(in_operation) = op → delete_intent_row id op db = (db', Ok u) →
  db'.(intents) !! id = None ∧ db'.(referrers) = db.(referrers).
Proof.
  intros Ho Hop Hr%delete_intent_run. rewrite Ho, decide_True in Hr by done. destruct Hr as [_ ->]. cbn.
  by rewrite lookup_delete_eq.
Qed.

Lemma update_referrer_at c id P `{!∀ r, Decision (P r)} f db db' b r :
  update_referrer c id P f db = (db', Ok b) → db.(referrers) !! id = Some r → P r →
  db'.(referrers) !! id = Some (f r) ∧ db'.(intents) = db.(intents).
Proof.
  intros Hr Hrow HP. apply update_referrer_run in Hr as [(_ & _ & Hn)|(_ & r1 & Hr1 & _ & _ & _ & _ & ->)].
  - rewrite Hrow in Hn. by destruct Hn.
  - assert (r1 = r) as -> by congruence. destruct (after_referrer_frame db id (f r)) as (_ & -> & ->).
    by rewrite lookup_insert_eq.
Qed.

Lemma delete_referrer_at id P `{!∀ r, Decision (P r)} db db' b r :
  delete_referrer id P db = (db', Ok b) → db.(referrers) !! id = Some r → P r →
  db'.(referrers) !! id = None ∧ db'.(intents) !! id = None.
Proof.
  intros Hr Hrow HP. apply delete_referrer_run in Hr as [(_ & _ & Hn)|(_ & r1 & _ & _ & _ & _ & ->)].
  - rewrite Hrow in Hn. by destruct Hn.
  - cbn. by rewrite !lookup_delete_eq.
Qed.

(** No operation is left, and the row is a plain one. *)
Lemma plain_keeps id r db db' :
  control_ok db → only id db db' → db'.(intents) !! id = None → db'.(referrers) !! id = Some r →
  r.(rf_state) = Live ∨ r.(rf_state) = Retained → control_ok db'.
Proof.
  intros Hok Hon Hi Hr Hs. eapply only_keeps; [done..| |]; [congruence|]. intros r1 Hr1. assert (r1 = r) as -> by congruence.
  destruct Hs as [-> | ->]; done.
Qed.

Lemma complete_rows_keeps op now_ms o db db' u :
  control_ok db → db.(intents) !! op.(op_identity).(instance_id) = Some o → o.(in_operation) = op.(op_id) →
  o.(in_kind) = op.(op_kind) → complete_rows op now_ms db = (db', Ok u) → control_ok db'.
Proof.
  intros Hok Ho Hid Hk Hr. unfold complete_rows in Hr. set (id := op.(op_identity).(instance_id)) in *. run_inv.
  destruct (ik_row _ _ _ (i_intent db (co_intents db Hok) _ _ Ho)) as (r & Hrow & _ & _ & _ & Hst).
  match goal with H1 : apply_intent _ _ _ = _ |- _ => rename H1 into Ha; pose proof (apply_intent_only _ _ _ _ _ Ha) as On1;
    apply apply_intent_run in Ha; rewrite Ho, decide_True in Ha by done; destruct Ha as [_ Hs] end.
  assert (Hrow1 : s.(referrers) !! id = Some r) by (by rewrite Hs).
  rewrite Hk in Hst. destruct (op_kind op) eqn:Hkind; run_inv.
  - match goal with H1 : update_referrer _ _ _ _ _ = _ |- _ => rename H1 into Hu end.
    pose proof (update_referrer_only _ _ _ _ _ _ _ Hu (λ _, eq_refl)) as On2.
    pose proof (delete_intent_only _ _ _ _ _ Hr) as On3.
    destruct (update_referrer_at _ _ _ _ _ _ _ r Hu Hrow1 Hst) as [Hrow2 Ei2].
    eapply delete_intent_gone in Hr as [Hi3 Er3]; [|rewrite Ei2, Hs; cbn; by rewrite lookup_insert_eq|done].
    eapply plain_keeps; [exact Hok| |done|by rewrite Er3|by left].
    by eapply only_trans; [exact On1|eapply only_trans; [exact On2|exact On3]].
  - match goal with H1 : update_referrer _ _ _ (set_ref_state _ _) _ = _ |- _ => rename H1 into Hu end.
    match goal with H1 : update_referrer _ _ _ (set_ref_released _) _ = _ |- _ => rename H1 into Hu' end.
    match goal with H1 : delete_referrer _ _ _ = _ |- _ => rename H1 into Hdel end.
    pose proof (update_referrer_only _ _ _ _ _ _ _ Hu (λ _, eq_refl)) as On2.
    pose proof (update_referrer_only _ _ _ _ _ _ _ Hu' (λ _, eq_refl)) as On3.
    pose proof (delete_referrer_only _ _ _ _ _ Hdel) as On4.
    destruct (update_referrer_at _ _ _ _ _ _ _ r Hu Hrow1 Hst) as [Hrow2 _].
    destruct (update_referrer_at _ _ _ _ _ _ _ _ Hu' Hrow2 eq_refl) as [Hrow3 _].
    destruct (delete_referrer_at _ _ _ _ _ _ Hdel Hrow3 I) as [Hr4 Hi4].
    apply (only_keeps id db); [exact Hok| |rewrite Hi4; done|rewrite Hr4; done].
    eapply only_trans; [exact On1|eapply only_trans; [exact On2|by eapply only_trans; [exact On3|]]].
Qed.

Lemma complete_instance_operation_keeps op now_ms : keeps (complete_instance_operation op now_ms).
Proof.
  unfold complete_instance_operation. apply keeps_transaction. intros db db' x Hok Hr. run_inv.
  match goal with H1 : read_operation _ _ = _ |- _ => apply read_operation_run in H1 as [-> Hq] end.
  match goal with H1 : (match ?q with _ => _ end) _ = (?s1, Ok _) |- _ =>
    assert (control_ok s1); [destruct q as [cur|]; run_inv; subst; [|done]|] end.
  - destruct Hq as (o & w & r & Ho & _ & _ & _ & Ecur).
    match goal with H1 : ¬ (cur ≠ op) |- _ => apply dec_stable in H1; rewrite H1 in Ecur end.
    eapply complete_rows_keeps; [exact Hok|exact Ho| | |eassumption]; by rewrite Ecur.
  - destruct (op_kind op); match type of Hr with (match ?o with _ => _ end) _ = _ => destruct o end; run_inv; by subst.
Qed.

Lemma cancel_instance_operation_keeps op now_ms : keeps (cancel_instance_operation op now_ms).
Proof.
  unfold cancel_instance_operation. apply keeps_transaction. intros db db' x Hok Hr. run_inv.
  match goal with H1 : read_operation _ _ = _ |- _ => apply read_operation_run in H1 as [-> Hq] end.
  match type of Hr with (match ?q with _ => _ end) _ = _ => destruct q as [cur|] end; [|run_inv; by subst].
  destruct Hq as (o & w & r & Ho & _ & _ & _ & Ecur).
  destruct (ik_row _ _ _ (i_intent db (co_intents db Hok) _ _ Ho)) as (r1 & Hrow & _ & _ & _ & Hst).
  run_inv; match goal with H1 : ¬ (cur ≠ op) |- _ => apply dec_stable in H1; rewrite H1 in Ecur end;
    assert (in_kind o = op_kind op) as Hk by (by rewrite Ecur); rewrite Hk in Hst.
  - match goal with H1 : update_referrer _ _ _ _ _ = _ |- _ => rename H1 into Hu end.
    pose proof (update_referrer_only _ _ _ _ _ _ _ Hu (λ _, eq_refl)) as On1.
    pose proof (delete_intent_only _ _ _ _ _ Hr) as On2.
    match goal with H1 : op_kind op = Restart |- _ => rewrite H1 in Hst end.
    destruct (update_referrer_at _ _ _ _ _ _ _ _ Hu Hrow Hst) as [Hrow1 Ei].
    eapply delete_intent_gone in Hr as [Hi2 Er2]; [|by rewrite Ei|by rewrite Ecur].
    eapply plain_keeps; [exact Hok|by eapply only_trans|done|by rewrite Er2|]. cbn. case_decide; auto.
  - pose proof (delete_intent_only _ _ _ _ _ Hr) as On.
    eapply delete_intent_gone in Hr as [Hi2 Er2]; [|done|by rewrite Ecur].
    eapply plain_keeps; [exact Hok|done|done|by rewrite Er2|]. destruct (op_kind op); [done|auto].
Qed.

(** The statements that prepare an operation, up to the state of the row. *)
Lemma prepared_rows id r n o db s db' b u :
  db.(referrers) !! id = Some r → update_referrer SequenceColumn id (λ _, True) (set_sequence n) db = (s, Ok b) →
  insert_intent id o s = (db', Ok u) →
  only id db db' ∧ db'.(referrers) !! id = Some (set_sequence n r) ∧ db'.(intents) !! id = Some o ∧
  o.(in_applied) = false ∧ intent_check o ∧ r.(rf_nonce) = o.(in_nonce) ∧
  r.(rf_generation) = o.(in_expected_generation) ∧ r.(rf_state) = o.(in_prior) ∧ n = o.(in_sequence).
Proof.
  intros Hrow Hu Hi. pose proof (update_referrer_only _ _ _ _ _ _ _ Hu (λ _, eq_refl)) as On1.
  pose proof (insert_intent_only _ _ _ _ _ Hi) as On2. destruct (update_referrer_at _ _ _ _ _ _ _ _ Hu Hrow I) as [Hrow1 _].
  apply insert_intent_run in Hi as (Hc & (Happ & Hauth) & _ & ->). rewrite Hrow1 in Hauth. cbn in Hauth.
  destruct Hauth as (E1 & E2 & E3 & E4 & _). split; [by eapply only_trans|]. cbn. rewrite lookup_insert_eq. done.
Qed.

Lemma prepared_keeps id r n o db s db' b u :
  control_ok db → db.(referrers) !! id = Some r →
  update_referrer SequenceColumn id (λ _, True) (set_sequence n) db = (s, Ok b) →
  insert_intent id o s = (db', Ok u) → o.(in_kind) = Purge → control_ok db'.
Proof.
  intros Hok Hrow Hu Hi Hk. destruct (prepared_rows _ _ _ _ _ _ _ _ _ Hrow Hu Hi) as (On & Hr' & Ho' & Ha & Hc & E1 & E2 & E3 & E4).
  assert (in_prior o = Retained) as Hp by (unfold intent_check in Hc; rewrite Hk in Hc; naive_solver).
  apply (only_keeps id db); [done..| |].
  - rewrite Ho'. intros o1 [= <-]. split; [done..|]. exists (set_sequence n r). rewrite Hk. split_and!; [exact Hr'|cbn; congruence..].
  - rewrite Hr'. intros r1 [= <-]. cbn. rewrite E3, Hp. done.
Qed.

Lemma prepared_restart_keeps id r n o now_ms db s s' db' b u b' :
  control_ok db → db.(referrers) !! id = Some r →
  update_referrer SequenceColumn id (λ _, True) (set_sequence n) db = (s, Ok b) →
  insert_intent id o s = (s', Ok u) → o.(in_kind) = Restart →
  update_referrer StateColumn id (λ _, True) (set_ref_state Restarting now_ms) s' = (db', Ok b') → control_ok db'.
Proof.
  intros Hok Hrow Hu Hi Hk Hs. destruct (prepared_rows _ _ _ _ _ _ _ _ _ Hrow Hu Hi) as (On & Hr' & Ho' & Ha & Hc & E1 & E2 & E3 & E4).
  pose proof (update_referrer_only _ _ _ _ _ _ _ Hs (λ _, eq_refl)) as On2.
  destruct (update_referrer_at _ _ _ _ _ _ _ _ Hs Hr' I) as [Hr2 Ei]. rewrite <-Ei in Ho'.
  apply (only_keeps id db); [done|by eapply only_trans|..].
  - rewrite Ho'. intros o1 [= <-]. split; [done..|]. rewrite Hk. eexists. split_and!; [exact Hr2|cbn; congruence..].
  - rewrite Hr2. intros r1 [= <-]. cbn. split_and!; [done..|]. intros _. by exists o.
Qed.

Lemma prepare_operation_keeps i operation kind from limits now_ms :
  keeps (prepare_operation i operation kind from limits now_ms).
Proof.
  unfold prepare_operation. apply keeps_lift. intros u _. apply keeps_throw_if. intros _. apply keeps_transaction.
  intros db db' x Hok Hr. unfold verify_identity in Hr. run_inv.
  match goal with H1 : read_operation _ _ = _ |- _ => apply read_operation_run in H1 as [-> Hq] end.
  match type of Hr with (match ?q with _ => _ end) _ = _ => destruct q as [cur|] end; [run_inv; by subst|].
  run_inv; subst.
  - by eapply prepared_restart_keeps.
  - by eapply prepared_restart_keeps.
  - eapply prepared_keeps; [exact Hok|eassumption|eassumption|eassumption|]. cbn. by destruct kind.
Qed.

Lemma prepare_instance_operation_keeps i operation kind limits now_ms :
  keeps (prepare_instance_operation i operation kind limits now_ms).
Proof. apply prepare_operation_keeps. Qed.
Lemma prepare_restart_operation_keeps i operation from limits now_ms :
  keeps (prepare_restart_operation i operation from limits now_ms).
Proof. unfold prepare_restart_operation. apply keeps_lift. intros u _. apply prepare_operation_keeps. Qed.
End instances.
