(* ===== verification/WorkflowControlWorkers.v ===== *)
(** * Worker transactions keep the catalog invariant

    Bindings, their replay records and the Worker versions that carry them: every committed
    transaction of [workflows/bindings.rs] and of the workflow part of
    [worker_repository] takes an invariant catalog to an invariant catalog. *)

From stdpp Require Import base numbers list option strings sorting gmap.
From S2P Require Import Prelude Text ErrorCodes Duration RetryPolicy CronSlots WorkflowTypes Sql WorkflowDb WorkflowRuns WorkflowOperations WorkflowControl WorkflowCatalog WorkflowBindings WorkflowReservations WorkflowIntents WorkflowIntegrity WorkflowControlInv WorkflowControlMoves WorkflowControlOps WorkflowControlInstances.

Local Open Scope Z_scope.

Section workers.
Context `{Codec, CronParser}.
Implicit Types db : ControlDb.

(** ** Replay records *)

(** Records and locks refer to bindings that exist. *)
Lemma binding_records_keep db ops locks :
  control_ok db → (∀ op o, ops !! op = Some o → is_Some (db.(bindings) !! o.(bo_binding))) →
  (∀ op l, locks !! op = Some l → is_Some (db.(bindings) !! l.1) ∧ is_Some (ops !! op)) →
  control_ok {| db with binding_operations := ops; binding_locks := locks |}.
Proof.
  intros [Ht Hc Hi] Ho Hl. split; [|by apply (counted_catalog db)|by apply (intents_ext db)].
  constructor; cbn; try apply Ht; try done; intros id1 x1 Hx1;
    first [by destruct (k_definition db Ht _ _ Hx1) | by destruct (k_version db Ht _ _ Hx1)
         | by destruct (k_binding db Ht _ _ Hx1) | by destruct (k_referrer db Ht _ _ Hx1)].
Qed.

Lemma begin_binding_operation_keeps binding operation kind fingerprint request now_ms :
  keeps (begin_binding_operation binding operation kind fingerprint request now_ms).
Proof.
  unfold begin_binding_operation. apply keeps_throw_if. intros _. apply keeps_transaction. intros db db' x Hok Hr. run_inv.
  match type of Hr with (match ?q with _ => _ end) _ = _ => destruct q as [o|] end.
  - run_inv. destruct (bo_response o); run_inv; by subst.
  - unfold insert_binding_operation in Hr. cat_inv. subst. destruct Hg as (Hb & _ & Hno & Hnl). cbn in *.
    apply (binding_records_keep db); [done|..]; cbn.
    + intros op o [[<- <-]|[_ Ho]]%lookup_insert_Some; [done|]. by eapply (k_operations db (co_tables db Hok)).
    + intros op l [[<- <-]|[Hne Hl]]%lookup_insert_Some; [by rewrite lookup_insert_eq|].
      rewrite lookup_insert_ne by done. by eapply (k_locks db (co_tables db Hok)).
Qed.

Lemma finish_binding_operation_keeps binding operation response now_ms :
  keeps (finish_binding_operation binding operation response now_ms).
Proof.
  unfold finish_binding_operation. apply keeps_throw_if. intros _. apply keeps_transaction. intros db db' x Hok Hr. run_inv.
  subst. match goal with H1 : mbind _ _ = Some _ |- _ => apply bind_Some in H1 as (o1 & Ho & Hm); case_decide; [|done] end.
  injection Hm as ->. match type of Hr with (match bo_response ?o with _ => _ end) _ = _ => destruct (bo_response o) end; cat_inv; subst; [done|].
  apply (binding_records_keep db); [done|..]; cbn.
  - intros op o [[<- <-]|[_ Hop]]%lookup_insert_Some; cbn; by eapply (k_operations db (co_tables db Hok)).
  - intros op l [Hne Hl]%lookup_delete_Some. rewrite lookup_insert_ne by done. by eapply (k_locks db (co_tables db Hok)).
Qed.

(** ** Callers *)

Lemma consumed_bindings db id b did owner fence :
  db.(bindings) !! id = None → b.(b_definition) ≠ did ∨ b.(b_reservation) ≠ Some (owner, fence) →
  consumed (with_binding id b db) did owner fence ↔ consumed db did owner fence.
Proof.
  intros Hnone Hb. unfold consumed. cbn. f_equiv. split; intros (bid & x & Hx & E1 & E2 & E3); exists bid, x.
  - apply lookup_insert_Some in Hx as [[<- <-]|[_ Hx]]; [|done]. destruct Hb; congruence.
  - split; [|done]. rewrite lookup_insert_ne; [done|]. intros <-. congruence.
Qed.

(** A caller without a reservation. *)
Lemma counted_caller db id b :
  counted_ok db → db.(bindings) !! id = None → b.(b_reservation) = None → counted_ok (with_binding id b db).
Proof.
  intros Hok Hnone Hb did d p Hd Hp. destruct (Hok did d p Hd Hp) as [Hc Hj]. split; [|done].
  rewrite Hc. symmetry. apply consumed_bindings; [done|]. right. by rewrite Hb.
Qed.

(** A caller that binds the pending reservation. *)
Lemma counted_bound_caller db id b d owner fence now_ms :
  counted_ok db → db.(bindings) !! id = None → b.(b_reservation) = Some (owner, fence) →
  db.(definitions) !! b.(b_definition) = Some d → holds_reservation owner fence d →
  is_some_and (λ w, active w.(wv_state) = true) (db.(worker_versions) !! b.(b_version)) →
  counted_ok (set_definitions <[b.(b_definition) := mark_bound now_ms d]> (with_binding id b db)).
Proof.
  intros Hok Hnone Hb Hd [Ho Hf] Hw did d1 p1 Hd1 Hp1. cbn in Hd1.
  apply lookup_insert_Some in Hd1 as [[<- <-]|[Hne Hd1]].
  - cbn in Hp1. destruct (pending d) as [p|] eqn:Hp; [|done]. cbn in Ho, Hp1. injection Hp1 as <-.
    destruct (Hok _ d p Hd Hp) as [Hc Hj]. unfold counted_at. cbn. split; [|exact Hj].
    split; [intros _|done]. left. exists id, b. cbn. rewrite lookup_insert_eq, Ho, Hf. done.
  - destruct (Hok did d1 p1 Hd1 Hp1) as [Hc Hj]. split; [|done]. rewrite Hc. symmetry.
    rewrite (consumed_ext (with_binding id b db)) by done. apply consumed_bindings; auto.
Qed.

(** What the guard of an insertion says of the definition and of the Worker version. *)
Lemma binding_authority_inv db b :
  tables_ok db → binding_authority db b →
  ∃ d w, db.(definitions) !! b.(b_definition) = Some d ∧ db.(worker_versions) !! b.(b_version) = Some w ∧
    w.(wv_state) = VStaging ∧ b.(b_lifecycle_generation) = 1 ∧ open_state d.(d_state) = true ∧
    (d.(d_state) = DCreating → is_Some b.(b_reservation)) ∧ reserved_under d b.(b_reservation) b.(b_class_name) ∧
    is_none_or (λ r, holds_reservation r.1 r.2 d) b.(b_reservation).
Proof.
  intros Hok [Hw Hd]. destruct (worker_versions db !! b_version b) as [w|] eqn:Ew; [|done].
  destruct (definitions db !! b_definition b) as [d|] eqn:Ed; [|done]. cbn in Hw, Hd.
  destruct Hd as [Hg Hr], (dk_valid _ _ _ (k_definition db Hok _ _ Ed)) as (_ & Hl & _).
  exists d, w. split_and!; try done; [tauto|congruence|..].
  all: destruct (b_reservation b) as [[owner fence]|]; try (destruct Hr as (Hs & Hrest); rewrite Hs; done); try done.
  - destruct Hr as (_ & Hf & Hp). intros o f [= <- <-]. split; [lia|]. intros _. destruct (pending d); naive_solver.
  - destruct Hr as (_ & Hf & Hp). split; [|done]. destruct (pending d); naive_solver.
Qed.

Lemma insert_binding_keeps taken id b db db' u :
  control_ok db → worker_live db b.(b_version) → binding_valid id b → insert_binding taken id b db = (db', Ok u) →
  control_ok db' ∧ db'.(workers) = db.(workers) ∧ db'.(worker_versions) = db.(worker_versions).
Proof.
  intros [Ht Hc Hi] Hlive Hv Hr. unfold insert_binding in Hr. run_inv.
  match goal with H1 : ensure _ _ = _ |- _ => apply ensure_run in H1 as [-> (Hck & _ & Hauth & Hnone & _)] end.
  destruct (binding_authority_inv db b Ht Hauth) as (d & w & Hd & Hw & Hst & Hl & Ho & Hcr & Hru & Hh).
  pose proof (put_binding_ok db id b d Ht Hnone Hck Hv Hl Hd Hru Ho Hcr Hlive) as Ht1.
  assert (intents_ok (with_binding id b db)) as Hi1 by (by apply (intents_ext db)).
  destruct (b_reservation b) as [[owner fence]|] eqn:Er; cat_inv; subst.
  - match goal with H1 : update_definition _ _ _ _ _ = _ |- _ =>
      apply update_definition_run in H1 as [(Hb & _)|(_ & d1 & Hd1 & _ & (_ & Hdc & Hfree & _) & ->)] end; [done|].
    change (db.(definitions) !! b.(b_definition) = Some d1) in Hd1. assert (d1 = d) as -> by congruence.
    split; [|done]. split.
    + by apply (mark_bound_ok (with_binding id b db)).
    + eapply counted_bound_caller; try done. rewrite Hw. cbn. by rewrite Hst.
    + by apply (intents_ext db).
  - split; [|done]. split; [done|by apply counted_caller|done].
Qed.

Lemma digest_schema d x : descriptor_digest d = Ok x → d.(bd_schema_version) = 1.
Proof.
  unfold descriptor_digest. intros Hr.
  match type of Hr with mbind _ ?m = _ => destruct m as [t|e] eqn:E; [|done] end.
  apply bail_if_Ok in E. apply dec_stable. intros Hn. apply E. by left.
Qed.

Lemma insert_workflow_bindings_keeps taken version rs db db' u :
  control_ok db → worker_live db version → insert_workflow_bindings taken version rs db = (db', Ok u) → control_ok db'.
Proof.
  intros Hok Hl Hr. unfold insert_workflow_bindings in Hr. run_inv.
  match goal with H1 : for_each _ _ _ = _ |- _ =>
    eapply (for_each_inv (λ s, control_ok s ∧ worker_live s version)) in H1 as [? _]; [done| |done] end.
  intros r t1 t2 y _ [Hok1 Hl1] Hu. unfold insert_workflow_binding in Hu. run_inv.
  match goal with H1 : ¬ (_ ∨ _) |- _ => apply Decidable.not_or in H1 as [Hv%dec_stable Hdg%dec_stable] end.
  apply insert_binding_keeps in Hu as (Hok2 & Ew & Ewv); [|done|by cbn; rewrite Hv|].
  - split; [done|]. by apply (worker_live_ext t1).
  - unfold binding_valid. cbn. destruct r as [[]]. cbn in *. subst.
    match goal with H1 : descriptor_digest _ = Ok _ |- _ => pose proof (digest_schema _ _ H1) as Hs; cbn in Hs; by subst end.
Qed.

(** ** Worker versions *)

(** A new Worker version carries nothing yet. *)
Lemma counted_new_worker db id w :
  tables_ok db → counted_ok db → db.(worker_versions) !! id = None → counted_ok (set_worker_versions <[id := w]> db).
Proof.
  intros Ht Hok Hnone did d p Hd Hp. destruct (Hok did d p Hd Hp) as [Hc Hj]. split; [|done]. rewrite Hc.
  assert (Hne : ∀ bid b, db.(bindings) !! bid = Some b → id ≠ b.(b_version)).
  { intros bid b Hb ->. destruct (k_binding db Ht _ _ Hb) as [_ _ _ _ [x Hx]]. congruence. }
  unfold consumed. cbn. f_equiv. split; intros (bid & b & Hb & E1 & E2 & E3); exists bid, b; split_and!; try done.
  - rewrite lookup_insert_ne; [done|by eapply Hne].
  - rewrite lookup_insert_ne in E3; [done|by eapply Hne].
Qed.

Lemma insert_staging_version_keeps taken instance version worker code loader rs :
  keeps (insert_staging_version taken instance version worker code loader rs).
Proof.
  unfold insert_staging_version. apply keeps_transaction. intros db db' x Hok Hr. cat_inv.
  match goal with H1 : require_live_worker _ _ _ = _ |- _ => apply require_live_worker_run in H1 as (-> & _ & Hw) end.
  match goal with H1 : insert_worker_version _ _ _ = _ |- _ =>
    apply insert_worker_version_ok in H1 as (Ht1 & Hnone & ->); [|by apply Hok] end.
  eapply insert_workflow_bindings_keeps; [|..|done].
  - split; [done|apply counted_new_worker; [apply Hok..|done]|by apply (intents_ext db), Hok].
  - unfold worker_live. cbn. by rewrite lookup_insert_eq.
Qed.

(** The moves of a Worker version: active to inactive, or within one of the two. *)
Definition settles (w w' : WorkerVersionRow) : Prop :=
  active w'.(wv_state) = active w.(wv_state) ∨
  (((w.(wv_state) = VStaging ∨ w.(wv_state) = VValidating) ∧ w'.(wv_state) = VRejected) ∨
   ((w.(wv_state) = VReady ∨ w.(wv_state) = VRejected) ∧ w'.(wv_state) = VDeleting)).

Lemma consumed_moved db id w w' did owner fence :
  db.(worker_versions) !! id = Some w → settles w w' →
  (consumed (set_worker_versions <[id := w']> db) did owner fence → consumed db did owner fence) ∧
  (consumed db did owner fence → consumed (set_worker_versions <[id := w']> db) did owner fence ∨
     (active w'.(wv_state) ≠ active w.(wv_state) ∧
      map_Exists (λ _ b, b.(b_version) = id ∧ b.(b_definition) = did ∧ b.(b_reservation) = Some (owner, fence)) db.(bindings))).
Proof.
  intros Hw Hs. assert (Ha : active w'.(wv_state) = true → active w.(wv_state) = true).
  { destruct Hs as [->|[[Hs ->]|[Hs ->]]]; done. }
  unfold consumed. cbn. split.
  - intros [(bid & b & Hb & E1 & E2 & E3)|?]; [left|by right]. exists bid, b. split_and!; try done.
    destruct (decide (b_version b = id)) as [He|Hne].
    + rewrite He, lookup_insert_eq in E3. rewrite He, Hw. cbn in *. auto.
    + by rewrite lookup_insert_ne in E3.
  - intros [(bid & b & Hb & E1 & E2 & E3)|?]; [|by left; right]. destruct (decide (b_version b = id)) as [He|Hne].
    + destruct (decide (active (wv_state w') = active (wv_state w))) as [Hact|Hact].
      * left; left. exists bid, b. rewrite He, lookup_insert_eq. rewrite He, Hw in E3. cbn in *. by rewrite Hact.
      * right. split; [done|]. by exists bid, b.
    + left; left. exists bid, b. by rewrite lookup_insert_ne.
Qed.

Lemma counted_moved db id w w' :
  tables_ok db → counted_ok db → db.(worker_versions) !! id = Some w → settles w w' → counted_ok (moved_worker db id w w').
Proof.
  intros Ht Hok Hw Hs. unfold moved_worker. case_decide as Hm.
  - intros did d' p Hd Hp. rewrite release_orphans_lookup, fmap_Some in Hd. cbn in Hd. destruct Hd as (d & Hd & ->).
    unfold released in *. case_decide as Ho; [done|]. destruct (Hok did d p Hd Hp) as [Hc Hj]. split; [|done]. rewrite Hc.
    destruct (consumed_moved db id w w' did (reservation_owner p) (reservation_fence d) Hw Hs) as [H1 H2].
    split; [|done]. intros Hco. destruct (decide (consumed (set_worker_versions <[id := w']> db) did (reservation_owner p)
      (reservation_fence d))) as [|Hno]; [done|]. exfalso. apply Ho. destruct (H2 Hco) as [?|[_ Hb]]; [done|].
    destruct (dk_check _ _ _ (k_definition db Ht _ _ Hd)) as (_ & _ & _ & _ & _ & Hpc & _). rewrite Hp in Hpc.
    unfold orphaned. rewrite Hp. cbn. split_and!; [apply Hpc|exact Hb|exact Hno].
  - intros did d p Hd Hp. cbn in Hd. destruct (Hok did d p Hd Hp) as [Hc Hj]. split; [|done]. rewrite Hc.
    destruct (consumed_moved db id w w' did (reservation_owner p) (reservation_fence d) Hw Hs) as [H1 H2].
    split; [|done]. intros Hco. destruct (H2 Hco) as [?|[Ha _]]; [done|]. destruct Hs as [?|?]; done.
Qed.

Lemma update_worker_version_keeps id P `{!∀ w, Decision (P w)} f db db' b :
  control_ok db → update_worker_version id P f db = (db', Ok b) → (∀ w, worker_columns (f w) = worker_columns w) →
  (∀ w, db.(worker_versions) !! id = Some w → P w → settles w (f w)) →
  control_ok db' ∧ db'.(bindings) = db.(bindings) ∧
  ∀ v w', db'.(worker_versions) !! v = Some w' → ∃ w, db.(worker_versions) !! v = Some w ∧
    (w' = w ∨ (v = id ∧ P w ∧ w' = f w)).
Proof.
  intros [Ht Hc Hi] [(_ & ->)|(_ & w & Hw & HP & ->)]%update_worker_version_run Hcol Hs.
  { split; [done|]. split; [done|]. intros v w' Hv. exists w'. auto. }
  split; [split; [by apply moved_worker_ok|by apply counted_moved; auto|]|].
  - unfold moved_worker. case_decide; by apply (intents_ext db).
  - unfold moved_worker. case_decide; (split; [done|]); cbn; intros v w' [[<- <-]|[Hne Hv]]%lookup_insert_Some; eauto 10.
Qed.

Lemma transition_keeps containers version expected target now_ms :
  (∀ w, w.(wv_state) = expected → settles w (set_worker_state target now_ms w)) →
  keeps (transition containers version expected target now_ms).
Proof.
  intros Hs. unfold transition. apply keeps_transaction. intros db db' x Hok Hr. cat_inv; subst.
  all: match goal with H1 : update_worker_version _ _ _ _ = _ |- _ =>
    apply update_worker_version_keeps in H1 as (? & _); [done..|] end; auto.
Qed.

Lemma begin_validation_keeps version : keeps (begin_validation version).
Proof. apply transition_keeps. intros w Hw. left. cbn. by rewrite Hw. Qed.
Lemma mark_ready_keeps containers version now_ms : keeps (mark_ready containers version now_ms).
Proof. apply transition_keeps. intros w Hw. left. cbn. by rewrite Hw. Qed.
Lemma mark_rejected_keeps version expected now_ms : keeps (mark_rejected version expected now_ms).
Proof.
  unfold mark_rejected. apply keeps_throw_if. intros He%dec_stable. apply transition_keeps. intros w Hw. right; left.
  by rewrite Hw.
Qed.

(** ** Deletion *)

Lemma create_worker_keeps elsewhere worker : keeps (create_worker elsewhere worker).
Proof.
  unfold create_worker. apply keeps_transaction. intros db db' x [Ht Hc Hi] Hr. run_inv. subst. bools.
  split; [|by apply (counted_catalog db)|by apply (intents_ext db)]. apply insert_worker_ok; [done|]. by apply eq_None_not_Some.
Qed.

Lemma delete_worker_keeps instance worker now_ms : keeps (delete_worker instance worker now_ms).
Proof.
  intros db db' x [Ht Hc Hi] [Hw ->]%delete_worker_run.
  split; [by apply without_worker_ok| |by apply (intents_ext db)].
  apply (counted_ext db); try done. cbn. intros id d' p Hd Hp. rewrite lookup_fmap, fmap_Some in Hd.
  destruct Hd as (d & Hd & ->). exists d. unfold unavailable_if in *. by destruct (decide _).
Qed.

(** The binding of a version nothing runs any more. *)
Lemma delete_binding_keeps id db db' u :
  control_ok db → (∀ b, db.(bindings) !! id = Some b →
    is_some_and (λ w, active w.(wv_state) = false) (db.(worker_versions) !! b.(b_version))) →
  delete_binding id db = (db', Ok u) →
  control_ok db' ∧ db'.(worker_versions) = db.(worker_versions) ∧ db'.(bindings) ⊆ db.(bindings).
Proof.
  intros [Ht Hc Hi] Ha Hr. pose proof (delete_binding_ok _ _ _ _ Ht Hr) as Ht1.
  apply delete_binding_run in Hr. destruct (bindings db !! id) as [b|] eqn:Hb; [|by subst].
  destruct Hr as (_ & _ & _ & ->). specialize (Ha b eq_refl). split; [split; [done|..]|].
  - intros did d p Hd Hp. destruct (Hc did d p Hd Hp) as [Hb' Hj]. split; [|done]. rewrite Hb'. unfold consumed. cbn. f_equiv.
    split; intros (bid & b1 & Hb1 & E1 & E2 & E3); exists bid, b1.
    + split; [|done]. rewrite lookup_delete_ne; [done|]. intros <-. assert (b1 = b) as -> by congruence.
      destruct (worker_versions db !! b_version b); cbn in *; congruence.
    + apply lookup_delete_Some in Hb1 as [_ Hb1]. done.
  - by apply (intents_ext db).
  - split; [done|]. cbn. apply delete_subseteq.
Qed.

Lemma delete_version_bindings_keeps version db db' u :
  control_ok db → is_some_and (λ w, active w.(wv_state) = false) (db.(worker_versions) !! version) →
  delete_version_bindings version db = (db', Ok u) → control_ok db' ∧ db'.(worker_versions) = db.(worker_versions).
Proof.
  intros Hok Ha Hr. unfold delete_version_bindings in Hr. cat_inv. run_inv. subst.
  match goal with H1 : for_each _ (_ <$> _) _ = _ |- _ =>
    eapply (for_each_inv (λ s, control_ok s ∧ s.(worker_versions) = db.(worker_versions) ∧ s.(bindings) ⊆ db.(bindings)))
      in H1 as (? & ? & _); [done| |done] end.
  intros id t1 t2 y Hid (Hok1 & Ew & Hsub) Hu.
  apply delete_binding_keeps in Hu as (Hok2 & Ew2 & Hsub2); [|done|].
  - split_and!; [done|congruence|by etrans].
  - intros b Hb. apply list_elem_of_fmap in Hid as ([id' b'] & -> & Hin). apply list_elem_of_filter in Hin as [Hv Hin].
    apply elem_of_map_to_list in Hin. cbn in *. eapply lookup_weaken in Hb; [|exact Hsub].
    assert (b = b') as -> by congruence. by rewrite Hv, Ew.
Qed.

Lemma begin_version_delete_keeps instance worker version is_active elsewhere :
  keeps (begin_version_delete instance worker version is_active elsewhere).
Proof.
  unfold begin_version_delete, read_worker. apply keeps_transaction. intros db db' x Hok Hr. cat_inv; subst; [done|].
  match goal with H1 : update_worker_version _ _ _ _ = _ |- _ =>
    apply update_worker_version_keeps in H1 as (? & _); [done..|] end.
  intros w _ [_ Hs]. right. right. auto.
Qed.

Lemma finalize_version_delete_keeps instance worker version elsewhere now_ms :
  keeps (finalize_version_delete instance worker version elsewhere now_ms).
Proof.
  unfold finalize_version_delete, read_worker. apply keeps_transaction. intros db db' x Hok Hr. cat_inv; subst. bools.
  match goal with H1 : delete_version_bindings _ _ = _ |- _ =>
    apply delete_version_bindings_keeps in H1 as [Hok1 Ew]; [|done|] end.
  - match goal with H1 : update_worker_version _ _ _ _ = _ |- _ =>
      apply update_worker_version_keeps in H1 as (? & _); [done..|] end.
    intros w _ [_ Hs]. left. cbn. by rewrite Hs.
  - destruct (worker_versions db !! version) as [w|]; [|done]. cbn in *.
    match goal with H1 : _ ∧ wv_state w = VDeleting |- _ => by destruct H1 as [_ ->] end.
Qed.

Lemma recover_deleting_versions_keeps elsewhere now_ms limit : keeps (recover_deleting_versions elsewhere now_ms limit).
Proof.
  unfold recover_deleting_versions. apply keeps_throw_if. intros _. apply keeps_transaction.
  intros db db' x Hok Hr. run_inv. subst.
  match goal with H1 : for_each _ ?l _ = _ |- _ => set (ids := l) in *;
    eapply (for_each_inv (λ s, control_ok s ∧ ∀ id, id ∈ ids →
      is_some_and (λ w, active w.(wv_state) = false) (s.(worker_versions) !! id))) in H1 as (? & _); [done|..] end.
  - intros id t1 t2 y Hid [Hok1 Ha] Hu. cat_inv.
    match goal with H1 : delete_version_bindings _ _ = _ |- _ =>
      apply delete_version_bindings_keeps in H1 as [Hok2 Ew]; [|done|by apply Ha] end.
    match goal with H1 : update_worker_version _ _ _ _ = _ |- _ => rename H1 into Hup;
      pose proof Hup as Hrun; apply update_worker_version_run in Hrun end.
    apply update_worker_version_keeps in Hup as (Hok3 & _ & Hv); [|done|done|intros w _ Hs; left; cbn; by rewrite Hs].
    split; [done|]. intros id' Hid'. specialize (Ha id' Hid'). rewrite <-Ew in Ha.
    destruct Hrun as [[_ ->]|(_ & w & Hw & HP & ->)]; [done|]. unfold moved_worker. case_decide; cbn.
    all: destruct (decide (id = id')) as [<-|Hne]; [by rewrite lookup_insert_eq|by rewrite lookup_insert_ne].
  - split; [done|]. intros id Hid. unfold ids, deleting_unreferenced in Hid.
    apply list_elem_of_fmap in Hid as ([id' w] & -> & Hin). apply subseteq_take in Hin.
    apply elem_of_order_by, list_elem_of_filter in Hin as [[Hst _] Hin]. apply elem_of_map_to_list in Hin. cbn in *.
    rewrite Hin. cbn. by rewrite Hst.
Qed.
End workers.
