(* ===== verification/WorkflowControlReach.v ===== *)
(** * Reachable catalogs

    Every call on the control half of the workflow store, any of which may fail: from a new
    catalog all of them keep the invariant, and in a catalog that has it the startup
    validation refuses exactly two things. *)

From stdpp Require Import base numbers list option strings sorting gmap.
From S2P Require Import Prelude Text ErrorCodes Duration RetryPolicy Sql CronSlots WorkflowTypes WorkflowDb WorkflowRuns WorkflowOperations WorkflowControl WorkflowCatalog WorkflowBindings WorkflowReservations WorkflowIntents WorkflowIntegrity WorkflowControlInv WorkflowControlMoves WorkflowControlOps WorkflowControlInstances WorkflowControlWorkers.

Local Open Scope Z_scope.

(** A call of the catalog, the reservations, the operations, the bindings or the Worker
    versions, with the identities it would draw. *)
Inductive ControlCall : Type :=
| CreateDefinition (name : ustr) (id : N)
| ReserveDefinition (name class_name owner : ustr) (id : N)
| ReleaseDefinition (r : WorkflowDefinitionReservation)
| RenameDefinition (id : N) (name : ustr)
| DeleteDefinition (id : N)
| BeginDefinitionDelete (name : ustr)
| FinishDefinitionDelete (intent : WorkflowDeleteIntent)
| MarkUnavailable (id : N)
| StageVersion (definition version : N) (class_name : ustr) (fresh : N)
| StageReservedVersion (definition version : N) (class_name : ustr) (r : WorkflowDefinitionReservation) (fresh : N)
| FinishVersion (id : N) (accepted : bool)
| RetireUnusedVersions (limit : Z)
| ReserveInstances (definition batch : N) (qs : list ReservationRequest) (limits : WorkflowsConfig)
| FinalizeInstances (ids : list WorkflowInstanceIdentity)
| AbandonCreations (ids : list WorkflowInstanceIdentity)
| RepairReferrers (i : WorkflowInstanceIdentity)
| RetainInstance (i : WorkflowInstanceIdentity)
| PrepareOperation (i : WorkflowInstanceIdentity) (operation : N) (kind : WorkflowOperationKind) (limits : WorkflowsConfig)
| PrepareRestart (i : WorkflowInstanceIdentity) (operation : N) (from : option WorkflowRestartSelector) (limits : WorkflowsConfig)
| CompleteOperation (op : WorkflowOperation)
| CancelOperation (op : WorkflowOperation)
| BeginBindingOperation (binding operation : N) (kind : ustr) (fingerprint request : list Z)
| FinishBindingOperation (binding operation : N) (response : list Z)
| CreateWorker (elsewhere : result PlatformError unit) (worker : N)
| InsertStagingVersion (taken : ustr → bool) (version worker : N) (code : list Z) (loader : Z) (rs : list WorkflowBindingRecord)
| BeginValidation (version : N)
| MarkReady (containers : result PlatformError unit) (version : N)
| MarkRejected (version : N) (expected : VersionState)
| DeleteWorker (worker : N)
| BeginVersionDelete (worker version : N) (is_active elsewhere : bool)
| FinalizeVersionDelete (worker version : N) (elsewhere : bool)
| RecoverDeletingVersions (elsewhere : N → bool) (limit : Z).

Section reach.
Context `{Codec, CronParser}.
Implicit Types db : ControlDb.

(** The call's own result is dropped; its error is not. *)
Definition void {A} (m : CM A) : CM unit := _ ← m; mret ().

Definition control_call (instance : N) (now_ms : Z) (c : ControlCall) : CM unit :=
  match c with
  | CreateDefinition name id => void (create_definition instance name id now_ms)
  | ReserveDefinition name class_name owner id => void (reserve_definition instance name class_name owner id now_ms)
  | ReleaseDefinition r => void (release_definition_reservation instance r now_ms)
  | RenameDefinition id name => void (rename instance id name now_ms)
  | DeleteDefinition id => void (delete_definition instance id now_ms)
  | BeginDefinitionDelete name => void (begin_definition_delete instance name now_ms)
  | FinishDefinitionDelete intent => void (finish_definition_delete instance intent now_ms)
  | MarkUnavailable id => mark_unavailable instance id now_ms
  | StageVersion definition version class_name fresh =>
      void (stage_version instance definition version class_name fresh now_ms)
  | StageReservedVersion definition version class_name r fresh =>
      void (stage_reserved_version instance definition version class_name r fresh now_ms)
  | FinishVersion id accepted => void (finish_version instance id accepted now_ms)
  | RetireUnusedVersions limit => void (retire_unused_versions limit now_ms)
  | ReserveInstances definition batch qs limits =>
      void (reserve_instances_with_schedules instance definition batch qs limits now_ms)
  | FinalizeInstances ids => finalize_instances ids now_ms
  | AbandonCreations ids => void (abandon_creations ids)
  | RepairReferrers i => repair_instance_referrers i
  | RetainInstance i => retain_instance i now_ms
  | PrepareOperation i operation kind limits => void (prepare_instance_operation i operation kind limits now_ms)
  | PrepareRestart i operation from limits => void (prepare_restart_operation i operation from limits now_ms)
  | CompleteOperation op => complete_instance_operation op now_ms
  | CancelOperation op => cancel_instance_operation op now_ms
  | BeginBindingOperation binding operation kind fingerprint request =>
      void (begin_binding_operation binding operation kind fingerprint request now_ms)
  | FinishBindingOperation binding operation response => finish_binding_operation binding operation response now_ms
  | CreateWorker elsewhere worker => create_worker elsewhere worker
  | InsertStagingVersion taken version worker code loader rs =>
      insert_staging_version taken instance version worker code loader rs
  | BeginValidation version => begin_validation version
  | MarkReady containers version => mark_ready containers version now_ms
  | MarkRejected version expected => mark_rejected version expected now_ms
  | DeleteWorker worker => delete_worker instance worker now_ms
  | BeginVersionDelete worker version is_active elsewhere =>
      begin_version_delete instance worker version is_active elsewhere
  | FinalizeVersionDelete worker version elsewhere => finalize_version_delete instance worker version elsewhere now_ms
  | RecoverDeletingVersions elsewhere limit => void (recover_deleting_versions elsewhere now_ms limit)
  end.

(** A new control database of an instance. *)
Definition empty_control (instance : N) : ControlDb := {|
  instance_identity := instance; workers := ∅; worker_versions := ∅; definitions := ∅; versions := ∅;
  bindings := ∅; binding_operations := ∅; binding_locks := ∅; version_referrers := ∅; workflow_referrers := ∅;
  referrers := ∅; intents := ∅ |}.

Definition control_step (db db' : ControlDb) : Prop :=
  ∃ instance now_ms c, (control_call instance now_ms c db).1 = db'.
Definition control_reachable (instance : N) (db : ControlDb) : Prop := rtc control_step (empty_control instance) db.

Lemma keeps_void {A} (m : CM A) : keeps m → keeps (void m).
Proof. intros Hm db db' x Hok Hr. unfold void in Hr. run_inv. by eapply Hm. Qed.

Lemma control_call_keeps instance now_ms c : keeps (control_call instance now_ms c).
Proof.
  destruct c; cbn; try apply keeps_void; auto using create_definition_keeps, reserve_definition_keeps,
    release_definition_reservation_keeps, rename_keeps, delete_definition_keeps, begin_definition_delete_keeps,
    finish_definition_delete_keeps, mark_unavailable_keeps, stage_version_keeps, stage_reserved_version_keeps,
    finish_version_keeps, retire_unused_versions_keeps.
  all: auto using reserve_instances_with_schedules_keeps, finalize_instances_keeps, abandon_creations_keeps,
    retain_instance_keeps, prepare_instance_operation_keeps, prepare_restart_operation_keeps,
    complete_instance_operation_keeps, cancel_instance_operation_keeps, begin_binding_operation_keeps,
    finish_binding_operation_keeps.
  all: auto using create_worker_keeps, insert_staging_version_keeps, begin_validation_keeps, mark_ready_keeps,
    mark_rejected_keeps, delete_worker_keeps, begin_version_delete_keeps, finalize_version_delete_keeps,
    recover_deleting_versions_keeps.
  intros db db' x Hok Hr. apply repair_instance_referrers_id in Hr; [by subst|apply Hok].
Qed.

(** A call that fails leaves no trace. *)
Lemma control_call_atomic instance now_ms c : atomic (control_call instance now_ms c).
Proof.
  assert (Hvoid : ∀ A (m : CM A), atomic m → atomic (void m)).
  { intros A m Hm. apply atomic_bind_total; [done|]. intros a. apply total_ret. }
  destruct c; cbn; try apply Hvoid;
    unfold create_definition, reserve_definition, release_definition_reservation, rename, delete_definition,
      begin_definition_delete, finish_definition_delete, mark_unavailable, stage_version, stage_reserved_version,
      stage_version_inner, finish_version, retire_unused_versions, reserve_instances_with_schedules,
      finalize_instances, abandon_creations, repair_instance_referrers, retain_instance,
      prepare_instance_operation, prepare_restart_operation, prepare_operation, complete_instance_operation,
      cancel_instance_operation, begin_binding_operation, finish_binding_operation, create_worker,
      insert_staging_version, begin_validation, mark_ready, mark_rejected, transition, delete_worker,
      begin_version_delete, finalize_version_delete, recover_deleting_versions; auto with tx nocore.
Qed.

Lemma empty_control_ok instance : control_ok (empty_control instance).
Proof.
  split; [|done|by split]. constructor; try done.
  - by intros [[? []] ?].
  - by intros [[? []] ?].
Qed.

Lemma control_step_keeps db db' : control_step db db' → control_ok db → control_ok db'.
Proof.
  intros (i & now_ms & c & Hc) Hok. destruct (control_call i now_ms c db) as [y [u|e]] eqn:E; cbn in Hc; subst y.
  - by eapply control_call_keeps.
  - apply control_call_atomic in E. by subst.
Qed.

Lemma control_reachable_ok instance db : control_reachable instance db → control_ok db.
Proof.
  assert (Hs : ∀ x y, rtc control_step x y → control_ok x → control_ok y).
  { induction 1; eauto using control_step_keeps. }
  intros Hr. by eapply Hs, empty_control_ok.
Qed.

(** ** Startup validation *)

Lemma version_worker db id v :
  tables_ok db → db.(versions) !! id = Some v →
  is_Some (db.(worker_versions) !! v.(v_worker_version)) ∧ is_Some (db.(workers) !! v.(v_worker)).
Proof.
  intros Hok Hv. destruct (vk_worker _ _ _ (k_version db Hok _ _ Hv)) as (w & Hw & <- & _). split; [by exists w|].
  by eapply (k_workers db Hok).
Qed.
Lemma version_definition db id v :
  tables_ok db → db.(versions) !! id = Some v → is_Some (db.(definitions) !! v.(v_definition)).
Proof. intros Hok Hv. destruct (vk_definition _ _ _ (k_version db Hok _ _ Hv)) as (d & Hd & _). by exists d. Qed.
Lemma referrer_rows db id r :
  tables_ok db → db.(referrers) !! id = Some r →
  is_Some (db.(definitions) !! r.(rf_definition)) ∧ is_Some (db.(versions) !! r.(rf_version)) ∧
  is_Some (db.(worker_versions) !! r.(rf_worker_version)).
Proof.
  intros Hok Hr. destruct (rk_version _ _ _ (k_referrer db Hok _ _ Hr)) as (v & Hv & <- & <- & _).
  split; [by eapply version_definition|]. split; [by exists v|]. by eapply version_worker.
Qed.

Lemma foreign_keys_ok db : control_ok db → foreign_keys db.
Proof.
  intros [Ht _ Hi]. unfold foreign_keys. split_and!; intros k x Hx.
  - by eapply (k_workers db Ht).
  - destruct (current_version_id x) as [c|] eqn:Hc; [|done].
    destruct (dk_current _ _ _ (k_definition db Ht _ _ Hx) c Hc) as (v & Hv & _). by exists v.
  - destruct (version_worker db k x Ht Hx). split_and!; [by eapply version_definition|done..].
  - destruct (k_binding db Ht _ _ Hx) as [_ _ _ (d & Hd & _) ?]. split; [done|by exists d].
  - by eapply (k_operations db Ht).
  - by eapply (k_locks db Ht).
  - rewrite (k_version_refs db Ht) in Hx. destruct k as [[w [|]] id]; cbn in *;
      apply bind_Some in Hx as (y & Hy & Hd); case_decide as Hc; [|done| |done]; destruct Hc as [<- _].
    + by eapply version_worker.
    + by eapply referrer_rows.
  - rewrite (k_definition_refs db Ht) in Hx. destruct k as [[w [|]] id]; cbn in *;
      apply bind_Some in Hx as (y & Hy & Hd); case_decide as Hc; [|done| |done]; destruct Hc as [<- _].
    + destruct (k_binding db Ht _ _ Hy) as [_ _ _ (d & Hd' & _) _]. by exists d.
    + by eapply referrer_rows.
  - by eapply referrer_rows.
  - destruct (ik_row _ _ _ (i_intent db Hi _ _ Hx)) as (r & Hr & _). by exists r.
Qed.

(** The identity of a reservation is the frozen target of its version. *)
Lemma reservation_row_ok db id r :
  control_ok db → db.(referrers) !! id = Some r →
  ∃ w, reservation_row db id r = Some w ∧ frozen w.(rv_identity).(target) ∧
    w.(rv_identity).(target).(capability_version) = 1 ∧ referrers_intact db w.(rv_identity) ∧
    w.(rv_state) = r.(rf_state) ∧ w.(rv_identity).(creation_nonce) = r.(rf_nonce) ∧
    w.(rv_identity).(instance_generation) = r.(rf_generation) ∧
    w.(rv_identity).(external_instance_id) = r.(rf_external) ∧
    w.(rv_identity).(target).(definition_name) = r.(rf_definition_name).
Proof.
  intros [Ht _ Hi] Hr. destruct (rk_version _ _ _ (k_referrer db Ht _ _ Hr)) as (v & Hv & Ed & Ew & _).
  destruct (version_definition db _ v Ht Hv) as [d Hd]. rewrite Ed in Hd.
  destruct (k_version db Ht _ _ Hv) as [Hc Hf _ _]. destruct (i_settled db Hi id r Hr) as [_ Hs].
  unfold reservation_row. rewrite Hv. cbn. rewrite Hd. eexists. split; [done|]. cbn. split_and!; try done.
  - specialize (Hf (rf_definition_name r)). unfold frozen, version_digest in *. cbn in *. by rewrite <-Ed, <-Ew.
  - apply Hc.
  - unfold referrers_intact. cbn. rewrite (k_version_refs db Ht), (k_definition_refs db Ht). cbn. rewrite Hr. cbn.
    by rewrite !decide_True.
Qed.

Lemma rows_valid_ok db : control_ok db → rows_valid db.
Proof.
  intros Hok. pose proof (co_tables db Hok) as Ht. unfold rows_valid. split_and!; intros k x Hx.
  - apply (k_definition db Ht _ _ Hx).
  - unfold version_valid, version_row. destruct (version_definition db _ x Ht Hx) as [d ->]. cbn.
    apply (k_version db Ht _ _ Hx).
  - apply (k_binding db Ht _ _ Hx).
  - destruct (reservation_row_ok db k x Hok Hx) as (w & Hw & Hf & Hc & _ & Es & _ & _ & Ee & En).
    unfold reservation_valid. rewrite Hw. cbn. rewrite En, Ee, Es. destruct (k_referrer db Ht _ _ Hx) as [_ ?? _].
    split_and!; try done. apply (i_settled db (co_intents db Hok) _ _ Hx).
Qed.

Lemma version_referrers_exact_ok db : tables_ok db → version_referrers_exact db.
Proof.
  intros Ht. split.
  - apply Forall_forall. intros k _. rewrite (k_version_refs db Ht). by destruct (expected_version db k).
  - intros k t Hk. by rewrite <-(k_version_refs db Ht).
Qed.
Lemma workflow_referrers_exact_ok db : tables_ok db → workflow_referrers_exact db.
Proof.
  intros Ht. split.
  - apply Forall_forall. intros k _. rewrite (k_definition_refs db Ht). by destruct (expected_definition db k).
  - intros k t Hk. by rewrite <-(k_definition_refs db Ht).
Qed.

(** A row admitted under a reservation has its class while the reservation is pending. *)
Lemma class_kept_ok db d id r c :
  db.(definitions) !! id = Some d → reserved_under d r c → class_kept db id r c.
Proof.
  intros Hd Hr. unfold class_kept. destruct r as [[owner fence]|]; [|done]. cbn. rewrite Hd. cbn.
  by destruct (Hr owner fence eq_refl).
Qed.

(** Of a version's Worker the validation asks for more than the catalog keeps. *)
Definition carried (db : ControlDb) : Prop :=
  map_Forall (λ id v, worker_ready db v ∧ deletion_seen db id v) db.(versions).

Lemma clauses_valid_iff db : control_ok db → clauses_valid db ↔ carried db.
Proof.
  intros Hok. pose proof (co_tables db Hok) as Ht. unfold clauses_valid, carried. split.
  - intros (_ & _ & _ & Hv & _) id v Hx. by destruct (Hv id v Hx) as (_ & ? & ? & _).
  - intros Hc. split_and!; [by apply version_referrers_exact_ok|by apply workflow_referrers_exact_ok|..]; intros k x Hx.
    + destruct (k_definition db Ht _ _ Hx) as [_ _ _ Hrd Hcur]. split.
      * split; [done|]. intros [c Hcc]. destruct (Hcur c Hcc) as (v & Hv & Hvd & Hvs). unfold current_ready. rewrite Hcc. cbn.
        by rewrite Hv.
      * unfold reservation_counted. destruct (pending x) as [p|] eqn:Hp; [|done]. cbn. by apply (co_counted db Hok k x p).
    + destruct (k_version db Ht _ _ Hx) as [_ _ (d & Hd & Hr) (w & Hw & Hw1 & Hw2 & Hw3)].
      destruct (Hc k x Hx). split_and!; try done; [|by eapply class_kept_ok]. unfold worker_frozen. by rewrite Hw.
    + destruct (k_binding db Ht _ _ Hx) as [_ _ Hg (d & Hd & Hr & Hl) _]. split; [|by eapply class_kept_ok].
      destruct (k_definition db Ht _ _ Hd) as [_ (_ & Hlg & _) Hcr _ _].
      unfold binding_current. rewrite Hd. cbn. split; [congruence|]. intros Hlive. destruct (Hl Hlive) as [Ho Hres].
      split; [done|]. intros Hs. split; [by apply Hcr|by apply Hres].
    + destruct (rk_version _ _ _ (k_referrer db Ht _ _ Hx)) as (v & Hv & Ed & Ew & Hs).
      unfold pinned. rewrite Hv. cbn. done.
Qed.

Lemma selector_valid s : selector_fits s → is_ok (WorkflowRestartSelector_validate s) = true.
Proof.
  unfold selector_fits, WorkflowRestartSelector_validate, bail_if. intros [Hn Hc].
  rewrite decide_False; [done|]. intros [E|[?|[?|?]]]; [rewrite E in Hn; cbn in Hn|..]; lia.
Qed.

(** Every prepared operation reads back. *)
Lemma read_operation_ok db id o :
  control_ok db → db.(intents) !! id = Some o → ∃ op, read_operation id db = (db, Ok (Some op)).
Proof.
  intros Hok Ho. destruct (i_intent db (co_intents db Hok) _ _ Ho) as [Ha Hc (r & Hr & E1 & E2 & E3 & E4)].
  destruct (reservation_row_ok db id r Hok Hr) as (w & Hw & Hf & Hcap & Hint & Es & En & Eg & _).
  assert (Hcons : intent_consistent db r w o).
  { destruct Hc as (_ & _ & Hseq & _ & _ & Hk). unfold intent_consistent. rewrite En, Eg, Es, E4. split_and!; try done.
    - intros Hkind. rewrite Hkind in *. destruct Hk as [Hlt ->]. split; [done|]. unfold i64_checked. rewrite decide_True; [done|].
      unfold in_i64. destruct (ik_check _ _ _ (i_intent db (co_intents db Hok) _ _ Ho)). lia.
    - intros Hkind. rewrite Hkind in *. destruct Hk as (? & ? & ?). done. }
  exists (operation_of (rv_identity w) o). unfold read_operation, read_reservation. run_simpl.
  rewrite Ho. cbn. rewrite Hr. cbn. rewrite Hw. cbn.
  rewrite (decide_False (P := is_some_and _ _)).
  - by rewrite bool_decide_true by done.
  - destruct (in_restart_from o) as [sel|] eqn:Hsel; [|by intros []]. cbn. rewrite selector_valid; [by intros|].
    destruct Hc as (_ & _ & _ & _ & Hfit & _). by rewrite Hsel in Hfit.
Qed.

Lemma verify_operations_ok db : control_ok db → verify_operations db = (db, Ok ()).
Proof.
  intros Hok. set (l := (map_to_list (intents db)).*1).
  assert (Hl : ∀ id, id ∈ l → is_Some (db.(intents) !! id)).
  { intros id ([id' o] & -> & Hin)%list_elem_of_fmap. exists o. by apply elem_of_map_to_list. }
  assert (∃ ys, for_each (λ id, o ← read_operation id; some_or o violation) l db = (db, Ok ys)) as [ys Hys].
  { clearbody l. induction l as [|id l IH]; [by exists []|]. destruct IH as [ys Hys]; [intros; apply Hl; by right|].
    destruct (Hl id) as [o Ho]; [by left|]. destruct (read_operation_ok db id o Hok Ho) as [op Hop].
    exists (op :: ys). apply for_each_cons_run. exists db, op, ys. split; [|done]. apply bind_run. by exists db, (Some op). }
  unfold verify_operations. apply bind_run. eexists db, _. split; [by apply gets_run|].
  apply bind_run. exists db, (). split.
  - apply throw_if_run. split; [done|]. rewrite bool_decide_eq_true.
    intros (id & r & Hr & Hs & Hno). destruct (i_restarting db (co_intents db Hok) id r Hr Hs) as (o & Ho & Hk).
    apply Hno. by rewrite Ho.
  - apply bind_run. exists db, l. split; [by apply gets_run|]. apply bind_run. by exists db, ys.
Qed.

Lemma run_invariants_run db :
  control_ok db → (run_invariants db).2 = Ok () ↔ carried db.
Proof.
  intros Hok. rewrite <-(clauses_valid_iff db Hok). unfold run_invariants, verify_control, verify_catalog. run_simpl.
  pose proof (foreign_keys_ok db Hok). pose proof (rows_valid_ok db Hok).
  destruct (decide (clauses_valid db)) as [Hc|Hc].
  - rewrite bool_decide_true by done. cbn. rewrite verify_operations_ok by done. done.
  - rewrite bool_decide_false by tauto. cbn. split; [done|]. done.
Qed.
End reach.

(** ** What no call undoes

    Over any sequence of calls a catalog only moves forward: the owner stays, a definition's
    fence only grows and its tombstone is final, a version keeps its frozen columns and
    never comes back from retirement, and the record of a binding mutation stays with its
    binding. *)

Definition fenced (d d' : DefinitionRow) : Prop :=
  d.(reservation_fence) ≤ d'.(reservation_fence) ∧ (d.(d_state) = DTombstoned → d' = d).

Record extends (db db' : ControlDb) : Prop := {
  ex_instance : db'.(instance_identity) = db.(instance_identity);
  ex_definitions : ∀ id d, db.(definitions) !! id = Some d → ∃ d', db'.(definitions) !! id = Some d' ∧ fenced d d';
  ex_versions : ∀ id v, db.(versions) !! id = Some v → ∃ v', db'.(versions) !! id = Some v' ∧
    version_columns v' = version_columns v ∧ (retired v.(v_state) = true → retired v'.(v_state) = true);
  ex_records : ∀ op o, db.(binding_operations) !! op = Some o →
    ∃ o', db'.(binding_operations) !! op = Some o' ∧ o'.(bo_binding) = o.(bo_binding);
  ex_bindings : ∀ op o b, db.(binding_operations) !! op = Some o → db.(bindings) !! o.(bo_binding) = Some b →
    db'.(bindings) !! o.(bo_binding) = Some b;
}.

Lemma fenced_trans d1 d2 d3 : fenced d1 d2 → fenced d2 d3 → fenced d1 d3.
Proof. intros [? E1] [? E2]. split; [lia|]. intros Hs. specialize (E1 Hs). subst. by apply E2. Qed.

#[export] Instance extends_preorder : PreOrder extends.
Proof.
  split.
  - intros db. split; [done|..]; intros id x Hx; [exists x; by split|exists x; by split|exists x; by split|done].
  - intros x y z [I1 D1 V1 R1 B1] [I2 D2 V2 R2 B2]. split; [congruence|..].
    + intros id d Hd. destruct (D1 id d Hd) as (d1 & Hd1 & E1). destruct (D2 id d1 Hd1) as (d2 & Hd2 & E2).
      exists d2. split; [done|by eapply fenced_trans].
    + intros id v Hv. destruct (V1 id v Hv) as (v1 & Hv1 & E1 & F1). destruct (V2 id v1 Hv1) as (v2 & Hv2 & E2 & F2).
      exists v2. split_and!; [done|congruence|auto].
    + intros op o Ho. destruct (R1 op o Ho) as (o1 & Ho1 & E1). destruct (R2 op o1 Ho1) as (o2 & Ho2 & E2).
      exists o2. split; congruence.
    + intros op o b Ho Hb. destruct (R1 op o Ho) as (o1 & Ho1 & E1). rewrite <-E1. eapply B2; [done|]. rewrite E1. by eapply B1.
Qed.

(** The tables [extends] speaks of are the same. *)
Lemma extends_same db db' :
  db'.(instance_identity) = db.(instance_identity) → db'.(definitions) = db.(definitions) →
  db'.(versions) = db.(versions) → db'.(binding_operations) = db.(binding_operations) →
  db'.(bindings) = db.(bindings) → extends db db'.
Proof.
  intros Ei Ed Ev Eo Eb. destruct (reflexivity db : extends db db) as [I1 D1 V1 R1 B1].
  split; rewrite ?Ei, ?Ed, ?Ev, ?Eo, ?Eb; done.
Qed.

Lemma extends_definition db id d' :
  is_none_or (λ d, fenced d d') (db.(definitions) !! id) → extends db (set_definitions <[id := d']> db).
Proof.
  intros Hf. destruct (reflexivity db : extends db db) as [I1 D1 V1 R1 B1]. split; [done| |done..]. cbn.
  intros id1 d Hd. destruct (decide (id = id1)) as [<-|Hne].
  - exists d'. rewrite lookup_insert_eq. by rewrite Hd in Hf.
  - exists d. by rewrite lookup_insert_ne.
Qed.

(** A run, failed or not, that moves forward. *)
Definition grows {A} (m : CM A) : Prop := ∀ db, extends db (m db).1.

Section grows.
Implicit Types db : ControlDb.

Lemma grows_pure {A} (m : CM A) : pure m → grows m.
Proof. intros Hm db. by rewrite Hm. Qed.
Lemma grows_modify f : (∀ db, extends db (f db)) → grows (modify f).
Proof. intros Hf db. apply Hf. Qed.
Lemma grows_ensure (P : ControlDb → Prop) `{!∀ db, Decision (P db)} : grows (ensure P).
Proof. intros db. unfold ensure. by case_decide. Qed.
Lemma grows_bind {A B} (m : CM A) (k : A → CM B) : grows m → (∀ a, grows (k a)) → grows (m ≫= k).
Proof.
  intros Hm Hk db. unfold mbind, M_bind. specialize (Hm db). destruct (m db) as [s [a|e]]; cbn in *; [|done].
  etrans; [exact Hm|apply Hk].
Qed.
Lemma grows_transaction {A} (m : CM A) : grows m → grows (transaction m).
Proof. intros Hm db. unfold transaction. specialize (Hm db). by destruct (m db) as [s [a|e]]. Qed.
Lemma grows_internally {A} (m : CM A) : grows m → grows (internally m).
Proof. intros Hm db. unfold internally. specialize (Hm db). by destruct (m db) as [s [a|e]]. Qed.
Lemma grows_for_each {A B} (f : A → CM B) l : (∀ x, grows (f x)) → grows (for_each f l).
Proof.
  intros Hf. induction l as [|x l IH]; cbn [for_each]; [by apply grows_pure|].
  apply grows_bind; [done|]. intros y. apply grows_bind; [done|]. intros ys. by apply grows_pure.
Qed.
(** A guarded pair of changes. *)
Lemma grows_guarded {A} (P : ControlDb → Prop) `{!∀ db, Decision (P db)} f g (k : CM A) :
  (∀ db, P db → extends db (g (f db))) → grows k →
  grows (_ ← ensure P; _ ← modify f; _ ← modify g; k).
Proof.
  intros Hf Hk db. unfold ensure, mbind, M_bind, modify. case_decide; [|done]. etrans; [by apply Hf|apply Hk].
Qed.
End grows.

(** Opens a program into its statements. *)
Ltac grow :=
  repeat first
  [ progress cbv zeta
  | match goal with
    | |- grows (mbind _ _) => apply grows_bind; [|intros ?]
    | |- grows (transaction _) => apply grows_transaction
    | |- grows (internally _) => apply grows_internally
    | |- grows (for_each _ _) => apply grows_for_each; intros ?
    | |- grows (modify _) => by apply grows_modify; intros ?; apply extends_same
    | |- grows (ensure _) => apply grows_ensure
    | |- grows (if ?b then _ else _) => destruct b
    | |- grows (match ?o with _ => _ end) => destruct o
    | |- grows _ => by apply grows_pure
    | |- grows _ => solve [eauto with grows]
    end ].

Create HintDb grows discriminated.

Section statements.
Implicit Types db : ControlDb.

Lemma insert_definition_grows id d : grows (insert_definition id d).
Proof.
  intros db. unfold insert_definition. run_simpl. unfold ensure. case_decide as Hg; [|done]. cbn.
  apply extends_definition. destruct Hg as (_ & _ & _ & _ & -> & _). done.
Qed.
Lemma update_definition_grows w id P `{!∀ d, Decision (P d)} f :
  (∀ d, P d → d.(reservation_fence) ≤ (f d).(reservation_fence)) → grows (update_definition w id P f).
Proof.
  intros Hf db. unfold update_definition. run_simpl. destruct (definitions db !! id) as [d|] eqn:Hd; [|done].
  case_decide as HP; [|done]. unfold ensure. case_decide as Hg; [|done]. cbn. apply extends_definition.
  rewrite Hd. cbn. split; [by apply Hf|]. destruct Hg as [Hn _]. done.
Qed.
Lemma update_owned_grows i w id P `{!∀ d, Decision (P d)} f :
  (∀ d, P d → d.(reservation_fence) ≤ (f d).(reservation_fence)) → grows (update_owned i w id P f).
Proof. intros Hf. unfold update_owned. grow. by apply update_definition_grows. Qed.
Lemma insert_version_grows id v : grows (insert_version id v).
Proof.
  intros db. unfold insert_version. run_simpl. unfold ensure. case_decide as Hg; [|done]. cbn.
  destruct Hg as (_ & _ & _ & Hnone & _). destruct (reflexivity db : extends db db) as [I1 D1 V1 R1 B1].
  split; [done..| |done|done]. cbn. intros id1 v1 Hv1. exists v1. rewrite lookup_insert_ne; [done|]. intros <-. congruence.
Qed.
Lemma update_version_grows id P `{!∀ v, Decision (P v)} f :
  (∀ v, version_columns (f v) = version_columns v) → grows (update_version id P f).
Proof.
  intros Hcol db. destruct (update_version id P f db) as [db' r] eqn:E. cbn.
  assert (db' = db ∨ ∃ b, r = Ok b) as [->|[b ->]]; [|done|].
  { revert E. unfold update_version. run_simpl. destruct (versions db !! id) as [v|]; [|naive_solver].
    case_decide; [|naive_solver]. unfold ensure. case_decide; [|naive_solver]. case_decide; naive_solver. }
  apply update_version_run in E as [(_ & -> & _)|(_ & v & Hv & _ & _ & _ & Hm & _ & ->)]; [done|].
  destruct (after_version_frame db id v (f v)) as (Ei & _ & _ & Ed & Ev & Eb & Eo & _).
  destruct (reflexivity db : extends db db) as [I1 D1 V1 R1 B1].
  split; rewrite ?Ei, ?Ed, ?Eb, ?Eo; [done..| |done|done]. rewrite Ev. intros id1 v1 Hv1.
  destruct (decide (id = id1)) as [<-|Hne]; [|exists v1; by rewrite lookup_insert_ne].
  assert (v1 = v) as -> by congruence. exists (f v). rewrite lookup_insert_eq. split_and!; [done..|].
  by apply version_moves_retired.
Qed.
Lemma insert_referrer_grows id r : grows (insert_referrer id r).
Proof. unfold insert_referrer. grow. Qed.
Lemma update_referrer_grows c id P `{!∀ r, Decision (P r)} f : grows (update_referrer c id P f).
Proof. unfold update_referrer, drop_instance_refs. grow. Qed.
Lemma delete_referrer_grows id P `{!∀ r, Decision (P r)} : grows (delete_referrer id P).
Proof. unfold delete_referrer, drop_instance_refs. grow. Qed.
Lemma insert_intent_grows id o : grows (insert_intent id o).
Proof. unfold insert_intent. grow. Qed.
Lemma apply_intent_grows id op : grows (apply_intent id op).
Proof. unfold apply_intent. grow. Qed.
Lemma delete_intent_row_grows id op : grows (delete_intent_row id op).
Proof. unfold delete_intent_row. grow. Qed.
Lemma insert_binding_grows t id b : grows (insert_binding t id b).
Proof.
  apply grows_guarded; [|grow; by apply update_definition_grows]. intros db (_ & _ & _ & Hnone & _).
  destruct (reflexivity db : extends db db) as [I1 D1 V1 R1 B1]. split; [done..|]. cbn.
  intros op o b1 Ho Hb. rewrite lookup_insert_ne; [by eapply B1|]. intros He. rewrite He in Hnone. congruence.
Qed.
Lemma delete_binding_grows id : grows (delete_binding id).
Proof.
  intros db. unfold delete_binding. run_simpl. destruct (bindings db !! id) as [b|] eqn:Hb; [|done].
  unfold ensure. case_decide as Hg; [|done]. cbn. destruct Hg as (_ & Hno & _).
  destruct (reflexivity db : extends db db) as [I1 D1 V1 R1 B1]. split; [done..|]. cbn.
  intros op o b1 Ho Hb1. rewrite lookup_delete_ne; [done|]. intros He. apply Hno. by exists op, o.
Qed.
Lemma update_worker_version_grows id P `{!∀ w, Decision (P w)} f : grows (update_worker_version id P f).
Proof.
  unfold update_worker_version. grow. apply grows_modify. intros db.
  destruct (reflexivity db : extends db db) as [I1 D1 V1 R1 B1]. split; [done| |done..].
  intros did d Hd. rewrite release_orphans_lookup, Hd. cbn. eexists. split; [done|]. unfold released.
  case_decide as Ho; [|by split]. split; [done|]. destruct Ho as [Ho _]. intros Hs. by rewrite Hs in Ho.
Qed.
End statements.
#[export] Hint Resolve insert_definition_grows insert_version_grows insert_referrer_grows update_referrer_grows
  delete_referrer_grows insert_intent_grows apply_intent_grows delete_intent_row_grows insert_binding_grows
  delete_binding_grows update_worker_version_grows : grows.
#[export] Hint Extern 1 (grows (update_definition _ _ _ _)) => apply update_definition_grows; intros; cbn; lia : grows.
#[export] Hint Extern 1 (grows (update_owned _ _ _ _ _)) => apply update_owned_grows; intros; cbn; lia : grows.
#[export] Hint Extern 1 (grows (update_version _ _ _)) => apply update_version_grows; done : grows.

Section calls.
Context `{Codec, CronParser}.
Implicit Types db : ControlDb.

Lemma finalize_definition_delete_grows instance id fence now_ms :
  grows (finalize_definition_delete instance id fence now_ms).
Proof. unfold finalize_definition_delete, reread_definition, update_versions_of. grow. Qed.
Lemma stage_version_inner_grows instance definition version class_name r fresh now_ms :
  grows (stage_version_inner instance definition version class_name r fresh now_ms).
Proof. unfold stage_version_inner, consume_reservation. grow. Qed.
Lemma finish_version_grows instance id accepted now_ms : grows (finish_version instance id accepted now_ms).
Proof. unfold finish_version, reread_definition, publish_version, reject_version. grow. Qed.
Lemma read_operation_grows id : grows (read_operation id).
Proof. unfold read_operation. grow. Qed.
#[local] Hint Resolve finalize_definition_delete_grows stage_version_inner_grows finish_version_grows read_operation_grows : grows.

Lemma prepare_operation_grows i operation kind from limits now_ms :
  grows (prepare_operation i operation kind from limits now_ms).
Proof. unfold prepare_operation, verify_identity. grow. Qed.
Lemma complete_instance_operation_grows op now_ms : grows (complete_instance_operation op now_ms).
Proof. unfold complete_instance_operation, complete_rows. grow. Qed.
Lemma begin_binding_operation_grows binding operation kind fingerprint request now_ms :
  grows (begin_binding_operation binding operation kind fingerprint request now_ms).
Proof.
  unfold begin_binding_operation. apply grows_bind; [by apply grows_pure|intros _]. apply grows_transaction.
  intros db. unfold insert_binding_operation. run_simpl. destruct (binding_operations db !! operation) as [o|] eqn:Ho.
  - case_decide; [done|]. cbn. destruct (bo_response o); [done|]. by case_decide.
  - unfold ensure. case_decide; [|done]. destruct (reflexivity db : extends db db) as [I1 D1 V1 R1 B1]. split; [done..| |done].
    cbn. intros op o Hop. exists o. rewrite lookup_insert_ne; [done|]. congruence.
Qed.
Lemma finish_binding_operation_grows binding operation response now_ms :
  grows (finish_binding_operation binding operation response now_ms).
Proof.
  unfold finish_binding_operation. apply grows_bind; [by apply grows_pure|intros _]. apply grows_transaction.
  intros db. run_simpl. destruct (binding_operations db !! operation) as [o|] eqn:Ho; [|done]. cbn. case_decide; [|done].
  cbn. destruct (bo_response o); [by case_decide|]. unfold ensure. case_decide; [|done].
  destruct (reflexivity db : extends db db) as [I1 D1 V1 R1 B1]. split; [done..| |done]. cbn.
  intros op o1 Hop. destruct (decide (operation = op)) as [<-|Hne].
  - rewrite lookup_insert_eq. eexists. split; [done|]. cbn. congruence.
  - exists o1. by rewrite lookup_insert_ne.
Qed.
#[local] Hint Resolve prepare_operation_grows complete_instance_operation_grows begin_binding_operation_grows
  finish_binding_operation_grows : grows.

Lemma reserve_definition_grows instance name class_name owner id now_ms :
  grows (reserve_definition instance name class_name owner id now_ms).
Proof.
  intros db. destruct (reserve_definition _ _ _ _ _ _ db) as [db' [x|e]] eqn:Hr; cbn.
  - unfold reserve_definition, reread_definition in Hr. run_inv. subst.
    match goal with H1 : (match ?o with _ => _ end) _ = _ |- _ => destruct o as [w|] eqn:Hw end.
    + apply named_definition_Some in Hw as (_ & Hd & _ & _). run_inv; [done|]. subst.
      match goal with H1 : update_definition _ _ _ _ _ = _ |- _ =>
        apply update_definition_run in H1 as [(-> & -> & _)|(-> & d & Hd' & _ & [Hn _] & ->)] end; [done|].
      rewrite Hd in Hd'. injection Hd' as <-. unfold i64_checked in *. case_decide; simplify_eq.
      apply extends_definition. rewrite Hd. cbn. split; [cbn; lia|]. done.
    + run_inv. subst. match goal with H1 : insert_definition _ _ _ = _ |- _ =>
        apply insert_definition_run in H1 as (_ & _ & _ & Hnone & _ & ->) end. apply extends_definition. by rewrite Hnone.
  - assert (Ha : atomic (reserve_definition instance name class_name owner id now_ms))
      by (unfold reserve_definition; auto with tx nocore). by apply Ha in Hr as ->.
Qed.

Lemma mark_deleted_grows worker now_ms db : extends db {| db with definitions := unavailable_if db worker now_ms <$> db.(definitions) |}.
Proof.
  destruct (reflexivity db : extends db db) as [I1 D1 V1 R1 B1]. split; [done| |done..]. cbn. intros id d Hd.
  rewrite lookup_fmap, Hd. eexists. split; [done|]. unfold unavailable_if. case_decide as Hr; [|by split].
  split; [done|]. destruct Hr as [Hr _]. done.
Qed.
#[local] Hint Resolve reserve_definition_grows : grows.

Lemma control_call_grows instance now_ms c : grows (control_call instance now_ms c).
Proof.
  destruct c; cbn; unfold void, create_definition, release_definition_reservation, rename,
    delete_definition, begin_definition_delete, finish_definition_delete, mark_unavailable, stage_version,
    stage_reserved_version, retire_unused_versions, retire_version, reserve_instances_with_schedules, reserve_one,
    finalize_instances, abandon_creations, read_batch, verify_identity, repair_instance_referrers, retain_instance,
    prepare_instance_operation, prepare_restart_operation, cancel_instance_operation, create_worker,
    insert_staging_version, require_live_worker, read_worker, insert_worker_version, insert_workflow_bindings,
    insert_workflow_binding, begin_validation, mark_ready, mark_rejected, transition, delete_worker,
    begin_version_delete, finalize_version_delete, recover_deleting_versions, delete_version_bindings,
    reread_definition; grow; unfold verify_identity, require_live_worker, read_worker; grow.
  apply grows_modify. intros db. apply mark_deleted_grows.
Qed.

Lemma extends_forever db db' : rtc control_step db db' → extends db db'.
Proof.
  induction 1 as [|x y z (i & now_ms & c & <-) _ IH]; [done|]. etrans; [apply control_call_grows|done].
Qed.
End calls.
