(* ===== verification/WorkflowControlTheorems.v ===== *)
(** * The theorems on the workflow catalog

    What holds of every reachable catalog, and the two reachable catalogs its own startup
    refuses.  The concrete catalog of the witnesses is built by calls only. *)

From stdpp Require Import base numbers list option strings sorting gmap.
From S2P Require Import Prelude Text ErrorCodes Duration RetryPolicy Sql CronSlots WorkflowTypes WorkflowDb WorkflowRuns WorkflowOperations WorkflowTheorems WorkflowControl WorkflowCatalog WorkflowBindings WorkflowReservations WorkflowIntents WorkflowIntegrity WorkflowControlInv WorkflowControlMoves WorkflowControlOps WorkflowControlInstances WorkflowControlWorkers WorkflowControlReach.

Local Open Scope Z_scope.

Section lemmas.
Context `{Codec, CronParser}.
Implicit Types db : ControlDb.

(** ** Startup *)

Definition migration_failed : PlatformError :=
  platform_error MigrationFailed "control database migration history or schema is invalid".

Lemma run_invariants_cases db : (run_invariants db).2 = Ok () ∨ (run_invariants db).2 = Err migration_failed.
Proof. unfold run_invariants. destruct (verify_control db) as [s [[]|e]]; auto. Qed.

Lemma refused db : control_ok db → ¬ carried db → (run_invariants db).2 = Err migration_failed.
Proof.
  intros Hok Hn. destruct (run_invariants_cases db) as [E|E]; [|done]. by apply run_invariants_run in E.
Qed.

(** The row of the version that a staging returned. *)
Lemma stage_version_inner_row instance definition version class_name r fresh now_ms db db' v :
  stage_version_inner instance definition version class_name r fresh now_ms db = (db', Ok v) →
  db'.(worker_versions) = db.(worker_versions) ∧
  ∃ row, db'.(versions) !! v.(vr_target).(workflow_version_id) = Some row ∧ row.(v_worker_version) = version ∧
    row.(v_state) = v.(vr_state).
Proof.
  unfold stage_version_inner. intros Hr. run_inv. subst.
  match goal with H1 : read_definition _ _ _ = Some ?w |- _ =>
    rename w into wd, H1 into Hwd; apply read_definition_Some in Hwd as (Hown & Hwd & <- & _) end.
  match goal with H1 : consume_reservation _ _ _ _ _ = (?s, _) |- _ =>
    apply consume_reservation_run in H1 as Hcon; [|done]; assert (s.(worker_versions) = db.(worker_versions)) as Ew end.
  { destruct r as [[??]|]; [destruct Hcon as (_ & _ & _ & _ & ->)|destruct Hcon as [_ ->]]; done. }
  match goal with H1 : worker_target _ _ _ _ = Some ?t |- _ => rename H1 into Hwt; destruct t as [[[w dv] code] loader] end.
  match type of Hr with (match ?o with _ => _ end) ?s1 = _ => destruct o as [e|] eqn:He; rename s1 into db1 end.
  - run_inv. subst. split; [done|]. destruct r as [[owner fence]|]; [|done]. cbn in He. unfold staged_before in He.
    apply bind_Some in He as ([id row] & Hs & Hv). apply sql_find_Some in Hs as [Hin (_ & Hvw & _)].
    apply elem_of_map_to_list in Hin. cbn in *. exists row.
    unfold version_row in Hv. apply bind_Some in Hv as (d & _ & [= <-]). done.
  - run_inv. subst. match goal with H1 : insert_version _ _ _ = _ |- _ =>
      apply insert_version_run in H1 as (_ & _ & _ & _ & _ & ->) end.
    match goal with H1 : update_version _ _ _ _ = _ |- _ =>
      apply update_version_run in H1 as [(_ & _ & Hn)|(_ & v0 & Hv0 & _ & _ & _ & _ & _ & ->)] end; cbn in *;
      rewrite lookup_insert_eq in *; [by destruct Hn|]. injection Hv0 as <-.
    match goal with |- context [after_version ?d ?i ?x ?y] =>
      destruct (after_version_frame d i x y) as (_ & _ & -> & _ & -> & _) end.
    split; [done|]. cbn. eexists. rewrite lookup_insert_eq. split; [done|]. split; [|done]. cbn.
    unfold worker_target in Hwt. case_decide; [|done]. apply bind_Some in Hwt as (x & Hx & Hy). case_decide; [|done].
    by simplify_eq.
Qed.

(** ** Pinned Worker versions *)

Lemma atomic_Err {A} (m : CM A) db : atomic m → (∀ db' x, m db ≠ (db', Ok x)) → ∃ e, m db = (db, Err e).
Proof.
  intros Ha Hno. destruct (m db) as [db' [x|e]] eqn:E; [by edestruct Hno|]. exists e. by rewrite (Ha _ _ _ E).
Qed.

Lemma pinned_begin instance worker version is_active elsewhere db :
  version_referenced db elsewhere version →
  ∃ e, begin_version_delete instance worker version is_active elsewhere db = (db, Err e).
Proof.
  intros Hp. apply atomic_Err; [unfold begin_version_delete; auto with tx nocore|]. intros db' x Hr.
  unfold begin_version_delete, read_worker in Hr. run_inv; subst; bools; done.
Qed.
Lemma pinned_finalize instance worker version elsewhere now_ms db :
  version_referenced db elsewhere version →
  ∃ e, finalize_version_delete instance worker version elsewhere now_ms db = (db, Err e).
Proof.
  intros Hp. apply atomic_Err; [unfold finalize_version_delete; auto with tx nocore|]. intros db' x Hr.
  unfold finalize_version_delete, read_worker in Hr. run_inv; subst; bools; done.
Qed.

(** ** Recorded bindings *)

Lemma delete_bindings_gone ids db db' x :
  for_each delete_binding ids db = (db', Ok x) → db'.(bindings) ⊆ db.(bindings) ∧ ∀ id, id ∈ ids → db'.(bindings) !! id = None.
Proof.
  revert db x. induction ids as [|i ids IH]; intros db x Hr.
  - cbn in Hr. run_inv. subst. split; [done|]. intros id Hid. by apply elem_of_nil in Hid.
  - apply for_each_cons_run in Hr as (s & y & ys & Hi & Hl & ->). apply IH in Hl as [Hsub Hgone].
    assert (s.(bindings) ⊆ db.(bindings) ∧ s.(bindings) !! i = None) as [Hs Hn].
    { apply delete_binding_run in Hi. destruct (bindings db !! i) as [b|] eqn:Hb; [|by subst].
      destruct Hi as (_ & _ & _ & ->). cbn. split; [apply delete_subseteq|apply lookup_delete_eq]. }
    split; [by etrans|]. intros id [->|Hid]%elem_of_cons; [|by apply Hgone].
    destruct (bindings db' !! i) as [b|] eqn:Hb; [|done]. eapply lookup_weaken in Hb; [|exact Hsub]. congruence.
Qed.

(** A binding with a recorded mutation is never deleted with its version. *)
Definition recorded (db : ControlDb) (version : N) : Prop :=
  ∃ op o b, db.(binding_operations) !! op = Some o ∧ db.(bindings) !! o.(bo_binding) = Some b ∧ b.(b_version) = version.

Lemma recorded_extends db db' version : recorded db version → extends db db' → recorded db' version.
Proof.
  intros (op & o & b & Ho & Hb & Hv) He. destruct (ex_records _ _ He op o Ho) as (o' & Ho' & E). exists op, o', b.
  split_and!; [done| |done]. rewrite E. by eapply (ex_bindings _ _ He).
Qed.

Lemma recorded_blocks db version db' u : recorded db version → delete_version_bindings version db ≠ (db', Ok u).
Proof.
  intros Hrec Hr. assert (extends db db') as He.
  { replace db' with (delete_version_bindings version db).1 by (by rewrite Hr).
    assert (grows (delete_version_bindings version)) as Hg by (unfold delete_version_bindings; grow). apply Hg. }
  destruct Hrec as (op & o & b & Ho & Hb & Hv). pose proof (ex_bindings _ _ He op o b Ho Hb) as Hb'.
  unfold delete_version_bindings in Hr. cat_inv. run_inv. subst.
  match goal with H1 : for_each _ (_ <$> _) _ = _ |- _ => apply delete_bindings_gone in H1 as [_ Hgone] end.
  rewrite Hgone in Hb'; [done|]. apply list_elem_of_fmap. exists (bo_binding o, b). split; [done|].
  apply list_elem_of_filter. split; [done|]. by apply elem_of_map_to_list.
Qed.

Lemma finalize_blocked instance worker version elsewhere now_ms db :
  recorded db version → ∃ e, finalize_version_delete instance worker version elsewhere now_ms db = (db, Err e).
Proof.
  intros Hrec. apply atomic_Err; [unfold finalize_version_delete; auto with tx nocore|]. intros db' x Hr.
  unfold finalize_version_delete, read_worker in Hr. run_inv.
  match goal with H1 : delete_version_bindings _ _ = _ |- _ => by eapply recorded_blocks in H1 end.
Qed.

Lemma for_each_elem {A B} (f : A → CM B) l db db' ys x :
  (∀ y, grows (f y)) → for_each f l db = (db', Ok ys) → x ∈ l → ∃ s s' y, extends db s ∧ f x s = (s', Ok y).
Proof.
  intros Hg. revert db ys. induction l as [|z l IH]; intros db ys Hr Hx; [by apply elem_of_nil in Hx|].
  apply for_each_cons_run in Hr as (s & y & ys' & Hz & Hl & ->). apply elem_of_cons in Hx as [->|Hx].
  - by exists db, s, y.
  - destruct (IH _ _ Hl Hx) as (t & t' & y' & He & Ht). exists t, t', y'. split; [|done].
    etrans; [|exact He]. specialize (Hg z db). by rewrite Hz in Hg.
Qed.

Lemma recovery_blocked elsewhere now_ms limit version db :
  recorded db version → version ∈ deleting_unreferenced db elsewhere limit →
  ∃ e, recover_deleting_versions elsewhere now_ms limit db = (db, Err e).
Proof.
  intros Hrec Hin. apply atomic_Err; [unfold recover_deleting_versions; auto with tx nocore|]. intros db' x Hr.
  unfold recover_deleting_versions in Hr. run_inv. subst.
  match goal with H1 : for_each _ _ _ = _ |- _ => eapply for_each_elem in H1 as (s & s' & y & He & Hv); [..|exact Hin] end.
  - run_inv. match goal with H1 : delete_version_bindings _ _ = _ |- _ => eapply recorded_blocks in H1; [done|] end.
    by eapply recorded_extends.
  - intros z. unfold delete_version_bindings. grow.
Qed.

(** ** Operations always end *)

Lemma update_referrer_fires c id P `{!∀ r, Decision (P r)} f db r :
  db.(referrers) !! id = Some r → P r → r.(rf_state) ≠ Released → referrer_check (f r) → column_guards c db id r (f r) →
  update_referrer c id P f db = (after_referrer db id (f r), Ok true).
Proof.
  intros Hr HP Hs Hc Hg. unfold update_referrer, drop_instance_refs, ensure, after_referrer. run_simpl.
  rewrite Hr, decide_True by done. rewrite decide_True by done. case_decide; [|done]. cbn.
  rewrite lookup_insert_eq. cbn. by rewrite decide_True.
Qed.
Lemma apply_intent_fires id o db :
  db.(intents) !! id = Some o → o.(in_applied) = false →
  apply_intent id o.(in_operation) db = (set_intents <[id := {| o with in_applied := true |}]> db, Ok ()).
Proof.
  intros Ho Ha. unfold apply_intent, ensure. run_simpl. rewrite Ho, decide_True by done. by rewrite decide_True.
Qed.
Lemma delete_intent_fires id o db :
  db.(intents) !! id = Some o → intent_settled db id o →
  delete_intent_row id o.(in_operation) db = (set_intents (delete id) db, Ok ()).
Proof.
  intros Ho Hs. unfold delete_intent_row, ensure. run_simpl. rewrite Ho, decide_True by done. by rewrite decide_True.
Qed.
Lemma delete_referrer_fires id db r o :
  db.(referrers) !! id = Some r → r.(rf_state) = Released → db.(intents) !! id = Some o → o.(in_kind) = Purge →
  o.(in_applied) = true → o.(in_nonce) = r.(rf_nonce) → o.(in_expected_generation) = r.(rf_generation) →
  delete_referrer id (λ _, True) db = (without_refs id r (set_intents (delete id) (set_referrers (delete id) db)), Ok true).
Proof.
  intros Hr Hs Ho Hk Ha Hn Hg. unfold delete_referrer, drop_instance_refs, ensure. run_simpl.
  rewrite Hr, decide_True by done. rewrite decide_True.
  - cbn. rewrite Ho. cbn. rewrite decide_True by done.
    rewrite decide_True; [done|]. cbn. by rewrite lookup_delete_eq.
  - right. split; [done|]. unfold intent_of. rewrite Ho. done.
Qed.

(** What a prepared operation and its row agree on. *)
Record prepared_row (db : ControlDb) (id : N) (o : IntentRow) (r : ReferrerRow) : Prop := {
  pr_intent : db.(intents) !! id = Some o;
  pr_row : db.(referrers) !! id = Some r;
  pr_applied : o.(in_applied) = false;
  pr_check : intent_check o;
  pr_rcheck : referrer_check r;
  pr_nonce : o.(in_nonce) = r.(rf_nonce);
  pr_generation : o.(in_expected_generation) = r.(rf_generation);
  pr_state : r.(rf_state) = match o.(in_kind) with Restart => Restarting | Purge => Retained end;
}.
Lemma prepared_row_ok db id o :
  control_ok db → db.(intents) !! id = Some o → ∃ r, prepared_row db id o r.
Proof.
  intros [Ht _ Hi] Ho. destruct (i_intent db Hi _ _ Ho) as [Ha Hc (r & Hr & _ & Hn & Hg & Hs)].
  exists r. split; try done. apply (k_referrer db Ht _ _ Hr).
Qed.

Lemma restart_rows_complete db id o r i now_ms :
  prepared_row db id o r → o.(in_kind) = Restart → i.(instance_id) = id →
  ∃ db', complete_rows (operation_of i o) now_ms db = (db', Ok ()) ∧
    db'.(referrers) !! id = Some (set_ref_restarted o.(in_target_generation) now_ms r) ∧ db'.(intents) !! id = None.
Proof.
  intros [Ho Hr Ha Hc Hrc Hn Hg Hs] Hk Hid. rewrite Hk in Hs. unfold intent_check in Hc. rewrite Hk in Hc.
  destruct Hc as (Hc1 & Hc2 & Hc3 & Hc4 & Hc5 & Hlt & Htg). destruct Hrc as (R1 & R2 & R3 & R4 & R5).
  set (db1 := set_intents <[id := {| o with in_applied := true |}]> db).
  assert (Ho1 : db1.(intents) !! id = Some {| o with in_applied := true |}) by (cbn; apply lookup_insert_eq).
  set (r' := set_ref_restarted o.(in_target_generation) now_ms r).
  assert (Hio : intent_of db1 id r Restart (λ x, x.(in_applied) = true ∧ x.(in_target_generation) = o.(in_target_generation))).
  { unfold intent_of. rewrite Ho1. done. }
  assert (Hup : update_referrer StateGeneration id (λ x, x.(rf_state) = Restarting)
    (set_ref_restarted o.(in_target_generation) now_ms) db1 = (after_referrer db1 id r', Ok true)).
  { apply update_referrer_fires; [done|done|by rewrite Hs|..].
    - unfold referrer_check. cbn. split; [done|]. split; [lia|]. split; [|done].
      split; [done|]. intros ?%R3. congruence.
    - unfold column_guards, referrer_moves, generation_moves. cbn. rewrite Hs. unfold intent_of in *. rewrite Ho1 in *. cbn in *.
      split_and!; try done; [right; done|lia|lia]. }
  exists (set_intents (delete id) (after_referrer db1 id r')).
  destruct (after_referrer_frame db1 id r') as (_ & Er & Ei). unfold complete_rows, operation_of. cbn. rewrite Hid, Hk. split_and!.
  - apply bind_run. exists db1, (). split; [by apply apply_intent_fires|]. apply bind_run. exists (after_referrer db1 id r'), true.
    split; [done|]. apply (delete_intent_fires id {| o with in_applied := true |}); [by rewrite Ei|].
    unfold intent_settled. cbn. rewrite Hk, Er, lookup_insert_eq. done.
  - rewrite Er. cbn. by rewrite lookup_insert_eq.
  - apply lookup_delete_eq.
Qed.

Lemma purge_rows_complete db id o r i now_ms :
  prepared_row db id o r → o.(in_kind) = Purge → i.(instance_id) = id →
  ∃ db', complete_rows (operation_of i o) now_ms db = (db', Ok ()) ∧
    db'.(referrers) !! id = None ∧ db'.(intents) !! id = None.
Proof.
  intros [Ho Hr Ha Hc Hrc Hn Hg Hs] Hk Hid. rewrite Hk in Hs. destruct Hrc as (R1 & R2 & R3 & R4 & R5).
  set (db1 := set_intents <[id := {| o with in_applied := true |}]> db).
  assert (Ho1 : db1.(intents) !! id = Some {| o with in_applied := true |}) by (cbn; apply lookup_insert_eq).
  set (r1 := set_ref_state Releasing now_ms r). set (r2 := set_ref_released now_ms r1).
  destruct (after_referrer_frame db1 id r1) as (_ & Er1 & Ei1). set (db2 := after_referrer db1 id r1) in *.
  destruct (after_referrer_frame db2 id r2) as (_ & Er2 & Ei2). set (db3 := after_referrer db2 id r2) in *.
  assert (Hup1 : update_referrer StateColumn id (λ x, x.(rf_state) = Retained) (set_ref_state Releasing now_ms) db1 = (db2, Ok true)).
  { apply update_referrer_fires; [done|done|by rewrite Hs|..].
    - unfold referrer_check. cbn. split; [done|]. split; [done|]. split; [|done]. split; [done|]. intros ?%R3. congruence.
    - unfold column_guards, referrer_moves. cbn. rewrite Hs. unfold intent_of. rewrite Ho1. done. }
  assert (Hup2 : update_referrer StateColumn id (λ x, x.(rf_state) = Releasing) (set_ref_released now_ms) db2 = (db3, Ok true)).
  { apply update_referrer_fires; [by rewrite Er1, lookup_insert_eq|done|done|..].
    - unfold referrer_check. cbn. split; [done|]. split; [done|]. split; [|done]. split; [by eexists|done].
    - done. }
  assert (Hr3 : db3.(referrers) !! id = Some r2) by (by rewrite Er2, lookup_insert_eq).
  assert (Ho3 : db3.(intents) !! id = Some {| o with in_applied := true |}) by (by rewrite Ei2, Ei1).
  eexists. unfold complete_rows, operation_of. cbn. rewrite Hid, Hk. split.
  - apply bind_run. exists db1, (). split; [by apply apply_intent_fires|]. apply bind_run. exists db2, true. split; [done|].
    apply bind_run. exists db3, true. split; [done|]. apply bind_run. eexists _, true.
    split; [by eapply delete_referrer_fires|done].
  - cbn. by rewrite !lookup_delete_eq.
Qed.

Lemma complete_rows_total db id o i now_ms :
  control_ok db → db.(intents) !! id = Some o → i.(instance_id) = id →
  ∃ db' r, complete_rows (operation_of i o) now_ms db = (db', Ok ()) ∧ control_ok db' ∧ db'.(intents) !! id = None ∧
    db.(referrers) !! id = Some r ∧
    db'.(referrers) !! id = match o.(in_kind) with
      | Restart => Some (set_ref_restarted o.(in_target_generation) now_ms r) | Purge => None end.
Proof.
  intros Hok Ho Hid. destruct (prepared_row_ok db id o Hok Ho) as [r Hpr].
  destruct (in_kind o) eqn:Hk.
  - destruct (restart_rows_complete db id o r i now_ms Hpr Hk Hid) as (db' & Hr & Hrow & Hi). exists db', r.
    split_and!; [done| |done|apply Hpr|done]. eapply complete_rows_keeps; [done| |..|exact Hr]; [cbn; by rewrite Hid|done..].
  - destruct (purge_rows_complete db id o r i now_ms Hpr Hk Hid) as (db' & Hr & Hrow & Hi). exists db', r.
    split_and!; [done| |done|apply Hpr|done]. eapply complete_rows_keeps; [done| |..|exact Hr]; [cbn; by rewrite Hid|done..].
Qed.

Lemma not_dangling db id : tables_ok db → db.(referrers) !! id = None → ¬ dangling db id.
Proof.
  intros Ht Hr [([[w k] i] & t & Hk & E1 & E2)|([[w k] i] & t & Hk & E1 & E2)]; cbn in *; subst.
  - rewrite (k_version_refs db Ht) in Hk. cbn in Hk. by rewrite Hr in Hk.
  - rewrite (k_definition_refs db Ht) in Hk. cbn in Hk. by rewrite Hr in Hk.
Qed.

Lemma complete_rows_only op now_ms db db' u :
  complete_rows op now_ms db = (db', Ok u) → only op.(op_identity).(instance_id) db db'.
Proof.
  unfold complete_rows. intros Hr. run_inv. etrans; [by eapply apply_intent_only|].
  destruct (op_kind op); run_inv; subst.
  - etrans; [by eapply update_referrer_only|by eapply delete_intent_only].
  - etrans; [by eapply update_referrer_only|]. etrans; [by eapply update_referrer_only|by eapply delete_referrer_only].
Qed.

(** The identity of a reservation over the same catalog. *)
Lemma reservation_row_restarted db db' id r w generation now_ms :
  catalog db' = catalog db → db'.(instance_identity) = db.(instance_identity) → reservation_row db id r = Some w →
  reservation_row db' id (set_ref_restarted generation now_ms r) =
    Some {| rv_identity := {| w.(rv_identity) with instance_generation := generation |}; rv_state := Live;
            rv_updated_at_ms := now_ms |}.
Proof.
  unfold catalog, reservation_row. intros [= Ed Ev Eb Ew] Ei Hr. cbn. rewrite Ed, Ev, Ei.
  apply bind_Some in Hr as (v & Hv & Hr). apply bind_Some in Hr as (d & Hd & [= <-]). by rewrite Hv, Hd.
Qed.

Lemma complete_operation_total db id o w now_ms :
  control_ok db → db.(intents) !! id = Some o → read_reservation db id = Some w →
  read_operation id db = (db, Ok (Some (operation_of w.(rv_identity) o))) →
  ∃ db', complete_instance_operation (operation_of w.(rv_identity) o) now_ms db = (db', Ok ()) ∧ control_ok db' ∧
    only id db db' ∧ db'.(intents) !! id = None ∧
    match o.(in_kind) with
    | Restart => ∃ r, db.(referrers) !! id = Some r ∧
        db'.(referrers) !! id = Some (set_ref_restarted o.(in_target_generation) now_ms r)
    | Purge => db'.(referrers) !! id = None
    end.
Proof.
  intros Hok Ho Hw Hread. destruct (read_reservation_Some db id w Hw) as (r & v & d & Hr & _ & _ & Hrow & _ & Hid & _).
  destruct (complete_rows_total db id o (rv_identity w) now_ms Hok Ho Hid) as (db' & r1 & Hc & Hok' & Hi & Hr1 & Hr').
  assert (r1 = r) as -> by congruence. pose proof (complete_rows_only _ _ _ _ _ Hc) as On. cbn in On. rewrite Hid in On.
  exists db'. split; [|split_and!; try done; destruct (in_kind o); [by exists r|done]].
  assert (extends db db') as Hext.
  { replace db' with (complete_rows (operation_of (rv_identity w) o) now_ms db).1 by (by rewrite Hc).
    assert (grows (complete_rows (operation_of (rv_identity w) o) now_ms)) as Hg by (unfold complete_rows; grow). apply Hg. }
  unfold complete_instance_operation. apply transaction_run. cbn. rewrite Hid.
  apply bind_run. eexists db, _. split; [exact Hread|]. apply bind_run. exists db', (). split.
  { apply bind_run. exists db, (). split; [|exact Hc]. apply throw_if_run. split; [done|]. by intros []. }
  apply bind_run. eexists db', _. split; [by apply gets_run|]. unfold read_reservation. rewrite Hr'.
  destruct (in_kind o) eqn:Hk; cbn [mbind option_bind].
  - rewrite (reservation_row_restarted db db' id r w _ _ (on_catalog _ _ _ On) (ex_instance _ _ Hext) Hrow).
    apply bind_run. eexists db', _. split; [by apply gets_run|]. apply throw_if_run. split; [done|]. rewrite bool_decide_true; [done|].
    cbn. rewrite Hid. split; [done|]. split; [done|].
    destruct (reservation_row_ok db' id _ Hok' Hr') as (w' & Hw' & _ & _ & Hint & _).
    rewrite (reservation_row_restarted db db' id r w _ _ (on_catalog _ _ _ On) (ex_instance _ _ Hext) Hrow) in Hw'.
    injection Hw' as <-. cbn in Hint. by rewrite Hid in Hint.
  - apply bind_run. eexists db', _. split; [by apply gets_run|]. apply throw_if_run. split; [done|].
    rewrite bool_decide_false; [done|]. apply not_dangling; [apply Hok'|done].
Qed.

Lemma cancel_operation_total db id o w now_ms :
  control_ok db → db.(intents) !! id = Some o → read_reservation db id = Some w →
  read_operation id db = (db, Ok (Some (operation_of w.(rv_identity) o))) →
  ∃ db' r, cancel_instance_operation (operation_of w.(rv_identity) o) now_ms db = (db', Ok ()) ∧ only id db db' ∧
    db'.(intents) !! id = None ∧ db'.(referrers) !! id = Some r ∧ r.(rf_state) = o.(in_prior) ∧
    r.(rf_generation) = o.(in_expected_generation) ∧ r.(rf_sequence) = o.(in_sequence) ∧
    is_some_and (λ r0, referrer_columns r = referrer_columns r0) (db.(referrers) !! id).
Proof.
  intros Hok Ho Hw Hread. destruct (read_reservation_Some db id w Hw) as (r0 & v & d & Hr0 & _ & _ & Hrow & _ & Hid & _).
  destruct (prepared_row_ok db id o Hok Ho) as [r [_ Hr Ha Hc Hrc Hn Hg Hs]].
  destruct Hc as (Hc1 & Hc2 & Hc3 & Hprior & Hc5 & Hkind). destruct Hrc as (R1 & R2 & R3 & R4 & R5).
  assert (Hrun : ∃ db1 r1, (if decide (in_kind o = Restart) then
      _ ← update_referrer StateColumn id (λ x, x.(rf_state) = Restarting)
            (set_ref_state (if decide (in_prior o = Live) then Live else Retained) now_ms); mret () else mret ()) db = (db1, Ok ()) ∧
      only id db db1 ∧ db1.(intents) !! id = Some o ∧ db1.(referrers) !! id = Some r1 ∧ r1.(rf_state) = o.(in_prior) ∧
      r1.(rf_generation) = o.(in_expected_generation) ∧ r1.(rf_sequence) = r.(rf_sequence) ∧
      referrer_columns r1 = referrer_columns r).
  { case_decide as Hk.
    - rewrite Hk in *. set (r1 := set_ref_state (if decide (in_prior o = Live) then Live else Retained) now_ms r).
      assert (Hst : r1.(rf_state) = o.(in_prior)) by (cbn; case_decide; [done|]; destruct Hprior; congruence).
      assert (Hup : update_referrer StateColumn id (λ x, x.(rf_state) = Restarting)
        (set_ref_state (if decide (in_prior o = Live) then Live else Retained) now_ms) db = (after_referrer db id r1, Ok true)).
      { apply update_referrer_fires; [done|done|by rewrite Hs|..].
        - change (referrer_check r1). unfold referrer_check. split; [done|]. split; [done|]. split; [|done].
          rewrite Hst. split; [destruct Hprior; congruence|]. cbn. intros ?%R3. congruence.
        - change (referrer_moves db id r r1). unfold referrer_moves. rewrite Hs, Hst.
          destruct Hprior as [E|E]; rewrite E; unfold intent_of; rewrite Ho; cbn; split_and!; try done; left; done. }
      exists (after_referrer db id r1), r1. destruct (after_referrer_frame db id r1) as (_ & Er & Ei).
      split_and!; [|by eapply update_referrer_only|by rewrite Ei|by rewrite Er, lookup_insert_eq|done..].
      apply bind_run. by exists (after_referrer db id r1), true.
    - exists db, r. destruct (in_kind o); [done|]. split_and!; try done. destruct Hkind as (_ & -> & _). done. }
  destruct Hrun as (db1 & r1 & Hrun & On1 & Ho1 & Hr1 & Hst & Hgen & Hseq & Hcols).
  exists (set_intents (delete id) db1), r1.
  assert (Hdel : delete_intent_row id (in_operation o) db1 = (set_intents (delete id) db1, Ok ())).
  { apply delete_intent_fires; [done|]. unfold intent_settled. rewrite Ha, Hr1. done. }
  split_and!; [|by etrans; [exact On1|eapply delete_intent_only]|apply lookup_delete_eq|done|done|done| |by rewrite Hr].
  2: { rewrite Hseq. destruct (ik_row _ _ _ (i_intent db (co_intents db Hok) _ _ Ho)) as (r2 & Hr2 & -> & _). congruence. }
  unfold cancel_instance_operation. apply transaction_run. cbn [op_identity op_kind op_prior_state op_id operation_of]. rewrite Hid.
  apply bind_run. eexists db, _. split; [exact Hread|]. apply bind_run. exists db, ().
  split; [apply throw_if_run; split; [done|by intros []]|]. apply bind_run. exists db1, (). split; [exact Hrun|done].
Qed.

(** ** Superseded uploads *)

Lemma superseded_stage i id version class_name r fresh now_ms db d :
  db.(definitions) !! id = Some d → r.(rs_fence) < d.(reservation_fence) →
  ∃ e, stage_reserved_version i id version class_name r fresh now_ms db = (db, Err e).
Proof.
  intros Hd Hf. apply atomic_Err; [unfold stage_reserved_version, stage_version_inner; auto with tx nocore|].
  intros db' x Hr. unfold stage_reserved_version, stage_version_inner in Hr. run_inv. subst.
  match goal with H1 : read_definition _ _ _ = Some ?w |- _ => apply read_definition_Some in H1 as (_ & Hw & <- & _) end.
  rewrite Hd in Hw. injection Hw as ->.
  match goal with H1 : consume_reservation _ _ _ _ _ = _ |- _ => apply consume_reservation_run in H1 as ([_ Hh] & _); [|done] end.
  lia.
Qed.

Lemma superseded_release i r now_ms db d :
  db.(definitions) !! r.(rs_definition).(wd_id) = Some d → r.(rs_fence) < d.(reservation_fence) →
  release_definition_reservation i r now_ms db = (db, Ok false).
Proof.
  intros Hd Hf. unfold release_definition_reservation. apply transaction_run. apply bind_run.
  eexists db, _. split; [by apply gets_run|]. unfold read_definition. case_decide; [|done]. rewrite Hd. cbn.
  rewrite decide_True; [done|]. intros [_ He]. cbn in He. lia.
Qed.

Lemma superseded_finish i id v d db db' now_ms w owner fence :
  tables_ok db → db.(versions) !! id = Some v → v.(v_state) = VValidating → v.(v_reservation) = Some (owner, fence) →
  db.(definitions) !! v.(v_definition) = Some d → fence < d.(reservation_fence) →
  finish_version i id true now_ms db = (db', Ok w) → w.(vr_state) = VRejected.
Proof.
  intros Ht Hv Hs Hres Hd Hf Hr. unfold finish_version, reread_definition in Hr. run_inv; subst.
  all: match goal with H1 : (if decide (owned _ _) then _ else _) = Some _ |- _ => case_decide; [|done];
    apply read_version_Some in H1 as (v0 & d0 & Hv0 & Hdef & ->) end; assert (v0 = v) as -> by congruence; cbn in *.
  { congruence. }
  match goal with H1 : read_definition _ _ _ = Some ?wd |- _ => apply read_definition_Some in H1 as (_ & Hwd & _) end.
  cbn in Hwd. rewrite Hd in Hwd. injection Hwd as Hwd.
  match goal with H1 : (if bool_decide ?P then _ else _) _ = _ |- _ => rewrite (bool_decide_false P) in H1 end.
  - unfold reject_version in *. run_inv.
    match goal with H1 : update_version _ _ _ _ = _ |- _ =>
      apply update_version_run in H1 as [(_ & _ & Hn)|(_ & v1 & Hv1 & _ & _ & _ & _ & _ & ->)] end.
    { rewrite Hv in Hn. by destruct Hn. }
    assert (v1 = v) as -> by congruence. cbn in *. rewrite Hres in *. run_inv. subst.
    match goal with H1 : read_version _ _ = Some _ |- _ => apply read_version_Some in H1 as (v2 & d2 & Hv2 & _ & ->) end.
    destruct (after_version_frame db id v (set_version_rejected now_ms v)) as (_ & _ & _ & _ & Ev & _).
    rewrite Ev, lookup_insert_eq in Hv2. by injection Hv2 as <-.
  - unfold reservation_is_current. cbn. rewrite Hres. rewrite <-Hwd. intros [[_ He] _]. lia.
Qed.
End lemmas.

(** ** A concrete catalog *)

#[local] Existing Instance demo_codec.
Definition demo_cron : CronParser := {| cloudflare_syntax := λ _, true; croner_parse := λ _, None |}.
#[local] Existing Instance demo_cron.

Definition call_all (cs : list (Z * ControlCall)) (db : ControlDb) : ControlDb :=
  foldl (λ db c, (control_call 1 c.1 c.2 db).1) db cs.

Lemma call_all_steps cs db : rtc control_step db (call_all cs db).
Proof.
  revert db. induction cs as [|c cs IH]; intros db; cbn; [done|]. eapply rtc_l; [|apply IH]. by exists 1%N, c.1, c.2.
Qed.
Lemma call_all_reachable cs : control_reachable 1 (call_all cs (empty_control 1)).
Proof. apply call_all_steps. Qed.

Definition demo_code : list Z := repeat 1 32.
Definition demo_reservation : WorkflowDefinitionReservation := {|
  rs_definition := {| wd_id := 2; wd_instance := 1;
    wd_row := fresh_definition (lit "orders") (Some {| reserved_class_name := lit "Order"; reservation_owner := lit "upload";
      reservation_state := Reserved; reservation_created_definition := true |}) 1 0 |};
  rs_owner := lit "upload"; rs_fence := 1; rs_created_definition := true |}.

(** A Worker version under validation, and the reservation of a workflow name for it. *)
Definition validating : list (Z * ControlCall) := [
  (0, CreateWorker (Ok ()) 4);
  (0, InsertStagingVersion (λ _, false) 5 4 demo_code 1 []);
  (0, BeginValidation 5);
  (0, ReserveDefinition (lit "orders") (lit "Order") (lit "upload") 2)].
Definition staged_calls : list (Z * ControlCall) := validating ++ [
  (1, StageReservedVersion 2 5 (lit "Order") demo_reservation 3)].
(** The version is published, and then its Worker version is ready. *)
Definition published : list (Z * ControlCall) := staged_calls ++ [(2, FinishVersion 3 true); (3, MarkReady (Ok ()) 5)].

(** A caller of the definition in a second Worker version. *)
Definition demo_binding : WorkflowBindingRecord := {|
  br_descriptor := {| bd_binding_id := 7; bd_name := lit "FLOW"; bd_definition := 2; bd_lifecycle_generation := 1;
    bd_class_name := lit "Order"; bd_schema_version := 1; bd_capability := 1; bd_schedules := [] |};
  br_version := 6; br_sha256 := repeat 7 32; br_reservation := None; br_created_at_ms := 4 |}.
Definition bound : list (Z * ControlCall) := published ++ [
  (4, InsertStagingVersion (λ _, false) 6 4 demo_code 1 [demo_binding]);
  (5, BeginValidation 6); (5, MarkReady (Ok ()) 6);
  (6, BeginBindingOperation 7 50 (lit "create") (repeat 1 32) []);
  (7, FinishBindingOperation 7 50 [])].

(** An instance of the definition, created and live. *)
Definition demo_request : ReservationRequest := {|
  rq_operation := 10; rq_external := Some (lit "order_1"); rq_schedule := None; rq_drawn_external := 0; rq_instance := 9;
  rq_nonce := Some 77%N |}.
Definition reserved_calls : list (Z * ControlCall) := bound ++ [(8, ReserveInstances 2 10 [demo_request] demo_limits)].

Definition demo_live : WorkflowInstanceIdentity :=
  {| demo_identity with created_at_ms := 8 |}.
Definition live_calls : list (Z * ControlCall) := reserved_calls ++ [(9, FinalizeInstances [demo_live])].
Definition restarting : list (Z * ControlCall) := live_calls ++ [(10, PrepareRestart demo_live 60 None demo_limits)].

(** Another upload takes over the reservation. *)
Definition superseded : list (Z * ControlCall) := staged_calls ++ [
  (2, ReserveDefinition (lit "orders") (lit "Order") (lit "other") 20)].

Definition demo_catalog (cs : list (Z * ControlCall)) : ControlDb := call_all cs (empty_control 1).
Lemma calls_after cs cs' : rtc control_step (demo_catalog cs) (demo_catalog (cs ++ cs')).
Proof. unfold demo_catalog, call_all. rewrite foldl_app. apply call_all_steps. Qed.
Definition demo_staged : WorkflowVersion := {|
  vr_target := demo_target; vr_number := 1; vr_state := VValidating; vr_created_at_ms := 1; vr_rejection_code := None;
  vr_reservation := Some (lit "upload", 1) |}.

(** ** Startup *)

Section theorems.
Context `{Codec, CronParser}.
Implicit Types db : ControlDb.

(** C18. The validation that every opening of the control database runs accepts a reachable catalog
    exactly when the Worker version of each workflow version that is not retired is ready and
    each current version of a deleted Worker is marked unavailable: all other clauses hold in
    every reachable catalog. *)
Theorem startup_validation_exact instance db (Hr : control_reachable instance db) :
  (run_invariants db).2 = Ok () ↔
  ∀ id v, db.(versions) !! id = Some v → worker_ready db v ∧ deletion_seen db id v.
Proof. by apply run_invariants_run, (control_reachable_ok instance). Qed.

(** An upload stages its workflow version while its Worker version is still under validation;
    from that moment until the Worker version is ready the control database cannot be
    opened: a restart in between fails with [MIGRATION_FAILED], every time. *)
Lemma staging_blocks_startup instance db db' i definition version class_name r fresh now_ms v w
    (Hr : control_reachable instance db)
    (Hstage : stage_reserved_version i definition version class_name r fresh now_ms db = (db', Ok v))
    (Hv : v.(vr_state) = VValidating) (Hw : db.(worker_versions) !! version = Some w)
    (Hs : w.(wv_state) = VValidating) :
  (run_invariants db').2 = Err migration_failed.
Proof.
  pose proof (control_reachable_ok _ _ Hr) as Hok. pose proof Hstage as Hk. apply stage_reserved_version_keeps in Hk; [|done].
  unfold stage_reserved_version in Hstage. run_inv. apply stage_version_inner_row in Hstage as (Ew & row & Hrow & Erw & Est).
  apply refused; [done|]. intros Hc. destruct (Hc _ _ Hrow) as [Hready _]. unfold worker_ready in Hready.
  rewrite Est, Hv, Erw, Ew, Hw in Hready. specialize (Hready eq_refl). cbn in Hready. congruence.
Qed.

(** ** Deletion *)

(** C27. A Worker version one of whose workflow bindings ever recorded a mutation can never be
    deleted: whatever calls come after, its finalization fails, and once it is left
    deleting and unreferenced every startup recovery that reaches it fails as a whole. *)
Theorem recorded_version_undeletable db db' version (Hrec : recorded db version) (Hs : rtc control_step db db') :
  (∀ i worker elsewhere now_ms, ∃ e, finalize_version_delete i worker version elsewhere now_ms db' = (db', Err e)) ∧
  (∀ elsewhere now_ms limit, version ∈ deleting_unreferenced db' elsewhere limit →
     ∃ e, recover_deleting_versions elsewhere now_ms limit db' = (db', Err e)).
Proof.
  pose proof (recorded_extends _ _ _ Hrec (extends_forever _ _ Hs)) as Hrec'. split; intros.
  - by apply finalize_blocked.
  - by eapply recovery_blocked.
Qed.

(** C19. While an instance has a reservation its artifacts are pinned: the version it was created
    from is ready and cannot be retired, the typed references of both kinds are
    registered under its own times, and its Worker version can neither begin nor finish to be
    deleted. *)
Theorem reserved_instance_pinned instance db id r
    (Hr : control_reachable instance db) (Hrow : db.(referrers) !! id = Some r) :
  (∃ v, db.(versions) !! r.(rf_version) = Some v ∧ v.(v_state) = VReady ∧ v.(v_definition) = r.(rf_definition) ∧
     v.(v_worker_version) = r.(rf_worker_version)) ∧
  (∀ f, (∀ v, retired (f v).(v_state) = true) →
     update_version r.(rf_version) (λ _, True) f db = (db, Err violation)) ∧
  db.(version_referrers) !! (r.(rf_worker_version), ByInstance, id) = Some r.(rf_created_at_ms) ∧
  db.(workflow_referrers) !! (r.(rf_definition), OfInstance, id) = Some r.(rf_created_at_ms) ∧
  (∀ i worker is_active elsewhere, ∃ e,
     begin_version_delete i worker r.(rf_worker_version) is_active elsewhere db = (db, Err e)) ∧
  (∀ i worker elsewhere now_ms, ∃ e,
     finalize_version_delete i worker r.(rf_worker_version) elsewhere now_ms db = (db, Err e)).
Proof.
  destruct (control_reachable_ok _ _ Hr) as [Ht Hc Hi]. destruct (i_settled db Hi _ _ Hrow) as [_ Hs].
  destruct (rk_version _ _ _ (k_referrer db Ht _ _ Hrow)) as (v & Hv & Ed & Ew & Hready). specialize (Hready Hs).
  assert (Hvr : db.(version_referrers) !! (r.(rf_worker_version), ByInstance, id) = Some r.(rf_created_at_ms)).
  { rewrite (k_version_refs db Ht). cbn. rewrite Hrow. cbn. by rewrite decide_True. }
  assert (Hwr : db.(workflow_referrers) !! (r.(rf_definition), OfInstance, id) = Some r.(rf_created_at_ms)).
  { rewrite (k_definition_refs db Ht). cbn. rewrite Hrow. cbn. by rewrite decide_True. }
  assert (Href : ∀ e, version_referenced db e r.(rf_worker_version)) by (intros e; right; by do 2 eexists).
  split_and!; [by exists v| |done|done|..].
  - intros f Hf. unfold update_version, mbind, M_bind, gets, ensure. rewrite Hv, decide_True by done.
    rewrite decide_False; [done|]. intros (_ & _ & _ & Hu). apply (Hu (Hf v)). right. by exists id, r.
  - intros i worker a e. by apply pinned_begin.
  - intros i worker e now_ms. by apply pinned_finalize.
Qed.

(** ** Operations and uploads *)

(** C20. A prepared restart or purge reads back and can always be ended: completing it always
    succeeds and so does cancelling it, whatever happened to the rest of the catalog; a
    completed restart leaves the instance live in the next generation, a completed purge
    leaves no row or reference of it, a cancelled operation leaves the state it was
    prepared in, and no other instance is touched. *)
Theorem prepared_operation_ends instance db id o now_ms
    (Hr : control_reachable instance db) (Ho : db.(intents) !! id = Some o) :
  ∃ op, instance_operation id db = (db, Ok (Some op)) ∧ op.(op_id) = o.(in_operation) ∧
    (∃ db', complete_instance_operation op now_ms db = (db', Ok ()) ∧ only id db db' ∧ db'.(intents) !! id = None ∧
       match o.(in_kind) with
       | Restart => ∃ r, db'.(referrers) !! id = Some r ∧ r.(rf_state) = Live ∧
           r.(rf_generation) = o.(in_expected_generation) + 1
       | Purge => acknowledge_workflow_gc id db' = (db', Ok ())
       end) ∧
    (∃ db' r, cancel_instance_operation op now_ms db = (db', Ok ()) ∧ only id db db' ∧ db'.(intents) !! id = None ∧
       db'.(referrers) !! id = Some r ∧ r.(rf_state) = o.(in_prior) ∧ r.(rf_generation) = o.(in_expected_generation)).
Proof.
  pose proof (control_reachable_ok _ _ Hr) as Hok. destruct (read_operation_ok db id o Hok Ho) as [op Hop].
  pose proof Hop as Hrun. apply read_operation_run in Hrun as (_ & o' & w & r & Ho' & Hw & Hrow & _ & ->).
  assert (o' = o) as -> by congruence. exists (operation_of w.(rv_identity) o). split; [done|]. split; [done|]. split.
  - destruct (complete_operation_total db id o w now_ms Hok Ho Hw Hop) as (db' & Hc & Hok' & On & Hi & Hk).
    exists db'. split_and!; try done. destruct (ik_check _ _ _ (i_intent db (co_intents db Hok) _ _ Ho)) as (_ & _ & _ & _ & _ & Hg).
    destruct (in_kind o).
    + destruct Hk as (r' & _ & Hr'). eexists. split; [exact Hr'|]. destruct Hg as [_ Hg]. split; [done|exact Hg].
    + unfold acknowledge_workflow_gc. apply bind_run. eexists db', _. split; [by apply gets_run|]. apply throw_if_run.
      split; [done|]. rewrite bool_decide_false; [done|]. intros [[? ?]|[[? ?]|Hd]]; [congruence..|].
      by apply not_dangling in Hd; [|apply Hok'|].
  - destruct (cancel_operation_total db id o w now_ms Hok Ho Hw Hop) as (db' & r' & Hc & On & Hi & Hr' & Hs & Hg & _). eauto 10.
Qed.

(** C21. Once another upload has taken over the reservation of a definition, the superseded one
    is fenced off for good: whatever calls come after, it stages nothing, releases nothing,
    and a version it had staged before is rejected when its validation ends, although it
    was accepted. *)
Theorem superseded_upload_fenced instance db db' d r
    (Hr : control_reachable instance db) (Hd : db.(definitions) !! r.(rs_definition).(wd_id) = Some d)
    (Hf : r.(rs_fence) < d.(reservation_fence)) (Hs : rtc control_step db db') :
  (∀ i version class_name fresh now_ms, ∃ e,
     stage_reserved_version i r.(rs_definition).(wd_id) version class_name r fresh now_ms db' = (db', Err e)) ∧
  (∀ i now_ms, release_definition_reservation i r now_ms db' = (db', Ok false)) ∧
  (∀ i id v now_ms db'' w, db'.(versions) !! id = Some v → v.(v_definition) = r.(rs_definition).(wd_id) →
     v.(v_reservation) = Some (r.(rs_owner), r.(rs_fence)) → v.(v_state) = VValidating →
     finish_version i id true now_ms db' = (db'', Ok w) → w.(vr_state) = VRejected).
Proof.
  destruct (ex_definitions _ _ (extends_forever _ _ Hs) _ _ Hd) as (d' & Hd' & [Hle _]).
  assert (control_ok db') as Hok by (apply (control_reachable_ok instance); unfold control_reachable in *; by etrans). split_and!; intros.
  - eapply superseded_stage; [done|lia].
  - eapply superseded_release; [done|lia].
  - eapply (superseded_finish i id v d'); [apply Hok|done|done|done| |lia|done]. congruence.
Qed.

(** C22. Whatever calls are made, successful or not, a catalog only moves forward: its owner stays,
    reservation fences never decrease and a tombstoned definition never changes again, a
    version keeps every column of its frozen descriptor and never returns from retirement,
    and a recorded binding mutation stays with the binding it was made through. *)
Theorem catalog_moves_forward db db' (Hs : rtc control_step db db') : extends db db'.
Proof. by apply extends_forever. Qed.
End theorems.

(** ** Witnesses *)

Lemma startup_validation_exact_witness :
  (run_invariants (demo_catalog bound)).2 = Ok () ∧
  ∀ id v, (demo_catalog bound).(versions) !! id = Some v →
    worker_ready (demo_catalog bound) v ∧ deletion_seen (demo_catalog bound) id v.
Proof.
  assert ((run_invariants (demo_catalog bound)).2 = Ok ()) as Hok by (vm_compute; reflexivity).
  split; [done|]. apply (startup_validation_exact 1 (demo_catalog bound) (call_all_reachable bound)). done.
Defined.

Lemma staging_blocks_startup_witness :
  (run_invariants (demo_catalog staged_calls)).2 = Err migration_failed.
Proof.
  apply (staging_blocks_startup 1 (demo_catalog validating) (demo_catalog staged_calls) 1 2 5 (lit "Order") demo_reservation 3 1
    demo_staged {| wv_worker := 4; wv_state := VValidating; wv_code_sha256 := demo_code; wv_loader_schema := 1;
                   wv_rejected_at_ms := None |} (call_all_reachable validating)); vm_compute; reflexivity.
Defined.

Lemma recorded_version_undeletable_witness :
  ∃ e, recover_deleting_versions (λ _, false) 9 10 (demo_catalog (bound ++ [(8, BeginVersionDelete 4 6 false false)])) =
    (demo_catalog (bound ++ [(8, BeginVersionDelete 4 6 false false)]), Err e).
Proof.
  assert (Hrec : recorded (demo_catalog bound) 6).
  { exists 50%N. eexists. eexists. split; [|split]; vm_compute; reflexivity. }
  refine (proj2 (recorded_version_undeletable (demo_catalog bound)
    (demo_catalog (bound ++ [(8, BeginVersionDelete 4 6 false false)])) 6 Hrec _) (λ _, false) 9 10 _).
  - apply calls_after.
  - apply (bool_decide_unpack _). vm_compute. exact I.
Defined.

Lemma reserved_instance_pinned_witness :
  (demo_catalog reserved_calls).(version_referrers) !! (5%N, ByInstance, 9%N) = Some 8.
Proof.
  assert (Hrow : ∃ r, (demo_catalog reserved_calls).(referrers) !! 9%N = Some r ∧ r.(rf_worker_version) = 5%N ∧
    r.(rf_created_at_ms) = 8) by (eexists; split; [|split]; vm_compute; reflexivity).
  destruct Hrow as (r & Hr & E1 & E2).
  destruct (reserved_instance_pinned 1 (demo_catalog reserved_calls) 9 r (call_all_reachable reserved_calls) Hr)
    as (_ & _ & Href & _). by rewrite E1, E2 in Href.
Defined.

Lemma prepared_operation_ends_witness :
  ∃ op, instance_operation 9 (demo_catalog restarting) = (demo_catalog restarting, Ok (Some op)) ∧
    ∃ db', complete_instance_operation op 11 (demo_catalog restarting) = (db', Ok ()).
Proof.
  assert (Ho : ∃ o, (demo_catalog restarting).(intents) !! 9%N = Some o) by (eexists; vm_compute; reflexivity).
  destruct Ho as [o Ho].
  destruct (prepared_operation_ends 1 (demo_catalog restarting) 9 o 11 (call_all_reachable restarting) Ho)
    as (op & Hop & _ & (db' & Hc & _) & _). exists op. split; [done|]. by exists db'.
Defined.

Lemma superseded_upload_fenced_witness :
  release_definition_reservation 1 demo_reservation 3 (demo_catalog superseded) = (demo_catalog superseded, Ok false).
Proof.
  assert (Hd : ∃ d, (demo_catalog superseded).(definitions) !! 2%N = Some d ∧ d.(reservation_fence) = 2)
    by (eexists; split; vm_compute; reflexivity). destruct Hd as (d & Hd & Hf).
  refine (proj1 (proj2 (superseded_upload_fenced 1 (demo_catalog superseded) (demo_catalog superseded) d demo_reservation
    (call_all_reachable superseded) Hd _ _)) 1%N 3); [rewrite Hf; cbn; lia|done].
Defined.

Lemma catalog_moves_forward_witness : extends (demo_catalog bound) (demo_catalog reserved_calls).
Proof.
  apply catalog_moves_forward. apply calls_after.
Defined.
