(* ===== verification/WorkflowController.v ===== *)
(** * The workflow controller

    [crates/workers/src/workflows.rs] and [workflow_lifecycle.rs]: creation, claims, lifecycle
    and reconciliation over two databases, the control catalog and the scheduler store.  No
    transaction spans both: a call is a saga, a sequence of transactions of one database each,
    and a process that stops leaves the ones it committed.  A saga is a tree of its
    transactions, which the semantics below runs to the end, or one transaction at a time. *)

From stdpp Require Import base numbers list option strings sorting gmap.
From S2P Require Import Prelude Text ErrorCodes Duration RetryPolicy WorkflowTypes Sql WorkflowDb WorkflowRuns WorkflowSteps WorkflowHistory WorkflowLifecycle WorkflowOperations WorkflowControl WorkflowCatalog WorkflowBindings WorkflowReservations WorkflowIntents.

Local Open Scope Z_scope.

(** ** Sagas *)

Record WorkflowReconcileCursor := {
  cur_control : option N;
  cur_scheduler : option N;
  cur_operation : option N;
  cur_gc_receipt : option N;
}.

(** What the caller keeps in memory between calls: the streak of [WorkflowClaimCursor] and
    the cursor of the reconciliation. *)
Record Memory := {
  claim_cursor : Z;
  reconcile_cursor : WorkflowReconcileCursor;
}.

Record World := {
  control : ControlDb;
  store : WorkflowDb;
  memory : Memory;
}.

Definition set_control (c : ControlDb) (w : World) : World := {| w with control := c |}.
Definition set_store (s : WorkflowDb) (w : World) : World := {| w with store := s |}.
Definition set_memory (m : Memory) (w : World) : World := {| w with memory := m |}.

Inductive Saga (A : Type) : Type :=
| Done (r : result PlatformError A)
| Ctl {B : Type} (m : CM B) (k : result PlatformError B → Saga A)
| Sch {B : Type} (m : WM B) (k : result PlatformError B → Saga A)
| Mem (f : Memory → Memory) (k : Memory → Saga A).
Arguments Done {A} r.
Arguments Ctl {A B} m k.
Arguments Sch {A B} m k.
Arguments Mem {A} f k.

#[export] Instance Saga_ret : MRet Saga := λ A a, Done (Ok a).
Fixpoint saga_bind {A B} (k : A → Saga B) (p : Saga A) : Saga B :=
  match p with
  | Done (Ok a) => k a
  | Done (Err e) => Done (Err e)
  | Ctl m f => Ctl m (λ r, saga_bind k (f r))
  | Sch m f => Sch m (λ r, saga_bind k (f r))
  | Mem g f => Mem g (λ m, saga_bind k (f m))
  end.
#[export] Instance Saga_bind : MBind Saga := @saga_bind.

(** One transaction whose error ends the saga, and one whose error the saga inspects. *)
Definition ctl {B} (m : CM B) : Saga B := Ctl m Done.
Definition sch {B} (m : WM B) : Saga B := Sch m Done.
Definition try_ctl {B} (m : CM B) : Saga (result PlatformError B) := Ctl m (λ r, Done (Ok r)).
Definition try_sch {B} (m : WM B) : Saga (result PlatformError B) := Sch m (λ r, Done (Ok r)).
Definition recall : Saga Memory := Mem id (λ m, Done (Ok m)).
Definition remember (f : Memory → Memory) : Saga unit := Mem f (λ _, Done (Ok ())).
Definition fails {A} (e : PlatformError) : Saga A := Done (Err e).
Definition fails_if (P : Prop) `{!Decision P} (e : PlatformError) : Saga unit := Done (bail_if P e).
Definition present {A} (o : option A) (e : PlatformError) : Saga A := Done (ok_or_else o e).

(** The whole saga, without interruption. *)
Fixpoint run_saga {A} (p : Saga A) (w : World) : World * result PlatformError A :=
  match p with
  | Done r => (w, r)
  | Ctl m k => let '(c, r) := m w.(control) in run_saga (k r) (set_control c w)
  | Sch m k => let '(s, r) := m w.(store) in run_saga (k r) (set_store s w)
  | Mem f k => let m := f w.(memory) in run_saga (k m) (set_memory m w)
  end.

(** One transaction of it. *)
Definition saga_next {A} (p : Saga A) (w : World) : option (Saga A * World) :=
  match p with
  | Done _ => None
  | Ctl m k => Some (k (m w.(control)).2, set_control (m w.(control)).1 w)
  | Sch m k => Some (k (m w.(store)).2, set_store (m w.(store)).1 w)
  | Mem f k => Some (k (f w.(memory)), set_memory (f w.(memory)) w)
  end.

(** ** Reads of the scheduler store *)

Definition workflow_instance (id : N) : WM (option InstanceRow) := select_instance id (λ _, True).

(** [id>?1 ORDER BY id LIMIT ?2] *)
Definition page_after (after : option N) (limit : Z) (ids : list N) : list N :=
  take (Z.to_nat limit) (order_by (λ i, [Z.of_N i]) (filter (λ i, is_none_or (λ a, (a < i)%N) after) ids)).

Definition workflow_instance_ids (after : option N) (limit : Z) : WM (list N) :=
  _ ← lift (bounded limit);
  gets (λ db, page_after after limit (map_to_list db.(workflows)).*1).

Definition workflow_gc_receipts (after : option N) (limit : Z) : WM (list (N * GcReceipt * Z)) :=
  _ ← lift (bounded limit);
  ids ← gets (λ db, page_after after limit (map_to_list db.(gc_receipts)).*1);
  for_each (λ i, o ← read_receipt i; r ← some_or o violation; mret (i, r.1, r.2)) ids.

Definition check_workflow_create_batch_capacity (instance : N) (input_bytes : list Z) (limits : WorkflowsConfig) : WM unit :=
  _ ← throw_if (input_bytes = [] ∨ (100 < length input_bytes)%nat) (storage_error WorkflowMethodUnsupported);
  o ← gets owner;
  _ ← throw_if (o ≠ instance) violation;
  _ ← lift (WorkflowsConfig_validate limits);
  let extra := sql_sum (λ b, b + reserve) input_bytes in
  _ ← throw_if (u64_max < extra) (storage_error WorkflowStateQuotaExceeded);
  capacity 0 extra false limits.

Record WorkflowCreateInput := {
  ci_payload_base64 : ustr;
  ci_retention : option WorkflowRetention;
  ci_schedule : option WorkflowCronSchedule;
}.

(** One request of [create_batch], with the identities its reservation would draw. *)
Record CreateRequest := {
  cr_operation : N;
  cr_external : option ustr;
  cr_input : WorkflowCreateInput;
  cr_drawn_external : N;
  cr_instance : N;
  cr_nonce : option WorkflowToken;
}.

Inductive WorkflowStatus : Type :=
| StatusQueued | StatusRunning | StatusWaiting | StatusWaitingForPause | StatusPaused | StatusTerminated
| StatusComplete (output_base64 : ustr) | StatusErrored.

Section controller.
Context `{Codec, CronParser}.
(** The verdict of the storage admission on so many bytes, and the validated limits. *)
Context (admission : Z → result PlatformError unit) (limits : WorkflowsConfig).

(** ** Operations on one instance *)

Definition corrupt {A} (i : WorkflowInstanceIdentity) (now_ms : Z) : Saga A :=
  _ ← ctl (mark_unavailable i.(target).(t_instance_id) i.(target).(definition_id) now_ms);
  fails violation.

(** The code of a rejection, if the operation was rejected. *)
Definition finish_operation (op : WorkflowOperation) (now_ms : Z) : Saga (option ErrorCode) :=
  d ← sch (apply_workflow_operation op now_ms limits);
  match d with
  | Applied proof => _ ← ctl (complete_instance_operation proof now_ms); mret None
  | Rejected proof code => _ ← ctl (cancel_instance_operation proof now_ms); mret (Some code)
  end.

Definition owned_reservation (owner definition id : N) : Saga WorkflowReservation :=
  o ← ctl (reservation id);
  present (o ≫= λ r, if decide (r.(rv_identity).(target).(t_instance_id) = owner ∧
                                r.(rv_identity).(target).(definition_id) = definition) then Some r else None)
    (storage_error WorkflowInstanceNotFound).

Definition expired (i : InstanceRow) (now_ms : Z) : bool :=
  bool_decide (is_some_and (λ e, e ≤ now_ms) i.(expires_at_ms)).

Definition current_instance (owner definition_id id : N) (now_ms : Z) : Saga InstanceRow :=
  _ ← ctl (definition owner definition_id);
  r ← owned_reservation owner definition_id id;
  o ← ctl (instance_operation id);
  match o with
  | Some op => fails (storage_error (match op.(op_kind) with
                       | Purge => WorkflowInstanceNotFound | Restart => WorkflowInstanceBusy end))
  | None =>
      _ ← fails_if (r.(rv_state) = Creating ∨ r.(rv_state) = Restarting ∨ r.(rv_state) = Releasing)
            (storage_error WorkflowInstanceBusy);
      o ← sch (workflow_instance id);
      i ← present o (storage_error WorkflowInstanceNotFound);
      _ ← fails_if (i.(identity) ≠ r.(rv_identity)) violation;
      _ ← fails_if (expired i now_ms = true) (storage_error WorkflowInstanceNotFound);
      mret i
  end.

Definition wake_scheduler : Saga unit := sch (modify wf_notify).

(** [if let Some(code) = self.finish_operation(..)? { return Err(error(code)) }] *)
Definition finish_or_fail (op : WorkflowOperation) (now_ms : Z) : Saga unit :=
  c ← finish_operation op now_ms;
  match c with Some code => fails (storage_error code) | None => mret () end.

Definition restart (owner definition_id id operation : N) (from : option WorkflowRestartSelector) (now_ms : Z) :
    Saga unit :=
  _ ← Done (match from with Some s => WorkflowRestartSelector_validate s | None => Ok () end);
  _ ← Done (admission 65536);
  _ ← ctl (definition owner definition_id);
  r ← owned_reservation owner definition_id id;
  o ← ctl (instance_operation id);
  match o with
  | Some op =>
      _ ← fails_if (op.(op_kind) ≠ Restart ∨ op.(op_id) ≠ operation ∨ op.(op_restart_from) ≠ from)
            (storage_error WorkflowInstanceBusy);
      _ ← finish_or_fail op now_ms;
      wake_scheduler
  | None =>
      same ← sch (workflow_restart_matches id operation from);
      if (same : bool) then mret ()
      else
        i ← current_instance owner definition_id id now_ms;
        _ ← fails_if (i.(identity) ≠ r.(rv_identity)) violation;
        op ← ctl (prepare_restart_operation i.(identity) operation from limits now_ms);
        _ ← finish_or_fail op now_ms;
        wake_scheduler
  end.

Definition delete (owner definition_id id operation : N) (now_ms : Z) : Saga unit :=
  i ← current_instance owner definition_id id now_ms;
  _ ← Done (admission 65536);
  i ← (if is_terminal i.(state) then mret i
       else
         _ ← sch (modify_workflow i.(identity) Terminate now_ms limits);
         o ← sch (workflow_instance id);
         present o (storage_error WorkflowInstanceNotFound));
  o ← ctl (reservation id);
  _ ← (if decide (is_some_and (λ r, r.(rv_state) = Live) o) then ctl (retain_instance i.(identity) now_ms)
       else mret ());
  op ← ctl (prepare_instance_operation i.(identity) operation Purge limits now_ms);
  finish_or_fail op now_ms.

Definition modify_instance (owner definition_id id : N) (action : WorkflowInstanceAction) (now_ms : Z) : Saga unit :=
  i ← current_instance owner definition_id id now_ms;
  _ ← Done (admission 65536);
  _ ← sch (modify_workflow i.(identity) action now_ms limits);
  match action with
  | Terminate => ctl (retain_instance i.(identity) now_ms)
  | _ => mret ()
  end.

Definition rollback_instance (owner definition_id id : N) (now_ms : Z) : Saga unit :=
  i ← current_instance owner definition_id id now_ms;
  _ ← Done (admission 65536);
  sch (request_workflow_rollback i.(identity) now_ms limits).

Definition send_event (owner definition_id id operation : N) (event_type payload : ustr) (now_ms : Z) : Saga unit :=
  i ← current_instance owner definition_id id now_ms;
  _ ← Done (admission (str_len payload + 65536));
  sch (send_workflow_event i.(identity) operation event_type payload now_ms limits).

Definition status (owner definition_id id : N) (now_ms : Z) : Saga WorkflowStatus :=
  i ← current_instance owner definition_id id now_ms;
  match i.(state) with
  | WQueued => mret StatusQueued
  | WRunning => mret (if i.(pause_requested) then StatusWaitingForPause else StatusRunning)
  | WWaiting => mret StatusWaiting
  | WPaused => mret StatusPaused
  | WTerminated => mret StatusTerminated
  | WComplete =>
      output ← present i.(output_json) violation;
      Done (match durable_value_base64 output WorkflowInvariantViolation with
            | Ok v => Ok (StatusComplete v) | Err _ => Err violation end)
  | WErrored => _ ← present i.(error_json) violation; mret StatusErrored
  end.

(** ** Creation *)

(** The validated payload and retention of each request. *)
Fixpoint prepare_inputs (qs : list CreateRequest) : result PlatformError (list (ustr * WorkflowRetention)) :=
  match qs with
  | [] => Ok []
  | q :: qs =>
      let r := default limits.(default_retention) q.(cr_input).(ci_retention) in
      _ ← WorkflowRetention_validate r;
      payload ← durable_value_base64 q.(cr_input).(ci_payload_base64) WorkflowPayloadTooLarge;
      rest ← prepare_inputs qs;
      Ok ((payload, r) :: rest)
  end.

Definition reservation_request (q : CreateRequest) : ReservationRequest := {|
  rq_operation := q.(cr_operation); rq_external := q.(cr_external); rq_schedule := q.(cr_input).(ci_schedule);
  rq_drawn_external := q.(cr_drawn_external); rq_instance := q.(cr_instance); rq_nonce := q.(cr_nonce) |}.

Definition creation_conflict (definition_id : N) (external : option ustr) (now_ms : Z) : Saga ErrorCode :=
  match external with
  | None => mret WorkflowInstanceAlreadyExists
  | Some external =>
      existing ← ctl (find_instance definition_id external);
      let id := existing.(rv_identity).(instance_id) in
      o ← ctl (instance_operation id);
      if decide (is_some_and (λ op, op.(op_kind) = Purge) o) then mret WorkflowInstanceCleanupPending
      else
        o ← sch (workflow_instance id);
        i ← present o violation;
        mret (if expired i now_ms then WorkflowInstanceCleanupPending else WorkflowInstanceAlreadyExists)
  end.

(** After a failed insertion: the members whose exact row is committed all the same. *)
Fixpoint count_committed (l : list (WorkflowInstanceIdentity * (ustr * WorkflowRetention))) : Saga nat :=
  match l with
  | [] => mret 0%nat
  | (id, (payload, r)) :: l =>
      o ← sch (workflow_instance id.(instance_id));
      match o with
      | None => count_committed l
      | Some i =>
          _ ← fails_if (i.(identity) ≠ id ∨ i.(input_json) ≠ payload ∨ i.(retention) ≠ r) violation;
          n ← count_committed l;
          mret (S n)
      end
  end.

Definition create_batch (owner definition_id batch : N) (qs : list CreateRequest) (now_ms : Z) :
    Saga (list WorkflowInstanceIdentity) :=
  _ ← fails_if (qs = [] ∨ (100 < length qs)%nat) (storage_error WorkflowMethodUnsupported);
  inputs ← Done (prepare_inputs qs);
  let mutation_bytes := 65536 + sql_sum (λ p, str_len p.1) inputs in
  _ ← fails_if (u64_max < mutation_bytes) (storage_error WorkflowStateQuotaExceeded);
  _ ← sch (check_workflow_create_batch_capacity owner ((λ p, str_len p.1) <$> inputs) limits);
  _ ← Done (admission mutation_bytes);
  reserved ← try_ctl (reserve_instances_with_schedules owner definition_id batch (reservation_request <$> qs) limits now_ms);
  rows ← match reserved with
         | Ok rows => mret rows
         | Err e =>
             if decide (e.(code) = WorkflowInstanceAlreadyExists) then
               match qs with
               | [q] => c ← creation_conflict definition_id q.(cr_external) now_ms; fails (storage_error c)
               | _ => fails e
               end
             else fails e
         end;
  let ids := rv_identity <$> rows in
  inserted ← try_sch (insert_workflows ((λ p, (p.1, p.2.1, Some p.2.2)) <$> zip ids inputs) limits);
  _ ← match inserted with
      | Ok _ => mret ()
      | Err e =>
          committed ← count_committed (zip ids inputs);
          if decide (committed = 0%nat) then
            removed ← ctl (abandon_creations ids);
            _ ← fails_if (removed ≠ length ids) violation;
            fails e
          else fails_if (committed ≠ length ids) violation
      end;
  _ ← ctl (finalize_instances ids now_ms);
  _ ← wake_scheduler;
  mret ids.

Definition create (owner definition_id operation : N) (q : CreateRequest) (now_ms : Z) : Saga WorkflowInstanceIdentity :=
  ids ← create_batch owner definition_id operation [q] now_ms;
  present (last ids) violation.

(** ** Claims *)

Fixpoint claim_loop (rng : N → option WorkflowToken) (now_ms : Z) (ids : list N) : Saga (option ClaimedWorkflowRun) :=
  match ids with
  | [] => mret None
  | id :: ids =>
      o ← sch (workflow_instance id);
      i ← present o violation;
      o ← ctl (reservation id);
      r ← present o violation;
      o ← ctl (instance_operation id);
      if decide (is_Some o) then claim_loop rng now_ms ids
      else
        _ ← fails_if (r.(rv_identity) ≠ i.(identity)) violation;
        if decide (r.(rv_state) = Creating) then
          _ ← sch (defer_workflow id now_ms limits); claim_loop rng now_ms ids
        else
          intact ← (if decide (r.(rv_state) = Live) then ctl (instance_referrers_intact i.(identity)) else mret false);
          _ ← fails_if (intact = false) violation;
          d ← ctl (definition i.(identity).(target).(t_instance_id) i.(identity).(target).(definition_id));
          if decide (d.(wd_row).(d_state) ≠ DReady ∨ d.(wd_row).(availability) ≠ Healthy) then
            _ ← sch (defer_workflow id now_ms limits); claim_loop rng now_ms ids
          else
            v ← try_sch (verify_workflow_history id);
            match v with
            | Err e => if decide (e.(code) = WorkflowRuntimeUnavailable) then fails e else corrupt i.(identity) now_ms
            | Ok _ =>
                run ← sch (claim_workflow i.(identity) (rng id) now_ms limits);
                match run with
                | Some run => mret (Some run)
                | None => claim_loop rng now_ms ids
                end
            end
  end.

Definition claim (rng : N → option WorkflowToken) (now_ms : Z) : Saga (option ClaimedWorkflowRun) :=
  _ ← Done (admission 65536);
  _ ← sch (recover_workflows now_ms limits 32);
  _ ← sch (maintain_workflow_due now_ms limits 32);
  m ← recall;
  p ← sch (due_workflows now_ms 32 m.(claim_cursor));
  _ ← remember (λ m, {| m with claim_cursor := p.2 |});
  claim_loop rng now_ms p.1.

(** ** Reconciliation *)

Fixpoint finish_all (now_ms : Z) (ops : list WorkflowOperation) : Saga unit :=
  match ops with
  | [] => mret ()
  | op :: ops => _ ← finish_operation op now_ms; finish_all now_ms ops
  end.

Fixpoint sweep_all (receipts : list (N * GcReceipt * Z)) : Saga unit :=
  match receipts with
  | [] => mret ()
  | (id, g, n) :: receipts =>
      a ← try_ctl (acknowledge_workflow_gc id);
      _ ← match a with
          | Ok _ => sch (sweep_workflow_gc id g n)
          | Err e => if decide (e.(code) = WorkflowInstanceBusy) then mret () else fails e
          end;
      sweep_all receipts
  end.

Definition move_cursor (f : WorkflowReconcileCursor → WorkflowReconcileCursor) : Saga unit :=
  remember (λ m, {| m with reconcile_cursor := f m.(reconcile_cursor) |}).

Definition reconcile_operations (limit now_ms : Z) : Saga unit :=
  m ← recall;
  ops ← ctl (instance_operations m.(reconcile_cursor).(cur_operation) limit);
  _ ← finish_all now_ms ops;
  _ ← move_cursor (λ c, {| c with cur_operation := op_id <$> last ops |});
  m ← recall;
  receipts ← sch (workflow_gc_receipts m.(reconcile_cursor).(cur_gc_receipt) limit);
  _ ← sweep_all receipts;
  move_cursor (λ c, {| c with cur_gc_receipt := (λ r, r.1.1) <$> last receipts |}).

(** The members of a batch whose exact row is in the scheduler, still queued. *)
Fixpoint count_queued (rows : list WorkflowReservation) : Saga nat :=
  match rows with
  | [] => mret 0%nat
  | r :: rows =>
      o ← sch (workflow_instance r.(rv_identity).(instance_id));
      match o with
      | None => count_queued rows
      | Some i =>
          _ ← fails_if (i.(identity) ≠ r.(rv_identity) ∨ i.(state) ≠ WQueued) violation;
          n ← count_queued rows;
          mret (S n)
      end
  end.

Fixpoint repair_all (ids : list WorkflowInstanceIdentity) : Saga unit :=
  match ids with
  | [] => mret ()
  | id :: ids => _ ← ctl (repair_instance_referrers id); repair_all ids
  end.

(** [identities.iter().map(|identity| identity.created_at_ms).min()] *)
Definition oldest (ids : list WorkflowInstanceIdentity) : option Z :=
  match ids with [] => None | i :: ids => Some (foldl Z.min i.(created_at_ms) (created_at_ms <$> ids)) end.

Definition reconcile_creation_batch (batch : N) (now_ms : Z) : Saga unit :=
  rows ← ctl (creation_batch_reservations batch);
  _ ← fails_if (rows = [] ∨ Exists (λ r, r.(rv_identity).(creation_batch_id) ≠ batch) rows) violation;
  let ids := rv_identity <$> rows in
  committed ← count_queued rows;
  if decide (committed = length ids) then
    _ ← repair_all ids;
    ctl (finalize_instances ids now_ms)
  else
    _ ← fails_if (committed ≠ 0%nat) violation;
    oldest ← present (oldest ids) violation;
    grace ← present (i64_checked limits.(creation_grace_ms)) (storage_error LimitInvalid);
    if decide (grace ≤ i64_saturate (now_ms - oldest)) then
      removed ← ctl (abandon_creations ids);
      fails_if (removed ≠ length ids) violation
    else mret ().

(** The control page; [recovered] are the batches already reconciled in this page. *)
Fixpoint reconcile_reservations (now_ms : Z) (recovered : list N) (rows : list WorkflowReservation) : Saga unit :=
  match rows with
  | [] => mret ()
  | r :: rows =>
      let id := r.(rv_identity) in
      o ← ctl (instance_operation id.(instance_id));
      if decide (is_Some o) then reconcile_reservations now_ms recovered rows
      else if decide (r.(rv_state) = Creating) then
        if decide (id.(creation_batch_id) ∈ recovered) then reconcile_reservations now_ms recovered rows
        else
          _ ← reconcile_creation_batch id.(creation_batch_id) now_ms;
          reconcile_reservations now_ms (id.(creation_batch_id) :: recovered) rows
      else
        o ← sch (workflow_instance id.(instance_id));
        match o with
        | None => corrupt id now_ms
        | Some i =>
            if decide (i.(identity) ≠ id) then corrupt id now_ms
            else if is_terminal i.(state) then
              _ ← ctl (retain_instance id now_ms);
              reconcile_reservations now_ms recovered rows
            else if decide (r.(rv_state) ≠ Live) then corrupt id now_ms
            else
              _ ← ctl (repair_instance_referrers id);
              reconcile_reservations now_ms recovered rows
        end
  end.

(** The scheduler page. *)
Fixpoint reconcile_instances (now_ms : Z) (ids : list N) : Saga unit :=
  match ids with
  | [] => mret ()
  | id :: ids =>
      o ← ctl (instance_operation id);
      if decide (is_Some o) then reconcile_instances now_ms ids
      else
        o ← sch (workflow_instance id);
        i ← present o violation;
        o ← ctl (reservation id);
        if decide (is_none_or (λ r, r.(rv_identity) ≠ i.(identity) ∨
                     (is_terminal i.(state) = false ∧ r.(rv_state) = Released)) o)
        then corrupt i.(identity) now_ms
        else
          v ← try_sch (verify_workflow_history id);
          match v with
          | Err e => if decide (e.(code) = WorkflowRuntimeUnavailable) then fails e else corrupt i.(identity) now_ms
          | Ok _ => reconcile_instances now_ms ids
          end
  end.

(** [fresh] is the operation identity drawn for an instance. *)
Fixpoint collect_loop (fresh : N → N) (now_ms : Z) (ids : list WorkflowInstanceIdentity) : Saga unit :=
  match ids with
  | [] => mret ()
  | id :: ids =>
      o ← ctl (instance_operation id.(instance_id));
      if decide (is_Some o) then collect_loop fresh now_ms ids
      else
        o ← ctl (reservation id.(instance_id));
        r ← present o violation;
        if decide (r.(rv_identity) ≠ id) then corrupt id now_ms
        else
          _ ← (if decide (r.(rv_state) = Live) then ctl (retain_instance id now_ms) else mret ());
          op ← ctl (prepare_instance_operation id (fresh id.(instance_id)) Purge limits now_ms);
          _ ← finish_operation op now_ms;
          collect_loop fresh now_ms ids
  end.

Definition collect_expired (fresh : N → N) (limit now_ms : Z) : Saga unit :=
  ids ← sch (expired_workflows now_ms limit);
  collect_loop fresh now_ms ids.

Definition reconcile (fresh : N → N) (limit now_ms : Z) : Saga unit :=
  _ ← reconcile_operations limit now_ms;
  m ← recall;
  rows ← ctl (live_reservations m.(reconcile_cursor).(cur_control) limit);
  _ ← reconcile_reservations now_ms [] rows;
  _ ← move_cursor (λ c, {| c with cur_control := (λ r, r.(rv_identity).(instance_id)) <$> last rows |});
  m ← recall;
  ids ← sch (workflow_instance_ids m.(reconcile_cursor).(cur_scheduler) limit);
  _ ← reconcile_instances now_ms ids;
  _ ← move_cursor (λ c, {| c with cur_scheduler := last ids |});
  _ ← sch (recover_workflows now_ms limits limit);
  _ ← sch (maintain_workflow_due now_ms limits limit);
  _ ← collect_expired fresh limit now_ms;
  _ ← ctl (retire_unused_versions limit now_ms);
  wake_scheduler.
End controller.
