(* ===== verification/WorkflowFrame.v ===== *)
(** * What the calls of the workflow store leave alone

    Creation, restart, purge and the sweep of receipts apart, no call of the store touches
    the decisions and receipts of operations, adds or removes an instance, or changes its
    identity or the marker of its last restart; only a claim and a lifecycle action take an
    instance that has not started out of the queue.  The rule is closed under the
    combinators the calls are written with, so it is checked statement by statement. *)

From stdpp Require Import base numbers list option strings sorting gmap.
From S2P Require Import Prelude Text ErrorCodes Duration RetryPolicy Sql WorkflowTypes WorkflowDb WorkflowRuns WorkflowSteps WorkflowBatch WorkflowHistory WorkflowLifecycle WorkflowOperations WorkflowEvolve WorkflowMoves WorkflowReach WorkflowControl WorkflowCatalog WorkflowBindings WorkflowReservations WorkflowIntents WorkflowControlInv WorkflowControlMoves WorkflowControlOps WorkflowControlReach.

Local Open Scope Z_scope.

(** ** The rule *)

(** Identity and restart marker of an instance. *)
Definition marks (w : Workflow) :=
  (w.(row).(identity), w.(row).(last_restart_operation_id), w.(row).(last_restart_from),
   w.(row).(last_restart_target_ordinal)).

(** Queued, and nothing registered yet. *)
Definition idle (w : Workflow) : Prop := w.(row).(state) = WQueued ∧ w.(steps) = [].

Definition same_marks (w w' : Workflow) : Prop :=
  marks w' = marks w ∧ (is_terminal w.(row).(state) = true → w' = w).
Definition still_idle (w w' : Workflow) : Prop := same_marks w w' ∧ (idle w → idle w').

#[export] Instance same_marks_pre : PreOrder same_marks.
Proof.
  unfold same_marks. split; [done|]. intros w1 w2 w3 [E1 T1] [E2 T2]. split; [congruence|].
  intros T. pose proof (T1 T). subst. auto.
Qed.
#[export] Instance still_idle_pre : PreOrder still_idle.
Proof. unfold still_idle. split; [done|]. intros ??? [? ?] [? ?]. split; [by etrans|auto]. Qed.

Section frame.
Context (R : relation Workflow) `{!PreOrder R}.

Definition framed (db db' : WorkflowDb) : Prop :=
  db'.(owner) = db.(owner) ∧ db'.(progress) = db.(progress) ∧ db'.(gc_receipts) = db.(gc_receipts) ∧
  ∀ id, option_Forall2 R (db.(workflows) !! id) (db'.(workflows) !! id).
Definition frame {A} (m : WM A) : Prop := ∀ db, framed db (m db).1.

Lemma framed_refl db : framed db db.
Proof. by split_and!. Qed.
Lemma framed_trans db1 db2 db3 : framed db1 db2 → framed db2 db3 → framed db1 db3.
Proof.
  intros (O1 & P1 & G1 & W1) (O2 & P2 & G2 & W2). split_and!; try congruence. intros id.
  specialize (W1 id). specialize (W2 id). by etrans.
Qed.

Lemma frame_pure {A} (m : WM A) : pure m → frame m.
Proof. intros Hm db. rewrite (Hm db). apply framed_refl. Qed.
Lemma frame_bind {A B} (m : WM A) (k : A → WM B) : frame m → (∀ a, frame (k a)) → frame (m ≫= k).
Proof.
  intros Hm Hk db. unfold mbind, M_bind. specialize (Hm db). destruct (m db) as [db1 [a|e]]; [|done].
  eapply framed_trans; [exact Hm|apply Hk].
Qed.
Lemma frame_transaction {A} (m : WM A) : frame m → frame (transaction m).
Proof. intros Hm db. unfold transaction. specialize (Hm db). destruct (m db) as [db1 [a|e]]; [done|apply framed_refl]. Qed.
Lemma frame_for_each {A B} (f : A → WM B) l : (∀ x, frame (f x)) → frame (for_each f l).
Proof.
  intros Hf. induction l as [|x l IH]; cbn; [by apply frame_pure|].
  apply frame_bind; [done|]. intros y. apply frame_bind; [done|]. intros ys. by apply frame_pure.
Qed.
Lemma frame_if (P : Prop) `{!Decision P} {A} (m n : WM A) : frame m → frame n → frame (if decide P then m else n).
Proof. by case_decide. Qed.
Lemma frame_if_bool (b : bool) {A} (m n : WM A) : frame m → frame n → frame (if b then m else n).
Proof. by destruct b. Qed.
Lemma frame_execute_on id (P : Workflow → Prop) `{!∀ w, Decision (P w)} f :
  (∀ w w', P w → f w = Some w' → R w w') → frame (execute_on id P f).
Proof.
  intros Hf db. unfold execute_on. destruct (workflows db !! id) as [w|] eqn:Hw; [|apply framed_refl].
  case_decide as HP; [|apply framed_refl]. destruct (f w) as [w'|] eqn:E; [|apply framed_refl].
  split_and!; try done. intros id'. cbn. destruct (decide (id' = id)) as [->|Hne].
  - rewrite Hw, lookup_insert_eq. constructor. by apply Hf.
  - rewrite lookup_insert_ne by done. apply framed_refl.
Qed.
Lemma frame_execute id f : (∀ w w', f w = Some w' → R w w') → frame (execute id f).
Proof. intros Hf. apply frame_bind; [|intros n; by apply frame_pure]. apply frame_execute_on. eauto. Qed.
Lemma frame_notify : frame (modify wf_notify).
Proof. intros db. by split_and!. Qed.
Lemma frame_receipts f : frame (modify (λ db, {| db with receipts := f db |})).
Proof. intros db. by split_and!. Qed.
End frame.

Lemma frame_weaken {A} (m : WM A) : frame still_idle m → frame same_marks m.
Proof.
  intros Hm db. destruct (Hm db) as (? & ? & ? & Hw). split_and!; try done. intros id.
  destruct (Hw id) as [w w' [E _]|]; by constructor.
Qed.

(** ** Statements *)

Lemma row_marks b f w w' :
  (∀ i, (f i).(identity) = i.(identity) ∧ (f i).(last_restart_operation_id) = i.(last_restart_operation_id) ∧
        (f i).(last_restart_from) = i.(last_restart_from) ∧
        (f i).(last_restart_target_ordinal) = i.(last_restart_target_ordinal)) →
  update_instance b f w = Some w' → same_marks w w'.
Proof.
  unfold update_instance. intros Hf. case_decide as Hg; intros; simplify_eq. split.
  - destruct (Hf w.(row)) as (E1 & E2 & E3 & E4). unfold marks. cbn. congruence.
  - destruct Hg as (_ & _ & _ & Hl & _). congruence.
Qed.
Lemma row_idle b f w w' :
  (∀ i, i.(state) = WQueued → (f i).(state) = WQueued) → update_instance b f w = Some w' → idle w → idle w'.
Proof. unfold update_instance, idle. intros Hf. case_decide; intros; simplify_eq. naive_solver. Qed.
Lemma account_frame n w0 w w' :
  w.(row) = w0.(row) → account n w = Some w' → same_marks w0 w' ∧ (w.(steps) = w0.(steps) → idle w0 → idle w').
Proof.
  intros Hr Ha. assert (same_marks w w') as [E T] by (eapply row_marks; [|exact Ha]; done). split.
  - split; [rewrite E; unfold marks; by rewrite Hr|]. intros Ht. unfold account, update_instance in Ha. case_decide as Hg; [|done].
    destruct Hg as (_ & _ & _ & Hl & _). congruence.
  - intros Hs [Hq Hn]. eapply row_idle; [|exact Ha|]; [done|]. split; congruence.
Qed.

Lemma update_step_frame o f w w' : update_step o f w = Some w' → still_idle w w'.
Proof.
  unfold update_step. destruct (steps w !! o) as [s|] eqn:Hs; [|intros; by simplify_eq].
  case_decide; [|done]. intros Ha. apply (account_frame _ w) in Ha as [E _]; [|done]. split; [done|].
  intros [_ Hn]. by rewrite Hn in Hs.
Qed.
Lemma update_steps_frame (P : Step → Prop) `{!∀ s, Decision (P s)} f w w' : update_steps P f w = Some w' → still_idle w w'.
Proof.
  unfold update_steps. generalize (imap pair (steps w)) as l. intros l.
  enough (∀ acc, (∀ w1, acc = Some w1 → still_idle w w1) →
    foldl (λ acc p, w ← acc; if decide (P p.2) then update_step p.1 f w else Some w) acc l = Some w' → still_idle w w') as Hx.
  { apply Hx. intros w1 [= <-]. done. }
  induction l as [|p l IH]; intros acc Hacc; cbn; [apply Hacc|]. apply IH.
  intros w1. destruct acc as [w2|]; [cbn|done]. case_decide.
  - intros Hu%update_step_frame. etrans; [by apply Hacc|done].
  - intros [= <-]. by apply Hacc.
Qed.
Lemma insert_step_frame s w w' : insert_step s w = Some w' → still_idle w w'.
Proof.
  unfold insert_step. case_decide as Hg; [|done]. intros Ha. apply (account_frame _ w) in Ha as [E _]; [|done]. split; [done|].
  intros [Hq _]. destruct Hg as (_ & _ & Hr & _). congruence.
Qed.
Lemma insert_event_frame e w w' : insert_event e w = Some w' → still_idle w w'.
Proof. unfold insert_event. case_decide; [|done]. intros Ha. apply (account_frame _ w) in Ha as [E Hi]; [|done]. split; auto. Qed.
Lemma delete_event_frame n w w' : delete_event n w = Some w' → still_idle w w'.
Proof.
  unfold delete_event. repeat case_decide; try done; [|intros; by simplify_eq].
  intros Ha. apply (account_frame _ w) in Ha as [E Hi]; [|done]. split; auto.
Qed.

Definition keeps_marks (f : InstanceRow → InstanceRow) : Prop :=
  ∀ i, (f i).(identity) = i.(identity) ∧ (f i).(last_restart_operation_id) = i.(last_restart_operation_id) ∧
       (f i).(last_restart_from) = i.(last_restart_from) ∧
       (f i).(last_restart_target_ordinal) = i.(last_restart_target_ordinal).

Lemma frame_row_on id (P : Workflow → Prop) `{!∀ w, Decision (P w)} b f :
  keeps_marks f → (∀ w, P w → w.(row).(state) = WQueued → (f w.(row)).(state) = WQueued) →
  frame still_idle (execute_on id P (update_instance b f)).
Proof.
  intros Hm Hs. apply frame_execute_on; [apply _|]. intros w w' HP Hu. split; [by eapply row_marks|].
  unfold update_instance in Hu. case_decide; [|done]. simplify_eq. intros [Hq Hn]. split; [by apply Hs|done].
Qed.
Lemma frame_row id b f :
  keeps_marks f → (∀ i, i.(state) = WQueued → (f i).(state) = WQueued) → frame still_idle (execute id (update_instance b f)).
Proof.
  intros Hm Hs. apply frame_execute; [apply _|]. intros w w' Hu. split; [by eapply row_marks|by eapply row_idle].
Qed.
Lemma frame_step id o f : frame still_idle (execute id (update_step o f)).
Proof. apply frame_execute; [apply _|]. intros w w'. apply update_step_frame. Qed.
Lemma frame_steps_on id (P : Workflow → Prop) (Q : Step → Prop) `{!∀ w, Decision (P w), !∀ s, Decision (Q s)} f :
  frame still_idle (execute_on id P (update_steps Q f)).
Proof. apply frame_execute_on; [apply _|]. intros w w' _. apply update_steps_frame. Qed.
Lemma frame_steps id (Q : Step → Prop) `{!∀ s, Decision (Q s)} f : frame still_idle (execute id (update_steps Q f)).
Proof. apply frame_execute; [apply _|]. intros w w'. apply update_steps_frame. Qed.
Lemma frame_insert_step id s : frame still_idle (execute id (insert_step s)).
Proof. apply frame_execute; [apply _|]. intros w w'. apply insert_step_frame. Qed.
Lemma frame_insert_event id e : frame still_idle (execute id (insert_event e)).
Proof. apply frame_execute; [apply _|]. intros w w'. apply insert_event_frame. Qed.
Lemma frame_delete_event id n : frame still_idle (execute id (delete_event n)).
Proof. apply frame_execute; [apply _|]. intros w w'. apply delete_event_frame. Qed.

Create HintDb frame.
#[export] Hint Resolve frame_step frame_steps_on frame_steps frame_insert_step frame_insert_event frame_delete_event
  frame_notify frame_receipts still_idle_pre same_marks_pre select_pure read_decision_pure : frame.

(** Takes a call apart into its statements. *)
Ltac frames :=
  repeat first
    [ match goal with |- ∀ _, _ => intros end
    | solve [auto with frame nocore]
    | solve [apply frame_weaken; auto with frame nocore]
    | solve [apply frame_pure; [apply _|]; auto with tx frame nocore]
    | apply frame_bind; [apply _|..]
    | apply frame_transaction; [apply _|..]
    | apply frame_for_each; [apply _|..]
    | apply frame_if
    | apply frame_if_bool
    | apply frame_row; [by repeat split|done]
    | apply frame_row_on; [by repeat split|]; let w := fresh in let HP := fresh in let Hq := fresh in
      intros w HP Hq; unfold holds, owns in HP; cbn in *; naive_solver congruence
    | match goal with
      | |- frame _ (match ?x with _ => _ end) => destruct x
      | |- frame _ (let '_ := ?x in _) => destruct x
      end ].

Section calls.
Context `{Codec}.

Lemma owns_queued w t : owns w.(row) t → w.(row).(state) ≠ WQueued.
Proof. intros [-> _]. done. Qed.

Lemma read_step_pure id o : pure (read_step id o).
Proof. unfold read_step, steps_of. apply pure_bind; [apply pure_gets|]. intros ss. destruct (ss !! Z.to_nat o); auto with tx. Qed.
Lemma running_pure f now : pure (running f now).
Proof. unfold running. apply pure_bind; [apply select_pure|]. auto with tx. Qed.
Lemma steps_of_pure id : pure (steps_of id).
Proof. apply pure_gets. Qed.
Lemma first_event_pure id t : pure (first_event id t).
Proof. apply pure_gets. Qed.
Lemma token_or_pure rng : pure (token_or rng).
Proof. apply pure_some_or. Qed.
Lemma charge_output_pure id output limits : pure (charge_output id output limits).
Proof.
  unfold charge_output. destruct (durable_value_base64 _ _); [|auto with tx]. intros db.
  pose proof (capacity_change_pure id (str_len a) (-1) limits db) as Hp. by destruct (capacity_change _ _ _ _ db) as [s [|]].
Qed.
Lemma final_output_pure i completion limits : pure (final_output i completion limits).
Proof.
  unfold final_output. apply pure_bind; [apply steps_of_pure|]. intros ss.
  destruct (platform_failure ss); [auto with tx|]. destruct completion; [|auto with tx..]. case_decide; [auto with tx|].
  destruct (durable_value_base64 _ _) as [v|]; [|auto with tx]. intros db.
  pose proof (capacity_change_pure i.(identity).(instance_id) (str_len v) (-1) limits db) as Hp.
  by destruct (capacity_change _ _ _ _ db) as [s [|]].
Qed.
#[local] Hint Resolve capacity_change_pure read_step_pure running_pure steps_of_pure first_event_pure token_or_pure
  charge_output_pure final_output_pure : frame.

Lemma heartbeat_frame f now limits : frame still_idle (heartbeat f now limits).
Proof. unfold heartbeat. frames. Qed.
Lemma release_frame i q now : frame still_idle (release i q now).
Proof. unfold release. frames. Qed.
Lemma request_yield_frame f now : frame still_idle (request_yield f now).
Proof. unfold request_yield. frames. Qed.
Lemma wake_frame id now : frame still_idle (wake id now).
Proof. unfold wake. frames. Qed.
Lemma settle_frame i s now limits : frame still_idle (settle i s now limits).
Proof. unfold settle. frames. Qed.
Lemma fail_frame id s c d now : frame still_idle (fail id s c d now).
Proof. unfold fail. frames. Qed.
Lemma step_timeout_frame id s now : frame still_idle (step_timeout id s now).
Proof. unfold step_timeout, defer_dynamic_failure. frames; try apply fail_frame. Qed.
#[local] Hint Resolve heartbeat_frame release_frame request_yield_frame wake_frame settle_frame fail_frame
  step_timeout_frame : frame.

Lemma defer_workflow_frame id now limits : frame still_idle (defer_workflow id now limits).
Proof. unfold defer_workflow. frames. Qed.
Lemma yield_workflow_frame f now : frame still_idle (yield_workflow f now).
Proof. unfold yield_workflow. frames. Qed.
Lemma recover_workflows_frame now limits limit : frame still_idle (recover_workflows now limits limit).
Proof. unfold recover_workflows, recover_one. frames. Qed.
Lemma maintain_workflow_due_frame now limits limit : frame still_idle (maintain_workflow_due now limits limit).
Proof. unfold maintain_workflow_due, maintain_one. frames. Qed.
Lemma send_workflow_event_frame id op t payload now limits : frame still_idle (send_workflow_event id op t payload now limits).
Proof. unfold send_workflow_event. frames. Qed.
Lemma request_workflow_rollback_frame id now limits : frame still_idle (request_workflow_rollback id now limits).
Proof. unfold request_workflow_rollback, cancel_unfinished. frames. Qed.
Lemma finish_workflow_frame f completion now limits : frame still_idle (finish_workflow f completion now limits).
Proof. unfold finish_workflow, cancel_unfinished. frames. Qed.
Lemma settle_workflow_step_frame f a outcome now limits : frame still_idle (settle_workflow_step f a outcome now limits).
Proof. unfold settle_workflow_step. frames. Qed.
Lemma resolve_workflow_delay_frame f o a r now limits : frame still_idle (resolve_workflow_delay f o a r now limits).
Proof. unfold resolve_workflow_delay. frames. Qed.

Lemma start_attempt_frame f rng now s config d : frame still_idle (start_attempt f rng now s config d).
Proof.
  unfold start_attempt. frames. apply frame_execute_on; [apply _|]. intros w w' _.
  repeat case_match; intros; simplify_eq; try done. by eapply update_step_frame.
Qed.
#[local] Hint Resolve start_attempt_frame : frame.
Lemma grant_all_frame f i rng remaining now limits ro admitted ds :
  frame still_idle (grant_all f i rng remaining now limits ro admitted ds).
Proof.
  revert admitted. induction ds as [|d ds IH]; intros admitted; cbn [grant_all]; [frames|].
  unfold grant_step, admit_callback. frames.
Qed.
Lemma claim_workflow_batch_frame f ds rng remaining now limits :
  frame still_idle (claim_workflow_batch f ds rng remaining now limits).
Proof. unfold claim_workflow_batch, register_batch, register_one, register. frames; apply grant_all_frame. Qed.

Lemma frame_row_marks id (P : Workflow → Prop) `{!∀ w, Decision (P w)} b f :
  keeps_marks f → frame same_marks (execute_on id P (update_instance b f)).
Proof. intros Hm. apply frame_execute_on; [apply _|]. intros w w' _ Hu. by eapply row_marks. Qed.
Lemma claim_workflow_frame id rng now limits : frame same_marks (claim_workflow id rng now limits).
Proof. unfold claim_workflow. frames. by apply frame_row_marks. Qed.
Lemma modify_workflow_frame id action now limits : frame same_marks (modify_workflow id action now limits).
Proof.
  unfold modify_workflow, pause, resume, terminate, resume_step, cancel_unfinished. frames; by apply frame_row_marks.
Qed.
End calls.

(** ** What the catalog calls leave alone

    No call on definitions, versions, bindings or Workers touches the reservations of
    instances or their prepared operations, and a reservation reads the same after it. *)

Definition same_instances (db db' : ControlDb) : Prop :=
  db'.(referrers) = db.(referrers) ∧ db'.(intents) = db.(intents).
Definition quiet {A} (m : CM A) : Prop := ∀ db, same_instances db (m db).1.

#[export] Instance same_instances_pre : PreOrder same_instances.
Proof. unfold same_instances. split; [done|]. intros ??? [] []. split; congruence. Qed.

Lemma quiet_pure {A} (m : CM A) : pure m → quiet m.
Proof. intros Hm db. by rewrite (Hm db). Qed.
Lemma quiet_bind {A B} (m : CM A) (k : A → CM B) : quiet m → (∀ a, quiet (k a)) → quiet (m ≫= k).
Proof.
  intros Hm Hk db. unfold mbind, M_bind. specialize (Hm db). destruct (m db) as [db1 [a|e]]; [|done].
  etrans; [exact Hm|apply Hk].
Qed.
Lemma quiet_transaction {A} (m : CM A) : quiet m → quiet (transaction m).
Proof. intros Hm db. unfold transaction. specialize (Hm db). by destruct (m db) as [db1 [a|e]]. Qed.
Lemma quiet_internally {A} (m : CM A) : quiet m → quiet (internally m).
Proof. intros Hm db. unfold internally. specialize (Hm db). by destruct (m db) as [db1 [a|e]]. Qed.
Lemma quiet_for_each {A B} (f : A → CM B) l : (∀ x, quiet (f x)) → quiet (for_each f l).
Proof.
  intros Hf. induction l as [|x l IH]; cbn; [by apply quiet_pure|].
  apply quiet_bind; [done|]. intros y. apply quiet_bind; [done|]. intros ys. by apply quiet_pure.
Qed.
Lemma quiet_if (P : Prop) `{!Decision P} {A} (m n : CM A) : quiet m → quiet n → quiet (if decide P then m else n).
Proof. by case_decide. Qed.
Lemma quiet_ensure (P : ControlDb → Prop) `{!∀ db, Decision (P db)} : quiet (ensure P).
Proof. intros db. unfold ensure. by case_decide. Qed.
Lemma quiet_modify (f : ControlDb → ControlDb) : (∀ db, same_instances db (f db)) → quiet (modify f).
Proof. intros Hf db. apply Hf. Qed.

Create HintDb quiet.
#[export] Hint Resolve quiet_ensure : quiet.

(** Takes a call apart into its statements. *)
Ltac quiets :=
  repeat first
    [ match goal with |- ∀ _, _ => intros end
    | solve [auto with quiet nocore]
    | solve [apply quiet_pure; auto with tx nocore]
    | apply quiet_modify; done
    | apply quiet_bind
    | apply quiet_transaction
    | apply quiet_internally
    | apply quiet_for_each
    | apply quiet_if
    | match goal with
      | |- quiet (match ?x with _ => _ end) => destruct x
      | |- quiet (let '_ := ?x in _) => destruct x
      end ].

Section calls.
Context `{Codec, CronParser}.

Lemma update_definition_quiet b id P `{!∀ d, Decision (P d)} f : quiet (update_definition b id P f).
Proof. unfold update_definition. quiets. Qed.
Lemma update_version_quiet id P `{!∀ v, Decision (P v)} f : quiet (update_version id P f).
Proof. unfold update_version. quiets. Qed.
Lemma update_worker_version_quiet id P `{!∀ w, Decision (P w)} f : quiet (update_worker_version id P f).
Proof. unfold update_worker_version. quiets. Qed.
#[local] Hint Resolve update_definition_quiet update_version_quiet update_worker_version_quiet : quiet.

Lemma insert_binding_quiet taken id b : quiet (insert_binding taken id b).
Proof. unfold insert_binding. quiets. Qed.
Lemma delete_binding_quiet id : quiet (delete_binding id).
Proof. unfold delete_binding. quiets. Qed.
Lemma finalize_definition_delete_quiet i id fence now_ms : quiet (finalize_definition_delete i id fence now_ms).
Proof. unfold finalize_definition_delete, update_owned, update_versions_of, reread_definition. quiets. Qed.
Lemma stage_version_inner_quiet i d v c r fresh now_ms : quiet (stage_version_inner i d v c r fresh now_ms).
Proof. unfold stage_version_inner, consume_reservation, insert_version. quiets. Qed.
#[local] Hint Resolve insert_binding_quiet delete_binding_quiet finalize_definition_delete_quiet
  stage_version_inner_quiet : quiet.

Lemma mark_unavailable_quiet i id now_ms : quiet (mark_unavailable i id now_ms).
Proof. unfold mark_unavailable, update_owned. quiets. Qed.
Lemma retire_unused_versions_quiet limit now_ms : quiet (retire_unused_versions limit now_ms).
Proof. unfold retire_unused_versions, retire_version. quiets. Qed.
#[local] Hint Resolve mark_unavailable_quiet retire_unused_versions_quiet : quiet.
(** The calls that are not about instances. *)
Definition catalog_call (c : ControlCall) : bool :=
  match c with
  | ReserveInstances _ _ _ _ | FinalizeInstances _ | AbandonCreations _ | RepairReferrers _ | RetainInstance _
  | PrepareOperation _ _ _ _ | PrepareRestart _ _ _ _ | CompleteOperation _ | CancelOperation _ => false
  | _ => true
  end.

Lemma catalog_call_quiet instance now_ms c : catalog_call c = true → quiet (control_call instance now_ms c).
Proof.
  intros Hc. destruct c; try done; cbn [control_call]; unfold void.
  all: unfold create_definition, reserve_definition, release_definition_reservation, rename, delete_definition,
    begin_definition_delete, finish_definition_delete, stage_version, stage_reserved_version, finish_version,
    publish_version, reject_version, begin_binding_operation, finish_binding_operation, insert_binding_operation, create_worker,
    insert_staging_version, insert_workflow_bindings, insert_workflow_binding, begin_validation, mark_ready, mark_rejected,
    transition, delete_worker, begin_version_delete, finalize_version_delete, delete_version_bindings,
    recover_deleting_versions, insert_definition, update_owned, reread_definition, insert_worker_version, read_worker,
    require_live_worker; quiets.
Qed.
End calls.

(** ** Reservations *)

Lemma reservation_kept db db' id v :
  extends db db' → db'.(referrers) !! id = db.(referrers) !! id → read_reservation db id = Some v →
  read_reservation db' id = Some v.
Proof.
  unfold read_reservation, reservation_row. intros [Ei Ed Ev _ _] ->. destruct (referrers db !! id) as [r|]; cbn; [|done].
  destruct (versions db !! rf_version r) as [x|] eqn:Hx; cbn; [|done]. destruct (Ev _ _ Hx) as (x' & -> & Ec & _). cbn.
  destruct (definitions db !! rf_definition r) as [d|] eqn:Hd; cbn; [|done]. destruct (Ed _ _ Hd) as (d' & -> & _). cbn.
  unfold version_columns in Ec. rewrite Ei. intros [= <-]. by injection Ec as _ _ -> _ -> _ -> -> -> -> _.
Qed.
