(* ===== verification/WorkflowWorld.v ===== *)
(** * The two databases of the workflow controller

    When the control catalog and the scheduler store agree on every instance, what happens
    beside a call of the controller, and the rule by which a saga keeps the agreement at every
    point it may stop: between any two of its transactions the executors and the catalog
    calls run freely, and a crash leaves what was committed. *)

From stdpp Require Import base numbers list option strings sorting gmap.
From S2P Require Import Prelude Text ErrorCodes Duration RetryPolicy WorkflowTypes Sql WorkflowDb WorkflowRuns WorkflowSteps WorkflowBatch WorkflowHistory WorkflowLifecycle WorkflowOperations WorkflowVerify WorkflowStmt WorkflowEvolve WorkflowMoves WorkflowReach WorkflowProps WorkflowFrame WorkflowControl WorkflowCatalog WorkflowBindings WorkflowReservations WorkflowIntents WorkflowControlInv WorkflowControlMoves WorkflowControlOps WorkflowControlInstances WorkflowControlReach WorkflowController.

Local Open Scope Z_scope.

(** ** Decisions *)

(** The scheduler has recorded the decision [d] on an operation. *)
Definition decided (s : WorkflowDb) (op : WorkflowOperation) (d : WorkflowOperationResult) : Prop :=
  read_decision op s = (s, Ok (Some d)).

Definition moved_identity (op : WorkflowOperation) : WorkflowInstanceIdentity :=
  {| op.(op_identity) with instance_generation := op.(op_target_generation) |}.

(** What a recorded decision says of the row of its instance. *)
Definition decided_row (s : WorkflowDb) (op : WorkflowOperation) (p : Progress) (d : WorkflowOperationResult) : Prop :=
  let id := op.(op_identity).(instance_id) in
  match p.(p_error_code), op.(op_kind) with
  | None, Restart => d = Applied op ∧ ∃ w, s.(workflows) !! id = Some w ∧ readable w.(row) ∧
      w.(row).(identity) = moved_identity op ∧ w.(row).(last_restart_operation_id) = Some op.(op_id) ∧
      w.(row).(last_restart_from) = p.(p_restart_from) ∧ w.(row).(last_restart_target_ordinal) = p.(p_restart_target)
  | None, Purge => d = Applied op
  | Some c, _ => d = Rejected op c ∧ rejection c = true ∧ ∃ w, s.(workflows) !! id = Some w ∧ readable w.(row) ∧
      w.(row).(identity) = op.(op_identity)
  end.

Lemma select_all id s s' q :
  select_instance id (λ _, True) s = (s', Ok q) ↔
  s' = s ∧ match s.(workflows) !! id with Some w => readable w.(row) ∧ q = Some w.(row) | None => q = None end.
Proof.
  unfold select_instance. split.
  - intros Hr. run_inv. subst.
    destruct (workflows s !! id) as [w|]; cbn in Hr; [|by run_inv].
    rewrite decide_True in Hr by done. run_inv. subst. unfold instance_row, bail_if in *. case_decide as Hd; [done|].
    cbn in *. by simplify_eq.
  - intros [-> Hq]. apply bind_run. eexists s, _. split; [by apply gets_run|].
    destruct (workflows s !! id) as [w|]; cbn; [|subst; by apply ret_run]. destruct Hq as [Hrd ->].
    rewrite decide_True by done. apply bind_run. exists s, w.(row). split; [|by apply ret_run].
    apply lift_run. split; [done|]. unfold instance_row, bail_if. by rewrite decide_False by auto.
Qed.

Lemma verify_one_run id s s' u :
  verify_one id s = (s', Ok u) ↔ s' = s ∧ is_none_or (progress_valid s id) (s.(progress) !! id).
Proof.
  unfold verify_one. rewrite bind_run. setoid_rewrite gets_run. setoid_rewrite throw_if_run. split.
  - intros (s1 & b & [-> ->] & -> & Hb). split; [done|]. destruct (bool_decide_reflect (is_none_or (progress_valid s id) (s.(progress) !! id))); done.
  - intros [-> Hv]. exists s, true. rewrite bool_decide_true by done. done.
Qed.

Lemma decided_iff s op d :
  decided s op d ↔ ∃ p, s.(progress) !! op.(op_identity).(instance_id) = Some p ∧ p.(p_sequence) = op.(op_sequence) ∧
    same_operation p op ∧ progress_valid s op.(op_identity).(instance_id) p ∧ decided_row s op p d.
Proof.
  unfold decided, read_decision, decided_row. set (id := instance_id (op_identity op)). split.
  - intros Hr. run_inv. subst. destruct (progress s !! id) as [p|] eqn:Hp; [|run_inv; done].
    exists p. case_decide; [by run_inv|]. run_inv.
    match goal with Hx : verify_one _ _ = _ |- _ => apply verify_one_run in Hx as [-> Hv] end. rewrite Hp in Hv. cbn in Hv.
    split; [done|]. split; [lia|]. split; [by apply dec_stable|]. split; [done|].
    destruct (p_error_code p) as [c|], (op_kind op); run_inv; try done.
    4: by apply ret_run in Hr as [_ [= ->]].
    all: match goal with Hx : select_instance _ _ ?t = _ |- _ =>
        apply select_all in Hx as [_ Hq]; destruct (workflows t !! id) as [w|] eqn:Hw; [|by subst] end;
      destruct Hq as [Hrd ->]; simplify_eq.
    + split; [done|]. split; [by destruct (rejection c)|]. exists w. split_and!; try done. by apply dec_stable.
    + split; [done|]. split; [by destruct (rejection c)|]. exists w. split_and!; try done. by apply dec_stable.
    + split; [done|]. exists w. 
      match goal with Hx : ¬ (_ ∨ _ ∨ _) |- _ => apply Decidable.not_or in Hx as [E1%dec_stable [E2%dec_stable E3%dec_stable]%Decidable.not_or] end.
      split_and!; try done. by apply dec_stable.
  - intros (p & Hp & Hs & Hsame & Hv & Hd).
    apply bind_run. exists s, (Some p). split; [by apply gets_run|]. rewrite decide_False by lia.
    apply bind_run. exists s, (). split; [apply throw_if_run; split; [done|lia]|].
    apply bind_run. exists s, (). split; [apply throw_if_run; split; [done|auto]|].
    apply bind_run. exists s, (). split; [apply verify_one_run; by rewrite Hp|].
    destruct (p_error_code p) as [c|], (op_kind op).
    1,2: destruct Hd as (-> & Hc & w & Hw & Hrd & Hid); apply bind_run; exists s, (); split; [apply throw_if_run; by rewrite Hc|];
      apply bind_run; exists s, (Some w.(row)); split; [apply select_all; by rewrite Hw|];
      apply bind_run; exists s, w.(row); split; [by apply some_or_run|];
      apply bind_run; exists s, (); split; [by apply throw_if_run; split; [|auto]|by apply ret_run].
    + destruct Hd as (-> & w & Hw & Hrd & Hid & H1 & H2 & H3).
      apply bind_run; exists s, (Some w.(row)); split; [apply select_all; by rewrite Hw|].
      apply bind_run; exists s, w.(row); split; [by apply some_or_run|].
      apply bind_run; exists s, (); split; [by apply throw_if_run; split; [|auto]|].
      apply bind_run; exists s, (); split; [apply throw_if_run; split; [done|]; intros [?|[?|?]]; congruence|by apply ret_run].
    + subst. by apply ret_run.
Qed.

Section world.
Context `{Codec, CronParser}.

(** ** Agreement *)

Definition behind (s : WorkflowDb) (id : N) (n : Z) : Prop := is_none_or (λ p, p.(p_sequence) ≤ n) (s.(progress) !! id).

(** The scheduler has the row of exactly this identity. *)
Definition placed (s : WorkflowDb) (i : WorkflowInstanceIdentity) (P : Workflow → Prop) : Prop :=
  ∃ w, s.(workflows) !! i.(instance_id) = Some w ∧ w.(row).(identity) = i ∧ P w.

Definition over (w : Workflow) : Prop := is_terminal w.(row).(state) = true.

(** A retained instance is over, also while an operation on it is prepared. *)
Definition prior_kept (o : IntentRow) (w : Workflow) : Prop := o.(in_prior) = Retained → over w.

Definition rejected (d : WorkflowOperationResult) : Prop := match d with Rejected _ _ => True | Applied _ => False end.

(** The purge of the instance was applied, and a replay of its creation has inserted the row
    again: the record of the purge stands beside the row of exactly the purged identity. *)
Definition revived (s : WorkflowDb) (op : WorkflowOperation) : Prop :=
  op.(op_kind) = Purge ∧ placed s op.(op_identity) (λ _, True) ∧
  ∃ p, s.(progress) !! op.(op_identity).(instance_id) = Some p ∧ p.(p_sequence) = op.(op_sequence) ∧
    same_operation p op ∧ p.(p_error_code) = None.

(** A prepared operation: not yet applied; decided and awaiting its completion; or a purge
    whose instance was revived. *)
Definition prepared_ok (s : WorkflowDb) (i : WorkflowInstanceIdentity) (o : IntentRow) : Prop :=
  (behind s i.(instance_id) (o.(in_sequence) - 1) ∧ placed s i (prior_kept o)) ∨
  (∃ d, decided s (operation_of i o) d ∧ (rejected d → placed s i (prior_kept o))) ∨
  revived s (operation_of i o).

(** A reservation without an operation. *)
Definition plain_ok (s : WorkflowDb) (i : WorkflowInstanceIdentity) (r : ReferrerRow) : Prop :=
  behind s i.(instance_id) r.(rf_sequence) ∧
  match r.(rf_state) with
  | Creating => ∀ w, s.(workflows) !! i.(instance_id) = Some w → w.(row).(identity) = i ∧ idle w
  | Live => placed s i (λ _, True)
  | Retained => placed s i over
  | _ => False
  end.

Definition linked (c : ControlDb) (s : WorkflowDb) (id : N) : Prop :=
  match c.(referrers) !! id, read_reservation c id with
  | Some r, Some v =>
      match c.(intents) !! id with
      | Some o => prepared_ok s v.(rv_identity) o
      | None => plain_ok s v.(rv_identity) r
      end
  | _, _ => s.(workflows) !! id = None
  end.

(** A batch is published, and inserted, as a whole. *)
Definition batches_ok (c : ControlDb) (s : WorkflowDb) : Prop :=
  ∀ id1 id2 r1 r2, c.(referrers) !! id1 = Some r1 → c.(referrers) !! id2 = Some r2 → r1.(rf_batch) = r2.(rf_batch) →
    r1.(rf_state) = Creating →
    r2.(rf_state) = Creating ∧ (is_Some (s.(workflows) !! id1) → is_Some (s.(workflows) !! id2)).

Record agree (w : World) : Prop := {
  ag_control : control_ok w.(control);
  ag_store : store_ok w.(store);
  ag_owner : w.(store).(owner) = w.(control).(instance_identity);
  ag_linked : ∀ id, linked w.(control) w.(store) id;
  ag_batches : batches_ok w.(control) w.(store);
}.

(** ** The world beside a controller call *)

(** The calls of executors, events and rollback requests; not creation, claims, lifecycle
    actions, restart, purge and sweeps, which only the controller makes. *)
Definition executor_call (c : Call) : bool :=
  match c with
  | CallInsert _ _ | CallClaim _ _ _ _ | CallModify _ _ _ _ | CallApply _ _ _ | CallSweep _ _ _ => false
  | _ => true
  end.

Inductive beside (w : World) : World → Prop :=
| beside_catalog instance now_ms c :
    catalog_call c = true → beside w (set_control (control_call instance now_ms c w.(control)).1 w)
| beside_executor c : executor_call c = true → call_ok c → beside w (set_store (exec c w.(store)).1 w).

Lemma executor_frame c : executor_call c = true → frame still_idle (exec c).
Proof.
  destruct c; intros Hc; try done; cbn [exec]; try (apply frame_bind; [apply _| |by intros; apply frame_pure; [apply _|]]).
  all: auto using defer_workflow_frame, yield_workflow_frame, recover_workflows_frame, maintain_workflow_due_frame,
    send_workflow_event_frame, request_workflow_rollback_frame, finish_workflow_frame, settle_workflow_step_frame,
    resolve_workflow_delay_frame, claim_workflow_batch_frame.
  unfold heartbeat_workflow. apply frame_bind; [apply _|by apply frame_pure; [apply _|]|]. intros u. apply heartbeat_frame.
Qed.

Lemma framed_weaken s s' : framed still_idle s s' → framed same_marks s s'.
Proof.
  intros (? & ? & ? & Hw). split_and!; try done. intros id. destruct (Hw id) as [w w' [E _]|]; by constructor.
Qed.

(** *** Decisions stay *)

Lemma marked s s' id w :
  framed same_marks s s' → s.(workflows) !! id = Some w →
  ∃ w', s'.(workflows) !! id = Some w' ∧ marks w' = marks w ∧ (over w → w' = w).
Proof.
  intros (_ & _ & _ & Hf) Hw. specialize (Hf id). rewrite Hw in Hf. inversion Hf as [w1 w' [Hm Ht]|]; subst. eauto.
Qed.
Lemma unmarked s s' id : framed same_marks s s' → s.(workflows) !! id = None → s'.(workflows) !! id = None.
Proof. intros (_ & _ & _ & Hf) Hw. specialize (Hf id). rewrite Hw in Hf. by inversion Hf. Qed.

Lemma progress_valid_framed s s' id p : framed same_marks s s' → progress_valid s id p → progress_valid s' id p.
Proof.
  intros Hf. pose proof Hf as (_ & _ & Eg & _). unfold progress_valid, restart_applied. destruct (p_error_code p) as [c|].
  - intros [Hc Hw]. split; [done|]. destruct (workflows s !! id) as [w|] eqn:E; [|done].
    destruct (marked _ _ _ _ Hf E) as (w' & Hw' & [= E1 ???] & _). rewrite Hw'. cbn in *. by rewrite E1.
  - destruct (p_kind p).
    + destruct (workflows s !! id) as [w|] eqn:E; [|done]. destruct (marked _ _ _ _ Hf E) as (w' & Hw' & [= E1 E2 E3 E4] & _).
      rewrite Hw'. cbn. by rewrite E1, E2, E3, E4.
    + intros [Hw Hg]. rewrite Eg. split; [by eapply unmarked|done].
Qed.

Lemma store_readable s id w : store_ok s → s.(workflows) !! id = Some w → readable w.(row).
Proof. intros [Hall _] Hw. destruct (Hall _ _ Hw) as [Hok _]. apply (h_readable _ (ok_history _ Hok)). Qed.

Lemma decided_framed s s' op d : framed same_marks s s' → store_ok s' → decided s op d → decided s' op d.
Proof.
  intros Hf Hst (p & Hp & Hs & Hsame & Hv & Hd)%decided_iff. pose proof Hf as (_ & Ep & _ & _). apply decided_iff.
  exists p. rewrite Ep. split_and!; try done; [by eapply progress_valid_framed|]. unfold decided_row in *.
  destruct (p_error_code p) as [c|], (op_kind op); try done.
  1,2: destruct Hd as (-> & Hc & w & Hw & _ & Hid); destruct (marked _ _ _ _ Hf Hw) as (w' & Hw' & [= E ???] & _);
    split_and!; try done; exists w'; split_and!; [done|by eapply store_readable|congruence].
  destruct Hd as (-> & w & Hw & _ & E1 & E2 & E3 & E4). destruct (marked _ _ _ _ Hf Hw) as (w' & Hw' & [= F1 F2 F3 F4] & _).
  split; [done|]. exists w'. split_and!; [done|by eapply store_readable|congruence..].
Qed.
Lemma placed_framed s s' i (P : Workflow → Prop) :
  framed same_marks s s' → (∀ w w', P w → same_marks w w' → P w') → placed s i P → placed s' i P.
Proof.
  intros (_ & _ & _ & Hf) HP (w & Hw & Hid & Hp). specialize (Hf i.(instance_id)). rewrite Hw in Hf.
  inversion Hf as [w1 w' Hm|]; subst. exists w'. split_and!; [done| |by eapply HP]. by destruct Hm as [[= -> ???] _].
Qed.
Lemma over_kept w w' : over w → same_marks w w' → over w'.
Proof. intros Ho [_ Ht]. by rewrite (Ht Ho). Qed.

Lemma behind_framed s s' id n : framed same_marks s s' → behind s id n → behind s' id n.
Proof. intros (_ & Ep & _) Hb. unfold behind. by rewrite Ep. Qed.

(** The record of a purge whose instance was revived is not read. *)
Lemma revived_unread s op s' q : revived s op → read_decision op s = (s', Ok q) → False.
Proof.
  intros (Hk & (w & Hw & _) & p & Hp & Hseq & (_ & _ & _ & _ & Ek & _) & He) Hr. unfold read_decision in Hr.
  apply bind_run in Hr as (s1 & x & Hx & Hr). apply gets_run in Hx as [-> ->]. rewrite Hp in Hr.
  rewrite decide_False in Hr by lia. apply bind_run in Hr as (s1 & u1 & Hx & Hr). apply throw_if_run in Hx as [-> _].
  apply bind_run in Hr as (s1 & u2 & Hx & Hr). apply throw_if_run in Hx as [-> _].
  apply bind_run in Hr as (s1 & u3 & Hx & _). apply verify_one_run in Hx as [_ Hv]. rewrite Hp in Hv. cbn in Hv.
  unfold progress_valid in Hv. rewrite He, Ek, Hk in Hv. destruct Hv as [Hv _]. congruence.
Qed.
Lemma revived_framed s s' op : framed same_marks s s' → revived s op → revived s' op.
Proof.
  intros Hf (Hk & Hp & Hprog). split; [done|]. pose proof Hf as (_ & Ep & _). split; [by eapply placed_framed|by rewrite Ep].
Qed.

Lemma prepared_framed s s' i o : framed same_marks s s' → store_ok s' → prepared_ok s i o → prepared_ok s' i o.
Proof.
  intros Hf Hst. assert (Hk : placed s i (prior_kept o) → placed s' i (prior_kept o)).
  { apply placed_framed; [done|]. intros w w' Hp Hm E. eapply over_kept; [|done]. auto. }
  intros [[Hb Hp]|[(d & Hd & Hr)|Hr]]; [left; split; [by eapply behind_framed|auto]| |].
  - right. left. exists d. split; [by eapply decided_framed|auto].
  - right. right. by eapply revived_framed.
Qed.

Lemma plain_framed s s' i r : framed still_idle s s' → plain_ok s i r → plain_ok s' i r.
Proof.
  intros Hf [Hb Hp]. pose proof (framed_weaken _ _ Hf) as Hm. split; [by eapply behind_framed|]. destruct (rf_state r); try done.
  - intros w' Hw'. destruct Hf as (_ & _ & _ & Hf). specialize (Hf i.(instance_id)). rewrite Hw' in Hf.
    inversion Hf as [w w1 [[[= E ???] _] Hi] E1 E2|]; subst. destruct (Hp w) as [Hid Hidle]; [done|]. split; [congruence|auto].
  - by eapply placed_framed.
  - eapply placed_framed; [done|apply over_kept|done].
Qed.

Lemma linked_framed c s s' id : framed still_idle s s' → store_ok s' → linked c s id → linked c s' id.
Proof.
  intros Hf Hst. unfold linked. destruct (referrers c !! id) as [r|]; [|by apply unmarked, framed_weaken].
  destruct (read_reservation c id) as [v|]; [|by apply unmarked, framed_weaken].
  destruct (intents c !! id); [apply prepared_framed; [by apply framed_weaken|done]|by apply plain_framed].
Qed.
Lemma present_framed s s' id : framed same_marks s s' → is_Some (s'.(workflows) !! id) ↔ is_Some (s.(workflows) !! id).
Proof. intros (_ & _ & _ & Hf). specialize (Hf id). by inversion Hf. Qed.

Lemma batches_framed c s s' : framed same_marks s s' → batches_ok c s → batches_ok c s'.
Proof.
  intros Hf Hb id1 id2 r1 r2 H1 H2 He Hs. destruct (Hb _ _ _ _ H1 H2 He Hs). by rewrite !(present_framed s s') by done.
Qed.

(** A statement of the store that keeps the frame keeps the agreement. *)
Lemma agree_store w s : agree w → framed still_idle w.(store) s → store_ok s → agree (set_store s w).
Proof.
  intros [Hc Hs Ho Hl Hb] Hf Hst. pose proof Hf as (Eo & _). split; cbn; try done.
  - congruence.
  - intros id. by eapply linked_framed.
  - eapply batches_framed; [by apply framed_weaken|done].
Qed.

(** *** Catalog calls *)

Lemma reservation_iff db id : control_ok db → is_Some (db.(referrers) !! id) ↔ is_Some (read_reservation db id).
Proof.
  intros Hok. split.
  - intros [r Hr]. destruct (reservation_row_ok db id r Hok Hr) as (v & Hv & _). unfold read_reservation. rewrite Hr. cbn. eauto.
  - intros [v (r & _ & _ & Hr & _)%read_reservation_Some]. eauto.
Qed.

Lemma reservation_same c c' id :
  control_ok c → extends c c' → c'.(referrers) !! id = c.(referrers) !! id → read_reservation c' id = read_reservation c id.
Proof.
  intros Hok He Hr. destruct (read_reservation c id) as [v|] eqn:Hv; [by eapply reservation_kept|].
  unfold read_reservation in *. rewrite Hr. destruct (referrers c !! id) as [r|] eqn:Hrow; [|done].
  destruct (proj1 (reservation_iff c id Hok)) as [v Hv']; [eauto|]. unfold read_reservation in Hv'. by rewrite Hrow, Hv in Hv'.
Qed.

Lemma linked_control c c' s id :
  control_ok c → extends c c' → c'.(referrers) !! id = c.(referrers) !! id → c'.(intents) !! id = c.(intents) !! id →
  linked c s id → linked c' s id.
Proof. intros Hok He Hr Hi. unfold linked. by rewrite (reservation_same c c'), Hr, Hi. Qed.

Lemma control_call_ok instance now_ms c db : control_ok db → control_ok (control_call instance now_ms c db).1.
Proof.
  intros Hok. destruct (control_call instance now_ms c db) as [db' [u|e]] eqn:E; cbn; [by eapply control_call_keeps|].
  by rewrite (control_call_atomic _ _ _ _ _ _ E).
Qed.

Lemma control_call_extends instance now_ms c db : extends db (control_call instance now_ms c db).1.
Proof. apply extends_forever, rtc_once. by exists instance, now_ms, c. Qed.

Lemma agree_control w c :
  agree w → control_ok c → extends w.(control) c → same_instances w.(control) c → agree (set_control c w).
Proof.
  intros [Hc Hs Ho Hl Hb] Hok He [Er Ei]. split; cbn; try done.
  - rewrite Ho. symmetry. apply He.
  - intros id. eapply linked_control; [exact Hc|done|congruence..|done].
  - intros id1 id2 r1 r2. rewrite Er. apply Hb.
Qed.

Lemma beside_agree w w' : agree w → beside w w' → agree w'.
Proof.
  intros Ha [instance now_ms c Hc|c Hc Hok].
  - apply agree_control; [done|by apply control_call_ok, Ha|apply control_call_extends|by apply catalog_call_quiet].
  - apply agree_store; [done|by apply executor_frame|by apply exec_store, Hok; apply Ha].
Qed.
Lemma besides_agree w w' : agree w → rtc beside w w' → agree w'.
Proof. intros Ha. induction 1; eauto using beside_agree. Qed.

(** What a controller call can rely on across the steps beside it. *)
Record kept (w w' : World) : Prop := {
  kp_extends : extends w.(control) w'.(control);
  kp_instances : same_instances w.(control) w'.(control);
  kp_store : framed still_idle w.(store) w'.(store);
  kp_memory : w'.(memory) = w.(memory);
}.
#[export] Instance kept_pre : PreOrder kept.
Proof.
  split; [by intros w; split; try done; apply framed_refl, _|].
  intros w1 w2 w3 [E1 I1 F1 M1] [E2 I2 F2 M2]. split; [by etrans|by etrans|by eapply framed_trans; [apply _|..]|congruence].
Qed.
Lemma besides_kept w w' : rtc beside w w' → kept w w'.
Proof.
  induction 1 as [|w w1 w' Hb _ IH]; [done|]. etrans; [|exact IH]. destruct Hb as [instance now_ms c Hc|c Hc Hok].
  - split; cbn; [apply control_call_extends|by apply catalog_call_quiet|by apply framed_refl, _|done].
  - split; cbn; [done|done|by apply executor_frame|done].
Qed.

(** ** Sagas beside other calls *)

(** A transaction of the saga, or a call beside it. *)
Inductive interleaved {A} : Saga A * World → Saga A * World → Prop :=
| il_saga p p' w w' : saga_next p w = Some (p', w') → interleaved (p, w) (p', w')
| il_beside p w w' : beside w w' → interleaved (p, w) (p, w').

(** Wherever the saga stops both databases agree, and its result satisfies [Q]. *)
Fixpoint safe {A} (Q : result PlatformError A → World → Prop) (p : Saga A) (w : World) : Prop :=
  agree w ∧ ∀ w', rtc beside w w' →
  match p with
  | Done r => Q r w'
  | Ctl m k => safe Q (k (m w'.(control)).2) (set_control (m w'.(control)).1 w')
  | Sch m k => safe Q (k (m w'.(store)).2) (set_store (m w'.(store)).1 w')
  | Mem f k => safe Q (k (f w'.(memory))) (set_memory (f w'.(memory)) w')
  end.

Lemma safe_agree {A} Q (p : Saga A) w : safe Q p w → agree w.
Proof. destruct p; by intros [? _]. Qed.
Lemma safe_beside {A} Q (p : Saga A) w w' : safe Q p w → beside w w' → safe Q p w'.
Proof.
  intros Hs Hb. assert (Ha : agree w') by (eapply beside_agree; [by eapply safe_agree|done]).
  destruct p; destruct Hs as [_ Hs]; (split; [done|]); intros w2 Hr; apply Hs; by eapply rtc_l.
Qed.

Lemma safe_interleaved {A} Q (p p' : Saga A) w w' :
  safe Q p w → rtc interleaved (p, w) (p', w') → safe Q p' w'.
Proof.
  intros Hs Hr. remember (p, w) as x eqn:Hx. remember (p', w') as y eqn:Hy. revert p w Hs Hx.
  induction Hr as [x|x z y Hstep Hr IH]; intros p w Hs ->; [by simplify_eq|]. destruct z as [p1 w1].
  apply (IH Hy p1 w1); [|done]. inversion Hstep as [p2 p3 w2 w3 Hst|p2 w2 w3 Hb]; subst; [|by eapply safe_beside].
  destruct p; cbn in Hst; simplify_eq; destruct Hs as [_ Hs]; by apply Hs.
Qed.
Lemma safe_result {A} Q (r : result PlatformError A) w : safe Q (Done r) w → Q r w.
Proof. intros [_ Hs]. by apply Hs. Qed.

(** *** Rules *)

Lemma set_control_id w : set_control w.(control) w = w.
Proof. by destruct w. Qed.
Lemma set_store_id w : set_store w.(store) w = w.
Proof. by destruct w. Qed.

Lemma safe_done {A} Q (r : result PlatformError A) w :
  agree w → (∀ w', kept w w' → agree w' → Q r w') → safe Q (Done r) w.
Proof. intros Ha HQ. split; [done|]. intros w' Hr. apply HQ; [by apply besides_kept|by eapply besides_agree]. Qed.

Lemma safe_bind {A B} Q (k : A → Saga B) (p : Saga A) w :
  safe (λ r w, match r with Ok a => safe Q (k a) w | Err e => safe Q (Done (Err e)) w end) p w → safe Q (p ≫= k) w.
Proof.
  revert w. induction p as [r|? m f IH|? m f IH|g f IH]; intros w [Ha Hs].
  - destruct r; apply (Hs w); done.
  - split; [done|]. intros w' Hr. by apply IH, Hs.
  - split; [done|]. intros w' Hr. by apply IH, Hs.
  - split; [done|]. intros w' Hr. by apply IH, Hs.
Qed.

Lemma safe_ctl {A B} Q (m : CM B) (k : result PlatformError B → Saga A) w :
  agree w → (∀ w' c r, kept w w' → agree w' → m w'.(control) = (c, r) → safe Q (k r) (set_control c w')) → safe Q (Ctl m k) w.
Proof.
  intros Ha Hm. split; [done|]. intros w' Hr. apply Hm; [by apply besides_kept|by eapply besides_agree|by destruct (m _)].
Qed.
Lemma safe_sch {A B} Q (m : WM B) (k : result PlatformError B → Saga A) w :
  agree w → (∀ w' s r, kept w w' → agree w' → m w'.(store) = (s, r) → safe Q (k r) (set_store s w')) → safe Q (Sch m k) w.
Proof.
  intros Ha Hm. split; [done|]. intros w' Hr. apply Hm; [by apply besides_kept|by eapply besides_agree|by destruct (m _)].
Qed.
Lemma safe_mem {A} Q f (k : Memory → Saga A) w :
  agree w → (∀ w', kept w w' → agree w' → safe Q (k (f w'.(memory))) (set_memory (f w'.(memory)) w')) → safe Q (Mem f k) w.
Proof. intros Ha Hm. split; [done|]. intros w' Hr. apply Hm; [by apply besides_kept|by eapply besides_agree]. Qed.
Lemma agree_memory w m : agree w → agree (set_memory m w).
Proof. by intros []. Qed.

(** A saga that keeps the agreement, and whose result satisfies [Q] if it has one. *)
Definition goes {A} (Q : A → World → Prop) (p : Saga A) (w : World) : Prop := safe (λ r w', ∀ a, r = Ok a → Q a w') p w.

Lemma goes_done {A} Q (r : result PlatformError A) w :
  agree w → (∀ w' a, kept w w' → agree w' → r = Ok a → Q a w') → goes Q (Done r) w.
Proof. intros Ha HQ. apply safe_done; [done|]. auto. Qed.
Lemma goes_fails {A} Q e w : agree w → goes Q (Done (A:=A) (Err e)) w.
Proof. intros Ha. by apply goes_done. Qed.
Lemma goes_lift {A B} Q (r : result PlatformError A) (k : A → Saga B) w :
  agree w → (∀ a, r = Ok a → goes Q (k a) w) → goes Q (Done r ≫= k) w.
Proof. intros Ha Hk. destruct r as [a|e]; [by apply Hk|by apply goes_fails]. Qed.
Lemma goes_fails_if {B} Q (P : Prop) `{!Decision P} e (k : unit → Saga B) w :
  agree w → (¬ P → goes Q (k ()) w) → goes Q (fails_if P e ≫= k) w.
Proof. intros Ha Hk. apply goes_lift; [done|]. unfold bail_if. case_decide; [done|]. intros [] _. auto. Qed.
Lemma goes_present {A B} Q (o : option A) e (k : A → Saga B) w :
  agree w → (∀ a, o = Some a → goes Q (k a) w) → goes Q (present o e ≫= k) w.
Proof. intros Ha Hk. apply goes_lift; [done|]. intros a. unfold ok_or_else. destruct o; [|done]. intros [= ->]. auto. Qed.
Lemma goes_bind {A B} Q (k : A → Saga B) (p : Saga A) w :
  safe (λ r w, ∀ a, r = Ok a → goes Q (k a) w) p w → goes Q (p ≫= k) w.
Proof.
  intros Hs. apply safe_bind. revert w Hs. induction p as [r|? m f IH|? m f IH|g f IH]; intros w [Ha Hs]; (split; [done|]).
  - intros w' Hr. destruct r as [a|e]; [by apply Hs|]. apply goes_fails. by eapply besides_agree.
  - intros w' Hr. by apply IH, Hs.
  - intros w' Hr. by apply IH, Hs.
  - intros w' Hr. by apply IH, Hs.
Qed.

Lemma goes_ctl {A B} Q (m : CM B) (k : B → Saga A) w :
  atomic m → agree w → (∀ w' c a, kept w w' → agree w' → m w'.(control) = (c, Ok a) → goes Q (k a) (set_control c w')) →
  goes Q (ctl m ≫= k) w.
Proof.
  intros Hat Ha Hk. apply safe_ctl; [done|]. intros w' c [a|e] Hkp Ha' Hm; [by eapply Hk|].
  rewrite (Hat _ _ _ Hm), set_control_id. by apply goes_fails.
Qed.
Lemma goes_sch {A B} Q (m : WM B) (k : B → Saga A) w :
  atomic m → agree w → (∀ w' s a, kept w w' → agree w' → m w'.(store) = (s, Ok a) → goes Q (k a) (set_store s w')) →
  goes Q (sch m ≫= k) w.
Proof.
  intros Hat Ha Hk. apply safe_sch; [done|]. intros w' s [a|e] Hkp Ha' Hm; [by eapply Hk|].
  rewrite (Hat _ _ _ Hm), set_store_id. by apply goes_fails.
Qed.
Lemma goes_try_ctl {A B} Q (m : CM B) (k : result PlatformError B → Saga A) w :
  atomic m → agree w →
  (∀ w' c a, kept w w' → agree w' → m w'.(control) = (c, Ok a) → goes Q (k (Ok a)) (set_control c w')) →
  (∀ w' e, kept w w' → agree w' → m w'.(control) = (w'.(control), Err e) → goes Q (k (Err e)) w') → goes Q (try_ctl m ≫= k) w.
Proof.
  intros Hat Ha Hk He. apply safe_ctl; [done|]. intros w' c [a|e] Hkp Ha' Hm; [by apply Hk|].
  rewrite (Hat _ _ _ Hm) in Hm |- *. rewrite set_control_id. by apply He.
Qed.
Lemma goes_try_sch {A B} Q (m : WM B) (k : result PlatformError B → Saga A) w :
  atomic m → agree w →
  (∀ w' s a, kept w w' → agree w' → m w'.(store) = (s, Ok a) → goes Q (k (Ok a)) (set_store s w')) →
  (∀ w' e, kept w w' → agree w' → m w'.(store) = (w'.(store), Err e) → goes Q (k (Err e)) w') → goes Q (try_sch m ≫= k) w.
Proof.
  intros Hat Ha Hk He. apply safe_sch; [done|]. intros w' c [a|e] Hkp Ha' Hm; [by apply Hk|].
  rewrite (Hat _ _ _ Hm) in Hm |- *. rewrite set_store_id. by apply He.
Qed.
Lemma goes_read_ctl {A B} Q (m : CM B) (k : B → Saga A) w :
  pure m → agree w → (∀ w' a, kept w w' → agree w' → m w'.(control) = (w'.(control), Ok a) → goes Q (k a) w') →
  goes Q (ctl m ≫= k) w.
Proof.
  intros Hp Ha Hk. apply goes_ctl; [intros s s' e He; by rewrite <-(Hp s), He|done|]. intros w' c a Hkp Ha' Hm.
  assert (c = w'.(control)) as -> by (by rewrite <-(Hp w'.(control)), Hm). rewrite set_control_id. by apply Hk.
Qed.
Lemma goes_read_sch {A B} Q (m : WM B) (k : B → Saga A) w :
  pure m → agree w → (∀ w' a, kept w w' → agree w' → m w'.(store) = (w'.(store), Ok a) → goes Q (k a) w') →
  goes Q (sch m ≫= k) w.
Proof.
  intros Hp Ha Hk. apply goes_sch; [intros s s' e He; by rewrite <-(Hp s), He|done|]. intros w' c a Hkp Ha' Hm.
  assert (c = w'.(store)) as -> by (by rewrite <-(Hp w'.(store)), Hm). rewrite set_store_id. by apply Hk.
Qed.
Lemma goes_recall {A} Q (k : Memory → Saga A) w :
  agree w → (∀ w' m, kept w w' → agree w' → goes Q (k m) w') → goes Q (recall ≫= k) w.
Proof.
  intros Ha Hk. apply safe_mem; [done|]. intros w' Hkp Ha'. 
  replace (set_memory (id (memory w')) w') with w' by (by destruct w'). by apply Hk.
Qed.
Lemma goes_remember {A} Q f (k : unit → Saga A) w :
  agree w → (∀ w' m, kept w w' → agree w' → agree (set_memory m w') → goes Q (k ()) (set_memory m w')) → goes Q (remember f ≫= k) w.
Proof. intros Ha Hk. apply safe_mem; [done|]. intros w' Hkp Ha'. apply Hk; [done|done|by apply agree_memory]. Qed.

(** *** Sagas that only read *)

Lemma safe_mono {A} (Q Q' : result PlatformError A → World → Prop) p w :
  (∀ r w', Q r w' → Q' r w') → safe Q p w → safe Q' p w.
Proof.
  intros HQ. revert w. induction p as [r|? m f IH|? m f IH|g f IH]; intros w [Ha Hs]; (split; [done|]); intros w' Hr; auto.
Qed.

(** The result satisfies [R], and only the calls beside have moved anything. *)
Definition reads {A} (R : A → World → Prop) (p : Saga A) (w : World) : Prop :=
  safe (λ r w', kept w w' ∧ agree w' ∧ ∀ a, r = Ok a → R a w') p w.

Lemma reads_from {A} (R : A → World → Prop) p w w' : kept w w' → reads R p w' →
  safe (λ r w', kept w w' ∧ agree w' ∧ ∀ a, r = Ok a → R a w') p w'.
Proof. intros Hk. apply safe_mono. intros r w2 (Hk2 & ? & ?). split_and!; [by etrans|done..]. Qed.

Lemma reads_done {A} (R : A → World → Prop) (r : result PlatformError A) w :
  agree w → (∀ w' a, kept w w' → agree w' → r = Ok a → R a w') → reads R (Done r) w.
Proof. intros Ha HR. apply safe_done; [done|]. intros w' Hk Ha'. split_and!; [done|done|]. auto. Qed.
Lemma reads_lift {A B} (R : B → World → Prop) (r : result PlatformError A) (k : A → Saga B) w :
  agree w → (∀ a, r = Ok a → reads R (k a) w) → reads R (Done r ≫= k) w.
Proof. intros Ha Hk. destruct r as [a|e]; [by apply Hk|by apply reads_done]. Qed.
Lemma reads_fails_if {B} (R : B → World → Prop) (P : Prop) `{!Decision P} e (k : unit → Saga B) w :
  agree w → (¬ P → reads R (k ()) w) → reads R (fails_if P e ≫= k) w.
Proof. intros Ha Hk. apply reads_lift; [done|]. unfold bail_if. case_decide; [done|]. intros [] _. auto. Qed.
Lemma reads_present {A B} (R : B → World → Prop) (o : option A) e (k : A → Saga B) w :
  agree w → (∀ a, o = Some a → reads R (k a) w) → reads R (present o e ≫= k) w.
Proof. intros Ha Hk. apply reads_lift; [done|]. intros a. unfold ok_or_else. destruct o; [|done]. intros [= ->]. auto. Qed.

Lemma reads_ctl {A B} (R : A → World → Prop) (m : CM B) (k : B → Saga A) w :
  pure m → agree w → (∀ w' a, kept w w' → agree w' → m w'.(control) = (w'.(control), Ok a) → reads R (k a) w') →
  reads R (ctl m ≫= k) w.
Proof.
  intros Hp Ha Hk. apply safe_ctl; [done|]. intros w' c r Hkp Ha' Hm.
  assert (c = w'.(control)) as -> by (by rewrite <-(Hp w'.(control)), Hm). rewrite set_control_id.
  eapply reads_from; [done|]. destruct r as [a|e]; [by apply Hk|by apply reads_done].
Qed.
Lemma reads_sch {A B} (R : A → World → Prop) (m : WM B) (k : B → Saga A) w :
  pure m → agree w → (∀ w' a, kept w w' → agree w' → m w'.(store) = (w'.(store), Ok a) → reads R (k a) w') →
  reads R (sch m ≫= k) w.
Proof.
  intros Hp Ha Hk. apply safe_sch; [done|]. intros w' s r Hkp Ha' Hm.
  assert (s = w'.(store)) as -> by (by rewrite <-(Hp w'.(store)), Hm). rewrite set_store_id.
  eapply reads_from; [done|]. destruct r as [a|e]; [by apply Hk|by apply reads_done].
Qed.
Lemma reads_bind {A B} (R : A → World → Prop) (S : B → World → Prop) (p : Saga A) (k : A → Saga B) w :
  reads R p w → (∀ w' a, kept w w' → agree w' → R a w' → reads S (k a) w') → reads S (p ≫= k) w.
Proof.
  intros Hp Hk. apply safe_bind. eapply safe_mono; [|exact Hp]. intros [a|e] w' (Hkp & Ha & HR).
  - eapply reads_from; [done|]. auto.
  - eapply reads_from; [done|]. by apply reads_done.
Qed.
Lemma goes_reads {A B} Q (R : A → World → Prop) (p : Saga A) (k : A → Saga B) w :
  reads R p w → (∀ w' a, kept w w' → agree w' → R a w' → goes Q (k a) w') → goes Q (p ≫= k) w.
Proof.
  intros Hp Hk. apply goes_bind. eapply safe_mono; [|exact Hp]. intros r w' (Hkp & Ha & HR) a ->. auto.
Qed.
Lemma reads_mono {A} (R S : A → World → Prop) p w :
  (∀ w' a, kept w w' → agree w' → R a w' → S a w') → reads R p w → reads S p w.
Proof. intros HS. apply safe_mono. intros r w' (? & ? & HR). split_and!; auto. Qed.
Lemma safe_reads {A B} Q (R : A → World → Prop) (p : Saga A) (k : A → Saga B) w :
  (∀ e w', agree w' → Q (Err e) w') → reads R p w →
  (∀ w' a, kept w w' → agree w' → R a w' → safe Q (k a) w') → safe Q (p ≫= k) w.
Proof.
  intros He Hp Hk. apply safe_bind. eapply safe_mono; [|exact Hp]. intros [a|e] w' (Hkp & Ha & HR); [auto|].
  apply safe_done; [done|]. intros. by apply He.
Qed.
End world.

#[global] Arguments safe {_ _} [A]%_type_scope Q p w : simpl never.

(** A saga that keeps the agreement, whatever its result. *)
Abbreviation fine := (goes (λ _ _, True)).
Lemma fine_done `{Codec, CronParser} {A} (r : result PlatformError A) w : agree w → fine (Done r) w.
Proof. intros Ha. by apply goes_done. Qed.
