(* ===== verification/WorkflowWorldMoves.v ===== *)
(** * The transactions of the controller keep the agreement

    One lemma per transaction that moves an instance in one of the two databases: given that
    both agree before it, and what the controller has established by then, both agree
    after it. *)

From stdpp Require Import base numbers list option strings sorting gmap.
From S2P Require Import Prelude Text ErrorCodes Duration RetryPolicy WorkflowTypes Sql WorkflowDb WorkflowRuns WorkflowSteps WorkflowBatch WorkflowHistory WorkflowLifecycle WorkflowOperations WorkflowVerify WorkflowStmt WorkflowEvolve WorkflowMoves WorkflowReach WorkflowProps WorkflowFrame WorkflowControl WorkflowCatalog WorkflowBindings WorkflowReservations WorkflowIntents WorkflowControlInv WorkflowControlMoves WorkflowControlOps WorkflowControlInstances WorkflowControlReach WorkflowControlTheorems WorkflowController WorkflowWorld.

Local Open Scope Z_scope.

Section moves.
Context `{Codec, CronParser}.

(** ** One instance of the store *)

(** The rows of one identity in the store. *)
Definition same_at (id : N) (s s' : WorkflowDb) : Prop :=
  s'.(workflows) !! id = s.(workflows) !! id ∧ s'.(progress) !! id = s.(progress) !! id ∧
  s'.(gc_receipts) !! id = s.(gc_receipts) !! id.

Lemma decided_local s s' op d : same_at op.(op_identity).(instance_id) s s' → decided s op d → decided s' op d.
Proof.
  intros (Ew & Ep & Eg). rewrite !decided_iff. intros (p & Hp & Hs & Hsame & Hv & Hd). exists p. rewrite Ep.
  split_and!; try done; unfold progress_valid, decided_row in *; by rewrite ?Ew, ?Eg.
Qed.
Lemma placed_local s s' i P : same_at i.(instance_id) s s' → placed s i P → placed s' i P.
Proof. intros (Ew & _). unfold placed. by rewrite Ew. Qed.
Lemma behind_local s s' id n : same_at id s s' → behind s id n → behind s' id n.
Proof. intros (_ & Ep & _). unfold behind. by rewrite Ep. Qed.

Lemma linked_local c s s' id : same_at id s s' → linked c s id → linked c s' id.
Proof.
  intros Hs. unfold linked. destruct (referrers c !! id) as [r|]; [|by destruct Hs as (-> & _)].
  destruct (read_reservation c id) as [v|] eqn:Hv; [|by destruct Hs as (-> & _)].
  apply read_reservation_Some in Hv as (_ & _ & _ & _ & _ & _ & _ & _ & Hid & _). rewrite <-Hid in Hs.
  destruct (intents c !! id) as [o|].
  - intros [[Hb Hp]|[(d & Hd & Hr)|(Hk & Hp & Hr)]].
    + left. split; [by eapply behind_local|by eapply placed_local].
    + right. left. exists d. split; [by eapply decided_local|]. intros Hrej. eapply placed_local; [done|auto].
    + right. right. split; [done|]. split; [by eapply placed_local|]. destruct Hs as (_ & Ep & _). cbn in *. by rewrite Ep.
  - intros [Hb Hp]. split; [by eapply behind_local|]. destruct (rf_state r); try done; [|by eapply placed_local..].
    destruct Hs as (-> & _). done.
Qed.

(** A transaction on one instance of the store, which is not being created. *)
Lemma agree_at w s id :
  agree w → store_ok s → s.(owner) = w.(store).(owner) → (∀ id', id' ≠ id → same_at id' w.(store) s) →
  is_none_or (λ r, r.(rf_state) ≠ Creating) (w.(control).(referrers) !! id) → linked w.(control) s id →
  agree (set_store s w).
Proof.
  intros [Hc Hs Ho Hl Hb] Hst Ho' Hat Hnc Hlk. split; cbn; try done; [congruence|..].
  - intros id'. destruct (decide (id' = id)) as [->|Hne]; [done|]. eapply linked_local; [by apply Hat|apply Hl].
  - intros id1 id2 r1 r2 H1 H2 He Hcr. destruct (Hb _ _ _ _ H1 H2 He Hcr) as [Hcr2 Hx]. split; [done|].
    destruct (Hat id1) as (-> & _); [intros ->; by rewrite H1 in Hnc|].
    destruct (Hat id2) as (-> & _); [intros ->; by rewrite H2 in Hnc|]. done.
Qed.

(** ** Prepared operations *)

(** The operation a saga works on is the one that is prepared. *)
Definition pending (c : ControlDb) (op : WorkflowOperation) : Prop :=
  ∃ v o, read_reservation c op.(op_identity).(instance_id) = Some v ∧
    c.(intents) !! op.(op_identity).(instance_id) = Some o ∧ op = operation_of v.(rv_identity) o.

Lemma pending_kept w w' op : agree w → kept w w' → pending w.(control) op → pending w'.(control) op.
Proof.
  intros Ha Hk (v & o & Hv & Ho & E). destruct (kp_instances _ _ Hk) as [Er Ei]. exists v, o. rewrite Ei.
  split_and!; try done. eapply reservation_kept; [apply Hk|by rewrite Er|done].
Qed.

Lemma pending_row c op : control_ok c → pending c op →
  ∃ r, c.(referrers) !! op.(op_identity).(instance_id) = Some r ∧ r.(rf_state) ≠ Creating.
Proof.
  intros Hok (v & o & Hv & Ho & _). destruct (ik_row _ _ _ (i_intent c (co_intents c Hok) _ _ Ho)) as (r & Hr & _ & _ & _ & Hs).
  exists r. split; [done|]. rewrite Hs. by destruct (in_kind o).
Qed.

Lemma linked_pending c s op v o :
  control_ok c → read_reservation c op.(op_identity).(instance_id) = Some v →
  c.(intents) !! op.(op_identity).(instance_id) = Some o →
  linked c s op.(op_identity).(instance_id) ↔ prepared_ok s v.(rv_identity) o.
Proof.
  intros Hok Hv Ho. unfold linked. destruct (proj2 (reservation_iff c op.(op_identity).(instance_id) Hok)) as [r Hr]; [eauto|].
  by rewrite Hr, Hv, Ho.
Qed.

(** *** The scheduler decides *)

Lemma decide_effect op t code now s s' d :
  decide_operation op t code now s = (s', Ok d) →
  (∃ p, s' = set_progress op.(op_identity).(instance_id) p s) ∧ (rejected d → is_Some code).
Proof.
  unfold decide_operation. intros Hr. run_inv. subst.
  match goal with Hx : upsert_progress _ _ _ = _ |- _ => unfold upsert_progress in Hx; case_decide; [|done]; simplify_eq end.
  match goal with Hx : read_decision _ ?t = (?t', _) |- _ =>
    assert (t' = t) as -> by (by apply (pure_run _ _ _ _ (read_decision_pure _)) in Hx); apply decided_iff in Hx as (p & Hp & _ & _ & _ & Hd) end.
  split; [eauto|]. cbn in Hp. rewrite lookup_insert_eq in Hp. injection Hp as <-. unfold decided_row in Hd. cbn in Hd.
  destruct code; [eauto|]. destruct (op_kind op); [destruct Hd as [-> _]|subst]; by intros [].
Qed.

Lemma same_at_progress id id' p s : id' ≠ id → same_at id' s (set_progress id p s).
Proof. intros Hne. unfold same_at. cbn. by rewrite lookup_insert_ne. Qed.
Lemma same_at_trans id s1 s2 s3 : same_at id s1 s2 → same_at id s2 s3 → same_at id s1 s3.
Proof. intros (?&?&?) (?&?&?). split_and!; congruence. Qed.

Lemma execute_touches id f s s' u :
  execute id f s = (s', Ok u) → s'.(owner) = s.(owner) ∧ ∀ id', id' ≠ id → same_at id' s s'.
Proof.
  unfold execute, execute_on. intros Hr. run_inv. subst. destruct (workflows s !! id); [|by simplify_eq].
  case_decide; [|by simplify_eq]. destruct (f w); simplify_eq. split; [done|]. intros id' Hne. unfold same_at. cbn.
  by rewrite lookup_insert_ne.
Qed.
Lemma purge_rows_at op now s s' u :
  purge_rows op now s = (s', Ok u) →
  s'.(owner) = s.(owner) ∧ ∀ id', id' ≠ op.(op_identity).(instance_id) → same_at id' s s'.
Proof.
  unfold purge_rows. destruct (workflows s !! _); [|done]. case_decide; [|done]. intros. simplify_eq. split; [done|].
  intros id' Hne. unfold same_at. cbn. by rewrite lookup_delete_ne, lookup_insert_ne.
Qed.

Lemma apply_effect op now limits s s' d :
  apply_workflow_operation op now limits s = (s', Ok d) →
  s'.(owner) = s.(owner) ∧ (∀ id', id' ≠ op.(op_identity).(instance_id) → same_at id' s s') ∧
  (rejected d → s'.(workflows) = s.(workflows)).
Proof.
  intros Hrun. unfold apply_workflow_operation in Hrun. run_inv.
  match goal with Hx : read_decision _ _ = _ |- _ => apply (pure_run _ _ _ _ (read_decision_pure _)) in Hx as -> end.
  destruct a1 as [d0|]; [run_inv; by subst|]. run_inv. subst.
  match goal with Hx : verify_workflow_history _ _ = _ |- _ => apply verify_history_run in Hx as [-> _] end.
  match goal with Hx : admit_operation _ _ _ _ ?t = (?t', _) |- _ =>
    assert (t' = t) as -> by (by apply (pure_run _ _ _ _ (admit_pure _ _ _ _)) in Hx) end.
  match goal with x : _ + ErrorCode |- _ => destruct x as [j|c] end; run_inv.
  - match goal with Hx : decide_operation _ _ _ _ ?t = _, Hy : _ ?t0 = (?t, Ok _) |- _ =>
      apply decide_effect in Hx as [[p ->] Hrej];
      assert (t.(owner) = t0.(owner) ∧ ∀ id', id' ≠ op.(op_identity).(instance_id) → same_at id' t0 t) as [Eo Hat] end.
    { destruct j as [j|]; [|by eapply purge_rows_at]. run_inv.
      match goal with Hx : verify_workflow_history _ _ = _ |- _ => apply verify_history_run in Hx as [-> _] end.
      by eapply execute_touches. }
    subst. split; [done|]. split; [|intros Hx; by destruct (Hrej Hx)].
    intros id' Hne. eapply same_at_trans; [by apply Hat|]. by apply same_at_progress.
  - match goal with Hx : decide_operation _ _ _ _ _ = _ |- _ => apply decide_effect in Hx as [[p ->] _] end.
    split; [done|]. split; [|done]. intros id' Hne. by apply same_at_progress.
Qed.

Lemma apply_stable op now limits s s' d d' :
  decided s op d → apply_workflow_operation op now limits s = (s', Ok d') → s' = s ∧ d' = d.
Proof.
  unfold decided, apply_workflow_operation. intros Hd Hr. rewrite transaction_run in Hr.
  apply bind_run in Hr as (s1 & ? & Hx & Hr). apply lift_run in Hx as [-> _].
  apply bind_run in Hr as (s1 & ? & Hx & Hr). apply lift_run in Hx as [-> _].
  apply bind_run in Hr as (s1 & q & Hx & Hr). rewrite Hd in Hx. injection Hx as <- <-.
  by apply ret_run in Hr as [-> ->].
Qed.

Lemma apply_unread op now limits s s' d :
  revived s op → apply_workflow_operation op now limits s = (s', Ok d) → False.
Proof.
  unfold apply_workflow_operation. intros Hv Hr. rewrite transaction_run in Hr.
  apply bind_run in Hr as (s1 & ? & Hx & Hr). apply lift_run in Hx as [-> _].
  apply bind_run in Hr as (s1 & ? & Hx & Hr). apply lift_run in Hx as [-> _].
  apply bind_run in Hr as (s1 & q & Hx & Hr). by eapply revived_unread.
Qed.

Lemma agree_apply w op now limits s d :
  agree w → pending w.(control) op → apply_workflow_operation op now limits w.(store) = (s, Ok d) →
  agree (set_store s w) ∧ decided s op d.
Proof.
  intros Ha Hp Hr. pose proof (apply_decided _ _ _ _ _ _ Hr) as Hd. split; [|done].
  destruct (apply_effect _ _ _ _ _ _ Hr) as (Eo & Hat & Hrej). destruct (pending_row _ _ (ag_control _ Ha) Hp) as (r & Hrow & Hnc).
  apply (agree_at w s op.(op_identity).(instance_id)); try done; [|by rewrite Hrow|].
  { pose proof (exec_store (CallApply op now limits) w.(store) (ag_store _ Ha) I) as Hs. cbn [exec] in Hs.
    unfold mbind, M_bind in Hs. by rewrite Hr in Hs. }
  destruct Hp as (v & o & Hv & Ho & E). pose proof (ag_linked _ Ha op.(op_identity).(instance_id)) as Hl.
  rewrite linked_pending in Hl |- * by (apply Ha || done). right. left. exists d. split; [by rewrite <-E|]. intros Hx.
  assert (Hk : placed w.(store) v.(rv_identity) (prior_kept o)).
  { destruct Hl as [[_ Hl]|[(d' & Hd' & Hl)|Hl]]; [done| |by rewrite <-E in Hl; destruct (apply_unread _ _ _ _ _ _ Hl Hr)].
    apply Hl. rewrite <-E in Hd'. by destruct (apply_stable _ _ _ _ _ _ _ Hd' Hr) as [_ <-]. }
  destruct Hk as (x & Hw & Hrest). exists x. by rewrite (Hrej Hx).
Qed.

(** ** One reservation of the catalog *)

(** The identity of a reservation whose row has moved. *)
Lemma reservation_moved db db' id r r' v :
  extends db db' → db.(referrers) !! id = Some r → db'.(referrers) !! id = Some r' →
  referrer_columns r' = referrer_columns r → read_reservation db id = Some v →
  read_reservation db' id = Some {| rv_identity := {| v.(rv_identity) with instance_generation := r'.(rf_generation) |};
    rv_state := r'.(rf_state); rv_updated_at_ms := r'.(rf_updated_at_ms) |}.
Proof.
  unfold read_reservation, reservation_row. intros [Ei Ed Ev _ _] Hr Hr' [= E1 E2 E3 E4 E5 E6 E7 E8 E9 E10].
  rewrite Hr, Hr'. cbn. rewrite E1, E2, E3, E4, E5, E6, E7, E8, E9, E10.
  destruct (versions db !! rf_version r) as [x|] eqn:Hx; cbn; [|done]. destruct (Ev _ _ Hx) as (x' & -> & Ec & _). cbn.
  destruct (definitions db !! rf_definition r) as [d|] eqn:Hd; cbn; [|done]. destruct (Ed _ _ Hd) as (d' & -> & _). cbn.
  unfold version_columns in Ec. rewrite Ei. intros [= <-]. by injection Ec as _ _ -> _ -> _ -> -> -> -> _.
Qed.

Lemma reservation_still db db' id r r' v :
  extends db db' → db.(referrers) !! id = Some r → db'.(referrers) !! id = Some r' →
  referrer_columns r' = referrer_columns r → r'.(rf_generation) = r.(rf_generation) → read_reservation db id = Some v →
  ∃ v', read_reservation db' id = Some v' ∧ v'.(rv_identity) = v.(rv_identity) ∧ v'.(rv_state) = r'.(rf_state).
Proof.
  intros He Hr Hr' Hc Hg Hv. eexists. split; [by eapply reservation_moved|]. cbn. split; [|done]. rewrite Hg.
  destruct (read_reservation_Some _ _ _ Hv) as (r2 & _ & _ & Hr2 & _ & _ & _ & _ & _ & _ & _ & Hgen & _). simplify_eq.
  rewrite <-Hgen. by destruct (rv_identity v).
Qed.

Lemma linked_plain c s id r v :
  c.(referrers) !! id = Some r → read_reservation c id = Some v → c.(intents) !! id = None →
  linked c s id ↔ plain_ok s v.(rv_identity) r.
Proof. intros Hr Hv Hi. unfold linked. by rewrite Hr, Hv, Hi. Qed.

(** A transaction on one reservation that is published. *)
Lemma agree_row w c id r :
  agree w → control_ok c → extends w.(control) c → only id w.(control) c →
  w.(control).(referrers) !! id = Some r → r.(rf_state) ≠ Creating →
  is_none_or (λ r', referrer_columns r' = referrer_columns r ∧ r'.(rf_state) ≠ Creating) (c.(referrers) !! id) →
  linked c w.(store) id → agree (set_control c w).
Proof.
  intros [Hc Hs Ho Hl Hb] Hok He On Hr Hnc Hr' Hlk. split; cbn; try done.
  - rewrite Ho. symmetry. apply He.
  - intros id'. destruct (decide (id' = id)) as [->|Hne]; [done|].
    eapply linked_control; [exact Hc|done|by apply On..|done].
  - intros id1 id2 r1 r2 H1 H2 Ebatch Hcr. assert (id1 ≠ id) as Hne1 by (intros ->; by rewrite H1 in Hr'; destruct Hr').
    rewrite (on_referrers _ _ _ On) in H1 by done. destruct (decide (id2 = id)) as [->|Hne2].
    + rewrite H2 in Hr'. destruct Hr' as [[= _ _ _ _ _ _ _ E _ _] _]. 
      destruct (Hb id1 id r1 r) as [? _]; [done|done|congruence|done|]. done.
    + rewrite (on_referrers _ _ _ On) in H2 by done. eauto.
Qed.

Lemma void_fst {A} (m : CM A) db : (void m db).1 = (m db).1.
Proof. unfold void, mbind, M_bind. destruct (m db) as [db' [a|e]]; done. Qed.

Lemma pending_read c op c' q :
  pending c op → read_operation op.(op_identity).(instance_id) c = (c', Ok q) → c' = c ∧ q = Some op.
Proof.
  intros (v & o & Hv & Ho & E) Hr. apply read_operation_run in Hr as [-> Hq]. split; [done|]. destruct q as [op'|]; [|congruence].
  destruct Hq as (o' & v' & r & Ho' & Hv' & _ & _ & ->). congruence.
Qed.

Lemma decided_proof s op d : decided s op d → match d with Applied p | Rejected p _ => p = op end.
Proof.
  intros (p & _ & _ & _ & _ & Hd)%decided_iff. unfold decided_row in Hd.
  destruct (p_error_code p), (op_kind op); [destruct Hd as [-> _]..|subst]; done.
Qed.
Lemma decided_behind s op d : decided s op d → behind s op.(op_identity).(instance_id) op.(op_sequence).
Proof. intros (p & Hp & E & _)%decided_iff. unfold behind. rewrite Hp. cbn. lia. Qed.

Lemma applied_restart s op p :
  decided s op (Applied p) → op.(op_kind) = Restart → placed s (moved_identity op) (λ _, True).
Proof.
  intros (q & _ & _ & _ & _ & Hd)%decided_iff Hk. unfold decided_row in Hd. rewrite Hk in Hd.
  destruct (p_error_code q); [by destruct Hd|]. destruct Hd as (_ & w & Hw & _ & Hid & _). by exists w.
Qed.
Lemma applied_purge s op p :
  decided s op (Applied p) → op.(op_kind) = Purge → s.(workflows) !! op.(op_identity).(instance_id) = None.
Proof.
  intros (q & _ & _ & Hsame & Hv & Hd)%decided_iff Hk. unfold decided_row in Hd. rewrite Hk in Hd.
  destruct (p_error_code q) eqn:E; [by destruct Hd|]. destruct Hsame as (_ & _ & _ & _ & Ek & _).
  unfold progress_valid in Hv. rewrite E, Ek, Hk in Hv. apply Hv.
Qed.

Lemma completion_run op now_ms db db' u :
  complete_instance_operation op now_ms db = (db', Ok u) →
  ∃ q, read_operation op.(op_identity).(instance_id) db = (db, Ok q).
Proof.
  unfold complete_instance_operation. intros Hr. rewrite transaction_run in Hr. apply bind_run in Hr as (s1 & q & Hq & _).
  exists q. pose proof (read_operation_run _ _ _ _ Hq) as [-> _]. done.
Qed.
Lemma cancel_run op now_ms db db' u :
  cancel_instance_operation op now_ms db = (db', Ok u) →
  ∃ q, read_operation op.(op_identity).(instance_id) db = (db, Ok q).
Proof.
  unfold cancel_instance_operation. intros Hr. rewrite transaction_run in Hr. apply bind_run in Hr as (s1 & q & Hq & _).
  exists q. pose proof (read_operation_run _ _ _ _ Hq) as [-> _]. done.
Qed.

Lemma agree_complete w op now_ms c u :
  agree w → pending w.(control) op → decided w.(store) op (Applied op) →
  complete_instance_operation op now_ms w.(control) = (c, Ok u) → agree (set_control c w).
Proof.
  intros Ha Hp Hd Hr. pose proof (ag_control _ Ha) as Hok. destruct (completion_run _ _ _ _ _ Hr) as [q Hq].
  destruct (pending_read _ _ _ _ Hp Hq) as [_ ->]. pose proof (control_call_extends 0%N now_ms (CompleteOperation op) w.(control)) as He.
  cbn [control_call] in He. rewrite Hr in He. destruct (pending_row _ _ Hok Hp) as (r & Hrow & Hnc).
  destruct Hp as (v & o & Hv & Ho & E). remember op.(op_identity).(instance_id) as id eqn:Eid. rewrite E in Hq, Hr.
  destruct (complete_operation_total _ id o v now_ms Hok Ho Hv Hq) as (c' & Hc & Hok' & On & Hi & Hrow').
  rewrite Hr in Hc. destruct u. injection Hc as <-. assert (Ek : op_kind op = in_kind o) by (by rewrite E).
  apply (agree_row w c id r); try done; destruct (in_kind o) eqn:Hk.
  - destruct Hrow' as (r1 & Hr1 & ->). assert (r1 = r) as -> by congruence. done.
  - by rewrite Hrow'.
  - destruct Hrow' as (r1 & Hr1 & Hrow'). assert (r1 = r) as -> by congruence. cbn in He.
    eapply linked_plain; [done|by eapply reservation_moved|done|]. cbn. apply applied_restart in Hd as Hpl; [|done].
    apply decided_behind in Hd. rewrite E in Hpl, Hd. split; [|done]. cbn.
    destruct (ik_row _ _ _ (i_intent _ (co_intents _ Hok) _ _ Ho)) as (r1 & Hr1' & Es & _). simplify_eq. cbn in Hd. congruence.
  - unfold linked. rewrite Hrow'. rewrite Eid. by eapply applied_purge.
Qed.

Lemma rejected_placed w op code v o :
  agree w → read_reservation w.(control) op.(op_identity).(instance_id) = Some v →
  w.(control).(intents) !! op.(op_identity).(instance_id) = Some o → op = operation_of v.(rv_identity) o →
  decided w.(store) op (Rejected op code) → placed w.(store) v.(rv_identity) (prior_kept o).
Proof.
  intros Ha Hv Ho E Hd. pose proof (ag_linked _ Ha op.(op_identity).(instance_id)) as Hl.
  rewrite linked_pending in Hl by (apply Ha || done). destruct Hl as [[_ Hl]|[(d & Hd' & Hl)|Hl]]; [done| |by rewrite <-E in Hl; destruct (revived_unread _ _ _ _ Hl Hd)].
  apply Hl. rewrite <-E in Hd'. unfold decided in Hd, Hd'. rewrite Hd in Hd'. by injection Hd' as <-.
Qed.

Lemma agree_cancel w op code now_ms c u :
  agree w → pending w.(control) op → decided w.(store) op (Rejected op code) →
  cancel_instance_operation op now_ms w.(control) = (c, Ok u) → agree (set_control c w).
Proof.
  intros Ha Hp Hd Hr. pose proof (ag_control _ Ha) as Hok. destruct (cancel_run _ _ _ _ _ Hr) as [q Hq].
  destruct (pending_read _ _ _ _ Hp Hq) as [_ ->]. pose proof (control_call_extends 0%N now_ms (CancelOperation op) w.(control)) as He.
  pose proof (cancel_instance_operation_keeps _ _ _ _ _ Hok Hr) as Hok'.
  cbn [control_call] in He. rewrite Hr in He. destruct (pending_row _ _ Hok Hp) as (r & Hrow & Hnc).
  destruct Hp as (v & o & Hv & Ho & E). remember op.(op_identity).(instance_id) as id eqn:Eid. rewrite E in Hq, Hr.
  destruct (cancel_operation_total _ id o v now_ms Hok Ho Hv Hq) as (c' & r' & Hc & On & Hi & Hrow' & Hst & Hg & Hs & Hcols).
  rewrite Hr in Hc. destruct u. injection Hc as <-. rewrite Hrow in Hcols. cbn in Hcols.
  destruct (ik_check _ _ _ (i_intent _ (co_intents _ Hok) _ _ Ho)) as (_ & _ & _ & Hprior & _).
  apply (agree_row w c id r); try done; [rewrite Hrow'; cbn; split; [done|]; destruct Hprior; congruence|].
  destruct (ik_row _ _ _ (i_intent _ (co_intents _ Hok) _ _ Ho)) as (r1 & Hr1 & _ & _ & Eg & _).
  destruct (reservation_still _ _ _ _ _ v He Hrow Hrow' Hcols) as (v' & Hv' & Eid' & _); [congruence|done|].
  eapply linked_plain; [done..|]. rewrite Eid'. pose proof (decided_behind _ _ _ Hd) as Hb.
  destruct (rejected_placed w op code v o) as (x & Hx & Hid & Hk); [done|by rewrite <-Eid..|done|done|].
  split; [rewrite E in Hb; cbn in Hb; congruence|]. rewrite Hst.
  destruct Hprior as [Hl|Hl]; rewrite Hl; exists x; split_and!; try done; by apply Hk.
Qed.

(** *** The catalog prepares *)

Lemma verify_identity_run i db db' u :
  verify_identity i db = (db', Ok u) →
  db' = db ∧ ∃ v, read_reservation db i.(instance_id) = Some v ∧ v.(rv_identity) = i ∧ frozen i.(target).
Proof.
  unfold verify_identity. intros Hr. run_inv. subst. split; [done|].
  match goal with Hx : ¬ (_ ∨ _) |- _ => apply Decidable.not_or in Hx as [E1%dec_stable E2%dec_stable] end. eauto.
Qed.

(** A row whose operation has just been prepared. *)
Record prepares (id : N) (db db' : ControlDb) (r r' : ReferrerRow) (o : IntentRow) : Prop := {
  pp_only : only id db db';
  pp_row : db.(referrers) !! id = Some r;
  pp_free : db.(intents) !! id = None;
  pp_row' : db'.(referrers) !! id = Some r';
  pp_intent : db'.(intents) !! id = Some o;
  pp_columns : referrer_columns r' = referrer_columns r;
  pp_generation : r'.(rf_generation) = r.(rf_generation);
  pp_prior : r.(rf_state) = o.(in_prior);
  pp_published : o.(in_prior) = Live ∨ o.(in_prior) = Retained;
  pp_state : r'.(rf_state) ≠ Creating;
  pp_sequence : o.(in_sequence) = r.(rf_sequence) + 1;
}.

Lemma prepares_rows id r n o now_ms db s s' db' b u :
  db.(referrers) !! id = Some r → db.(intents) !! id = None → i64_checked (r.(rf_sequence) + 1) = Some n →
  update_referrer SequenceColumn id (λ _, True) (set_sequence n) db = (s, Ok b) →
  insert_intent id o s = (s', Ok u) →
  (if decide (o.(in_kind) = Restart) then
     ∃ b', update_referrer StateColumn id (λ _, True) (set_ref_state Restarting now_ms) s' = (db', Ok b')
   else db' = s') →
  ∃ r', prepares id db db' r r' o.
Proof.
  intros Hrow Hno Hn Hu Hi Hs. destruct (prepared_rows _ _ _ _ _ _ _ _ _ Hrow Hu Hi) as (On & Hr' & Ho' & _ & Hc & E1 & E2 & E3 & E4).
  assert (n = r.(rf_sequence) + 1) by (by apply i64_checked_Some in Hn as [-> _]).
  destruct Hc as (_ & _ & _ & Hpub & _). case_decide as Hk.
  - destruct Hs as [b' Hs]. pose proof (update_referrer_only _ _ _ _ _ _ _ Hs (λ _, eq_refl)) as On2.
    destruct (update_referrer_at _ _ _ _ _ _ _ _ Hs Hr' I) as [Hr2 Ei]. rewrite <-Ei in Ho'.
    eexists. split; [by eapply only_trans|done|done|exact Hr2|done|done|done|done|done|done|congruence].
  - subst s'. eexists. split; [done|done|done|exact Hr'|done|done|done|done|done| |congruence].
    cbn. destruct Hpub; congruence.
Qed.

Lemma prepare_effect i operation kind from limits now_ms db db' op :
  prepare_operation i operation kind from limits now_ms db = (db', Ok op) →
  (∃ v, read_reservation db i.(instance_id) = Some v ∧ v.(rv_identity) = i) ∧
  ((db' = db ∧ op.(op_identity) = i ∧ pending db op) ∨
   ∃ r r' o, prepares i.(instance_id) db db' r r' o ∧ op = operation_of i o).
Proof.
  unfold prepare_operation. intros Hr. run_inv.
  match goal with H1 : verify_identity _ _ = _ |- _ => apply verify_identity_run in H1 as [-> (v & Hv & Eid & _)] end.
  match goal with H1 : read_operation _ _ = _ |- _ => apply read_operation_run in H1 as [-> Hq] end.
  split; [by exists v|].
  match type of Hr with (match ?q with _ => _ end) _ = _ => destruct q as [cur|] end.
  { run_inv. subst. left. destruct Hq as (o & v' & r & Ho & Hv' & _ & _ & ->). simplify_eq.
    split_and!; [done|done|]. cbn. destruct (read_reservation_Some _ _ _ Hv) as (_ & _ & _ & _ & _ & _ & _ & _ & Hid & _).
    by exists v, o. }
  right. run_inv; subst.
  all: match goal with Hx : update_referrer SequenceColumn _ _ _ _ = _, Hy : insert_intent _ ?o _ = _,
      Hz : i64_checked (rf_sequence ?r + 1) = Some _, Hw : _ !! _ = Some ?r |- ∃ _ _ _, prepares _ _ ?c _ _ _ ∧ _ =>
      destruct (prepares_rows _ r _ o now_ms _ _ _ c _ _ Hw Hq Hz Hx Hy) as [r' Hpp]; [|by exists r, r', o] end;
    case_decide; [first [done|by eexists]|done].
Qed.

Lemma agree_prepare w i operation kind from limits now_ms c op :
  agree w → prepare_operation i operation kind from limits now_ms w.(control) = (c, Ok op) →
  agree (set_control c w) ∧ pending c op ∧ op.(op_identity) = i.
Proof.
  intros Ha Hr. pose proof (ag_control _ Ha) as Hok. pose proof (prepare_operation_keeps _ _ _ _ _ _ _ _ _ Hok Hr) as Hok'.
  pose proof (prepare_operation_grows i operation kind from limits now_ms w.(control)) as Hg. rewrite Hr in Hg. cbn in Hg.
  destruct (prepare_effect _ _ _ _ _ _ _ _ _ Hr) as [(v & Hv & Ei) [(-> & E & Hp)|(r & r' & o & [On Hrow Hno Hrow' Ho Hc Hgen Hpr Hpub Hst Hs] & ->)]].
  { by rewrite set_control_id. }
  destruct (reservation_still _ _ _ _ _ v Hg Hrow Hrow' Hc Hgen Hv) as (v' & Hv' & Eid & _).
  split; [|split; [exists v', o; by rewrite Eid, Ei|done]].
  apply (agree_row w c i.(instance_id) r); try done; [destruct Hpub; congruence|by rewrite Hrow'|].
  unfold linked. rewrite Hrow', Hv', Ho, Eid. pose proof (ag_linked _ Ha i.(instance_id)) as Hl.
  rewrite (linked_plain _ _ _ r v) in Hl by done. destruct Hl as [Hb Hl]. left. split.
  - unfold behind in *. rewrite Hs. by replace (rf_sequence r + 1 - 1) with (rf_sequence r) by lia.
  - unfold prior_kept. destruct Hpub as [E|E]; rewrite E in *; rewrite Hpr in Hl; destruct Hl as (x & Hx & Hid & Hov); by exists x.
Qed.

(** *** A terminal instance is retained *)

Lemma retain_run i now_ms db db' u :
  control_ok db → retain_instance i now_ms db = (db', Ok u) →
  ∃ v r, read_reservation db i.(instance_id) = Some v ∧ v.(rv_identity) = i ∧ db.(referrers) !! i.(instance_id) = Some r ∧
    ((r.(rf_state) = Retained ∧ db' = db) ∨
     (r.(rf_state) = Live ∧ only i.(instance_id) db db' ∧ db'.(intents) = db.(intents) ∧
      db'.(referrers) !! i.(instance_id) = Some (set_ref_state Retained now_ms r))).
Proof.
  intros Hok Hr. unfold retain_instance in Hr. run_inv.
  match goal with H1 : verify_identity _ _ = _ |- _ => apply verify_identity_run in H1 as [-> (v & Hv & Eid & _)] end.
  match goal with H1 : ?o = referrers _ !! _, H2 : ?o = Some ?r |- _ => rename r into r0; rewrite H2 in H1; symmetry in H1; rename H1 into Hrow end.
  exists v, r0. split_and!; try done.
  destruct (rf_state r0) eqn:Hs; run_inv; subst; [right|left; done].
  match goal with H1 : update_referrer _ _ _ _ _ = _ |- _ => rename H1 into Hu end.
  destruct (update_referrer_at _ _ _ _ _ _ _ _ Hu Hrow I) as [Hr2 Ei].
  split_and!; [done|by eapply update_referrer_only|done|done].
Qed.

Lemma agree_retain w i now_ms c u :
  agree w → placed w.(store) i over → retain_instance i now_ms w.(control) = (c, Ok u) → agree (set_control c w).
Proof.
  intros Ha Hp Hr. pose proof (ag_control _ Ha) as Hok. pose proof (retain_instance_keeps _ _ _ _ _ Hok Hr) as Hok'.
  pose proof (control_call_extends 0%N now_ms (RetainInstance i) w.(control)) as He. cbn [control_call] in He. rewrite Hr in He. cbn in He.
  destruct (retain_run _ _ _ _ _ Hok Hr) as (v & r & Hv & Ei & Hrow & [[_ ->]|(Hst & On & Eint & Hrow')]); [by rewrite set_control_id|].
  destruct (reservation_still _ _ _ _ _ v He Hrow Hrow' eq_refl eq_refl Hv) as (v' & Hv' & Eid & _).
  assert (Hno : c.(intents) !! i.(instance_id) = None).
  { rewrite Eint. apply no_intent with r; [apply Hok|done|]. rewrite Hst. auto. }
  apply (agree_row w c i.(instance_id) r); try done; [by rewrite Hst|by rewrite Hrow'|].
  eapply linked_plain; [done..|]. rewrite Eid, Ei. cbn. pose proof (ag_linked _ Ha i.(instance_id)) as Hl.
  rewrite (linked_plain _ _ _ r v), Ei in Hl by (done || congruence). split; [apply Hl|done].
Qed.

(** ** Claims, lifecycle actions and sweeps *)

(** A transaction that keeps the marks of an instance which is not being created. *)
Lemma agree_touched w s id :
  agree w → framed same_marks w.(store) s → (∀ id', id' ≠ id → s.(workflows) !! id' = w.(store).(workflows) !! id') → store_ok s →
  is_none_or (λ r, r.(rf_state) ≠ Creating) (w.(control).(referrers) !! id) → agree (set_store s w).
Proof.
  intros Ha Hf Hout Hst Hnc. pose proof Hf as (Eo & Ep & Eg & _).
  apply (agree_at w s id); try done; [intros id' Hne; split_and!; [by apply Hout|by rewrite Ep|by rewrite Eg]|].
  pose proof (ag_linked _ Ha id) as Hl. unfold linked in *. destruct (referrers _ !! id) as [r|]; [|by eapply unmarked].
  destruct (read_reservation _ id) as [v|]; [|by eapply unmarked]. destruct (intents _ !! id); [by eapply prepared_framed|].
  destruct Hl as [Hb Hp]. split; [by eapply behind_framed|]. cbn in Hnc. destruct (rf_state r); try done.
  - by eapply placed_framed.
  - eapply placed_framed; [done|apply over_kept|done].
Qed.

Lemma moved_elsewhere token id s s' :
  unmoved s s' ∨ moved token id s s' → ∀ id', id' ≠ id → s'.(workflows) !! id' = s.(workflows) !! id'.
Proof. intros [->|(x & y & _ & -> & _)] id' Hne; [done|]. by rewrite lookup_insert_ne. Qed.

Lemma agree_claim w i rng now limits s run :
  agree w → clock now → limits_unsigned limits →
  is_none_or (λ r, r.(rf_state) ≠ Creating) (w.(control).(referrers) !! i.(instance_id)) →
  claim_workflow i rng now limits w.(store) = (s, Ok run) → agree (set_store s w).
Proof.
  intros Ha Hnow Hl Hnc Hr. pose proof (claim_workflow_frame i rng now limits w.(store)) as Hf. rewrite Hr in Hf.
  pose proof (exec_store (CallClaim i rng now limits) w.(store) (ag_store _ Ha) (conj Hnow Hl)) as Hs. cbn [exec] in Hs.
  unfold mbind, M_bind in Hs. rewrite Hr in Hs.
  eapply agree_touched; [done|done| |done|done]. eapply moved_elsewhere, claim_workflow_at; [apply Ha|done|done|done].
Qed.
Lemma agree_modify w i action now limits s u :
  agree w → clock now → is_none_or (λ r, r.(rf_state) ≠ Creating) (w.(control).(referrers) !! i.(instance_id)) →
  modify_workflow i action now limits w.(store) = (s, Ok u) → agree (set_store s w).
Proof.
  intros Ha Hnow Hnc Hr. pose proof (modify_workflow_frame i action now limits w.(store)) as Hf. rewrite Hr in Hf.
  pose proof (exec_store (CallModify i action now limits) w.(store) (ag_store _ Ha) Hnow) as Hs. cbn [exec] in Hs.
  rewrite Hr in Hs.
  eapply agree_touched; [done|done| |done|done]. eapply moved_elsewhere. right.
  eapply modify_workflow_moved; [apply Ha|done|done].
Qed.

(** A terminated instance is over. *)
Lemma terminated_over i now limits s s' u :
  modify_workflow i Terminate now limits s = (s', Ok u) → placed s' i over.
Proof.
  intros Hr. pose proof (modify_workflow_frame i Terminate now limits s) as Hf. rewrite Hr in Hf. cbn in Hf.
  unfold modify_workflow in Hr. run_inv. subst.
  match goal with Hx : select_instance _ _ _ = _ |- _ => apply select_present in Hx as [-> (w & Hw & -> & _)] end.
  destruct (marked _ _ _ _ Hf Hw) as (w' & Hw' & [= Hid _ _ _] & _). exists w'. split; [done|].
  split; [rewrite Hid; by apply dec_stable|].
  match goal with Hx : terminate _ _ _ = _ |- _ => unfold terminate in Hx; run_inv end.
  match goal with Hx : execute _ _ _ = _ |- _ => unfold execute, execute_on in Hx; run_inv end.
  match goal with Hx : ¬ _ ≠ i |- _ => apply dec_stable in Hx; rewrite Hx in * end. change (workflows (wf_notify s1)) with (workflows s1) in Hw'.
  destruct (workflows s0 !! instance_id i) as [x|] eqn:Hx; [|simplify_eq; congruence]. rewrite decide_True in Hm0 by done.
  unfold update_instance in Hm0. case_decide; [|done]. injection Hm0 as <- _. cbn in Hw'. rewrite lookup_insert_eq in Hw'.
  by injection Hw' as <-.
Qed.

Lemma read_receipt_pure id : pure (read_receipt id).
Proof. unfold read_receipt. apply pure_bind; [apply pure_gets|]. intros [g|]; auto with tx. Qed.

Lemma agree_sweep w id g n s u :
  agree w → w.(control).(referrers) !! id = None → sweep_workflow_gc id g n w.(store) = (s, Ok u) → agree (set_store s w).
Proof.
  intros Ha Hno Hr.
  pose proof (exec_store (CallSweep id g n) w.(store) (ag_store _ Ha) I) as Hs. cbn [exec] in Hs. rewrite Hr in Hs. cbn in Hs.
  assert (Hx : s.(owner) = w.(store).(owner) ∧ s.(workflows) = w.(store).(workflows) ∧ ∀ id', id' ≠ id → same_at id' w.(store) s).
  { unfold sweep_workflow_gc in Hr. run_inv. 
    match goal with Hx : read_receipt _ ?t = (?t', _) |- _ => assert (t' = t) as -> by (by apply (pure_run _ _ _ _ (read_receipt_pure _)) in Hx) end.
    match goal with o : option (GcReceipt * Z) |- _ => destruct o as [cur|] end; run_inv; subst; [|done].
    split_and!; try done. intros id' Hne. unfold same_at. cbn. by rewrite !lookup_delete_ne. }
  destruct Hx as (Eo & Ew & Hat). apply (agree_at w s id); try done; [by rewrite Hno|].
  pose proof (ag_linked _ Ha id) as Hl. unfold linked in *. rewrite Hno in *. by rewrite Ew.
Qed.
End moves.
