(* ===== verification/WorkflowWorldBatch.v ===== *)
(** * Creation batches across the two databases

    The transactions of a creation: reservation, insertion, publication and abandonment of a
    whole batch, each of which keeps the catalog and the scheduler store in agreement. *)

From stdpp Require Import base numbers list option strings sorting gmap.
From S2P Require Import Prelude Text ErrorCodes Duration RetryPolicy WorkflowTypes Sql WorkflowDb WorkflowRuns WorkflowSteps WorkflowBatch WorkflowHistory WorkflowLifecycle WorkflowOperations WorkflowVerify WorkflowStmt WorkflowEvolve WorkflowMoves WorkflowReach WorkflowProps WorkflowFrame WorkflowControl WorkflowCatalog WorkflowBindings WorkflowReservations WorkflowIntents WorkflowControlInv WorkflowControlMoves WorkflowControlOps WorkflowControlInstances WorkflowControlReach WorkflowControlTheorems WorkflowController WorkflowWorld WorkflowWorldMoves.

Local Open Scope Z_scope.

Section batch.
Context `{Codec, CronParser}.

(** ** The members of a batch *)

Definition reserved (c : ControlDb) (i : WorkflowInstanceIdentity) : Prop :=
  ∃ v, read_reservation c i.(instance_id) = Some v ∧ v.(rv_identity) = i.

Lemma reserved_row c i : reserved c i →
  ∃ r, c.(referrers) !! i.(instance_id) = Some r ∧ r.(rf_batch) = i.(creation_batch_id).
Proof.
  intros (v & Hv & <-). unfold read_reservation, reservation_row in Hv. destruct (referrers c !! _) as [r|] eqn:Hr; cbn in Hv; [|done].
  apply bind_Some in Hv as (x & Hx & Hv). apply bind_Some in Hv as (d & Hd & [= E]).
  exists r. by rewrite <-E.
Qed.

(** So many distinct members of a batch are all of it. *)
Lemma covering c b ids id r :
  batch_count c b = length ids → NoDup (instance_id <$> ids) →
  (∀ i, i ∈ ids → reserved c i ∧ i.(creation_batch_id) = b) →
  c.(referrers) !! id = Some r → r.(rf_batch) = b → id ∈ instance_id <$> ids.
Proof.
  unfold batch_count. set (l := filter _ _). intros Hn Hnd Hall Hr Hb.
  assert (Hsub : instance_id <$> ids ⊆+ l.*1).
  { apply NoDup_submseteq; [done|]. intros x (i & -> & Hi)%list_elem_of_fmap. destruct (Hall i Hi) as [Hres <-].
    destruct (reserved_row _ _ Hres) as (r1 & Hr1 & E1). apply list_elem_of_fmap. exists (instance_id i, r1). split; [done|].
    apply list_elem_of_filter. split; [done|]. by apply elem_of_map_to_list. }
  apply submseteq_length_Permutation in Hsub; [|by rewrite !length_fmap, Hn].
  rewrite Hsub. apply list_elem_of_fmap. exists (id, r). split; [done|]. apply list_elem_of_filter. split; [done|].
  by apply elem_of_map_to_list.
Qed.

Lemma batch_empty c id r : batch_count c r.(rf_batch) = 0%nat → c.(referrers) !! id = Some r → False.
Proof.
  unfold batch_count. intros Hn%nil_length_inv Hr. eapply (filter_nil_not_elem_of _ _ (id, r)); [exact Hn|done|].
  by apply elem_of_map_to_list.
Qed.

Lemma read_batch_members ids db db' x : read_batch ids db = (db', Ok x) →
  ∃ b, batch_count db b = length ids ∧ ∀ i, i ∈ ids → reserved db i ∧ i.(creation_batch_id) = b.
Proof.
  unfold read_batch. intros Hr. run_inv. subst.
  match goal with Hx : head ids = Some ?f |- _ => exists f.(creation_batch_id) end.
  split; [lia|]. intros i Hi. split.
  - clear -Hr Hi. revert x Hr. induction ids as [|j ids IH]; intros x Hr; [by apply not_elem_of_nil in Hi|].
    apply for_each_cons_run in Hr as (s1 & y & ys & Hj & Hl & ->). run_inv.
    match goal with H1 : verify_identity _ _ = _ |- _ => apply verify_identity_run in H1 as [-> (v & Hv & Eid & _)] end.
    apply elem_of_cons in Hi as [->|Hi]; [by exists v|by eapply IH].
  - match goal with Hx : ¬ Exists _ _ |- _ => rewrite Exists_exists in Hx; apply dec_stable; intros Hne; apply Hx; by exists i end.
Qed.

Lemma Forall2_states db ids x (P : WorkflowRefState → Prop) i :
  Forall2 (λ i s, is_some_and (λ r, r.(rf_state) = s) (db.(referrers) !! i.(instance_id))) ids x → Forall P x → i ∈ ids →
  ∃ r, db.(referrers) !! i.(instance_id) = Some r ∧ P r.(rf_state).
Proof.
  intros H2 HP Hi. apply list_elem_of_lookup in Hi as [n Hn]. destruct (Forall2_lookup_l _ _ _ _ _ H2 Hn) as (st & Hst & Hx).
  destruct (referrers db !! _) as [r|]; [|done]. cbn in Hx. exists r. split; [done|]. rewrite Hx. by eapply Forall_lookup_1.
Qed.

(** ** Publication *)

Lemma finalize_loop ids now_ms db db' us :
  for_each (λ i, changed ← update_referrer StateColumn i.(instance_id)
      (λ r, r.(rf_nonce) = i.(creation_nonce) ∧ r.(rf_state) = Creating) (set_ref_state Live now_ms);
    throw_if (changed = false) violation) ids db = (db', Ok us) →
  NoDup (instance_id <$> ids) ∧ db'.(intents) = db.(intents) ∧
  (∀ i, i ∈ ids → ∃ r, db.(referrers) !! i.(instance_id) = Some r ∧ r.(rf_state) = Creating) ∧
  ∀ id, db'.(referrers) !! id = (if decide (id ∈ instance_id <$> ids) then set_ref_state Live now_ms <$> db.(referrers) !! id
                                 else db.(referrers) !! id).
Proof.
  revert db us. induction ids as [|i ids IH]; intros db us Hr.
  { apply ret_run in Hr as [-> _]. split_and!; [constructor|done|by intros i ?%not_elem_of_nil|].
    intros id. rewrite decide_False; [done|]. apply not_elem_of_nil. }
  apply for_each_cons_run in Hr as (s1 & y & ys & Hi & Hl & ->). run_inv.
  match goal with Hx : update_referrer _ _ _ _ _ = _ |- _ =>
    apply update_referrer_run in Hx as [(-> & _)|(-> & r & Hrow & [_ Hst] & _ & _ & _ & ->)]; [done|] end.
  destruct (after_referrer_frame db i.(instance_id) (set_ref_state Live now_ms r)) as (_ & Er & Ei).
  apply IH in Hl as (Hnd & Hint & Hcr & Hat). rewrite Er in Hcr, Hat. rewrite Ei in Hint.
  assert (Hni : instance_id i ∉ instance_id <$> ids).
  { intros (j & Ej & Hj)%list_elem_of_fmap. destruct (Hcr j Hj) as (r' & Hr' & Hs'). rewrite <-Ej, lookup_insert_eq in Hr'. by injection Hr' as <-. }
  split_and!; [by constructor|done|..].
  - intros j [->|Hj]%elem_of_cons; [by exists r|]. destruct (Hcr j Hj) as (r' & Hr' & Hs').
    rewrite lookup_insert_ne in Hr'; [by exists r'|]. intros E. apply Hni. rewrite E. by apply list_elem_of_fmap_2.
  - intros id. rewrite Hat. cbn. destruct (decide (id = instance_id i)) as [->|Hne].
    + rewrite decide_False by done. rewrite decide_True by (by left). rewrite lookup_insert_eq, Hrow. done.
    + rewrite lookup_insert_ne by done. apply decide_ext. rewrite elem_of_cons. naive_solver.
Qed.

Lemma finalize_effect ids now_ms db db' u :
  finalize_instances ids now_ms db = (db', Ok u) →
  (∃ b, batch_count db b = length ids ∧ ∀ i, i ∈ ids → reserved db i ∧ i.(creation_batch_id) = b) ∧
  ((db' = db ∧ ∀ i, i ∈ ids → ∃ r, db.(referrers) !! i.(instance_id) = Some r ∧ r.(rf_state) = Live) ∨
   (NoDup (instance_id <$> ids) ∧ db'.(intents) = db.(intents) ∧
    (∀ i, i ∈ ids → ∃ r, db.(referrers) !! i.(instance_id) = Some r ∧ r.(rf_state) = Creating) ∧
    ∀ id, db'.(referrers) !! id = (if decide (id ∈ instance_id <$> ids) then set_ref_state Live now_ms <$> db.(referrers) !! id
                                   else db.(referrers) !! id))).
Proof.
  unfold finalize_instances. intros Hr. run_inv;
    match goal with Hx : read_batch _ _ = _ |- _ =>
      pose proof (read_batch_members _ _ _ _ Hx) as Hm; apply read_batch_run in Hx as [-> H2] end; subst; (split; [done|]).
  - left. split; [done|]. intros i Hi. by eapply (Forall2_states _ _ _ (λ s, s = Live)).
  - right. by eapply finalize_loop.
Qed.

(** A published member is in the scheduler under its own identity. *)
Lemma linked_published w c id r now_ms :
  agree w → extends w.(control) c → w.(control).(referrers) !! id = Some r → r.(rf_state) = Creating →
  c.(referrers) !! id = Some (set_ref_state Live now_ms r) → c.(intents) = w.(control).(intents) →
  is_Some (w.(store).(workflows) !! id) → linked c w.(store) id.
Proof.
  intros Ha He Hr Hs Hr' Ei [x Hx]. pose proof (ag_control _ Ha) as Hok.
  destruct (proj1 (reservation_iff _ id Hok)) as [v Hv]; [eauto|].
  destruct (reservation_still _ _ _ _ _ v He Hr Hr' eq_refl eq_refl Hv) as (v' & Hv' & Eid & _).
  assert (Hno : w.(control).(intents) !! id = None) by (apply (no_intent _ id r); [apply Hok|done|auto]).
  pose proof (ag_linked _ Ha id) as Hl. rewrite (linked_plain _ _ _ r v) in Hl by done. destruct Hl as [Hb Hl]. rewrite Hs in Hl.
  destruct (read_reservation_Some _ _ _ Hv) as (_ & _ & _ & _ & _ & _ & _ & _ & Hid & _).
  eapply linked_plain; [done|done|by rewrite Ei|]. rewrite Eid. split; [done|]. cbn. exists x. rewrite Hid in *.
  destruct (Hl x Hx). done.
Qed.

Lemma agree_finalize w ids now_ms c u :
  agree w → (∀ i, i ∈ ids → is_Some (w.(store).(workflows) !! i.(instance_id))) →
  finalize_instances ids now_ms w.(control) = (c, Ok u) → agree (set_control c w).
Proof.
  intros Ha Hin Hr. pose proof (ag_control _ Ha) as Hok. pose proof (finalize_instances_keeps _ _ _ _ _ Hok Hr) as Hok'.
  pose proof (control_call_extends 0%N now_ms (FinalizeInstances ids) w.(control)) as He. cbn [control_call] in He. rewrite Hr in He. cbn in He.
  destruct (finalize_effect _ _ _ _ _ Hr) as [(b & Hn & Hm) [[-> _]|(Hnd & Ei & Hcr & Hat)]]; [by rewrite set_control_id|].
  destruct Ha as [Hc Hs Ho Hl Hb] eqn:Ea; clear Ea. split; cbn; try done; [rewrite Ho; symmetry; apply He|..].
  - intros id. specialize (Hat id). case_decide as Hid.
    + apply list_elem_of_fmap in Hid as (i & -> & Hi). destruct (Hcr i Hi) as (r & Hrow & Hst). rewrite Hrow in Hat.
      by eapply linked_published; [..|apply Hin].
    + eapply linked_control; [exact Hc|done|done|by rewrite Ei|done].
  - intros id1 id2 r1 r2 H1 H2 Eb Hst. rewrite Hat in H1, H2.
    destruct (decide (id1 ∈ _)) as [Hi1|Hi1] in H1; [apply fmap_Some in H1 as (r & _ & ->); done|].
    destruct (decide (id2 ∈ _)) as [Hi2|Hi2] in H2; [|by eapply Hb].
    destruct Hi1. apply fmap_Some in H2 as (r & Hr2 & ->). cbn in Eb.
    apply list_elem_of_fmap in Hi2 as (i & -> & Hi). destruct (Hm i Hi) as [Hres Hbi].
    destruct (reserved_row _ _ Hres) as (r' & Hr' & Hb'). assert (r' = r) as -> by congruence.
    eapply (covering _ b ids); [done|done|done|exact H1|congruence].
Qed.

(** ** Abandonment *)

Lemma abandon_loop ids db db' us :
  for_each (λ i, delete_referrer i.(instance_id)
    (λ r, r.(rf_nonce) = i.(creation_nonce) ∧ r.(rf_creation_operation) = i.(creation_operation_id) ∧ r.(rf_state) = Creating)) ids db
    = (db', Ok us) →
  (∀ id, id ∉ instance_id <$> ids → db'.(referrers) !! id = db.(referrers) !! id ∧ db'.(intents) !! id = db.(intents) !! id) ∧
  ∀ id, db'.(referrers) !! id = None ∨ (db'.(referrers) !! id = db.(referrers) !! id ∧ db'.(intents) !! id = db.(intents) !! id).
Proof.
  revert db us. induction ids as [|i ids IH]; intros db us Hr; [apply ret_run in Hr as [-> _]; auto|].
  apply for_each_cons_run in Hr as (s1 & y & ys & Hi & Hl & ->). apply IH in Hl as [Hout Hall].
  apply delete_referrer_run in Hi as [(_ & -> & _)|(_ & r & Hrow & _ & _ & _ & ->)].
  { split; [|done]. intros id Hid. apply Hout. rewrite fmap_cons, not_elem_of_cons in Hid. tauto. }
  cbn in Hout, Hall. split; intros id.
  - rewrite fmap_cons, not_elem_of_cons. intros [Hne Hid]. specialize (Hout id Hid). by rewrite !lookup_delete_ne in Hout.
  - destruct (decide (id = instance_id i)) as [->|Hne].
    + left. destruct (Hall (instance_id i)) as [?|[E _]]; [done|]. by rewrite E, lookup_delete_eq.
    + specialize (Hall id). by rewrite !lookup_delete_ne in Hall.
Qed.

Lemma abandon_effect ids db db' n :
  abandon_creations ids db = (db', Ok n) →
  (∀ i, i ∈ ids → reserved db i) ∧
  (∀ id, id ∉ instance_id <$> ids → db'.(referrers) !! id = db.(referrers) !! id ∧ db'.(intents) !! id = db.(intents) !! id) ∧
  ∀ id, db'.(referrers) !! id = None ∨ (db'.(referrers) !! id = db.(referrers) !! id ∧ db'.(intents) !! id = db.(intents) !! id).
Proof.
  unfold abandon_creations. intros Hr. run_inv;
    match goal with Hx : read_batch _ _ = _ |- _ =>
      pose proof (read_batch_members _ _ _ _ Hx) as (b & _ & Hm); apply read_batch_run in Hx as [-> H2] end; subst;
    (split; [intros i Hi; by apply Hm|]); [auto|by eapply abandon_loop].
Qed.

Lemma agree_abandon w ids c n :
  agree w → (∀ i, i ∈ ids → w.(store).(workflows) !! i.(instance_id) = None) →
  abandon_creations ids w.(control) = (c, Ok n) → agree (set_control c w).
Proof.
  intros Ha Hin Hr. pose proof (ag_control _ Ha) as Hok. pose proof (abandon_creations_keeps _ _ _ _ Hok Hr) as Hok'.
  pose proof (control_call_extends 0%N 0 (AbandonCreations ids) w.(control)) as He. cbn [control_call] in He.
  rewrite void_fst, Hr in He. cbn in He. destruct (abandon_effect _ _ _ _ Hr) as (_ & Hout & Hall).
  destruct Ha as [Hc Hs Ho Hl Hb]. split; cbn; try done; [rewrite Ho; symmetry; apply He|..].
  - intros id. destruct (Hall id) as [Hno|[Er Ei]]; [|eapply linked_control; [exact Hc|exact He|done|done|apply Hl]].
    unfold linked. rewrite Hno. destruct (decide (id ∈ instance_id <$> ids)) as [(i & -> & Hi)%list_elem_of_fmap|Hn]; [by apply Hin|].
    specialize (Hl id). unfold linked in Hl. destruct (Hout id Hn) as [E _]. rewrite <-E, Hno in Hl. done.
  - intros id1 id2 r1 r2 H1 H2. destruct (Hall id1) as [?|[E1 _]]; [congruence|]. destruct (Hall id2) as [?|[E2 _]]; [congruence|].
    apply Hb; congruence.
Qed.

(** ** Reservation *)

(** The target a batch is created under, as the catalog has it. *)
Definition targeted (db : ControlDb) (t : WorkflowTarget) : Prop :=
  is_Some (db.(definitions) !! t.(definition_id)) ∧
  ∃ v, db.(versions) !! t.(workflow_version_id) = Some v ∧
    t = version_target db t.(workflow_version_id) v t.(definition_name).

Lemma current_targeted db instance definition t : current_target db instance definition = Some t → targeted db t.
Proof.
  unfold current_target. case_decide; [|done]. intros (d & Hd & (c & Hc & (v & Hv & Ht)%bind_Some)%bind_Some)%bind_Some.
  case_decide as Hx; [|done]. injection Ht as <-. destruct Hx as (_ & _ & E & _). unfold targeted. cbn. rewrite E. eauto.
Qed.

(** A row of a batch that is being created. *)
Definition fresh_row (batch : N) (r : ReferrerRow) : Prop :=
  r.(rf_state) = Creating ∧ r.(rf_sequence) = 0 ∧ r.(rf_batch) = batch.

Lemma reserve_one_effect t batch now_ms p db db' v :
  targeted db t → reserve_one t batch now_ms p db = (db', Ok v) →
  targeted db' t ∧ db'.(intents) = db.(intents) ∧ batch_count db' batch = S (batch_count db batch) ∧
  reserved db' v.(rv_identity) ∧ v.(rv_identity).(creation_batch_id) = batch ∧
  db.(referrers) !! p.1.(rq_instance) = None ∧ v.(rv_identity).(instance_id) = p.1.(rq_instance) ∧
  ∃ r, db'.(referrers) = <[p.1.(rq_instance) := r]> db.(referrers) ∧ fresh_row batch r.
Proof.
  unfold reserve_one. intros [Hd (x & Hx & Ht)] Hr. run_inv. subst.
  match goal with Hy : insert_referrer _ ?r _ = _ |- _ => apply insert_referrer_run in Hy as (_ & _ & _ & _ & Hnone & _ & ->); rename r into r0 || set (r0 := r) end.
  split_and!; [by split; [|exists x]|done| | |done|done|done|by exists r0].
  - unfold batch_count. cbn. rewrite map_to_list_insert by done. rewrite filter_cons_True by done. done.
  - unfold reserved, read_reservation, reservation_row. cbn. rewrite lookup_insert_eq. cbn. rewrite Hx. cbn.
    destruct Hd as [d ->]. cbn. eexists. split; [done|]. cbn. f_equal. by rewrite Ht.
Qed.

(** The rows a batch adds. *)
Definition adds (batch : N) (ids : list N) (db db' : ControlDb) : Prop :=
  ∀ id, db'.(referrers) !! id = db.(referrers) !! id ∨
    (db.(referrers) !! id = None ∧ id ∈ ids ∧ ∃ r, db'.(referrers) !! id = Some r ∧ fresh_row batch r).

Lemma reserve_one_grows t batch now_ms p : grows (reserve_one t batch now_ms p).
Proof. unfold reserve_one. grow. Qed.

Lemma reserved_kept db db' i :
  extends db db' → db'.(referrers) !! i.(instance_id) = db.(referrers) !! i.(instance_id) → reserved db i → reserved db' i.
Proof. intros He Er (v & Hv & Ei). exists v. split; [|done]. by eapply reservation_kept. Qed.

Lemma reserve_loop t batch now_ms l db db' rows :
  targeted db t → for_each (reserve_one t batch now_ms) l db = (db', Ok rows) →
  db'.(intents) = db.(intents) ∧ batch_count db' batch = (batch_count db batch + length rows)%nat ∧
  (∀ v, v ∈ rows → reserved db' v.(rv_identity) ∧ v.(rv_identity).(creation_batch_id) = batch ∧
     db.(referrers) !! v.(rv_identity).(instance_id) = None) ∧
  adds batch ((λ p, p.1.(rq_instance)) <$> l) db db'.
Proof.
  revert db rows. induction l as [|p l IH]; intros db rows Ht Hr.
  { apply ret_run in Hr as [-> ->]. split_and!; [done|cbn; lia|by intros v ?%not_elem_of_nil|by left]. }
  apply for_each_cons_run in Hr as (s1 & v & vs & Hp & Hl & ->).
  pose proof (grows_for_each _ l (reserve_one_grows t batch now_ms) s1) as He. rewrite Hl in He. cbn in He.
  apply reserve_one_effect in Hp as (Ht1 & Ei & Hn & Hres & Hb & Hnone & Eid & r & Er & Hf); [|done].
  apply IH in Hl as (Ei' & Hn' & Hres' & Hadd); [|done].
  assert (Hkeep : ∀ id, is_Some (s1.(referrers) !! id) → db'.(referrers) !! id = s1.(referrers) !! id).
  { intros id [x Hx]. destruct (Hadd id) as [?|[? _]]; [done|congruence]. }
  split_and!; [congruence|cbn; lia|..].
  - intros v' [->|Hv]%elem_of_cons.
    + split; [|by rewrite Eid]. eapply reserved_kept; [exact He| |done]. apply Hkeep.
      destruct (reserved_row _ _ Hres) as (x & Hx & _). eauto.
    + destruct (Hres' _ Hv) as (? & ? & Hno). split_and!; try done. rewrite Er in Hno. by apply lookup_insert_None in Hno as [? _].
  - intros id. rewrite fmap_cons, elem_of_cons. destruct (decide (id = rq_instance p.1)) as [->|Hne].
    + right. split; [done|]. split; [by left|]. exists r. split; [|done]. rewrite Hkeep, Er, lookup_insert_eq; eauto.
      by rewrite Er, lookup_insert_eq.
    + specialize (Hadd id). rewrite Er, lookup_insert_ne in Hadd by done. destruct Hadd as [?|(? & ? & ?)]; [by left|]. right. auto.
Qed.

Lemma where_reserved db P `{!∀ x, Decision (P x)} v :
  v ∈ reservations_where db P → read_reservation db v.(rv_identity).(instance_id) = Some v.
Proof.
  unfold reservations_where. intros ([id r] & Hin & Hv)%list_elem_of_omap.
  apply elem_of_order_by, list_elem_of_filter in Hin as [_ Hin%elem_of_map_to_list]. cbn in Hv.
  assert (read_reservation db id = Some v) as Hx by (unfold read_reservation; by rewrite Hin).
  by destruct (read_reservation_Some _ _ _ Hx) as (_ & _ & _ & _ & _ & _ & _ & _ & -> & _).
Qed.

(** A replayed batch returns the reservations it has. *)
Lemma replay_rows instance definition batch l db db' rows :
  (∀ o q, (o, q) ∈ l → o = by_creation db q.(rq_operation)) →
  for_each (λ p, r ← some_or p.1 violation; _ ← throw_if (¬ replays_request instance definition batch r p.2) violation; mret r) l db
    = (db', Ok rows) →
  db' = db ∧ ∀ v, v ∈ rows → reserved db v.(rv_identity) ∧ v.(rv_identity).(creation_batch_id) = batch ∧
    v.(rv_identity).(creation_operation_id) ∈ (λ p, p.2.(rq_operation)) <$> l.
Proof.
  revert rows. induction l as [|[o q] l IH]; intros rows Hby Hr.
  { apply ret_run in Hr as [-> ->]. split; [done|by intros v ?%not_elem_of_nil]. }
  apply for_each_cons_run in Hr as (s1 & v & vs & Hp & Hl & ->). run_inv. subst. cbn in *.
  apply IH in Hl as [-> Hrest]; [|intros o' q' Hin; apply Hby; by right]. split; [done|].
  intros v' [->|Hv]%elem_of_cons; [|destruct (Hrest _ Hv) as (? & ? & ?); split_and!; try done; by right].
  match goal with Hx : ¬ ¬ replays_request _ _ _ _ _ |- _ => apply dec_stable in Hx as (_ & _ & Eo & Eb & _) end.
  split_and!; [|done|rewrite Eo; by left]. eexists. split; [|done]. 
  match goal with Hx : o = Some _ |- _ => rewrite (Hby o q) in Hx by (by left); unfold by_creation in Hx; apply head_Some_elem_of in Hx end.
  by eapply where_reserved.
Qed.

Lemma admitted_requests db definition qs ops exts l : admit_requests db definition ops exts qs = Ok l → l.*1 = qs.
Proof.
  revert ops exts l. induction qs as [|q qs IH]; intros ops exts l Hr; cbn in Hr; [by simplify_eq|].
  repeat match type of Hr with
  | mbind _ ?m = _ => let E := fresh "E" in destruct m as [?|?] eqn:E; [cbn in Hr|done]
  end. simplify_eq. cbn. f_equal. by eapply IH.
Qed.

(** The reservations a batch has to insert. *)
Record insertable (c : ControlDb) (batch : N) (ids : list WorkflowInstanceIdentity) : Prop := {
  is_count : batch_count c batch = length ids;
  is_members : ∀ i, i ∈ ids → reserved c i ∧ i.(creation_batch_id) = batch;
}.

Lemma reserved_operation c i : reserved c i →
  ∃ r, c.(referrers) !! i.(instance_id) = Some r ∧ r.(rf_creation_operation) = i.(creation_operation_id).
Proof.
  intros (v & Hv & <-). unfold read_reservation, reservation_row in Hv. destruct (referrers c !! _) as [r|] eqn:Hr; cbn in Hv; [|done].
  apply bind_Some in Hv as (x & Hx & Hv). apply bind_Some in Hv as (d & Hd & [= E]).
  exists r. by rewrite <-E.
Qed.

Lemma reserve_effect instance definition batch qs limits now_ms db db' rows :
  control_ok db →
  reserve_instances_with_schedules instance definition batch qs limits now_ms db = (db', Ok rows) →
  length rows = length qs ∧ insertable db' batch (rv_identity <$> rows) ∧
  (db' = db ∨ (batch_count db batch = 0%nat ∧ db'.(intents) = db.(intents) ∧ adds batch (rq_instance <$> qs) db db')).
Proof.
  intros Hok Hr. unfold reserve_instances_with_schedules in Hr. run_inv; subst.
  - apply for_each_length in Hr as Hlen. rewrite zip_with_fmap_l, zip_with_diag in Hr, Hlen.
    apply replay_rows in Hr as [-> Hrows]; [|by intros o q (? & [= -> ->] & _)%list_elem_of_fmap].
    rewrite <-list_fmap_compose in Hrows. rewrite length_fmap in Hlen. split; [done|]. split; [|by left]. split.
    + rewrite length_fmap. lia.
    + intros i (v & -> & Hv)%list_elem_of_fmap. split; by apply Hrows.
  - match goal with Hx : admit_requests _ _ _ _ _ = Ok ?l |- _ => apply admitted_requests in Hx as Hqs; rename l into l0 end.
    match goal with Hx : current_target _ _ _ = Some _ |- _ => apply current_targeted in Hx as Ht end.
    apply for_each_length in Hr as Hlen. apply reserve_loop in Hr as (Ei & Hn & Hres & Hadd); [|done].
    split; [by rewrite <-Hqs, length_fmap|].
    replace (rq_instance <$> qs) with ((λ p : ReservationRequest * ustr, rq_instance p.1) <$> l0) by (by rewrite <-Hqs, <-list_fmap_compose).
    split; [|right; split_and!; try done; lia]. split.
    + rewrite length_fmap. lia.
    + intros i (v & -> & Hv)%list_elem_of_fmap. split; by apply Hres.
Qed.

Lemma agree_reserve w instance definition batch qs limits now_ms c rows :
  agree w →
  (∀ id, id ∈ rq_instance <$> qs → w.(store).(progress) !! id = None) →
  reserve_instances_with_schedules instance definition batch qs limits now_ms w.(control) = (c, Ok rows) →
  agree (set_control c w) ∧ insertable c batch (rv_identity <$> rows) ∧ length rows = length qs.
Proof.
  intros Ha Hfresh Hr. pose proof (ag_control _ Ha) as Hok.
  pose proof (reserve_instances_with_schedules_keeps _ _ _ _ _ _ _ _ _ Hok Hr) as Hok'.
  pose proof (control_call_extends instance now_ms (ReserveInstances definition batch qs limits) w.(control)) as He.
  cbn [control_call] in He. rewrite void_fst, Hr in He. cbn in He.
  destruct (reserve_effect _ _ _ _ _ _ _ _ _ Hok Hr) as (Hlen & Hins & [->|(Hn & Ei & Hadd)]); (split; [|done]); [by rewrite set_control_id|].
  destruct Ha as [Hc Hs Ho Hl Hb]. 
  assert (Hnew : ∀ id, w.(control).(referrers) !! id = None → w.(store).(workflows) !! id = None).
  { intros id Hno. specialize (Hl id). unfold linked in Hl. by rewrite Hno in Hl. }
  split; cbn; try done; [rewrite Ho; symmetry; apply He|..].
  - intros id. destruct (Hadd id) as [E|(Hno & Hin & r & Hrow & Hst & Hseq & _)].
    + eapply linked_control; [exact Hc|exact He|done|by rewrite Ei|apply Hl].
    + destruct (proj1 (reservation_iff _ id Hok')) as [v Hv]; [eauto|].
      destruct (read_reservation_Some _ _ _ Hv) as (_ & _ & _ & _ & _ & _ & _ & _ & Hid & _).
      eapply linked_plain; [done|done|rewrite Ei; by apply no_row_no_intent, Hno; apply Hok|]. unfold plain_ok, behind.
      rewrite Hid, Hst, (Hnew _ Hno), Hfresh by done. done.
  - intros id1 id2 r1 r2 H1 H2 Eb Hcr.
    destruct (Hadd id1) as [E1|(Hno1 & _ & x1 & Hx1 & _ & _ & B1)]; [rewrite E1 in H1|];
      (destruct (Hadd id2) as [E2|(Hno2 & _ & x2 & Hx2 & S2 & _ & B2)]; [rewrite E2 in H2|]); simplify_eq.
    + by eapply Hb.
    + rewrite <-Eb in Hn. by destruct (batch_empty _ _ _ Hn H1).
    + rewrite Eb in Hn. by destruct (batch_empty _ _ _ Hn H2).
    + split; [done|]. rewrite (Hnew _ Hno1). by intros [].
Qed.

(** ** Insertion *)

Lemma prepare_identity r p : prepare r = Ok p → p.1.1 = r.1.1.
Proof. destruct r as [[i input] r]. unfold prepare. intros Hp. destruct_result. by simplify_eq. Qed.
Lemma prepared_identities rs ps : prepare_all rs = Ok ps → ps.*1.*1 = rs.*1.*1.
Proof.
  revert ps. induction rs as [|r rs IH]; intros ps Hr; cbn in Hr; [by simplify_eq|]. destruct_result. simplify_eq.
  cbn. f_equal; [by apply prepare_identity|by apply IH].
Qed.

(** The instances a batch adds. *)
Definition inserts (ids : list WorkflowInstanceIdentity) (s s' : WorkflowDb) : Prop :=
  NoDup (instance_id <$> ids) ∧ s'.(owner) = s.(owner) ∧ s'.(progress) = s.(progress) ∧
  s'.(gc_receipts) = s.(gc_receipts) ∧
  (∀ i, i ∈ ids → s.(workflows) !! i.(instance_id) = None ∧
     ∃ w, s'.(workflows) !! i.(instance_id) = Some w ∧ w.(row).(identity) = i ∧ idle w) ∧
  ∀ id, id ∉ instance_id <$> ids → s'.(workflows) !! id = s.(workflows) !! id.

Lemma insert_loop ps s s' us :
  for_each (λ p : Creation, insert_instance (fresh_instance p.1.1 p.1.2 p.2)) ps s = (s', Ok us) → inserts ps.*1.*1 s s'.
Proof.
  revert s us. induction ps as [|[[i input] r] ps IH]; intros s us Hr.
  { apply ret_run in Hr as [-> _]. split_and!; [constructor|done..|by intros i ?%not_elem_of_nil|done]. }
  apply for_each_cons_run in Hr as (s1 & y & ys & Hi & Hl & ->). unfold insert_instance in Hi. case_decide as Hin; [|done].
  injection Hi as <- <-. destruct Hin as (Hnone & _). cbn in Hnone. apply IH in Hl as (Hnd & Eo & Ep & Eg & Hnew & Hout).
  cbn in *. assert (Hni : instance_id i ∉ instance_id <$> ps.*1.*1).
  { intros (j & Ej & Hj)%list_elem_of_fmap. destruct (Hnew j Hj) as [Hno _]. by rewrite <-Ej, lookup_insert_eq in Hno. }
  split_and!; [by constructor|done..| |].
  - intros j [->|Hj]%elem_of_cons.
    + split; [done|]. rewrite Hout, lookup_insert_eq by done. by eexists.
    + destruct (Hnew j Hj) as [Hno Hw]. split; [|done]. rewrite lookup_insert_ne in Hno; [done|].
      intros E. apply Hni. rewrite E. by apply list_elem_of_fmap_2.
  - intros id [Hne Hid]%not_elem_of_cons. rewrite Hout, lookup_insert_ne by done. done.
Qed.

Lemma by_operation_row s op w :
  all_ok s → by_operation s op = Some w → s.(workflows) !! w.(row).(identity).(instance_id) = Some w.
Proof.
  intros Hall. unfold by_operation. intros ([id w'] & Hh & ->)%fmap_Some. apply head_Some_elem_of, list_elem_of_filter in Hh as [_ Hh%elem_of_map_to_list].
  cbn. by destruct (Hall _ _ Hh) as [_ ->].
Qed.

Lemma insert_effect rs limits s s' u :
  store_ok s → insert_workflows rs limits s = (s', Ok u) →
  (s' = s ∧ ∀ i, i ∈ rs.*1.*1 → ∃ w, s.(workflows) !! i.(instance_id) = Some w ∧ w.(row).(identity) = i) ∨
  inserts rs.*1.*1 s s'.
Proof.
  intros [Hall _] Hr. unfold insert_workflows in Hr. run_inv.
  - match goal with Hx : prepare_all _ = Ok ?l |- _ => apply prepared_identities in Hx as Hps; rename l into ps end.
    left. split; [done|]. rewrite <-Hps. intros i (x & -> & (p & -> & Hp)%list_elem_of_fmap)%list_elem_of_fmap.
    subst. rewrite zip_with_fmap_l, zip_with_diag in Hg.
    apply Decidable.not_or in Hg as [_ [_ Hq%dec_stable]%Decidable.not_or].
    rewrite Forall_fmap, Forall_forall in Hq. specialize (Hq p Hp). cbn in Hq.
    destruct (by_operation s _) as [w|] eqn:Hw; [|done]. destruct Hq as [_ [Hid _]]. exists w. split; [|done].
    rewrite <-Hid. by eapply by_operation_row.
  - match goal with Hx : prepare_all _ = Ok _ |- _ => apply prepared_identities in Hx as Hps end.
    match goal with Hx : for_each _ _ ?d = _ |- _ => assert (d = s) as -> end.
    { match goal with Hx : capacity _ _ _ _ _ = _ |- _ => apply pure_run in Hx; [done|unfold capacity] end.
      apply pure_bind; [apply pure_gets|]. intros []. auto with tx. }
    right. rewrite <-Hps. subst. by eapply insert_loop.
Qed.

(** A reserved instance that is not in the scheduler is being created, or was purged. *)
Lemma linked_inserted c s s' i w :
  reserved c i →
  s.(workflows) !! i.(instance_id) = None → s'.(progress) !! i.(instance_id) = s.(progress) !! i.(instance_id) →
  s'.(workflows) !! i.(instance_id) = Some w → w.(row).(identity) = i → idle w →
  linked c s i.(instance_id) → linked c s' i.(instance_id).
Proof.
  intros Hres Hno Ep Hw Hid Hidle. destruct (reserved_row _ _ Hres) as (r & Hr & _). destruct Hres as (v & Hv & Ei).
  unfold linked. rewrite Hr, Hv, Ei.
  assert (Hnp : ∀ P, ¬ placed s i P) by (intros P (x & Hx & _); congruence).
  destruct (intents c !! _) as [o|] eqn:Ho.
  - intros [[_ []%Hnp]|[([op|op code] & Hd & Hrej)|(_ & []%Hnp & _)]]; [|by destruct (Hnp _ (Hrej I))].
    destruct (in_kind o) eqn:Hk.
    { destruct (applied_restart _ _ _ Hd) as (x & Hx & _); [done|]. cbn in Hx. congruence. }
    right. right. apply decided_iff in Hd as (p & Hp & Hseq & Hsame & _ & Hd). split; [done|]. split; [by exists w|].
    exists p. split_and!; [by rewrite <-Hp|done|done|]. unfold decided_row in Hd. cbn in Hd. rewrite Hk in Hd.
    destruct (p_error_code p); [by destruct Hd|done].
  - intros [Hb Hp]. split; [unfold behind; by rewrite Ep|].
    destruct (rf_state r); try done; [|by destruct (Hnp _ Hp)..]. intros x Hx. rewrite Hw in Hx. by injection Hx as <-.
Qed.

Lemma agree_insert w rs batch limits s u :
  agree w → insertable w.(control) batch rs.*1.*1 → insert_workflows rs limits w.(store) = (s, Ok u) →
  agree (set_store s w) ∧ ∀ i, i ∈ rs.*1.*1 → is_Some (s.(workflows) !! i.(instance_id)).
Proof.
  intros Ha [Hn Hm] Hr. pose proof (ag_control _ Ha) as Hok.
  destruct (insert_effect _ _ _ _ _ (ag_store _ Ha) Hr) as [[-> Hex]|(Hnd & Eo & Ep & Eg & Hnew & Hout)].
  { rewrite set_store_id. split; [done|]. intros i Hi. destruct (Hex i Hi) as (x & Hx & _). eauto. }
  split; [|intros i Hi; destruct (Hnew i Hi) as [_ (x & Hx & _)]; eauto].
  assert (Hst : store_ok s) by (by eapply insert_workflows_ok; [apply Ha|]).
  destruct Ha as [Hc Hs Ho Hl Hb]. split; cbn; try done; [congruence|..].
  - intros id. destruct (decide (id ∈ instance_id <$> rs.*1.*1)) as [(i & -> & Hi)%list_elem_of_fmap|Hid].
    + destruct (Hnew i Hi) as [Hno (x & Hx & Hid & Hidle)]. destruct (Hm i Hi) as [Hres _].
      eapply linked_inserted; [done|done|by rewrite Ep|done..].
    + eapply linked_local; [|apply Hl]. split_and!; [by apply Hout|by rewrite Ep|by rewrite Eg].
  - intros id1 id2 r1 r2 H1 H2 Eb Hcr. destruct (Hb _ _ _ _ H1 H2 Eb Hcr) as [Hcr2 Hx]. split; [done|].
    destruct (decide (id1 ∈ instance_id <$> rs.*1.*1)) as [(i & -> & Hi)%list_elem_of_fmap|Hid1].
    + intros _. destruct (Hm i Hi) as [Hres Hbi]. destruct (reserved_row _ _ Hres) as (r & Hrow & Hrb).
      assert (r = r1) as -> by congruence.
      assert (Hid2 : id2 ∈ instance_id <$> rs.*1.*1) by (eapply covering; [exact Hn|done|done|exact H2|congruence]).
      apply list_elem_of_fmap in Hid2 as (j & -> & Hj). destruct (Hnew j Hj) as [_ (y & Hy & _)]. eauto.
    + rewrite Hout by done. intros Hx1%Hx. destruct (decide (id2 ∈ instance_id <$> rs.*1.*1)) as [(j & -> & Hj)%list_elem_of_fmap|Hid2].
      * destruct (Hnew j Hj) as [_ (y & Hy & _)]. eauto.
      * by rewrite Hout.
Qed.
End batch.
