(* ===== verification/WorkflowWorldOps.v ===== *)
(** * The controller keeps the databases in agreement

    Every call of the controller, at every point it may stop and beside any other call of the
    platform, leaves the catalog and the scheduler store in agreement. *)

From stdpp Require Import base numbers list option strings sorting gmap.
From S2P Require Import Prelude Text ErrorCodes Duration RetryPolicy WorkflowTypes Sql WorkflowDb WorkflowRuns WorkflowSteps WorkflowBatch WorkflowHistory WorkflowLifecycle WorkflowOperations WorkflowVerify WorkflowStmt WorkflowEvolve WorkflowMoves WorkflowReach WorkflowProps WorkflowFrame WorkflowControl WorkflowCatalog WorkflowBindings WorkflowReservations WorkflowIntents WorkflowControlInv WorkflowControlMoves WorkflowControlOps WorkflowControlInstances WorkflowControlReach WorkflowControlTheorems WorkflowController WorkflowWorld WorkflowWorldMoves WorkflowWorldBatch.

Local Open Scope Z_scope.

Section ops.
Context `{Codec, CronParser}.

(** ** What stays across the calls beside *)

Lemma kept_reservation w w' id v :
  kept w w' → read_reservation w.(control) id = Some v → read_reservation w'.(control) id = Some v.
Proof. intros [He [Er _] _ _] Hv. eapply reservation_kept; [exact He|by rewrite Er|done]. Qed.
Lemma kept_row w w' id : kept w w' → w'.(control).(referrers) !! id = w.(control).(referrers) !! id.
Proof. by intros [_ [-> _] _ _]. Qed.
Lemma kept_intent w w' id : kept w w' → w'.(control).(intents) !! id = w.(control).(intents) !! id.
Proof. by intros [_ [_ ->] _ _]. Qed.
Lemma kept_over w w' i : kept w w' → placed w.(store) i over → placed w'.(store) i over.
Proof. intros [_ _ Hf _] Hp. eapply placed_framed; [by apply framed_weaken|apply over_kept|done]. Qed.
Lemma kept_present w w' id :
  kept w w' → is_Some (w'.(store).(workflows) !! id) ↔ is_Some (w.(store).(workflows) !! id).
Proof. intros [_ _ Hf _]. by apply present_framed, framed_weaken. Qed.
Lemma kept_insertable w w' batch ids :
  kept w w' → insertable w.(control) batch ids → insertable w'.(control) batch ids.
Proof.
  intros Hk [Hn Hm]. pose proof Hk as [He [Er Ei] _ _]. split.
  - unfold batch_count in *. by rewrite Er.
  - intros i Hi. destruct (Hm i Hi) as [Hres ?]. split; [|done]. eapply reserved_kept; [exact He|by rewrite Er|done].
Qed.

(** ** Calls that are steps of the platform anyway *)

Lemma goes_executor {A B} Q (c : Call) (m : WM B) (k : B → Saga A) w :
  executor_call c = true → call_ok c → atomic m → (∀ s, (m s).1 = (exec c s).1) → agree w →
  (∀ w' a, kept w w' → agree w' → goes Q (k a) w') → goes Q (sch m ≫= k) w.
Proof.
  intros Hc Hok Hat Hm Ha Hk. apply goes_sch; [done|done|]. intros w' s a Hkp Ha' Hr.
  assert (beside w' (set_store s w')) as Hb.
  { replace s with (exec c w'.(store)).1 by (by rewrite <-Hm, Hr). by constructor. }
  apply Hk; [etrans; [exact Hkp|by apply besides_kept, rtc_once]|by eapply beside_agree].
Qed.
Lemma goes_catalog {A B} Q instance now_ms (c : ControlCall) (m : CM B) (k : B → Saga A) w :
  catalog_call c = true → atomic m → (∀ db, (m db).1 = (control_call instance now_ms c db).1) → agree w →
  (∀ w' a, kept w w' → agree w' → goes Q (k a) w') → goes Q (ctl m ≫= k) w.
Proof.
  intros Hc Hat Hm Ha Hk. apply goes_ctl; [done|done|]. intros w' s a Hkp Ha' Hr.
  assert (beside w' (set_control s w')) as Hb.
  { replace s with (control_call instance now_ms c w'.(control)).1 by (by rewrite <-Hm, Hr). by constructor. }
  apply Hk; [etrans; [exact Hkp|by apply besides_kept, rtc_once]|by eapply beside_agree].
Qed.

Lemma ignore_fst {A} (m : WM A) s : (_ ← m; mret ()) s = ((m s).1, match (m s).2 with Ok _ => Ok () | Err e => Err e end).
Proof. unfold mbind, M_bind. by destruct (m s) as [s' [a|e]]. Qed.
Lemma atomic_of {A} (m : CM A) : atomic (void m) → atomic m.
Proof. intros Ha s s' e Hr. apply (Ha s s' e). unfold void, mbind, M_bind. by rewrite Hr. Qed.
Lemma atomic_of' {A} (m : WM A) : atomic (_ ← m; mret ()) → atomic m.
Proof. intros Ha s s' e Hr. apply (Ha s s' e). unfold mbind, M_bind. by rewrite Hr. Qed.

Lemma retain_atomic i now_ms : atomic (retain_instance i now_ms).
Proof. unfold retain_instance. apply atomic_bind_pure; [apply pure_lift|]. intros ?. apply atomic_transaction. Qed.
Lemma prepare_atomic i operation kind from limits now_ms : atomic (prepare_operation i operation kind from limits now_ms).
Proof.
  unfold prepare_operation. apply atomic_bind_pure; [apply pure_lift|]. intros ?.
  apply atomic_bind_pure; [apply pure_throw_if|]. intros ?. apply atomic_transaction.
Qed.
Lemma prepare_restart_atomic i operation from limits now_ms : atomic (prepare_restart_operation i operation from limits now_ms).
Proof. unfold prepare_restart_operation. apply atomic_bind_pure; [apply pure_lift|]. intros ?. apply prepare_atomic. Qed.

Lemma wake_kept w : agree w → agree (set_store (wf_notify w.(store)) w) ∧ kept w (set_store (wf_notify w.(store)) w).
Proof.
  intros Ha. assert (Hf : framed still_idle w.(store) (wf_notify w.(store))) by (split_and!; try done; intros id; cbn; by destruct (_ !! id); constructor).
  split; [|split; done]. apply agree_store; [done|done|]. by apply (store_ok_same w.(store)), Ha.
Qed.
Lemma fine_wake w : agree w → fine wake_scheduler w.
Proof.
  intros Ha. apply safe_sch; [done|]. intros w' s r _ Ha' Hr. unfold modify in Hr. injection Hr as <- <-.
  apply fine_done. by apply wake_kept.
Qed.

(** ** Finishing a prepared operation *)

(** Nothing but one instance has moved. *)
Record apart (id : N) (w w' : World) : Prop := {
  ap_extends : extends w.(control) w'.(control);
  ap_rows : ∀ id', id' ≠ id → w'.(control).(referrers) !! id' = w.(control).(referrers) !! id' ∧
                              w'.(control).(intents) !! id' = w.(control).(intents) !! id';
  ap_store : ∀ id', id' ≠ id → option_Forall2 still_idle (w.(store).(workflows) !! id') (w'.(store).(workflows) !! id');
}.
#[export] Instance apart_pre id : PreOrder (apart id).
Proof.
  split; [by intros w; split|]. intros w1 w2 w3 [E1 R1 S1] [E2 R2 S2]. split; [by etrans|..]; intros id' Hne.
  - destruct (R1 id' Hne), (R2 id' Hne). split; congruence.
  - by etrans; [apply S1|apply S2].
Qed.
Lemma kept_apart id w w' : kept w w' → apart id w w'.
Proof. intros [He [Er Ei] (_ & _ & _ & Hf) _]. split; [done|..]; intros id' _; [by rewrite Er, Ei|apply Hf]. Qed.

Lemma apart_pending id w w' op :
  apart id w w' → op.(op_identity).(instance_id) ≠ id → pending w.(control) op → pending w'.(control) op.
Proof.
  intros [He Hr _] Hne (v & o & Hv & Ho & E). destruct (Hr _ Hne) as [Er Ei]. exists v, o. rewrite Ei. split_and!; try done.
  by eapply reservation_kept.
Qed.
Lemma apart_over id w w' i : apart id w w' → i.(instance_id) ≠ id → placed w.(store) i over → placed w'.(store) i over.
Proof.
  intros [_ _ Hs] Hne (x & Hx & Hid & Ho). specialize (Hs _ Hne). rewrite Hx in Hs. inversion Hs as [x1 y [[[= E _ _ _] Ht] _]|]; subst.
  exists y. split_and!; [done|congruence|]. by rewrite (Ht Ho).
Qed.

Lemma complete_only op now_ms db db' u :
  complete_instance_operation op now_ms db = (db', Ok u) → only op.(op_identity).(instance_id) db db'.
Proof.
  unfold complete_instance_operation. intros Hr. rewrite transaction_run in Hr. apply bind_run in Hr as (s1 & q & Hq & Hr).
  apply read_operation_run in Hq as [-> _]. apply bind_run in Hr as (s1 & [] & Hc & Hr).
  apply bind_run in Hr as (s2 & x & Hx & Hr). apply gets_run in Hx as [-> ->].
  assert (db' = s1) as -> by (clear Hc; destruct (op_kind op), (read_reservation s1 _); run_inv; done).
  destruct q; [run_inv; by eapply complete_rows_only|by run_inv].
Qed.
Lemma cancel_only op now_ms db db' u :
  cancel_instance_operation op now_ms db = (db', Ok u) → only op.(op_identity).(instance_id) db db'.
Proof.
  unfold cancel_instance_operation. intros Hr. rewrite transaction_run in Hr. apply bind_run in Hr as (s1 & q & Hq & Hr).
  apply read_operation_run in Hq as [-> _]. destruct q; [|by run_inv]. run_inv.
  - etrans; [by eapply update_referrer_only|by eapply delete_intent_only].
  - by eapply delete_intent_only.
Qed.
Lemma control_apart w c id : extends w.(control) c → only id w.(control) c → apart id w (set_control c w).
Proof. intros He On. split; [done|..]; intros id' Hne; cbn; [split; by apply On|done]. Qed.

Context (limits : WorkflowsConfig) (now_ms : Z).

Lemma apply_apart w op s d :
  apply_workflow_operation op now_ms limits w.(store) = (s, Ok d) → apart op.(op_identity).(instance_id) w (set_store s w).
Proof.
  intros Hr. destruct (apply_effect _ _ _ _ _ _ Hr) as (_ & Hat & _). split; [done|done|]. intros id' Hne. cbn.
  by destruct (Hat id' Hne) as (-> & _).
Qed.
Lemma decided_kept w w' op d : kept w w' → agree w' → decided w.(store) op d → decided w'.(store) op d.
Proof. intros [_ _ Hf _] Ha. apply decided_framed; [by apply framed_weaken|apply Ha]. Qed.

Lemma finish_safe Q op w :
  agree w → pending w.(control) op →
  (∀ r w', agree w' → apart op.(op_identity).(instance_id) w w' → Q r w') → safe Q (finish_operation limits op now_ms) w.
Proof.
  intros Ha Hp HQ. unfold finish_operation. apply safe_sch; [done|]. intros w1 s [d|e] Hk Ha1 Hr; cbn.
  2: { assert (s = w1.(store)) as ->.
       { apply (atomic_transaction _ _ _ _ Hr). }
       rewrite set_store_id. apply safe_done; [done|]. intros w2 Hk2 Ha2. apply HQ; [done|]. apply kept_apart. by etrans. }
  destruct (agree_apply w1 op now_ms limits s d) as [Ha2 Hd]; [done|by apply (pending_kept w)|done|].
  assert (Hap : apart op.(op_identity).(instance_id) w (set_store s w1)).
  { etrans; [by apply kept_apart|by eapply apply_apart]. }
  assert (Hp1 : pending (set_store s w1).(control) op) by exact (pending_kept w w1 op Ha Hk Hp).
  destruct d as [p|p code]; pose proof (decided_proof _ _ _ Hd) as ->;
    (apply safe_ctl; [done|]); intros w2 c [u|e] Hk2 Ha3 Hrc; cbn.
  - pose proof (control_call_extends 0%N now_ms (CompleteOperation op) w2.(control)) as He. cbn [control_call] in He. rewrite Hrc in He.
    apply safe_done; [eapply agree_complete; [done|by eapply (pending_kept (set_store s w1))|by eapply (decided_kept (set_store s w1))|exact Hrc]|].
    intros w3 Hk3 Ha4. apply HQ; [done|]. etrans; [exact Hap|]. etrans; [by apply kept_apart|].
    etrans; [|by apply kept_apart]. apply control_apart; [done|by eapply complete_only].
  - rewrite (atomic_transaction _ _ _ _ Hrc), set_control_id.
    apply safe_done; [done|]. intros w3 Hk3 Ha4. apply HQ; [done|]. etrans; [exact Hap|]. apply kept_apart. by etrans.
  - pose proof (control_call_extends 0%N now_ms (CancelOperation op) w2.(control)) as He. cbn [control_call] in He. rewrite Hrc in He.
    apply safe_done; [eapply agree_cancel; [done|by eapply (pending_kept (set_store s w1))|by eapply (decided_kept (set_store s w1))|exact Hrc]|].
    intros w3 Hk3 Ha4. apply HQ; [done|]. etrans; [exact Hap|]. etrans; [by apply kept_apart|].
    etrans; [|by apply kept_apart]. apply control_apart; [done|by eapply cancel_only].
  - rewrite (atomic_transaction _ _ _ _ Hrc), set_control_id.
    apply safe_done; [done|]. intros w3 Hk3 Ha4. apply HQ; [done|]. etrans; [exact Hap|]. apply kept_apart. by etrans.
Qed.

Lemma goes_finish {A} Q op (k : option ErrorCode → Saga A) w :
  agree w → pending w.(control) op →
  (∀ r w', agree w' → apart op.(op_identity).(instance_id) w w' → goes Q (k r) w') →
  goes Q (finish_operation limits op now_ms ≫= k) w.
Proof. intros Ha Hp Hk. apply goes_bind, finish_safe; [done|done|]. intros r w' Ha' Hap a _. by apply Hk. Qed.
Lemma goes_finish_or_fail {A} Q op (k : unit → Saga A) w :
  agree w → pending w.(control) op → (∀ w', agree w' → goes Q (k ()) w') → goes Q (finish_or_fail limits op now_ms ≫= k) w.
Proof.
  intros Ha Hp Hk. apply goes_bind. unfold finish_or_fail. apply safe_bind, finish_safe; [done|done|].
  intros [[code|]|e] w' Ha' _; (apply safe_done; [done|]); intros w2 _ Ha2 a Ea; try done. destruct a. by apply Hk.
Qed.
Lemma fine_finish_last op w : agree w → pending w.(control) op → fine (finish_or_fail limits op now_ms) w.
Proof.
  intros Ha Hp. unfold finish_or_fail. apply safe_bind, finish_safe; [done|done|].
  intros [[code|]|e] w' Ha' _; by apply fine_done.
Qed.

Lemma goes_corrupt {A} Q i w : agree w → goes Q (corrupt (A:=A) i now_ms) w.
Proof.
  intros Ha. unfold corrupt.
  apply (goes_catalog _ i.(target).(t_instance_id) now_ms (MarkUnavailable i.(target).(definition_id)));
    [done|apply (control_call_atomic i.(target).(t_instance_id) now_ms (MarkUnavailable _))|done|done|].
  intros w' u _ Ha'. by apply goes_fails.
Qed.

(** ** The instance an action is about *)

Record current (w : World) (id : N) (i : InstanceRow) : Prop := {
  cu_reserved : reserved w.(control) i.(identity);
  cu_id : i.(identity).(instance_id) = id;
  cu_published : is_none_or (λ r, r.(rf_state) ≠ Creating) (w.(control).(referrers) !! id);
  cu_over : is_terminal i.(state) = true → placed w.(store) i.(identity) over;
}.
Lemma current_kept w w' id i : kept w w' → current w id i → current w' id i.
Proof.
  intros Hk [Hres Hid Hp Ho]. split; [|done|by rewrite (kept_row w)|intros Ht; eapply kept_over; [done|auto]].
  destruct Hres as (v & Hv & E). exists v. split; [|done]. by eapply kept_reservation.
Qed.

Lemma workflow_instance_pure id : pure (workflow_instance id).
Proof. apply select_pure. Qed.
Lemma instance_operation_pure id : pure (instance_operation id).
Proof.
  unfold instance_operation, read_operation. apply pure_bind; [apply pure_gets|]. intros [o|]; [|apply pure_ret]. auto 20 with tx nocore.
Qed.
Lemma reservation_pure id : pure (reservation id).
Proof. apply pure_gets. Qed.
Lemma definition_pure instance id : pure (definition instance id).
Proof. unfold definition. auto with tx nocore. Qed.

Lemma reads_owned owner definition_id id w :
  agree w → reads (λ v w', read_reservation w'.(control) id = Some v) (owned_reservation owner definition_id id) w.
Proof.
  intros Ha. unfold owned_reservation. apply reads_ctl; [apply reservation_pure|done|]. intros w' o Hk Ha' Ho.
  unfold reservation, gets in Ho. injection Ho as <-. apply reads_done; [done|]. intros w2 v Hk2 Ha2 Hv.
  unfold ok_or_else in Hv. destruct (read_reservation (control w') id) as [v'|] eqn:Hr; [|done]. cbn in Hv.
  case_decide; [|done]. injection Hv as ->. by eapply kept_reservation.
Qed.

Lemma current_published w id v :
  agree w → read_reservation w.(control) id = Some v → ¬ (v.(rv_state) = Creating ∨ v.(rv_state) = Restarting ∨ v.(rv_state) = Releasing) →
  is_none_or (λ r, r.(rf_state) ≠ Creating) (w.(control).(referrers) !! id).
Proof.
  intros Ha Hv Hs. destruct (read_reservation_Some _ _ _ Hv) as (r & _ & _ & -> & _ & _ & _ & E & _). cbn.
  rewrite E in Hs. tauto.
Qed.

Lemma reads_current owner definition_id id w :
  agree w → reads (λ i w', current w' id i) (current_instance owner definition_id id now_ms) w.
Proof.
  intros Ha. unfold current_instance. apply reads_ctl; [apply definition_pure|done|]. intros w1 d _ Ha1 _.
  eapply reads_bind; [by apply reads_owned|]. intros w2 v _ Ha2 Hv.
  apply reads_ctl; [apply instance_operation_pure|done|]. intros w3 o Hk3 Ha3 _.
  apply (kept_reservation _ _ _ _ Hk3) in Hv. destruct o as [op|]; [by apply reads_done|].
  apply reads_fails_if; [done|]. intros Hst. apply reads_sch; [apply workflow_instance_pure|done|]. intros w4 q Hk4 Ha4 Hq.
  apply (kept_reservation _ _ _ _ Hk4) in Hv. apply reads_present; [done|]. intros i ->. apply reads_fails_if; [done|].
  intros Hid%dec_stable. apply reads_fails_if; [done|]. intros _. apply reads_done; [done|]. intros w5 i' Hk5 Ha5 [= <-].
  eapply current_kept; [exact Hk5|]. destruct (read_reservation_Some _ _ _ Hv) as (r & _ & _ & _ & _ & _ & _ & _ & Eid & _).
  apply select_all in Hq as [_ Hq]. destruct (workflows _ !! id) as [x|] eqn:Hx; [|done]. destruct Hq as [_ [= ->]].
  split; [exists v; by rewrite Hid, Eid|by rewrite Hid|by eapply current_published|].
  intros Ht. exists x. split_and!; try done. by rewrite Hid, Eid.
Qed.

(** ** Lifecycle calls *)

Context (admission : Z → result PlatformError unit) (Hlimits : limits_unsigned limits) (Hnow : clock now_ms).

Lemma goes_then {A B} Q (p : Saga A) (k : A → Saga B) w :
  fine p w → (∀ w' a, agree w' → goes Q (k a) w') → goes Q (p ≫= k) w.
Proof.
  intros Hp Hk. apply goes_bind. revert w Hp. induction p as [r|? m f IH|? m f IH|g f IH]; intros w [Ha Hs]; (split; [done|]); intros w' Hr.
  - intros a _. apply Hk. by eapply besides_agree.
  - by apply IH, Hs.
  - by apply IH, Hs.
  - by apply IH, Hs.
Qed.

Lemma fine_status owner definition_id id w : agree w → fine (status owner definition_id id now_ms) w.
Proof.
  intros Ha. unfold status. eapply goes_reads; [by apply reads_current|]. intros w' i _ Ha' _.
  destruct (state i); try (by apply fine_done); apply goes_present; try done; intros; by apply fine_done.
Qed.

(** An executor call at the end. *)
Lemma fine_executor_last (c : Call) w :
  executor_call c = true → call_ok c → agree w → fine (sch (exec c)) w.
Proof.
  intros Hc Hok Ha. apply safe_sch; [done|]. intros w' s r _ Ha' Hr. apply fine_done.
  replace s with (exec c w'.(store)).1 by (by rewrite Hr). eapply beside_agree; [done|by constructor].
Qed.

Lemma fine_send_event owner definition_id id operation event_type payload w :
  agree w → fine (send_event admission limits owner definition_id id operation event_type payload now_ms) w.
Proof.
  intros Ha. unfold send_event. eapply goes_reads; [by apply reads_current|]. intros w' i _ Ha' _.
  apply goes_lift; [done|]. intros _ _. by apply (fine_executor_last (CallEvent _ _ _ _ _ _)).
Qed.
Lemma fine_rollback_instance owner definition_id id w :
  agree w → fine (rollback_instance admission limits owner definition_id id now_ms) w.
Proof.
  intros Ha. unfold rollback_instance. eapply goes_reads; [by apply reads_current|]. intros w' i _ Ha' _.
  apply goes_lift; [done|]. intros _ _. by apply (fine_executor_last (CallRollback _ _ _)).
Qed.

Lemma goes_retain {A} Q i (k : unit → Saga A) w :
  agree w → placed w.(store) i over → (∀ w', agree w' → (∃ w1, kept w w1 ∧ w'.(store) = w1.(store)) → goes Q (k ()) w') →
  goes Q (ctl (retain_instance i now_ms) ≫= k) w.
Proof.
  intros Ha Hp Hk. apply goes_ctl; [apply retain_atomic|done|].
  intros w' c [] Hkp Ha' Hr. apply Hk; [|by exists w'].
  eapply agree_retain; [done|by eapply kept_over|exact Hr].
Qed.

Lemma goes_modify {A} Q i action id (k : unit → Saga A) w :
  agree w → current w id i →
  (∀ w', agree w' → current w' id i → (action = Terminate → placed w'.(store) i.(identity) over) → goes Q (k ()) w') →
  goes Q (sch (modify_workflow i.(identity) action now_ms limits) ≫= k) w.
Proof.
  intros Ha Hc Hk. apply goes_sch; [apply atomic_transaction|done|].
  intros w' s [] Hkp Ha' Hr. apply (current_kept _ _ _ _ Hkp) in Hc. destruct Hc as [Hres Hid Hpub Hov].
  assert (Ha2 : agree (set_store s w')) by (eapply agree_modify; [exact Ha'|exact Hnow| |exact Hr]; by rewrite Hid).
  apply Hk; [done| |].
  - split; [done..|]. intros Ht. pose proof (modify_workflow_frame i.(identity) action now_ms limits w'.(store)) as Hf. rewrite Hr in Hf.
    eapply placed_framed; [exact Hf|apply over_kept|auto].
  - intros ->. by eapply terminated_over.
Qed.

Lemma fine_modify_instance owner definition_id id action w :
  agree w → fine (modify_instance admission limits owner definition_id id action now_ms) w.
Proof.
  intros Ha. unfold modify_instance. eapply goes_reads; [by apply reads_current|]. intros w1 i _ Ha1 Hc.
  apply goes_lift; [done|]. intros _ _. eapply goes_modify; [done|exact Hc|]. intros w2 Ha2 Hc2 Hov.
  destruct action; [by apply fine_done..|]. apply safe_ctl; [done|]. intros w3 c [[]|e] Hk3 Ha3 Hr; apply fine_done.
  - eapply agree_retain; [done| |exact Hr]. eapply kept_over; [exact Hk3|by apply Hov].
  - by rewrite (retain_atomic _ _ _ _ _ Hr), set_control_id.
Qed.

Lemma goes_prepare {A} Q i operation kind from (k : WorkflowOperation → Saga A) w :
  agree w → (∀ w' op, agree w' → pending w'.(control) op → op.(op_identity) = i → 
     (∃ w1, kept w w1 ∧ w'.(store) = w1.(store)) → goes Q (k op) w') →
  goes Q (ctl (prepare_operation i operation kind from limits now_ms) ≫= k) w.
Proof.
  intros Ha Hk. apply goes_ctl; [|done|].
  - apply prepare_atomic.
  - intros w' c op Hkp Ha' Hr. destruct (agree_prepare _ _ _ _ _ _ _ _ _ Ha' Hr) as (Ha2 & Hp & E). apply Hk; eauto.
Qed.

Lemma operation_pending c id op c' :
  read_operation id c = (c', Ok (Some op)) → pending c op ∧ op.(op_identity).(instance_id) = id.
Proof.
  intros (-> & o & v & r & Ho & Hv & _ & _ & ->)%read_operation_run. cbn.
  destruct (read_reservation_Some _ _ _ Hv) as (_ & _ & _ & _ & _ & _ & _ & _ & Eid & _). split; [|done].
  exists v, o. cbn. by rewrite Eid.
Qed.

Lemma verify_history_pure id : pure (verify_workflow_history id).
Proof.
  unfold verify_workflow_history. apply pure_bind; [apply pure_gets|]. intros o. apply pure_bind; [apply pure_some_or|].
  intros x. apply pure_lift.
Qed.
Lemma restart_matches_pure id operation from : pure (workflow_restart_matches id operation from).
Proof.
  unfold workflow_restart_matches. apply pure_bind; [apply pure_gets|]. intros [x|]; [|apply pure_ret].
  case_decide; [apply pure_ret|]. apply pure_bind; [auto with tx|]. intros ?. apply pure_bind; [apply verify_history_pure|auto with tx].
Qed.

Lemma goes_prepare_restart {A} Q i operation from (k : WorkflowOperation → Saga A) w :
  agree w → (∀ w' op, agree w' → pending w'.(control) op → goes Q (k op) w') →
  goes Q (ctl (prepare_restart_operation i operation from limits now_ms) ≫= k) w.
Proof.
  intros Ha Hk. apply goes_ctl; [|done|].
  - apply prepare_restart_atomic.
  - intros w' c op Hkp Ha' Hr. unfold prepare_restart_operation in Hr. run_inv.
    destruct (agree_prepare _ _ _ _ _ _ _ _ _ Ha' Hr) as (Ha2 & Hp & E). by apply Hk.
Qed.

Lemma fine_restart owner definition_id id operation from w :
  agree w → fine (restart admission limits owner definition_id id operation from now_ms) w.
Proof.
  intros Ha. unfold restart. do 2 (apply goes_lift; [done|]; intros _ _).
  apply goes_read_ctl; [apply definition_pure|done|]. intros w1 d _ Ha1 _.
  eapply goes_reads; [by apply reads_owned|]. intros w2 v _ Ha2 _.
  apply goes_read_ctl; [apply instance_operation_pure|done|]. intros w3 o _ Ha3 Ho. destruct o as [op|].
  - apply operation_pending in Ho as [Hp _]. apply goes_fails_if; [done|]. intros _.
    apply goes_finish_or_fail; [done|done|]. intros w4 Ha4. by apply fine_wake.
  - apply goes_read_sch; [apply restart_matches_pure|done|]. intros w4 same _ Ha4 _. destruct same; [by apply fine_done|].
    eapply goes_reads; [by apply reads_current|]. intros w5 i _ Ha5 _. apply goes_fails_if; [done|]. intros _.
    apply goes_prepare_restart; [done|]. intros w6 op Ha6 Hp.
    apply goes_finish_or_fail; [done|done|]. intros w7 Ha7. by apply fine_wake.
Qed.

(** [delete] ends a live instance first. *)
Lemma safe_ended id i w :
  agree w → current w id i →
  safe (λ r w', agree w' ∧ ∀ j, r = Ok j → placed w'.(store) j.(identity) over)
    (if is_terminal i.(state) then mret i
     else _ ← sch (modify_workflow i.(identity) Terminate now_ms limits);
          o ← sch (workflow_instance id);
          present o (storage_error WorkflowInstanceNotFound)) w.
Proof.
  intros Ha Hc. destruct (is_terminal (state i)) eqn:Ht.
  { apply safe_done; [done|]. intros w' Hk Ha'. split; [done|]. intros j [= <-]. eapply kept_over; [exact Hk|by apply Hc]. }
  apply safe_sch; [done|]. intros w1 s [u|e] Hk1 Ha1 Hr; cbn.
  2: { rewrite (atomic_transaction _ _ _ _ Hr), set_store_id. by apply safe_done. }
  apply (current_kept _ _ _ _ Hk1) in Hc. destruct Hc as [_ Hid Hpub _].
  assert (Ha2 : agree (set_store s w1)) by (eapply agree_modify; [exact Ha1|exact Hnow| |exact Hr]; by rewrite Hid).
  apply terminated_over in Hr as Hov. apply safe_sch; [done|]. intros w2 s2 r Hk2 Ha3 Hr2.
  assert (s2 = w2.(store)) as -> by (by rewrite <-(workflow_instance_pure id w2.(store)), Hr2). rewrite set_store_id.
  apply (kept_over _ _ _ Hk2) in Hov. destruct r as [o|e]; cbn; [|by apply safe_done].
  apply safe_done; [done|]. intros w3 Hk3 Ha4. split; [done|]. intros j Hj. eapply kept_over; [exact Hk3|].
  apply select_all in Hr2 as [_ Hq]. destruct Hov as (x & Hx & Ex & Ho). rewrite Hid in Hx. rewrite Hx in Hq. destruct Hq as [_ ->].
  injection Hj as <-. exists x. by rewrite Ex, Hid.
Qed.

Lemma fine_delete owner definition_id id operation w :
  agree w → fine (delete admission limits owner definition_id id operation now_ms) w.
Proof.
  intros Ha. unfold delete. eapply goes_reads; [by apply reads_current|]. intros w1 i _ Ha1 Hc.
  apply goes_lift; [done|]. intros _ _.
  apply goes_bind. eapply safe_mono; [|by eapply safe_ended]. intros r w2 [Ha2 Hov] j ->. specialize (Hov j eq_refl).
  apply goes_read_ctl; [apply reservation_pure|done|]. intros w3 o Hk3 Ha3 _. apply (kept_over _ _ _ Hk3) in Hov.
  assert (Hlast : ∀ w, agree w →
    fine (op ← ctl (prepare_instance_operation j.(identity) operation Purge limits now_ms); finish_or_fail limits op now_ms) w).
  { intros w4 Ha4. apply goes_prepare; [done|]. intros w5 op Ha5 Hp _ _. by apply fine_finish_last. }
  case_decide; [|by apply Hlast]. apply goes_retain; [done|done|]. intros w4 Ha4 _. by apply Hlast.
Qed.
End ops.
