(* ===== verification/WorkflowWorldCalls.v ===== *)
(** * Creation, claims and reconciliation

    The longer calls of the controller keep the catalog and the scheduler store in agreement,
    wherever they stop. *)

From stdpp Require Import base numbers list option strings sorting gmap.
From S2P Require Import Prelude Text ErrorCodes Duration RetryPolicy Sql WorkflowTypes WorkflowDb WorkflowRuns WorkflowSteps WorkflowBatch WorkflowHistory WorkflowLifecycle WorkflowOperations WorkflowVerify WorkflowStmt WorkflowEvolve WorkflowMoves WorkflowReach WorkflowProps WorkflowControl WorkflowCatalog WorkflowBindings WorkflowReservations WorkflowIntents WorkflowControlInv WorkflowControlMoves WorkflowControlOps WorkflowControlInstances WorkflowControlReach WorkflowControlTheorems WorkflowController WorkflowFrame WorkflowWorld WorkflowWorldMoves WorkflowWorldBatch WorkflowWorldOps.

Local Open Scope Z_scope.

Section calls.
Context `{Codec, CronParser}.
Context (limits : WorkflowsConfig) (now_ms : Z).
Context (admission : Z → result PlatformError unit) (Hlimits : limits_unsigned limits) (Hnow : clock now_ms).

(** ** How much of a batch is in the scheduler *)

Definition all_present (ids : list N) (w : World) : Prop := ∀ id, id ∈ ids → is_Some (w.(store).(workflows) !! id).
Definition all_absent (ids : list N) (w : World) : Prop := ∀ id, id ∈ ids → w.(store).(workflows) !! id = None.
Definition counts (ids : list N) (n : nat) (w : World) : Prop :=
  (n ≤ length ids)%nat ∧ (n = length ids → all_present ids w) ∧ (n = 0%nat → all_absent ids w).

Lemma kept_absent w w' id : kept w w' → w'.(store).(workflows) !! id = None ↔ w.(store).(workflows) !! id = None.
Proof. intros Hk. rewrite !eq_None_not_Some. by rewrite (kept_present w). Qed.
Lemma all_present_kept w w' ids : kept w w' → all_present ids w → all_present ids w'.
Proof. intros Hk Hp id Hid. apply (kept_present w); auto. Qed.
Lemma all_absent_kept w w' ids : kept w w' → all_absent ids w → all_absent ids w'.
Proof. intros Hk Hp id Hid. apply (kept_absent w); auto. Qed.
Lemma counts_none id ids n w : w.(store).(workflows) !! id = None → counts ids n w → counts (id :: ids) n w.
Proof.
  intros Hno (Hn & _ & Hab). split_and!; cbn; [lia|lia|]. intros E id' [->|Hid]%elem_of_cons; [done|by apply Hab].
Qed.
Lemma counts_some id ids n w : is_Some (w.(store).(workflows) !! id) → counts ids n w → counts (id :: ids) (S n) w.
Proof.
  intros Hs (Hn & Hpr & _). split_and!; cbn; [lia| |lia]. intros E id' [->|Hid]%elem_of_cons; [done|apply Hpr; [lia|done]].
Qed.

Lemma reads_count_committed l w :
  agree w → reads (counts (instance_id <$> l.*1)) (count_committed l) w.
Proof.
  revert w. induction l as [|[i [payload r]] l IH]; intros w Ha; cbn [count_committed].
  { apply reads_done; [done|]. intros w' n _ _ [= <-]. split_and!; [done|by intros _ id ?%not_elem_of_nil..]. }
  apply reads_sch; [apply workflow_instance_pure|done|]. intros w1 o _ Ha1 Hr. apply select_all in Hr as [_ Hq].
  destruct (workflows (store w1) !! instance_id i) as [x|] eqn:Hx; [destruct Hq as [_ ->]|subst o].
  - apply reads_fails_if; [done|]. intros _. eapply reads_bind; [by apply IH|]. intros w2 n Hk2 Ha2 Hc.
    apply reads_done; [done|]. intros w3 n' Hk3 Ha3 [= <-]. apply counts_some; [apply (kept_present w1); [by etrans|eauto]|].
    destruct Hc as (? & ? & ?). split_and!; [done|..]; intros E; [eapply all_present_kept|eapply all_absent_kept]; eauto.
  - eapply reads_mono; [|by apply IH]. intros w2 n Hk2 Ha2 Hc. apply counts_none; [by apply (kept_absent w1)|done].
Qed.

Lemma reads_count_queued rows w :
  agree w → reads (counts (instance_id <$> (rv_identity <$> rows))) (count_queued rows) w.
Proof.
  revert w. induction rows as [|v rows IH]; intros w Ha; cbn [count_queued].
  { apply reads_done; [done|]. intros w' n _ _ [= <-]. split_and!; [done|by intros _ id ?%not_elem_of_nil..]. }
  apply reads_sch; [apply workflow_instance_pure|done|]. intros w1 o _ Ha1 Hr. apply select_all in Hr as [_ Hq].
  destruct (workflows (store w1) !! instance_id (rv_identity v)) as [x|] eqn:Hx; [destruct Hq as [_ ->]|subst o].
  - apply reads_fails_if; [done|]. intros _. eapply reads_bind; [by apply IH|]. intros w2 n Hk2 Ha2 Hc.
    apply reads_done; [done|]. intros w3 n' Hk3 Ha3 [= <-]. apply counts_some; [apply (kept_present w1); [by etrans|eauto]|].
    destruct Hc as (? & ? & ?). split_and!; [done|..]; intros E; [eapply all_present_kept|eapply all_absent_kept]; eauto.
  - eapply reads_mono; [|by apply IH]. intros w2 n Hk2 Ha2 Hc. apply counts_none; [by apply (kept_absent w1)|done].
Qed.

(** ** Publication and abandonment *)

Lemma finalize_atomic ids : atomic (finalize_instances ids now_ms).
Proof. unfold finalize_instances. apply atomic_bind_pure; [apply pure_throw_if|]. intros ?. apply atomic_transaction. Qed.
Lemma abandon_atomic ids : atomic (abandon_creations ids).
Proof. unfold abandon_creations. apply atomic_bind_pure; [apply pure_throw_if|]. intros ?. apply atomic_transaction. Qed.

Lemma goes_finalize {A} Q ids (k : unit → Saga A) w :
  agree w → all_present (instance_id <$> ids) w → (∀ w', agree w' → goes Q (k ()) w') →
  goes Q (ctl (finalize_instances ids now_ms) ≫= k) w.
Proof.
  intros Ha Hp Hk. apply goes_ctl; [apply finalize_atomic|done|]. intros w' c [] Hkp Ha' Hr. apply Hk.
  eapply agree_finalize; [done| |exact Hr]. intros i Hi. apply (all_present_kept _ _ _ Hkp Hp). by apply list_elem_of_fmap_2.
Qed.
Lemma fine_finalize_last ids w :
  agree w → all_present (instance_id <$> ids) w → fine (ctl (finalize_instances ids now_ms)) w.
Proof.
  intros Ha Hp. apply safe_ctl; [done|]. intros w' c [u|e] Hkp Ha' Hr; apply fine_done.
  - eapply agree_finalize; [done| |exact Hr]. intros i Hi. apply (all_present_kept _ _ _ Hkp Hp). by apply list_elem_of_fmap_2.
  - by rewrite (finalize_atomic _ _ _ _ Hr), set_control_id.
Qed.
Lemma safe_abandon {A} Q ids (k : nat → Saga A) w :
  (∀ e w', agree w' → Q (Err e) w') → agree w → all_absent (instance_id <$> ids) w →
  (∀ n w', agree w' → safe Q (k n) w') → safe Q (ctl (abandon_creations ids) ≫= k) w.
Proof.
  intros He Ha Hp Hk. apply safe_ctl; [done|]. intros w' c [n|e] Hkp Ha' Hr; cbn.
  - apply Hk. eapply agree_abandon; [done| |exact Hr]. intros i Hi. apply (all_absent_kept _ _ _ Hkp Hp). by apply list_elem_of_fmap_2.
  - rewrite (abandon_atomic _ _ _ _ Hr), set_control_id. apply safe_done; [done|]. intros. by apply He.
Qed.

Lemma length_prepared qs inputs : prepare_inputs limits qs = Ok inputs → length inputs = length qs.
Proof.
  revert inputs. induction qs as [|q qs IH]; intros inputs Hr; cbn in Hr; [by simplify_eq|]. destruct_result. simplify_eq.
  cbn. f_equal. by apply IH.
Qed.

Lemma capacity_pure live extra b l : pure (capacity live extra b l).
Proof. unfold capacity. apply pure_bind; [apply pure_gets|]. intros []. auto with tx. Qed.
Lemma check_capacity_pure instance l : pure (check_workflow_create_batch_capacity instance l limits).
Proof.
  unfold check_workflow_create_batch_capacity. do 5 (apply pure_bind; [auto with tx|intros ?]). apply capacity_pure.
Qed.

(** ** Creation *)

Lemma find_instance_pure definition_id external : pure (find_instance definition_id external).
Proof. unfold find_instance. auto with tx nocore. Qed.

Lemma reads_conflict definition_id external w :
  agree w → reads (λ _ _, True) (creation_conflict definition_id external now_ms) w.
Proof.
  intros Ha. unfold creation_conflict. destruct external as [e|]; [|by apply reads_done].
  apply reads_ctl; [apply find_instance_pure|done|]. intros w1 v _ Ha1 _.
  apply reads_ctl; [apply instance_operation_pure|done|]. intros w2 o _ Ha2 _. case_decide; [by apply reads_done|].
  apply reads_sch; [apply workflow_instance_pure|done|]. intros w3 q _ Ha3 _. apply reads_present; [done|].
  intros i _. by apply reads_done.
Qed.

Lemma reserve_atomic instance definition batch qs :
  atomic (reserve_instances_with_schedules instance definition batch qs limits now_ms).
Proof.
  unfold reserve_instances_with_schedules. apply atomic_bind_pure; [apply pure_throw_if|]. intros ?.
  apply atomic_bind_pure; [apply pure_lift|]. intros ?. apply atomic_transaction.
Qed.

(** The rest of a creation once its rows are in the scheduler, or not. *)
Lemma fine_settle_creation ids inputs e w :
  agree w → length inputs = length ids →
  (∀ w', agree w' → all_present (instance_id <$> ids) w' →
     fine (_ ← ctl (finalize_instances ids now_ms); _ ← wake_scheduler; mret ids) w') →
  fine (_ ← (committed ← count_committed (zip ids inputs);
             if decide (committed = 0%nat) then
               removed ← ctl (abandon_creations ids);
               _ ← fails_if (removed ≠ length ids) violation;
               fails e
             else fails_if (committed ≠ length ids) violation);
        _ ← ctl (finalize_instances ids now_ms); _ ← wake_scheduler; mret ids) w.
Proof.
  intros Ha Hlen Hrest. apply goes_bind. eapply safe_reads; [done|by apply reads_count_committed|].
  intros w1 n Hk Ha1 Hc. rewrite fst_zip in Hc by lia. destruct Hc as (Hn & Hpr & Hab). case_decide as Hz.
  - apply safe_abandon; [done|done|by apply Hab|]. intros m w2 Ha2. unfold fails_if, bail_if. case_decide; by apply safe_done.
  - unfold fails_if, bail_if. case_decide as Hall; [by apply safe_done|]. apply safe_done; [done|]. intros w2 Hk2 Ha2 a _.
    apply Hrest; [done|]. eapply all_present_kept; [exact Hk2|]. apply Hpr. rewrite length_fmap. lia.
Qed.

Lemma fine_create_batch owner definition_id batch qs w :
  agree w →
  (∀ id, id ∈ cr_instance <$> qs → w.(store).(progress) !! id = None) →
  fine (create_batch admission limits owner definition_id batch qs now_ms) w.
Proof.
  intros Ha Hfresh. unfold create_batch. apply goes_fails_if; [done|]. intros _. apply goes_lift; [done|]. intros inputs Hin.
  apply length_prepared in Hin. apply goes_fails_if; [done|]. intros _.
  apply goes_read_sch; [apply check_capacity_pure|done|]. intros w1 u Hk1 Ha1 _. apply goes_lift; [done|]. intros _ _.
  apply goes_try_ctl; [apply reserve_atomic|done| |].
  2: { intros w2 e _ Ha2 _. eapply (goes_reads _ (λ _ _, False)); [|done].
       case_decide; [|by apply reads_done]. destruct qs as [|q [|]]; [by apply reads_done| |by apply reads_done].
       eapply reads_bind; [by apply reads_conflict|]. intros w3 c _ Ha3 _. by apply reads_done. }
  intros w2 c rows Hk2 Ha2 Hr. assert (Hk : kept w w2) by (by etrans). pose proof Hk as [_ [Er Ei] (_ & Ep & _) _].
  assert (Hfresh2 : ∀ id, id ∈ rq_instance <$> (reservation_request <$> qs) → w2.(store).(progress) !! id = None).
  { intros id. rewrite <-list_fmap_compose, Ep. apply Hfresh. }
  destruct (agree_reserve _ _ _ _ _ _ _ _ _ Ha2 Hfresh2 Hr) as (Ha3 & Hins & Hlen). rewrite length_fmap in Hlen.
  assert (Hrest : ∀ w', agree w' → all_present (instance_id <$> (rv_identity <$> rows)) w' →
     fine (_ ← ctl (finalize_instances (rv_identity <$> rows) now_ms); _ ← wake_scheduler; mret (rv_identity <$> rows)) w').
  { intros w' Ha' Hp. apply goes_finalize; [done|done|]. intros w4 Ha4. apply goes_then; [by apply fine_wake|].
    intros w5 _ Ha5. by apply fine_done. }
  apply goes_try_sch; [apply atomic_transaction|done| |].
  - intros w4 s u4 Hk4 Ha4 Hs. apply (kept_insertable _ _ _ _ Hk4) in Hins.
    assert (Eids : ((λ p : WorkflowInstanceIdentity * (ustr * WorkflowRetention), (p.1, p.2.1, Some p.2.2)) <$>
                     zip (rv_identity <$> rows) inputs).*1.*1 = rv_identity <$> rows).
    { rewrite <-!list_fmap_compose. change (fst <$> zip (rv_identity <$> rows) inputs = rv_identity <$> rows).
      apply fst_zip. rewrite length_fmap. lia. }
    rewrite <-Eids in Hins. destruct (agree_insert _ _ _ _ _ _ Ha4 Hins Hs) as [Ha5 Hp]. rewrite Eids in Hp.
    apply Hrest; [done|]. intros id (i & -> & Hi)%list_elem_of_fmap. by apply Hp.
  - intros w4 e Hk4 Ha4 _. apply fine_settle_creation; [done| |done]. rewrite length_fmap. lia.
Qed.

Lemma fine_create owner definition_id operation q w :
  agree w → w.(store).(progress) !! q.(cr_instance) = None →
  fine (create admission limits owner definition_id operation q now_ms) w.
Proof.
  intros Ha Hfresh. unfold create. apply goes_then.
  - apply fine_create_batch; [done|]. by intros id ->%list_elem_of_singleton.
  - intros w' ids Ha'. by apply fine_done.
Qed.

(** ** Claims *)

Lemma goes_defer {A} Q id (k : unit → Saga A) w :
  agree w → (∀ w', agree w' → goes Q (k ()) w') → goes Q (sch (defer_workflow id now_ms limits) ≫= k) w.
Proof.
  intros Ha Hk. apply (goes_executor _ (CallDefer id now_ms limits)); [done|by split|exact (exec_atomic (CallDefer id now_ms limits))|done|done|].
  intros w' [] _ Ha'. by apply Hk.
Qed.
Lemma goes_recover {A} Q limit (k : Z → Saga A) w :
  agree w → (∀ w' n, agree w' → goes Q (k n) w') → goes Q (sch (recover_workflows now_ms limits limit) ≫= k) w.
Proof.
  intros Ha Hk. apply (goes_executor _ (CallRecover now_ms limits limit)); [done|by split|apply atomic_transaction| |done|].
  - intros s. cbn [exec]. by rewrite ignore_fst.
  - intros w' n _ Ha'. by apply Hk.
Qed.
Lemma goes_maintain {A} Q limit (k : Z → Saga A) w :
  agree w → (∀ w' n, agree w' → goes Q (k n) w') → goes Q (sch (maintain_workflow_due now_ms limits limit) ≫= k) w.
Proof.
  intros Ha Hk. apply (goes_executor _ (CallMaintain now_ms limits limit)); [done|done|apply atomic_transaction| |done|].
  - intros s. cbn [exec]. by rewrite ignore_fst.
  - intros w' n _ Ha'. by apply Hk.
Qed.
Lemma goes_retire {A} Q limit (k : Z → Saga A) w :
  agree w → (∀ w' n, agree w' → goes Q (k n) w') → goes Q (ctl (retire_unused_versions limit now_ms) ≫= k) w.
Proof.
  intros Ha Hk. apply (goes_catalog _ 0%N now_ms (RetireUnusedVersions limit)); [done| | |done|].
  - apply atomic_of, (control_call_atomic 0%N now_ms (RetireUnusedVersions limit)).
  - intros db. cbn [control_call]. by rewrite void_fst.
  - intros w' n _ Ha'. by apply Hk.
Qed.

Lemma referrers_intact_pure i : pure (instance_referrers_intact i).
Proof. apply pure_gets. Qed.

(** A run is of a published instance under its exact identity, with its artifacts pinned
    and no operation prepared. *)
Definition granted (run : ClaimedWorkflowRun) (w : World) : Prop :=
  ∃ v, read_reservation w.(control) run.(c_fence).(f_instance_id) = Some v ∧ v.(rv_state) = Live ∧
    w.(control).(intents) !! run.(c_fence).(f_instance_id) = None ∧ referrers_intact w.(control) v.(rv_identity) ∧
    v.(rv_identity).(instance_generation) = run.(c_fence).(f_instance_generation) ∧
    v.(rv_identity).(target) = run.(c_target) ∧ v.(rv_identity).(external_instance_id) = run.(c_external_instance_id) ∧
    v.(rv_identity).(created_at_ms) = run.(c_created_at_ms) ∧ v.(rv_identity).(schedule) = run.(c_schedule).

Lemma claimed_run i rng s s' run :
  claim_workflow i rng now_ms limits s = (s', Ok (Some run)) →
  run.(c_fence).(f_instance_id) = i.(instance_id) ∧ run.(c_fence).(f_instance_generation) = i.(instance_generation) ∧
  run.(c_target) = i.(target) ∧ run.(c_external_instance_id) = i.(external_instance_id) ∧
  run.(c_created_at_ms) = i.(created_at_ms) ∧ run.(c_schedule) = i.(schedule).
Proof.
  unfold claim_workflow. intros Hr. run_inv.
  match type of Hr with (match ?o with _ => _ end) _ = _ => destruct o as [x|] end; run_inv; [|done]. by simplify_eq.
Qed.

Lemma granted_run w v rng s s' run :
  agree w → read_reservation w.(control) v.(rv_identity).(instance_id) = Some v → v.(rv_state) = Live →
  w.(control).(intents) !! v.(rv_identity).(instance_id) = None →
  claim_workflow v.(rv_identity) rng now_ms limits s = (s', Ok (Some run)) → granted run w.
Proof.
  intros Ha Hv Hl Hno (E1 & E2 & E3 & E4 & E5 & E6)%claimed_run. exists v. rewrite E1. split_and!; try done.
  destruct (read_reservation_Some _ _ _ Hv) as (r & _ & _ & Hrow & _ & _ & Hrr & _).
  destruct (reservation_row_ok _ _ _ (ag_control _ Ha) Hrow) as (v' & Hv' & _ & _ & Hint & _). congruence.
Qed.

Lemma goes_claim_loop rng ids w :
  agree w → goes (λ o w', ∀ run, o = Some run → granted run w') (claim_loop limits rng now_ms ids) w.
Proof.
  revert w. induction ids as [|id ids IH]; intros w Ha; cbn [claim_loop]; [by apply goes_done; [|intros ? ? ? ? [= <-]]|].
  apply goes_read_sch; [apply workflow_instance_pure|done|]. intros w1 o _ Ha1 Ho. apply goes_present; [done|]. intros i ->.
  apply goes_read_ctl; [apply reservation_pure|done|]. intros w2 o _ Ha2 Hv. apply goes_present; [done|]. intros v ->.
  unfold reservation, gets in Hv. injection Hv as Hv.
  apply goes_read_ctl; [apply instance_operation_pure|done|]. intros w3 o Hk3 Ha3 Hop.
  apply (kept_reservation _ _ _ _ Hk3) in Hv. case_decide as Hno; [by apply IH|].
  assert (Hop3 : w3.(control).(intents) !! id = None) by (destruct o; [by destruct Hno|by apply read_operation_run in Hop as [_ Hop]]).
  apply goes_fails_if; [done|]. intros Hid%dec_stable. case_decide as Hcr.
  { apply goes_defer; [done|]. intros w4 Ha4. by apply IH. }
  eapply (goes_reads _ (λ b w', read_reservation w'.(control) id = Some v ∧ (b = true → v.(rv_state) = Live))).
  { case_decide as Hlive; [|by apply reads_done; [|intros ? ? Hkx _ [= <-]; split; [by eapply kept_reservation|]]].
    apply safe_ctl; [done|]. intros w4 c r Hk4 Ha4 Hr. unfold instance_referrers_intact, gets in Hr. injection Hr as <- <-.
    rewrite set_control_id. apply safe_done; [done|]. intros w5 Hk5 Ha5. split_and!; [by etrans|done|]. intros a _.
    split; [|done]. eapply kept_reservation; [exact Hk5|by eapply kept_reservation]. }
  intros w4 intact Hk4 Ha4 [Hv4 Hlive]. apply goes_fails_if; [done|]. intros Hint. specialize (Hlive (not_false_is_true _ Hint)).
  apply goes_read_ctl; [apply definition_pure|done|]. intros w5 d Hk5 Ha5 _. case_decide.
  { apply goes_defer; [done|]. intros w6 Ha6. by apply IH. }
  apply (kept_reservation _ _ _ _ Hk5) in Hv4.
  apply goes_try_sch; [|done| |].
  { intros s s' e Hr. by rewrite <-(verify_history_pure id s), Hr. }
  - intros w6 s u Hk6 Ha6 Hr. assert (s = w6.(store)) as -> by (by rewrite <-(verify_history_pure id w6.(store)), Hr).
    rewrite set_store_id. apply (kept_reservation _ _ _ _ Hk6) in Hv4.
    apply goes_sch; [apply atomic_transaction|done|]. intros w7 s7 run Hk7 Ha7 Hc. apply (kept_reservation _ _ _ _ Hk7) in Hv4.
    destruct (read_reservation_Some _ _ _ Hv4) as (r & _ & _ & Hrow & _ & _ & _ & Est & Eid & _).
    assert (Ha8 : agree (set_store s7 w7)).
    { eapply agree_claim; [done|exact Hnow|exact Hlimits| |exact Hc]. rewrite <-Hid, Eid, Hrow. cbn. by rewrite <-Est. }
    destruct run as [run|]; [|by apply IH]. apply goes_done; [done|]. intros w9 a Hk9 Ha9 [= <-] run' [= <-].
    assert (Hk : kept w3 w7) by (etrans; [exact Hk4|etrans; [exact Hk5|by etrans]]). rewrite <-(kept_intent _ _ id Hk) in Hop3.
    rewrite <-Hid in Hc. eapply granted_run; [done| |done| |exact Hc]; rewrite Eid.
    + by eapply (kept_reservation (set_store s7 w7)).
    + by rewrite (kept_intent (set_store s7 w7)).
  - intros w6 e _ Ha6 _. case_decide; [by apply goes_fails|by apply goes_corrupt].
Qed.

Lemma due_workflows_pure limit streak : pure (due_workflows now_ms limit streak).
Proof.
  unfold due_workflows. apply pure_bind; [apply pure_lift|]. intros ?. apply pure_bind; [apply pure_gets|]. intros ids.
  case_decide; [apply pure_ret|]. auto with tx nocore.
Qed.

Lemma goes_claim rng w :
  agree w → goes (λ o w', ∀ run, o = Some run → granted run w') (claim admission limits rng now_ms) w.
Proof.
  intros Ha. unfold claim. apply goes_lift; [done|]. intros _ _. apply goes_recover; [done|]. intros w1 n1 Ha1.
  apply goes_maintain; [done|]. intros w2 n2 Ha2. apply goes_recall; [done|]. intros w3 m _ Ha3.
  apply goes_read_sch; [apply due_workflows_pure|done|]. intros w4 p _ Ha4 _. apply goes_remember; [done|].
  intros w5 m5 _ Ha5 Ha6. by apply goes_claim_loop.
Qed.

(** ** Reconciliation *)

Definition op_ids (ops : list WorkflowOperation) : list N := (λ op, op.(op_identity).(instance_id)) <$> ops.

Lemma goes_finish_all {A} Q ops (k : unit → Saga A) w :
  agree w → NoDup (op_ids ops) → Forall (pending w.(control)) ops → (∀ w', agree w' → goes Q (k ()) w') →
  goes Q (finish_all limits now_ms ops ≫= k) w.
Proof.
  intros Ha Hnd Hp Hk. apply goes_then; [|intros w' [] Ha'; by apply Hk]. clear Hk. revert w Ha Hp.
  induction ops as [|op ops IH]; intros w Ha Hp; cbn [finish_all]; [by apply fine_done|].
  apply Forall_cons in Hp as [Hp Hps]. unfold op_ids in Hnd. rewrite fmap_cons in Hnd. apply NoDup_cons in Hnd as [Hni Hnd]. apply goes_finish; [done|done|].
  intros r w' Ha' Hap. apply IH; [done|done|]. rewrite Forall_forall in Hps |- *. intros op' Hin.
  eapply apart_pending; [exact Hap| |by apply Hps]. intros E. apply Hni. rewrite <-E. by apply (list_elem_of_fmap_2 (λ op, instance_id (op_identity op))).
Qed.

Lemma operations_loop ids c c' ops :
  for_each (λ id, o ← read_operation id; some_or o violation) ids c = (c', Ok ops) →
  c' = c ∧ op_ids ops = ids ∧ Forall (pending c) ops.
Proof.
  revert ops. induction ids as [|id ids IH]; intros ops Hr; [by apply ret_run in Hr as [-> ->]|].
  apply for_each_cons_run in Hr as (s1 & y & ys & Hi & Hl & ->). run_inv. subst.
  match goal with Hx : read_operation _ _ = _ |- _ => pose proof (operation_pending _ _ _ _ Hx) as [Hp Hid]; apply read_operation_run in Hx as [-> _] end.
  apply IH in Hl as (-> & <- & Hps). split_and!; [done| |by constructor]. cbn. by rewrite Hid.
Qed.
(** A page of rows with distinct keys. *)
Lemma page_NoDup {A B} (f : A → B) (P : A → Prop) `{!∀ x, Decision (P x)} g n l :
  NoDup (f <$> l) → NoDup (f <$> take n (order_by g (filter P l))).
Proof.
  intros Hnd. eapply sublist_NoDup; [|apply fmap_sublist, sublist_take]. rewrite order_by_Permutation.
  eapply sublist_NoDup; [exact Hnd|]. apply fmap_sublist, sublist_filter.
Qed.

Lemma operations_pending after limit c c' ops :
  instance_operations after limit c = (c', Ok ops) → NoDup (op_ids ops) ∧ Forall (pending c) ops.
Proof.
  unfold instance_operations. intros Hr. run_inv. subst. apply operations_loop in Hr as (_ & E & Hp). split; [|done].
  rewrite E. apply page_NoDup, NoDup_fst_map_to_list.
Qed.
Lemma pure_for_each {S E A B} (f : A → M S E B) l : (∀ x, pure (f x)) → pure (for_each f l).
Proof.
  intros Hf. induction l as [|x l IH]; cbn [for_each]; [apply pure_ret|]. apply pure_bind; [done|]. intros y.
  apply pure_bind; [done|]. intros ys. apply pure_ret.
Qed.
Lemma operations_pure after limit : pure (instance_operations after limit).
Proof.
  unfold instance_operations. apply pure_bind; [apply pure_throw_if|]. intros ?. apply pure_bind; [apply pure_gets|]. intros ids.
  apply pure_for_each. intros id. apply pure_bind; [apply instance_operation_pure|]. intros o. apply pure_some_or.
Qed.

Lemma goes_sweep_all {A} Q receipts (k : unit → Saga A) w :
  agree w → (∀ w', agree w' → goes Q (k ()) w') → goes Q (sweep_all receipts ≫= k) w.
Proof.
  intros Ha Hk. apply goes_then; [|intros w' [] Ha'; by apply Hk]. clear Hk. revert w Ha.
  induction receipts as [|[[id g] n] receipts IH]; intros w Ha; cbn [sweep_all]; [by apply fine_done|].
  apply goes_try_ctl; [|done| |].
  { unfold acknowledge_workflow_gc. auto with tx. }
  - intros w1 c u _ Ha1 Hr. unfold acknowledge_workflow_gc in Hr. run_inv. subst. bools. rewrite set_control_id.
    apply goes_sch; [apply atomic_transaction|done|]. intros w2 s [] Hk2 Ha2 Hs. apply IH.
    eapply agree_sweep; [done| |exact Hs]. rewrite (kept_row w1) by done. unfold remains in *.
    destruct (referrers _ !! id) as [r|] eqn:Hrow; [|done]. exfalso. naive_solver.
  - intros w1 e _ Ha1 _. case_decide; [by apply IH|by apply fine_done].
Qed.

Lemma gc_receipts_pure after limit : pure (workflow_gc_receipts after limit).
Proof.
  unfold workflow_gc_receipts. apply pure_bind; [apply pure_lift|]. intros ?. apply pure_bind; [apply pure_gets|]. intros ids.
  apply pure_for_each. intros id. apply pure_bind; [apply read_receipt_pure|]. intros o. auto with tx.
Qed.

Lemma goes_reconcile_operations {A} Q limit (k : unit → Saga A) w :
  agree w → (∀ w', agree w' → goes Q (k ()) w') → goes Q (reconcile_operations limits limit now_ms ≫= k) w.
Proof.
  intros Ha Hk. apply goes_then; [|intros w' [] Ha'; by apply Hk]. unfold reconcile_operations.
  apply goes_recall; [done|]. intros w1 m _ Ha1. apply goes_read_ctl; [apply operations_pure|done|]. intros w2 ops _ Ha2 Ho.
  apply operations_pending in Ho as [Hnd Hp]. apply goes_finish_all; [done|done|done|]. intros w3 Ha3.
  apply goes_remember; [done|]. intros w4 m4 _ _ Ha4. apply goes_recall; [done|]. intros w5 m5 _ Ha5.
  apply goes_read_sch; [apply gc_receipts_pure|done|]. intros w6 receipts _ Ha6 _. apply goes_sweep_all; [done|].
  intros w7 Ha7. apply safe_mem; [done|]. intros w8 _ Ha8. apply fine_done. by apply agree_memory.
Qed.

(** A repair finds nothing to restore. *)
Lemma reads_repair {A} (R : A → World → Prop) i (k : unit → Saga A) w :
  agree w → (∀ w', kept w w' → agree w' → reads R (k ()) w') → reads R (ctl (repair_instance_referrers i) ≫= k) w.
Proof.
  intros Ha Hk. apply safe_ctl; [done|]. intros w' c r Hkp Ha' Hr. assert (c = w'.(control)) as ->.
  { destruct r as [u|e]; [eapply repair_instance_referrers_id; [apply Ha'|exact Hr]|exact (atomic_transaction _ _ _ _ Hr)]. }
  rewrite set_control_id. eapply reads_from; [done|]. destruct r as [[]|e]; [by apply Hk|by apply reads_done].
Qed.
Lemma goes_repair {A} Q i (k : unit → Saga A) w :
  agree w → (∀ w', agree w' → goes Q (k ()) w') → goes Q (ctl (repair_instance_referrers i) ≫= k) w.
Proof.
  intros Ha Hk. apply goes_ctl; [apply atomic_transaction|done|]. intros w' c [] Hkp Ha' Hr.
  rewrite (repair_instance_referrers_id _ _ _ _ (co_tables _ (ag_control _ Ha')) Hr), set_control_id. by apply Hk.
Qed.
Lemma reads_repair_all ids w : agree w → reads (λ _ _, True) (repair_all ids) w.
Proof.
  revert w. induction ids as [|i ids IH]; intros w Ha; cbn [repair_all]; [by apply reads_done|].
  apply reads_repair; [done|]. intros w' _ Ha'. by apply IH.
Qed.

Lemma creation_batch_pure batch : pure (creation_batch_reservations batch).
Proof. unfold creation_batch_reservations. auto with tx nocore. Qed.

Lemma fine_reconcile_creation_batch batch w : agree w → fine (reconcile_creation_batch limits batch now_ms) w.
Proof.
  intros Ha. unfold reconcile_creation_batch. apply goes_read_ctl; [apply creation_batch_pure|done|]. intros w1 rows _ Ha1 _.
  apply goes_fails_if; [done|]. intros _. eapply goes_reads; [by apply reads_count_queued|]. intros w2 n _ Ha2 (Hn & Hpr & Hab).
  case_decide as Hall.
  - eapply goes_reads; [by apply reads_repair_all|]. intros w3 u Hk3 Ha3 _. apply fine_finalize_last; [done|].
    eapply all_present_kept; [exact Hk3|]. apply Hpr. by rewrite length_fmap.
  - apply goes_fails_if; [done|]. intros Hz%dec_stable. apply goes_present; [done|]. intros old _. apply goes_present; [done|].
    intros grace _. case_decide; [|by apply fine_done]. apply safe_abandon; [done|done|by apply Hab|].
    intros m w3 Ha3. unfold fails_if, bail_if. case_decide; by apply fine_done.
Qed.

Lemma goes_reconcile_reservations {A} Q recovered rows (k : unit → Saga A) w :
  agree w → (∀ w', agree w' → goes Q (k ()) w') → goes Q (reconcile_reservations limits now_ms recovered rows ≫= k) w.
Proof.
  intros Ha Hk. apply goes_then; [|intros w' [] Ha'; by apply Hk]. clear Hk. revert recovered w Ha.
  induction rows as [|v rows IH]; intros recovered w Ha; cbn [reconcile_reservations]; [by apply fine_done|].
  apply goes_read_ctl; [apply instance_operation_pure|done|]. intros w1 o _ Ha1 _. case_decide; [by apply IH|].
  case_decide.
  { case_decide; [by apply IH|]. apply goes_then; [by apply fine_reconcile_creation_batch|]. intros w2 [] Ha2. by apply IH. }
  apply goes_read_sch; [apply workflow_instance_pure|done|]. intros w2 q _ Ha2 Hq. destruct q as [i|]; [|by apply goes_corrupt].
  case_decide as Hid; [by apply goes_corrupt|]. destruct (is_terminal (state i)) eqn:Ht.
  - apply goes_retain; [done| |intros w3 Ha3 _; by apply IH]. apply select_all in Hq as [_ Hq].
    destruct (workflows _ !! _) as [x|] eqn:Hx; [|done]. destruct Hq as [_ [= ->]]. by exists x.
  - case_decide; [by apply goes_corrupt|]. apply goes_repair; [done|]. intros w3 Ha3. by apply IH.
Qed.

Lemma goes_reconcile_instances {A} Q ids (k : unit → Saga A) w :
  agree w → (∀ w', agree w' → goes Q (k ()) w') → goes Q (reconcile_instances now_ms ids ≫= k) w.
Proof.
  intros Ha Hk. apply goes_then; [|intros w' [] Ha'; by apply Hk]. clear Hk. revert w Ha.
  induction ids as [|id ids IH]; intros w Ha; cbn [reconcile_instances]; [by apply fine_done|].
  apply goes_read_ctl; [apply instance_operation_pure|done|]. intros w1 o _ Ha1 _. case_decide; [by apply IH|].
  apply goes_read_sch; [apply workflow_instance_pure|done|]. intros w2 q _ Ha2 _. apply goes_present; [done|]. intros i _.
  apply goes_read_ctl; [apply reservation_pure|done|]. intros w3 v _ Ha3 _. case_decide; [by apply goes_corrupt|].
  apply goes_try_sch; [|done| |].
  { intros s s' e Hr. by rewrite <-(verify_history_pure id s), Hr. }
  - intros w4 s u _ Ha4 Hr. assert (s = w4.(store)) as -> by (by rewrite <-(verify_history_pure id w4.(store)), Hr).
    rewrite set_store_id. by apply IH.
  - intros w4 e _ Ha4 _. case_decide; [by apply fine_done|by apply goes_corrupt].
Qed.

(** ** Expired instances *)

Lemma expired_over limit s s' ids :
  all_ok s → expired_workflows now_ms limit s = (s', Ok ids) →
  s' = s ∧ NoDup (instance_id <$> ids) ∧ Forall (λ i, placed s i over) ids.
Proof.
  intros Hall Hr. unfold expired_workflows in Hr. run_inv. subst. split; [done|].
  assert (Hrows : (λ i, instance_id (identity i)) <$> instance_rows s = (map_to_list (workflows s)).*1).
  { unfold instance_rows. rewrite <-list_fmap_compose. apply list_fmap_ext. intros n [id x] Hx.
    apply list_elem_of_lookup_2, elem_of_map_to_list in Hx. by destruct (Hall _ _ Hx) as [_ ?]. }
  split.
  - rewrite <-list_fmap_compose. apply page_NoDup. unfold compose. rewrite Hrows. apply NoDup_fst_map_to_list.
  - rewrite Forall_fmap, Forall_forall. intros i Hi%elem_of_take. apply elem_of_order_by, list_elem_of_filter in Hi as [[Ht _] Hi].
    unfold instance_rows in Hi. apply list_elem_of_fmap in Hi as ([id x] & -> & Hx%elem_of_map_to_list).
    destruct (Hall _ _ Hx) as [_ Hid]. cbn in *. exists x. by rewrite Hid.
Qed.
Lemma expired_pure limit : pure (expired_workflows now_ms limit).
Proof. unfold expired_workflows. auto with tx nocore. Qed.

Definition overs (s : WorkflowDb) (ids : list WorkflowInstanceIdentity) : Prop := Forall (λ i, placed s i over) ids.
Lemma overs_kept w w' ids : kept w w' → overs w.(store) ids → overs w'.(store) ids.
Proof. intros Hk Ho. eapply Forall_impl; [exact Ho|]. intros i. by apply kept_over. Qed.
Lemma overs_apart id w w' ids :
  apart id w w' → id ∉ instance_id <$> ids → overs w.(store) ids → overs w'.(store) ids.
Proof.
  unfold overs. rewrite !Forall_forall. intros Hap Hni Ho i Hi. eapply apart_over; [exact Hap| |auto]. intros E. apply Hni.
  rewrite <-E. by apply list_elem_of_fmap_2.
Qed.

(** One expired instance: retained, its purge prepared and finished. *)
Lemma goes_collect_one {A} Q fresh i ids (k : Saga A) (retain : bool) w :
  agree w → placed w.(store) i over → instance_id i ∉ instance_id <$> ids → overs w.(store) ids →
  (∀ w', agree w' → overs w'.(store) ids → goes Q k w') →
  goes Q (_ ← (if retain then ctl (retain_instance i now_ms) else mret ());
        op ← ctl (prepare_instance_operation i (fresh i.(instance_id)) Purge limits now_ms);
        _ ← finish_operation limits op now_ms; k) w.
Proof.
  intros Ha Hi Hni Hov Hk.
  assert (Hlast : ∀ w, agree w → overs w.(store) ids →
    goes Q (op ← ctl (prepare_instance_operation i (fresh i.(instance_id)) Purge limits now_ms);
          _ ← finish_operation limits op now_ms; k) w).
  { intros w1 Ha1 Hov1. apply goes_prepare; [done|]. intros w2 op Ha2 Hp Eop (w3 & Hk3 & Es).
    apply (overs_kept _ _ _ Hk3) in Hov1. rewrite <-Es in Hov1.
    apply goes_finish; [done|done|]. intros r w4 Ha4 Hap. apply Hk; [done|]. eapply overs_apart; [exact Hap|by rewrite Eop|done]. }
  destruct retain; [|by apply Hlast]. apply goes_retain; [done|done|]. intros w1 Ha1 (w2 & Hk2 & Es). apply Hlast; [done|].
  rewrite Es. by eapply overs_kept.
Qed.

Lemma fine_collect_loop fresh ids w :
  agree w → NoDup (instance_id <$> ids) → overs w.(store) ids → fine (collect_loop limits fresh now_ms ids) w.
Proof.
  revert w. induction ids as [|i ids IH]; intros w Ha Hnd Hov; cbn [collect_loop]; [by apply fine_done|].
  apply Forall_cons in Hov as [Hi Hov]. rewrite fmap_cons in Hnd. apply NoDup_cons in Hnd as [Hni Hnd].
  apply goes_read_ctl; [apply instance_operation_pure|done|]. intros w1 o Hk1 Ha1 _.
  apply (overs_kept _ _ _ Hk1) in Hov. apply (kept_over _ _ _ Hk1) in Hi. case_decide; [by apply IH|].
  apply goes_read_ctl; [apply reservation_pure|done|]. intros w2 q Hk2 Ha2 _.
  apply (overs_kept _ _ _ Hk2) in Hov. apply (kept_over _ _ _ Hk2) in Hi.
  apply goes_present; [done|]. intros v _. case_decide; [by apply goes_corrupt|].
  case_decide; [apply (goes_collect_one _ fresh i ids _ true)|apply (goes_collect_one _ fresh i ids _ false)]; try done; intros w3 Ha3 Hov3;
    by apply IH.
Qed.

Lemma goes_collect_expired {A} Q fresh limit (k : unit → Saga A) w :
  agree w → (∀ w', agree w' → goes Q (k ()) w') → goes Q (collect_expired limits fresh limit now_ms ≫= k) w.
Proof.
  intros Ha Hk. apply goes_then; [|intros w' [] Ha'; by apply Hk]. unfold collect_expired.
  apply goes_read_sch; [apply expired_pure|done|]. intros w1 ids _ Ha1 Hr.
  apply expired_over in Hr as (_ & Hnd & Hov); [|apply Ha1]. by apply fine_collect_loop.
Qed.

Lemma live_reservations_pure after limit : pure (live_reservations after limit).
Proof. unfold live_reservations. auto with tx nocore. Qed.
Lemma instance_ids_pure after limit : pure (workflow_instance_ids after limit).
Proof. unfold workflow_instance_ids. auto with tx nocore. Qed.

Lemma fine_reconcile fresh limit w : agree w → fine (reconcile limits fresh limit now_ms) w.
Proof.
  intros Ha. unfold reconcile. apply goes_reconcile_operations; [done|]. intros w1 Ha1.
  apply goes_recall; [done|]. intros w2 m _ Ha2.
  apply goes_read_ctl; [apply live_reservations_pure|done|]. intros w3 rows _ Ha3 _.
  apply goes_reconcile_reservations; [done|]. intros w4 Ha4. apply goes_remember; [done|]. intros w5 m5 _ _ Ha5.
  apply goes_recall; [done|]. intros w6 m6 _ Ha6.
  apply goes_read_sch; [apply instance_ids_pure|done|]. intros w7 ids _ Ha7 _.
  apply goes_reconcile_instances; [done|]. intros w8 Ha8. apply goes_remember; [done|]. intros w9 m9 _ _ Ha9.
  apply goes_recover; [done|]. intros w10 n10 Ha10. apply goes_maintain; [done|]. intros w11 n11 Ha11.
  apply goes_collect_expired; [done|]. intros w12 Ha12. apply goes_retire; [done|]. intros w13 n13 Ha13. by apply fine_wake.
Qed.
End calls.

(** ** Reachable worlds of the workflow controller

    The catalog and the scheduler store as an instance of the platform leaves them: executors
    and catalog calls at any time, and the calls of the controller one after another, each
    stopped at any of its transactions. *)

Inductive ControllerCall : Type :=
| Status (owner definition id : N)
| Create (owner definition batch : N) (qs : list CreateRequest)
| Claim (rng : N → option WorkflowToken)
| SendEvent (owner definition id operation : N) (event_type payload : ustr)
| Modify (owner definition id : N) (action : WorkflowInstanceAction)
| Rollback (owner definition id : N)
| RestartInstance (owner definition id operation : N) (from : option WorkflowRestartSelector)
| DeleteInstance (owner definition id operation : N)
| Reconcile (fresh : N → N) (limit : Z).

Section reach.
Context `{Codec, CronParser}.

Definition drop {A} (p : Saga A) : Saga unit := _ ← p; mret ().

Definition controller_call (admission : Z → result PlatformError unit) (limits : WorkflowsConfig) (now_ms : Z)
    (c : ControllerCall) : Saga unit :=
  match c with
  | Status owner definition id => drop (status owner definition id now_ms)
  | Create owner definition batch qs => drop (create_batch admission limits owner definition batch qs now_ms)
  | Claim rng => drop (claim admission limits rng now_ms)
  | SendEvent owner definition id operation event_type payload =>
      send_event admission limits owner definition id operation event_type payload now_ms
  | Modify owner definition id action => modify_instance admission limits owner definition id action now_ms
  | Rollback owner definition id => rollback_instance admission limits owner definition id now_ms
  | RestartInstance owner definition id operation from => restart admission limits owner definition id operation from now_ms
  | DeleteInstance owner definition id operation => delete admission limits owner definition id operation now_ms
  | Reconcile fresh limit => reconcile limits fresh limit now_ms
  end.

(** The identities a creation draws for its instances are new to the scheduler. *)
Definition allowed (c : ControllerCall) (w : World) : Prop :=
  match c with
  | Create _ _ _ qs => ∀ id, id ∈ cr_instance <$> qs → w.(store).(progress) !! id = None
  | _ => True
  end.

Lemma controller_fine admission limits now_ms c w :
  limits_unsigned limits → clock now_ms → agree w → allowed c w → fine (controller_call admission limits now_ms c) w.
Proof.
  intros Hl Hn Ha Hok.
  assert (Hdrop : ∀ A (p : Saga A), fine p w → fine (drop p) w).
  { intros A p Hp. apply goes_then; [done|]. intros w' a Ha'. by apply fine_done. }
  destruct c; cbn [controller_call]; try apply Hdrop;
    auto using fine_status, fine_send_event, fine_modify_instance, fine_rollback_instance, fine_restart, fine_delete, fine_reconcile.
  - by apply fine_create_batch.
  - eapply safe_mono; [|by apply (goes_claim limits now_ms admission Hl Hn rng)]. done.
Qed.

Inductive world_step (w : World) : World → Prop :=
| step_beside w' : beside w w' → world_step w w'
| step_call admission limits now_ms c p w' :
    limits_unsigned limits → clock now_ms → allowed c w →
    rtc interleaved (controller_call admission limits now_ms c, w) (p, w') → world_step w w'
| step_forget m : world_step w (set_memory m w).

Definition new_world (instance : N) : World := {|
  control := empty_control instance; store := empty_store instance;
  memory := {| claim_cursor := 0;
    reconcile_cursor := {| cur_control := None; cur_scheduler := None; cur_operation := None; cur_gc_receipt := None |} |} |}.

Definition world_reachable (instance : N) (w : World) : Prop := rtc world_step (new_world instance) w.

Lemma new_world_agree instance : agree (new_world instance).
Proof.
  split; cbn; try done.
  apply (control_reachable_ok instance), rtc_refl.
Qed.

Lemma step_agree w w' : agree w → world_step w w' → agree w'.
Proof.
  intros Ha [w2 Hb|admission limits now_ms c p w2 Hl Hn Hok Hr|m]; [by eapply beside_agree| |by apply agree_memory].
  eapply safe_agree, safe_interleaved; [|exact Hr]. by apply controller_fine.
Qed.
Lemma world_reachable_agree instance w : world_reachable instance w → agree w.
Proof. intros Hr. pose proof (new_world_agree instance) as Ha. induction Hr; eauto using step_agree. Qed.
End reach.
