(* ===== verification/WorkflowWorldLive.v ===== *)
(** * What reconciliation always achieves

    Uninterrupted, the calls that repair a stopped saga return: an operation the scheduler has
    decided is completed, and a batch whose creation stopped is published or abandoned as a
    whole.  What ends them early: a revived instance, and the cancelled step of a rollback. *)

From stdpp Require Import base numbers list option strings sorting gmap.
From S2P Require Import Prelude Text ErrorCodes Duration RetryPolicy WorkflowTypes Sql WorkflowDb WorkflowRuns WorkflowSteps WorkflowBatch WorkflowHistory WorkflowLifecycle WorkflowOperations WorkflowVerify WorkflowStmt WorkflowEvolve WorkflowMoves WorkflowReach WorkflowProps WorkflowFrame WorkflowControl WorkflowCatalog WorkflowBindings WorkflowReservations WorkflowIntents WorkflowControlInv WorkflowControlMoves WorkflowControlOps WorkflowControlInstances WorkflowControlReach WorkflowControlTheorems WorkflowController WorkflowWorld WorkflowWorldMoves WorkflowWorldBatch WorkflowWorldOps WorkflowWorldCalls.

Local Open Scope Z_scope.

Section live.
Context `{Codec, CronParser}.

(** ** Runs *)

Lemma run_bind {A B} (p : Saga A) (k : A → Saga B) w :
  run_saga (p ≫= k) w = (let '(w', r) := run_saga p w in match r with Ok a => run_saga (k a) w' | Err e => (w', Err e) end).
Proof.
  revert w. induction p as [[a|e]|? m f IH|? m f IH|g f IH]; intros w; cbn; [done|done|..].
  - destruct (m (control w)) as [c r]. apply IH.
  - destruct (m (store w)) as [s r]. apply IH.
  - apply IH.
Qed.
Lemma run_ctl {A B} (m : CM B) (k : B → Saga A) w c a :
  m w.(control) = (c, Ok a) → run_saga (ctl m ≫= k) w = run_saga (k a) (set_control c w).
Proof. intros Hm. cbn. by rewrite Hm. Qed.
Lemma run_sch {A B} (m : WM B) (k : B → Saga A) w s a :
  m w.(store) = (s, Ok a) → run_saga (sch m ≫= k) w = run_saga (k a) (set_store s w).
Proof. intros Hm. cbn. by rewrite Hm. Qed.
Lemma run_fails_if {A} (P : Prop) `{!Decision P} e (k : unit → Saga A) w :
  ¬ P → run_saga (fails_if P e ≫= k) w = run_saga (k ()) w.
Proof. intros Hn. unfold fails_if, bail_if. by rewrite decide_False. Qed.

Lemma run_interleaved {A} (p : Saga A) w w' r : run_saga p w = (w', r) → rtc interleaved (p, w) (Done r, w').
Proof.
  revert w. induction p as [r0|? m f IH|? m f IH|g f IH]; intros w Hr; cbn in Hr; [by simplify_eq|..].
  - destruct (m (control w)) as [c r1] eqn:E. eapply rtc_l; [|by eapply IH]. apply il_saga. cbn. by rewrite E.
  - destruct (m (store w)) as [c r1] eqn:E. eapply rtc_l; [|by eapply IH]. apply il_saga. cbn. by rewrite E.
  - eapply rtc_l; [|by eapply IH]. by apply il_saga.
Qed.

(** ** A decided operation *)

Lemma pending_operation c op : control_ok c → pending c op →
  read_operation op.(op_identity).(instance_id) c = (c, Ok (Some op)).
Proof.
  intros Hok Hp. destruct Hp as (v & o & Hv & Ho & E) eqn:Ep. clear Ep.
  destruct (read_operation_ok c _ o Hok Ho) as [op' Hop]. pose proof Hop as Hr.
  apply read_operation_run in Hr as (_ & o' & v' & r & Ho' & Hv' & _ & _ & ->). rewrite Hop. congruence.
Qed.

Lemma finish_decided w op d limits now_ms :
  agree w → pending w.(control) op → decided w.(store) op d →
  WorkflowsConfig_validate limits = Ok () → is_ok (durable_deadline now_ms 0) = true →
  ∃ c, run_saga (finish_operation limits op now_ms) w =
    (set_control c w, Ok (match d with Applied _ => None | Rejected _ code => Some code end)) ∧
    c.(intents) !! op.(op_identity).(instance_id) = None.
Proof.
  intros Ha Hp Hd Hl Hn. pose proof (ag_control _ Ha) as Hok. pose proof (pending_operation _ _ Hok Hp) as Hop.
  pose proof (decided_proof _ _ _ Hd) as Hproof. destruct Hp as (v & o & Hv & Ho & E).
  unfold finish_operation. erewrite run_sch; [|by apply apply_replay]. rewrite set_store_id.
  remember op.(op_identity).(instance_id) as id eqn:Eid. rewrite E in Hop.
  destruct d as [p|p code]; subst p.
  - destruct (complete_operation_total _ id o v now_ms Hok Ho Hv Hop) as (c & Hc & _ & _ & Hi & _). rewrite <-E in Hc.
    exists c. erewrite run_ctl; [|exact Hc]. done.
  - destruct (cancel_operation_total _ id o v now_ms Hok Ho Hv Hop) as (c & r & Hc & _ & Hi & _). rewrite <-E in Hc.
    exists c. erewrite run_ctl; [|exact Hc]. done.
Qed.

(** What is recorded of a prepared operation is a decision, unless its instance was revived. *)
Lemma pending_recorded w op p :
  agree w → pending w.(control) op → w.(store).(progress) !! op.(op_identity).(instance_id) = Some p →
  p.(p_sequence) = op.(op_sequence) → (∃ d, decided w.(store) op d) ∨ revived w.(store) op.
Proof.
  intros Ha (v & o & Hv & Ho & E) Hp Hs. pose proof (ag_linked _ Ha op.(op_identity).(instance_id)) as Hl.
  rewrite (linked_pending _ _ op v o) in Hl by (apply Ha || done). rewrite E in Hp, Hs |- *. cbn in Hp, Hs.
  destruct Hl as [[Hb _]|[(d & Hd & _)|Hr]]; [|by left; exists d|by right].
  unfold behind in Hb. rewrite Hp in Hb. cbn in Hb. lia.
Qed.
Lemma finish_revived w op limits now_ms :
  revived w.(store) op → ∃ e, run_saga (finish_operation limits op now_ms) w = (w, Err e).
Proof.
  intros Hv. unfold finish_operation. cbn. destruct (apply_workflow_operation op now_ms limits w.(store)) as [s [d|e]] eqn:E.
  - by destruct (apply_unread _ _ _ _ _ _ Hv E).
  - exists e. apply atomic_transaction in E as ->. by rewrite set_store_id.
Qed.

(** *** A revived instance *)

(** The purge of a revived instance is prepared, and stays so. *)
Definition stuck (w : World) (op : WorkflowOperation) : Prop := pending w.(control) op ∧ revived w.(store) op.

Lemma revived_local s s' op : same_at op.(op_identity).(instance_id) s s' → revived s op → revived s' op.
Proof.
  intros Hs (Hk & Hp & Hr). split; [done|]. split; [by eapply placed_local|]. destruct Hs as (_ & Ep & _). by rewrite Ep.
Qed.
Lemma stuck_control w c id op :
  stuck w op → op.(op_identity).(instance_id) ≠ id → extends w.(control) c → only id w.(control) c → stuck (set_control c w) op.
Proof.
  intros [Hp Hr] Hne He On. split; [|done]. eapply (apart_pending id w (set_control c w)); [by apply control_apart|done|done].
Qed.

Lemma finish_other w op op' limits now_ms :
  stuck w op → op.(op_identity).(instance_id) ≠ op'.(op_identity).(instance_id) →
  let w' := (run_saga (finish_operation limits op' now_ms) w).1 in stuck w' op ∧ w'.(memory) = w.(memory).
Proof.
  intros [Hp Hr] Hne. unfold finish_operation. cbn.
  destruct (apply_workflow_operation op' now_ms limits w.(store)) as [s [d|e]] eqn:E; cbn.
  2: { apply atomic_transaction in E as ->. by rewrite set_store_id. }
  assert (Hs : stuck (set_store s w) op).
  { destruct (apply_effect _ _ _ _ _ _ E) as (_ & Hat & _). split; [done|]. eapply revived_local; [by apply Hat|done]. }
  pose proof (apply_decided _ _ _ _ _ _ E) as Hd. destruct d as [p|p code]; pose proof (decided_proof _ _ _ Hd) as ->; cbn.
  - pose proof (control_call_extends 0%N now_ms (CompleteOperation op') w.(control)) as He. cbn [control_call] in He.
    destruct (complete_instance_operation op' now_ms w.(control)) as [c [u|e]] eqn:Ec; cbn.
    + split; [|done]. by eapply (stuck_control (set_store s w)); [| |exact He|eapply complete_only].
    + apply atomic_transaction in Ec as ->. by split.
  - pose proof (control_call_extends 0%N now_ms (CancelOperation op') w.(control)) as He. cbn [control_call] in He.
    destruct (cancel_instance_operation op' now_ms w.(control)) as [c [u|e]] eqn:Ec; cbn.
    + split; [|done]. by eapply (stuck_control (set_store s w)); [| |exact He|eapply cancel_only].
    + apply atomic_transaction in Ec as ->. by split.
Qed.

Lemma finish_all_stuck w op ops limits now_ms :
  stuck w op → op ∈ ops → NoDup (op_ids ops) →
  ∃ w' e, run_saga (finish_all limits now_ms ops) w = (w', Err e) ∧ stuck w' op ∧ w'.(memory) = w.(memory).
Proof.
  revert w. induction ops as [|op' ops IH]; intros w Hs Hin Hnd; [by apply not_elem_of_nil in Hin|].
  unfold op_ids in Hnd. rewrite fmap_cons in Hnd. apply NoDup_cons in Hnd as [Hni Hnd]. cbn [finish_all]. rewrite run_bind.
  apply elem_of_cons in Hin as [<-|Hin].
  { destruct (finish_revived w op limits now_ms (proj2 Hs)) as [e ->]. by exists w, e. }
  assert (Hne : op.(op_identity).(instance_id) ≠ op'.(op_identity).(instance_id)).
  { intros E. apply Hni. rewrite <-E. by apply (list_elem_of_fmap_2 (λ op, instance_id (op_identity op))). }
  destruct (finish_other w op op' limits now_ms Hs Hne) as [Hs' Hm].
  destruct (run_saga (finish_operation limits op' now_ms) w) as [w1 [c|e]]; cbn in Hs', Hm; [|by exists w1, e].
  destruct (IH w1 Hs' Hin Hnd) as (w2 & e & Hr & Hs2 & Hm2). exists w2, e. split_and!; [done|done|congruence].
Qed.

Lemma reconcile_stuck w op ops limits fresh limit now_ms :
  stuck w op → instance_operations w.(memory).(reconcile_cursor).(cur_operation) limit w.(control) = (w.(control), Ok ops) → op ∈ ops →
  ∃ w' e, run_saga (reconcile limits fresh limit now_ms) w = (w', Err e) ∧ stuck w' op ∧ w'.(memory) = w.(memory).
Proof.
  intros Hs Hops Hin. destruct (operations_pending _ _ _ _ _ Hops) as [Hnd _].
  destruct (finish_all_stuck w op ops limits now_ms Hs Hin Hnd) as (w' & e & Hr & Hs' & Hm). exists w', e. split; [|done].
  unfold reconcile. rewrite run_bind. unfold reconcile_operations. rewrite run_bind.
  replace (run_saga recall w) with (w, Ok (E := PlatformError) w.(memory)) by (by destruct w).
  erewrite run_ctl by exact Hops. rewrite set_control_id, run_bind, Hr. done.
Qed.

(** ** The reservations of a batch *)

Lemma omap_keys {A B K} (f : A → option B) (g : A → K) (h : B → K) (l : list A) :
  (∀ x, x ∈ l → ∃ y, f x = Some y ∧ h y = g x) → h <$> omap f l = g <$> l.
Proof.
  induction l as [|x l IH]; intros Hf; cbn; [done|]. destruct (Hf x) as (y & -> & E); [by left|]. cbn. f_equal; [done|].
  apply IH. intros z Hz. apply Hf. by right.
Qed.

Lemma batch_reservations db b :
  control_ok db →
  let rows := reservations_where db (λ x, x.2.(rf_batch) = b) in
  length rows = batch_count db b ∧ NoDup (instance_id <$> (rv_identity <$> rows)) ∧
  (∀ v, v ∈ rows → reserved db v.(rv_identity) ∧ v.(rv_identity).(creation_batch_id) = b) ∧
  (∀ id r, db.(referrers) !! id = Some r → r.(rf_batch) = b → id ∈ instance_id <$> (rv_identity <$> rows)).
Proof.
  intros Hok rows. set (l := order_by (λ x : N * ReferrerRow, [Z.of_N x.1]) (filter (λ x, x.2.(rf_batch) = b) (map_to_list db.(referrers)))).
  assert (Hl : ∀ x, x ∈ l ↔ db.(referrers) !! x.1 = Some x.2 ∧ x.2.(rf_batch) = b).
  { intros [id r]. unfold l. rewrite elem_of_order_by, list_elem_of_filter, elem_of_map_to_list. tauto. }
  assert (Hkeys : (λ v, v.(rv_identity).(instance_id)) <$> rows = l.*1).
  { apply omap_keys. intros [id r] [Hr _]%Hl. cbn in Hr. destruct (proj1 (reservation_iff db id Hok)) as [v Hv]; [eauto|].
    exists v. split; [|by destruct (read_reservation_Some _ _ _ Hv) as (_ & _ & _ & _ & _ & _ & _ & _ & ? & _)].
    unfold read_reservation in Hv. by rewrite Hr in Hv. }
  assert (Hkeys' : instance_id <$> (rv_identity <$> rows) = l.*1) by (by rewrite <-list_fmap_compose).
  split_and!.
  - apply (f_equal length) in Hkeys. rewrite !length_fmap in Hkeys. rewrite Hkeys. unfold l, batch_count. by rewrite order_by_Permutation.
  - rewrite Hkeys'. unfold l. rewrite order_by_Permutation. eapply sublist_NoDup; [|apply fmap_sublist, sublist_filter].
    apply NoDup_fst_map_to_list.
  - intros v Hv. assert (Hr : reserved db v.(rv_identity)) by (exists v; split; [by eapply where_reserved|done]). split; [done|].
    destruct (reserved_row _ _ Hr) as (r & Hrow & <-). assert (Hin : v.(rv_identity).(instance_id) ∈ l.*1).
    { rewrite <-Hkeys. by apply (list_elem_of_fmap_2 (λ v, instance_id (rv_identity v))). }
    apply list_elem_of_fmap in Hin as ([id r'] & E & [Hr' Hb]%Hl). cbn in *. congruence.
  - intros id r Hr Hb. rewrite Hkeys'. apply list_elem_of_fmap. exists (id, r). split; [done|]. by apply Hl.
Qed.

(** ** Publication and abandonment always succeed *)

(** A member of a batch whose creation is not finished. *)
Definition creating (db : ControlDb) (i : WorkflowInstanceIdentity) : Prop :=
  ∃ r, db.(referrers) !! i.(instance_id) = Some r ∧ r.(rf_state) = Creating ∧ r.(rf_nonce) = i.(creation_nonce) ∧
    r.(rf_creation_operation) = i.(creation_operation_id) ∧ referrer_check r ∧ db.(intents) !! i.(instance_id) = None.

Lemma reserved_creating db i r :
  control_ok db → reserved db i → db.(referrers) !! i.(instance_id) = Some r → r.(rf_state) = Creating → creating db i.
Proof.
  intros Hok Hres Hr Hs. exists r. split_and!; try done.
  - destruct Hres as (v & Hv & <-). destruct (read_reservation_Some _ _ _ Hv) as (r' & _ & _ & Hr' & _ & _ & _ & _ & _ & _ & E & _). congruence.
  - destruct (reserved_operation _ _ Hres) as (r' & Hr' & E). congruence.
  - apply (rk_check _ _ _ (k_referrer db (co_tables _ Hok) _ _ Hr)).
  - apply (no_intent _ _ r); [apply Hok|done|auto].
Qed.

Lemma finalize_fires ids now_ms db :
  NoDup (instance_id <$> ids) → (∀ i, i ∈ ids → creating db i) →
  ∃ db' us, for_each (λ i, changed ← update_referrer StateColumn i.(instance_id)
      (λ r, r.(rf_nonce) = i.(creation_nonce) ∧ r.(rf_state) = Creating) (set_ref_state Live now_ms);
    throw_if (changed = false) violation) ids db = (db', Ok us).
Proof.
  revert db. induction ids as [|i ids IH]; intros db Hnd Hc; [by exists db, []|].
  rewrite fmap_cons in Hnd. apply NoDup_cons in Hnd as [Hni Hnd]. destruct (Hc i) as (r & Hr & Hs & Hn & _ & Hck & Hno); [by left|].
  set (db1 := after_referrer db i.(instance_id) (set_ref_state Live now_ms r)).
  assert (Hup : update_referrer StateColumn i.(instance_id) (λ r, r.(rf_nonce) = i.(creation_nonce) ∧ r.(rf_state) = Creating)
    (set_ref_state Live now_ms) db = (db1, Ok true)).
  { apply update_referrer_fires; [done|done|by rewrite Hs| |].
    - destruct Hck as (C1 & C2 & C3 & C4 & C5). split_and!; try done. cbn. rewrite Hs in C3. split; [done|]. by intros ?%C3.
    - change (referrer_moves db i.(instance_id) r (set_ref_state Live now_ms r)). unfold referrer_moves. by rewrite Hs. }
  destruct (after_referrer_frame db i.(instance_id) (set_ref_state Live now_ms r)) as (_ & Er & Ei).
  destruct (IH db1) as (db' & us & Hl); [done| |].
  { intros j Hj. destruct (Hc j) as (r' & Hr' & Hrest); [by right|]. exists r'. unfold db1. rewrite Er, Ei, lookup_insert_ne; [done|].
    intros E. apply Hni. rewrite E. by apply list_elem_of_fmap_2. }
  exists db', (() :: us). apply for_each_cons_run. exists db1, (), us. split_and!; [|done|done].
  apply bind_run. exists db1, true. split; [done|]. by apply throw_if_run.
Qed.

Lemma read_batch_total ids b db :
  control_ok db → ids ≠ [] → batch_count db b = length ids →
  (∀ i, i ∈ ids → reserved db i ∧ i.(creation_batch_id) = b ∧ creating db i) →
  ∃ states, read_batch ids db = (db, Ok states) ∧ Forall (λ s, s = Creating) states ∧ states ≠ [].
Proof.
  intros Hok Hne Hn Hall. destruct ids as [|i0 ids0]; [done|]. set (ids := i0 :: ids0) in *.
  assert (Hloop : ∀ l, (∀ i, i ∈ l → reserved db i ∧ creating db i) → ∃ states,
    for_each (λ i, _ ← verify_identity i; o ← gets (λ db, db.(referrers) !! i.(instance_id)); r ← some_or o violation; mret r.(rf_state)) l db
      = (db, Ok states) ∧ Forall (λ s, s = Creating) states ∧ length states = length l).
  { intros l. induction l as [|i l IH]; intros Hl; [by exists []|]. destruct IH as (states & Hs & Hf & Hlen); [intros j Hj; apply Hl; by right|].
    destruct (Hl i) as [(v & Hv & Ei) (r & Hr & Hst & _)]; [by left|]. exists (Creating :: states).
    split_and!; [|by constructor|cbn; lia]. apply for_each_cons_run. exists db, Creating, states. split_and!; [|done|done].
    destruct (read_reservation_Some _ _ _ Hv) as (r2 & v2 & d2 & Hr' & _ & _ & Hrr & _).
    destruct (reservation_row_ok _ _ _ Hok Hr) as (v' & Hv' & Hfr & _). assert (v' = v) as -> by congruence.
    unfold verify_identity. run_simpl. rewrite Hv. cbn. rewrite Ei in Hfr |- *.
    rewrite decide_False by (intros [?|?]; done). cbn. rewrite Hr. cbn. by rewrite Hst. }
  destruct (Hloop ids) as (states & Hs & Hf & Hlen); [intros i Hi; split; by apply Hall|].
  exists states. split_and!; [|done|by destruct states]. unfold read_batch. apply bind_run. exists db, i0.
  split; [by apply some_or_run|]. apply bind_run. exists db, (). split.
  { apply throw_if_run. split; [done|]. rewrite Exists_exists. intros (i & Hi & Hne'). apply Hne'.
    destruct (Hall i Hi) as (_ & -> & _). destruct (Hall i0) as (_ & -> & _); [by left|done]. }
  apply bind_run. eexists db, _. split; [by apply gets_run|]. apply bind_run. exists db, (). split; [|exact Hs].
  apply throw_if_run. split; [done|]. destruct (Hall i0) as (_ & -> & _); [by left|]. lia.
Qed.

(** A whole batch under creation. *)
Record whole (db : ControlDb) (b : N) (ids : list WorkflowInstanceIdentity) : Prop := {
  wh_some : ids ≠ [];
  wh_bound : (length ids ≤ 100)%nat;
  wh_count : batch_count db b = length ids;
  wh_distinct : NoDup (instance_id <$> ids);
  wh_members : ∀ i, i ∈ ids → reserved db i ∧ i.(creation_batch_id) = b ∧ creating db i;
}.

Lemma finalize_total db b ids now_ms :
  control_ok db → whole db b ids → ∃ db', finalize_instances ids now_ms db = (db', Ok ()).
Proof.
  intros Hok [Hne Hlen Hn Hnd Hall]. destruct (read_batch_total ids b db Hok Hne Hn Hall) as (states & Hs & Hf & Hsne).
  destruct (finalize_fires ids now_ms db Hnd) as (db' & us & Hl); [intros i Hi; by apply Hall|].
  exists db'. unfold finalize_instances. apply bind_run. exists db, (). split; [apply throw_if_run; split; [done|]; intros [?|?]; [done|lia]|].
  apply transaction_run. apply bind_run. exists db, states. split; [done|].
  rewrite decide_False.
  - apply bind_run. exists db, (). split; [apply throw_if_run; split; [done|auto]|]. apply bind_run. by exists db', us.
  - destruct states as [|x states]; [done|]. intros Hx%Forall_inv. apply Forall_inv in Hf. congruence.
Qed.

Lemma delete_creating_fires i db :
  creating db i →
  ∃ db', delete_referrer i.(instance_id) (λ r, r.(rf_nonce) = i.(creation_nonce) ∧
      r.(rf_creation_operation) = i.(creation_operation_id) ∧ r.(rf_state) = Creating) db = (db', Ok true) ∧
    db'.(referrers) = base.delete i.(instance_id) db.(referrers) ∧ db'.(intents) = base.delete i.(instance_id) db.(intents).
Proof.
  intros (r & Hr & Hs & Hn & Ho & _ & Hno). unfold delete_referrer, drop_instance_refs, ensure. run_simpl.
  rewrite Hr, decide_True by done. rewrite decide_True by (by left). cbn. rewrite Hno. cbn. rewrite decide_True by done.
  rewrite decide_True; [by eexists|]. cbn. by rewrite lookup_delete_eq.
Qed.

Lemma abandon_fires ids db :
  NoDup (instance_id <$> ids) → (∀ i, i ∈ ids → creating db i) →
  ∃ db' us, for_each (λ i, delete_referrer i.(instance_id)
      (λ r, r.(rf_nonce) = i.(creation_nonce) ∧ r.(rf_creation_operation) = i.(creation_operation_id) ∧ r.(rf_state) = Creating)) ids db
    = (db', Ok us) ∧ Forall (λ b : bool, b = true) us ∧ ∀ i, i ∈ ids → db'.(referrers) !! i.(instance_id) = None.
Proof.
  revert db. induction ids as [|i ids IH]; intros db Hnd Hc; [exists db, []; split_and!; [done|done|by intros i ?%not_elem_of_nil]|].
  rewrite fmap_cons in Hnd. apply NoDup_cons in Hnd as [Hni Hnd].
  destruct (delete_creating_fires i db) as (db1 & Hdel & Er & Ei); [apply Hc; by left|].
  destruct (IH db1) as (db' & us & Hl & Hus & Hgone); [done| |].
  { intros j Hj. destruct (Hc j) as (r & Hr & ? & ? & ? & ? & ?); [by right|].
    assert (instance_id i ≠ instance_id j) by (intros E; apply Hni; rewrite E; by apply list_elem_of_fmap_2).
    exists r. by rewrite Er, Ei, !lookup_delete_ne by done. }
  exists db', (true :: us). split_and!; [|by constructor|].
  - apply for_each_cons_run. by exists db1, true, us.
  - intros j [->|Hj]%elem_of_cons; [|by apply Hgone]. destruct (abandon_loop _ _ _ _ Hl) as [Hout _].
    destruct (Hout (instance_id i)) as [-> _]; [done|]. by rewrite Er, lookup_delete_eq.
Qed.

Lemma abandon_total db b ids :
  control_ok db → whole db b ids →
  ∃ db', abandon_creations ids db = (db', Ok (length ids)) ∧ ∀ i, i ∈ ids → db'.(referrers) !! i.(instance_id) = None.
Proof.
  intros Hok [Hne Hlen Hn Hnd Hall]. destruct (read_batch_total ids b db Hok Hne Hn Hall) as (states & Hs & Hf & Hsne).
  destruct (abandon_fires ids db Hnd) as (db' & us & Hl & Hus & Hgone); [intros i Hi; by apply Hall|].
  exists db'. split; [|done]. unfold abandon_creations. apply bind_run. exists db, ().
  split; [apply throw_if_run; split; [done|]; intros [?|?]; [done|lia]|].
  apply transaction_run. apply bind_run. exists db, states. split; [done|].
  rewrite decide_False.
  - apply bind_run. exists db, (). split; [apply throw_if_run; split; [done|auto]|]. apply bind_run. exists db', us. split; [done|].
    apply ret_run. split; [done|]. rewrite <-(for_each_length _ _ _ _ _ Hl). f_equal. clear -Hus. symmetry.
    induction Hus as [|x us -> Hus IH]; [done|]. rewrite filter_cons_True by done. by rewrite IH.
  - destruct states as [|x states]; [done|]. intros Hx%Forall_inv. apply Forall_inv in Hf. congruence.
Qed.

(** ** A stopped creation *)

Lemma run_read {A B} (m : WM B) (k : B → Saga A) w a :
  m w.(store) = (w.(store), Ok a) → run_saga (sch m ≫= k) w = run_saga (k a) w.
Proof. intros Hm. erewrite run_sch by exact Hm. by rewrite set_store_id. Qed.

Lemma count_present rows w :
  (∀ v, v ∈ rows → ∃ x, w.(store).(workflows) !! v.(rv_identity).(instance_id) = Some x ∧ readable x.(row) ∧
     x.(row).(identity) = v.(rv_identity) ∧ x.(row).(state) = WQueued) →
  run_saga (count_queued rows) w = (w, Ok (length rows)).
Proof.
  induction rows as [|v rows IH]; intros Hall; [done|]. cbn [count_queued].
  destruct (Hall v) as (x & Hx & Hrd & Hid & Hst); [by left|].
  rewrite (run_read _ _ _ (Some x.(row))) by (apply select_all; by rewrite Hx).
  rewrite run_fails_if by (intros [?|?]; congruence). rewrite run_bind, IH; [done|]. intros v' Hv'. apply Hall. by right.
Qed.
Lemma count_absent rows w :
  (∀ v, v ∈ rows → w.(store).(workflows) !! v.(rv_identity).(instance_id) = None) → run_saga (count_queued rows) w = (w, Ok 0%nat).
Proof.
  induction rows as [|v rows IH]; intros Hall; [done|]. cbn [count_queued].
  rewrite (run_read _ _ _ None) by (apply select_all; split; [done|]; rewrite Hall; [done|by left]).
  apply IH. intros v' Hv'. apply Hall. by right.
Qed.

Lemma run_repair_all ids w :
  agree w → (∀ i, i ∈ ids → reserved w.(control) i ∧ creating w.(control) i) → run_saga (repair_all ids) w = (w, Ok ()).
Proof.
  intros Ha. induction ids as [|i ids IH]; intros Hall; [done|]. cbn [repair_all].
  destruct (Hall i) as [(v & Hv & Ei) (r & Hr & Hs & _)]; [by left|].
  assert (∃ c, repair_instance_referrers i w.(control) = (c, Ok ())) as [c Hc].
  { destruct (read_reservation_Some _ _ _ Hv) as (r2 & v2 & d2 & Hr' & _ & _ & _ & Est & _).
    unfold repair_instance_referrers. eexists. apply transaction_run. run_simpl. rewrite Hv. cbn.
    rewrite decide_False; [done|]. intros [?|Hn]; [done|]. apply Hn. left. congruence. }
  erewrite run_ctl by exact Hc. rewrite (repair_instance_referrers_id _ _ _ _ (co_tables _ (ag_control _ Ha)) Hc), set_control_id.
  apply IH. intros j Hj. apply Hall. by right.
Qed.

Lemma oldest_le ids i : i ∈ ids → ∃ o, oldest ids = Some o ∧ o ≤ i.(created_at_ms).
Proof.
  destruct ids as [|i0 ids]; intros Hi; [by apply not_elem_of_nil in Hi|]. eexists. split; [done|].
  assert (Hf : ∀ l a, foldl Z.min a l ≤ a ∧ ∀ x, x ∈ l → foldl Z.min a l ≤ x).
  { induction l as [|y l IH]; intros a; cbn; [split; [lia|by intros x ?%not_elem_of_nil]|]. destruct (IH (Z.min a y)) as [H1 H2].
    split; [lia|]. intros x [->|Hx]%elem_of_cons; [lia|by apply H2]. }
  destruct (Hf (created_at_ms <$> ids) i0.(created_at_ms)) as [H1 H2].
  apply elem_of_cons in Hi as [->|Hi]; [done|]. apply H2. by apply list_elem_of_fmap_2.
Qed.

(** The members of the batch of a row that is being created. *)
Lemma batch_whole w id r :
  agree w → w.(control).(referrers) !! id = Some r → r.(rf_state) = Creating →
  (batch_count w.(control) r.(rf_batch) ≤ 100)%nat →
  let rows := reservations_where w.(control) (λ x, x.2.(rf_batch) = r.(rf_batch)) in
  whole w.(control) r.(rf_batch) (rv_identity <$> rows) ∧ creation_batch_reservations r.(rf_batch) w.(control) = (w.(control), Ok rows) ∧
  ∀ id' r', w.(control).(referrers) !! id' = Some r' → r'.(rf_batch) = r.(rf_batch) → id' ∈ instance_id <$> (rv_identity <$> rows).
Proof.
  intros Ha Hr Hs Hn rows. destruct (batch_reservations w.(control) r.(rf_batch) (ag_control _ Ha)) as (Hlen & Hnd & Hm & Hcov).
  fold rows in Hlen, Hnd, Hm, Hcov. split_and!; [| |exact Hcov].
  - split; [|rewrite length_fmap; lia|by rewrite length_fmap|done|].
    + intros E. specialize (Hcov _ _ Hr eq_refl). rewrite E in Hcov. by apply not_elem_of_nil in Hcov.
    + intros i (v & -> & Hv)%list_elem_of_fmap. destruct (Hm v Hv) as [Hres Hb]. split_and!; [done|done|].
      destruct (reserved_row _ _ Hres) as (r' & Hr' & Hb'). eapply reserved_creating; [apply Ha|done|exact Hr'|].
      destruct (ag_batches _ Ha id (instance_id (rv_identity v)) r r') as [? _]; try done. congruence.
  - unfold creation_batch_reservations. run_simpl. fold rows. rewrite take_ge by lia. by rewrite decide_False by lia.
Qed.

Lemma idle_readable w id r v :
  agree w → w.(control).(referrers) !! id = Some r → r.(rf_state) = Creating → read_reservation w.(control) id = Some v →
  ∀ x, w.(store).(workflows) !! id = Some x → readable x.(row) ∧ x.(row).(identity) = v.(rv_identity) ∧ x.(row).(state) = WQueued.
Proof.
  intros Ha Hr Hs Hv x Hx. assert (Hno : w.(control).(intents) !! id = None) by (apply (no_intent _ id r); [apply Ha|done|auto]).
  pose proof (ag_linked _ Ha id) as Hl. rewrite (linked_plain _ _ _ r v) in Hl by done. destruct Hl as [_ Hl]. rewrite Hs in Hl.
  destruct (read_reservation_Some _ _ _ Hv) as (_ & _ & _ & _ & _ & _ & _ & _ & Hid & _). rewrite Hid in Hl.
  destruct (Hl x Hx) as [E [Hq _]]. split_and!; [|done|done]. eapply store_readable; [apply Ha|done].
Qed.

Lemma whole_exact db b (rows : list WorkflowReservation) :
  whole db b (rv_identity <$> rows) → ¬ (rows = [] ∨ Exists (λ v, v.(rv_identity).(creation_batch_id) ≠ b) rows).
Proof.
  intros Hw [E|(v & Hv & Hne)%Exists_exists]; [by apply (wh_some _ _ _ Hw); rewrite E|]. apply Hne.
  apply (wh_members _ _ _ Hw). by apply list_elem_of_fmap_2.
Qed.

Lemma reconcile_present w id r limits now_ms :
  agree w → w.(control).(referrers) !! id = Some r → r.(rf_state) = Creating →
  (batch_count w.(control) r.(rf_batch) ≤ 100)%nat → is_Some (w.(store).(workflows) !! id) →
  ∃ c, run_saga (reconcile_creation_batch limits r.(rf_batch) now_ms) w = (set_control c w, Ok ()) ∧
    ∀ id' r', w.(control).(referrers) !! id' = Some r' → r'.(rf_batch) = r.(rf_batch) →
      c.(referrers) !! id' = Some (set_ref_state Live now_ms r') ∧ is_Some (w.(store).(workflows) !! id').
Proof.
  intros Ha Hr Hs Hn Hin. destruct (batch_whole w id r Ha Hr Hs Hn) as (Hw & Hrows & Hcov).
  set (rows := reservations_where _ _) in *. pose proof (ag_control _ Ha) as Hok.
  assert (Hall : ∀ id' r', w.(control).(referrers) !! id' = Some r' → r'.(rf_batch) = r.(rf_batch) →
    r'.(rf_state) = Creating ∧ is_Some (w.(store).(workflows) !! id')).
  { intros id' r' Hr' Hb. destruct (ag_batches _ Ha id id' r r') as [? Hx]; try done. auto. }
  destruct (finalize_total _ _ _ now_ms Hok Hw) as [c Hc]. exists c. split.
  - unfold reconcile_creation_batch. erewrite run_ctl by exact Hrows. rewrite set_control_id.
    rewrite run_fails_if by (by eapply whole_exact).
    rewrite run_bind, count_present.
    + rewrite decide_True by (by rewrite length_fmap). rewrite run_bind, run_repair_all; [|done|].
      * cbn. by rewrite Hc.
      * intros i Hi. destruct (wh_members _ _ _ Hw i Hi) as (? & _ & ?). done.
    + intros v Hv. destruct (wh_members _ _ _ Hw v.(rv_identity)) as ((v' & Hv' & E) & Hb & _); [by apply list_elem_of_fmap_2|].
      destruct (reserved_row w.(control) v.(rv_identity)) as (r' & Hr' & Hb'); [by exists v'|].
      destruct (Hall _ _ Hr') as [Hs' [x Hx]]; [congruence|]. exists x. split; [done|]. rewrite <-E. by eapply idle_readable.
  - intros id' r' Hr' Hb. split; [|by destruct (Hall _ _ Hr' Hb)].
    destruct (finalize_effect _ _ _ _ _ Hc) as [_ [[-> Hlive]|(_ & _ & _ & Hat)]].
    + exfalso. destruct (rv_identity <$> rows) as [|i0 l] eqn:El; [by apply (wh_some _ _ _ Hw)|].
      destruct (wh_members _ _ _ Hw i0) as (_ & _ & (r0 & Hr0 & Hs0 & _)); [by left|].
      destruct (Hlive i0) as (r1 & Hr1 & Hs1); [by left|]. congruence.
    + rewrite Hat, decide_True by (by eapply Hcov). by rewrite Hr'.
Qed.

Lemma reconcile_absent w id r limits now_ms grace :
  agree w → w.(control).(referrers) !! id = Some r → r.(rf_state) = Creating →
  (batch_count w.(control) r.(rf_batch) ≤ 100)%nat → w.(store).(workflows) !! id = None →
  i64_checked limits.(creation_grace_ms) = Some grace → grace ≤ i64_saturate (now_ms - r.(rf_created_at_ms)) →
  ∃ c, run_saga (reconcile_creation_batch limits r.(rf_batch) now_ms) w = (set_control c w, Ok ()) ∧
    ∀ id' r', w.(control).(referrers) !! id' = Some r' → r'.(rf_batch) = r.(rf_batch) →
      c.(referrers) !! id' = None ∧ w.(store).(workflows) !! id' = None.
Proof.
  intros Ha Hr Hs Hn Hno Hg Hage. destruct (batch_whole w id r Ha Hr Hs Hn) as (Hw & Hrows & Hcov).
  set (rows := reservations_where _ _) in *. pose proof (ag_control _ Ha) as Hok.
  assert (Hall : ∀ id' r', w.(control).(referrers) !! id' = Some r' → r'.(rf_batch) = r.(rf_batch) → w.(store).(workflows) !! id' = None).
  { intros id' r' Hr' Hb. destruct (ag_batches _ Ha id id' r r') as [Hs' _]; try done.
    destruct (ag_batches _ Ha id' id r' r) as [_ Hx]; try done. apply eq_None_not_Some. intros Hx'%Hx. rewrite Hno in Hx'. by destruct Hx'. }
  destruct (abandon_total _ _ _ Hok Hw) as (c & Hc & Hgone). exists c. split.
  - unfold reconcile_creation_batch. erewrite run_ctl by exact Hrows. rewrite set_control_id.
    rewrite run_fails_if by (by eapply whole_exact).
    rewrite run_bind, count_absent.
    + rewrite decide_False by (intros E; apply (wh_some _ _ _ Hw); by apply nil_length_inv).
      rewrite run_fails_if by (intros []; done).
      assert (Hin : id ∈ instance_id <$> (rv_identity <$> rows)) by (by eapply Hcov).
      apply list_elem_of_fmap in Hin as (i & -> & Hi). destruct (oldest_le _ i Hi) as (o & -> & Ho).
      assert (Ei : i.(created_at_ms) = r.(rf_created_at_ms)).
      { destruct (wh_members _ _ _ Hw i Hi) as ((v & Hv & Ev) & _ & _).
        destruct (read_reservation_Some _ _ _ Hv) as (r1 & ? & ? & Hr1 & _ & _ & _ & _ & _ & Ec & _). rewrite Ev in Ec. congruence. }
      cbn [present ok_or_else]. rewrite Hg, !run_bind. cbn [run_saga present ok_or_else]. rewrite run_bind. cbn [run_saga present ok_or_else].
      rewrite decide_True by (unfold i64_saturate in *; lia). rewrite run_bind. cbn [run_saga ctl]. rewrite Hc.
      unfold fails_if, bail_if. by rewrite decide_False by auto.
    + intros v Hv. destruct (wh_members _ _ _ Hw v.(rv_identity)) as (Hres & Hb & _); [by apply list_elem_of_fmap_2|].
      destruct (reserved_row _ _ Hres) as (r' & Hr' & Hb'). eapply Hall; [exact Hr'|congruence].
  - intros id' r' Hr' Hb. split; [|by eapply Hall]. assert (Hin : id' ∈ instance_id <$> (rv_identity <$> rows)) by (by eapply Hcov).
    apply list_elem_of_fmap in Hin as (i & -> & Hi). by apply Hgone.
Qed.
(** ** A cancelled step of a live instance *)

(** Not the error for which a claim is merely refused. *)
Definition conclusive {A} (r : result PlatformError A) : Prop :=
  match r with Ok _ => True | Err e => e.(code) ≠ WorkflowRuntimeUnavailable end.

Lemma conclusive_bind {A B} (m : result PlatformError A) (k : A → result PlatformError B) :
  conclusive m → (∀ a, conclusive (k a)) → conclusive (m ≫= k).
Proof. destruct m; cbn; auto. Qed.
Lemma conclusive_bail (P : Prop) `{!Decision P} e :
  e.(code) ≠ WorkflowRuntimeUnavailable → conclusive (bail_if P e).
Proof. unfold bail_if. by case_decide. Qed.
Lemma conclusive_some {A} (o : option A) : conclusive (ok_or_else o violation).
Proof. by destruct o. Qed.

Lemma conclusive_times l : conclusive (safe_times l).
Proof.
  induction l as [|[t|] l IH]; cbn; [done| |done]. apply conclusive_bind; [by apply conclusive_bail|auto].
Qed.

Local Ltac conclude :=
  repeat first
    [ done | apply conclusive_times | apply conclusive_some | apply conclusive_bail; done
    | match goal with |- conclusive (_ ≫= _) => apply conclusive_bind; [|intros ?] end
    | progress unfold fail_if, safe_time | case_match ].

Lemma conclusive_delay p a : conclusive (delay_after p a).
Proof. unfold delay_after, delay_after_resolved, WorkflowRetryPolicy_validate. conclude. Qed.
Lemma conclusive_step i x consumed : conclusive (verify_step i x consumed).
Proof.
  unfold verify_step, verify_wait, expected_due. repeat first [apply conclusive_delay | progress conclude].
Qed.
Lemma conclusive_scan i v l : conclusive (scan_steps i v l).
Proof.
  revert v. induction l as [|x l IH]; intros v; cbn; [done|]. apply conclusive_bind; [|auto]. unfold scan_step.
  repeat first [apply conclusive_step | progress conclude].
Qed.
Lemma conclusive_events i consumed n size previous l : conclusive (scan_events i consumed n size previous l).
Proof.
  revert n size previous. induction l as [|e l IH]; intros n size previous; cbn; [done|]. by conclude.
Qed.
Lemma conclusive_verify x : conclusive (verify_row x).
Proof.
  unfold verify_row, instance_row, version_digest, verify, verify_events, verify_instance.
  repeat first [apply conclusive_scan | apply conclusive_events | progress conclude].
Qed.

Lemma mark_unavailable_fires db def d now_ms :
  control_ok db → db.(definitions) !! def = Some d → d.(d_state) = DReady →
  ∃ db', mark_unavailable db.(instance_identity) def now_ms db = (db', Ok ()) ∧
    availability <$> db'.(definitions) !! def = Some Unavailable.
Proof.
  intros Hok Hd Hst. pose proof (k_definition db (co_tables db Hok) _ _ Hd) as Hdk.
  set (f := λ d : DefinitionRow, {| d with availability := Unavailable;
    availability_code := Some (lit "WORKFLOW_INVARIANT_VIOLATION"); d_updated_at_ms := now_ms |}).
  exists (set_definitions <[def := f d]> db). split; [|cbn; by rewrite lookup_insert_eq].
  unfold mark_unavailable, transaction, update_owned, update_definition, ensure. run_simpl.
  rewrite bool_decide_true by done. run_simpl. rewrite Hd. rewrite (decide_True (P := open_state _ = true)) by (by rewrite Hst).
  run_simpl. rewrite decide_True; [done|]. split_and!; [by rewrite Hst| |intros _|done].
  - destruct (dk_check _ _ _ Hdk) as (? & ? & ? & ? & _ & ? & ? & ?). unfold definition_check. cbn. split_and!; try done.
  - intros (id' & d' & Hd' & Hne & Ht & En). cbn in *. apply Hne.
    eapply (k_names db (co_tables db Hok)); [exact Hd'|exact Hd|done|by rewrite Hst|done].
Qed.

(** A claim that reaches a published instance which is not over and has a cancelled step
    fails and disables its definition. *)
Lemma cancelled_disables w id x v d limits rng ids now_ms :
  agree w → w.(store).(workflows) !! id = Some x → is_terminal x.(row).(state) = false →
  Exists (λ s, s.(s_state) = SCancelled) x.(steps) → read_reservation w.(control) id = Some v → v.(rv_state) = Live →
  w.(control).(intents) !! id = None → w.(control).(definitions) !! v.(rv_identity).(target).(definition_id) = Some d →
  d.(d_state) = DReady → d.(availability) = Healthy →
  ∃ c, run_saga (claim_loop limits rng now_ms (id :: ids)) w = (set_control c w, Err violation) ∧
    availability <$> c.(definitions) !! v.(rv_identity).(target).(definition_id) = Some Unavailable.
Proof.
  intros Ha Hx Hlive Hcan Hv Hst Hno Hd Hready Hhealthy. pose proof (ag_control _ Ha) as Hok.
  destruct (read_reservation_Some _ _ _ Hv) as (r & _ & _ & Hrow & _ & _ & Hrr & Est & Eid & _).
  pose proof (ag_linked _ Ha id) as Hl. rewrite (linked_plain _ _ _ r v) in Hl by done.
  destruct Hl as [_ Hl]. rewrite <-Est, Hst in Hl. destruct Hl as (x' & Hx' & Hid & _). rewrite Eid, Hx in Hx'. injection Hx' as <-.
  destruct (reservation_row_ok _ _ _ Hok Hrow) as (v' & Hv' & _ & _ & Hint & _). assert (v' = v) as -> by congruence.
  assert (Eo : v.(rv_identity).(target).(t_instance_id) = w.(control).(instance_identity)).
  { unfold reservation_row in Hrr. apply bind_Some in Hrr as (? & _ & Hrr). by apply bind_Some in Hrr as (? & _ & [= <-]). }
  assert (∃ e, verify_workflow_history id w.(store) = (w.(store), Err e) ∧ e.(code) ≠ WorkflowRuntimeUnavailable) as (e & Hver & He).
  { unfold verify_workflow_history. run_simpl. rewrite Hx. cbn. pose proof (conclusive_verify x) as Hc.
    destruct (verify_row x) as [[]|e] eqn:Ev; [|by exists e]. exfalso. destruct (ag_store _ Ha) as [Hall _].
    destruct (Hall _ _ Hx) as [Hw _]. apply verify_row_iff in Ev as [_ [_ Hc2]]; [|apply Hw..].
    specialize (Hc2 Hlive). rewrite Forall_forall in Hc2. apply Exists_exists in Hcan as (y & Hy & ?). by apply (Hc2 y Hy). }
  destruct (mark_unavailable_fires _ _ d now_ms Hok Hd Hready) as (c & Hc & Hav). exists c. split; [|done].
  cbn [claim_loop]. rewrite (run_read _ _ _ (Some x.(row))) by (apply select_all; rewrite Hx; split_and!; [done|by eapply store_readable; [apply Ha|]|done]).
  cbn [present ok_or_else mbind Saga_bind saga_bind].
  erewrite (run_ctl (reservation id)) by (unfold reservation, gets; by rewrite Hv). rewrite set_control_id.
  cbn [present ok_or_else mbind Saga_bind saga_bind].
  erewrite (run_ctl (instance_operation id)) by (unfold instance_operation, read_operation; run_simpl; by rewrite Hno). rewrite set_control_id.
  rewrite decide_False by (by intros []). rewrite run_fails_if by (intros Hne; congruence).
  rewrite decide_False by (by rewrite Hst). rewrite (decide_True (P := rv_state v = Live)) by done.
  erewrite (run_ctl (instance_referrers_intact _)) by (unfold instance_referrers_intact, gets; rewrite bool_decide_true; [done|by rewrite Hid]).
  rewrite set_control_id, run_fails_if by done.
  erewrite (run_ctl (definition _ _)); [|unfold definition, read_definition; run_simpl; rewrite Hid, decide_True by done; by rewrite Hd].
  rewrite set_control_id. cbn [wd_row definition_row]. rewrite decide_False by (intros [?|?]; congruence).
  cbn [try_sch mbind Saga_bind saga_bind run_saga]. rewrite Hver. cbn [run_saga]. rewrite decide_False by done. rewrite set_store_id.
  unfold corrupt. rewrite Hid, Eo. erewrite run_ctl by exact Hc. done.
Qed.

(** *** What a rollback request leaves *)

Lemma update_steps_steps (P : Step → Prop) `{!∀ s, Decision (P s)} f x x' :
  update_steps P f x = Some x' → x'.(steps) = (λ s, if decide (P s) then f s else s) <$> x.(steps).
Proof.
  set (g := λ s, if decide (P s) then f s else s).
  assert (Hnone : ∀ l, foldl (λ acc p, w ← acc; if decide (P p.2) then update_step p.1 f w else Some w) None l = None)
    by (by induction l).
  assert (Hfold : ∀ l pre y, y.(steps) = (g <$> pre) ++ l →
    foldl (λ acc p, w ← acc; if decide (P p.2) then update_step p.1 f w else Some w) (Some y)
      (imap (λ j s, ((length pre + j)%nat, s)) l) = Some x' → x'.(steps) = g <$> (pre ++ l)).
  { induction l as [|s l IH]; intros pre y Hy Hr; cbn in Hr; [injection Hr as <-; by rewrite Hy, fmap_app|].
    rewrite Nat.add_0_r in Hr. assert (∃ y', (if decide (P s) then update_step (length pre) f y else Some y) = Some y' ∧
      y'.(steps) = (g <$> (pre ++ [s])) ++ l) as (y' & Hy' & Es).
    { rewrite fmap_app, <-(assoc_L (++)). cbn. unfold g at 2. case_decide.
      - unfold update_step in *. rewrite Hy in Hr |- *.
        rewrite lookup_app_r, length_fmap, Nat.sub_diag in Hr |- * by (by rewrite length_fmap). cbn in Hr |- *.
        case_decide; [|by rewrite Hnone in Hr]. unfold account, update_instance in *. case_decide; [|by rewrite Hnone in Hr].
        eexists. split; [done|]. cbn. rewrite insert_app_r_alt by (by rewrite length_fmap). by rewrite length_fmap, Nat.sub_diag.
      - by exists y. }
    rewrite Hy' in Hr. apply (IH (pre ++ [s]) y') in Es; [by rewrite Es, <-(assoc_L (++))|].
    rewrite length_app. cbn. replace (imap (λ j s0, ((length pre + 1 + j)%nat, s0)) l) with (imap ((λ j s0, ((length pre + j)%nat, s0)) ∘ S) l); [done|].
    apply imap_ext. intros j s0 _. cbn. f_equal. lia. }
  intros Hr. by apply (Hfold x.(steps) [] x).
Qed.

Lemma rollback_effect i now_ms limits s s' x :
  s.(workflows) !! i.(instance_id) = Some x → x.(row).(rollback_requested) = false →
  request_workflow_rollback i now_ms limits s = (s', Ok ()) →
  x.(row).(identity) = i ∧ is_terminal x.(row).(state) = false ∧
  ∃ x', s'.(workflows) !! i.(instance_id) = Some x' ∧ x'.(row).(state) = WQueued ∧
    x'.(steps) = (λ y, if decide (unfinished y.(s_state) = true) then set_cancelled now_ms y else y) <$> x.(steps).
Proof.
  intros Hx Hreq Hr. unfold request_workflow_rollback in Hr. rewrite transaction_run in Hr.
  apply bind_run in Hr as (s1 & u1 & Ht & Hr). apply lift_run in Ht as [-> _].
  apply bind_run in Hr as (s1 & u2 & Ht & Hr). apply lift_run in Ht as [-> _].
  apply bind_run in Hr as (s1 & q & Ht & Hr). apply select_all in Ht as [-> Hq]. rewrite Hx in Hq. destruct Hq as [_ ->].
  apply bind_run in Hr as (s1 & row & Ht & Hr). apply some_or_run in Ht as [-> [= <-]].
  apply bind_run in Hr as (s1 & u3 & Ht & Hr). apply throw_if_run in Ht as [-> Hid%dec_stable].
  apply bind_run in Hr as (s1 & u4 & Ht & Hr). apply throw_if_run in Ht as [-> Hterm].
  split; [done|]. split; [by destruct (is_terminal _)|]. rewrite Hreq in Hr.
  apply bind_run in Hr as (s1 & u5 & Hc & Hr). apply bind_run in Hr as (s2 & u6 & He & Hr). unfold modify in Hr. injection Hr as <-.
  unfold cancel_unfinished, execute, execute_on, mbind, M_bind in Hc. rewrite Hx, decide_True in Hc by done.
  destruct (update_steps _ _ x) as [x1|] eqn:Hup; [|done]. injection Hc as <- _. apply update_steps_steps in Hup.
  unfold execute, execute_on, mbind, M_bind in He. cbn in He. rewrite lookup_insert_eq, decide_True in He by done.
  unfold update_instance in He. case_decide; [|done]. injection He as <- _.
  eexists. cbn. rewrite lookup_insert_eq. split; [done|]. done.
Qed.

Lemma ctl_run {A B} (m : CM B) (k : B → Saga A) w w' a :
  pure m → run_saga (ctl m ≫= k) w = (w', Ok a) → ∃ b, m w.(control) = (w.(control), Ok b) ∧ run_saga (k b) w = (w', Ok a).
Proof.
  intros Hp Hr. cbn in Hr. destruct (m w.(control)) as [c [b|e]] eqn:E; [|done]. assert (c = w.(control)) as -> by (by rewrite <-(Hp w.(control)), E).
  rewrite set_control_id in Hr. eauto.
Qed.
Lemma sch_run {A B} (m : WM B) (k : B → Saga A) w w' a :
  pure m → run_saga (sch m ≫= k) w = (w', Ok a) → ∃ b, m w.(store) = (w.(store), Ok b) ∧ run_saga (k b) w = (w', Ok a).
Proof.
  intros Hp Hr. cbn in Hr. destruct (m w.(store)) as [c [b|e]] eqn:E; [|done]. assert (c = w.(store)) as -> by (by rewrite <-(Hp w.(store)), E).
  rewrite set_store_id in Hr. eauto.
Qed.
Lemma lifted_run {A B} (r : result PlatformError B) (k : B → Saga A) w w' a :
  run_saga (Done r ≫= k) w = (w', Ok a) → ∃ b, r = Ok b ∧ run_saga (k b) w = (w', Ok a).
Proof. destruct r; cbn; [eauto|done]. Qed.

(** A rollback request the controller accepts: the instance is published without a prepared
    operation, and only the store has moved. *)
Lemma rollback_run admission limits owner def id now_ms w w' :
  agree w → run_saga (rollback_instance admission limits owner def id now_ms) w = (w', Ok ()) →
  ∃ v i s, read_reservation w.(control) id = Some v ∧ v.(rv_identity).(target).(definition_id) = def ∧
    ¬ (v.(rv_state) = Creating ∨ v.(rv_state) = Restarting ∨ v.(rv_state) = Releasing) ∧
    w.(control).(intents) !! id = None ∧ i = v.(rv_identity) ∧
    request_workflow_rollback i now_ms limits w.(store) = (s, Ok ()) ∧ w' = set_store s w.
Proof.
  intros Ha Hr. unfold rollback_instance in Hr. rewrite run_bind in Hr.
  destruct (run_saga (current_instance owner def id now_ms) w) as [w1 [i|e]] eqn:Hc; [|done].
  apply lifted_run in Hr as ([] & _ & Hr). unfold current_instance in Hc.
  apply ctl_run in Hc as (d & _ & Hc); [|apply definition_pure]. rewrite run_bind in Hc.
  destruct (run_saga (owned_reservation owner def id) w) as [w2 [v|e]] eqn:Ho; [|done].
  unfold owned_reservation in Ho. apply ctl_run in Ho as (o & Hv & Ho); [|apply reservation_pure].
  unfold reservation, gets in Hv. injection Hv as <-. cbn in Ho. injection Ho as <- Ho.
  destruct (read_reservation w.(control) id) as [v'|] eqn:Hv; [|done]. cbn in Ho. case_decide as Hown; [|done]. injection Ho as ->.
  apply ctl_run in Hc as (op & Hop & Hc); [|apply instance_operation_pure]. destruct op as [op|]; [done|].
  apply read_operation_run in Hop as [_ Hop]. unfold fails_if in Hc.
  apply lifted_run in Hc as (u1 & Hs%bail_if_Ok & Hc). apply sch_run in Hc as (q & Hq & Hc); [|apply workflow_instance_pure].
  apply lifted_run in Hc as (i' & Hi & Hc). apply lifted_run in Hc as (u2 & Hid%bail_if_Ok & Hc).
  apply lifted_run in Hc as (u3 & _ & Hc). cbn in Hc. injection Hc as <- <-. apply dec_stable in Hid.
  cbn in Hr. destruct (request_workflow_rollback _ _ _ _) as [s r] eqn:E. injection Hr as <- ->.
  exists v, i'.(identity), s. by destruct Hown.
Qed.
End live.
