(* ===== verification/WorkflowWorldTheorems.v ===== *)
(** * Properties of the workflow controller

    What the controller promises across its two databases: they agree in every reachable
    world, wherever a call stopped; a run it hands out is of a published instance; what a
    stopped process left open is settled by the reconciliation.  And where it does not: a
    rollback request disables the definition of its instance, a purged instance that is
    created again ends every reconciliation, and two concrete executions show how it comes to
    that and how overlapping calls break the agreement. *)

From stdpp Require Import base numbers list option strings sorting gmap.
From S2P Require Import Prelude Text ErrorCodes Duration RetryPolicy WorkflowTypes Sql WorkflowDb WorkflowRuns WorkflowSteps WorkflowBatch WorkflowHistory WorkflowLifecycle WorkflowOperations WorkflowVerify WorkflowStmt WorkflowEvolve WorkflowMoves WorkflowReach WorkflowProps WorkflowTheorems WorkflowFrame WorkflowControl WorkflowCatalog WorkflowBindings WorkflowReservations WorkflowIntents WorkflowControlInv WorkflowControlMoves WorkflowControlOps WorkflowControlInstances WorkflowControlReach WorkflowControlTheorems WorkflowController WorkflowWorld WorkflowWorldMoves WorkflowWorldBatch WorkflowWorldOps WorkflowWorldCalls WorkflowWorldLive.

Local Open Scope Z_scope.

(** ** Concrete worlds *)

#[local] Existing Instance demo_codec.
#[local] Existing Instance demo_cron.

(** The process stops after so many transactions. *)
Fixpoint stop {A} (n : nat) (p : Saga A) (w : World) : Saga A * World :=
  match n with
  | O => (p, w)
  | S n => match saga_next p w with Some (p', w') => stop n p' w' | None => (p, w) end
  end.

Definition unlimited : Z → result PlatformError unit := λ _, Ok ().
Definition call_at (now_ms : Z) (c : ControllerCall) : Saga unit := controller_call unlimited demo_limits now_ms c.
Definition answer (now_ms : Z) (c : ControllerCall) (w : World) : result PlatformError unit := (run_saga (call_at now_ms c) w).2.
Definition after (now_ms : Z) (c : ControllerCall) (w : World) : World := (run_saga (call_at now_ms c) w).1.
Definition availability_of (definition : N) (w : World) : option ResourceAvailability :=
  availability <$> w.(control).(definitions) !! definition.

Definition demo_request (drawn : N) : CreateRequest := {|
  cr_operation := 10; cr_external := Some (lit "order_1");
  cr_input := {| ci_payload_base64 := demo_value; ci_retention := None; ci_schedule := None |};
  cr_drawn_external := 0; cr_instance := drawn; cr_nonce := Some 77%N |}.
Definition demo_create : ControllerCall := Create 1 2 10 [demo_request 9].
(** The same request again: it draws another identity, and gets the instance it has. *)
Definition demo_replay : ControllerCall := Create 1 2 10 [demo_request 19].
Definition demo_delete : ControllerCall := DeleteInstance 1 2 9 60.
Definition demo_reconcile : ControllerCall := Reconcile id 100.

(** A catalog with one published definition, and an instance of it. *)
Definition world_bound : World := set_control (demo_catalog bound) (new_world 1).
Definition world_live : World := after 8 demo_create world_bound.
(** A run of the instance with an unfinished step. *)
Definition world_running : World :=
  let w := after 20 (Claim (λ _, Some 100%N)) world_live in
  set_store (exec (CallBatch demo_fence [demo_step 0 "charge" []] demo_rng 300000 21 demo_limits) w.(store)).1 w.
(** A creation stopped before its insertion, and a deletion stopped before its completion. *)
Definition world_creating : World := (stop 2 (call_at 8 demo_create) world_bound).2.
Definition world_purging : World := (stop 10 (call_at 30 demo_delete) world_live).2.

(** The creation is repeated after the purge was applied. *)
Definition world_revived : World := after 40 demo_replay world_purging.

(** The purge it left. *)
Definition demo_purge : WorkflowOperation :=
  match (instance_operations None 100 world_purging.(control)).2 with Ok (op :: _) => op | _ => demo_restart end.

Lemma stop_interleaved {A} n (p : Saga A) w : rtc interleaved (p, w) (stop n p w).
Proof.
  revert p w. induction n as [|n IH]; intros p w; cbn; [done|].
  destruct (saga_next p w) as [[p' w']|] eqn:E; [|done]. eapply rtc_l; [by apply il_saga|apply IH].
Qed.

Lemma reach_catalog cs w :
  Forall (λ x, catalog_call x.2 = true) cs → rtc world_step w (set_control (call_all cs w.(control)) w).
Proof.
  intros Hcs. revert w. induction Hcs as [|c cs Hc _ IH]; intros w; cbn; [by rewrite set_control_id|].
  eapply rtc_l; [by apply step_beside, (beside_catalog _ 1 c.1 c.2)|].
  apply (IH (set_control _ w)).
Qed.

Lemma demo_limits_unsigned : limits_unsigned demo_limits.
Proof. demo_ok. Qed.

Lemma reach_stop n now_ms c w :
  clock now_ms → allowed c w → world_reachable 1 w → world_reachable 1 (stop n (call_at now_ms c) w).2.
Proof.
  intros Hn Hok Hw. eapply rtc_r; [exact Hw|]. pose proof (stop_interleaved n (call_at now_ms c) w) as Hr.
  destruct (stop n (call_at now_ms c) w) as [p w'].
  by eapply (step_call w unlimited demo_limits now_ms c p); [apply demo_limits_unsigned| | |exact Hr].
Qed.
Lemma reach_after now_ms c w : clock now_ms → allowed c w → world_reachable 1 w → world_reachable 1 (after now_ms c w).
Proof.
  intros Hn Hok Hw. eapply rtc_r; [exact Hw|]. unfold after. destruct (run_saga (call_at now_ms c) w) as [w' r] eqn:E.
  eapply (step_call w unlimited demo_limits now_ms c (Done r)); [apply demo_limits_unsigned|done|done|]. by apply run_interleaved.
Qed.

Lemma world_bound_reachable : world_reachable 1 world_bound.
Proof. apply (reach_catalog bound (new_world 1)). repeat constructor. Qed.
Lemma fresh_allowed owner definition batch q w :
  w.(store).(progress) !! q.(cr_instance) = None → allowed (Create owner definition batch [q]) w.
Proof. intros Hq. cbn. by intros id ->%list_elem_of_singleton. Qed.
Lemma demo_create_allowed : allowed demo_create world_bound.
Proof. apply fresh_allowed. vm_compute. reflexivity. Qed.
Lemma world_live_reachable : world_reachable 1 world_live.
Proof. apply reach_after; [done|apply demo_create_allowed|apply world_bound_reachable]. Qed.
Lemma world_creating_reachable : world_reachable 1 world_creating.
Proof. apply reach_stop; [done|apply demo_create_allowed|apply world_bound_reachable]. Qed.
Lemma world_purging_reachable : world_reachable 1 world_purging.
Proof. apply reach_stop; [done|done|apply world_live_reachable]. Qed.
Lemma world_revived_reachable : world_reachable 1 world_revived.
Proof.
  apply reach_after; [done| |apply world_purging_reachable]. apply fresh_allowed. vm_compute. reflexivity.
Qed.
Lemma world_running_reachable : world_reachable 1 world_running.
Proof.
  eapply rtc_r; [apply (reach_after 20 (Claim (λ _, Some 100%N)) world_live); [done|done|apply world_live_reachable]|].
  apply step_beside, beside_executor; [done|]. demo_ok.
Qed.

(** ** The two databases *)

Section theorems.
Context `{Codec, CronParser}.

(** C5. The control catalog and the scheduler store agree in every world the platform reaches,
    whatever transaction of a controller call the process stopped at and whatever executors
    and catalog calls ran in between, provided the identities drawn for new instances are new
    to the scheduler: every published instance has its row under exactly its identity, a
    retained one is over, every row has its reservation, a batch is inserted and published as
    a whole, and a prepared restart or purge is either not yet applied to the row, or recorded
    with a decision the catalog can still read, or it is a recorded purge whose row a replay
    of the creation has inserted again. *)
Theorem world_agrees instance w : world_reachable instance w → agree w.
Proof. apply world_reachable_agree. Qed.

(** C6. A run that [claim] hands out, whatever executors and catalog calls commit between its
    transactions, is of a published instance: its reservation is live under exactly the
    identity of the run, no restart or purge of it is prepared, and every artifact of its
    version is pinned. *)
Theorem claim_grants_published instance w admission limits rng now_ms run w' :
  world_reachable instance w → limits_unsigned limits → clock now_ms →
  rtc interleaved (claim admission limits rng now_ms, w) (Done (Ok (Some run)), w') → granted run w'.
Proof.
  intros Hw Hl Hn Hr. eapply (safe_result _ _ _ (safe_interleaved _ _ _ _ _ (goes_claim limits now_ms admission Hl Hn rng w
    (world_reachable_agree _ _ Hw)) Hr)); done.
Qed.

(** C7. A restart or purge the scheduler has recorded, at which the process stopped before the
    catalog heard of it, is finished by the next attempt: it succeeds with the recorded
    verdict, leaves the store as it is, removes the intent, and both databases agree.  The
    one exception is a purge whose row a replay of the creation has inserted again: every
    attempt to finish it is refused and changes nothing. *)
Theorem decided_operation_finishes instance w op p limits now_ms :
  world_reachable instance w → pending w.(control) op →
  w.(store).(progress) !! op.(op_identity).(instance_id) = Some p → p.(p_sequence) = op.(op_sequence) →
  WorkflowsConfig_validate limits = Ok () → limits_unsigned limits → clock now_ms →
  is_ok (durable_deadline now_ms 0) = true →
  (∃ d c, decided w.(store) op d ∧
     run_saga (finish_operation limits op now_ms) w =
       (set_control c w, Ok (match d with Applied _ => None | Rejected _ code => Some code end)) ∧
     c.(intents) !! op.(op_identity).(instance_id) = None ∧ agree (set_control c w)) ∨
  (revived w.(store) op ∧ ∃ e, run_saga (finish_operation limits op now_ms) w = (w, Err e)).
Proof.
  intros Hw Hp Hprog Hseq Hl Hu Hc Hn. pose proof (world_reachable_agree _ _ Hw) as Ha.
  destruct (pending_recorded w op p Ha Hp Hprog Hseq) as [[d Hd]|Hv]; [left|right].
  - destruct (finish_decided w op d limits now_ms Ha Hp Hd Hl Hn) as (c & Hr & Hno). exists d, c. split_and!; [done..|].
    eapply safe_agree, safe_interleaved; [|by apply run_interleaved]. by apply (finish_safe limits now_ms (λ _ _, True)).
  - split; [done|by apply finish_revived].
Qed.

(** The whole batch of a reservation is published and inserted, or none of it is left. *)
Definition settled (c : ControlDb) (w : World) (now_ms : Z) (batch : N) : Prop :=
  (∀ id r, w.(control).(referrers) !! id = Some r → r.(rf_batch) = batch →
     c.(referrers) !! id = Some (set_ref_state Live now_ms r) ∧ is_Some (w.(store).(workflows) !! id)) ∨
  (∀ id r, w.(control).(referrers) !! id = Some r → r.(rf_batch) = batch →
     c.(referrers) !! id = None ∧ w.(store).(workflows) !! id = None).

(** C8. A creation at which the process stopped is settled as a whole by the reconciliation once
    its grace period is over: the reconciliation of its batch succeeds, leaves the store as it
    is, and either publishes every member of the batch, all of which have their rows, or
    removes every reservation of it, none of which has a row. *)
Theorem stopped_creation_settles instance w id r limits now_ms grace :
  world_reachable instance w → w.(control).(referrers) !! id = Some r → r.(rf_state) = Creating →
  (batch_count w.(control) r.(rf_batch) ≤ 100)%nat → i64_checked limits.(creation_grace_ms) = Some grace →
  grace ≤ i64_saturate (now_ms - r.(rf_created_at_ms)) →
  ∃ c, run_saga (reconcile_creation_batch limits r.(rf_batch) now_ms) w = (set_control c w, Ok ()) ∧
    settled c w now_ms r.(rf_batch).
Proof.
  intros Hw Hr Hs Hn Hg Hage. pose proof (world_reachable_agree _ _ Hw) as Ha.
  destruct (w.(store).(workflows) !! id) as [x|] eqn:Hx.
  - destruct (reconcile_present w id r limits now_ms Ha Hr Hs Hn) as (c & Hc & Hm); [by rewrite Hx|].
    exists c. split; [done|by left].
  - destruct (reconcile_absent w id r limits now_ms grace Ha Hr Hs Hn Hx Hg Hage) as (c & Hc & Hm).
    exists c. split; [done|by right].
Qed.

(** C24. A purge that was applied and whose row a replay of the creation has inserted again
    ends every reconciliation that reads it, at whatever time and under whatever limits: the
    reconciliation fails, does not move its cursor, and leaves the purge prepared and the row
    in place, so that the next one ends there again. *)
Theorem revived_blocks_reconciliation instance w op ops limits fresh limit now_ms :
  world_reachable instance w → pending w.(control) op → revived w.(store) op →
  instance_operations w.(memory).(reconcile_cursor).(cur_operation) limit w.(control) = (w.(control), Ok ops) → op ∈ ops →
  ∃ w' e, run_saga (reconcile limits fresh limit now_ms) w = (w', Err e) ∧
    pending w'.(control) op ∧ revived w'.(store) op ∧ w'.(memory) = w.(memory).
Proof.
  intros _ Hp Hv Hops Hin. destruct (reconcile_stuck w op ops limits fresh limit now_ms (conj Hp Hv) Hops Hin) as (w' & e & Hr & [Hp' Hv'] & Hm).
  by exists w', e.
Qed.
End theorems.

(** ** A rollback request *)

(** C23. A rollback request that is accepted on an instance with an unfinished step disables
    its definition.  In whatever world the platform has reached: the claim that next comes
    to the instance, at whatever time and under whatever limits, takes the cancelled step for
    corruption, fails, and leaves the definition, ready and healthy before, unavailable. *)
Theorem rollback_disables_definition `{Codec, CronParser} instance w admission limits owner def id now_ms w' x d :
  world_reachable instance w → limits_unsigned limits → clock now_ms →
  w.(store).(workflows) !! id = Some x → x.(row).(rollback_requested) = false →
  Exists (λ s, unfinished s.(s_state) = true) x.(steps) →
  w.(control).(definitions) !! def = Some d → d.(d_state) = DReady → d.(availability) = Healthy →
  run_saga (rollback_instance admission limits owner def id now_ms) w = (w', Ok ()) →
  ∀ limits' rng ids later, ∃ c,
    run_saga (claim_loop limits' rng later (id :: ids)) w' = (set_control c w', Err violation) ∧
    availability <$> c.(definitions) !! def = Some Unavailable.
Proof.
  intros Hw Hl Hn Hx Hreq Hun Hd Hready Hhealthy Hr limits' rng ids later. pose proof (world_reachable_agree _ _ Hw) as Ha.
  assert (Ha' : agree w').
  { eapply safe_agree, safe_interleaved; [|by apply run_interleaved]. by apply fine_rollback_instance. }
  destruct (rollback_run _ _ _ _ _ _ _ _ Ha Hr) as (v & i & s & Hv & <- & Hst & Hno & -> & Hs & ->).
  destruct (read_reservation_Some _ _ _ Hv) as (r & _ & _ & Hrow & _ & _ & _ & Est & Eid & _).
  destruct (rollback_effect _ _ _ _ _ x ltac:(by rewrite Eid) Hreq Hs) as (Hid & Hlive & x' & Hx' & Hq & Hsteps). rewrite Eid in Hx'.
  apply (cancelled_disables (set_store s w) id x' v d); try done.
  - by rewrite Hq.
  - rewrite Hsteps. apply Exists_exists in Hun as (y & Hy & Hu). apply Exists_exists. exists (set_cancelled now_ms y). split; [|done].
    apply list_elem_of_fmap. exists y. by rewrite decide_True.
  - pose proof (ag_linked _ Ha id) as Hlk. rewrite (linked_plain _ _ _ r v) in Hlk by done. destruct Hlk as [_ Hlk]. rewrite <-Est in Hlk.
    destruct (rv_state v); try tauto. destruct Hlk as (y & Hy & _ & Hover). rewrite Eid, Hx in Hy. injection Hy as <-.
    unfold over in Hover. congruence.
Qed.

(** ** Executions that fail *)

Lemma revived_purge_pending : pending world_revived.(control) demo_purge.
Proof. do 2 eexists. split_and!; vm_compute; reflexivity. Qed.
Lemma demo_purge_pending : pending world_purging.(control) demo_purge.
Proof. do 2 eexists. split_and!; vm_compute; reflexivity. Qed.
Lemma revived_intro s op x p :
  op.(op_kind) = Purge → s.(workflows) !! op.(op_identity).(instance_id) = Some x → x.(row).(identity) = op.(op_identity) →
  s.(progress) !! op.(op_identity).(instance_id) = Some p → p.(p_sequence) = op.(op_sequence) →
  bool_decide (same_operation p op) = true → p.(p_error_code) = None → revived s op.
Proof. intros Hk Hx Hid Hp Hs Ho%bool_decide_eq_true He. split; [done|]. split; [by exists x|by exists p]. Qed.
Lemma revived_purge : revived world_revived.(store) demo_purge.
Proof. eapply revived_intro; vm_compute; reflexivity. Qed.

(** A creation request repeated while the purge of its instance awaits its completion inserts
    the purged row again: the request fails, and every later reconciliation, which would have
    succeeded without the request, fails at the purge, whenever it runs. *)
Lemma replay_revives_purged :
  world_reachable 1 world_revived ∧ world_purging.(store).(workflows) !! 9%N = None ∧
  answer 50 demo_reconcile world_purging = Ok () ∧ answer 40 demo_replay world_purging = Err violation ∧
  is_Some (world_revived.(store).(workflows) !! 9%N) ∧
  ∀ now_ms fresh, is_ok (run_saga (controller_call unlimited demo_limits now_ms (Reconcile fresh 100)) world_revived).2 = false.
Proof.
  split; [apply world_revived_reachable|]. split; [vm_compute; reflexivity|]. split; [vm_compute; reflexivity|]. 
  split; [vm_compute; reflexivity|]. split; [eexists; vm_compute; reflexivity|]. intros now_ms fresh. cbn [controller_call].
  destruct (reconcile_stuck world_revived demo_purge [demo_purge] demo_limits fresh 100 now_ms (conj revived_purge_pending revived_purge))
    as (w' & e & Hr & _); [vm_compute; reflexivity|by left|]. rewrite Hr. reflexivity.
Qed.

(** Controller calls that overlap: a deletion that runs between two transactions of a
    reconciliation, and a reconciliation that runs past the grace period of a creation
    between its reservation and its insertion.  The first ends with the definition
    unavailable although nothing was lost; the second commits a row without a reservation,
    which the next reconciliation takes for corruption of the definition. *)
Lemma overlapping_calls_disable :
  (let '(p, w) := stop 8 (call_at 50 demo_reconcile) world_live in
   answer 51 demo_delete w = Ok () ∧
   let '(w', r) := run_saga p (after 51 demo_delete w) in
   r = Err violation ∧ w'.(control).(referrers) = ∅ ∧ w'.(store).(workflows) = ∅ ∧
   availability_of 2 w' = Some Unavailable) ∧
  (let '(p, w) := stop 2 (call_at 8 demo_create) world_bound in
   answer 100000 demo_reconcile w = Ok () ∧
   let '(w', r) := run_saga p (after 100000 demo_reconcile w) in
   w'.(control).(referrers) = ∅ ∧ is_Some (w'.(store).(workflows) !! 9%N) ∧ availability_of 2 w' = Some Healthy ∧
   availability_of 2 (after 100001 demo_reconcile w') = Some Unavailable).
Proof.
  split.
  - vm_compute. split_and!; reflexivity.
  - vm_compute. split_and!; try reflexivity. eexists. reflexivity.
Qed.

(** ** Concrete inputs *)

Lemma world_agrees_witness : agree world_purging.
Proof. apply (world_agrees 1 world_purging), world_purging_reachable. Defined.

Lemma demo_clock : clock 20.
Proof. done. Qed.
Lemma claim_grants_published_witness :
  ∃ run w', run_saga (claim unlimited demo_limits (λ _, Some 100%N) 20) world_live = (w', Ok (Some run)) ∧
    run.(c_fence) = demo_fence ∧ granted run w'.
Proof.
  assert (∃ run, (run_saga (claim unlimited demo_limits (λ _, Some 100%N) 20) world_live).2 = Ok (Some run) ∧
    run.(c_fence) = demo_fence) as (run & Hr & Hf) by (eexists; split; vm_compute; reflexivity).
  destruct (run_saga (claim unlimited demo_limits (λ _, Some 100%N) 20) world_live) as [w' r] eqn:E. cbn in Hr. subst r.
  exists run, w'. split; [done|]. split; [done|].
  exact (claim_grants_published 1 world_live unlimited demo_limits (λ _, Some 100%N) 20 run w' world_live_reachable
    demo_limits_unsigned demo_clock (run_interleaved _ _ _ _ E)).
Defined.

Lemma decided_unique s op d d' : decided s op d → decided s op d' → d = d'.
Proof. unfold decided. congruence. Qed.
Lemma undecided s op d e : read_decision op s = (s, Err e) → decided s op d → False.
Proof. unfold decided. congruence. Qed.
Lemma rollback_clock : clock 22.
Proof. done. Qed.
Lemma decided_operation_finishes_witness :
  (∃ c, run_saga (finish_operation demo_limits demo_purge 20) world_purging = (set_control c world_purging, Ok None) ∧
     c.(intents) !! 9%N = None) ∧
  (∃ e, run_saga (finish_operation demo_limits demo_purge 20) world_revived = (world_revived, Err e)).
Proof.
  assert (E : demo_purge.(op_identity).(instance_id) = 9%N) by (vm_compute; reflexivity). split.
  - assert (∃ p, world_purging.(store).(progress) !! demo_purge.(op_identity).(instance_id) = Some p ∧ p.(p_sequence) = demo_purge.(op_sequence))
      as (p & Hp & Hs) by (eexists; split; vm_compute; reflexivity).
    destruct (decided_operation_finishes 1 world_purging demo_purge p demo_limits 20 world_purging_reachable demo_purge_pending
      Hp Hs eq_refl demo_limits_unsigned demo_clock eq_refl) as [(d & c & Hd & Hr & Hi & _)|[Hv _]].
    + rewrite E in Hi. exists c. split; [|exact Hi].
      assert (Hd' : decided world_purging.(store) demo_purge (Applied demo_purge)) by (vm_compute; reflexivity).
      rewrite (decided_unique _ _ _ _ Hd Hd') in Hr. exact Hr.
    + exfalso. destruct Hv as (_ & (x & Hx & _) & _). rewrite E in Hx.
      assert (Hno : world_purging.(store).(workflows) !! 9%N = None) by (vm_compute; reflexivity). congruence.
  - assert (∃ p, world_revived.(store).(progress) !! demo_purge.(op_identity).(instance_id) = Some p ∧ p.(p_sequence) = demo_purge.(op_sequence))
      as (p & Hp & Hs) by (eexists; split; vm_compute; reflexivity).
    destruct (decided_operation_finishes 1 world_revived demo_purge p demo_limits 20 world_revived_reachable revived_purge_pending
      Hp Hs eq_refl demo_limits_unsigned demo_clock eq_refl) as [(d & c & Hd & _)|[_ He]]; [|exact He].
    exfalso. assert (Hd' : read_decision demo_purge world_revived.(store) = (world_revived.(store), Err violation)) by (vm_compute; reflexivity).
    exact (undecided _ _ _ _ Hd' Hd).
Defined.

Lemma revived_blocks_reconciliation_witness :
  ∃ w' e, run_saga (reconcile demo_limits id 100 50) world_revived = (w', Err e) ∧ revived w'.(store) demo_purge.
Proof.
  destruct (revived_blocks_reconciliation 1 world_revived demo_purge [demo_purge] demo_limits id 100 50 world_revived_reachable
    revived_purge_pending revived_purge) as (w' & e & Hr & _ & Hv & _); [vm_compute; reflexivity|by left|].
  exists w', e. exact (conj Hr Hv).
Defined.

Lemma rollback_disables_definition_witness :
  ∃ w' c, run_saga (rollback_instance unlimited demo_limits 1 2 9 22) world_running = (w', Ok ()) ∧
    run_saga (claim_loop demo_limits (λ _, Some 101%N) 30 [9%N]) w' = (set_control c w', Err violation) ∧
    availability <$> c.(definitions) !! 2%N = Some Unavailable.
Proof.
  assert (∃ x, world_running.(store).(workflows) !! 9%N = Some x ∧ x.(row).(rollback_requested) = false ∧
    Exists (λ s, unfinished s.(s_state) = true) x.(steps)) as (x & Hx & Hq & Hu).
  { eexists. split; [vm_compute; reflexivity|]. split; [vm_compute; reflexivity|]. apply (bool_decide_unpack _). vm_compute. exact I. }
  assert (∃ d, world_running.(control).(definitions) !! 2%N = Some d ∧ d.(d_state) = DReady ∧ d.(availability) = Healthy)
    as (d & Hd & Hs & Ha) by (eexists; split_and!; vm_compute; reflexivity).
  assert (Hok : (run_saga (rollback_instance unlimited demo_limits 1 2 9 22) world_running).2 = Ok ()) by (vm_compute; reflexivity).
  destruct (run_saga (rollback_instance unlimited demo_limits 1 2 9 22) world_running) as [w' r] eqn:Hr. cbn in Hok. subst r.
  destruct (rollback_disables_definition 1 world_running unlimited demo_limits 1 2 9 22 w' x d world_running_reachable
    demo_limits_unsigned rollback_clock Hx Hq Hu Hd Hs Ha Hr demo_limits (λ _, Some 101%N) [] 30) as (c & Hc & Hav).
  exists w', c. exact (conj eq_refl (conj Hc Hav)).
Defined.

Lemma stopped_creation_settles_witness :
  ∃ c, run_saga (reconcile_creation_batch demo_limits 10 100000) world_creating = (set_control c world_creating, Ok ()) ∧
    settled c world_creating 100000 10.
Proof.
  assert (∃ r, world_creating.(control).(referrers) !! 9%N = Some r ∧ r.(rf_state) = Creating ∧ r.(rf_batch) = 10%N ∧
    r.(rf_created_at_ms) = 8) as (r & Hr & Hs & Hb & Hc) by (eexists; split_and!; vm_compute; reflexivity).
  rewrite <-Hb. apply (stopped_creation_settles 1 world_creating 9 r demo_limits 100000 60000 world_creating_reachable Hr Hs).
  - rewrite Hb. apply (bool_decide_unpack _). vm_compute. exact I.
  - vm_compute. reflexivity.
  - rewrite Hc. vm_compute. discriminate.
Defined.
